(* ===== verification/_CoqProject ===== *)
-Q . S2P
Prelude.v
Text.v
Codec.v
Core.v
Effects.v
Tasks.v
Registry.v
Json.v
WatchCache.v
MetadataStore.v
ReadModel.v
Aggregator.v
Spiffe.v
FedWatch.v
Projector.v
Ownership.v
Server.v
Forwarding.v
Versioned.v
Lease.v
OwnerLocator.v
Directory.v
KubeApi.v
BTree.v
NetAddr.v
Dns.v
DnsChange.v
ZoneLifecycle.v
CloudAccounts.v
Capabilities.v
CloudCodecs.v
KubeAccounts.v
KubeCapabilities.v
Discovery.v
Inspection.v
ProviderErrors.v
RecordValues.v
Tokens.v
CredentialFiles.v
Admission.v
Identity.v
Permissions.v
Oidc.v
AdminAuth.v
Sar.v
Route53Model.v
Route53Plan.v
Route53Adapter.v
Route53Lifecycle.v
CloudflareModel.v
CloudflareInventory.v
CloudflarePlan.v
CloudflareTokens.v
CloudflareAdapter.v
CloudflareHttp.v
CloudflareLifecycle.v
CloudflareWriter.v
CloudflareDnsApi.v
CloudflareDnsAdmin.v
CloudflareServices.v
CloudflareWrites.v
