(* ===== verification/Prelude.v ===== *)
(** * EdgionCenter: a verification development

    EdgionCenter is the control plane of a fleet of edge controllers.  Each
    controller keeps one bidirectional stream to a Center replica; over it the
    Center learns the controller's configuration documents and statistics, and
    sends it proxied HTTP requests.  Several replicas share a Kubernetes cluster:
    a Lease per controller says which replica owns its stream, a custom resource
    shows every controller to operators, and a replica that is asked about a
    controller it does not own forwards the request once to the owner.

    The Center also manages DNS zones at cloud providers: provider accounts and
    what their credentials may do are stored in Kubernetes, and changes of records
    and zones are validated, planned against what the provider holds, and sent to
    Route 53 or Cloudflare under a guard.

    This library translates the Rust code of that core into executable Rocq
    definitions and proves what makes it correct.  Names follow the source; paths
    below are relative to [src/crates].

    ** Files and what they model

    Shared:

    - [Prelude]: results and [let?], machine integers with their wrap-around or
      saturation, strings (trimming, splitting, decimal numbers), shared lemmas,
      tactics and the hint database [center].
    - [Text]: character classes, bounded texts, decimal and hexadecimal integers of
      a given width, the byte order of strings.
    - [Codec]: encodings of countable types as strings, for instances of the
      parameters.
    - [Core]: [center-core/src/{error,controller,coordination,audit}.rs]:
      identifiers and their validation, errors and their text, ownership fences,
      leadership, observations, audit events.
    - [Effects]: asynchronous code as trees of calls on a port ([prog]); running a
      program alone ([run], [exec]), in a pool of threads interleaved at every call
      ([pool_step]), and rely/guarantee reasoning about it ([safe]).
    - [Tasks]: pools of tasks that can be dropped while a call is pending, and a
      rely/guarantee principle with guards of calls for them.
    - [BTree]: [BTreeSet] and [BTreeMap] as sorted lists over the class [Ord].
    - [Json]: the JSON documents the Center stores, as data.

    The federation:

    - [Registry]: [center-runtime/src/federation/registry.rs], the live sessions;
      cancellation tokens and ownership flags are shared cells addressed by
      references, so that aliases held by other tasks are visible.
    - [WatchCache]: [center-runtime/src/watch_cache/{cache,registry,traits,mod}.rs],
      the per-controller document caches behind shared references and the class
      [CenterConfHandler] of their change handler.
    - [MetadataStore]: [metadata_store.rs], the handler of the Center: the table of
      region-route overrides; an instance of that class.
    - [ReadModel]: [watch_cache/read_model.rs], redacted and sorted listings.
    - [Aggregator]: [aggregator.rs], controller snapshots and published gauges.
    - [Spiffe]: [federation/spiffe.rs], the peer identity of a controller.
    - [FedWatch], [Projector], [Ownership], [Server]: [federation/server.rs]:
      validation and the reverse watch; the runtime projector and the observation
      clock; Lease maintenance, offline projection and its reconciler; and the
      stream handler [sync] that composes all of the above.
    - [Forwarding]: [proxy.rs], [internal_forwarding/mod.rs], [eviction.rs].

    Kubernetes ([center-adapter-kubernetes/src]):

    - [Versioned]: an in-memory object store with optimistic versions, the common
      instance of the API-server interfaces.
    - [Lease]: [lease.rs] over the class [LeaseApi].
    - [OwnerLocator]: [owner_locator.rs].
    - [Directory]: [controller_directory.rs] and [crd.rs] over the class
      [DirectoryApi].
    - [KubeApi]: the API server for one kind of custom resource, the class
      [KubeLaws] of its optimistic concurrency and an in-memory instance.
    - [KubeAccounts]: [provider_account_store.rs], [provider_account_crd.rs].
    - [KubeCapabilities]: [cloud_capability_store.rs], [cloud_capability_crd.rs].

    The cloud domain ([center-core/src/cloud.rs] and [cloud/]):

    - [NetAddr]: IPv4 and IPv6 addresses, their text and parsing.
    - [Dns], [DnsChange]: [dns.rs]: names, record sets and their validation; changes
      and the validation of a batch, with its specification [batch_ok].
    - [ZoneLifecycle]: [zone_lifecycle.rs].
    - [ProviderErrors]: [provider_errors.rs], [direct_call.rs].
    - [CloudAccounts]: [credentials.rs], [status.rs], [provider_accounts.rs] and the
      account part of [cloud.rs].
    - [Capabilities]: [capabilities.rs]; [CloudCodecs]: countable instances of its
      data.
    - [Discovery]: [center-runtime/src/cloud/capability_discovery.rs], the service
      that refreshes snapshots: flights, gates and permits are the shared state of a
      pool of requests ([Tasks]).
    - [Inspection]: [cloud/credential_inspection.rs], the service that inspects
      credentials, in the same way.

    Route 53 ([center-adapter-route53/src]):

    - [Route53Model]: [model.rs], the codec of record sets.
    - [Route53Plan]: the planning of a change batch in [lib.rs], and its
      specification: stores, guards and the effect of changes.
    - [Route53Adapter]: [lib.rs] and the port of [api.rs]: signed tokens,
      pagination, inventory, submission and observation of changes.
    - [Route53Lifecycle]: the constructors of the adapter and the hosted-zone
      lifecycle.

    Cloudflare ([center-adapter-cloudflare/src]):

    - [RecordValues], [Tokens]: the facts about record values and about signed
      tokens that the adapters of both providers use.
    - [CloudflareModel]: zones and records as the API posts and lists them;
      rendering a record set and reading a record ([lib.rs], and [map_record] of
      [http.rs]).
    - [CloudflareInventory]: the aggregation of listed records into record sets.
    - [CloudflarePlan]: the planning of a batch and the check of its answer, with
      the same specification of changes as Route 53.
    - [CloudflareTokens]: key rings, cursors, pagination and change receipts.
    - [CloudflareAdapter]: constructors, listings and record operations over the
      port [cf_call] (the trait [CloudflareApi]).
    - [CloudflareHttp]: [http.rs], the implementation of that port over the network:
      the program [via_http] of each call.
    - [CloudflareLifecycle]: the zone lifecycle and its receipts.
    - [CloudflareWriter]: [CloudflareDnsSyncWriter], the writer of the
      synchronization.

    Around the adapters:

    - [CredentialFiles]: [center-adapter-credential-files/src/lib.rs], mounted
      credentials over the port of a file system.
    - [CloudflareDnsApi]: [center-app/src/api/cloudflare_dns.rs], the HTTP handlers
      of the Cloudflare DNS API over the port of the two services.
    - [CloudflareDnsAdmin]: [center-integration-cloudflare/src/dns_admin.rs], the
      projection of the adapter's observations to the answers of that API.
    - [Admission], [CloudflareServices], [CloudflareWrites]: [dns_write_service.rs]
      of the same crate: the semaphores of accounts as a state machine; the port of
      the account store, the credential files and the provider behind dispatch
      tracking; the service, its authority checks and deadline, and its composition
      with the handlers above it and the adapter below it.

    The admin API ([center-app/src]):

    - [Identity]: the claims of an authenticated request and their validation
      ([common/unified_auth/mod.rs]).
    - [Permissions]: [center-core/src/{authz,capabilities}.rs], the permission
      catalog [common/authz/catalog.rs], the action of a request and the route table
      of [api/mod.rs].
    - [Oidc]: [common/auth/], configuration and the validation of tokens against the
      keys of a provider, with the cache that requests share.
    - [AdminAuth]: [common/unified_auth], [common/authz/middleware.rs],
      [common/local_auth] and the composition of the routers
      ([common/api/compose.rs]).
    - [Sar]: [center-adapter-kubernetes/src/sar.rs], the authorizer that asks
      Kubernetes, and the admin API over it.

    ** What the theorems show

    Claim numbers are those of the manifest.

    - Sessions (C1, C34): along every execution at most one session per controller
      is online and can be looked up; one that is being removed cannot be found any
      more; a superseded session changes nothing.  Fencing is immediate and
      irrevocable, a refused registration leaves nothing behind.
    - Ownership (C3): for any number of replicas interleaved at every await, a
      fencing epoch identifies one acquisition, a superseded holder neither renews
      nor releases, and the dispatch flag is cleared before a Lease is released.
    - The directory (C6): epochs and stamps only grow.
    - The reverse watch (C11, C24): batches agree with a reference semantics, the
      override table refines the caches.
    - Forwarding (C8): a request is dispatched at most once or hops to at most two
      owners, the second only after a stale answer, which in turn means that nothing
      was sent.
    - Projection and identity (C35): no observation is lost before the directory has
      persisted or declined it; a certificate is bound to the identity it registers.
    - Record changes (C2, C4, C7, C9, C10, C25, C32): a batch is accepted exactly if
      it satisfies the specification; the codecs of both providers are lossless; a
      planned request refines the changes on the provider's store; a run sends at
      most one request, planned on a complete inventory, and reports its outcome
      honestly; against an honest provider the result is exact if the record sets
      are in the form in which they are observed, and an unknown outcome if one is
      not.
    - The Cloudflare client (C13, C29, C36): writes are sent once and never retried,
      a definite failure means the API turned the request down, errors are well
      formed and do not carry the token; the adapter keeps its promise over this
      client.
    - Tokens and receipts (C12): pagination is complete and terminates, also while
      keys rotate; cursors are authentic; receipts lead back to the change or
      mutation they were issued for.
    - Zones (C30, C31, C33, C37, C40): deletion and signing happen on evidence of
      the same run; creation at Route 53 is idempotent; adapters are bound to one
      account and never reuse keys; the synchronization writer deletes only what it
      has checked and reports only what it has seen.
    - Credentials and the DNS API (C14, C15, C21, C22, C23): a credential comes only
      from the file that was bound to the scope of the request; a confirmed write is
      accepted as the answer to the request that asked for it; a mutation is sent at
      most once, under an authority that was checked after the last read; a definite
      answer of the write API, deadline included, is true; the semaphores keep their
      limits and lose no permit.
    - The admin API (C16, C17, C18, C19, C20): the catalog names the key of every
      handler the router can reach, except that HEAD of a Route 53 read is an
      unmapped action; only tokens that the identity provider signed and that are in
      force are accepted, also while keys rotate; no handler runs without a token
      and a decision for this very request; reviews of two different principals or
      requests differ, controllers being told apart by the digest in their resource
      names.
    - Accounts and capabilities (C5, C26, C27, C28, C38, C39): the history of an
      account is a sequence of compare-and-swaps; a superseded discovery cannot
      commit and the store only moves forward; one request at a time discovers an
      authority, and what it returns is the provider's report under the fence of the
      run, or what it read in the cache while it was fresh; the authority an
      inspection returns is borne out by the account and recent; the capability gate
      is fail-closed; the event history keeps the latest events.
    - Theorems without a claim number state further behaviour of the components;
      among them are those that differ from what the comments of the code promise
      ([late_rejection_hides_live_session], [evict_fenced_race],
      [projection_erases_spec], [add_delete_batch_leaves_override]), which are
      listed as findings of the manifest.

    ** Modelling choices

    - One critical section, or one load or store of an atomic, is one atomic step
      (the removal of a session, which goes on after its critical section, is
      three); every await and every gap between two such calls is a point where
      other tasks may act.  The cache handler runs in the step of the cache update
      that triggers it; the code calls it right after it releases the cache lock.
    - A future that its caller drops at an await answers so ([SendDropped],
      [DroppedFuture]) or, in a pool of [Tasks], vanishes and releases what it
      holds; timeouts are answers of the port, and under a deadline each await may
      stay unanswered ([timed], [deadline]).
    - The iteration order of a [HashMap] is that of [map_to_list]; results that are
      sorted or sets do not depend on it.  Cache revisions wrap at 64 bits.
    - Loops without a bound in the source ([maintain_ownership], the offline retry
      loop, the compare-and-swap loop of the observation clock) take fuel; running
      out of fuel means the task is still running.  Their safety theorems hold for
      every fuel, and the retry and clock theorems say which fuel gives the result.
      The conflict loops of Lease and directory keep the source's bound of 8, the
      forwarding loops that of 2; for the latter the code's [unreachable!] is a
      value that is proved never to be returned.
    - Not code of the repository, hence parameters: the X.509 and JSON parsers, the
      derived JSON codecs (a codec round-trips), the protobuf codecs, SHA-256 and
      HMAC (an HMAC has 32 bytes), base64 (it round-trips; for the receipt of a
      created zone also: its alphabet and the sizes of texts, class [TokenSizes]),
      the IDNA mapping of names (class [IdnaLaws]: it lower-cases and is
      idempotent), the debug format of strings, the Kubernetes API (with the laws of
      optimistic concurrency as class fields and an in-memory instance), the Route
      53 API, which may answer anything, the network below the Cloudflare client,
      URL joining and header values, JOSE signatures, JSON web tokens, password
      hashes, percent decoding, and the clocks.  The route matching of axum is
      modelled as its documentation describes it.  Each class of laws has a concrete
      instance.
    - Loops over provider pages carry the bound of the source (10000 pages for Route
      53, 200 of zones and 20 of records for Cloudflare) as fuel.
    - A value whose fields are private and checked by its constructor is its
      representation; the constructor is the function that checks.

    ** Not modelled

    The heartbeat task and the channel forwarder of a session, the shutdown task
    counter, metric emission; the AWS SDK client; the SQL adapter and the management traits it
    implements; the read service and the inspector of Cloudflare and the integration
    services of Route 53; the business handlers of the admin API other than those of
    the Cloudflare DNS API, its audit middleware and its IP allow list; binaries, web
    front end and deployment files. *)
From Stdlib Require Import Ascii String ZArith Lia.
From stdpp Require Export prelude gmap strings sorting.

#[export] Set Default Goal Selector "!".

(** ** Results

    Rust's [Result<T, E>]. *)

Inductive result (A E : Type) : Type :=
| Ok (a : A)
| Err (e : E).
Arguments Ok {A E} a.
Arguments Err {A E} e.

Declare Scope center_scope.
Delimit Scope center_scope with center.
Global Open Scope center_scope.

(** [let? x := r in k] is Rust's [let x = r?; k]. *)
Notation "'let?' x ':=' r 'in' k" :=
  (match r with Ok x => k | Err e => Err e end)
  (at level 10, x name, r at level 100, k at level 200) : center_scope.

Definition map_err {A E F} (f : E → F) (r : result A E) : result A F :=
  match r with Ok a => Ok a | Err e => Err (f e) end.

Definition ok_or {A E} (e : E) (o : option A) : result A E :=
  match o with Some a => Ok a | None => Err e end.

Definition is_ok {A E} (r : result A E) : bool :=
  match r with Ok _ => true | Err _ => false end.

#[export] Instance result_eq_dec {A E} `{EqDecision A, EqDecision E} :
  EqDecision (result A E).
Proof. solve_decision. Defined.

(** ** Machine integers

    [u64], [u32], [i64] and [usize] values are kept as [Z]; the operations the
    code uses at a fixed width are written out. *)

Definition U64_MAX : Z := 2 ^ 64 - 1.
Definition U32_MAX : Z := 2 ^ 32 - 1.
Definition I64_MAX : Z := 2 ^ 63 - 1.
Definition I32_MAX : Z := 2 ^ 31 - 1.

Definition u64_wrapping_add (a b : Z) : Z := (a + b) mod 2 ^ 64.
Definition u64_saturating_add (a b : Z) : Z := Z.min (a + b) U64_MAX.
Definition u64_checked_add (a b : Z) : option Z :=
  if (a + b <=? U64_MAX)%Z then Some (a + b)%Z else None.
Definition u32_saturating_add (a b : Z) : Z := Z.min (a + b) U32_MAX.
Definition u32_saturating_sub (a b : Z) : Z := Z.max (a - b) 0.
Definition u32_wrapping_add (a b : Z) : Z := (a + b) mod 2 ^ 32.
Definition i32_saturating_add (a b : Z) : Z := Z.min (a + b) I32_MAX.
Definition u64_saturating_mul (a b : Z) : Z := Z.min (a * b) U64_MAX.

(** [Vec::len], [HashMap::len] and [str::len] as [usize]. *)
Definition zlen {A} (l : list A) : Z := Z.of_nat (length l).
Definition zsize {K} `{Countable K} {V} (m : gmap K V) : Z := Z.of_nat (size m).
Definition str_len (s : string) : Z := Z.of_nat (String.length s).

(** ** Strings

    A Rust [String] is the sequence of its UTF-8 bytes. *)

Definition byte_val (c : ascii) : N := N_of_ascii c.

Fixpoint str_mem (c : ascii) (s : string) : bool :=
  match s with
  | EmptyString => false
  | String d s => Ascii.eqb c d || str_mem c s
  end.

Definition is_empty (s : string) : bool :=
  match s with EmptyString => true | _ => false end.

(** [s.chars().any(char::is_control)]: the general category Cc is U+0000 to
    U+001F and U+007F to U+009F; in UTF-8 the upper half is 0xC2 followed by
    0x80 to 0x9F. *)
Fixpoint has_control (s : string) : bool :=
  match s with
  | EmptyString => false
  | String c s' =>
      (byte_val c <? 32)%N || (byte_val c =? 127)%N
      || ((byte_val c =? 194)%N
          && match s' with
             | String d _ => (128 <=? byte_val d)%N && (byte_val d <? 160)%N
             | EmptyString => false
             end)
      || has_control s'
  end.

(** The UTF-8 encodings of the characters with the White_Space property. *)
Definition ws1 (c : ascii) : bool :=
  ((9 <=? byte_val c)%N && (byte_val c <=? 13)%N) || (byte_val c =? 32)%N.
Definition ws2 (c d : ascii) : bool :=
  (byte_val c =? 194)%N && ((byte_val d =? 133)%N || (byte_val d =? 160)%N).
Definition ws3 (c d e : ascii) : bool :=
  let '(c, d, e) := (byte_val c, byte_val d, byte_val e) in
  ((c =? 225)%N && (d =? 154)%N && (e =? 128)%N)
  || ((c =? 226)%N && (d =? 128)%N
      && (((128 <=? e)%N && (e <=? 138)%N)
          || (e =? 168)%N || (e =? 169)%N || (e =? 175)%N))
  || ((c =? 226)%N && (d =? 129)%N && (e =? 159)%N)
  || ((c =? 227)%N && (d =? 128)%N && (e =? 128)%N).

(** Drop leading white space; with [rev] the string is reversed, and so are the
    bytes of a character. *)
Fixpoint trim_ws (rev : bool) (s : string) : string :=
  match s with
  | String c s1 =>
      if ws1 c then trim_ws rev s1 else
      match s1 with
      | String d s2 =>
          if (if rev then ws2 d c else ws2 c d) then trim_ws rev s2 else
          match s2 with
          | String e s3 =>
              if (if rev then ws3 e d c else ws3 c d e) then trim_ws rev s3 else s
          | EmptyString => s
          end
      | EmptyString => s
      end
  | EmptyString => s
  end.

Fixpoint str_rev_app (s acc : string) : string :=
  match s with
  | EmptyString => acc
  | String c s => str_rev_app s (String c acc)
  end.
Definition str_rev (s : string) : string := str_rev_app s EmptyString.

(** [str::trim]. *)
Definition str_trim (s : string) : string :=
  str_rev (trim_ws true (str_rev (trim_ws false s))).

(** [str::split_once(c)]. *)
Fixpoint split_once (c : ascii) (s : string) : option (string * string) :=
  match s with
  | EmptyString => None
  | String d s =>
      if Ascii.eqb c d then Some (EmptyString, s)
      else match split_once c s with
           | Some (a, b) => Some (String d a, b)
           | None => None
           end
  end.

Definition join_slash (a b : string) : string := a +:+ String "/"%char b.

(** [str::split(c)]: one segment more than there are separators. *)
Fixpoint str_split (c : ascii) (s : string) : list string :=
  match s with
  | EmptyString => [EmptyString]
  | String d s =>
      if Ascii.eqb c d then EmptyString :: str_split c s
      else match str_split c s with
           | [] => [String d EmptyString]
           | x :: xs => String d x :: xs
           end
  end.

Fixpoint str_join (xs : list string) : string :=
  match xs with
  | [] => EmptyString
  | [x] => x
  | x :: xs => join_slash x (str_join xs)
  end.

(** [to_ascii_lowercase] and [eq_ignore_ascii_case]. *)
Definition ascii_lower (c : ascii) : ascii :=
  if ((65 <=? byte_val c)%N && (byte_val c <=? 90)%N)%bool
  then ascii_of_N (byte_val c + 32) else c.
Fixpoint to_ascii_lowercase (s : string) : string :=
  match s with
  | EmptyString => EmptyString
  | String c s => String (ascii_lower c) (to_ascii_lowercase s)
  end.
Definition eq_ignore_ascii_case (a b : string) : bool :=
  String.eqb (to_ascii_lowercase a) (to_ascii_lowercase b).

(** [s.get(..n)] followed by [&s[n..]], for an ASCII boundary. *)
Fixpoint str_split_at (n : nat) (s : string) : option (string * string) :=
  match n, s with
  | O, _ => Some (EmptyString, s)
  | S n, String c s =>
      match str_split_at n s with
      | Some (a, b) => Some (String c a, b)
      | None => None
      end
  | S _, EmptyString => None
  end.

(** Byte-wise lexicographic order, Rust's [Ord for String]. *)
Definition str_le (a b : string) : Prop := String.leb a b = true.
#[export] Instance str_le_dec a b : Decision (str_le a b).
Proof. unfold str_le. apply _. Defined.

(** The separator of namespaced keys and controller ids. *)
Definition slash : ascii := "/"%char.
Definition join_key (a b : string) : string := join_slash a b.

(** ** Generic lemmas *)

Create HintDb center.
Create Rewrite HintDb center.

Lemma str_app_assoc (a b c : string) : (a +:+ b) +:+ c = a +:+ (b +:+ c).
Proof. induction a as [|x a IH]; [done|]. exact (f_equal (String x) IH). Qed.

Lemma str_app_nil_r (a : string) : a +:+ "" = a.
Proof. induction a as [|x a IH]; [done|]. exact (f_equal (String x) IH). Qed.

Lemma split_once_join (a b : string) :
  str_mem slash a = false → split_once slash (join_key a b) = Some (a, b).
Proof.
  unfold join_key, join_slash. induction a as [|c a IH]; intros Hm; [done|].
  change (str_mem slash (String c a)) with (Ascii.eqb slash c || str_mem slash a) in Hm.
  apply orb_false_iff in Hm as [Hc Ha].
  change (String c a +:+ String "/" b) with (String c (a +:+ String "/" b)).
  cbn [split_once]. by rewrite Hc, IH.
Qed.

Lemma split_once_sound (s a b : string) :
  split_once slash s = Some (a, b) → s = join_key a b ∧ str_mem slash a = false.
Proof.
  unfold join_key, join_slash. revert a b. induction s as [|c s IH]; intros a b H; [done|].
  cbn [split_once] in H. destruct (Ascii.eqb slash c) eqn:E.
  - apply Ascii.eqb_eq in E. by simplify_eq.
  - destruct (split_once slash s) as [[a' b']|]; [|done]. simplify_eq.
    destruct (IH _ _ eq_refl) as [-> Hm]. split; [done|].
    cbn [str_mem]. by rewrite E.
Qed.

Lemma split_once_None (s : string) :
  split_once slash s = None ↔ str_mem slash s = false.
Proof.
  induction s as [|c s IH]; [done|]. cbn [split_once str_mem].
  destruct (Ascii.eqb slash c) eqn:E; simpl; [done|].
  rewrite <- IH. destruct (split_once slash s) as [[??]|]; naive_solver.
Qed.

Lemma str_mem_join (a b : string) : str_mem slash (join_key a b) = true.
Proof.
  unfold join_key, join_slash. induction a as [|c a IH]; [done|].
  change (String c a +:+ String "/" b) with (String c (a +:+ String "/" b)).
  cbn [str_mem]. by rewrite IH, orb_true_r.
Qed.

Lemma join_key_inj a b a' b' :
  str_mem slash a = false → str_mem slash a' = false →
  join_key a b = join_key a' b' → a = a' ∧ b = b'.
Proof.
  intros Ha Ha' Heq.
  pose proof (split_once_join a b Ha) as H1.
  rewrite Heq, (split_once_join a' b' Ha') in H1. by simplify_eq.
Qed.

Lemma str_split_nonnil c s : str_split c s ≠ [].
Proof.
  destruct s as [|d s]; [done|]. cbn [str_split].
  destruct (Ascii.eqb c d); [done|]. by destruct (str_split c s).
Qed.

Lemma str_split_at_app n p rest :
  String.length p = n → str_split_at n (p +:+ rest) = Some (p, rest).
Proof.
  intros <-. induction p as [|c p IH]; [done|].
  change (String c p +:+ rest) with (String c (p +:+ rest)). cbn [str_split_at String.length].
  by rewrite IH.
Qed.

Lemma str_split_at_Some n s p rest :
  str_split_at n s = Some (p, rest) → s = p +:+ rest ∧ String.length p = n.
Proof.
  revert s p. induction n as [|n IH]; intros s p Hs; simpl in Hs; [by simplify_eq|].
  destruct s as [|c s]; [done|].
  destruct (str_split_at n s) as [[a b]|] eqn:Hn; [|done]. simplify_eq.
  destruct (IH s a Hn) as [-> Hl]. split; [done|]. simpl. by rewrite Hl.
Qed.

(** Joining the segments gives the string back. *)
Lemma str_join_split s : str_join (str_split slash s) = s.
Proof.
  induction s as [|d s IH]; [done|]. cbn [str_split].
  pose proof (str_split_nonnil slash s) as Hn.
  destruct (Ascii.eqb slash d) eqn:E.
  - apply Ascii.eqb_eq in E. subst d. cbn [str_join].
    destruct (str_split slash s) as [|x xs]; [done|]. by rewrite IH.
  - destruct (str_split slash s) as [|x xs]; [done|]. rewrite <- IH. by destruct xs.
Qed.

Lemma str_split_clean c s : str_mem c s = false → str_split c s = [s].
Proof.
  induction s as [|d s IH]; [done|]. cbn [str_mem str_split].
  intros [-> Hs]%orb_false_iff. by rewrite IH.
Qed.

Lemma str_split_join_slash a b :
  str_mem slash a = false → str_split slash (join_slash a b) = a :: str_split slash b.
Proof.
  unfold join_slash. induction a as [|d a IH]; [done|]. cbn [str_mem].
  intros [Hd Ha]%orb_false_iff.
  change (String d a +:+ String "/" b) with (String d (a +:+ String "/" b)).
  cbn [str_split]. by rewrite Hd, IH.
Qed.

(** Every segment of [split] is free of the separator. *)
Lemma str_split_no_sep c s x : x ∈ str_split c s → str_mem c x = false.
Proof.
  revert x. induction s as [|d s IH]; intros x; cbn [str_split].
  - by intros ->%list_elem_of_singleton.
  - destruct (Ascii.eqb c d) eqn:E.
    + by intros [->|?]%elem_of_cons; [|apply IH].
    + destruct (str_split c s) as [|y ys] eqn:Es;
        [by destruct (str_split_nonnil c s)|].
      intros [->|Hx]%elem_of_cons; cbn [str_mem].
      * rewrite E. apply IH. by left.
      * apply IH. by right.
Qed.

Lemma list_filter_ext_in {A} (P Q : A → Prop) `{∀ x, Decision (P x), ∀ x, Decision (Q x)} (l : list A) :
  (∀ x, x ∈ l → P x ↔ Q x) → base.filter P l = base.filter Q l.
Proof.
  induction l as [|x l IH]; intros Hl; [done|]. rewrite !filter_cons, IH by (intros; apply Hl; by right).
  pose proof (Hl x ltac:(left)). do 2 case_decide; naive_solver.
Qed.

Lemma list_filter_none {A} (P : A → Prop) `{∀ x, Decision (P x)} (l : list A) :
  (∀ x, x ∈ l → ¬ P x) → base.filter P l = [].
Proof.
  induction l as [|x l IH]; intros Hl; [done|]. rewrite filter_cons, decide_False.
  - apply IH. intros y Hy. apply Hl. by right.
  - apply Hl. by left.
Qed.

#[export] Hint Rewrite @lookup_insert_eq @lookup_delete_eq @lookup_empty : center.
#[export] Hint Resolve split_once_join str_split_no_sep : center.

(** Destruct the scrutinee of a match or conditional of the goal, keeping the
    equation, and clean up. *)
Ltac break_goal :=
  repeat first
    [ progress simplify_eq/=
    | case_decide
    | match goal with
      | |- context [match ?x with _ => _ end] =>
          let E := fresh "E" in destruct x eqn:E
      end ].
Ltac break_hyp H :=
  repeat first
    [ progress simplify_eq/=
    | match type of H with
      | context [match ?x with _ => _ end] =>
          let E := fresh "E" in destruct x eqn:E
      end ].

(** ** Decimal representation of a [u64] *)

Definition digit_char (d : Z) : ascii := ascii_of_N (Z.to_N (48 + d)).
Definition char_digit (c : ascii) : option Z :=
  let n := Z.of_N (byte_val c) in
  if ((48 <=? n) && (n <=? 57))%Z then Some (n - 48)%Z else None.

(** [u64::to_string]; twenty digits are enough for 64 bits. *)
Fixpoint dec_digits (fuel : nat) (n : Z) (acc : string) : string :=
  match fuel with
  | O => acc
  | S fuel =>
      let acc := String (digit_char (n mod 10)) acc in
      if (n / 10 =? 0)%Z then acc else dec_digits fuel (n / 10) acc
  end.
Definition u64_to_string (n : Z) : string := dec_digits 20 n "".

(** [str::parse::<u64>]: digits with an optional leading plus, checked. *)
Fixpoint parse_digits (s : string) (v : Z) : option Z :=
  match s with
  | EmptyString => Some v
  | String c s =>
      d ← char_digit c;
      let v := (v * 10 + d)%Z in
      if (v <=? U64_MAX)%Z then parse_digits s v else None
  end.
Definition plus : ascii := "+".
Definition parse_u64 (s : string) : option Z :=
  match s with
  | EmptyString => None
  | String c s' =>
      if Ascii.eqb c plus
      then match s' with EmptyString => None | _ => parse_digits s' 0 end
      else parse_digits s 0
  end.

Lemma char_digit_char d : (0 <= d < 10)%Z → char_digit (digit_char d) = Some d.
Proof.
  intros Hd.
  assert (d = 0 ∨ d = 1 ∨ d = 2 ∨ d = 3 ∨ d = 4 ∨ d = 5 ∨ d = 6 ∨ d = 7 ∨ d = 8 ∨ d = 9)%Z
    as Hcases by lia.
  by repeat (destruct Hcases as [->|Hcases]; [done|]); subst.
Qed.

Lemma parse_dec_digits fuel n acc :
  (0 <= n <= U64_MAX)%Z → (n < 10 ^ Z.of_nat fuel)%Z → fuel ≠ 0 →
  parse_digits (dec_digits fuel n acc) 0 = parse_digits acc n.
Proof.
  revert n acc. induction fuel as [|fuel IH]; intros n acc Hn Hf Hnz; [done|].
  pose proof (Z.mod_pos_bound n 10 ltac:(lia)) as Hm.
  pose proof (Z.div_mod n 10 ltac:(lia)) as Hdm. cbn [dec_digits].
  destruct (Z.eqb_spec (n / 10) 0) as [H0|H0].
  - cbn [parse_digits]. rewrite char_digit_char by done. cbn [mbind option_bind].
    replace (0 * 10 + n mod 10)%Z with n by lia. by rewrite (proj2 (Z.leb_le n U64_MAX)) by lia.
  - rewrite Nat2Z.inj_succ, Z.pow_succ_r in Hf by lia.
    assert (0 <= n / 10)%Z by (apply Z.div_pos; lia).
    assert (fuel ≠ 0) by (intros ->; simpl in Hf; lia).
    rewrite IH by lia. cbn [parse_digits]. rewrite char_digit_char by done. cbn [mbind option_bind].
    replace (n / 10 * 10 + n mod 10)%Z with n by lia.
    by rewrite (proj2 (Z.leb_le n U64_MAX)) by lia.
Qed.

Lemma dec_digits_head fuel n acc :
  fuel ≠ 0 → ∃ d s, (0 <= d < 10)%Z ∧ dec_digits fuel n acc = String (digit_char d) s.
Proof.
  revert n acc. induction fuel as [|fuel IH]; intros n acc Hnz; [done|]. cbn [dec_digits].
  pose proof (Z.mod_pos_bound n 10 ltac:(lia)) as Hm.
  destruct (n / 10 =? 0)%Z; [by eexists _, _|].
  destruct fuel as [|fuel]; [by eexists _, _|]. by apply IH.
Qed.

Lemma parse_u64_to_string n : (0 <= n <= U64_MAX)%Z → parse_u64 (u64_to_string n) = Some n.
Proof.
  intros Hn. unfold u64_to_string.
  destruct (dec_digits_head 20 n "" ltac:(done)) as (d&s&Hd&Hs).
  pose proof (parse_dec_digits 20 n "" Hn) as Hp. rewrite Hs in *. unfold parse_u64.
  assert (Ascii.eqb (digit_char d) plus = false) as ->.
  { apply Ascii.eqb_neq. intros Heq. pose proof (char_digit_char d Hd) as Hc.
    rewrite Heq in Hc. done. }
  apply Hp; [|done]. unfold U64_MAX in Hn. lia.
Qed.

(** [i64::to_string]. *)
Definition i64_to_string (n : Z) : string :=
  if (n <? 0)%Z then "-" +:+ u64_to_string (- n) else u64_to_string n.

(** ** Trimming keeps the separator *)

Lemma ws1_slash c : ws1 c = true → Ascii.eqb slash c = false.
Proof. intros Hw. destruct (Ascii.eqb_spec slash c) as [<-|]; done. Qed.

Lemma ws2_slash c d : ws2 c d = true → Ascii.eqb slash c = false ∧ Ascii.eqb slash d = false.
Proof.
  intros Hw. split; [destruct (Ascii.eqb_spec slash c) as [<-|]; done|].
  destruct (Ascii.eqb_spec slash d) as [<-|]; [|done].
  unfold ws2 in Hw. change (byte_val slash) with 47%N in Hw. by rewrite andb_false_r in Hw.
Qed.

Lemma ws3_slash c d e :
  ws3 c d e = true →
  Ascii.eqb slash c = false ∧ Ascii.eqb slash d = false ∧ Ascii.eqb slash e = false.
Proof.
  intros Hw. split_and!.
  - destruct (Ascii.eqb_spec slash c) as [<-|]; done.
  - destruct (Ascii.eqb_spec slash d) as [<-|]; [|done]. unfold ws3 in Hw.
    change (byte_val slash) with 47%N in Hw. cbn in Hw. by rewrite !andb_false_r in Hw.
  - destruct (Ascii.eqb_spec slash e) as [<-|]; [|done]. unfold ws3 in Hw.
    change (byte_val slash) with 47%N in Hw. cbn in Hw. by rewrite !andb_false_r in Hw.
Qed.

Lemma str_mem_trim_ws rev s : str_mem slash (trim_ws rev s) = str_mem slash s.
Proof.
  remember (String.length s) as n eqn:Hn. revert s Hn.
  induction (lt_wf n) as [n _ IH]. intros s ->.
  assert (IHs : ∀ t, String.length t < String.length s →
    str_mem slash (trim_ws rev t) = str_mem slash t) by (intros; by eapply IH).
  clear IH. destruct s as [|c s1]; [done|].
  change (trim_ws rev (String c s1)) with
    (if ws1 c then trim_ws rev s1 else
     match s1 with
     | String d s2 =>
         if (if rev then ws2 d c else ws2 c d) then trim_ws rev s2 else
         match s2 with
         | String e s3 =>
             if (if rev then ws3 e d c else ws3 c d e) then trim_ws rev s3 else String c s1
         | EmptyString => String c s1
         end
     | EmptyString => String c s1
     end).
  destruct (ws1 c) eqn:E1.
  { rewrite IHs by (simpl; lia). cbn [str_mem]. by rewrite (ws1_slash _ E1). }
  destruct s1 as [|d s2]; [done|].
  destruct (if rev then ws2 d c else ws2 c d) eqn:E2.
  { rewrite IHs by (simpl; lia). cbn [str_mem].
    by destruct rev; destruct (ws2_slash _ _ E2) as [-> ->]. }
  destruct s2 as [|e s3]; [done|].
  destruct (if rev then ws3 e d c else ws3 c d e) eqn:E3; [|done].
  rewrite IHs by (simpl; lia). cbn [str_mem].
  by destruct rev; destruct (ws3_slash _ _ _ E3) as (->&->&->).
Qed.

Lemma str_mem_rev c s : str_mem c (str_rev s) = str_mem c s.
Proof.
  unfold str_rev. enough (∀ acc, str_mem c (str_rev_app s acc) = str_mem c s || str_mem c acc) as H.
  { by rewrite H, orb_false_r. }
  induction s as [|d s IH]; intros acc; [done|]. cbn [str_rev_app str_mem]. rewrite IH.
  cbn [str_mem]. by destruct (Ascii.eqb c d), (str_mem c s).
Qed.

Lemma str_mem_trim s : str_mem slash (str_trim s) = str_mem slash s.
Proof. unfold str_trim. by rewrite str_mem_rev, str_mem_trim_ws, str_mem_rev, str_mem_trim_ws. Qed.

Lemma trim_join_key a b : is_empty (str_trim (join_key a b)) = false.
Proof.
  pose proof (str_mem_trim (join_key a b)) as H. rewrite str_mem_join in H.
  by destruct (str_trim (join_key a b)).
Qed.
