(* ===== verification/Text.v ===== *)
(** * Text: the string operations of the standard library the cloud code uses

    Character classes, prefixes and suffixes, splitting and joining, UTF-8
    validity and bounded decimal parsing, with the lemmas that the name and
    record codecs share.  A string is the sequence of its UTF-8 bytes, so a
    test on characters that only ASCII characters pass is a test on bytes. *)

From S2P Require Import Prelude.
From Stdlib Require Import ZArith Ascii String Lia.

(** ** Character classes *)

Definition in_range (lo hi : N) (c : ascii) : bool :=
  (lo <=? byte_val c)%N && (byte_val c <=? hi)%N.

Definition is_ascii_digit (c : ascii) : bool := in_range 48 57 c.
Definition is_ascii_uppercase (c : ascii) : bool := in_range 65 90 c.
Definition is_ascii_lowercase (c : ascii) : bool := in_range 97 122 c.
Definition is_ascii_alphanumeric (c : ascii) : bool :=
  is_ascii_digit c || is_ascii_uppercase c || is_ascii_lowercase c.
Definition is_ascii_hexdigit (c : ascii) : bool :=
  is_ascii_digit c || in_range 65 70 c || in_range 97 102 c.
(** Tab, line feed, form feed, carriage return, space. *)
Definition is_ascii_whitespace (c : ascii) : bool :=
  (byte_val c =? 32)%N || (byte_val c =? 9)%N || (byte_val c =? 10)%N
  || (byte_val c =? 12)%N || (byte_val c =? 13)%N.

Definition ch_dot : ascii := ".".
Definition ch_dash : ascii := "-".
Definition ch_underscore : ascii := "_".
Definition ch_colon : ascii := ":".
Definition ch_space : ascii := " ".
Definition ch_backslash : ascii := "\".
Definition ch_quote : ascii := ascii_of_N 34.

(** ** Tests on strings *)

Fixpoint str_all (p : ascii → bool) (s : string) : bool :=
  match s with
  | EmptyString => true
  | String c s => p c && str_all p s
  end.

Definition str_head (s : string) : option ascii :=
  match s with EmptyString => None | String c _ => Some c end.
Fixpoint str_last (s : string) : option ascii :=
  match s with
  | EmptyString => None
  | String c EmptyString => Some c
  | String _ s => str_last s
  end.
Definition is_some_and {A} (p : A → bool) (o : option A) : bool :=
  match o with Some a => p a | None => false end.

(** [starts_with(c)] and [ends_with(c)]. *)
Definition starts_with_char (c : ascii) (s : string) : bool := is_some_and (Ascii.eqb c) (str_head s).
Definition ends_with_char (c : ascii) (s : string) : bool := is_some_and (Ascii.eqb c) (str_last s).

Fixpoint strip_prefix (p s : string) : option string :=
  match p, s with
  | EmptyString, _ => Some s
  | String c p, String d s => if Ascii.eqb c d then strip_prefix p s else None
  | String _ _, EmptyString => None
  end.
Definition starts_with (p s : string) : bool := bool_decide (is_Some (strip_prefix p s)).

Fixpoint ends_with (suf s : string) : bool :=
  String.eqb suf s || match s with EmptyString => false | String _ s => ends_with suf s end.

(** [strip_suffix(c)]. *)
Fixpoint strip_suffix_char (c : ascii) (s : string) : option string :=
  match s with
  | EmptyString => None
  | String d EmptyString => if Ascii.eqb c d then Some EmptyString else None
  | String d s => String d <$> strip_suffix_char c s
  end.

(** [chars().count()]: the bytes that are not UTF-8 continuation bytes. *)
Fixpoint char_count (s : string) : Z :=
  match s with
  | EmptyString => 0
  | String c s => (if in_range 128 191 c then 0 else 1) + char_count s
  end%Z.

Fixpoint to_ascii_uppercase (s : string) : string :=
  match s with
  | EmptyString => EmptyString
  | String c s =>
      String (if is_ascii_lowercase c then ascii_of_N (byte_val c - 32) else c)
        (to_ascii_uppercase s)
  end.

(** [String::from_utf8]: the well-formed byte sequences. *)
Definition cont (c : ascii) : bool := in_range 128 191 c.
Fixpoint utf8_valid (s : string) : bool :=
  match s with
  | EmptyString => true
  | String a s1 =>
      if in_range 0 127 a then utf8_valid s1
      else match s1 with
      | EmptyString => false
      | String b s2 =>
          if in_range 194 223 a then cont b && utf8_valid s2
          else match s2 with
          | EmptyString => false
          | String c s3 =>
              if in_range 224 239 a then
                (if (byte_val a =? 224)%N then in_range 160 191 b
                 else if (byte_val a =? 237)%N then in_range 128 159 b else cont b)
                && cont c && utf8_valid s3
              else match s3 with
              | EmptyString => false
              | String d s4 =>
                  in_range 240 244 a
                  && (if (byte_val a =? 240)%N then in_range 144 191 b
                      else if (byte_val a =? 244)%N then in_range 128 143 b else cont b)
                  && cont c && cont d && utf8_valid s4
              end
          end
      end
  end.

(** ** Splitting and joining *)

(** [[T]::join(sep)] for a one-character separator. *)
Fixpoint join_with (sep : ascii) (xs : list string) : string :=
  match xs with
  | [] => EmptyString
  | [x] => x
  | x :: xs => x +:+ String sep (join_with sep xs)
  end.

(** [split_ascii_whitespace]: the maximal runs of other characters. *)
Fixpoint split_ascii_ws (s : string) (field : string) : list string :=
  match s with
  | EmptyString => if is_empty field then [] else [field]
  | String c s =>
      if is_ascii_whitespace c
      then (if is_empty field then [] else [field]) ++ split_ascii_ws s EmptyString
      else split_ascii_ws s (field +:+ String c EmptyString)
  end.
Definition split_ascii_whitespace (s : string) : list string := split_ascii_ws s EmptyString.

(** [trim_start_matches(char::is_whitespace)]. *)
Definition trim_start (s : string) : string := trim_ws false s.

(** Does a white-space character start here? *)
Definition ws_here (s : string) : bool :=
  match s with
  | EmptyString => false
  | String c s1 =>
      ws1 c || match s1 with
               | EmptyString => false
               | String d s2 =>
                   ws2 c d || match s2 with EmptyString => false | String e _ => ws3 c d e end
               end
  end.
(** [value.find(char::is_whitespace)] with the two parts of the string. *)
Fixpoint split_at_ws (s : string) : option (string * string) :=
  if ws_here s then Some (EmptyString, s)
  else match s with
       | EmptyString => None
       | String c s' =>
           match split_at_ws s' with
           | Some (a, b) => Some (String c a, b)
           | None => None
           end
       end.

(** [str::parse::<uN>]: the checked accumulation fails exactly when the value
    exceeds the type's maximum. *)
Definition parse_uint (max : Z) (s : string) : option Z :=
  v ← parse_u64 s; if (v <=? max)%Z then Some v else None.
Definition U8_MAX : Z := 255.
Definition U16_MAX : Z := 65535.

(** ** Lemmas *)

Lemma str_app_cons c s t : String c s +:+ t = String c (s +:+ t).
Proof. done. Qed.

Lemma str_len_app a b : String.length (a +:+ b) = String.length a + String.length b.
Proof.
  induction a as [|c a IH]; [done|]. rewrite str_app_cons. cbn [String.length]. by rewrite IH.
Qed.

Lemma str_all_app p a b : str_all p (a +:+ b) = str_all p a && str_all p b.
Proof.
  induction a as [|c a IH]; [done|]. rewrite str_app_cons. cbn [str_all].
  by rewrite IH, andb_assoc.
Qed.

Lemma str_all_mono (p q : ascii → bool) s :
  (∀ c, p c = true → q c = true) → str_all p s = true → str_all q s = true.
Proof.
  intros Hpq. induction s as [|c s IH]; [done|]. cbn [str_all].
  intros [Hc Hs]%andb_true_iff. by rewrite Hpq, IH.
Qed.

Lemma str_mem_all c p s : str_all p s = true → p c = false → str_mem c s = false.
Proof.
  induction s as [|d s IH]; [done|]. cbn [str_all str_mem]. intros [Hd Hs]%andb_true_iff Hc.
  rewrite IH by done. destruct (Ascii.eqb_spec c d) as [<-|]; [congruence|done].
Qed.

Lemma str_last_app a b : b ≠ "" → str_last (a +:+ b) = str_last b.
Proof.
  intros Hb. induction a as [|c a IH]; [done|]. rewrite str_app_cons.
  change (str_last (String c (a +:+ b)) = str_last b). rewrite <- IH. cbn [str_last].
  destruct (a +:+ b) eqn:E; [|done]. by destruct a, b.
Qed.

Lemma strip_suffix_app c s : strip_suffix_char c (s +:+ String c "") = Some s.
Proof.
  induction s as [|d s IH].
  - change (strip_suffix_char c (String c "") = Some ""). cbn [strip_suffix_char].
    by rewrite Ascii.eqb_refl.
  - rewrite str_app_cons. cbn [strip_suffix_char]. rewrite IH. by destruct s.
Qed.

Lemma ends_with_char_last c s : ends_with_char c s = true ↔ ∃ t, s = t +:+ String c "".
Proof.
  unfold ends_with_char. induction s as [|d s IH].
  - split; [done|]. intros [t Ht]. by destruct t.
  - cbn [str_last]. destruct s as [|e s].
    + cbn. destruct (Ascii.eqb_spec c d) as [<-|Hne].
      * split; [by exists ""|done].
      * split; [done|]. intros [t Ht]. destruct t as [|x t]; [by injection Ht as ->|].
        injection Ht as -> Ht. by destruct t.
    + rewrite IH. split.
      * intros [t ->]. by exists (String d t).
      * intros [t Ht]. destruct t as [|x t]; [by injection Ht|]. injection Ht as -> ->. by exists t.
Qed.

Lemma strip_suffix_Some c s t : strip_suffix_char c s = Some t → s = t +:+ String c "".
Proof.
  revert t. induction s as [|d s IH]; intros t Ht; [done|]. cbn [strip_suffix_char] in Ht.
  destruct s as [|e s].
  - destruct (Ascii.eqb_spec c d) as [<-|]; [|done]. by simplify_eq.
  - apply fmap_Some in Ht as (u&Hu&->). rewrite str_app_cons. f_equal. by apply IH.
Qed.

Lemma strip_suffix_None c s : ends_with_char c s = false → strip_suffix_char c s = None.
Proof.
  intros He. destruct (strip_suffix_char c s) as [t|] eqn:E; [|done].
  apply strip_suffix_Some in E. assert (ends_with_char c s = true) as Ht by (apply ends_with_char_last; by exists t).
  by rewrite Ht in He.
Qed.

Lemma str_split_sep_cons c s : str_split c (String c s) = "" :: str_split c s.
Proof. cbn [str_split]. by rewrite Ascii.eqb_refl. Qed.

Lemma str_split_app_sep c a b :
  str_mem c a = false → str_split c (a +:+ String c b) = a :: str_split c b.
Proof.
  induction a as [|d a IH]; intros Ha.
  - exact (str_split_sep_cons c b).
  - cbn [str_mem] in Ha. apply orb_false_iff in Ha as [Hd Ha].
    rewrite str_app_cons. cbn [str_split]. by rewrite Hd, IH.
Qed.

(** Splitting a join of separator-free parts gives the parts back, and joining
    a split gives the string back. *)
Lemma str_split_join c xs :
  xs ≠ [] → Forall (λ x, str_mem c x = false) xs → str_split c (join_with c xs) = xs.
Proof.
  intros Hne Hf. induction Hf as [|x xs Hx Hxs IH]; [done|]. destruct xs as [|y xs].
  - cbn [join_with]. by apply str_split_clean.
  - change (join_with c (x :: y :: xs)) with (x +:+ String c (join_with c (y :: xs))).
    rewrite str_split_app_sep by done. by rewrite IH.
Qed.

Lemma join_with_split c s : join_with c (str_split c s) = s.
Proof.
  induction s as [|d s IH]; [done|]. cbn [str_split].
  pose proof (str_split_nonnil c s) as Hn. destruct (Ascii.eqb_spec c d) as [<-|].
  - destruct (str_split c s) as [|x xs]; [done|]. cbn [join_with] in *. by rewrite IH.
  - destruct (str_split c s) as [|x xs]; [done|]. rewrite <- IH. by destruct xs.
Qed.

(** Splitting a string at one of its separators. *)
Lemma str_split_app c a b : str_split c (a +:+ String c b) = str_split c a ++ str_split c b.
Proof.
  induction a as [|d a IH].
  - exact (str_split_sep_cons c b).
  - rewrite str_app_cons. cbn [str_split]. rewrite IH.
    destruct (Ascii.eqb c d); [done|]. by destruct (str_split c a) eqn:E;
      [destruct (str_split_nonnil c a)|].
Qed.

Lemma ends_with_spec suf s : ends_with suf s = true ↔ ∃ p, s = p +:+ suf.
Proof.
  induction s as [|c s IH]; cbn [ends_with].
  - rewrite orb_false_r, String.eqb_eq. split; [intros ->; by exists ""|].
    intros [p Hp]. by destruct p.
  - rewrite orb_true_iff, String.eqb_eq, IH. split.
    + intros [->|[p ->]]; [by exists ""|by exists (String c p)].
    + intros [p Hp]. destruct p as [|d p]; [by left|]. injection Hp as -> ->. right. by exists p.
Qed.

Lemma strip_prefix_spec p s t : strip_prefix p s = Some t ↔ s = p +:+ t.
Proof.
  revert s. induction p as [|c p IH]; intros s; [cbn; naive_solver|].
  rewrite str_app_cons. destruct s as [|d s]; cbn [strip_prefix]; [done|].
  destruct (Ascii.eqb_spec c d) as [<-|Hne].
  - rewrite IH. naive_solver.
  - split; [done|]. intros [= ? ?]. congruence.
Qed.

(** Words without white space, separated by single spaces, split back. *)
Definition no_ws (s : string) : bool := str_all (λ c, negb (is_ascii_whitespace c)) s.

Lemma split_ascii_ws_word w rest field :
  no_ws w = true → split_ascii_ws (w +:+ rest) field = split_ascii_ws rest (field +:+ w).
Proof.
  revert field. induction w as [|c w IH]; intros field Hw; [by rewrite str_app_nil_r|].
  unfold no_ws in Hw. cbn [str_all] in Hw. apply andb_true_iff in Hw as [Hc Hw].
  rewrite str_app_cons. cbn [split_ascii_ws]. rewrite negb_true_iff in Hc. rewrite Hc, IH by done.
  by rewrite str_app_assoc.
Qed.

Lemma split_ascii_words ws :
  Forall (λ w, no_ws w = true ∧ w ≠ "") ws → split_ascii_whitespace (join_with ch_space ws) = ws.
Proof.
  unfold split_ascii_whitespace. induction 1 as [|w ws [Hw Hne] Hws IH]; [done|].
  destruct ws as [|x ws].
  - cbn [join_with]. rewrite <- (str_app_nil_r w) at 1. rewrite split_ascii_ws_word by done.
    cbn. by destruct w.
  - change (join_with ch_space (w :: x :: ws))
      with (w +:+ String ch_space (join_with ch_space (x :: ws))).
    rewrite split_ascii_ws_word by done. cbn [split_ascii_ws].
    change (is_ascii_whitespace ch_space) with true. cbn match. rewrite IH. by destruct w.
Qed.

Lemma parse_uint_to_string max n :
  (0 <= n <= max)%Z → (max <= U64_MAX)%Z → parse_uint max (u64_to_string n) = Some n.
Proof.
  intros Hn Hm. unfold parse_uint. rewrite parse_u64_to_string by lia. simpl.
  by rewrite (proj2 (Z.leb_le n max)) by lia.
Qed.

(** A decimal numeral is a nonempty string of digits. *)
Lemma dec_digits_all fuel n acc :
  str_all is_ascii_digit acc = true → str_all is_ascii_digit (dec_digits fuel n acc) = true.
Proof.
  revert n acc. induction fuel as [|fuel IH]; intros n acc Hacc; [done|]. cbn [dec_digits].
  assert (str_all is_ascii_digit (String (digit_char (n mod 10)) acc) = true) as Hd.
  { cbn [str_all]. rewrite Hacc, andb_true_r.
    pose proof (Z.mod_pos_bound n 10 ltac:(lia)) as Hm. set (d := (n mod 10)%Z) in *.
    assert (d = 0 ∨ d = 1 ∨ d = 2 ∨ d = 3 ∨ d = 4 ∨ d = 5 ∨ d = 6 ∨ d = 7 ∨ d = 8 ∨ d = 9)%Z
      as Hcases by lia. clearbody d.
    by repeat (destruct Hcases as [->|Hcases]; [done|]); subst. }
  destruct (n / 10 =? 0)%Z; [done|]. by apply IH.
Qed.

Lemma u64_to_string_digits n : str_all is_ascii_digit (u64_to_string n) = true.
Proof. by apply dec_digits_all. Qed.

Lemma u64_to_string_nonempty n : u64_to_string n ≠ "".
Proof. destruct (dec_digits_head 20 n "" ltac:(done)) as (d&s&_&H). unfold u64_to_string. by rewrite H. Qed.

(** A test that fails only on some bytes is settled by trying all 256. *)
Definition all_bytes : list ascii := map (λ n, ascii_of_nat n) (seq 0 256).
Lemma elem_of_all_bytes c : c ∈ all_bytes.
Proof.
  apply list_elem_of_fmap. exists (nat_of_ascii c). rewrite ascii_nat_embedding. split; [done|].
  apply elem_of_seq. pose proof (nat_ascii_bounded c). lia.
Qed.
Lemma byte_cases (p : ascii → bool) : forallb p all_bytes = true → ∀ c, p c = true.
Proof.
  intros Hp c. rewrite forallb_forall in Hp. apply Hp, list_elem_of_In, elem_of_all_bytes.
Qed.
Lemma byte_implies (p q : ascii → bool) :
  forallb (λ c, implb (p c) (q c)) all_bytes = true → ∀ c, p c = true → q c = true.
Proof. intros H c Hp. pose proof (byte_cases _ H c) as Hc. simpl in Hc. by rewrite Hp in Hc. Qed.

Lemma digit_no_ws s : str_all is_ascii_digit s = true → no_ws s = true.
Proof. apply str_all_mono. apply byte_implies. by vm_compute. Qed.

#[export] Hint Resolve digit_no_ws u64_to_string_digits u64_to_string_nonempty : center.

(** *** Text without spaces or controls *)

Definition graphic (c : ascii) : bool := in_range 33 126 c.

Lemma graphic_bounds c : graphic c = true → (33 <= byte_val c <= 126)%N.
Proof. unfold graphic, in_range. rewrite andb_true_iff, !N.leb_le. done. Qed.

Lemma trim_ws_graphic rev s : str_all graphic s = true → trim_ws rev s = s.
Proof.
  destruct s as [|c s]; [done|]. cbn [str_all]. intros [Hc%graphic_bounds Hs]%andb_true_iff.
  assert (∀ d, str_all graphic s = true → s = String d (match s with String _ t => t | _ => "" end) →
    (33 <= byte_val d <= 126)%N) as Hd.
  { intros d H1 H2. rewrite H2 in H1. cbn [str_all] in H1. by apply andb_true_iff in H1 as [?%graphic_bounds _]. }
  cbn [trim_ws]. assert (ws1 c = false) as -> by (unfold ws1; rewrite orb_false_iff, andb_false_iff, !N.leb_gt, N.eqb_neq; lia).
  destruct s as [|d s]; [done|]. specialize (Hd d Hs eq_refl). unfold ws2.
  assert ((if rev then (byte_val d =? 194)%N && ((byte_val c =? 133)%N || (byte_val c =? 160)%N)
    else (byte_val c =? 194)%N && ((byte_val d =? 133)%N || (byte_val d =? 160)%N)) = false) as ->
    by (destruct rev; rewrite ?(proj2 (N.eqb_neq _ 194)) by lia; done).
  destruct s as [|e s]; [done|]. cbn [str_all] in Hs. rewrite !andb_true_iff in Hs.
  destruct Hs as (_&He%graphic_bounds&_). unfold ws3.
  match goal with |- context [if (if rev then ?a else ?b) then _ else _] =>
    assert ((if rev then a else b) = false) as ->
      by (destruct rev; rewrite ?(proj2 (N.eqb_neq _ 225)), ?(proj2 (N.eqb_neq _ 226)),
        ?(proj2 (N.eqb_neq _ 227)) by lia; done) end.
  done.
Qed.

Lemma str_rev_app_spec s acc : str_rev_app s acc = str_rev s +:+ acc.
Proof.
  unfold str_rev. revert acc. induction s as [|c s IH]; intros acc; [done|]. cbn [str_rev_app].
  rewrite IH, (IH (String c "")), str_app_assoc. done.
Qed.
Lemma str_rev_cons c s : str_rev (String c s) = str_rev s +:+ String c "".
Proof. unfold str_rev at 1. cbn [str_rev_app]. apply str_rev_app_spec. Qed.
Lemma str_rev_snoc s c : str_rev (s +:+ String c "") = String c (str_rev s).
Proof.
  induction s as [|d s IH]; [done|]. by rewrite str_app_cons, str_rev_cons, IH, str_rev_cons, str_app_cons.
Qed.
Lemma str_rev_involutive s : str_rev (str_rev s) = s.
Proof. induction s as [|c s IH]; [done|]. by rewrite str_rev_cons, str_rev_snoc, IH. Qed.
Lemma str_all_rev p s : str_all p (str_rev s) = str_all p s.
Proof.
  induction s as [|c s IH]; [done|]. rewrite str_rev_cons, str_all_app, IH. cbn [str_all].
  by rewrite andb_true_r, andb_comm.
Qed.

Lemma str_trim_graphic s : str_all graphic s = true → str_trim s = s.
Proof.
  intros Hs. unfold str_trim. rewrite (trim_ws_graphic false) by done.
  rewrite trim_ws_graphic by (by rewrite str_all_rev). apply str_rev_involutive.
Qed.

Lemma has_control_graphic s : str_all graphic s = true → has_control s = false.
Proof.
  induction s as [|c s IH]; [done|]. cbn [str_all has_control].
  intros [Hc%graphic_bounds Hs]%andb_true_iff. rewrite IH by done.
  assert ((byte_val c <? 32)%N = false ∧ (byte_val c =? 127)%N = false ∧ (byte_val c =? 194)%N = false)
    as (->&->&->) by (rewrite N.ltb_ge, !N.eqb_neq; lia).
  done.
Qed.

(** ** Length-prefixed framing

    Several digests are fed the length of each part as [u64::to_be_bytes] before
    the part itself, so that distinct lists of parts give distinct messages. *)

Fixpoint be_bytes (k : nat) (n : Z) : string :=
  match k with
  | O => EmptyString
  | S k => be_bytes k (n / 256) +:+ String (ascii_of_N (Z.to_N (n mod 256))) EmptyString
  end.
Definition u64_be_bytes (n : Z) : string := be_bytes 8 n.
Definition framed (part : string) : string := u64_be_bytes (str_len part) +:+ part.
Fixpoint frames (parts : list string) : string :=
  match parts with [] => EmptyString | part :: parts => framed part +:+ frames parts end.

Lemma str_app_inj a b x y : String.length a = String.length b → a +:+ x = b +:+ y → a = b ∧ x = y.
Proof.
  revert b. induction a as [|c a IH]; intros [|d b]; try done. intros [= Hl].
  rewrite !str_app_cons. intros [= -> He]. by destruct (IH b Hl He) as [-> ->].
Qed.
Lemma be_bytes_length k n : String.length (be_bytes k n) = k.
Proof. revert n. induction k as [|k IH]; intros n; [done|]. cbn [be_bytes]. rewrite str_len_app, IH. simpl. lia. Qed.
Lemma be_bytes_inj k n m :
  (0 <= n < 256 ^ Z.of_nat k)%Z → (0 <= m < 256 ^ Z.of_nat k)%Z → be_bytes k n = be_bytes k m → n = m.
Proof.
  revert n m. induction k as [|k IH]; intros n m Hn Hm; [simpl in *; lia|]. cbn [be_bytes].
  rewrite Nat2Z.inj_succ, Z.pow_succ_r in Hn, Hm by lia.
  intros [He Hc]%str_app_inj; [|by rewrite !be_bytes_length].
  assert (n / 256 = m / 256)%Z as Hd.
  { apply IH; [split; [apply Z.div_pos|apply Z.div_lt_upper_bound]; lia..|done]. }
  injection Hc as Hc. apply (f_equal byte_val) in Hc. unfold byte_val in Hc.
  pose proof (Z.mod_pos_bound n 256 ltac:(lia)). pose proof (Z.mod_pos_bound m 256 ltac:(lia)).
  rewrite !N_ascii_embedding in Hc by lia. rewrite (Z.div_mod n 256), (Z.div_mod m 256) by lia. lia.
Qed.

Definition frameable (part : string) : Prop := (str_len part <= U64_MAX)%Z.
Lemma framed_inj a b x y : frameable a → frameable b → framed a +:+ x = framed b +:+ y → a = b ∧ x = y.
Proof.
  unfold frameable, framed, u64_be_bytes, U64_MAX. intros Ha Hb. rewrite !str_app_assoc.
  intros [Hl He]%str_app_inj; [|by rewrite !be_bytes_length].
  apply be_bytes_inj in Hl; [|unfold str_len in *; simpl; lia..].
  apply str_app_inj; [|done]. unfold str_len in Hl. lia.
Qed.
Lemma frames_inj (ps qs : list string) :
  List.length ps = List.length qs → Forall frameable ps → Forall frameable qs → frames ps = frames qs → ps = qs.
Proof.
  revert qs. induction ps as [|p ps IH]; intros [|q qs]; try done. intros [= Hl].
  intros [Hp Hps]%Forall_cons [Hq Hqs]%Forall_cons. cbn [frames].
  intros [-> He]%framed_inj; [|done..]. by rewrite (IH qs).
Qed.
