(* ===== verification/Codec.v ===== *)
(** * Codec: concrete codecs

    Encoders with their decoders, used to instantiate the parameters that stand
    for [serde_json] where a theorem about them is applied: fields written one
    after the other, escaped and separated by commas, and the binary code of any
    countable type. *)

From Stdlib Require Import ZArith Ascii String Lia.
From S2P Require Import Prelude Text.

Definition ch_comma : ascii := ",".
Fixpoint esc (s rest : string) : string :=
  match s with
  | EmptyString => String ch_comma rest
  | String c s =>
      if Ascii.eqb c ch_comma || Ascii.eqb c ch_backslash
      then String ch_backslash (String c (esc s rest)) else String c (esc s rest)
  end.
Fixpoint enc_fields (l : list string) : string :=
  match l with [] => EmptyString | s :: l => esc s (enc_fields l) end.
Fixpoint dec_fields (s field : string) : list string :=
  match s with
  | EmptyString => []
  | String c s' =>
      if Ascii.eqb c ch_comma then field :: dec_fields s' EmptyString
      else if Ascii.eqb c ch_backslash
      then match s' with
           | EmptyString => []
           | String d s'' => dec_fields s'' (field +:+ String d EmptyString)
           end
      else dec_fields s' (field +:+ String c EmptyString)
  end.

Lemma dec_esc s rest field : dec_fields (esc s rest) field = (field +:+ s) :: dec_fields rest "".
Proof.
  revert field. induction s as [|c s IH]; intros field; [by rewrite str_app_nil_r|]. cbn [esc].
  destruct (Ascii.eqb c ch_comma) eqn:E1; [|destruct (Ascii.eqb c ch_backslash) eqn:E2]; cbn [orb].
  - change (dec_fields (String ch_backslash (String c (esc s rest))) field)
      with (dec_fields (esc s rest) (field +:+ String c "")). by rewrite IH, str_app_assoc.
  - change (dec_fields (String ch_backslash (String c (esc s rest))) field)
      with (dec_fields (esc s rest) (field +:+ String c "")). by rewrite IH, str_app_assoc.
  - cbn [dec_fields]. rewrite E1, E2, IH. by rewrite str_app_assoc.
Qed.
Lemma dec_enc_fields l : dec_fields (enc_fields l) "" = l.
Proof. induction l as [|s l IH]; [done|]. cbn [enc_fields]. rewrite dec_esc, IH. done. Qed.

Lemma esc_nonempty s rest : esc s rest ≠ "".
Proof. destruct s as [|c s]; [done|]. cbn [esc]. by destruct (Ascii.eqb c ch_comma || _). Qed.

Fixpoint pos_str (p : positive) : string :=
  match p with xH => "1" | xO p => String "0" (pos_str p) | xI p => String "2" (pos_str p) end.
Fixpoint str_pos (s : string) : option positive :=
  match s with
  | EmptyString => None
  | String c s =>
      if Ascii.eqb c "1" then Some xH
      else p ← str_pos s; Some (if Ascii.eqb c "0" then xO p else xI p)
  end.
Lemma str_pos_str p : str_pos (pos_str p) = Some p.
Proof. induction p as [p IH|p IH|]; cbn; [by rewrite IH|by rewrite IH|done]. Qed.
Definition z_str (z : Z) : string := pos_str (encode z).
Definition str_z (s : string) : option Z := p ← str_pos s; decode p.
Lemma str_z_str z : str_z (z_str z) = Some z.
Proof. unfold str_z, z_str. rewrite str_pos_str. apply decode_encode. Qed.

(** Any countable type. *)
Definition enc_any {A} `{Countable A} (a : A) : string := pos_str (encode a).
Definition dec_any {A} `{Countable A} (s : string) : option A := p ← str_pos s; decode p.
Lemma dec_enc_any {A} `{Countable A} (a : A) : dec_any (enc_any a) = Some a.
Proof. unfold dec_any, enc_any. rewrite str_pos_str. apply decode_encode. Qed.

(** An enumeration is countable by the position in the list of its elements. *)
Definition enum_countable {A} `{EqDecision A} (l : list A) (Hl : ∀ x, x ∈ l) : Countable A.
Proof.
  refine (inj_countable (λ x, default 0 (fst <$> list_find (x =.) l)) (λ n, l !! n) _).
  intros x. destruct (list_find_elem_of (x =.) l x (Hl x) eq_refl) as [[i y] Hf]. rewrite Hf. cbn.
  by apply list_find_Some in Hf as (Hi&->&_).
Defined.
