(* ===== verification/Core.v ===== *)
(** * Core: the platform-neutral domain types

    [crates/center-core/src]: the error type, the identifiers, the controller
    directory's records, the coordination (leadership) types and the bounded
    page of the audit port.  The other files of the development build their
    components on these types. *)

From S2P Require Import Prelude.

(** ** Errors ([error.rs]) *)

Inductive CoreError : Type :=
| InvalidIdentifier (kind value : string)
| Conflict (message : string)
| NotFound (message : string)
| Unsupported (capability : string)
| Adapter (message : string).

#[export] Instance CoreError_eq_dec : EqDecision CoreError.
Proof. solve_decision. Defined.

Abbreviation CoreResult A := (result A CoreError).

(** [Display for CoreError]; [debug] is the standard library's [{:?}] of a
    string. *)
Definition CoreError_fmt (debug : string → string) (e : CoreError) : string :=
  match e with
  | InvalidIdentifier kind value =>
      "invalid " +:+ kind +:+ " identifier: " +:+ debug value
  | Conflict message => "conflict: " +:+ message
  | NotFound message => "not found: " +:+ message
  | Unsupported capability => "unsupported capability: " +:+ capability
  | Adapter message => "adapter error: " +:+ message
  end.

(** ** Identifiers ([controller.rs], the [identifier!] macro)

    A [ControllerId] or [SessionId] is a string that passed this check; the
    newtype is represented by the string itself. *)

Definition identifier_new (kind value : string) : CoreResult string :=
  if is_empty (str_trim value) || has_control value
  then Err (InvalidIdentifier kind value)
  else Ok value.

Definition ControllerId_new (value : string) : CoreResult string :=
  identifier_new "controller" value.
Definition SessionId_new (value : string) : CoreResult string :=
  identifier_new "session" value.

(** ** Controller directory types ([controller.rs]) *)

Record OwnershipFence := {
  of_token : string;
  of_epoch : Z;                       (* u64 *)
}.

Record ControllerRegistration := {
  reg_controller_id : string;
  reg_session_id : string;
  reg_cluster : string;
  reg_environments : list string;
  reg_tags : list string;
  reg_connected_replica : option string;
  reg_ownership_fence : option OwnershipFence;
  reg_observed_at_unix_ms : Z;        (* i64 *)
}.

Record ControllerOwnerRoute := {
  route_holder : string;
  route_endpoint : string;
  route_ownership_fence : OwnershipFence;
}.

Inductive ControllerPhase := PhaseOnline | PhaseOffline | PhaseStale.

Record ControllerRecord := {
  rec_controller_id : string;
  rec_current_session_id : option string;
  rec_cluster : string;
  rec_environments : list string;
  rec_tags : list string;
  rec_connected_replica : option string;
  rec_ownership_fence : option OwnershipFence;
  rec_sync_version : option Z;
  rec_watch_server_id : option string;
  rec_resource_count : option Z;
  rec_resource_counts_by_kind : option (gmap string Z);
  rec_stats_updated_unix_ms : option Z;
  rec_watch_updated_unix_ms : option Z;
  rec_phase : ControllerPhase;
  rec_last_seen_unix_ms : Z;
}.

Record ControllerRuntimeObservation := {
  obs_controller_id : string;
  obs_session_id : string;
  obs_ownership_fence : option OwnershipFence;
  obs_sync_version : option Z;
  obs_watch_server_id : option string;
  obs_resource_count : option Z;
  obs_resource_counts_by_kind : option (gmap string Z);
  obs_stats_updated_unix_ms : option Z;
  obs_watch_updated_unix_ms : option Z;
  obs_observed_at_unix_ms : Z;
}.

Inductive EvictionOutcome := Evicted | AlreadyAbsent.

Record EvictionTarget := {
  tgt_session_id : option string;
  tgt_connected_replica : option string;
  tgt_ownership_fence : option OwnershipFence;
}.

Record EvictionResult := {
  ev_outcome : EvictionOutcome;
  ev_target : option EvictionTarget;
}.

Inductive OfflineOutcome := Marked | NotCurrent.

(** ** Coordination ([coordination.rs]) *)

Inductive CoordinationRole :=
| ControllerOwner (id : string)
| Maintenance (name : string).

Record Leadership := {
  ld_role : CoordinationRole;
  ld_holder : string;
  ld_fencing_token : string;
  ld_fencing_epoch : Z;               (* u64 *)
  ld_valid_for_millis : Z;            (* u64 *)
}.

Inductive RenewalOutcome := Renewed (l : Leadership) | RenewalLost.
Inductive ReleaseOutcome := Released | ReleaseLost.

(** ** Audit ([audit.rs]) *)

Record AuditEvent := {
  au_ts : Z;
  au_actor : string;
  au_provider : string;
  au_method : string;
  au_path : string;
  au_target_controller : option string;
  au_status : Z;
  au_source_ip : option string;
  au_request_id : option string;
  au_detail : option string;
}.

Record Page := { pg_limit : Z; pg_offset : Z }.

(** [limit.clamp(1, maximum.max(1))]. *)
Definition bounded (limit offset maximum : Z) : Page :=
  {| pg_limit := Z.max 1 (Z.min limit (Z.max maximum 1)); pg_offset := offset |}.

(** ** Decidable equality *)

#[export] Instance OwnershipFence_eq_dec : EqDecision OwnershipFence.
Proof. solve_decision. Defined.
#[export] Instance ControllerOwnerRoute_eq_dec : EqDecision ControllerOwnerRoute.
Proof. solve_decision. Defined.
#[export] Instance ControllerPhase_eq_dec : EqDecision ControllerPhase.
Proof. solve_decision. Defined.
#[export] Instance ControllerRuntimeObservation_eq_dec :
  EqDecision ControllerRuntimeObservation.
Proof. solve_decision. Defined.
#[export] Instance EvictionTarget_eq_dec : EqDecision EvictionTarget.
Proof. solve_decision. Defined.
#[export] Instance OfflineOutcome_eq_dec : EqDecision OfflineOutcome.
Proof. solve_decision. Defined.
#[export] Instance CoordinationRole_eq_dec : EqDecision CoordinationRole.
Proof. solve_decision. Defined.
#[export] Instance Leadership_eq_dec : EqDecision Leadership.
Proof. solve_decision. Defined.

(** ** Shared lemmas *)

Lemma identifier_new_Ok kind v x :
  identifier_new kind v = Ok x → x = v ∧ has_control v = false ∧ str_trim v ≠ "".
Proof.
  unfold identifier_new. destruct (is_empty (str_trim v)) eqn:Ht, (has_control v) eqn:Hc;
    simpl; intros; simplify_eq.
  split_and!; [done..|]. intros Hv. by rewrite Hv in Ht.
Qed.

Lemma identifier_new_id kind v :
  is_empty (str_trim v) = false → has_control v = false →
  identifier_new kind v = Ok v.
Proof. unfold identifier_new. by intros -> ->. Qed.
