(* ===== verification/Effects.v ===== *)
(** * Effects: asynchronous code as request/response programs

    The adapters and the forwarding code of the repository are [async]
    functions that await calls on a port (a Kubernetes API, an owner locator,
    an internal transport).  Such a function is modelled as a finite program
    tree: [Ret] is its result and [Vis e k] awaits the call [e] and goes on
    with [k] on the response.  A program can be run alone against a handler
    ([run]) or as one thread of a pool in which other threads act at every
    await point ([pool_step]). *)

From S2P Require Import Prelude.

Inductive prog (E : Type → Type) (A : Type) : Type :=
| Ret (a : A)
| Vis (X : Type) (e : E X) (k : X → prog E A).
Arguments Ret {E A} a.
Arguments Vis {E A X} e k.

Fixpoint pbind {E A B} (p : prog E A) (f : A → prog E B) : prog E B :=
  match p with
  | Ret a => f a
  | Vis e k => Vis e (λ x, pbind (k x) f)
  end.

(** [x <~ call e ;; k] is Rust's [let x = e.await; k]. *)
Notation "x '<~' e ';;' k" := (Vis e (λ x, k))
  (at level 60, e at next level, right associativity) : center_scope.

(** [let x = r?; k] in an asynchronous function. *)
Notation "'try?' x ':=' r 'in' k" :=
  (match r with Ok x => k | Err e => Ret (Err e) end)
  (at level 10, x name, r at level 100, k at level 200) : center_scope.

(** [let x = p.await?; k]. *)
Notation "'await?' x ':=' p 'in' k" :=
  (pbind p (λ r, match r with Ok x => k | Err e => Ret (Err e) end))
  (at level 10, x name, p at level 100, k at level 200) : center_scope.

(** ** Running a program alone *)

Fixpoint run {E S A} (h : ∀ X, E X → S → X * S) (p : prog E A) (s : S) : A * S :=
  match p with
  | Ret a => (a, s)
  | Vis e k => let '(x, s') := h _ e s in run h (k x) s'
  end.

Lemma run_bind {E S A B} (h : ∀ X, E X → S → X * S) (p : prog E A) (f : A → prog E B) (s : S) :
  run h (pbind p f) s = let '(a, s') := run h p s in run h (f a) s'.
Proof.
  revert s. induction p as [a|X e k IH]; intros s; simpl; [done|].
  destruct (h X e s) as [x s']. apply IH.
Qed.

(** ** Programs in an interfering environment

    [H e s x s'] says the port may answer [e] in state [s] with [x], leaving
    [s'].  [safe G R Q p s]: from [s], every call of [p] changes the state
    within [G], whatever the environment does within [R] before each call,
    and [p]'s result satisfies [Q] in the state of its last call. *)

Section Safe.
Context {E : Type → Type} {S : Type} (H : ∀ X, E X → S → X → S → Prop).

Fixpoint safe {A} (G R : S → S → Prop) (Q : A → S → Prop)
    (p : prog E A) (s : S) : Prop :=
  match p with
  | Ret a => Q a s
  | Vis e k =>
      ∀ s1 x s2, R s s1 → H _ e s1 x s2 →
        G s1 s2 ∧ safe G R Q (k x) s2
  end.

Lemma safe_vis {A X} (G R : S → S → Prop) (Q : A → S → Prop) (e : E X) k s :
  (∀ s1 x s2, R s s1 → H X e s1 x s2 → G s1 s2 ∧ safe G R Q (k x) s2) →
  safe G R Q (Vis e k) s.
Proof. done. Qed.

Lemma safe_bind {A B} (G R : S → S → Prop) (Q : B → S → Prop) (p : prog E A)
    (f : A → prog E B) s :
  safe G R (λ a s', safe G R Q (f a) s') p s → safe G R Q (pbind p f) s.
Proof.
  revert s. induction p as [a|X e k IH]; intros s Hp; [exact Hp|].
  intros s1 x s2 HR HH. destruct (Hp s1 x s2 HR HH) as [HG Hk]. split; [done|]. by apply IH.
Qed.

Lemma safe_mono {A} (G R : S → S → Prop) (Q Q' : A → S → Prop) p s :
  (∀ a s, Q a s → Q' a s) → safe G R Q p s → safe G R Q' p s.
Proof.
  intros HQ. revert s. induction p as [a|X e k IH]; intros s; simpl; [apply HQ|].
  intros Hs s1 x s2 HR HH. destruct (Hs s1 x s2 HR HH) as [HG Hk].
  split; [done|]. by apply IH.
Qed.

Lemma safe_weaken_guarantee {A} (G G' R : S → S → Prop) (Q : A → S → Prop) p s :
  (∀ s s', G s s' → G' s s') → safe G R Q p s → safe G' R Q p s.
Proof.
  intros HG. revert s. induction p as [a|X e k IH]; intros s; simpl; [done|].
  intros Hs s1 x s2 HR HH. destruct (Hs s1 x s2 HR HH) as [H1 H2]. split; [by apply HG|by apply IH].
Qed.

(** Runs without interference: [exec p s a s'] says that [p] can return [a]
    from [s], leaving [s'], for some answers of the port. *)
Fixpoint exec {A} (p : prog E A) (s : S) (a : A) (s' : S) : Prop :=
  match p with
  | Ret b => a = b ∧ s' = s
  | Vis e k => ∃ x s1, H _ e s x s1 ∧ exec (k x) s1 a s'
  end.

Lemma exec_bind {A B} (p : prog E A) (f : A → prog E B) s b s' :
  exec (pbind p f) s b s' ↔ ∃ a s1, exec p s a s1 ∧ exec (f a) s1 b s'.
Proof.
  revert s. induction p as [a|X e k IH]; intros s; simpl.
  - split; [intros Hf; by exists a, s|]. by intros (?&?&[-> ->]&?).
  - split.
    + intros (x&s1&Hx&(a&s2&Hk&Hf)%IH). exists a, s2. split; [|done]. by exists x, s1.
    + intros (a&s2&(x&s1&Hx&Hk)&Hf). exists x, s1. split; [done|]. apply IH. by exists a, s2.
Qed.

Lemma exec_safe {A} (G R : S → S → Prop) (Q : A → S → Prop) p s a s' :
  (∀ s, R s s) → safe G R Q p s → exec p s a s' → Q a s'.
Proof.
  intros HR. revert s. induction p as [b|X e k IH]; intros s Hs; simpl.
  - by intros [-> ->].
  - intros (x&s1&Hx&Hk). destruct (Hs s x s1 (HR s) Hx) as [_ Hs1]. by eapply IH.
Qed.

(** ** Pools of threads *)

Definition thread_step {A} (p : prog E A) (s : S) (p' : prog E A) (s' : S) : Prop :=
  match p with
  | Ret _ => False
  | Vis e k => ∃ x, H _ e s x s' ∧ p' = k x
  end.

Definition pool_step {A} (c c' : list (prog E A) * S) : Prop :=
  ∃ i p p', c.1 !! i = Some p ∧ thread_step p c.2 p' c'.2
            ∧ c'.1 = <[i := p']> c.1.

(** Rely/guarantee composition: if every thread is safe from the initial
    state with guarantee and rely [G], then along every execution of the
    pool each thread is safe from a [G]-predecessor of the current state,
    and the states are related by [G]. *)
Context (G : S → S → Prop) `{!Reflexive G, !Transitive G}.

Definition pool_safe {A} (Q : A → S → Prop) (c : list (prog E A) * S) : Prop :=
  Forall (λ p, ∃ s0, G s0 c.2 ∧ safe G G Q p s0) c.1.

Lemma pool_step_safe {A} (Q : A → S → Prop) c c' :
  pool_safe Q c → pool_step c c' → G c.2 c'.2 ∧ pool_safe Q c'.
Proof.
  unfold pool_safe. intros Hc (i & p & p' & Hi & Hst & Hc').
  destruct c as [ps s], c' as [ps' s']; simpl in *. subst ps'.
  pose proof (Forall_lookup_1 _ _ _ _ Hc Hi) as (s0 & HG0 & Hp).
  destruct p as [a|X e k]; simpl in Hst; [done|].
  destruct Hst as (x & HH & ->). destruct (Hp s x s' HG0 HH) as [HG Hk].
  split; [done|]. apply Forall_insert; [|by exists s'].
  eapply Forall_impl; [exact Hc|]. intros q (s1 & H1 & Hq). exists s1.
  split; [by etrans|done].
Qed.

Lemma pool_steps_safe {A} (Q : A → S → Prop) c c' :
  pool_safe Q c → rtc pool_step c c' → G c.2 c'.2 ∧ pool_safe Q c'.
Proof.
  intros Hc Hr. induction Hr as [c|c1 c2 c3 H12 _ IH]; [by split|].
  destruct (pool_step_safe Q c1 c2 Hc H12) as [HG Hc2].
  destruct (IH Hc2) as [HG' Hc3]. split; [by etrans|done].
Qed.
End Safe.

(** A run against a handler of the port is an execution without interference. *)
Lemma run_exec {E : Type → Type} {S A : Type} (H : ∀ X, E X → S → X → S → Prop)
    (h : ∀ X, E X → S → X * S) (p : prog E A) s a s' :
  (∀ X (e : E X) s x s', h X e s = (x, s') → H X e s x s') →
  run h p s = (a, s') → exec H p s a s'.
Proof.
  intros Hh. revert s. induction p as [a0|X e k IH]; intros s Hrun; simpl in *; [by simplify_eq|].
  destruct (h X e s) as [x s1] eqn:E1. exists x, s1. split; [by apply Hh|by apply IH].
Qed.

(** It is enough that the handler's answers are the port's along the run. *)
Fixpoint run_ok {E : Type → Type} {S A : Type} (H : ∀ X, E X → S → X → S → Prop)
    (h : ∀ X, E X → S → X * S) (p : prog E A) (s : S) : Prop :=
  match p with
  | Ret _ => True
  | Vis e k => H _ e s (h _ e s).1 (h _ e s).2 ∧ run_ok H h (k (h _ e s).1) (h _ e s).2
  end.
Lemma run_ok_exec {E : Type → Type} {S A : Type} (H : ∀ X, E X → S → X → S → Prop)
    (h : ∀ X, E X → S → X * S) (p : prog E A) s a s' :
  run_ok H h p s → run h p s = (a, s') → exec H p s a s'.
Proof.
  revert s. induction p as [a0|X e k IH]; intros s Hok Hrun; simpl in *; [by simplify_eq|].
  destruct Hok as [He Hk]. destruct (h X e s) as [x s1]. exists x, s1. split; [done|by apply IH].
Qed.

(** The calls of a run and the states they meet. *)
Inductive met (E : Type → Type) (S : Type) :=
| Met {X : Type} (e : E X) (s : S).
Arguments Met {E S X} e s.
Fixpoint run_calls {E : Type → Type} {S A : Type} (h : ∀ X, E X → S → X * S) (p : prog E A) (s : S) :
    list (met E S) :=
  match p with
  | Ret _ => []
  | Vis e k => let '(x, s') := h _ e s in Met e s :: run_calls h (k x) s'
  end.
Definition answered {E : Type → Type} {S : Type} (H : ∀ X, E X → S → X → S → Prop)
    (h : ∀ X, E X → S → X * S) (c : met E S) : Prop :=
  let '@Met _ _ X e s := c in H X e s (h X e s).1 (h X e s).2.
Lemma run_ok_calls {E : Type → Type} {S A : Type} (H : ∀ X, E X → S → X → S → Prop)
    (h : ∀ X, E X → S → X * S) (p : prog E A) s :
  Forall (answered H h) (run_calls h p s) → run_ok H h p s.
Proof.
  revert s. induction p as [a|X e k IH]; intros s; simpl; [done|].
  destruct (h X e s) as [x s1] eqn:He. intros [Hc Hk]%Forall_cons. simpl in Hc. rewrite He in Hc.
  split; [done|by apply IH].
Qed.

(** A thread that runs to its end against a handler of the port is an execution
    of the pool. *)
Lemma run_pool {E : Type → Type} {S A : Type} (H : ∀ X, E X → S → X → S → Prop)
    (h : ∀ X, E X → S → X * S) (ps : list (prog E A)) i p s a s' :
  (∀ X (e : E X) s x s', h X e s = (x, s') → H X e s x s') →
  ps !! i = Some p → run h p s = (a, s') →
  rtc (pool_step H) (ps, s) (<[i := Ret a]> ps, s').
Proof.
  intros Hh. revert ps s. induction p as [a0|X e k IH]; intros ps s Hi Hrun; simpl in Hrun.
  - simplify_eq. by rewrite list_insert_id.
  - destruct (h X e s) as [x s1] eqn:E1. apply (rtc_l _ _ (<[i := k x]> ps, s1)).
    + exists i, (Vis e k), (k x). split; [done|].
      split; [|done]. exists x. split; [by apply Hh|done].
    + assert (Hlt : i < length ps) by by eapply lookup_lt_Some.
      pose proof (IH x (<[i := k x]> ps) s1) as IHx. rewrite list_insert_insert_eq in IHx.
      apply IHx; [|done]. by apply list_lookup_insert_eq.
Qed.

(** The same for a handler that follows the port on this run only. *)
Lemma run_ok_pool {E : Type → Type} {S A : Type} (H : ∀ X, E X → S → X → S → Prop)
    (h : ∀ X, E X → S → X * S) (ps : list (prog E A)) i p s :
  run_ok H h p s → ps !! i = Some p →
  rtc (pool_step H) (ps, s) (<[i := Ret (run h p s).1]> ps, (run h p s).2).
Proof.
  revert ps s. induction p as [a|X e k IH]; intros ps s; cbn [run_ok run].
  - intros _ Hi. by rewrite list_insert_id.
  - destruct (h X e s) as [x s1]. intros [Hx Hk] Hi. apply (rtc_l _ _ (<[i := k x]> ps, s1)).
    + exists i, (Vis e k), (k x). split; [done|]. split; [|done]. by exists x.
    + assert (Hlt : i < length ps) by by eapply lookup_lt_Some.
      pose proof (IH x (<[i := k x]> ps) s1 Hk) as IHx. rewrite list_insert_insert_eq in IHx.
      apply IHx. by apply list_lookup_insert_eq.
Qed.

(** The first [n] calls of a program against a handler. *)
Fixpoint steps {E S A} (h : ∀ X, E X → S → X * S) (n : nat) (p : prog E A) (s : S) :
    prog E A * S :=
  match n, p with
  | S n, Vis e k => let '(x, s') := h _ e s in steps h n (k x) s'
  | _, _ => (p, s)
  end.

Lemma steps_pool {E : Type → Type} {S A : Type} (H : ∀ X, E X → S → X → S → Prop)
    (h : ∀ X, E X → S → X * S) n (ps : list (prog E A)) i p s p' s' :
  (∀ X (e : E X) s x s', h X e s = (x, s') → H X e s x s') →
  ps !! i = Some p → steps h n p s = (p', s') →
  rtc (pool_step H) (ps, s) (<[i := p']> ps, s').
Proof.
  intros Hh. revert ps s p. induction n as [|n IH]; intros ps s p Hi Hst.
  - simpl in Hst. simplify_eq. by rewrite list_insert_id.
  - destruct p as [a|X e k]; simpl in Hst; [simplify_eq; by rewrite list_insert_id|].
    destruct (h X e s) as [x s1] eqn:E1. apply (rtc_l _ _ (<[i := k x]> ps, s1)).
    + exists i, (Vis e k), (k x). split; [done|]. split; [|done]. exists x. split; [by apply Hh|done].
    + assert (Hlt : i < length ps) by by eapply lookup_lt_Some.
      pose proof (IH (<[i := k x]> ps) s1 (k x)) as IHx. rewrite list_insert_insert_eq in IHx.
      apply IHx; [|done]. by apply list_lookup_insert_eq.
Qed.

(** ** Traces

    A port may answer anything; the state is the calls made so far with their
    answers. *)

Inductive event (E : Type → Type) :=
| Ev {X : Type} (e : E X) (x : X).
Arguments Ev {E X} e x.
Definition traced {E : Type → Type} (X : Type) (e : E X) (t : list (event E)) (x : X) (t' : list (event E)) :
    Prop := t' = t ++ [Ev e x].

Lemma traced_step {E : Type → Type} {X A} (e : E X) (k : X → prog E A) t r t' :
  exec traced (Vis e k) t r t' → ∃ x, exec traced (k x) (t ++ [Ev e x]) r t'.
Proof. cbn [exec]. unfold traced. intros (x&s1&->&He). by exists x. Qed.

(** A program that makes calls of one kind only, whatever the answers. *)
Fixpoint calls_only {E : Type → Type} {A} (P : ∀ X, E X → Prop) (p : prog E A) : Prop :=
  match p with Ret _ => True | Vis e k => P _ e ∧ ∀ x, calls_only P (k x) end.
Definition of_kind {E : Type → Type} (P : ∀ X, E X → Prop) (ev : event E) : Prop :=
  match ev with Ev e _ => P _ e end.

Lemma calls_only_bind {E : Type → Type} {A B} (P : ∀ X, E X → Prop) (p : prog E A) (f : A → prog E B) :
  calls_only P p → (∀ a, calls_only P (f a)) → calls_only P (pbind p f).
Proof.
  intros Hp Hf. induction p as [a|X e k IH]; simpl; [apply Hf|]. destruct Hp as [He Hk].
  split; [done|]. intros x. by apply IH.
Qed.

Lemma exec_calls_only {E : Type → Type} {A} (P : ∀ X, E X → Prop) (p : prog E A) t r t' :
  calls_only P p → exec traced p t r t' → ∃ u, t' = t ++ u ∧ Forall (of_kind P) u.
Proof.
  revert t. induction p as [a|X e k IH]; intros t Hp.
  - intros [-> ->]. exists []. by rewrite app_nil_r.
  - destruct Hp as [He Hk]. intros [x Hx]%traced_step. destruct (IH x _ (Hk x) Hx) as (u&->&Hu).
    exists (Ev e x :: u). rewrite <- app_assoc. split; [done|]. by constructor.
Qed.

Lemma exec_traced_app {E : Type → Type} {A} (p : prog E A) t r t' :
  exec traced p t r t' ↔ ∃ u, t' = t ++ u ∧ exec traced p [] r u.
Proof.
  revert t t'. induction p as [a|X e k IH]; intros t t'.
  - split; [intros [-> ->]; exists []; by rewrite app_nil_r|]. intros (u&->&[-> ->]). by rewrite app_nil_r.
  - split.
    + intros [x (u&->&Hx)%IH]%traced_step. exists (Ev e x :: u). rewrite <- app_assoc. split; [done|].
      cbn [exec]. exists x, [Ev e x]. split; [done|]. apply IH. by exists u.
    + intros (u&->&[x (v&->&Hx)%IH]%traced_step). cbn [exec]. exists x, (t ++ [Ev e x]). split; [done|].
      apply IH. exists v. by rewrite <- (app_assoc t).
Qed.

(** What a program can result in, whatever the answers. *)
Fixpoint results {E : Type → Type} {A} (Q : A → Prop) (p : prog E A) : Prop :=
  match p with Ret a => Q a | Vis e k => ∀ x, results Q (k x) end.
Lemma results_bind {E : Type → Type} {A B} (Q : B → Prop) (R : A → Prop) (p : prog E A) (f : A → prog E B) :
  results R p → (∀ a, R a → results Q (f a)) → results Q (pbind p f).
Proof.
  intros Hp Hf. induction p as [a|X e k IH]; simpl in *; [by apply Hf|]. intros x. by apply IH.
Qed.
Lemma results_mono {E : Type → Type} {A} (Q R : A → Prop) (p : prog E A) :
  (∀ a, Q a → R a) → results Q p → results R p.
Proof. intros HQ. induction p as [a|X e k IH]; simpl; [apply HQ|]. intros Hp x. by apply IH. Qed.
Lemma exec_results {E : Type → Type} {S A} (H : ∀ X, E X → S → X → S → Prop) (Q : A → Prop) (p : prog E A) s r s' :
  results Q p → exec H p s r s' → Q r.
Proof.
  revert s. induction p as [a|X e k IH]; intros s Hp; simpl; [by intros [-> _]|].
  intros (x&s1&_&Hk). by eapply IH.
Qed.

(** ** Implementing one port by another *)

Fixpoint interp {E F : Type → Type} {A} (h : ∀ X, E X → prog F X) (p : prog E A) : prog F A :=
  match p with Ret a => Ret a | Vis e k => pbind (h _ e) (λ x, interp h (k x)) end.

(** The calls of the lower port are those that the calls of the upper one make. *)
Fixpoint implemented {E F : Type → Type} (h : ∀ X, E X → prog F X) (t : list (event E)) (u : list (event F)) :
    Prop :=
  match t with
  | [] => u = []
  | Ev e x :: t => ∃ u1 u2, u = u1 ++ u2 ∧ exec traced (h _ e) [] x u1 ∧ implemented h t u2
  end.

Lemma implemented_app {E F : Type → Type} (h : ∀ X, E X → prog F X) t1 t2 u :
  implemented h (t1 ++ t2) u ↔ ∃ u1 u2, u = u1 ++ u2 ∧ implemented h t1 u1 ∧ implemented h t2 u2.
Proof.
  revert u. induction t1 as [|[X e x] t1 IH]; intros u; cbn [implemented app].
  - split; [intros Hu; by exists [], u|]. by intros (u1&u2&->&->&?).
  - split.
    + intros (u1&u2&->&He&(v1&v2&->&Hv&Ht)%IH). exists (u1 ++ v1), v2. rewrite app_assoc.
      split_and!; [done| |done]. by exists u1, v1.
    + intros (u1&u2&->&(v1&v2&->&He&Hv)&Ht). exists v1, (v2 ++ u2). rewrite app_assoc.
      split_and!; [done|done|]. apply IH. by exists v2, u2.
Qed.

Lemma interp_exec {E F : Type → Type} {A} (h : ∀ X, E X → prog F X) (p : prog E A) r u :
  exec traced (interp h p) [] r u → ∃ t, exec traced p [] r t ∧ implemented h t u.
Proof.
  revert u. induction p as [a|X e k IH]; intros u; cbn [interp].
  - intros [-> ->]. by exists [].
  - intros (x&u1&Hx&(u2&->&Hk)%exec_traced_app)%exec_bind. destruct (IH x u2 Hk) as (t&Ht&Hi).
    exists (Ev e x :: t). split.
    + exists x, [Ev e x]. split; [done|]. apply exec_traced_app. by exists t.
    + by exists u1, u2.
Qed.

(** ** Ports that restrict their answers

    The state is still the trace; [A t e x] says that [x] may answer [e] after [t]. *)

Section constrained.
Context {E : Type → Type} (A : list (event E) → ∀ X, E X → X → Prop).

Definition constrained (X : Type) (e : E X) (t : list (event E)) (x : X) (t' : list (event E)) : Prop :=
  A t X e x ∧ t' = t ++ [Ev e x].

Lemma constrained_step {X R} (e : E X) (k : X → prog E R) t r t' :
  exec constrained (Vis e k) t r t' → ∃ x, A t X e x ∧ exec constrained (k x) (t ++ [Ev e x]) r t'.
Proof. cbn [exec]. unfold constrained. intros (x&s1&[Hx ->]&He). by exists x. Qed.

Lemma constrained_traced {R} (p : prog E R) t r t' : exec constrained p t r t' → exec traced p t r t'.
Proof.
  revert t. induction p as [a|X e k IH]; intros t; [done|]. intros (x&_&He)%constrained_step.
  exists x, (t ++ [Ev e x]). split; [done|]. by apply IH.
Qed.
Lemma constrained_grows {R} (p : prog E R) t r t' :
  exec constrained p t r t' → ∃ u, t' = t ++ u ∧ exec traced p [] r u.
Proof. intros He%constrained_traced. by apply exec_traced_app in He. Qed.

(** A port that can always answer lets every run end. *)
Lemma constrained_ends {R} (p : prog E R) t :
  (∀ t X (e : E X), ∃ x, A t X e x) → ∃ r t', exec constrained p t r t'.
Proof.
  intros Ht. revert t. induction p as [a|X e k IH]; intros t; [by exists a, t|].
  destruct (Ht t X e) as [x Hx]. destruct (IH x (t ++ [Ev e x])) as (r&t'&He).
  exists r, t', x, (t ++ [Ev e x]). by split.
Qed.
End constrained.

(** ** Deadlines

    [tokio::time::timeout]: a future can be abandoned at any of its awaits.
    [awaits e] says that [e] is an await and not a synchronous call; the answer of
    an await is [None] when the deadline passes while it is pending. *)

Inductive timed (E : Type → Type) : Type → Type :=
| Sync {X : Type} (e : E X) : timed E X
| Await {X : Type} (e : E X) : timed E (option X).
Arguments Sync {E X} e.
Arguments Await {E X} e.

Section deadline.
Context {E : Type → Type} (awaits : ∀ X, E X → bool).

Fixpoint deadline {R} (p : prog E R) : prog (timed E) (option R) :=
  match p with
  | Ret a => Ret (Some a)
  | Vis e k =>
      if awaits _ e then
        x <~ Await e ;;
        match x with Some x => deadline (k x) | None => Ret None end
      else
        x <~ Sync e ;;
        deadline (k x)
  end.

Definition timed_event (ev : event E) : event (timed E) :=
  match ev with Ev e x => if awaits _ e then Ev (Await e) (Some x) else Ev (Sync e) x end.
(** What has been answered. *)
Definition untimed_event (ev : event (timed E)) : list (event E) :=
  match ev with
  | @Ev _ X e x =>
      match e in timed _ X return X → list (event E) with
      | Sync e => λ x, [Ev e x]
      | Await e => λ x, match x with Some x => [Ev e x] | None => [] end
      end x
  end.
Fixpoint untimed (t : list (event (timed E))) : list (event E) :=
  match t with [] => [] | ev :: t => untimed_event ev ++ untimed t end.

Lemma untimed_app t u : untimed (t ++ u) = untimed t ++ untimed u.
Proof. induction t as [|ev t IH]; [done|]. simpl. by rewrite IH, app_assoc. Qed.
Lemma untimed_timed u : untimed (map timed_event u) = u.
Proof.
  induction u as [|[X e x] u IH]; [done|]. simpl. rewrite IH. by destruct (awaits X e).
Qed.

Context (A : list (event E) → ∀ X, E X → X → Prop).
Definition timed_answers (t : list (event (timed E))) (X : Type) (e : timed E X) : X → Prop :=
  match e in timed _ X return X → Prop with
  | Sync e => λ x, A (untimed t) _ e x
  | Await e => λ x, match x with Some x => A (untimed t) _ e x | None => True end
  end.

(** A run under a deadline is a run, or the beginning of one that was abandoned at
    an await whose call may have been made. *)
Lemma deadline_exec {R} (p : prog E R) u r t :
  (∀ t X (e : E X), ∃ x, A t X e x) →
  exec (constrained timed_answers) (deadline p) (map timed_event u) r t →
  (∃ a v, r = Some a ∧ t = map timed_event v ∧ exec (constrained A) p u a v) ∨
  (r = None ∧ ∃ v X (e : E X), awaits X e = true ∧ t = map timed_event v ++ [Ev (Await e) None] ∧
     ∃ x a w, exec (constrained A) p u a (v ++ Ev e x :: w)).
Proof.
  intros Ht. revert u. induction p as [a|X e k IH]; intros u; cbn [deadline].
  { intros [-> ->]. left. by exists a, u. }
  destruct (awaits X e) eqn:Ha; intros (x&Hx&He)%constrained_step; cbn [timed_answers] in Hx.
  - rewrite untimed_timed in Hx. destruct x as [x|].
    + assert (map timed_event u ++ [Ev (Await e) (Some x)] = map timed_event (u ++ [Ev e x])) as Hu
        by (rewrite map_app; simpl; by rewrite Ha).
      rewrite Hu in He. destruct (IH x _ He) as [(a&v&->&->&Hv)|(->&v&Y&e'&Hy&->&y&a&w&Hv)].
      * left. exists a, v. split_and!; [done|done|]. by exists x, (u ++ [Ev e x]).
      * right. split; [done|]. exists v, Y, e'. split_and!; [done|done|]. exists y, a, w. by exists x, (u ++ [Ev e x]).
    + destruct He as [-> ->]. right. split; [done|]. exists u, X, e. split_and!; [done|done|].
      destruct (Ht u X e) as [x Hx']. destruct (constrained_ends A (k x) (u ++ [Ev e x]) Ht) as (a&t'&Hk).
      destruct (constrained_grows _ _ _ _ _ Hk) as (w&Hw&_). exists x, a, w.
      rewrite <-app_assoc in Hw. simpl in Hw. rewrite <-Hw. by exists x, (u ++ [Ev e x]).
  - rewrite untimed_timed in Hx.
    assert (map timed_event u ++ [Ev (Sync e) x] = map timed_event (u ++ [Ev e x])) as Hu
      by (rewrite map_app; simpl; by rewrite Ha).
    rewrite Hu in He. destruct (IH x _ He) as [(a&v&->&->&Hv)|(->&v&Y&e'&Hy&->&y&a&w&Hv)].
    + left. exists a, v. split_and!; [done|done|]. by exists x, (u ++ [Ev e x]).
    + right. split; [done|]. exists v, Y, e'. split_and!; [done|done|]. exists y, a, w. by exists x, (u ++ [Ev e x]).
Qed.
End deadline.
