(* ===== verification/Tasks.v ===== *)
(** * Tasks: pools of tasks that can be abandoned

    A pool of tasks in which the port knows which task calls, and in which the
    future of a task can be dropped while a call is pending: what the task holds is
    then released.  A task is reasoned about on its own: it keeps the invariant of
    the shared state, makes its calls under their guards, and relies on what no
    other task does. *)

From S2P Require Import Prelude Effects.

(** ** History: the answers of a pool, the latest first, with the task of each *)
Section history.
Context {E : Type → Type}.
Implicit Types log : list (nat * event E).

Definition answers log : list (event E) := log.*2.
Definition own_answers (i : nat) log : list (event E) := (List.filter (λ e, Nat.eqb e.1 i) log).*2.

Lemma own_answers_here i ev log : own_answers i ((i, ev) :: log) = ev :: own_answers i log.
Proof. unfold own_answers. cbn. by rewrite Nat.eqb_refl. Qed.
Lemma own_answers_other i j ev log : i ≠ j → own_answers i ((j, ev) :: log) = own_answers i log.
Proof. intros Hij. unfold own_answers. cbn. by rewrite (proj2 (Nat.eqb_neq j i)). Qed.
Lemma own_answers_app i log log' : own_answers i (log ++ log') = own_answers i log ++ own_answers i log'.
Proof. unfold own_answers. by rewrite List.filter_app, fmap_app. Qed.
Lemma elem_of_own_answers i ev log : ev ∈ own_answers i log ↔ (i, ev) ∈ log.
Proof.
  unfold own_answers. split.
  - intros ([j ev']&->&[Hin%list_elem_of_In Hj%Nat.eqb_eq]%list_elem_of_In%filter_In)%list_elem_of_fmap. by cbn in *; subst.
  - intros Hin. apply list_elem_of_fmap. exists (i, ev). split; [done|].
    apply list_elem_of_In, filter_In. split; [by apply list_elem_of_In|apply Nat.eqb_refl].
Qed.
Lemma own_answers_answers i ev log : ev ∈ own_answers i log → ev ∈ answers log.
Proof. intros Hin%elem_of_own_answers. apply list_elem_of_fmap. by exists (i, ev). Qed.
Lemma answers_suffix log log' ev : log `suffix_of` log' → ev ∈ answers log → ev ∈ answers log'.
Proof. intros [new ->]. unfold answers. rewrite fmap_app. intros. apply elem_of_app. by right. Qed.
Lemma own_answers_suffix i log log' ev : log `suffix_of` log' → ev ∈ own_answers i log → ev ∈ own_answers i log'.
Proof. intros [new ->] Hin. rewrite own_answers_app. apply elem_of_app. by right. Qed.
End history.

Section tasks.
Context {E : Type → Type} {S : Type}.
(** [H i X e s x s']: task [i] calls [e].  [abandon i s]: what task [i] holds is
    dropped. *)
Context (H : nat → ∀ X, E X → S → X → S → Prop) (abandon : nat → S → S).

(** A running or returned task, or [None] for an abandoned one. *)
Definition pool (A : Type) : Type := list (option (prog E A)) * S.

Definition call_step {A} (i : nat) (p : prog E A) (s : S) (p' : prog E A) (s' : S) : Prop :=
  match p with Ret _ => False | Vis e k => ∃ x, H i _ e s x s' ∧ p' = k x end.
Definition running {A} (p : prog E A) : Prop := match p with Ret _ => False | Vis _ _ => True end.

Definition task_step {A} (c c' : pool A) : Prop :=
  ∃ i p, c.1 !! i = Some (Some p) ∧
    ((∃ p', call_step i p c.2 p' c'.2 ∧ c'.1 = <[i := Some p']> c.1) ∨
     (running p ∧ c'.1 = <[i := None]> c.1 ∧ c'.2 = abandon i c.2)).

(** [I]: the invariant; [R i]: what the other tasks may do while task [i] runs;
    [P i e s]: the guard of a call. *)
Context (I : S → Prop) (R : nat → S → S → Prop) (P : nat → ∀ X, E X → S → Prop).
Context `{!∀ i, Reflexive (R i), !∀ i, Transitive (R i)}.

Fixpoint task_safe {A} (i : nat) (Q : A → S → Prop) (p : prog E A) (s : S) : Prop :=
  match p with
  | Ret a => Q a s
  | Vis e k =>
      ∀ s1, I s1 → R i s s1 →
        P i _ e s1 ∧
        ∀ x s2, H i _ e s1 x s2 → I s2 ∧ (∀ j, j ≠ i → R j s1 s2) ∧ task_safe i Q (k x) s2
  end.

Lemma task_safe_bind {A B} i (Q : B → S → Prop) (p : prog E A) (f : A → prog E B) s :
  task_safe i (λ a s, task_safe i Q (f a) s) p s → task_safe i Q (pbind p f) s.
Proof.
  revert s. induction p as [a|X e k IH]; intros s; simpl; [done|]. intros Hp s1 Hi Hr.
  destruct (Hp s1 Hi Hr) as [Hg Hk]. split; [done|]. intros x s2 Hx. destruct (Hk x s2 Hx) as (?&?&?).
  split_and!; [done..|]. by apply IH.
Qed.

Lemma task_safe_mono {A} i (Q Q' : A → S → Prop) (p : prog E A) s :
  (∀ a s, Q a s → Q' a s) → task_safe i Q p s → task_safe i Q' p s.
Proof.
  intros HQ. revert s. induction p as [a|X e k IH]; intros s; simpl; [apply HQ|]. intros Hp s1 Hi Hr.
  destruct (Hp s1 Hi Hr) as [Hg Hk]. split; [done|]. intros x s2 Hx. destruct (Hk x s2 Hx) as (?&?&?).
  split_and!; [done..|]. by apply IH.
Qed.

(** A part of a program whose calls change nothing but the history [log] of task [i],
    the latest answer first.  [K' s s']: what neither the part nor another task
    changes. *)
Lemma task_asks {A} i (log : S → list (event E)) (K : ∀ X, E X → Prop) (K' : S → S → Prop) (p : prog E A) s0 :
  Reflexive K' → Transitive K' → (∀ s s', R i s s' → K' s s' ∧ log s' = log s) →
  (∀ X (e : E X) s, K X e → I s → K' s0 s → P i X e s ∧ ∀ x s', H i X e s x s' →
     I s' ∧ (∀ j, j ≠ i → R j s s') ∧ K' s s' ∧ log s' = Ev e x :: log s) →
  calls_only K p →
  task_safe i (λ r s', K' s0 s' ∧ ∃ t, exec traced p [] r t ∧ log s' = rev t ++ log s0) p s0.
Proof.
  intros HKr HKt HRK Hcall Hp. enough (∀ t s, K' s0 s → log s = rev t ++ log s0 →
    task_safe i (λ r s', K' s0 s' ∧ ∃ u, exec traced p t r u ∧ log s' = rev u ++ log s0) p s) as Hg by by apply Hg.
  induction p as [a|X e k IH]; intros t s Hs Ht.
  { split; [done|]. exists t. by split. }
  destruct Hp as [He Hk]. intros s1 Hi [Hr Hl1]%HRK. assert (K' s0 s1) as Hr1 by by etrans.
  destruct (Hcall X e s1 He Hi Hr1) as [Hg Hx]. split; [done|]. intros x s2 Hx2. destruct (Hx x s2 Hx2) as (Hi2&Ho&Hk2&Hl).
  split_and!; [done|done|]. eapply task_safe_mono; [|apply (IH x (Hk x) (t ++ [Ev e x]))].
  - intros r s' (Hr'&u&Hu&Hin). split; [done|]. exists u. split; [|done]. by exists x, (t ++ [Ev e x]).
  - by etrans.
  - by rewrite rev_app_distr, Hl, Hl1, Ht.
Qed.

(** [Q i]: what holds of a result of task [i]; [Z i]: of a task that does not run.
    Both are respected by the others. *)
Context {A : Type} (Q : nat → A → S → Prop) (Z : nat → S → Prop).
Record tasks_laws : Prop := {
  law_result : ∀ i a s s', Q i a s → R i s s' → Q i a s';
  law_idle : ∀ i s s', Z i s → R i s s' → Z i s';
  law_abandon : ∀ i s, I s → I (abandon i s) ∧ Z i (abandon i s) ∧ ∀ j, j ≠ i → R j s (abandon i s);
}.
Definition task_ok (i : nat) (t : option (option (prog E A))) (s : S) : Prop :=
  match t with Some (Some p) => ∃ s0, R i s0 s ∧ task_safe i (Q i) p s0 | _ => Z i s end.
Definition tasks_ok (c : pool A) : Prop := I c.2 ∧ ∀ i, task_ok i (c.1 !! i) c.2.

Lemma task_ok_rely i t s s' : tasks_laws → task_ok i t s → R i s s' → task_ok i t s'.
Proof.
  intros L. destruct t as [[p|]|]; simpl; [|by eapply law_idle..].
  intros (s0&Hs&Hp) Hr. exists s0. split; [by etrans|done].
Qed.

Lemma task_step_ok c c' : tasks_laws → tasks_ok c → task_step c c' → tasks_ok c'.
Proof.
  intros L [Hi Ht] (i&p&Hp&Hstep). destruct c as [ps s], c' as [ps' s']. cbn [fst snd] in *.
  assert (i < length ps) as Hlt by by eapply lookup_lt_Some.
  assert (∀ t, I s' → (∀ j, j ≠ i → R j s s') → task_ok i (Some t) s' → ps' = <[i := t]> ps → tasks_ok (ps', s')) as Hput.
  { intros t Hi' Hr Hti ->. split; [done|]. intros j. cbn [fst snd]. destruct (decide (j = i)) as [->|Hj].
    - by rewrite list_lookup_insert_eq.
    - rewrite list_lookup_insert_ne by done. eapply task_ok_rely; [done|apply Ht|by apply Hr]. }
  pose proof (Ht i) as Hti. rewrite Hp in Hti. destruct Hti as (s0&Hs0&Hsafe).
  destruct Hstep as [(p'&Hc&Hps)|(_&Hps&->)].
  - destruct p as [a|X e k]; [done|]. destruct Hc as (x&Hx&->).
    destruct (Hsafe s Hi Hs0) as [_ Hk]. destruct (Hk x s' Hx) as (Hi'&Hr&Hk').
    apply (Hput (Some (k x)) Hi' Hr); [|done]. by exists s'.
  - destruct (law_abandon L i s Hi) as (Hi'&Hz&Hr). by apply (Hput None).
Qed.
Lemma task_steps_ok c c' : tasks_laws → tasks_ok c → rtc task_step c c' → tasks_ok c'.
Proof. intros L Hc Hr. induction Hr as [|c1 c2 c3 Hs _ IH]; [done|]. apply IH. by eapply task_step_ok. Qed.

(** A pool that starts. *)
Lemma tasks_start ps s :
  I s → (∀ i, Z i s) → (∀ i p, ps !! i = Some p → task_safe i (Q i) p s) → tasks_ok (map Some ps, s).
Proof.
  intros Hi Hz Hp. split; [done|]. intros i. cbn [fst snd]. rewrite list_lookup_fmap.
  destruct (ps !! i) as [p|] eqn:E0; simpl; [|done]. exists s. split; [done|]. by apply Hp.
Qed.

(** What is known of a pending call, of a result and of a task that is gone. *)
Lemma tasks_calling ps s i X (e : E X) k :
  tasks_ok (ps, s) → ps !! i = Some (Some (Vis e k)) → P i X e s.
Proof.
  intros [Hi Ht] Hp. pose proof (Ht i) as Hti. cbn [fst snd] in Hti. rewrite Hp in Hti.
  destruct Hti as (s0&Hs0&Hsafe). by destruct (Hsafe s Hi Hs0).
Qed.
Lemma tasks_returned ps s i a : tasks_laws → tasks_ok (ps, s) → ps !! i = Some (Some (Ret a)) → Q i a s.
Proof.
  intros L [Hi Ht] Hp. pose proof (Ht i) as Hti. cbn [fst snd] in Hti. rewrite Hp in Hti.
  destruct Hti as (s0&Hs0&Hq). by eapply law_result.
Qed.
Lemma tasks_idle ps s i : tasks_ok (ps, s) → ps !! i = None ∨ ps !! i = Some None → Z i s.
Proof.
  intros [Hi Ht] Hp. pose proof (Ht i) as Hti. cbn [fst snd] in Hti. by destruct Hp as [Hp|Hp]; rewrite Hp in Hti.
Qed.
End tasks.

(** ** Schedules

    A pool run by a list of choices against a handler of the port, which may refuse
    a call that has to wait.  [(i, true)]: task [i] makes its next call; [(i,
    false)]: it is abandoned. *)
Section schedule.
Context {E : Type → Type} {S A : Type}.
Context (H : nat → ∀ X, E X → S → X → S → Prop) (abandon : nat → S → S)
        (h : nat → ∀ X, E X → S → option (X * S)).

Definition schedule_step (c : pool (E := E) (S := S) A) (choice : nat * bool) : pool (E := E) (S := S) A :=
  match c.1 !! choice.1 with
  | Some (Some (Vis e k)) =>
      if choice.2 then
        match h choice.1 _ e c.2 with
        | Some (x, s) => (<[choice.1 := Some (k x)]> c.1, s)
        | None => c
        end
      else (<[choice.1 := None]> c.1, abandon choice.1 c.2)
  | _ => c
  end.
Definition schedule (choices : list (nat * bool)) (c : pool A) : pool A := foldl schedule_step c choices.

Lemma schedule_steps choices c :
  (∀ i X (e : E X) s x s', h i X e s = Some (x, s') → H i X e s x s') →
  rtc (task_step H abandon) c (schedule choices c).
Proof.
  intros Hh. unfold schedule. revert c. induction choices as [|[i b] choices IH]; intros c; cbn [foldl]; [done|].
  unfold schedule_step at 2. cbn [fst snd]. destruct (c.1 !! i) as [[[a|X e k]|]|] eqn:Hi; [apply IH| |apply IH..].
  destruct b.
  - destruct (h i X e c.2) as [[x s]|] eqn:Hx; [|apply IH]. eapply rtc_l; [|apply IH].
    exists i, (Vis e k). split; [done|]. left. exists (k x). split; [|done]. exists x. split; [by apply Hh|done].
  - eapply rtc_l; [|apply IH]. exists i, (Vis e k). split; [done|]. by right.
Qed.
End schedule.
