(* ===== verification/Registry.v ===== *)
(** * Registry: live controller sessions

    [crates/center-runtime/src/federation/registry.rs].  The registry maps a
    controller id to its session.  Two kinds of cells are shared between a
    session, the views handed out of the registry and the tasks of the session:
    the cancellation token and the [AtomicBool] of the ownership.  They are
    modelled as references into a store kept beside the map, so that a view
    taken before a cancellation sees it. *)

From S2P Require Import Prelude Core.

(** ** Messages on the federation stream ([fed_sync.proto]) *)

Record RegisterRequest := {
  rr_controller_id : string;
  rr_cluster : string;
  rr_env : list string;
  rr_tag : list string;
}.

(** ** State *)

Abbreviation token := nat.       (* a CancellationToken *)
Abbreviation flag := nat.        (* an Arc<AtomicBool> *)
Abbreviation sender := nat.      (* an mpsc::Sender<CenterMessage> *)

Record SessionOwnership := {
  so_holder : string;
  so_fence : OwnershipFence;
  so_valid : flag;
}.

Record ControllerSession := {
  cs_controller_id : string;
  cs_session_id : string;
  cs_info : RegisterRequest;
  cs_stream_tx : option sender;
  cs_last_seen : Z;              (* Instant, in milliseconds *)
  cs_offline_since : option Z;
  cs_session_cancel : token;
  cs_ownership : option SessionOwnership;
}.

Record SessionView := {
  sv_controller_id : string;
  sv_session_id : string;
  sv_info : RegisterRequest;
  sv_stream_tx : option sender;
  sv_last_seen : Z;
  sv_offline_since : option Z;
  sv_session_cancel : token;
  sv_ownership : option SessionOwnership;
}.

Record RegistrationOutcome := {
  ro_displaced_session_id : option string;
  ro_session_cancel : token;
}.

(** [inner] is the locked map; [cancelled] the cancelled tokens, [flags] the
    atomic flags, [next_ref] the allocator of both; the two counters are what
    [RegistryMetrics] observes. *)
Record ControllerRegistry := mkRegistry {
  inner : gmap string ControllerSession;
  cancelled : gset token;
  flags : gmap flag bool;
  next_ref : nat;
  session_reentries : Z;
  evictions : Z;
}.

Definition with_metrics : ControllerRegistry := mkRegistry ∅ ∅ ∅ 0 0 0.

Definition set_inner m (r : ControllerRegistry) : ControllerRegistry :=
  mkRegistry m (cancelled r) (flags r) (next_ref r) (session_reentries r) (evictions r).

(** [CancellationToken::cancel] and the stores on the atomic flag. *)
Definition cancel_token (t : token) (r : ControllerRegistry) : ControllerRegistry :=
  mkRegistry (inner r) ({[t]} ∪ cancelled r) (flags r) (next_ref r)
    (session_reentries r) (evictions r).
Definition is_cancelled (t : token) (r : ControllerRegistry) : bool :=
  bool_decide (t ∈ cancelled r).
Definition store_flag_false (f : flag) (r : ControllerRegistry) : ControllerRegistry :=
  mkRegistry (inner r) (cancelled r) (<[f := false]> (flags r)) (next_ref r)
    (session_reentries r) (evictions r).
(** [Arc::new(AtomicBool::new(true))]. *)
Definition new_flag (r : ControllerRegistry) : flag * ControllerRegistry :=
  (next_ref r,
   mkRegistry (inner r) (cancelled r) (<[next_ref r := true]> (flags r))
     (S (next_ref r)) (session_reentries r) (evictions r)).
(** [CancellationToken::new()]. *)
Definition new_token (r : ControllerRegistry) : token * ControllerRegistry :=
  (next_ref r,
   mkRegistry (inner r) (cancelled r) (flags r) (S (next_ref r))
     (session_reentries r) (evictions r)).

Definition is_valid (o : SessionOwnership) (r : ControllerRegistry) : bool :=
  default false (flags r !! so_valid o).

Definition is_online (s : ControllerSession) (r : ControllerRegistry) : bool :=
  bool_decide (is_Some (cs_stream_tx s)) && negb (is_cancelled (cs_session_cancel s) r).

(** ** Registration *)

Definition record_session_reentry (r : ControllerRegistry) : ControllerRegistry :=
  mkRegistry (inner r) (cancelled r) (flags r) (next_ref r)
    (session_reentries r + 1) (evictions r).
Definition record_eviction (r : ControllerRegistry) : ControllerRegistry :=
  mkRegistry (inner r) (cancelled r) (flags r) (next_ref r)
    (session_reentries r) (evictions r + 1).

Definition register_owned_cancellable (controller_id : string) (info : RegisterRequest)
    (stream_tx : sender) (session_id : string) (ownership : option SessionOwnership)
    (now : Z) (r : ControllerRegistry) : RegistrationOutcome * ControllerRegistry :=
  let '(session_cancel, r) := new_token r in
  let session := {|
    cs_controller_id := controller_id;
    cs_session_id := session_id;
    cs_info := info;
    cs_stream_tx := Some stream_tx;
    cs_last_seen := now;
    cs_offline_since := None;
    cs_session_cancel := session_cancel;
    cs_ownership := ownership |} in
  let '(displaced, r) :=
    match inner r !! controller_id with
    | Some s =>
        match cs_stream_tx s with
        | Some _ => (Some (cs_session_id s), cancel_token (cs_session_cancel s) r)
        | None => (None, r)
        end
    | None => (None, r)
    end in
  let r := if bool_decide (is_Some (inner r !! controller_id))
           then record_session_reentry r else r in
  let r := set_inner (<[controller_id := session]> (inner r)) r in
  ({| ro_displaced_session_id := displaced; ro_session_cancel := session_cancel |}, r).

Definition register_cancellable controller_id info stream_tx session_id now r :=
  register_owned_cancellable controller_id info stream_tx session_id None now r.

Definition register controller_id info stream_tx session_id now r :
    option string * ControllerRegistry :=
  let '(o, r) := register_cancellable controller_id info stream_tx session_id now r in
  (ro_displaced_session_id o, r).

(** ** Queries *)

Definition is_current_session (controller_id session_id : string)
    (r : ControllerRegistry) : bool :=
  match inner r !! controller_id with
  | Some s => String.eqb (cs_session_id s) session_id
  | None => false
  end.

Definition get_session (controller_id : string) (r : ControllerRegistry) :
    option SessionView :=
  session ← inner r !! controller_id;
  Some {|
    sv_controller_id := cs_controller_id session;
    sv_session_id := cs_session_id session;
    sv_info := cs_info session;
    sv_stream_tx := if is_online session r then cs_stream_tx session else None;
    sv_last_seen := cs_last_seen session;
    sv_offline_since := cs_offline_since session;
    sv_session_cancel := cs_session_cancel session;
    sv_ownership := cs_ownership session |}.

Definition matches_ownership (v : SessionView) (holder : string) (fence : OwnershipFence)
    (r : ControllerRegistry) : bool :=
  match sv_ownership v with
  | Some o => is_valid o r && String.eqb (so_holder o) holder
              && bool_decide (so_fence o = fence)
  | None => false
  end.

(** [Instant::elapsed] saturates at zero; [as_secs] truncates. *)
Definition last_seen_secs_ago (controller_id : string) (now : Z)
    (r : ControllerRegistry) : option Z :=
  s ← inner r !! controller_id; Some (Z.max 0 (now - cs_last_seen s) / 1000)%Z.

Definition online_controller_ids (r : ControllerRegistry) : list string :=
  map (λ kv, cs_controller_id kv.2)
    (base.filter (λ kv, is_online kv.2 r = true) (map_to_list (inner r))).

Definition online_senders (r : ControllerRegistry) : list (string * sender) :=
  omap (λ kv : string * ControllerSession,
          if is_online kv.2 r
          then tx ← cs_stream_tx kv.2; Some (cs_controller_id kv.2, tx)
          else None) (map_to_list (inner r)).

Definition len (r : ControllerRegistry) : Z := zsize (inner r).
Definition is_empty_registry (r : ControllerRegistry) : bool := (len r =? 0)%Z.
Definition online_len (r : ControllerRegistry) : Z :=
  zlen (base.filter (λ kv, is_online kv.2 r = true) (map_to_list (inner r))).

(** ** Mutations *)

Definition fence_owned_session (controller_id : string) (r : ControllerRegistry) :
    bool * ControllerRegistry :=
  match inner r !! controller_id with
  | None => (false, r)
  | Some session =>
      match cs_ownership session with
      | None => (false, r)
      | Some ownership =>
          (true, cancel_token (cs_session_cancel session)
                   (store_flag_false (so_valid ownership) r))
      end
  end.

Definition set_last_seen (now : Z) (s : ControllerSession) : ControllerSession := {|
  cs_controller_id := cs_controller_id s; cs_session_id := cs_session_id s;
  cs_info := cs_info s; cs_stream_tx := cs_stream_tx s; cs_last_seen := now;
  cs_offline_since := cs_offline_since s; cs_session_cancel := cs_session_cancel s;
  cs_ownership := cs_ownership s |}.

Definition take_stream_tx (s : ControllerSession) : ControllerSession := {|
  cs_controller_id := cs_controller_id s; cs_session_id := cs_session_id s;
  cs_info := cs_info s; cs_stream_tx := None; cs_last_seen := cs_last_seen s;
  cs_offline_since := cs_offline_since s; cs_session_cancel := cs_session_cancel s;
  cs_ownership := cs_ownership s |}.

Definition set_offline_since (now : Z) (s : ControllerSession) : ControllerSession := {|
  cs_controller_id := cs_controller_id s; cs_session_id := cs_session_id s;
  cs_info := cs_info s; cs_stream_tx := cs_stream_tx s; cs_last_seen := cs_last_seen s;
  cs_offline_since := Some now; cs_session_cancel := cs_session_cancel s;
  cs_ownership := cs_ownership s |}.

Definition update_last_seen (controller_id : string) (now : Z) (r : ControllerRegistry) :
    ControllerRegistry :=
  set_inner (alter (set_last_seen now) controller_id (inner r)) r.

(** One iteration of [cancel_all]'s loop over [values_mut]. *)
Definition cancel_one (acc : Z * ControllerRegistry) (k : string) :
    Z * ControllerRegistry :=
  let '(n, r) := acc in
  match inner r !! k with
  | Some s =>
      if is_online s r
      then ((n + 1)%Z,
            set_inner (<[k := take_stream_tx s]> (inner r))
              (cancel_token (cs_session_cancel s) r))
      else (n, r)
  | None => (n, r)
  end.

Definition cancel_all (r : ControllerRegistry) : Z * ControllerRegistry :=
  foldl cancel_one (0%Z, r) ((map_to_list (inner r)).*1).

Definition mark_offline (controller_id expected_session_id : string) (now : Z)
    (r : ControllerRegistry) : bool * ControllerRegistry :=
  match inner r !! controller_id with
  | None => (false, r)
  | Some session =>
      if negb (String.eqb (cs_session_id session) expected_session_id) then (false, r)
      else match cs_offline_since session with
           | Some _ => (false, r)
           | None =>
               let r := cancel_token (cs_session_cancel session) r in
               (true, set_inner (<[controller_id :=
                        take_stream_tx (set_offline_since now session)]> (inner r)) r)
           end
  end.

(** [remove] holds the write lock only while it takes the entry out of the map;
    the flag, the token and the metric follow after the guard is dropped, and
    other calls may run between any two of them. *)
Definition remove_entry (controller_id : string) (r : ControllerRegistry) :
    option ControllerSession * ControllerRegistry :=
  match inner r !! controller_id with
  | None => (None, r)
  | Some session => (Some session, set_inner (delete controller_id (inner r)) r)
  end.

Definition remove_invalidate (session : ControllerSession) (r : ControllerRegistry) :
    ControllerRegistry :=
  match cs_ownership session with
  | Some o => store_flag_false (so_valid o) r
  | None => r
  end.

Definition remove_finish (session : ControllerSession) (r : ControllerRegistry) :
    ControllerRegistry :=
  record_eviction (cancel_token (cs_session_cancel session) r).

(** The whole call, when nothing runs in between. *)
Definition remove (controller_id : string) (r : ControllerRegistry) :
    bool * ControllerRegistry :=
  let '(removed, r) := remove_entry controller_id r in
  match removed with
  | Some session => (true, remove_finish session (remove_invalidate session r))
  | None => (false, r)
  end.

(** ** Executions

    Every operation that changes the registry, in any order, together with the
    two external actions on shared cells: a session task cancels its token and
    the ownership maintainer invalidates its flag.  A registered ownership refers
    to an allocated flag.  [ex_history] records every session ever registered,
    [ex_detached] the calls of [remove] that have released the lock and not yet
    returned, with whether their flag store is done.  The calls that hold the
    lock throughout are single steps; the cells they touch before releasing it
    are also covered by the two external actions. *)

Abbreviation history := (list (string * string * token)).

Record execution : Type := {
  ex_registry : ControllerRegistry;
  ex_history : history;
  ex_detached : list (bool * ControllerSession) }.

Definition on_registry_of (f : ControllerRegistry → ControllerRegistry) (x : execution) :
    execution :=
  {| ex_registry := f (ex_registry x); ex_history := ex_history x;
     ex_detached := ex_detached x |}.

Inductive reg_step : execution → execution → Prop :=
| step_register cid info tx sid own now r h d :
    (∀ o, own = Some o → is_Some (flags r !! so_valid o)) →
    reg_step {| ex_registry := r; ex_history := h; ex_detached := d |}
      (let '(o, r') := register_owned_cancellable cid info tx sid own now r in
       {| ex_registry := r'; ex_history := (cid, sid, ro_session_cancel o) :: h;
          ex_detached := d |})
| step_new_flag x : reg_step x (on_registry_of (λ r, (new_flag r).2) x)
| step_fence cid x : reg_step x (on_registry_of (λ r, (fence_owned_session cid r).2) x)
| step_last_seen cid now x : reg_step x (on_registry_of (update_last_seen cid now) x)
| step_cancel_all x : reg_step x (on_registry_of (λ r, (cancel_all r).2) x)
| step_mark_offline cid sid now x :
    reg_step x (on_registry_of (λ r, (mark_offline cid sid now r).2) x)
| step_remove_entry cid session r r' h d :
    remove_entry cid r = (Some session, r') →
    reg_step {| ex_registry := r; ex_history := h; ex_detached := d |}
      {| ex_registry := r'; ex_history := h; ex_detached := (false, session) :: d |}
| step_remove_invalidate session r h d1 d2 :
    reg_step {| ex_registry := r; ex_history := h; ex_detached := d1 ++ (false, session) :: d2 |}
      {| ex_registry := remove_invalidate session r; ex_history := h;
         ex_detached := d1 ++ (true, session) :: d2 |}
| step_remove_finish session r h d1 d2 :
    reg_step {| ex_registry := r; ex_history := h; ex_detached := d1 ++ (true, session) :: d2 |}
      {| ex_registry := remove_finish session r; ex_history := h; ex_detached := d1 ++ d2 |}
| step_cancel_token t x : reg_step x (on_registry_of (cancel_token t) x)
| step_store_false f x :
    is_Some (flags (ex_registry x) !! f) → reg_step x (on_registry_of (store_flag_false f) x).

Definition initial : execution :=
  {| ex_registry := with_metrics; ex_history := []; ex_detached := [] |}.

Definition reg_reachable : execution → Prop := rtc reg_step initial.

(** A call of [remove] has taken the session with this token out of the map and
    has not cancelled it yet. *)
Definition detached (t : token) (x : execution) : Prop :=
  ∃ fenced s, (fenced, s) ∈ ex_detached x ∧ cs_session_cancel s = t.

(** A detached session is registered, its flag allocated, and the map no longer
    holds it. *)
Record detached_wf (r : ControllerRegistry) (h : history) (s : ControllerSession) : Prop := {
  dw_history : ∃ c, (c, cs_session_id s, cs_session_cancel s) ∈ h;
  dw_owned : ∀ o, cs_ownership s = Some o → is_Some (flags r !! so_valid o);
  dw_gone : ∀ c s', inner r !! c = Some s' → cs_session_cancel s' ≠ cs_session_cancel s }.

(** The invariant: a session without a sender is cancelled, a session marked
    offline has no sender, references are below the allocator, an entry of the
    map and a detached session are registered sessions, a detached one is no
    entry any more, and every session of the history that is not cancelled is
    the current, sending session of its controller or detached. *)
Record reg_inv (r : ControllerRegistry) (h : history) (d : list (bool * ControllerSession)) :
    Prop := {
  inv_no_sender : ∀ c s, inner r !! c = Some s → cs_stream_tx s = None →
                  cs_session_cancel s ∈ cancelled r;
  inv_offline : ∀ c s, inner r !! c = Some s → is_Some (cs_offline_since s) →
                cs_stream_tx s = None;
  inv_flags_fresh : ∀ f b, flags r !! f = Some b → f < next_ref r;
  inv_owned : ∀ c s o, inner r !! c = Some s → cs_ownership s = Some o →
              is_Some (flags r !! so_valid o);
  inv_history_fresh : ∀ c i t, (c, i, t) ∈ h → t < next_ref r;
  inv_history_unique : ∀ c i c' i' t, (c, i, t) ∈ h → (c', i', t) ∈ h → c = c' ∧ i = i';
  inv_entry : ∀ c s, inner r !! c = Some s →
              (c, cs_session_id s, cs_session_cancel s) ∈ h;
  inv_detached : ∀ b s, (b, s) ∈ d → detached_wf r h s;
  inv_live : ∀ c i t, (c, i, t) ∈ h → t ∉ cancelled r →
             (∃ b s, (b, s) ∈ d ∧ cs_session_cancel s = t)
             ∨ ∃ s, inner r !! c = Some s ∧ cs_session_cancel s = t
                    ∧ cs_session_id s = i ∧ is_Some (cs_stream_tx s);
}.

(** Cells only move towards revocation: cancelled tokens stay cancelled and a
    flag that was stored false stays false. *)
Definition cells_le (r r' : ControllerRegistry) : Prop :=
  cancelled r ⊆ cancelled r'
  ∧ (∀ f, flags r !! f = Some false → flags r' !! f = Some false)
  ∧ next_ref r ≤ next_ref r'.

#[export] Instance cells_le_preorder : PreOrder cells_le.
Proof.
  split; [by intros r; split_and!|].
  intros a b c (?&?&?) (?&?&?). split_and!; [set_solver|eauto|lia].
Qed.

Ltac inv_fields :=
  match goal with
  | H : reg_inv _ _ _ |- _ => destruct H as [Hns Hoff Hff Hown Hhf Hhu Hent Hdet Hlive]
  end.

(** [detached_wf] depends on the flags' domain and on the tokens in the map. *)
Lemma detached_wf_mono r r' h h' s :
  h ⊆ h' → (∀ f, is_Some (flags r !! f) → is_Some (flags r' !! f)) →
  (∀ c s', inner r' !! c = Some s' →
     (∃ c1 s1, inner r !! c1 = Some s1 ∧ cs_session_cancel s1 = cs_session_cancel s')
     ∨ cs_session_cancel s' ≠ cs_session_cancel s) →
  detached_wf r h s → detached_wf r' h' s.
Proof.
  intros Hh Hf Hi [[c Hc] Ho Hg]. split; [|naive_solver|].
  - exists c. by apply Hh.
  - intros c' s' Hs'. destruct (Hi _ _ Hs') as [(c1&s1&H1&H2)|]; [|done].
    rewrite <- H2. by eapply Hg.
Qed.

Lemma reg_inv_init : reg_inv with_metrics [] [].
Proof. split; simpl; intros; simplify_map_eq; set_solver. Qed.

(** Changing one session in a way that keeps its identity and cancels it. *)
Lemma reg_inv_retire r h d k s s' :
  reg_inv r h d → inner r !! k = Some s →
  cs_session_cancel s' = cs_session_cancel s →
  cs_session_id s' = cs_session_id s →
  cs_ownership s' = cs_ownership s →
  cs_stream_tx s' = None →
  reg_inv (set_inner (<[k := s']> (inner r)) (cancel_token (cs_session_cancel s) r)) h d.
Proof.
  intros Hi Hk Ht Hid Ho Htx. inv_fields. split; simpl; [| |done| |done|done| | |].
  - intros c s0 H0 H1. destruct (decide (c = k)) as [->|]; simplify_map_eq.
    + rewrite Ht. set_solver.
    + specialize (Hns _ _ H0 H1). set_solver.
  - intros c s0 H0 H1. destruct (decide (c = k)) as [->|]; simplify_map_eq; eauto.
  - intros c s0 o H0 H1. destruct (decide (c = k)) as [->|]; simplify_map_eq; [|by eauto].
    rewrite Ho in H1. by eauto.
  - intros c s0 H0. destruct (decide (c = k)) as [->|]; simplify_map_eq; [|by eauto].
    rewrite Hid, Ht. by eauto.
  - intros b s0 H0. apply (detached_wf_mono r _ h h); [done|done| |by eauto].
    intros c s1 H1. left. destruct (decide (c = k)) as [->|]; simplify_map_eq; eauto.
  - intros c i t Hin Hnc.
    destruct (Hlive c i t Hin ltac:(set_solver)) as [?|(s0&H0&H1&H2&H3)]; [by left|right].
    destruct (decide (c = k)) as [->|]; simplify_map_eq; [set_solver|eauto].
Qed.

Lemma cancel_token_inv r h d t : reg_inv r h d → reg_inv (cancel_token t r) h d.
Proof.
  intros Hi. inv_fields. split; simpl; try done.
  - intros c s H0 H1. specialize (Hns _ _ H0 H1). set_solver.
  - intros b s H0. destruct (Hdet _ _ H0). by split.
  - intros c i t' Hin Hnc. apply (Hlive c i t' Hin). set_solver.
Qed.

Lemma store_false_alloc r f g :
  is_Some (flags r !! g) → is_Some (flags (store_flag_false f r) !! g).
Proof.
  simpl. intros [b Hb]. destruct (decide (f = g)) as [->|]; simplify_map_eq; eauto.
Qed.

Lemma store_false_inv r h d f :
  is_Some (flags r !! f) → reg_inv r h d → reg_inv (store_flag_false f r) h d.
Proof.
  intros [b Hf] Hi. inv_fields. split; try done.
  - simpl. intros g b' Hg. destruct (decide (f = g)) as [->|]; simplify_map_eq; eauto.
  - intros c s o H0 H1. by eapply store_false_alloc, Hown.
  - intros b' s H0. apply (detached_wf_mono r _ h h); [done| | |by eauto].
    + intros g. apply store_false_alloc.
    + intros c s' H1. left. by exists c, s'.
Qed.

Lemma store_false_le r f : cells_le r (store_flag_false f r).
Proof.
  split_and!; simpl; [done| |done]. intros g Hg.
  destruct (decide (f = g)) as [->|]; by simplify_map_eq.
Qed.

Lemma cancel_token_le r t : cells_le r (cancel_token t r).
Proof. split_and!; simpl; [set_solver|done|done]. Qed.

Lemma cancel_one_inv h d acc k : reg_inv acc.2 h d → reg_inv (cancel_one acc k).2 h d.
Proof.
  destruct acc as [n r]; simpl. intros Hi.
  destruct (inner r !! k) as [s|] eqn:Hk; [|done].
  destruct (is_online s r); [|done]. by apply reg_inv_retire.
Qed.

Lemma cancel_one_le acc k : cells_le acc.2 (cancel_one acc k).2.
Proof.
  destruct acc as [n r]; simpl. destruct (inner r !! k) as [s|]; [|done].
  destruct (is_online s r); [|done]. split_and!; simpl; [set_solver|done|done].
Qed.

Lemma cancel_all_inv r h d : reg_inv r h d → reg_inv (cancel_all r).2 h d.
Proof.
  unfold cancel_all. generalize ((map_to_list (inner r)).*1) as ks. intros ks Hi.
  change r with (0%Z, r).2 in Hi. revert Hi. generalize (0%Z, r) as acc.
  induction ks as [|k ks IH]; intros acc Hi; [done|]. by apply IH, cancel_one_inv.
Qed.

Lemma cancel_all_le r : cells_le r (cancel_all r).2.
Proof.
  unfold cancel_all. generalize ((map_to_list (inner r)).*1) as ks. intros ks.
  change r with (0%Z, r).2 at 1. generalize (0%Z, r) as acc.
  induction ks as [|k ks IH]; intros acc; [done|].
  etrans; [apply cancel_one_le|apply IH].
Qed.

(** The state after registration, in one equation per cell. *)
Lemma register_spec cid info tx sid own now r o r' :
  register_owned_cancellable cid info tx sid own now r = (o, r') →
  ro_session_cancel o = next_ref r
  ∧ next_ref r' = S (next_ref r) ∧ flags r' = flags r
  ∧ inner r' = <[cid := {| cs_controller_id := cid; cs_session_id := sid; cs_info := info;
        cs_stream_tx := Some tx; cs_last_seen := now; cs_offline_since := None;
        cs_session_cancel := next_ref r; cs_ownership := own |}]> (inner r)
  ∧ cancelled r' = match inner r !! cid with
                   | Some s => if cs_stream_tx s is Some _
                               then {[cs_session_cancel s]} ∪ cancelled r
                               else cancelled r
                   | None => cancelled r
                   end
  ∧ ro_displaced_session_id o =
      (s ← inner r !! cid; _ ← cs_stream_tx s; Some (cs_session_id s)).
Proof.
  unfold register_owned_cancellable. simpl. intros H.
  destruct (inner r !! cid) as [s|] eqn:Hc; [destruct (cs_stream_tx s) eqn:Htx|];
    simpl in H; destruct (bool_decide _); simplify_eq/=; by rewrite ?Htx.
Qed.

Lemma register_inv cid info tx sid own now r h d o r' :
  (∀ o, own = Some o → is_Some (flags r !! so_valid o)) →
  reg_inv r h d → register_owned_cancellable cid info tx sid own now r = (o, r') →
  reg_inv r' ((cid, sid, ro_session_cancel o) :: h) d.
Proof.
  intros Hfl Hi Hreg. apply register_spec in Hreg as (Ho&Hn&Hf&Hin&Hc&_).
  assert (Hsub : cancelled r ⊆ cancelled r').
  { rewrite Hc. destruct (inner r !! cid) as [s|]; [destruct (cs_stream_tx s)|]; set_solver. }
  inv_fields. split; rewrite ?Hin, ?Hf, ?Hn, ?Ho.
  - intros c s H0 H1. destruct (decide (c = cid)) as [->|]; simplify_map_eq.
    apply Hsub. eauto.
  - intros c s H0 [x H1]. destruct (decide (c = cid)) as [->|]; simplify_map_eq; eauto.
  - intros f b Hfb. specialize (Hff f b Hfb). lia.
  - intros c s o' H0 H1. destruct (decide (c = cid)) as [->|]; simplify_map_eq; eauto.
  - intros c i t [?|Ht]%elem_of_cons; [simplify_eq; lia|]. specialize (Hhf _ _ _ Ht). lia.
  - intros c i c' i' t [?|Ht]%elem_of_cons [?|Ht']%elem_of_cons; simplify_eq; try done.
    + specialize (Hhf _ _ _ Ht'). lia.
    + specialize (Hhf _ _ _ Ht). lia.
    + by eapply Hhu.
  - intros c s H0. destruct (decide (c = cid)) as [->|]; simplify_map_eq; [by left|].
    right. by apply Hent.
  - intros b s H0. specialize (Hdet _ _ H0).
    apply (detached_wf_mono r _ h); [by intros y Hy; right|by rewrite Hf| |done].
    rewrite Hin. intros c s' H1. destruct (decide (c = cid)) as [->|]; simplify_map_eq; [|eauto].
    right. destruct (dw_history _ _ _ Hdet) as [c Hc0]. specialize (Hhf _ _ _ Hc0). lia.
  - intros c i t [?|Ht]%elem_of_cons Hnc; [simplify_eq; right|].
    { rewrite lookup_insert_eq. eauto 10. }
    destruct (Hlive c i t Ht ltac:(set_solver)) as [?|(s&H0&H1&H2&[tx0 H3])]; [by left|right].
    destruct (decide (c = cid)) as [->|].
    + rewrite H0, H3 in Hc. simpl in Hc. set_solver.
    + exists s. by rewrite lookup_insert_ne.
Qed.

Lemma register_le cid info tx sid own now r o r' :
  register_owned_cancellable cid info tx sid own now r = (o, r') → cells_le r r'.
Proof.
  intros (_&Hn&Hf&_&Hc&_)%register_spec. split_and!; [|by rewrite Hf|lia].
  rewrite Hc. destruct (inner r !! cid) as [s|]; [destruct (cs_stream_tx s)|]; set_solver.
Qed.

Lemma new_flag_inv r h d :
  reg_inv r h d → reg_inv (new_flag r).2 h d ∧ cells_le r (new_flag r).2.
Proof.
  intros Hi. inv_fields.
  assert (Hne : ∀ f, is_Some (flags r !! f) → is_Some (flags (new_flag r).2 !! f)).
  { intros f [b Hb]. pose proof (Hff _ _ Hb). simpl. rewrite lookup_insert_ne by lia. eauto. }
  split; [split|split_and!]; simpl; try done; try lia.
  - intros f b Hfb. destruct (decide (f = next_ref r)) as [->|]; simplify_map_eq; [lia|].
    specialize (Hff f b Hfb). lia.
  - intros c s o H0 H1. by eapply Hne, Hown.
  - intros c i t Ht. specialize (Hhf _ _ _ Ht). lia.
  - intros b s H0. apply (detached_wf_mono r _ h h); [done|done| |by eauto].
    intros c s' H1. left. by exists c, s'.
  - intros f Hf. pose proof (Hff _ _ Hf). by rewrite lookup_insert_ne by lia.
Qed.

(** Taking an entry out of the map detaches its session. *)
Lemma remove_entry_inv cid s r h d r' :
  reg_inv r h d → remove_entry cid r = (Some s, r') → reg_inv r' h ((false, s) :: d).
Proof.
  intros Hi. unfold remove_entry. destruct (inner r !! cid) as [s0|] eqn:Hc; [|done].
  intros [= -> <-]. inv_fields. split; simpl; [| |done| |done|done| | |].
  - intros c s0 [_ H0]%lookup_delete_Some. by eapply Hns.
  - intros c s0 [_ H0]%lookup_delete_Some. by eapply Hoff.
  - intros c s0 o [_ H0]%lookup_delete_Some. by eapply Hown.
  - intros c s0 [_ H0]%lookup_delete_Some. by apply Hent.
  - intros b s0 [[= -> ->]|H0]%elem_of_cons.
    + split; simpl; [eauto|naive_solver|]. intros c s' [Hne H1]%lookup_delete_Some Heq.
      pose proof (Hent _ _ H1) as H2. rewrite Heq in H2.
      by destruct (Hhu _ _ _ _ _ H2 (Hent _ _ Hc)).
    + apply (detached_wf_mono r _ h h); [done|done| |by eauto].
      simpl. intros c s' [_ H1]%lookup_delete_Some. left. by exists c, s'.
  - intros c i t Ht Hnc. destruct (Hlive c i t Ht Hnc) as [(b&s0&H0&H1)|(s0&H0&H1&H2)].
    + left. exists b, s0. split; [by right|done].
    + destruct (decide (c = cid)) as [->|]; simplify_map_eq.
      * left. exists false, s. split; [by left|done].
      * right. exists s0. split; [by simplify_map_eq|done].
Qed.

(** Marking a detached session's flag store as done. *)
Lemma reg_inv_detached r h d d' :
  (∀ s, (∃ b, (b, s) ∈ d) ↔ (∃ b, (b, s) ∈ d')) → reg_inv r h d → reg_inv r h d'.
Proof.
  intros Hd Hi. inv_fields. split; try done.
  - intros b s Hs. destruct (proj2 (Hd s) (ex_intro _ b Hs)) as [b' Hb']. by eapply Hdet.
  - intros c i t Ht Hnc. destruct (Hlive c i t Ht Hnc) as [(b&s&Hs&H1)|]; [left|by right].
    destruct (proj1 (Hd s) (ex_intro _ b Hs)) as [b' Hb']. by exists b', s.
Qed.

(** A detached session may be dropped once its token is cancelled. *)
Lemma reg_inv_finish r h b s d1 d2 :
  reg_inv r h (d1 ++ (b, s) :: d2) → cs_session_cancel s ∈ cancelled r →
  reg_inv r h (d1 ++ d2).
Proof.
  intros Hi Hs. inv_fields. split; try done.
  - intros b' s' H'. apply (Hdet b' s'). set_solver.
  - intros c i t Ht Hnc. destruct (Hlive c i t Ht Hnc) as [(b'&s'&H'&<-)|]; [left|by right].
    exists b', s'. split; [|done]. set_solver.
Qed.

Lemma record_eviction_inv r h d : reg_inv r h d → reg_inv (record_eviction r) h d.
Proof.
  intros Hi. inv_fields. split; try done. intros b s Hs. by destruct (Hdet _ _ Hs).
Qed.

Lemma remove_invalidate_le s r : cells_le r (remove_invalidate s r).
Proof. unfold remove_invalidate. destruct (cs_ownership s); [apply store_false_le|done]. Qed.

Lemma remove_finish_le s r : cells_le r (remove_finish s r).
Proof. apply (cancel_token_le r (cs_session_cancel s)). Qed.

Definition exec_inv (x : execution) : Prop :=
  reg_inv (ex_registry x) (ex_history x) (ex_detached x).

Lemma reg_step_inv x x' :
  exec_inv x → reg_step x x' → exec_inv x' ∧ cells_le (ex_registry x) (ex_registry x').
Proof.
  unfold exec_inv. intros Hi Hst. destruct Hst as
    [cid info tx sid own now r h d Hown|x|cid x|cid now x|x|cid sid now x|cid s r r' h d Hr
    |s r h d1 d2|s r h d1 d2|t x|f x Hf]; simpl in *.
  - destruct (register_owned_cancellable cid info tx sid own now r) as [o r1] eqn:E.
    simpl. eauto using register_inv, register_le.
  - by apply new_flag_inv.
  - unfold fence_owned_session. destruct (inner _ !! cid) as [s|] eqn:Hc; [|done].
    destruct (cs_ownership s) as [o|] eqn:Ho; [|done]. split.
    + apply cancel_token_inv, store_false_inv; [by eapply inv_owned|done].
    + etrans; [apply store_false_le|apply cancel_token_le].
  - split; [|done]. inv_fields. split; simpl; try done.
    + intros c s. rewrite lookup_alter_Some. naive_solver.
    + intros c s. rewrite lookup_alter_Some. naive_solver.
    + intros c s o. rewrite lookup_alter_Some. naive_solver.
    + intros c s. rewrite lookup_alter_Some. naive_solver.
    + intros b s Hs.
      apply (detached_wf_mono (ex_registry x) _ (ex_history x) _); [done|done| |by eauto].
      intros c s'. simpl. rewrite lookup_alter_Some.
      intros [[-> (y&Hy&->)]|[_ Hy]]; left; [by exists c, y|by exists c, s'].
    + intros c i t Ht Hnc. destruct (Hlive c i t Ht Hnc) as [?|(s&H0&H1)]; [by left|right].
      exists (if decide (cid = c) then set_last_seen now s else s).
      rewrite lookup_alter. case_decide; simplify_eq; by rewrite H0.
  - split; [by apply cancel_all_inv|apply cancel_all_le].
  - unfold mark_offline. destruct (inner _ !! cid) as [s|] eqn:Hc; [|done].
    destruct (negb _); [done|]. destruct (cs_offline_since s); [done|].
    split; [by apply (reg_inv_retire (ex_registry x) _ _ cid s)|].
    split_and!; simpl; [set_solver|done|done].
  - split; [by eapply remove_entry_inv|].
    unfold remove_entry in Hr. destruct (inner r !! cid); [|done]. by injection Hr as _ <-.
  - split; [|apply remove_invalidate_le].
    assert (Hd : reg_inv r h (d1 ++ (true, s) :: d2)).
    { revert Hi. apply reg_inv_detached. intros s'. set_solver. }
    unfold remove_invalidate. destruct (cs_ownership s) as [o|] eqn:Ho; [|done].
    apply store_false_inv; [|done].
    eapply (dw_owned r h s); [|done]. eapply (inv_detached _ _ _ Hi false). set_solver.
  - split; [|apply remove_finish_le]. eapply record_eviction_inv, reg_inv_finish.
    + by apply cancel_token_inv.
    + simpl. set_solver.
  - split; [by apply cancel_token_inv|apply cancel_token_le].
  - split; [by apply store_false_inv|apply store_false_le].
Qed.

Lemma reg_steps_inv x x' :
  exec_inv x → rtc reg_step x x' → exec_inv x' ∧ cells_le (ex_registry x) (ex_registry x').
Proof.
  intros Hi Hr. induction Hr as [x|x1 x2 x3 H12 _ IH]; [done|].
  destruct (reg_step_inv _ _ Hi H12) as [H2 Hle].
  destruct (IH H2). split; [done|]. by etrans.
Qed.

Lemma reg_reachable_inv x : reg_reachable x → exec_inv x.
Proof. intros Hr. by apply (reg_steps_inv initial x reg_inv_init). Qed.

(** The composed [remove] is a run of its three steps. *)
Lemma remove_runs cid r h d :
  rtc reg_step {| ex_registry := r; ex_history := h; ex_detached := d |}
    {| ex_registry := (remove cid r).2; ex_history := h; ex_detached := d |}.
Proof.
  unfold remove. destruct (remove_entry cid r) as [[s|] r'] eqn:E.
  - eapply rtc_l; [by apply (step_remove_entry cid s r r')|].
    eapply rtc_l; [by apply (step_remove_invalidate s r' h [] d)|].
    apply rtc_once, (step_remove_finish s _ h [] d).
  - unfold remove_entry in E. destruct (inner r !! cid); [done|]. by injection E as <-.
Qed.

(** ** Properties *)

(** C1.  In every execution of the registry, with calls of [remove] interrupted
    after they have released the lock: an uncancelled registered session is
    either the current entry of the map of its controller, online and with its
    own id, or it has been taken out of the map by a [remove] that has yet to
    cancel it, and then no lookup returns it any more.  So two uncancelled
    sessions of one controller, neither of them under removal, are the same
    session. *)
Theorem single_live_session x c i1 t1 i2 t2 :
  reg_reachable x →
  (c, i1, t1) ∈ ex_history x → (c, i2, t2) ∈ ex_history x →
  t1 ∉ cancelled (ex_registry x) → t2 ∉ cancelled (ex_registry x) →
  (detached t1 x
   ∨ is_current_session c i1 (ex_registry x) = true
     ∧ ∃ s, inner (ex_registry x) !! c = Some s ∧ cs_session_cancel s = t1
            ∧ is_online s (ex_registry x) = true)
  ∧ (detached t1 x → ∀ c' s, inner (ex_registry x) !! c' = Some s → cs_session_cancel s ≠ t1)
  ∧ (¬ detached t1 x → ¬ detached t2 x → t1 = t2 ∧ i1 = i2).
Proof.
  intros Hr H1 H2 Hc1 Hc2. apply reg_reachable_inv in Hr. split_and!.
  - destruct (inv_live _ _ _ Hr _ _ _ H1 Hc1) as [?|(s&Hs&Ht&Hi&Htx)]; [by left|right].
    split; [unfold is_current_session; rewrite Hs, Hi; apply String.eqb_refl|].
    exists s. split_and!; [done..|]. unfold is_online, is_cancelled.
    rewrite Ht. rewrite bool_decide_eq_true_2 by done. by rewrite bool_decide_eq_false_2.
  - intros (b&s&Hs&<-) c' s'. by apply (dw_gone _ _ _ (inv_detached _ _ _ Hr b s Hs)).
  - intros Hd1 Hd2.
    destruct (inv_live _ _ _ Hr _ _ _ H1 Hc1) as [?|(s1&Hs1&Ht1&Hi1&_)]; [done|].
    destruct (inv_live _ _ _ Hr _ _ _ H2 Hc2) as [?|(s2&Hs2&Ht2&Hi2&_)]; [done|].
    by simplify_eq.
Qed.

Definition demo_request : RegisterRequest :=
  {| rr_controller_id := "c1/edge"; rr_cluster := "c1"; rr_env := []; rr_tag := [] |}.

(** The session that [register_owned_cancellable] installs for the examples. *)
Definition demo_session (tx : sender) (sid : string) (own : option SessionOwnership)
    (now : Z) (t : token) : ControllerSession := {|
  cs_controller_id := "c1/edge"; cs_session_id := sid; cs_info := demo_request;
  cs_stream_tx := Some tx; cs_last_seen := now; cs_offline_since := None;
  cs_session_cancel := t; cs_ownership := own |}.

(** Two registrations of one controller: the second one is the live one. *)
Definition demo_takeover : ControllerRegistry :=
  (register_owned_cancellable "c1/edge" demo_request 8 "s2" None 20
     (register_owned_cancellable "c1/edge" demo_request 7 "s1" None 10 with_metrics).2).2.

(** A registration between the map removal and the cancellation of [remove]:
    two uncancelled sessions, the first of them detached. *)
Definition demo_gap : execution :=
  let r := (register_owned_cancellable "c1/edge" demo_request 7 "s1" None 10 with_metrics).2 in
  {| ex_registry := (register_owned_cancellable "c1/edge" demo_request 8 "s2" None 20
                       (remove_entry "c1/edge" r).2).2;
     ex_history := [("c1/edge", "s2", 1); ("c1/edge", "s1", 0)];
     ex_detached := [(false, demo_session 7 "s1" None 10 0)] |}.

Lemma demo_gap_reachable : reg_reachable demo_gap.
Proof.
  eapply rtc_l; [apply (step_register "c1/edge" demo_request 7 "s1" None 10); by intros|].
  eapply rtc_l; [by apply (step_remove_entry "c1/edge" (demo_session 7 "s1" None 10 0))|].
  apply rtc_once, (step_register "c1/edge" demo_request 8 "s2" None 20). by intros.
Qed.

(** The removal completes. *)
Definition demo_gap_closed : execution :=
  {| ex_registry := remove_finish (demo_session 7 "s1" None 10 0) (ex_registry demo_gap);
     ex_history := ex_history demo_gap; ex_detached := [] |}.

Lemma demo_gap_closed_reachable : reg_reachable demo_gap_closed.
Proof.
  eapply rtc_r; [eapply rtc_r; [apply demo_gap_reachable|]|].
  - apply (step_remove_invalidate (demo_session 7 "s1" None 10 0) _ _ [] []).
  - apply (step_remove_finish (demo_session 7 "s1" None 10 0) _ _ [] []).
Qed.

Lemma single_live_session_witness :
  (0 ∉ cancelled (ex_registry demo_gap) ∧ 1 ∉ cancelled (ex_registry demo_gap)
   ∧ detached 0 demo_gap
   ∧ (∀ c s, inner (ex_registry demo_gap) !! c = Some s → cs_session_cancel s ≠ 0)
   ∧ is_current_session "c1/edge" "s2" (ex_registry demo_gap) = true)
  ∧ 0 ∈ cancelled (ex_registry demo_gap_closed)
  ∧ is_current_session "c1/edge" "s2" (ex_registry demo_gap_closed) = true.
Proof.
  assert (H0 : 0 ∉ cancelled (ex_registry demo_gap))
    by (refine (bool_decide_eq_false_1 _ _); vm_compute; reflexivity).
  assert (H1 : 1 ∉ cancelled (ex_registry demo_gap))
    by (refine (bool_decide_eq_false_1 _ _); vm_compute; reflexivity).
  assert (Hd : detached 0 demo_gap).
  { exists false, (demo_session 7 "s1" None 10 0). split; [by left|reflexivity]. }
  assert (Hn : ¬ detached 1 demo_gap).
  { intros (b&s&[Hs|Hs]%elem_of_cons&Ht); [|by apply not_elem_of_nil in Hs].
    injection Hs as -> ->. discriminate. }
  destruct (single_live_session demo_gap "c1/edge" "s1" 0 "s2" 1 demo_gap_reachable)
    as (_&Hg&_); [by right; left|by left|done|done|].
  destruct (single_live_session demo_gap "c1/edge" "s2" 1 "s2" 1 demo_gap_reachable)
    as ([?|[Hc _]]&_&_); [by left|by left|done|done|done|].
  destruct (single_live_session demo_gap_closed "c1/edge" "s2" 1 "s2" 1
              demo_gap_closed_reachable) as ([(b&s&Hs&_)|[Hc' _]]&_&_);
    [by left|by left| | |by apply not_elem_of_nil in Hs|].
  1-2: refine (bool_decide_eq_false_1 _ _); vm_compute; reflexivity.
  split_and!; [done|done|done|by apply Hg|done| |done].
  refine (bool_decide_eq_true_1 _ _). vm_compute. reflexivity.
Defined.

(** Registering over a live session is an atomic takeover: the displaced
    session's id is reported and its token cancelled, its task's
    [mark_offline] and [is_current_session] calls no longer have any effect on
    the new session, and the new session is online. *)
Theorem register_takeover cid info tx sid own now r s old_tx o r' :
  inner r !! cid = Some s → cs_stream_tx s = Some old_tx →
  cs_session_id s ≠ sid →
  next_ref r ∉ cancelled r → cs_session_cancel s ≠ next_ref r →
  register_owned_cancellable cid info tx sid own now r = (o, r') →
  ro_displaced_session_id o = Some (cs_session_id s)
  ∧ is_cancelled (cs_session_cancel s) r' = true
  ∧ is_current_session cid (cs_session_id s) r' = false
  ∧ (∀ t, mark_offline cid (cs_session_id s) t r' = (false, r'))
  ∧ sv_stream_tx <$> get_session cid r' = Some (Some tx).
Proof.
  intros Hs Htx Hne Hfr Hfr' Hreg.
  apply register_spec in Hreg as (Ho&Hn&Hf&Hin&Hc&Hd). rewrite Hs in Hc, Hd. simpl in *.
  rewrite Htx in Hc, Hd. simpl in *.
  assert (Hneq : String.eqb sid (cs_session_id s) = false) by (by apply String.eqb_neq).
  split_and!; [done| | | |].
  - unfold is_cancelled. apply bool_decide_eq_true_2. rewrite Hc. set_solver.
  - unfold is_current_session. rewrite Hin, lookup_insert_eq. done.
  - intros t. unfold mark_offline. rewrite Hin, lookup_insert_eq. simpl. by rewrite Hneq.
  - unfold get_session. rewrite Hin, lookup_insert_eq. simpl.
    unfold is_online, is_cancelled. simpl.
    rewrite (bool_decide_eq_false_2 (next_ref r ∈ cancelled r')); [done|].
    rewrite Hc. set_solver.
Qed.

Lemma register_takeover_witness :
  (register_owned_cancellable "c1/edge" demo_request 7 "s1" None 10 with_metrics).1
    = {| ro_displaced_session_id := None; ro_session_cancel := 0 |}
  ∧ ro_displaced_session_id
    (register_owned_cancellable "c1/edge" demo_request 8 "s2" None 20
       (register_owned_cancellable "c1/edge" demo_request 7 "s1" None 10 with_metrics).2).1
  = Some "s1".
Proof.
  split; [reflexivity|].
  eapply (register_takeover "c1/edge" demo_request 8 "s2" None 20
    (register_owned_cancellable "c1/edge" demo_request 7 "s1" None 10 with_metrics).2
    (demo_session 7 "s1" None 10 0) 7).
  - vm_compute. reflexivity.
  - reflexivity.
  - discriminate.
  - refine (bool_decide_eq_false_1 _ _). vm_compute. reflexivity.
  - discriminate.
  - vm_compute. reflexivity.
Defined.

(** A session goes offline at most once: [mark_offline] answers true only
    for the current session that is not yet marked, and whatever the registry
    does afterwards, short of a new registration or an eviction of that
    controller, a second call for the same session answers false. *)
Theorem mark_offline_once cid sid now r r' :
  mark_offline cid sid now r = (true, r') →
  is_current_session cid sid r = true
  ∧ sv_stream_tx <$> get_session cid r' = Some None
  ∧ (∃ s, inner r' !! cid = Some s ∧ cs_session_cancel s ∈ cancelled r')
  ∧ ∀ t, mark_offline cid sid t r' = (false, r').
Proof.
  unfold mark_offline. destruct (inner r !! cid) as [s|] eqn:Hs; [|done].
  destruct (String.eqb (cs_session_id s) sid) eqn:Hsid; [|done]. simpl.
  destruct (cs_offline_since s) eqn:Hoff; [done|]. intros [= <-].
  unfold is_current_session, get_session. simpl. rewrite Hs, !lookup_insert_eq. simpl.
  split_and!; [done| | |].
  - unfold is_online. simpl. done.
  - eexists. split; [done|]. simpl. set_solver.
  - intros t. by rewrite Hsid.
Qed.

Lemma mark_offline_once_witness :
  ∃ r', mark_offline "c1/edge" "s2" 30 demo_takeover = (true, r')
        ∧ mark_offline "c1/edge" "s2" 31 r' = (false, r').
Proof.
  destruct (mark_offline "c1/edge" "s2" 30 demo_takeover) as [b r'] eqn:E.
  assert (Hb : b = true).
  { change b with (b, r').1. rewrite <- E. vm_compute. reflexivity. }
  subst b. exists r'. split; [done|].
  by apply (mark_offline_once "c1/edge" "s2" 30 demo_takeover r' E).
Defined.

(** Fencing is immediate and irrevocable: after [fence_owned_session]
    answers true no view of that session can be dispatched to or match any
    holder and fence, and neither the flag nor the token ever recovers in any
    continuation of the execution. *)
Theorem fence_irrevocable cid r h d r' s o c' :
  reg_reachable {| ex_registry := r; ex_history := h; ex_detached := d |} →
  inner r !! cid = Some s → cs_ownership s = Some o →
  fence_owned_session cid r = (true, r') →
  rtc reg_step {| ex_registry := r'; ex_history := h; ex_detached := d |} c' →
  is_valid o (ex_registry c') = false ∧ is_cancelled (cs_session_cancel s) (ex_registry c') = true
  ∧ (∀ v holder fence, sv_ownership v = Some o →
       matches_ownership v holder fence (ex_registry c') = false)
  ∧ (∀ s', cs_session_cancel s' = cs_session_cancel s → is_online s' (ex_registry c') = false).
Proof.
  intros Hr Hs Ho Hf Hst. apply reg_reachable_inv in Hr.
  pose proof (step_fence cid {| ex_registry := r; ex_history := h; ex_detached := d |}) as Hstep.
  unfold on_registry_of in Hstep. simpl in Hstep. rewrite Hf in Hstep.
  assert (Hval : flags r' !! so_valid o = Some false ∧ cs_session_cancel s ∈ cancelled r').
  { unfold fence_owned_session in Hf. rewrite Hs, Ho in Hf. simplify_eq. simpl.
    split; [by rewrite lookup_insert_eq|set_solver]. }
  destruct (reg_step_inv _ _ Hr Hstep) as [Hr' _].
  destruct (reg_steps_inv _ c' Hr' Hst) as [_ (Hsub&Hfl&_)]. simpl in *.
  destruct Hval as [Hval Hcan]. apply Hfl in Hval. apply Hsub in Hcan.
  assert (Hv : is_valid o (ex_registry c') = false) by (unfold is_valid; by rewrite Hval).
  assert (Hk : is_cancelled (cs_session_cancel s) (ex_registry c') = true) by by apply bool_decide_eq_true_2.
  split_and!; [done|done| |].
  - intros v holder fence Hov. unfold matches_ownership. by rewrite Hov, Hv.
  - intros s' Hs'. unfold is_online. rewrite Hs', Hk. simpl. apply andb_false_r.
Qed.

Definition demo_fence : OwnershipFence := {| of_token := "tok"; of_epoch := 1 |}.
Definition demo_owner : SessionOwnership :=
  {| so_holder := "pod-a"; so_fence := demo_fence; so_valid := 0 |}.
Definition demo_owned : ControllerRegistry :=
  (register_owned_cancellable "c1/edge" demo_request 7 "s1" (Some demo_owner) 10
     (new_flag with_metrics).2).2.

Lemma demo_owned_reachable : reg_reachable {| ex_registry := demo_owned; ex_history := [("c1/edge", "s1", 1)];
                   ex_detached := [] |}.
Proof.
  eapply rtc_l; [apply step_new_flag|].
  eapply rtc_l; [apply (step_register "c1/edge" demo_request 7 "s1" (Some demo_owner) 10)|].
  - intros o [= <-]. by eexists.
  - apply rtc_refl.
Qed.

Lemma fence_irrevocable_witness :
  is_valid demo_owner demo_owned = true
  ∧ is_valid demo_owner (cancel_all (fence_owned_session "c1/edge" demo_owned).2).2 = false.
Proof.
  split; [vm_compute; reflexivity|].
  assert (Hs : inner demo_owned !! "c1/edge" = Some (demo_session 7 "s1" (Some demo_owner) 10 1))
    by (vm_compute; reflexivity).
  destruct (fence_owned_session "c1/edge" demo_owned) as [b r'] eqn:E.
  assert (Hb : b = true).
  { change b with (b, r').1. rewrite <- E. vm_compute. reflexivity. }
  subst b. simpl.
  apply (fence_irrevocable "c1/edge" demo_owned _ [] r' _ demo_owner
           {| ex_registry := (cancel_all r').2; ex_history := [("c1/edge", "s1", 1)];
              ex_detached := [] |} demo_owned_reachable Hs eq_refl E).
  apply rtc_once, (step_cancel_all {| ex_registry := r'; ex_history := _; ex_detached := _ |}).
Defined.
