(* ===== verification/Json.v ===== *)
(** * Json: the documents Center watches

    Watched resources are [serde_json::Value]s.  The library is not part of the
    repository; this file fixes the data type of its values and the accessors
    the runtime uses on them ([get], [pointer], [as_str], [as_object_mut] and
    [remove]), on which the read model and the override store are built. *)

From S2P Require Import Prelude.

Inductive Value : Type :=
| Null
| Bool (b : bool)
| Number (repr : string)
| Str (s : string)
| Array (items : list Value)
| Object (fields : list (string * Value)).

Fixpoint field (key : string) (fields : list (string * Value)) : option Value :=
  match fields with
  | [] => None
  | (k, v) :: fields => if String.eqb k key then Some v else field key fields
  end.

Fixpoint field_remove (key : string) (fields : list (string * Value)) :
    list (string * Value) :=
  match fields with
  | [] => []
  | (k, v) :: fields =>
      if String.eqb k key then field_remove key fields
      else (k, v) :: field_remove key fields
  end.

Fixpoint field_update (key : string) (f : Value → Value)
    (fields : list (string * Value)) : list (string * Value) :=
  match fields with
  | [] => []
  | (k, v) :: fields =>
      if String.eqb k key then (k, f v) :: fields else (k, v) :: field_update key f fields
  end.

Definition as_str (v : Value) : option string :=
  match v with Str s => Some s | _ => None end.
Definition as_object (v : Value) : option (list (string * Value)) :=
  match v with Object m => Some m | _ => None end.
Definition get (key : string) (v : Value) : option Value :=
  match v with Object m => field key m | _ => None end.

(** [pointer("/a/b/c")] as the list of its tokens.  None of the tokens the code
    uses is an array index, so an array on the path yields nothing. *)
Fixpoint pointer (path : list string) (v : Value) : option Value :=
  match path with
  | [] => Some v
  | key :: path => get key v ≫= pointer path
  end.

(** [pointer_mut(path)] followed by a mutation of the value found there. *)
Fixpoint pointer_update (path : list string) (f : Value → Value) (v : Value) : Value :=
  match path with
  | [] => f v
  | key :: path =>
      match v with
      | Object m => Object (field_update key (pointer_update path f) m)
      | _ => v
      end
  end.

Definition pointer_str (path : list string) (v : Value) : option string :=
  pointer path v ≫= as_str.

(** ** Lemmas on fields *)

Lemma field_update_eq key f m :
  field key (field_update key f m) = f <$> field key m.
Proof.
  induction m as [|[k v] m IH]; [done|]. simpl.
  destruct (String.eqb k key) eqn:E; simpl; by rewrite E.
Qed.

Lemma field_update_ne key key' f m :
  key ≠ key' → field key (field_update key' f m) = field key m.
Proof.
  intros Hne. induction m as [|[k v] m IH]; [done|]. simpl.
  destruct (String.eqb k key') eqn:E; simpl; [|by rewrite IH].
  apply String.eqb_eq in E as ->.
  destruct (String.eqb key' key) eqn:E'; [|done]. apply String.eqb_eq in E'. congruence.
Qed.

Lemma field_remove_eq key m : field key (field_remove key m) = None.
Proof.
  induction m as [|[k v] m IH]; [done|]. simpl.
  destruct (String.eqb k key) eqn:E; simpl; by rewrite ?E.
Qed.

Lemma field_remove_ne key key' m :
  key ≠ key' → field key (field_remove key' m) = field key m.
Proof.
  intros Hne. induction m as [|[k v] m IH]; [done|]. simpl.
  destruct (String.eqb k key') eqn:E; simpl; [|by rewrite IH].
  apply String.eqb_eq in E as ->.
  destruct (String.eqb key' key) eqn:E'; [|done]. apply String.eqb_eq in E'. congruence.
Qed.

(** The value below an updated pointer is the updated value. *)
Lemma pointer_update_eq path path' f v :
  pointer (path ++ path') (pointer_update path f v)
  = (pointer path v ≫= λ w, pointer path' (f w)).
Proof.
  revert v. induction path as [|key path IH]; intros v; [done|]. simpl.
  destruct v as [| | | | |m]; try done. simpl. rewrite field_update_eq.
  destruct (field key m) as [w|]; [|done]. simpl. apply IH.
Qed.

#[export] Hint Rewrite field_update_eq field_remove_eq pointer_update_eq : center.
