(* ===== verification/WatchCache.v ===== *)
(** * WatchCache: per-controller caches of the reverse watch

    [crates/center-runtime/src/watch_cache/{mod,traits,cache,registry}.rs].
    One cache per controller holds the documents of the controller's watch; the
    registry keeps the caches across reconnects, calls the conf handler after
    each batch and broadcasts a change summary.  A cache is an [Arc]: the
    registry and the session tasks share it by reference, and a reference
    survives the removal of the controller from the registry. *)

From S2P Require Import Prelude.

(** ** Interfaces ([mod.rs], [traits.rs]) *)

Definition MAX_ENTRIES_PER_CONTROLLER : Z := 10000.

(** The [ConfigTyped] trait: the type discriminator of a cached value. *)
Class ConfigTyped (T : Type) := config_type : T → option string.

(** The [CenterConfHandler<T>] trait; [H] is the handler's own state. *)
Class CenterConfHandler (T H : Type) := {
  full_set : string → gmap string T → H → H;
  partial_update :
    string → gmap string T → gmap string T → gmap string T → H → H;
  controller_offline : string → H → H;
  controller_removed : string → H → H;
}.

Inductive EventType := Add | Update | Delete.

Record WatchEventSimple (T : Type) := mkEvent {
  ev_type : EventType;
  ev_key : string;
  ev_data : T;
}.
Arguments mkEvent {T}.
Arguments ev_type {T}.
Arguments ev_key {T}.
Arguments ev_data {T}.

Inductive ApplyResult := Applied | Overflow.

Record ChangeSummary := {
  ch_controller_id : string;
  ch_revision : Z;
  ch_changed_types : gset string;
  ch_event_unix_ms : Z;
}.

Record CacheStatus := {
  st_sync_version : Z;
  st_server_id : string;
  st_revision : Z;
  st_stale : bool;
  st_overflowed : bool;
  st_last_applied_unix_ms : option Z;
  st_entry_count : Z;
}.

Record CacheState (T : Type) := mkCache {
  data : gmap string T;
  sync_version : Z;
  server_id : string;
  revision : Z;
  stale : bool;
  overflowed : bool;
  last_applied_unix_ms : option Z;
}.
Arguments mkCache {T}.
Arguments data {T}.
Arguments sync_version {T}.
Arguments server_id {T}.
Arguments revision {T}.
Arguments stale {T}.
Arguments overflowed {T}.
Arguments last_applied_unix_ms {T}.

#[export] Instance EventType_eq_dec : EqDecision EventType.
Proof. solve_decision. Defined.
#[export] Instance ApplyResult_eq_dec : EqDecision ApplyResult.
Proof. solve_decision. Defined.

Section Cache.
Context {T : Type} `{!ConfigTyped T}.
Implicit Types (c : CacheState T) (ev : WatchEventSimple T).

Definition type_label (v : T) : string := default "Unknown" (config_type v).

Definition cache_new : CacheState T := mkCache ∅ 0 "" 0 false false None.

Definition status c : CacheStatus := {|
  st_sync_version := sync_version c;
  st_server_id := server_id c;
  st_revision := revision c;
  st_stale := stale c;
  st_overflowed := overflowed c;
  st_last_applied_unix_ms := last_applied_unix_ms c;
  st_entry_count := zsize (data c) |}.

Definition set_stale c : CacheState T :=
  mkCache (data c) (sync_version c) (server_id c) (revision c) true (overflowed c)
    (last_applied_unix_ms c).

(** The rejection path of both batch operations. *)
Definition set_overflow c : CacheState T :=
  mkCache (data c) (sync_version c) (server_id c) (revision c) true true
    (last_applied_unix_ms c).

(** [items.into_iter().collect::<HashMap<_, _>>()]: the last entry of a key wins. *)
Definition collect_map (items : list (string * T)) : gmap string T :=
  foldl (λ m kv, <[kv.1 := kv.2]> m) ∅ items.

Definition labels_of (m : gmap string T) : gset string :=
  list_to_set ((λ kv, type_label kv.2) <$> map_to_list m).

(** [replace_all] up to the handler call: the new state, its snapshot, its
    revision and the changed types, or the rejection. *)
Definition replace_all_state (items : list (string * T)) (ver : Z) (sid : string)
    (now : Z) c : CacheState T * option (gmap string T * gset string) :=
  if (zlen items >? MAX_ENTRIES_PER_CONTROLLER)%Z then (set_overflow c, None)
  else
    let new_data := collect_map items in
    let changed := labels_of (data c) ∪ labels_of new_data in
    (mkCache new_data ver sid (u64_wrapping_add (revision c) 1) false false (Some now),
     Some (new_data, changed)).

(** The key set after the batch, computed before any mutation. *)
Definition projected_key (keys : gset string) ev : gset string :=
  match ev_type ev with
  | Add | Update => {[ev_key ev]} ∪ keys
  | Delete => keys ∖ {[ev_key ev]}
  end.
Definition projected_len (events : list (WatchEventSimple T)) c : Z :=
  Z.of_nat (size (foldl projected_key (dom (data c)) events)).

(** The accumulators of the event loop. *)
Record delta := mkDelta {
  d_data : gmap string T;
  d_add : gmap string T;
  d_update : gmap string T;
  d_remove : gmap string T;
  d_types : gset string;
}.

Definition apply_event (d : delta) ev : delta :=
  let k := ev_key ev in
  let v := ev_data ev in
  match ev_type ev with
  | Add =>
      mkDelta (<[k := v]> (d_data d)) (<[k := v]> (d_add d)) (d_update d) (d_remove d)
        ({[type_label v]} ∪ d_types d)
  | Update =>
      mkDelta (<[k := v]> (d_data d)) (d_add d) (<[k := v]> (d_update d)) (d_remove d)
        ({[type_label v]} ∪ d_types d)
  | Delete =>
      match d_data d !! k with
      | Some old =>
          mkDelta (delete k (d_data d)) (d_add d) (d_update d) (<[k := old]> (d_remove d))
            ({[type_label old]} ∪ d_types d)
      | None => d
      end
  end.

Definition apply_events_state (events : list (WatchEventSimple T)) (ver : Z)
    (sid : string) (now : Z) c : CacheState T * option delta :=
  if (projected_len events c >? MAX_ENTRIES_PER_CONTROLLER)%Z then (set_overflow c, None)
  else
    let d := foldl apply_event (mkDelta (data c) ∅ ∅ ∅ ∅) events in
    (mkCache (d_data d) ver sid (u64_wrapping_add (revision c) 1) false false (Some now),
     Some d).
End Cache.

(** ** The registry of caches ([registry.rs]) *)

Abbreviation cache_ref := nat.

Record CenterWatchCacheRegistry (T H : Type) := mkCaches {
  caches : gmap string cache_ref;
  cells : gmap cache_ref (string * CacheState T);
  next_cell : nat;
  handler : H;
  changes : list ChangeSummary;      (* newest first *)
}.
Arguments mkCaches {T H}.
Arguments caches {T H}.
Arguments cells {T H}.
Arguments next_cell {T H}.
Arguments handler {T H}.
Arguments changes {T H}.

Section CacheRegistry.
Context {T H : Type} `{!ConfigTyped T, !CenterConfHandler T H}.
Implicit Types (w : CenterWatchCacheRegistry T H).

Definition registry_new (h : H) : CenterWatchCacheRegistry T H := mkCaches ∅ ∅ 0 h [].

Definition set_cell (r : cache_ref) (id : string) (c : CacheState T) w :
    CenterWatchCacheRegistry T H :=
  mkCaches (caches w) (<[r := (id, c)]> (cells w)) (next_cell w) (handler w) (changes w).

Definition notify (f : H → H) (s : ChangeSummary) w : CenterWatchCacheRegistry T H :=
  mkCaches (caches w) (cells w) (next_cell w) (f (handler w)) (s :: changes w).

Definition get_or_create (controller_id : string) w :
    cache_ref * CenterWatchCacheRegistry T H :=
  match caches w !! controller_id with
  | Some r => (r, w)
  | None =>
      let r := next_cell w in
      (r, mkCaches (<[controller_id := r]> (caches w))
            (<[r := (controller_id, cache_new)]> (cells w)) (S r) (handler w) (changes w))
  end.

Definition get_if_present (controller_id : string) w : option cache_ref :=
  caches w !! controller_id.

Definition cache_at (r : cache_ref) w : CacheState T :=
  from_option snd cache_new (cells w !! r).

Definition get_sync_version (r : cache_ref) w : Z := sync_version (cache_at r w).
Definition get_server_id (r : cache_ref) w : string := server_id (cache_at r w).

Definition replace_all (r : cache_ref) (items : list (string * T)) (ver : Z)
    (sid : string) (now : Z) w : ApplyResult * CenterWatchCacheRegistry T H :=
  match cells w !! r with
  | None => (Applied, w)
  | Some (id, c) =>
      let '(c', out) := replace_all_state items ver sid now c in
      let w := set_cell r id c' w in
      match out with
      | None => (Overflow, w)
      | Some (snapshot, changed) =>
          (Applied, notify (full_set id snapshot)
             {| ch_controller_id := id; ch_revision := revision c';
                ch_changed_types := changed; ch_event_unix_ms := now |} w)
      end
  end.

Definition apply_events (r : cache_ref) (events : list (WatchEventSimple T)) (ver : Z)
    (sid : string) (now : Z) w : ApplyResult * CenterWatchCacheRegistry T H :=
  match cells w !! r with
  | None => (Applied, w)
  | Some (id, c) =>
      let '(c', out) := apply_events_state events ver sid now c in
      let w := set_cell r id c' w in
      match out with
      | None => (Overflow, w)
      | Some d =>
          (Applied, notify (partial_update id (d_add d) (d_update d) (d_remove d))
             {| ch_controller_id := id; ch_revision := revision c';
                ch_changed_types := d_types d; ch_event_unix_ms := now |} w)
      end
  end.

Definition set_stale_at (r : cache_ref) w : CenterWatchCacheRegistry T H :=
  match cells w !! r with
  | Some (id, c) => set_cell r id (set_stale c) w
  | None => w
  end.

Definition statuses w : list (string * CacheStatus) :=
  (λ kv, (kv.1, status (cache_at kv.2 w))) <$> map_to_list (caches w).

Definition mark_offline (controller_id : string) w : CenterWatchCacheRegistry T H :=
  let w := match caches w !! controller_id with
           | Some r => set_stale_at r w
           | None => w
           end in
  mkCaches (caches w) (cells w) (next_cell w)
    (controller_offline controller_id (handler w)) (changes w).

Definition remove_controller (controller_id : string) w : CenterWatchCacheRegistry T H :=
  mkCaches (delete controller_id (caches w)) (cells w) (next_cell w)
    (controller_removed controller_id (handler w)) (changes w).
End CacheRegistry.

(** ** Facts about one batch *)

Section BatchFacts.
Context {T : Type} `{!ConfigTyped T}.
Implicit Types (c : CacheState T) (ev : WatchEventSimple T) (d : delta (T:=T)).

(** The reference semantics of one event on the document map. *)
Definition ref_event (m : gmap string T) ev : gmap string T :=
  match ev_type ev with
  | Delete => delete (ev_key ev) m
  | _ => <[ev_key ev := ev_data ev]> m
  end.

Lemma apply_event_data d ev : d_data (apply_event d ev) = ref_event (d_data d) ev.
Proof.
  unfold apply_event, ref_event. destruct (ev_type ev); [done..|].
  destruct (d_data d !! ev_key ev) as [old|] eqn:E; [done|]. by rewrite delete_id.
Qed.

Lemma fold_data d events :
  d_data (foldl apply_event d events) = foldl ref_event (d_data d) events.
Proof.
  revert d. induction events as [|ev events IH]; intros d; [done|].
  simpl. by rewrite IH, apply_event_data.
Qed.

Lemma projected_key_dom (m : gmap string T) ev :
  projected_key (dom m) ev = dom (ref_event m ev).
Proof.
  unfold projected_key, ref_event.
  destruct (ev_type ev); by rewrite ?dom_insert_L, ?dom_delete_L.
Qed.

Lemma projected_keys_dom (m : gmap string T) events :
  foldl projected_key (dom m) events = dom (foldl ref_event m events).
Proof.
  revert m. induction events as [|ev events IH]; intros m; [done|].
  simpl. by rewrite projected_key_dom, IH.
Qed.

Lemma projected_len_eq events c :
  projected_len events c = zsize (foldl ref_event (data c) events).
Proof. unfold projected_len, zsize. by rewrite projected_keys_dom, size_dom. Qed.

(** Keys that no event of the batch names keep their value and stay out of
    the accumulators. *)
Lemma fold_other d events k :
  k ∉ (ev_key <$> events) →
  let d' := foldl apply_event d events in
  d_data d' !! k = d_data d !! k ∧ d_add d' !! k = d_add d !! k
  ∧ d_update d' !! k = d_update d !! k ∧ d_remove d' !! k = d_remove d !! k.
Proof.
  revert d. induction events as [|ev events IH]; intros d Hk; [done|]. simpl in *.
  apply not_elem_of_cons in Hk as [Hne Hk]. destruct (IH (apply_event d ev) Hk) as (->&->&->&->).
  unfold apply_event. destruct (ev_type ev); simpl;
    [by rewrite !lookup_insert_ne by done..|].
  destruct (d_data d !! ev_key ev) as [old|]; [simpl|done].
  by rewrite lookup_delete_ne, lookup_insert_ne by done.
Qed.

(** In a batch with distinct keys, the event of a key decides its row. *)
Lemma fold_this d events ev :
  NoDup (ev_key <$> events) → ev ∈ events →
  let k := ev_key ev in
  let d' := foldl apply_event d events in
  match ev_type ev with
  | Add => d_data d' !! k = Some (ev_data ev) ∧ d_add d' !! k = Some (ev_data ev)
           ∧ d_update d' !! k = d_update d !! k ∧ d_remove d' !! k = d_remove d !! k
  | Update => d_data d' !! k = Some (ev_data ev) ∧ d_add d' !! k = d_add d !! k
           ∧ d_update d' !! k = Some (ev_data ev) ∧ d_remove d' !! k = d_remove d !! k
  | Delete => d_data d' !! k = None ∧ d_add d' !! k = d_add d !! k
           ∧ d_update d' !! k = d_update d !! k
           ∧ d_remove d' !! k = match d_data d !! k with
                                | Some old => Some old
                                | None => d_remove d !! k
                                end
  end.
Proof.
  revert d. induction events as [|ev0 events IH]; intros d Hnd Hin; [by apply elem_of_nil in Hin|].
  simpl in Hnd. apply NoDup_cons in Hnd as [Hk Hnd].
  apply elem_of_cons in Hin as [->|Hin]; simpl.
  - destruct (fold_other (apply_event d ev0) events (ev_key ev0) Hk) as (->&->&->&->).
    unfold apply_event. destruct (ev_type ev0); simpl; [by rewrite !lookup_insert_eq..|].
    destruct (d_data d !! ev_key ev0) as [old|] eqn:E; simpl; [|done].
    by rewrite lookup_delete_eq, lookup_insert_eq.
  - assert (Hne : ev_key ev ≠ ev_key ev0).
    { intros Heq. apply Hk. rewrite <- Heq. by apply list_elem_of_fmap_2. }
    specialize (IH (apply_event d ev0) Hnd Hin). simpl in IH.
    assert (Hsame : d_data (apply_event d ev0) !! ev_key ev = d_data d !! ev_key ev
      ∧ d_add (apply_event d ev0) !! ev_key ev = d_add d !! ev_key ev
      ∧ d_update (apply_event d ev0) !! ev_key ev = d_update d !! ev_key ev
      ∧ d_remove (apply_event d ev0) !! ev_key ev = d_remove d !! ev_key ev).
    { apply (fold_other d [ev0]). simpl. set_solver. }
    destruct Hsame as (E1&E2&E3&E4). rewrite E1, E2, E3, E4 in IH. exact IH.
Qed.

(** Every document that a batch installs is covered by the change summary. *)
Lemma fold_types d events k v :
  d_data (foldl apply_event d events) !! k = Some v →
  d_data d !! k = Some v ∨ type_label v ∈ d_types (foldl apply_event d events).
Proof.
  assert (Hmono : ∀ events d, d_types d ⊆ d_types (foldl apply_event d events)).
  { intros es. induction es as [|e es IHe]; intros d0; [done|]. simpl.
    etrans; [|apply IHe]. unfold apply_event. destruct (ev_type e); simpl; [set_solver..|].
    destruct (d_data d0 !! _); simpl; set_solver. }
  revert d. induction events as [|ev events IH]; intros d Hk; [by left|]. simpl in *.
  destruct (IH _ Hk) as [H1|H1]; [|by right].
  rewrite apply_event_data in H1. unfold ref_event in H1.
  assert (Hin : ev_type ev ≠ Delete → type_label (ev_data ev) ∈ d_types (apply_event d ev)).
  { unfold apply_event. destruct (ev_type ev); simpl; [set_solver..|done]. }
  destruct (decide (ev_key ev = k)) as [<-|].
  - destruct (ev_type ev) eqn:E; simplify_map_eq; right; apply (Hmono events); by apply Hin.
  - left. destruct (ev_type ev); by simplify_map_eq.
Qed.
End BatchFacts.

#[export] Hint Rewrite @fold_data @projected_len_eq : center.

(** ** Properties of the caches *)

Section CacheProperties.
Context {T H : Type} `{!ConfigTyped T, !CenterConfHandler T H}.
Implicit Types (w : CenterWatchCacheRegistry T H).

(** C24.  [apply_events] is all or nothing and its capacity check is exact.
    If the map after the batch would hold more than
    [MAX_ENTRIES_PER_CONTROLLER] documents, the call answers [Overflow], the
    cache keeps its documents, version, server id and revision and is only
    flagged stale and overflowed, and neither the handler nor the
    subscribers see anything.  Otherwise the cache holds exactly the batch
    applied event by event, the revision advances, both flags clear, and
    exactly one summary goes out, naming the type of every document the
    batch installed.  Other caches are untouched in both cases. *)
Theorem apply_events_spec r events ver sid now w id c res w' :
  cells w !! r = Some (id, c) →
  apply_events r events ver sid now w = (res, w') →
  let m := foldl ref_event (data c) events in
  let c' := mkCache m ver sid (u64_wrapping_add (revision c) 1) false false (Some now) in
  caches w' = caches w ∧ delete r (cells w') = delete r (cells w)
  ∧ ((zsize m > MAX_ENTRIES_PER_CONTROLLER ∧ res = Overflow
      ∧ cells w' !! r = Some (id, set_overflow c)
      ∧ handler w' = handler w ∧ changes w' = changes w)
     ∨ (zsize m <= MAX_ENTRIES_PER_CONTROLLER ∧ res = Applied
      ∧ cells w' !! r = Some (id, c')
      ∧ ∃ s, changes w' = s :: changes w ∧ ch_controller_id s = id
             ∧ ch_revision s = revision c'
             ∧ ∀ k v, m !! k = Some v → data c !! k ≠ Some v →
                      type_label v ∈ ch_changed_types s))%Z.
Proof.
  intros Hr Happ. unfold apply_events in Happ. rewrite Hr in Happ.
  unfold apply_events_state in Happ. rewrite projected_len_eq in Happ.
  destruct (zsize (foldl ref_event (data c) events) >? MAX_ENTRIES_PER_CONTROLLER)%Z eqn:E.
  - simplify_eq/=. split_and!; [done|by rewrite delete_insert_eq|].
    left. split_and!; [by apply Z.gtb_gt|done|by rewrite lookup_insert_eq|done|done].
  - simplify_eq/=. rewrite fold_data. split_and!; [done|by rewrite delete_insert_eq|].
    right. split_and!; [by apply Z.leb_le; rewrite Z.leb_antisym; apply negb_true_iff;
                        rewrite <- Z.gtb_ltb|done|by rewrite lookup_insert_eq|].
    eexists. split_and!; [done..|]. intros k v Hk Hne. simpl.
    change (data c) with (d_data (mkDelta (data c) ∅ ∅ ∅ ∅)) in Hk.
    rewrite <- fold_data in Hk. by destruct (fold_types _ _ _ _ Hk).
Qed.

Lemma collect_map_size (items : list (string * T)) : (zsize (collect_map items) <= zlen items)%Z.
Proof.
  unfold zsize, zlen. apply Nat2Z.inj_le. unfold collect_map.
  enough (∀ m, size (foldl (λ (m : gmap string T) kv, <[kv.1 := kv.2]> m) m items)
               ≤ size m + length items) as Hs.
  { etrans; [apply Hs|]. rewrite map_size_empty. lia. }
  induction items as [|[k v] items IH]; intros m; simpl; [lia|].
  etrans; [apply IH|]. pose proof (map_size_insert k v m) as Hi. simpl.
  destruct (m !! k); simpl in Hi; lia.
Qed.

(** ** Executions of the caches *)

Inductive cache_step : CenterWatchCacheRegistry T H → CenterWatchCacheRegistry T H → Prop :=
| cs_get_or_create id w : cache_step w (get_or_create id w).2
| cs_replace_all r items ver sid now w :
    cache_step w (replace_all r items ver sid now w).2
| cs_apply_events r events ver sid now w :
    cache_step w (apply_events r events ver sid now w).2
| cs_set_stale r w : cache_step w (set_stale_at r w)
| cs_mark_offline id w : cache_step w (mark_offline id w)
| cs_remove_controller id w : cache_step w (remove_controller id w).

Definition capacity_inv w : Prop :=
  ∀ r id c, cells w !! r = Some (id, c) → (zsize (data c) <= MAX_ENTRIES_PER_CONTROLLER)%Z.

Lemma set_cell_capacity r id c w :
  (zsize (data c) <= MAX_ENTRIES_PER_CONTROLLER)%Z →
  capacity_inv w → capacity_inv (set_cell r id c w).
Proof.
  intros Hc Hw r' id' c'. simpl. destruct (decide (r' = r)) as [->|];
    [rewrite lookup_insert_eq; by intros [= <- <-]|].
  rewrite lookup_insert_ne by done. apply Hw.
Qed.

Lemma set_stale_at_capacity r w : capacity_inv w → capacity_inv (set_stale_at r w).
Proof.
  intros Hw. unfold set_stale_at. destruct (cells w !! r) as [[id c]|] eqn:E; [|done].
  apply set_cell_capacity; [|done]. simpl. by eapply Hw.
Qed.

Lemma cache_step_capacity w w' : capacity_inv w → cache_step w w' → capacity_inv w'.
Proof.
  intros Hw Hst. destruct Hst as [id w|r items ver sid now w|r events ver sid now w
                                 |r w|id w|id w].
  - unfold get_or_create. destruct (caches w !! id); [done|]. simpl.
    intros r id' c. simpl. destruct (decide (r = next_cell w)) as [->|];
      [rewrite lookup_insert_eq; by intros [= <- <-]|].
    rewrite lookup_insert_ne by done. apply Hw.
  - unfold replace_all. destruct (cells w !! r) as [[id c]|] eqn:E; [|done].
    unfold replace_all_state.
    destruct (zlen items >? MAX_ENTRIES_PER_CONTROLLER)%Z eqn:El; simpl.
    + apply set_cell_capacity; [simpl; by eapply Hw|done].
    + apply (set_cell_capacity r id); [simpl|done]. rewrite Z.gtb_ltb in El.
      apply Z.ltb_ge in El. pose proof (collect_map_size items). lia.
  - unfold apply_events. destruct (cells w !! r) as [[id c]|] eqn:E; [|done].
    unfold apply_events_state. rewrite projected_len_eq.
    destruct (zsize (foldl ref_event (data c) events) >? MAX_ENTRIES_PER_CONTROLLER)%Z eqn:El;
      simpl.
    + apply set_cell_capacity; [simpl; by eapply Hw|done].
    + apply (set_cell_capacity r id); [simpl|done]. rewrite fold_data. simpl.
      rewrite Z.gtb_ltb in El. by apply Z.ltb_ge in El.
  - by apply set_stale_at_capacity.
  - unfold mark_offline. destruct (caches w !! id); [|done].
    intros r' id' c'. by apply (set_stale_at_capacity _ w Hw).
  - done.
Qed.

Lemma capacity_steps w w' : capacity_inv w → rtc cache_step w w' → capacity_inv w'.
Proof.
  intros Hw Hst. induction Hst as [|w1 w2 w3 H12 _ IH]; [done|].
  apply IH. by eapply cache_step_capacity.
Qed.

(** No sequence of operations ever makes a cache hold more than
    [MAX_ENTRIES_PER_CONTROLLER] documents. *)
Theorem capacity_never_exceeded h w r id c :
  rtc cache_step (registry_new h) w → cells w !! r = Some (id, c) →
  (st_entry_count (status c) <= MAX_ENTRIES_PER_CONTROLLER)%Z.
Proof.
  intros Hst Hr. unfold status, st_entry_count.
  refine (capacity_steps _ _ _ Hst r id c Hr). intros r0 id0 c0 Hc0.
  unfold registry_new in Hc0. simpl in Hc0. by rewrite lookup_empty in Hc0.
Qed.
End CacheProperties.

(** ** Witnesses, at documents that are their own type label and a handler that
    ignores its callbacks *)

#[local] Instance demo_typed : ConfigTyped string := Some.
#[local] Instance demo_handler : CenterConfHandler string unit :=
  { full_set _ _ h := h; partial_update _ _ _ _ h := h;
    controller_offline _ h := h; controller_removed _ h := h }.

Definition demo_cache : CenterWatchCacheRegistry string unit :=
  (get_or_create "c1/edge" (registry_new tt)).2.

Lemma apply_events_spec_witness :
  let res := apply_events 0 [mkEvent Add "ns/a" "Geo"] 3 "srv" 9 demo_cache in
  res.1 = Applied ∧ delete 0 (cells res.2) = delete 0 (cells demo_cache).
Proof.
  assert (Hc : ∃ c, cells demo_cache !! 0 = Some ("c1/edge", c)) by (eexists; vm_compute; reflexivity).
  destruct Hc as [c Hc].
  destruct (apply_events 0 [mkEvent Add "ns/a" "Geo"] 3 "srv" 9 demo_cache) as [res w'] eqn:E.
  destruct (apply_events_spec _ _ _ _ _ _ _ _ _ _ Hc E) as (_&Hd&Hor). simpl.
  split; [|exact Hd]. destruct Hor as [(Hgt&_)|(_&Hres&_)]; [exfalso|exact Hres].
  revert Hc Hgt. vm_compute. intros [= <-]. vm_compute. discriminate.
Defined.

Lemma capacity_never_exceeded_witness :
  ∃ c, cells demo_cache !! 0 = Some ("c1/edge", c)
       ∧ (st_entry_count (status c) <= MAX_ENTRIES_PER_CONTROLLER)%Z.
Proof.
  eexists. split; [vm_compute; reflexivity|].
  apply (capacity_never_exceeded tt demo_cache 0 "c1/edge"); [|vm_compute; reflexivity].
  eapply rtc_l; [apply (cs_get_or_create "c1/edge")|apply rtc_refl].
Defined.
