(* ===== verification/MetadataStore.v ===== *)
(** * MetadataStore: region-route overrides across controllers

    [crates/center-runtime/src/metadata_store.rs]: the production
    [CenterConfHandler].  The store maps a key [namespace/name] to the
    documents of type [RegionRouteOverride] that the controllers contribute.
    The main theorems relate it to the caches that feed it: after a full list,
    and after every batch with distinct keys, the rows of a controller are
    exactly the override documents of its cache. *)

From S2P Require Import Prelude Json WatchCache.

Abbreviation WatchedConfigData := Value.

(** [impl ConfigTyped for serde_json::Value] ([watch_cache/mod.rs]). *)
#[export] Instance Value_config_typed : ConfigTyped Value :=
  pointer_str ["spec"; "data"; "type"].

Abbreviation override_map := (gmap string (gmap string Value)).

Record CenterRegionRouteOverrideView := {
  ov_namespace : string;
  ov_name : string;
  ov_controllers : gmap string Value;
}.

(** ** Operations *)

Definition remove_override_key_for_controller (key controller_id : string)
    (m : override_map) : override_map :=
  match m !! key with
  | Some controllers =>
      let controllers := delete controller_id controllers in
      if bool_decide (controllers = ∅) then delete key m else <[key := controllers]> m
  | None => m
  end.

Definition remove_controller_from_override_map (controller_id : string)
    (m : override_map) : override_map :=
  omap (λ controllers : gmap string Value,
          let controllers := delete controller_id controllers in
          if bool_decide (controllers = ∅) then None else Some controllers) m.

Definition retain_override_controllers (controller_ids : gset string)
    (m : override_map) : override_map :=
  omap (λ controllers : gmap string Value,
          let controllers := base.filter (λ kv, kv.1 ∈ controller_ids) controllers in
          if bool_decide (controllers = ∅) then None else Some controllers) m.

Definition upsert_watched_override (controller_id : string) (resource : Value)
    (m : override_map) : override_map :=
  match pointer_str ["metadata"; "namespace"] resource with
  | None => m
  | Some namespace =>
      match pointer_str ["metadata"; "name"] resource with
      | None => m
      | Some name =>
          let key := join_key namespace name in
          let data_type := pointer_str ["spec"; "data"; "type"] resource in
          let m := remove_override_key_for_controller key controller_id m in
          if bool_decide (data_type = Some "RegionRouteOverride")
          then <[key := <[controller_id := resource]> (default ∅ (m !! key))]> m
          else m
      end
  end.

Definition values (m : gmap string Value) : list Value := (map_to_list m).*2.

Definition store_full_set (controller_id : string) (d : gmap string Value)
    (m : override_map) : override_map :=
  foldl (λ m v, upsert_watched_override controller_id v m)
    (remove_controller_from_override_map controller_id m) (values d).

Definition store_partial_update (controller_id : string) (add update rm : gmap string Value)
    (m : override_map) : override_map :=
  let m := foldl (λ m k, remove_override_key_for_controller k controller_id m) m
             ((map_to_list rm).*1) in
  foldl (λ m v, upsert_watched_override controller_id v m) m (values add ++ values update).

(** [impl CenterConfHandler for CenterMetaDataStore]. *)
#[export] Instance CenterMetaDataStore : CenterConfHandler Value override_map := {|
  full_set := store_full_set;
  partial_update := store_partial_update;
  controller_offline := λ _ m, m;
  controller_removed := remove_controller_from_override_map;
|}.

(** [list_override_map]: the rows whose key splits, sorted by namespace and name. *)
Definition view_cmp (a b : CenterRegionRouteOverrideView) : comparison :=
  match String.compare (ov_namespace a) (ov_namespace b) with
  | Eq => String.compare (ov_name a) (ov_name b)
  | c => c
  end.
Definition view_le (a b : CenterRegionRouteOverrideView) : Prop := view_cmp a b ≠ Gt.
#[export] Instance view_le_dec a b : Decision (view_le a b).
Proof. unfold view_le. apply _. Defined.

Definition list_override_map (m : override_map) : list CenterRegionRouteOverrideView :=
  merge_sort view_le
    (omap (λ kv : string * gmap string Value,
             '(namespace, name) ← split_once slash kv.1;
             Some {| ov_namespace := namespace; ov_name := name; ov_controllers := kv.2 |})
       (map_to_list m)).

(** ** The abstract view

    [row m k cid] is the document that controller [cid] contributes to key [k];
    [override_of] is the part of a cached document the store keeps. *)

Definition row (m : override_map) (k cid : string) : option Value :=
  m !! k ≫= λ controllers, controllers !! cid.

Definition override_key (v : Value) : option string :=
  namespace ← pointer_str ["metadata"; "namespace"] v;
  name ← pointer_str ["metadata"; "name"] v;
  Some (join_key namespace name).

Definition is_override (v : Value) : bool :=
  bool_decide (pointer_str ["spec"; "data"; "type"] v = Some "RegionRouteOverride").

Definition override_of (v : Value) : option Value :=
  match override_key v with
  | Some _ => if is_override v then Some v else None
  | None => None
  end.

(** No key with an empty row is kept. *)
Definition no_empty_rows (m : override_map) : Prop := ∀ k, m !! k ≠ Some ∅.

(** The rows of [cid] are exactly the override documents of [d]. *)
Definition coherent (cid : string) (d : gmap string Value) (m : override_map) : Prop :=
  ∀ k, row m k cid = d !! k ≫= override_of.

(** A document is cached under the key the store computes for it; a document
    without a namespace or name is cached under a key without a separator. *)
Definition keyed (k : string) (v : Value) : Prop :=
  match override_key v with
  | Some key => key = k
  | None => str_mem slash k = false
  end.
Definition well_keyed (d : gmap string Value) : Prop := map_Forall keyed d.

(** ** Lemmas *)

Lemma row_remove_key k cid m k' cid' :
  row (remove_override_key_for_controller k cid m) k' cid'
  = if decide (k' = k ∧ cid' = cid) then None else row m k' cid'.
Proof.
  unfold row, remove_override_key_for_controller.
  destruct (m !! k) as [cs|] eqn:Hk.
  - case_bool_decide as He.
    + destruct (decide (k' = k)) as [->|].
      * rewrite lookup_delete_eq, Hk. simpl. case_decide as Hd; [done|].
        assert (cid' ≠ cid) by naive_solver.
        by rewrite <- (lookup_delete_ne cs cid cid'), He by done.
      * rewrite lookup_delete_ne by done. by case_decide; [naive_solver|].
    + destruct (decide (k' = k)) as [->|].
      * rewrite lookup_insert_eq, Hk. simpl. rewrite lookup_delete.
        repeat case_decide; naive_solver.
      * rewrite lookup_insert_ne by done. by case_decide; [naive_solver|].
  - case_decide as Hd; [|done]. destruct Hd as [-> ->]. by rewrite Hk.
Qed.

Lemma row_remove_controller cid m k cid' :
  row (remove_controller_from_override_map cid m) k cid'
  = if decide (cid' = cid) then None else row m k cid'.
Proof.
  unfold row, remove_controller_from_override_map. rewrite lookup_omap.
  destruct (m !! k) as [cs|]; simpl; [|by case_decide].
  case_bool_decide as He; simpl; case_decide as Hd; try done.
  - by rewrite <- (lookup_delete_ne cs cid cid'), He by done.
  - subst. by rewrite lookup_delete_eq.
  - by rewrite lookup_delete_ne by done.
Qed.

Lemma row_retain ids m k cid :
  row (retain_override_controllers ids m) k cid
  = if decide (cid ∈ ids) then row m k cid else None.
Proof.
  unfold row, retain_override_controllers. rewrite lookup_omap.
  destruct (m !! k) as [cs|]; simpl; [|by case_decide].
  assert (Hf : base.filter (λ kv : string * Value, kv.1 ∈ ids) cs !! cid
               = if decide (cid ∈ ids) then cs !! cid else None).
  { rewrite map_lookup_filter. destruct (cs !! cid); simpl; repeat case_guard || case_decide; done. }
  case_bool_decide as He; simpl; [|done]. rewrite <- Hf, He. by rewrite lookup_empty.
Qed.

Lemma row_upsert cid v m k cid' :
  row (upsert_watched_override cid v m) k cid'
  = match override_key v with
    | Some key => if decide (k = key ∧ cid' = cid) then override_of v else row m k cid'
    | None => row m k cid'
    end.
Proof.
  unfold upsert_watched_override, override_of, override_key, is_override.
  destruct (pointer_str ["metadata"; "namespace"] v) as [ns|]; [|done].
  destruct (pointer_str ["metadata"; "name"] v) as [n|]; [|done]. simpl.
  case_bool_decide as Ht.
  - unfold row at 1. destruct (decide (k = join_key ns n)) as [->|].
    + rewrite lookup_insert_eq. simpl. destruct (decide (cid' = cid)) as [->|].
      * rewrite lookup_insert_eq. by case_decide; [|naive_solver].
      * rewrite lookup_insert_ne by done. case_decide; [naive_solver|].
        pose proof (row_remove_key (join_key ns n) cid m (join_key ns n) cid') as Hr.
        rewrite decide_False in Hr by naive_solver. rewrite <- Hr. unfold row.
        by destruct (remove_override_key_for_controller _ _ _ !! _).
    + rewrite lookup_insert_ne by done. case_decide; [naive_solver|].
      pose proof (row_remove_key (join_key ns n) cid m k cid') as Hr.
      rewrite decide_False in Hr by naive_solver. by rewrite <- Hr.
  - rewrite row_remove_key. done.
Qed.

Lemma row_remove_keys ks cid m k cid' :
  row (foldl (λ m k, remove_override_key_for_controller k cid m) m ks) k cid'
  = if decide (k ∈ ks ∧ cid' = cid) then None else row m k cid'.
Proof.
  revert m. induction ks as [|k0 ks IH]; intros m; cbn [foldl].
  - rewrite decide_False; [done|]. intros [H _]. by apply elem_of_nil in H.
  - rewrite IH, row_remove_key. repeat case_decide; set_solver.
Qed.

(** Upserting a list of documents that sit under distinct keys. *)
Lemma row_upserts_other cid vs m k cid' :
  (∀ v, v ∈ vs → override_key v = Some k → cid' ≠ cid) →
  row (foldl (λ m v, upsert_watched_override cid v m) m vs) k cid' = row m k cid'.
Proof.
  revert m. induction vs as [|v vs IH]; intros m Hvs; [done|]. simpl.
  rewrite IH by (intros; eapply Hvs; [by right|done]). rewrite row_upsert.
  destruct (override_key v) as [key|] eqn:Hk; [|done].
  case_decide as Hd; [|done]. destruct Hd as [-> ->].
  by destruct (Hvs v (list_elem_of_here _ _) Hk).
Qed.

Lemma row_upserts_this cid vs m k v :
  v ∈ vs → override_key v = Some k →
  (∀ v', v' ∈ vs → override_key v' = Some k → v' = v) →
  row (foldl (λ m v, upsert_watched_override cid v m) m vs) k cid = override_of v.
Proof.
  revert m. induction vs as [|v0 vs IH]; intros m Hin Hk Huq; [by apply elem_of_nil in Hin|].
  simpl. destruct (decide (Exists (λ v', override_key v' = Some k) vs)) as [Hex|Hnex].
  - apply Exists_exists in Hex as (v1&Hin1&Hk1).
    assert (v1 = v) as -> by (apply Huq; [by right|done]).
    apply IH; [done..|]. intros v' Hv'. apply Huq. by right.
  - assert (v0 = v) as ->.
    { apply elem_of_cons in Hin as [->|Hin]; [done|]. destruct Hnex.
      apply Exists_exists. eauto. }
    rewrite row_upserts_other.
    + rewrite row_upsert, Hk. by case_decide; [|naive_solver].
    + intros v' Hv' Hk'. destruct Hnex. apply Exists_exists. eauto.
Qed.

Lemma elem_of_values (d : gmap string Value) v :
  v ∈ values d ↔ ∃ k, d !! k = Some v.
Proof.
  unfold values. rewrite list_elem_of_fmap. split.
  - intros ([k v']&->&Hin). exists k. by apply elem_of_map_to_list.
  - intros [k Hk]. exists (k, v). split; [done|]. by apply elem_of_map_to_list.
Qed.

Lemma override_key_slash v k : override_key v = Some k → str_mem slash k = true.
Proof.
  unfold override_key.
  destruct (pointer_str ["metadata"; "namespace"] v) as [ns|]; [|done].
  destruct (pointer_str ["metadata"; "name"] v) as [n|]; [|done]. simpl. intros [= <-].
  apply str_mem_join.
Qed.

Lemma keyed_unique k v v' key :
  keyed k v → keyed k v' → override_key v = Some key → key = k ∧ override_key v' = Some k.
Proof.
  unfold keyed. intros Hv Hv' Hk. rewrite Hk in Hv. subst key. split; [done|].
  destruct (override_key v'); [by subst|]. by rewrite (override_key_slash _ _ Hk) in Hv'.
Qed.

Lemma override_of_None v : override_key v = None → override_of v = None.
Proof. unfold override_of. by intros ->. Qed.

(** The rows that upserting well-keyed documents leaves: a key is decided by the
    document of that key, if there is one. *)
Lemma row_upserts cid vs m k (o : option Value) :
  (∀ v, v ∈ vs → override_key v = Some k → o = Some v) →
  (∀ v, o = Some v → override_key v = Some k → v ∈ vs) →
  row (foldl (λ m v, upsert_watched_override cid v m) m vs) k cid
  = match o with
    | Some v => if override_key v is Some _ then
                  if decide (override_key v = Some k) then override_of v else row m k cid
                else row m k cid
    | None => row m k cid
    end.
Proof.
  intros Ho1 Ho2. destruct o as [v|].
  - destruct (override_key v) as [key|] eqn:Hk.
    + case_decide as Hd; simplify_eq.
      * apply row_upserts_this; [by apply Ho2|done|].
        intros v' Hin' Hk'. by specialize (Ho1 v' Hin' Hk'); simplify_eq.
      * apply row_upserts_other. intros v' Hin' Hk'. specialize (Ho1 v' Hin' Hk').
        simplify_eq.
    + apply row_upserts_other. intros v' Hin' Hk'. specialize (Ho1 v' Hin' Hk'). simplify_eq.
  - apply row_upserts_other. intros v' Hin' Hk'. by specialize (Ho1 v' Hin' Hk').
Qed.

Lemma full_set_other cid cid' d m k :
  cid' ≠ cid → row (store_full_set cid d m) k cid' = row m k cid'.
Proof.
  intros Hne. unfold store_full_set. rewrite row_upserts_other by done.
  rewrite row_remove_controller. by rewrite decide_False.
Qed.

Lemma full_set_coherent cid d m :
  well_keyed d → coherent cid d (store_full_set cid d m).
Proof.
  intros Hd k. unfold store_full_set. rewrite (row_upserts _ _ _ _ (d !! k)).
  - rewrite row_remove_controller, decide_True by done.
    destruct (d !! k) as [v|] eqn:Hk; simpl; [|done].
    pose proof (Hd k v Hk) as Hv. unfold keyed in Hv.
    destruct (override_key v) as [key|] eqn:Hkey; [|by rewrite override_of_None].
    subst. by rewrite decide_True.
  - intros v [k' Hk']%elem_of_values Hkey. pose proof (Hd k' v Hk') as Hv.
    unfold keyed in Hv. rewrite Hkey in Hv. by subst.
  - intros v Hk _. apply elem_of_values. eauto.
Qed.

Lemma partial_update_other cid cid' add update rm m k :
  cid' ≠ cid → row (store_partial_update cid add update rm m) k cid' = row m k cid'.
Proof.
  intros Hne. unfold store_partial_update. rewrite row_upserts_other by done.
  rewrite row_remove_keys. rewrite decide_False; [done|]. by intros [_ ->].
Qed.

(** ** One batch with distinct keys *)

Section Batch.
Context (events : list (WatchEventSimple Value)) (d0 : gmap string Value).
Context (Hnd : NoDup (ev_key <$> events)).
Context (Hev : Forall (λ ev, keyed (ev_key ev) (ev_data ev)) events).
Context (Hd0 : well_keyed d0).

Let d := foldl apply_event (mkDelta d0 ∅ ∅ ∅ ∅) events.

(** What the accumulators of the batch say about a key. *)
Lemma batch_row k :
  (d_data d !! k = d0 !! k ∧ d_add d !! k = None ∧ d_update d !! k = None
     ∧ d_remove d !! k = None)
  ∨ (∃ v, keyed k v ∧ d_data d !! k = Some v ∧ d_remove d !! k = None
       ∧ (d_add d !! k = Some v ∧ d_update d !! k = None
          ∨ d_add d !! k = None ∧ d_update d !! k = Some v))
  ∨ (d_data d !! k = None ∧ d_add d !! k = None ∧ d_update d !! k = None
     ∧ d_remove d !! k = d0 !! k).
Proof using Hnd Hev.
  destruct (decide (k ∈ (ev_key <$> events))) as [Hk|Hk].
  - apply list_elem_of_fmap in Hk as (ev&->&Hin). right.
    pose proof (Forall_forall (λ ev, keyed (ev_key ev) (ev_data ev)) events) as [Hf _].
    specialize (Hf Hev ev Hin).
    pose proof (fold_this (mkDelta d0 ∅ ∅ ∅ ∅) events ev Hnd Hin) as Ht. simpl in Ht.
    destruct (ev_type ev) eqn:E; destruct Ht as (H1&H2&H3&H4); rewrite ?lookup_empty in *.
    + left. exists (ev_data ev). naive_solver.
    + left. exists (ev_data ev). naive_solver.
    + right. split_and!; [done..|]. fold d in H4. rewrite H4. by destruct (d0 !! _).
  - left. destruct (fold_other (mkDelta d0 ∅ ∅ ∅ ∅) events k Hk) as (H1&H2&H3&H4).
    simpl in *. by rewrite !lookup_empty in *.
Qed.

Lemma batch_well_keyed : well_keyed (d_data d).
Proof using Hnd Hev Hd0.
  intros k v Hk. destruct (batch_row k) as [(E&_)|[(v'&Hv'&E&_)|(E&_)]].
  - apply Hd0. congruence.
  - by simplify_eq.
  - congruence.
Qed.

Lemma batch_upserted k v :
  v ∈ values (d_add d) ++ values (d_update d) → override_key v = Some k →
  d_add d !! k = Some v ∨ d_update d !! k = Some v.
Proof using Hnd Hev.
  intros Hin Hkey.
  assert (Hx : ∃ k', d_add d !! k' = Some v ∨ d_update d !! k' = Some v).
  { apply elem_of_app in Hin as [[k' ?]%elem_of_values|[k' ?]%elem_of_values]; eauto. }
  destruct Hx as [k' Hk']. enough (k' = k) by (by subst).
  destruct (batch_row k') as [(_&E1&E2&_)|[(v'&Hv'&_&_&E)|(_&E1&E2&_)]];
    [naive_solver| |naive_solver].
  assert (v' = v) as -> by naive_solver. unfold keyed in Hv'. by rewrite Hkey in Hv'.
Qed.

Lemma partial_update_coherent cid m :
  coherent cid d0 m →
  coherent cid (d_data d) (store_partial_update cid (d_add d) (d_update d) (d_remove d) m).
Proof using Hnd Hev Hd0.
  intros Hm k. unfold store_partial_update.
  set (o := match d_add d !! k with Some v => Some v | None => d_update d !! k end).
  rewrite (row_upserts _ _ _ _ o).
  - rewrite row_remove_keys, Hm. subst o.
    assert (Hrm : k ∈ (map_to_list (d_remove d)).*1 ↔ is_Some (d_remove d !! k)).
    { rewrite list_elem_of_fmap. split.
      - intros ([k' v]&->&Hin%elem_of_map_to_list). by eexists.
      - intros [v Hv]. exists (k, v). split; [done|]. by apply elem_of_map_to_list. }
    destruct (batch_row k) as [(E&E1&E2&E3)|[(v&Hv&E&E3&E1)|(E&E1&E2&E3)]];
      rewrite E; rewrite E3 in Hrm.
    + rewrite E1, E2. rewrite decide_False; [done|]. intros [Hx%Hrm _]. by destruct Hx.
    + assert (Ho : match d_add d !! k with Some v => Some v | None => d_update d !! k end
                   = Some v) by (destruct E1 as [[-> _]|[-> ->]]; done).
      rewrite Ho. simpl.
      rewrite !(decide_False (P := k ∈ _ ∧ cid = cid)) by (intros [Hx%Hrm _]; by destruct Hx).
      unfold keyed in Hv. destruct (override_key v) as [key|] eqn:Hkey.
      * subst. by rewrite decide_True.
      * (* the new document is no override, so neither was the old one *)
        destruct (d0 !! k) as [v0|] eqn:H0; simpl; [|by rewrite override_of_None].
        rewrite (override_of_None v) by done. apply override_of_None.
        destruct (override_key v0) as [key0|] eqn:Hk0; [|done].
        pose proof (Hd0 k v0 H0) as Hv0. unfold keyed in Hv0. rewrite Hk0 in Hv0. subst.
        by rewrite (override_key_slash _ _ Hk0) in Hv.
    + rewrite E1, E2. destruct (d0 !! k) as [v0|] eqn:H0.
      * rewrite decide_True; [done|]. split; [apply Hrm; by eexists|done].
      * by case_decide.
  - intros v Hin Hkey. destruct (batch_upserted k v Hin Hkey) as [H1|H1]; subst o.
    + by rewrite H1.
    + destruct (batch_row k) as [(_&_&?&_)|[(v'&_&_&_&[[? ?]|[E1 E2]])|(_&_&?&_)]];
        try congruence. by rewrite E1.
  - intros v Hv Hkey. subst o. apply elem_of_app. rewrite !elem_of_values.
    destruct (d_add d !! k) eqn:E1; simplify_eq; eauto.
Qed.
End Batch.

(** ** The store and the caches together *)

Abbreviation sync_client := (CenterWatchCacheRegistry Value override_map).

(** Every attached cache is well keyed and its override documents are exactly
    the rows of its controller; a controller without a cache has no row. *)
Definition store_inv (w : sync_client) : Prop :=
  ∀ cid, match caches w !! cid with
         | Some r => ∃ c, cells w !! r = Some (cid, c) ∧ well_keyed (data c)
                          ∧ coherent cid (data c) (handler w)
         | None => ∀ k, row (handler w) k cid = None
         end.

(** References below the allocator. *)
Definition refs_fresh (w : sync_client) : Prop :=
  ∀ r c, cells w !! r = Some c → r < next_cell w.

(** The operations the runtime performs: batches go to the attached cache of
    their controller, carry well-keyed documents, and an event batch names each
    key once. *)
Inductive sync_step : sync_client → sync_client → Prop :=
| ss_get_or_create id w : sync_step w (get_or_create id w).2
| ss_replace_all id r items ver sid now w :
    caches w !! id = Some r → Forall (λ kv, keyed kv.1 kv.2) items →
    sync_step w (replace_all r items ver sid now w).2
| ss_apply_events id r events ver sid now w :
    caches w !! id = Some r → NoDup (ev_key <$> events) →
    Forall (λ ev, keyed (ev_key ev) (ev_data ev)) events →
    sync_step w (apply_events r events ver sid now w).2
| ss_set_stale r w : sync_step w (set_stale_at r w)
| ss_mark_offline id w : sync_step w (WatchCache.mark_offline id w)
| ss_remove_controller id w : sync_step w (remove_controller id w).

Lemma collect_map_Forall {T} (P : string → T → Prop) items :
  Forall (λ kv, P kv.1 kv.2) items → map_Forall P (collect_map items).
Proof.
  intros Hf. unfold collect_map.
  assert (∀ m : gmap string T, map_Forall P m →
    map_Forall P (foldl (λ m kv, <[kv.1 := kv.2]> m) m items)) as Hgen.
  { induction Hf as [|[k v] items Hkv Hf IH]; intros m Hm; [done|]. simpl.
    apply IH. by apply map_Forall_insert_2. }
  apply Hgen, map_Forall_empty.
Qed.

(** A cell update that keeps the documents keeps the invariant. *)
Lemma store_inv_set_cell r id c c' (w : sync_client) :
  cells w !! r = Some (id, c) → data c' = data c →
  store_inv w → store_inv (set_cell r id c' w).
Proof.
  intros Hr Hd Hw cid. specialize (Hw cid). simpl.
  destruct (caches w !! cid) as [r'|] eqn:Hc; [|done].
  destruct Hw as (c0&H0&H1&H2). destruct (decide (r' = r)) as [->|].
  - simplify_eq. exists c'. rewrite lookup_insert_eq, Hd. done.
  - exists c0. by rewrite lookup_insert_ne.
Qed.

(** A batch on an attached cache: the new documents are coherent with the new
    handler state, and the rows of the other controllers do not change. *)
Lemma store_inv_batch r id c c' h' log (w : sync_client) :
  caches w !! id = Some r → cells w !! r = Some (id, c) →
  well_keyed (data c') → coherent id (data c') h' →
  (∀ cid k, cid ≠ id → row h' k cid = row (handler w) k cid) →
  store_inv w →
  store_inv (mkCaches (caches w) (<[r := (id, c')]> (cells w)) (next_cell w) h' log).
Proof.
  intros Ha Hr Hwk Hco Hoth Hw cid. specialize (Hw cid). simpl.
  destruct (decide (cid = id)) as [->|Hne].
  - rewrite Ha. exists c'. by rewrite lookup_insert_eq.
  - destruct (caches w !! cid) as [r'|] eqn:Hc.
    + destruct Hw as (c0&H0&H1&H2). destruct (decide (r' = r)) as [->|]; [by simplify_eq|].
      exists c0. rewrite lookup_insert_ne by done. split_and!; [done..|].
      intros k. rewrite Hoth by done. apply H2.
    + intros k. by rewrite Hoth.
Qed.

Lemma refs_fresh_set r id c c' (w : sync_client) :
  cells w !! r = Some c' → refs_fresh w → refs_fresh (set_cell r id c w).
Proof.
  intros Hr Hf r' c0 Hc0. simpl in *. destruct (decide (r' = r)) as [->|].
  - by eapply Hf.
  - rewrite lookup_insert_ne in Hc0 by done. by eapply Hf.
Qed.

Lemma refs_fresh_stale r (w : sync_client) : refs_fresh w → refs_fresh (set_stale_at r w).
Proof.
  intros Hf. unfold set_stale_at. destruct (cells w !! r) as [[i c]|] eqn:Hr; [|done].
  by eapply refs_fresh_set.
Qed.

Lemma sync_step_fresh w w' : refs_fresh w → sync_step w w' → refs_fresh w'.
Proof.
  intros Hf Hst. destruct Hst as [id w|id r items ver sid now w Ha Hk
    |id r events ver sid now w Ha Hnd Hk|r w|id w|id w].
  - unfold get_or_create. destruct (caches w !! id); [done|]. intros r c. simpl.
    destruct (decide (r = next_cell w)) as [->|]; [lia|]. rewrite lookup_insert_ne by done.
    intros Hc. specialize (Hf _ _ Hc). lia.
  - unfold replace_all. destruct (cells w !! r) as [[i c]|] eqn:Hr; [|done].
    destruct (replace_all_state _ _ _ _ _) as [c' [[]|]]; by eapply refs_fresh_set.
  - unfold apply_events. destruct (cells w !! r) as [[i c]|] eqn:Hr; [|done].
    destruct (apply_events_state _ _ _ _ _) as [c' [|]]; by eapply refs_fresh_set.
  - by apply refs_fresh_stale.
  - unfold WatchCache.mark_offline. destruct (caches w !! id) as [r|]; [|done].
    by apply (refs_fresh_stale r).
  - done.
Qed.

Lemma sync_step_inv w w' : refs_fresh w → store_inv w → sync_step w w' → store_inv w'.
Proof.
  intros Hfr Hw Hst. destruct Hst as [id w|id r items ver sid now w Ha Hk
    |id r events ver sid now w Ha Hnd Hk|r w|id w|id w].
  - unfold get_or_create. destruct (caches w !! id) as [r0|] eqn:Hid; [done|]. simpl.
    intros cid. pose proof (Hw cid) as Hc. simpl. destruct (decide (cid = id)) as [->|].
    + rewrite lookup_insert_eq. exists cache_new. rewrite lookup_insert_eq.
      rewrite Hid in Hc. split_and!; [done|apply map_Forall_empty|].
      intros k. by rewrite Hc.
    + rewrite lookup_insert_ne by done. destruct (caches w !! cid) as [r|]; [|done].
      destruct Hc as (c&H0&H1). exists c. pose proof (Hfr _ _ H0).
      by rewrite lookup_insert_ne by lia.
  - pose proof (Hw id) as Hid. rewrite Ha in Hid. destruct Hid as (c&Hr&_&_).
    unfold replace_all. rewrite Hr. unfold replace_all_state.
    destruct (zlen items >? _)%Z; [by eapply store_inv_set_cell|].
    refine (store_inv_batch r id c _ _ _ w _ _ _ _ _ _); simpl; try done.
    + by apply (collect_map_Forall keyed).
    + by apply full_set_coherent, (collect_map_Forall keyed).
    + intros. by apply full_set_other.
  - pose proof (Hw id) as Hid. rewrite Ha in Hid. destruct Hid as (c&Hr&Hwk&Hco).
    unfold apply_events. rewrite Hr. unfold apply_events_state.
    destruct (projected_len events c >? _)%Z; [by eapply store_inv_set_cell|].
    refine (store_inv_batch r id c _ _ _ w _ _ _ _ _ _); simpl; try done.
    + by apply batch_well_keyed.
    + by apply partial_update_coherent.
    + intros. by apply partial_update_other.
  - unfold set_stale_at. destruct (cells w !! r) as [[id c]|] eqn:Hr; [|done].
    by eapply store_inv_set_cell.
  - assert (Hs : ∀ r, store_inv (set_stale_at r w)).
    { intros r. unfold set_stale_at. destruct (cells w !! r) as [[i c]|] eqn:Hr; [|done].
      by eapply store_inv_set_cell. }
    unfold WatchCache.mark_offline. destruct (caches w !! id) as [r|]; [|done]. apply (Hs r).
  - intros cid. pose proof (Hw cid) as Hc. simpl. destruct (decide (cid = id)) as [->|].
    + rewrite lookup_delete_eq. intros k. rewrite row_remove_controller.
      by rewrite decide_True.
    + rewrite lookup_delete_ne by done. destruct (caches w !! cid) as [r|].
      * destruct Hc as (c&H0&H1&H2). exists c. split_and!; [done..|].
        intros k. rewrite row_remove_controller, decide_False by done. apply H2.
      * intros k. by rewrite row_remove_controller, decide_False.
Qed.

Lemma store_inv_init : store_inv (registry_new ∅).
Proof. intros cid. simpl. rewrite lookup_empty. intros k. unfold row. by rewrite lookup_empty. Qed.

Lemma sync_steps_inv w w' :
  refs_fresh w → store_inv w → rtc sync_step w w' → store_inv w'.
Proof.
  intros Hf Hw Hst. induction Hst as [|w1 w2 w3 H12 _ IH]; [done|].
  eauto using sync_step_inv, sync_step_fresh.
Qed.

(** The rows of a reachable store, read off the caches. *)
Lemma reachable_rows w cid k :
  rtc sync_step (registry_new ∅) w →
  row (handler w) k cid
  = (r ← caches w !! cid; '(_, c) ← cells w !! r; v ← data c !! k; override_of v).
Proof.
  intros Hst.
  assert (Hw : store_inv w).
  { eapply sync_steps_inv; [|apply store_inv_init|exact Hst].
    intros r c Hc. simpl in Hc. by rewrite lookup_empty in Hc. }
  specialize (Hw cid). destruct (caches w !! cid) as [r|] eqn:Hc; simpl; [|apply Hw].
  destruct Hw as (c&->&_&Hco). simpl. apply Hco.
Qed.

(** C11.  The override store is a function of the caches.  Along every sequence
    of cache operations in which batches reach the attached cache of their
    controller, carry well-keyed documents and name each key once, the rows of
    a controller are exactly the [RegionRouteOverride] documents of its cache,
    and a controller without a cache has no rows. *)
Theorem override_store_refines_caches w cid k :
  rtc sync_step (registry_new ∅) w →
  row (handler w) k cid
  = (r ← caches w !! cid; '(_, c) ← cells w !! r; v ← data c !! k; override_of v).
Proof. apply reachable_rows. Qed.

Definition demo_override (ns name region : string) : Value :=
  Object [("metadata", Object [("namespace", Str ns); ("name", Str name)]);
          ("spec", Object [("data", Object [("type", Str "RegionRouteOverride");
                                            ("config", Str region)])])].

Definition demo_sync : sync_client :=
  (apply_events 0 [mkEvent Add "ns/b" (demo_override "ns" "b" "eu")] 6 "srv" 11
     (replace_all 0 [("ns/a", demo_override "ns" "a" "us")] 5 "srv" 10
        (get_or_create "c1/edge" (registry_new ∅)).2).2).2.

Lemma override_store_refines_caches_witness :
  row (handler demo_sync) "ns/a" "c1/edge" = Some (demo_override "ns" "a" "us")
  ∧ row (handler demo_sync) "ns/b" "c1/edge" = Some (demo_override "ns" "b" "eu").
Proof.
  assert (Hst : rtc sync_step (registry_new ∅) demo_sync).
  { eapply rtc_l; [apply (ss_get_or_create "c1/edge")|].
    eapply rtc_l; [apply (ss_replace_all "c1/edge" 0
      [("ns/a", demo_override "ns" "a" "us")] 5 "srv" 10); [by vm_compute|by repeat constructor]|].
    eapply rtc_l; [apply (ss_apply_events "c1/edge" 0
      [mkEvent Add "ns/b" (demo_override "ns" "b" "eu")] 6 "srv" 11);
      [by vm_compute|apply NoDup_singleton|by repeat constructor]|].
    apply rtc_refl. }
  split; rewrite (override_store_refines_caches demo_sync _ _ Hst); vm_compute; reflexivity.
Defined.

(** A batch that adds an override and deletes it again leaves the deleted
    document in the store: the cache no longer holds the key, but the handler
    receives the key in both [add] and [remove], applies the removals first and
    the additions last, and keeps the row.  The refinement of the caches
    therefore needs batches without repeated keys. *)
Theorem add_delete_batch_leaves_override cid k v v' m :
  override_key v = Some k → is_override v = true →
  let d := foldl apply_event (mkDelta ∅ ∅ ∅ ∅ ∅) [mkEvent Add k v; mkEvent Delete k v'] in
  d_data d !! k = None
  ∧ row (store_partial_update cid (d_add d) (d_update d) (d_remove d) m) k cid = Some v.
Proof.
  intros Hk Ho d.
  assert (Hd : d = mkDelta ∅ {[k := v]} ∅ {[k := v]} ({[type_label v]} ∪ ({[type_label v]} ∪ ∅))).
  { unfold d. simpl. unfold apply_event at 1. simpl. rewrite lookup_insert_eq.
    by rewrite delete_insert_id. }
  rewrite Hd. simpl. split; [done|].
  assert (Hov : override_of v = Some v) by (unfold override_of; by rewrite Hk, Ho).
  rewrite <- Hov. unfold store_partial_update, values.
  rewrite map_to_list_singleton, map_to_list_empty. simpl.
  apply (row_upserts_this cid [v] _ k v); [by left|done|]. by intros v'' ->%list_elem_of_singleton.
Qed.

Lemma add_delete_batch_leaves_override_witness :
  let v := demo_override "ns" "a" "us" in
  row (store_partial_update "c1/edge" {[ "ns/a" := v ]} ∅ {[ "ns/a" := v ]} ∅) "ns/a" "c1/edge"
  = Some v.
Proof.
  exact (proj2 (add_delete_batch_leaves_override "c1/edge" "ns/a"
    (demo_override "ns" "a" "us") Null ∅ eq_refl eq_refl)).
Defined.

(** ** Pruning and listing *)

Lemma view_cmp_total a b : view_le a b ∨ view_le b a.
Proof.
  unfold view_le, view_cmp.
  rewrite (String.compare_antisym (ov_namespace b)), (String.compare_antisym (ov_name b)).
  destruct (String.compare (ov_namespace a) (ov_namespace b)); simpl; [|naive_solver..].
  destruct (String.compare (ov_name a) (ov_name b)); simpl; naive_solver.
Qed.

#[export] Instance view_le_total : Total view_le.
Proof. intros a b. apply view_cmp_total. Qed.

(** [retain_controllers] drops the rows of exactly the controllers that are
    not in the directory and changes no other row, and the listing is sorted by
    namespace and name and holds precisely one view per stored key. *)
Theorem retain_and_list_overrides ids m :
  (∀ k cid, row (retain_override_controllers ids m) k cid
            = if decide (cid ∈ ids) then row m k cid else None)
  ∧ Sorted view_le (list_override_map m)
  ∧ ∀ v, v ∈ list_override_map m ↔
         (str_mem slash (ov_namespace v) = false
          ∧ m !! join_key (ov_namespace v) (ov_name v) = Some (ov_controllers v)).
Proof.
  split_and!; [intros; apply row_retain|apply Sorted_merge_sort, _|].
  intros v. unfold list_override_map. rewrite merge_sort_Permutation, list_elem_of_omap. split.
  - intros ([k cs]&Hin%elem_of_map_to_list&Hv). simpl in Hv.
    destruct (split_once slash k) as [[ns n]|] eqn:Hs; simplify_eq/=.
    apply split_once_sound in Hs as [-> Hm]. done.
  - intros [Hm Hk]. exists (join_key (ov_namespace v) (ov_name v), ov_controllers v).
    split; [by apply elem_of_map_to_list|]. simpl. rewrite split_once_join by done.
    by destruct v.
Qed.
