(* ===== verification/ReadModel.v ===== *)
(** * ReadModel: redacted reads over the watch caches

    [crates/center-runtime/src/watch_cache/read_model.rs]: the rows the admin
    API serves.  A document whose type is not on a fixed allow list loses its
    [/spec/data/config] before it leaves the cache. *)

From S2P Require Import Prelude Json WatchCache MetadataStore.

Definition CONFIG_PASSTHROUGH_TYPES : list string :=
  ["IpList"; "KeyList"; "Selector"; "RegionRouteOverride"; "ProxyProtocolTrust"; "WafPolicy"].

Record ConfigDataEntry := {
  en_controller_id : string;
  en_namespace : string;
  en_name : string;
  en_config_type : string;
  en_doc : Value;
}.

Definition split_key (key : string) : string * string :=
  match split_once slash key with
  | Some (namespace, name) => (namespace, name)
  | None => ("", key)
  end.

(** [data.remove("config")] when the value is an object. *)
Definition remove_config (v : Value) : Value :=
  match v with
  | Object m => Object (field_remove "config" m)
  | _ => v
  end.

Definition redact (v : Value) (config_type : string) : Value :=
  if bool_decide (config_type ∈ CONFIG_PASSTHROUGH_TYPES) then v
  else pointer_update ["spec"; "data"] remove_config v.

Definition build_entry (controller_id key : string) (v : Value) : ConfigDataEntry :=
  let '(namespace, name) := split_key key in
  let config_type := default "Unknown" (config_type v) in
  {| en_controller_id := controller_id; en_namespace := namespace; en_name := name;
     en_config_type := config_type; en_doc := redact v config_type |}.

(** Rust's [Ord] on tuples of strings. *)
Definition cmp_then (c d : comparison) : comparison :=
  match c with Eq => d | _ => c end.
Definition entry_cmp2 (a b : ConfigDataEntry) : comparison :=
  cmp_then (String.compare (en_namespace a) (en_namespace b))
    (String.compare (en_name a) (en_name b)).
Definition entry_cmp3 (a b : ConfigDataEntry) : comparison :=
  cmp_then (entry_cmp2 a b) (String.compare (en_controller_id a) (en_controller_id b)).
Definition entry_le2 (a b : ConfigDataEntry) : Prop := entry_cmp2 a b ≠ Gt.
Definition entry_le3 (a b : ConfigDataEntry) : Prop := entry_cmp3 a b ≠ Gt.
#[export] Instance entry_le2_dec a b : Decision (entry_le2 a b).
Proof. unfold entry_le2. apply _. Defined.
#[export] Instance entry_le3_dec a b : Decision (entry_le3 a b).
Proof. unfold entry_le3. apply _. Defined.

Definition type_matches (type_filter : option string) (e : ConfigDataEntry) : bool :=
  match type_filter with
  | None => true
  | Some wanted => String.eqb (en_config_type e) wanted
  end.

Definition list_entries (controller_id_hint : string) (type_filter : option string)
    (c : CacheState Value) : list ConfigDataEntry :=
  merge_sort entry_le2
    (base.filter (λ e, type_matches type_filter e = true)
      ((λ kv, build_entry controller_id_hint kv.1 kv.2) <$> map_to_list (data c))).

Definition raw_entry (key : string) (c : CacheState Value) : option Value := data c !! key.

Definition list_all (type_filter : option string) (w : sync_client) : list ConfigDataEntry :=
  merge_sort entry_le3
    (kv ← map_to_list (caches w); list_entries kv.1 type_filter (cache_at kv.2 w)).

Definition raw_document (controller_id key : string) (w : sync_client) : option Value :=
  r ← get_if_present controller_id w; raw_entry key (cache_at r w).

Definition cached_server_id (controller_id : string) (w : sync_client) : option string :=
  r ← get_if_present controller_id w;
  let server_id := get_server_id r w in
  if is_empty server_id then None else Some server_id.

(** ** Lemmas *)

#[export] Instance entry_le2_total : Total entry_le2.
Proof.
  intros a b. unfold entry_le2, entry_cmp2.
  rewrite (String.compare_antisym (en_namespace b)), (String.compare_antisym (en_name b)).
  destruct (String.compare (en_namespace a) (en_namespace b)); simpl; [|naive_solver..].
  destruct (String.compare (en_name a) (en_name b)); simpl; naive_solver.
Qed.

#[export] Instance entry_le3_total : Total entry_le3.
Proof.
  intros a b. unfold entry_le3, entry_cmp3, entry_cmp2.
  rewrite (String.compare_antisym (en_namespace b)), (String.compare_antisym (en_name b)),
    (String.compare_antisym (en_controller_id b)).
  destruct (String.compare (en_namespace a) (en_namespace b)); simpl; [|naive_solver..].
  destruct (String.compare (en_name a) (en_name b)); simpl; [|naive_solver..].
  destruct (String.compare (en_controller_id a) (en_controller_id b)); simpl; naive_solver.
Qed.

Lemma elem_of_list_entries cid f c e :
  e ∈ list_entries cid f c ↔
  type_matches f e = true ∧ ∃ k v, data c !! k = Some v ∧ e = build_entry cid k v.
Proof.
  unfold list_entries. rewrite merge_sort_Permutation, list_elem_of_filter, list_elem_of_fmap.
  split.
  - intros [Hf ([k v]&->&Hin%elem_of_map_to_list)]. eauto.
  - intros [Hf (k&v&Hk&->)]. split; [done|]. exists (k, v).
    by rewrite elem_of_map_to_list.
Qed.

(** What redaction leaves of a document. *)
Lemma redact_config v t :
  t ∉ CONFIG_PASSTHROUGH_TYPES → pointer ["spec"; "data"; "config"] (redact v t) = None.
Proof.
  intros Ht. unfold redact. rewrite bool_decide_eq_false_2 by done.
  change ["spec"; "data"; "config"] with (["spec"; "data"] ++ ["config"]).
  rewrite pointer_update_eq. destruct (pointer ["spec"; "data"] v) as [w|]; [|done]. simpl.
  destruct w; simpl; try done. by rewrite field_remove_eq.
Qed.

Lemma redact_other v t key :
  key ≠ "config" →
  pointer ["spec"; "data"; key] (redact v t) = pointer ["spec"; "data"; key] v.
Proof.
  intros Hne. unfold redact. case_bool_decide; [done|].
  change ["spec"; "data"; key] with (["spec"; "data"] ++ [key]).
  rewrite pointer_update_eq. 
  assert (Hp : pointer (["spec"; "data"] ++ [key]) v
               = pointer ["spec"; "data"] v ≫= pointer [key]).
  { simpl. destruct (get "spec" v) as [x|]; simpl; [|done]. by destruct (get "data" x). }
  rewrite Hp. destruct (pointer ["spec"; "data"] v) as [w|]; [|done]. simpl.
  destruct w; simpl; try done. by rewrite field_remove_ne.
Qed.

Lemma redact_top v t key :
  key ≠ "spec" → get key (redact v t) = get key v.
Proof.
  intros Hne. unfold redact. case_bool_decide; [done|].
  destruct v; simpl; try done. by rewrite field_update_ne.
Qed.

(** ** Properties *)

(** Fail-closed redaction of the global read model: a row whose type is
    not one of the pass-through types (a mistyped, unknown or missing type
    included) carries no [/spec/data/config]; the type discriminator, every
    other field of [/spec/data] and every top-level field but [spec] are those
    of the cached document; and a row of a pass-through type is the cached
    document itself. *)
Theorem list_all_redacts f w e :
  e ∈ list_all f w →
  ∃ r k v, caches w !! en_controller_id e = Some r ∧ data (cache_at r w) !! k = Some v
    ∧ (en_config_type e ∉ CONFIG_PASSTHROUGH_TYPES →
         pointer ["spec"; "data"; "config"] (en_doc e) = None)
    ∧ (en_config_type e ∈ CONFIG_PASSTHROUGH_TYPES → en_doc e = v)
    ∧ en_config_type e = default "Unknown" (config_type v)
    ∧ (∀ key, key ≠ "config" →
         pointer ["spec"; "data"; key] (en_doc e) = pointer ["spec"; "data"; key] v)
    ∧ (∀ key, key ≠ "spec" → get key (en_doc e) = get key v).
Proof.
  unfold list_all. rewrite merge_sort_Permutation, list_elem_of_bind.
  intros ([cid r]&Hin&Hc%elem_of_map_to_list). simpl in Hin.
  apply elem_of_list_entries in Hin as [_ (k&v&Hk&->)]. exists r, k, v.
  unfold build_entry. destruct (split_key k) as [ns n]. simpl.
  split_and!; [done|done|apply redact_config| |done|apply redact_other|apply redact_top].
  intros Ht. unfold redact. by rewrite bool_decide_eq_true_2.
Qed.

Definition demo_misc : Value :=
  Object [("metadata", Object [("namespace", Str "ns"); ("name", Str "m")]);
          ("spec", Object [("data", Object [("type", Str "misc"); ("config", Str "secret")])])].
Definition demo_read : sync_client :=
  (replace_all 0 [("ns/m", demo_misc)] 5 "srv" 10
     (get_or_create "c1/edge" (registry_new ∅)).2).2.
Definition demo_row : ConfigDataEntry := {|
  en_controller_id := "c1/edge"; en_namespace := "ns"; en_name := "m";
  en_config_type := "misc";
  en_doc := Object [("metadata", Object [("namespace", Str "ns"); ("name", Str "m")]);
                    ("spec", Object [("data", Object [("type", Str "misc")])])] |}.

Lemma list_all_redacts_witness :
  demo_row ∈ list_all None demo_read
  ∧ pointer ["spec"; "data"; "config"] (en_doc demo_row) = None.
Proof.
  assert (Hin : demo_row ∈ list_all None demo_read).
  { vm_compute. left. }
  split; [exact Hin|].
  destruct (list_all_redacts None demo_read demo_row Hin) as (r&k&v&_&_&Hred&_).
  apply Hred. refine (bool_decide_eq_false_1 _ _). vm_compute. reflexivity.
Defined.

(** The global listing is sorted by namespace, name and controller, and
    holds a row exactly for the documents of the registered caches that match
    the type filter. *)
Theorem list_all_sorted_complete f w :
  Sorted entry_le3 (list_all f w)
  ∧ ∀ e, e ∈ list_all f w ↔
      type_matches f e = true ∧
      ∃ cid r k v, caches w !! cid = Some r ∧ raw_document cid k w = Some v
                   ∧ e = build_entry cid k v.
Proof.
  split; [apply Sorted_merge_sort, _|]. intros e. unfold list_all, raw_document, get_if_present.
  rewrite merge_sort_Permutation, list_elem_of_bind. split.
  - intros ([cid r]&Hin&Hc%elem_of_map_to_list). simpl in Hin.
    apply elem_of_list_entries in Hin as [Hf (k&v&Hk&->)]. split; [done|].
    exists cid, r, k, v. split_and!; [done| |done]. rewrite Hc. done.
  - intros [Hf (cid&r&k&v&Hc&Hraw&->)]. exists (cid, r).
    split; [|by apply elem_of_map_to_list]. simpl. apply elem_of_list_entries.
    rewrite Hc in Hraw. simpl in Hraw. split; [done|]. by exists k, v.
Qed.
