(* ===== verification/Aggregator.v ===== *)
(** * Aggregator: per-controller info, liveness and counts

    [crates/center-runtime/src/aggregator.rs].  The aggregator keeps one
    snapshot per controller and publishes, after every change, the number of
    online controllers per cluster to a metrics backend; the backend is
    modelled by the last value set for each cluster label. *)

From S2P Require Import Prelude.

Record ControllerInfo := {
  ci_controller_id : string;
  ci_cluster : string;
  ci_environments : list string;
  ci_tags : list string;
}.

Record StatsEntry := {
  se_total : Z;
  se_per_kind : option (gmap string Z);
  se_updated_at : Z;                  (* Instant, in milliseconds *)
}.

Record ControllerSnapshot := mkSnapshot {
  snap_info : ControllerInfo;
  snap_offline_since : option Z;
  snap_stats : option StatsEntry;
}.

Inductive StatsState := Fresh | Stale | Missing.

Definition derive (counts_present online : bool) : StatsState :=
  match counts_present, online with
  | true, true => Fresh
  | true, false => Stale
  | false, _ => Missing
  end.

Record ControllerSummary := {
  su_controller_id : string;
  su_cluster : string;
  su_env : list string;
  su_tag : list string;
  su_online : bool;
  su_key_count : option Z;
  su_per_kind : option (gmap string Z);
  su_stats_updated_secs_ago : option Z;
  su_stats_state : StatsState;
  su_last_seen_secs_ago : option Z;
}.

Record ResourceAggregator := mkAggregator {
  snapshots : gmap string ControllerSnapshot;
  gauge : gmap string Z;              (* set_controller_count *)
  agg_evictions : Z;                  (* record_eviction *)
}.

Definition aggregator_new : ResourceAggregator := mkAggregator ∅ ∅ 0.

(** ** Gauges *)

Definition cluster_label (s : ControllerSnapshot) : string :=
  if is_empty (ci_cluster (snap_info s)) then "unknown" else ci_cluster (snap_info s).

Definition snap_online (s : ControllerSnapshot) : bool :=
  bool_decide (snap_offline_since s = None).

Definition snap_values (m : gmap string ControllerSnapshot) : list ControllerSnapshot :=
  (map_to_list m).*2.

(** [by_cluster.entry(cluster).or_insert(0)] *)
Definition seed_cluster (g : gmap string Z) (s : ControllerSnapshot) : gmap string Z :=
  match g !! cluster_label s with
  | Some _ => g
  | None => <[cluster_label s := 0%Z]> g
  end.
(** [*by_cluster.entry(cluster).or_default() += 1] *)
Definition count_cluster (g : gmap string Z) (s : ControllerSnapshot) : gmap string Z :=
  <[cluster_label s := (default 0 (g !! cluster_label s) + 1)%Z]> g.

Definition compute_gauge_snapshot (m : gmap string ControllerSnapshot) : gmap string Z :=
  let by_cluster := foldl seed_cluster ∅ (snap_values m) in
  foldl count_cluster by_cluster
    (base.filter (λ s, snap_online s = true) (snap_values m)).

(** [for (cluster, count) in snapshot { set_controller_count(cluster, *count) }] *)
Definition emit_gauges (snapshot g : gmap string Z) : gmap string Z :=
  foldl (λ g kv, <[kv.1 := kv.2]> g) g (map_to_list snapshot).

(** ** Operations *)

Definition set_controller_info (controller_id : string) (info : ControllerInfo)
    (a : ResourceAggregator) : ResourceAggregator :=
  let m := <[controller_id := mkSnapshot info None None]> (snapshots a) in
  mkAggregator m (emit_gauges (compute_gauge_snapshot m) (gauge a)) (agg_evictions a).

Definition mark_offline (controller_id : string) (now : Z) (a : ResourceAggregator) :
    ResourceAggregator :=
  let m := alter (λ s, match snap_offline_since s with
                       | None => mkSnapshot (snap_info s) (Some now) (snap_stats s)
                       | Some _ => s
                       end) controller_id (snapshots a) in
  mkAggregator m (emit_gauges (compute_gauge_snapshot m) (gauge a)) (agg_evictions a).

Definition remove (controller_id : string) (a : ResourceAggregator) :
    bool * ResourceAggregator :=
  match snapshots a !! controller_id with
  | None => (false, a)
  | Some removed =>
      let cluster := cluster_label removed in
      let m := delete controller_id (snapshots a) in
      let snapshot := compute_gauge_snapshot m in
      let still_present := existsb (λ s, String.eqb (cluster_label s) cluster) (snap_values m) in
      let g := emit_gauges snapshot (gauge a) in
      let g := if still_present then g else <[cluster := 0%Z]> g in
      (true, mkAggregator m g (agg_evictions a + 1))
  end.

Definition update_stats (controller_id : string) (per_kind : option (gmap string Z))
    (total now : Z) (a : ResourceAggregator) : ResourceAggregator :=
  mkAggregator
    (alter (λ s, mkSnapshot (snap_info s) (snap_offline_since s)
       (Some {| se_total := total; se_per_kind := per_kind; se_updated_at := now |}))
       controller_id (snapshots a))
    (gauge a) (agg_evictions a).

Definition summary_of (now : Z) (s : ControllerSnapshot) : ControllerSummary :=
  let online := snap_online s in
  let key_count := se_total <$> snap_stats s in
  {| su_controller_id := ci_controller_id (snap_info s);
     su_cluster := ci_cluster (snap_info s);
     su_env := ci_environments (snap_info s);
     su_tag := ci_tags (snap_info s);
     su_online := online;
     su_key_count := key_count;
     su_per_kind := snap_stats s ≫= se_per_kind;
     su_stats_updated_secs_ago :=
       (λ e, (Z.max 0 (now - se_updated_at e) / 1000)%Z) <$> snap_stats s;
     su_stats_state := derive (bool_decide (is_Some key_count)) online;
     su_last_seen_secs_ago := None |}.

Definition controller_summaries (now : Z) (a : ResourceAggregator) : list ControllerSummary :=
  summary_of now <$> snap_values (snapshots a).

(** ** The counts a gauge snapshot holds *)

Definition online_in (cl : string) (l : list ControllerSnapshot) : Z :=
  zlen (base.filter (λ s, snap_online s = true ∧ cluster_label s = cl) l).

Definition known_in (cl : string) (l : list ControllerSnapshot) : Prop :=
  Exists (λ s, cluster_label s = cl) l.
#[export] Instance known_in_dec cl l : Decision (known_in cl l).
Proof. unfold known_in. apply _. Defined.

Lemma known_in_cons cl s l : known_in cl (s :: l) ↔ cluster_label s = cl ∨ known_in cl l.
Proof. apply Exists_cons. Qed.

Lemma known_in_nil cl : ¬ known_in cl [].
Proof. by intros ?%Exists_nil. Qed.

Lemma seed_lookup l g cl :
  foldl seed_cluster g l !! cl
  = match g !! cl with Some n => Some n | None => if decide (known_in cl l) then Some 0%Z else None end.
Proof.
  revert g. induction l as [|s l IH]; intros g; cbn [foldl].
  - rewrite decide_False by apply known_in_nil. by destruct (g !! cl).
  - rewrite IH. unfold seed_cluster. pose proof (known_in_cons cl s l) as Hiff.
    destruct (g !! cluster_label s) as [n|] eqn:Hs.
    + destruct (g !! cl) eqn:Hc; [done|]. repeat case_decide; naive_solver congruence.
    + destruct (decide (cluster_label s = cl)) as [<-|Hne].
      * rewrite lookup_insert_eq, Hs, decide_True; naive_solver.
      * rewrite lookup_insert_ne by done. destruct (g !! cl); [done|].
        repeat case_decide; naive_solver.
Qed.

Lemma count_lookup l g cl :
  foldl count_cluster g l !! cl
  = if decide (known_in cl l)
    then Some (default 0 (g !! cl) + zlen (base.filter (λ s, cluster_label s = cl) l))%Z
    else g !! cl.
Proof.
  revert g. induction l as [|s l IH]; intros g; cbn [foldl].
  - by rewrite decide_False by apply known_in_nil.
  - rewrite IH. unfold count_cluster. rewrite filter_cons.
    destruct (decide (cluster_label s = cl)) as [<-|Hne].
    + rewrite lookup_insert_eq. rewrite (decide_True (P := known_in _ (s :: l)))
        by (by apply Exists_cons_hd).
      unfold zlen. simpl. case_decide as Hk; [f_equal; lia|].
      assert (Hf : base.filter (λ s0, cluster_label s0 = cluster_label s) l = []).
      { apply list_filter_none. intros x Hin Hx. destruct Hk. apply Exists_exists. eauto. }
      by rewrite Hf.
    + rewrite lookup_insert_ne by done.
      pose proof (known_in_cons cl s l). repeat case_decide; naive_solver.
Qed.

Lemma gauge_snapshot_lookup m cl :
  compute_gauge_snapshot m !! cl
  = if decide (known_in cl (snap_values m)) then Some (online_in cl (snap_values m)) else None.
Proof.
  unfold compute_gauge_snapshot, online_in. rewrite count_lookup, seed_lookup, lookup_empty.
  rewrite list_filter_filter.
  assert (Hf : base.filter (λ s, cluster_label s = cl ∧ snap_online s = true) (snap_values m)
    = base.filter (λ s, snap_online s = true ∧ cluster_label s = cl) (snap_values m)).
  { apply list_filter_iff. naive_solver. }
  rewrite Hf. clear Hf. case_decide as Hon.
  - assert (Hk : known_in cl (snap_values m)).
    { unfold known_in in *. rewrite Exists_exists in *.
      destruct Hon as (s&Hin&Hs). apply list_elem_of_filter in Hin as [_ Hin]. eauto. }
    by rewrite !decide_True.
  - case_decide as Hk; [|done].
    assert (Hf : base.filter (λ s, snap_online s = true ∧ cluster_label s = cl) (snap_values m) = []).
    { apply list_filter_none. intros x Hin [Hx1 Hx2]. destruct Hon.
      unfold known_in. apply Exists_exists. exists x. rewrite list_elem_of_filter. done. }
    by rewrite Hf.
Qed.

Lemma emit_lookup snapshot g cl :
  emit_gauges snapshot g !! cl
  = match snapshot !! cl with Some n => Some n | None => g !! cl end.
Proof.
  unfold emit_gauges.
  assert (Hgen : ∀ l : list (string * Z), NoDup l.*1 → ∀ g : gmap string Z,
    foldl (λ g kv, <[kv.1 := kv.2]> g) g l !! cl
    = match (list_to_map l : gmap string Z) !! cl with Some n => Some n | None => g !! cl end).
  { induction l as [|[k n] l IH]; intros Hnd g0; [done|]. simpl in *.
    apply NoDup_cons in Hnd as [Hk Hnd]. rewrite IH by done.
    destruct (decide (k = cl)) as [->|].
    - rewrite !lookup_insert_eq. by rewrite not_elem_of_list_to_map_1.
    - by rewrite !lookup_insert_ne. }
  rewrite Hgen by apply NoDup_fst_map_to_list. by rewrite list_to_map_to_list.
Qed.

(** ** Executions *)

(** The number of online controllers of a cluster. *)
Definition online_count (cl : string) (a : ResourceAggregator) : Z :=
  online_in cl (snap_values (snapshots a)).

Inductive agg_step : ResourceAggregator → ResourceAggregator → Prop :=
| as_set_info id info a :
    (∀ s, snapshots a !! id = Some s →
          cluster_label s = cluster_label (mkSnapshot info None None)) →
    agg_step a (set_controller_info id info a)
| as_mark_offline id now a : agg_step a (mark_offline id now a)
| as_remove id a : agg_step a (remove id a).2
| as_update_stats id per_kind total now a : agg_step a (update_stats id per_kind total now a).

Definition gauge_exact (a : ResourceAggregator) : Prop :=
  ∀ cl, default 0%Z (gauge a !! cl) = online_count cl a.

Lemma elem_of_snap_values m s : s ∈ snap_values m ↔ ∃ id, m !! id = Some s.
Proof.
  unfold snap_values. rewrite list_elem_of_fmap. split.
  - intros ([id s']&->&Hin%elem_of_map_to_list). eauto.
  - intros [id Hid]. exists (id, s). by rewrite elem_of_map_to_list.
Qed.

Lemma known_in_values cl m :
  known_in cl (snap_values m) ↔ ∃ id s, m !! id = Some s ∧ cluster_label s = cl.
Proof.
  unfold known_in. rewrite Exists_exists. setoid_rewrite elem_of_snap_values. naive_solver.
Qed.

Lemma online_in_unknown cl l : ¬ known_in cl l → online_in cl l = 0%Z.
Proof.
  intros Hk. unfold online_in. rewrite list_filter_none; [done|].
  intros x Hin [_ Hx]. destruct Hk. apply Exists_exists. eauto.
Qed.

(** Publishing a map whose labels cover the old ones makes the gauge exact. *)
Lemma gauge_exact_emit m m' g ev :
  (∀ cl, known_in cl (snap_values m) → known_in cl (snap_values m')) →
  (∀ cl, default 0%Z (g !! cl) = online_in cl (snap_values m)) →
  gauge_exact (mkAggregator m' (emit_gauges (compute_gauge_snapshot m') g) ev).
Proof.
  intros Hk Hg cl. unfold online_count. simpl. rewrite emit_lookup, gauge_snapshot_lookup.
  case_decide as Hc; [done|]. rewrite Hg, !online_in_unknown; naive_solver.
Qed.

Lemma alter_known f id m cl :
  (∀ s, cluster_label (f s) = cluster_label s) →
  known_in cl (snap_values m) → known_in cl (snap_values (alter f id m)).
Proof.
  intros Hf. rewrite !known_in_values. intros (i&s&Hi&Hs).
  exists i, (if decide (id = i) then f s else s). rewrite lookup_alter.
  case_decide; simplify_eq; rewrite Hi; [by rewrite Hf|done].
Qed.

Lemma online_in_split cl m id s :
  m !! id = Some s →
  online_in cl (snap_values m)
  = ((if decide (snap_online s = true ∧ cluster_label s = cl) then 1 else 0)
     + online_in cl (snap_values (delete id m)))%Z.
Proof.
  intros Hs. unfold online_in, snap_values, zlen.
  rewrite <- (map_to_list_delete m id s Hs), fmap_cons, filter_cons.
  repeat case_decide; cbn [length snd] in *; lia || naive_solver.
Qed.

Lemma online_in_alter f id m cl :
  (∀ s, cluster_label (f s) = cluster_label s ∧ snap_online (f s) = snap_online s) →
  online_in cl (snap_values (alter f id m)) = online_in cl (snap_values m).
Proof.
  intros Hf. destruct (m !! id) as [s|] eqn:Hs.
  - rewrite (online_in_split cl m id s Hs).
    rewrite (online_in_split cl (alter f id m) id (f s)) by (by rewrite lookup_alter_eq, Hs).
    rewrite delete_alter_eq. destruct (Hf s) as [-> ->]. done.
  - by rewrite alter_id'.
Qed.

Lemma agg_step_exact a a' : gauge_exact a → agg_step a a' → gauge_exact a'.
Proof.
  intros Hg Hst. destruct Hst as [id info a Hcl|id now a|id a|id pk total now a].
  - apply (gauge_exact_emit (snapshots a)); [|exact Hg].
    intros cl. rewrite !known_in_values. intros (i&s&Hi&Hs).
    destruct (decide (i = id)) as [->|].
    + exists id, (mkSnapshot info None None). rewrite lookup_insert_eq.
      split; [done|]. by rewrite <- (Hcl s Hi).
    + exists i, s. by rewrite lookup_insert_ne.
  - apply (gauge_exact_emit (snapshots a)); [|exact Hg].
    intros cl. apply alter_known. intros s. by destruct (snap_offline_since s).
  - unfold remove. destruct (snapshots a !! id) as [s|] eqn:Hs; [|done]. simpl.
    intros cl. unfold online_count. simpl.
    set (m := delete id (snapshots a)).
    assert (Hkn : existsb (λ s0, String.eqb (cluster_label s0) (cluster_label s)) (snap_values m) = true
                  ↔ known_in (cluster_label s) (snap_values m)).
    { rewrite existsb_exists. unfold known_in. rewrite Exists_exists.
      setoid_rewrite list_elem_of_In. setoid_rewrite String.eqb_eq. done. }
    destruct (decide (known_in cl (snap_values m))) as [Hc|Hc].
    + assert (Hl : emit_gauges (compute_gauge_snapshot m) (gauge a) !! cl
                   = Some (online_in cl (snap_values m))).
      { by rewrite emit_lookup, gauge_snapshot_lookup, decide_True. }
      destruct (existsb _ _) eqn:He; [by rewrite Hl|].
      rewrite lookup_insert_ne, Hl; [done|]. intros <-.
      apply Hkn in Hc. congruence.
    + rewrite (online_in_unknown cl) by done.
      assert (Hl : cl ≠ cluster_label s →
                   default 0%Z (emit_gauges (compute_gauge_snapshot m) (gauge a) !! cl) = 0%Z).
      { intros Hne. rewrite emit_lookup, gauge_snapshot_lookup, decide_False by done.
        rewrite (Hg cl). unfold online_count. apply online_in_unknown.
        rewrite known_in_values in Hc |- *. intros (i&s'&Hi&Hs'). apply Hc.
        exists i, s'. split; [|done]. unfold m. rewrite lookup_delete_ne; [done|].
        intros ->. congruence. }
      destruct (existsb _ _) eqn:He.
      * apply Hl. intros ->. by destruct Hc; apply Hkn.
      * rewrite lookup_insert. case_decide; [done|]. by apply Hl.
  - intros cl. unfold online_count. simpl. rewrite online_in_alter by done. apply Hg.
Qed.

(** The published gauge is exact: along every sequence of aggregator
    operations in which a controller re-registers under its own cluster (which
    the peer identity check enforces), the value last set for a cluster is the
    number of its online controllers, and it is zero for a cluster none of
    whose controllers is left. *)
Theorem gauge_is_online_count a cl :
  rtc agg_step aggregator_new a → default 0%Z (gauge a !! cl) = online_count cl a.
Proof.
  intros Hst. assert (gauge_exact a) as Hg; [|apply Hg].
  assert (Hi : gauge_exact aggregator_new) by (intros cl'; done).
  revert Hi Hst. generalize aggregator_new as a0. intros a0 Hi Hst.
  induction Hst as [|a1 a2 a3 H12 _ IH]; [done|]. apply IH. by eapply agg_step_exact.
Qed.

Definition demo_info (id : string) : ControllerInfo :=
  {| ci_controller_id := id; ci_cluster := "eu"; ci_environments := []; ci_tags := [] |}.

Lemma gauge_is_online_count_witness :
  default 0%Z (gauge (remove "eu/a" (mark_offline "eu/b" 9
     (set_controller_info "eu/b" (demo_info "eu/b")
       (set_controller_info "eu/a" (demo_info "eu/a") aggregator_new)))).2 !! "eu") = 0%Z.
Proof.
  rewrite gauge_is_online_count; [vm_compute; reflexivity|].
  eapply rtc_l; [apply (as_set_info "eu/a" (demo_info "eu/a"))|].
  { intros s Hs. vm_compute in Hs. discriminate. }
  eapply rtc_l; [apply (as_set_info "eu/b" (demo_info "eu/b"))|].
  { intros s Hs. vm_compute in Hs. discriminate. }
  eapply rtc_l; [apply (as_mark_offline "eu/b" 9)|].
  apply rtc_once, as_remove.
Defined.

(** The life cycle of the reported counts: a (re-)registration shows an
    online controller whose counts are missing, whatever was reported before;
    a report makes them fresh with the reported total; going offline keeps the
    numbers and turns them stale. *)
Theorem stats_lifecycle id info per_kind total t1 t2 now a :
  let a1 := set_controller_info id info a in
  let a2 := update_stats id per_kind total t1 a1 in
  let a3 := mark_offline id t2 a2 in
  (∃ s, snapshots a1 !! id = Some s ∧ su_online (summary_of now s) = true
        ∧ su_key_count (summary_of now s) = None
        ∧ su_stats_state (summary_of now s) = Missing)
  ∧ (∃ s, snapshots a2 !! id = Some s ∧ su_online (summary_of now s) = true
        ∧ su_key_count (summary_of now s) = Some total
        ∧ su_per_kind (summary_of now s) = per_kind
        ∧ su_stats_state (summary_of now s) = Fresh)
  ∧ (∃ s, snapshots a3 !! id = Some s ∧ su_online (summary_of now s) = false
        ∧ su_key_count (summary_of now s) = Some total
        ∧ su_per_kind (summary_of now s) = per_kind
        ∧ su_stats_state (summary_of now s) = Stale).
Proof.
  simpl. rewrite !lookup_alter_eq, !lookup_insert_eq. simpl.
  split_and!; eexists; split_and!; done.
Qed.
