(* ===== verification/Spiffe.v ===== *)
(** * Spiffe: peer identity of a controller

    [crates/center-runtime/src/federation/spiffe.rs].  The DER parser
    ([x509_parser]) is not part of the repository: it is the parameter
    [from_der], which yields the extensions of the certificate. *)

From S2P Require Import Prelude.

Inductive GeneralName := URI (uri : string) | OtherName.

(** An extension as the parser presents it: one with another OID, one with the
    SAN OID whose content did not parse as a SAN, or a parsed SAN. *)
Inductive X509Extension :=
| OtherOid
| UnparsedSan
| SubjectAlternativeName (general_names : list GeneralName).

Inductive PeerIdentityError := ParseError | NoSpiffeSan | MultiSan | Mismatch.

Record ControllerSpiffe := {
  sp_host : string;
  sp_cluster : string;
  sp_name : string;
}.

Definition MAX_LEAF_DER_LEN : Z := 16 * 1024.
Definition MAX_SAN_ENTRIES : Z := 64.

(** [uri.get(..9)] matches [spiffe://] without regard to case; yields the rest. *)
Definition strip_spiffe (uri : string) : option string :=
  match str_split_at 9 uri with
  | Some (p, rest) => if eq_ignore_ascii_case p "spiffe://" then Some rest else None
  | None => None
  end.
Definition is_spiffe (uri : string) : bool := bool_decide (is_Some (strip_spiffe uri)).

(** The inner loop over the general names of one SAN; [None] is the early
    return of [ParseError]. *)
Fixpoint scan_names (names : list GeneralName) (seen : Z) (spiffe : list string) :
    option (Z * list string) :=
  match names with
  | [] => Some (seen, spiffe)
  | gn :: names =>
      let seen := (seen + 1)%Z in
      if (seen >? MAX_SAN_ENTRIES)%Z then None
      else match gn with
           | URI uri => scan_names names seen (if is_spiffe uri then spiffe ++ [uri] else spiffe)
           | OtherName => scan_names names seen spiffe
           end
  end.

Fixpoint scan_extensions (exts : list X509Extension) (seen : Z) (spiffe : list string) :
    option (list string) :=
  match exts with
  | [] => Some spiffe
  | SubjectAlternativeName names :: exts =>
      match scan_names names seen spiffe with
      | Some (seen, spiffe) => scan_extensions exts seen spiffe
      | None => None
      end
  | _ :: exts => scan_extensions exts seen spiffe
  end.

Section Spiffe.
Context (from_der : string → option (list X509Extension)).

Definition extract_single_spiffe_uri (der : string) : result string PeerIdentityError :=
  if (str_len der >? MAX_LEAF_DER_LEN)%Z then Err ParseError
  else match from_der der with
       | None => Err ParseError
       | Some exts =>
           match scan_extensions exts 0 [] with
           | None => Err ParseError
           | Some [] => Err NoSpiffeSan
           | Some [uri] => Ok uri
           | Some _ => Err MultiSan
           end
       end.

Definition parse_controller_spiffe (uri : string) : option ControllerSpiffe :=
  rest ← strip_spiffe uri;
  '(host, path) ← split_once slash rest;
  match str_split slash path with
  | [first; cluster; name] =>
      if negb (String.eqb first "controllers") then None
      else if is_empty host || is_empty cluster || is_empty name then None
      else Some {| sp_host := host; sp_cluster := cluster; sp_name := name |}
  | _ => None
  end.

Definition check_match (parsed : ControllerSpiffe)
    (trust_domain req_cluster req_controller_id : string) : result unit PeerIdentityError :=
  if negb (eq_ignore_ascii_case (sp_host parsed) trust_domain) then Err Mismatch
  else if negb (String.eqb (sp_cluster parsed) req_cluster) then Err Mismatch
  else if negb (String.eqb (join_key (sp_cluster parsed) (sp_name parsed)) req_controller_id)
  then Err Mismatch
  else Ok ().

Definition verify (leaf_der trust_domain req_cluster req_controller_id : string) :
    result unit PeerIdentityError :=
  let? uri := extract_single_spiffe_uri leaf_der in
  let? parsed := ok_or Mismatch (parse_controller_spiffe uri) in
  check_match parsed trust_domain req_cluster req_controller_id.

(** ** Lemmas *)

(** All URIs of the SANs of a certificate, in order. *)
Fixpoint name_uris (names : list GeneralName) : list string :=
  match names with
  | [] => []
  | URI u :: names => u :: name_uris names
  | OtherName :: names => name_uris names
  end.
Definition san_uris (exts : list X509Extension) : list string :=
  exts ≫= λ e, match e with
               | SubjectAlternativeName names => name_uris names
               | _ => []
               end.

Lemma scan_names_spec names seen acc seen' acc' :
  scan_names names seen acc = Some (seen', acc') →
  acc' = acc ++ base.filter (λ u, is_spiffe u = true) (name_uris names).
Proof.
  revert seen acc. induction names as [|gn names IH]; intros seen acc H; simpl in H.
  - simplify_eq. by rewrite app_nil_r.
  - destruct (seen + 1 >? MAX_SAN_ENTRIES)%Z; [done|]. destruct gn as [u|]; [|by apply IH in H].
    apply IH in H as ->. cbn [name_uris]. rewrite filter_cons.
    destruct (is_spiffe u) eqn:E; simpl.
    + by rewrite <- app_assoc.
    + done.
Qed.

Lemma scan_extensions_spec exts seen acc out :
  scan_extensions exts seen acc = Some out →
  out = acc ++ base.filter (λ u, is_spiffe u = true) (san_uris exts).
Proof.
  revert seen acc. induction exts as [|e exts IH]; intros seen acc H; simpl in H.
  - simplify_eq. by rewrite app_nil_r.
  - destruct e as [| |names]; [by apply IH in H..|].
    destruct (scan_names names seen acc) as [[seen' acc']|] eqn:Hn; [|done].
    apply scan_names_spec in Hn as ->. apply IH in H as ->.
    unfold san_uris. cbn. by rewrite filter_app, app_assoc.
Qed.

Lemma extract_Ok der uri :
  extract_single_spiffe_uri der = Ok uri →
  ∃ exts, from_der der = Some exts
    ∧ base.filter (λ u, is_spiffe u = true) (san_uris exts) = [uri].
Proof.
  unfold extract_single_spiffe_uri. destruct (_ >? _)%Z; [done|].
  destruct (from_der der) as [exts|]; [|done].
  destruct (scan_extensions exts 0 []) as [out|] eqn:Hs; [|done].
  apply scan_extensions_spec in Hs. simpl in Hs.
  destruct out as [|u [|]]; intros; simplify_eq. eauto.
Qed.

Lemma strip_spiffe_Some uri rest :
  strip_spiffe uri = Some rest →
  ∃ p, uri = p +:+ rest ∧ str_len p = 9%Z ∧ eq_ignore_ascii_case p "spiffe://" = true.
Proof.
  unfold strip_spiffe. destruct (str_split_at 9 uri) as [[p r]|] eqn:Hs; [|done].
  destruct (eq_ignore_ascii_case p "spiffe://") eqn:He; [|done]. intros [= <-].
  apply str_split_at_Some in Hs as [-> Hl]. exists p. unfold str_len. by rewrite Hl.
Qed.

(** The accepted identities are exactly the well-formed ones. *)
Lemma parse_controller_spiffe_Some uri s :
  parse_controller_spiffe uri = Some s ↔
  strip_spiffe uri = Some (join_key (sp_host s)
                             (join_key "controllers" (join_key (sp_cluster s) (sp_name s))))
  ∧ Forall (λ x, x ≠ "" ∧ str_mem slash x = false) [sp_host s; sp_cluster s; sp_name s].
Proof.
  unfold parse_controller_spiffe. split.
  - destruct (strip_spiffe uri) as [rest|]; [|done]. simpl.
    destruct (split_once slash rest) as [[host path]|] eqn:Hs; [|done]. simpl.
    apply split_once_sound in Hs as [-> Hh].
    pose proof (str_join_split path) as Hj.
    pose proof (str_split_no_sep slash path) as Hn.
    destruct (str_split slash path) as [|f [|cl [|n [|]]]]; try done.
    destruct (String.eqb f "controllers") eqn:Hf; [|done]. apply String.eqb_eq in Hf as ->.
    destruct host as [|h host], cl as [|c cl], n as [|x n]; try done. simpl.
    intros [= <-]. simpl in *. split; [by rewrite <- Hj|].
    repeat constructor; try done; apply Hn; set_solver.
  - intros [-> Hf]. destruct s as [host cl n]; simpl in *.
    rewrite !Forall_cons in Hf. destruct Hf as ((Hh&Hh')&(Hc&Hc')&(Hn&Hn')&_).
    unfold join_key. rewrite (split_once_join host) by done. simpl.
    rewrite !str_split_join_slash by done. rewrite str_split_clean by done. simpl.
    destruct host, cl, n; done.
Qed.

Lemma verify_Ok der td cluster cid :
  verify der td cluster cid = Ok () →
  ∃ uri s, extract_single_spiffe_uri der = Ok uri
    ∧ parse_controller_spiffe uri = Some s
    ∧ eq_ignore_ascii_case (sp_host s) td = true
    ∧ cluster = sp_cluster s ∧ cid = join_key (sp_cluster s) (sp_name s).
Proof.
  unfold verify. destruct (extract_single_spiffe_uri der) as [uri|] eqn:He; [|done].
  destruct (parse_controller_spiffe uri) as [s|] eqn:Hp; [|done]. simpl. unfold check_match.
  destruct (eq_ignore_ascii_case (sp_host s) td) eqn:Ht; [|done].
  destruct (String.eqb (sp_cluster s) cluster) eqn:Hc; [|done].
  destruct (String.eqb (join_key _ _) cid) eqn:Hi; [|done]. simpl. intros _.
  apply String.eqb_eq in Hc, Hi. exists uri, s. by split_and!.
Qed.

(** ** Properties *)

(** The identity a controller registers under is bound to its
    certificate: if [verify] accepts, the certificate has exactly one SPIFFE
    URI among its SANs, that URI is [spiffe://host/controllers/cluster/name]
    with the trust domain as host, the registered cluster is that cluster and
    the registered id is [cluster/name]; so the cluster is the part of the
    controller id before its separator. *)
Theorem verify_binds_identity der td cluster cid :
  verify der td cluster cid = Ok () →
  ∃ exts uri host name,
    from_der der = Some exts
    ∧ base.filter (λ u, is_spiffe u = true) (san_uris exts) = [uri]
    ∧ strip_spiffe uri
      = Some (join_key host (join_key "controllers" (join_key cluster name)))
    ∧ eq_ignore_ascii_case host td = true
    ∧ cluster ≠ "" ∧ name ≠ "" ∧ str_mem slash name = false
    ∧ split_once slash cid = Some (cluster, name).
Proof.
  intros (uri&s&He&Hp&Ht&->&->)%verify_Ok. apply extract_Ok in He as (exts&Hd&Hf).
  apply parse_controller_spiffe_Some in Hp as [Hs Hall].
  rewrite !Forall_cons in Hall. destruct Hall as ((Hh&_)&(Hc&Hc')&(Hn&Hn')&_).
  exists exts, uri, (sp_host s), (sp_name s). split_and!; try done. by apply split_once_join.
Qed.

(** One certificate, one identity: two registrations accepted with the
    same certificate carry the same cluster and the same controller id. *)
Theorem verify_unique_identity der td td' cluster cid cluster' cid' :
  verify der td cluster cid = Ok () → verify der td' cluster' cid' = Ok () →
  cluster = cluster' ∧ cid = cid'.
Proof.
  intros (uri&s&He&Hp&_&->&->)%verify_Ok (uri'&s'&He'&Hp'&_&->&->)%verify_Ok.
  rewrite He in He'. by simplify_eq.
Qed.

(** [parse_controller_spiffe] is strict: it accepts a URI exactly when,
    after the scheme, it reads [host/controllers/cluster/name] with non-empty
    segments that hold no separator, and it returns those segments. *)
Theorem parse_controller_spiffe_exact uri s :
  parse_controller_spiffe uri = Some s ↔
  (∃ p, uri = p +:+ join_key (sp_host s)
                (join_key "controllers" (join_key (sp_cluster s) (sp_name s)))
        ∧ str_len p = 9%Z ∧ eq_ignore_ascii_case p "spiffe://" = true)
  ∧ Forall (λ x, x ≠ "" ∧ str_mem slash x = false) [sp_host s; sp_cluster s; sp_name s].
Proof.
  rewrite parse_controller_spiffe_Some.
  generalize (join_key (sp_host s)
    (join_key "controllers" (join_key (sp_cluster s) (sp_name s)))) as rest.
  intros rest. split; intros [Hs Hf]; (split; [|exact Hf]).
  - by apply strip_spiffe_Some.
  - destruct Hs as (p&->&Hl&He). unfold strip_spiffe.
    rewrite (str_split_at_app 9 p rest); [by rewrite He|]. unfold str_len in Hl. lia.
Qed.
End Spiffe.

Definition demo_der (der : string) : option (list X509Extension) :=
  if String.eqb der "leaf"
  then Some [OtherOid; SubjectAlternativeName
         [OtherName; URI "https://x"; URI "SPIFFE://Mesh/controllers/c1/edge"]]
  else None.

Lemma verify_binds_identity_witness :
  verify demo_der "leaf" "mesh" "c1" "c1/edge" = Ok ()
  ∧ split_once slash "c1/edge" = Some ("c1", "edge").
Proof.
  assert (Hv : verify demo_der "leaf" "mesh" "c1" "c1/edge" = Ok ()) by (vm_compute; reflexivity).
  split; [exact Hv|].
  destruct (verify_binds_identity demo_der "leaf" "mesh" "c1" "c1/edge" Hv)
    as (exts&uri&host&name&_&_&_&_&_&_&_&Hs).
  vm_compute in Hs. injection Hs as <-. reflexivity.
Defined.

Lemma verify_unique_identity_witness :
  verify demo_der "leaf" "MESH" "c1" "c1/edge" = Ok () ∧ "c1/edge" = "c1/edge".
Proof.
  assert (Hv : verify demo_der "leaf" "MESH" "c1" "c1/edge" = Ok ()) by (vm_compute; reflexivity).
  split; [exact Hv|].
  exact (proj2 (verify_unique_identity demo_der "leaf" _ _ _ _ _ _ Hv Hv)).
Defined.
