(* ===== verification/FedWatch.v ===== *)
(** * FedWatch: validation of what a controller sends

    The synchronous handlers of [crates/center-runtime/src/federation/server.rs]:
    the bounds on a [RegisterRequest] and on a [StatsReport], the key of a
    watched document, the state of the reverse watch ([FedWatchState]) and the
    two handlers that validate a list or an event batch and apply it to the
    controller's cache.  [serde_json]'s parsers are parameters. *)

From S2P Require Import Prelude Core Registry Json WatchCache MetadataStore.

(** ** Bounds on a registration *)

Definition EDGION_CONFIG_DATA : string := "EdgionConfigData".

Definition MAX_STATS_KINDS : Z := 64.
Definition MAX_STATS_KIND_LEN : Z := 63.
Definition MAX_CONTROLLER_ID_LEN : Z := 253.
Definition MAX_CLUSTER_LEN : Z := 63.
Definition MAX_TAG_LEN : Z := 63.
Definition MAX_LIST_ITEMS : Z := 32.
Definition MAX_REGISTRY_ENTRIES : Z := 10000.

(** A [BTreeMap] built from the [HashMap] holds the same rows. *)
Definition bounded_per_kind (per_kind : gmap string Z) : option (gmap string Z) :=
  if (zsize per_kind >? MAX_STATS_KINDS)%Z then None
  else if existsb (λ key, (str_len key >? MAX_STATS_KIND_LEN)%Z) ((map_to_list per_kind).*1)
  then None
  else Some per_kind.

Fixpoint validate_items (items : list string) (field : string) : result () string :=
  match items with
  | [] => Ok ()
  | item :: items =>
      if (str_len item >? MAX_TAG_LEN)%Z then
        Err (if String.eqb field "env" then "env item exceeds max length"
             else if String.eqb field "tag" then "tag item exceeds max length"
             else "list item exceeds max length")
      else if has_control item then
        Err (if String.eqb field "env" then "env item contains control characters"
             else if String.eqb field "tag" then "tag item contains control characters"
             else "list item contains control characters")
      else validate_items items field
  end.

Definition validate_string_list (items : list string) (field : string) : result () string :=
  if (zlen items >? MAX_LIST_ITEMS)%Z then
    Err (if String.eqb field "env" then "env list exceeds max items"
         else if String.eqb field "tag" then "tag list exceeds max items"
         else "list exceeds max items")
  else validate_items items field.

Definition validate_register_req (req : RegisterRequest) : result () string :=
  if is_empty (rr_controller_id req) then Err "controller_id is empty"
  else if (str_len (rr_controller_id req) >? MAX_CONTROLLER_ID_LEN)%Z
  then Err "controller_id exceeds max length"
  else if has_control (rr_controller_id req)
  then Err "controller_id contains control characters"
  else if (str_len (rr_cluster req) >? MAX_CLUSTER_LEN)%Z
  then Err "cluster exceeds max length"
  else if has_control (rr_cluster req)
  then Err "cluster contains control characters"
  else
    let? _ := validate_string_list (rr_env req) "env" in
    let? _ := validate_string_list (rr_tag req) "tag" in
    Ok ().

Definition registry_capacity_exceeded (registry : ControllerRegistry)
    (incoming_id : string) (cap : Z) : bool :=
  (cap <=? Registry.len registry)%Z
  && negb (bool_decide (is_Some (get_session incoming_id registry))).

(** ** The key of a watched document *)

Definition resource_key (value : Value) : option string :=
  metadata ← get "metadata" value ≫= as_object;
  name ← field "name" metadata ≫= as_str;
  let name := str_trim name in
  if is_empty name then None
  else Some (match field "namespace" metadata ≫= as_str with
             | None => name
             | Some namespace => join_key namespace name
             end).

(** ** Messages and the watch state *)

Record FedWatchRequest := mkWatchRequest {
  wq_request_id : string;
  wq_kind : string;
  wq_from_version : Z;
}.

Record FedWatchListResponse := {
  wl_request_id : string;
  wl_data : string;
  wl_sync_version : Z;
  wl_server_id : string;
}.

Record FedWatchEventResponse := {
  we_request_id : string;
  we_data : string;
  we_sync_version : Z;
  we_server_id : string;
  we_error : string;
}.

(** One element of the event array; [raw_data] is the unparsed body. *)
Record WatchEventRaw := { raw_event_type : string; raw_data : string }.

Record FedWatchState := mkWatch {
  fw_kind : string;
  fw_request_id : string;
  fw_server_id : option string;
  fw_consecutive_errors : Z;
  fw_terminated : bool;
}.

Definition FedWatchState_new (kind request_id : string) (sid : option string) : FedWatchState :=
  mkWatch kind request_id sid 0 false.

(** [new_id] is the fresh UUID. *)
Definition re_watch (new_id : string) (s : FedWatchState) : FedWatchRequest * FedWatchState :=
  (mkWatchRequest new_id (fw_kind s) 0,
   mkWatch (fw_kind s) new_id (fw_server_id s) 0 (fw_terminated s)).

Definition terminate (s : FedWatchState) : FedWatchState :=
  mkWatch (fw_kind s) (fw_request_id s) (fw_server_id s) (fw_consecutive_errors s) true.

Definition is_terminated (s : FedWatchState) : bool := fw_terminated s.

(** [pm_watch.server_id = Some(sid); pm_watch.consecutive_errors = 0]. *)
Definition watch_ok (sid : string) (s : FedWatchState) : FedWatchState :=
  mkWatch (fw_kind s) (fw_request_id s) (Some sid) 0 (fw_terminated s).

(** [pm_watch.consecutive_errors += 1]. *)
Definition watch_error (s : FedWatchState) : FedWatchState :=
  mkWatch (fw_kind s) (fw_request_id s) (fw_server_id s)
    (u32_wrapping_add (fw_consecutive_errors s) 1) (fw_terminated s).

Definition initial_watch_request (request_id : string) (from_version : Z) : FedWatchRequest :=
  mkWatchRequest request_id EDGION_CONFIG_DATA from_version.

Inductive WatchOutcome :=
| WatchApplied | Skipped | ParseError | ReWatch | BackoffReWatch | Terminal | WatchOverflow.

#[export] Instance WatchOutcome_eq_dec : EqDecision WatchOutcome.
Proof. solve_decision. Defined.

(** The counters of [fed_metrics] that the handlers bump. *)
Inductive WatchMetric :=
| record_watch_list (kind result : string)
| record_watch_event (kind direction : string)
| record_watch_error (kind reason : string).

(** What a handler reads and writes: the caches with the override store behind
    them, the watch of the session, and the metric log (newest first). *)
Record watch_ctx := mkCtx {
  wx_client : sync_client;
  wx_watch : FedWatchState;
  wx_metrics : list WatchMetric;
}.

Definition event_type_of (s : string) : option EventType :=
  if String.eqb s "add" then Some Add
  else if String.eqb s "update" then Some Update
  else if String.eqb s "delete" then Some Delete
  else None.

(** The accumulators of the validation loop of [apply_watch_list]. *)
Record list_acc := mkListAcc {
  la_keyed : list (string * Value);
  la_seen : gset string;
  la_keyless : Z;
  la_duplicate : Z;
}.

Definition list_item (a : list_acc) (item : Value) : list_acc :=
  match resource_key item with
  | None => mkListAcc (la_keyed a) (la_seen a) (la_keyless a + 1) (la_duplicate a)
  | Some key =>
      mkListAcc (la_keyed a ++ [(key, item)]) ({[key]} ∪ la_seen a) (la_keyless a)
        (if decide (key ∈ la_seen a) then la_duplicate a + 1 else la_duplicate a)
  end.

(** The accumulators of the classification loop of [apply_watch_event]. *)
Record event_acc := mkEventAcc {
  ea_events : list (WatchEventSimple Value);
  ea_unknown : Z;
  ea_keyless : Z;
  ea_body : Z;
}.

Section Handlers.
Context (from_slice_items : string → option (list Value)).
Context (from_str_events : string → option (list WatchEventRaw)).
Context (from_str_value : string → option Value).

Definition apply_watch_list (pm_cache : cache_ref) (now : Z)
    (resp : FedWatchListResponse) (x : watch_ctx) : WatchOutcome * watch_ctx :=
  let '(mkCtx w pm_watch ms) := x in
  let kind := fw_kind pm_watch in
  if negb (String.eqb (wl_request_id resp) (fw_request_id pm_watch)) then (Skipped, x)
  else if is_terminated pm_watch then (Skipped, x)
  else
    match from_slice_items (wl_data resp) with
    | Some items =>
        let a := foldl list_item (mkListAcc [] ∅ 0 0) items in
        if ((la_keyless a >? 0) || (la_duplicate a >? 0))%Z then
          (ParseError, mkCtx w pm_watch (record_watch_list kind "parse_error" :: ms))
        else
          match replace_all pm_cache (la_keyed a) (wl_sync_version resp)
                  (wl_server_id resp) now w with
          | (Overflow, w) =>
              (WatchOverflow,
               mkCtx w (terminate pm_watch) (record_watch_error kind "overflow" :: ms))
          | (Applied, w) =>
              (WatchApplied,
               mkCtx w (watch_ok (wl_server_id resp) pm_watch)
                 (record_watch_list kind "ok" :: ms))
          end
    | None => (ParseError, mkCtx w pm_watch (record_watch_list kind "parse_error" :: ms))
    end.

Definition event_item (a : event_acc) (raw : WatchEventRaw) : event_acc :=
  match event_type_of (raw_event_type raw) with
  | None => mkEventAcc (ea_events a) (ea_unknown a + 1) (ea_keyless a) (ea_body a)
  | Some ty =>
      match from_str_value (raw_data raw) with
      | Some item =>
          match resource_key item with
          | Some key =>
              mkEventAcc (ea_events a ++ [mkEvent ty key item]) (ea_unknown a)
                (ea_keyless a) (ea_body a)
          | None => mkEventAcc (ea_events a) (ea_unknown a) (ea_keyless a + 1) (ea_body a)
          end
      | None => mkEventAcc (ea_events a) (ea_unknown a) (ea_keyless a) (ea_body a + 1)
      end
  end.

Definition apply_watch_event (pm_cache : cache_ref) (now : Z)
    (resp : FedWatchEventResponse) (x : watch_ctx) : WatchOutcome * watch_ctx :=
  let '(mkCtx w pm_watch ms) := x in
  let kind := fw_kind pm_watch in
  if negb (String.eqb (we_request_id resp) (fw_request_id pm_watch)) then (Skipped, x)
  else if is_terminated pm_watch then (Skipped, x)
  else
  let ms := record_watch_event kind "recv" :: ms in
  if negb (is_empty (we_error resp)) then
    if String.eqb (we_error resp) "Forbidden" then
      (Terminal, mkCtx (set_stale_at pm_cache w) (terminate pm_watch)
                   (record_watch_error kind "terminal" :: ms))
    else
      (BackoffReWatch, mkCtx w (watch_error pm_watch)
                         (record_watch_error kind "recv_error" :: ms))
  else if match fw_server_id pm_watch with
          | Some expected_sid => negb (String.eqb expected_sid (we_server_id resp))
          | None => false
          end
  then (ReWatch, mkCtx w pm_watch (record_watch_list kind "version_too_old" :: ms))
  else
  match from_str_events (we_data resp) with
  | None => (ParseError, mkCtx w pm_watch (record_watch_error kind "parse_error" :: ms))
  | Some raw_events =>
      let a := foldl event_item (mkEventAcc [] 0 0 0) raw_events in
      if ((ea_unknown a >? 0) || (ea_keyless a >? 0) || (ea_body a >? 0))%Z then
        (ParseError, mkCtx w pm_watch (record_watch_error kind "parse_error" :: ms))
      else
      let cache_version := get_sync_version pm_cache w in
      if ((cache_version >? 0) && (we_sync_version resp <=? cache_version))%Z then
        (ReWatch, mkCtx w pm_watch (record_watch_error kind "version_gap" :: ms))
      else
      let '(res, w) :=
        if bool_decide (ea_events a = []) then (Applied, w)
        else apply_events pm_cache (ea_events a) (we_sync_version resp)
               (we_server_id resp) now w in
      match res with
      | Overflow =>
          (WatchOverflow,
           mkCtx w (terminate pm_watch) (record_watch_error kind "overflow" :: ms))
      | Applied => (WatchApplied, mkCtx w (watch_ok (we_server_id resp) pm_watch) ms)
      end
  end.
End Handlers.

(** ** The validation loops *)

Lemma validate_items_Ok items f :
  validate_items items f = Ok () ↔
  Forall (λ item, (str_len item <= MAX_TAG_LEN)%Z ∧ has_control item = false) items.
Proof.
  induction items as [|item items IH]; simpl; [done|]. rewrite Forall_cons, <- IH.
  destruct (str_len item >? MAX_TAG_LEN)%Z eqn:El; rewrite Z.gtb_ltb in El.
  - apply Z.ltb_lt in El. split; [done|]. intros [[? _] _]. lia.
  - apply Z.ltb_ge in El. destruct (has_control item); naive_solver.
Qed.

Lemma validate_string_list_Ok items f :
  validate_string_list items f = Ok () ↔
  (zlen items <= MAX_LIST_ITEMS)%Z
  ∧ Forall (λ item, (str_len item <= MAX_TAG_LEN)%Z ∧ has_control item = false) items.
Proof.
  unfold validate_string_list. destruct (zlen items >? MAX_LIST_ITEMS)%Z eqn:El;
    rewrite Z.gtb_ltb in El.
  - apply Z.ltb_lt in El. split; [done|]. intros [? _]. lia.
  - apply Z.ltb_ge in El. rewrite validate_items_Ok. naive_solver.
Qed.

(** The registration check is exact: a request passes precisely when its
    controller id is non-empty, at most 253 bytes and free of control
    characters, its cluster is at most 63 bytes and free of control characters,
    and its [env] and [tag] lists hold at most 32 items of at most 63 bytes
    without control characters. *)
Theorem validate_register_req_exact req :
  validate_register_req req = Ok () ↔
  rr_controller_id req ≠ "" ∧ (str_len (rr_controller_id req) <= 253)%Z
  ∧ has_control (rr_controller_id req) = false
  ∧ (str_len (rr_cluster req) <= 63)%Z ∧ has_control (rr_cluster req) = false
  ∧ Forall (λ l, (zlen l <= 32)%Z
                 ∧ Forall (λ item, (str_len item <= 63)%Z ∧ has_control item = false) l)
      [rr_env req; rr_tag req].
Proof.
  pose proof (validate_string_list_Ok (rr_env req) "env") as Henv.
  pose proof (validate_string_list_Ok (rr_tag req) "tag") as Htag.
  unfold MAX_LIST_ITEMS, MAX_TAG_LEN in *.
  rewrite !Forall_cons, Forall_nil, <- Henv, <- Htag. clear Henv Htag.
  unfold validate_register_req, MAX_CONTROLLER_ID_LEN, MAX_CLUSTER_LEN.
  rewrite !Z.gtb_ltb.
  destruct (rr_controller_id req) as [|a s] eqn:Hid; [naive_solver|]. cbn [is_empty].
  destruct (Z.ltb_spec 253 (str_len (String a s))); [intuition (lia || congruence)|].
  destruct (has_control (String a s)); [naive_solver|].
  destruct (Z.ltb_spec 63 (str_len (rr_cluster req))); [intuition (lia || congruence)|].
  destruct (has_control (rr_cluster req)); [naive_solver|].
  destruct (validate_string_list (rr_env req) "env") as [[]|e],
    (validate_string_list (rr_tag req) "tag") as [[]|e']; naive_solver.
Qed.

(** A list of keyed documents as the handlers build it: each document under the
    key computed for it. *)
Definition keyed_docs (kvs : list (string * Value)) : Prop :=
  Forall (λ kv, resource_key kv.2 = Some kv.1) kvs.

Lemma list_loop a items :
  (0 <= la_keyless a)%Z → (0 <= la_duplicate a)%Z →
  let a' := foldl list_item a items in
  (la_keyless a' <= 0 ∧ la_duplicate a' <= 0)%Z ↔
  la_keyless a = 0%Z ∧ la_duplicate a = 0%Z
  ∧ ∃ kvs, kvs.*2 = items ∧ keyed_docs kvs ∧ NoDup kvs.*1
           ∧ (∀ k, k ∈ kvs.*1 → k ∉ la_seen a).
Proof.
  revert a. induction items as [|item items IH]; intros a Hk Hd; simpl.
  - split.
    + intros []. split_and!; [lia..|]. exists []. split_and!; try constructor. intros k Hin. by apply elem_of_nil in Hin.
    + intuition (lia || congruence).
  - destruct (resource_key item) as [key|] eqn:Hkey.
    + assert (Hi : list_item a item = mkListAcc (la_keyed a ++ [(key, item)]) ({[key]} ∪ la_seen a)
        (la_keyless a) (if decide (key ∈ la_seen a) then la_duplicate a + 1 else la_duplicate a))
        by (unfold list_item; by rewrite Hkey).
      rewrite Hi, IH; simpl; [|done|case_decide; lia]. clear IH Hi.
      split.
      * intros (H1&H2&kvs&<-&Hkd&Hnd&Hs). destruct (decide (key ∈ la_seen a)) as [Hin|Hin]; [lia|].
        split_and!; [done..|]. exists ((key, item) :: kvs). simpl.
        split_and!; [done|by constructor|..].
        -- apply NoDup_cons. split; [|done]. intros Hin'. apply (Hs key Hin'). set_solver.
        -- intros k [->|Hk']%elem_of_cons; [done|]. specialize (Hs k Hk'). set_solver.
      * intros (H1&H2&kvs&Hit&Hkd&Hnd&Hs). destruct kvs as [|[k v] kvs]; [done|].
        simpl in *. simplify_eq. inversion Hkd as [|?? Hkv Hkd']; subst. simpl in Hkv.
        apply NoDup_cons in Hnd as [Hn Hnd]. simplify_eq.
        rewrite decide_False by (apply Hs; by left). split_and!; [done..|].
        exists kvs. split_and!; [done..|].
        intros k' Hk' [->%elem_of_singleton|Hse]%elem_of_union; [done|].
        apply (Hs k'); [by right|done].
    + assert (Hi : list_item a item
        = mkListAcc (la_keyed a) (la_seen a) (la_keyless a + 1) (la_duplicate a))
        by (unfold list_item; by rewrite Hkey).
      rewrite Hi, IH; simpl; [|lia..]. split; [lia|].
      intros (_&_&kvs&Hit&Hkd&_). destruct kvs as [|[k v] kvs]; [done|].
      simpl in *. simplify_eq. inversion Hkd. simplify_eq/=.
Qed.

Lemma list_loop_keyed a kvs :
  keyed_docs kvs → la_keyed (foldl list_item a kvs.*2) = la_keyed a ++ kvs.
Proof.
  revert a. induction kvs as [|[k v] kvs IH]; intros a Hk; simpl; [by rewrite app_nil_r|].
  inversion Hk as [|?? Hkv Hk']; subst. simpl in Hkv. rewrite IH by done.
  unfold list_item. rewrite Hkv. simpl. by rewrite <- app_assoc.
Qed.

(** The checks of [apply_watch_list] pass exactly on a batch of documents with
    distinct keys, which is then handed over in order. *)
Lemma list_batch items :
  let a := foldl list_item (mkListAcc [] ∅ 0 0) items in
  if ((la_keyless a >? 0) || (la_duplicate a >? 0))%Z
  then ∀ kvs, kvs.*2 = items → keyed_docs kvs → ¬ NoDup kvs.*1
  else (la_keyed a).*2 = items ∧ keyed_docs (la_keyed a) ∧ NoDup (la_keyed a).*1.
Proof.
  intros a. pose proof (list_loop (mkListAcc [] ∅ 0 0) items) as Hl. simpl in Hl.
  fold a in Hl. specialize (Hl (Z.le_refl _) (Z.le_refl _)).
  rewrite !Z.gtb_ltb.
  assert (Hbad : (0 < la_keyless a ∨ 0 < la_duplicate a)%Z →
    ∀ kvs, kvs.*2 = items → keyed_docs kvs → ¬ NoDup kvs.*1).
  { intros Hpos kvs Hit Hkd Hnd. enough (la_keyless a <= 0 ∧ la_duplicate a <= 0)%Z by lia.
    apply Hl. split_and!; [done..|]. exists kvs. split_and!; [done..|set_solver]. }
  destruct (Z.ltb_spec 0 (la_keyless a)); simpl; [apply Hbad; by left|].
  destruct (Z.ltb_spec 0 (la_duplicate a)); simpl; [apply Hbad; by right|].
  destruct Hl as [Hl _]. destruct (Hl (conj H H0)) as (_&_&kvs&Hit&Hkd&Hnd&_).
  subst a. rewrite <- Hit, (list_loop_keyed _ _ Hkd). done.
Qed.

Lemma foldl_insert_NoDup {T} (kvs : list (string * T)) (m : gmap string T) :
  NoDup kvs.*1 → foldl (λ m kv, <[kv.1 := kv.2]> m) m kvs = list_to_map kvs ∪ m.
Proof.
  revert m. induction kvs as [|[k v] kvs IH]; intros m Hnd; simpl.
  { by rewrite (left_id_L ∅ (∪)). }
  apply NoDup_cons in Hnd as [Hk Hnd]. rewrite IH by done.
  rewrite <- insert_union_l, insert_union_r; [done|].
  by apply not_elem_of_list_to_map_1.
Qed.

Lemma collect_map_NoDup {T} (kvs : list (string * T)) :
  NoDup kvs.*1 → collect_map kvs = list_to_map kvs.
Proof. intros Hnd. unfold collect_map. by rewrite foldl_insert_NoDup, (right_id_L ∅ (∪)). Qed.

Section ListFacts.
Context (from_slice_items : string → option (list Value)).

(** What makes a response fresh: it answers the current request of a watch
    that has not been terminated. *)
Definition fresh (request_id : string) (s : FedWatchState) : Prop :=
  request_id = fw_request_id s ∧ fw_terminated s = false.

(** A list response is applied as a whole or not at all.  Applied means
    fresh, parsed, every document keyed and the keys distinct; then the cache
    holds exactly those documents at the response's version and server id.
    On overflow the documents stay, the cache is flagged and the watch is
    terminated.  A stale response, and one for a terminated watch, changes
    nothing; a response that does not parse or has a keyless or repeated
    document changes neither cache nor watch. *)
Theorem apply_watch_list_all_or_nothing r now resp x id c o x' :
  cells (wx_client x) !! r = Some (id, c) →
  apply_watch_list from_slice_items r now resp x = (o, x') →
  match o with
  | WatchApplied => ∃ kvs,
      fresh (wl_request_id resp) (wx_watch x)
      ∧ from_slice_items (wl_data resp) = Some kvs.*2 ∧ keyed_docs kvs ∧ NoDup kvs.*1
      ∧ (zlen kvs <= MAX_ENTRIES_PER_CONTROLLER)%Z
      ∧ cells (wx_client x') !! r
        = Some (id, mkCache (list_to_map kvs) (wl_sync_version resp) (wl_server_id resp)
                      (u64_wrapping_add (revision c) 1) false false (Some now))
      ∧ wx_watch x' = watch_ok (wl_server_id resp) (wx_watch x)
  | WatchOverflow =>
      cells (wx_client x') !! r = Some (id, set_overflow c)
      ∧ handler (wx_client x') = handler (wx_client x)
      ∧ wx_watch x' = terminate (wx_watch x)
  | ParseError =>
      wx_client x' = wx_client x ∧ wx_watch x' = wx_watch x
      ∧ ∀ kvs, from_slice_items (wl_data resp) = Some kvs.*2 → keyed_docs kvs → ¬ NoDup kvs.*1
  | Skipped => x' = x ∧ ¬ fresh (wl_request_id resp) (wx_watch x)
  | _ => False
  end.
Proof.
  intros Hr Hx. destruct x as [w s ms]. unfold apply_watch_list, is_terminated, fresh in *.
  simpl in *. destruct (String.eqb_spec (wl_request_id resp) (fw_request_id s)); simpl in Hx;
    [|simplify_eq; naive_solver].
  destruct (fw_terminated s) eqn:Ht; [simplify_eq; naive_solver|].
  destruct (from_slice_items (wl_data resp)) as [items|] eqn:Ep; [|by simplify_eq].
  pose proof (list_batch items) as Hb. simpl in Hb.
  generalize dependent (foldl list_item (mkListAcc [] ∅ 0 0) items). intros a Hx Hb.
  destruct (_ || _)%Z; [simplify_eq; simpl; split_and!; [done..|naive_solver]|].
  destruct Hb as (<-&Hk&Hnd). unfold replace_all, replace_all_state in Hx. rewrite Hr in Hx.
  rewrite Z.gtb_ltb in Hx.
  destruct (Z.ltb_spec MAX_ENTRIES_PER_CONTROLLER (zlen (la_keyed a))); simpl in Hx;
    simplify_eq; simpl.
  - by rewrite lookup_insert_eq.
  - exists (la_keyed a). rewrite lookup_insert_eq, collect_map_NoDup by done. done.
Qed.
End ListFacts.

Section EventFacts.
Context (from_str_events : string → option (list WatchEventRaw)).
Context (from_str_value : string → option Value).

(** A raw event decodes to an event of the cache: known type, parsed body,
    computed key. *)
Definition decodes (raw : WatchEventRaw) (ev : WatchEventSimple Value) : Prop :=
  event_type_of (raw_event_type raw) = Some (ev_type ev)
  ∧ from_str_value (raw_data raw) = Some (ev_data ev)
  ∧ resource_key (ev_data ev) = Some (ev_key ev).

(** The number of rejected events. *)
Definition ea_bad (a : event_acc) : Z := ea_unknown a + ea_keyless a + ea_body a.
Definition ea_nonneg (a : event_acc) : Prop :=
  (0 <= ea_unknown a ∧ 0 <= ea_keyless a ∧ 0 <= ea_body a)%Z.

Lemma event_item_cases a raw :
  (∃ ev, decodes raw ev ∧ event_item from_str_value a raw
     = mkEventAcc (ea_events a ++ [ev]) (ea_unknown a) (ea_keyless a) (ea_body a))
  ∨ ((∀ ev, ¬ decodes raw ev) ∧ ea_bad (event_item from_str_value a raw) = (ea_bad a + 1)%Z
     ∧ (ea_nonneg a → ea_nonneg (event_item from_str_value a raw))).
Proof.
  unfold decodes, event_item, ea_bad, ea_nonneg.
  destruct (event_type_of (raw_event_type raw)) as [ty|];
    [|right; simpl; split_and!; [naive_solver|lia..]].
  destruct (from_str_value (raw_data raw)) as [item|];
    [|right; simpl; split_and!; [naive_solver|lia..]].
  destruct (resource_key item) as [key|] eqn:Ek.
  - left. by exists (mkEvent ty key item).
  - right. simpl. split_and!; [|lia..]. intros ev (_&[= ->]&?). congruence.
Qed.

Lemma event_loop a raws :
  ea_nonneg a →
  let a' := foldl (event_item from_str_value) a raws in
  ea_nonneg a'
  ∧ ((∃ evs, Forall2 decodes raws evs ∧ ea_events a' = ea_events a ++ evs
             ∧ ea_bad a' = ea_bad a)
     ∨ ((∀ evs, ¬ Forall2 decodes raws evs) ∧ (ea_bad a < ea_bad a')%Z)).
Proof.
  revert a. induction raws as [|raw raws IH]; intros a Ha; simpl.
  { split; [done|]. left. exists []. by rewrite app_nil_r. }
  destruct (event_item_cases a raw) as [(ev&Hev&He)|(Hn&Hb&Hp)].
  - rewrite He. destruct (IH _ (Ha : ea_nonneg (mkEventAcc (ea_events a ++ [ev]) _ _ _)))
      as [Hp [(evs&Hf&Hl&Hb)|(Hf&Hb)]]; (split; [done|]); [left|right].
    + exists (ev :: evs). simpl in Hl. rewrite <- app_assoc in Hl. split_and!; [by constructor|done..].
    + split; [|done]. intros evs Hf'. inversion Hf'; subst. by eapply Hf.
  - destruct (IH _ (Hp Ha)) as [Hp' Hor]. split; [done|]. right. split.
    + intros evs Hf'. inversion Hf'; subst. by eapply Hn.
    + destruct Hor as [(evs&_&_&Hb')|(_&Hb')]; lia.
Qed.

(** The checks of [apply_watch_event] pass exactly on a batch in which every
    event decodes, and the events are kept in order. *)
Lemma event_batch raws :
  let a := foldl (event_item from_str_value) (mkEventAcc [] 0 0 0) raws in
  if ((ea_unknown a >? 0) || (ea_keyless a >? 0) || (ea_body a >? 0))%Z
  then ∀ evs, ¬ Forall2 decodes raws evs
  else Forall2 decodes raws (ea_events a).
Proof.
  intros a. destruct (event_loop (mkEventAcc [] 0 0 0) raws) as [Hp Hor];
    [unfold ea_nonneg; simpl; lia|]. fold a in Hp, Hor.
  unfold ea_nonneg, ea_bad in *. simpl in Hor. rewrite !Z.gtb_ltb.
  destruct (Z.ltb_spec 0 (ea_unknown a)), (Z.ltb_spec 0 (ea_keyless a)),
    (Z.ltb_spec 0 (ea_body a)); simpl;
    destruct Hor as [(evs&Hf&Hl&?)|(Hf&?)]; first [lia|by rewrite Hl|done].
Qed.

(** An event batch is applied as a whole or not at all.  Applied means
    fresh, error-free, from the server the watch is bound to, every event
    decoded, and a version above the version of the cache once it has one;
    then the cache holds the events applied in order at the batch's version,
    or is untouched when the batch is empty.  [Terminal] and [WatchOverflow]
    stop the watch and keep the documents; every other outcome leaves the
    caches as they are, and only a received error moves the watch's error
    counter. *)
Theorem apply_watch_event_all_or_nothing r now resp x id c o x' :
  cells (wx_client x) !! r = Some (id, c) →
  apply_watch_event from_str_events from_str_value r now resp x = (o, x') →
  match o with
  | WatchApplied => ∃ raws evs,
      fresh (we_request_id resp) (wx_watch x) ∧ we_error resp = ""
      ∧ (fw_server_id (wx_watch x) = None
         ∨ fw_server_id (wx_watch x) = Some (we_server_id resp))
      ∧ from_str_events (we_data resp) = Some raws ∧ Forall2 decodes raws evs
      ∧ (0 < sync_version c → sync_version c < we_sync_version resp)%Z
      ∧ wx_watch x' = watch_ok (we_server_id resp) (wx_watch x)
      ∧ if decide (evs = []) then wx_client x' = wx_client x else
        cells (wx_client x') !! r
        = Some (id, mkCache (foldl ref_event (data c) evs) (we_sync_version resp)
                      (we_server_id resp) (u64_wrapping_add (revision c) 1) false false
                      (Some now))
  | WatchOverflow =>
      cells (wx_client x') !! r = Some (id, set_overflow c)
      ∧ handler (wx_client x') = handler (wx_client x)
      ∧ wx_watch x' = terminate (wx_watch x)
  | Terminal =>
      we_error resp = "Forbidden" ∧ wx_client x' = set_stale_at r (wx_client x)
      ∧ wx_watch x' = terminate (wx_watch x)
  | BackoffReWatch =>
      we_error resp ≠ "" ∧ wx_client x' = wx_client x
      ∧ wx_watch x' = watch_error (wx_watch x)
  | ReWatch | ParseError => wx_client x' = wx_client x ∧ wx_watch x' = wx_watch x
  | Skipped => x' = x ∧ ¬ fresh (we_request_id resp) (wx_watch x)
  end.
Proof.
  intros Hr Hx. destruct x as [w s ms]. unfold apply_watch_event, is_terminated, fresh in *.
  simpl in *. destruct (String.eqb_spec (we_request_id resp) (fw_request_id s)); simpl in Hx;
    [|simplify_eq; naive_solver].
  destruct (fw_terminated s) eqn:Ht; [simplify_eq; naive_solver|].
  destruct (we_error resp) as [|ch err] eqn:Ee; cbn [is_empty negb] in Hx.
  2: { destruct (String.eqb_spec (String ch err) "Forbidden"); simplify_eq; done. }
  destruct (match fw_server_id s with Some _ => _ | None => _ end) eqn:Esid; [by simplify_eq|].
  assert (fw_server_id s = None ∨ fw_server_id s = Some (we_server_id resp)).
  { destruct (fw_server_id s) as [sid|]; [right|by left]. f_equal.
    by apply String.eqb_eq, negb_false_iff. }
  destruct (from_str_events (we_data resp)) as [raws|] eqn:Ep; [|by simplify_eq].
  pose proof (event_batch raws) as Hb. simpl in Hb.
  set (a := foldl (event_item from_str_value) (mkEventAcc [] 0 0 0) raws) in *.
  destruct (_ || _)%Z; [by simplify_eq|].
  unfold get_sync_version, cache_at in Hx. rewrite Hr in Hx. simpl in Hx.
  destruct ((sync_version c >? 0) && (we_sync_version resp <=? sync_version c))%Z eqn:Ev;
    [by simplify_eq|].
  assert (0 < sync_version c → sync_version c < we_sync_version resp)%Z by lia.
  case_bool_decide as Hnil.
  { simplify_eq. exists raws, (ea_events a). rewrite decide_True by done. done. }
  unfold apply_events, apply_events_state in Hx. rewrite Hr in Hx.
  destruct (projected_len _ c >? _)%Z; simpl in Hx; simplify_eq; simpl.
  - by rewrite lookup_insert_eq.
  - exists raws, (ea_events a). rewrite decide_False by done.
    rewrite lookup_insert_eq, fold_data. done.
Qed.

End EventFacts.

(** ** From the handlers to the override store *)

Section SessionFacts.
Context (from_slice_items : string → option (list Value)).
Context (from_str_events : string → option (list WatchEventRaw)).
Context (from_str_value : string → option Value).
#[local] Abbreviation decodes := (decodes from_str_value).


(** Documents with a name the API server accepts: no surrounding white space,
    and no separator when the document has no namespace. *)
Definition clean_doc (v : Value) : bool :=
  match pointer_str ["metadata"; "name"] v with
  | Some name =>
      String.eqb (str_trim name) name
      && match pointer_str ["metadata"; "namespace"] v with
         | Some _ => true
         | None => negb (str_mem slash name)
         end
  | None => true
  end.

Lemma resource_key_keyed v k : clean_doc v = true → resource_key v = Some k → keyed k v.
Proof.
  unfold clean_doc, resource_key, keyed, override_key, pointer_str.
  destruct v as [| | | | |m]; try done. simpl.
  destruct (field "metadata" m) as [[| | | | |md]|]; try done. simpl.
  destruct (field "name" md) as [[| | |name| |]|]; try done. simpl.
  intros [Ht%String.eqb_eq Hns]%andb_true_iff. rewrite Ht.
  destruct (is_empty name); [done|]. intros [= <-].
  destruct (field "namespace" md) as [[| | |ns| |]|]; simpl in *;
    first [done|by apply negb_true_iff].
Qed.

(** One step of a session of controller [cid]: a list or an event response for
    its attached cache, or a new watch request.  Documents are clean and an
    event batch names each key once. *)
Inductive watch_step (cid : string) : watch_ctx → watch_ctx → Prop :=
| ws_list r now resp x :
    caches (wx_client x) !! cid = Some r →
    (∀ items, from_slice_items (wl_data resp) = Some items →
              Forall (λ v, clean_doc v = true) items) →
    watch_step cid x (apply_watch_list from_slice_items r now resp x).2
| ws_event r now resp x :
    caches (wx_client x) !! cid = Some r →
    (∀ raws evs, from_str_events (we_data resp) = Some raws → Forall2 decodes raws evs →
                 Forall (λ ev, clean_doc (ev_data ev) = true) evs
                 ∧ NoDup (ev_key <$> evs)) →
    watch_step cid x (apply_watch_event from_str_events from_str_value r now resp x).2
| ws_re_watch new_id x :
    watch_step cid x
      (mkCtx (wx_client x) (re_watch new_id (wx_watch x)).2 (wx_metrics x)).

Lemma apply_watch_list_sync cid r now resp x :
  caches (wx_client x) !! cid = Some r →
  (∀ items, from_slice_items (wl_data resp) = Some items →
            Forall (λ v, clean_doc v = true) items) →
  rtc sync_step (wx_client x)
    (wx_client (apply_watch_list from_slice_items r now resp x).2).
Proof.
  intros Hr Hc. destruct x as [w s ms]. unfold apply_watch_list. simpl in *.
  destruct (negb _); [apply rtc_refl|]. destruct (is_terminated s); [apply rtc_refl|].
  destruct (from_slice_items (wl_data resp)) as [items|]; [|apply rtc_refl].
  pose proof (list_batch items) as Hb. simpl in Hb.
  generalize dependent (foldl list_item (mkListAcc [] ∅ 0 0) items). intros a Hb.
  destruct (_ || _)%Z; [apply rtc_refl|]. destruct Hb as (<-&Hk&_).
  assert (Hst : sync_step w (replace_all r (la_keyed a) (wl_sync_version resp)
                               (wl_server_id resp) now w).2).
  { eapply ss_replace_all; [done|]. specialize (Hc _ eq_refl).
    rewrite Forall_fmap in Hc. unfold keyed_docs in Hk. rewrite Forall_forall in *.
    intros kv Hin. apply resource_key_keyed; [by apply Hc|by apply Hk]. }
  destruct (replace_all _ _ _ _ _ _) as [[] w'] eqn:E; by apply rtc_once.
Qed.

Lemma decodes_keyed raws evs :
  Forall2 decodes raws evs → Forall (λ ev, clean_doc (ev_data ev) = true) evs →
  Forall (λ ev, keyed (ev_key ev) (ev_data ev)) evs.
Proof.
  induction 1 as [|raw ev raws evs (_&_&Hk) _ IH]; intros Hc; [done|].
  apply Forall_cons in Hc as [Hc Hcs]. constructor; [by apply resource_key_keyed|auto].
Qed.

Lemma apply_watch_event_sync cid r now resp x :
  caches (wx_client x) !! cid = Some r →
  (∀ raws evs, from_str_events (we_data resp) = Some raws → Forall2 decodes raws evs →
               Forall (λ ev, clean_doc (ev_data ev) = true) evs ∧ NoDup (ev_key <$> evs)) →
  rtc sync_step (wx_client x)
    (wx_client (apply_watch_event from_str_events from_str_value r now resp x).2).
Proof.
  intros Hr Hc. destruct x as [w s ms]. unfold apply_watch_event. simpl in *.
  destruct (negb _); [apply rtc_refl|]. destruct (is_terminated s); [apply rtc_refl|].
  destruct (negb _).
  { destruct (String.eqb _ _); [apply rtc_once, ss_set_stale|apply rtc_refl]. }
  destruct (match fw_server_id s with Some _ => _ | None => _ end); [apply rtc_refl|].
  destruct (from_str_events (we_data resp)) as [raws|]; [|apply rtc_refl].
  pose proof (event_batch from_str_value raws) as Hb. simpl in Hb.
  generalize dependent (foldl (event_item from_str_value) (mkEventAcc [] 0 0 0) raws).
  intros a Hb. destruct (_ || _)%Z; [apply rtc_refl|].
  destruct (_ && _)%Z; [apply rtc_refl|]. case_bool_decide; [apply rtc_refl|].
  destruct (Hc raws _ eq_refl Hb) as [Hcl Hnd].
  assert (Hst : sync_step w (apply_events r (ea_events a) (we_sync_version resp)
                               (we_server_id resp) now w).2)
    by (eapply ss_apply_events; [done..|by eapply decodes_keyed]).
  destruct (apply_events _ _ _ _ _ _) as [[] w'] eqn:E; by apply rtc_once.
Qed.

Lemma watch_step_sync cid x x' :
  watch_step cid x x' → rtc sync_step (wx_client x) (wx_client x').
Proof.
  destruct 1; [by eapply apply_watch_list_sync|by eapply apply_watch_event_sync|].
  apply rtc_refl.
Qed.

(** Through any run of the watch handlers, the override store shows
    exactly the override documents of the caches, for every controller and
    key: the rows served to operators are those the controllers sent. *)
Theorem watch_session_keeps_overrides cid x x' cid' k :
  rtc sync_step (registry_new ∅) (wx_client x) →
  rtc (watch_step cid) x x' →
  let w := wx_client x' in
  row (handler w) k cid'
  = (r ← caches w !! cid'; '(_, c) ← cells w !! r; v ← data c !! k; override_of v).
Proof.
  intros Hx Hst. apply reachable_rows. etrans; [exact Hx|]. clear Hx.
  induction Hst as [|x1 x2 x3 H12 _ IH]; [apply rtc_refl|].
  etrans; [by eapply watch_step_sync|done].
Qed.

(** A terminated watch stays inert: whatever a controller still sends
    under its request id, no handler changes the caches, the store, the
    metrics or the watch. *)
Theorem terminated_watch_inert r now lresp eresp x :
  is_terminated (wx_watch x) = true →
  apply_watch_list from_slice_items r now lresp x = (Skipped, x)
  ∧ apply_watch_event from_str_events from_str_value r now eresp x = (Skipped, x).
Proof.
  destruct x as [w s ms]. intros Ht. unfold apply_watch_list, apply_watch_event.
  simpl in *. rewrite Ht. by destruct (negb _), (negb _).
Qed.
End SessionFacts.

(** ** Witnesses *)

Definition demo_items (d : string) : option (list Value) :=
  if String.eqb d "[a]" then Some [demo_override "ns" "a" "us"] else None.
Definition demo_events (d : string) : option (list WatchEventRaw) :=
  if String.eqb d "[b]" then Some [{| raw_event_type := "add"; raw_data := "b" |}] else None.
Definition demo_value (d : string) : option Value :=
  if String.eqb d "b" then Some (demo_override "ns" "b" "eu") else None.

Definition demo_ctx : watch_ctx :=
  mkCtx (get_or_create "c1/edge" (registry_new ∅)).2
    (FedWatchState_new EDGION_CONFIG_DATA "req-1" None) [].
Definition demo_list : FedWatchListResponse :=
  {| wl_request_id := "req-1"; wl_data := "[a]"; wl_sync_version := 5; wl_server_id := "srv" |}.
Definition demo_event : FedWatchEventResponse :=
  {| we_request_id := "req-1"; we_data := "[b]"; we_sync_version := 6; we_server_id := "srv";
     we_error := "" |}.
Definition demo_listed : watch_ctx := (apply_watch_list demo_items 0 10 demo_list demo_ctx).2.

Lemma apply_watch_list_all_or_nothing_witness :
  ∃ kvs, demo_items "[a]" = Some kvs.*2 ∧ NoDup kvs.*1
         ∧ cells (wx_client demo_listed) !! 0
           = Some ("c1/edge", mkCache (list_to_map kvs) 5 "srv" 1 false false (Some 10%Z)).
Proof.
  destruct (apply_watch_list_all_or_nothing demo_items 0 10 demo_list demo_ctx "c1/edge"
    cache_new WatchApplied demo_listed) as (kvs&_&Hp&_&Hnd&_&Hc&_);
    [vm_compute; reflexivity..|].
  exists kvs. split_and!; [exact Hp|exact Hnd|exact Hc].
Defined.

Lemma apply_watch_event_all_or_nothing_witness :
  ∃ raws, demo_events "[b]" = Some raws
          ∧ wx_watch (apply_watch_event demo_events demo_value 0 11 demo_event demo_listed).2
            = watch_ok "srv" (wx_watch demo_listed).
Proof.
  destruct (apply_watch_event_all_or_nothing demo_events demo_value 0 11 demo_event demo_listed
    "c1/edge" (cache_at 0 (wx_client demo_listed)) WatchApplied
    (apply_watch_event demo_events demo_value 0 11 demo_event demo_listed).2)
    as (raws&evs&_&_&_&Hp&_&_&Hw&_); [vm_compute; reflexivity..|].
  exists raws. split; [exact Hp|exact Hw].
Defined.

Lemma watch_session_keeps_overrides_witness :
  row (handler (wx_client demo_listed)) "ns/a" "c1/edge" = Some (demo_override "ns" "a" "us").
Proof.
  rewrite (watch_session_keeps_overrides demo_items demo_events demo_value "c1/edge" demo_ctx
    demo_listed "c1/edge" "ns/a").
  - vm_compute. reflexivity.
  - eapply rtc_l; [apply (ss_get_or_create "c1/edge")|apply rtc_refl].
  - apply rtc_once. apply (ws_list _ _ _ "c1/edge" 0 10 demo_list demo_ctx).
    + vm_compute. reflexivity.
    + change (wl_data demo_list) with "[a]". unfold demo_items. simpl.
      intros items Hi. injection Hi as <-. constructor; [reflexivity|constructor].
Defined.

Lemma terminated_watch_inert_witness :
  let x := mkCtx (wx_client demo_listed) (terminate (wx_watch demo_listed)) [] in
  apply_watch_list demo_items 0 12 demo_list x = (Skipped, x).
Proof.
  intros x. apply (terminated_watch_inert demo_items demo_events demo_value 0 12 demo_list
    demo_event x). reflexivity.
Defined.
