(* ===== verification/Projector.v ===== *)
(** * Projector: the runtime projection of controller observations

    [RuntimeProjector] and the observation clock of
    [crates/center-runtime/src/federation/server.rs].  Observations are
    coalesced in one slot per controller; the first submission of a slot
    spawns a worker that projects the slot into the controller directory and
    retries with back-off.  The theorems say that at most one worker serves a
    controller, that no submitted observation is lost, and that the clock that
    stamps observations is strictly increasing under contention. *)

From S2P Require Import Prelude Core Effects.

(** ** The slots *)

Record RuntimeProjectionSlot := mkSlot {
  slot_observation : ControllerRuntimeObservation;
  slot_generation : Z;
}.

(** [if new.is_some() { old = new }]. *)
Definition override {A} (new old : option A) : option A :=
  match new with Some _ => new | None => old end.

Definition coalesce (slot obs : ControllerRuntimeObservation) : ControllerRuntimeObservation := {|
  obs_controller_id := obs_controller_id slot;
  obs_session_id := obs_session_id slot;
  obs_ownership_fence := obs_ownership_fence slot;
  obs_sync_version := override (obs_sync_version obs) (obs_sync_version slot);
  obs_watch_server_id := override (obs_watch_server_id obs) (obs_watch_server_id slot);
  obs_resource_count := override (obs_resource_count obs) (obs_resource_count slot);
  obs_resource_counts_by_kind :=
    override (obs_resource_counts_by_kind obs) (obs_resource_counts_by_kind slot);
  obs_stats_updated_unix_ms :=
    override (obs_stats_updated_unix_ms obs) (obs_stats_updated_unix_ms slot);
  obs_watch_updated_unix_ms :=
    override (obs_watch_updated_unix_ms obs) (obs_watch_updated_unix_ms slot);
  obs_observed_at_unix_ms :=
    Z.max (obs_observed_at_unix_ms slot) (obs_observed_at_unix_ms obs);
|}.

Definition update_slot (obs : ControllerRuntimeObservation) (slot : RuntimeProjectionSlot) :
    RuntimeProjectionSlot :=
  mkSlot
    (if bool_decide (obs_session_id (slot_observation slot) = obs_session_id obs)
        && bool_decide (obs_ownership_fence (slot_observation slot) = obs_ownership_fence obs)
     then coalesce (slot_observation slot) obs
     else obs)
    (u64_wrapping_add (slot_generation slot) 1).

(** The locked part of [submit]: the new slots and [should_spawn]. *)
Definition submit_slots (obs : ControllerRuntimeObservation)
    (slots : gmap string RuntimeProjectionSlot) :
    gmap string RuntimeProjectionSlot * bool :=
  let key := obs_controller_id obs in
  match slots !! key with
  | Some slot => (<[key := update_slot obs slot]> slots, false)
  | None => (<[key := mkSlot obs 0]> slots, true)
  end.

(** ** The worker *)

(** [250 << min(failures - 1, 5)] capped at 8 s, plus a jitter of the key. *)
Fixpoint byte_sum (key : string) : Z :=
  match key with
  | EmptyString => 0
  | String c key => Z.of_N (byte_val c) + byte_sum key
  end.

Definition retry_delay_ms (key : string) (failures : Z) : Z :=
  let exponent := Z.min (u32_saturating_sub failures 1) 5 in
  let base_ms := Z.min (u64_saturating_mul 250 (Z.shiftl 1 exponent)) 8000 in
  let jitter_ms := (byte_sum key mod 97)%Z in
  (base_ms + jitter_ms)%Z.

(** Where a worker stands: about to read its slot, awaiting [project_runtime],
    or sleeping. *)
Inductive worker :=
| WFetch (failures : Z)
| WCall (obs : ControllerRuntimeObservation) (generation failures : Z)
| WSleep (delay_ms failures : Z).

(** The head of the loop; [None] when the worker returns. *)
Definition worker_fetch (key : string) (failures : Z)
    (slots : gmap string RuntimeProjectionSlot) : option worker :=
  slot ← slots !! key;
  Some (WCall (slot_observation slot) (slot_generation slot) failures).

(** What the directory decided about the observation of a call, which is [None] if it
    timed out: [Some true] when it persisted the observation, [Some false] when it
    declined it, [None] when there is no decision.  It is [Some _] exactly if
    [matches!(result, Ok(Ok(_)))]. *)
Definition decision (result : option (CoreResult bool)) : option bool :=
  match result with Some (Ok persisted) => Some persisted | _ => None end.

(** The rest of the iteration, on the result of the call. *)
Definition worker_result (key : string) (generation failures : Z) (result : option (CoreResult bool))
    (slots : gmap string RuntimeProjectionSlot) :
    gmap string RuntimeProjectionSlot * option worker :=
  if decision result then
    if match slots !! key with
       | Some slot => (slot_generation slot =? generation)%Z
       | None => false
       end
    then (delete key slots, None)
    else (slots, Some (WFetch 0))
  else
    let failures := u32_saturating_add failures 1 in
    (slots, Some (WSleep (retry_delay_ms key failures) failures)).

(** ** The projector as a transition system

    The directory is represented by the log of the observations it decided about,
    persisted ([true]) or declined ([false]), newest first.  A step is a submission, one step of a worker, or the stop of
    the projector, after which workers leave at their next await. *)

Record projector := mkProjector {
  pj_slots : gmap string RuntimeProjectionSlot;
  pj_workers : list (string * worker);
  pj_cancelled : bool;
  pj_decided : list (ControllerRuntimeObservation * bool);
}.

Definition projector_new : projector := mkProjector ∅ [] false [].

Definition submit (obs : ControllerRuntimeObservation) (s : projector) : projector :=
  let '(slots, should_spawn) := submit_slots obs (pj_slots s) in
  mkProjector slots
    (if should_spawn then pj_workers s ++ [(obs_controller_id obs, WFetch 0)]
     else pj_workers s)
    (pj_cancelled s) (pj_decided s).

Definition stop (s : projector) : projector :=
  mkProjector (pj_slots s) (pj_workers s) true (pj_decided s).

(** Replace or drop the [i]-th worker. *)
Definition set_worker (i : nat) (key : string) (w : option worker)
    (ws : list (string * worker)) : list (string * worker) :=
  match w with
  | Some w => <[i := (key, w)]> ws
  | None => delete i ws
  end.

(** The steps of the projector's own tasks. *)
Inductive projector_step : projector → projector → Prop :=
| ps_stop s : projector_step s (stop s)
| ps_fetch i key failures s :
    pj_workers s !! i = Some (key, WFetch failures) →
    projector_step s
      (mkProjector (pj_slots s)
         (set_worker i key (worker_fetch key failures (pj_slots s)) (pj_workers s))
         (pj_cancelled s) (pj_decided s))
| ps_result i key obs generation failures (result : option (CoreResult bool)) s r :
    pj_workers s !! i = Some (key, WCall obs generation failures) →
    worker_result key generation failures result (pj_slots s) = r →
    projector_step s
      (mkProjector r.1 (set_worker i key r.2 (pj_workers s)) (pj_cancelled s)
         (match decision result with Some persisted => (obs, persisted) :: pj_decided s | None => pj_decided s end))
| ps_wake i key delay failures s :
    pj_workers s !! i = Some (key, WSleep delay failures) →
    projector_step s
      (mkProjector (pj_slots s) (set_worker i key (Some (WFetch failures)) (pj_workers s))
         (pj_cancelled s) (pj_decided s))
| ps_leave i key w s :
    pj_cancelled s = true → pj_workers s !! i = Some (key, w) →
    (∀ failures, w ≠ WFetch failures) →
    projector_step s
      (mkProjector (pj_slots s) (set_worker i key None (pj_workers s)) true (pj_decided s)).

(** Runs, with the number of submissions and the last observation submitted for
    each controller. *)
Inductive projector_run :
    Z → gmap string ControllerRuntimeObservation → projector → Prop :=
| run_new : projector_run 0 ∅ projector_new
| run_submit n last s obs :
    projector_run n last s →
    projector_run (n + 1) (<[obs_controller_id obs := obs]> last) (submit obs s)
| run_step n last s s' :
    projector_run n last s → projector_step s s' → projector_run n last s'.

(** ** What an observation must carry to stand for another *)

Definition carries {A} (new old : option A) : Prop := ∀ x, old = Some x → new = Some x.

(** [covers a obs]: [a] is of the same session and fence as [obs], at least as
    recent, and agrees with [obs] on every field [obs] reports. *)
Definition covers (a obs : ControllerRuntimeObservation) : Prop :=
  obs_controller_id a = obs_controller_id obs
  ∧ obs_session_id a = obs_session_id obs
  ∧ obs_ownership_fence a = obs_ownership_fence obs
  ∧ carries (obs_sync_version a) (obs_sync_version obs)
  ∧ carries (obs_watch_server_id a) (obs_watch_server_id obs)
  ∧ carries (obs_resource_count a) (obs_resource_count obs)
  ∧ carries (obs_resource_counts_by_kind a) (obs_resource_counts_by_kind obs)
  ∧ carries (obs_stats_updated_unix_ms a) (obs_stats_updated_unix_ms obs)
  ∧ carries (obs_watch_updated_unix_ms a) (obs_watch_updated_unix_ms obs)
  ∧ (obs_observed_at_unix_ms obs <= obs_observed_at_unix_ms a)%Z.

Lemma covers_refl obs : covers obs obs.
Proof. unfold covers, carries. split_and!; done || lia. Qed.

Lemma override_carries {A} (new old : option A) : carries (override new old) new.
Proof. unfold carries. destruct new; naive_solver. Qed.

#[export] Hint Resolve covers_refl override_carries : center.

Lemma update_slot_covers obs slot :
  obs_controller_id (slot_observation slot) = obs_controller_id obs →
  covers (slot_observation (update_slot obs slot)) obs.
Proof.
  intros Hid. unfold update_slot. simpl.
  case_bool_decide as Hs; case_bool_decide as Hf; simpl; auto with center.
  unfold covers, coalesce. simpl. split_and!; auto with center; lia.
Qed.

Lemma update_slot_id obs slot :
  obs_controller_id (slot_observation slot) = obs_controller_id obs →
  obs_controller_id (slot_observation (update_slot obs slot)) = obs_controller_id obs.
Proof. intros Hid. by apply update_slot_covers in Hid as (?&_). Qed.

(** ** One worker per slot *)

Definition worker_keys (s : projector) : list string := (pj_workers s).*1.

Definition workers_inv (s : projector) : Prop :=
  NoDup (worker_keys s)
  ∧ (∀ k, k ∈ worker_keys s → is_Some (pj_slots s !! k))
  ∧ (pj_cancelled s = false → ∀ k, is_Some (pj_slots s !! k) → k ∈ worker_keys s).

Lemma fmap_insert_same {A B} (f : A → B) (l : list A) i x y :
  l !! i = Some x → f y = f x → f <$> <[i := y]> l = f <$> l.
Proof.
  intros Hi Hf. rewrite list_fmap_insert, Hf. apply list_insert_id.
  rewrite list_lookup_fmap, Hi. done.
Qed.

Lemma set_worker_keys i key w w' ws :
  ws !! i = Some (key, w) → (set_worker i key (Some w') ws).*1 = ws.*1.
Proof. intros Hi. by apply (fmap_insert_same fst ws i (key, w)). Qed.

Lemma delete_worker_keys i key w (ws : list (string * worker)) :
  ws !! i = Some (key, w) → NoDup ws.*1 →
  NoDup (delete i ws).*1 ∧ ∀ k, k ∈ (delete i ws).*1 ↔ k ∈ ws.*1 ∧ k ≠ key.
Proof.
  intros Hi Hnd. rewrite <- (take_drop_middle ws i _ Hi) in Hnd |- *.
  set (l := take i ws) in *. set (r := drop (S i) ws) in *.
  assert (Hl : length l = i).
  { unfold l. apply length_take_le. apply lookup_lt_Some in Hi. lia. }
  rewrite <- Hl, delete_middle. rewrite !fmap_app in *. simpl in *.
  apply NoDup_app in Hnd as (Hn1&Hn2&Hn3). apply NoDup_cons in Hn3 as [Hn3 Hn4].
  split.
  - apply NoDup_app. split_and!; [done| |done]. intros k Hk Hk'.
    apply (Hn2 k Hk). by right.
  - intros k. rewrite !elem_of_app, elem_of_cons. split; [|naive_solver].
    intros [Hk|Hk]; (split; [naive_solver|]); intros ->; [|done].
    apply (Hn2 key Hk). by left.
Qed.

Lemma workers_inv_set i key w w' s slots acc c :
  pj_workers s !! i = Some (key, w) → dom slots = dom (pj_slots s) →
  pj_cancelled s = c → workers_inv s →
  workers_inv (mkProjector slots (set_worker i key (Some w') (pj_workers s)) c acc).
Proof.
  intros Hi Hd <- (H1&H2&H3). unfold workers_inv, worker_keys in *. cbn [pj_workers pj_slots pj_cancelled].
  rewrite (set_worker_keys _ _ _ _ _ Hi). split_and!; [done|..].
  - intros k Hk. apply elem_of_dom. rewrite Hd. apply elem_of_dom. auto.
  - intros Hc k Hk. apply H3; [done|]. apply elem_of_dom. rewrite <- Hd. by apply elem_of_dom.
Qed.

Lemma worker_key i key w s :
  pj_workers s !! i = Some (key, w) → key ∈ worker_keys s.
Proof.
  intros Hi. unfold worker_keys. apply list_elem_of_fmap. exists (key, w).
  split; [done|]. by eapply list_elem_of_lookup_2.
Qed.

Lemma workers_inv_submit obs s : workers_inv s → workers_inv (submit obs s).
Proof.
  intros (H1&H2&H3). unfold submit, submit_slots, workers_inv, worker_keys in *.
  destruct (pj_slots s !! obs_controller_id obs) as [slot|] eqn:E; cbn [pj_workers pj_slots pj_cancelled].
  - split_and!; [done|..].
    + intros k Hk. destruct (decide (k = obs_controller_id obs)) as [->|]; simplify_map_eq; eauto.
    + intros Hc k Hk. apply H3; [done|].
      destruct (decide (k = obs_controller_id obs)) as [->|]; simplify_map_eq; eauto.
  - rewrite fmap_app. split_and!.
    + apply NoDup_app. split_and!; [done| |apply NoDup_singleton].
      intros k Hk Hk'. apply list_elem_of_singleton in Hk'. simpl in Hk'. subst k.
      destruct (H2 _ Hk). congruence.
    + intros k [Hk|Hk]%elem_of_app.
      2: { apply list_elem_of_singleton in Hk. simpl in Hk. subst k. rewrite lookup_insert_eq. eauto. }
      destruct (decide (k = obs_controller_id obs)) as [->|]; simplify_map_eq; eauto.
    + intros Hc k Hk. apply elem_of_app.
      destruct (decide (k = obs_controller_id obs)) as [->|]; [right; by left|left].
      simplify_map_eq. auto.
Qed.

Lemma workers_inv_step s s' : workers_inv s → projector_step s s' → workers_inv s'.
Proof.
  intros Hw Hst. destruct Hst as [s|i key f s Hi|i key obs g f ok s r Hi Hr|i key d f s Hi
    |i key w s Hc Hi Hnf].
  - destruct Hw as (H1&H2&_). split_and!; [exact H1|exact H2|done].
  - unfold worker_fetch. pose proof Hw as (_&H2&_).
    destruct (H2 key (worker_key _ _ _ _ Hi)) as [slot Hs]. rewrite Hs. simpl.
    by eapply workers_inv_set.
  - subst r. unfold worker_result. destruct (decision ok); [|by eapply workers_inv_set].
    destruct (match pj_slots s !! key with Some _ => _ | None => _ end);
      cbn [fst snd]; [|by eapply workers_inv_set].
    destruct Hw as (H1&H2&H3). unfold workers_inv, worker_keys in *. cbn [pj_workers pj_slots pj_cancelled].
    destruct (delete_worker_keys _ _ _ _ Hi H1) as [Hnd Hiff]. split_and!; [done|..].
    + intros k [Hk Hne]%Hiff. rewrite lookup_delete_ne by done. auto.
    + intros Hc k. destruct (decide (k = key)) as [->|].
      { rewrite lookup_delete_eq. by intros [? ?]. }
      rewrite lookup_delete_ne by done. intros Hk. apply Hiff. auto.
  - by eapply workers_inv_set.
  - destruct Hw as (H1&H2&H3). unfold workers_inv, worker_keys in *. cbn [pj_workers pj_slots pj_cancelled].
    destruct (delete_worker_keys _ _ _ _ Hi H1) as [Hnd Hiff]. split_and!; [done| |done].
    intros k [Hk _]%Hiff. auto.
Qed.

Lemma workers_inv_run n last s : projector_run n last s → workers_inv s.
Proof.
  induction 1; [|by apply workers_inv_submit|by eapply workers_inv_step].
  split_and!; [constructor|by intros k ?%elem_of_nil|].
  intros _ k [? Hk]. simpl in Hk. by rewrite lookup_empty in Hk.
Qed.

(** At every moment each controller has at most one projection worker, a
    worker only exists while its slot does, and until the projector is stopped
    every slot has its worker: submissions neither pile up tasks nor leave an
    observation unattended. *)
Theorem one_worker_per_controller n last s :
  projector_run n last s →
  NoDup (pj_workers s).*1
  ∧ (∀ k, k ∈ (pj_workers s).*1 → is_Some (pj_slots s !! k))
  ∧ (pj_cancelled s = false → ∀ k, is_Some (pj_slots s !! k) → k ∈ (pj_workers s).*1).
Proof. apply workers_inv_run. Qed.

(** ** No observation is lost *)

(** The newest decision of the directory about a controller. *)
Definition newest (k : string) (l : list (ControllerRuntimeObservation * bool)) :
    option (ControllerRuntimeObservation * bool) :=
  head (base.filter (λ a, obs_controller_id a.1 = k) l).

Lemma newest_cons k a l :
  newest k (a :: l) = if decide (obs_controller_id a.1 = k) then Some a else newest k l.
Proof. unfold newest. rewrite filter_cons. by case_decide. Qed.

Definition slot_ok (n : Z) (last : gmap string ControllerRuntimeObservation) (k : string)
    (slot : RuntimeProjectionSlot) : Prop :=
  obs_controller_id (slot_observation slot) = k
  ∧ (0 <= slot_generation slot <= n)%Z
  ∧ ∃ obs, last !! k = Some obs ∧ covers (slot_observation slot) obs.

(** A call in flight carries what its slot held at the generation it read. *)
Definition call_ok (slots : gmap string RuntimeProjectionSlot) (kw : string * worker) : Prop :=
  match kw.2 with
  | WCall obs g _ =>
      obs_controller_id obs = kw.1
      ∧ ∀ slot, slots !! kw.1 = Some slot →
          (g <= slot_generation slot)%Z
          ∧ (slot_generation slot = g → slot_observation slot = obs)
  | _ => True
  end.

Definition data_inv (n : Z) (last : gmap string ControllerRuntimeObservation)
    (s : projector) : Prop :=
  (0 <= n)%Z
  ∧ map_Forall (slot_ok n last) (pj_slots s)
  ∧ (∀ k obs, last !! k = Some obs → pj_slots s !! k = None →
       ∃ a persisted, newest k (pj_decided s) = Some (a, persisted) ∧ covers a obs)
  ∧ Forall (call_ok (pj_slots s)) (pj_workers s).

Lemma data_inv_submit n last obs s :
  (n + 1 < 2 ^ 64)%Z → workers_inv s → data_inv n last s →
  data_inv (n + 1) (<[obs_controller_id obs := obs]> last) (submit obs s).
Proof.
  intros Hn (_&Hws&_) (H0&H1&H2&H3). unfold submit, submit_slots.
  set (key := obs_controller_id obs).
  assert (Hmono : ∀ k slot, k ≠ key → slot_ok n last k slot → slot_ok (n + 1) (<[key:=obs]> last) k slot).
  { intros k slot Hk (?&?&o&?&?). split_and!; [done|lia|lia|]. exists o. by rewrite lookup_insert_ne. }
  destruct (pj_slots s !! key) as [slot|] eqn:E; simpl; split_and!; simpl; try lia.
  - intros k slot' Hk. destruct (decide (k = key)) as [->|Hne].
    + rewrite lookup_insert_eq in Hk. injection Hk as <-. destruct (H1 key slot E) as (Hid&Hg&_).
      split_and!; [by apply update_slot_id|..|].
      1,2: simpl; unfold u64_wrapping_add; rewrite Z.mod_small; lia.
      exists obs. rewrite lookup_insert_eq. split; [done|by apply update_slot_covers].
    + rewrite lookup_insert_ne in Hk by done. apply Hmono; [done|by apply H1].
  - intros k o Hl Hs. destruct (decide (k = key)) as [->|Hne]; [by rewrite lookup_insert_eq in Hs|].
    rewrite lookup_insert_ne in Hl by done. rewrite lookup_insert_ne in Hs by done. by apply H2.
  - eapply Forall_impl; [exact H3|]. intros [k w] Hw. unfold call_ok in *. simpl in *.
    destruct w as [|o g f|]; try done. destruct Hw as [Hid Hw]. split; [done|].
    intros slot' Hk. destruct (decide (k = key)) as [->|Hne].
    + rewrite lookup_insert_eq in Hk. injection Hk as <-. destruct (Hw slot E) as [Hle _].
      destruct (H1 key slot E) as (_&Hg&_). simpl. unfold u64_wrapping_add.
      rewrite Z.mod_small by lia. split; [lia|]. intros. lia.
    + rewrite lookup_insert_ne in Hk by done. by apply Hw.
  - intros k slot' Hk. destruct (decide (k = key)) as [->|Hne].
    + rewrite lookup_insert_eq in Hk. injection Hk as <-. split_and!; simpl; [done|lia|lia|].
      exists obs. rewrite lookup_insert_eq. auto with center.
    + rewrite lookup_insert_ne in Hk by done. apply Hmono; [done|by apply H1].
  - intros k o Hl Hs. destruct (decide (k = key)) as [->|Hne]; [by rewrite lookup_insert_eq in Hs|].
    rewrite lookup_insert_ne in Hl by done. rewrite lookup_insert_ne in Hs by done. by apply H2.
  - apply Forall_app. split; [|by constructor].
    apply Forall_forall. intros [k w] Hin. pose proof H3 as Hf. rewrite Forall_forall in Hf.
    specialize (Hf _ Hin). unfold call_ok in *. simpl in *. destruct w as [|o g f|]; try done.
    destruct Hf as [Hid Hf]. split; [done|]. intros slot Hk.
    assert (k ≠ key).
    { intros ->. destruct (Hws key) as [? ?]; [|congruence].
      unfold worker_keys. apply list_elem_of_fmap. by exists (key, WCall o g f). }
    rewrite lookup_insert_ne in Hk by done. by apply Hf.
Qed.

Lemma Forall_set_worker (P : string * worker → Prop) i key w ws :
  Forall P ws → (∀ w', w = Some w' → P (key, w')) → Forall P (set_worker i key w ws).
Proof.
  intros Hf Hw. destruct w as [w|]; simpl.
  - apply Forall_insert; auto.
  - by apply Forall_delete.
Qed.

Lemma data_inv_step n last s s' :
  workers_inv s → data_inv n last s → projector_step s s' → data_inv n last s'.
Proof.
  intros Hw (H0&H1&H2&H3) Hst.
  destruct Hst as [s|i key f s Hi|i key obs g f ok s r Hi Hr|i key d f s Hi
    |i key w s Hc Hi Hnf].
  - split_and!; [exact H0|exact H1|exact H2|exact H3].
  - split_and!; [done..|]. apply Forall_set_worker; [done|]. intros w' Hw'.
    unfold worker_fetch in Hw'. simpl in *.
    destruct (pj_slots s !! key) as [slot|] eqn:E; simplify_eq/=.
    destruct (H1 key slot E) as (Hid&_). split; [done|]. simpl. intros slot' Hs'.
    rewrite E in Hs'. simplify_eq. done.
  - pose proof (Forall_lookup_1 _ _ _ _ H3 Hi) as [Hid Hcall]. simpl in Hid, Hcall.
    subst r. unfold worker_result. destruct (decision ok) as [persisted|].
    2: { split_and!; [done..|]. apply Forall_set_worker; [done|]. by intros ? [= <-]. }
    destruct (match pj_slots s !! key with Some _ => _ | None => _ end) eqn:E; simpl.
    + destruct (pj_slots s !! key) as [slot|] eqn:Es; [|done]. apply Z.eqb_eq in E.
      destruct (Hcall slot eq_refl) as [_ Hobs]. specialize (Hobs E).
      destruct Hw as (Hnd&_&_). split_and!; simpl; [done|by apply map_Forall_delete|..].
      * intros k o Hl Hs. rewrite newest_cons. cbn [fst]. rewrite Hid. case_decide as Hk; [subst k|].
        -- destruct (H1 key slot Es) as (_&_&o'&Ho'&Hcov). exists obs, persisted. by simplify_eq.
        -- apply H2; [done|]. by rewrite lookup_delete_ne in Hs.
      * apply Forall_delete. eapply Forall_impl; [exact H3|]. intros [k w].
        unfold call_ok. simpl. destruct w as [|o' g' f'|]; try done.
        intros [Hid' Hc']. split; [done|]. intros slot' Hs'.
        apply lookup_delete_Some in Hs' as [_ Hs']. by apply Hc'.
    + split_and!; simpl; [done..| |by apply Forall_insert].
      intros k o Hl Hs. rewrite newest_cons. cbn [fst]. rewrite Hid. case_decide as Hk; [subst k|by apply H2].
      destruct Hw as (_&Hws&_). destruct (Hws key (worker_key _ _ _ _ Hi)). congruence.
  - split_and!; [done..|]. apply Forall_set_worker; [done|]. by intros ? [= <-].
  - split_and!; [done..|]. by apply Forall_set_worker.
Qed.

Lemma data_inv_run n last s : projector_run n last s → (n < 2 ^ 64)%Z → data_inv n last s.
Proof.
  induction 1 as [|n last s obs Hr IH|n last s s' Hr IH Hst]; intros Hn.
  - split_and!; [done|apply map_Forall_empty| |constructor].
    intros k obs Hk. by rewrite lookup_empty in Hk.
  - apply data_inv_submit; [done|by eapply workers_inv_run|apply IH; lia].
  - eapply data_inv_step; [by eapply workers_inv_run|auto|done].
Qed.

(** C35.  No submitted observation is lost before the directory has decided about it.
    For every controller, the last observation submitted for it is covered (same
    session and fence, at least as recent, every reported field kept) by its slot,
    where it waits for a worker, or, when it has no slot, by the observation that the
    directory decided about last for that controller: which it persisted, or declined
    ([Ok(false)]); a call that failed or timed out empties no slot.  The bound is the
    width of the generation counter. *)
Theorem no_observation_lost n last s k obs :
  projector_run n last s → (n < 2 ^ 64)%Z → last !! k = Some obs →
  match pj_slots s !! k with
  | Some slot => covers (slot_observation slot) obs
  | None => ∃ a persisted, newest k (pj_decided s) = Some (a, persisted) ∧ covers a obs
  end.
Proof.
  intros Hr Hn Hl. destruct (data_inv_run _ _ _ Hr Hn) as (_&H1&H2&_).
  destruct (pj_slots s !! k) as [slot|] eqn:E; [|by apply H2].
  destruct (H1 k slot E) as (_&_&o&?&?). by simplify_eq.
Qed.

(** ** Delivery *)

(** From the head of its loop, a worker needs a read and one call that persists it to
    empty its slot. *)
Lemma worker_delivers i key f slot s :
  pj_workers s !! i = Some (key, WFetch f) → pj_slots s !! key = Some slot →
  obs_controller_id (slot_observation slot) = key →
  ∃ s', rtc projector_step s s' ∧ pj_slots s' !! key = None
        ∧ newest key (pj_decided s') = Some (slot_observation slot, true).
Proof.
  intros Hi Hs Hid.
  set (w := WCall (slot_observation slot) (slot_generation slot) f).
  set (s1 := mkProjector (pj_slots s) (set_worker i key (Some w) (pj_workers s))
               (pj_cancelled s) (pj_decided s)).
  assert (Hst1 : projector_step s s1).
  { pose proof (ps_fetch i key f s Hi) as Hst. unfold worker_fetch in Hst. by rewrite Hs in Hst. }
  assert (Hi1 : pj_workers s1 !! i = Some (key, w)).
  { simpl. apply list_lookup_insert_eq. by eapply lookup_lt_Some. }
  pose proof (ps_result i key _ _ _ (Some (Ok true)) s1 _ Hi1 eq_refl) as Hst2.
  unfold worker_result in Hst2. simpl in Hst2. rewrite Hs, Z.eqb_refl in Hst2.
  eexists. split; [by eapply rtc_l; [exact Hst1|apply rtc_once; exact Hst2]|]. simpl.
  by rewrite lookup_delete_eq, newest_cons, decide_True.
Qed.

Lemma worker_delivers_next i key f slot s s1 :
  projector_step s s1 →
  pj_workers s1 !! i = Some (key, WFetch f) → pj_slots s1 !! key = Some slot →
  obs_controller_id (slot_observation slot) = key →
  ∃ s', rtc projector_step s s' ∧ pj_slots s' !! key = None
        ∧ newest key (pj_decided s') = Some (slot_observation slot, true).
Proof.
  intros Hst Hi Hs Hid. destruct (worker_delivers i key f slot s1 Hi Hs Hid) as (s'&Hrtc&Hrest).
  exists s'. split; [by eapply rtc_l|exact Hrest].
Qed.

Lemma set_worker_at i key w w' ws :
  ws !! i = Some (key, w) → set_worker i key (Some w') ws !! i = Some (key, w').
Proof. intros Hi. apply list_lookup_insert_eq. by eapply lookup_lt_Some. Qed.

(** Delivery: in every reachable state of a projector that has not been
    stopped, if the directory persists what it is given, the worker of a controller
    with a slot delivers what the slot holds and the slot empties, whatever the
    worker was doing (reading, awaiting a call, or backing off). *)
Theorem slot_can_be_delivered n last s k slot :
  projector_run n last s → (n < 2 ^ 64)%Z →
  pj_cancelled s = false → pj_slots s !! k = Some slot →
  ∃ s', rtc projector_step s s' ∧ pj_slots s' !! k = None
        ∧ newest k (pj_decided s') = Some (slot_observation slot, true).
Proof.
  intros Hr Hn Hc Hs. pose proof (workers_inv_run _ _ _ Hr) as (_&_&Hw).
  specialize (Hw Hc k (ex_intro _ _ Hs)). unfold worker_keys in Hw.
  apply list_elem_of_fmap in Hw as ([k' w]&Hk&[i Hi]%list_elem_of_lookup_1).
  simpl in Hk. subst k'. destruct (data_inv_run _ _ _ Hr Hn) as (_&H1&_&H3).
  destruct (H1 k slot Hs) as (Hid&_). destruct w as [f|obs g f|d f].
  - apply (worker_delivers i k f slot s Hi Hs Hid).
  - pose proof (Forall_lookup_1 _ _ _ _ H3 Hi) as [_ Hcall]. simpl in Hcall.
    pose proof (ps_result i k _ _ _ (Some (Ok true)) s _ Hi eq_refl) as Hst. unfold worker_result in Hst.
    rewrite Hs in Hst. destruct (Z.eqb_spec (slot_generation slot) g) as [Hg|Hg]; simpl in Hst.
    + eexists. split; [by apply rtc_once|]. simpl. rewrite lookup_delete_eq, newest_cons.
      destruct (Hcall slot Hs) as [_ <-]; [|done]. by rewrite decide_True.
    + apply (worker_delivers_next i k 0 slot s _ Hst); [|done..]. by eapply set_worker_at.
  - pose proof (ps_wake i k d f s Hi) as Hst.
    apply (worker_delivers_next i k f slot s _ Hst); [|done..]. by eapply set_worker_at.
Qed.

(** The back-off of a worker stays between a quarter of a second and 8.1 s. *)
Lemma retry_delay_bounds key failures :
  (1 <= failures)%Z → (250 <= retry_delay_ms key failures <= 8096)%Z.
Proof.
  intros Hf. unfold retry_delay_ms, u32_saturating_sub, u64_saturating_mul, U64_MAX.
  pose proof (Z.mod_pos_bound (byte_sum key) 97 ltac:(lia)).
  set (e := Z.min (Z.max (failures - 1) 0) 5).
  assert (He : (0 <= e <= 5)%Z) by lia. rewrite Z.shiftl_1_l.
  assert (1 <= 2 ^ e <= 32)%Z.
  { split; [change 1%Z with (2 ^ 0)%Z; apply Z.pow_le_mono_r; lia|].
    change 32%Z with (2 ^ 5)%Z. apply Z.pow_le_mono_r; lia. }
  lia.
Qed.

(** ** The observation clock ([next_observed_at_ms])

    [LAST] is an atomic shared by all sessions.  A relaxed load, and the value
    reported by a failed weak exchange, may be any value; an exchange only
    succeeds on the current one. *)

Inductive clock_call : Type → Type :=
| Load : clock_call Z
| CompareExchangeWeak (current new : Z) : clock_call (result Z Z).

Definition clock_port (X : Type) (e : clock_call X) : Z → X → Z → Prop :=
  match e in clock_call X return Z → X → Z → Prop with
  | Load => λ LAST x LAST', LAST' = LAST ∧ (0 <= x)%Z
  | CompareExchangeWeak current new => λ LAST x LAST',
      (x = Ok current ∧ LAST = current ∧ LAST' = new)
      ∨ (∃ actual, x = Err actual ∧ LAST' = LAST ∧ (0 <= actual)%Z)
  end.

(** The loop, cut after [fuel] exchanges; [None] means it is still running. *)
Fixpoint observe_loop (fuel : nat) (wall previous : Z) : prog clock_call (option Z) :=
  match fuel with
  | O => Ret None
  | S fuel =>
      let next := Z.max wall (u64_saturating_add previous 1) in
      r <~ CompareExchangeWeak previous next ;;
      match r with
      | Ok _ => Ret (Some (Z.min next I64_MAX))
      | Err actual => observe_loop fuel wall actual
      end
  end.

Definition next_observed_at_ms (fuel : nat) (wall : Z) : prog clock_call (option Z) :=
  previous <~ Load ;; observe_loop fuel wall previous.

(** [LAST] only grows, and stays below [i64::MAX] as long as wall clocks and
    call counts do. *)
Definition clock_rely (a b : Z) : Prop := (a <= b < I64_MAX)%Z.

Lemma observe_loop_safe fuel wall previous s0 s :
  (0 <= wall < I64_MAX)%Z → (0 <= previous)%Z → (s0 <= s)%Z →
  safe clock_port (λ a b, (a <= b)%Z) clock_rely
    (λ r _, ∀ v, r = Some v → (s0 < v ∧ wall <= v)%Z) (observe_loop fuel wall previous) s.
Proof.
  intros Hw. revert previous s. induction fuel as [|fuel IH]; intros previous s Hp Hs.
  { by intros v. }
  intros s1 x s2 [Hr1 Hr2] Hport. unfold u64_saturating_add, U64_MAX in *.
  unfold I64_MAX in *. simpl in Hport.
  destruct Hport as [(->&->&->)|(actual&->&->&Ha)]; split; try lia.
  - intros v [= <-]. lia.
  - apply IH; lia.
Qed.

(** Observation stamps increase: whatever other sessions do to the shared
    clock between any two of its steps, a call that returns answers a value
    strictly above everything stamped before the call began, and not below its
    own wall clock; and no step of it moves the clock back. *)
Theorem observed_at_increases fuel wall s0 :
  (0 <= wall < I64_MAX)%Z →
  safe clock_port (λ a b, (a <= b)%Z) clock_rely
    (λ r _, ∀ v, r = Some v → (s0 < v ∧ wall <= v)%Z) (next_observed_at_ms fuel wall) s0.
Proof.
  intros Hw s1 x s2 [Hr _] Hport. simpl in Hport. destruct Hport as [-> Hx].
  split; [lia|]. by apply observe_loop_safe.
Qed.

(** Without contention the first exchange succeeds: a call returns. *)
Definition clock_handler (X : Type) (e : clock_call X) : Z → X * Z :=
  match e in clock_call X return Z → X * Z with
  | Load => λ LAST, (LAST, LAST)
  | CompareExchangeWeak current new => λ LAST,
      if (LAST =? current)%Z then (Ok current, new) else (Err LAST, LAST)
  end.

Lemma next_observed_at_alone wall s :
  run clock_handler (next_observed_at_ms 1 wall) s
  = (Some (Z.min (Z.max wall (u64_saturating_add s 1)) I64_MAX),
     Z.max wall (u64_saturating_add s 1)).
Proof. simpl. by rewrite Z.eqb_refl. Qed.

(** ** Witnesses *)

Definition demo_obs (at_ms : Z) (version : option Z) (count : option Z) :
    ControllerRuntimeObservation := {|
  obs_controller_id := "c1/edge"; obs_session_id := "s1"; obs_ownership_fence := None;
  obs_sync_version := version; obs_watch_server_id := None; obs_resource_count := count;
  obs_resource_counts_by_kind := None; obs_stats_updated_unix_ms := None;
  obs_watch_updated_unix_ms := None; obs_observed_at_unix_ms := at_ms |}.

(** Two submissions, the second while the call of the first is in flight. *)
Definition demo_projector : projector :=
  submit (demo_obs 11 None (Some 4%Z))
    (mkProjector {["c1/edge" := mkSlot (demo_obs 10 (Some 7%Z) None) 0]}
       [("c1/edge", WCall (demo_obs 10 (Some 7%Z) None) 0 0)] false []).

Lemma demo_projector_run :
  projector_run 2 {["c1/edge" := demo_obs 11 None (Some 4%Z)]} demo_projector.
Proof.
  replace {["c1/edge" := demo_obs 11 None (Some 4%Z)]}
    with (<["c1/edge" := demo_obs 11 None (Some 4%Z)]>
            (<["c1/edge" := demo_obs 10 (Some 7%Z) None]> (∅ : gmap string _)))
    by (by rewrite insert_insert_eq).
  apply (run_submit 1 _ _ (demo_obs 11 None (Some 4%Z))).
  eapply (run_step _ _ (submit (demo_obs 10 (Some 7%Z) None) projector_new)).
  - apply (run_submit 0 _ _ (demo_obs 10 (Some 7%Z) None)). constructor.
  - apply (ps_fetch 0 "c1/edge" 0). reflexivity.
Qed.

Lemma one_worker_per_controller_witness : NoDup (pj_workers demo_projector).*1.
Proof. exact (proj1 (one_worker_per_controller _ _ _ demo_projector_run)). Defined.

(** The first submission alone, declined by the directory. *)
Definition demo_calling : projector :=
  mkProjector {["c1/edge" := mkSlot (demo_obs 10 (Some 7%Z) None) 0]}
    [("c1/edge", WCall (demo_obs 10 (Some 7%Z) None) 0 0)] false [].
Definition demo_declined : projector :=
  mkProjector (delete "c1/edge" (pj_slots demo_calling)) [] false [(demo_obs 10 (Some 7%Z) None, false)].
Lemma demo_declined_run : projector_run 1 {["c1/edge" := demo_obs 10 (Some 7%Z) None]} demo_declined.
Proof.
  eapply (run_step _ _ demo_calling).
  - eapply (run_step _ _ (submit (demo_obs 10 (Some 7%Z) None) projector_new)).
    + apply (run_submit 0 _ _ (demo_obs 10 (Some 7%Z) None)). constructor.
    + apply (ps_fetch 0 "c1/edge" 0). reflexivity.
  - exact (ps_result 0 "c1/edge" _ 0 0 (Some (Ok false)) demo_calling _ eq_refl eq_refl).
Qed.

Lemma no_observation_lost_witness :
  (∃ slot, pj_slots demo_projector !! "c1/edge" = Some slot
           ∧ covers (slot_observation slot) (demo_obs 11 None (Some 4%Z))) ∧
  ∃ a persisted, newest "c1/edge" (pj_decided demo_declined) = Some (a, persisted)
                 ∧ covers a (demo_obs 10 (Some 7%Z) None).
Proof.
  split.
  - eexists. split; [vm_compute; reflexivity|].
    refine (no_observation_lost _ _ _ "c1/edge" _ demo_projector_run _ _); [lia|reflexivity].
  - refine (no_observation_lost _ _ _ "c1/edge" _ demo_declined_run _ _); [lia|reflexivity].
Defined.

Lemma slot_can_be_delivered_witness :
  ∃ s', rtc projector_step demo_projector s' ∧ pj_slots s' !! "c1/edge" = None
        ∧ newest "c1/edge" (pj_decided s') = Some (demo_obs 11 (Some 7%Z) (Some 4%Z), true).
Proof.
  apply (slot_can_be_delivered _ _ _ "c1/edge" (mkSlot (demo_obs 11 (Some 7%Z) (Some 4%Z)) 1)
           demo_projector_run); [lia|reflexivity|vm_compute; reflexivity].
Defined.

Lemma observed_at_increases_witness :
  safe clock_port (λ a b, (a <= b)%Z) clock_rely
    (λ r _, ∀ v, r = Some v → (50 < v ∧ 40 <= v)%Z) (next_observed_at_ms 3 40) 50%Z.
Proof. apply observed_at_increases. unfold I64_MAX. lia. Defined.
