(* ===== verification/Ownership.v ===== *)
(** * Ownership: the background tasks of a controller session

    [crates/center-runtime/src/federation/server.rs]: [maintain_ownership]
    (renewal and fenced release of the controller's Lease),
    [project_offline_with_retry] and [OfflineReconciler] (the durable offline
    projection), and the federation audit record.  The tasks are request/
    response programs; loops that may run for ever are cut by a fuel argument
    and return [None] when it runs out. *)

From S2P Require Import Prelude Core Effects.

(** Durations and instants are in nanoseconds. *)
Definition from_millis (ms : Z) : Z := ms * 1000000.
Definition COORDINATION_OPERATION_TIMEOUT : Z := from_millis 3000.

(** ** Maintaining ownership *)

(** The awaits and shared cells of the task.  [Renew] and [Release] answer
    [None] when their timeout elapses; [SleepOrCancelled] answers whether the
    session's token fired first. *)
Inductive own_call : Type → Type :=
| InstantNow : own_call Z
| SleepOrCancelled (duration : Z) : own_call bool
| Renew (l : Leadership) (timeout : Z) : own_call (option (CoreResult RenewalOutcome))
| Release (l : Leadership) (timeout : Z) : own_call (option (CoreResult ReleaseOutcome))
| CancelOwnershipLost : own_call ()
| StoreInvalid : own_call ()
| CancelSession : own_call ().

Definition release_ownership {A} (leadership : Leadership) (k : prog own_call A) :
    prog own_call A :=
  _ <~ Release leadership COORDINATION_OPERATION_TIMEOUT ;; k.

(** [ownership_lost.cancel(); ownership_valid.store(false); session_cancel.cancel()]. *)
Definition lose {A} (k : prog own_call A) : prog own_call A :=
  _ <~ CancelOwnershipLost ;; _ <~ StoreInvalid ;; _ <~ CancelSession ;; k.

Section Maintain.
(** [Instant::checked_add]; its range depends on the platform. *)
Context (instant_checked_add : Z → Z → option Z).

(** The loop; [Some l] is a [break] with [l] the current leadership. *)
Fixpoint maintain_loop (fuel : nat) (leadership : Leadership) (valid_for deadline : Z) :
    prog own_call (option Leadership) :=
  match fuel with
  | O => Ret None
  | S fuel =>
      if (valid_for =? 0)%Z then lose (Ret (Some leadership))
      else
      let renew_after := Z.max (valid_for / 3) (from_millis 100) in
      cancelled <~ SleepOrCancelled renew_after ;;
      if cancelled : bool then Ret (Some leadership)
      else
      now <~ InstantNow ;;
      let remaining := Z.max 0 (deadline - now) in
      if (remaining =? 0)%Z then lose (Ret (Some leadership))
      else
      let renew_timeout := Z.min COORDINATION_OPERATION_TIMEOUT remaining in
      let continue leadership valid_for deadline :=
        (now <~ InstantNow ;;
         if (deadline <=? now)%Z then lose (Ret (Some leadership))
         else maintain_loop fuel leadership valid_for deadline) in
      r <~ Renew leadership renew_timeout ;;
      match r with
      | Some (Ok (Renewed renewed)) =>
          let valid_for := from_millis (ld_valid_for_millis renewed) in
          now <~ InstantNow ;;
          match instant_checked_add now valid_for with
          | None => lose (Ret (Some leadership))
          | Some renewed_deadline => continue renewed valid_for renewed_deadline
          end
      | Some (Ok RenewalLost) => lose (Ret (Some leadership))
      | Some (Err _) | None => continue leadership valid_for deadline
      end
  end.

Definition maintain_ownership (fuel : nat) (leadership : Leadership) :
    prog own_call (option ()) :=
  let valid_for := from_millis (ld_valid_for_millis leadership) in
  now <~ InstantNow ;;
  match instant_checked_add now valid_for with
  | None => lose (release_ownership leadership (Ret (Some ())))
  | Some deadline =>
      pbind (maintain_loop fuel leadership valid_for deadline) (λ r,
        match r with
        | None => Ret None
        | Some leadership =>
            _ <~ StoreInvalid ;; release_ownership leadership (Ret (Some ()))
        end)
  end.

(** *** What the task shares

    [os_valid] is the flag the dispatch path reads; [os_fenced] records that
    a renewal was answered [Lost], [os_released] the releases issued. *)
Record own_state := mkOwn {
  os_now : Z;
  os_valid : bool;
  os_session_cancelled : bool;
  os_lost : bool;
  os_fenced : bool;
  os_released : list Leadership;
}.

Definition own_port (X : Type) (e : own_call X) : own_state → X → own_state → Prop :=
  match e in own_call X return own_state → X → own_state → Prop with
  | InstantNow => λ s x s', s' = s ∧ x = os_now s
  | SleepOrCancelled _ => λ s x s', s' = s
  | Renew _ _ => λ s x s',
      s' = mkOwn (os_now s) (os_valid s) (os_session_cancelled s) (os_lost s)
             (match x with Some (Ok RenewalLost) => true | _ => os_fenced s end)
             (os_released s)
  | Release l _ => λ s x s',
      s' = mkOwn (os_now s) (os_valid s) (os_session_cancelled s) (os_lost s)
             (os_fenced s) (l :: os_released s)
  | CancelOwnershipLost => λ s x s',
      s' = mkOwn (os_now s) (os_valid s) (os_session_cancelled s) true
             (os_fenced s) (os_released s)
  | StoreInvalid => λ s x s',
      s' = mkOwn (os_now s) false (os_session_cancelled s) (os_lost s)
             (os_fenced s) (os_released s)
  | CancelSession => λ s x s',
      s' = mkOwn (os_now s) (os_valid s) true (os_lost s)
             (os_fenced s) (os_released s)
  end.

(** Others may cancel the session and clear the flag, and time passes. *)
Definition own_rely (s s' : own_state) : Prop :=
  (os_now s <= os_now s')%Z
  ∧ (os_valid s = false → os_valid s' = false)
  ∧ (os_session_cancelled s = true → os_session_cancelled s' = true)
  ∧ os_lost s' = os_lost s ∧ os_fenced s' = os_fenced s
  ∧ os_released s' = os_released s.

(** The task never re-validates, and releases only after the flag is
    cleared, and only once. *)
Definition own_guarantee (s s' : own_state) : Prop :=
  (os_valid s = false → os_valid s' = false)
  ∧ (os_released s' = os_released s
     ∨ os_valid s = false ∧ os_released s = [] ∧ ∃ l, os_released s' = [l]).

(** How the task ends. *)
Definition own_done (r : option ()) (s : own_state) : Prop :=
  r = Some () →
  os_valid s = false ∧ (∃ l, os_released s = [l])
  ∧ (os_fenced s = true → os_lost s = true ∧ os_session_cancelled s = true).

Notation own_safe := (safe own_port own_guarantee own_rely).

(** One port call of a safe program: the environment acts, the port answers,
    and the call keeps the guarantee because it releases nothing. *)
Ltac own_call :=
  unfold lose, release_ownership; apply (safe_vis own_port); intros [? ? ? ? ? ?] ? ? (?&?&?&?&?&?) Hport;
  cbn [own_port os_now os_valid os_session_cancelled os_lost os_fenced os_released] in *;
  try match type of Hport with _ ∧ _ => destruct Hport as [Hport ?] end; subst;
  split; [split; cbn; [by auto|by left]|].

Definition settled (s : own_state) : Prop :=
  os_fenced s = true → os_lost s = true ∧ os_session_cancelled s = true.

Lemma final_release leadership s :
  os_valid s = false → os_released s = [] → settled s →
  own_safe own_done (release_ownership leadership (Ret (Some ()))) s.
Proof.
  intros Hv Hr Hs. destruct s as [n v c l f rel]. simpl in *. subst.
  intros [? ? ? ? ? ?] ? ? (?&?&?&?&?&?) Hport. simpl in *. subst.
  unfold own_guarantee, own_done, settled in *. simpl in *. split.
  - split; [done|]. right. naive_solver.
  - intros _. split_and!; [auto|by eexists|naive_solver].
Qed.

Lemma lose_safe {A} (Q : A → own_state → Prop) (k : prog own_call A) s :
  os_released s = [] →
  (∀ s', os_valid s' = false → os_released s' = [] → settled s' → own_safe Q k s') →
  own_safe Q (lose k) s.
Proof.
  intros Hr Hk. destruct s as [n v c l f rel]. cbn in Hr. subst.
  own_call.
  own_call.
  own_call.
  apply Hk; simpl; [auto|done|]. unfold settled. simpl. naive_solver.
Qed.

Lemma maintain_loop_safe fuel leadership valid_for deadline s :
  os_released s = [] → os_fenced s = false →
  own_safe (λ r s', r ≠ None → os_released s' = [] ∧ settled s')
    (maintain_loop fuel leadership valid_for deadline) s.
Proof.
  revert leadership valid_for deadline s.
  induction fuel as [|fuel IH]; intros leadership valid_for deadline s Hr Hf; [done|].
  assert (Hlose : ∀ l s', os_released s' = [] →
    own_safe (λ r s', r ≠ None → os_released s' = [] ∧ settled s')
      (lose (Ret (Some l : option Leadership))) s').
  { intros l s' Hs'. by apply lose_safe. }
  assert (Hset : ∀ s', os_fenced s' = false → settled s') by (intros ? E E'; congruence).
  cbn [maintain_loop]. destruct (valid_for =? 0)%Z; [by apply Hlose|].
  destruct s as [n v c l f rel]. cbn in Hr, Hf. subst.
  own_call.
  match goal with |- own_safe _ (if ?b then _ else _) _ => destruct b end.
  { intros _. simpl. auto. }
  own_call.
  destruct (_ =? 0)%Z; [by apply Hlose|].
  own_call.
  match goal with |- context [match ?r with Some _ => _ | None => _ end] =>
    destruct r as [[[renewed|]|]|] end.
  - own_call.
    destruct (instant_checked_add _ _); [|by apply Hlose].
    own_call.
    destruct (_ <=? _)%Z; [by apply Hlose|by apply IH].
  - by apply Hlose.
  - own_call.
    destruct (_ <=? _)%Z; [by apply Hlose|by apply IH].
  - own_call.
    destruct (_ <=? _)%Z; [by apply Hlose|by apply IH].
Qed.

(** The dispatch flag is cleared before the Lease is released, on every
    path (cancellation, expiry, a renewal answered [Lost], overflow of the
    deadline), whatever other tasks do meanwhile: every release happens with
    the flag already false, at most one release is issued, the task never
    sets the flag again, and when it ends the flag is false, the Lease was
    released, and a fenced session has been cancelled and marked lost. *)
Theorem ownership_revoked_before_release fuel leadership s :
  os_released s = [] → os_fenced s = false →
  own_safe own_done (maintain_ownership fuel leadership) s.
Proof.
  intros Hr Hf. destruct s as [n v c l f rel]. cbn in Hr, Hf. subst.
  own_call.
  destruct (instant_checked_add _ _).
  - apply (safe_bind own_port). eapply safe_mono; [|by apply maintain_loop_safe].
    intros [l'|] s' Hs'; [|by intros [=]]. destruct (Hs' ltac:(done)) as [Hr' Hset].
    destruct s' as [n' v' c' l'' f' rel']. cbn in Hr'. subst.
    own_call.
    apply final_release; simpl; [done..|]. unfold settled in *. simpl in *. naive_solver.
  - apply lose_safe; [done|]. intros. by apply final_release.
Qed.
End Maintain.

(** ** The durable offline projection *)

(** What a worker must project. *)
Record offline_target := mkTarget {
  ot_controller_id : string;
  ot_session_id : string;
  ot_ownership_fence : option OwnershipFence;
  ot_observed_at_unix_ms : Z;
}.

Definition OFFLINE_PROJECTION_MAX_BACKOFF : Z := 30000.

(** The awaits of the retry loop: [MarkOffline] answers [None] when the
    cancellation fires first, [Some None] when the call times out. *)
Inductive offline_call : Type → Type :=
| MarkOffline (t : offline_target) : offline_call (option (option (CoreResult OfflineOutcome)))
| OfflineSleep (delay_ms : Z) : offline_call bool.

(** [Some true]: projected; [Some false]: cancelled; delays in milliseconds
    ([Duration::saturating_mul] saturates far above the cap). *)
Fixpoint offline_loop (fuel : nat) (t : offline_target) (delay attempt : Z) :
    prog offline_call (option bool) :=
  match fuel with
  | O => Ret None
  | S fuel =>
      result <~ MarkOffline t ;;
      match result with
      | None => Ret (Some false)
      | Some (Some (Ok _)) => Ret (Some true)
      | Some _ =>
          cancelled <~ OfflineSleep delay ;;
          if cancelled : bool then Ret (Some false)
          else offline_loop fuel t (Z.min (delay * 2) OFFLINE_PROJECTION_MAX_BACKOFF)
                 (u64_saturating_add attempt 1)
      end
  end.

Definition project_offline_with_retry (fuel : nat) (t : offline_target) :
    prog offline_call (option bool) :=
  offline_loop fuel t 100 1.

(** A directory that fails [failures] times and then answers [outcome]; the
    state also logs the delays slept, newest first. *)
Definition failing_directory (err : CoreError) (outcome : OfflineOutcome) (X : Type)
    (e : offline_call X) : nat * list Z → X * (nat * list Z) :=
  match e in offline_call X return nat * list Z → X * (nat * list Z) with
  | MarkOffline _ => λ s,
      match s.1 with
      | O => (Some (Some (Ok outcome)), s)
      | S n => (Some (Some (Err err)), (n, s.2))
      end
  | OfflineSleep d => λ s, (false, (s.1, d :: s.2))
  end.

(** The back-off schedule: 100 ms doubling up to 30 s. *)
Definition backoff (i : nat) : Z := Z.min (100 * 2 ^ Z.of_nat i) OFFLINE_PROJECTION_MAX_BACKOFF.

Lemma backoff_S i : Z.min (backoff i * 2) OFFLINE_PROJECTION_MAX_BACKOFF = backoff (S i).
Proof.
  unfold backoff, OFFLINE_PROJECTION_MAX_BACKOFF. rewrite Nat2Z.inj_succ, Z.pow_succ_r by lia.
  lia.
Qed.

Lemma offline_loop_run err outcome failures t i attempt log :
  run (failing_directory err outcome) (offline_loop (S failures) t (backoff i) attempt)
    (failures, log)
  = (Some true, (0, reverse (backoff <$> seq i failures) ++ log)).
Proof.
  revert i attempt log. induction failures as [|n IH]; intros i attempt log; [done|].
  change (run (failing_directory err outcome)
    (offline_loop (S n) t (Z.min (backoff i * 2) OFFLINE_PROJECTION_MAX_BACKOFF)
       (u64_saturating_add attempt 1)) (n, backoff i :: log)
    = (Some true, (0, reverse (backoff <$> seq i (S n)) ++ log))).
  rewrite backoff_S. rewrite IH. simpl. by rewrite reverse_cons, <- app_assoc.
Qed.

(** The offline projection does not give up: if the directory fails any
    number of times and then answers (marked, or no longer current), the task
    completes at that answer, after sleeping 100 ms doubled each time up to
    30 s between the attempts. *)
Theorem offline_projection_retries err outcome failures t :
  run (failing_directory err outcome) (project_offline_with_retry (S failures) t) (failures, [])
  = (Some true, (0, reverse (backoff <$> seq 0 failures))).
Proof.
  unfold project_offline_with_retry. change 100%Z with (backoff 0).
  by rewrite offline_loop_run, app_nil_r.
Qed.

(** ** The reconciler: one worker per controller *)

Record offline_task := mkTask {
  tk_key : string;
  tk_generation : Z;
  tk_token : nat;
  tk_target : offline_target;
}.

(** Tokens are numbered as they are created; [or_tasks] are the spawned tasks
    that have not returned. *)
Record OfflineReconciler := mkReconciler {
  or_workers : gmap string (Z * nat);
  or_next_generation : Z;
  or_cancelled : gset nat;
  or_next_token : nat;
  or_tasks : list offline_task;
}.

Definition reconciler_default : OfflineReconciler := mkReconciler ∅ 1 ∅ 0 [].

Definition cancel_worker (controller_id : string) (s : OfflineReconciler) : OfflineReconciler :=
  match or_workers s !! controller_id with
  | Some (_, cancellation) =>
      mkReconciler (delete controller_id (or_workers s)) (or_next_generation s)
        ({[cancellation]} ∪ or_cancelled s) (or_next_token s) (or_tasks s)
  | None => s
  end.

Definition schedule (t : offline_target) (s : OfflineReconciler) : OfflineReconciler :=
  let generation := or_next_generation s in
  let cancellation := or_next_token s in
  let key := ot_controller_id t in
  mkReconciler (<[key := (generation, cancellation)]> (or_workers s))
    (u64_wrapping_add generation 1)
    (match or_workers s !! key with
     | Some (_, previous) => {[previous]} ∪ or_cancelled s
     | None => or_cancelled s
     end)
    (S cancellation)
    (or_tasks s ++ [mkTask key generation cancellation t]).

(** The end of the [i]-th task: it removes its own entry, if still there. *)
Definition finish (i : nat) (s : OfflineReconciler) : OfflineReconciler :=
  match or_tasks s !! i with
  | None => s
  | Some t =>
      mkReconciler
        (match or_workers s !! tk_key t with
         | Some (current, _) =>
             if (current =? tk_generation t)%Z then delete (tk_key t) (or_workers s)
             else or_workers s
         | None => or_workers s
         end)
        (or_next_generation s) (or_cancelled s) (or_next_token s) (delete i (or_tasks s))
  end.

(** [Drop]: every worker is cancelled. *)
Definition drop_reconciler (s : OfflineReconciler) : OfflineReconciler :=
  mkReconciler ∅ (or_next_generation s)
    (list_to_set ((map_to_list (or_workers s)).*2.*2) ∪ or_cancelled s) (or_next_token s)
    (or_tasks s).

(** Runs, with the number of schedules and the projection each controller
    should end up with ([None] after a cancel). *)
Inductive reconciler_run : Z → gmap string offline_target → OfflineReconciler → Prop :=
| rr_default : reconciler_run 0 ∅ reconciler_default
| rr_schedule n want s t :
    reconciler_run n want s →
    reconciler_run (n + 1) (<[ot_controller_id t := t]> want) (schedule t s)
| rr_cancel n want s id :
    reconciler_run n want s → reconciler_run n (delete id want) (cancel_worker id s)
| rr_finish n want s i : reconciler_run n want s → reconciler_run n want (finish i s).

Definition entry_ok (s : OfflineReconciler) (e : Z * nat) : Prop :=
  e.1 = (1 + Z.of_nat e.2)%Z ∧ e.2 < or_next_token s ∧ e.2 ∉ or_cancelled s.

Definition task_ok (want : gmap string offline_target) (s : OfflineReconciler)
    (t : offline_task) : Prop :=
  tk_generation t = (1 + Z.of_nat (tk_token t))%Z ∧ tk_token t < or_next_token s
  ∧ (tk_token t ∉ or_cancelled s →
     or_workers s !! tk_key t = Some (tk_generation t, tk_token t)
     ∧ want !! tk_key t = Some (tk_target t)).

Definition reconciler_inv (n : Z) (want : gmap string offline_target)
    (s : OfflineReconciler) : Prop :=
  n = Z.of_nat (or_next_token s)
  ∧ or_next_generation s = (1 + Z.of_nat (or_next_token s))%Z
  ∧ map_Forall (λ _ e, entry_ok s e) (or_workers s)
  ∧ Forall (task_ok want s) (or_tasks s)
  ∧ NoDup (tk_token <$> or_tasks s)
  ∧ (∀ tok, tok ∈ or_cancelled s → tok < or_next_token s)
  ∧ (∀ k k' e e', or_workers s !! k = Some e → or_workers s !! k' = Some e' →
       e.2 = e'.2 → k = k').

(** Cancelling the entry of one controller leaves the others as they were. *)
Lemma entry_ok_cancel s s' key k e e' :
  or_workers s !! k = Some e → or_workers s !! key = Some e' → k ≠ key →
  (∀ k k' e e', or_workers s !! k = Some e → or_workers s !! k' = Some e' →
     e.2 = e'.2 → k = k') →
  or_cancelled s' = {[e'.2]} ∪ or_cancelled s → or_next_token s ≤ or_next_token s' →
  entry_ok s e → entry_ok s' e.
Proof.
  intros Hk Hkey Hne Hinj Hc Hn (H1&H2&H3). split_and!; [done|lia|].
  rewrite Hc, elem_of_union, elem_of_singleton. intros [Heq|?]; [|done].
  apply Hne. by eapply Hinj.
Qed.

Lemma entry_ok_same s s' e :
  or_cancelled s' = or_cancelled s → or_next_token s ≤ or_next_token s' →
  entry_ok s e → entry_ok s' e.
Proof. intros Hc Hn (H1&H2&H3). split_and!; [done|lia|by rewrite Hc]. Qed.

Lemma reconciler_inv_schedule n want s t :
  (n + 1 < 2 ^ 64 - 1)%Z → reconciler_inv n want s →
  reconciler_inv (n + 1) (<[ot_controller_id t := t]> want) (schedule t s).
Proof.
  intros Hn (Hc&Hg&He&Ht&Hnd&Hcan&Hinj). remember (ot_controller_id t) as key eqn:Hkey.
  assert (Hsub : or_cancelled s ⊆ or_cancelled (schedule t s)).
  { simpl. rewrite <- Hkey. destruct (or_workers s !! key) as [[]|]; set_solver. }
  assert (Hlt : ∀ tok, tok ∈ or_cancelled (schedule t s) → tok < or_next_token s).
  { simpl. rewrite <- Hkey. intros tok. destruct (or_workers s !! key) as [[g tok']|] eqn:E; [|apply Hcan].
    rewrite elem_of_union, elem_of_singleton. intros [->|?]; [|auto]. by destruct (He _ _ E) as (_&?&_). }
  assert (Hother : ∀ k e, k ≠ key → or_workers s !! k = Some e → entry_ok (schedule t s) e).
  { intros k e Hk Hke. pose proof (He k e Hke) as Hok.
    destruct (or_workers s !! key) as [e'|] eqn:E.
    - eapply (entry_ok_cancel s); [done..| |simpl; lia|done]. simpl. rewrite <- Hkey, E.
      by destruct e'.
    - eapply (entry_ok_same s); [|simpl; lia|done]. simpl. by rewrite <- Hkey, E. }
  split_and!.
  - simpl. lia.
  - simpl. unfold u64_wrapping_add. rewrite Hg, Z.mod_small; lia.
  - simpl. rewrite <- Hkey. intros k e. destruct (decide (k = key)) as [->|].
    + rewrite lookup_insert_eq. intros [= <-]. split_and!; simpl; [lia|lia|].
      intros Hin. specialize (Hlt (or_next_token s)). simpl in Hlt.
      specialize (Hlt Hin). lia.
    + rewrite lookup_insert_ne by done. by apply Hother.
  - simpl. apply Forall_app. split.
    + eapply Forall_impl; [exact Ht|]. intros t' (H1&H2&H3). split_and!; [done|simpl; lia|].
      intros Hnc. destruct H3 as [H3 H4]; [set_solver|]. simpl. rewrite <- Hkey.
      destruct (decide (tk_key t' = key)) as [Hk|]; [|by rewrite !lookup_insert_ne].
      exfalso. apply Hnc. simpl. rewrite <- Hkey, <- Hk, H3. set_solver.
    + constructor; [|constructor]. split_and!; simpl; [lia|lia|]. rewrite <- Hkey.
      intros _. by rewrite !lookup_insert_eq.
  - simpl. rewrite fmap_app. apply NoDup_app. split_and!; [done| |apply NoDup_singleton].
    intros tok [t' [-> Hin]]%list_elem_of_fmap Hin'. apply list_elem_of_singleton in Hin'.
    simpl in Hin'. rewrite Forall_forall in Ht. destruct (Ht _ Hin) as (_&?&_). lia.
  - intros tok Hin. specialize (Hlt tok Hin). simpl. lia.
  - simpl. rewrite <- Hkey. intros k k' e e'.
    destruct (decide (k = key)) as [->|], (decide (k' = key)) as [->|];
      rewrite ?lookup_insert_eq, ?lookup_insert_ne by done; [done|..].
    + intros [= <-] Hk' Heq. destruct (He _ _ Hk') as (_&?&_). simpl in Heq. lia.
    + intros Hk' [= <-] Heq. destruct (He _ _ Hk') as (_&?&_). simpl in Heq. lia.
    + apply Hinj.
Qed.

Lemma reconciler_inv_cancel n want s id :
  reconciler_inv n want s → reconciler_inv n (delete id want) (cancel_worker id s).
Proof.
  intros (Hc&Hg&He&Ht&Hnd&Hcan&Hinj). unfold cancel_worker.
  destruct (or_workers s !! id) as [[g tok]|] eqn:E.
  - split_and!; [done|done|..]; simpl.
    + intros k e [Hne Hk]%lookup_delete_Some. by eapply (entry_ok_cancel s _ id k e (g, tok)); eauto.
    + eapply Forall_impl; [exact Ht|]. intros t (H1&H2&H3). split_and!; [done..|]. simpl.
      intros [Hne Hnc]%not_elem_of_union. destruct (H3 Hnc) as [H4 H5].
      assert (id ≠ tk_key t) by (intros ->; set_solver). by rewrite !lookup_delete_ne.
    + done.
    + intros tok' [->%elem_of_singleton|?]%elem_of_union; [|auto]. by destruct (He _ _ E) as (_&?&_).
    + intros k k' e e' [_ Hk]%lookup_delete_Some [_ Hk']%lookup_delete_Some. by eapply Hinj.
  - split_and!; [done..| |done|done|done]. eapply Forall_impl; [exact Ht|].
    intros t (H1&H2&H3). split_and!; [done..|]. intros Hnc. destruct (H3 Hnc) as [H4 H5].
    rewrite lookup_delete_ne; [done|]. intros ->. congruence.
Qed.

Lemma reconciler_inv_finish n want s i :
  reconciler_inv n want s → reconciler_inv n want (finish i s).
Proof.
  intros (Hc&Hg&He&Ht&Hnd&Hcan&Hinj). unfold finish.
  destruct (or_tasks s !! i) as [t|] eqn:Hi; [|done].
  assert (Hsplit : ∀ t', t' ∈ delete i (or_tasks s) → t' ∈ or_tasks s ∧ tk_token t' ≠ tk_token t).
  { intros t' [j Hj]%list_elem_of_lookup_1. rewrite list_lookup_delete in Hj.
    assert (∃ j', or_tasks s !! j' = Some t' ∧ j' ≠ i) as (j'&Hj'&Hne).
    { case_decide; [exists j|exists (S j)]; split; done || lia. }
    split; [by eapply list_elem_of_lookup_2|]. intros Heq. apply Hne.
    eapply (NoDup_lookup _ _ _ (tk_token t) Hnd); rewrite list_lookup_fmap; [by rewrite Hj', <- Heq|by rewrite Hi]. }
  assert (Hws : ∀ k e, (match or_workers s !! tk_key t with
         | Some (current, _) =>
             if (current =? tk_generation t)%Z then delete (tk_key t) (or_workers s)
             else or_workers s
         | None => or_workers s end) !! k = Some e → or_workers s !! k = Some e).
  { intros k e. destruct (or_workers s !! tk_key t) as [[g tok]|]; [|done].
    destruct (g =? tk_generation t)%Z; [|done]. by intros [_ ?]%lookup_delete_Some. }
  split_and!; [done|done|..]; simpl.
  - intros k e Hk. eapply (entry_ok_same s); [done..|]. apply (He k). by apply Hws.
  - apply Forall_forall. intros t' [Hin Hne]%Hsplit. rewrite Forall_forall in Ht.
    destruct (Ht t' Hin) as (H1&H2&H3). split_and!; [done..|]. simpl. intros Hnc.
    destruct (H3 Hnc) as [H4 H5]. split; [|done].
    destruct (or_workers s !! tk_key t) as [[g tok]|] eqn:E; [|done].
    destruct (Z.eqb_spec g (tk_generation t)) as [->|]; [|done].
    rewrite lookup_delete_ne; [done|]. intros Hk. rewrite Hk in E.
    destruct (Ht t (list_elem_of_lookup_2 _ _ _ Hi)) as (Hgt&_&_). rewrite H4 in E.
    simplify_eq. lia.
  - clear -Hnd Hi. rewrite list_fmap_delete. eapply sublist_NoDup; [exact Hnd|apply sublist_delete].
  - done.
  - intros k k' e e' Hk%Hws Hk'%Hws. by eapply Hinj.
Qed.

Lemma reconciler_inv_run n want s :
  reconciler_run n want s → (n < 2 ^ 64 - 1)%Z → reconciler_inv n want s.
Proof.
  induction 1 as [|n want s t Hr IH|n want s id Hr IH|n want s i Hr IH]; intros Hn.
  - split_and!; try done; by constructor.
  - apply reconciler_inv_schedule; [done|apply IH; lia].
  - apply reconciler_inv_cancel. auto.
  - apply reconciler_inv_finish. auto.
Qed.

(** Reconnect churn does not pile up offline projections: among the
    spawned workers of a controller at most one is not cancelled; that one is
    the registered one and carries the latest scheduled projection; and once a
    controller's projection is cancelled (it re-registered), none of its
    workers runs uncancelled.  The bound is the width of the generation. *)
Theorem one_live_offline_worker n want s t t' :
  reconciler_run n want s → (n < 2 ^ 64 - 1)%Z →
  t ∈ or_tasks s → tk_token t ∉ or_cancelled s →
  want !! tk_key t = Some (tk_target t)
  ∧ or_workers s !! tk_key t = Some (tk_generation t, tk_token t)
  ∧ (t' ∈ or_tasks s → tk_token t' ∉ or_cancelled s → tk_key t' = tk_key t → t' = t).
Proof.
  intros Hr Hn Hin Hnc. destruct (reconciler_inv_run _ _ _ Hr Hn) as (_&_&_&Ht&Hnd&_).
  rewrite Forall_forall in Ht. destruct (Ht t Hin) as (_&_&H3).
  destruct (H3 Hnc) as [Hw Hwant]. split_and!; [done..|]. intros Hin' Hnc' Hkey.
  destruct (Ht t' Hin') as (_&_&H3'). destruct (H3' Hnc') as [Hw' _]. rewrite Hkey, Hw in Hw'.
  apply list_elem_of_lookup_1 in Hin as [i Hi]. apply list_elem_of_lookup_1 in Hin' as [j Hj].
  assert (j = i) as ->; [|congruence].
  apply (NoDup_lookup _ _ _ (tk_token t) Hnd); rewrite list_lookup_fmap.
  - rewrite Hj. simpl. congruence.
  - by rewrite Hi.
Qed.

(** ** The audit record of the federation ([record_federation_audit]) *)

Definition record_federation_audit (has_writer : bool) (now_seconds : Z)
    (controller_id session_id path : string) (status : Z) (detail : option string)
    (log : list AuditEvent) : list AuditEvent :=
  if has_writer then
    {| au_ts := now_seconds; au_actor := controller_id; au_provider := "mtls";
       au_method := "FEDERATION"; au_path := path;
       au_target_controller := Some controller_id; au_status := status;
       au_source_ip := None; au_request_id := Some session_id; au_detail := detail |} :: log
  else log.

(** ** Witnesses *)

Definition demo_leadership : Leadership :=
  {| ld_role := ControllerOwner "c1/edge"; ld_holder := "pod-a"; ld_fencing_token := "t";
     ld_fencing_epoch := 1; ld_valid_for_millis := 15000 |}.

Lemma ownership_revoked_before_release_witness :
  let s := mkOwn 0 true false false false [] in
  safe own_port own_guarantee own_rely own_done
    (maintain_ownership (λ now d, Some (now + d)%Z) 4 demo_leadership) s.
Proof. apply ownership_revoked_before_release; reflexivity. Defined.

Definition demo_target (session : string) : offline_target := mkTarget "c1/edge" session None 5.

Lemma one_live_offline_worker_witness :
  let s := schedule (demo_target "s2") (schedule (demo_target "s1") reconciler_default) in
  or_workers s !! "c1/edge" = Some (2%Z, 1).
Proof.
  intros s.
  assert (Hr : reconciler_run 2 (<["c1/edge" := demo_target "s2"]>
                                   (<["c1/edge" := demo_target "s1"]> ∅)) s).
  { apply (rr_schedule 1 _ _ (demo_target "s2")), (rr_schedule 0 _ _ (demo_target "s1")),
      rr_default. }
  refine (proj1 (proj2 (one_live_offline_worker 2 _ s
    (mkTask "c1/edge" 2 1 (demo_target "s2")) (mkTask "c1/edge" 2 1 (demo_target "s2"))
    Hr _ _ _))).
  - lia.
  - right. left.
  - refine (bool_decide_eq_false_1 _ _). vm_compute. reflexivity.
Defined.
