(* ===== verification/Server.v ===== *)
(** * Server: the federation stream handler

    [sync] of [crates/center-runtime/src/federation/server.rs]: registration of
    a controller stream, the message loop of an accepted session, and the
    disconnect clean-up, composed from the registry, the aggregator, the watch
    caches, the runtime projector and the offline reconciler.  The state those
    components share is one record; every call of a component is one atomic
    step of a program, so other sessions may run between any two calls and
    during every await. *)

From S2P Require Import Prelude Core Effects Registry Json WatchCache MetadataStore Aggregator Spiffe FedWatch Projector Ownership.

(** ** Messages *)

Record HttpProxyRequest := {
  hq_request_id : string;
  hq_method : string;
  hq_path : string;
  hq_headers : gmap string string;
  hq_body : string;
}.

Record HttpProxyResponse := {
  hr_request_id : string;
  hr_status : Z;
  hr_headers : gmap string string;
  hr_body : string;
}.

Inductive CtrlPayload :=
| Register (r : RegisterRequest)
| Pong (timestamp : Z)
| ProxyResponse (r : HttpProxyResponse)
| WatchListResponse (r : FedWatchListResponse)
| WatchEventResponse (r : FedWatchEventResponse)
| StatsReport (per_kind : gmap string Z) (total : Z)
| NoPayload.

Inductive CenterPayload :=
| RegisterAck (session_id : string)
| WatchRequest (r : FedWatchRequest)
| HttpProxy (r : HttpProxyRequest)
| Ping (timestamp : Z).

(** What the first read of the stream yields. *)
Inductive first_message :=
| FirstTimeout
| FirstError (e : string)
| FirstClosed
| FirstMessage (p : CtrlPayload).

Inductive Status :=
| DeadlineExceeded (m : string)
| InternalStatus (m : string)
| CancelledStatus (m : string)
| InvalidArgument (m : string)
| ResourceExhausted (m : string)
| PermissionDenied (m : string)
| Unavailable (m : string)
| Panicked.                          (* an [expect] that fails *)

Inductive FedMetric :=
| PeerIdentityCheck (result : string)
| SessionTakeover
| ConnectionEvent (event : string)
| ConnectionsActive (n : Z)
| MarkOfflineMetric (reason : string)
| ForwardMetric (operation route result : string)
| WatchMetrics (l : list WatchMetric).

(** ** The shared state *)

Record center := mkCenter {
  cx_registry : ControllerRegistry;
  cx_aggregator : ResourceAggregator;
  cx_client : sync_client;
  cx_projector : projector;
  cx_reconciler : OfflineReconciler;
  cx_pending : gmap string nat;                 (* request id to waiting caller *)
  cx_answered : list (nat * HttpProxyResponse);
  cx_sent : list (sender * CenterPayload);      (* newest first *)
  cx_audit : list AuditEvent;
  cx_metrics : list FedMetric;
}.

(** One component replaced. *)
Definition on_registry {X} (f : ControllerRegistry → X * ControllerRegistry) (x : center) :
    X * center :=
  let '(a, r) := f (cx_registry x) in
  (a, mkCenter r (cx_aggregator x) (cx_client x) (cx_projector x) (cx_reconciler x)
        (cx_pending x) (cx_answered x) (cx_sent x) (cx_audit x) (cx_metrics x)).
Definition on_aggregator (f : ResourceAggregator → ResourceAggregator) (x : center) :
    unit * center :=
  (tt, mkCenter (cx_registry x) (f (cx_aggregator x)) (cx_client x) (cx_projector x)
         (cx_reconciler x) (cx_pending x) (cx_answered x) (cx_sent x) (cx_audit x)
         (cx_metrics x)).
Definition on_client {X} (f : sync_client → X * sync_client) (x : center) : X * center :=
  let '(a, w) := f (cx_client x) in
  (a, mkCenter (cx_registry x) (cx_aggregator x) w (cx_projector x) (cx_reconciler x)
        (cx_pending x) (cx_answered x) (cx_sent x) (cx_audit x) (cx_metrics x)).
Definition on_projector (f : projector → projector) (x : center) : unit * center :=
  (tt, mkCenter (cx_registry x) (cx_aggregator x) (cx_client x) (f (cx_projector x))
         (cx_reconciler x) (cx_pending x) (cx_answered x) (cx_sent x) (cx_audit x)
         (cx_metrics x)).
Definition on_reconciler (f : OfflineReconciler → OfflineReconciler) (x : center) :
    unit * center :=
  (tt, mkCenter (cx_registry x) (cx_aggregator x) (cx_client x) (cx_projector x)
         (f (cx_reconciler x)) (cx_pending x) (cx_answered x) (cx_sent x) (cx_audit x)
         (cx_metrics x)).
Definition send (tx : sender) (m : CenterPayload) (x : center) : unit * center :=
  (tt, mkCenter (cx_registry x) (cx_aggregator x) (cx_client x) (cx_projector x)
         (cx_reconciler x) (cx_pending x) (cx_answered x) ((tx, m) :: cx_sent x) (cx_audit x)
         (cx_metrics x)).
Definition on_audit (f : list AuditEvent → list AuditEvent) (x : center) : unit * center :=
  (tt, mkCenter (cx_registry x) (cx_aggregator x) (cx_client x) (cx_projector x)
         (cx_reconciler x) (cx_pending x) (cx_answered x) (cx_sent x) (f (cx_audit x))
         (cx_metrics x)).
Definition emit (m : FedMetric) (x : center) : unit * center :=
  (tt, mkCenter (cx_registry x) (cx_aggregator x) (cx_client x) (cx_projector x)
         (cx_reconciler x) (cx_pending x) (cx_answered x) (cx_sent x) (cx_audit x)
         (m :: cx_metrics x)).

(** [pending.lock().remove(&id)] and [tx.send(resp)]. *)
Definition answer_proxy (resp : HttpProxyResponse) (x : center) : unit * center :=
  match cx_pending x !! hr_request_id resp with
  | Some tx =>
      (tt, mkCenter (cx_registry x) (cx_aggregator x) (cx_client x) (cx_projector x)
             (cx_reconciler x) (delete (hr_request_id resp) (cx_pending x))
             ((tx, resp) :: cx_answered x) (cx_sent x) (cx_audit x) (cx_metrics x))
  | None => (tt, x)
  end.

Definition read {X} (f : center → X) (x : center) : X * center := (f x, x).

(** ** The calls of the handler *)

Inductive srv_call : Type → Type :=
| Atomic {X : Type} (f : center → X * center) : srv_call X
| NowMs : srv_call Z
| NextObservedAt : srv_call Z
| NewUuid : srv_call string
| Acquire (role : CoordinationRole) : srv_call (option (CoreResult Leadership))
| ReleaseLease (l : Leadership) : srv_call (option (CoreResult ReleaseOutcome))
| UpsertRegistration (r : ControllerRegistration) : srv_call (option (CoreResult ()))
| BackoffOrClosed : srv_call bool.

(** What the composition root selected. *)
Record server_config := {
  cf_trust_domain : option string;
  cf_has_directory : bool;
  cf_has_audit : bool;
  cf_has_coordinator : bool;
}.

(** What an accepted registration hands to the tasks of its session. *)
Record session := {
  ss_controller_id : string;
  ss_session_id : string;
  ss_tx : sender;
  ss_fence : option OwnershipFence;
  ss_leadership : option Leadership;
  ss_valid : flag;
  ss_cancel : Registry.token;
  ss_cache : cache_ref;
  ss_observed_at : Z;
}.

Section Server.
Context (from_der : string → option (list X509Extension)).
Context (from_slice_items : string → option (list Value)).
Context (from_str_events : string → option (list WatchEventRaw)).
Context (from_str_value : string → option Value).
(** [{:?}] on strings, used by the text of a core error. *)
Context (debug : string → string).
Context (cf : server_config).

Definition audit (now : Z) (cid sid path : string) (status : Z) (detail : option string) :
    srv_call unit :=
  Atomic (on_audit (record_federation_audit (cf_has_audit cf) (now / 1000) cid sid path status
                      detail)).

Definition identity_label (e : PeerIdentityError) : string :=
  match e with
  | Mismatch => "mismatch"
  | NoSpiffeSan => "no_spiffe_san"
  | MultiSan => "multi_san"
  | Spiffe.ParseError => "parse_error"
  end.

(** *** Registration, from the acquired ownership on *)

Definition fence_of_leadership (l : Leadership) : OwnershipFence :=
  {| of_token := ld_fencing_token l; of_epoch := ld_fencing_epoch l |}.

(** Sent, cached and handed over to the session's tasks. *)
Definition accept (req : RegisterRequest) (sid : string) (tx : sender) (valid : flag)
    (ownership : option Leadership) (observed_at : Z) (outcome : RegistrationOutcome)
    (detail : string) : prog srv_call (result session Status) :=
  let cid := rr_controller_id req in
  _ <~ Atomic (emit (ConnectionEvent "connected")) ;;
  n <~ Atomic (read (λ x, online_len (cx_registry x))) ;;
  _ <~ Atomic (emit (ConnectionsActive n)) ;;
  now <~ NowMs ;;
  _ <~ audit now cid sid "/federation/connect" 200 (Some detail) ;;
  _ <~ Atomic (send tx (RegisterAck sid)) ;;
  pm_cache <~ Atomic (on_client (WatchCache.get_or_create cid)) ;;
  from_version <~ Atomic (read (λ x, get_sync_version pm_cache (cx_client x))) ;;
  watch_request_id <~ NewUuid ;;
  _ <~ Atomic (send tx (WatchRequest (initial_watch_request watch_request_id from_version))) ;;
  Ret (Ok {| ss_controller_id := cid; ss_session_id := sid; ss_tx := tx;
             ss_fence := fence_of_leadership <$> ownership; ss_leadership := ownership;
             ss_valid := valid; ss_cancel := ro_session_cancel outcome;
             ss_cache := pm_cache; ss_observed_at := observed_at |}).

(** The projection of the registration failed or timed out. *)
Definition reject_unprojected (cid sid current : string) (ownership : option Leadership)
    (observed_at : Z) (detail error : string) : prog srv_call (result session Status) :=
  now <~ NowMs ;;
  _ <~ Atomic (on_registry (Registry.mark_offline cid sid now)) ;;
  _ <~ Atomic (on_aggregator (Aggregator.mark_offline cid now)) ;;
  _ <~ Atomic (on_reconciler (schedule (mkTarget cid current
                 (fence_of_leadership <$> ownership) observed_at))) ;;
  _ <~ audit now cid sid "/federation/connect" 503
         (Some (detail +:+ "; projection failed: " +:+ error)) ;;
  let answer := Err (Unavailable "controller registration projection unavailable") in
  match ownership with
  | Some l => if cf_has_coordinator cf then (_ <~ ReleaseLease l ;; Ret answer) else Ret answer
  | None => Ret answer
  end.

Definition register_session (req : RegisterRequest) (sid : string) (tx : sender)
    (ownership : option Leadership) (observed_at : Z) :
    prog srv_call (result session Status) :=
  let cid := rr_controller_id req in
  valid <~ Atomic (on_registry new_flag) ;;
  now <~ NowMs ;;
  outcome <~ Atomic (on_registry (register_owned_cancellable cid req tx sid
               ((λ l, {| so_holder := ld_holder l; so_fence := fence_of_leadership l;
                         so_valid := valid |}) <$> ownership) now)) ;;
  let detail := match ro_displaced_session_id outcome with
                | Some displaced => "controller session takeover displaced " +:+ displaced
                | None => "controller session established"
                end in
  _ <~ (if bool_decide (is_Some (ro_displaced_session_id outcome))
        then Atomic (emit SessionTakeover) else Atomic (read (λ _, tt))) ;;
  _ <~ Atomic (on_aggregator (set_controller_info cid
         {| ci_controller_id := cid; ci_cluster := rr_cluster req;
            ci_environments := rr_env req; ci_tags := rr_tag req |})) ;;
  if cf_has_directory cf then
    match ControllerId_new cid, SessionId_new sid with
    | Ok id, Ok session =>
        r <~ UpsertRegistration {|
               reg_controller_id := id; reg_session_id := session;
               reg_cluster := rr_cluster req; reg_environments := rr_env req;
               reg_tags := rr_tag req; reg_connected_replica := ld_holder <$> ownership;
               reg_ownership_fence := fence_of_leadership <$> ownership;
               reg_observed_at_unix_ms := observed_at |} ;;
        match r with
        | Some (Ok _) =>
            _ <~ Atomic (on_reconciler (cancel_worker cid)) ;;
            accept req sid tx valid ownership observed_at outcome detail
        | Some (Err error) =>
            reject_unprojected cid sid session ownership observed_at detail
              (CoreError_fmt debug error)
        | None =>
            reject_unprojected cid sid session ownership observed_at detail
              "controller projection timed out"
        end
    | _, _ => Ret (Err Panicked)
    end
  else accept req sid tx valid ownership observed_at outcome detail.

(** *** The whole handler, up to the spawn of the session's tasks *)

Definition sync (first : first_message) (peer_cert : option string) (tx : sender) :
    prog srv_call (result session Status) :=
  match first with
  | FirstTimeout =>
      Ret (Err (DeadlineExceeded "Registration timeout: no RegisterRequest within 5s"))
  | FirstError e => Ret (Err (InternalStatus e))
  | FirstClosed => Ret (Err (CancelledStatus "Stream closed before RegisterRequest"))
  | FirstMessage (Register req) =>
      match validate_register_req req with
      | Err _ => Ret (Err (InvalidArgument "RegisterRequest validation failed"))
      | Ok _ =>
          let cid := rr_controller_id req in
          full <~ Atomic (read (λ x,
                    registry_capacity_exceeded (cx_registry x) cid MAX_REGISTRY_ENTRIES)) ;;
          if full : bool
          then Ret (Err (ResourceExhausted "Federation registry is at capacity"))
          else
          match peer_cert with
          | None => Ret (Err (InternalStatus "missing client certificate under mTLS"))
          | Some leaf =>
              match verify from_der leaf (default "" (cf_trust_domain cf)) (rr_cluster req) cid with
              | Err e =>
                  _ <~ Atomic (emit (PeerIdentityCheck (identity_label e))) ;;
                  Ret (Err (PermissionDenied "peer identity verification failed"))
              | Ok _ =>
                  _ <~ Atomic (emit (PeerIdentityCheck "ok")) ;;
                  sid <~ NewUuid ;;
                  observed_at <~ NextObservedAt ;;
                  if cf_has_coordinator cf then
                    _ <~ Atomic (on_registry (fence_owned_session cid)) ;;
                    r <~ Acquire (ControllerOwner cid) ;;
                    match r with
                    | Some (Ok l) => register_session req sid tx (Some l) observed_at
                    | _ =>
                        now <~ NowMs ;;
                        _ <~ audit now cid sid "/federation/connect" 503
                               (Some (match r with
                                      | None => "controller ownership timed out"
                                      | _ => "controller ownership unavailable"
                                      end)) ;;
                        Ret (Err (Unavailable "controller ownership unavailable"))
                    end
                  else register_session req sid tx None observed_at
              end
          end
      end
  | FirstMessage _ => Ret (Err (InvalidArgument "First message must be RegisterRequest"))
  end.

(** *** The message loop *)

Definition mark_offline_all (ss : session) (reason : string) : prog srv_call () :=
  let cid := ss_controller_id ss in
  let sid := ss_session_id ss in
  now <~ NowMs ;;
  transitioned <~ Atomic (on_registry (Registry.mark_offline cid sid now)) ;;
  if negb transitioned then Ret ()
  else
  _ <~ Atomic (on_aggregator (Aggregator.mark_offline cid now)) ;;
  _ <~ Atomic (on_client (λ w, (tt, WatchCache.mark_offline cid w))) ;;
  _ <~ (if cf_has_directory cf
        then Atomic (on_reconciler (schedule (mkTarget cid sid (ss_fence ss) (ss_observed_at ss))))
        else Atomic (read (λ _, tt))) ;;
  _ <~ Atomic (emit (MarkOfflineMetric reason)) ;;
  _ <~ Atomic (emit (ConnectionEvent "disconnected")) ;;
  n <~ Atomic (read (λ x, online_len (cx_registry x))) ;;
  _ <~ Atomic (emit (ConnectionsActive n)) ;;
  _ <~ audit now cid sid "/federation/disconnect" 200 (Some reason) ;;
  Ret ().

(** The state of the watch at the start of the loop. *)
Definition initial_watch (watch_request_id : string) (ss : session) (x : center) :
    FedWatchState :=
  let sid := get_server_id (ss_cache ss) (cx_client x) in
  FedWatchState_new EDGION_CONFIG_DATA watch_request_id (if is_empty sid then None else Some sid).

(** [!ownership_valid.load() || heartbeat_cancel.is_cancelled()]. *)
Definition revoked (ss : session) (x : center) : bool :=
  negb (default false (flags (cx_registry x) !! ss_valid ss))
  || Registry.is_cancelled (ss_cancel ss) (cx_registry x).
Definition invalid (ss : session) (x : center) : bool :=
  negb (default false (flags (cx_registry x) !! ss_valid ss)).

Definition backoff_then_rewatch (ss : session) (pm_watch : FedWatchState) :
    prog srv_call (bool * FedWatchState) :=
  closed <~ BackoffOrClosed ;;
  if closed : bool then Ret (true, pm_watch)
  else
  new_id <~ NewUuid ;;
  let '(m, pm_watch) := re_watch new_id pm_watch in
  _ <~ Atomic (send (ss_tx ss) (WatchRequest m)) ;;
  Ret (false, pm_watch).

(** An observation of this session; the ids were validated at registration. *)
Definition observation (ss : session) (sync_version : option Z) (server : option string)
    (count : option Z) (per_kind : option (gmap string Z)) (stats_at watch_at : option Z)
    (at_ms : Z) : ControllerRuntimeObservation := {|
  obs_controller_id := ss_controller_id ss; obs_session_id := ss_session_id ss;
  obs_ownership_fence := ss_fence ss; obs_sync_version := sync_version;
  obs_watch_server_id := server; obs_resource_count := count;
  obs_resource_counts_by_kind := per_kind; obs_stats_updated_unix_ms := stats_at;
  obs_watch_updated_unix_ms := watch_at; obs_observed_at_unix_ms := at_ms |}.

(** [RuntimeProjector::submit]: nothing without a directory. *)
Definition submit_observation (o : ControllerRuntimeObservation) : srv_call unit :=
  Atomic (if cf_has_directory cf then on_projector (submit o) else read (λ _, tt)).

(** A watch handler on the shared caches: the outcome and the session's own
    watch state come back, the metrics go to the shared log. *)
Definition watch_handler (h : watch_ctx → WatchOutcome * watch_ctx) (pm_watch : FedWatchState)
    (x : center) : (WatchOutcome * FedWatchState) * center :=
  let '(o, c) := h (mkCtx (cx_client x) pm_watch []) in
  ((o, wx_watch c),
   mkCenter (cx_registry x) (cx_aggregator x) (wx_client c) (cx_projector x) (cx_reconciler x)
     (cx_pending x) (cx_answered x) (cx_sent x) (cx_audit x)
     (WatchMetrics (wx_metrics c) :: cx_metrics x)).

(** The answer of an iteration: whether the loop goes on, and the watch. *)
Abbreviation iteration := (prog srv_call (bool * FedWatchState)).

Definition handle_payload (ss : session) (now : Z) (p : CtrlPayload) (pm_watch : FedWatchState) :
    iteration :=
  let cid := ss_controller_id ss in
  let go (k : iteration) : iteration :=
    (stop <~ Atomic (read (invalid ss)) ;;
     if stop : bool then Ret (true, pm_watch) else k) in
  match p with
  | Pong _ =>
      go (at_ms <~ NextObservedAt ;;
          _ <~ submit_observation (observation ss None None None None None None at_ms) ;;
          Ret (true, pm_watch))
  | ProxyResponse resp => go (_ <~ Atomic (answer_proxy resp) ;; Ret (true, pm_watch))
  | WatchListResponse resp =>
      go (r <~ Atomic (watch_handler
                 (apply_watch_list from_slice_items (ss_cache ss) now resp) pm_watch) ;;
          let '(outcome, pm_watch) := r in
          match outcome with
          | WatchApplied =>
              at_ms <~ NextObservedAt ;;
              _ <~ submit_observation (observation ss (Some (wl_sync_version resp))
                     (Some (wl_server_id resp)) None None None (Some at_ms) at_ms) ;;
              Ret (true, pm_watch)
          | FedWatch.ParseError =>
              pbind (backoff_then_rewatch ss pm_watch) (λ r, Ret (negb r.1, r.2))
          | _ => Ret (true, pm_watch)
          end)
  | WatchEventResponse resp =>
      go (r <~ Atomic (watch_handler
                 (apply_watch_event from_str_events from_str_value (ss_cache ss) now resp)
                 pm_watch) ;;
          let '(outcome, pm_watch) := r in
          match outcome with
          | BackoffReWatch | FedWatch.ParseError =>
              pbind (backoff_then_rewatch ss pm_watch) (λ r, Ret (negb r.1, r.2))
          | ReWatch =>
              new_id <~ NewUuid ;;
              let '(m, pm_watch) := re_watch new_id pm_watch in
              _ <~ Atomic (send (ss_tx ss) (WatchRequest m)) ;;
              Ret (true, pm_watch)
          | WatchApplied =>
              at_ms <~ NextObservedAt ;;
              _ <~ submit_observation (observation ss (Some (we_sync_version resp))
                     (Some (we_server_id resp)) None None None (Some at_ms) at_ms) ;;
              Ret (true, pm_watch)
          | _ => Ret (true, pm_watch)
          end)
  | StatsReport per_kind total =>
      go (let counts := bounded_per_kind per_kind in
          _ <~ Atomic (on_aggregator (update_stats cid counts total now)) ;;
          at_ms <~ NextObservedAt ;;
          _ <~ submit_observation (observation ss None None (Some total) counts (Some at_ms)
                 None at_ms) ;;
          Ret (true, pm_watch))
  | Register _ | NoPayload => Ret (true, pm_watch)
  end.

(** What wakes the loop. *)
Inductive loop_event :=
| LoopCancelled (ownership_lost : bool)
| LoopStreamError
| LoopStreamClosed
| LoopMessage (p : CtrlPayload).

Definition loop_iteration (ss : session) (e : loop_event) (pm_watch : FedWatchState) :
    iteration :=
  match e with
  | LoopCancelled ownership_lost =>
      pbind (mark_offline_all ss (if ownership_lost then "ownership_lost" else "heartbeat"))
        (λ _, Ret (false, pm_watch))
  | LoopStreamError | LoopStreamClosed =>
      pbind (mark_offline_all ss "disconnect") (λ _, Ret (false, pm_watch))
  | LoopMessage p =>
      stale <~ Atomic (read (revoked ss)) ;;
      if stale : bool then Ret (false, pm_watch)
      else
      current <~ Atomic (read (λ x,
        is_current_session (ss_controller_id ss) (ss_session_id ss) (cx_registry x))) ;;
      if negb current then Ret (false, pm_watch)
      else
      stale <~ Atomic (read (revoked ss)) ;;
      if stale : bool then Ret (true, pm_watch)
      else
      now <~ NowMs ;;
      _ <~ Atomic (on_registry (λ r, (tt, update_last_seen (ss_controller_id ss) now r))) ;;
      stale <~ Atomic (read (revoked ss)) ;;
      if stale : bool then Ret (true, pm_watch)
      else handle_payload ss now p pm_watch
  end.
End Server.

(** ** The environment of the handler

    An atomic step acts on the shared state; every other call may answer
    anything, except that a UUID is a valid session id. *)

Definition srv_port (X : Type) (e : srv_call X) : center → X → center → Prop :=
  match e in srv_call X return center → X → center → Prop with
  | Atomic f => λ x a x', f x = (a, x')
  | NewUuid => λ x a x', x' = x ∧ SessionId_new a = Ok a
  | NowMs | NextObservedAt | Acquire _ | ReleaseLease _ | UpsertRegistration _
  | BackoffOrClosed => λ x _ x', x' = x
  end.

(** Everything but the metrics. *)
Definition same_state (x x' : center) : Prop :=
  cx_registry x' = cx_registry x ∧ cx_aggregator x' = cx_aggregator x
  ∧ cx_client x' = cx_client x ∧ cx_projector x' = cx_projector x
  ∧ cx_reconciler x' = cx_reconciler x ∧ cx_pending x' = cx_pending x
  ∧ cx_answered x' = cx_answered x ∧ cx_sent x' = cx_sent x ∧ cx_audit x' = cx_audit x.

(** A refusal for a reason that lies in the request itself. *)
Definition refused (st : Status) : bool :=
  match st with
  | Unavailable _ | Panicked => false
  | _ => true
  end.

Section ServerFacts.
Context (from_der : string → option (list X509Extension)).
Context (from_slice_items : string → option (list Value)).
Context (from_str_events : string → option (list WatchEventRaw)).
Context (from_str_value : string → option Value).
Context (debug : string → string).
Context (cf : server_config).

#[local] Abbreviation sync := (sync from_der debug cf).
#[local] Abbreviation register_session := (register_session debug cf).
#[local] Abbreviation loop_iteration :=
  (loop_iteration from_slice_items from_str_events from_str_value cf).
#[local] Abbreviation exec := (exec srv_port).

(** A property of the answer on every path, whatever other sessions do. *)
#[local] Abbreviation answers Q p :=
  (∀ x : center, safe srv_port (λ _ _, True) (λ _ _, True) (λ r _, Q r) p x).

(** Once ownership is settled, a registration is accepted, or refused as
    unavailable; the ids were checked, so no [expect] fails. *)
Definition settled_answer (r : result session Status) : Prop :=
  match r with Ok _ => True | Err (Unavailable _) => True | Err _ => False end.

Lemma accept_answers req sid tx valid ownership at_ms outcome detail :
  answers settled_answer (accept cf req sid tx valid ownership at_ms outcome detail).
Proof. intros x. by repeat (intros ?; split; [done|]). Qed.

Lemma reject_answers cid sid current ownership at_ms detail error :
  answers settled_answer
    (reject_unprojected cf cid sid current ownership at_ms detail error).
Proof.
  intros x. unfold reject_unprojected. destruct ownership; [destruct (cf_has_coordinator cf)|];
    by repeat (intros ?; split; [done|]).
Qed.

Lemma register_answers req sid tx ownership at_ms :
  ControllerId_new (rr_controller_id req) = Ok (rr_controller_id req) →
  SessionId_new sid = Ok sid →
  answers settled_answer (register_session req sid tx ownership at_ms).
Proof.
  intros Hcid Hsid x. unfold Server.register_session.
  intros ? valid ? _ _. split; [done|]. intros ? now ? _ _. split; [done|].
  intros ? outcome ? _ _. split; [done|].
  destruct (bool_decide (is_Some (ro_displaced_session_id outcome)));
    (intros ? ? ? _ _; split; [done|]; intros ? ? ? _ _; split; [done|];
     destruct (cf_has_directory cf); [|apply accept_answers];
     rewrite Hcid, Hsid; intros ? r ? _ _; split; [done|];
     destruct r as [[]|]; [|apply reject_answers..];
     intros ? ? ? _ _; split; [done|apply accept_answers]).
Qed.

(** The two checks on the request make a controller id of the core. *)
Lemma checked_controller_id req leaf :
  validate_register_req req = Ok () →
  verify from_der leaf (default "" (cf_trust_domain cf)) (rr_cluster req)
    (rr_controller_id req) = Ok () →
  ControllerId_new (rr_controller_id req) = Ok (rr_controller_id req).
Proof.
  intros Hval (uri&sp&_&_&_&_&Hid)%verify_Ok. apply identifier_new_id.
  - rewrite Hid. apply trim_join_key.
  - revert Hval. unfold validate_register_req. destruct (is_empty _); [done|].
    destruct (_ >? _)%Z; [done|]. by destruct (has_control (rr_controller_id req)).
Qed.

Lemma settled_not_refused st : settled_answer (Err st) → refused st = false ∧ st ≠ Panicked.
Proof. by destruct st. Qed.

(** No [expect] of the handler fails.  Whatever the first message, the
    certificate, the answers of the coordinator, the directory and the clock,
    and whatever other sessions do between any two steps, [sync] never
    panics: a request that passed validation and the SPIFFE check has a
    controller id the core accepts. *)
Theorem sync_never_panics first leaf tx x :
  safe srv_port (λ _ _, True) (λ _ _, True) (λ r _, r ≠ Err Panicked) (sync first leaf tx) x.
Proof.
  destruct first as [|e| |p]; [done..|]. destruct p as [req| | | | | |]; try done.
  unfold Server.sync. destruct (validate_register_req req) as [[]|] eqn:Hval; [|done].
  intros ? full ? _ _. split; [done|]. destruct full; [done|]. destruct leaf as [leaf|]; [|done].
  destruct (verify _ _ _ _ _) as [[]|e] eqn:Hver; [|by intros ? ? ? _ _].
  pose proof (checked_controller_id req leaf Hval Hver) as Hcid.
  assert (Hreg : ∀ sid ownership at_ms, SessionId_new sid = Ok sid →
    answers (λ r, r ≠ Err Panicked) (register_session req sid tx ownership at_ms)).
  { intros sid ownership at_ms Hsid y.
    eapply (safe_mono srv_port); [|by apply register_answers].
    intros [|st] s Hst; [done|]. destruct (settled_not_refused st Hst). congruence. }
  intros ? ? ? _ _. split; [done|]. intros ? sid ? _ [_ Hsid]. split; [done|].
  intros ? at_ms ? _ _. split; [done|]. destruct (cf_has_coordinator cf); [|by apply Hreg].
  intros ? ? ? _ _. split; [done|]. intros ? r ? _ _. split; [done|].
  destruct r as [[l|]|]; [by apply Hreg|..];
    (intros ? ? ? _ _; split; [done|]; intros ? ? ? _ _; by split).
Qed.

(** A request refused for its own sake (no registration, validation,
    capacity, certificate) leaves no trace: registry, aggregator, caches,
    projector, reconciler, pending proxies, outgoing messages and audit log
    are exactly as before. *)
Theorem refused_registration_no_residue first leaf tx x st x' :
  exec (sync first leaf tx) x (Err st) x' → refused st = true → same_state x x'.
Proof.
  destruct first as [|e| |p]; [by intros [_ ->]..|].
  destruct p as [req| | | | | |]; [|by intros [_ ->]..].
  unfold Server.sync. destruct (validate_register_req req) as [[]|] eqn:Hval; [|by intros [_ ->]].
  intros (full&x1&Hx1&Hk) Href. cbn in Hx1. injection Hx1 as <- <-.
  destruct (registry_capacity_exceeded _ _ _); [by destruct Hk as [_ ->]|].
  destruct leaf as [leaf|]; [|by destruct Hk as [_ ->]].
  destruct (verify _ _ _ _ _) as [[]|e] eqn:Hver.
  2: { destruct Hk as (?&x2&Hx2&_&->). cbn in Hx2. injection Hx2 as _ <-. done. }
  pose proof (checked_controller_id req leaf Hval Hver) as Hcid.
  assert (Hreg : ∀ sid ownership at_ms y, SessionId_new sid = Ok sid →
    ¬ exec (register_session req sid tx ownership at_ms) y (Err st) x').
  { intros sid ownership at_ms y Hsid Hex.
    eapply (exec_safe srv_port (λ _ _, True) (λ _ _, True) (λ r _, settled_answer r)) in Hex;
      [|done|by apply register_answers]. destruct (settled_not_refused st Hex). congruence. }
  destruct Hk as (?&x2&_&sid&x3&[_ Hsid]&at_ms&x4&_&Hk).
  destruct (cf_has_coordinator cf); [|by destruct (Hreg _ _ _ _ Hsid Hk)].
  destruct Hk as (?&x5&_&r&x6&_&Hk).
  destruct r as [[l|]|]; [by destruct (Hreg _ _ _ _ Hsid Hk)|..];
    destruct Hk as (?&?&_&?&?&_&[= ->]&_); done.
Qed.

(** C34.  A superseded session is inert.  Once a session's flag is cleared, its
    token cancelled, or another session registered for its controller, a
    message it still receives changes nothing at all and ends its loop; and
    when its stream then closes or its token fires, the disconnect clean-up
    of a session that is no longer current changes nothing either. *)
Theorem superseded_session_inert ss p w x go w' x' :
  (revoked ss x = true
   ∨ is_current_session (ss_controller_id ss) (ss_session_id ss) (cx_registry x) = false →
   exec (loop_iteration ss (LoopMessage p) w) x (go, w') x' →
   x' = x ∧ go = false ∧ w' = w)
  ∧ (is_current_session (ss_controller_id ss) (ss_session_id ss) (cx_registry x) = false →
     ∀ e, (∀ p, e ≠ LoopMessage p) →
     exec (loop_iteration ss e w) x (go, w') x' → x' = x ∧ go = false ∧ w' = w).
Proof.
  split.
  - intros Hst (stale&x1&Hx1&Hk). cbn in Hx1. injection Hx1 as <- <-.
    destruct (revoked ss x) eqn:Hrev; [by destruct Hk as [[= -> ->] ->]|].
    destruct Hst as [|Hcur]; [done|]. destruct Hk as (cur&x2&Hx2&Hk). cbn in Hx2.
    injection Hx2 as <- <-. rewrite Hcur in Hk. cbn in Hk. by destruct Hk as [[= -> ->] ->].
  - intros Hcur e He Hex.
    assert (Hoff : ∀ reason y, exec (mark_offline_all cf ss reason) x tt y → y = x).
    { intros reason y (now&x1&->&tr&x2&Hx2&Hk). cbn in Hx2. unfold on_registry in Hx2.
      unfold is_current_session in Hcur. unfold Registry.mark_offline in Hx2.
      destruct (inner (cx_registry x) !! ss_controller_id ss) as [s|];
        [rewrite Hcur in Hx2; cbn in Hx2|]; injection Hx2 as <- <-;
        cbn in Hk; destruct Hk as [_ ->]; by destruct x. }
    destruct e as [lost| | |p']; [..|by destruct (He p')];
      apply exec_bind in Hex as ([]&y&Hoff'&[= -> ->]&->); by apply Hoff in Hoff' as ->.
Qed.

(** A registration whose projection fails late marks the wrong session
    offline.  While its projection is awaited, the controller may reconnect;
    when the projection then fails, the registry refuses to mark the new
    session offline, but the aggregator is told so unconditionally: the
    registry is unchanged (the new session stays live) while the aggregator
    reports the controller as offline. *)
Theorem late_rejection_hides_live_session cid sid current ownership at_ms detail error
    x snap r x' :
  is_current_session cid sid (cx_registry x) = false →
  snapshots (cx_aggregator x) !! cid = Some snap →
  exec (reject_unprojected cf cid sid current ownership at_ms detail error) x r x' →
  cx_registry x' = cx_registry x
  ∧ ∃ snap', snapshots (cx_aggregator x') !! cid = Some snap' ∧ snap_online snap' = false.
Proof.
  intros Hcur Hsnap (now&x1&->&tr&x2&Hx2&?&x3&Hx3&?&x4&Hx4&?&x5&Hx5&Hk).
  cbn in Hx2. unfold on_registry in Hx2. unfold is_current_session in Hcur.
  assert (Hr : (Registry.mark_offline cid sid now (cx_registry x)) = (false, cx_registry x)).
  { unfold Registry.mark_offline. destruct (inner (cx_registry x) !! cid) as [s|]; [|done].
    by rewrite Hcur. }
  rewrite Hr in Hx2. injection Hx2 as <- <-. cbn in Hx3, Hx4, Hx5.
  injection Hx3 as _ <-. injection Hx4 as _ <-. injection Hx5 as _ <-.
  assert (Hx' : x' = mkCenter (cx_registry x) (Aggregator.mark_offline cid now (cx_aggregator x))
    (cx_client x) (cx_projector x) (cx_reconciler x') (cx_pending x) (cx_answered x) (cx_sent x)
    (cx_audit x') (cx_metrics x)).
  { destruct ownership; [destruct (cf_has_coordinator cf)|]; cbn in Hk.
    - destruct Hk as (?&?&->&_&->). done.
    - by destruct Hk as [_ ->].
    - by destruct Hk as [_ ->]. }
  rewrite Hx'. simpl. split; [done|]. rewrite lookup_alter_eq, Hsnap. simpl.
  eexists. split; [done|]. unfold snap_online. destruct (snap_offline_since snap) eqn:E; simpl.
  - by rewrite E.
  - done.
Qed.
End ServerFacts.

(** ** Witnesses *)

Definition demo_cf : server_config :=
  {| cf_trust_domain := Some "mesh"; cf_has_directory := true; cf_has_audit := true;
     cf_has_coordinator := false |}.

Definition center_new : center :=
  mkCenter with_metrics aggregator_new (registry_new ∅) projector_new reconciler_default ∅ [] []
    [] [].

(** A port whose UUIDs are [uuid] and whose directory answers [upsert]. *)
Definition demo_port (uuid : string) (upsert : option (CoreResult ())) (X : Type)
    (e : srv_call X) : center → X * center :=
  match e in srv_call X return center → X * center with
  | Atomic f => f
  | NowMs => λ x, (1000%Z, x)
  | NextObservedAt => λ x, (1000%Z, x)
  | NewUuid => λ x, (uuid, x)
  | Acquire _ => λ x, (None, x)
  | ReleaseLease _ => λ x, (None, x)
  | UpsertRegistration _ => λ x, (upsert, x)
  | BackoffOrClosed => λ x, (true, x)
  end.

Lemma demo_port_ok uuid upsert X (e : srv_call X) x a x' :
  SessionId_new uuid = Ok uuid →
  demo_port uuid upsert X e x = (a, x') → srv_port X e x a x'.
Proof. intros Hu. destruct e; simpl; intros; simplify_eq; done. Qed.

Definition demo_sync (tx : sender) : prog srv_call (result session Status) :=
  sync demo_der (λ s, s) demo_cf
    (FirstMessage (Register {| rr_controller_id := "c1/edge"; rr_cluster := "c1"; rr_env := [];
                               rr_tag := [] |})) (Some "leaf") tx.

(** The first session waits for its projection; the second one registers and is
    accepted; then the projection of the first times out. *)
Definition demo_waiting := steps (demo_port "s1" None) 9 (demo_sync 1) center_new.
Definition demo_accepted := run (demo_port "s2" (Some (Ok ()))) (demo_sync 2) demo_waiting.2.
Definition demo_final := run (demo_port "s1" None) demo_waiting.1 demo_accepted.2.

Lemma demo_race_reachable :
  rtc (pool_step srv_port) ([demo_sync 1; demo_sync 2], center_new)
    ([Ret demo_final.1; Ret demo_accepted.1], demo_final.2).
Proof.
  etrans.
  { apply (steps_pool srv_port (demo_port "s1" None) 9 _ 0 (demo_sync 1) center_new
             demo_waiting.1 demo_waiting.2); [intros X e x y x' He; apply (demo_port_ok "s1" None); [reflexivity|exact He]|done|].
    fold demo_waiting. by destruct demo_waiting. }
  etrans.
  { apply (run_pool srv_port (demo_port "s2" (Some (Ok ()))) [demo_waiting.1; demo_sync 2] 1
             (demo_sync 2) demo_waiting.2 demo_accepted.1 demo_accepted.2);
      [intros X e x y x' He; apply (demo_port_ok "s2" (Some (Ok ()))); [reflexivity|exact He]|done|]. fold demo_accepted. by destruct demo_accepted. }
  apply (run_pool srv_port (demo_port "s1" None) [demo_waiting.1; Ret demo_accepted.1] 0
           demo_waiting.1 demo_accepted.2 demo_final.1 demo_final.2);
    [intros X e x y x' He; apply (demo_port_ok "s1" None); [reflexivity|exact He]|done|]. fold demo_final. by destruct demo_final.
Qed.

(** In the state it reaches, the second session is live in the registry and the
    aggregator reports the controller as offline. *)
Lemma late_rejection_hides_live_session_witness :
  rtc (pool_step srv_port) ([demo_sync 1; demo_sync 2], center_new)
    ([Ret demo_final.1; Ret demo_accepted.1], demo_final.2)
  ∧ (∃ s, inner (cx_registry demo_final.2) !! "c1/edge" = Some s
          ∧ cs_session_id s = "s2" ∧ is_online s (cx_registry demo_final.2) = true)
  ∧ ∃ snap', snapshots (cx_aggregator demo_final.2) !! "c1/edge" = Some snap'
             ∧ snap_online snap' = false.
Proof.
  split; [exact demo_race_reachable|].
  split; [eexists; split_and!; vm_compute; reflexivity|].
  assert (Hsnap : ∃ snap, snapshots (cx_aggregator demo_accepted.2) !! "c1/edge" = Some snap)
    by (eexists; vm_compute; reflexivity).
  destruct Hsnap as [snap Hsnap].
  refine (proj2 (late_rejection_hides_live_session demo_cf "c1/edge" "s1" "s1" None 1000
    "controller session established" "controller projection timed out" demo_accepted.2 snap
    demo_final.1 demo_final.2 _ Hsnap _)).
  - vm_compute. reflexivity.
  - apply (run_exec srv_port (demo_port "s1" None)).
    + intros X e x y x' He; apply (demo_port_ok "s1" None); [reflexivity|exact He].
    + vm_compute. reflexivity.
Defined.

Lemma refused_registration_no_residue_witness : same_state center_new center_new.
Proof.
  apply (refused_registration_no_residue demo_der (λ s, s) demo_cf FirstClosed None 1 center_new
    (CancelledStatus "Stream closed before RegisterRequest")); [split; reflexivity|reflexivity].
Defined.

Definition demo_session : session :=
  {| ss_controller_id := "c1/edge"; ss_session_id := "s1"; ss_tx := 1; ss_fence := None;
     ss_leadership := None; ss_valid := 0; ss_cancel := 1; ss_cache := 0; ss_observed_at := 1000 |}.

Definition demo_iteration :=
  run (demo_port "s1" None)
    (loop_iteration (λ _, None) (λ _, None) (λ _, None) demo_cf demo_session (LoopMessage (Pong 1))
       (FedWatchState_new EDGION_CONFIG_DATA "req" None)) demo_accepted.2.

Lemma superseded_session_inert_witness :
  demo_iteration.2 = demo_accepted.2 ∧ demo_iteration.1.1 = false
  ∧ demo_iteration.1.2 = FedWatchState_new EDGION_CONFIG_DATA "req" None.
Proof.
  refine (proj1 (superseded_session_inert (λ _, None) (λ _, None) (λ _, None) demo_cf demo_session
    (Pong 1) _ demo_accepted.2 _ _ demo_iteration.2) _ _).
  - right. vm_compute. reflexivity.
  - apply (run_exec srv_port (demo_port "s1" None)).
    + intros X e x y x' He; apply (demo_port_ok "s1" None); [reflexivity|exact He].
    + vm_compute. reflexivity.
Defined.
