(* ===== verification/Forwarding.v ===== *)
(** * Forwarding: proxy requests and evictions across replicas

    [crates/center-runtime/src/proxy.rs] (the HTTP proxy to a controller over its
    stream), [crates/center-runtime/src/internal_forwarding/mod.rs] (the one-hop
    forwarding between Center replicas: client side, service side, header
    filtering) and [crates/center-runtime/src/eviction.rs] (the live side of an
    eviction).  The owner locator and the transport are calls of the port: the
    source takes them as trait objects. *)

From Stdlib Require Import Ascii.
From S2P Require Import Prelude Core Effects Registry WatchCache MetadataStore Aggregator Spiffe Server.

(** ** Data *)

Inductive ForwardErrorKind := StaleOwnership | FwdUnavailable | Deadline | Rejected.

#[export] Instance ForwardErrorKind_eq_dec : EqDecision ForwardErrorKind.
Proof. solve_decision. Defined.

Record ForwardError := { fe_kind : ForwardErrorKind; fe_message : string }.

Record ForwardHttpOperation := {
  fo_method : string;
  fo_path : string;
  fo_headers : gmap string string;
  fo_body : string;
}.

Inductive FencedProxyError :=
| StaleOwnershipError
| Dispatch (status : Z) (message : string).

(** HTTP status codes. *)
Definition BAD_REQUEST : Z := 400.
Definition NOT_FOUND : Z := 404.
Definition BAD_GATEWAY : Z := 502.
Definition SERVICE_UNAVAILABLE : Z := 503.
Definition GATEWAY_TIMEOUT : Z := 504.

Definition proxy_error (error : ForwardError) : Z * string :=
  (match fe_kind error with
   | Deadline => GATEWAY_TIMEOUT
   | StaleOwnership | FwdUnavailable => SERVICE_UNAVAILABLE
   | Rejected => BAD_GATEWAY
   end, fe_message error).

(** The gRPC status codes the forwarding code distinguishes. *)
Inductive Code :=
| FailedPreconditionCode | NotFoundCode | DeadlineExceededCode | UnavailableCode
| InvalidArgumentCode | UnauthenticatedCode | PermissionDeniedCode | ResourceExhaustedCode
| OtherCode.

Record RpcStatus := { st_code : Code; st_message : string }.

Definition from_status (status : RpcStatus) : ForwardError :=
  {| fe_kind := match st_code status with
                | FailedPreconditionCode | NotFoundCode => StaleOwnership
                | DeadlineExceededCode => Deadline
                | UnavailableCode => FwdUnavailable
                | _ => Rejected
                end;
     fe_message := st_message status |}.

Record OwnershipTarget := {
  ot_holder : string;
  ot_fencing_token : string;
  ot_fencing_epoch : Z;
}.

Definition target (route : ControllerOwnerRoute) : OwnershipTarget :=
  {| ot_holder := route_holder route;
     ot_fencing_token := of_token (route_ownership_fence route);
     ot_fencing_epoch := of_epoch (route_ownership_fence route) |}.

(** ** Header filtering *)

Definition comma : ascii := ","%char.

Definition DENIED : list string :=
  ["authorization"; "cookie"; "connection"; "keep-alive"; "proxy-authenticate";
   "proxy-authorization"; "te"; "trailer"; "transfer-encoding"; "upgrade"; "host"].

(** The header names the [Connection] headers nominate. *)
Definition nominated (headers : gmap string string) : list string :=
  base.filter (λ n, is_empty n = false)
    ((λ n, to_ascii_lowercase (str_trim n)) <$>
       mjoin ((λ kv, str_split comma kv.2) <$>
                base.filter (λ kv, eq_ignore_ascii_case kv.1 "connection" = true)
                  (map_to_list headers))).

Definition sanitize_headers (headers : gmap string string) : gmap string string :=
  base.filter (λ kv, to_ascii_lowercase kv.1 ∉ DENIED
                     ∧ to_ascii_lowercase kv.1 ∉ nominated headers) headers.

(** ** The calls of the forwarding code

    Awaiting code can be dropped at an await point (the deadline of the caller
    elapsed, or the caller went away): the answer of such a call says so. *)

Inductive send_outcome := SendCancelled | SendClosed | Sent | SendDropped.
Inductive recv_outcome :=
| RecvCancelled | RecvTimeout | RecvClosed | Received (r : HttpProxyResponse) | RecvDropped.

Inductive fwd_call : Type → Type :=
| FAtomic {X : Type} (f : center → X * center) : fwd_call X
| FNewUuid : fwd_call string
| NewChannel : fwd_call nat
| SendOrCancelled (cancel : Registry.token) (tx : sender) (req : HttpProxyRequest) :
    fwd_call send_outcome
| RecvOrCancelled (cancel : Registry.token) (rx : nat) : fwd_call recv_outcome
| Locate (id : string) : fwd_call (option (CoreResult (option ControllerOwnerRoute)))
| ForwardHttp (route : ControllerOwnerRoute) (controller_id : string)
    (op : ForwardHttpOperation) : fwd_call (option (result HttpProxyResponse ForwardError))
| ForwardEvict (route : ControllerOwnerRoute) (controller_id : string) :
    fwd_call (option (result () ForwardError))
| LoadAccepting : fwd_call bool
| StoreAccepting (b : bool) : fwd_call unit.

Inductive outcome (A : Type) :=
| Done (a : A)
| DroppedFuture
| Unreachable.                       (* [unreachable!()] *)
Arguments Done {A} a.
Arguments DroppedFuture {A}.
Arguments Unreachable {A}.

Abbreviation proxy_result := (result HttpProxyResponse (Z * string)).

Definition pending_insert (id : string) (rx : nat) (x : center) : unit * center :=
  (tt, mkCenter (cx_registry x) (cx_aggregator x) (cx_client x) (cx_projector x)
         (cx_reconciler x) (<[id := rx]> (cx_pending x)) (cx_answered x) (cx_sent x) (cx_audit x)
         (cx_metrics x)).
Definition pending_remove (id : string) (x : center) : unit * center :=
  (tt, mkCenter (cx_registry x) (cx_aggregator x) (cx_client x) (cx_projector x)
         (cx_reconciler x) (delete id (cx_pending x)) (cx_answered x) (cx_sent x) (cx_audit x)
         (cx_metrics x)).

(** The [Drop] of [PendingProxyGuard]. *)
Definition drop_guard {A} (id : string) (a : A) : prog fwd_call A :=
  _ <~ FAtomic (pending_remove id) ;; Ret a.

(** ** The proxy *)

Record ProxyForwarder := {
  pf_timeout_secs : Z;
  pf_local_holder : option string;   (* [forwarding]: with an owner locator and a transport *)
}.

Section Proxy.
Context (debug : string → string) (pf : ProxyForwarder).

Definition offline_error (controller_id : string) : Z * string :=
  (SERVICE_UNAVAILABLE, "Controller " +:+ controller_id +:+ " is offline").
Definition not_found_error (controller_id : string) : Z * string :=
  (NOT_FOUND, "Controller " +:+ controller_id +:+ " not found or offline").
Definition timeout_error : Z * string :=
  (GATEWAY_TIMEOUT,
   "Proxy request timed out after " +:+ u64_to_string (pf_timeout_secs pf) +:+ "s").

Definition proxy_message (request_id : string) (op : ForwardHttpOperation) :
    HttpProxyRequest :=
  {| hq_request_id := request_id; hq_method := fo_method op; hq_path := fo_path op;
     hq_headers := fo_headers op; hq_body := fo_body op |}.

Definition dispatch_to_session (controller_id : string) (op : ForwardHttpOperation)
    (session : SessionView) : prog fwd_call (outcome proxy_result) :=
  match sv_stream_tx session with
  | None => Ret (Done (Err (offline_error controller_id)))
  | Some stream_tx =>
      request_id <~ FNewUuid ;;
      rx <~ NewChannel ;;
      _ <~ FAtomic (pending_insert request_id rx) ;;
      sent <~ SendOrCancelled (sv_session_cancel session) stream_tx
                (proxy_message request_id op) ;;
      match sent with
      | SendDropped => drop_guard request_id DroppedFuture
      | SendCancelled =>
          _ <~ FAtomic (pending_remove request_id) ;;
          drop_guard request_id (Done (Err (offline_error controller_id)))
      | SendClosed =>
          _ <~ FAtomic (pending_remove request_id) ;;
          drop_guard request_id
            (Done (Err (BAD_GATEWAY, "Failed to send proxy request: stream closed")))
      | Sent =>
          received <~ RecvOrCancelled (sv_session_cancel session) rx ;;
          drop_guard request_id
            (match received with
             | RecvDropped => DroppedFuture
             | RecvCancelled =>
                 Done (Err (BAD_GATEWAY, "Controller " +:+ controller_id
                              +:+ " disconnected while proxy result was pending"))
             | RecvTimeout => Done (Err timeout_error)
             | RecvClosed => Done (Err (BAD_GATEWAY, "Proxy response channel dropped"))
             | Received r => Done (Ok r)
             end)
      end
  end.

Definition get_session_call (controller_id : string) : fwd_call (option SessionView) :=
  FAtomic (read (λ x, get_session controller_id (cx_registry x))).

(** The flag of an ownership, read after the session was looked up. *)
Definition local_session_is_dispatchable (controller_id : string) : prog fwd_call bool :=
  session <~ get_session_call controller_id ;;
  match session with
  | None => Ret false
  | Some session =>
      match sv_stream_tx session, pf_local_holder pf with
      | None, _ => Ret false
      | Some _, None => Ret true
      | Some _, Some _ =>
          match sv_ownership session with
          | None => Ret false
          | Some owner =>
              valid <~ FAtomic (read (λ x, is_valid owner (cx_registry x))) ;; Ret valid
          end
      end
  end.

Definition forward_local (controller_id : string) (op : ForwardHttpOperation) :
    prog fwd_call (outcome proxy_result) :=
  session <~ get_session_call controller_id ;;
  match session with
  | None => Ret (Done (Err (not_found_error controller_id)))
  | Some session => dispatch_to_session controller_id op session
  end.

Definition forward_fenced_local (controller_id : string) (request : ForwardHttpOperation)
    (holder : string) (fence : OwnershipFence) :
    prog fwd_call (outcome (result HttpProxyResponse FencedProxyError)) :=
  session <~ get_session_call controller_id ;;
  match session with
  | None => Ret (Done (Err StaleOwnershipError))
  | Some session =>
      matches <~ FAtomic (read (λ x, matches_ownership session holder fence (cx_registry x))) ;;
      if matches : bool then
        pbind (dispatch_to_session controller_id request session)
          (λ r, Ret (match r with
                     | Done r => Done (map_err (λ '(status, message), Dispatch status message) r)
                     | DroppedFuture => DroppedFuture
                     | Unreachable => Unreachable
                     end))
      else Ret (Done (Err StaleOwnershipError))
  end.

(** [for attempt in 0..2]: [attempts] counts down the iterations left. *)
Fixpoint forward_loop (attempts : nat) (attempt : Z) (previous : option ControllerOwnerRoute)
    (local_holder controller_id id : string) (op : ForwardHttpOperation) :
    prog fwd_call (outcome proxy_result) :=
  match attempts with
  | O => Ret Unreachable
  | S attempts =>
      located <~ Locate id ;;
      match located with
      | None => Ret DroppedFuture
      | Some (Err error) => Ret (Done (Err (SERVICE_UNAVAILABLE, CoreError_fmt debug error)))
      | Some (Ok None) => Ret (Done (Err (not_found_error controller_id)))
      | Some (Ok (Some route)) =>
          if String.eqb (route_holder route) local_holder then
            Ret (Done (Err (SERVICE_UNAVAILABLE, "Controller " +:+ controller_id
                              +:+ " ownership is stale on this replica")))
          else if bool_decide (previous = Some route) then
            Ret (Done (Err (SERVICE_UNAVAILABLE, "Controller " +:+ controller_id
                              +:+ " ownership did not advance")))
          else
            answer <~ ForwardHttp route controller_id op ;;
            match answer with
            | None => Ret DroppedFuture
            | Some (Ok response) =>
                _ <~ FAtomic (emit (ForwardMetric "proxy" "remote" "success")) ;;
                Ret (Done (Ok response))
            | Some (Err error) =>
                if bool_decide (attempt = 0%Z ∧ fe_kind error = StaleOwnership) then
                  forward_loop attempts (attempt + 1) (Some route) local_holder controller_id id op
                else
                  _ <~ FAtomic (emit (ForwardMetric "proxy" "remote" "error")) ;;
                  Ret (Done (Err (proxy_error error)))
            end
      end
  end.

Definition forward_body (controller_id : string) (op : ForwardHttpOperation) :
    prog fwd_call (outcome proxy_result) :=
  pbind (local_session_is_dispatchable controller_id) (λ dispatchable,
    if dispatchable : bool then
      pbind (forward_local controller_id op) (λ r,
        match r with
        | Done r =>
            _ <~ FAtomic (emit (ForwardMetric "proxy" "local"
                                  (if is_ok r then "success" else "error"))) ;;
            Ret (Done r)
        | r => Ret r
        end)
    else
      match pf_local_holder pf with
      | None => forward_local controller_id op
      | Some local_holder =>
          match ControllerId_new controller_id with
          | Err error => Ret (Done (Err (BAD_REQUEST, CoreError_fmt debug error)))
          | Ok id => forward_loop 2 0 None local_holder controller_id id op
          end
      end).

Definition with_headers (headers : gmap string string) (op : ForwardHttpOperation) :
    ForwardHttpOperation :=
  {| fo_method := fo_method op; fo_path := fo_path op; fo_headers := headers;
     fo_body := fo_body op |}.

(** [tokio::time::timeout] around the body: a body dropped at an await is a
    gateway timeout. *)
Definition forward (controller_id : string) (op : ForwardHttpOperation) :
    prog fwd_call (outcome proxy_result) :=
  pbind (forward_body controller_id (with_headers (sanitize_headers (fo_headers op)) op))
    (λ r, Ret (match r with
               | DroppedFuture => Done (Err timeout_error)
               | r => r
               end)).
End Proxy.

(** ** Evictions *)

Section Eviction.
Context (debug : string → string).

(** [ControllerRegistry::remove]: only the map removal holds the lock. *)
Definition registry_remove {A} (controller_id : string) (k : prog fwd_call A) :
    prog fwd_call A :=
  removed <~ FAtomic (on_registry (remove_entry controller_id)) ;;
  match removed with
  | None => k
  | Some session =>
      _ <~ FAtomic (on_registry (λ r, (tt, remove_invalidate session r))) ;;
      _ <~ FAtomic (on_registry (λ r, (tt, remove_finish session r))) ;;
      k
  end.

Definition evict_unfenced {A} (controller_id : string) (k : prog fwd_call A) :
    prog fwd_call A :=
  registry_remove controller_id (_ <~ FAtomic (on_aggregator (λ a, (Aggregator.remove controller_id a).2)) ;;
  _ <~ FAtomic (on_client (λ w, (tt, remove_controller controller_id w))) ;;
  k).

Definition evict_fenced (controller_id holder : string) (fence : OwnershipFence) :
    prog fwd_call (CoreResult ()) :=
  session <~ get_session_call controller_id ;;
  match session with
  | None => Ret (Err (Conflict "controller session moved before eviction"))
  | Some session =>
      matches <~ FAtomic (read (λ x, matches_ownership session holder fence (cx_registry x))) ;;
      if matches : bool then evict_unfenced controller_id (Ret (Ok ()))
      else Ret (Err (Conflict "controller ownership changed before eviction"))
  end.

Fixpoint evict_live_loop (attempts : nat) (attempt : Z)
    (previous : option ControllerOwnerRoute) (local_holder id : string)
    (expected_fence : OwnershipFence) : prog fwd_call (outcome (CoreResult ())) :=
  match attempts with
  | O => Ret Unreachable
  | S attempts =>
      located <~ Locate id ;;
      match located with
      | None => Ret DroppedFuture
      | Some (Err error) => Ret (Done (Err error))
      | Some (Ok None) => Ret (Done (Ok ()))
      | Some (Ok (Some route)) =>
          if bool_decide (route_ownership_fence route ≠ expected_fence) then Ret (Done (Ok ()))
          else if bool_decide (previous = Some route) then
            Ret (Done (Err (Conflict "controller ownership did not advance during eviction")))
          else
            pbind
              (if String.eqb (route_holder route) local_holder then
                 pbind (evict_fenced id (route_holder route) (route_ownership_fence route))
                   (λ r, Ret (Some (map_err (λ error, {| fe_kind := StaleOwnership;
                                       fe_message := CoreError_fmt debug error |}) r)))
               else (answer <~ ForwardEvict route id ;; Ret answer))
              (λ r,
                 match r with
                 | None => Ret DroppedFuture
                 | Some (Ok _) => Ret (Done (Ok ()))
                 | Some (Err error) =>
                     if bool_decide (attempt = 0%Z ∧ fe_kind error = StaleOwnership) then
                       evict_live_loop attempts (attempt + 1) (Some route) local_holder id
                         expected_fence
                     else
                       Ret (Done (Err (match fe_kind error with
                                       | StaleOwnership => Conflict (fe_message error)
                                       | _ => Adapter (fe_message error)
                                       end)))
                 end)
      end
  end.

Definition evict_live (forwarding : option string) (id : string)
    (target : option EvictionTarget) : prog fwd_call (outcome (CoreResult ())) :=
  match forwarding with
  | None => evict_unfenced id (Ret (Done (Ok ())))
  | Some local_holder =>
      match target ≫= tgt_ownership_fence with
      | None => Ret (Done (Ok ()))
      | Some expected_fence => evict_live_loop 2 0 None local_holder id expected_fence
      end
  end.
End Eviction.

(** ** The forwarding service *)

Record ForwardHttpRequest := {
  fh_operation_id : string;
  fh_controller_id : string;
  fh_target : option OwnershipTarget;
  fh_hop_count : Z;
  fh_request : string;
}.

Record ForwardEvictRequest := {
  fv_operation_id : string;
  fv_controller_id : string;
  fv_target : option OwnershipTarget;
  fv_hop_count : Z;
}.

Inductive ValidationError :=
| Draining | Hop | MissingTarget | WrongTarget | InvalidFence | MissingPeer | InvalidPeer
| DeniedPeer | RequestTooLarge.

Definition validation_status (e : ValidationError) : RpcStatus :=
  let status c m := {| st_code := c; st_message := m |} in
  match e with
  | Draining => status UnavailableCode "replica is draining"
  | Hop => status FailedPreconditionCode "internal forwarding is exactly one hop"
  | MissingTarget => status InvalidArgumentCode "ownership target is required"
  | WrongTarget => status FailedPreconditionCode "target replica changed"
  | InvalidFence => status InvalidArgumentCode "invalid ownership fence"
  | MissingPeer => status UnauthenticatedCode "internal client certificate is required"
  | InvalidPeer => status PermissionDeniedCode "internal client identity is invalid"
  | DeniedPeer => status PermissionDeniedCode "internal client identity is not authorized"
  | RequestTooLarge => status ResourceExhaustedCode "internal forwarding request exceeds limit"
  end.

Definition proxy_dispatch_status (error : FencedProxyError) : RpcStatus :=
  match error with
  | StaleOwnershipError =>
      {| st_code := FailedPreconditionCode; st_message := "controller ownership is stale" |}
  | Dispatch _ _ =>
      {| st_code := UnavailableCode; st_message := "controller dispatch result is uncertain" |}
  end.

Record InternalForwardingService := {
  fs_proxy : ProxyForwarder;
  fs_local_holder : string;
  fs_max_request_bytes : Z;
  fs_max_response_bytes : Z;
  fs_expected_peer_spiffe_id : string;
}.

Section Service.
(** The X.509 parser and the generated protobuf codecs. *)
Context (from_der : string → option (list X509Extension)).
Context (http_encoded_len : ForwardHttpRequest → Z).
Context (evict_encoded_len : ForwardEvictRequest → Z).
Context (decode_request : string → option HttpProxyRequest).
Context (encode_request : HttpProxyRequest → string).
Context (encode_response : HttpProxyResponse → string).
Context (debug : string → string) (fs : InternalForwardingService).

Definition stop_accepting : prog fwd_call () := _ <~ StoreAccepting false ;; Ret tt.

Definition validate_target (accepting : bool) (hop_count : Z) (target : option OwnershipTarget) :
    result OwnershipFence ValidationError :=
  if negb accepting then Err Draining
  else if negb (hop_count =? 1)%Z then Err Hop
  else match target with
       | None => Err MissingTarget
       | Some target =>
           if negb (String.eqb (ot_holder target) (fs_local_holder fs)) then Err WrongTarget
           else if is_empty (ot_fencing_token target) || (ot_fencing_epoch target =? 0)%Z
           then Err InvalidFence
           else Ok {| of_token := ot_fencing_token target;
                      of_epoch := ot_fencing_epoch target |}
       end.

Definition validate_peer (peer_certs : option (list string)) : result () ValidationError :=
  match peer_certs ≫= head with
  | None => Err MissingPeer
  | Some leaf =>
      match extract_single_spiffe_uri from_der leaf with
      | Err _ => Err InvalidPeer
      | Ok actual =>
          if String.eqb actual (fs_expected_peer_spiffe_id fs) then Ok () else Err DeniedPeer
      end
  end.

Definition validate_request_size (encoded_len : Z) : result () ValidationError :=
  if (fs_max_request_bytes fs <? encoded_len)%Z then Err RequestTooLarge else Ok ().

(** The checks both handlers start with; the handler goes on with the fence. *)
Definition validated {A} (peer_certs : option (list string)) (encoded_len hop_count : Z)
    (target : option OwnershipTarget) (refuse : RpcStatus → A)
    (k : OwnershipFence → prog fwd_call A) : prog fwd_call A :=
  match (let? _ := validate_peer peer_certs in validate_request_size encoded_len) with
  | Err e => Ret (refuse (validation_status e))
  | Ok _ =>
      accepting <~ LoadAccepting ;;
      match validate_target accepting hop_count target with
      | Err e => Ret (refuse (validation_status e))
      | Ok fence => k fence
      end
  end.

Definition service_forward_http (peer_certs : option (list string))
    (request : ForwardHttpRequest) : prog fwd_call (outcome (result string RpcStatus)) :=
  validated peer_certs (http_encoded_len request) (fh_hop_count request) (fh_target request)
    (λ st, Done (Err st)) (λ fence,
      match decode_request (fh_request request) with
      | None => Ret (Done (Err {| st_code := InvalidArgumentCode;
                                  st_message := "proxy request is invalid" |}))
      | Some req =>
          if (fs_max_request_bytes fs <? str_len (hq_body req))%Z then
            Ret (Done (Err {| st_code := ResourceExhaustedCode;
                              st_message := "proxy request exceeds limit" |}))
          else
            pbind (forward_fenced_local (fs_proxy fs) (fh_controller_id request)
                     {| fo_method := hq_method req; fo_path := hq_path req;
                        fo_headers := sanitize_headers (hq_headers req);
                        fo_body := hq_body req |} (fs_local_holder fs) fence)
              (λ r, Ret (match r with
                         | DroppedFuture => DroppedFuture
                         | Unreachable => Unreachable
                         | Done (Err e) => Done (Err (proxy_dispatch_status e))
                         | Done (Ok response) =>
                             if (fs_max_response_bytes fs <? str_len (hr_body response))%Z then
                               Done (Err {| st_code := ResourceExhaustedCode;
                                            st_message := "proxy response exceeds limit" |})
                             else Done (Ok (encode_response response))
                         end))
      end).

Definition service_evict_local (peer_certs : option (list string))
    (request : ForwardEvictRequest) : prog fwd_call (result string RpcStatus) :=
  validated peer_certs (evict_encoded_len request) (fv_hop_count request) (fv_target request)
    Err (λ fence,
      pbind (evict_fenced (fv_controller_id request) (fs_local_holder fs) fence)
        (λ r, Ret (match r with
                   | Ok _ => Ok EmptyString
                   | Err e => Err {| st_code := FailedPreconditionCode;
                                     st_message := CoreError_fmt debug e |}
                   end))).

(** The message the gRPC transport sends for a route. *)
Definition transport_http_request (operation_id : string) (route : ControllerOwnerRoute)
    (controller_id : string) (op : ForwardHttpOperation) : ForwardHttpRequest :=
  {| fh_operation_id := operation_id; fh_controller_id := controller_id;
     fh_target := Some (target route); fh_hop_count := 1;
     fh_request := encode_request
       {| hq_request_id := operation_id; hq_method := fo_method op; hq_path := fo_path op;
          hq_headers := sanitize_headers (fo_headers op); hq_body := fo_body op |} |}.

Definition transport_evict_request (operation_id : string) (route : ControllerOwnerRoute)
    (controller_id : string) : ForwardEvictRequest :=
  {| fv_operation_id := operation_id; fv_controller_id := controller_id;
     fv_target := Some (target route); fv_hop_count := 1 |}.
End Service.

(** ** The environment

    [fw_log] records, newest first, what one request did: the identifiers it
    drew, the messages it put on a controller stream, the answers of the locator
    and its hops; [fw_seen] the states in which it took its atomic steps. *)

Inductive fwd_event :=
| EvUuid (id : string)
| EvSend (tx : sender) (req : HttpProxyRequest)
| EvLocate (id : string) (answer : option (CoreResult (option ControllerOwnerRoute)))
| EvHttpHop (route : ControllerOwnerRoute) (controller_id : string)
    (op : ForwardHttpOperation) (answer : option (result HttpProxyResponse ForwardError))
| EvEvictHop (route : ControllerOwnerRoute) (controller_id : string)
    (answer : option (result () ForwardError)).

Record fwd_state := mkFwd {
  fw_center : center;
  fw_accepting : bool;
  fw_log : list fwd_event;
  fw_seen : list center;
}.

Definition logged (e : fwd_event) (s : fwd_state) : fwd_state :=
  mkFwd (fw_center s) (fw_accepting s) (e :: fw_log s) (fw_seen s).

Definition is_pending (id : string) (s : fwd_state) : Prop :=
  is_Some (cx_pending (fw_center s) !! id).

(** A [biased] select takes the cancellation when the token is cancelled; a UUID
    is not the identifier of a pending request; a new channel has no waiter and
    no answer; a received response was answered. *)
Definition fwd_port (X : Type) (e : fwd_call X) : fwd_state → X → fwd_state → Prop :=
  match e in fwd_call X return fwd_state → X → fwd_state → Prop with
  | FAtomic f => λ s a s', ∃ x', f (fw_center s) = (a, x')
                                 ∧ s' = mkFwd x' (fw_accepting s) (fw_log s)
                                              (fw_center s :: fw_seen s)
  | FNewUuid => λ s id s', ¬ is_pending id s ∧ s' = logged (EvUuid id) s
  | NewChannel => λ s rx s',
      (∀ id, cx_pending (fw_center s) !! id ≠ Some rx)
      ∧ (∀ r, (rx, r) ∉ cx_answered (fw_center s)) ∧ s' = s
  | SendOrCancelled cancel tx req => λ s o s',
      match o with
      | Sent => is_cancelled cancel (cx_registry (fw_center s)) = false
                ∧ s' = mkFwd (send tx (HttpProxy req) (fw_center s)).2 (fw_accepting s)
                         (EvSend tx req :: fw_log s) (fw_seen s)
      | SendCancelled => is_cancelled cancel (cx_registry (fw_center s)) = true ∧ s' = s
      | SendClosed | SendDropped => s' = s
      end
  | RecvOrCancelled cancel rx => λ s o s',
      s' = s
      ∧ match o with
        | RecvCancelled => is_cancelled cancel (cx_registry (fw_center s)) = true
        | Received r => (rx, r) ∈ cx_answered (fw_center s)
                        ∧ is_cancelled cancel (cx_registry (fw_center s)) = false
        | _ => True
        end
  | Locate id => λ s a s', s' = logged (EvLocate id a) s
  | ForwardHttp route cid op => λ s a s', s' = logged (EvHttpHop route cid op a) s
  | ForwardEvict route cid => λ s a s', s' = logged (EvEvictHop route cid a) s
  | LoadAccepting => λ s b s', b = fw_accepting s ∧ s' = s
  | StoreAccepting b => λ s _ s', s' = mkFwd (fw_center s) b (fw_log s) (fw_seen s)
  end.

(** What other requests and tasks may do at an await: anything but act for this
    request, whose identifiers they do not know. *)
Definition req_rely (s s' : fwd_state) : Prop :=
  fw_log s' = fw_log s ∧ fw_seen s' = fw_seen s
  ∧ ∀ id, EvUuid id ∈ fw_log s → ¬ is_pending id s → ¬ is_pending id s'.

Abbreviation fwd_safe := (safe fwd_port (λ _ _, True) req_rely).

(** The log is [l], the states of [S] were seen, and no identifier of the request
    but those of [busy] is pending. *)
Definition at_log (busy : list string) (l : list fwd_event) (S : list center) (s : fwd_state) :
    Prop :=
  fw_log s = l ∧ S ⊆ fw_seen s ∧ ∀ id, EvUuid id ∈ l → id ∉ busy → ¬ is_pending id s.

Definition is_send (e : fwd_event) : bool := if e is EvSend _ _ then true else false.
Definition is_hop (e : fwd_event) : bool :=
  match e with EvHttpHop _ _ _ _ | EvEvictHop _ _ _ => true | _ => false end.
Definition hops (l : list fwd_event) : list fwd_event := base.filter (λ e, is_hop e = true) l.

(** A log of hops only in which every hop follows the locator: the event right
    before it is the locator's answer for [id], naming that route. *)
Fixpoint routed (id : string) (l : list fwd_event) : Prop :=
  match l with
  | [] => True
  | e :: l =>
      match e with
      | EvLocate i _ => i = id
      | EvHttpHop r _ _ _ | EvEvictHop r _ _ => ∃ l0, l = EvLocate id (Some (Ok (Some r))) :: l0
      | EvUuid _ | EvSend _ _ => False
      end ∧ routed id l
  end.

Section ForwardingFacts.
Implicit Types (s : fwd_state) (l : list fwd_event) (S : list center).

Lemma at_log_rely busy l S s s' : at_log busy l S s → req_rely s s' → at_log busy l S s'.
Proof.
  intros (Hl&HS&Hp) (Hl'&HS'&Hp'). rewrite Hl in Hl', Hp'. split_and!; [done|by rewrite HS'|].
  intros id Hid Hb. by apply Hp'; [|apply Hp].
Qed.

(** A step that keeps the pending table. *)
Lemma atomic_safe {X A} (f : center → X * center) (k : X → prog fwd_call A) Q busy l S s :
  (∀ x, cx_pending (f x).2 = cx_pending x) →
  at_log busy l S s →
  (∀ x s', at_log busy l (x :: S) s' → fwd_safe Q (k (f x).1) s') →
  fwd_safe Q (Vis (FAtomic f) k) s.
Proof.
  intros Hf Hs Hk. apply (safe_vis fwd_port). intros s1 a s2 HR (x'&Hx&->). split; [done|].
  pose proof (at_log_rely _ _ _ _ _ Hs HR) as (Hl&HS&Hp).
  replace a with (f (fw_center s1)).1 by by rewrite Hx.
  apply (Hk (fw_center s1)). split_and!; [done|simpl; set_solver|].
  intros id Hid Hb. specialize (Hf (fw_center s1)). rewrite Hx in Hf. unfold is_pending.
  simpl in *. rewrite Hf. by apply Hp.
Qed.

Lemma drop_guard_safe {A} (a : A) Q id l S s :
  at_log [id] l S s → (∀ s', at_log [] l S s' → Q a s') → fwd_safe Q (drop_guard id a) s.
Proof.
  intros Hs HQ. apply (safe_vis fwd_port). intros s1 x s2 HR (x'&Hx&->). split; [done|].
  pose proof (at_log_rely _ _ _ _ _ Hs HR) as (Hl&HS&Hp).
  apply HQ. injection Hx as <- <-. split_and!; [done|simpl; set_solver|].
  intros id' Hid _ Hpe. unfold is_pending in Hpe. simpl in Hpe.
  destruct (decide (id' = id)) as [->|Hne].
  - rewrite lookup_delete_eq in Hpe. by destruct Hpe.
  - rewrite lookup_delete_ne in Hpe by done. apply (Hp id'); [done|set_solver|done].
Qed.

(** The removal before the guard is dropped. *)
Lemma remove_then_drop_safe {A} (a : A) Q id l S s :
  at_log [id] l S s → (∀ s', at_log [] l S s' → Q a s') →
  fwd_safe Q (Vis (FAtomic (pending_remove id)) (λ _, drop_guard id a)) s.
Proof.
  intros Hs HQ. apply (safe_vis fwd_port). intros s1 x s2 HR (x'&Hx&->). split; [done|].
  pose proof (at_log_rely _ _ _ _ _ Hs HR) as (Hl&HS&Hp).
  apply (drop_guard_safe _ _ _ l S); [|done]. injection Hx as <- <-.
  split_and!; [done|simpl; set_solver|]. intros id' Hid Hb Hpe. unfold is_pending in Hpe.
  simpl in Hpe. rewrite lookup_delete_ne in Hpe by set_solver. by apply (Hp id').
Qed.

(** What a dispatch of [op] to the stream [otx] adds to the log. *)
Definition dispatch_log (op : ForwardHttpOperation) (otx : option sender) l l' : Prop :=
  l' = l ∨ ∃ tx id, otx = Some tx
    ∧ (l' = EvUuid id :: l ∨ l' = EvSend tx (proxy_message id op) :: EvUuid id :: l).

Lemma dispatch_safe pf cid op session l S s :
  at_log [] l S s →
  fwd_safe (λ r s', r ≠ Unreachable
                    ∧ ∃ l', at_log [] l' S s' ∧ dispatch_log op (sv_stream_tx session) l l')
    (dispatch_to_session pf cid op session) s.
Proof.
  intros Hs. unfold dispatch_to_session.
  destruct (sv_stream_tx session) as [tx|] eqn:Htx; [|by split; [|exists l; split; [|left]]].
  apply (safe_vis fwd_port). intros s1 id s2 HR [Hid ->]. split; [done|].
  pose proof (at_log_rely _ _ _ _ _ Hs HR) as (Hl&HS&Hp).
  assert (H2 : at_log [id] (EvUuid id :: l) S (logged (EvUuid id) s1)).
  { split_and!; [by simpl; rewrite Hl|done|]. intros id' Hid' Hb. apply (Hp id'); set_solver. }
  apply (safe_vis fwd_port). intros s3 rx s4 HR2 (_&_&->). split; [done|].
  pose proof (at_log_rely _ _ _ _ _ H2 HR2) as H3.
  apply (safe_vis fwd_port). intros s5 u s6 HR3 (x'&Hx&->). split; [done|].
  pose proof (at_log_rely _ _ _ _ _ H3 HR3) as (Hl5&HS5&Hp5).
  injection Hx as <- <-.
  match goal with |- safe _ _ _ _ _ ?s6 =>
    assert (H4 : at_log [id] (EvUuid id :: l) S s6) end.
  { split_and!; [done|simpl; set_solver|]. intros id' Hid' Hb. unfold is_pending. simpl.
    rewrite lookup_insert_ne by set_solver. by apply (Hp5 id'). }
  assert (Hdrop : ∀ (r : outcome proxy_result) s', r ≠ Unreachable → at_log [] (EvUuid id :: l) S s' →
    r ≠ Unreachable ∧ ∃ l', at_log [] l' S s' ∧ dispatch_log op (Some tx) l l').
  { intros r s' Hr Hs'. split; [done|]. exists (EvUuid id :: l). split; [done|]. right.
    exists tx, id. auto. }
  apply (safe_vis fwd_port). intros s7 o s8 HR4 Ho. split; [done|].
  pose proof (at_log_rely _ _ _ _ _ H4 HR4) as H5.
  destruct o; simpl in Ho.
  - destruct Ho as [_ ->]. eapply remove_then_drop_safe; [exact H5|]. intros; by apply Hdrop.
  - subst s8. eapply remove_then_drop_safe; [exact H5|]. intros; by apply Hdrop.
  - destruct Ho as [_ ->]. destruct H5 as (Hl7&HS7&Hp7).
    match goal with |- safe _ _ _ _ _ ?s8 =>
      assert (H6 : at_log [id] (EvSend tx (proxy_message id op) :: EvUuid id :: l) S s8) end.
    { split_and!; [by simpl; rewrite Hl7|done|]. intros id' Hid' Hb. apply (Hp7 id'); [|done].
      set_solver. }
    apply (safe_vis fwd_port). intros s9 o s10 HR5 [-> _]. split; [done|].
    pose proof (at_log_rely _ _ _ _ _ H6 HR5) as H7.
    eapply drop_guard_safe; [exact H7|]. intros s' Hs'. split; [by destruct o|].
    eexists. split; [exact Hs'|]. right. exists tx, id. auto.
  - subst s8. eapply drop_guard_safe; [exact H5|]. intros; by apply Hdrop.
Qed.

(** Logging an event that draws no identifier. *)
Lemma at_log_log e busy l S s :
  match e with EvUuid _ => False | _ => True end →
  at_log busy l S s → at_log busy (e :: l) S (logged e s).
Proof.
  intros He (Hl&HS&Hp). split_and!; [by simpl; rewrite Hl|done|]. intros id Hid Hb.
  apply (Hp id); [|done]. apply elem_of_cons in Hid as [<-|]; [done|done].
Qed.

Lemma at_log_forget busy l S s : at_log busy l S s → at_log busy l [] s.
Proof. intros (?&?&?). split_and!; [done|set_solver|done]. Qed.

Lemma at_log_seen busy l x S s : at_log busy l (x :: S) s → at_log busy l S s.
Proof. intros (?&?&?). split_and!; [done|set_solver|done]. Qed.

(** During the request a session of [cid] sending to [tx] was found. *)
Definition found (cid : string) (tx : sender) s : Prop :=
  ∃ x v, x ∈ fw_seen s ∧ get_session cid (cx_registry x) = Some v ∧ sv_stream_tx v = Some tx.

(** During the request a session of [cid] was found with an ownership that was
    still valid when it was read. *)
Definition owned (cid : string) s : Prop :=
  ∃ x1 x2 v o, x1 ∈ fw_seen s ∧ x2 ∈ fw_seen s ∧ get_session cid (cx_registry x1) = Some v
    ∧ sv_ownership v = Some o ∧ is_valid o (cx_registry x2) = true.

(** A dispatch of [op] to the stream of a session of [cid]. *)
Definition local_log (cid : string) (op : ForwardHttpOperation) s : Prop :=
  fw_log s = [] ∨ ∃ tx id, found cid tx s
    ∧ (fw_log s = [EvUuid id] ∨ fw_log s = [EvSend tx (proxy_message id op); EvUuid id]).

Lemma forward_local_safe pf cid op S s :
  at_log [] [] S s →
  fwd_safe (λ r s', r ≠ Unreachable ∧ (∃ l', at_log [] l' S s') ∧ local_log cid op s')
    (forward_local pf cid op) s.
Proof.
  intros Hs. apply (atomic_safe (read _) _ _ [] [] S); [done..|]. intros x s' Hs'.
  cbn [fst read]. destruct (get_session cid (cx_registry x)) as [v|] eqn:Hv.
  - eapply (safe_mono fwd_port); [|apply (dispatch_safe _ _ _ _ [] (x :: S)); exact Hs'].
    intros r s2 (Hr&l'&Hl'&Hd). split; [done|].
    split; [exists l'; by eapply at_log_seen|]. destruct Hl' as (Hl'&HS&_).
    unfold local_log. rewrite Hl'. destruct Hd as [->|(tx&id&Htx&Hd)]; [by left|right].
    exists tx, id. split; [|done]. exists x, v. split_and!; [set_solver|done..].
  - split; [done|]. split; [exists []; by eapply at_log_seen|]. left. apply Hs'.
Qed.

Lemma dispatchable_safe pf cid l S s Q :
  at_log [] l S s →
  (∀ b S' s', at_log [] l S' s' →
     (b = true → pf_local_holder pf ≠ None → ∀ s2 l2, at_log [] l2 S' s2 → owned cid s2) →
     Q b s') →
  fwd_safe Q (local_session_is_dispatchable pf cid) s.
Proof.
  intros Hs HQ. apply (atomic_safe (read _) _ _ [] l S); [done..|].
  intros x s' Hs'. cbn [fst read].
  destruct (get_session cid (cx_registry x)) as [v|] eqn:Hv; [|by eapply HQ].
  destruct (sv_stream_tx v), (pf_local_holder pf) eqn:Hpf; try by eapply HQ.
  destruct (sv_ownership v) as [o|] eqn:Ho; [|by eapply HQ].
  apply (atomic_safe (read _) _ _ [] l (x :: S)); [done..|]. intros y s2 Hs2.
  eapply HQ; [exact Hs2|]. cbn [fst read]. intros Hval _ s3 l3 (_&HS&_).
  exists x, y, v, o. split_and!; [set_solver|set_solver|done..].
Qed.

(** One iteration of the forwarding loop: it ends without a hop, ends after a
    hop to a new remote owner, or goes on after a stale answer. *)
Lemma forward_iteration debug Q attempts attempt previous holder cid id op l S s :
  at_log [] l S s → routed id l →
  (∀ r l' s', at_log [] l' S s' → hops l' = hops l → routed id l' → r ≠ Unreachable → Q r s') →
  (∀ route a r l' s', at_log [] l' S s' →
     previous ≠ Some route → route_holder route ≠ holder → r ≠ Unreachable →
     hops l' = EvHttpHop route cid op a :: hops l → routed id l' → Q r s') →
  (∀ route e l' s', at_log [] l' S s' →
     attempt = 0%Z → fe_kind e = StaleOwnership → route_holder route ≠ holder →
     hops l' = EvHttpHop route cid op (Some (Err e)) :: hops l → routed id l' →
     fwd_safe Q (forward_loop debug attempts (attempt + 1) (Some route) holder cid id op) s') →
  fwd_safe Q (forward_loop debug (Datatypes.S attempts) attempt previous holder cid id op) s.
Proof.
  intros Hs Hr Hend Hhop Hagain. cbn [forward_loop]. apply (safe_vis fwd_port).
  intros s1 located s2 HR1 ->. split; [done|].
  pose proof (at_log_rely _ _ _ _ _ Hs HR1) as H0.
  apply (at_log_log (EvLocate id located)) in H0 as H1; [|done].
  destruct located as [[[route|]|e]|]; [|by eapply Hend..].
  destruct (String.eqb_spec (route_holder route) holder) as [|Hh]; [by eapply Hend|].
  case_bool_decide as Hprev; [by eapply Hend|].
  apply (safe_vis fwd_port). intros s3 a s4 HR2 ->. split; [done|].
  pose proof (at_log_rely _ _ _ _ _ H1 HR2) as H2.
  apply (at_log_log (EvHttpHop route cid op a)) in H2; [|done].
  assert (Hr2 : routed id (EvHttpHop route cid op a :: EvLocate id (Some (Ok (Some route))) :: l))
    by (split; [by eexists|done]).
  destruct a as [[resp|e]|]; [..|by eapply Hhop].
  - eapply (atomic_safe (emit _)); [done|exact H2|]. intros x s' Hs'%at_log_seen. by eapply Hhop.
  - case_bool_decide as He.
    + destruct He as [-> He]. by eapply (Hagain route e).
    + eapply (atomic_safe (emit _)); [done|exact H2|]. intros x s' Hs'%at_log_seen.
      by eapply Hhop.
Qed.

(** The hops of one forwarded request. *)
Definition remote_hops (holder cid : string) (op : ForwardHttpOperation) l : Prop :=
  match l with
  | [] => True
  | [EvHttpHop r1 c1 o1 _] => c1 = cid ∧ o1 = op ∧ route_holder r1 ≠ holder
  | [EvHttpHop r2 c2 o2 _; EvHttpHop r1 c1 o1 a1] =>
      c1 = cid ∧ c2 = cid ∧ o1 = op ∧ o2 = op
      ∧ r1 ≠ r2 ∧ route_holder r1 ≠ holder ∧ route_holder r2 ≠ holder
      ∧ ∃ e, a1 = Some (Err e) ∧ fe_kind e = StaleOwnership
  | _ => False
  end.

(** A log of at most two hops, each along the route the locator has just
    answered for the controller. *)
Definition remote_log (holder cid : string) (op : ForwardHttpOperation) l : Prop :=
  ∃ id, ControllerId_new cid = Ok id ∧ routed id l ∧ remote_hops holder cid op (hops l).

Lemma forward_loop_safe debug holder cid id op S s :
  ControllerId_new cid = Ok id → at_log [] [] S s →
  fwd_safe (λ r s', r ≠ Unreachable ∧ ∃ l', at_log [] l' S s' ∧ remote_log holder cid op l')
    (forward_loop debug 2 0 None holder cid id op) s.
Proof.
  intros Hid Hs. apply (forward_iteration _ _ _ _ _ _ _ _ _ [] S); [done|done|..].
  - intros r l' s' Hs' Hh Hr Hne. split; [done|]. exists l'. split; [done|]. exists id.
    by rewrite Hh.
  - intros route a r l' s' Hs' _ Hh Hne Hl' Hr. split; [done|]. exists l'. split; [done|].
    exists id. by rewrite Hl'.
  - intros r1 e l1 s1 Hs1 _ He Hh Hl1 Hr1.
    apply (forward_iteration _ _ _ _ _ _ _ _ _ l1 S); [done|done|..].
    + intros r l' s' Hs' Hl' Hr Hne. split; [done|]. exists l'. split; [done|]. exists id.
      by rewrite Hl', Hl1.
    + intros r2 a r l' s' Hs' Hne Hh2 Hnr Hl' Hr. split; [done|]. exists l'. split; [done|].
      exists id. rewrite Hl', Hl1. simpl.
      split_and!; try done; [congruence|by exists e].
    + intros; lia.
Qed.

(** C8.  One proxied request.  Whatever other tasks do at its await points,
    a request is either put at most once on a stream, which is that of a session
    of the requested controller looked up during the request, and when the
    replica forwards at all only after a session of that controller was found
    with a valid ownership; or sent to at most two remote owners, each along the
    route the locator has just answered for that controller, never to this
    replica itself, and to a second one only after the first answered that its
    ownership is stale and only along a different route; the operation on every
    path is the caller's with its headers filtered.  The loop never falls
    through, and when the request ends, also by its deadline, no entry of it is
    left in the table of pending requests. *)
Theorem forward_at_most_once debug pf cid op s :
  fw_log s = [] → fw_seen s = [] →
  let op' := with_headers (sanitize_headers (fo_headers op)) op in
  fwd_safe (λ r s', r ≠ Unreachable ∧ r ≠ DroppedFuture
      ∧ (∀ id, EvUuid id ∈ fw_log s' → ¬ is_pending id s')
      ∧ (local_log cid op' s' ∧ (pf_local_holder pf ≠ None → fw_log s' = [] ∨ owned cid s')
         ∨ ∃ holder, pf_local_holder pf = Some holder
                     ∧ remote_log holder cid op' (fw_log s')))
    (forward debug pf cid op) s.
Proof.
  intros Hl _ op'. unfold forward. fold op'. apply (safe_bind fwd_port).
  apply (safe_mono fwd_port) with (Q := λ r s', r ≠ Unreachable ∧ (∃ l', at_log [] l' [] s')
    ∧ (local_log cid op' s' ∧ (pf_local_holder pf ≠ None → fw_log s' = [] ∨ owned cid s')
       ∨ ∃ h, pf_local_holder pf = Some h ∧ remote_log h cid op' (fw_log s'))).
  { intros r s' (Hr&(l'&(Hl'&_&Hp))&Hlog). simpl.
    split_and!; [by destruct r|by destruct r| |done]. rewrite Hl'. intros id Hid.
    apply (Hp id); set_solver. }
  assert (Hs : at_log [] [] [] s) by (split_and!; [done|set_solver|set_solver]).
  apply (safe_bind fwd_port). apply (dispatchable_safe _ _ [] []); [done|].
  intros b S1 s1 Hs1 Hown.
  pose proof (forward_local_safe pf cid op' S1 s1 Hs1) as Hloc.
  destruct b.
  - apply (safe_bind fwd_port). eapply (safe_mono fwd_port); [|exact Hloc].
    intros r s2 (Hr&(l'&Hl')&Hd).
    assert (Hdone : ∀ s3, at_log [] l' S1 s3 → fw_log s3 = fw_log s2 → fw_seen s2 ⊆ fw_seen s3 →
      (∃ l', at_log [] l' [] s3)
      ∧ (local_log cid op' s3 ∧ (pf_local_holder pf ≠ None → fw_log s3 = [] ∨ owned cid s3)
         ∨ ∃ h, pf_local_holder pf = Some h ∧ remote_log h cid op' (fw_log s3))).
    { intros s3 Hs3 Hlog3 Hseen. split; [exists l'; by eapply at_log_forget|]. left. split.
      - unfold local_log in *. rewrite Hlog3.
        destruct Hd as [|(tx&id&(x&v&Hx&?)&?)]; [by left|right]. exists tx, id. split; [|done].
        exists x, v. split; [by apply Hseen|done].
      - intros Hpf. right. by eapply Hown. }
    destruct r as [r| |]; [|split; [done|]; by apply Hdone|done].
    apply (safe_vis fwd_port). intros s3 u s4 HR (x'&Hx&->). injection Hx as <- <-.
    split; [done|].
    pose proof (at_log_rely _ _ _ _ _ Hl' HR) as (Hl3&HS3&Hp3). split; [done|].
    destruct HR as (Hrl&Hrs&_). apply Hdone; [|done|simpl; rewrite Hrs; set_solver].
    split_and!; [done|simpl; set_solver|done].
  - destruct (pf_local_holder pf) as [h|] eqn:Hpf.
    + destruct (ControllerId_new cid) as [id|e] eqn:Hid.
      * eapply (safe_mono fwd_port); [|apply (forward_loop_safe _ h cid id _ S1 s1 Hid Hs1)].
        intros r s2 (Hr&l'&Hl'&Hd). split; [done|]. split; [exists l'; by eapply at_log_forget|].
        right. exists h. split; [done|]. destruct Hl' as [-> _]. exact Hd.
      * split; [done|]. split; [exists []; by eapply at_log_forget|]. left.
        split; [left; apply Hs1|]. intros _. left. apply Hs1.
    + eapply (safe_mono fwd_port); [|exact Hloc]. intros r s2 (Hr&(l'&Hl')&Hd).
      split; [done|]. split; [exists l'; by eapply at_log_forget|]. left. split; [done|].
      by intros [].
Qed.

(** During the request a session of [cid] with the stream [tx] was found, and its
    ownership matched the holder and the fence and was still valid. *)
Definition authorized (cid holder : string) (fence : OwnershipFence) (tx : sender) s : Prop :=
  ∃ x1 x2 v, x1 ∈ fw_seen s ∧ x2 ∈ fw_seen s ∧ get_session cid (cx_registry x1) = Some v
    ∧ sv_stream_tx v = Some tx ∧ matches_ownership v holder fence (cx_registry x2) = true.

(** The outcome of a fenced dispatch: a stale answer means that nothing was
    done, and a message is sent only with the authority of the fence. *)
Definition fenced_post (cid : string) (op : ForwardHttpOperation) (holder : string)
    (fence : OwnershipFence) (r : outcome (result HttpProxyResponse FencedProxyError)) s : Prop :=
  r ≠ Unreachable ∧ ∃ l, at_log [] l [] s ∧ (r = Done (Err StaleOwnershipError) → l = [])
  ∧ (l = [] ∨ ∃ tx id, authorized cid holder fence tx s
       ∧ (l = [EvUuid id] ∨ l = [EvSend tx (proxy_message id op); EvUuid id])).

Lemma fenced_local_safe pf cid op holder fence s :
  at_log [] [] [] s →
  fwd_safe (fenced_post cid op holder fence) (forward_fenced_local pf cid op holder fence) s.
Proof.
  intros Hs.
  assert (Hstale : ∀ s', at_log [] [] [] s' →
    fenced_post cid op holder fence (Done (Err StaleOwnershipError)) s').
  { intros s' Hs'. split; [done|]. exists []. auto. }
  apply (atomic_safe (read _) _ _ [] [] []); [done..|]. intros x1 s1 Hs1. cbn [fst read].
  destruct (get_session cid (cx_registry x1)) as [v|] eqn:Hv;
    [|apply Hstale; by eapply at_log_seen].
  apply (atomic_safe (read _) _ _ [] [] [x1]); [done..|]. intros x2 s2 Hs2. cbn [fst read].
  destruct (matches_ownership v holder fence (cx_registry x2)) eqn:Hm;
    [|apply Hstale; by do 2 eapply at_log_seen].
  apply (safe_bind fwd_port).
  eapply (safe_mono fwd_port); [|apply (dispatch_safe _ _ _ _ [] [x2; x1] s2 Hs2)].
  intros r s3 (Hr&l'&Hl'&Hd). simpl. split; [by destruct r|]. exists l'.
  split; [by do 2 eapply at_log_seen|].
  split; [destruct r as [[]| |]; simpl; try done; by destruct_and?; repeat case_match|].
  destruct Hd as [->|(tx&id&Htx&Hd)]; [by left|]. right. exists tx, id. split; [|done].
  destruct Hl' as (_&HS&_). exists x1, x2, v. split_and!; [set_solver|set_solver|done..].
Qed.

Section ServiceFacts.
Context (from_der : string → option (list X509Extension)).
Context (http_encoded_len : ForwardHttpRequest → Z).
Context (decode_request : string → option HttpProxyRequest).
Context (encode_response : HttpProxyResponse → string).
Context (fs : InternalForwardingService).

(** What the service requires of a request it acts on, and the fence it uses. *)
Definition admitted (peer_certs : option (list string)) (encoded_len hop_count : Z)
    (tgt : option OwnershipTarget) (fence : OwnershipFence) : Prop :=
  (∃ leaf rest, peer_certs = Some (leaf :: rest)
     ∧ extract_single_spiffe_uri from_der leaf = Ok (fs_expected_peer_spiffe_id fs))
  ∧ (encoded_len <= fs_max_request_bytes fs)%Z ∧ hop_count = 1%Z
  ∧ tgt = Some {| ot_holder := fs_local_holder fs; ot_fencing_token := of_token fence;
                  ot_fencing_epoch := of_epoch fence |}
  ∧ of_token fence ≠ "" ∧ of_epoch fence ≠ 0%Z.

Lemma validated_safe {A} peer_certs len hops tgt (refuse : RpcStatus → A) k Q s :
  at_log [] [] [] s →
  (∀ st s', at_log [] [] [] s' → Q (refuse st) s') →
  (∀ fence s', fw_accepting s' = true → at_log [] [] [] s' →
     admitted peer_certs len hops tgt fence → fwd_safe Q (k fence) s') →
  fwd_safe Q (validated from_der fs peer_certs len hops tgt refuse k) s.
Proof.
  intros Hs Href Hk. unfold validated.
  destruct (let? _ := validate_peer from_der fs peer_certs in validate_request_size fs len)
    as [[]|e] eqn:Hpre; [|by apply Href].
  apply (safe_vis fwd_port). intros s1 b s2 HR [-> ->]. split; [done|].
  pose proof (at_log_rely _ _ _ _ _ Hs HR) as H1.
  destruct (validate_target fs (fw_accepting s1) hops tgt) as [fence|e] eqn:Ht;
    [|by apply Href].
  unfold validate_peer, validate_request_size in Hpre. unfold validate_target in Ht.
  destruct (fw_accepting s1) eqn:Hacc; simpl in Ht; [|done].
  destruct (Z.eqb_spec hops 1) as [->|]; simpl in Ht; [|done].
  destruct tgt as [[h tok ep]|]; [|done]. simpl in Ht.
  destruct (String.eqb_spec h (fs_local_holder fs)) as [->|]; simpl in Ht; [|done].
  destruct tok as [|c tok]; simpl in Ht; [done|].
  destruct (Z.eqb_spec ep 0); simpl in Ht; [done|]. injection Ht as <-.
  destruct peer_certs as [[|leaf rest]|]; simpl in Hpre; [done| |done].
  destruct (extract_single_spiffe_uri from_der leaf) as [uri|] eqn:Huri; simpl in Hpre; [|done].
  destruct (String.eqb_spec uri (fs_expected_peer_spiffe_id fs)) as [->|];
    simpl in Hpre; [|done].
  destruct (Z.ltb_spec (fs_max_request_bytes fs) len); simpl in Hpre; [done|].
  apply Hk; [done|done|]. split_and!; [by eauto|lia|done|done|done|done].
Qed.

Definition service_post (peer_certs : option (list string)) (request : ForwardHttpRequest)
    (r : outcome (result string RpcStatus)) (s' : fwd_state) : Prop :=
  r ≠ Unreachable
  ∧ (∀ id, EvUuid id ∈ fw_log s' → ¬ is_pending id s')
  ∧ length (base.filter (λ e, is_send e = true) (fw_log s')) ≤ 1
  ∧ (∀ tx req, EvSend tx req ∈ fw_log s' → ∃ fence d id,
       admitted peer_certs (http_encoded_len request) (fh_hop_count request)
         (fh_target request) fence
       ∧ decode_request (fh_request request) = Some d
       ∧ authorized (fh_controller_id request) (fs_local_holder fs) fence tx s'
       ∧ req = {| hq_request_id := id; hq_method := hq_method d; hq_path := hq_path d;
                  hq_headers := sanitize_headers (hq_headers d); hq_body := hq_body d |})
  ∧ (∀ st, r = Done (Err st) → fe_kind (from_status st) = StaleOwnership →
       ∀ tx req, EvSend tx req ∉ fw_log s').

(** The forwarding service acts only for the owner it was asked for.
    A request reaches a controller stream only if the peer presented the
    expected identity, the request came over exactly one hop and names this
    replica and a non-empty fence, and a session with a valid ownership under
    that very fence was found; what is sent is the decoded request with its
    headers filtered, at most once, and no entry stays pending.  When the
    answer is one the calling replica takes for a stale ownership, and may
    therefore retry elsewhere, nothing was sent. *)
Theorem service_fenced_dispatch peer_certs request s :
  fw_log s = [] →
  fwd_safe (service_post peer_certs request)
    (service_forward_http from_der http_encoded_len decode_request encode_response fs
       peer_certs request) s.
Proof.
  intros Hl. assert (Hs : at_log [] [] [] s) by (split_and!; [done|set_solver|set_solver]).
  assert (Hnone : ∀ r s', r ≠ Unreachable → at_log [] [] [] s' →
    service_post peer_certs request r s').
  { intros r s' Hr (Hl'&_&_). unfold service_post. rewrite Hl'.
    split_and!; [done|set_solver|simpl; lia|set_solver|set_solver]. }
  apply validated_safe; [done|by intros; apply Hnone|]. intros fence s1 _ Hs1 Hadm.
  destruct (decode_request (fh_request request)) as [d|] eqn:Hd; [|by apply Hnone].
  case_match; [by apply Hnone|].
  apply (safe_bind fwd_port). eapply (safe_mono fwd_port); [|by apply fenced_local_safe].
  intros r s2 (Hr&l'&(Hl'&_&Hp)&Hstale&Hlog). simpl. unfold service_post. rewrite Hl'.
  split_and!.
  - destruct r as [[]| |]; simpl; try done. by case_match.
  - intros id Hid. apply (Hp id); [done|set_solver].
  - destruct Hlog as [->|(tx&id&_&[->| ->])]; simpl; lia.
  - destruct Hlog as [->|(tx&id&Ha&[->| ->])]; intros tx' req Hin;
      [set_solver|set_solver|].
    assert (tx' = tx ∧ req = proxy_message id {| fo_method := hq_method d;
      fo_path := hq_path d; fo_headers := sanitize_headers (hq_headers d);
      fo_body := hq_body d |}) as [-> ->] by set_solver.
    exists fence, d, id. done.
  - intros st Hst Hk.
    assert (Hl0 : l' = []); [|intros tx req; rewrite Hl0; apply not_elem_of_nil].
    apply Hstale. destruct r as [[resp|[|status m]]| |]; simpl in Hst; try done.
    + case_match; [injection Hst as <-|]; done.
    + injection Hst as <-. done.
Qed.
End ServiceFacts.
End ForwardingFacts.

(** ** Header filtering *)

Section Headers.
Implicit Types (h : gmap string string).

Lemma eq_ignore_denied k :
  to_ascii_lowercase k ∈ DENIED ↔ ∃ d, d ∈ DENIED ∧ eq_ignore_ascii_case k d = true.
Proof.
  assert (Hd : ∀ d, d ∈ DENIED → to_ascii_lowercase d = d).
  { intros d Hd. unfold DENIED in Hd.
    repeat (apply elem_of_cons in Hd as [->|Hd]; [reflexivity|]). by apply not_elem_of_nil in Hd. }
  unfold eq_ignore_ascii_case. split.
  - intros Hk. exists (to_ascii_lowercase k). split; [done|].
    rewrite (Hd _ Hk). apply String.eqb_refl.
  - intros (d&Hin&He%String.eqb_eq). by rewrite He, Hd.
Qed.

Lemma lower_is_empty s : is_empty (to_ascii_lowercase s) = is_empty s.
Proof. by destruct s. Qed.

(** [n] is one of the non-empty names a [Connection] header of [h] lists. *)
Definition nominates h (n : string) : Prop :=
  ∃ c v piece, h !! c = Some v ∧ eq_ignore_ascii_case c "connection" = true
    ∧ piece ∈ str_split comma v ∧ str_trim piece = n ∧ n ≠ "".

Lemma elem_of_nominated h k :
  to_ascii_lowercase k ∈ nominated h ↔ ∃ n, nominates h n ∧ eq_ignore_ascii_case k n = true.
Proof.
  unfold nominated, eq_ignore_ascii_case, nominates.
  rewrite list_elem_of_filter, list_elem_of_fmap. split.
  - intros (Hne&piece&Hk&(ps&Hp&(kv&->&[Hc Hkv]%list_elem_of_filter)%list_elem_of_fmap)
              %list_elem_of_join).
    destruct kv as [c v]. apply elem_of_map_to_list in Hkv. exists (str_trim piece).
    rewrite Hk, lower_is_empty in Hne. split; [|by rewrite Hk; apply String.eqb_refl].
    exists c, v, piece. split_and!; [done..|]. by intros Hn; rewrite Hn in Hne.
  - intros (n&(c&v&piece&Hv&Hc&Hp&<-&Hn)&Hk%String.eqb_eq). rewrite Hk. split.
    + rewrite lower_is_empty. by destruct (str_trim piece).
    + exists piece. split; [done|]. apply list_elem_of_join. exists (str_split comma v).
      split; [done|]. apply list_elem_of_fmap. exists (c, v). split; [done|].
      apply list_elem_of_filter. split; [done|]. by apply elem_of_map_to_list.
Qed.

(** A header that may be passed on. *)
Definition forwardable h (k : string) : Prop :=
  (∀ d, d ∈ DENIED → eq_ignore_ascii_case k d = false)
  ∧ ∀ n, nominates h n → eq_ignore_ascii_case k n = false.

Lemma forwardable_alt h k :
  forwardable h k ↔ to_ascii_lowercase k ∉ DENIED ∧ to_ascii_lowercase k ∉ nominated h.
Proof.
  rewrite eq_ignore_denied, elem_of_nominated. unfold forwardable. split.
  - intros [Hd Hn]. split; [intros (d&?&He)|intros (n&?&He)]; [rewrite Hd in He|rewrite Hn in He]; done.
  - intros [Hd Hn]. split; [intros d ?|intros n ?]; apply not_true_iff_false; intros He;
      [apply Hd|apply Hn]; eauto.
Qed.

Lemma sanitized_nominates_nothing h n : ¬ nominates (sanitize_headers h) n.
Proof.
  intros (c&v&piece&Hv&Hc&_). apply map_lookup_filter_Some in Hv as [_ [Hd _]]. apply Hd.
  simpl. apply eq_ignore_denied. exists "connection". split; [set_solver|done].
Qed.

(** Header filtering.  Exactly the headers survive whose name is, up to
    ASCII case, neither one of the credential and hop-by-hop names nor named by
    any [Connection] header of the request; their values are untouched, and
    filtering again on the next replica changes nothing. *)
Theorem sanitize_headers_exact h :
  (∀ k v, sanitize_headers h !! k = Some v ↔ h !! k = Some v ∧ forwardable h k)
  ∧ sanitize_headers (sanitize_headers h) = sanitize_headers h.
Proof.
  assert (Hspec : ∀ g k v, sanitize_headers g !! k = Some v ↔ g !! k = Some v ∧ forwardable g k).
  { intros g k v. unfold sanitize_headers. rewrite map_lookup_filter_Some. simpl.
    by rewrite forwardable_alt. }
  split; [apply Hspec|]. apply map_eq. intros k. apply option_eq. intros v.
  rewrite Hspec. split; [by intros []|]. intros Hv. split; [done|].
  apply Hspec in Hv as [_ [Hd _]]. split; [done|]. intros n Hn.
  by destruct (sanitized_nominates_nothing h n).
Qed.
End Headers.

(** ** Evictions *)

Section EvictionFacts.
Context (debug : string → string).
Implicit Types (s : fwd_state) (l : list fwd_event).

Lemma registry_remove_safe {A} cid (k : prog fwd_call A) Q l s :
  at_log [] l [] s → (∀ s', at_log [] l [] s' → fwd_safe Q k s') →
  fwd_safe Q (registry_remove cid k) s.
Proof.
  intros Hs Hk. unfold registry_remove.
  apply (atomic_safe _ _ _ [] l []); [|done|].
  { intros x. unfold on_registry. by destruct (remove_entry cid (cx_registry x)). }
  intros x s1 H1%at_log_seen. destruct (_.1) as [session|]; [|by apply Hk].
  apply (atomic_safe _ _ _ [] l []); [done..|].
  intros y s2 H2%at_log_seen. apply (atomic_safe _ _ _ [] l []); [done..|].
  intros z s3 H3%at_log_seen. by apply Hk.
Qed.

Lemma evict_unfenced_safe {A} cid (k : prog fwd_call A) Q l s :
  at_log [] l [] s → (∀ s', at_log [] l [] s' → fwd_safe Q k s') →
  fwd_safe Q (evict_unfenced cid k) s.
Proof.
  intros Hs Hk. apply (registry_remove_safe _ _ _ l); [done|].
  intros s1 H1. apply (atomic_safe _ _ _ [] l []); [done..|].
  intros y s2 H2%at_log_seen. apply (atomic_safe _ _ _ [] l []); [done..|].
  intros z s3 H3%at_log_seen. by apply Hk.
Qed.

Lemma evict_fenced_safe cid holder fence l s Q :
  at_log [] l [] s → (∀ r s', at_log [] l [] s' → Q r s') →
  fwd_safe Q (evict_fenced cid holder fence) s.
Proof.
  intros Hs HQ. apply (atomic_safe (read _) _ _ [] l []); [done..|].
  intros x s1 H1%at_log_seen. cbn [fst read].
  destruct (get_session cid (cx_registry x)) as [v|]; [|by apply HQ].
  apply (atomic_safe (read _) _ _ [] l []); [done..|]. intros y s2 H2%at_log_seen.
  cbn [fst read]. case_match; [|by apply HQ]. eapply evict_unfenced_safe; [exact H2|].
  intros s3 H3. by apply HQ.
Qed.

Definition evict_hop (holder : string) (fence : OwnershipFence) (route : ControllerOwnerRoute) :
    Prop := route_ownership_fence route = fence ∧ route_holder route ≠ holder.

(** The hops of one eviction. *)
Definition evict_hops (holder cid : string) (fence : OwnershipFence) l : Prop :=
  match l with
  | [] => True
  | [EvEvictHop r1 c1 _] => c1 = cid ∧ evict_hop holder fence r1
  | [EvEvictHop r2 c2 _; EvEvictHop r1 c1 a1] =>
      c1 = cid ∧ c2 = cid ∧ evict_hop holder fence r1 ∧ evict_hop holder fence r2 ∧ r1 ≠ r2
      ∧ ∃ e, a1 = Some (Err e) ∧ fe_kind e = StaleOwnership
  | _ => False
  end.

(** One iteration of the eviction loop: it ends, with or without a hop to the
    owner under the expected fence, or goes on after a stale answer. *)
Lemma evict_iteration Q attempts attempt previous holder id fence l s :
  at_log [] l [] s → routed id l →
  (∀ r l' s', at_log [] l' [] s' → hops l' = hops l → routed id l' → r ≠ Unreachable →
     Q r s') →
  (∀ route a r l' s', at_log [] l' [] s' →
     previous ≠ Some route → evict_hop holder fence route → r ≠ Unreachable →
     hops l' = EvEvictHop route id a :: hops l → routed id l' → Q r s') →
  (∀ route l' s', at_log [] l' [] s' → attempt = 0%Z →
     (hops l' = hops l
      ∨ ∃ e, hops l' = EvEvictHop route id (Some (Err e)) :: hops l ∧ fe_kind e = StaleOwnership
             ∧ evict_hop holder fence route) →
     routed id l' →
     fwd_safe Q (evict_live_loop debug attempts (attempt + 1) (Some route) holder id fence) s') →
  fwd_safe Q (evict_live_loop debug (S attempts) attempt previous holder id fence) s.
Proof.
  intros Hs Hr Hend Hhop Hagain. cbn [evict_live_loop]. apply (safe_vis fwd_port).
  intros s1 located s2 HR1 ->. split; [done|].
  pose proof (at_log_rely _ _ _ _ _ Hs HR1) as H1.
  apply (at_log_log (EvLocate id located)) in H1; [|done].
  destruct located as [[[route|]|e]|]; [|by eapply Hend..].
  case_bool_decide as Hf; [by eapply Hend|].
  case_bool_decide as Hprev; [by eapply Hend|]. apply (safe_bind fwd_port).
  destruct (String.eqb_spec (route_holder route) holder) as [Hh|Hh].
  - apply (safe_bind fwd_port). eapply evict_fenced_safe; [exact H1|]. intros r s3 H3. simpl.
    destruct r as [[]|e]; simpl; [by eapply Hend|]. case_bool_decide as He; [|by eapply Hend].
    destruct He as [-> _]. eapply (Hagain route); [exact H3|done|by left|done].
  - apply (safe_vis fwd_port). intros s3 a s4 HR2 ->. split; [done|].
    pose proof (at_log_rely _ _ _ _ _ H1 HR2) as H2.
    apply (at_log_log (EvEvictHop route id a)) in H2; [|done].
    assert (Hr2 : routed id (EvEvictHop route id a :: EvLocate id (Some (Ok (Some route))) :: l))
      by (split; [by eexists|done]).
    assert (Hhop' : evict_hop holder fence route).
    { split; [|done]. by destruct (decide (route_ownership_fence route = fence)). }
    simpl. destruct a as [[[]|e]|]; [by eapply Hhop| |by eapply Hhop].
    case_bool_decide as He; [|by eapply Hhop]. destruct He as [-> He].
    eapply (Hagain route); [exact H2|done| |exact Hr2]. right. by exists e.
Qed.

(** An eviction follows its fence.  Whatever happens at its await points,
    the live side of an eviction contacts at most two remote replicas, each along
    the route the locator has just answered, and only while it owns the controller
    under the very fence the durable record was evicted with, the second one only
    over a different route after the first answered that its ownership is stale;
    a record without a fence contacts nobody, and the loop never falls through. *)
Theorem evict_live_follows_fence holder id tgt s :
  fw_log s = [] →
  fwd_safe (λ r s', r ≠ Unreachable
      ∧ match tgt ≫= tgt_ownership_fence with
        | None => fw_log s' = []
        | Some fence => routed id (fw_log s') ∧ evict_hops holder id fence (hops (fw_log s'))
        end) (evict_live debug (Some holder) id tgt) s.
Proof.
  intros Hl. assert (Hs : at_log [] [] [] s) by (split_and!; [done|set_solver|set_solver]).
  unfold evict_live. destruct (tgt ≫= tgt_ownership_fence) as [fence|]; [|by split].
  apply (evict_iteration _ _ _ _ _ _ _ []); [done|done|..].
  - intros r l' s' (->&_) Hh Hr Hne. rewrite Hh. done.
  - intros route a r l' s' (->&_) _ Hh Hne Hl' Hr. rewrite Hl'. done.
  - intros r1 l1 s1 Hs1 _ Hl1 Hr1. apply (evict_iteration _ _ _ _ _ _ _ l1); [done|done|..].
    + intros r l' s' (->&_) Hl' Hr Hne. rewrite Hl'. split_and!; [done|done|].
      by destruct Hl1 as [->|(e&->&He&Hh)].
    + intros r2 a r l' s' (->&_) Hne Hh2 Hnr Hl' Hr. rewrite Hl'. split_and!; [done|done|].
      destruct Hl1 as [->|(e&->&He&Hh)]; [done|].
      split_and!; [done|done|done|done|congruence|by exists e].
    + intros; lia.
Qed.

End EvictionFacts.

Section FencedEviction.
Implicit Types (s : fwd_state).

Lemma registry_remove_exec {A} cid (k : prog fwd_call A) s r s' :
  exec fwd_port (registry_remove cid k) s r s' →
  ∃ s1, inner (cx_registry (fw_center s1)) !! cid = None ∧ exec fwd_port k s1 r s'.
Proof.
  intros (b&s1&(x1&Hx1&->)&Hk). unfold on_registry, remove_entry in Hx1.
  destruct (inner (cx_registry (fw_center s)) !! cid) as [c|] eqn:Hc; injection Hx1 as <- <-.
  - destruct Hk as (u&s2&(x2&Hx2&->)&u'&s3&(x3&Hx3&->)&Hk).
    unfold on_registry in Hx2, Hx3. injection Hx2 as _ <-. injection Hx3 as _ <-.
    eexists. split; [|exact Hk]. simpl. unfold remove_invalidate.
    destruct (cs_ownership c); apply lookup_delete_eq.
  - eexists. split; [|exact Hk]. exact Hc.
Qed.

(** A fenced eviction that runs without interference removes exactly the session
    it checked. *)
Lemma evict_fenced_alone cid holder fence s r s' :
  exec fwd_port (evict_fenced cid holder fence) s r s' →
  match r with
  | Ok _ => ∃ v, get_session cid (cx_registry (fw_center s)) = Some v
              ∧ matches_ownership v holder fence (cx_registry (fw_center s)) = true
              ∧ inner (cx_registry (fw_center s')) !! cid = None
  | Err _ => fw_center s' = fw_center s
  end.
Proof.
  intros (v&s1&(x1&Hx1&->)&Hk). unfold read in Hx1. injection Hx1 as <- <-.
  destruct (get_session cid (cx_registry (fw_center s))) as [v|] eqn:Hv; [|by destruct Hk as [-> ->]].
  destruct Hk as (m&s2&(x2&Hx2&->)&Hk). unfold read in Hx2. simpl in Hx2. injection Hx2 as <- <-.
  destruct (matches_ownership v holder fence (cx_registry (fw_center s))) eqn:Hm;
    [|by destruct Hk as [-> ->]].
  apply registry_remove_exec in Hk as (s3&H3&u&s4&(x4&Hx4&->)&u'&s5&(x5&Hx5&->)&->&->).
  exists v. split_and!; [done..|]. simpl. unfold on_client in Hx5. injection Hx5 as _ <-.
  unfold on_aggregator in Hx4. injection Hx4 as _ <-. exact H3.
Qed.

(** The fenced eviction is not atomic: the session it checks and the
    session it removes can differ.  If the checked session is replaced by any
    other session between the check and the removal, the eviction still removes
    what it then finds, cancels it, and reports success. *)
Theorem evict_fenced_race cid holder fence s s2 v newer :
  get_session cid (cx_registry (fw_center s)) = Some v →
  matches_ownership v holder fence (cx_registry (fw_center s)) = true →
  inner (cx_registry (fw_center s2)) !! cid = Some newer →
  ∃ p s1 s3,
    rtc (pool_step fwd_port) ([evict_fenced cid holder fence], s) ([p], s1)
    ∧ fw_center s1 = fw_center s
    ∧ rtc (pool_step fwd_port) ([p], s2) ([Ret (Ok ())], s3)
    ∧ inner (cx_registry (fw_center s3)) !! cid = None
    ∧ is_cancelled (cs_session_cancel newer) (cx_registry (fw_center s3)) = true.
Proof.
  intros Hv Hm Hnew.
  assert (Hstep : ∀ X (f : center → X * center) (k : X → prog fwd_call (CoreResult ())) t,
    pool_step fwd_port ([Vis (FAtomic f) k], t)
      ([k (f (fw_center t)).1], mkFwd (f (fw_center t)).2 (fw_accepting t) (fw_log t)
                                  (fw_center t :: fw_seen t))).
  { intros X f k t. exists 0, (Vis (FAtomic f) k), (k (f (fw_center t)).1).
    split_and!; [done| |done]. exists (f (fw_center t)).1. split; [|done].
    exists (f (fw_center t)).2. split; [apply surjective_pairing|done]. }
  eexists (evict_unfenced cid (Ret (Ok ()))), _, _. split; [|split; [|split]].
  - eapply rtc_l; [apply Hstep|]. cbn [read fst snd]. rewrite Hv.
    eapply rtc_l; [apply Hstep|]. cbn [read fst snd fw_center]. rewrite Hm. reflexivity.
  - done.
  - unfold evict_unfenced, registry_remove. eapply rtc_l; [apply Hstep|].
    replace (on_registry (remove_entry cid) (fw_center s2)).1 with (Some newer)
      by (unfold on_registry, remove_entry; by rewrite Hnew).
    do 4 (eapply rtc_l; [apply Hstep|]). cbv beta. reflexivity.
  - cbn [fw_center on_client on_aggregator snd cx_registry].
    unfold on_registry, remove_entry. rewrite Hnew. unfold remove_finish, remove_invalidate.
    destruct (cs_ownership newer); simpl; (split; [apply lookup_delete_eq|]);
      unfold is_cancelled; simpl; apply bool_decide_eq_true; set_solver.
Qed.
End FencedEviction.

(** ** Witnesses *)

Definition fwd_of (x : center) : fwd_state := mkFwd x true [] [].

Definition demo_op : ForwardHttpOperation :=
  {| fo_method := "GET"; fo_path := "/"; fo_headers := {["Cookie" := "a"; "Accept" := "b"]};
     fo_body := "" |}.
Definition demo_pf : ProxyForwarder := {| pf_timeout_secs := 30; pf_local_holder := Some "pod-a" |}.

Definition demo_fence (epoch : Z) : OwnershipFence := {| of_token := "t"; of_epoch := epoch |}.
(** A session under the fence of epoch 1, and its successor under epoch 2. *)
Definition demo_owned (sid : string) (epoch : Z) (x : center) : center :=
  (on_registry (λ r,
     let '(valid, r) := new_flag r in
     register_owned_cancellable "c1/edge"
       {| rr_controller_id := "c1/edge"; rr_cluster := "c1"; rr_env := []; rr_tag := [] |} 1 sid
       (Some {| so_holder := "pod-a"; so_fence := demo_fence epoch; so_valid := valid |}) 1000 r) x).2.

Lemma forward_at_most_once_witness :
  fwd_safe (λ r s', r ≠ Unreachable ∧ r ≠ DroppedFuture
      ∧ (∀ id, EvUuid id ∈ fw_log s' → ¬ is_pending id s')
      ∧ (local_log "c1/edge" (with_headers {["Accept" := "b"]} demo_op) s'
           ∧ (pf_local_holder demo_pf ≠ None → fw_log s' = [] ∨ owned "c1/edge" s')
         ∨ ∃ holder, pf_local_holder demo_pf = Some holder
             ∧ remote_log holder "c1/edge" (with_headers {["Accept" := "b"]} demo_op) (fw_log s')))
    (forward (λ s, s) demo_pf "c1/edge" demo_op) (fwd_of (demo_owned "s1" 1 center_new)).
Proof.
  exact (forward_at_most_once (λ s, s) demo_pf "c1/edge" demo_op
           (fwd_of (demo_owned "s1" 1 center_new)) eq_refl eq_refl).
Defined.

Definition demo_service : InternalForwardingService :=
  {| fs_proxy := demo_pf; fs_local_holder := "pod-a"; fs_max_request_bytes := 100;
     fs_max_response_bytes := 100; fs_expected_peer_spiffe_id := "spiffe://mesh/center" |}.

Lemma evict_live_follows_fence_witness :
  fwd_safe (λ r s', r ≠ Unreachable ∧ routed "c1/edge" (fw_log s')
                    ∧ evict_hops "pod-a" "c1/edge" (demo_fence 1) (hops (fw_log s')))
    (evict_live (λ s, s) (Some "pod-a") "c1/edge"
       (Some {| tgt_session_id := None; tgt_connected_replica := None;
                tgt_ownership_fence := Some (demo_fence 1) |})) (fwd_of center_new).
Proof.
  exact (evict_live_follows_fence (λ s, s) "pod-a" "c1/edge"
    (Some {| tgt_session_id := None; tgt_connected_replica := None;
             tgt_ownership_fence := Some (demo_fence 1) |}) (fwd_of center_new) eq_refl).
Defined.

Definition demo_first : fwd_state := fwd_of (demo_owned "s1" 1 center_new).
Definition demo_second : fwd_state := fwd_of (demo_owned "s2" 2 (fw_center demo_first)).

(** A request of another replica that the service admits. *)
Definition demo_forward : ForwardHttpRequest :=
  {| fh_operation_id := "op"; fh_controller_id := "c1/edge";
     fh_target := Some (target {| route_holder := "pod-a"; route_endpoint := "https://10.0.0.1:1";
                                  route_ownership_fence := demo_fence 1 |});
     fh_hop_count := 1; fh_request := "bytes" |}.
Definition demo_leaf (_ : string) : option (list X509Extension) :=
  Some [SubjectAlternativeName [URI "spiffe://mesh/center"]].
Definition demo_decode (_ : string) : option HttpProxyRequest := Some (proxy_message "op" demo_op).

Lemma service_fenced_dispatch_witness :
  validate_peer demo_leaf demo_service (Some ["leaf"]) = Ok ()
  ∧ validate_target demo_service true (fh_hop_count demo_forward) (fh_target demo_forward)
    = Ok (demo_fence 1)
  ∧ fwd_safe (service_post demo_leaf (λ _, 10%Z) demo_decode demo_service (Some ["leaf"])
                demo_forward)
      (service_forward_http demo_leaf (λ _, 10%Z) demo_decode (λ _, EmptyString) demo_service
         (Some ["leaf"]) demo_forward) demo_first.
Proof.
  split; [vm_compute; reflexivity|]. split; [vm_compute; reflexivity|].
  exact (service_fenced_dispatch demo_leaf (λ _, 10%Z) demo_decode (λ _, EmptyString)
           demo_service (Some ["leaf"]) demo_forward demo_first eq_refl).
Defined.

Lemma evict_fenced_race_witness :
  ∃ newer, inner (cx_registry (fw_center demo_second)) !! "c1/edge" = Some newer
    ∧ cs_session_id newer = "s2"
    ∧ so_fence <$> cs_ownership newer = Some (demo_fence 2)
    ∧ ∃ p s1 s3,
        rtc (pool_step fwd_port) ([evict_fenced "c1/edge" "pod-a" (demo_fence 1)], demo_first)
          ([p], s1)
        ∧ fw_center s1 = fw_center demo_first
        ∧ rtc (pool_step fwd_port) ([p], demo_second) ([Ret (Ok ())], s3)
        ∧ inner (cx_registry (fw_center s3)) !! "c1/edge" = None
        ∧ is_cancelled (cs_session_cancel newer) (cx_registry (fw_center s3)) = true.
Proof.
  eexists. split; [vm_compute; reflexivity|]. split; [reflexivity|]. split; [reflexivity|].
  eapply (evict_fenced_race "c1/edge" "pod-a" (demo_fence 1) demo_first demo_second);
    vm_compute; reflexivity.
Defined.
