(* ===== verification/Versioned.v ===== *)
(** * Versioned: an in-memory store with optimistic versions

    The reference store on which the API ports of the Kubernetes adapters are
    instantiated: every name has the list of the objects written to it, oldest
    first, and the version of an object is its position, in unary.  It shows
    that the laws assumed of the API server can hold. *)

From Stdlib Require Import Ascii.
From S2P Require Import Prelude.

Definition unary (n : nat) : string := Nat.iter n (String "v"%char) "".

Lemma length_unary n : String.length (unary n) = n.
Proof. induction n as [|n IH]; [done|]. simpl. by f_equal. Qed.

Section Versioned.
Context {O : Type} (with_version : string → O → O).
Implicit Types (h : gmap string (list O)).

Definition vs_history h (n : string) : list O := default [] (h !! n).

Definition vs_versions h (n v : string) : option O :=
  o ← vs_history h n !! String.length v;
  if String.eqb v (unary (String.length v)) then Some (with_version v o) else None.

Definition vs_stored h (n : string) : option O :=
  vs_versions h n (unary (pred (length (vs_history h n)))).

(** The version the next write of [n] gets. *)
Definition vs_next h (n : string) : string := unary (length (vs_history h n)).

Definition vs_commit (n : string) (o : O) h : gmap string (list O) :=
  <[n := vs_history h n ++ [o]]> h.

Lemma vs_stored_version h n o :
  vs_stored h n = Some o → ∃ o0 v, o = with_version v o0 ∧ vs_versions h n v = Some o.
Proof.
  intros Hst. pose proof Hst as Hst'. unfold vs_stored, vs_versions in Hst.
  destruct (vs_history h n !! _) as [o0|]; simpl in Hst; [|done].
  destruct (String.eqb _ _); [|done]. simplify_eq. by eexists _, _.
Qed.

Lemma vs_history_commit h n o : vs_history (vs_commit n o h) n = vs_history h n ++ [o].
Proof. unfold vs_history at 1, vs_commit. by rewrite lookup_insert_eq. Qed.

Lemma vs_commit_other h n o m v :
  m ≠ n → vs_versions (vs_commit n o h) m v = vs_versions h m v
          ∧ vs_stored (vs_commit n o h) m = vs_stored h m.
Proof.
  intros Hne. assert (Hm : vs_history (vs_commit n o h) m = vs_history h m).
  { unfold vs_history, vs_commit. by rewrite lookup_insert_ne. }
  unfold vs_stored, vs_versions. by rewrite Hm.
Qed.

Lemma vs_commit_spec h n o :
  let v := vs_next h n in
  let h' := vs_commit n o h in
  vs_versions h n v = None
  ∧ vs_stored h' n = Some (with_version v o) ∧ vs_versions h' n v = Some (with_version v o)
  ∧ (∀ m, m ≠ n → vs_stored h' m = vs_stored h m)
  ∧ (∀ m w, m ≠ n ∨ w ≠ v → vs_versions h' m w = vs_versions h m w).
Proof.
  intros v h'.
  assert (Hv : vs_versions h' n v = Some (with_version v o)).
  { unfold vs_versions, v, h', vs_next.
    rewrite vs_history_commit, length_unary, String.eqb_refl, lookup_app_r, Nat.sub_diag by lia.
    done. }
  split_and!; [| |exact Hv|intros m Hne; by apply (vs_commit_other h n o m "")|].
  - unfold vs_versions, v, vs_next. by rewrite length_unary, lookup_ge_None_2.
  - rewrite <- Hv. unfold vs_stored, v, h', vs_next. rewrite vs_history_commit, length_app.
    simpl. by rewrite Nat.add_1_r.
  - intros m w Hor. destruct (decide (m = n)) as [->|Hne]; [|by apply vs_commit_other].
    assert (Hw : w ≠ v) by naive_solver. unfold vs_versions, h'. rewrite vs_history_commit.
    destruct (decide (String.length w < length (vs_history h n))); [by rewrite lookup_app_l|].
    rewrite (lookup_ge_None_2 (vs_history h n)) by lia. rewrite lookup_app_r by lia.
    destruct (String.length w - length (vs_history h n)) as [|k] eqn:Ek; simpl; [|done].
    destruct (String.eqb_spec w (unary (String.length w))) as [Heq|]; [|done].
    exfalso. apply Hw. rewrite Heq. unfold v, vs_next. f_equal. lia.
Qed.
End Versioned.
