(* ===== verification/Lease.v ===== *)
(** * Lease: fenced ownership through Kubernetes Leases

    [crates/center-adapter-kubernetes/src/lease.rs].  Replicas acquire, renew
    and release a role by optimistic updates of a Lease object; every acquire
    installs a fresh token and the next fencing epoch.  The API server and the
    clocks are a port, described by the laws of the class [LeaseApi]; the
    coordinator's operations are programs over that port, and the theorems hold
    for any number of replicas interleaved at every await. *)

From Stdlib Require Import Ascii.
From S2P Require Import Prelude Core Effects Versioned.

Definition ROLE_ANNOTATION : string := "center.edgion.io/coordination-role".
Definition TOKEN_ANNOTATION : string := "center.edgion.io/fencing-token".
Definition EPOCH_ANNOTATION : string := "center.edgion.io/fencing-epoch".
Definition MAX_CONFLICT_RETRIES : nat := 8.

(** ** Lease objects *)

(** [ls_other] and [lm_other] stand for the fields the code never touches. *)
Record LeaseSpec := mkSpec {
  ls_holder_identity : option string;
  ls_lease_duration_seconds : option Z;
  ls_acquire_time : option Z;
  ls_renew_time : option Z;
  ls_lease_transitions : option Z;
  ls_other : option string;
}.
Definition LeaseSpec_default : LeaseSpec := mkSpec None None None None None None.

Record Lease := mkLease {
  lm_name : option string;
  lm_namespace : option string;
  lm_resource_version : option string;
  lm_annotations : option (gmap string string);
  lm_other : option string;
  l_spec : option LeaseSpec;
}.

Inductive LeaseError := LeaseConflict | LeaseOther (message : string).

Definition annotation (key : string) (lease : Lease) : option string :=
  annotations ← lm_annotations lease; annotations !! key.

Definition holder_identity (lease : Lease) : option string :=
  spec ← l_spec lease; ls_holder_identity spec.

Definition token (lease : Lease) : option string := annotation TOKEN_ANNOTATION lease.

Definition epoch (lease : Lease) : CoreResult Z :=
  match annotation EPOCH_ANNOTATION lease with
  | None => Ok 0%Z
  | Some e => ok_or (Conflict "Kubernetes Lease has invalid fencing epoch") (parse_u64 e)
  end.

Definition adapter_error (error : LeaseError) : CoreError :=
  match error with
  | LeaseConflict => Conflict "Kubernetes Lease resourceVersion conflict"
  | LeaseOther message => Adapter message
  end.

Definition role_key (role : CoordinationRole) : string :=
  match role with
  | ControllerOwner id => "controller-owner:" +:+ id
  | Maintenance name => "maintenance:" +:+ name
  end.

(** Durations in nanoseconds; [lease_duration] as the coordinator keeps it. *)
Record KubernetesLeaseCoordinator := mkCoordinator {
  kc_holder : string;
  kc_lease_duration : Z;
}.

Definition NANOS : Z := 1000000000.
Definition duration_seconds (c : KubernetesLeaseCoordinator) : Z :=
  kc_lease_duration c / NANOS.

Definition leadership (c : KubernetesLeaseCoordinator) (role : CoordinationRole)
    (tok : string) (ep : Z) : Leadership := {|
  ld_role := role; ld_holder := kc_holder c; ld_fencing_token := tok; ld_fencing_epoch := ep;
  ld_valid_for_millis := kc_lease_duration c / 1000000 |}.

Definition validate_config (namespace holder : string) (duration : Z) : CoreResult () :=
  if is_empty (str_trim namespace) || has_control namespace then
    Err (Adapter "Kubernetes coordination namespace must be non-empty")
  else if is_empty (str_trim holder) || (str_len holder >? 253)%Z || has_control holder then
    Err (Adapter "Kubernetes coordination holder must be 1..=253 bytes")
  else if ((duration <? 3 * NANOS) || (duration >? I32_MAX * NANOS))%Z then
    Err (Adapter "Kubernetes Lease duration must be between 3 seconds and i32::MAX seconds")
  else Ok ().

(** The replica's record of when it first saw the current version of a Lease. *)
Abbreviation LeaseObservations := (gmap string (string * Z)).

Definition is_active (name : string) (lease : Lease) (now : Z) (obs : LeaseObservations) :
    bool * LeaseObservations :=
  match l_spec lease with
  | None => (false, obs)
  | Some spec =>
      if is_empty (default "" (ls_holder_identity spec)) then (false, obs)
      else
      let duration := default 0%Z (ls_lease_duration_seconds spec) in
      if (duration <=? 0)%Z then (false, obs)
      else
      let marker :=
        default "" (match lm_resource_version lease with
                    | Some v => Some v
                    | None => token lease
                    end) in
      let '(observed_at, obs) :=
        match obs !! name with
        | Some (seen, observed_at) =>
            if String.eqb seen marker then (observed_at, obs)
            else (now, <[name := (marker, now)]> obs)
        | None => (now, <[name := (marker, now)]> obs)
        end in
      ((Z.max 0 (now - observed_at) <? duration * NANOS)%Z, obs)
  end.

(** [current.and_then(|lease| ...)]. *)
Definition and_then {A} (current : option Lease) (f : Lease → option A) : option A :=
  match current with Some lease => f lease | None => None end.

Definition acquired_lease (c : KubernetesLeaseCoordinator) (name role_key : string)
    (current : option Lease) (now : Z) (tok : string) (ep : Z) : Lease :=
  let annotations := default ∅ (and_then current lm_annotations) in
  let annotations := <[ROLE_ANNOTATION := role_key]> annotations in
  let annotations := <[TOKEN_ANNOTATION := tok]> annotations in
  let annotations := <[EPOCH_ANNOTATION := u64_to_string ep]> annotations in
  let previous_holder := and_then current holder_identity in
  let transitions :=
    i32_saturating_add
      (default 0%Z (and_then current (λ lease, spec ← l_spec lease; ls_lease_transitions spec)))
      (match previous_holder with
       | Some holder => if String.eqb holder (kc_holder c) then 0%Z else 1%Z
       | None => 0%Z
       end) in
  mkLease (Some name) (and_then current lm_namespace) (and_then current lm_resource_version)
    (Some annotations) None
    (Some (mkSpec (Some (kc_holder c)) (Some (duration_seconds c)) (Some now) (Some now)
             (Some transitions) None)).

(** ** The coordinator's programs *)

(** The awaits: the Lease API, the clocks, a fresh UUID, and the replica's own
    observation table behind its mutex. *)
Inductive lease_call : Type → Type :=
| WallNow : lease_call Z
| MonotonicNow : lease_call Z
| NewUuid : lease_call string
| WithObservations (f : LeaseObservations → bool * LeaseObservations) : lease_call bool
| GetLease (name : string) : lease_call (result (option Lease) LeaseError)
| CreateLease (lease : Lease) : lease_call (result Lease LeaseError)
| ReplaceLease (name : string) (lease : Lease) : lease_call (result Lease LeaseError).

Section Coordinator.
(** [hex::encode(Sha256::digest(_))] and [{:?}] on strings. *)
Context (sha256_hex debug : string → string).
Context (c : KubernetesLeaseCoordinator).

Definition lease_name (role : CoordinationRole) : string :=
  let kind := match role with
              | ControllerOwner _ => "controller-owner"
              | Maintenance _ => "maintenance"
              end in
  kind +:+ "-" +:+ String.substring 0 16 (sha256_hex (role_key role)).

Definition verify_role (lease : Lease) (key : string) : CoreResult () :=
  match annotation ROLE_ANNOTATION lease with
  | Some stored =>
      if String.eqb stored key then Ok ()
      else Err (Conflict ("Kubernetes Lease name collision between " +:+ debug stored
                            +:+ " and " +:+ debug key))
  | None => Err (Conflict "managed Kubernetes Lease omitted coordination role annotation")
  end.

Fixpoint acquire_loop (attempts : nat) (role : CoordinationRole) :
    prog lease_call (CoreResult Leadership) :=
  let key := role_key role in
  let name := lease_name role in
  match attempts with
  | O => Ret (Err (Conflict ("coordination role " +:+ debug key
                               +:+ " remained conflicted after 8 attempts")))
  | S attempts =>
      wall_now <~ WallNow ;;
      monotonic_now <~ MonotonicNow ;;
      tok <~ NewUuid ;;
      got <~ GetLease name ;;
      match got with
      | Ok (Some current) =>
          match verify_role current key with
          | Err e => Ret (Err e)
          | Ok _ =>
              active <~ WithObservations (is_active name current monotonic_now) ;;
              if active && negb (bool_decide (holder_identity current = Some (kc_holder c)))
              then Ret (Err (Conflict ("coordination role " +:+ debug key
                                         +:+ " is held by another replica")))
              else
              match epoch current with
              | Err e => Ret (Err e)
              | Ok ep =>
                  match u64_checked_add ep 1 with
                  | None => Ret (Err (Conflict "Kubernetes fencing epoch exhausted"))
                  | Some ep =>
                      r <~ ReplaceLease name
                             (acquired_lease c name key (Some current) wall_now tok ep) ;;
                      match r with
                      | Ok _ => Ret (Ok (leadership c role tok ep))
                      | Err LeaseConflict => acquire_loop attempts role
                      | Err error => Ret (Err (adapter_error error))
                      end
                  end
              end
          end
      | Ok None =>
          r <~ CreateLease (acquired_lease c name key None wall_now tok 1) ;;
          match r with
          | Ok _ => Ret (Ok (leadership c role tok 1))
          | Err LeaseConflict => acquire_loop attempts role
          | Err error => Ret (Err (adapter_error error))
          end
      | Err error => Ret (Err (adapter_error error))
      end
  end.

Definition acquire (role : CoordinationRole) : prog lease_call (CoreResult Leadership) :=
  acquire_loop MAX_CONFLICT_RETRIES role.

(** The [owns] test of [renew] and [release]; the epoch is only parsed when
    holder and token match. *)
Definition owns (lease : Lease) (l : Leadership) : CoreResult bool :=
  if bool_decide (holder_identity lease = Some (kc_holder c))
     && bool_decide (token lease = Some (ld_fencing_token l))
  then let? ep := epoch lease in Ok (ep =? ld_fencing_epoch l)%Z
  else Ok false.

Definition renewed_lease (lease : Lease) (now : Z) : Lease :=
  let spec := default LeaseSpec_default (l_spec lease) in
  mkLease (lm_name lease) (lm_namespace lease) (lm_resource_version lease)
    (lm_annotations lease) (lm_other lease)
    (Some (mkSpec (ls_holder_identity spec) (Some (duration_seconds c))
             (ls_acquire_time spec) (Some now) (ls_lease_transitions spec) (ls_other spec))).

Fixpoint renew_loop (attempts : nat) (l : Leadership) :
    prog lease_call (CoreResult RenewalOutcome) :=
  let key := role_key (ld_role l) in
  let name := lease_name (ld_role l) in
  match attempts with
  | O => Ret (Err (Conflict ("coordination role " +:+ debug key
                               +:+ " renewal remained conflicted")))
  | S attempts =>
      got <~ GetLease name ;;
      match got with
      | Err error => Ret (Err (adapter_error error))
      | Ok None => Ret (Ok RenewalLost)
      | Ok (Some lease) =>
          match verify_role lease key with
          | Err e => Ret (Err e)
          | Ok _ =>
              match owns lease l with
              | Err e => Ret (Err e)
              | Ok false => Ret (Ok RenewalLost)
              | Ok true =>
                  now <~ WallNow ;;
                  r <~ ReplaceLease name (renewed_lease lease now) ;;
                  match r with
                  | Ok _ =>
                      Ret (Ok (Renewed (leadership c (ld_role l) (ld_fencing_token l)
                                          (ld_fencing_epoch l))))
                  | Err LeaseConflict => renew_loop attempts l
                  | Err error => Ret (Err (adapter_error error))
                  end
              end
          end
      end
  end.

Definition renew (l : Leadership) : prog lease_call (CoreResult RenewalOutcome) :=
  renew_loop MAX_CONFLICT_RETRIES l.

Definition released_lease (lease : Lease) (now : Z) : Lease :=
  let spec := default LeaseSpec_default (l_spec lease) in
  mkLease (lm_name lease) (lm_namespace lease) (lm_resource_version lease)
    (Some (delete TOKEN_ANNOTATION (default ∅ (lm_annotations lease)))) (lm_other lease)
    (Some (mkSpec None (ls_lease_duration_seconds spec) (ls_acquire_time spec) (Some now)
             (ls_lease_transitions spec) (ls_other spec))).

Fixpoint release_loop (attempts : nat) (l : Leadership) :
    prog lease_call (CoreResult ReleaseOutcome) :=
  let key := role_key (ld_role l) in
  let name := lease_name (ld_role l) in
  match attempts with
  | O => Ret (Err (Conflict ("coordination role " +:+ debug key
                               +:+ " release remained conflicted")))
  | S attempts =>
      got <~ GetLease name ;;
      match got with
      | Err error => Ret (Err (adapter_error error))
      | Ok None => Ret (Ok ReleaseLost)
      | Ok (Some lease) =>
          match verify_role lease key with
          | Err e => Ret (Err e)
          | Ok _ =>
              match owns lease l with
              | Err e => Ret (Err e)
              | Ok false => Ret (Ok ReleaseLost)
              | Ok true =>
                  now <~ WallNow ;;
                  r <~ ReplaceLease name (released_lease lease now) ;;
                  match r with
                  | Ok _ => Ret (Ok Released)
                  | Err LeaseConflict => release_loop attempts l
                  | Err error => Ret (Err (adapter_error error))
                  end
              end
          end
      end
  end.

Definition release (l : Leadership) : prog lease_call (CoreResult ReleaseOutcome) :=
  release_loop MAX_CONFLICT_RETRIES l.
End Coordinator.

(** ** The API server

    What the coordinator relies on, as documented for Kubernetes objects:
    reads are of the stored object; every stored object carries a resource
    version that has never been used for that name before ([versions] is the
    history by version); a create commits only when the name is free; a replace
    commits only when the version it carries is the stored one.  An answer may
    be an error although the write was committed, and Leases are not deleted. *)

Class LeaseApi (S : Type) := {
  api : ∀ X, lease_call X → S → X → S → Prop;
  stored : S → string → option Lease;
  versions : S → string → string → option Lease;
}.

Section ApiLaws.
Context {S : Type} `{!LeaseApi S}.

Definition unchanged (s s' : S) : Prop :=
  (∀ n, stored s' n = stored s n) ∧ (∀ n v, versions s' n v = versions s n v).

Definition committed (n : string) (l : Lease) (s s' : S) : Prop :=
  ∃ v l', versions s n v = None
    ∧ lm_annotations l' = lm_annotations l ∧ l_spec l' = l_spec l
    ∧ stored s' n = Some l' ∧ versions s' n v = Some l'
    ∧ (∀ m, m ≠ n → stored s' m = stored s m)
    ∧ (∀ m w, m ≠ n ∨ w ≠ v → versions s' m w = versions s m w).
End ApiLaws.

Class LeaseApiLaws (S : Type) `{!LeaseApi S} := {
  stored_version s n l :
    stored s n = Some l → ∃ v, lm_resource_version l = Some v ∧ versions s n v = Some l;
  api_local X (e : lease_call X) s x s' :
    match e with
    | WallNow | MonotonicNow | NewUuid | WithObservations _ => True
    | _ => False
    end → api X e s x s' → unchanged s s';
  api_get n s x s' :
    api _ (GetLease n) s x s' → unchanged s s' ∧ ∀ o, x = Ok o → o = stored s n;
  api_create l s x s' :
    api _ (CreateLease l) s x s' →
    (unchanged s s' ∧ is_ok x = false)
    ∨ ∃ n, lm_name l = Some n ∧ stored s n = None ∧ committed n l s s';
  api_replace n l s x s' :
    api _ (ReplaceLease n l) s x s' →
    (unchanged s s' ∧ is_ok x = false)
    ∨ ∃ cur, stored s n = Some cur ∧ lm_resource_version l = lm_resource_version cur
             ∧ committed n l s s';
}.

(** ** The fencing invariant *)

(** Equate the values of the results known twice. *)
Ltac ok_inj :=
  repeat match goal with
  | H : ?x = Ok ?a, H' : ?x = Ok ?b |- _ =>
      let Hab := fresh in assert (Hab : a = b) by congruence; clear H'; subst
  end.

Section Fencing.
Context {S : Type} `{!LeaseApi S, !LeaseApiLaws S}.
Context (sha256_hex debug : string → string).
Implicit Types (s : S).

(** Every version of a Lease has an epoch not above the stored one, and two
    versions with the same epoch that carry a token carry the same token. *)
Definition epochs_inv s : Prop :=
  (∀ n v l, versions s n v = Some l →
     ∃ cur a b, stored s n = Some cur ∧ epoch l = Ok a ∧ epoch cur = Ok b ∧ (0 <= a <= b)%Z)
  ∧ (∀ n v v' l l' e t t',
       versions s n v = Some l → versions s n v' = Some l' →
       epoch l = Ok e → epoch l' = Ok e → token l = Some t → token l' = Some t' → t = t').

Definition lease_rel s s' : Prop :=
  (∀ n v l, versions s n v = Some l → versions s' n v = Some l)
  ∧ (epochs_inv s → epochs_inv s').

#[export] Instance lease_rel_refl : Reflexive lease_rel.
Proof. by intros s. Qed.
#[export] Instance lease_rel_trans : Transitive lease_rel.
Proof. intros s1 s2 s3 [H1 H2] [H3 H4]. split; auto. Qed.

Lemma unchanged_rel s s' : unchanged s s' → lease_rel s s'.
Proof.
  intros [Hs Hv]. split; [intros n v l; by rewrite Hv|]. intros [H1 H2]. split.
  - intros n v l. rewrite Hv, Hs. apply H1.
  - intros n v v' l l' e t t'. rewrite !Hv. apply H2.
Qed.

(** What the object at [n] may be replaced by: a later epoch, or the same
    epoch with the same token or none. *)
Definition advances s (n : string) (l : Lease) : Prop :=
  (∃ e, epoch l = Ok e ∧ (0 <= e)%Z
        ∧ ∀ cur b, stored s n = Some cur → epoch cur = Ok b → (b < e)%Z)
  ∨ (∃ cur, stored s n = Some cur ∧ epoch l = epoch cur
            ∧ (token l = token cur ∨ token l = None)).

Lemma epoch_annotations l l' : lm_annotations l' = lm_annotations l → epoch l' = epoch l.
Proof. unfold epoch, annotation. by intros ->. Qed.
Lemma token_annotations l l' : lm_annotations l' = lm_annotations l → token l' = token l.
Proof. unfold token, annotation. by intros ->. Qed.

Lemma committed_rel n l s s' : committed n l s s' → advances s n l → lease_rel s s'.
Proof.
  intros (v&l'&Hfresh&Ha&_&Hst&Hv&Hos&Hov) Hadv.
  assert (He : epoch l' = epoch l) by by apply epoch_annotations.
  assert (Ht : token l' = token l) by by apply token_annotations.
  assert (Hcase : ∀ m w x, versions s' m w = Some x →
    (m = n ∧ w = v ∧ x = l') ∨ versions s m w = Some x).
  { intros m w x Hx. destruct (decide (m = n)) as [->|]; [|right; rewrite <- Hov; auto].
    destruct (decide (w = v)) as [->|]; [left; split_and!; congruence|].
    right. rewrite <- Hov; auto. }
  split.
  { intros m w x Hx. rewrite Hov; [done|]. destruct (decide (m = n)) as [->|]; [|by left].
    right. intros ->. congruence. }
  intros [H1 H2].
  (* the epoch of the new object bounds the stored one *)
  assert (Hnew : ∃ b', epoch l' = Ok b' ∧ (0 <= b')%Z ∧
    ∀ cur b, stored s n = Some cur → epoch cur = Ok b → (b <= b')%Z).
  { rewrite He. destruct Hadv as [(e&?&?&Hlt)|(cur&Hcur&Heq&_)].
    - exists e. split_and!; [done..|]. intros. apply Z.lt_le_incl. eauto.
    - destruct (stored_version _ _ _ Hcur) as (w&_&Hw).
      destruct (H1 _ _ _ Hw) as (cur'&a&b&Hcur'&Hea&Heb&Hab). simplify_eq.
      exists b. rewrite Heq. split_and!; [done|lia|]. intros. simplify_eq. ok_inj. lia. }
  destruct Hnew as (b'&Heb'&Hb0&Hbmax). split.
  - intros m w x Hx. destruct (Hcase _ _ _ Hx) as [(->&->&->)|Hold].
    + exists l', b', b'. split_and!; [done..|lia|lia].
    + destruct (H1 _ _ _ Hold) as (cur&a&b&Hcur&Hea&Heb&Hab).
      destruct (decide (m = n)) as [->|]; [|exists cur, a, b; rewrite Hos; auto].
      exists l', a, b'. specialize (Hbmax _ _ Hcur Heb). split_and!; [done..|lia|lia].
  - (* a version with the epoch and a token of the new object *)
    assert (Hagree : ∀ w x e t t', versions s n w = Some x →
      epoch x = Ok e → epoch l' = Ok e → token x = Some t → token l' = Some t' → t = t').
    { intros w x e t t' Hw Hex Hel Htx Htl.
      destruct (H1 _ _ _ Hw) as (cur&a&b&Hcur&Hea&Heb&Hab). rewrite He in Hel. rewrite Ht in Htl.
      destruct Hadv as [(e'&He'&_&Hlt)|(cur'&Hcur'&Heq&Htok)].
      - specialize (Hlt _ _ Hcur Heb). exfalso. ok_inj. lia.
      - destruct (stored_version _ _ _ Hcur') as (wc&_&Hwc).
        destruct Htok as [Htok|Htok]; [|congruence].
        eapply (H2 n w wc x cur' e); eauto; congruence. }
    intros m w w' x x' e t t' Hx Hx' Hex Hex' Htx Htx'.
    destruct (Hcase _ _ _ Hx) as [(?&?&?)|Hold], (Hcase _ _ _ Hx') as [(?&?&?)|Hold'];
      subst; [congruence|symmetry; eapply Hagree; eauto|eapply Hagree; eauto|].
    eapply (H2 m w w'); eauto.
Qed.

(** A replace that commits finds the object its caller read. *)
Lemma cas_current s s1 n current cur :
  lease_rel s s1 → stored s n = Some current → stored s1 n = Some cur →
  lm_resource_version current = lm_resource_version cur → cur = current.
Proof.
  intros [Hmono _] Hs Hs1 Hrv.
  destruct (stored_version _ _ _ Hs) as (v&Hv&Hver).
  destruct (stored_version _ _ _ Hs1) as (v'&Hv'&Hver').
  assert (v' = v) as -> by congruence. apply Hmono in Hver. congruence.
Qed.

Lemma epoch_acquired c n key cur now tok ep :
  (0 <= ep <= U64_MAX)%Z → epoch (acquired_lease c n key cur now tok ep) = Ok ep.
Proof.
  intros Hep. unfold epoch, annotation, acquired_lease. simpl.
  by rewrite lookup_insert_eq, parse_u64_to_string.
Qed.

Lemma token_acquired c n key cur now tok ep :
  token (acquired_lease c n key cur now tok ep) = Some tok.
Proof.
  unfold token, annotation, acquired_lease. simpl.
  rewrite lookup_insert_ne by done. by rewrite lookup_insert_eq.
Qed.

(** The leadership is on record: some version of the Lease has its epoch and
    its token. *)
Definition granted s (ld : Leadership) : Prop :=
  ∃ v l, versions s (lease_name sha256_hex (ld_role ld)) v = Some l
         ∧ epoch l = Ok (ld_fencing_epoch ld) ∧ token l = Some (ld_fencing_token ld).

Lemma granted_rel s s' ld : lease_rel s s' → granted s ld → granted s' ld.
Proof. intros [Hm _] (v&l&Hv&?). exists v, l. split; [by apply Hm|done]. Qed.

Lemma granted_commit n l s s' ld :
  committed n l s s' → lease_name sha256_hex (ld_role ld) = n →
  epoch l = Ok (ld_fencing_epoch ld) → token l = Some (ld_fencing_token ld) → granted s' ld.
Proof.
  intros (v&l'&_&Ha&_&_&Hv&_) <- He Ht. exists v, l'. split; [done|].
  by rewrite (epoch_annotations l), (token_annotations l).
Qed.

(** What [acquire] answers: a leadership on record, above every epoch that was
    on record at [s0]. *)
Definition acquired s0 (role : CoordinationRole) (r : CoreResult Leadership) s : Prop :=
  ∀ ld, r = Ok ld →
    ld_role ld = role ∧ granted s ld
    ∧ ∀ v l a, versions s0 (lease_name sha256_hex role) v = Some l → epoch l = Ok a →
               (a < ld_fencing_epoch ld)%Z.

(** The leadership's epoch is above every epoch on record for its role. *)
Definition above s (ld : Leadership) : Prop :=
  ∀ v l a, versions s (lease_name sha256_hex (ld_role ld)) v = Some l → epoch l = Ok a →
           (a < ld_fencing_epoch ld)%Z.

Lemma acquired_above s0 s1 s2 role ld :
  ld_role ld = role → lease_rel s0 s1 → above s1 ld → granted s2 ld →
  acquired s0 role (Ok ld) s2.
Proof.
  intros <- H0 Ha Hg ld' [= <-]. split_and!; [done|done|]. intros v l a Hv Hl.
  apply (proj1 H0) in Hv. by eapply Ha.
Qed.

Notation lease_safe := (safe api lease_rel lease_rel).

(** An await that does not write. *)
Lemma safe_local {A X} (Q : A → S → Prop) (e : lease_call X) (k : X → prog lease_call A) s :
  match e with
  | WallNow | MonotonicNow | NewUuid | WithObservations _ => True
  | _ => False
  end →
  (∀ x s', lease_rel s s' → lease_safe Q (k x) s') → lease_safe Q (Vis e k) s.
Proof.
  intros He Hk. apply (safe_vis api). intros s1 x s2 HR HH.
  assert (lease_rel s1 s2) by (eapply unchanged_rel, api_local; eauto).
  split; [done|]. apply Hk. by etrans.
Qed.

Lemma safe_get {A} (Q : A → S → Prop) n (k : _ → prog lease_call A) s :
  (∀ x s', lease_rel s s' → (∀ o, x = Ok o → o = stored s' n) → lease_safe Q (k x) s') →
  lease_safe Q (Vis (GetLease n) k) s.
Proof.
  intros Hk. apply (safe_vis api). intros s1 x s2 HR HH.
  apply api_get in HH as [Hu Ho]. pose proof (unchanged_rel _ _ Hu) as Hrel.
  split; [done|]. apply Hk; [by etrans|]. destruct Hu as [Hst _]. intros o Hx.
  rewrite Hst. auto.
Qed.

Lemma u64_checked_add_Some a b x : u64_checked_add a b = Some x → x = (a + b)%Z ∧ (x <= U64_MAX)%Z.
Proof. unfold u64_checked_add. destruct (Z.leb_spec (a + b) U64_MAX); naive_solver. Qed.

(** The replace of [acquire]. *)
Lemma acquire_replace_step c role s0 s s1 x s2 current ep tok wall :
  let n := lease_name sha256_hex role in
  let l := acquired_lease c n (role_key role) (Some current) wall tok (ep + 1) in
  epochs_inv s → lease_rel s0 s → lease_rel s s1 →
  stored s n = Some current → epoch current = Ok ep → (ep + 1 <= U64_MAX)%Z →
  api _ (ReplaceLease n l) s1 x s2 →
  lease_rel s1 s2
  ∧ ∀ y, x = Ok y → acquired s0 role (Ok (leadership c role tok (ep + 1))) s2
                    ∧ above s1 (leadership c role tok (ep + 1)).
Proof.
  intros n l Hinv H0 HR Hst Hep Hmax HH. pose proof (proj2 HR Hinv) as Hinv1.
  apply api_replace in HH as [[Hu Hx]|(cur&Hcur&Hrv&Hcom)].
  { split; [by apply unchanged_rel|]. intros y ->. done. }
  assert (cur = current) as -> by (eapply cas_current; eauto).
  destruct (stored_version _ _ _ Hcur) as (v&_&Hv).
  destruct (proj1 Hinv1 _ _ _ Hv) as (cur'&a&b&Hcur'&Hea&Heb&Hab).
  assert (Hl : epoch l = Ok (ep + 1)%Z) by (apply epoch_acquired; ok_inj; lia).
  assert (Hrel : lease_rel s1 s2).
  { eapply committed_rel; [done|]. left. exists (ep + 1)%Z. split_and!; [done|ok_inj; lia|].
    intros ? b' ? ?. simplify_eq. ok_inj. lia. }
  split; [done|]. intros y _.
  assert (Habove : above s1 (leadership c role tok (ep + 1))).
  { intros v' l' a' Hv' Ha'. simpl in *.
    destruct (proj1 Hinv1 _ _ _ Hv') as (cur''&a2&b2&Hcur''&Hea2&Heb2&Hab2).
    fold n in Hcur''. simplify_eq. ok_inj. lia. }
  split; [|done]. eapply acquired_above; [done|by etrans|done|].
  eapply granted_commit; eauto using token_acquired.
Qed.

(** The create of [acquire]. *)
Lemma acquire_create_step c role s0 s s1 x s2 tok wall :
  let n := lease_name sha256_hex role in
  let l := acquired_lease c n (role_key role) None wall tok 1 in
  epochs_inv s → lease_rel s0 s → lease_rel s s1 →
  api _ (CreateLease l) s1 x s2 →
  lease_rel s1 s2
  ∧ ∀ y, x = Ok y → acquired s0 role (Ok (leadership c role tok 1)) s2
                    ∧ above s1 (leadership c role tok 1).
Proof.
  intros n l Hinv H0 HR HH. pose proof (proj2 HR Hinv) as Hinv1.
  apply api_create in HH as [[Hu Hx]|(n'&Hn'&Hnone&Hcom)].
  { split; [by apply unchanged_rel|]. intros y ->. done. }
  simpl in Hn'. injection Hn' as <-.
  assert (Hl : epoch l = Ok 1%Z) by (apply epoch_acquired; unfold U64_MAX; lia).
  split.
  { eapply committed_rel; [done|]. left. exists 1%Z. split_and!; [done|lia|]. intros. congruence. }
  intros y _. assert (Habove : above s1 (leadership c role tok 1)).
  { intros v' l' a' Hv' Ha'. simpl in *.
    destruct (proj1 Hinv1 _ _ _ Hv') as (cur''&a2&b2&Hcur''&_). fold n in Hcur''. congruence. }
  split; [|done]. eapply acquired_above; [done|by etrans|done|].
  eapply granted_commit; eauto using token_acquired.
Qed.

Lemma acquire_loop_safe c attempts role s0 s :
  epochs_inv s → lease_rel s0 s →
  lease_safe (acquired s0 role) (acquire_loop sha256_hex debug c attempts role) s.
Proof.
  revert s. induction attempts as [|attempts IH]; intros s Hinv H0; [by intros ld|].
  cbn [acquire_loop].
  apply safe_local; [done|]. intros wall s1 H1. apply safe_local; [done|]. intros mono s2 H2.
  apply safe_local; [done|]. intros tok s3 H3. apply safe_get. intros got s4 H4 Hgot.
  assert (H04 : lease_rel s0 s4) by (transitivity s; [done|]; transitivity s1; [done|]; transitivity s2; [done|];
        by transitivity s3).
  assert (Hinv4 : epochs_inv s4) by (apply H4, H3, H2, H1, Hinv).
  clear s H0 Hinv s1 H1 s2 H2 s3 H3 H4.
  destruct got as [[current|]|error]; [| |by intros ld].
  - destruct (verify_role debug current (role_key role)) as [|e]; [|by intros ld].
    specialize (Hgot _ eq_refl). apply safe_local; [done|]. intros active s5 H5.
    destruct (_ && _); [by intros ld|].
    destruct (epoch current) as [ep|e] eqn:Hep; [|by intros ld].
    destruct (u64_checked_add ep 1) as [ep'|] eqn:Hadd; [|by intros ld].
    apply u64_checked_add_Some in Hadd as [-> Hmax].
    apply (safe_vis api). intros s6 x s7 HR HH.
    edestruct (acquire_replace_step c role s0 s4 s6 x s7) as [Hrel Hok]; eauto; [by etrans|].
    split; [done|]. destruct x as [y|[|m]]; [by destruct (Hok y eq_refl)| |by intros ld].
    apply IH; [apply Hrel, HR, H5, Hinv4|].
    transitivity s4; [done|]. transitivity s5; [done|]. by transitivity s6.
  - apply (safe_vis api). intros s6 x s7 HR HH.
    edestruct (acquire_create_step c role s0 s4 s6 x s7) as [Hrel Hok]; eauto.
    split; [done|]. destruct x as [y|[|m]]; [by destruct (Hok y eq_refl)| |by intros ld].
    apply IH; [apply Hrel, HR, Hinv4|]. transitivity s4; [done|]. by transitivity s6.
Qed.

(** [res] reads a leadership off a result; a program [grants] when the call that
    completes it with a leadership meets a state whose epochs are all lower. *)
Section Grants.
Context {A : Type} (res : A → option Leadership).

Fixpoint grants (p : prog lease_call A) s : Prop :=
  match p with
  | Ret _ => True
  | Vis e k =>
      ∀ s1 x s2, lease_rel s s1 → api _ e s1 x s2 →
        match k x with Ret a => ∀ ld, res a = Some ld → above s1 ld | Vis _ _ => True end
        ∧ grants (k x) s2
  end.

Definition quiet (p : prog lease_call A) : Prop :=
  match p with Ret a => res a = None | Vis _ _ => True end.

Lemma grants_local {X} (e : lease_call X) (k : X → prog lease_call A) s :
  match e with
  | WallNow | MonotonicNow | NewUuid | WithObservations _ | GetLease _ => True
  | _ => False
  end →
  (∀ x, quiet (k x)) →
  (∀ x s', lease_rel s s' →
     match e in lease_call X return X → Prop with
     | GetLease n => λ x, ∀ o, x = Ok o → o = stored s' n
     | _ => λ _, True
     end x → grants (k x) s') →
  grants (Vis e k) s.
Proof.
  intros He Hq Hk s1 x s2 HR HH. specialize (Hq x). split.
  { unfold quiet in Hq. destruct (k x); [|done]. intros ld. by rewrite Hq. }
  destruct e; try done.
  5: { apply api_get in HH as [Hu Ho]. apply Hk; [etrans; [done|by apply unchanged_rel]|].
       destruct Hu as [Hst _]. intros o' Hx. rewrite Hst. auto. }
  all: apply Hk; [|done]; etrans; [done|]; eapply unchanged_rel, api_local; [|exact HH]; done.
Qed.
End Grants.

Lemma grants_map {A B} (res : B → option Leadership) (f : A → B) p s :
  grants (λ a, res (f a)) p s → grants res (pbind p (λ a, Ret (f a))) s.
Proof.
  revert s. induction p as [a|X e k IH]; intros s Hp; [done|].
  intros s1 x s2 HR HH. destruct (Hp s1 x s2 HR HH) as [Hx Hk]. split; [|by apply IH].
  by destruct (k x).
Qed.

Definition granted_by (r : CoreResult Leadership) : option Leadership :=
  match r with Ok ld => Some ld | Err _ => None end.

Lemma acquire_loop_grants c attempts role s :
  epochs_inv s → grants granted_by (acquire_loop sha256_hex debug c attempts role) s.
Proof.
  revert s. induction attempts as [|attempts IH]; intros s Hinv; [done|].
  cbn [acquire_loop].
  apply grants_local; [done|done|]. intros wall s1 H1 _. apply grants_local; [done|done|].
  intros mono s2 H2 _. apply grants_local; [done|done|]. intros tok s3 H3 _.
  apply grants_local; [done|by intros x; unfold quiet; repeat case_match; simplify_eq|].
  intros got s4 H4 Hgot.
  assert (Hinv4 : epochs_inv s4) by (apply H4, H3, H2, H1, Hinv).
  clear s Hinv s1 H1 s2 H2 s3 H3 H4.
  destruct got as [[current|]|error]; [| |done].
  - destruct (verify_role debug current (role_key role)) as [|e]; [|done].
    specialize (Hgot _ eq_refl). apply grants_local;
      [done|by intros x; unfold quiet; repeat case_match; simplify_eq|]. intros active s5 H5 _.
    destruct (_ && _); [done|]. destruct (epoch current) as [ep|e] eqn:Hep; [|done].
    destruct (u64_checked_add ep 1) as [ep'|] eqn:Hadd; [|done].
    apply u64_checked_add_Some in Hadd as [-> Hmax]. intros s6 x s7 HR HH.
    destruct (acquire_replace_step c role s4 s4 s6 x s7 current ep tok wall) as [Hrel Hok];
      [done|done|by etrans|done..|].
    destruct x as [y|[|m]]; [|split; [by destruct attempts|]|done].
    + split; [|done]. intros ld [= <-]. by destruct (Hok y eq_refl).
    + apply IH, Hrel, HR, H5, Hinv4.
  - intros s6 x s7 HR HH.
    destruct (acquire_create_step c role s4 s4 s6 x s7 tok wall) as [Hrel Hok]; [done..|].
    destruct x as [y|[|m]]; [|split; [by destruct attempts|]|done].
    + split; [|done]. intros ld [= <-]. by destruct (Hok y eq_refl).
    + apply IH, Hrel, HR, Hinv4.
Qed.

(** ** Renewal and release *)

Lemma owns_true c lease l :
  owns c lease l = Ok true →
  holder_identity lease = Some (kc_holder c) ∧ token lease = Some (ld_fencing_token l)
  ∧ epoch lease = Ok (ld_fencing_epoch l).
Proof.
  unfold owns. case_bool_decide; [|done]. case_bool_decide; [|done]. simpl.
  destruct (epoch lease) as [ep|]; [|done]. intros [= ->%Z.eqb_eq]. done.
Qed.

(** The write of an owner keeps version, epoch, and token unless it drops it. *)
Definition owner_write (lease l' : Lease) : Prop :=
  lm_resource_version l' = lm_resource_version lease ∧ epoch l' = epoch lease
  ∧ (token l' = token lease ∨ token l' = None).

Lemma renewed_owner_write c lease now : owner_write lease (renewed_lease c lease now).
Proof. split_and!; [done|by apply epoch_annotations|left; by apply token_annotations]. Qed.

Lemma released_owner_write lease now : owner_write lease (released_lease lease now).
Proof.
  unfold owner_write, released_lease, epoch, token, annotation. simpl.
  split_and!; [done| |right; by rewrite lookup_delete_eq].
  rewrite lookup_delete_ne by done. by destruct (lm_annotations lease).
Qed.

Lemma owner_replace_step n s s1 x s2 lease l' :
  epochs_inv s → stored s n = Some lease → lease_rel s s1 → owner_write lease l' →
  api _ (ReplaceLease n l') s1 x s2 →
  lease_rel s1 s2 ∧ ((∃ y, x = Ok y) → committed n l' s1 s2).
Proof.
  intros Hinv Hst HR (Hrv&He&Ht) HH.
  apply api_replace in HH as [[Hu Hx]|(cur&Hcur&Hrv'&Hcom)].
  { split; [by apply unchanged_rel|]. intros [y ->]. done. }
  assert (cur = lease) as -> by (eapply cas_current; eauto; congruence).
  split; [|done]. eapply committed_rel; [done|]. right. by exists lease.
Qed.

(** What [renew] answers: only the leadership it was given, on record. *)
Definition renewed_result (c : KubernetesLeaseCoordinator) (l : Leadership)
    (r : CoreResult RenewalOutcome) s : Prop :=
  ∀ ld, r = Ok (Renewed ld) →
    ld = leadership c (ld_role l) (ld_fencing_token l) (ld_fencing_epoch l) ∧ granted s ld.

Lemma renew_loop_safe c attempts l s :
  epochs_inv s →
  lease_safe (renewed_result c l) (renew_loop sha256_hex debug c attempts l) s.
Proof.
  revert s. induction attempts as [|attempts IH]; intros s Hinv; [by intros ld|].
  cbn [renew_loop]. apply safe_get. intros got s1 H1 Hgot.
  assert (Hinv1 : epochs_inv s1) by (apply H1, Hinv).
  destruct got as [[lease|]|error]; [|by intros ld..].
  destruct (verify_role debug lease _) as [|e]; [|by intros ld].
  destruct (owns c lease l) as [[]|e] eqn:Hown; [|by intros ld..].
  apply owns_true in Hown as (_&Htok&Hep).
  specialize (Hgot _ eq_refl). apply safe_local; [done|]. intros now s2 H2. apply (safe_vis api). intros s3 x s4 HR HH.
  edestruct (owner_replace_step (lease_name sha256_hex (ld_role l)) s1 s3 x s4 lease)
    as [Hrel Hok]; eauto using renewed_owner_write; [by etrans|].
  split; [done|]. destruct x as [y|[|m]]; [| |by intros ld].
  - intros ld [= <-]. split; [done|]. specialize (Hok (ex_intro _ y eq_refl)).
    apply (granted_commit _ _ _ _ _ Hok); [done|..]; simpl.
    + by rewrite (epoch_annotations lease).
    + by rewrite (token_annotations lease).
  - apply IH, Hrel, HR, H2, Hinv1.
Qed.

Lemma release_loop_safe c attempts l s :
  epochs_inv s →
  lease_safe (λ _ _, True) (release_loop sha256_hex debug c attempts l) s.
Proof.
  revert s. induction attempts as [|attempts IH]; intros s Hinv; [done|].
  cbn [release_loop]. apply safe_get. intros got s1 H1 Hgot.
  assert (Hinv1 : epochs_inv s1) by (apply H1, Hinv).
  destruct got as [[lease|]|error]; [|done..].
  destruct (verify_role debug lease _) as [|e]; [|done].
  destruct (owns c lease l) as [[]|e] eqn:Hown; [|done..].
  specialize (Hgot _ eq_refl). apply safe_local; [done|]. intros now s2 H2. apply (safe_vis api). intros s3 x s4 HR HH.
  edestruct (owner_replace_step (lease_name sha256_hex (ld_role l)) s1 s3 x s4 lease)
    as [Hrel _]; eauto using released_owner_write; [by etrans|].
  split; [done|]. destruct x as [y|[|m]]; [done| |done].
  apply IH, Hrel, HR, H2, Hinv1.
Qed.

(** ** Many replicas *)

(** A call by some replica, and what it answered. *)
Inductive lease_op :=
| OpAcquire (c : KubernetesLeaseCoordinator) (role : CoordinationRole)
| OpRenew (c : KubernetesLeaseCoordinator) (l : Leadership)
| OpRelease (c : KubernetesLeaseCoordinator) (l : Leadership).
Inductive lease_result :=
| RAcquire (r : CoreResult Leadership)
| RRenew (r : CoreResult RenewalOutcome)
| RRelease (r : CoreResult ReleaseOutcome).

Definition op_prog (op : lease_op) : prog lease_call lease_result :=
  match op with
  | OpAcquire c role => pbind (acquire sha256_hex debug c role) (λ r, Ret (RAcquire r))
  | OpRenew c l => pbind (renew sha256_hex debug c l) (λ r, Ret (RRenew r))
  | OpRelease c l => pbind (release sha256_hex debug c l) (λ r, Ret (RRelease r))
  end.

Definition op_ok (r : lease_result) s : Prop :=
  ∀ ld, r = RAcquire (Ok ld) ∨ r = RRenew (Ok (Renewed ld)) → granted s ld.

Lemma lease_op_safe op s : epochs_inv s → lease_safe op_ok (op_prog op) s.
Proof.
  intros Hinv. destruct op as [c role|c l|c l]; cbn [op_prog]; apply (safe_bind api);
    (eapply safe_mono; [|first [by apply (acquire_loop_safe _ _ _ s)|by apply renew_loop_safe
                               |by apply release_loop_safe]]).
  - intros r s' Hr ld [[= ->]|[=]]. by destruct (Hr ld eq_refl) as (_&?&_).
  - intros r s' Hr ld [[=]|[= ->]]. by destruct (Hr ld eq_refl) as [-> ?].
  - intros r s' _ ld [[=]|[=]].
Qed.

Lemma ops_run ops s0 ps s :
  epochs_inv s0 → rtc (pool_step api) (op_prog <$> ops, s0) (ps, s) →
  lease_rel s0 s ∧ pool_safe api lease_rel op_ok (ps, s).
Proof.
  intros Hinv Hrun. apply (pool_steps_safe api lease_rel op_ok (op_prog <$> ops, s0) (ps, s));
    [|done].
  apply Forall_fmap, Forall_true. intros op. exists s0. split; [done|by apply lease_op_safe].
Qed.

Definition acquired_by (r : lease_result) : option Leadership :=
  match r with RAcquire r => granted_by r | _ => None end.

Lemma lease_op_grants op s : epochs_inv s → grants acquired_by (op_prog op) s.
Proof.
  assert (Hnone : ∀ A (f : A → lease_result) (p : prog lease_call A) s,
    (∀ a, acquired_by (f a) = None) → grants acquired_by (pbind p (λ a, Ret (f a))) s).
  { intros A f p. induction p as [a|X e k IH]; intros s0 Hf; [done|]. intros s1 x s2 _ _.
    split; [|by apply IH]. simpl. destruct (k x) as [a|]; [|done]. intros ld. simpl. by rewrite Hf. }
  intros Hinv. destruct op as [c role|c l|c l]; cbn [op_prog]; [|by apply Hnone..].
  apply grants_map. by apply acquire_loop_grants.
Qed.

(** The epochs of two finished acquisitions differ. *)
Definition epochs_distinct (ps : list (prog lease_call lease_result)) : Prop :=
  ∀ i j l1 l2, i ≠ j →
    ps !! i = Some (Ret (RAcquire (Ok l1))) → ps !! j = Some (Ret (RAcquire (Ok l2))) →
    ld_role l1 = ld_role l2 → ld_fencing_epoch l1 ≠ ld_fencing_epoch l2.

Lemma above_granted s s' l1 l2 :
  above s l1 → granted s l2 → ld_role l1 = ld_role l2 → ld_fencing_epoch l1 ≠ ld_fencing_epoch l2.
Proof.
  intros Ha (v&x&Hv&He&_) Hr Heq. rewrite <- Hr in Hv. specialize (Ha _ _ _ Hv He). lia.
Qed.

(** What a pool of operations maintains. *)
Definition lease_pool (c : list (prog lease_call lease_result) * S) : Prop :=
  pool_safe api lease_rel op_ok c
  ∧ Forall (λ p, ∃ s0, lease_rel s0 c.2 ∧ grants acquired_by p s0) c.1
  ∧ epochs_distinct c.1.

Lemma pool_granted c k ld :
  pool_safe api lease_rel op_ok c →
  c.1 !! k = Some (Ret (RAcquire (Ok ld))) ∨ c.1 !! k = Some (Ret (RRenew (Ok (Renewed ld)))) →
  granted c.2 ld.
Proof.
  intros Hs [Hk|Hk]; destruct (Forall_lookup_1 _ _ _ _ Hs Hk) as (s1&Hrel&Hok);
    (eapply granted_rel; [exact Hrel|]); apply Hok; [by left|by right].
Qed.

Lemma lease_pool_step c c' : lease_pool c → pool_step api c c' → lease_pool c'.
Proof.
  intros (Hs&Hg&Hd) Hst. destruct (pool_step_safe api lease_rel op_ok c c' Hs Hst) as [Hrel Hs'].
  split; [done|]. destruct Hst as (k&p&p'&Hk&Hst&Hps). destruct p as [|X e kk]; [done|].
  destruct Hst as (x&HH&->).
  destruct (Forall_lookup_1 _ _ _ _ Hg Hk) as (s0&H0&Hgk).
  destruct (Hgk _ _ _ H0 HH) as [Hab Hgk']. split; [rewrite Hps; apply Forall_insert|].
  - eapply Forall_impl; [exact Hg|]. intros q (s1&H1&Hq). exists s1. split; [by etrans|done].
  - by exists c'.2.
  - assert (Hnew : ∀ i l1 l2, i ≠ k → c.1 !! i = Some (Ret (RAcquire (Ok l2))) →
      kk x = Ret (RAcquire (Ok l1)) → ld_role l1 = ld_role l2 →
      ld_fencing_epoch l1 ≠ ld_fencing_epoch l2).
    { intros i l1 l2 Hne Hi Hkk. rewrite Hkk in Hab. apply (above_granted c.2 c.2).
      - by apply Hab.
      - apply (pool_granted c i); [done|by left]. }
    intros i j l1 l2 Hij Hi Hj Hr. rewrite Hps in Hi, Hj.
    assert (Hlt : k < length c.1) by by eapply lookup_lt_Some.
    destruct (decide (i = k)) as [->|]; [|destruct (decide (j = k)) as [->|]].
    + rewrite list_lookup_insert_eq in Hi by done. rewrite list_lookup_insert_ne in Hj by done.
      injection Hi as Hi. by apply (Hnew j).
    + rewrite list_lookup_insert_eq in Hj by done. rewrite list_lookup_insert_ne in Hi by done.
      injection Hj as Hj. intros Heq. by apply (Hnew i l2 l1).
    + rewrite list_lookup_insert_ne in Hi, Hj by done. by apply (Hd i j).
Qed.

Lemma lease_pool_run ops s0 ps s :
  epochs_inv s0 → rtc (pool_step api) (op_prog <$> ops, s0) (ps, s) →
  epochs_inv s ∧ lease_pool (ps, s).
Proof.
  intros Hinv Hrun.
  assert (H0 : lease_pool (op_prog <$> ops, s0)).
  { split_and!.
    - apply Forall_fmap, Forall_true. intros op. exists s0. split; [done|by apply lease_op_safe].
    - apply Forall_fmap, Forall_true. intros op. exists s0. split; [done|by apply lease_op_grants].
    - intros i j l1 l2 _ Hi. apply list_lookup_fmap_Some in Hi as (op&Hop&_). by destruct op. }
  split.
  - destruct (pool_steps_safe api lease_rel op_ok _ _ (proj1 H0) Hrun) as [[_ Hi] _]. by apply Hi.
  - clear Hinv. induction Hrun; eauto using lease_pool_step.
Qed.

(** The [k]-th operation has answered with this leadership, from an acquire or
    from a renewal. *)
Definition holds (ps : list (prog lease_call lease_result)) (k : nat) (ld : Leadership) : Prop :=
  ps !! k = Some (Ret (RAcquire (Ok ld))) ∨ ps !! k = Some (Ret (RRenew (Ok (Renewed ld)))).

(** C3.  A fencing epoch identifies one acquisition.  Take any number of
    replicas acquiring, renewing and releasing roles, interleaved at every
    await, against an API server with the documented optimistic concurrency.
    Two leaderships of one role that were granted or renewed with the same
    epoch carry the same token, and two different acquires of one role never
    return the same epoch. *)
Theorem fencing_epoch_unique ops s0 ps s i j l1 l2 :
  epochs_inv s0 →
  rtc (pool_step api) (op_prog <$> ops, s0) (ps, s) →
  ld_role l1 = ld_role l2 →
  (holds ps i l1 → holds ps j l2 → ld_fencing_epoch l1 = ld_fencing_epoch l2 →
   ld_fencing_token l1 = ld_fencing_token l2)
  ∧ (ps !! i = Some (Ret (RAcquire (Ok l1))) → ps !! j = Some (Ret (RAcquire (Ok l2))) →
     i ≠ j → ld_fencing_epoch l1 ≠ ld_fencing_epoch l2).
Proof.
  intros Hinv Hrun Hrole. destruct (lease_pool_run ops s0 ps s Hinv Hrun) as [Hinv' (Hs&_&Hd)].
  split; [|by intros Hi Hj Hij; apply (Hd i j)]. intros Hi Hj Hep.
  destruct (pool_granted (ps, s) i l1 Hs Hi) as (v1&x1&Hv1&He1&Ht1).
  destruct (pool_granted (ps, s) j l2 Hs Hj) as (v2&x2&Hv2&He2&Ht2).
  rewrite <- Hrole in Hv2. rewrite <- Hep in He2.
  exact (proj2 Hinv' _ v1 v2 x1 x2 _ _ _ Hv1 Hv2 He1 He2 Ht1 Ht2).
Qed.

(** An acquire supersedes: whatever runs concurrently, the epoch it
    returns is strictly above every epoch the Lease carried before the call
    began, and the leadership it returns is the one on record. *)
Theorem acquire_supersedes c role s0 :
  epochs_inv s0 →
  lease_safe (λ r s, ∀ ld, r = Ok ld →
    ld_role ld = role ∧ granted s ld
    ∧ ∀ v l a, versions s0 (lease_name sha256_hex role) v = Some l → epoch l = Ok a →
               (a < ld_fencing_epoch ld)%Z)
    (acquire sha256_hex debug c role) s0.
Proof. intros Hinv. by apply acquire_loop_safe. Qed.

(** A holder whose epoch has been passed. *)
Definition superseded s (l : Leadership) : Prop :=
  epochs_inv s ∧ ∃ v x a, versions s (lease_name sha256_hex (ld_role l)) v = Some x
                          ∧ epoch x = Ok a ∧ (ld_fencing_epoch l < a)%Z.

Lemma superseded_rel s s' l : lease_rel s s' → superseded s l → superseded s' l.
Proof.
  intros [Hm Hi] (Hinv&v&x&a&Hv&?). split; [auto|]. exists v, x, a. split; [by apply Hm|done].
Qed.

Lemma superseded_owns c s l lease :
  superseded s l → stored s (lease_name sha256_hex (ld_role l)) = Some lease →
  owns c lease l ≠ Ok true.
Proof.
  intros ((H1&_)&v&x&a&Hv&Ha&Hlt) Hst (_&_&He)%owns_true.
  destruct (H1 _ _ _ Hv) as (cur&a'&b&Hcur&Ha'&Hb&Hab). simplify_eq. ok_inj. lia.
Qed.

Lemma safe_get_unchanged {A} (Q : A → S → Prop) n (k : _ → prog lease_call A) s :
  (∀ x s', lease_rel s s' → (∀ o, x = Ok o → o = stored s' n) →
     safe api unchanged lease_rel Q (k x) s') →
  safe api unchanged lease_rel Q (Vis (GetLease n) k) s.
Proof.
  intros Hk. apply (safe_vis api). intros s1 x s2 HR HH.
  apply api_get in HH as [Hu Ho]. pose proof (unchanged_rel _ _ Hu) as Hrel.
  split; [done|]. apply Hk; [by etrans|]. destruct Hu as [Hst _]. intros o Hx.
  rewrite Hst. auto.
Qed.

(** A superseded holder is powerless: once a later epoch has been
    installed, its renewals and releases write nothing, whatever runs
    concurrently, and never answer [Renewed] or [Released]. *)
Theorem superseded_holder_inert c l s :
  superseded s l →
  safe api unchanged lease_rel (λ r _, ∀ ld, r ≠ Ok (Renewed ld))
    (renew sha256_hex debug c l) s
  ∧ safe api unchanged lease_rel (λ r _, r ≠ Ok Released) (release sha256_hex debug c l) s.
Proof.
  intros Hsup. unfold renew, release. generalize MAX_CONFLICT_RETRIES as attempts.
  intros [|attempts]; [split; by intros|]. split; apply safe_get_unchanged; intros got s1 H1 Hgot;
    apply (superseded_rel _ _ _ H1) in Hsup; destruct got as [[lease|]|error]; try by intros.
  - destruct (verify_role debug lease _) as [|e]; [|by intros].
    destruct (owns c lease l) as [[]|e] eqn:Hown; [|by intros..].
    by destruct (superseded_owns c s1 l lease Hsup (eq_sym (Hgot _ eq_refl))).
  - destruct (verify_role debug lease _) as [|e]; [|by intros].
    destruct (owns c lease l) as [[]|e] eqn:Hown; [|by intros..].
    by destruct (superseded_owns c s1 l lease Hsup (eq_sym (Hgot _ eq_refl))).
Qed.
End Fencing.

(** ** Waiting for an expired Lease *)

(** A Lease held by another replica is only considered expired after a
    full Lease duration during which this replica saw one and the same version:
    if [is_active] answers false for a Lease that names a holder and a positive
    duration, the replica had already recorded that version, at least that
    long ago; and the answer leaves the record of the first sighting in
    place. *)
Theorem expiry_needs_full_duration name lease now obs spec h d v obs' :
  l_spec lease = Some spec → ls_holder_identity spec = Some h → h ≠ "" →
  ls_lease_duration_seconds spec = Some d → (0 < d)%Z →
  lm_resource_version lease = Some v →
  is_active name lease now obs = (false, obs') →
  ∃ t, obs !! name = Some (v, t) ∧ (t + d * NANOS <= now)%Z ∧ obs' = obs.
Proof.
  intros Hs Hh Hne Hd Hpos Hv Ha. unfold is_active in Ha. rewrite Hs, Hh, Hd, Hv in Ha.
  simpl in Ha. destruct h as [|ch h]; [done|]. simpl in Ha.
  rewrite (proj2 (Z.leb_gt d 0)) in Ha by lia. unfold NANOS in *.
  assert (Hnew : (Z.max 0 (now - now) <? d * 1000000000)%Z = true) by (apply Z.ltb_lt; lia).
  destruct (obs !! name) as [[seen t]|]; simpl in Ha; [|by rewrite Hnew in Ha].
  destruct (String.eqb_spec seen v) as [->|]; simpl in Ha; [|by rewrite Hnew in Ha].
  injection Ha as Hlt ->. apply Z.ltb_ge in Hlt. exists t. split_and!; [done|lia|done].
Qed.

(** ** An in-memory API server *)

Record mem_api := mkMem {
  ma_history : gmap string (list Lease);
  ma_observations : LeaseObservations;
  ma_clock : Z;
  ma_uuids : nat;
}.

Definition with_version (v : string) (l : Lease) : Lease :=
  mkLease (lm_name l) (lm_namespace l) (Some v) (lm_annotations l) (lm_other l) (l_spec l).

Definition mem_stored (s : mem_api) (n : string) : option Lease :=
  vs_stored with_version (ma_history s) n.

Definition mem_commit (n : string) (l : Lease) (s : mem_api) : mem_api :=
  mkMem (vs_commit n l (ma_history s)) (ma_observations s) (ma_clock s) (ma_uuids s).

Definition mem_handle (X : Type) (e : lease_call X) : mem_api → X * mem_api :=
  match e in lease_call X return mem_api → X * mem_api with
  | WallNow => λ s, (ma_clock s, s)
  | MonotonicNow => λ s, (ma_clock s, s)
  | NewUuid => λ s, (u64_to_string (Z.of_nat (ma_uuids s)),
      mkMem (ma_history s) (ma_observations s) (ma_clock s + NANOS) (S (ma_uuids s)))
  | WithObservations f => λ s,
      let '(b, obs) := f (ma_observations s) in
      (b, mkMem (ma_history s) obs (ma_clock s) (ma_uuids s))
  | GetLease n => λ s, (Ok (mem_stored s n), s)
  | CreateLease l => λ s,
      match lm_name l with
      | None => (Err (LeaseOther "name required"), s)
      | Some n =>
          match mem_stored s n with
          | Some _ => (Err LeaseConflict, s)
          | None => (Ok l, mem_commit n l s)
          end
      end
  | ReplaceLease n l => λ s,
      match mem_stored s n with
      | None => (Err (LeaseOther "not found"), s)
      | Some cur =>
          if bool_decide (lm_resource_version l = lm_resource_version cur)
          then (Ok l, mem_commit n l s) else (Err LeaseConflict, s)
      end
  end.

#[export] Instance mem_lease_api : LeaseApi mem_api := {|
  api X e s x s' := mem_handle X e s = (x, s');
  stored := mem_stored;
  versions s := vs_versions with_version (ma_history s);
|}.

Lemma mem_commit_committed n l s : committed n l s (mem_commit n l s).
Proof.
  destruct (vs_commit_spec with_version (ma_history s) n l) as (H1&H2&H3&H4&H5).
  exists (vs_next (ma_history s) n), (with_version (vs_next (ma_history s) n) l). done.
Qed.

#[export] Instance mem_lease_laws : LeaseApiLaws mem_api.
Proof.
  split.
  - intros s n l Hst. destruct (vs_stored_version with_version _ _ _ Hst) as (l0&v&->&Hv).
    by exists v.
  - intros X e s x s' He Ha. destruct e; try done; simpl in Ha; simplify_eq; try done.
    by destruct (f (ma_observations s)); simplify_eq.
  - intros n s x s' Ha. simpl in Ha. simplify_eq. split; [done|]. by intros o [= <-].
  - intros l s x s' Ha. simpl in Ha. destruct (lm_name l) as [n|] eqn:En; simplify_eq; [|by left].
    destruct (mem_stored s n) eqn:Es; simplify_eq; [by left|]. right. exists n.
    split_and!; [done|done|apply mem_commit_committed].
  - intros n l s x s' Ha. simpl in Ha. destruct (mem_stored s n) as [cur|] eqn:Es;
      simplify_eq; [|by left]. case_bool_decide; simplify_eq; [|by left]. right. exists cur.
    split_and!; [done|done|apply mem_commit_committed].
Qed.

Definition mem_new : mem_api := mkMem ∅ ∅ 0 0.

Lemma mem_new_inv : epochs_inv mem_new.
Proof. by split; intros n v. Qed.

(** ** Witnesses *)

Definition demo_hash (s : string) : string := "0123456789abcdef0123456789abcdef".
Definition demo_debug (s : string) : string := s.
Definition pod_a : KubernetesLeaseCoordinator := mkCoordinator "pod-a" (15 * NANOS).
Definition demo_role : CoordinationRole := ControllerOwner "c1/edge".
Definition demo_acquire : prog lease_call lease_result :=
  op_prog demo_hash demo_debug (OpAcquire pod_a demo_role).
Definition demo_grant (tok : string) (ep : Z) : Leadership := leadership pod_a demo_role tok ep.
Definition mem_one : mem_api := (run mem_handle demo_acquire mem_new).2.
Definition mem_two : mem_api := (run mem_handle demo_acquire mem_one).2.

Lemma demo_pool :
  rtc (pool_step api) ([demo_acquire; demo_acquire], mem_new)
    ([Ret (RAcquire (Ok (demo_grant "0" 1))); Ret (RAcquire (Ok (demo_grant "1" 2)))], mem_two).
Proof.
  etrans.
  - apply (run_pool api mem_handle _ 0 demo_acquire mem_new (RAcquire (Ok (demo_grant "0" 1)))
             mem_one); [done|done|vm_compute; reflexivity].
  - apply (run_pool api mem_handle [Ret (RAcquire (Ok (demo_grant "0" 1))); demo_acquire] 1
             demo_acquire mem_one (RAcquire (Ok (demo_grant "1" 2)))
             mem_two); [done|done|vm_compute; reflexivity].
Qed.

(** Two acquires of one role by two replicas' calls, and a renewal of the second
    one's grant, one after the other. *)
Definition demo_renew : prog lease_call lease_result :=
  op_prog demo_hash demo_debug (OpRenew pod_a (demo_grant "1" 2)).
Definition mem_three : mem_api := (run mem_handle demo_renew mem_two).2.

Lemma demo_three :
  rtc (pool_step api) ([demo_acquire; demo_acquire; demo_renew], mem_new)
    ([Ret (RAcquire (Ok (demo_grant "0" 1))); Ret (RAcquire (Ok (demo_grant "1" 2)));
      Ret (RRenew (Ok (Renewed (demo_grant "1" 2))))], mem_three).
Proof.
  etrans; [|etrans].
  - apply (run_pool api mem_handle _ 0 demo_acquire mem_new (RAcquire (Ok (demo_grant "0" 1)))
             mem_one); [done|done|vm_compute; reflexivity].
  - apply (run_pool api mem_handle
             [Ret (RAcquire (Ok (demo_grant "0" 1))); demo_acquire; demo_renew] 1
             demo_acquire mem_one (RAcquire (Ok (demo_grant "1" 2)))
             mem_two); [done|done|vm_compute; reflexivity].
  - apply (run_pool api mem_handle
             [Ret (RAcquire (Ok (demo_grant "0" 1))); Ret (RAcquire (Ok (demo_grant "1" 2)));
              demo_renew] 2
             demo_renew mem_two (RRenew (Ok (Renewed (demo_grant "1" 2))))
             mem_three); [done|done|vm_compute; reflexivity].
Qed.

(** The renewal carries the token of its acquisition; the two acquisitions have
    different epochs. *)
Lemma fencing_epoch_unique_witness :
  ld_fencing_token (demo_grant "1" 2) = ld_fencing_token (demo_grant "1" 2)
  ∧ ld_fencing_epoch (demo_grant "0" 1) ≠ ld_fencing_epoch (demo_grant "1" 2).
Proof.
  split.
  - exact (proj1 (fencing_epoch_unique demo_hash demo_debug
      [OpAcquire pod_a demo_role; OpAcquire pod_a demo_role; OpRenew pod_a (demo_grant "1" 2)]
      mem_new _ _ 1 2 (demo_grant "1" 2) (demo_grant "1" 2) mem_new_inv demo_three eq_refl)
      (or_introl eq_refl) (or_intror eq_refl) eq_refl).
  - exact (proj2 (fencing_epoch_unique demo_hash demo_debug
      [OpAcquire pod_a demo_role; OpAcquire pod_a demo_role; OpRenew pod_a (demo_grant "1" 2)]
      mem_new _ _ 0 1 (demo_grant "0" 1) (demo_grant "1" 2) mem_new_inv demo_three eq_refl)
      eq_refl eq_refl ltac:(discriminate)).
Defined.

Lemma acquire_supersedes_witness :
  safe api lease_rel lease_rel (λ r s, ∀ ld, r = Ok ld →
    ld_role ld = demo_role ∧ granted demo_hash s ld
    ∧ ∀ v l a, versions mem_new (lease_name demo_hash demo_role) v = Some l → epoch l = Ok a →
               (a < ld_fencing_epoch ld)%Z)
    (acquire demo_hash demo_debug pod_a demo_role) mem_new.
Proof. apply acquire_supersedes. exact mem_new_inv. Defined.

Lemma mem_two_inv : epochs_inv mem_two.
Proof.
  destruct (ops_run demo_hash demo_debug [OpAcquire pod_a demo_role; OpAcquire pod_a demo_role]
    mem_new _ mem_two mem_new_inv demo_pool) as [[_ Hinv] _].
  exact (Hinv mem_new_inv).
Qed.

Lemma mem_two_superseded : superseded demo_hash mem_two (demo_grant "0" 1).
Proof.
  split; [exact mem_two_inv|]. exists "v". eexists _, 2%Z.
  split_and!; [vm_compute; reflexivity|vm_compute; reflexivity|simpl; lia].
Qed.

Lemma superseded_holder_inert_witness :
  safe api unchanged lease_rel (λ r _, ∀ ld, r ≠ Ok (Renewed ld))
    (renew demo_hash demo_debug pod_a (demo_grant "0" 1)) mem_two.
Proof.
  exact (proj1 (superseded_holder_inert demo_hash demo_debug pod_a (demo_grant "0" 1) mem_two
                  mem_two_superseded)).
Defined.

Lemma expiry_needs_full_duration_witness :
  let spec := mkSpec (Some "pod-a") (Some 15%Z) None None None None in
  let lease := mkLease (Some "n") None (Some "7") None None (Some spec) in
  ∃ t, ({["n" := ("7", 5%Z)]} : LeaseObservations) !! "n" = Some ("7", t)
       ∧ (t + 15 * NANOS <= 20 * NANOS)%Z.
Proof.
  intros spec lease.
  destruct (expiry_needs_full_duration "n" lease (20 * NANOS) {["n" := ("7", 5%Z)]} spec "pod-a"
    15 "7" {["n" := ("7", 5%Z)]}) as (t&Ht&Hle&_);
    [reflexivity|reflexivity|discriminate|reflexivity|lia|reflexivity|vm_compute; reflexivity|].
  exists t. split; [exact Ht|exact Hle].
Defined.
