(* ===== verification/OwnerLocator.v ===== *)
(** * OwnerLocator: from an ownership Lease to the endpoint of a replica

    [crates/center-adapter-kubernetes/src/owner_locator.rs].  A controller is
    routed to the replica whose Lease is active, after the Pod named by the
    holder identity was checked against the Pod UID it carries.  The cluster
    (Leases and Pods) and the monotonic clock are calls of the port. *)

From Stdlib Require Import Ascii.
From S2P Require Import Prelude Core Effects Lease.

(** The fields of a Pod the locator reads. *)
Record PodStatus := { ps_phase : option string; ps_pod_ip : option string }.
Record Pod := {
  pod_uid : option string;
  pod_deletion_timestamp : option Z;
  pod_status : option PodStatus;
}.

Inductive locator_call : Type → Type :=
| LGetLease (name : string) : locator_call (result (option Lease) string)
| LGetPod (name : string) : locator_call (result (option Pod) string)
| LNow : locator_call Z
| LObservations {X : Type} (f : LeaseObservations → X * LeaseObservations) : locator_call X.

Definition locator_new (namespace : string) (internal_port : Z) : CoreResult Z :=
  if is_empty (str_trim namespace) || has_control namespace then
    Err (Adapter "Kubernetes owner locator namespace must be non-empty")
  else if (internal_port =? 0)%Z then
    Err (Adapter "Kubernetes owner locator internal port must be non-zero")
  else Ok internal_port.

(** The entry of the observation table, inserted when the version is new; the
    answer says whether the version is younger than the duration. *)
Definition observe (name marker : string) (now duration : Z) (obs : LeaseObservations) :
    bool * LeaseObservations :=
  let '(observed_at, obs) :=
    match obs !! name with
    | Some (seen, observed_at) =>
        if String.eqb seen marker then (observed_at, obs)
        else (now, <[name := (marker, now)]> obs)
    | None => (now, <[name := (marker, now)]> obs)
    end in
  (negb (duration * NANOS <=? Z.max 0 (now - observed_at))%Z, obs).

Definition active_owner (name : string) (lease : Lease) (expected_role : string) :
    prog locator_call (CoreResult (option (string * OwnershipFence))) :=
  match lm_annotations lease with
  | None => Ret (Err (Conflict "managed Controller Lease omitted annotations"))
  | Some annotations =>
      if bool_decide (annotations !! ROLE_ANNOTATION ≠ Some expected_role) then
        Ret (Err (Conflict "Controller Lease role annotation did not match its name"))
      else
        match l_spec lease with
        | None => Ret (Ok None)
        | Some spec =>
            match ls_holder_identity spec with
            | None | Some EmptyString => Ret (Ok None)
            | Some holder =>
                match ls_lease_duration_seconds spec with
                | None => Ret (Ok None)
                | Some duration =>
                    if negb (0 <? duration)%Z then Ret (Ok None)
                    else
                      let marker :=
                        default "" (match lm_resource_version lease with
                                    | Some v => Some v
                                    | None => annotations !! TOKEN_ANNOTATION
                                    end) in
                      now <~ LNow ;;
                      active <~ LObservations (observe name marker now duration) ;;
                      if negb active then Ret (Ok None)
                      else
                        match annotations !! TOKEN_ANNOTATION with
                        | None | Some EmptyString =>
                            Ret (Err (Conflict "active Controller Lease omitted fencing token"))
                        | Some token =>
                            match annotations !! EPOCH_ANNOTATION with
                            | None =>
                                Ret (Err (Conflict "active Controller Lease omitted fencing epoch"))
                            | Some e =>
                                match parse_u64 e with
                                | None => Ret (Err (Conflict
                                    "active Controller Lease has invalid fencing epoch"))
                                | Some epoch =>
                                    if (epoch =? 0)%Z then
                                      Ret (Err (Conflict
                                        "active Controller Lease has zero fencing epoch"))
                                    else Ret (Ok (Some (holder,
                                           {| of_token := token; of_epoch := epoch |})))
                                end
                            end
                        end
                end
            end
        end
  end.

(** The first two parts of [holder.split('/')], and that there is no third. *)
Definition parse_holder (holder : string) : CoreResult (string * string) :=
  let parts := str_split slash holder in
  let pod_name := default "" (parts !! 0) in
  let pod_uid := default "" (parts !! 1) in
  if is_empty pod_name || is_empty pod_uid || bool_decide (is_Some (parts !! 2)) then
    Err (Conflict "Controller Lease holder must be podName/podUID")
  else Ok (pod_name, pod_uid).

Definition pod_ip (pod : Pod) (expected_uid : string) : option string :=
  if bool_decide (pod_uid pod ≠ Some expected_uid)
     || bool_decide (is_Some (pod_deletion_timestamp pod))
     || bool_decide (pod_status pod ≫= ps_phase ≠ Some "Running")
  then None
  else match pod_status pod ≫= ps_pod_ip with
       | Some ip => if is_empty ip then None else Some ip
       | None => None
       end.

Definition endpoint (internal_port : Z) (ip : string) : string :=
  if str_mem ":"%char ip then "https://[" +:+ ip +:+ "]:" +:+ u64_to_string internal_port
  else "https://" +:+ ip +:+ ":" +:+ u64_to_string internal_port.

Section Locator.
Context (sha256_hex : string → string) (internal_port : Z).

Definition locate (id : string) :
    prog locator_call (CoreResult (option ControllerOwnerRoute)) :=
  let role := ControllerOwner id in
  let name := lease_name sha256_hex role in
  lease <~ LGetLease name ;;
  match lease with
  | Err error => Ret (Err (Adapter error))
  | Ok None => Ret (Ok None)
  | Ok (Some lease) =>
      pbind (active_owner name lease (role_key role)) (λ owner,
        match owner with
        | Err error => Ret (Err error)
        | Ok None => Ret (Ok None)
        | Ok (Some (holder, ownership_fence)) =>
            match parse_holder holder with
            | Err error => Ret (Err error)
            | Ok (pod_name, pod_uid) =>
                pod <~ LGetPod pod_name ;;
                match pod with
                | Err error => Ret (Err (Adapter error))
                | Ok None => Ret (Ok None)
                | Ok (Some pod) =>
                    match pod_ip pod pod_uid with
                    | None => Ret (Ok None)
                    | Some ip =>
                        Ret (Ok (Some {| route_holder := holder;
                                         route_endpoint := endpoint internal_port ip;
                                         route_ownership_fence := ownership_fence |}))
                    end
                end
            end
        end)
  end.
End Locator.

(** ** What a located route says *)

(** One lookup: the objects the two reads return and the instant of the lookup. *)
Record cluster_view := {
  cv_lease : string → result (option Lease) string;
  cv_pod : string → result (option Pod) string;
  cv_now : Z;
}.

Definition view_handler (cv : cluster_view) (X : Type) (e : locator_call X) :
    LeaseObservations → X * LeaseObservations :=
  match e in locator_call X return LeaseObservations → X * LeaseObservations with
  | LGetLease name => λ obs, (cv_lease cv name, obs)
  | LGetPod name => λ obs, (cv_pod cv name, obs)
  | LNow => λ obs, (cv_now cv, obs)
  | LObservations f => f
  end.

Lemma parse_holder_spec h a b :
  parse_holder h = Ok (a, b) ↔
  h = join_slash a b ∧ str_mem slash a = false ∧ str_mem slash b = false ∧ a ≠ "" ∧ b ≠ "".
Proof.
  unfold parse_holder. split.
  - intros Hp. pose proof (str_join_split h) as Hj.
    pose proof (str_split_no_sep slash h) as Hno.
    destruct (str_split slash h) as [|x [|y [|z ps]]]; simpl in Hp.
    + done.
    + destruct x; done.
    + destruct x, y; try done. simpl in Hp. injection Hp as <- <-.
      split_and!; [by rewrite <- Hj|apply Hno; set_solver|apply Hno; set_solver|done|done].
    + destruct x, y; done.
  - intros (->&Ha&Hb&Hna&Hnb). rewrite str_split_join_slash, str_split_clean by done. simpl.
    destruct a; [done|]. by destruct b.
Qed.

(** The owner named by an active Lease. *)
Definition lease_owner (name role : string) (lease : Lease) (now : Z) (obs obs' : LeaseObservations)
    (holder : string) (fence : OwnershipFence) : Prop :=
  annotation ROLE_ANNOTATION lease = Some role
  ∧ holder_identity lease = Some holder
  ∧ is_active name lease now obs = (true, obs')
  ∧ token lease = Some (of_token fence) ∧ of_token fence ≠ ""
  ∧ epoch lease = Ok (of_epoch fence) ∧ of_epoch fence ≠ 0%Z.

Lemma observe_active name lease now obs spec holder d :
  l_spec lease = Some spec → ls_holder_identity spec = Some holder → holder ≠ "" →
  ls_lease_duration_seconds spec = Some d → (0 < d)%Z →
  is_active name lease now obs =
  observe name (default "" (match lm_resource_version lease with
                            | Some v => Some v | None => token lease end)) now d obs.
Proof.
  intros Hs Hh Hne Hd Hpos. unfold is_active, observe. rewrite Hs, Hh, Hd. simpl.
  destruct holder as [|c h]; [done|]. simpl. rewrite (proj2 (Z.leb_gt d 0)) by lia.
  match goal with |- context [obs !! name] => destruct (obs !! name) as [[seen t]|] end;
    [case_match|]; by rewrite Z.ltb_antisym.
Qed.

Lemma active_owner_spec cv name lease role obs holder fence obs' :
  run (view_handler cv) (active_owner name lease role) obs = (Ok (Some (holder, fence)), obs') ↔
  lease_owner name role lease (cv_now cv) obs obs' holder fence.
Proof.
  unfold active_owner, lease_owner, annotation, holder_identity, token, epoch, annotation.
  destruct (lm_annotations lease) as [an|] eqn:Han; simpl; [|naive_solver].
  case_bool_decide as Hrole; [naive_solver|].
  destruct (l_spec lease) as [spec|] eqn:Hspec; simpl; [|naive_solver].
  destruct (ls_holder_identity spec) as [[|ch h]|] eqn:Hh; simpl.
  1: { split; [done|]. intros (_&[= <-]&Ha&_). unfold is_active in Ha. rewrite Hspec, Hh in Ha. done. }
  2: naive_solver.
  destruct (ls_lease_duration_seconds spec) as [d|] eqn:Hd; simpl.
  2: { split; [done|]. intros (_&_&Ha&_). unfold is_active in Ha. rewrite Hspec, Hh, Hd in Ha. done. }
  destruct (Z.ltb_spec 0 d) as [Hpos|Hneg]; simpl.
  2: { split; [done|]. intros (_&_&Ha&_). unfold is_active in Ha. rewrite Hspec, Hh, Hd in Ha.
       simpl in Ha. rewrite (proj2 (Z.leb_le d 0)) in Ha by lia. done. }
  rewrite (observe_active name lease _ _ _ _ _ Hspec Hh) by done.
  unfold token, annotation. rewrite Han. simpl.
  destruct (observe name _ (cv_now cv) d obs) as [[] obs1]; simpl; [|naive_solver].
  destruct (an !! TOKEN_ANNOTATION) as [[|ct t]|]; simpl.
  1: { split; [done|]. intros (_&_&_&[= <-]&Hne&_). done. }
  2: naive_solver.
  destruct (an !! EPOCH_ANNOTATION) as [e|]; simpl.
  2: { split; [done|]. intros (_&_&_&_&_&[= <-]&Hne). done. }
  destruct (parse_u64 e) as [ep|]; simpl; [|naive_solver].
  destruct (Z.eqb_spec ep 0) as [->|Hep]; simpl; [naive_solver|].
  split.
  - intros [= <- <- <-]. done.
  - intros (_&[= <-]&[= <-]&[= Ht]&_&[= He]&_). destruct fence as [ft fe]. simpl in *. by subst.
Qed.

Lemma pod_ip_spec pod uid ip :
  pod_ip pod uid = Some ip ↔
  pod_uid pod = Some uid ∧ pod_deletion_timestamp pod = None
  ∧ pod_status pod ≫= ps_phase = Some "Running" ∧ pod_status pod ≫= ps_pod_ip = Some ip ∧ ip ≠ "".
Proof.
  unfold pod_ip.
  destruct (pod_deletion_timestamp pod) as [t|].
  { rewrite (bool_decide_eq_true_2 (is_Some (Some t))) by by eexists.
    rewrite orb_true_r. simpl. naive_solver. }
  rewrite (bool_decide_eq_false_2 (is_Some None)) by by intros [].
  do 2 (case_bool_decide; simpl; [naive_solver|]).
  destruct (pod_status pod ≫= ps_pod_ip) as [[|c i]|]; simpl; naive_solver.
Qed.

(** Routing to the owner.  A lookup answers a route exactly when the
    controller's ownership Lease carries the right role, is active by the same
    rule the coordinator uses before it takes a Lease over, and holds a non-empty
    token and a positive epoch, and its holder identity [podName/podUID] names a
    Pod that has this very UID, is running, is not being deleted and has an
    address; the route then carries the Lease's holder and fence and the Pod's
    address. *)
Theorem locate_route_exact sha256_hex port cv id obs route obs' :
  let role := ControllerOwner id in
  let name := lease_name sha256_hex role in
  run (view_handler cv) (locate sha256_hex port id) obs = (Ok (Some route), obs') ↔
  ∃ lease pod pod_name uid ip,
    cv_lease cv name = Ok (Some lease)
    ∧ lease_owner name (role_key role) lease (cv_now cv) obs obs' (route_holder route)
        (route_ownership_fence route)
    ∧ route_holder route = join_slash pod_name uid
    ∧ str_mem slash pod_name = false ∧ str_mem slash uid = false ∧ pod_name ≠ "" ∧ uid ≠ ""
    ∧ cv_pod cv pod_name = Ok (Some pod)
    ∧ pod_uid pod = Some uid ∧ pod_deletion_timestamp pod = None
    ∧ pod_status pod ≫= ps_phase = Some "Running"
    ∧ pod_status pod ≫= ps_pod_ip = Some ip ∧ ip ≠ ""
    ∧ route_endpoint route = endpoint port ip.
Proof.
  intros role name. unfold locate. cbn [run view_handler]. fold role name. split.
  - destruct (cv_lease cv name) as [[lease|]|e] eqn:Hl; [|done..]. rewrite run_bind.
    destruct (run (view_handler cv) (active_owner name lease (role_key role)) obs)
      as [[[[holder fence]|]|e] obs1] eqn:Ha; [|done..]. apply active_owner_spec in Ha.
    destruct (parse_holder holder) as [[pn uid]|e] eqn:Hp; [|done]. cbn [run view_handler].
    apply parse_holder_spec in Hp as (Hj&Hsa&Hsb&Hna&Hnb).
    destruct (cv_pod cv pn) as [[pod|]|e] eqn:Hpod; [|done..].
    destruct (pod_ip pod uid) as [ip|] eqn:Hip; [|done]. apply pod_ip_spec in Hip as (?&?&?&?&?).
    intros [= <- <-]. exists lease, pod, pn, uid, ip. done.
  - intros (lease&pod&pn&uid&ip&Hl&Ho&Hj&Hsa&Hsb&Hna&Hnb&Hpod&Hu&Hdel&Hph&Hip&Hne&Hend).
    rewrite Hl, run_bind. apply active_owner_spec in Ho. rewrite Ho.
    rewrite (proj2 (parse_holder_spec (route_holder route) pn uid)) by done.
    cbn [run view_handler]. rewrite Hpod, (proj2 (pod_ip_spec pod uid ip)) by done.
    cbn [run]. rewrite <- Hend. by destruct route.
Qed.

(** A dead owner is not routed to forever.  Once a replica has seen the same
    version of a Lease for a full Lease duration, no lookup answers a route,
    whatever the Pods say, until the Lease changes. *)
Theorem expired_lease_not_routed sha256_hex port cv id obs lease spec d v t :
  let name := lease_name sha256_hex (ControllerOwner id) in
  cv_lease cv name = Ok (Some lease) →
  l_spec lease = Some spec → ls_lease_duration_seconds spec = Some d →
  lm_resource_version lease = Some v → obs !! name = Some (v, t) →
  (t + d * NANOS <= cv_now cv)%Z →
  ∀ route obs', run (view_handler cv) (locate sha256_hex port id) obs ≠ (Ok (Some route), obs').
Proof.
  intros name Hl Hs Hd Hv Ht Hle route obs' Hrun. unfold locate in Hrun.
  cbn [run view_handler] in Hrun. fold name in Hrun. rewrite Hl, run_bind in Hrun.
  destruct (run (view_handler cv) (active_owner name lease (role_key (ControllerOwner id))) obs)
    as [[[[holder fence]|]|e] obs1] eqn:Ha; [|done..].
  apply active_owner_spec in Ha as (_&Hh&Hact&_). unfold is_active in Hact.
  rewrite Hs, Hd, Hv, Ht in Hact. simpl in Hact.
  destruct (is_empty _); [done|]. destruct (Z.leb_spec d 0); [done|].
  rewrite String.eqb_refl in Hact. unfold NANOS in *. injection Hact as Hlt _.
  apply Z.ltb_lt in Hlt. lia.
Qed.

Lemma expired_lease_not_routed_witness :
  let lease := mkLease None None (Some "7") None None
                 (Some (mkSpec (Some "pod/uid") (Some 15%Z) None None None None)) in
  let cv := {| cv_lease := λ _, Ok (Some lease); cv_pod := λ _, Ok None; cv_now := 20 * NANOS |} in
  ∀ route obs', run (view_handler cv) (locate demo_hash 443 "c1/edge")
                  {[lease_name demo_hash (ControllerOwner "c1/edge") := ("7", 5%Z)]}
                ≠ (Ok (Some route), obs').
Proof.
  intros lease cv.
  refine (expired_lease_not_routed demo_hash 443 cv "c1/edge" _ lease
    (mkSpec (Some "pod/uid") (Some 15%Z) None None None None) 15 "7" 5 _ _ _ _ _ _);
    try reflexivity; vm_compute; discriminate.
Defined.
