(* ===== verification/Directory.v ===== *)
(** * Directory: the durable controller directory

    [crates/center-adapter-kubernetes/src/controller_directory.rs] and
    [crd.rs]: controllers are projected into [EdgionController] objects whose
    status is written through the status subresource with optimistic retries.
    The transitions of the status are pure functions; the operations are
    programs over the API port.  The theorems hold for any interleaving of
    replicas. *)

From Stdlib Require Import Ascii.
From S2P Require Import Prelude Text Core Effects Versioned.

Definition MAX_CONFLICT_RETRIES : nat := 8.

(** ** The object name *)

Definition lower_char (c : ascii) : ascii :=
  let n := byte_val c in
  if ((65 <=? n) && (n <=? 90))%N then ascii_of_N (n + 32) else c.
Definition dash : ascii := "-".

(** The loop over the characters; the bytes of a multi-byte character are
    mapped one by one to a dash and collapse like the character does.  [prefix]
    is built in reverse. *)
Fixpoint name_prefix (id : string) (prefix : list ascii) (previous_dash : bool) : list ascii :=
  match id with
  | EmptyString => prefix
  | String c id =>
      let mapped := if is_ascii_alphanumeric c then lower_char c else dash in
      if Ascii.eqb mapped dash then
        if previous_dash || bool_decide (prefix = []) then name_prefix id prefix previous_dash
        else
          let prefix := mapped :: prefix in
          if bool_decide (length prefix = 50) then prefix else name_prefix id prefix true
      else
        let prefix := mapped :: prefix in
        if bool_decide (length prefix = 50) then prefix else name_prefix id prefix false
  end.

Fixpoint pop_dashes (prefix : list ascii) : list ascii :=
  match prefix with
  | c :: rest => if Ascii.eqb c dash then pop_dashes rest else prefix
  | [] => []
  end.

Definition controller_resource_name (sha256_hex : string → string) (controller_id : string) :
    string :=
  let prefix := pop_dashes (name_prefix controller_id [] false) in
  let prefix := if bool_decide (prefix = []) then "controller"
                else String.string_of_list_ascii (reverse prefix) in
  prefix +:+ "-" +:+ String.substring 0 12 (sha256_hex controller_id).

(** ** The custom resource *)

Record EdgionControllerSpec := mkSpec {
  sp_controller_id : string;
  sp_cluster : string;
  sp_environments : list string;
  sp_tags : list string;
}.

Inductive EdgionControllerPhase := Online | Offline | Stale.

Record EdgionControllerStatus := mkStatus {
  st_phase : EdgionControllerPhase;
  st_session_id : option string;
  st_cluster : string;
  st_environments : list string;
  st_tags : list string;
  st_connected_replica : option string;
  st_ownership_token : option string;
  st_ownership_epoch : Z;
  st_sync_version : option Z;
  st_watch_server_id : option string;
  st_resource_count : option Z;
  st_resource_counts_by_kind : option (gmap string Z);
  st_stats_updated_unix_ms : option Z;
  st_watch_updated_unix_ms : option Z;
  st_last_seen_time : Z;
  st_observed_at_unix_ms : Z;
  st_evicted : bool;
  st_observed_generation : option Z;
}.

Record EdgionController := mkController {
  ec_name : string;
  ec_resource_version : option string;
  ec_generation : option Z;
  ec_spec : EdgionControllerSpec;
  ec_status : option EdgionControllerStatus;
}.

#[export] Instance EdgionControllerSpec_eq_dec : EqDecision EdgionControllerSpec.
Proof. solve_decision. Defined.
#[export] Instance EdgionControllerPhase_eq_dec : EqDecision EdgionControllerPhase.
Proof. solve_decision. Defined.

(** [EdgionController::new]. *)
Definition EdgionController_new (name : string) (spec : EdgionControllerSpec) : EdgionController :=
  mkController name None None spec None.

Inductive ResourceError := ResourceConflict | ResourceOther (message : string).

Definition adapter_error (error : ResourceError) : CoreError :=
  match error with
  | ResourceConflict => Conflict "Kubernetes resourceVersion conflict"
  | ResourceOther message => Adapter message
  end.

(** ** The transitions of the status *)

Abbreviation transition :=
  (option EdgionControllerStatus → option Z → option EdgionControllerStatus).

Definition upsert_transition (r : ControllerRegistration) (last_seen_time : Z) : transition :=
  λ current generation,
    let stale :=
      match reg_ownership_fence r with
      | Some fence =>
          match current with
          | Some status => (of_epoch fence <=? st_ownership_epoch status)%Z
          | None => false
          end
      | None =>
          match current with
          | Some status =>
              ((st_ownership_epoch status >? 0)
               || (reg_observed_at_unix_ms r <=? st_observed_at_unix_ms status))%Z
          | None => false
          end
      end in
    if stale then None
    else Some {|
      st_phase := Online;
      st_session_id := Some (reg_session_id r);
      st_cluster := reg_cluster r;
      st_environments := reg_environments r;
      st_tags := reg_tags r;
      st_connected_replica := reg_connected_replica r;
      st_ownership_token := of_token <$> reg_ownership_fence r;
      st_ownership_epoch := from_option of_epoch 0%Z (reg_ownership_fence r);
      st_sync_version := None;
      st_watch_server_id := None;
      st_resource_count := None;
      st_resource_counts_by_kind := None;
      st_stats_updated_unix_ms := None;
      st_watch_updated_unix_ms := None;
      st_last_seen_time := last_seen_time;
      st_observed_at_unix_ms := reg_observed_at_unix_ms r;
      st_evicted := false;
      st_observed_generation := generation |}.

Definition not_current (session : string) (ownership_fence : option OwnershipFence)
    (observed_at : Z) (status : EdgionControllerStatus) : bool :=
  if st_evicted status then true
  else
  match ownership_fence with
  | Some fence =>
      if (st_ownership_epoch status <? of_epoch fence)%Z then false
      else if (st_ownership_epoch status =? of_epoch fence)%Z then
        negb (bool_decide (st_session_id status = Some session))
        || negb (bool_decide (st_ownership_token status = Some (of_token fence)))
      else true
  | None =>
      (st_ownership_epoch status >? 0)%Z
      || negb (bool_decide (st_session_id status = Some session))
      || (st_observed_at_unix_ms status >? observed_at)%Z
  end.

Definition offline_transition (session : string) (ownership_fence : option OwnershipFence)
    (observed_at last_seen_time : Z) : transition :=
  λ current generation,
    if from_option (not_current session ownership_fence observed_at) false current then None
    else Some {|
      st_phase := Offline;
      st_session_id := Some session;
      st_cluster := from_option st_cluster "" current;
      st_environments := from_option st_environments [] current;
      st_tags := from_option st_tags [] current;
      st_connected_replica := None;
      st_ownership_token := of_token <$> ownership_fence;
      st_ownership_epoch := from_option of_epoch 0%Z ownership_fence;
      st_sync_version := current ≫= st_sync_version;
      st_watch_server_id := current ≫= st_watch_server_id;
      st_resource_count := current ≫= st_resource_count;
      st_resource_counts_by_kind := current ≫= st_resource_counts_by_kind;
      st_stats_updated_unix_ms := current ≫= st_stats_updated_unix_ms;
      st_watch_updated_unix_ms := current ≫= st_watch_updated_unix_ms;
      st_last_seen_time := last_seen_time;
      st_observed_at_unix_ms :=
        from_option (λ status, Z.max (st_observed_at_unix_ms status) observed_at)
          observed_at current;
      st_evicted := false;
      st_observed_generation := generation |}.

(** [if let Some(x) = new { field = Some(x) }]. *)
Definition replace_if_some {A} (new old : option A) : option A :=
  match new with Some _ => new | None => old end.

Definition runtime_transition (o : ControllerRuntimeObservation) (observed_time : Z) : transition :=
  λ current generation,
    current ← current;
    if st_evicted current || negb (bool_decide (st_phase current = Online))
       || negb (bool_decide (st_session_id current = Some (obs_session_id o)))
    then None
    else if match obs_ownership_fence o with
            | Some fence =>
                (st_ownership_epoch current =? of_epoch fence)%Z
                && bool_decide (st_ownership_token current = Some (of_token fence))
            | None => (st_ownership_epoch current =? 0)%Z
            end
    then
      let newer := (obs_observed_at_unix_ms o >? st_observed_at_unix_ms current)%Z in
      Some {|
        st_phase := st_phase current;
        st_session_id := st_session_id current;
        st_cluster := st_cluster current;
        st_environments := st_environments current;
        st_tags := st_tags current;
        st_connected_replica := st_connected_replica current;
        st_ownership_token := st_ownership_token current;
        st_ownership_epoch := st_ownership_epoch current;
        st_sync_version := replace_if_some (obs_sync_version o) (st_sync_version current);
        st_watch_server_id := replace_if_some (obs_watch_server_id o) (st_watch_server_id current);
        st_resource_count := replace_if_some (obs_resource_count o) (st_resource_count current);
        st_resource_counts_by_kind :=
          replace_if_some (obs_resource_counts_by_kind o) (st_resource_counts_by_kind current);
        st_stats_updated_unix_ms :=
          replace_if_some (obs_stats_updated_unix_ms o) (st_stats_updated_unix_ms current);
        st_watch_updated_unix_ms :=
          replace_if_some (obs_watch_updated_unix_ms o) (st_watch_updated_unix_ms current);
        st_last_seen_time := if newer then observed_time else st_last_seen_time current;
        st_observed_at_unix_ms :=
          if newer then obs_observed_at_unix_ms o else st_observed_at_unix_ms current;
        st_evicted := st_evicted current;
        st_observed_generation := generation |}
    else None.

(** The status [evict] writes over a status that is not evicted. *)
Definition evicted_status (status : EdgionControllerStatus) : EdgionControllerStatus := {|
  st_phase := Offline;
  st_session_id := None;
  st_cluster := st_cluster status;
  st_environments := st_environments status;
  st_tags := st_tags status;
  st_connected_replica := None;
  st_ownership_token := st_ownership_token status;
  st_ownership_epoch := st_ownership_epoch status;
  st_sync_version := st_sync_version status;
  st_watch_server_id := st_watch_server_id status;
  st_resource_count := st_resource_count status;
  st_resource_counts_by_kind := st_resource_counts_by_kind status;
  st_stats_updated_unix_ms := st_stats_updated_unix_ms status;
  st_watch_updated_unix_ms := st_watch_updated_unix_ms status;
  st_last_seen_time := st_last_seen_time status;
  st_observed_at_unix_ms := st_observed_at_unix_ms status;
  st_evicted := true;
  st_observed_generation := st_observed_generation status |}.

(** ** The operations *)

Inductive dir_call : Type → Type :=
| DGet (name : string) : dir_call (result (option EdgionController) ResourceError)
| DCreate (r : EdgionController) : dir_call (result EdgionController ResourceError)
| DReplace (name : string) (r : EdgionController) :
    dir_call (result EdgionController ResourceError)
| DReplaceStatus (name : string) (r : EdgionController) :
    dir_call (result EdgionController ResourceError)
| DList : dir_call (result (list EdgionController) ResourceError).

(** [sort_by] on the controller id, for records. *)
Definition record_le (a b : ControllerRecord) : Prop :=
  String.compare (rec_controller_id a) (rec_controller_id b) ≠ Gt.
#[export] Instance record_le_dec a b : Decision (record_le a b).
Proof. unfold record_le. apply _. Defined.

Section Directory.
(** SHA-256 in hexadecimal, [{:?}] on strings, and
    [chrono::DateTime::from_timestamp_millis] (with the timestamp standing for
    the date). *)
Context (sha256_hex debug : string → string) (from_timestamp_millis : Z → option Z).

Definition resource_name (id : string) : string := controller_resource_name sha256_hex id.

Definition time_from_millis (unix_ms : Z) : CoreResult Z :=
  ok_or (Adapter ("observed timestamp " +:+ i64_to_string unix_ms
                    +:+ " is outside RFC3339 range"))
    (from_timestamp_millis unix_ms).

Definition get_or_create (name : string) (spec : EdgionControllerSpec) :
    prog dir_call (result EdgionController ResourceError) :=
  got <~ DGet name ;;
  match got with
  | Err e => Ret (Err e)
  | Ok (Some existing) =>
      if negb (String.eqb (sp_controller_id (ec_spec existing)) (sp_controller_id spec))
      then Ret (Ok existing)
      else if negb (bool_decide (ec_spec existing = spec)) then
        r <~ DReplace name (mkController (ec_name existing) (ec_resource_version existing)
                              (ec_generation existing) spec (ec_status existing)) ;;
        Ret r
      else Ret (Ok existing)
  | Ok None =>
      r <~ DCreate (EdgionController_new name spec) ;; Ret r
  end.

Definition verify_identity (resource : EdgionController) (id : string) : CoreResult () :=
  if String.eqb (sp_controller_id (ec_spec resource)) id then Ok ()
  else Err (Conflict ("Kubernetes name collision: " +:+ ec_name resource +:+ " maps both "
                        +:+ debug (sp_controller_id (ec_spec resource)) +:+ " and "
                        +:+ debug id)).

Definition set_status (r : EdgionController) (status : EdgionControllerStatus) :
    EdgionController :=
  mkController (ec_name r) (ec_resource_version r) (ec_generation r) (ec_spec r) (Some status).

Fixpoint replace_status_loop (attempts : nat) (id : string) (initial_spec : EdgionControllerSpec)
    (t : transition) : prog dir_call (CoreResult bool) :=
  match attempts with
  | O => Ret (Err (Conflict ("controller projection for " +:+ id
                               +:+ " remained conflicted after 8 attempts")))
  | S attempts =>
      let name := resource_name id in
      pbind (get_or_create name initial_spec) (λ got,
        match got with
        | Err ResourceConflict => replace_status_loop attempts id initial_spec t
        | Err error => Ret (Err (adapter_error error))
        | Ok resource =>
            match verify_identity resource id with
            | Err e => Ret (Err e)
            | Ok _ =>
                match t (ec_status resource) (ec_generation resource) with
                | None => Ret (Ok false)
                | Some status =>
                    r <~ DReplaceStatus name (set_status resource status) ;;
                    match r with
                    | Ok _ => Ret (Ok true)
                    | Err ResourceConflict => replace_status_loop attempts id initial_spec t
                    | Err error => Ret (Err (adapter_error error))
                    end
                end
            end
        end)
  end.

Definition replace_status_with_retry (id : string) (initial_spec : EdgionControllerSpec)
    (t : transition) : prog dir_call (CoreResult bool) :=
  replace_status_loop MAX_CONFLICT_RETRIES id initial_spec t.

Definition upsert_registration (r : ControllerRegistration) : prog dir_call (CoreResult ()) :=
  match time_from_millis (reg_observed_at_unix_ms r) with
  | Err e => Ret (Err e)
  | Ok last_seen_time =>
      let spec := mkSpec (reg_controller_id r) (reg_cluster r) (reg_environments r)
                    (reg_tags r) in
      pbind (replace_status_with_retry (reg_controller_id r) spec
               (upsert_transition r last_seen_time)) (λ projected,
        match projected with
        | Err e => Ret (Err e)
        | Ok true => Ret (Ok ())
        | Ok false => Ret (Err (Conflict ("stale controller registration revision for "
                                            +:+ reg_controller_id r)))
        end)
  end.

Definition bare_spec (id : string) : EdgionControllerSpec := mkSpec id "" [] [].

Definition mark_offline (id session : string) (ownership_fence : option OwnershipFence)
    (observed_at : Z) : prog dir_call (CoreResult OfflineOutcome) :=
  match time_from_millis observed_at with
  | Err e => Ret (Err e)
  | Ok last_seen_time =>
      pbind (replace_status_with_retry id (bare_spec id)
               (offline_transition session ownership_fence observed_at last_seen_time))
        (λ changed,
           match changed with
           | Err e => Ret (Err e)
           | Ok true => Ret (Ok Marked)
           | Ok false => Ret (Ok NotCurrent)
           end)
  end.

Definition project_runtime (o : ControllerRuntimeObservation) : prog dir_call (CoreResult bool) :=
  match time_from_millis (obs_observed_at_unix_ms o) with
  | Err e => Ret (Err e)
  | Ok observed_time =>
      replace_status_with_retry (obs_controller_id o) (bare_spec (obs_controller_id o))
        (runtime_transition o observed_time)
  end.

Definition fence_of (status : EdgionControllerStatus) : option OwnershipFence :=
  if (st_ownership_epoch status >? 0)%Z
  then (λ tok, {| of_token := tok; of_epoch := st_ownership_epoch status |})
         <$> st_ownership_token status
  else None.

(** [session_id.map(SessionId::new).transpose()]. *)
Definition session_transpose (s : option string) : CoreResult (option string) :=
  match s with
  | None => Ok None
  | Some s => let? id := SessionId_new s in Ok (Some id)
  end.

Definition absent : EvictionResult := {| ev_outcome := AlreadyAbsent; ev_target := None |}.

Fixpoint evict_loop (attempts : nat) (id : string) : prog dir_call (CoreResult EvictionResult) :=
  match attempts with
  | O => Ret (Err (Conflict ("controller eviction for " +:+ id
                               +:+ " remained conflicted after 8 attempts")))
  | S attempts =>
      let name := resource_name id in
      got <~ DGet name ;;
      match got with
      | Err e => Ret (Err (adapter_error e))
      | Ok None => Ret (Ok absent)
      | Ok (Some resource) =>
          match verify_identity resource id with
          | Err e => Ret (Err e)
          | Ok _ =>
              match ec_status resource with
              | None => Ret (Ok absent)
              | Some status =>
                  if st_evicted status then Ret (Ok absent)
                  else
                  match session_transpose (st_session_id status) with
                  | Err e => Ret (Err e)
                  | Ok session =>
                      let target := {| tgt_session_id := session;
                                       tgt_connected_replica := st_connected_replica status;
                                       tgt_ownership_fence := fence_of status |} in
                      r <~ DReplaceStatus name (set_status resource (evicted_status status)) ;;
                      match r with
                      | Ok _ => Ret (Ok {| ev_outcome := Evicted; ev_target := Some target |})
                      | Err ResourceConflict => evict_loop attempts id
                      | Err error => Ret (Err (adapter_error error))
                      end
                  end
              end
          end
      end
  end.

Definition evict (id : string) : prog dir_call (CoreResult EvictionResult) :=
  evict_loop MAX_CONFLICT_RETRIES id.

Definition phase_of (p : EdgionControllerPhase) : ControllerPhase :=
  match p with Online => PhaseOnline | Offline => PhaseOffline | Stale => PhaseStale end.

(** The record of one resource; [Ok None] when it is skipped. *)
Definition record_of (resource : EdgionController) : CoreResult (option ControllerRecord) :=
  match ec_status resource with
  | None => Ok None
  | Some status =>
      if st_evicted status then Ok None
      else
      let? id := ControllerId_new (sp_controller_id (ec_spec resource)) in
      let online := bool_decide (st_phase status = Online) in
      let? session := (if online then session_transpose (st_session_id status) else Ok None) in
      Ok (Some {|
        rec_controller_id := id;
        rec_current_session_id := session;
        rec_cluster := st_cluster status;
        rec_environments := st_environments status;
        rec_tags := st_tags status;
        rec_connected_replica := if online then st_connected_replica status else None;
        rec_ownership_fence := if online then fence_of status else None;
        rec_sync_version := st_sync_version status;
        rec_watch_server_id := st_watch_server_id status;
        rec_resource_count := st_resource_count status;
        rec_resource_counts_by_kind := st_resource_counts_by_kind status;
        rec_stats_updated_unix_ms := st_stats_updated_unix_ms status;
        rec_watch_updated_unix_ms := st_watch_updated_unix_ms status;
        rec_phase := phase_of (st_phase status);
        rec_last_seen_unix_ms := st_observed_at_unix_ms status |})
  end.

Fixpoint records_of (resources : list EdgionController) : CoreResult (list ControllerRecord) :=
  match resources with
  | [] => Ok []
  | r :: resources =>
      let? o := record_of r in
      let? rest := records_of resources in
      Ok (match o with Some record => record :: rest | None => rest end)
  end.

Definition list_records : prog dir_call (CoreResult (list ControllerRecord)) :=
  got <~ DList ;;
  Ret (let? resources := map_err adapter_error got in
       let? records := records_of resources in
       Ok (merge_sort record_le records)).
End Directory.

(** ** The API server

    The documented behaviour of a custom resource with a status subresource:
    reads are of the stored object; every stored object carries a version never
    used before for that name; a create needs a free name and ignores the
    status; a replace needs the stored version and keeps the status; a status
    replace needs the stored version and keeps the spec.  A write answers with
    the stored object, or with an error even if it was committed. *)

Class DirectoryApi (S : Type) := {
  dapi : ∀ X, dir_call X → S → X → S → Prop;
  dstored : S → string → option EdgionController;
  dversions : S → string → string → option EdgionController;
}.

Section ApiLaws.
Context {S : Type} `{!DirectoryApi S}.

Definition dunchanged (s s' : S) : Prop :=
  (∀ n, dstored s' n = dstored s n) ∧ (∀ n v, dversions s' n v = dversions s n v).

Definition dcommitted (n : string) (o : EdgionController) (s s' : S) : Prop :=
  ∃ v, dversions s n v = None ∧ ec_resource_version o = Some v
    ∧ dstored s' n = Some o ∧ dversions s' n v = Some o
    ∧ (∀ m, m ≠ n → dstored s' m = dstored s m)
    ∧ (∀ m w, m ≠ n ∨ w ≠ v → dversions s' m w = dversions s m w).

(** The outcome of a write of [r] at [n]: nothing and an error, or a commit of
    an object described by [P]. *)
Definition write_outcome (n : string) (x : result EdgionController ResourceError)
    (P : EdgionController → Prop) (s s' : S) : Prop :=
  (dunchanged s s' ∧ is_ok x = false)
  ∨ ∃ o, P o ∧ dcommitted n o s s' ∧ ∀ y, x = Ok y → y = o.
End ApiLaws.

Class DirectoryApiLaws (S : Type) `{!DirectoryApi S} := {
  dstored_version s n o :
    dstored s n = Some o → ∃ v, ec_resource_version o = Some v ∧ dversions s n v = Some o;
  dapi_get n s x s' :
    dapi _ (DGet n) s x s' → dunchanged s s' ∧ ∀ o, x = Ok o → o = dstored s n;
  dapi_list s x s' : dapi _ DList s x s' → dunchanged s s';
  dapi_create r s x s' :
    dapi _ (DCreate r) s x s' →
    write_outcome (ec_name r) x (λ o, dstored s (ec_name r) = None
      ∧ ec_spec o = ec_spec r ∧ ec_status o = None) s s';
  dapi_replace n r s x s' :
    dapi _ (DReplace n r) s x s' →
    write_outcome n x (λ o, ∃ cur, dstored s n = Some cur
      ∧ ec_resource_version r = ec_resource_version cur
      ∧ ec_spec o = ec_spec r ∧ ec_status o = ec_status cur) s s';
  dapi_replace_status n r s x s' :
    dapi _ (DReplaceStatus n r) s x s' →
    write_outcome n x (λ o, ∃ cur, dstored s n = Some cur
      ∧ ec_resource_version r = ec_resource_version cur
      ∧ ec_spec o = ec_spec cur ∧ ec_status o = ec_status r) s s';
}.

(** ** The order on statuses *)

(** A status may only be followed by one with an epoch not below its own, and an
    eviction is only undone by a later epoch (or without fencing, epoch 0). *)
Definition status_le (a b : option EdgionControllerStatus) : Prop :=
  match a, b with
  | None, _ => True
  | Some _, None => False
  | Some x, Some y =>
      (st_ownership_epoch x <= st_ownership_epoch y)%Z
      ∧ (st_evicted x = true → st_evicted y = false →
         (st_ownership_epoch x < st_ownership_epoch y ∨ st_ownership_epoch y = 0)%Z)
  end.

#[export] Instance status_le_refl : Reflexive status_le.
Proof. intros [x|]; simpl; [|done]. split; [lia|congruence]. Qed.
#[export] Instance status_le_trans : Transitive status_le.
Proof.
  intros [x|] [y|] [z|]; simpl; try done. intros [H1 H2] [H3 H4]. split; [lia|].
  intros Hx Hz. destruct (st_evicted y); [destruct (H4 eq_refl Hz)|destruct (H2 Hx eq_refl)]; lia.
Qed.

Definition advancing (t : transition) : Prop :=
  ∀ cur gen st, t cur gen = Some st → status_le cur (Some st).

Lemma upsert_advancing r time : advancing (upsert_transition r time).
Proof.
  intros [cur|] gen st; [|done]. unfold upsert_transition.
  destruct (reg_ownership_fence r) as [f|]; simpl.
  - destruct (Z.leb_spec (of_epoch f) (st_ownership_epoch cur)); [done|]. intros [= <-]. simpl. lia.
  - destruct (st_ownership_epoch cur >? 0)%Z eqn:E; [done|]. simpl.
    destruct (_ <=? _)%Z; [done|]. intros [= <-]. simpl. rewrite Z.gtb_ltb in E.
    apply Z.ltb_ge in E. lia.
Qed.

Lemma offline_advancing session fence at_ms time :
  advancing (offline_transition session fence at_ms time).
Proof.
  intros [cur|] gen st; [|done]. unfold offline_transition, not_current. simpl.
  destruct (st_evicted cur) eqn:Ev; [done|]. destruct fence as [f|].
  - destruct (Z.ltb_spec (st_ownership_epoch cur) (of_epoch f)).
    { intros [= <-]. simpl. split; [lia|congruence]. }
    destruct (Z.eqb_spec (st_ownership_epoch cur) (of_epoch f)); [|done].
    destruct (_ || _); [done|]. intros [= <-]. simpl. split; [lia|congruence].
  - destruct (st_ownership_epoch cur >? 0)%Z eqn:E; [done|]. simpl.
    destruct (_ || _); [done|]. intros [= <-]. simpl. rewrite Z.gtb_ltb in E.
    apply Z.ltb_ge in E. split; [lia|congruence].
Qed.

Lemma runtime_advancing o time : advancing (runtime_transition o time).
Proof.
  intros [cur|] gen st; [|done]. unfold runtime_transition. simpl.
  destruct (_ || _); [done|]. destruct (match obs_ownership_fence o with Some _ => _ | None => _ end);
    [|done]. intros [= <-]. simpl. split; [lia|congruence].
Qed.

Lemma evicted_advancing st : status_le (Some st) (Some (evicted_status st)).
Proof. simpl. split; [lia|done]. Qed.

#[export] Hint Resolve upsert_advancing offline_advancing runtime_advancing evicted_advancing : center.

(** ** Replicas interleaved *)

Section DirectoryFacts.
Context {S : Type} `{!DirectoryApi S, !DirectoryApiLaws S}.
Context (sha256_hex debug : string → string) (from_timestamp_millis : Z → option Z).
Implicit Types (s : S).

(** What one write, and therefore any run, may do to the directory: versions
    are never rewritten, objects never disappear nor change identity, and
    statuses only advance. *)
Definition dir_rel s s' : Prop :=
  (∀ n v o, dversions s n v = Some o → dversions s' n v = Some o)
  ∧ (∀ n o, dstored s n = Some o →
       ∃ o', dstored s' n = Some o'
             ∧ sp_controller_id (ec_spec o') = sp_controller_id (ec_spec o)
             ∧ status_le (ec_status o) (ec_status o')).

#[export] Instance dir_rel_refl : Reflexive dir_rel.
Proof. intros s. split; [done|]. intros n o Ho. exists o. by repeat split. Qed.
#[export] Instance dir_rel_trans : Transitive dir_rel.
Proof.
  intros s1 s2 s3 [H1 H2] [H3 H4]. split; [auto|]. intros n o Ho.
  destruct (H2 n o Ho) as (o'&Ho'&Hid&Hle). destruct (H4 n o' Ho') as (o''&?&Hid'&Hle').
  exists o''. split_and!; [done|congruence|by etrans].
Qed.

(** The statuses of existing objects, untouched. *)
Definition statuses_kept s s' : Prop :=
  ∀ n o, dstored s n = Some o →
    ∃ o', dstored s' n = Some o' ∧ ec_status o' = ec_status o.

Lemma dunchanged_rel s s' : dunchanged s s' → dir_rel s s'.
Proof.
  intros [Hs Hv]. split; [intros n v o; by rewrite Hv|]. intros n o Ho. exists o.
  rewrite Hs. by repeat split.
Qed.

Lemma dunchanged_kept s s' : dunchanged s s' → statuses_kept s s'.
Proof. intros [Hs _] n o Ho. exists o. by rewrite Hs. Qed.

Lemma dcommitted_rel n o s s' :
  dcommitted n o s s' →
  (∀ cur, dstored s n = Some cur →
     sp_controller_id (ec_spec o) = sp_controller_id (ec_spec cur)
     ∧ status_le (ec_status cur) (ec_status o)) →
  dir_rel s s'.
Proof.
  intros (v&Hfresh&_&Hst&_&Hos&Hov) Hcur. split.
  - intros m w x Hx. rewrite Hov; [done|]. destruct (decide (m = n)) as [->|]; [|by left].
    right. intros ->. congruence.
  - intros m x Hx. destruct (decide (m = n)) as [->|]; [|exists x; rewrite Hos; by repeat split].
    exists o. destruct (Hcur x Hx). by repeat split.
Qed.

Lemma dcommitted_kept n o s s' :
  dcommitted n o s s' →
  (∀ cur, dstored s n = Some cur → ec_status o = ec_status cur) → statuses_kept s s'.
Proof.
  intros (v&_&_&Hst&_&Hos&_) Hcur m x Hx.
  destruct (decide (m = n)) as [->|]; [exists o; auto|exists x; by rewrite Hos].
Qed.

Lemma dcas_current s s1 n r cur :
  dir_rel s s1 → dstored s n = Some r → dstored s1 n = Some cur →
  ec_resource_version r = ec_resource_version cur → cur = r.
Proof.
  intros [Hmono _] Hs Hs1 Hrv.
  destruct (dstored_version _ _ _ Hs) as (v&Hv&Hver).
  destruct (dstored_version _ _ _ Hs1) as (v'&Hv'&Hver').
  assert (v' = v) as -> by congruence. apply Hmono in Hver. congruence.
Qed.

(** Both guarantees of a program at once. *)
Definition dir_rel_kept s s' : Prop := dir_rel s s' ∧ statuses_kept s s'.

Lemma get_or_create_safe name spec s :
  safe dapi dir_rel_kept dir_rel
    (λ res s', ∀ r, res = Ok r → dstored s' name = Some r) (get_or_create name spec) s.
Proof.
  apply (safe_vis dapi). intros s1 x s2 HR HH. apply dapi_get in HH as [Hu Hx].
  split; [split; [by apply dunchanged_rel|by apply dunchanged_kept]|].
  assert (Hst : ∀ o, x = Ok o → o = dstored s2 name).
  { intros o Ho. destruct Hu as [-> _]. auto. }
  destruct x as [[existing|]|e]; [| |by intros r].
  - specialize (Hst _ eq_refl).
    destruct (String.eqb_spec (sp_controller_id (ec_spec existing)) (sp_controller_id spec))
      as [Hid|]; cbn [negb]; [|by intros r [= <-]].
    case_bool_decide; cbn [negb]; [by intros r [= <-]|].
    apply (safe_vis dapi). intros s3 y s4 HR' HH'.
    apply dapi_replace in HH' as [[Hu' Hy]|(o&(cur&Hcur&Hrv&Hsp&Hstat)&Hcom&Hy)].
    + split; [split; [by apply dunchanged_rel|by apply dunchanged_kept]|]. intros r ->. done.
    + assert (cur = existing) as -> by (eapply dcas_current; eauto). split.
      * split; [eapply dcommitted_rel|eapply dcommitted_kept]; eauto; intros c Hc;
          simplify_eq; [|done]. rewrite Hstat, Hsp. simpl. by split.
      * intros r Hr. rewrite (Hy r Hr). by destruct Hcom as (?&?&?&?&?).
  - apply (safe_vis dapi). intros s3 y s4 HR' HH'. apply dapi_create in HH'.
    simpl in HH'. destruct HH' as [[Hu' Hy]|(o&(Hnone&Hsp&Hstat)&Hcom&Hy)].
    + split; [split; [by apply dunchanged_rel|by apply dunchanged_kept]|]. intros r ->. done.
    + split.
      * split; [eapply dcommitted_rel|eapply dcommitted_kept]; eauto; intros; congruence.
      * intros r Hr. rewrite (Hy r Hr). by destruct Hcom as (?&?&?&?&?).
Qed.

(** The write of the status: it advances the object that was read. *)
Lemma replace_status_step n s s1 x s2 r st :
  dir_rel s s1 → dstored s n = Some r → status_le (ec_status r) (Some st) →
  dapi _ (DReplaceStatus n (set_status r st)) s1 x s2 →
  dir_rel s1 s2 ∧ ∀ y, x = Ok y → ∃ o, dstored s2 n = Some o ∧ ec_status o = Some st.
Proof.
  intros HR Hr Hle HH.
  apply dapi_replace_status in HH as [[Hu Hy]|(o&(cur&Hcur&Hrv&Hsp&Hstat)&Hcom&Hy)].
  { split; [by apply dunchanged_rel|]. intros y ->. done. }
  assert (cur = r) as -> by (eapply dcas_current; eauto). simpl in Hstat. split.
  - eapply dcommitted_rel; [done|]. intros c Hc. simplify_eq. rewrite Hsp, Hstat. done.
  - intros y _. exists o. split; [|done]. by destruct Hcom as (?&?&?&?&?).
Qed.

(** [safe] with a weaker guarantee. *)
Lemma safe_weaken {A} (G G' : S → S → Prop) (Q : A → S → Prop) (p : prog dir_call A) s :
  (∀ s s', G s s' → G' s s') → safe dapi G dir_rel Q p s → safe dapi G' dir_rel Q p s.
Proof.
  intros HG. revert s. induction p as [a|X e k IH]; intros s Hp; [exact Hp|].
  intros s1 x s2 HR HH. destruct (Hp s1 x s2 HR HH) as [H1 H2]. split; auto.
Qed.

(** A fact that every step preserves is available at the end. *)
Lemma safe_with_pre {A} (P : S → Prop) (Q : A → S → Prop) (p : prog dir_call A) s :
  (∀ s s', dir_rel s s' → P s → P s') → P s →
  safe dapi dir_rel_kept dir_rel Q p s →
  safe dapi dir_rel_kept dir_rel (λ a s', P s' ∧ Q a s') p s.
Proof.
  intros HP. revert s. induction p as [a|X e k IH]; intros s Hs Hp; [by split|].
  intros s1 x s2 HR HH. destruct (Hp s1 x s2 HR HH) as [HG Hk]. split; [done|].
  apply IH; [|done]. apply (HP s1); [apply HG|by apply (HP s)].
Qed.

Notation dir_safe := (safe dapi dir_rel dir_rel).

(** [Ok true] means the object carries a status the transition produced. *)
Lemma replace_status_loop_safe attempts id spec t s :
  advancing t →
  dir_safe (λ r s', r = Ok true → ∃ o cur gen st,
      dstored s' (resource_name sha256_hex id) = Some o ∧ ec_status o = Some st
      ∧ t cur gen = Some st)
    (replace_status_loop sha256_hex debug attempts id spec t) s.
Proof.
  intros Ht. revert s. induction attempts as [|attempts IH]; intros s; [by intros [=]|].
  cbn [replace_status_loop]. apply (safe_bind dapi).
  eapply (safe_mono dapi); [|eapply safe_weaken; [|apply get_or_create_safe]; by intros ? ? []].
  intros res s1 Hres. simpl in Hres.
  destruct res as [r|[|m]]; [|apply IH|by intros [=]].
  specialize (Hres r eq_refl). destruct (verify_identity debug r id); [|by intros [=]].
  destruct (t (ec_status r) (ec_generation r)) as [st|] eqn:Et; [|by intros [=]].
  apply (safe_vis dapi). intros s2 x s3 HR HH.
  edestruct replace_status_step as [Hrel Hok]; [exact HR|exact Hres|by eapply Ht|exact HH|].
  split; [done|]. destruct x as [y|[|m]]; [|apply IH|by intros [=]].
  intros _. destruct (Hok y eq_refl) as (o&Ho&Hst). eauto 10.
Qed.

Lemma evict_loop_safe attempts id s :
  dir_safe (λ _ _, True) (evict_loop sha256_hex debug attempts id) s.
Proof.
  revert s. induction attempts as [|attempts IH]; intros s; [done|]. cbn [evict_loop].
  apply (safe_vis dapi). intros s1 x s2 HR HH. apply dapi_get in HH as [Hu Hx].
  split; [by apply dunchanged_rel|].
  destruct x as [[r|]|e]; [|done..].
  assert (Hst : dstored s2 (resource_name sha256_hex id) = Some r).
  { destruct Hu as [-> _]. symmetry. auto. }
  destruct (verify_identity debug r id); [|done].
  destruct (ec_status r) as [st|] eqn:Es; [|done].
  destruct (st_evicted st); [done|]. destruct (session_transpose _); [|done].
  apply (safe_vis dapi). intros s3 y s4 HR' HH'.
  edestruct replace_status_step as [Hrel _];
    [exact HR'|exact Hst|rewrite Es; apply evicted_advancing|exact HH'|].
  split; [done|]. by destruct y as [?|[|m]].
Qed.

(** A call by some replica; its answer does not matter here. *)
Inductive dir_op :=
| OpUpsert (r : ControllerRegistration)
| OpOffline (id session : string) (fence : option OwnershipFence) (observed_at : Z)
| OpRuntime (o : ControllerRuntimeObservation)
| OpEvict (id : string)
| OpList.

Definition op_prog (op : dir_op) : prog dir_call () :=
  match op with
  | OpUpsert r => pbind (upsert_registration sha256_hex debug from_timestamp_millis r)
                    (λ _, Ret ())
  | OpOffline id session fence at_ms =>
      pbind (mark_offline sha256_hex debug from_timestamp_millis id session fence at_ms)
        (λ _, Ret ())
  | OpRuntime o => pbind (project_runtime sha256_hex debug from_timestamp_millis o) (λ _, Ret ())
  | OpEvict id => pbind (evict sha256_hex debug id) (λ _, Ret ())
  | OpList => pbind list_records (λ _, Ret ())
  end.

(** The loop under a continuation that makes no call. *)
Lemma loop_then_safe {A} id spec t (f : CoreResult bool → prog dir_call A) s :
  advancing t → (∀ r s', dir_safe (λ _ _, True) (f r) s') →
  dir_safe (λ _ _, True)
    (pbind (replace_status_with_retry sha256_hex debug id spec t) f) s.
Proof.
  intros Ht Hf. apply (safe_bind dapi).
  eapply (safe_mono dapi); [|by apply replace_status_loop_safe]. auto.
Qed.

Lemma op_safe_upsert r s :
  dir_safe (λ _ _, True) (upsert_registration sha256_hex debug from_timestamp_millis r) s.
Proof.
  unfold upsert_registration. destruct (time_from_millis _ _); [|done].
  apply loop_then_safe; [auto with center|]. by intros [[]|] s'.
Qed.

Lemma dir_op_safe op s : dir_safe (λ _ _, True) (op_prog op) s.
Proof.
  destruct op as [r|id session fence at_ms|o|id|]; cbn [op_prog]; apply (safe_bind dapi).
  - apply op_safe_upsert.
  - unfold mark_offline. destruct (time_from_millis _ _); [|done].
    apply loop_then_safe; [auto with center|]. by intros [[]|] s'.
  - unfold project_runtime. destruct (time_from_millis _ _); [|done].
    eapply (safe_mono dapi); [|apply replace_status_loop_safe; auto with center]. done.
  - apply evict_loop_safe.
  - intros s1 x s2 _ HH. apply dapi_list in HH. split; [by apply dunchanged_rel|done].
Qed.

(** C6.  The directory only moves forward.  Take any number of replicas
    registering, marking offline, projecting runtime state, evicting and
    listing, interleaved at every await: an object, with or without a status, is
    never removed and never changes controller; once it has a status it keeps
    one, whose ownership epoch never decreases, and an evicted controller only
    comes back under a strictly later epoch (or, where no fencing is used, with
    epoch 0). *)
Theorem directory_monotone ops s0 ps s n o :
  rtc (pool_step dapi) (op_prog <$> ops, s0) (ps, s) →
  dstored s0 n = Some o →
  ∃ o', dstored s n = Some o'
    ∧ sp_controller_id (ec_spec o') = sp_controller_id (ec_spec o)
    ∧ ∀ st, ec_status o = Some st → ∃ st', ec_status o' = Some st'
        ∧ (st_ownership_epoch st <= st_ownership_epoch st')%Z
        ∧ (st_evicted st = true → st_evicted st' = false →
           (st_ownership_epoch st < st_ownership_epoch st' ∨ st_ownership_epoch st' = 0)%Z).
Proof.
  intros Hrun Ho.
  destruct (pool_steps_safe dapi dir_rel (λ _ _, True) (op_prog <$> ops, s0) (ps, s))
    as [[_ Hrel] _]; [|done|].
  { apply Forall_fmap, Forall_true. intros op. exists s0. split; [done|by apply dir_op_safe]. }
  destruct (Hrel n o Ho) as (o'&Ho'&Hid&Hle). exists o'. split_and!; [done|done|].
  intros st Hst. rewrite Hst in Hle. destruct (ec_status o') as [st'|] eqn:Est'; [|done].
  destruct Hle. eauto.
Qed.

(** ** Superseded writers *)

(** The stored status of [id] has at least epoch [e]. *)
Definition at_least s (id : string) (e : Z) : Prop :=
  ∃ o st, dstored s (resource_name sha256_hex id) = Some o ∧ ec_status o = Some st
          ∧ (e <= st_ownership_epoch st)%Z.

Lemma at_least_rel s s' id e : dir_rel s s' → at_least s id e → at_least s' id e.
Proof.
  intros [_ Hrel] (o&st&Ho&Hst&He). destruct (Hrel _ _ Ho) as (o'&Ho'&_&Hle).
  rewrite Hst in Hle. destruct (ec_status o') as [st'|] eqn:E; [|done]. simpl in Hle.
  exists o', st'. split_and!; [done..|lia].
Qed.

Lemma blocked_loop attempts id spec t e s :
  (∀ st gen, (e <= st_ownership_epoch st)%Z → t (Some st) gen = None) → at_least s id e →
  safe dapi dir_rel_kept dir_rel (λ r _, r ≠ Ok true)
    (replace_status_loop sha256_hex debug attempts id spec t) s.
Proof.
  intros Ht. revert s. induction attempts as [|attempts IH]; intros s Hs; [done|].
  cbn [replace_status_loop]. apply (safe_bind dapi).
  (* the object read carries the epoch *)
  assert (Hgoc : safe dapi dir_rel_kept dir_rel (λ res s', at_least s' id e
    ∧ ∀ r, res = Ok r → dstored s' (resource_name sha256_hex id) = Some r)
    (get_or_create (resource_name sha256_hex id) spec) s).
  { apply (safe_with_pre (λ s, at_least s id e)); [|exact Hs|apply get_or_create_safe].
    intros s1 s2. apply at_least_rel. }
  eapply (safe_mono dapi); [|exact Hgoc]. intros res s1 [(o&st&Ho&Hst&He) Hres].
  destruct res as [r|[|m]]; [|apply IH; by exists o, st|done].
  specialize (Hres r eq_refl). destruct (verify_identity debug r id); [|done].
  assert (r = o) as -> by congruence. rewrite Hst, (Ht _ _ He). done.
Qed.

Lemma blocked_upsert s r f :
  reg_ownership_fence r = Some f → at_least s (reg_controller_id r) (of_epoch f) →
  safe dapi dir_rel_kept dir_rel (λ res _, res ≠ Ok ())
    (upsert_registration sha256_hex debug from_timestamp_millis r) s.
Proof.
  intros Hf Hs. unfold upsert_registration. destruct (time_from_millis _ _); [|done].
  apply (safe_bind dapi). eapply (safe_mono dapi); [|eapply blocked_loop; [|exact Hs]].
  - by intros [[]|] s' Hr.
  - intros st gen He. unfold upsert_transition. rewrite Hf.
    by rewrite (proj2 (Z.leb_le _ _) He).
Qed.

(** A superseded replica cannot write.  If the stored ownership epoch of
    a controller has reached the epoch of a registration (or passed that of
    an offline mark or a runtime observation), then, whatever runs
    concurrently, the registration is never accepted, the offline mark never
    reported as [Marked], the observation never reported as projected, and
    none of their writes touches the status of any controller. *)
Theorem superseded_replica_cannot_write s f :
  (∀ r, reg_ownership_fence r = Some f → at_least s (reg_controller_id r) (of_epoch f) →
     safe dapi dir_rel_kept dir_rel (λ res _, res ≠ Ok ())
       (upsert_registration sha256_hex debug from_timestamp_millis r) s)
  ∧ (∀ id session at_ms, at_least s id (of_epoch f + 1) →
     safe dapi dir_rel_kept dir_rel (λ res _, res ≠ Ok Marked)
       (mark_offline sha256_hex debug from_timestamp_millis id session (Some f) at_ms) s)
  ∧ (∀ o, obs_ownership_fence o = Some f →
     at_least s (obs_controller_id o) (of_epoch f + 1) →
     safe dapi dir_rel_kept dir_rel (λ res _, res ≠ Ok true)
       (project_runtime sha256_hex debug from_timestamp_millis o) s).
Proof.
  split_and!.
  - intros r Hf Hs. by apply (blocked_upsert s r f).
  - intros id session at_ms Hs. unfold mark_offline. destruct (time_from_millis _ _); [|done].
    apply (safe_bind dapi). eapply (safe_mono dapi); [|eapply blocked_loop; [|exact Hs]].
    + by intros [[]|] s' Hr.
    + intros st gen He. unfold offline_transition, not_current. simpl.
      destruct (st_evicted st); [done|].
      rewrite (proj2 (Z.ltb_ge _ _)), (proj2 (Z.eqb_neq _ _)) by lia. done.
  - intros o Hf Hs. unfold project_runtime. destruct (time_from_millis _ _); [|done].
    eapply blocked_loop; [|exact Hs]. intros st gen He. unfold runtime_transition. simpl.
    destruct (_ || _); [done|]. rewrite Hf, (proj2 (Z.eqb_neq _ _)) by lia. done.
Qed.

(** Registering after an offline mark, by any replica. *)
Definition offline_then_register (id session : string) (f : OwnershipFence) (at_ms : Z)
    (r : ControllerRegistration) :
    prog dir_call (CoreResult OfflineOutcome * CoreResult ()) :=
  pbind (mark_offline sha256_hex debug from_timestamp_millis id session (Some f) at_ms) (λ res,
    pbind (upsert_registration sha256_hex debug from_timestamp_millis r) (λ res',
      Ret (res, res'))).

Lemma mark_offline_fences id session f at_ms s :
  dir_safe (λ res s', res = Ok Marked → at_least s' id (of_epoch f))
    (mark_offline sha256_hex debug from_timestamp_millis id session (Some f) at_ms) s.
Proof.
  unfold mark_offline. destruct (time_from_millis _ _); [|by intros [=]].
  apply (safe_bind dapi). eapply (safe_mono dapi);
    [|apply replace_status_loop_safe; auto with center].
  intros [[]|] s' Hr; try by intros [=]. intros _.
  destruct (Hr eq_refl) as (o&cur&gen&st&Ho&Hst&Ht). exists o, st. split_and!; [done..|].
  unfold offline_transition in Ht. destruct (from_option _ _ _); [done|].
  injection Ht as <-. simpl. lia.
Qed.

(** A late registration is fenced.  Once an offline mark with a fence
    was answered [Marked], no registration of that controller with the same
    or an earlier epoch is accepted afterwards, whatever runs concurrently:
    a registration write that commits after its caller gave up cannot bring
    the controller back online. *)
Theorem late_registration_fenced id session f at_ms r f' s :
  reg_controller_id r = id → reg_ownership_fence r = Some f' →
  (of_epoch f' <= of_epoch f)%Z →
  dir_safe (λ res _, res.1 = Ok Marked → res.2 ≠ Ok ())
    (offline_then_register id session f at_ms r) s.
Proof.
  intros Hid Hf' Hle. apply (safe_bind dapi). eapply (safe_mono dapi);
    [|apply mark_offline_fences].
  intros res s1 Hres. apply (safe_bind dapi). destruct (decide (res = Ok Marked)) as [->|Hne].
  - specialize (Hres eq_refl). rewrite <- Hid in Hres.
    assert (Hat : at_least s1 (reg_controller_id r) (of_epoch f')).
    { destruct Hres as (o&st&?&?&?). exists o, st. split_and!; [done..|lia]. }
    apply (safe_weaken dir_rel_kept dir_rel); [by intros ? ? []|].
    eapply (safe_mono dapi); [|by apply (blocked_upsert s1 r f')]. by intros res' s2 Hr _.
  - eapply (safe_mono dapi); [|apply (op_safe_upsert r s1)]. intros res' s2 _ Hm. done.
Qed.
End DirectoryFacts.

(** ** An in-memory API server *)

Record mem_dir := mkMemDir { md_history : gmap string (list EdgionController) }.

Definition with_version (v : string) (o : EdgionController) : EdgionController :=
  mkController (ec_name o) (Some v) (ec_generation o) (ec_spec o) (ec_status o).

Definition md_stored (s : mem_dir) (n : string) : option EdgionController :=
  vs_stored with_version (md_history s) n.

(** A write: the new state and the object as stored. *)
Definition md_commit (n : string) (o : EdgionController) (s : mem_dir) :
    result EdgionController ResourceError * mem_dir :=
  (Ok (with_version (vs_next (md_history s) n) o), mkMemDir (vs_commit n o (md_history s))).

(** A replace: [merge cur] is written if the version is the stored one. *)
Definition md_replace (n : string) (r : EdgionController)
    (merge : EdgionController → EdgionController) (s : mem_dir) :
    result EdgionController ResourceError * mem_dir :=
  match md_stored s n with
  | None => (Err (ResourceOther "not found"), s)
  | Some cur =>
      if bool_decide (ec_resource_version r = ec_resource_version cur)
      then md_commit n (merge cur) s else (Err ResourceConflict, s)
  end.

Definition md_handle (X : Type) (e : dir_call X) : mem_dir → X * mem_dir :=
  match e in dir_call X return mem_dir → X * mem_dir with
  | DGet n => λ s, (Ok (md_stored s n), s)
  | DCreate r => λ s,
      match md_stored s (ec_name r) with
      | Some _ => (Err ResourceConflict, s)
      | None => md_commit (ec_name r) (mkController (ec_name r) None (Some 1%Z) (ec_spec r) None) s
      end
  | DReplace n r => md_replace n r (λ cur,
      mkController n None (ec_generation cur) (ec_spec r) (ec_status cur))
  | DReplaceStatus n r => md_replace n r (λ cur,
      mkController n None (ec_generation cur) (ec_spec cur) (ec_status r))
  | DList => λ s, (Ok (omap (md_stored s) ((map_to_list (md_history s)).*1)), s)
  end.

#[export] Instance mem_dir_api : DirectoryApi mem_dir := {|
  dapi X e s x s' := md_handle X e s = (x, s');
  dstored := md_stored;
  dversions s := vs_versions with_version (md_history s);
|}.

Lemma md_commit_committed n o s x s' :
  md_commit n o s = (x, s') →
  dcommitted n (with_version (vs_next (md_history s) n) o) s s'
  ∧ x = Ok (with_version (vs_next (md_history s) n) o).
Proof.
  intros [= <- <-]. split; [|done].
  destruct (vs_commit_spec with_version (md_history s) n o) as (H1&H2&H3&H4&H5).
  by exists (vs_next (md_history s) n).
Qed.

#[export] Instance mem_dir_laws : DirectoryApiLaws mem_dir.
Proof.
  split.
  - intros s n o Hst. destruct (vs_stored_version with_version _ _ _ Hst) as (o0&v&->&Hv).
    by exists v.
  - intros n s x s' [= <- <-]. split; [done|]. by intros o [= <-].
  - by intros s x s' [= _ <-].
  - intros r s x s' Ha. simpl in Ha. destruct (md_stored s (ec_name r)) eqn:E.
    { simplify_eq. by left. }
    apply md_commit_committed in Ha as [Hc ->]. right.
    refine (ex_intro _ _ (conj _ (conj Hc _))); [done|by intros y [= <-]].
  - intros n r s x s' Ha. simpl in Ha. unfold md_replace in Ha.
    destruct (md_stored s n) as [cur|] eqn:E; [|simplify_eq; by left].
    case_bool_decide; [|simplify_eq; by left].
    apply md_commit_committed in Ha as [Hc ->]. right.
    refine (ex_intro _ _ (conj _ (conj Hc _))); [by exists cur|by intros y [= <-]].
  - intros n r s x s' Ha. simpl in Ha. unfold md_replace in Ha.
    destruct (md_stored s n) as [cur|] eqn:E; [|simplify_eq; by left].
    case_bool_decide; [|simplify_eq; by left].
    apply md_commit_committed in Ha as [Hc ->]. right.
    refine (ex_intro _ _ (conj _ (conj Hc _))); [by exists cur|by intros y [= <-]].
Qed.

(** ** What a projection does to the spec *)

Section Erased.
Context (sha256_hex debug : string → string) (from_timestamp_millis : Z → option Z).

Lemma md_stored_commit n o s x s' :
  md_commit n o s = (x, s') → x = Ok (with_version (vs_next (md_history s) n) o)
  ∧ md_stored s' n = Some (with_version (vs_next (md_history s) n) o).
Proof.
  intros Hc. apply md_commit_committed in Hc as [(v&_&_&Hst&_) ->]. done.
Qed.

(** Alone on the server, [get_or_create] leaves the requested spec behind. *)
Lemma get_or_create_alone n spec s r :
  md_stored s n = Some r → sp_controller_id (ec_spec r) = sp_controller_id spec →
  ∃ r' s', run md_handle (get_or_create n spec) s = (Ok r', s')
    ∧ md_stored s' n = Some r' ∧ ec_spec r' = spec ∧ ec_status r' = ec_status r.
Proof.
  intros Hst Hid. simpl. rewrite Hst. cbn [run]. rewrite Hid, String.eqb_refl. cbn [negb].
  case_bool_decide as Hs; cbn [negb run].
  - by exists r, s.
  - simpl. unfold md_replace. rewrite Hst. rewrite bool_decide_true by done.
    destruct (md_commit n _ s) as [x s'] eqn:E. apply md_stored_commit in E as [-> Hst'].
    by eexists _, _.
Qed.

Lemma projection_alone id spec t s r :
  md_stored s (resource_name sha256_hex id) = Some r →
  sp_controller_id (ec_spec r) = id → sp_controller_id spec = id →
  ∃ r', md_stored (run md_handle (replace_status_with_retry sha256_hex debug id spec t) s).2
          (resource_name sha256_hex id) = Some r' ∧ ec_spec r' = spec.
Proof.
  intros Hst Hid Hspec. unfold replace_status_with_retry, MAX_CONFLICT_RETRIES.
  cbn [replace_status_loop]. rewrite run_bind.
  destruct (get_or_create_alone (resource_name sha256_hex id) spec s r Hst)
    as (r'&s'&->&Hst'&Hspec'&_); [congruence|].
  unfold verify_identity. rewrite Hspec', Hspec, String.eqb_refl.
  destruct (t (ec_status r') (ec_generation r')) as [st|]; [|by exists r'].
  cbn [run md_handle]. unfold md_replace. rewrite Hst', bool_decide_true by done.
  destruct (md_commit _ _ s') as [x s2] eqn:E. apply md_stored_commit in E as [-> Hst2].
  cbn [run snd]. eexists. split; [exact Hst2|done].
Qed.

(** A runtime projection and an offline mark erase the registration
    metadata of the spec: both ask for the object with a spec that has only
    the controller id, and an existing object whose spec differs is replaced
    first; so after either call the cluster, environments and tags that the
    registration wrote are gone, even when the call itself is refused as
    stale. *)
Theorem projection_erases_spec id s r t :
  md_stored s (resource_name sha256_hex id) = Some r → sp_controller_id (ec_spec r) = id →
  (∀ o, obs_controller_id o = id → from_timestamp_millis (obs_observed_at_unix_ms o) = Some t →
     ∃ r', md_stored
             (run md_handle (project_runtime sha256_hex debug from_timestamp_millis o) s).2
             (resource_name sha256_hex id) = Some r' ∧ ec_spec r' = mkSpec id "" [] [])
  ∧ (∀ session f at_ms, from_timestamp_millis at_ms = Some t →
     ∃ r', md_stored
             (run md_handle
                (mark_offline sha256_hex debug from_timestamp_millis id session f at_ms) s).2
             (resource_name sha256_hex id) = Some r' ∧ ec_spec r' = mkSpec id "" [] []).
Proof.
  intros Hst Hid. split.
  - intros o <- Ht. unfold project_runtime, time_from_millis. rewrite Ht. cbn [ok_or].
    by eapply (projection_alone (obs_controller_id o)).
  - intros session f at_ms Ht. unfold mark_offline, time_from_millis. rewrite Ht. cbn [ok_or].
    rewrite run_bind.
    destruct (projection_alone id (bare_spec id)
      (offline_transition session f at_ms t) s r Hst Hid eq_refl) as (r'&Hst'&Hsp).
    exists r'. destruct (run md_handle (replace_status_with_retry _ _ _ _ _) s) as [res s'].
    simpl in Hst'. destruct res as [[]|]; done.
Qed.
End Erased.

(** ** Object names are DNS labels *)

Abbreviation chars := String.list_ascii_of_string.

Definition lower_alnum (c : ascii) : bool :=
  let n := byte_val c in ((48 <=? n) && (n <=? 57) || (97 <=? n) && (n <=? 122))%N.

(** RFC 1123: 1 to 63 characters, lower-case alphanumeric or dash, not starting
    or ending with a dash. *)
Definition dns_label (s : string) : Prop :=
  1 ≤ length (chars s) ≤ 63
  ∧ Forall (λ c, lower_alnum c = true ∨ c = dash) (chars s)
  ∧ head (chars s) ≠ Some dash ∧ last (chars s) ≠ Some dash.

Lemma chars_app a b : chars (a +:+ b) = chars a ++ chars b.
Proof. induction a as [|c a IH]; [done|]. simpl. by f_equal. Qed.

Lemma chars_substring n s : chars (String.substring 0 n s) = take n (chars s).
Proof. revert s. induction n as [|n IH]; intros [|c s]; try done. simpl. by f_equal. Qed.

Lemma lower_char_alnum c : is_ascii_alphanumeric c = true → lower_alnum (lower_char c) = true.
Proof. by destruct c as [[] [] [] [] [] [] [] []]. Qed.

(** The prefix under construction, newest character first. *)
Definition prefix_ok (l : list ascii) : Prop :=
  Forall (λ c, lower_alnum c = true ∨ c = dash) l ∧ last l ≠ Some dash.

Lemma prefix_ok_cons c l :
  (lower_alnum c = true ∨ c = dash) → (c = dash → l ≠ []) → prefix_ok l → prefix_ok (c :: l).
Proof.
  intros Hc Hd [Hf Hl]. split; [by constructor|]. destruct l as [|c' l]; [|exact Hl].
  simpl. intros [= ->]. by destruct Hd.
Qed.

Lemma name_prefix_ok id l d :
  length l < 50 → prefix_ok l → prefix_ok (name_prefix id l d) ∧ length (name_prefix id l d) ≤ 50.
Proof.
  revert l d. induction id as [|c id IH]; intros l d Hlen Hok; cbn [name_prefix]; [split; [done|lia]|].
  set (m := if is_ascii_alphanumeric c then lower_char c else dash).
  assert (Hm : lower_alnum m = true ∨ m = dash).
  { subst m. destruct (is_ascii_alphanumeric c) eqn:E; [left; by apply lower_char_alnum|by right]. }
  assert (Hpush : ∀ d', (m = dash → l ≠ []) →
    prefix_ok (if bool_decide (length (m :: l) = 50) then m :: l else name_prefix id (m :: l) d')
    ∧ length (if bool_decide (length (m :: l) = 50) then m :: l else name_prefix id (m :: l) d') ≤ 50).
  { intros d' Hd'. assert (prefix_ok (m :: l)) by by apply prefix_ok_cons.
    case_bool_decide as H50; [split; [done|lia]|]. apply IH; [simpl in *; lia|done]. }
  destruct (Ascii.eqb_spec m dash) as [Hd|Hd]; [|by apply Hpush].
  destruct d; cbn [orb]; [by apply IH|].
  destruct (bool_decide (l = [])) eqn:Hnil; [by apply IH|].
  apply bool_decide_eq_false in Hnil. by apply Hpush.
Qed.

Lemma pop_dashes_ok l :
  prefix_ok l → prefix_ok (pop_dashes l) ∧ length (pop_dashes l) ≤ length l
                ∧ head (pop_dashes l) ≠ Some dash.
Proof.
  induction l as [|c l IH]; intros Hok; [done|]. cbn [pop_dashes].
  destruct (Ascii.eqb_spec c dash) as [->|Hne].
  - destruct Hok as [Hf Hl]. apply Forall_cons in Hf as [_ Hf].
    destruct IH as (H1&H2&H3); [|simpl; split_and!; [done|lia|done]].
    split; [done|]. destruct l; [done|exact Hl].
  - split_and!; [done|done|simpl; congruence].
Qed.

(** Every object name the directory computes is a DNS label, whatever the
    controller id: at most 63 characters, lower-case alphanumeric or dash, and
    no dash at either end; the digest is 64 lower-case hexadecimal characters. *)
Theorem controller_resource_name_dns sha256_hex id :
  (∀ s, length (chars (sha256_hex s)) = 64 ∧ Forall (λ c, lower_alnum c = true) (chars (sha256_hex s))) →
  dns_label (controller_resource_name sha256_hex id).
Proof.
  intros Hsha. destruct (Hsha id) as [Hlen Hhex]. unfold controller_resource_name.
  set (p := pop_dashes (name_prefix id [] false)).
  assert (Hp : prefix_ok p ∧ length p ≤ 50 ∧ head p ≠ Some dash).
  { destruct (name_prefix_ok id [] false) as [H1 H2]; [simpl; lia|done|].
    destruct (pop_dashes_ok _ H1) as (H3&H4&H5). fold p in H3, H4, H5.
    split; [done|]. split; [lia|done]. }
  destruct Hp as ([Hf Hl]&Hp&_).
  set (q := if bool_decide (p = []) then "controller" else String.string_of_list_ascii (reverse p)).
  assert (Hq : 1 ≤ length (chars q) ≤ 50 ∧ Forall (λ c, lower_alnum c = true ∨ c = dash) (chars q)
               ∧ head (chars q) ≠ Some dash).
  { subst q. case_bool_decide as Hnil.
    - split_and!; [simpl; lia..| |done]. repeat (constructor; [by left|]). constructor.
    - rewrite String.list_ascii_of_string_of_list_ascii, length_reverse. split_and!.
      + destruct p; [done|simpl; lia].
      + done.
      + by apply Forall_reverse.
      + destruct p as [|c p _] using rev_ind; [done|]. rewrite reverse_snoc. simpl.
        rewrite last_snoc in Hl. done. }
  destruct Hq as ((Hq1&Hq2)&Hqf&Hqh). unfold dns_label.
  rewrite !chars_app, chars_substring. simpl. rewrite !length_app. simpl.
  rewrite length_take, Hlen. split_and!; [lia|lia|..].
  - apply Forall_app. split; [done|]. constructor; [by right|]. apply Forall_take.
    eapply Forall_impl; [exact Hhex|]. by left.
  - destruct (chars q); [simpl in Hq1; lia|done].
  - rewrite last_app_cons. intros Hlast.
    assert (Hin : dash ∈ take 12 (chars (sha256_hex id))).
    { destruct (take 12 (chars (sha256_hex id))) as [|c r] eqn:E.
      - apply (f_equal length) in E. rewrite length_take, Hlen in E. done.
      - rewrite last_cons_cons in Hlast. by apply last_Some_elem_of in Hlast. }
    apply (Forall_take _ 12) in Hhex. rewrite Forall_forall in Hhex. by specialize (Hhex _ Hin).
Qed.

(** ** Witnesses *)

Definition demo_hex (s : string) : string :=
  "0123456789abcdef0123456789abcdef0123456789abcdef0123456789abcdef".
Definition demo_debug (s : string) : string := s.
Definition demo_time (ms : Z) : option Z := Some ms.

Lemma controller_resource_name_dns_witness :
  dns_label (controller_resource_name demo_hex "Cluster A/Édge").
Proof.
  apply controller_resource_name_dns. intros s. split; [reflexivity|].
  repeat (constructor; [reflexivity|]). constructor.
Defined.

Definition demo_registration (ep : Z) (session : string) : ControllerRegistration := {|
  reg_controller_id := "c1/edge"; reg_session_id := session; reg_cluster := "c1";
  reg_environments := ["prod"]; reg_tags := []; reg_connected_replica := Some "pod-a";
  reg_ownership_fence := Some {| of_token := "t"; of_epoch := ep |};
  reg_observed_at_unix_ms := 10 |}.

Definition demo_name : string := resource_name demo_hex "c1/edge".
Definition md_new : mem_dir := mkMemDir ∅.
(** Registered with epoch 3. *)
Definition md_registered : mem_dir :=
  (run md_handle (upsert_registration demo_hex demo_debug demo_time (demo_registration 3 "s1"))
     md_new).2.

Lemma md_registered_stored :
  ∃ o st, md_stored md_registered demo_name = Some o ∧ ec_status o = Some st
          ∧ st_ownership_epoch st = 3%Z ∧ sp_controller_id (ec_spec o) = "c1/edge"
          ∧ sp_cluster (ec_spec o) = "c1".
Proof. eexists _, _. split_and!; vm_compute; reflexivity. Qed.

(** An eviction, and a later registration under epoch 4 by another call. *)
Definition demo_evict : prog dir_call () := op_prog demo_hex demo_debug demo_time (OpEvict "c1/edge").
Definition demo_upsert : prog dir_call () :=
  op_prog demo_hex demo_debug demo_time (OpUpsert (demo_registration 4 "s2")).
Definition md_evicted : mem_dir := (run md_handle demo_evict md_registered).2.
Definition md_back : mem_dir := (run md_handle demo_upsert md_evicted).2.

Lemma demo_evict_run :
  rtc (pool_step dapi) ([demo_evict; demo_upsert], md_registered) ([Ret (); demo_upsert], md_evicted).
Proof.
  apply (run_pool (dapi (S := mem_dir)) md_handle [demo_evict; demo_upsert] 0 demo_evict
           md_registered tt md_evicted); [done|done|vm_compute; reflexivity].
Qed.
Lemma demo_upsert_run ps :
  rtc (pool_step dapi) (ps ++ [demo_upsert], md_evicted) (ps ++ [Ret ()], md_back).
Proof.
  replace (ps ++ [Ret ()]) with (<[length ps := Ret ()]> (ps ++ [demo_upsert]))
    by (by rewrite insert_app_r_alt, Nat.sub_diag by done).
  apply (run_pool (dapi (S := mem_dir)) md_handle (ps ++ [demo_upsert]) (length ps) demo_upsert
           md_evicted tt md_back); [done| |vm_compute; reflexivity].
  by rewrite lookup_app_r, Nat.sub_diag by done.
Qed.

Lemma directory_monotone_witness :
  (∃ o' st', dstored md_back demo_name = Some o' ∧ ec_status o' = Some st'
             ∧ sp_controller_id (ec_spec o') = "c1/edge" ∧ (3 <= st_ownership_epoch st')%Z)
  ∧ ∃ o st o' st', dstored md_evicted demo_name = Some o ∧ ec_status o = Some st
      ∧ st_evicted st = true ∧ dstored md_back demo_name = Some o' ∧ ec_status o' = Some st'
      ∧ st_evicted st' = false ∧ (st_ownership_epoch st < st_ownership_epoch st')%Z.
Proof.
  split.
  - destruct md_registered_stored as (o&st&Ho&Hst&Hep&Hc&_).
    change (dstored md_registered demo_name = Some o) in Ho.
    destruct (directory_monotone (S := mem_dir) demo_hex demo_debug demo_time
      [OpEvict "c1/edge"; OpUpsert (demo_registration 4 "s2")] md_registered
      [Ret (); Ret ()] md_back demo_name o) as (o'&Ho'&Hid&Hle); [|exact Ho|].
    { etrans; [exact demo_evict_run|exact (demo_upsert_run [Ret ()])]. }
    destruct (Hle st Hst) as (st'&Hst'&Hep'&_). exists o', st'.
    split_and!; [exact Ho'|exact Hst'|rewrite Hid; exact Hc|rewrite <- Hep; exact Hep'].
  - assert (He : ∃ o st, dstored md_evicted demo_name = Some o ∧ ec_status o = Some st
                  ∧ st_evicted st = true) by (eexists _, _; split_and!; vm_compute; reflexivity).
    assert (Hb : ∃ o st, dstored md_back demo_name = Some o ∧ ec_status o = Some st
                  ∧ st_evicted st = false ∧ st_ownership_epoch st = 4%Z)
      by (eexists _, _; split_and!; vm_compute; reflexivity).
    destruct He as (o&st&Ho&Hst&Hev). destruct Hb as (o'&st'&Ho'&Hst'&Hev'&H4).
    destruct (directory_monotone (S := mem_dir) demo_hex demo_debug demo_time
      [OpUpsert (demo_registration 4 "s2")] md_evicted [Ret ()] md_back demo_name o
      (demo_upsert_run []) Ho) as (o2&Ho2&_&Hle).
    rewrite Ho' in Ho2. injection Ho2 as <-. destruct (Hle st Hst) as (st2&Hst2&_&Hlt).
    rewrite Hst' in Hst2. injection Hst2 as <-. exists o, st, o', st'.
    split_and!; [exact Ho|exact Hst|exact Hev|exact Ho'|exact Hst'|exact Hev'|].
    destruct (Hlt Hev Hev') as [?|H0]; [assumption|]. rewrite H4 in H0. discriminate H0.
Defined.

Lemma superseded_replica_cannot_write_witness :
  safe dapi dir_rel_kept dir_rel (λ res _, res ≠ Ok ())
    (upsert_registration demo_hex demo_debug demo_time (demo_registration 2 "s0")) md_registered.
Proof.
  destruct (superseded_replica_cannot_write demo_hex demo_debug demo_time md_registered
    {| of_token := "t"; of_epoch := 2 |}) as (H&_&_).
  apply (H (demo_registration 2 "s0")); [reflexivity|].
  destruct md_registered_stored as (o&st&Ho&Hst&Hep&_). exists o, st.
  split_and!; [exact Ho|exact Hst|rewrite Hep; simpl; lia].
Defined.

Lemma late_registration_fenced_witness :
  safe dapi dir_rel dir_rel (λ res _, res.1 = Ok Marked → res.2 ≠ Ok ())
    (offline_then_register demo_hex demo_debug demo_time "c1/edge" "s1"
       {| of_token := "t"; of_epoch := 3 |} 11 (demo_registration 3 "s1")) md_registered.
Proof.
  apply (late_registration_fenced demo_hex demo_debug demo_time "c1/edge" "s1"
    {| of_token := "t"; of_epoch := 3 |} 11 (demo_registration 3 "s1")
    {| of_token := "t"; of_epoch := 3 |}); [reflexivity|reflexivity|simpl; lia].
Defined.

Lemma projection_erases_spec_witness :
  ∃ r', md_stored
          (run md_handle (mark_offline demo_hex demo_debug demo_time "c1/edge" "s0" None 12)
             md_registered).2 demo_name = Some r' ∧ sp_cluster (ec_spec r') = "".
Proof.
  destruct md_registered_stored as (o&st&Ho&_&_&Hid&_).
  destruct (projection_erases_spec demo_hex demo_debug demo_time "c1/edge" md_registered o 12
    Ho Hid) as [_ H].
  destruct (H "s0" None 12%Z eq_refl) as (r'&Hr'&Hsp). exists r'.
  split; [exact Hr'|by rewrite Hsp].
Defined.
