(* ===== verification/KubeApi.v ===== *)
(** * KubeApi: a namespaced custom resource of the Kubernetes API

    The cloud stores of [crates/center-adapter-kubernetes] keep one custom
    resource per account or snapshot and rely on the API server's optimistic
    concurrency.  This file states what they rely on, for any spec and status,
    with the reasoning about interleaved writers that the stores share, and
    instantiates it in memory. *)

From Stdlib Require Import ZArith.
From S2P Require Import Prelude Effects Versioned.

Record kobject (Sp St : Type) := mkObject {
  ko_name : string;
  ko_resource_version : option string;
  ko_generation : option Z;                  (* metadata.generation *)
  ko_spec : Sp;
  ko_status : option St;
}.
Arguments mkObject {Sp St}.
Arguments ko_name {Sp St}.
Arguments ko_resource_version {Sp St}.
Arguments ko_generation {Sp St}.
Arguments ko_spec {Sp St}.
Arguments ko_status {Sp St}.

Section kube.
Context {Sp St E : Type}.
Abbreviation obj := (kobject Sp St).

Definition with_spec (o : obj) (spec : Sp) : obj :=
  mkObject (ko_name o) (ko_resource_version o) (ko_generation o) spec (ko_status o).
Definition with_status (o : obj) (status : option St) : obj :=
  mkObject (ko_name o) (ko_resource_version o) (ko_generation o) (ko_spec o) status.

Inductive kube_call : Type → Type :=
| KGet (name : string) : kube_call (result (option obj) E)
| KList : kube_call (result (list obj) E)
| KCreate (value : obj) : kube_call (result obj E)
| KReplace (name : string) (value : obj) : kube_call (result obj E)
| KReplaceStatus (name : string) (value : obj) : kube_call (result obj E).

Class KubeApi (S : Type) := {
  kapi : ∀ X, kube_call X → S → X → S → Prop;
  kstored : S → string → option obj;
  kversions : S → string → string → option obj;
}.

Section laws.
Context {S : Type} `{!KubeApi S}.

Definition kunchanged (s s' : S) : Prop :=
  (∀ n, kstored s' n = kstored s n) ∧ (∀ n v, kversions s' n v = kversions s n v).

Definition kcommitted (n : string) (o : obj) (s s' : S) : Prop :=
  ko_name o = n ∧ ∃ v, kversions s n v = None ∧ ko_resource_version o = Some v
    ∧ kstored s' n = Some o ∧ kversions s' n v = Some o
    ∧ (∀ m, m ≠ n → kstored s' m = kstored s m)
    ∧ (∀ m w, m ≠ n ∨ w ≠ v → kversions s' m w = kversions s m w).

(** A write is refused with an error and changes nothing, or commits an object
    described by [P]; it may answer with an error even if it committed. *)
Definition kwrite (n : string) (x : result obj E) (P : obj → Prop) (s s' : S) : Prop :=
  (kunchanged s s' ∧ is_ok x = false)
  ∨ ∃ o, P o ∧ kcommitted n o s s' ∧ ∀ y, x = Ok y → y = o.
End laws.

(** Reads are of the stored objects; every stored object carries its name and a
    version never used before for that name; a create needs a free name, starts
    at generation 1 and ignores the status; a replace needs the stored version,
    keeps the status and increments the generation exactly if the spec changes; a
    status replace needs the stored version and keeps the spec and generation. *)
Class KubeLaws (S : Type) `{!KubeApi S} `{!EqDecision Sp} := {
  kstored_version s n o :
    kstored s n = Some o →
    ko_name o = n ∧ ∃ v, ko_resource_version o = Some v ∧ kversions s n v = Some o;
  kapi_get n s x s' :
    kapi _ (KGet n) s x s' → kunchanged s s' ∧ ∀ o, x = Ok o → o = kstored s n;
  kapi_list s x s' :
    kapi _ KList s x s' → kunchanged s s' ∧
      ∀ l, x = Ok l → NoDup (map ko_name l) ∧ ∀ o, o ∈ l ↔ kstored s (ko_name o) = Some o;
  kapi_create r s x s' :
    kapi _ (KCreate r) s x s' →
    kwrite (ko_name r) x (λ o, kstored s (ko_name r) = None
      ∧ ko_spec o = ko_spec r ∧ ko_status o = None ∧ ko_generation o = Some 1%Z) s s';
  kapi_replace n r s x s' :
    kapi _ (KReplace n r) s x s' →
    kwrite n x (λ o, ∃ cur, kstored s n = Some cur
      ∧ ko_resource_version r = ko_resource_version cur
      ∧ ko_spec o = ko_spec r ∧ ko_status o = ko_status cur
      ∧ ko_generation o =
          (if decide (ko_spec r = ko_spec cur) then ko_generation cur
           else Z.succ <$> ko_generation cur)) s s';
  kapi_replace_status n r s x s' :
    kapi _ (KReplaceStatus n r) s x s' →
    kwrite n x (λ o, ∃ cur, kstored s n = Some cur
      ∧ ko_resource_version r = ko_resource_version cur
      ∧ ko_spec o = ko_spec cur ∧ ko_status o = ko_status r
      ∧ ko_generation o = ko_generation cur) s s';
}.

(** ** Interleaved writers

    [obj_step n before o]: a writer may store [o] under [n] when [before] is
    stored there. *)

Section steps.
Context {S : Type} `{!EqDecision Sp, !KubeApi S, !KubeLaws S}.
Context (obj_step : string → option obj → obj → Prop).
Implicit Types (s : S).

Definition kstep s s' : Prop :=
  kunchanged s s' ∨ ∃ n o, kcommitted n o s s' ∧ obj_step n (kstored s n) o.
Definition krel : S → S → Prop := rtc kstep.

Lemma kunchanged_rel s s' : kunchanged s s' → krel s s'.
Proof. intros Hu. apply rtc_once. by left. Qed.
Lemma kcommitted_rel n o s s' : kcommitted n o s s' → obj_step n (kstored s n) o → krel s s'.
Proof. intros Hc Ho. apply rtc_once. right. by exists n, o. Qed.

Lemma kcommitted_stored n o s s' : kcommitted n o s s' → kstored s' n = Some o.
Proof. by intros (_&v&_&_&?&_). Qed.

Lemma kstep_versions s s' n v o : kstep s s' → kversions s n v = Some o → kversions s' n v = Some o.
Proof.
  intros [[_ Hv]|(m&o'&(_&w&Hfresh&_&_&_&_&Hov)&_)] Ho; [by rewrite Hv|].
  rewrite Hov; [done|]. destruct (decide (n = m)) as [->|]; [|by left]. right. intros ->. congruence.
Qed.

Lemma krel_versions s s' n v o : krel s s' → kversions s n v = Some o → kversions s' n v = Some o.
Proof. induction 1; eauto using kstep_versions. Qed.

(** A replace that is not refused replaces the object that was read. *)
Lemma kcas_current s s1 n r cur :
  krel s s1 → kstored s n = Some r → kstored s1 n = Some cur →
  ko_resource_version r = ko_resource_version cur → cur = r.
Proof.
  intros Hrel Hs Hs1 Hrv.
  destruct (kstored_version _ _ _ Hs) as (_&v&Hv&Hver).
  destruct (kstored_version _ _ _ Hs1) as (_&v'&Hv'&Hver').
  assert (v' = v) as -> by congruence. eapply krel_versions in Hver; [|done]. congruence.
Qed.

(** An object never disappears, and follows the steps. *)
Lemma krel_stored (le : obj → obj → Prop) `{!Reflexive le, !Transitive le} :
  (∀ n cur o, obj_step n (Some cur) o → le cur o) →
  ∀ s s', krel s s' → ∀ n o, kstored s n = Some o → ∃ o', kstored s' n = Some o' ∧ le o o'.
Proof.
  intros Hle s s'. induction 1 as [s|s s1 s2 Hst _ IH]; intros n o Ho; [by exists o|].
  assert (∃ o1, kstored s1 n = Some o1 ∧ le o o1) as (o1&Ho1&Hle1).
  { destruct Hst as [[Hs _]|(m&x&(_&v&_&_&Hx&_&Hos&_)&Hstep)]; [exists o; by rewrite Hs|].
    destruct (decide (n = m)) as [->|Hne]; [|exists o; by rewrite Hos].
    exists x. split; [done|]. rewrite Ho in Hstep. by eapply Hle. }
  destruct (IH n o1 Ho1) as (o2&?&?). exists o2. split; [done|by etrans].
Qed.

(** *** Histories numbered by a generation *)

Context (gen : obj → Z).

(** The versions of a name are numbered 1, 2, ... up to the stored one. *)
Record numbered s : Prop := {
  nb_current n v o : kversions s n v = Some o →
    ∃ cur, kstored s n = Some cur ∧ (1 <= gen o <= gen cur)%Z;
  nb_unique n v v' o o' : kversions s n v = Some o → kversions s n v' = Some o' →
    gen o = gen o' → v = v';
  nb_complete n cur g : kstored s n = Some cur → (1 <= g <= gen cur)%Z →
    ∃ v o, kversions s n v = Some o ∧ gen o = g;
}.

Lemma kstep_numbered s s' :
  (∀ n o, obj_step n None o → gen o = 1%Z) →
  (∀ n cur o, obj_step n (Some cur) o → gen o = (gen cur + 1)%Z) →
  kstep s s' → numbered s → numbered s'.
Proof.
  intros Hnone Hsome Hst [Hc Hu Hco].
  destruct Hst as [[Hs Hv]|(m&x&(_&w&Hfresh&_&Hx&Hxv&Hos&Hov)&Hstep)].
  { split.
    - intros n v o. rewrite Hv. intros (cur&?&?)%Hc. exists cur. by rewrite Hs.
    - intros n v v' o o'. rewrite !Hv. apply Hu.
    - intros n cur g. rewrite Hs. intros Hcur Hg. destruct (Hco n cur g Hcur Hg) as (v&o&?&?).
      exists v, o. by rewrite Hv. }
  assert (∀ n v o, kversions s' n v = Some o → (n = m ∧ v = w ∧ o = x) ∨ kversions s n v = Some o) as Hcases.
  { intros n v o Ho. destruct (decide (n = m ∧ v = w)) as [[-> ->]|Hne]; [left; by split_and!; [| |congruence]|].
    right. rewrite Hov in Ho; [done|]. destruct (decide (n = m)); [right; naive_solver|by left]. }
  assert (∀ v o, kversions s m v = Some o → (1 <= gen o < gen x)%Z) as Hold.
  { intros v o Ho. destruct (Hc m v o Ho) as (cur&Hcur&Hg). rewrite Hcur in Hstep.
    apply Hsome in Hstep. lia. }
  assert ((1 <= gen x)%Z) as Hx1.
  { destruct (kstored s m) as [cur|] eqn:Em; [|apply Hnone in Hstep; lia].
    destruct (kstored_version _ _ _ Em) as (_&v&_&Hv). destruct (Hold _ _ Hv). lia. }
  split.
  - intros n v o Ho. destruct (Hcases n v o Ho) as [(->&->&->)|Ho']; [exists x; split; [done|lia]|].
    destruct (decide (n = m)) as [->|Hne]; [exists x; split; [done|]; specialize (Hold v o Ho'); lia|].
    destruct (Hc n v o Ho') as (cur&?&?). exists cur. by rewrite Hos.
  - intros n v v' o o' Ho Ho' Hg.
    destruct (Hcases n v o Ho) as [(Hn&->&->)|Hon], (Hcases n v' o' Ho') as [(Hn'&->&->)|Hon']; [done|..].
    + subst n. specialize (Hold v' o' Hon'). lia.
    + subst n. specialize (Hold v o Hon). lia.
    + by eapply Hu.
  - intros n cur g Hcur Hg. destruct (decide (n = m)) as [->|Hne].
    + assert (cur = x) as -> by congruence. destruct (decide (g = gen x)) as [->|Hgx]; [by exists w, x|].
      destruct (kstored s m) as [old|] eqn:Em; [|apply Hnone in Hstep; lia].
      apply Hsome in Hstep. destruct (Hco m old g Em) as (v&o&Hv&?); [lia|]. exists v, o. split; [|done].
      rewrite Hov; [done|]. right. intros ->. congruence.
    + rewrite Hos in Hcur by done. destruct (Hco n cur g Hcur Hg) as (v&o&?&?). exists v, o.
      rewrite Hov; [done|by left].
Qed.

Lemma krel_numbered s s' :
  (∀ n o, obj_step n None o → gen o = 1%Z) →
  (∀ n cur o, obj_step n (Some cur) o → gen o = (gen cur + 1)%Z) →
  krel s s' → numbered s → numbered s'.
Proof. intros Hn Hs. induction 1; eauto using kstep_numbered. Qed.
End steps.
End kube.
Arguments kube_call : clear implicits.

(** ** An in-memory API server *)

Section memory.
Context {Sp St E : Type} `{!EqDecision Sp} (conflict not_found : E).
Abbreviation obj := (kobject Sp St).

Record mem_kube := mkMem { mk_history : gmap string (list obj) }.

Definition with_version (v : string) (o : obj) : obj :=
  mkObject (ko_name o) (Some v) (ko_generation o) (ko_spec o) (ko_status o).
Definition named (n : string) (o : obj) : obj :=
  mkObject n (ko_resource_version o) (ko_generation o) (ko_spec o) (ko_status o).
Definition mk_stored (s : mem_kube) (n : string) : option obj :=
  named n <$> vs_stored with_version (mk_history s) n.
Definition mk_versions (s : mem_kube) (n v : string) : option obj :=
  named n <$> vs_versions with_version (mk_history s) n v.

Definition mk_commit (n : string) (o : obj) (s : mem_kube) : result obj E * mem_kube :=
  (Ok (named n (with_version (vs_next (mk_history s) n) o)), mkMem (vs_commit n o (mk_history s))).
Definition mk_replace (n : string) (r : obj) (merge : obj → obj) (s : mem_kube) : result obj E * mem_kube :=
  match mk_stored s n with
  | None => (Err not_found, s)
  | Some cur =>
      if bool_decide (ko_resource_version r = ko_resource_version cur)
      then mk_commit n (merge cur) s else (Err conflict, s)
  end.

Definition mk_handle (X : Type) (e : kube_call Sp St E X) : mem_kube → X * mem_kube :=
  match e in kube_call _ _ _ X return mem_kube → X * mem_kube with
  | KGet n => λ s, (Ok (mk_stored s n), s)
  | KList => λ s, (Ok (omap (mk_stored s) ((map_to_list (mk_history s)).*1)), s)
  | KCreate r => λ s,
      match mk_stored s (ko_name r) with
      | Some _ => (Err conflict, s)
      | None => mk_commit (ko_name r) (mkObject (ko_name r) None (Some 1%Z) (ko_spec r) None) s
      end
  | KReplace n r => mk_replace n r (λ cur,
      mkObject n None
        (if decide (ko_spec r = ko_spec cur) then ko_generation cur else Z.succ <$> ko_generation cur)
        (ko_spec r) (ko_status cur))
  | KReplaceStatus n r => mk_replace n r (λ cur,
      mkObject n None (ko_generation cur) (ko_spec cur) (ko_status r))
  end.

#[export] Instance mem_kube_api : @KubeApi Sp St E mem_kube := {|
  kapi X e s x s' := mk_handle X e s = (x, s');
  kstored := mk_stored;
  kversions := mk_versions;
|}.

Lemma mk_commit_committed n o s x s' :
  mk_commit n o s = (x, s') →
  kcommitted n (named n (with_version (vs_next (mk_history s) n) o)) s s'
  ∧ x = Ok (named n (with_version (vs_next (mk_history s) n) o)).
Proof.
  intros [= <- <-]. split; [|done]. split; [done|].
  destruct (vs_commit_spec with_version (mk_history s) n o) as (H1&H2&H3&H4&H5).
  exists (vs_next (mk_history s) n). cbn [kversions kstored mem_kube_api]. unfold mk_versions, mk_stored.
  cbn [mk_history]. rewrite H1, H2, H3. split_and!; try done.
  - intros m Hm. by rewrite H4.
  - intros m w Hm. by rewrite H5.
Qed.

Lemma mk_replace_write n r merge s x s' :
  mk_replace n r merge s = (x, s') →
  kwrite n x (λ o, ∃ cur, mk_stored s n = Some cur ∧ ko_resource_version r = ko_resource_version cur ∧
    ko_spec o = ko_spec (merge cur) ∧ ko_status o = ko_status (merge cur) ∧
    ko_generation o = ko_generation (merge cur)) s s'.
Proof.
  unfold mk_replace. destruct (mk_stored s n) as [cur|]; [|intros [= <- <-]; by left].
  case_bool_decide; [|intros [= <- <-]; by left]. intros [Hc ->]%mk_commit_committed. right.
  refine (ex_intro _ _ (conj _ (conj Hc _))); [by exists cur|by intros y [= <-]].
Qed.

Lemma mk_stored_key s n o : mk_stored s n = Some o → n ∈ (map_to_list (mk_history s)).*1.
Proof.
  unfold mk_stored, vs_stored, vs_versions, vs_history. destruct (mk_history s !! n) as [l|] eqn:Es; [|done].
  intros _. apply list_elem_of_fmap. exists (n, l). split; [done|]. by apply elem_of_map_to_list.
Qed.

Lemma mk_stored_name s n o : mk_stored s n = Some o → ko_name o = n.
Proof. unfold mk_stored. destruct (vs_stored _ _ _); [|done]. by intros [= <-]. Qed.

Lemma omap_stored_names s l : NoDup l → NoDup (map ko_name (omap (mk_stored s) l)).
Proof.
  induction 1 as [|n l Hn Hl IH]; [apply NoDup_nil_2|]. cbn [omap list_omap].
  destruct (mk_stored s n) as [o|] eqn:Es; [|done]. cbn [map]. apply NoDup_cons. split; [|done].
  rewrite (mk_stored_name _ _ _ Es). intros (o'&->&Ho')%list_elem_of_fmap.
  apply list_elem_of_omap in Ho' as (m&Hm&Hs). by rewrite (mk_stored_name _ _ _ Hs) in Hn.
Qed.

#[export] Instance mem_kube_laws : KubeLaws mem_kube.
Proof.
  split.
  - intros s n o Ho. split; [by eapply mk_stored_name|]. cbn in Ho. unfold mk_stored in Ho.
    destruct (vs_stored _ _ _) as [o0|] eqn:Es; [|done]. injection Ho as <-.
    destruct (vs_stored_version with_version _ _ _ Es) as (o1&v&->&Hv). exists v. split; [done|].
    cbn. unfold mk_versions. by rewrite Hv.
  - intros n s x s' [= <- <-]. split; [done|]. by intros o [= <-].
  - intros s x s' [= <- <-]. split; [done|]. intros l [= <-]. split.
    + apply omap_stored_names, NoDup_fst_map_to_list.
    + intros o. rewrite list_elem_of_omap. split.
      * intros (n&_&Hs). cbn. by rewrite (mk_stored_name _ _ _ Hs).
      * intros Ho. exists (ko_name o). split; [by eapply mk_stored_key|done].
  - intros r s x s' Ha. cbn in Ha. destruct (mk_stored s (ko_name r)) eqn:Es.
    { simplify_eq. by left. }
    apply mk_commit_committed in Ha as [Hc ->]. right.
    refine (ex_intro _ _ (conj _ (conj Hc _))); [done|by intros y [= <-]].
  - intros n r s x s' Ha%mk_replace_write. exact Ha.
  - intros n r s x s' Ha%mk_replace_write. exact Ha.
Qed.
End memory.
Arguments mem_kube : clear implicits.
