(* ===== verification/BTree.v ===== *)
(** * BTree: derived orders, [BTreeSet] and [BTreeMap]

    The cloud components iterate over ordered sets and maps, and what they
    render depends on that order.  [Ord] is the comparison Rust derives; a
    [BTreeSet] is the strictly increasing list of its elements and a [BTreeMap]
    the list of its entries with strictly increasing keys, so that derived
    equality is equality of lists. *)

From S2P Require Import Prelude.
From Stdlib Require Import ZArith Ascii String Lia.

(** ** Orders *)

Class Ord (A : Type) := cmp : A → A → comparison.

Class OrdLaws (A : Type) `{Ord A} := {
  cmp_eq (a b : A) : cmp a b = Eq ↔ a = b;
  cmp_antisym (a b : A) : cmp b a = CompOpp (cmp a b);
  cmp_trans (a b c : A) : cmp a b = Lt → cmp b c = Lt → cmp a c = Lt;
}.

Definition lt_of {A} `{Ord A} (a b : A) : Prop := cmp a b = Lt.

#[export] Instance Z_ord : Ord Z := Z.compare.
#[export] Instance Z_ord_laws : OrdLaws Z.
Proof.
  split; unfold cmp, Z_ord.
  - intros a b. apply Z.compare_eq_iff.
  - intros a b. by rewrite Z.compare_antisym.
  - intros a b c. rewrite !Z.compare_lt_iff. lia.
Qed.

(** A derived [Ord] compares field by field. *)
Definition then_cmp (c d : comparison) : comparison := match c with Eq => d | _ => c end.

#[export] Instance prod_ord {A B} `{Ord A, Ord B} : Ord (A * B) :=
  λ p q, then_cmp (cmp p.1 q.1) (cmp p.2 q.2).

#[export] Instance prod_ord_laws {A B} `{OrdLaws A, OrdLaws B} : OrdLaws (A * B).
Proof.
  split.
  - intros [a b] [a' b']. unfold cmp, prod_ord, then_cmp. simpl.
    pose proof (cmp_eq a a') as Ha. pose proof (cmp_eq b b') as Hb.
    destruct (cmp a a') eqn:E; naive_solver.
  - intros [a b] [a' b']. unfold cmp, prod_ord, then_cmp. simpl.
    rewrite (cmp_antisym a a'), (cmp_antisym b b'). by destruct (cmp a a').
  - intros [a b] [a' b'] [a'' b'']. unfold cmp, prod_ord, then_cmp. simpl.
    destruct (cmp a a') eqn:E1; [apply cmp_eq in E1 as ->| |done];
      (destruct (cmp a' a'') eqn:E2; [apply cmp_eq in E2 as ->| |done]).
    + apply cmp_trans.
    + done.
    + by rewrite E1.
    + by rewrite (cmp_trans _ _ _ E1 E2).
Qed.

Fixpoint list_cmp {A} `{Ord A} (l k : list A) : comparison :=
  match l, k with
  | [], [] => Eq
  | [], _ => Lt
  | _, [] => Gt
  | x :: l, y :: k => then_cmp (cmp x y) (list_cmp l k)
  end.
#[export] Instance list_ord {A} `{Ord A} : Ord (list A) := list_cmp.

#[export] Instance list_ord_laws {A} `{OrdLaws A} : OrdLaws (list A).
Proof.
  split; unfold cmp, list_ord.
  - intros l. induction l as [|x l IH]; intros [|y k]; simpl; try naive_solver.
    pose proof (cmp_eq x y). pose proof (IH k).
    destruct (cmp x y); simpl; naive_solver.
  - intros l. induction l as [|x l IH]; intros [|y k]; try done. simpl.
    rewrite (cmp_antisym x y), IH. by destruct (cmp x y).
  - intros l. induction l as [|x l IH]; intros [|y k] [|z m]; try done. simpl.
    unfold then_cmp.
    destruct (cmp x y) eqn:E1; [apply cmp_eq in E1 as ->| |done];
      (destruct (cmp y z) eqn:E2; [apply cmp_eq in E2 as ->| |done]).
    + apply IH.
    + done.
    + by rewrite E1.
    + by rewrite (cmp_trans _ _ _ E1 E2).
Qed.

(** An order carried over along an injection. *)
Lemma ord_via_laws {A B} `{OrdLaws B} (f : A → B) :
  Inj (=) (=) f → @OrdLaws A (λ a b, cmp (f a) (f b)).
Proof.
  intros Hf. split.
  - intros a b. change (cmp (f a) (f b) = Eq ↔ a = b). rewrite cmp_eq.
    split; [apply Hf|congruence].
  - intros a b. exact (cmp_antisym (f a) (f b)).
  - intros a b c. exact (cmp_trans (f a) (f b) (f c)).
Qed.

(** [Ord for str]: byte by byte. *)
Definition byte_z (c : ascii) : Z := Z.of_N (byte_val c).
Fixpoint str_bytes (s : string) : list Z :=
  match s with
  | EmptyString => []
  | String c s => byte_z c :: str_bytes s
  end.

Lemma byte_z_inj c d : byte_z c = byte_z d → c = d.
Proof.
  unfold byte_z, byte_val. intros H%N2Z.inj.
  by rewrite <- (ascii_N_embedding c), <- (ascii_N_embedding d), H.
Qed.
#[export] Instance str_bytes_inj : Inj (=) (=) str_bytes.
Proof.
  intros s. induction s as [|c s IH]; intros [|d t]; simpl; try done.
  intros [= Hc Hs]. f_equal; [by apply byte_z_inj|by apply IH].
Qed.
#[export] Instance string_ord : Ord string := λ s t, cmp (str_bytes s) (str_bytes t).
#[export] Instance string_ord_laws : OrdLaws string.
Proof. exact (ord_via_laws str_bytes _). Qed.

#[export] Instance option_ord {A} `{Ord A} : Ord (option A) := λ x y,
  match x, y with
  | None, None => Eq
  | None, Some _ => Lt
  | Some _, None => Gt
  | Some a, Some b => cmp a b
  end.
#[export] Instance option_ord_laws {A} `{OrdLaws A} : OrdLaws (option A).
Proof.
  split; unfold cmp, option_ord.
  - intros [a|] [b|]; try done. rewrite cmp_eq. naive_solver.
  - intros [a|] [b|]; try done. apply cmp_antisym.
  - intros [a|] [b|] [c|]; try done. apply cmp_trans.
Qed.

#[export] Instance bool_ord : Ord bool := λ a b, cmp (Z.b2z a) (Z.b2z b).
#[export] Instance bool_ord_laws : OrdLaws bool.
Proof. apply (ord_via_laws Z.b2z). by intros [] []. Qed.

(** ** [BTreeSet] *)

Section btree_set.
Context {A : Type} `{OrdLaws A}.

Fixpoint bts_insert (x : A) (l : list A) : list A :=
  match l with
  | [] => [x]
  | y :: k => match cmp x y with
              | Lt => x :: l
              | Eq => l
              | Gt => y :: bts_insert x k
              end
  end.

(** [iter.collect::<BTreeSet<_>>()]. *)
Definition bts_of_list (l : list A) : list A := foldl (λ s x, bts_insert x s) [] l.

Definition sorted_set (l : list A) : Prop := StronglySorted lt_of l.

Lemma lt_irrefl a : ¬ lt_of a a.
Proof. unfold lt_of. assert (cmp a a = Eq) as -> by (by apply cmp_eq). done. Qed.

Lemma lt_trans' a b c : lt_of a b → lt_of b c → lt_of a c.
Proof. apply cmp_trans. Qed.

Lemma gt_lt a b : cmp a b = Gt → lt_of b a.
Proof. unfold lt_of. rewrite (cmp_antisym a b). by intros ->. Qed.

Lemma elem_of_bts_insert x l y : y ∈ bts_insert x l ↔ y = x ∨ y ∈ l.
Proof.
  induction l as [|z l IH]; simpl; [by rewrite list_elem_of_singleton; set_solver|].
  destruct (cmp x z) eqn:E.
  - apply cmp_eq in E as ->. set_solver.
  - set_solver.
  - rewrite elem_of_cons, IH. set_solver.
Qed.

Lemma bts_insert_sorted x l : sorted_set l → sorted_set (bts_insert x l).
Proof.
  unfold sorted_set. induction 1 as [|y l Hl IH Hy]; simpl; [by repeat constructor|].
  destruct (cmp x y) eqn:E.
  - by constructor.
  - constructor; [by constructor|]. constructor; [done|].
    eapply Forall_impl; [done|]. intros z. by apply lt_trans'.
  - constructor; [done|]. apply Forall_forall. intros z [->|Hz]%elem_of_bts_insert.
    + by apply gt_lt.
    + by eapply Forall_forall in Hy.
Qed.

Lemma foldl_bts_insert l s :
  sorted_set s →
  sorted_set (foldl (λ s x, bts_insert x s) s l) ∧
  ∀ y, y ∈ foldl (λ s x, bts_insert x s) s l ↔ y ∈ l ∨ y ∈ s.
Proof.
  revert s. induction l as [|x l IH]; intros s Hs; simpl; [set_solver|].
  destruct (IH (bts_insert x s) (bts_insert_sorted x s Hs)) as [H1 H2]. split; [done|].
  intros y. rewrite H2, elem_of_bts_insert. set_solver.
Qed.

Lemma bts_of_list_sorted l : sorted_set (bts_of_list l).
Proof. apply foldl_bts_insert. constructor. Qed.

Lemma elem_of_bts_of_list l y : y ∈ bts_of_list l ↔ y ∈ l.
Proof.
  unfold bts_of_list. destruct (foldl_bts_insert l [] ltac:(constructor)) as [_ ->].
  set_solver.
Qed.

(** A set is determined by its elements. *)
Lemma sorted_set_ext l k :
  sorted_set l → sorted_set k → (∀ x, x ∈ l ↔ x ∈ k) → l = k.
Proof.
  intros Hl. revert k. induction Hl as [|x l Hl IH Hx]; intros k Hk Hlk.
  - destruct k as [|y k]; [done|]. exfalso. set_solver.
  - destruct Hk as [|y k Hk Hy]; [exfalso; set_solver|].
    assert (x = y) as <-.
    { pose proof (proj1 (Hlk x)) as H1. pose proof (proj2 (Hlk y)) as H2.
      destruct (proj1 (elem_of_cons _ _ _) (H1 ltac:(left))) as [?|Hxk]; [done|].
      destruct (proj1 (elem_of_cons _ _ _) (H2 ltac:(left))) as [?|Hyl]; [done|].
      eapply Forall_forall in Hy; [|exact Hxk]. eapply Forall_forall in Hx; [|exact Hyl].
      destruct (lt_irrefl x). by eapply lt_trans'. }
    f_equal. apply IH; [done|]. intros z.
    assert (x ∉ l) by (intros Hin; eapply Forall_forall in Hx; [|done]; by apply lt_irrefl in Hx).
    assert (x ∉ k) by (intros Hin; eapply Forall_forall in Hy; [|done]; by apply lt_irrefl in Hy).
    pose proof (Hlk z) as Hz. rewrite !elem_of_cons in Hz.
    split; intros Hin.
    + destruct (proj1 Hz (or_intror Hin)) as [->|?]; done.
    + destruct (proj2 Hz (or_intror Hin)) as [->|?]; done.
Qed.

Lemma bts_of_list_snoc l x : bts_of_list (l ++ [x]) = bts_insert x (bts_of_list l).
Proof. unfold bts_of_list. by rewrite foldl_app. Qed.

Lemma bts_of_sorted l : sorted_set l → bts_of_list l = l.
Proof.
  intros Hl. apply sorted_set_ext; [apply bts_of_list_sorted|done|apply elem_of_bts_of_list].
Qed.

Lemma sorted_set_NoDup l : sorted_set l → NoDup l.
Proof.
  induction 1 as [|x l Hl IH Hx]; constructor; [|done].
  intros Hin. eapply Forall_forall in Hx; [|done]. by apply lt_irrefl in Hx.
Qed.

(** Inserting a new element leaves the others as they were. *)
Lemma bts_insert_split x l :
  x ∉ l → ∃ l1 l2, l = l1 ++ l2 ∧ bts_insert x l = l1 ++ x :: l2.
Proof.
  induction l as [|y l IH]; simpl; [by exists [], []|]. intros [Hxy Hx]%not_elem_of_cons.
  destruct (cmp x y) eqn:E.
  - apply cmp_eq in E as ->. done.
  - by exists [], (y :: l).
  - destruct (IH Hx) as (l1&l2&->&->). by exists (y :: l1), l2.
Qed.

(** Collecting keeps the number of elements exactly if there are no duplicates. *)
Lemma bts_of_list_perm l : NoDup l → bts_of_list l ≡ₚ l.
Proof.
  intros Hl. apply NoDup_Permutation; [apply sorted_set_NoDup, bts_of_list_sorted|done|apply elem_of_bts_of_list].
Qed.
Lemma bts_of_list_length l : zlen (bts_of_list l) = zlen l ↔ NoDup l.
Proof.
  split; [|intros Hl; unfold zlen; by rewrite (bts_of_list_perm l Hl)].
  intros Hlen. unfold zlen in Hlen. apply NoDup_ListNoDup.
  apply (List.NoDup_incl_NoDup (l := bts_of_list l)).
  - apply NoDup_ListNoDup, sorted_set_NoDup, bts_of_list_sorted.
  - lia.
  - intros y. rewrite <-!list_elem_of_In. apply elem_of_bts_of_list.
Qed.

End btree_set.

(** ** [BTreeMap] *)

Section btree_map.
Context {K V : Type} `{OrdLaws K}.

Fixpoint btm_get (k : K) (m : list (K * V)) : option V :=
  match m with
  | [] => None
  | (k', v) :: m => match cmp k k' with Eq => Some v | _ => btm_get k m end
  end.

Fixpoint btm_insert (k : K) (v : V) (m : list (K * V)) : list (K * V) :=
  match m with
  | [] => [(k, v)]
  | (k', v') :: m' =>
      match cmp k k' with
      | Lt => (k, v) :: m
      | Eq => (k', v) :: m'
      | Gt => (k', v') :: btm_insert k v m'
      end
  end.

Fixpoint btm_remove (k : K) (m : list (K * V)) : list (K * V) :=
  match m with
  | [] => []
  | (k', v') :: m' => match cmp k k' with Eq => m' | _ => (k', v') :: btm_remove k m' end
  end.

Definition btm_of_list (l : list (K * V)) : list (K * V) :=
  foldl (λ m e, btm_insert e.1 e.2 m) [] l.

Definition sorted_map (m : list (K * V)) : Prop := sorted_set (m.*1).

Lemma btm_get_insert k k' v m :
  btm_get k' (btm_insert k v m) = match cmp k' k with Eq => Some v | _ => btm_get k' m end.
Proof.
  induction m as [|[k0 v0] m IH]; simpl; [done|].
  destruct (cmp k k0) eqn:E; simpl.
  - apply cmp_eq in E as ->. by destruct (cmp k' k0).
  - destruct (cmp k' k) eqn:E'; [done| |]; done.
  - rewrite IH. destruct (cmp k' k0) eqn:E0; [|done|done].
    apply cmp_eq in E0 as ->. rewrite (cmp_antisym k k0), E. done.
Qed.

Lemma btm_get_insert_eq k v m : btm_get k (btm_insert k v m) = Some v.
Proof. rewrite btm_get_insert. by assert (cmp k k = Eq) as -> by (by apply cmp_eq). Qed.

Lemma btm_get_insert_ne k k' v m : k' ≠ k → btm_get k' (btm_insert k v m) = btm_get k' m.
Proof.
  intros Hk. rewrite btm_get_insert. destruct (cmp k' k) eqn:E; [|done|done].
  by apply cmp_eq in E.
Qed.

Lemma btm_insert_keys k v m x : x ∈ (btm_insert k v m).*1 ↔ x = k ∨ x ∈ m.*1.
Proof.
  induction m as [|[k0 v0] m IH]; simpl; [by rewrite list_elem_of_singleton; set_solver|].
  destruct (cmp k k0) eqn:E; simpl.
  - apply cmp_eq in E as ->. set_solver.
  - set_solver.
  - rewrite elem_of_cons, IH. set_solver.
Qed.

Lemma btm_insert_sorted k v m : sorted_map m → sorted_map (btm_insert k v m).
Proof.
  unfold sorted_map, sorted_set. induction m as [|[k0 v0] m IH]; simpl; intros Hm;
    [by repeat constructor|].
  inversion Hm as [|? ? Hm' Hk]; subst. destruct (cmp k k0) eqn:E; simpl.
  - done.
  - constructor; [done|]. constructor; [done|]. eapply Forall_impl; [done|].
    intros z. by apply lt_trans'.
  - constructor; [by apply IH|]. apply Forall_forall. intros z [->|Hz]%btm_insert_keys.
    + by apply gt_lt.
    + by eapply Forall_forall in Hk.
Qed.

Lemma btm_of_list_sorted l : sorted_map (btm_of_list l).
Proof.
  unfold btm_of_list. assert (sorted_map []) as Hs by constructor. revert Hs.
  generalize ([] : list (K * V)). induction l as [|[k v] l IH]; intros m Hm; simpl; [done|].
  by apply IH, btm_insert_sorted.
Qed.

Lemma btm_remove_keys k m x : x ∈ (btm_remove k m).*1 → x ∈ m.*1.
Proof.
  induction m as [|[k0 v0] m IH]; simpl; [done|].
  destruct (cmp k k0); simpl; set_solver.
Qed.

Lemma btm_remove_sorted k m : sorted_map m → sorted_map (btm_remove k m).
Proof.
  unfold sorted_map, sorted_set. induction m as [|[k0 v0] m IH]; simpl; intros Hm; [done|].
  inversion Hm as [|? ? Hm' Hk]; subst. destruct (cmp k k0); [done| |];
    (simpl; constructor; [by apply IH|]; apply Forall_forall; intros z Hz%btm_remove_keys;
     by eapply Forall_forall in Hk).
Qed.

(** In a sorted map, membership of an entry and lookup agree. *)
Lemma btm_get_elem k v m : sorted_map m → (k, v) ∈ m ↔ btm_get k m = Some v.
Proof.
  unfold sorted_map, sorted_set. induction m as [|[k0 v0] m IH]; simpl; intros Hm; [set_solver|].
  inversion Hm as [|? ? Hm' Hk]; subst. rewrite elem_of_cons.
  destruct (cmp k k0) eqn:E.
  - apply cmp_eq in E as ->. split; [|naive_solver]. intros [?|Hin]; [naive_solver|].
    eapply Forall_forall in Hk; [by apply lt_irrefl in Hk|]. apply list_elem_of_fmap.
    by exists (k0, v).
  - rewrite <- IH by done. split; [intros [[= -> ->]|?]|by right]; [|done].
    by assert (cmp k0 k0 = Eq) as Hr by (by apply cmp_eq); rewrite Hr in E.
  - rewrite <- IH by done. split; [intros [[= -> ->]|?]|by right]; [|done].
    by assert (cmp k0 k0 = Eq) as Hr by (by apply cmp_eq); rewrite Hr in E.
Qed.

Lemma btm_get_remove k k' m :
  sorted_map m →
  btm_get k' (btm_remove k m) = match cmp k' k with Eq => None | _ => btm_get k' m end.
Proof.
  unfold sorted_map, sorted_set. induction m as [|[k0 v0] m IH]; simpl; intros Hm;
    [by destruct (cmp k' k)|].
  inversion Hm as [|? ? Hm' Hk]; subst. destruct (cmp k k0) eqn:E.
  - apply cmp_eq in E as ->. destruct (cmp k' k0) eqn:E0; [|done|done].
    apply cmp_eq in E0 as ->. destruct (btm_get k0 m) eqn:Eg; [|done].
    apply btm_get_elem in Eg; [|done]. eapply Forall_forall in Hk;
      [by apply lt_irrefl in Hk|]. apply list_elem_of_fmap. by eexists (_, _).
  - simpl. rewrite IH by done. destruct (cmp k' k0) eqn:E0; [|done|done].
    apply cmp_eq in E0 as ->. by rewrite (cmp_antisym k k0), E.
  - simpl. rewrite IH by done. destruct (cmp k' k0) eqn:E0; [|done|done].
    apply cmp_eq in E0 as ->. by rewrite (cmp_antisym k k0), E.
Qed.

Lemma btm_get_remove_eq k m : sorted_map m → btm_get k (btm_remove k m) = None.
Proof.
  intros Hm. rewrite btm_get_remove by done.
  by assert (cmp k k = Eq) as -> by (by apply cmp_eq).
Qed.

Lemma btm_get_remove_ne k k' m :
  sorted_map m → k' ≠ k → btm_get k' (btm_remove k m) = btm_get k' m.
Proof.
  intros Hm Hk. rewrite btm_get_remove by done. destruct (cmp k' k) eqn:E; [|done|done].
  by apply cmp_eq in E.
Qed.

(** [collect] keeps the last entry of a key. *)
Lemma btm_of_list_elem l k v : (k, v) ∈ btm_of_list l → (k, v) ∈ l.
Proof.
  intros Hin%btm_get_elem; [|apply btm_of_list_sorted]. revert Hin. unfold btm_of_list.
  assert (∀ m, btm_get k (foldl (λ m e, btm_insert e.1 e.2 m) m l) = Some v →
    (k, v) ∈ l ∨ btm_get k m = Some v) as Hg.
  { induction l as [|[k0 v0] l IH]; intros m Hm; simpl in *; [by right|].
    apply IH in Hm as [?|Hm]; [left; by right|]. rewrite btm_get_insert in Hm.
    destruct (cmp k k0) eqn:E; [|by right|by right]. apply cmp_eq in E. left. set_solver. }
  intros [?|?]%Hg; done.
Qed.

(** With distinct keys, [collect] keeps every entry. *)
Lemma btm_of_list_get l k v :
  NoDup (l.*1) → btm_get k (btm_of_list l) = Some v ↔ (k, v) ∈ l.
Proof.
  intros Hnd. split.
  - intros Hg. apply btm_of_list_elem, btm_get_elem; [apply btm_of_list_sorted|done].
  - unfold btm_of_list. generalize ([] : list (K * V)).
    induction l as [|[k0 v0] l IH]; intros m; [set_solver|]. inversion Hnd as [|? ? Hk0 Hnd']; subst.
    rewrite elem_of_cons. cbn [foldl fst snd]. intros [[= -> ->]|Hin]; [|by apply IH].
    clear IH Hnd Hnd'. assert (∀ m, btm_get k0 m = Some v0 →
      btm_get k0 (foldl (λ m e, btm_insert e.1 e.2 m) m l) = Some v0) as Hkeep.
    { induction l as [|[k1 v1] l IH]; intros m' Hm'; [done|]. cbn [foldl fst snd]. simpl in Hk0.
      apply IH; [set_solver|]. by rewrite btm_get_insert_ne by set_solver. }
    apply Hkeep, btm_get_insert_eq.
Qed.

(** A map is determined by its lookups. *)
Lemma btm_ext m m' :
  sorted_map m → sorted_map m' → (∀ k, btm_get k m = btm_get k m') → m = m'.
Proof.
  intros Hm Hm' Hg. assert (m.*1 = m'.*1) as Hk.
  { apply sorted_set_ext; [done|done|]. intros k. rewrite !list_elem_of_fmap.
    split; intros ([k' v]&->&Hin); apply btm_get_elem in Hin; try done;
      [rewrite Hg in Hin|rewrite <- Hg in Hin]; exists (k', v); by rewrite btm_get_elem. }
  revert m' Hm' Hg Hk. induction m as [|[k v] m IH]; intros [|[k' v'] m'] Hm' Hg Hk; [done..|].
  injection Hk as -> Hk. change (m.*1 = m'.*1) in Hk. assert (sorted_map m ∧ sorted_map m' ∧ k' ∉ m.*1) as (Hs&Hs'&Hnot).
  { pose proof (sorted_set_NoDup _ Hm) as Hn. simpl in Hn. apply NoDup_cons in Hn as [Hn _].
    split_and!; [by inversion Hm|by inversion Hm'|done]. }
  pose proof (Hg k') as Hv. assert (cmp k' k' = Eq) as Hkk by (by apply cmp_eq).
  cbn [btm_get] in Hv. rewrite Hkk in Hv. injection Hv as ->. f_equal. apply IH; [done|done| |done].
  intros k. specialize (Hg k). cbn [btm_get] in Hg. destruct (cmp k k') eqn:E; [|done|done].
  apply cmp_eq in E as ->. assert (∀ l : list (K * V), sorted_map l → k' ∉ l.*1 → btm_get k' l = None) as Hnone.
  { intros l Hl Hin. destruct (btm_get k' l) as [w|] eqn:Ew; [|done]. exfalso. apply Hin.
    apply btm_get_elem in Ew; [|done]. apply list_elem_of_fmap. by exists (k', w). }
  assert (k' ∉ m'.*1) by (by rewrite <- Hk).
  by rewrite (Hnone m), (Hnone m').
Qed.
End btree_map.

(** ** Sorting by a key *)

(** [sort_by(|l, r| key(l).cmp(&key(r)))]. *)
Definition key_le {A K} `{Ord K} (key : A → K) (a b : A) : Prop := cmp (key a) (key b) ≠ Gt.
#[export] Instance key_le_dec {A K} `{Ord K} (key : A → K) a b : Decision (key_le key a b).
Proof. unfold key_le. destruct (cmp (key a) (key b)); (left; congruence) || (right; congruence). Defined.
Definition sort_by {A K} `{Ord K} (key : A → K) (l : list A) : list A := merge_sort (key_le key) l.

Lemma sort_by_perm {A K} `{Ord K} (key : A → K) l : sort_by key l ≡ₚ l.
Proof. apply merge_sort_Permutation. Qed.
