(* ===== verification/NetAddr.v ===== *)
(** * NetAddr: [std::net::{Ipv4Addr, Ipv6Addr}], their [Display] and [FromStr]

    The record codecs of the DNS adapters print and parse addresses with the
    standard library.  An [Ipv4Addr] is the list of its four octets, an
    [Ipv6Addr] that of its eight segments.  The parser is the backtracking
    reader of [core::net::parser]; the printer compresses the first longest run
    of zero segments and prints IPv4-mapped addresses with a dotted tail. *)

From Stdlib Require Import ZArith Ascii String Lia.
From S2P Require Import Prelude Text.

Abbreviation Ipv4Addr := (list Z).
Abbreviation Ipv6Addr := (list Z).

Definition ipv4_wf (a : Ipv4Addr) : Prop :=
  length a = 4 ∧ Forall (λ x, 0 <= x <= U8_MAX)%Z a.
Definition ipv6_wf (a : Ipv6Addr) : Prop :=
  length a = 8 ∧ Forall (λ x, 0 <= x <= U16_MAX)%Z a.

(** ** The reader *)

(** [char::to_digit]. *)
Definition to_digit (radix : Z) (c : ascii) : option Z :=
  let n := Z.of_N (byte_val c) in
  let d := if is_ascii_digit c then Some (n - 48)%Z
           else if is_ascii_lowercase c then Some (n - 87)%Z
           else if is_ascii_uppercase c then Some (n - 55)%Z
           else None in
  match d with Some d => if (d <? radix)%Z then Some d else None | None => None end.

Fixpoint read_digits (radix : Z) (max_digits : nat) (result : Z) (digit_count : nat) (s : string) :
    option (Z * nat * string) :=
  match s with
  | EmptyString => Some (result, digit_count, s)
  | String c s' =>
      match to_digit radix c with
      | None => Some (result, digit_count, s)
      | Some d =>
          if max_digits <? S digit_count then None
          else read_digits radix max_digits (result * radix + d)%Z (S digit_count) s'
      end
  end.

Definition read_number (radix : Z) (max_digits : nat) (allow_zero_prefix : bool) (max : Z)
    (s : string) : option (Z * string) :=
  match read_digits radix max_digits 0 0 s with
  | None => None
  | Some (result, digit_count, rest) =>
      if digit_count =? 0 then None
      else if negb allow_zero_prefix && starts_with_char "0" s && (1 <? digit_count) then None
      else if (result <=? max)%Z then Some (result, rest) else None
  end.

Definition read_given_char (c : ascii) (s : string) : option string :=
  match s with
  | String d s => if Ascii.eqb c d then Some s else None
  | EmptyString => None
  end.

Definition read_separator {A} (sep : ascii) (index : nat) (inner : string → option A) (s : string) :
    option A :=
  if 0 <? index then s ← read_given_char sep s; inner s else inner s.

Fixpoint read_octets (n index : nat) (s : string) : option (list Z * string) :=
  match n with
  | O => Some ([], s)
  | S n =>
      '(o, s) ← read_separator ch_dot index (read_number 10 3 false U8_MAX) s;
      '(os, s) ← read_octets n (S index) s;
      Some (o :: os, s)
  end.
Definition read_ipv4_addr (s : string) : option (Ipv4Addr * string) := read_octets 4 0 s.

(** [read_groups] over a slice of which [n] slots are left; the groups read,
    whether they end in an embedded IPv4 address, and the rest. *)
Fixpoint read_groups (n index : nat) (s : string) : list Z * bool * string :=
  match n with
  | O => ([], false, s)
  | S n' =>
      match (if 0 <? n' then read_separator ch_colon index read_ipv4_addr s else None) with
      | Some ([a; b; c; d], rest) => ([a * 256 + b; c * 256 + d]%Z, true, rest)
      | _ =>
          match read_separator ch_colon index (read_number 16 4 true U16_MAX) s with
          | Some (g, rest) =>
              let '(gs, v4, rest') := read_groups n' (S index) rest in (g :: gs, v4, rest')
          | None => ([], false, s)
          end
      end
  end.

Definition read_ipv6_addr (s : string) : option (Ipv6Addr * string) :=
  let '(head, head_ipv4, s1) := read_groups 8 0 s in
  if length head =? 8 then Some (head, s1)
  else if head_ipv4 then None
  else
    s2 ← read_given_char ch_colon s1;
    s3 ← read_given_char ch_colon s2;
    let '(tail, _, s4) := read_groups (8 - (length head + 1)) 0 s3 in
    Some (head ++ replicate (8 - length head - length tail) 0%Z ++ tail, s4).

(** The whole input has to be read. *)
Definition parse_with {A} (inner : string → option (A * string)) (s : string) : option A :=
  '(a, rest) ← inner s; if is_empty rest then Some a else None.

Definition ipv4_from_str (s : string) : option Ipv4Addr :=
  if (15 <? str_len s)%Z then None else parse_with read_ipv4_addr s.
Definition ipv6_from_str (s : string) : option Ipv6Addr := parse_with read_ipv6_addr s.

(** ** The printer *)

Definition ipv4_fmt (a : Ipv4Addr) : string := join_with ch_dot (map u64_to_string a).

(** [{:x}] of a [u16]. *)
Definition hex_char (d : Z) : ascii :=
  ascii_of_N (Z.to_N (if (d <? 10)%Z then 48 + d else 87 + d)).
Fixpoint hex_digits (fuel : nat) (n : Z) (acc : string) : string :=
  match fuel with
  | O => acc
  | S fuel =>
      let acc := String (hex_char (n mod 16)) acc in
      if (n / 16 =? 0)%Z then acc else hex_digits fuel (n / 16) acc
  end.
Definition u16_hex (n : Z) : string := hex_digits 4 n "".

(** [fmt_subslice]: the segments separated by colons. *)
Fixpoint fmt_subslice (index : nat) (chunk : list Z) : string :=
  match chunk with
  | [] => EmptyString
  | x :: chunk =>
      (if 0 <? index then String ch_colon EmptyString else EmptyString)
      +:+ u16_hex x +:+ fmt_subslice (S index) chunk
  end.

(** The loop that finds the longest run of zero segments: spans are a start and
    a length. *)
Fixpoint zero_span (i : nat) (segments : list Z) (current longest : nat * nat) : nat * nat :=
  match segments with
  | [] => longest
  | x :: segments =>
      if (x =? 0)%Z then
        let current := (if current.2 =? 0 then i else current.1, S current.2) in
        let longest := if longest.2 <? current.2 then current else longest in
        zero_span (S i) segments current longest
      else zero_span (S i) segments (0, 0) longest
  end.

Definition to_ipv4_mapped (a : Ipv6Addr) : option Ipv4Addr :=
  match a with
  | [s0; s1; s2; s3; s4; s5; ab; cd] =>
      if bool_decide ([s0; s1; s2; s3; s4; s5] = [0; 0; 0; 0; 0; 65535])
      then Some [ab / 256; ab mod 256; cd / 256; cd mod 256] else None
  | _ => None
  end%Z.

Definition ipv6_fmt (a : Ipv6Addr) : string :=
  match to_ipv4_mapped a with
  | Some ipv4 => "::ffff:" +:+ ipv4_fmt ipv4
  | None =>
      let '(start, len) := zero_span 0 a (0, 0) (0, 0) in
      if 1 <? len
      then fmt_subslice 0 (take start a) +:+ "::" +:+ fmt_subslice 0 (drop (start + len) a)
      else fmt_subslice 0 a
  end.

(** ** Reading back a printed number *)

Definition stops (radix : Z) (s : string) : Prop :=
  match s with String c _ => to_digit radix c = None | EmptyString => True end.

Lemma read_digits_app radix m r k s v c rest :
  read_digits radix m r k s = Some (v, c, "") → stops radix rest →
  read_digits radix m r k (s +:+ rest) = Some (v, c, rest).
Proof.
  revert r k. induction s as [|x s IH]; intros r k Hs Hr.
  - simpl in Hs. simplify_eq. change (read_digits radix m v c rest = Some (v, c, rest)).
    destruct rest as [|y rest]; [done|]. cbn [read_digits]. by rewrite Hr.
  - rewrite str_app_cons. cbn [read_digits] in *. destruct (to_digit radix x); [|done].
    destruct (m <? S k); [done|]. by apply IH.
Qed.

Lemma read_number_app radix m z max s v rest :
  s ≠ "" → read_number radix m z max s = Some (v, "") → stops radix rest →
  read_number radix m z max (s +:+ rest) = Some (v, rest).
Proof.
  unfold read_number. intros Hne Hs Hr.
  destruct (read_digits radix m 0 0 s) as [[[r k] t]|] eqn:E; [|done].
  assert (t = "") as ->. { by break_hyp Hs. }
  rewrite (read_digits_app _ _ _ _ _ _ _ _ E Hr).
  assert (starts_with_char "0" (s +:+ rest) = starts_with_char "0" s) as -> by (by destruct s).
  revert Hs. destruct (k =? 0); [done|].
  destruct (negb z && starts_with_char "0" s && (1 <? k)); [done|].
  destruct (r <=? max)%Z; [|done]. by intros [= ->].
Qed.

Definition reads_back (radix : Z) (m : nat) (z : bool) (max : Z) (fmt : Z → string) (n : Z) : bool :=
  negb (is_empty (fmt n)) && bool_decide (read_number radix m z max (fmt n) = Some (n, "")).

(** The integers from [i] on, to try a property on all of a small range. *)
Fixpoint zrange (n : nat) (i : Z) : list Z :=
  match n with O => [] | S n => i :: zrange n (i + 1)%Z end.

Lemma zrange_all (p : Z → bool) n i x :
  forallb p (zrange n i) = true → (i <= x < i + Z.of_nat n)%Z → p x = true.
Proof.
  revert i. induction n as [|n IH]; intros i Hp Hx; [lia|]. cbn [zrange forallb] in Hp.
  apply andb_true_iff in Hp as [Hi Hp]. destruct (decide (x = i)) as [->|]; [done|].
  apply (IH (i + 1)%Z); [done|lia].
Qed.

Lemma octets_read_back : forallb (reads_back 10 3 false U8_MAX u64_to_string) (zrange 256 0) = true.
Proof. by vm_compute. Qed.

(** A hexadecimal digit reads back; by trying the sixteen. *)
Definition hex_char_ok (d : Z) : bool :=
  bool_decide (to_digit 16 (hex_char d) = Some d) && negb (Ascii.eqb ch_dot (hex_char d)).
Lemma hex_chars_ok : forallb hex_char_ok (zrange 16 0) = true.
Proof. by vm_compute. Qed.
Lemma hex_char_facts d :
  (0 <= d < 16)%Z → to_digit 16 (hex_char d) = Some d ∧ Ascii.eqb ch_dot (hex_char d) = false.
Proof.
  intros Hd. pose proof (zrange_all _ _ _ d hex_chars_ok ltac:(lia)) as H. unfold hex_char_ok in H.
  by rewrite andb_true_iff, bool_decide_eq_true, negb_true_iff in H.
Qed.

Lemma read_hex_digits m fuel n :
  (0 <= n < 16 ^ Z.of_nat fuel)%Z → fuel ≠ 0 → fuel ≤ m →
  ∃ c, 0 < c ≤ fuel ∧
    ∀ acc, read_digits 16 m 0 0 (hex_digits fuel n acc) = read_digits 16 m n c acc.
Proof.
  revert n. induction fuel as [|fuel IH]; intros n Hn Hnz Hm; [done|].
  pose proof (Z.mod_pos_bound n 16 ltac:(lia)) as Hb. pose proof (Z.div_mod n 16 ltac:(lia)) as Hdm.
  destruct (hex_char_facts _ Hb) as [Hd _]. cbn [hex_digits].
  destruct (Z.eqb_spec (n / 16) 0) as [H0|H0].
  - exists 1. split; [lia|]. intros acc. cbn [read_digits]. rewrite Hd.
    rewrite (proj2 (Nat.ltb_ge m 1)) by lia. by replace (0 * 16 + n mod 16)%Z with n by lia.
  - rewrite Nat2Z.inj_succ, Z.pow_succ_r in Hn by lia.
    assert (0 <= n / 16)%Z by (apply Z.div_pos; lia).
    assert (fuel ≠ 0) by (intros ->; simpl in Hn; lia).
    destruct (IH (n / 16)%Z) as (c&Hc&Hr); [lia|done|lia|]. exists (S c). split; [lia|].
    intros acc. rewrite Hr. cbn [read_digits]. rewrite Hd.
    rewrite (proj2 (Nat.ltb_ge m (S c))) by lia. by replace (n / 16 * 16 + n mod 16)%Z with n by lia.
Qed.

Lemma read_digits_stop radix m r k s : stops radix s → read_digits radix m r k s = Some (r, k, s).
Proof. destruct s as [|c s]; [done|]. intros Hc. cbn [read_digits]. by rewrite Hc. Qed.

Lemma hex_digits_app fuel n acc rest : hex_digits fuel n acc +:+ rest = hex_digits fuel n (acc +:+ rest).
Proof.
  revert n acc. induction fuel as [|fuel IH]; intros n acc; [done|]. cbn [hex_digits].
  destruct (n / 16 =? 0)%Z; [done|]. by rewrite IH.
Qed.

Lemma hex_digits_nodot fuel n acc :
  str_mem ch_dot acc = false → str_mem ch_dot (hex_digits fuel n acc) = false.
Proof.
  revert n acc. induction fuel as [|fuel IH]; intros n acc Ha; [done|]. cbn [hex_digits].
  destruct (hex_char_facts _ (Z.mod_pos_bound n 16 ltac:(lia))) as [_ Hd].
  destruct (n / 16 =? 0)%Z; [|apply IH]; cbn [str_mem]; by rewrite Hd.
Qed.

Lemma reads_back_forall radix m z max fmt bound x rest :
  forallb (reads_back radix m z max fmt) (zrange (Z.to_nat bound) 0) = true →
  (0 <= x < bound)%Z → stops radix rest →
  read_number radix m z max (fmt x +:+ rest) = Some (x, rest).
Proof.
  intros Hall Hx Hr. pose proof (zrange_all _ _ _ x Hall ltac:(lia)) as Hin. unfold reads_back in Hin.
  apply andb_true_iff in Hin as [Hne Hd]. apply bool_decide_eq_true in Hd.
  apply read_number_app; [|done|done]. intros Hf. by rewrite Hf in Hne.
Qed.

Lemma read_octet x rest :
  (0 <= x <= U8_MAX)%Z → stops 10 rest →
  read_number 10 3 false U8_MAX (u64_to_string x +:+ rest) = Some (x, rest).
Proof. intros. apply (reads_back_forall _ _ _ _ _ 256); [exact octets_read_back|unfold U8_MAX in *; lia|done]. Qed.

Lemma read_segment x rest :
  (0 <= x <= U16_MAX)%Z → stops 16 rest →
  read_number 16 4 true U16_MAX (u16_hex x +:+ rest) = Some (x, rest).
Proof.
  intros Hx Hr. unfold read_number, u16_hex. rewrite hex_digits_app.
  destruct (read_hex_digits 4 4 x) as (c&Hc&->); [unfold U16_MAX in Hx; simpl; lia|done|done|].
  rewrite read_digits_stop by done. rewrite (proj2 (Nat.eqb_neq c 0)) by lia. cbn.
  by rewrite (proj2 (Z.leb_le x U16_MAX)) by lia.
Qed.

(** ** IPv4 *)

Lemma read_given_char_eq c s : read_given_char c (String c s) = Some s.
Proof. cbn [read_given_char]. by rewrite Ascii.eqb_refl. Qed.

Lemma read_separator_S {A} sep i (inner : string → option A) s :
  read_separator sep (S i) inner (String sep s) = inner s.
Proof. unfold read_separator. cbn [Nat.ltb Nat.leb read_given_char]. by rewrite Ascii.eqb_refl. Qed.

Lemma read_separator_0 {A} sep (inner : string → option A) s : read_separator sep 0 inner s = inner s.
Proof. done. Qed.

Lemma read_ipv4_fmt a rest :
  ipv4_wf a → stops 10 rest → read_ipv4_addr (ipv4_fmt a +:+ rest) = Some (a, rest).
Proof.
  intros [Hl Hf] Hr. destruct a as [|a [|b [|c [|d [|]]]]]; try done.
  inversion_clear Hf as [|? ? Ha Hf']. inversion_clear Hf' as [|? ? Hb Hf].
  inversion_clear Hf as [|? ? Hc Hf']. inversion_clear Hf' as [|? ? Hd _].
  unfold read_ipv4_addr, ipv4_fmt. cbn [map join_with]. rewrite !str_app_assoc, !str_app_cons.
  rewrite !str_app_assoc, !str_app_cons, !str_app_assoc, !str_app_cons.
  cbn [read_octets]. rewrite read_separator_0.
  do 3 (rewrite read_octet by done; cbn [mbind option_bind]; rewrite read_separator_S).
  by rewrite read_octet.
Qed.

Lemma octet_length : forallb (λ n, String.length (u64_to_string n) <=? 3) (zrange 256 0) = true.
Proof. by vm_compute. Qed.

Lemma octet_length_le x : (0 <= x <= U8_MAX)%Z → String.length (u64_to_string x) ≤ 3.
Proof.
  intros Hx. apply Nat.leb_le. apply (zrange_all _ _ _ x octet_length). unfold U8_MAX in Hx. lia.
Qed.

Lemma ipv4_roundtrip a : ipv4_wf a → ipv4_from_str (ipv4_fmt a) = Some a.
Proof.
  intros Hwf. unfold ipv4_from_str.
  assert ((15 <? str_len (ipv4_fmt a))%Z = false) as ->.
  { apply Z.ltb_ge. unfold str_len. destruct Hwf as [Hl Hf].
    destruct a as [|a [|b [|c [|d [|]]]]]; try done. rewrite !Forall_cons in Hf.
    destruct Hf as (Ha&Hb&Hc&Hd&_). apply octet_length_le in Ha, Hb, Hc, Hd.
    unfold ipv4_fmt. cbn [map join_with].
    repeat (rewrite str_len_app; cbn [String.length]). lia. }
  unfold parse_with. rewrite <- (str_app_nil_r (ipv4_fmt a)) at 1.
  by rewrite read_ipv4_fmt.
Qed.

(** ** IPv6 *)

Lemma read_digits_rest radix m r k s v c rest :
  read_digits radix m r k s = Some (v, c, rest) → ∃ p, s = p +:+ rest.
Proof.
  revert r k. induction s as [|x s IH]; intros r k Hs; cbn [read_digits] in Hs.
  - simplify_eq. by exists "".
  - destruct (to_digit radix x); [|by simplify_eq; exists ""].
    destruct (m <? S k); [done|]. apply IH in Hs as [p ->]. by exists (String x p).
Qed.

Lemma str_mem_app c a b : str_mem c (a +:+ b) = str_mem c a || str_mem c b.
Proof.
  induction a as [|d a IH]; [done|]. rewrite str_app_cons. cbn [str_mem].
  by rewrite IH, orb_assoc.
Qed.

(** Without a dot there is no IPv4 address to read. *)
Lemma read_ipv4_nodot s : str_mem ch_dot s = false → read_ipv4_addr s = None.
Proof.
  intros Hd. unfold read_ipv4_addr. cbn [read_octets]. rewrite read_separator_0.
  destruct (read_number 10 3 false U8_MAX s) as [[v rest]|] eqn:E; [|done].
  assert (str_mem ch_dot rest = false) as Hr.
  { unfold read_number in E. destruct (read_digits 10 3 0 0 s) as [[[r k] t]|] eqn:Ed; [|done].
    apply read_digits_rest in Ed as [p ->]. rewrite str_mem_app in Hd.
    apply orb_false_iff in Hd as [_ Hd]. assert (t = rest) as <- by (by break_hyp E). done. }
  cbn [mbind option_bind].
  assert (read_separator ch_dot 1 (read_number 10 3 false U8_MAX) rest = None) as ->; [|done].
  unfold read_separator. cbn [Nat.ltb Nat.leb].
  destruct rest as [|c rest]; [done|]. cbn [read_given_char str_mem] in *.
  apply orb_false_iff in Hr as [Hc _]. by rewrite Hc.
Qed.

(** What may follow the groups: nothing that reads as a further group. *)
Definition group_stop (s : string) : Prop :=
  s = "" ∨ ∃ t, s = String ch_colon (String ch_colon t).

Lemma group_stop_sep index s :
  group_stop s → read_separator ch_colon index (read_number 16 4 true U16_MAX) s = None.
Proof.
  intros [->|[t ->]]; destruct index as [|index]; [done|done|done|]. by rewrite read_separator_S.
Qed.

Lemma read_groups_stop n index s :
  group_stop s → str_mem ch_dot s = false → read_groups n index s = ([], false, s).
Proof.
  intros Hs Hd. destruct n as [|n]; [done|]. cbn [read_groups].
  rewrite group_stop_sep by done.
  assert ((if 0 <? n then read_separator ch_colon index read_ipv4_addr s else None) = None) as ->;
    [|done].
  destruct (0 <? n); [|done]. unfold read_separator. destruct (0 <? index).
  - destruct Hs as [->|[t ->]]; [done|]. cbn [read_given_char]. rewrite Ascii.eqb_refl. cbn.
    apply read_ipv4_nodot. cbn [str_mem] in *. by rewrite !orb_false_iff in Hd |- *.
  - by apply read_ipv4_nodot.
Qed.

Lemma fmt_stops index gs rest :
  0 < index → group_stop rest → stops 16 (fmt_subslice index gs +:+ rest).
Proof.
  intros Hi Hr. destruct gs as [|g gs].
  - change (fmt_subslice index [] +:+ rest) with rest. by destruct Hr as [->|[t ->]].
  - cbn [fmt_subslice]. apply Nat.ltb_lt in Hi. by rewrite Hi.
Qed.

Lemma read_groups_fmt n index gs rest :
  length gs ≤ n → Forall (λ x, 0 <= x <= U16_MAX)%Z gs → group_stop rest →
  str_mem ch_dot (fmt_subslice index gs +:+ rest) = false →
  read_groups n index (fmt_subslice index gs +:+ rest) = (gs, false, rest).
Proof.
  intros Hl Hf Hr. revert n index Hl. induction Hf as [|g gs Hg Hgs IH]; intros n index Hl Hd.
  - by apply read_groups_stop.
  - destruct n as [|n]; [simpl in Hl; lia|]. cbn [fmt_subslice] in *.
    rewrite !str_app_assoc in *. cbn [read_groups].
    pose proof (fmt_stops (S index) gs rest ltac:(lia) Hr) as Hst.
    set (body := u16_hex g +:+ fmt_subslice (S index) gs +:+ rest) in *.
    assert (str_mem ch_dot body = false ∧
      str_mem ch_dot (fmt_subslice (S index) gs +:+ rest) = false) as [Hb Hd'].
    { rewrite str_mem_app in Hd. apply orb_false_iff in Hd as [_ Hd]. split; [done|].
      unfold body in Hd. rewrite str_mem_app in Hd. by apply orb_false_iff in Hd as [_ Hd]. }
    assert (∀ A (inner : string → option A), read_separator ch_colon index inner
      ((if 0 <? index then String ch_colon "" else "") +:+ body) = inner body) as Hsep.
    { intros A inner. unfold read_separator. by destruct (0 <? index). }
    rewrite !Hsep, (read_ipv4_nodot body) by done.
    assert ((if 0 <? n then @None (Ipv4Addr * string) else None) = None) as -> by (by destruct n).
    unfold body. rewrite read_segment by done. rewrite IH; [done|simpl in Hl; lia|done].
Qed.

Lemma fmt_nodot index gs :
  str_mem ch_dot (fmt_subslice index gs) = false.
Proof.
  revert index. induction gs as [|g gs IH]; intros index; [done|].
  cbn [fmt_subslice]. rewrite !str_mem_app, IH. unfold u16_hex.
  rewrite hex_digits_nodot by done. by destruct (0 <? index).
Qed.

(** The span the printer compresses consists of zeros. *)
Definition zeros_at (a : list Z) (span : nat * nat) : Prop :=
  ∀ j, j < span.2 → a !! (span.1 + j) = Some 0%Z.

Lemma zero_span_zeros a i current longest :
  (current.2 ≠ 0 → current.1 + current.2 = i) → zeros_at a current → zeros_at a longest →
  zeros_at a (zero_span i (drop i a) current longest).
Proof.
  remember (drop i a) as l eqn:Hl. revert i current longest Hl.
  induction l as [|x l IH]; intros i [cs cl] longest Hl Hc Hz Hlong; [done|].
  assert (a !! i = Some x) as Hx.
  { rewrite <- (Nat.add_0_r i), <- lookup_drop, <- Hl. done. }
  assert (l = drop (S i) a) as Hl'.
  { rewrite <- (Nat.add_1_r i), <- drop_drop, <- Hl. done. }
  cbn [zero_span]. destruct (Z.eqb_spec x 0) as [->|Hne].
  2: { apply IH; [done|done| |done]. intros j Hj. simpl in Hj. lia. }
  simpl fst. simpl snd. simpl in Hc.
  assert (zeros_at a (if cl =? 0 then i else cs, S cl)) as Hnew.
  { intros j Hj. simpl in Hj |- *. destruct (Nat.eqb_spec cl 0) as [->|Hcl].
    - assert (j = 0) as -> by lia. by rewrite Nat.add_0_r.
    - destruct (decide (j = cl)) as [->|]; [by rewrite Hc|]. apply Hz. simpl. lia. }
  apply IH; [done| |done|].
  - simpl. destruct (Nat.eqb_spec cl 0) as [->|Hcl]; lia.
  - by destruct (longest.2 <? S cl).
Qed.

Lemma zeros_at_split a start len :
  zeros_at a (start, len) → 0 < len →
  a = take start a ++ replicate len 0%Z ++ drop (start + len) a ∧ start + len ≤ length a.
Proof.
  intros Hz Hlen.
  assert (start + len ≤ length a) as Hle.
  { pose proof (Hz (len - 1) ltac:(simpl; lia)) as H. apply lookup_lt_Some in H. simpl in H. lia. }
  split; [|done]. apply list_eq. intros i.
  destruct (decide (i < start)) as [Hi|Hi].
  { rewrite lookup_app_l by (rewrite length_take; lia). by rewrite lookup_take_lt. }
  rewrite lookup_app_r by (rewrite length_take; lia). rewrite length_take, Nat.min_l by lia.
  destruct (decide (i < start + len)) as [Hi'|Hi'].
  - rewrite lookup_app_l by (rewrite length_replicate; lia).
    rewrite lookup_replicate_2 by lia. pose proof (Hz (i - start) ltac:(simpl; lia)) as H.
    simpl in H. by replace (start + (i - start)) with i in H by lia.
  - rewrite lookup_app_r by (rewrite length_replicate; lia).
    rewrite length_replicate, lookup_drop. f_equal. lia.
Qed.

Lemma to_ipv4_mapped_Some a v :
  ipv6_wf a → to_ipv4_mapped a = Some v →
  ipv4_wf v ∧ ∃ ab cd, a = [0; 0; 0; 0; 0; 65535; ab; cd]%Z ∧
    v = [ab / 256; ab mod 256; cd / 256; cd mod 256]%Z.
Proof.
  intros [Hl Hf] Hm. unfold to_ipv4_mapped in Hm.
  destruct a as [|s0 [|s1 [|s2 [|s3 [|s4 [|s5 [|ab [|cd [|]]]]]]]]]; try done.
  case_bool_decide as Heq; [|done]. injection Heq as -> -> -> -> -> ->.
  injection Hm as <-. rewrite !Forall_cons in Hf.
  destruct Hf as (_&_&_&_&_&_&Hab&Hcd&_). split; [|by eauto].
  split; [done|]. unfold U16_MAX, U8_MAX in *.
  pose proof (Z.div_mod ab 256 ltac:(lia)). pose proof (Z.mod_pos_bound ab 256 ltac:(lia)).
  pose proof (Z.div_mod cd 256 ltac:(lia)). pose proof (Z.mod_pos_bound cd 256 ltac:(lia)).
  repeat constructor; lia.
Qed.

Lemma read_groups_v4 n index s a b c d rest :
  read_separator ch_colon index read_ipv4_addr s = Some ([a; b; c; d], rest) →
  read_groups (S (S n)) index s = ([a * 256 + b; c * 256 + d]%Z, true, rest).
Proof.
  intros Hs. remember (S n) as k eqn:Hk. cbn [read_groups]. rewrite Hk at 1.
  cbn [Nat.ltb Nat.leb]. by rewrite Hs.
Qed.

Lemma ipv6_mapped_roundtrip ab cd v :
  ipv4_wf v → v = [ab / 256; ab mod 256; cd / 256; cd mod 256]%Z →
  ipv6_from_str ("::ffff:" +:+ ipv4_fmt v) = Some [0; 0; 0; 0; 0; 65535; ab; cd]%Z.
Proof.
  intros Hwf Hv. pose proof (read_ipv4_fmt v "" Hwf I) as Hr. rewrite str_app_nil_r in Hr.
  unfold ipv6_from_str, parse_with, read_ipv6_addr.
  assert (∀ t, read_groups 8 0 (String ch_colon (String ch_colon t)) =
    ([], false, String ch_colon (String ch_colon t))) as H1 by done.
  assert (∀ t, read_groups 7 0 ("ffff:" +:+ t) =
    let '(gs, v4, r) := read_groups 6 1 (String ch_colon t) in (65535%Z :: gs, v4, r)) as H2 by done.
  change ("::ffff:" +:+ ipv4_fmt v)
    with (String ch_colon (String ch_colon ("ffff:" +:+ ipv4_fmt v))).
  rewrite H1. cbn [length Nat.eqb]. rewrite read_given_char_eq. cbn [mbind option_bind].
  rewrite read_given_char_eq. cbn [mbind option_bind]. change (8 - (0 + 1)) with 7. rewrite H2.
  rewrite (read_groups_v4 4 1 _ (ab / 256) (ab mod 256) (cd / 256) (cd mod 256) "")
    by (rewrite read_separator_S, Hr; by rewrite Hv). cbn.
  pose proof (Z.div_mod ab 256 ltac:(lia)). pose proof (Z.div_mod cd 256 ltac:(lia)).
  repeat f_equal; lia.
Qed.

Lemma group_stop_colons t : group_stop ("::" +:+ t).
Proof. right. by exists t. Qed.

(** Every address reads back from its printed form. *)
Lemma ipv6_roundtrip a : ipv6_wf a → ipv6_from_str (ipv6_fmt a) = Some a.
Proof.
  intros Hwf. unfold ipv6_fmt. destruct (to_ipv4_mapped a) as [v|] eqn:Em.
  { destruct (to_ipv4_mapped_Some a v Hwf Em) as (Hv&ab&cd&->&Heq). by apply ipv6_mapped_roundtrip. }
  destruct Hwf as [Hl Hf]. unfold ipv6_from_str, parse_with, read_ipv6_addr.
  pose proof (zero_span_zeros a 0 (0, 0) (0, 0) ltac:(done) ltac:(intros ? ?; simpl in *; lia)
    ltac:(intros ? ?; simpl in *; lia)) as Hz. rewrite drop_0 in Hz.
  destruct (zero_span 0 a (0, 0) (0, 0)) as [start len]. destruct (Nat.ltb_spec 1 len) as [Hlen|Hlen].
  - destruct (zeros_at_split a start len Hz ltac:(lia)) as [Ha Hle].
    assert (Forall (λ x, 0 <= x <= U16_MAX)%Z (take start a)) as Hft by (by apply Forall_take).
    assert (Forall (λ x, 0 <= x <= U16_MAX)%Z (drop (start + len) a)) as Hfd by (by apply Forall_drop).
    rewrite read_groups_fmt; [|rewrite length_take; lia|done|apply group_stop_colons|].
    2: { by rewrite !str_mem_app, !fmt_nodot. }
    rewrite length_take, Nat.min_l by lia.
    assert (start =? 8 = false) as -> by (apply Nat.eqb_neq; lia).
    change ("::" +:+ fmt_subslice 0 (drop (start + len) a))
      with (String ch_colon (String ch_colon (fmt_subslice 0 (drop (start + len) a)))).
    do 2 (rewrite read_given_char_eq; cbn [mbind option_bind]).
    rewrite <- (str_app_nil_r (fmt_subslice 0 (drop (start + len) a))).
    rewrite read_groups_fmt; [|rewrite length_drop; lia|done|by left|].
    2: { by rewrite str_mem_app, fmt_nodot. }
    rewrite length_drop. cbn. rewrite Hl. replace (8 - start - (8 - (start + len))) with len by lia. by rewrite <- Ha.
  - rewrite <- (str_app_nil_r (fmt_subslice 0 a)).
    rewrite read_groups_fmt; [|lia|done|by left|].
    2: { by rewrite str_mem_app, fmt_nodot. }
    by rewrite Hl.
Qed.
