(* ===== verification/Dns.v ===== *)
(** * Dns: the provider-neutral DNS contract

    [crates/center-core/src/cloud/dns.rs], with the identifier macro and the
    enumerations of [cloud.rs] it uses.  Names and opaque identifiers are
    newtypes over strings that passed their constructor and are represented by
    the string; [idna::domain_to_ascii] is a parameter.  The file holds the
    record-set model with its validation, the change batch with its guards and
    the Route 53 routing groups, receipts and pages. *)

From Stdlib Require Import ZArith Ascii String Lia.
From S2P Require Import Prelude Text Core BTree NetAddr.

(** ** Identifiers and opaque text *)

Definition MAX_OPAQUE_ID_LEN : Z := 512.
Definition MAX_PAGE_TOKEN_LEN : Z := 4096.
Definition MAX_PAGE_SIZE : Z := 1000.
Definition MAX_CHANGES : Z := 1000.
Definition MAX_TXT_SEGMENTS : Z := 64.
Definition MAX_TXT_TOTAL_BYTES : Z := 4096.
Definition MAX_TTL_SECONDS : Z := I32_MAX.

Definition text_invalid (max_len : Z) (value : string) : bool :=
  is_empty value || (max_len <? str_len value)%Z
  || negb (String.eqb (str_trim value) value) || has_control value.

Definition validate_text (value kind : string) (max_len : Z) : CoreResult () :=
  if text_invalid max_len value then Err (Conflict (kind +:+ " is invalid")) else Ok tt.

(** The [opaque_id!] macro: [new] keeps the value, [validate] repeats the check. *)
Definition opaque_id_new (kind : string) (max : Z) (value : string) : CoreResult string :=
  let? _ := validate_text value kind max in Ok value.
Definition opaque_id_validate (kind : string) (max : Z) (value : string) : CoreResult () :=
  let? _ := opaque_id_new kind max value in Ok tt.

Definition DnsZoneId_new := opaque_id_new "DNS zone ID" MAX_OPAQUE_ID_LEN.
Definition DnsZoneId_validate := opaque_id_validate "DNS zone ID" MAX_OPAQUE_ID_LEN.
Definition DnsRecordObjectId_new := opaque_id_new "DNS record object ID" MAX_OPAQUE_ID_LEN.
Definition DnsRecordObjectId_validate :=
  opaque_id_validate "DNS record object ID" MAX_OPAQUE_ID_LEN.
Definition DnsRecordRevision_new := opaque_id_new "DNS record revision" MAX_OPAQUE_ID_LEN.
Definition DnsRecordRevision_validate :=
  opaque_id_validate "DNS record revision" MAX_OPAQUE_ID_LEN.
Definition DnsChangeId_new := opaque_id_new "DNS change ID" MAX_OPAQUE_ID_LEN.
Definition DnsChangeId_validate := opaque_id_validate "DNS change ID" MAX_OPAQUE_ID_LEN.
Definition DnsPageToken_new := opaque_id_new "DNS page token" MAX_PAGE_TOKEN_LEN.
Definition DnsPageToken_validate := opaque_id_validate "DNS page token" MAX_PAGE_TOKEN_LEN.
Definition Route53HealthCheckId_new := opaque_id_new "Route 53 health check ID" 64.
Definition Route53HealthCheckId_validate := opaque_id_validate "Route 53 health check ID" 64.

(** The [identifier!] macro of [cloud.rs] for [CloudResourceId]. *)
Definition CloudResourceId_new (value : string) : CoreResult string :=
  if text_invalid 512 value then Err (InvalidIdentifier "cloud resource" value) else Ok value.
Definition CloudResourceId_validate (value : string) : CoreResult () :=
  let? _ := CloudResourceId_new value in Ok tt.

Inductive CloudProvider := Cloudflare | Aws.
#[export] Instance CloudProvider_eq_dec : EqDecision CloudProvider.
Proof. solve_decision. Defined.
Inductive ZoneVisibility := Public | Private.
#[export] Instance ZoneVisibility_eq_dec : EqDecision ZoneVisibility.
Proof. solve_decision. Defined.

(** ** Names *)

(** The [idna] crate's [domain_to_ascii] on one label. *)
Class Idna := domain_to_ascii : string → option string.

(** What it documents: UTS #46 ToASCII maps to lower case and is idempotent. *)
Class IdnaLaws `{Idna} := {
  idna_lower (s t : string) : domain_to_ascii s = Some t → to_ascii_lowercase t = t;
  idna_idempotent (s t : string) : domain_to_ascii s = Some t → domain_to_ascii t = Some t;
}.

Definition ldh (c : ascii) : bool := is_ascii_alphanumeric c || Ascii.eqb c ch_dash.
Definition ldh_underscore (c : ascii) : bool := ldh c || Ascii.eqb c ch_underscore.

(** The conditions that [normalize_name] rejects in an owner or IDNA label. *)
Definition label_invalid (p : ascii → bool) (label : string) : bool :=
  is_empty label || (63 <? str_len label)%Z
  || starts_with_char ch_dash label || ends_with_char ch_dash label
  || negb (str_all p label).

Section names.
Context `{Idna}.

Definition normalize_label (allow_underscore allow_wildcard : bool) (index : nat) (label : string) :
    CoreResult string :=
  if String.eqb label "*" && allow_wildcard && (index =? 0) then Ok "*"
  else if str_mem ch_underscore label then
    if negb allow_underscore || label_invalid ldh_underscore label
    then Err (Conflict "DNS owner label is invalid")
    else Ok (to_ascii_lowercase label)
  else
    let? ascii := ok_or (Conflict "DNS IDNA label is invalid") (domain_to_ascii label) in
    let ascii := to_ascii_lowercase ascii in
    if label_invalid ldh ascii then Err (Conflict "DNS label is invalid") else Ok ascii.

Fixpoint normalize_labels (allow_underscore allow_wildcard : bool) (index : nat)
    (labels : list string) : CoreResult (list string) :=
  match labels with
  | [] => Ok []
  | label :: labels =>
      let? normalized := normalize_label allow_underscore allow_wildcard index label in
      let? rest := normalize_labels allow_underscore allow_wildcard (S index) labels in
      Ok (normalized :: rest)
  end.

Definition normalize_name (value : string) (allow_underscore allow_wildcard : bool) :
    CoreResult string :=
  let value := default value (strip_suffix_char ch_dot value) in
  if is_empty value || ends_with_char ch_dot value then Err (Conflict "DNS name is invalid")
  else
    let? labels := normalize_labels allow_underscore allow_wildcard 0 (str_split ch_dot value) in
    let normalized := join_with ch_dot labels in
    if (253 <? str_len normalized)%Z then Err (Conflict "DNS name is too long") else Ok normalized.

Definition AbsoluteDnsName_new (value : string) : CoreResult string :=
  normalize_name value false false.
Definition DnsOwnerName_new (value : string) : CoreResult string := normalize_name value true true.
End names.

(** [fqdn] of either kind of name. *)
Definition fqdn (name : string) : string := name +:+ ".".

Definition is_within (owner apex : string) : bool :=
  String.eqb owner apex || ends_with (String ch_dot apex) owner.

(** ** Zones *)

Record DnsZoneRef := {
  zr_provider_account_id : string;
  zr_provider : CloudProvider;
  zr_zone_id : string;
  zr_apex : string;
  zr_visibility : ZoneVisibility;
}.
#[export] Instance DnsZoneRef_eq_dec : EqDecision DnsZoneRef.
Proof. solve_decision. Defined.

Definition DnsZoneRef_validate (z : DnsZoneRef) : CoreResult () :=
  let? _ := CloudResourceId_validate (zr_provider_account_id z) in
  DnsZoneId_validate (zr_zone_id z).

Record ObservedDnsZone := {
  oz_zone : DnsZoneRef;
  oz_revision : option string;
}.
#[export] Instance ObservedDnsZone_eq_dec : EqDecision ObservedDnsZone.
Proof. solve_decision. Defined.

(** [if let Some(x) = o { x.validate()?; }]. *)
Definition validate_option {A} (v : A → CoreResult ()) (o : option A) : CoreResult () :=
  match o with Some a => v a | None => Ok tt end.
(** [for x in xs { x.validate()?; }]. *)
Fixpoint validate_all {A} (v : A → CoreResult ()) (xs : list A) : CoreResult () :=
  match xs with
  | [] => Ok tt
  | x :: xs => let? _ := v x in validate_all v xs
  end.

Definition ObservedDnsZone_validate (z : ObservedDnsZone) : CoreResult () :=
  let? _ := DnsZoneRef_validate (oz_zone z) in
  validate_option DnsRecordRevision_validate (oz_revision z).

(** ** Record data *)

Inductive ProviderDnsRecordType := TA | TAaaa | TCname | TTxt | TMx | TSrv | TCaa | TNs | TSoa.
#[export] Instance ProviderDnsRecordType_eq_dec : EqDecision ProviderDnsRecordType.
Proof. solve_decision. Defined.
Definition type_index (t : ProviderDnsRecordType) : Z :=
  match t with
  | TA => 0 | TAaaa => 1 | TCname => 2 | TTxt => 3 | TMx => 4 | TSrv => 5 | TCaa => 6
  | TNs => 7 | TSoa => 8
  end.

(** A [DnsCharacterString] is the list of its octets. *)
Definition DnsCharacterString_new (value : list Z) : CoreResult (list Z) :=
  if (255 <? zlen value)%Z
  then Err (Conflict "DNS character-string cannot exceed 255 octets") else Ok value.
Definition DnsCharacterString_validate (value : list Z) : CoreResult () :=
  let? _ := DnsCharacterString_new value in Ok tt.

Definition total_bytes (segments : list (list Z)) : Z :=
  foldr (λ segment n, (zlen segment + n)%Z) 0%Z segments.
Definition DnsTxtValue_new (segments : list (list Z)) : CoreResult (list (list Z)) :=
  if (zlen segments =? 0)%Z || (MAX_TXT_SEGMENTS <? zlen segments)%Z
     || (MAX_TXT_TOTAL_BYTES <? total_bytes segments)%Z
  then Err (Conflict "DNS TXT value is too large") else Ok segments.
Definition DnsTxtValue_validate (segments : list (list Z)) : CoreResult () :=
  let? _ := validate_all DnsCharacterString_validate segments in
  let? _ := DnsTxtValue_new segments in Ok tt.

Definition CaaTag_new (value : string) : CoreResult string :=
  let value := to_ascii_lowercase value in
  if is_empty value || (15 <? str_len value)%Z
     || negb (is_some_and is_ascii_alphanumeric (str_head value))
     || negb (is_some_and is_ascii_alphanumeric (str_last value))
     || negb (str_all ldh value)
  then Err (Conflict "CAA tag is invalid") else Ok value.
Definition CaaTag_validate (tag : string) : CoreResult () :=
  let? canonical := CaaTag_new tag in
  if String.eqb canonical tag then Ok tt else Err (Conflict "CAA tag is not canonical").

Inductive DnsRecordSetValue :=
| VA (address : Ipv4Addr)
| VAaaa (address : Ipv6Addr)
| VCname (target : string)
| VTxt (value : list (list Z))
| VMx (preference : Z) (exchange : string)
| VSrv (priority weight port : Z) (target : string)
| VCaa (flags : Z) (tag : string) (value : list Z)
| VNs (target : string)
| VSoa (primary_name_server responsible_mailbox : string)
       (serial refresh retry expire minimum : Z).
#[export] Instance DnsRecordSetValue_eq_dec : EqDecision DnsRecordSetValue.
Proof. solve_decision. Defined.

Definition record_type (v : DnsRecordSetValue) : ProviderDnsRecordType :=
  match v with
  | VA _ => TA | VAaaa _ => TAaaa | VCname _ => TCname | VTxt _ => TTxt | VMx _ _ => TMx
  | VSrv _ _ _ _ => TSrv | VCaa _ _ _ => TCaa | VNs _ => TNs | VSoa _ _ _ _ _ _ _ => TSoa
  end.

(** The derived [Ord]: the variant, then the fields in order. *)
Definition value_rank (v : DnsRecordSetValue) : Z * list (list Z) :=
  (type_index (record_type v),
   match v with
   | VA a | VAaaa a => [a]
   | VCname t | VNs t => [str_bytes t]
   | VTxt segments => segments
   | VMx p e => [[p]; str_bytes e]
   | VSrv p w o t => [[p]; [w]; [o]; str_bytes t]
   | VCaa f t v => [[f]; str_bytes t; v]
   | VSoa p r a b c d e => [str_bytes p; str_bytes r; [a]; [b]; [c]; [d]; [e]]
   end).
#[export] Instance value_rank_inj : Inj (=) (=) value_rank.
Proof.
  intros v w. unfold value_rank. destruct v, w; intros [=]; simplify_eq/=; try done;
    repeat match goal with H : str_bytes _ = str_bytes _ |- _ => apply str_bytes_inj in H end;
    by subst.
Qed.
#[export] Instance value_ord : Ord DnsRecordSetValue := λ v w, cmp (value_rank v) (value_rank w).
#[export] Instance value_ord_laws : OrdLaws DnsRecordSetValue.
Proof. exact (ord_via_laws value_rank _). Qed.

Definition DnsRecordSetValue_validate (v : DnsRecordSetValue) : CoreResult () :=
  match v with
  | VTxt value => DnsTxtValue_validate value
  | VCaa _ tag value =>
      let? _ := CaaTag_validate tag in DnsCharacterString_validate value
  | _ => Ok tt
  end.

(** ** Record identity *)

Inductive DnsRoutingIdentity := RSimple | RRoute53 (set_identifier : string).
#[export] Instance DnsRoutingIdentity_eq_dec : EqDecision DnsRoutingIdentity.
Proof. solve_decision. Defined.

Record DnsRecordSetKey := mkKey {
  key_owner : string;
  key_record_type : ProviderDnsRecordType;
  key_routing : DnsRoutingIdentity;
}.
#[export] Instance DnsRecordSetKey_eq_dec : EqDecision DnsRecordSetKey.
Proof. solve_decision. Defined.

Definition key_rank (k : DnsRecordSetKey) : string * (Z * option string) :=
  (key_owner k, (type_index (key_record_type k),
    match key_routing k with RSimple => None | RRoute53 s => Some s end)).
#[export] Instance key_rank_inj : Inj (=) (=) key_rank.
Proof. intros [o t r] [o' t' r']. unfold key_rank. simpl. by destruct t, t', r, r'; intros [=]; subst. Qed.
#[export] Instance key_ord : Ord DnsRecordSetKey := λ k l, cmp (key_rank k) (key_rank l).
#[export] Instance key_ord_laws : OrdLaws DnsRecordSetKey.
Proof. exact (ord_via_laws key_rank _). Qed.

Definition DnsRecordSetKey_validate (k : DnsRecordSetKey) : CoreResult () :=
  match key_routing k with
  | RRoute53 set_identifier => validate_text set_identifier "Route 53 set identifier" 128
  | RSimple => Ok tt
  end.

Inductive DnsTtl := Automatic | Inherited | Seconds (seconds : Z).
#[export] Instance DnsTtl_eq_dec : EqDecision DnsTtl.
Proof. solve_decision. Defined.

(** ** Provider extensions *)

Inductive CloudflareProxyOptions := DnsOnly | Proxied.
#[export] Instance CloudflareProxyOptions_eq_dec : EqDecision CloudflareProxyOptions.
Proof. solve_decision. Defined.
Inductive CloudflareCnameFlattening := ProviderDefault | Flatten | DoNotFlatten.
#[export] Instance CloudflareCnameFlattening_eq_dec : EqDecision CloudflareCnameFlattening.
Proof. solve_decision. Defined.

Record Route53AliasTarget := {
  alias_zone_id : string;
  alias_target_name : string;
  alias_evaluate_target_health : bool;
}.
#[export] Instance Route53AliasTarget_eq_dec : EqDecision Route53AliasTarget.
Proof. solve_decision. Defined.

Inductive Route53FailoverRole := Primary | Secondary.
#[export] Instance Route53FailoverRole_eq_dec : EqDecision Route53FailoverRole.
Proof. solve_decision. Defined.

Inductive Route53GeoLocation :=
| GeoDefault
| GeoContinent (code : string)
| GeoCountry (code : string)
| GeoUsSubdivision (code : string).
#[export] Instance Route53GeoLocation_eq_dec : EqDecision Route53GeoLocation.
Proof. solve_decision. Defined.

Definition str_in (s : string) (l : list string) : bool := bool_decide (s ∈ l).
Definition CONTINENTS : list string := ["AF"; "AN"; "AS"; "EU"; "OC"; "NA"; "SA"].

Definition Route53GeoLocation_validate (location : Route53GeoLocation) : CoreResult () :=
  let invalid := Err (Conflict "Route 53 geolocation selector is invalid") in
  match location with
  | GeoDefault => Ok tt
  | GeoContinent code => if str_in code CONTINENTS then Ok tt else invalid
  | GeoCountry code | GeoUsSubdivision code =>
      if (str_len code =? 2)%Z && str_all is_ascii_uppercase code then Ok tt else invalid
  end.

Definition geo_identity (location : Route53GeoLocation) : string :=
  match location with
  | GeoDefault => "default"
  | GeoContinent code => "continent:" +:+ code
  | GeoCountry code => "country:" +:+ code
  | GeoUsSubdivision code => "us-subdivision:" +:+ code
  end.

Inductive Route53RoutingPolicy :=
| Weighted (weight : Z)
| Failover (role : Route53FailoverRole)
| Latency (region : string)
| Geolocation (location : Route53GeoLocation)
| Multivalue.
#[export] Instance Route53RoutingPolicy_eq_dec : EqDecision Route53RoutingPolicy.
Proof. solve_decision. Defined.

Definition Route53RoutingPolicy_validate (p : Route53RoutingPolicy) : CoreResult () :=
  match p with
  | Latency region => validate_text region "Route 53 latency region" 64
  | Geolocation location => Route53GeoLocation_validate location
  | _ => Ok tt
  end.

Inductive DnsRecordExtension :=
| ExtCloudflare (proxy : option CloudflareProxyOptions)
    (cname_flattening : CloudflareCnameFlattening) (comment : option string) (tags : list string)
| ExtRoute53 (alias_target : option Route53AliasTarget)
    (routing_policy : option Route53RoutingPolicy) (health_check_id : option string).
#[export] Instance DnsRecordExtension_eq_dec : EqDecision DnsRecordExtension.
Proof. solve_decision. Defined.

Definition valid_cloudflare_tag (tag : string) : bool :=
  if is_empty tag || (133 <? char_count tag)%Z || has_control tag then false
  else match split_once ch_colon tag with
       | None => false
       | Some (name, value) =>
           negb (is_empty name) && (char_count name <=? 32)%Z && (char_count value <=? 100)%Z
           && str_all ldh_underscore name
       end.

(** A validated tag has a colon, so the [expect] of the source is never reached. *)
Definition tag_name (tag : string) : string :=
  match split_once ch_colon tag with Some (name, _) => to_ascii_lowercase name | None => "" end.

Definition valid_cloudflare_tags (tags : list string) : bool :=
  if (20 <? zlen tags)%Z || existsb (λ tag, negb (valid_cloudflare_tag tag)) tags then false
  else (zlen (bts_of_list (map tag_name tags)) =? zlen tags)%Z.

(** ** Record sets *)

Record ProviderDnsRecordSet := mkRecordSet {
  rs_key : DnsRecordSetKey;
  rs_ttl : DnsTtl;
  rs_values : list DnsRecordSetValue;      (* BTreeSet *)
  rs_extension : option DnsRecordExtension;
}.
#[export] Instance ProviderDnsRecordSet_eq_dec : EqDecision ProviderDnsRecordSet.
Proof. solve_decision. Defined.

Definition rs_owner (r : ProviderDnsRecordSet) : string := key_owner (rs_key r).
Definition rs_type (r : ProviderDnsRecordSet) : ProviderDnsRecordType := key_record_type (rs_key r).

Definition routing_policy_of (r : ProviderDnsRecordSet) : option Route53RoutingPolicy :=
  match rs_extension r with Some (ExtRoute53 _ policy _) => policy | _ => None end.
Definition alias_of (r : ProviderDnsRecordSet) : option Route53AliasTarget :=
  match rs_extension r with Some (ExtRoute53 alias _ _) => alias | _ => None end.
Definition health_of (r : ProviderDnsRecordSet) : option string :=
  match rs_extension r with Some (ExtRoute53 _ _ health) => health | _ => None end.

Definition type_in (t : ProviderDnsRecordType) (l : list ProviderDnsRecordType) : bool :=
  bool_decide (t ∈ l).
Definition proxiable : list ProviderDnsRecordType := [TA; TAaaa; TCname].

Definition route53_alias (r : ProviderDnsRecordSet) : bool :=
  match rs_extension r with Some (ExtRoute53 (Some _) _ _) => true | _ => false end.

(** Values and TTL of an alias, and of an ordinary record set. *)
Definition validate_shape (r : ProviderDnsRecordSet) : CoreResult () :=
  let count := zlen (rs_values r) in
  if route53_alias r then
    if negb (count =? 0)%Z || negb (bool_decide (rs_ttl r = Inherited))
       || negb (type_in (rs_type r) [TA; TAaaa; TCname; TTxt; TMx; TSrv; TCaa])
    then Err (Conflict "provider alias values, type, or TTL are invalid") else Ok tt
  else
    if (count =? 0)%Z || bool_decide (rs_ttl r = Inherited)
    then Err (Conflict "ordinary DNS record sets require values and a TTL")
    else if existsb (λ v, negb (bool_decide (record_type v = rs_type r))) (rs_values r)
    then Err (Conflict "DNS record value does not match its record type")
    else
      let? _ := validate_all DnsRecordSetValue_validate (rs_values r) in
      if bool_decide (rs_type r = TCname) && negb (count =? 1)%Z
      then Err (Conflict "CNAME record sets require exactly one value")
      else if bool_decide (rs_type r = TSoa) && negb (count =? 1)%Z
      then Err (Conflict "SOA record sets require exactly one value")
      else Ok tt.

Definition validate_cloudflare_extension (zone : DnsZoneRef) (r : ProviderDnsRecordSet)
    (proxy : option CloudflareProxyOptions) (flattening : CloudflareCnameFlattening)
    (comment : option string) (tags : list string) : CoreResult () :=
  let proxied := bool_decide (proxy = Some Proxied) in
  if negb (bool_decide (zr_provider zone = Cloudflare))
     || negb (bool_decide (key_routing (rs_key r) = RSimple))
     || bool_decide (rs_ttl r = Inherited)
     || negb (eqb (type_in (rs_type r) proxiable) (bool_decide (is_Some proxy)))
     || bool_decide (rs_type r = TSoa)
  then Err (Conflict "Cloudflare proxy options are invalid for this record set")
  else if proxied && negb (bool_decide (rs_ttl r = Automatic))
  then Err (Conflict "proxied Cloudflare records require automatic TTL")
  else if match rs_ttl r with
          | Seconds seconds => negb ((30 <=? seconds)%Z && (seconds <=? 86400)%Z)
          | _ => false
          end
  then Err (Conflict "Cloudflare DNS TTL is outside the provider range")
  else if negb (bool_decide (rs_type r = TCname))
          && negb (bool_decide (flattening = ProviderDefault))
  then Err (Conflict "Cloudflare CNAME flattening applies only to CNAME records")
  else if proxied && negb (bool_decide (flattening = ProviderDefault))
  then Err (Conflict "proxied Cloudflare CNAME records cannot override flattening")
  else if bool_decide (rs_type r = TCname) && String.eqb (rs_owner r) (zr_apex zone)
          && bool_decide (flattening = DoNotFlatten)
  then Err (Conflict "Cloudflare zone-apex CNAME records are always flattened")
  else if is_some_and (λ value, (500 <? char_count value)%Z || has_control value) comment
          || negb (valid_cloudflare_tags tags)
  then Err (Conflict "Cloudflare DNS record metadata is invalid")
  else Ok tt.

Definition validate_route53_extension (zone : DnsZoneRef) (r : ProviderDnsRecordSet)
    (alias : option Route53AliasTarget) (policy : option Route53RoutingPolicy)
    (health : option string) : CoreResult () :=
  if negb (bool_decide (zr_provider zone = Aws))
  then Err (Conflict "Route 53 extension requires an AWS provider account")
  else
    let? _ := validate_option (λ target, DnsZoneId_validate (alias_zone_id target)) alias in
    let? _ := validate_option Route53HealthCheckId_validate health in
    let? _ := validate_option Route53RoutingPolicy_validate policy in
    if negb match key_routing (rs_key r), policy with
            | RSimple, None => bool_decide (is_Some alias) || bool_decide (is_Some health)
            | RRoute53 _, Some _ => true
            | _, _ => false
            end
    then Err (Conflict "Route 53 routing identity, policy, and alias are inconsistent")
    else if bool_decide (is_Some policy) && type_in (rs_type r) [TNs; TSoa]
    then Err (Conflict "Route 53 routed records cannot use NS or SOA")
    else if bool_decide (policy = Some Multivalue)
            && (bool_decide (is_Some alias) || type_in (rs_type r) [TCname; TNs; TSoa])
    then Err (Conflict "Route 53 multivalue record type or alias is unsupported")
    else if match policy with Some (Weighted _ | Latency _) => true | _ => false end
            && negb (bool_decide (is_Some alias)) && negb (zlen (rs_values r) =? 1)%Z
    then Err (Conflict "Route 53 weighted and latency records require one value")
    else if match policy with Some (Failover _) => true | _ => false end
            && is_some_and (λ target, negb (alias_evaluate_target_health target)) alias
    then Err (Conflict "Route 53 failover aliases must evaluate target health")
    else Ok tt.

Definition validate_no_extension (zone : DnsZoneRef) (r : ProviderDnsRecordSet) : CoreResult () :=
  if bool_decide (zr_provider zone = Cloudflare) && type_in (rs_type r) proxiable
  then Err (Conflict
    "Cloudflare proxiable records require explicit DNS-only or proxied intent")
  else if bool_decide (rs_ttl r = Automatic)
  then Err (Conflict "automatic DNS TTL requires an explicit provider extension")
  else if bool_decide (rs_type r = TCname) && String.eqb (rs_owner r) (zr_apex zone)
  then Err (Conflict "portable CNAME records cannot target the zone apex")
  else if match key_routing (rs_key r) with RRoute53 _ => true | RSimple => false end
  then Err (Conflict "Route 53 routing identity requires a typed routing policy")
  else Ok tt.

Definition ProviderDnsRecordSet_validate (r : ProviderDnsRecordSet) (zone : DnsZoneRef) :
    CoreResult () :=
  let? _ := DnsZoneRef_validate zone in
  let? _ := DnsRecordSetKey_validate (rs_key r) in
  if negb (is_within (rs_owner r) (zr_apex zone))
  then Err (Conflict "DNS record owner is outside the managed zone")
  else if match rs_ttl r with Seconds seconds => (MAX_TTL_SECONDS <? seconds)%Z | _ => false end
  then Err (Conflict "DNS TTL is invalid")
  else if bool_decide (zr_provider zone = Aws)
          && ((bool_decide (rs_type r = TNs) && starts_with "*." (rs_owner r))
              || (bool_decide (rs_type r = TCname) && String.eqb (rs_owner r) (zr_apex zone)))
  then Err (Conflict "Route 53 wildcard NS and zone-apex CNAME records are unsupported")
  else
    let? _ := validate_shape r in
    match rs_extension r with
    | Some (ExtCloudflare proxy flattening comment tags) =>
        validate_cloudflare_extension zone r proxy flattening comment tags
    | Some (ExtRoute53 alias policy health) => validate_route53_extension zone r alias policy health
    | None => validate_no_extension zone r
    end.

Definition validate_for_observed_zone (r : ProviderDnsRecordSet) (zone : ObservedDnsZone) :
    CoreResult () :=
  let? _ := ObservedDnsZone_validate zone in
  ProviderDnsRecordSet_validate r (oz_zone zone).

Record ObservedDnsRecordSet := mkObserved {
  ob_zone : DnsZoneRef;
  ob_record_set : ProviderDnsRecordSet;
  ob_provider_object_ids : list string;    (* BTreeSet *)
  ob_revision : string;
}.
#[export] Instance ObservedDnsRecordSet_eq_dec : EqDecision ObservedDnsRecordSet.
Proof. solve_decision. Defined.

Definition ObservedDnsRecordSet_validate (o : ObservedDnsRecordSet) : CoreResult () :=
  let? _ := ProviderDnsRecordSet_validate (ob_record_set o) (ob_zone o) in
  let? _ := DnsRecordRevision_validate (ob_revision o) in
  validate_all DnsRecordObjectId_validate (ob_provider_object_ids o).

(** Text of graphic ASCII characters is admitted. *)
Lemma graphic_text max s :
  str_all graphic s = true → s ≠ "" → (str_len s <= max)%Z → text_invalid max s = false.
Proof.
  intros Hg Hne Hl%Z.ltb_ge. unfold text_invalid.
  rewrite Hl, str_trim_graphic, String.eqb_refl, has_control_graphic by done. by destruct s.
Qed.
Lemma graphic_id kind max s :
  str_all graphic s = true → s ≠ "" → (str_len s <= max)%Z → opaque_id_new kind max s = Ok s.
Proof. intros. unfold opaque_id_new, validate_text. by rewrite graphic_text. Qed.

(** ** Name lemmas *)

Definition lower_alnum_ok (p : ascii → bool) : bool :=
  forallb (λ c, implb (p c) (p (ascii_lower c))) all_bytes.

Lemma str_all_lower p s :
  lower_alnum_ok p = true → str_all p s = true → str_all p (to_ascii_lowercase s) = true.
Proof.
  intros Hp. induction s as [|c s IH]; [done|]. cbn [str_all to_ascii_lowercase].
  intros [Hc Hs]%andb_true_iff. rewrite IH, andb_true_r by done.
  exact (byte_implies p (λ c, p (ascii_lower c)) Hp c Hc).
Qed.

Lemma ascii_lower_idem c : ascii_lower (ascii_lower c) = ascii_lower c.
Proof.
  apply Ascii.eqb_eq.
  apply (byte_cases (λ c, Ascii.eqb (ascii_lower (ascii_lower c)) (ascii_lower c))). by vm_compute.
Qed.

Lemma lowercase_idem s : to_ascii_lowercase (to_ascii_lowercase s) = to_ascii_lowercase s.
Proof. induction s as [|c s IH]; [done|]. cbn [to_ascii_lowercase]. by rewrite IH, ascii_lower_idem. Qed.

Lemma lowercase_len s : str_len (to_ascii_lowercase s) = str_len s.
Proof.
  unfold str_len. induction s as [|c s IH]; [done|].
  cbn [to_ascii_lowercase String.length]. lia.
Qed.

(** Lower-casing moves no character that is not a letter. *)
Definition unmoved (x : ascii) : bool :=
  forallb (λ c, eqb (Ascii.eqb x (ascii_lower c)) (Ascii.eqb x c)) all_bytes.
Lemma unmoved_eqb x c : unmoved x = true → Ascii.eqb x (ascii_lower c) = Ascii.eqb x c.
Proof. intros Hx. pose proof (byte_cases _ Hx c) as H. by apply eqb_prop in H. Qed.

Lemma str_mem_lower x s : unmoved x = true → str_mem x (to_ascii_lowercase s) = str_mem x s.
Proof.
  intros Hx. induction s as [|c s IH]; [done|]. cbn [to_ascii_lowercase str_mem].
  by rewrite IH, unmoved_eqb.
Qed.
Lemma starts_with_lower x s :
  unmoved x = true → starts_with_char x (to_ascii_lowercase s) = starts_with_char x s.
Proof. intros Hx. destruct s as [|c s]; [done|]. by apply unmoved_eqb. Qed.
Lemma ends_with_lower x s :
  unmoved x = true → ends_with_char x (to_ascii_lowercase s) = ends_with_char x s.
Proof.
  intros Hx. unfold ends_with_char. induction s as [|c s IH]; [done|].
  destruct s as [|d s]; [by apply unmoved_eqb|].
  change (str_last (to_ascii_lowercase (String c (String d s))))
    with (str_last (to_ascii_lowercase (String d s))).
  change (str_last (String c (String d s))) with (str_last (String d s)). exact IH.
Qed.

Lemma label_invalid_lower p s :
  lower_alnum_ok p = true → label_invalid p s = false →
  label_invalid p (to_ascii_lowercase s) = false.
Proof.
  intros Hp. unfold label_invalid. rewrite !orb_false_iff. intros ((((He&Hl)&Hs)&Hd)&Ha).
  rewrite lowercase_len, starts_with_lower, ends_with_lower by (by vm_compute).
  apply negb_false_iff in Ha. rewrite str_all_lower by done. split_and!; try done. by destruct s.
Qed.

Lemma label_invalid_all p s : label_invalid p s = false → str_all p s = true.
Proof. unfold label_invalid. rewrite !orb_false_iff, negb_false_iff. tauto. Qed.
Lemma label_invalid_nonempty p s : label_invalid p s = false → s ≠ "".
Proof. unfold label_invalid. intros H ->. done. Qed.

(** The labels of a normalized name. *)
Definition label_ok (allow_underscore allow_wildcard : bool) (index : nat) (label : string) : Prop :=
  (label = "*" ∧ allow_wildcard = true ∧ index = 0)
  ∨ (label_invalid (if allow_underscore then ldh_underscore else ldh) label = false
     ∧ to_ascii_lowercase label = label).

Definition labels_ok (us wc : bool) (labels : list string) : Prop :=
  ∀ i l, labels !! i = Some l → label_ok us wc i l.

Lemma ldh_ldh_underscore s : label_invalid ldh s = false → label_invalid ldh_underscore s = false.
Proof.
  unfold label_invalid. rewrite !orb_false_iff, !negb_false_iff. intros (?&Ha).
  split; [done|]. eapply str_all_mono; [|done]. apply byte_implies. by vm_compute.
Qed.

Lemma label_ok_facts us wc i l : label_ok us wc i l → l ≠ "" ∧ str_mem ch_dot l = false.
Proof.
  intros [(->&_&_)|[Hi _]]; [done|]. split; [by eapply label_invalid_nonempty|].
  apply label_invalid_all in Hi. by eapply str_mem_all; [done|destruct us].
Qed.

Section name_laws.
Context `{IdnaLaws}.

Lemma normalize_label_spec us wc i label n :
  normalize_label us wc i label = Ok n →
  label_ok us wc i n ∧ normalize_label us wc i n = Ok n.
Proof.
  unfold normalize_label at 1. destruct (String.eqb label "*" && wc && (i =? 0)) eqn:Ew.
  { intros [= <-]. rewrite !andb_true_iff, Nat.eqb_eq in Ew. destruct Ew as [[_ ->] ->].
    split; [by left|done]. }
  destruct (str_mem ch_underscore label) eqn:Eu.
  - destruct us; [|done]. simpl. destruct (label_invalid ldh_underscore label) eqn:El; [done|].
    intros [= <-]. pose proof (label_invalid_lower ldh_underscore label eq_refl El) as Hl.
    split; [right; by rewrite lowercase_idem|]. unfold normalize_label.
    rewrite (str_mem_lower ch_underscore), Eu by (by vm_compute). simpl. rewrite Hl, lowercase_idem.
    destruct (String.eqb_spec (to_ascii_lowercase label) "*") as [E|]; [|done].
    by rewrite E in Hl.
  - destruct (domain_to_ascii label) as [a|] eqn:Ea; [|done]. simpl.
    rewrite (idna_lower _ _ Ea). destruct (label_invalid ldh a) eqn:El; [done|]. intros [= <-].
    pose proof (idna_lower _ _ Ea) as Hlow. split.
    { right. split; [|done]. destruct us; [by apply ldh_ldh_underscore|done]. }
    unfold normalize_label. rewrite (idna_idempotent _ _ Ea). simpl. rewrite Hlow, El.
    destruct (String.eqb_spec a "*") as [->|]; [done|]. simpl.
    by rewrite (str_mem_all ch_underscore ldh a (label_invalid_all _ _ El)).
Qed.

Lemma normalize_labels_spec us wc i labels ns :
  normalize_labels us wc i labels = Ok ns →
  length ns = length labels ∧ normalize_labels us wc i ns = Ok ns ∧
  ∀ j n, ns !! j = Some n → label_ok us wc (i + j) n.
Proof.
  revert i ns. induction labels as [|l labels IH]; intros i ns Hn; cbn [normalize_labels] in Hn.
  { injection Hn as <-. done. }
  destruct (normalize_label us wc i l) as [n|] eqn:El; [|done].
  destruct (normalize_labels us wc (S i) labels) as [rest|] eqn:Er; [|done].
  injection Hn as <-. apply normalize_label_spec in El as [Hok Hfix]. apply IH in Er as (Hlen&Hr&Ho).
  split_and!; [simpl; lia|cbn [normalize_labels]; by rewrite Hfix, Hr|].
  intros [|j] m; simpl; [intros [= <-]; by rewrite Nat.add_0_r|].
  intros Hj. apply Ho in Hj. by replace (i + S j) with (S i + j) by lia.
Qed.

Lemma join_last_not_dot xs :
  xs ≠ [] → (∀ x, x ∈ xs → x ≠ "" ∧ str_mem ch_dot x = false) →
  join_with ch_dot xs ≠ "" ∧ ends_with_char ch_dot (join_with ch_dot xs) = false.
Proof.
  intros Hne Hx. induction xs as [|x xs IH]; [done|]. destruct (Hx x ltac:(left)) as [Hxe Hxd].
  destruct xs as [|y xs].
  - split; [done|]. cbn [join_with]. apply not_true_iff_false. intros [t ->]%ends_with_char_last.
    rewrite str_mem_app in Hxd. by destruct (str_mem ch_dot t).
  - change (join_with ch_dot (x :: y :: xs)) with (x +:+ String ch_dot (join_with ch_dot (y :: xs))).
    destruct IH as [IHe IHd]; [done|intros z Hz; apply Hx; by right|].
    split; [by destruct x|]. apply not_true_iff_false. intros Ht.
    apply not_true_iff_false in IHd. apply IHd.
    unfold ends_with_char in *. rewrite str_last_app in Ht by done. cbn [str_last] in Ht.
    by destruct (join_with ch_dot (y :: xs)).
Qed.

(** A normalized name is canonical: it normalizes to itself, and so does its
    fully qualified form. *)
Lemma normalize_name_fixed v us wc n :
  normalize_name v us wc = Ok n →
  (normalize_name n us wc = Ok n ∧ normalize_name (fqdn n) us wc = Ok n) ∧
  (str_len n <= 253)%Z ∧ labels_ok us wc (str_split ch_dot n).
Proof.
  unfold normalize_name at 1. set (w := default v (strip_suffix_char ch_dot v)).
  destruct (is_empty w || ends_with_char ch_dot w) eqn:Ew; [done|].
  destruct (normalize_labels us wc 0 (str_split ch_dot w)) as [ns|] eqn:En; [|done].
  destruct (253 <? str_len (join_with ch_dot ns))%Z eqn:El; [done|]. intros [= <-].
  apply normalize_labels_spec in En as (Hlen&Hfix&Hok).
  assert (ns ≠ []) as Hne.
  { intros ->. apply (str_split_nonnil ch_dot w). by apply nil_length_inv. }
  assert (∀ x, x ∈ ns → x ≠ "" ∧ str_mem ch_dot x = false) as Hx.
  { intros x [j Hj]%list_elem_of_lookup. by apply Hok, label_ok_facts in Hj. }
  assert (str_split ch_dot (join_with ch_dot ns) = ns) as Hs.
  { apply str_split_join; [done|]. apply Forall_forall. intros x Hin. by apply Hx. }
  destruct (join_last_not_dot ns Hne Hx) as [Hj Hd].
  assert (is_empty (join_with ch_dot ns) = false) as He by (by destruct (join_with ch_dot ns)).
  split; [|split; [lia|by rewrite Hs]].
  unfold normalize_name, fqdn. rewrite strip_suffix_None by done.
  change "." with (String ch_dot ""). rewrite strip_suffix_app. simpl.
  rewrite He, Hd. simpl. by rewrite Hs, Hfix, El.
Qed.
End name_laws.

(** Containment compares whole labels. *)
Lemma is_within_labels owner apex :
  is_within owner apex = true ↔
  ∃ prefix, str_split ch_dot owner = prefix ++ str_split ch_dot apex.
Proof.
  unfold is_within. rewrite orb_true_iff, String.eqb_eq, ends_with_spec. split.
  - intros [->|[p ->]]; [by exists []|]. exists (str_split ch_dot p). apply str_split_app.
  - intros [prefix Hp]. destruct prefix as [|x prefix].
    { left. rewrite <- (join_with_split ch_dot owner), Hp. apply join_with_split. }
    right. exists (join_with ch_dot (x :: prefix)).
    rewrite <- (join_with_split ch_dot owner), Hp.
    pose proof (str_split_nonnil ch_dot apex) as Hn. pose proof (join_with_split ch_dot apex) as Ha.
    destruct (str_split ch_dot apex) as [|y ys]; [done|]. rewrite <- Ha.
    clear Hp Hn. revert x. induction prefix as [|z prefix IH]; intros x; [done|].
    change (join_with ch_dot ((x :: z :: prefix) ++ y :: ys))
      with (x +:+ String ch_dot (join_with ch_dot ((z :: prefix) ++ y :: ys))).
    rewrite IH. change (join_with ch_dot (x :: z :: prefix))
      with (x +:+ String ch_dot (join_with ch_dot (z :: prefix))).
    by rewrite str_app_assoc.
Qed.

(** ** Claims about names *)

(** The name constructors are projections onto canonical names: what
    [AbsoluteDnsName::new] or [DnsOwnerName::new] returns is returned unchanged
    when it is parsed again, with or without the trailing dot of [fqdn]; it has
    at most 253 bytes, and every label is lower case, at most 63 bytes of letters,
    digits and dashes (and underscores in an owner), neither begins nor ends
    with a dash, except for a wildcard as first label of an owner. *)
Theorem dns_name_canonical `{IdnaLaws} (value : string) (us wc : bool) (n : string) :
  normalize_name value us wc = Ok n →
  normalize_name n us wc = Ok n ∧ normalize_name (fqdn n) us wc = Ok n ∧
  (str_len n <= 253)%Z ∧ labels_ok us wc (str_split ch_dot n).
Proof. intros (Hf&Hl&Ho)%normalize_name_fixed. tauto. Qed.

(** A ToASCII that knows ASCII labels only. *)
Definition demo_idna : Idna := λ s, if str_all ldh s then Some (to_ascii_lowercase s) else None.

Lemma demo_idna_laws : @IdnaLaws demo_idna.
Proof.
  split; unfold domain_to_ascii, demo_idna; intros s t.
  - destruct (str_all ldh s); [|done]. intros [= <-]. apply lowercase_idem.
  - destruct (str_all ldh s) eqn:E; [|done]. intros [= <-].
    rewrite str_all_lower by (done || by vm_compute). by rewrite lowercase_idem.
Qed.

Lemma dns_name_canonical_witness :
  @normalize_name demo_idna "*._SIP.Example.COM." true true = Ok "*._sip.example.com" ∧
  @normalize_name demo_idna (fqdn "*._sip.example.com") true true = Ok "*._sip.example.com".
Proof.
  split; [reflexivity|].
  exact (proj1 (proj2 (@dns_name_canonical demo_idna demo_idna_laws "*._SIP.Example.COM." true true
    "*._sip.example.com" eq_refl))).
Defined.
