(* ===== verification/DnsChange.v ===== *)
(** * DnsChange: guarded change batches, receipts and pages

    The second half of [crates/center-core/src/cloud/dns.rs]: a change names
    the observation it was planned against, a batch is validated as a whole,
    and receipts and pages are checked on the way back.  The theorem on batches
    says what the loop of [validate_dns_changes] decides: it accepts exactly
    the batches that satisfy a declarative specification. *)

From Stdlib Require Import ZArith Ascii String Lia.
From S2P Require Import Prelude Text Core BTree NetAddr Dns.

(** ** Guards and changes *)

Inductive DnsMutationGuard := MustNotExist | MatchObserved (revision : string).
#[export] Instance DnsMutationGuard_eq_dec : EqDecision DnsMutationGuard.
Proof. solve_decision. Defined.

Definition DnsMutationGuard_validate (g : DnsMutationGuard) : CoreResult () :=
  match g with
  | MatchObserved revision => DnsRecordRevision_validate revision
  | MustNotExist => Ok tt
  end.

Inductive DnsGuardStrength := BestEffort | Atomic.
#[export] Instance DnsGuardStrength_eq_dec : EqDecision DnsGuardStrength.
Proof. solve_decision. Defined.
(** The derived order: [BestEffort < Atomic]. *)
Definition guard_lt (a b : DnsGuardStrength) : bool :=
  match a, b with BestEffort, Atomic => true | _, _ => false end.

Inductive DnsRecordChange :=
| CreateChange (record_set : ProviderDnsRecordSet) (guard : DnsMutationGuard)
| ReplaceChange (previous : ObservedDnsRecordSet) (desired : ProviderDnsRecordSet)
    (guard : DnsMutationGuard)
| DeleteChange (previous : ObservedDnsRecordSet) (guard : DnsMutationGuard).

Definition change_key (c : DnsRecordChange) : DnsRecordSetKey :=
  match c with
  | CreateChange record_set _ => rs_key record_set
  | ReplaceChange _ desired _ => rs_key desired
  | DeleteChange previous _ => rs_key (ob_record_set previous)
  end.

Definition desired_record_set (c : DnsRecordChange) : option ProviderDnsRecordSet :=
  match c with
  | CreateChange record_set _ => Some record_set
  | ReplaceChange _ desired _ => Some desired
  | DeleteChange _ _ => None
  end.
Definition desired_key (c : DnsRecordChange) : option DnsRecordSetKey :=
  match c with
  | CreateChange record_set _ => Some (rs_key record_set)
  | ReplaceChange _ desired _ => Some (rs_key desired)
  | DeleteChange _ _ => None
  end.

Definition require_exact_guard (guard : DnsMutationGuard) (expected : string) : CoreResult () :=
  match guard with
  | MatchObserved revision =>
      if String.eqb revision expected then Ok tt
      else Err (Conflict "DNS replacement and deletion require the exact observed revision")
  | MustNotExist =>
      Err (Conflict "DNS replacement and deletion require the exact observed revision")
  end.

Definition DnsRecordChange_validate (c : DnsRecordChange) (zone : DnsZoneRef) : CoreResult () :=
  match c with
  | CreateChange record_set guard =>
      let? _ := ProviderDnsRecordSet_validate record_set zone in
      let? _ := DnsMutationGuard_validate guard in
      if bool_decide (guard = MustNotExist) then Ok tt
      else Err (Conflict "DNS create requires a must-not-exist guard")
  | ReplaceChange previous desired guard =>
      let? _ := ObservedDnsRecordSet_validate previous in
      let? _ := ProviderDnsRecordSet_validate desired zone in
      let? _ := DnsMutationGuard_validate guard in
      if negb (bool_decide (ob_zone previous = zone))
         || negb (bool_decide (rs_key (ob_record_set previous) = rs_key desired))
      then Err (Conflict "DNS replacement must preserve zone and record identity")
      else require_exact_guard guard (ob_revision previous)
  | DeleteChange previous guard =>
      let? _ := ObservedDnsRecordSet_validate previous in
      let? _ := DnsMutationGuard_validate guard in
      if negb (bool_decide (ob_zone previous = zone))
      then Err (Conflict "DNS deletion targets a different zone")
      else require_exact_guard guard (ob_revision previous)
  end.

(** ** Route 53 routing groups *)

Inductive Route53RoutingFamily :=
| FSimple | FWeighted | FFailover | FLatency | FGeolocation | FMultivalue.
#[export] Instance Route53RoutingFamily_eq_dec : EqDecision Route53RoutingFamily.
Proof. solve_decision. Defined.

Record Route53GroupState := mkGroup {
  gr_family : Route53RoutingFamily;
  gr_explicit_ttl : option Z;
  gr_unique_members : list string;         (* BTreeSet *)
  gr_member_count : Z;
}.

#[export] Instance type_ord : Ord ProviderDnsRecordType := λ a b, cmp (type_index a) (type_index b).
#[export] Instance type_ord_laws : OrdLaws ProviderDnsRecordType.
Proof. apply (ord_via_laws type_index). by intros [] []. Qed.

Abbreviation GroupKey := (string * ProviderDnsRecordType)%type.
Definition group_key (r : ProviderDnsRecordSet) : GroupKey := (rs_owner r, rs_type r).

Definition role_debug (role : Route53FailoverRole) : string :=
  match role with Primary => "Primary" | Secondary => "Secondary" end.

(** The [match] on the extension: the routing family and the selector that has
    to be unique in the group. *)
Definition group_family (r : ProviderDnsRecordSet) : Route53RoutingFamily :=
  match routing_policy_of r with
  | Some (Weighted _) => FWeighted
  | Some (Failover _) => FFailover
  | Some (Latency _) => FLatency
  | Some (Geolocation _) => FGeolocation
  | Some Multivalue => FMultivalue
  | None => FSimple
  end.
Definition group_selector (r : ProviderDnsRecordSet) : option string :=
  match routing_policy_of r with
  | Some (Failover role) => Some (role_debug role)
  | Some (Latency region) => Some region
  | Some (Geolocation location) => Some (geo_identity location)
  | _ => None
  end.
Definition explicit_ttl (r : ProviderDnsRecordSet) : option Z :=
  match rs_ttl r with Seconds seconds => Some seconds | Automatic | Inherited => None end.

(** The TTL of the group after one more member, and its set of selectors. *)
Definition admit_ttl (existing new : option Z) : CoreResult (option Z) :=
  match new with
  | None => Ok existing
  | Some ttl =>
      match existing with
      | Some existing =>
          if (existing =? ttl)%Z then Ok (Some existing)
          else Err (Conflict "Edgion Route 53 routing groups require a consistent explicit TTL")
      | None => Ok (Some ttl)
      end
  end.
Definition admit_selector (unique_members : list string) (selector : option string) :
    CoreResult (list string) :=
  match selector with
  | None => Ok unique_members
  | Some member =>
      if bool_decide (member ∈ unique_members)
      then Err (Conflict "Route 53 routing group contains a duplicate selector")
      else Ok (bts_insert member unique_members)
  end.

Definition new_group (r : ProviderDnsRecordSet) : Route53GroupState :=
  mkGroup (group_family r) (explicit_ttl r) [] 0.

Definition admit_member (state : Route53GroupState) (r : ProviderDnsRecordSet) :
    CoreResult Route53GroupState :=
  if negb (bool_decide (gr_family state = group_family r))
  then Err (Conflict "Route 53 record sets cannot mix routing families")
  else
    let? ttl := admit_ttl (gr_explicit_ttl state) (explicit_ttl r) in
    let count := (gr_member_count state + 1)%Z in
    if bool_decide (gr_family state = FWeighted) && (100 <? count)%Z
    then Err (Conflict "Route 53 weighted routing groups cannot exceed 100 members")
    else
      let? members := admit_selector (gr_unique_members state) (group_selector r) in
      Ok (mkGroup (gr_family state) ttl members count).

Definition validate_route53_group_member (groups : list (GroupKey * Route53GroupState))
    (r : ProviderDnsRecordSet) : CoreResult (list (GroupKey * Route53GroupState)) :=
  let? state := admit_member (default (new_group r) (btm_get (group_key r) groups)) r in
  Ok (btm_insert (group_key r) state groups).

(** ** The batch *)

Record batch_state := mkBatch {
  ba_keys : list DnsRecordSetKey;                       (* BTreeSet *)
  ba_owners_and_types : list (string * bool);           (* BTreeSet *)
  ba_groups : list (GroupKey * Route53GroupState);      (* BTreeMap *)
}.

Definition is_cname_key (k : DnsRecordSetKey) : bool := bool_decide (key_record_type k = TCname).
Definition apex_delegation (zone : DnsZoneRef) (k : DnsRecordSetKey) : bool :=
  String.eqb (key_owner k) (zr_apex zone) && type_in (key_record_type k) [TNs; TSoa].

(** The group part of the body, for a change with or without a desired set. *)
Definition check_groups (zone : DnsZoneRef) (c : DnsRecordChange)
    (groups : list (GroupKey * Route53GroupState)) :
    CoreResult (list (GroupKey * Route53GroupState)) :=
  if bool_decide (zr_provider zone = Aws) then
    match desired_record_set c with
    | Some record_set => validate_route53_group_member groups record_set
    | None => Ok groups
    end
  else Ok groups.

(** The body of the loop over the changes. *)
Definition check_change (zone : DnsZoneRef) (c : DnsRecordChange) (s : batch_state) :
    CoreResult batch_state :=
  let? _ := DnsRecordChange_validate c zone in
  if apex_delegation zone (change_key c)
  then Err (Conflict "apex SOA and delegation NS changes require the zone lifecycle contract")
  else if bool_decide (change_key c ∈ ba_keys s)
  then Err (Conflict "DNS change batch contains a duplicate record identity")
  else
    let owners := match desired_key c with
                  | Some key => bts_insert (key_owner key, is_cname_key key) (ba_owners_and_types s)
                  | None => ba_owners_and_types s
                  end in
    let? groups := check_groups zone c (ba_groups s) in
    Ok (mkBatch (bts_insert (change_key c) (ba_keys s)) owners groups).

Fixpoint check_changes (zone : DnsZoneRef) (changes : list DnsRecordChange) (s : batch_state) :
    CoreResult batch_state :=
  match changes with
  | [] => Ok s
  | c :: changes => let? s := check_change zone c s in check_changes zone changes s
  end.

Definition validate_dns_changes (zone : DnsZoneRef) (changes : list DnsRecordChange) :
    CoreResult () :=
  let? _ := DnsZoneRef_validate zone in
  if (zlen changes =? 0)%Z || (MAX_CHANGES <? zlen changes)%Z
  then Err (Conflict "DNS change batch size is invalid")
  else
    let? s := check_changes zone changes (mkBatch [] [] []) in
    let owners := ba_owners_and_types s in
    if existsb (λ '(owner, cname), cname && bool_decide ((owner, false) ∈ owners)) owners
    then Err (Conflict "CNAME cannot coexist with another record type in one batch")
    else Ok tt.

(** ** Receipts *)

Inductive DnsBatchAtomicity := AllOrNothing | PerChange.
#[export] Instance DnsBatchAtomicity_eq_dec : EqDecision DnsBatchAtomicity.
Proof. solve_decision. Defined.
Inductive DnsPropagationState := PropUnknown | PropPending | ProviderReportedApplied.
#[export] Instance DnsPropagationState_eq_dec : EqDecision DnsPropagationState.
Proof. solve_decision. Defined.
Inductive DnsChangeState := ChangePending | ProviderCommitted | ChangeFailed | UnknownOutcomeState.
#[export] Instance DnsChangeState_eq_dec : EqDecision DnsChangeState.
Proof. solve_decision. Defined.

Record DnsChangeReceipt := mkReceipt {
  rc_id : string;
  rc_state : DnsChangeState;
  rc_submission_atomicity : DnsBatchAtomicity;
  rc_propagation : DnsPropagationState;
  rc_guard_strength : DnsGuardStrength;
}.

Definition DnsChangeReceipt_validate (r : DnsChangeReceipt) : CoreResult () :=
  let? _ := DnsChangeId_validate (rc_id r) in
  if bool_decide (rc_submission_atomicity r = PerChange)
  then Err (Conflict "per-change DNS submission requires explicit change outcomes")
  else match rc_state r with
       | ChangePending =>
           if bool_decide (rc_propagation r = ProviderReportedApplied)
           then Err (Conflict "pending DNS changes cannot report provider application")
           else Ok tt
       | ChangeFailed | UnknownOutcomeState =>
           if bool_decide (rc_propagation r = PropUnknown) then Ok tt
           else Err (Conflict "failed or unknown DNS changes cannot claim propagation state")
       | ProviderCommitted => Ok tt
       end.

Definition validate_against_request (r : DnsChangeReceipt) (minimum_guard : DnsGuardStrength) :
    CoreResult () :=
  let? _ := DnsChangeReceipt_validate r in
  if guard_lt (rc_guard_strength r) minimum_guard
  then Err (Conflict "DNS provider returned weaker concurrency protection than requested")
  else Ok tt.

(** ** Pages *)

Record DnsPageRequest := { pr_limit : Z; pr_token : option string }.

Definition DnsPageRequest_validate (p : DnsPageRequest) : CoreResult () :=
  if (pr_limit p =? 0)%Z || (MAX_PAGE_SIZE <? pr_limit p)%Z
  then Err (Conflict "DNS page size is invalid")
  else validate_option DnsPageToken_validate (pr_token p).

Record DnsPage (T : Type) := mkPage { pg_items : list T; pg_next : option string }.
Arguments mkPage {T} _ _.
Arguments pg_items {T} _.
Arguments pg_next {T} _.

Definition DnsPage_validate {T} (p : DnsPage T) (requested_limit : Z)
    (validate_item : T → CoreResult ()) : CoreResult () :=
  if (requested_limit =? 0)%Z || (MAX_PAGE_SIZE <? requested_limit)%Z
     || (requested_limit <? zlen (pg_items p))%Z
  then Err (Conflict "DNS response page size is invalid")
  else
    let? _ := validate_option DnsPageToken_validate (pg_next p) in
    validate_all validate_item (pg_items p).

(** ** What a batch has to satisfy *)

Definition members (g : GroupKey) (rs : list ProviderDnsRecordSet) : list ProviderDnsRecordSet :=
  base.filter (λ r, group_key r = g) rs.

(** A Route 53 group: one family, one explicit TTL, unique selectors, and at
    most a hundred weighted members. *)
Record group_ok (ms : list ProviderDnsRecordSet) : Prop := {
  go_family a b : a ∈ ms → b ∈ ms → group_family a = group_family b;
  go_ttl a b s t : a ∈ ms → b ∈ ms → explicit_ttl a = Some s → explicit_ttl b = Some t → s = t;
  go_selectors : NoDup (omap group_selector ms);
  go_weighted a : a ∈ ms → group_family a = FWeighted → (zlen ms <= 100)%Z;
}.

Definition desired_sets (changes : list DnsRecordChange) : list ProviderDnsRecordSet :=
  omap desired_record_set changes.

Record batch_ok (zone : DnsZoneRef) (changes : list DnsRecordChange) : Prop := {
  bo_zone : DnsZoneRef_validate zone = Ok tt;
  bo_size : (1 <= zlen changes <= MAX_CHANGES)%Z;
  bo_changes : Forall (λ c, DnsRecordChange_validate c zone = Ok tt) changes;
  bo_apex : Forall (λ c, apex_delegation zone (change_key c) = false) changes;
  bo_keys : NoDup (map change_key changes);
  bo_cname a b : a ∈ desired_sets changes → b ∈ desired_sets changes →
    rs_owner a = rs_owner b → rs_type a = TCname → rs_type b = TCname;
  bo_groups : zr_provider zone = Aws → ∀ g, group_ok (members g (desired_sets changes));
}.

(** *** Groups *)

Definition group_state (ms : list ProviderDnsRecordSet) : option Route53GroupState :=
  match ms with
  | [] => None
  | m :: _ => Some (mkGroup (group_family m) (head (omap explicit_ttl ms))
                (bts_of_list (omap group_selector ms)) (zlen ms))
  end.

Definition groups_rel (rs : list ProviderDnsRecordSet) (groups : list (GroupKey * Route53GroupState)) :
    Prop := ∀ g, btm_get g groups = group_state (members g rs).

Lemma members_snoc g rs r :
  members g (rs ++ [r]) = if decide (group_key r = g) then members g rs ++ [r] else members g rs.
Proof.
  unfold members. rewrite filter_app, filter_cons, filter_nil.
  destruct (decide (group_key r = g)); [done|]. by rewrite app_nil_r.
Qed.

Lemma group_ok_prefix ms ks : group_ok (ms ++ ks) → group_ok ms.
Proof.
  intros [Hf Ht Hs Hw]. split.
  - intros a b Ha Hb. apply Hf; apply elem_of_app; by left.
  - intros a b s t Ha Hb. apply Ht; apply elem_of_app; by left.
  - rewrite omap_app in Hs. by apply NoDup_app in Hs as [? _].
  - intros a Ha Hwa. assert (a ∈ ms ++ ks) as Ha' by (apply elem_of_app; by left).
    pose proof (Hw a Ha' Hwa) as H. unfold zlen in *. rewrite length_app in H. lia.
Qed.

Lemma group_ok_snoc ms r :
  group_ok ms →
  (∀ m, m ∈ ms → group_family m = group_family r) →
  (∀ m s t, m ∈ ms → explicit_ttl m = Some s → explicit_ttl r = Some t → s = t) →
  (∀ s, group_selector r = Some s → s ∉ omap group_selector ms) →
  (group_family r = FWeighted → (zlen ms + 1 <= 100)%Z) →
  group_ok (ms ++ [r]).
Proof.
  intros [Hf Ht Hs Hw] Hf' Ht' Hs' Hw'.
  assert (∀ a, a ∈ ms ++ [r] → a ∈ ms ∨ a = r) as Hin
    by (intros a; rewrite elem_of_app, list_elem_of_singleton; auto).
  split.
  - intros a b [Ha| ->]%Hin [Hb| ->]%Hin; [by apply Hf|by apply Hf'|symmetry; by apply Hf'|done].
  - intros a b s t [Ha| ->]%Hin [Hb| ->]%Hin Hsa Htb;
      [by eapply (Ht a b)|by eapply Ht'|symmetry; by eapply Ht'|congruence].
  - rewrite omap_app. apply NoDup_app. split_and!; [done| |].
    + intros s Hsm Hsr. simpl in Hsr. destruct (group_selector r) as [s'|]; [|set_solver].
      apply list_elem_of_singleton in Hsr as ->. by eapply Hs'.
    + simpl. destruct (group_selector r); [apply NoDup_singleton|apply NoDup_nil_2].
  - intros a [Ha| ->]%Hin Hwa; unfold zlen in *; rewrite length_app; simpl.
    + rewrite (Hf' a Ha) in Hwa. apply Hw' in Hwa. lia.
    + apply Hw' in Hwa. lia.
Qed.

Lemma head_omap_snoc {A B} (f : A → option B) l x :
  head (omap f (l ++ [x])) = match head (omap f l) with Some y => Some y | None => f x end.
Proof.
  rewrite omap_app. destruct (omap f l) as [|y k]; [|done]. simpl. by destruct (f x).
Qed.

Lemma head_omap_elem {A B} (f : A → option B) l y :
  head (omap f l) = Some y → ∃ a, a ∈ l ∧ f a = Some y.
Proof.
  intros Hh. destruct (omap f l) as [|z k] eqn:E; [done|]. simpl in Hh. simplify_eq.
  apply list_elem_of_omap. rewrite E. left.
Qed.

Lemma omap_nil_none {A B} (f : A → option B) l a : head (omap f l) = None → a ∈ l → f a = None.
Proof.
  intros Hh Ha. destruct (f a) as [b|] eqn:E; [|done]. exfalso.
  assert (b ∈ omap f l) as Hb by (apply list_elem_of_omap; eauto).
  destruct (omap f l); [set_solver|done].
Qed.

Lemma admit_ttl_Ok ms r :
  (∀ m s t, m ∈ ms → explicit_ttl m = Some s → explicit_ttl r = Some t → s = t) →
  admit_ttl (head (omap explicit_ttl ms)) (explicit_ttl r) = Ok (head (omap explicit_ttl (ms ++ [r]))).
Proof.
  intros Ht. rewrite head_omap_snoc. unfold admit_ttl.
  destruct (explicit_ttl r) as [t|] eqn:Er; destruct (head (omap explicit_ttl ms)) as [x|] eqn:Eh;
    try done. apply head_omap_elem in Eh as (a&Ha&Hx). rewrite (Ht a x t) by done. by rewrite Z.eqb_refl.
Qed.

Lemma admit_ttl_inv ms r v :
  (∀ a b s t, a ∈ ms → b ∈ ms → explicit_ttl a = Some s → explicit_ttl b = Some t → s = t) →
  admit_ttl (head (omap explicit_ttl ms)) (explicit_ttl r) = Ok v →
  ∀ m s t, m ∈ ms → explicit_ttl m = Some s → explicit_ttl r = Some t → s = t.
Proof.
  intros Hms Ha m s t Hm Hs Hr. rewrite Hr in Ha. unfold admit_ttl in Ha.
  destruct (head (omap explicit_ttl ms)) as [x|] eqn:Eh.
  - destruct (Z.eqb_spec x t) as [->|]; [|done]. apply head_omap_elem in Eh as (a&Hin&Hx).
    by eapply (Hms m a).
  - by rewrite (omap_nil_none _ _ m Eh Hm) in Hs.
Qed.

Lemma admit_selector_Ok ms r :
  (∀ s, group_selector r = Some s → s ∉ omap group_selector ms) →
  admit_selector (bts_of_list (omap group_selector ms)) (group_selector r) =
  Ok (bts_of_list (omap group_selector (ms ++ [r]))).
Proof.
  intros Hs. rewrite omap_app. unfold admit_selector. simpl.
  destruct (group_selector r) as [s|] eqn:Er; [|by rewrite app_nil_r].
  rewrite bool_decide_eq_false_2, bts_of_list_snoc; [done|].
  rewrite elem_of_bts_of_list. by apply Hs.
Qed.

Lemma admit_selector_inv ms sel v :
  admit_selector (bts_of_list (omap group_selector ms)) sel = Ok v →
  ∀ s, sel = Some s → s ∉ omap group_selector ms.
Proof.
  unfold admit_selector. intros Ha s ->. case_bool_decide as Hin; [done|].
  by rewrite elem_of_bts_of_list in Hin.
Qed.

Lemma group_snoc_facts ms r :
  group_ok (ms ++ [r]) →
  (∀ m, m ∈ ms → group_family m = group_family r) ∧
  (∀ m s t, m ∈ ms → explicit_ttl m = Some s → explicit_ttl r = Some t → s = t) ∧
  (∀ s, group_selector r = Some s → s ∉ omap group_selector ms) ∧
  (group_family r = FWeighted → (zlen ms + 1 <= 100)%Z).
Proof.
  intros [Hf Ht Hs Hw].
  assert (r ∈ ms ++ [r]) as Hr by (apply elem_of_app; right; by left).
  assert (∀ m, m ∈ ms → m ∈ ms ++ [r]) as Hin by (intros; apply elem_of_app; by left).
  split_and!.
  - intros m Hm. apply Hf; [by apply Hin|done].
  - intros m s t Hm. by apply Ht; [apply Hin|].
  - intros s Hsel Hsm. rewrite omap_app in Hs. apply NoDup_app in Hs as (_&Hs&_).
    apply (Hs s Hsm). simpl. rewrite Hsel. by left.
  - intros Hwr. pose proof (Hw r Hr Hwr) as H. unfold zlen in *. rewrite length_app in H.
    simpl in H. lia.
Qed.

(** The state of a group before a member is added, in terms of its members. *)
Lemma group_state_default ms r :
  (∀ m, m ∈ ms → group_family m = group_family r) →
  ∃ ttl, default (new_group r) (group_state ms) =
    mkGroup (group_family r) ttl (bts_of_list (omap group_selector ms)) (zlen ms) ∧
    admit_ttl ttl (explicit_ttl r) = admit_ttl (head (omap explicit_ttl ms)) (explicit_ttl r).
Proof.
  intros Hf. destruct ms as [|m ms].
  - exists (explicit_ttl r). split; [done|]. unfold admit_ttl. simpl.
    destruct (explicit_ttl r); [by rewrite Z.eqb_refl|done].
  - eexists. split; [|done]. simpl. by rewrite (Hf m) by left.
Qed.

(** One more member is admitted exactly if the group stays consistent. *)
Lemma admit_member_iff ms r :
  group_ok ms →
  ∀ state, admit_member (default (new_group r) (group_state ms)) r = Ok state ↔
           group_ok (ms ++ [r]) ∧ group_state (ms ++ [r]) = Some state.
Proof.
  intros Hok state.
  assert (∀ st, (∀ m, m ∈ ms → group_family m = group_family r) →
    group_state (ms ++ [r]) = Some st ↔
    st = mkGroup (group_family r) (head (omap explicit_ttl (ms ++ [r])))
           (bts_of_list (omap group_selector (ms ++ [r]))) (zlen ms + 1)) as Hst.
  { intros st Hf. replace (zlen ms + 1)%Z with (zlen (ms ++ [r]))
      by (unfold zlen; rewrite length_app; simpl; lia).
    destruct ms as [|m ms]; [naive_solver|]. simpl. rewrite (Hf m) by left. naive_solver. }
  split.
  - intros Ha. assert (∀ m, m ∈ ms → group_family m = group_family r) as Hf.
    { intros m Hm. unfold admit_member in Ha. destruct ms as [|m0 ms]; [by apply not_elem_of_nil in Hm|].
      simpl in Ha. case_bool_decide as E; [|done]. simpl in E. rewrite <- E.
      apply (go_family _ Hok); [done|left]. }
    destruct (group_state_default ms r Hf) as (ttl&Hd&Ht). rewrite Hd in Ha. unfold admit_member in Ha.
    cbn [gr_family gr_explicit_ttl gr_unique_members gr_member_count] in Ha.
    rewrite bool_decide_eq_true_2 in Ha by done. cbn [negb] in Ha. rewrite Ht in Ha.
    destruct (admit_ttl _ _) as [ttl'|] eqn:Et; [|done].
    destruct (bool_decide (group_family r = FWeighted) && _) eqn:Ew; [done|].
    destruct (admit_selector _ _) as [us|] eqn:Es; [|done]. injection Ha as <-.
    assert (group_ok (ms ++ [r])) as Hok'.
    { apply group_ok_snoc; [done|done| | |].
      - eapply admit_ttl_inv; [|done]. apply (go_ttl _ Hok).
      - by eapply admit_selector_inv.
      - intros Hw. rewrite bool_decide_eq_true_2 in Ew by done. simpl in Ew. lia. }
    destruct (group_snoc_facts _ _ Hok') as (_&Httl&Hsel&_).
    rewrite (admit_ttl_Ok _ _ Httl) in Et. rewrite (admit_selector_Ok _ _ Hsel) in Es.
    split; [done|]. apply Hst; [done|]. congruence.
  - intros [Hok' Hs]. destruct (group_snoc_facts _ _ Hok') as (Hf&Httl&Hsel&Hw).
    apply (Hst _ Hf) in Hs as ->. destruct (group_state_default ms r Hf) as (ttl&->&Ht).
    unfold admit_member. cbn [gr_family gr_explicit_ttl gr_unique_members gr_member_count].
    rewrite bool_decide_eq_true_2 by done. cbn [negb].
    rewrite Ht, (admit_ttl_Ok _ _ Httl), (admit_selector_Ok _ _ Hsel).
    case_bool_decide as Hwr; [|done]. apply Hw in Hwr. simpl.
    by rewrite (proj2 (Z.ltb_ge 100 (zlen ms + 1))) by lia.
Qed.

(** The same on the map of groups. *)
Lemma group_member_step rs groups r :
  groups_rel rs groups → group_ok (members (group_key r) rs) →
  (group_ok (members (group_key r) (rs ++ [r])) ↔ ∃ g, validate_route53_group_member groups r = Ok g)
  ∧ ∀ g, validate_route53_group_member groups r = Ok g → groups_rel (rs ++ [r]) g.
Proof.
  intros Hrel Hok. rewrite members_snoc, decide_True by done.
  pose proof (admit_member_iff _ r Hok) as Hadm. unfold validate_route53_group_member. rewrite Hrel.
  destruct (admit_member _ r) as [st|e] eqn:Ea.
  - destruct (proj1 (Hadm st) eq_refl) as [Hok' Hst]. split; [naive_solver|]. intros g [= <-] k.
    rewrite members_snoc. destruct (decide (group_key r = k)) as [<-|Hne].
    + by rewrite btm_get_insert_eq, Hst.
    + rewrite btm_get_insert_ne by congruence. apply Hrel.
  - split; [|done]. split; [|naive_solver]. intros Hok'.
    destruct (group_state (members (group_key r) rs ++ [r])) as [st|] eqn:Es;
      [|by destruct (members (group_key r) rs)].
    pose proof (proj2 (Hadm st) (conj Hok' eq_refl)). done.
Qed.

(** *** The loop *)

Record prefix_ok (zone : DnsZoneRef) (changes : list DnsRecordChange) : Prop := {
  po_changes : Forall (λ c, DnsRecordChange_validate c zone = Ok tt) changes;
  po_apex : Forall (λ c, apex_delegation zone (change_key c) = false) changes;
  po_keys : NoDup (map change_key changes);
  po_groups : zr_provider zone = Aws → ∀ g, group_ok (members g (desired_sets changes));
}.

Record batch_rel (zone : DnsZoneRef) (changes : list DnsRecordChange) (s : batch_state) : Prop := {
  br_keys k : k ∈ ba_keys s ↔ k ∈ map change_key changes;
  br_owners o b : (o, b) ∈ ba_owners_and_types s ↔
    ∃ r, r ∈ desired_sets changes ∧ o = rs_owner r ∧ b = is_cname_key (rs_key r);
  br_groups : zr_provider zone = Aws → groups_rel (desired_sets changes) (ba_groups s);
}.

Lemma desired_key_fmap c : desired_key c = rs_key <$> desired_record_set c.
Proof. by destruct c. Qed.

Lemma desired_sets_snoc cs c :
  desired_sets (cs ++ [c]) =
  desired_sets cs ++ match desired_record_set c with Some r => [r] | None => [] end.
Proof. unfold desired_sets. rewrite omap_app. simpl. by destruct (desired_record_set c). Qed.

Lemma members_prefix g rs ks : ∃ l, members g (rs ++ ks) = members g rs ++ l.
Proof. exists (members g ks). apply filter_app. Qed.

Lemma prefix_ok_prefix zone cs ds : prefix_ok zone (cs ++ ds) → prefix_ok zone cs.
Proof.
  intros [Hc Ha Hk Hg]. rewrite map_app in Hk. split.
  - by apply Forall_app in Hc as [? _].
  - by apply Forall_app in Ha as [? _].
  - by apply NoDup_app in Hk as [? _].
  - intros Haws g. specialize (Hg Haws g). unfold desired_sets in Hg. rewrite omap_app in Hg.
    destruct (members_prefix g (omap desired_record_set cs) (omap desired_record_set ds)) as [l Hl].
    rewrite Hl in Hg. by eapply group_ok_prefix.
Qed.

(** A group other than the new member's is unchanged. *)
Lemma groups_ok_snoc rs r :
  (∀ g, group_ok (members g rs)) →
  (∀ g, group_ok (members g (rs ++ [r]))) ↔ group_ok (members (group_key r) (rs ++ [r])).
Proof.
  intros Hok. split; [done|]. intros Hr g. rewrite members_snoc.
  destruct (decide (group_key r = g)) as [<-|]; [|done]. by rewrite members_snoc, decide_True in Hr.
Qed.

Lemma check_groups_iff zone cs c groups :
  (zr_provider zone = Aws → groups_rel (desired_sets cs) groups) →
  (zr_provider zone = Aws → ∀ g, group_ok (members g (desired_sets cs))) →
  ((∃ g, check_groups zone c groups = Ok g) ↔
   (zr_provider zone = Aws → ∀ g, group_ok (members g (desired_sets (cs ++ [c]))))) ∧
  ∀ g, check_groups zone c groups = Ok g →
    zr_provider zone = Aws → groups_rel (desired_sets (cs ++ [c])) g.
Proof.
  intros Hrel Hok. unfold check_groups. rewrite desired_sets_snoc. case_bool_decide as Haws.
  2: { split; [|done]. split; [done|]. by eauto. }
  destruct (desired_record_set c) as [r|].
  - destruct (group_member_step _ _ r (Hrel Haws) (Hok Haws _)) as [Hiff Hstep].
    split; [|intros g Hg _; by apply Hstep]. rewrite <- Hiff.
    rewrite <- (groups_ok_snoc _ r (Hok Haws)). tauto.
  - rewrite app_nil_r. split; [|intros g [= <-]; done]. split; [done|]. by eauto.
Qed.

Lemma elem_of_map_snoc {A B} (f : A → B) l x y : y ∈ map f (l ++ [x]) ↔ y = f x ∨ y ∈ map f l.
Proof. rewrite map_app, elem_of_app. simpl. rewrite list_elem_of_singleton. tauto. Qed.

Lemma check_change_iff zone cs c s :
  batch_rel zone cs s → prefix_ok zone cs →
  ((∃ s', check_change zone c s = Ok s') ↔ prefix_ok zone (cs ++ [c])) ∧
  ∀ s', check_change zone c s = Ok s' → batch_rel zone (cs ++ [c]) s'.
Proof.
  intros [Hk Ho Hg] [Pc Pa Pk Pg].
  destruct (check_groups_iff zone cs c _ Hg Pg) as [Hiff Hstep].
  unfold check_change.
  split.
  - split.
    + intros [s' Hs]. destruct (DnsRecordChange_validate c zone) as [[]|] eqn:Ev; [|done].
      destruct (apex_delegation zone (change_key c)) eqn:Ea; [done|].
      case_bool_decide as Ek; [done|]. rewrite Hk in Ek.
      destruct (check_groups zone c (ba_groups s)) as [g|] eqn:Eg; [|done].
      split; [by apply Forall_app; split; [|apply Forall_singleton] ..| |].
      * rewrite map_app. apply NoDup_app. split_and!; [done| |apply NoDup_singleton].
        by intros k Hkin ->%list_elem_of_singleton.
      * apply Hiff. eauto.
    + intros [Hc Ha Hn Hgs]. apply Forall_app in Hc as [_ Hc]. rewrite Forall_singleton in Hc.
      apply Forall_app in Ha as [_ Ha]. rewrite Forall_singleton in Ha.
      destruct (proj2 Hiff Hgs) as [g Hg']. eexists. rewrite Hc, Ha.
      rewrite bool_decide_eq_false_2; [|rewrite Hk; intros Hin; rewrite map_app in Hn;
        apply NoDup_app in Hn as (_&Hn&_); by eapply Hn; [done|left]].
      by rewrite Hg'.
  - intros s' Hs. destruct (DnsRecordChange_validate c zone); [|done].
    destruct (apex_delegation zone (change_key c)); [done|]. case_bool_decide; [done|].
    destruct (check_groups zone c (ba_groups s)) as [g|] eqn:Eg; [|done]. injection Hs as <-.
    split; cbn [ba_keys ba_owners_and_types ba_groups].
    + intros k. rewrite elem_of_bts_insert, elem_of_map_snoc. by rewrite Hk.
    + intros o b. rewrite desired_sets_snoc, desired_key_fmap.
      destruct (desired_record_set c) as [r|]; simpl; [|by rewrite app_nil_r].
      rewrite elem_of_bts_insert, Ho. setoid_rewrite elem_of_app. setoid_rewrite list_elem_of_singleton.
      unfold rs_owner. naive_solver.
    + by apply Hstep.
Qed.

Lemma check_changes_iff zone ds cs s :
  batch_rel zone cs s → prefix_ok zone cs →
  ((∃ s', check_changes zone ds s = Ok s') ↔ prefix_ok zone (cs ++ ds)) ∧
  ∀ s', check_changes zone ds s = Ok s' → batch_rel zone (cs ++ ds) s'.
Proof.
  revert cs s. induction ds as [|d ds IH]; intros cs s Hrel Hok; cbn [check_changes].
  { rewrite app_nil_r. split; [|by intros s' [= <-]]. naive_solver. }
  destruct (check_change_iff zone cs d s Hrel Hok) as [Hiff Hstep].
  replace (cs ++ d :: ds) with ((cs ++ [d]) ++ ds) by (by rewrite <- app_assoc).
  destruct (check_change zone d s) as [s1|e] eqn:E.
  - apply IH; [by apply Hstep|apply Hiff; eauto].
  - split; [|done]. split; [naive_solver|]. intros Hp%prefix_ok_prefix%Hiff. naive_solver.
Qed.

Lemma cname_check zone cs s :
  batch_rel zone cs s →
  existsb (λ '(owner, cname), cname && bool_decide ((owner, false) ∈ ba_owners_and_types s))
    (ba_owners_and_types s) = false ↔
  ∀ a b, a ∈ desired_sets cs → b ∈ desired_sets cs → rs_owner a = rs_owner b →
    rs_type a = TCname → rs_type b = TCname.
Proof.
  intros Hrel. rewrite <- not_true_iff_false, existsb_exists. split.
  - intros Hno a b Ha Hb Hab Hta. destruct (decide (rs_type b = TCname)) as [|Hne]; [done|].
    destruct Hno. exists (rs_owner a, true). rewrite <- list_elem_of_In, (br_owners _ _ _ Hrel).
    split.
    + exists a. split_and!; [done|done|]. symmetry. by apply bool_decide_eq_true_2.
    + simpl. apply bool_decide_eq_true_2, (br_owners _ _ _ Hrel). exists b. split_and!; [done|done|].
      symmetry. by apply bool_decide_eq_false_2.
  - intros Hcn ([o c]&Hin&Hc). rewrite <- list_elem_of_In, (br_owners _ _ _ Hrel) in Hin.
    apply andb_true_iff in Hc as [-> Hf%bool_decide_eq_true].
    apply (br_owners _ _ _ Hrel) in Hf as (b&Hb&->&Hbf). destruct Hin as (a&Ha&Hoa&Hat).
    symmetry in Hbf, Hat. apply bool_decide_eq_false in Hbf. apply bool_decide_eq_true in Hat.
    apply Hbf. by apply (Hcn a b).
Qed.

Lemma validate_dns_changes_iff (zone : DnsZoneRef) (changes : list DnsRecordChange) :
  validate_dns_changes zone changes = Ok tt ↔ batch_ok zone changes.
Proof.
  unfold validate_dns_changes.
  assert (batch_rel zone [] (mkBatch [] [] [])) as Hrel.
  { split; [done|simpl; set_solver|by intros _ g]. }
  assert (prefix_ok zone []) as Hok0.
  { split; [constructor|constructor|constructor|]. intros _ g.
    split; [set_solver|set_solver|constructor|set_solver]. }
  destruct (check_changes_iff zone changes [] _ Hrel Hok0) as [Hiff Hstep]. simpl in Hiff, Hstep.
  split.
  - destruct (DnsZoneRef_validate zone) as [[]|] eqn:Ez; [|done].
    destruct ((zlen changes =? 0)%Z || (MAX_CHANGES <? zlen changes)%Z) eqn:En; [done|].
    destruct (check_changes zone changes _) as [s|] eqn:Es; [|done].
    destruct (existsb _ _) eqn:Ec; [done|]. intros _.
    pose proof (proj1 (cname_check _ _ _ (Hstep s eq_refl)) Ec) as Hcn. destruct (proj1 Hiff ltac:(eauto)).
    apply orb_false_iff in En as [En1 En2]. split; try done. unfold zlen in *. lia.
  - intros [Hz Hn Hc Ha Hk Hcn Hg]. rewrite Hz.
    rewrite (proj2 (Z.eqb_neq _ _)), (proj2 (Z.ltb_ge _ _)) by lia. simpl.
    destruct (proj2 Hiff (Build_prefix_ok _ _ Hc Ha Hk Hg)) as [s Hs]. rewrite Hs.
    by rewrite (proj2 (cname_check _ _ _ (Hstep s Hs)) Hcn).
Qed.

(** *** What a valid change carries *)

Lemma record_set_validate_within r zone :
  ProviderDnsRecordSet_validate r zone = Ok tt → is_within (rs_owner r) (zr_apex zone) = true.
Proof.
  unfold ProviderDnsRecordSet_validate. destruct (DnsZoneRef_validate zone); [|done].
  destruct (DnsRecordSetKey_validate _); [|done]. by destruct (is_within _ _).
Qed.

Lemma require_exact_guard_Ok guard revision :
  require_exact_guard guard revision = Ok tt → guard = MatchObserved revision.
Proof.
  destruct guard as [|r]; [done|]. simpl. by destruct (String.eqb_spec r revision) as [->|].
Qed.

Lemma observed_validate_record o :
  ObservedDnsRecordSet_validate o = Ok tt →
  ProviderDnsRecordSet_validate (ob_record_set o) (ob_zone o) = Ok tt.
Proof.
  unfold ObservedDnsRecordSet_validate.
  by destruct (ProviderDnsRecordSet_validate _ _) as [[]|].
Qed.

(** The guard and the scope of a change. *)
Definition change_guarded (zone : DnsZoneRef) (c : DnsRecordChange) : Prop :=
  match c with
  | CreateChange _ guard => guard = MustNotExist
  | ReplaceChange previous desired guard =>
      ob_zone previous = zone ∧ rs_key (ob_record_set previous) = rs_key desired ∧
      guard = MatchObserved (ob_revision previous)
  | DeleteChange previous guard =>
      ob_zone previous = zone ∧ guard = MatchObserved (ob_revision previous)
  end.

Lemma change_validate_guarded c zone :
  DnsRecordChange_validate c zone = Ok tt →
  change_guarded zone c ∧ is_within (key_owner (change_key c)) (zr_apex zone) = true.
Proof.
  destruct c as [r g|p d g|p g]; simpl; intros Hv.
  - destruct (ProviderDnsRecordSet_validate r zone) as [[]|] eqn:Er; [|done].
    destruct (DnsMutationGuard_validate g); [|done]. case_bool_decide; [|done].
    split; [done|]. by apply record_set_validate_within.
  - destruct (ObservedDnsRecordSet_validate p); [|done].
    destruct (ProviderDnsRecordSet_validate d zone) as [[]|] eqn:Ed; [|done].
    destruct (DnsMutationGuard_validate g); [|done].
    case_bool_decide as Hz; [|done]. case_bool_decide as Hk; [|done]. simpl in Hv.
    apply require_exact_guard_Ok in Hv. split; [done|]. by apply record_set_validate_within.
  - destruct (ObservedDnsRecordSet_validate p) as [[]|] eqn:Ep; [|done].
    destruct (DnsMutationGuard_validate g); [|done]. case_bool_decide as Hz; [|done]. simpl in Hv.
    apply require_exact_guard_Ok in Hv. split; [done|].
    apply observed_validate_record, record_set_validate_within in Ep. by rewrite Hz in Ep.
Qed.

(** C25.  A batch of record changes is accepted exactly if it satisfies the
    specification [batch_ok]: between one and a thousand changes, each valid in
    the zone, none touching the apex SOA or delegation NS, all with different
    record identities, no owner left with a CNAME next to another type, and on
    AWS every routing group of one family, with one explicit TTL, unique
    selectors and at most a hundred weighted members.  Every change of an
    accepted batch is guarded by the exact revision it was planned against
    (creations by absence), stays in the zone, and names an owner whose labels
    end in those of the apex. *)
Theorem dns_batch_valid_iff (zone : DnsZoneRef) (changes : list DnsRecordChange) :
  (validate_dns_changes zone changes = Ok tt ↔ batch_ok zone changes) ∧
  (batch_ok zone changes → ∀ c, c ∈ changes →
     change_guarded zone c ∧
     ∃ prefix, str_split ch_dot (key_owner (change_key c)) =
       prefix ++ str_split ch_dot (zr_apex zone)).
Proof.
  split; [apply validate_dns_changes_iff|]. intros Hok c Hc.
  pose proof (bo_changes _ _ Hok) as Hv. rewrite Forall_forall in Hv.
  destruct (change_validate_guarded c zone (Hv c Hc)) as [Hg Hw]. split; [done|].
  by apply is_within_labels.
Qed.
