(* ===== verification/ZoneLifecycle.v ===== *)
(** * ZoneLifecycle: the managed-zone lifecycle contract

    [crates/center-core/src/cloud/zone_lifecycle.rs]: DNSSEC and delegation
    observations, readiness, and the deletion capability that only
    [authorize_zone_deletion] hands out. *)

From Stdlib Require Import ZArith Ascii String Lia.
From S2P Require Import Prelude Text Core BTree NetAddr Dns.

Definition lifecycle_id_new (kind value : string) : CoreResult string :=
  if text_invalid 1024 value then Err (InvalidIdentifier kind value) else Ok value.
Definition ZoneLifecycleRevision_new := lifecycle_id_new "zone lifecycle revision".
Definition ZoneLifecycleMutationId_new := lifecycle_id_new "zone lifecycle mutation ID".

Inductive ZoneOrigin := Imported | CenterCreated.
Inductive ManagementPolicy := Managed | ObserveOnlyPolicy.
Inductive DeletionPolicy := Retain | DeleteExternal.
Inductive DnssecDesiredState := DesiredDisabled | DesiredEnabled.
#[export] Instance ZoneOrigin_eq_dec : EqDecision ZoneOrigin.
Proof. solve_decision. Defined.
#[export] Instance ManagementPolicy_eq_dec : EqDecision ManagementPolicy.
Proof. solve_decision. Defined.
#[export] Instance DeletionPolicy_eq_dec : EqDecision DeletionPolicy.
Proof. solve_decision. Defined.
#[export] Instance DnssecDesiredState_eq_dec : EqDecision DnssecDesiredState.
Proof. solve_decision. Defined.

(** ** DNSSEC *)

Record DnssecDsRecord := mkDs {
  ds_key_tag : Z;                            (* u16 *)
  ds_algorithm : Z;                          (* u8 *)
  ds_digest_type : Z;                        (* u8 *)
  ds_digest : string;
}.
#[export] Instance DnssecDsRecord_eq_dec : EqDecision DnssecDsRecord.
Proof. solve_decision. Defined.

Definition DnssecDsRecord_validate (r : DnssecDsRecord) : CoreResult () :=
  let? expected :=
    (if ds_digest_type r =? 1 then Ok 40
     else if ds_digest_type r =? 2 then Ok 64
     else if ds_digest_type r =? 4 then Ok 96
     else Err (Conflict "DNSSEC DS digest type is unsupported"))%Z in
  if negb (str_len (ds_digest r) =? expected)%Z || negb (str_all is_ascii_hexdigit (ds_digest r))
     || negb (str_all (λ c, negb (is_ascii_lowercase c)) (ds_digest r))
  then Err (Conflict "DNSSEC DS digest must be upper-case hexadecimal") else Ok tt.

Inductive DnssecProviderState :=
| DsUnsupported | DsDisabled | DsEnabling | DsAwaitingDs | DsActive | DsDisabling
| DsAwaitingDsRemoval | DsFailed | DsUnknown.
#[export] Instance DnssecProviderState_eq_dec : EqDecision DnssecProviderState.
Proof. solve_decision. Defined.

Inductive DnssecExternalAction :=
| PublishDs (records : list DnssecDsRecord)
| RemoveDs (key_tags : list Z)               (* BTreeSet *)
| WaitForProviderActivation
| NoAction.

Record DnssecObservation := mkDnssec {
  do_state : DnssecProviderState;
  do_ds_records : list DnssecDsRecord;
  do_external_action : DnssecExternalAction;
  do_provider_detail : option string;
}.

Definition key_tags (records : list DnssecDsRecord) : list Z := bts_of_list (map ds_key_tag records).

Definition dnssec_transition_for_intent (desired : DnssecDesiredState) (observed : DnssecObservation) :
    DnssecObservation :=
  if bool_decide (desired = DesiredDisabled)
     && negb (bool_decide (do_state observed = DsDisabled))
     && negb (bool_decide (do_state observed = DsUnsupported))
  then
    let tags := key_tags (do_ds_records observed) in
    mkDnssec DsAwaitingDsRemoval (do_ds_records observed)
      (if (zlen tags =? 0)%Z then WaitForProviderActivation else RemoveDs tags)
      (do_provider_detail observed)
  else observed.

(** ** Delegation and readiness *)

Inductive DelegationState :=
| NotApplicable | NotChecked | DelAbsent | Partial | Delegated | Mismatch | CheckFailed.
#[export] Instance DelegationState_eq_dec : EqDecision DelegationState.
Proof. solve_decision. Defined.

Record DelegationObservation := mkDelegation {
  de_state : DelegationState;
  de_expected_nameservers : list string;     (* BTreeSet *)
  de_parent_nameservers : list string;       (* BTreeSet *)
  de_checked_at : option string;
  de_failure : option string;
}.

Inductive AuthoritativeDnsVerification :=
| VerNotChecked | VerVerified (checked_at : string) | VerFailed (checked_at reason : string).
Inductive ZoneReadiness := AwaitingAuthoritativeVerification | ReadyZone | VerificationFailed.
#[export] Instance ZoneReadiness_eq_dec : EqDecision ZoneReadiness.
Proof. solve_decision. Defined.

Definition evaluate_zone_readiness (v : AuthoritativeDnsVerification) : ZoneReadiness :=
  match v with
  | VerNotChecked => AwaitingAuthoritativeVerification
  | VerVerified _ => ReadyZone
  | VerFailed _ _ => VerificationFailed
  end.

Record ZoneLifecycleObservation := mkLifecycle {
  lo_zone : DnsZoneRef;
  lo_revision : string;
  lo_authoritative_nameservers : list string;    (* BTreeSet *)
  lo_delegation : DelegationObservation;
  lo_authoritative_verification : AuthoritativeDnsVerification;
  lo_readiness : ZoneReadiness;
  lo_dnssec : DnssecObservation;
  lo_non_default_record_count : Z;               (* u64 *)
}.

Definition timestamp_invalid (checked_at : string) : bool :=
  is_empty checked_at || (128 <? str_len checked_at)%Z || has_control checked_at.

Definition validate_delegation (o : ZoneLifecycleObservation) : CoreResult () :=
  let d := lo_delegation o in
  match zr_visibility (lo_zone o) with
  | Public =>
      if (zlen (lo_authoritative_nameservers o) =? 0)%Z || bool_decide (de_state d = NotApplicable)
         || negb (bool_decide (de_expected_nameservers d = lo_authoritative_nameservers o))
      then Err (Conflict "public zone lifecycle has invalid delegation evidence")
      else if bool_decide (lo_readiness o = ReadyZone)
              && (negb (bool_decide (de_state d = Delegated))
                  || negb (bool_decide (de_parent_nameservers d = lo_authoritative_nameservers o)))
      then Err (Conflict "public zone cannot be ready without exact parent delegation")
      else Ok tt
  | Private =>
      if negb (bool_decide (de_state d = NotApplicable))
         || negb (zlen (de_parent_nameservers d) =? 0)%Z
      then Err (Conflict "private zone cannot claim parent delegation") else Ok tt
  end.

Definition ZoneLifecycleObservation_validate (o : ZoneLifecycleObservation) : CoreResult () :=
  let? _ := DnsZoneRef_validate (lo_zone o) in
  if negb (bool_decide (lo_readiness o = evaluate_zone_readiness (lo_authoritative_verification o)))
  then Err (Conflict "zone readiness lacks matching authoritative verification")
  else if match lo_authoritative_verification o with
          | VerVerified checked_at | VerFailed checked_at _ => timestamp_invalid checked_at
          | VerNotChecked => false
          end
  then Err (Conflict "authoritative verification timestamp is invalid")
  else
    let? _ := validate_delegation o in
    let? _ := validate_all DnssecDsRecord_validate (do_ds_records (lo_dnssec o)) in
    match do_external_action (lo_dnssec o) with
    | PublishDs records =>
        if (zlen records =? 0)%Z then Err (Conflict "DS publication action requires records")
        else validate_all DnssecDsRecord_validate records
    | RemoveDs tags =>
        if (zlen tags =? 0)%Z then Err (Conflict "DS removal action requires key tags") else Ok tt
    | _ => Ok tt
    end.

Record ZoneCreationRequest := mkCreation {
  cr_provider_account_id : string;
  cr_provider : CloudProvider;
  cr_apex : string;
  cr_visibility : ZoneVisibility;
  cr_idempotency_key : string;
}.

(** ** Deletion *)

Inductive ZoneDeletionBlocker :=
| ImportedZone | ObserveOnly | RetainPolicy | NonEmptyZone | DelegatedZone | DnssecEnabled.
#[export] Instance ZoneDeletionBlocker_eq_dec : EqDecision ZoneDeletionBlocker.
Proof. solve_decision. Defined.

Record ZoneDeletionPlan := mkDeletionPlan {
  dp_zone : DnsZoneRef;
  dp_observed_revision : string;
  dp_origin : ZoneOrigin;
  dp_management_policy : ManagementPolicy;
  dp_deletion_policy : DeletionPolicy;
  dp_non_default_record_count : Z;
  dp_delegation_state : DelegationState;
  dp_dnssec_state : DnssecProviderState;
  dp_blockers : list ZoneDeletionBlocker;    (* BTreeSet *)
}.

(** The blockers in the order of the derived [Ord], which is the order in which
    the source inserts them. *)
Definition blockers (origin : ZoneOrigin) (management : ManagementPolicy) (deletion : DeletionPolicy)
    (count : Z) (delegation : DelegationState) (dnssec : DnssecProviderState) :
    list ZoneDeletionBlocker :=
  (if bool_decide (origin = Imported) then [ImportedZone] else [])
  ++ (if bool_decide (management = Managed) then [] else [ObserveOnly])
  ++ (if bool_decide (deletion = DeleteExternal) then [] else [RetainPolicy])
  ++ (if (count =? 0)%Z then [] else [NonEmptyZone])
  ++ (if bool_decide (delegation ∈ [DelAbsent; NotApplicable]) then [] else [DelegatedZone])
  ++ (if bool_decide (dnssec ∈ [DsDisabled; DsUnsupported]) then [] else [DnssecEnabled]).

Definition from_observation (o : ZoneLifecycleObservation) (origin : ZoneOrigin)
    (management : ManagementPolicy) (deletion : DeletionPolicy) : ZoneDeletionPlan :=
  mkDeletionPlan (lo_zone o) (lo_revision o) origin management deletion
    (lo_non_default_record_count o) (de_state (lo_delegation o)) (do_state (lo_dnssec o))
    (blockers origin management deletion (lo_non_default_record_count o)
       (de_state (lo_delegation o)) (do_state (lo_dnssec o))).

Inductive ZoneDeletionAcknowledgement := AckNonEmptyZone | AckDelegatedZone | AckDnssecEnabled.

Record ZoneDeletionApproval := mkApproval {
  ap_approved_revision : string;
  ap_approved_zone : DnsZoneRef;
  ap_approved_by : string;
  ap_approved_at : string;
  ap_acknowledgements : list ZoneDeletionAcknowledgement;
}.

Record ZoneDeletionRequest := mkDeletionRequest {
  dr_zone : DnsZoneRef;
  dr_revision : string;
  dr_approval : ZoneDeletionApproval;
}.

Definition authorize_zone_deletion (plan : ZoneDeletionPlan) (approval : ZoneDeletionApproval) :
    CoreResult ZoneDeletionRequest :=
  if negb (String.eqb (ap_approved_revision approval) (dp_observed_revision plan))
  then Err (Conflict "zone deletion approval is stale")
  else if negb (bool_decide (ap_approved_zone approval = dp_zone plan))
  then Err (Conflict "zone deletion approval is bound to another zone")
  else if is_empty (str_trim (ap_approved_by approval)) || is_empty (str_trim (ap_approved_at approval))
  then Err (Conflict "zone deletion approval is incomplete")
  else
    let expected := blockers (dp_origin plan) (dp_management_policy plan) (dp_deletion_policy plan)
                      (dp_non_default_record_count plan) (dp_delegation_state plan)
                      (dp_dnssec_state plan) in
    if negb (bool_decide (dp_blockers plan = expected))
    then Err (Conflict "zone deletion plan blockers do not match its observation")
    else if negb (zlen (dp_blockers plan) =? 0)%Z
    then Err (Conflict "zone deletion preconditions are not satisfied")
    else Ok (mkDeletionRequest (dp_zone plan) (dp_observed_revision plan) approval).

Inductive ZoneLifecycleMutationState := MutPending | MutSucceeded | MutFailed | MutUnknownOutcome.
#[export] Instance ZoneLifecycleMutationState_eq_dec : EqDecision ZoneLifecycleMutationState.
Proof. solve_decision. Defined.
Record ZoneLifecycleMutationReceipt := mkMutationReceipt {
  mr_mutation_id : string;
  mr_state : ZoneLifecycleMutationState;
}.

(** ** When a deletion is authorized *)

(** The state of a zone in which it may be deleted. *)
Record deletable (origin : ZoneOrigin) (management : ManagementPolicy) (deletion : DeletionPolicy)
    (count : Z) (delegation : DelegationState) (dnssec : DnssecProviderState) : Prop := {
  dl_origin : origin = CenterCreated;
  dl_management : management = Managed;
  dl_deletion : deletion = DeleteExternal;
  dl_empty : count = 0%Z;
  dl_undelegated : delegation = DelAbsent ∨ delegation = NotApplicable;
  dl_unsigned : dnssec = DsDisabled ∨ dnssec = DsUnsupported;
}.

Lemma blockers_nil o m d c de ds : blockers o m d c de ds = [] ↔ deletable o m d c de ds.
Proof.
  unfold blockers. rewrite !app_nil. split.
  - intros (Ho&Hm&Hd&Hc&He&Hs). destruct (Z.eqb_spec c 0) as [->|]; [|done].
    split; [by destruct o|by destruct m|by destruct d|done| |].
    + by destruct de; auto.
    + by destruct ds; auto.
  - intros [-> -> -> -> He Hs]. by destruct He as [-> | ->], Hs as [-> | ->].
Qed.

Lemma deletion_authorized (plan : ZoneDeletionPlan) (approval : ZoneDeletionApproval)
    (request : ZoneDeletionRequest) :
  authorize_zone_deletion plan approval = Ok request ↔
  request = mkDeletionRequest (dp_zone plan) (dp_observed_revision plan) approval ∧
  ap_approved_revision approval = dp_observed_revision plan ∧
  ap_approved_zone approval = dp_zone plan ∧
  is_empty (str_trim (ap_approved_by approval)) = false ∧
  is_empty (str_trim (ap_approved_at approval)) = false ∧
  dp_blockers plan = [] ∧
  deletable (dp_origin plan) (dp_management_policy plan) (dp_deletion_policy plan)
    (dp_non_default_record_count plan) (dp_delegation_state plan) (dp_dnssec_state plan).
Proof.
  rewrite <- blockers_nil. unfold authorize_zone_deletion.
  destruct (String.eqb_spec (ap_approved_revision approval) (dp_observed_revision plan)); [|naive_solver].
  case_bool_decide; [|naive_solver]. cbn [negb].
  destruct (is_empty (str_trim (ap_approved_by approval))); [naive_solver|].
  destruct (is_empty (str_trim (ap_approved_at approval))); [naive_solver|]. cbn [orb].
  case_bool_decide as Hb; cbn [negb];
    [|split; [done|intros (_&_&_&_&_&Hn&Hs); destruct Hb; congruence]].
  rewrite <- Hb. destruct (dp_blockers plan) as [|b bs]; cbn; [naive_solver|].
  split; [done|naive_solver].
Qed.

(** A deletion request exists only for a deletable zone: authorization
    succeeds exactly if the approval is complete and names the plan's zone and
    revision, the plan's blockers are those of its own observation, and the zone
    is center-created, managed, marked for external deletion, empty, not
    delegated and not signed; acknowledgements change nothing.  The request
    carries that zone and revision. *)
Theorem zone_deletion_authorized_iff (plan : ZoneDeletionPlan) (approval : ZoneDeletionApproval)
    (request : ZoneDeletionRequest) :
  authorize_zone_deletion plan approval = Ok request ↔
  request = mkDeletionRequest (dp_zone plan) (dp_observed_revision plan) approval ∧
  ap_approved_revision approval = dp_observed_revision plan ∧
  ap_approved_zone approval = dp_zone plan ∧
  is_empty (str_trim (ap_approved_by approval)) = false ∧
  is_empty (str_trim (ap_approved_at approval)) = false ∧
  dp_blockers plan = [] ∧
  deletable (dp_origin plan) (dp_management_policy plan) (dp_deletion_policy plan)
    (dp_non_default_record_count plan) (dp_delegation_state plan) (dp_dnssec_state plan).
Proof. apply deletion_authorized. Qed.

(** A public zone whose parent was not checked is never deletable. *)
Lemma unchecked_not_deletable o origin management deletion approval :
  de_state (lo_delegation o) = NotChecked →
  ∃ e, authorize_zone_deletion (from_observation o origin management deletion) approval = Err e.
Proof.
  intros Hd. destruct (authorize_zone_deletion _ approval) as [r|e] eqn:E; [|by eexists]. exfalso.
  unfold authorize_zone_deletion in E. destruct (negb _); [done|]. destruct (negb _); [done|].
  destruct (_ || _); [done|]. destruct (negb _); [done|].
  destruct (dp_blockers (from_observation o origin management deletion)) as [|b bs] eqn:Eb; [|done].
  cbn [from_observation dp_blockers] in Eb. apply blockers_nil in Eb as [_ _ _ _ Hde _].
  rewrite Hd in Hde. by destruct Hde.
Qed.
