(* ===== verification/CloudAccounts.v ===== *)
(** * CloudAccounts: provider accounts, their status and their event history

    [crates/center-core/src/cloud.rs] (account specification and persisted
    envelope), [cloud/credentials.rs], [cloud/status.rs] and
    [cloud/provider_accounts.rs].  The size of the JSON encoding of a desired
    state is a parameter. *)

From Stdlib Require Import ZArith Ascii String Lia.
From S2P Require Import Prelude Text Core BTree NetAddr Dns ZoneLifecycle.

(** ** Credentials *)

(** The [identifier!] macro for [CredentialRef]: the bound is [usize::MAX], so the
    length of a string never exceeds it. *)
Definition CredentialRef_new (value : string) : CoreResult string :=
  if is_empty value || negb (String.eqb (str_trim value) value) || has_control value
  then Err (InvalidIdentifier "credential reference" value) else Ok value.
Definition CredentialRef_validate (value : string) : CoreResult () :=
  let? _ := CredentialRef_new value in Ok tt.

Inductive CredentialSource :=
| StaticSecret (credential_ref : string)
| Ambient
| Federated (subject_token_ref : option string) (target_principal : string) (audience : option string)
| AssumeIdentity (base_credential_ref : option string) (target_principal : string)
    (external_id_ref : option string).
#[export] Instance CredentialSource_eq_dec : EqDecision CredentialSource.
Proof. solve_decision. Defined.

Definition validate_principal (principal : string) : CoreResult () :=
  if is_empty (str_trim principal) || negb (String.eqb (str_trim principal) principal)
     || has_control principal
  then Err (Conflict "credential target principal is invalid") else Ok tt.

Definition CredentialSource_validate (source : CredentialSource) : CoreResult () :=
  match source with
  | StaticSecret _ | Ambient => Ok tt
  | Federated _ target_principal audience =>
      let? _ := validate_principal target_principal in
      if is_some_and (λ value, is_empty (str_trim value)) audience
      then Err (Conflict "federated credential audience must not be empty") else Ok tt
  | AssumeIdentity _ target_principal _ => validate_principal target_principal
  end.

Definition credential_refs (source : CredentialSource) : list string :=
  match source with
  | StaticSecret credential_ref => [credential_ref]
  | Ambient => []
  | Federated subject_token_ref _ _ => option_list subject_token_ref
  | AssumeIdentity base _ external => option_list base ++ option_list external
  end.

Inductive CredentialState := CredValid | CredInvalid | CredUnknown.
Record ProviderIdentity := mkIdentity {
  id_provider : CloudProvider;
  id_principal : string;
  id_scope : option string;
}.
Inductive CredentialIssueKind :=
| ReferenceNotFound | IssueAuthenticationFailed | IssuePermissionDenied | IssueExpired
| InvalidConfiguration | IssueProviderUnavailable.
Record CredentialIssue := mkCredIssue {
  iss_kind : CredentialIssueKind;
  iss_code : string;
  iss_message : string;
}.
Record CredentialInspection := mkInspection {
  ins_state : CredentialState;
  ins_identity : option ProviderIdentity;
  ins_credential_revision : option string;
  ins_expires_at_unix_ms : option Z;         (* i64 *)
  ins_issues : list CredentialIssue;
}.
#[export] Instance CredentialState_eq_dec : EqDecision CredentialState.
Proof. solve_decision. Defined.
#[export] Instance ProviderIdentity_eq_dec : EqDecision ProviderIdentity.
Proof. solve_decision. Defined.

Definition requires_client_refresh (i previous : CredentialInspection) : bool :=
  negb (bool_decide (ins_credential_revision i = ins_credential_revision previous))
  || negb (bool_decide (ins_identity i = ins_identity previous))
  || negb (bool_decide (ins_state i = ins_state previous)).

(** ** The account specification *)

Inductive ProviderAccountScope :=
| ScopeCloudflare (account_id : string)
| ScopeAws (account_id : string).
#[export] Instance ProviderAccountScope_eq_dec : EqDecision ProviderAccountScope.
Proof. solve_decision. Defined.

Definition lower_hex (c : ascii) : bool :=
  is_ascii_digit c || ((97 <=? byte_val c)%N && (byte_val c <=? 102)%N).

Definition validate_for (scope : ProviderAccountScope) (provider : CloudProvider) : CoreResult () :=
  let '(matches, valid, kind) :=
    match scope with
    | ScopeCloudflare account_id =>
        (bool_decide (provider = Cloudflare),
         (str_len account_id =? 32)%Z && str_all lower_hex account_id, "Cloudflare account ID")
    | ScopeAws account_id =>
        (bool_decide (provider = Aws),
         (str_len account_id =? 12)%Z && str_all is_ascii_digit account_id, "AWS account ID")
    end in
  if negb matches || negb valid then Err (Conflict (kind +:+ " is invalid")) else Ok tt.

Record ProviderAccountSpec := mkSpec {
  as_provider : CloudProvider;
  as_scope : option ProviderAccountScope;
  as_credential_source : CredentialSource;
}.
#[export] Instance ProviderAccountSpec_eq_dec : EqDecision ProviderAccountSpec.
Proof. solve_decision. Defined.

Definition ProviderAccountSpec_validate (spec : ProviderAccountSpec) : CoreResult () :=
  let? _ := CredentialSource_validate (as_credential_source spec) in
  validate_option (λ scope, validate_for scope (as_provider spec)) (as_scope spec).

(** ** Status *)

Definition MAX_REASON_LEN : Z := 128.
Definition MAX_MESSAGE_LEN : Z := 4096.
Definition MAX_CORRELATION_ID_LEN : Z := 128.
Definition MAX_PROVIDER_EXTERNAL_ID_LEN : Z := 2048.
Definition MAX_EVENT_HISTORY : Z := 100.

Inductive CloudConditionStatus := CondTrue | CondFalse | CondUnknown.
Inductive CloudConditionType := Accepted | CredentialsValid | DnsReady | Programmed | DriftDetected.
Inductive CloudResourceKind := KindProviderAccount | KindManagedZone | KindDnsRecordSet.
#[export] Instance CloudConditionStatus_eq_dec : EqDecision CloudConditionStatus.
Proof. solve_decision. Defined.
#[export] Instance CloudConditionType_eq_dec : EqDecision CloudConditionType.
Proof. solve_decision. Defined.
#[export] Instance CloudResourceKind_eq_dec : EqDecision CloudResourceKind.
Proof. solve_decision. Defined.

Record CloudCondition := mkCondition {
  cc_condition_type : CloudConditionType;
  cc_status : CloudConditionStatus;
  cc_reason : string;
  cc_message : string;
  cc_observed_generation : Z;                (* u64 *)
  cc_last_transition_unix_ms : Z;            (* i64 *)
}.
Record ProviderResourceRef := mkResourceRef {
  pr_provider_account_id : string;
  pr_external_id : string;
}.
Record CloudResourceStatus := mkStatus {
  st_observed_generation : option Z;         (* u64 *)
  st_provider_resource : option ProviderResourceRef;
  st_conditions : list CloudCondition;
}.
#[export] Instance CloudCondition_eq_dec : EqDecision CloudCondition.
Proof. solve_decision. Defined.
#[export] Instance ProviderResourceRef_eq_dec : EqDecision ProviderResourceRef.
Proof. solve_decision. Defined.
#[export] Instance CloudResourceStatus_eq_dec : EqDecision CloudResourceStatus.
Proof. solve_decision. Defined.
Definition empty_status : CloudResourceStatus := mkStatus None None [].

Definition validate_reason (value : string) : CoreResult () :=
  let? _ := validate_text value "cloud status reason" MAX_REASON_LEN in
  if negb (is_some_and is_ascii_uppercase (str_head value)) || negb (str_all is_ascii_alphanumeric value)
  then Err (Conflict "cloud status reason must be an UpperCamelCase code") else Ok tt.

Definition CloudCondition_validate (c : CloudCondition) : CoreResult () :=
  let? _ := validate_reason (cc_reason c) in
  let? _ := validate_text (cc_message c) "cloud condition message" MAX_MESSAGE_LEN in
  if (cc_observed_generation c =? 0)%Z || (cc_last_transition_unix_ms c <? 0)%Z
  then Err (Conflict "cloud condition generation or transition time is invalid") else Ok tt.

Definition is_true_and_fresh_for (c : CloudCondition) (generation : Z) : bool :=
  bool_decide (cc_status c = CondTrue) && (cc_observed_generation c =? generation)%Z.

Definition ProviderResourceRef_validate (r : ProviderResourceRef) : CoreResult () :=
  let? _ := CloudResourceId_validate (pr_provider_account_id r) in
  validate_text (pr_external_id r) "provider external resource ID" MAX_PROVIDER_EXTERNAL_ID_LEN.

(** The loop of [CloudResourceStatus::validate]; [types] is the set of the
    condition types seen. *)
Fixpoint check_conditions (generation : Z) (observed : option Z) (types : list CloudConditionType)
    (conditions : list CloudCondition) : CoreResult () :=
  match conditions with
  | [] => Ok tt
  | c :: conditions =>
      let? _ := CloudCondition_validate c in
      if (generation <? cc_observed_generation c)%Z
         || match observed with Some o => (o <? cc_observed_generation c)%Z | None => true end
         || bool_decide (cc_condition_type c ∈ types)
      then Err (Conflict "cloud resource conditions are inconsistent")
      else check_conditions generation observed (cc_condition_type c :: types) conditions
  end.

Definition CloudResourceStatus_validate (s : CloudResourceStatus) (resource_generation : Z) : CoreResult () :=
  if (resource_generation =? 0)%Z
     || is_some_and (λ g, (g =? 0)%Z || (resource_generation <? g)%Z) (st_observed_generation s)
  then Err (Conflict "cloud resource status generation is invalid")
  else
    let? _ := validate_option ProviderResourceRef_validate (st_provider_resource s) in
    check_conditions resource_generation (st_observed_generation s) [] (st_conditions s).

Definition condition_is_true_and_fresh (s : CloudResourceStatus) (t : CloudConditionType) (generation : Z) :
    bool :=
  bool_decide (st_observed_generation s = Some generation)
  && existsb (λ c, bool_decide (cc_condition_type c = t) && is_true_and_fresh_for c generation)
       (st_conditions s).

(** The [find] and the assignment to [*existing] in [set_condition]: the first
    condition of the type is replaced, or the new one is appended. *)
Fixpoint put_condition (c : CloudCondition) (conditions : list CloudCondition) :
    CoreResult (list CloudCondition) :=
  match conditions with
  | [] => Ok [c]
  | existing :: rest =>
      if bool_decide (cc_condition_type existing = cc_condition_type c) then
        if (cc_observed_generation c <? cc_observed_generation existing)%Z
        then Err (Conflict "cloud condition observed generation moved backwards")
        else if (cc_last_transition_unix_ms c <? cc_last_transition_unix_ms existing)%Z
        then Err (Conflict "cloud condition transition time moved backwards")
        else
          let transition :=
            if bool_decide (cc_status c = cc_status existing)
               && String.eqb (cc_reason c) (cc_reason existing)
               && String.eqb (cc_message c) (cc_message existing)
            then cc_last_transition_unix_ms existing else cc_last_transition_unix_ms c in
          Ok (mkCondition (cc_condition_type c) (cc_status c) (cc_reason c) (cc_message c)
                (cc_observed_generation c) transition :: rest)
      else let? rest := put_condition c rest in Ok (existing :: rest)
  end.

Definition set_condition (s : CloudResourceStatus) (c : CloudCondition) (resource_generation : Z) :
    CoreResult CloudResourceStatus :=
  let? _ := CloudCondition_validate c in
  if (resource_generation <? cc_observed_generation c)%Z
  then Err (Conflict "cloud condition observes a future generation")
  else
    let? conditions := put_condition c (st_conditions s) in
    let updated :=
      mkStatus (Some (Z.max (default 0%Z (st_observed_generation s)) (cc_observed_generation c)))
        (st_provider_resource s) conditions in
    let? _ := CloudResourceStatus_validate updated resource_generation in
    Ok updated.

(** ** Events *)

Definition CloudCorrelationId_validate (value : string) : CoreResult () :=
  validate_text value "cloud correlation ID" MAX_CORRELATION_ID_LEN.

Record CloudEvent := mkEvent {
  ce_correlation_id : string;
  ce_resource_kind : CloudResourceKind;
  ce_resource_id : string;
  ce_observed_generation : Z;                (* u64 *)
  ce_condition_type : option CloudConditionType;
  ce_reason : string;
  ce_message : string;
  ce_occurred_at_unix_ms : Z;                (* i64 *)
}.

Definition CloudEvent_validate (e : CloudEvent) : CoreResult () :=
  let? _ := CloudCorrelationId_validate (ce_correlation_id e) in
  let? _ := CloudResourceId_validate (ce_resource_id e) in
  let? _ := validate_reason (ce_reason e) in
  let? _ := validate_text (ce_message e) "cloud event message" MAX_MESSAGE_LEN in
  if (ce_observed_generation e =? 0)%Z || (ce_occurred_at_unix_ms e <? 0)%Z
  then Err (Conflict "cloud event generation or time is invalid") else Ok tt.

Record BoundedCloudEventHistory := mkHistory {
  eh_max_events : nat;                       (* usize *)
  eh_events : list CloudEvent;
}.

Definition BoundedCloudEventHistory_new (max_events : nat) : CoreResult BoundedCloudEventHistory :=
  if (Z.of_nat max_events =? 0)%Z || (MAX_EVENT_HISTORY <? Z.of_nat max_events)%Z
  then Err (Conflict "cloud event history capacity is invalid") else Ok (mkHistory max_events []).

Definition push_event (h : BoundedCloudEventHistory) (e : CloudEvent) : CoreResult BoundedCloudEventHistory :=
  let? _ := CloudEvent_validate e in
  if is_some_and (λ l, (ce_occurred_at_unix_ms e <? ce_occurred_at_unix_ms l)%Z) (last (eh_events h))
  then Err (Conflict "cloud event history must be time ordered")
  else
    let events := if length (eh_events h) =? eh_max_events h then tail (eh_events h) else eh_events h in
    Ok (mkHistory (eh_max_events h) (events ++ [e])).

(** ** Provider accounts *)

Definition MAX_PROVIDER_ACCOUNT_PAGE_SIZE : Z := 100.
Definition MAX_DISPLAY_NAME_BYTES : Z := 256.
Definition MAX_OWNER_BYTES : Z := 256.
Definition MAX_LABELS : Z := 64.
Definition MAX_LABEL_KEY_BYTES : Z := 128.
Definition MAX_LABEL_VALUE_BYTES : Z := 256.
Definition MAX_CREDENTIAL_REF_BYTES : Z := 512.
Definition MAX_DESIRED_PAYLOAD_BYTES : Z := 64 * 1024.
Definition MAX_PROVIDER_ACCOUNT_GENERATION : Z := I64_MAX.

Record CloudResourceMetadata := mkMetadata {
  md_id : string;
  md_display_name : string;
  md_owner : option string;
  md_labels : list (string * string);        (* BTreeMap *)
  md_generation : Z;                         (* u64 *)
  md_management_policy : ManagementPolicy;
  md_deletion_policy : DeletionPolicy;
}.
Record ProviderAccount := mkAccount {
  pa_metadata : CloudResourceMetadata;
  pa_spec : ProviderAccountSpec;
  pa_status : CloudResourceStatus;
}.
Record ProviderAccountDesired := mkDesired {
  pd_display_name : string;
  pd_owner : option string;
  pd_labels : list (string * string);        (* BTreeMap *)
  pd_management_policy : ManagementPolicy;
  pd_deletion_policy : DeletionPolicy;
  pd_spec : ProviderAccountSpec;
}.
#[export] Instance CloudResourceMetadata_eq_dec : EqDecision CloudResourceMetadata.
Proof. solve_decision. Defined.
#[export] Instance ProviderAccount_eq_dec : EqDecision ProviderAccount.
Proof. solve_decision. Defined.
#[export] Instance ProviderAccountDesired_eq_dec : EqDecision ProviderAccountDesired.
Proof. solve_decision. Defined.

(** The number of bytes of [serde_json::to_vec(desired)]. *)
Class DesiredEncoding := desired_json_len : ProviderAccountDesired → Z.

Definition validate_account_text (value kind : string) (max_bytes : Z) (allow_empty : bool) : CoreResult () :=
  if (negb allow_empty && is_empty value) || (max_bytes <? str_len value)%Z
     || negb (String.eqb (str_trim value) value) || has_control value
  then Err (Conflict (kind +:+ " is invalid")) else Ok tt.

Definition validate_label (label : string * string) : CoreResult () :=
  let? _ := validate_account_text label.1 "provider account label key" MAX_LABEL_KEY_BYTES false in
  validate_account_text label.2 "provider account label value" MAX_LABEL_VALUE_BYTES true.

Definition validate_credential_ref (credential_ref : string) : CoreResult () :=
  let? _ := CredentialRef_validate credential_ref in
  if (MAX_CREDENTIAL_REF_BYTES <? str_len credential_ref)%Z
  then Err (Conflict "provider account credential reference is too long") else Ok tt.

Definition ProviderAccountDesired_validate `{DesiredEncoding} (d : ProviderAccountDesired) : CoreResult () :=
  let? _ := validate_account_text (pd_display_name d) "provider account display name"
              MAX_DISPLAY_NAME_BYTES false in
  let? _ := validate_option
              (λ owner, validate_account_text owner "provider account owner" MAX_OWNER_BYTES false)
              (pd_owner d) in
  if (MAX_LABELS <? zlen (pd_labels d))%Z then Err (Conflict "provider account has too many labels")
  else
    let? _ := validate_all validate_label (pd_labels d) in
    if negb (bool_decide (pd_deletion_policy d = Retain))
    then Err (Conflict "provider account deletion policy must retain the provider account")
    else
      let? _ := ProviderAccountSpec_validate (pd_spec d) in
      let? _ := validate_all validate_credential_ref
                  (credential_refs (as_credential_source (pd_spec d))) in
      if (MAX_DESIRED_PAYLOAD_BYTES <? desired_json_len d)%Z
      then Err (Conflict "provider account desired state exceeds its persistence limit") else Ok tt.

Definition from_account (a : ProviderAccount) : ProviderAccountDesired :=
  mkDesired (md_display_name (pa_metadata a)) (md_owner (pa_metadata a)) (md_labels (pa_metadata a))
    (md_management_policy (pa_metadata a)) (md_deletion_policy (pa_metadata a)) (pa_spec a).

(** [validate_provider_account] of [cloud.rs]. *)
Definition validate_provider_account (a : ProviderAccount) : CoreResult () :=
  if is_empty (str_trim (md_display_name (pa_metadata a))) || (md_generation (pa_metadata a) =? 0)%Z
  then Err (Conflict ("provider account " +:+ md_id (pa_metadata a) +:+ " has invalid metadata"))
  else
    let? _ := CloudResourceStatus_validate (pa_status a) (md_generation (pa_metadata a)) in
    ProviderAccountSpec_validate (pa_spec a).

Definition generation_outside (generation : Z) : bool :=
  (generation =? 0)%Z || (MAX_PROVIDER_ACCOUNT_GENERATION <? generation)%Z.

Definition validate_stored_provider_account `{DesiredEncoding} (a : ProviderAccount) : CoreResult () :=
  let? _ := CloudResourceId_validate (md_id (pa_metadata a)) in
  if generation_outside (md_generation (pa_metadata a))
  then Err (Conflict "stored provider account generation is outside the persistence range")
  else if negb (bool_decide (pa_status a = empty_status))
  then Err (Conflict "provider account desired-state store does not accept status")
  else
    let? _ := ProviderAccountDesired_validate (from_account a) in
    validate_provider_account a.

Definition account_of (account_id : string) (generation : Z) (d : ProviderAccountDesired) : ProviderAccount :=
  mkAccount (mkMetadata account_id (pd_display_name d) (pd_owner d) (pd_labels d) generation
               (pd_management_policy d) (pd_deletion_policy d)) (pd_spec d) empty_status.

Definition provider_account_from_desired `{DesiredEncoding} (account_id : string) (generation : Z)
    (d : ProviderAccountDesired) : CoreResult ProviderAccount :=
  let? _ := CloudResourceId_validate account_id in
  let? _ := ProviderAccountDesired_validate d in
  if generation_outside generation
  then Err (Conflict "provider account generation is outside the persistence range")
  else
    let account := account_of account_id generation d in
    let? _ := validate_stored_provider_account account in
    Ok account.

Record ProviderAccountPageRequest := mkAccountPageRequest {
  aq_limit : Z;                              (* u16 *)
  aq_after : option string;
}.
Definition ProviderAccountPageRequest_validate (r : ProviderAccountPageRequest) : CoreResult () :=
  if (aq_limit r =? 0)%Z || (MAX_PROVIDER_ACCOUNT_PAGE_SIZE <? aq_limit r)%Z
  then Err (Conflict "provider account page size is invalid")
  else validate_option CloudResourceId_validate (aq_after r).

Record ProviderAccountPage := mkAccountPage {
  ap_items : list ProviderAccount;
  ap_next : option string;
}.
Definition pa_id (a : ProviderAccount) : string := md_id (pa_metadata a).

(** The loop over the items: stored accounts in strictly increasing byte order. *)
Fixpoint check_account_items `{DesiredEncoding} (previous : option string) (items : list ProviderAccount) :
    CoreResult () :=
  match items with
  | [] => Ok tt
  | account :: items =>
      let? _ := validate_stored_provider_account account in
      if is_some_and (λ id, negb (bool_decide (cmp id (pa_id account) = Lt))) previous
      then Err (Conflict "provider account response page is not strictly ordered")
      else check_account_items (Some (pa_id account)) items
  end.

Definition ProviderAccountPage_validate `{DesiredEncoding} (p : ProviderAccountPage)
    (r : ProviderAccountPageRequest) : CoreResult () :=
  let? _ := ProviderAccountPageRequest_validate r in
  if (aq_limit r <? zlen (ap_items p))%Z
  then Err (Conflict "provider account response page exceeds the requested size")
  else
    let? _ := check_account_items (aq_after r) (ap_items p) in
    match ap_next p with
    | None => Ok tt
    | Some next =>
        let? _ := CloudResourceId_validate next in
        if negb (bool_decide (pa_id <$> last (ap_items p) = Some next))
        then Err (Conflict "provider account next boundary does not match the page") else Ok tt
    end.

Inductive ProviderAccountCreateResult := AccountCreated (account : ProviderAccount) | AccountAlreadyExists.
Inductive ProviderAccountReplaceResult :=
| AccountStored (account : ProviderAccount)
| AccountNotFound
| GenerationMismatch (actual_generation : Z).

(** ** Persisted accounts *)

Lemma trim_nonempty s : is_empty s = false → str_trim s = s → is_empty (str_trim s) = false.
Proof. by intros ? ->. Qed.

Lemma validate_account_text_ok value kind max allow :
  validate_account_text value kind max allow = Ok tt →
  (allow = false → is_empty value = false) ∧ str_trim value = value.
Proof.
  unfold validate_account_text. destruct (String.eqb_spec (str_trim value) value) as [He|].
  - destruct allow, (is_empty value); cbn; try done; by destruct (_ <? _)%Z.
  - rewrite orb_true_r. done.
Qed.

(** A desired state that validates is stored: the second validation of the
    assembled account never refuses it. *)
Lemma stored_account_valid `{DesiredEncoding} id generation d :
  CloudResourceId_validate id = Ok tt → ProviderAccountDesired_validate d = Ok tt →
  generation_outside generation = false →
  validate_stored_provider_account (account_of id generation d) = Ok tt.
Proof.
  intros Hid Hd Hg. unfold validate_stored_provider_account. cbn [account_of pa_metadata md_id md_generation].
  rewrite Hid, Hg. rewrite bool_decide_eq_true_2 by done. cbn [negb].
  assert (from_account (account_of id generation d) = d) as -> by by destruct d.
  rewrite Hd. unfold validate_provider_account.
  cbn [account_of pa_metadata md_display_name md_generation pa_status pa_spec].
  revert Hd. unfold ProviderAccountDesired_validate.
  destruct (validate_account_text (pd_display_name d) _ _ _) as [[]|] eqn:Et; [|done].
  destruct (validate_option _ (pd_owner d)) as [[]|]; [|done].
  destruct (_ <? _)%Z; [done|]. destruct (validate_all validate_label _) as [[]|]; [|done].
  destruct (negb _); [done|]. destruct (ProviderAccountSpec_validate (pd_spec d)) as [[]|]; [|done]. intros _.
  apply validate_account_text_ok in Et as [Hne Htrim]. rewrite trim_nonempty by auto. cbn [orb].
  unfold generation_outside in Hg. apply orb_false_iff in Hg as [Hz _]. rewrite Hz.
  unfold CloudResourceStatus_validate. cbn [empty_status st_observed_generation st_provider_resource st_conditions].
  by rewrite Hz.
Qed.

(** What is persisted is what was asked for: [provider_account_from_desired]
    succeeds exactly for a valid identifier, a valid desired state and a
    generation between 1 and [i64::MAX]; the account then carries that identifier
    and generation and an empty status, passes the validation of stored accounts,
    and reading the desired state back gives the one stored. *)
Theorem provider_account_roundtrip `{DesiredEncoding} (id : string) (generation : Z)
    (d : ProviderAccountDesired) (a : ProviderAccount) :
  provider_account_from_desired id generation d = Ok a ↔
  CloudResourceId_validate id = Ok tt ∧ ProviderAccountDesired_validate d = Ok tt ∧
  generation_outside generation = false ∧ pa_id a = id ∧ md_generation (pa_metadata a) = generation ∧
  pa_status a = empty_status ∧ from_account a = d ∧ validate_stored_provider_account a = Ok tt.
Proof.
  unfold provider_account_from_desired. split.
  - destruct (CloudResourceId_validate id) as [[]|] eqn:Ei; [|done].
    destruct (ProviderAccountDesired_validate d) as [[]|] eqn:Ed; [|done].
    destruct (generation_outside generation) eqn:Eg; [done|].
    destruct (validate_stored_provider_account _) as [[]|] eqn:Es; [|done]. intros [= <-].
    split_and!; try done. by destruct d.
  - intros (Hi&Hd&Hg&Hpid&Hgen&Hst&Hf&Hs). rewrite Hi, Hd, Hg.
    rewrite stored_account_valid by done. f_equal. subst.
    by destruct a as [[] ? ?]; simpl in *; subst.
Qed.

(** ** Conditions *)

(** What [check_conditions] checks of each condition. *)
Definition condition_ok (generation : Z) (observed : option Z) (c : CloudCondition) : Prop :=
  CloudCondition_validate c = Ok tt ∧ (cc_observed_generation c <= generation)%Z ∧
  ∃ o, observed = Some o ∧ (cc_observed_generation c <= o)%Z.

Lemma check_conditions_iff generation observed types l :
  check_conditions generation observed types l = Ok tt ↔
  Forall (condition_ok generation observed) l ∧
  NoDup (map cc_condition_type l) ∧ ∀ c, c ∈ l → cc_condition_type c ∉ types.
Proof.
  revert types. induction l as [|c l IH]; intros types; cbn [check_conditions].
  { split; [|done]. intros _. split_and!; [apply Forall_nil_2|apply NoDup_nil_2|set_solver]. }
  rewrite Forall_cons. cbn [map]. rewrite NoDup_cons.
  assert (condition_ok generation observed c ↔ CloudCondition_validate c = Ok tt ∧
    (generation <? cc_observed_generation c)%Z = false ∧
    match observed with Some o => (o <? cc_observed_generation c)%Z | None => true end = false) as ->.
  { unfold condition_ok. rewrite Z.ltb_ge. destruct observed as [o|]; [rewrite Z.ltb_ge|]; naive_solver. }
  destruct (CloudCondition_validate c) as [[]|]; [|naive_solver].
  destruct (_ <? _)%Z; [naive_solver|]. destruct (match observed with Some _ => _ | None => _ end);
    [naive_solver|]. cbn [orb].
  case_bool_decide as Ht.
  - split; [done|]. intros (_&_&Hn). by destruct (Hn c (list_elem_of_here _ _)).
  - rewrite IH. split.
    + intros (Hf&Hn&Hd). split_and!; try done.
      * rewrite list_elem_of_fmap. intros (c'&He&Hin). destruct (Hd c' Hin). rewrite He. set_solver.
      * intros c' [->|Hin]%elem_of_cons; [done|]. specialize (Hd c' Hin). set_solver.
    + intros ([_ Hf]&[Hc Hn]&Hd). split_and!; [done|done|]. intros c' Hin [He|Ht']%elem_of_cons.
      * destruct Hc. rewrite list_elem_of_fmap. by exists c'.
      * apply (Hd c'); [by right|done].
Qed.

(** The condition that [set_condition] stores in place of [existing]. *)
Definition kept_transition (c existing : CloudCondition) : Z :=
  if bool_decide (cc_status c = cc_status existing) && String.eqb (cc_reason c) (cc_reason existing)
     && String.eqb (cc_message c) (cc_message existing)
  then cc_last_transition_unix_ms existing else cc_last_transition_unix_ms c.
Definition with_transition (c : CloudCondition) (t : Z) : CloudCondition :=
  mkCondition (cc_condition_type c) (cc_status c) (cc_reason c) (cc_message c) (cc_observed_generation c) t.
Definition not_backwards (c existing : CloudCondition) : Prop :=
  (cc_observed_generation existing <= cc_observed_generation c)%Z ∧
  (cc_last_transition_unix_ms existing <= cc_last_transition_unix_ms c)%Z.

(** [put_condition] as a case analysis: the type is new, or one condition is
    replaced by one that does not move backwards. *)
Lemma put_condition_iff c l l' :
  put_condition c l = Ok l' ↔
  (cc_condition_type c ∉ map cc_condition_type l ∧ l' = l ++ [c]) ∨
  ∃ before existing after, l = before ++ existing :: after ∧
    cc_condition_type c ∉ map cc_condition_type before ∧
    cc_condition_type existing = cc_condition_type c ∧ not_backwards c existing ∧
    l' = before ++ with_transition c (kept_transition c existing) :: after.
Proof.
  revert l'. induction l as [|e l IH]; intros l'; cbn [put_condition].
  { split; [intros [= <-]; left; by split; [set_solver|]|].
    intros [[_ ->]|(b&?&?&?&_)]; [done|by destruct b]. }
  case_bool_decide as He.
  - fold (kept_transition c e). fold (with_transition c (kept_transition c e)). split.
    + destruct (cc_observed_generation c <? _)%Z eqn:Hg; [done|].
      destruct (cc_last_transition_unix_ms c <? _)%Z eqn:Ht; [done|]. intros [= <-]. right.
      exists [], e, l. split_and!; [done|set_solver|done|by split; apply Z.ltb_ge|done].
    + intros [[Hn _]|(b&e'&a&Hl&Hb&Hty&[Hg Ht]&->)]; [destruct Hn; rewrite <- He; left|].
      destruct b as [|x b]; injection Hl as -> ->; [|destruct Hb; simpl; rewrite <- He; left].
      apply Z.ltb_ge in Hg, Ht. by rewrite Hg, Ht.
  - split.
    + destruct (put_condition c l) as [rest|] eqn:Ep; [|done]. intros [= <-].
      destruct (proj1 (IH rest) eq_refl) as [[Hn ->]|(b&e'&a&->&Hb&Hty&Hnb&->)].
      * left. split; [|done]. simpl. rewrite not_elem_of_cons. by split.
      * right. exists (e :: b), e', a. split_and!; try done. simpl. rewrite not_elem_of_cons. by split.
    + intros [[Hn ->]|(b&e'&a&Hl&Hb&Hty&Hnb&->)].
      * simpl in Hn. apply not_elem_of_cons in Hn as [_ Hn].
        rewrite (proj2 (IH (l ++ [c])) (or_introl (conj Hn eq_refl))). done.
      * destruct b as [|x b]; injection Hl as -> Hl; [by destruct He|].
        simpl in Hb. apply not_elem_of_cons in Hb as [_ Hb].
        rewrite (proj2 (IH (b ++ with_transition c (kept_transition c e') :: a))); [done|].
        right. by exists b, e', a.
Qed.

Lemma with_transition_valid c t :
  CloudCondition_validate c = Ok tt → (0 <= t)%Z → CloudCondition_validate (with_transition c t) = Ok tt.
Proof.
  unfold CloudCondition_validate. cbn [with_transition cc_reason cc_message cc_observed_generation
    cc_last_transition_unix_ms].
  destruct (validate_reason _) as [[]|]; [|done]. destruct (validate_text _ _ _) as [[]|]; [|done].
  intros Hc Ht. destruct (_ =? _)%Z; [done|]. assert ((t <? 0)%Z = false) as -> by (by apply Z.ltb_ge). done.
Qed.

Lemma condition_time_nonneg c : CloudCondition_validate c = Ok tt → (0 <= cc_last_transition_unix_ms c)%Z.
Proof.
  unfold CloudCondition_validate. destruct (validate_reason _) as [[]|]; [|done].
  destruct (validate_text _ _ _) as [[]|]; [|done]. destruct (_ =? _)%Z; [done|]. cbn [orb].
  destruct (_ <? 0)%Z eqn:E; [done|]. by apply Z.ltb_ge in E.
Qed.

Lemma CloudResourceStatus_validate_iff s g :
  CloudResourceStatus_validate s g = Ok tt ↔
  g ≠ 0%Z ∧ (∀ o, st_observed_generation s = Some o → o ≠ 0%Z ∧ (o <= g)%Z) ∧
  validate_option ProviderResourceRef_validate (st_provider_resource s) = Ok tt ∧
  Forall (condition_ok g (st_observed_generation s)) (st_conditions s) ∧
  NoDup (map cc_condition_type (st_conditions s)).
Proof.
  unfold CloudResourceStatus_validate. destruct (Z.eqb_spec g 0) as [->|Hg]; [naive_solver|]. cbn [orb].
  destruct (is_some_and _ (st_observed_generation s)) eqn:Ho.
  - split; [done|]. intros (_&Hobs&_). destruct (st_observed_generation s) as [o|]; [|done].
    destruct (Hobs o eq_refl) as [Hz Hle]. simpl in Ho.
    apply orb_true_iff in Ho as [->%Z.eqb_eq|Hlt%Z.ltb_lt]; [done|lia].
  - destruct (validate_option _ _) as [[]|]; [|naive_solver]. rewrite check_conditions_iff.
    split; [intros (Hf&Hn&_)|intros (_&_&_&Hf&Hn); by split_and!; [| |set_solver]].
    split_and!; try done. intros o Hs. rewrite Hs in Ho. simpl in Ho.
    apply orb_false_iff in Ho as [Hz%Z.eqb_neq Hle%Z.ltb_ge]. done.
Qed.

(** The conditions after a successful update. *)
Lemma put_condition_keeps g o o' c l l' :
  CloudCondition_validate c = Ok tt → (cc_observed_generation c <= g)%Z →
  (cc_observed_generation c <= o')%Z → (default 0%Z o <= o')%Z →
  Forall (condition_ok g o) l → NoDup (map cc_condition_type l) → put_condition c l = Ok l' →
  Forall (condition_ok g (Some o')) l' ∧ NoDup (map cc_condition_type l').
Proof.
  intros Hc Hg Ho Hoo Hf Hn.
  assert (∀ e, condition_ok g o e → condition_ok g (Some o') e) as Hmono.
  { intros e (?&?&o0&->&?). split_and!; [done|done|]. exists o'. split; [done|]. simpl in Hoo. lia. }
  assert (∀ t, (0 <= t)%Z → condition_ok g (Some o') (with_transition c t)) as Hnew.
  { intros t Ht. split_and!; [by apply with_transition_valid|done|by exists o']. }
  intros [[Hni ->]|(b&e&a&->&Hb&Hty&Hnb&->)]%put_condition_iff.
  - rewrite map_app, Forall_app, NoDup_app. simpl. rewrite Forall_singleton. split_and!; try done.
    + eapply Forall_impl; eauto.
    + split_and!; [done|done|by exists o'].
    + intros t Ht. rewrite list_elem_of_singleton. by intros ->.
    + apply NoDup_singleton.
  - apply Forall_app in Hf as [Hfb [He Hfa]%Forall_cons]. rewrite map_app in *. split.
    + apply Forall_app; split; [eapply Forall_impl; eauto|]. apply Forall_cons. split; [|eapply Forall_impl; eauto].
      apply Hnew. unfold kept_transition.
      destruct (_ && _); [by apply condition_time_nonneg, He|by apply condition_time_nonneg].
    + cbn [map with_transition cc_condition_type]. rewrite <- Hty. by simpl in Hn.
Qed.

Lemma put_condition_total c l :
  NoDup (map cc_condition_type l) →
  ((∃ l', put_condition c l = Ok l') ↔
   ∀ e, e ∈ l → cc_condition_type e = cc_condition_type c → not_backwards c e).
Proof.
  intros Hn. split.
  - intros (l'&[[Hni ->]|(b&x&a&->&Hb&Hty&Hnb&->)]%put_condition_iff) e He Ht.
    + destruct Hni. rewrite <- Ht. apply list_elem_of_fmap. by exists e.
    + assert (e = x) as ->; [|done]. rewrite map_app in Hn. apply NoDup_app in Hn as (_&Hd&[Ha _]%NoDup_cons).
      apply elem_of_app in He as [He|[->|He]%elem_of_cons]; [|done|].
      * destruct Hb. rewrite <- Ht. apply list_elem_of_fmap. by exists e.
      * destruct Ha. rewrite Hty, <- Ht. apply list_elem_of_fmap. by exists e.
  - intros Hall. destruct (decide (cc_condition_type c ∈ map cc_condition_type l)) as [Hin|Hni].
    + clear Hn. induction l as [|x l IH]; [by apply not_elem_of_nil in Hin|]. cbn [put_condition].
      case_bool_decide as Hx.
      * destruct (Hall x (list_elem_of_here _ _) Hx) as [->%Z.ltb_ge ->%Z.ltb_ge]. by eexists.
      * destruct IH as [l' ->]; [by intros e He; apply Hall; right| |by eexists].
        apply elem_of_cons in Hin as [?|?]; [congruence|done].
    + exists (l ++ [c]). apply put_condition_iff. by left.
Qed.

Lemma put_condition_others c l l' e :
  put_condition c l = Ok l' → cc_condition_type e ≠ cc_condition_type c → e ∈ l' ↔ e ∈ l.
Proof.
  intros [[_ ->]|(b&x&a&->&_&Hty&_&->)]%put_condition_iff He.
  - rewrite elem_of_app, list_elem_of_singleton. naive_solver.
  - rewrite !elem_of_app, !elem_of_cons. split; intros [?|[->|?]]; auto; by destruct He.
Qed.

Lemma put_condition_type c l l' e :
  NoDup (map cc_condition_type l) → put_condition c l = Ok l' →
  e ∈ l' ∧ cc_condition_type e = cc_condition_type c ↔
  (cc_condition_type c ∉ map cc_condition_type l ∧ e = c) ∨
  ∃ x, x ∈ l ∧ cc_condition_type x = cc_condition_type c ∧ e = with_transition c (kept_transition c x).
Proof.
  intros Hn [[Hni ->]|(b&x&a&->&Hb&Hty&_&->)]%put_condition_iff.
  - rewrite elem_of_app, list_elem_of_singleton. split.
    + intros [[Hin| ->] Ht]; [|by left]. destruct Hni. rewrite <- Ht. apply list_elem_of_fmap. by exists e.
    + intros [[_ ->]|(x&Hx&Ht&_)]; [by auto|]. destruct Hni. rewrite <- Ht. apply list_elem_of_fmap. by exists x.
  - assert (∀ y, y ∈ b ++ x :: a → cc_condition_type y = cc_condition_type c → y = x) as Huniq.
    { intros y Hy Ht. rewrite map_app in Hn. apply NoDup_app in Hn as (_&_&[Ha _]%NoDup_cons).
      apply elem_of_app in Hy as [Hy|[->|Hy]%elem_of_cons]; [|done|].
      - destruct Hb. rewrite <- Ht. apply list_elem_of_fmap. by exists y.
      - destruct Ha. rewrite Hty, <- Ht. apply list_elem_of_fmap. by exists y. }
    split.
    + intros [Hin Ht]. right. exists x. split_and!; [set_solver|done|].
      apply elem_of_app in Hin as [Hin|[->|Hin]%elem_of_cons]; [|done|].
      * destruct Hb. rewrite <- Ht. apply list_elem_of_fmap. by exists e.
      * rewrite map_app in Hn. apply NoDup_app in Hn as (_&_&[Ha _]%NoDup_cons).
        destruct Ha. rewrite Hty, <- Ht. apply list_elem_of_fmap. by exists e.
    + intros [[Hni _]|(y&Hy&Ht&->)].
      * destruct Hni. rewrite <- Hty. apply list_elem_of_fmap. exists x. split; [done|set_solver].
      * rewrite (Huniq y Hy Ht). split; [set_solver|done].
Qed.

Definition set_conditions (s : CloudResourceStatus) (c : CloudCondition) (l : list CloudCondition) :
    CloudResourceStatus :=
  mkStatus (Some (Z.max (default 0%Z (st_observed_generation s)) (cc_observed_generation c)))
    (st_provider_resource s) l.

Lemma condition_generation_nonzero c :
  CloudCondition_validate c = Ok tt → cc_observed_generation c ≠ 0%Z.
Proof.
  intros Hc Hz. revert Hc. unfold CloudCondition_validate. rewrite Hz.
  destruct (validate_reason _) as [[]|]; [|done]. by destruct (validate_text _ _ _) as [[]|].
Qed.

Lemma set_conditions_valid s c g l' :
  CloudResourceStatus_validate s g = Ok tt → CloudCondition_validate c = Ok tt →
  (0 <= cc_observed_generation c)%Z → (0 <= default 0 (st_observed_generation s))%Z →
  (cc_observed_generation c <= g)%Z → put_condition c (st_conditions s) = Ok l' →
  CloudResourceStatus_validate (set_conditions s c l') g = Ok tt.
Proof.
  intros (Hg0&Hob&Hpr&Hf&Hn)%CloudResourceStatus_validate_iff Hc Hc0 Ho0 Hle Hp.
  pose proof (condition_generation_nonzero c Hc) as Hnz.
  set (o' := Z.max (default 0%Z (st_observed_generation s)) (cc_observed_generation c)).
  destruct (put_condition_keeps g (st_observed_generation s) o' c (st_conditions s) l') as [Hf' Hn'];
    [done|done|lia|lia|done|done|done|].
  apply CloudResourceStatus_validate_iff. split_and!; [done| |done|done|done].
  intros o [= <-]. destruct (st_observed_generation s) as [o|]; simpl in *; [|lia].
  destruct (Hob o eq_refl). lia.
Qed.

Lemma set_condition_iff s c g s' :
  CloudResourceStatus_validate s g = Ok tt → CloudCondition_validate c = Ok tt →
  (0 <= cc_observed_generation c)%Z → (0 <= default 0 (st_observed_generation s))%Z →
  set_condition s c g = Ok s' ↔
  (cc_observed_generation c <= g)%Z ∧ ∃ l', put_condition c (st_conditions s) = Ok l' ∧
    s' = set_conditions s c l'.
Proof.
  intros Hs Hc Hc0 Ho0. split.
  - unfold set_condition. rewrite Hc. destruct (g <? cc_observed_generation c)%Z eqn:Hlt; [done|].
    apply Z.ltb_ge in Hlt. destruct (put_condition c (st_conditions s)) as [l'|]; [|done].
    fold (set_conditions s c l'). destruct (CloudResourceStatus_validate (set_conditions s c l') g); [|done].
    intros [= <-]. split; [done|]. by exists l'.
  - intros (Hle&l'&Hp&->). unfold set_condition. rewrite Hc, Hp.
    assert ((g <? cc_observed_generation c)%Z = false) as -> by (by apply Z.ltb_ge).
    fold (set_conditions s c l'). by rewrite set_conditions_valid.
Qed.

(** Conditions never move backwards.  For a valid status and condition,
    [set_condition] succeeds exactly if the condition is not of a future
    generation and neither its generation nor its transition time is older than
    that of the stored condition of the same type.  It then leaves a valid status
    with one condition of that type, which has the new content and generation; the
    transition time is that of the stored condition if the content is the same;
    the other conditions and the provider reference are untouched, and the
    observed generation never decreases. *)
Theorem condition_update_monotone (s : CloudResourceStatus) (c : CloudCondition) (g : Z) :
  CloudResourceStatus_validate s g = Ok tt → CloudCondition_validate c = Ok tt →
  (0 <= cc_observed_generation c)%Z → (0 <= default 0 (st_observed_generation s))%Z →
  ((∃ s', set_condition s c g = Ok s') ↔
     (cc_observed_generation c <= g)%Z ∧
     ∀ e, e ∈ st_conditions s → cc_condition_type e = cc_condition_type c → not_backwards c e) ∧
  ∀ s', set_condition s c g = Ok s' →
    CloudResourceStatus_validate s' g = Ok tt ∧ st_provider_resource s' = st_provider_resource s ∧
    st_observed_generation s' =
      Some (Z.max (default 0%Z (st_observed_generation s)) (cc_observed_generation c)) ∧
    (∀ e, cc_condition_type e ≠ cc_condition_type c → e ∈ st_conditions s' ↔ e ∈ st_conditions s) ∧
    ∀ e, e ∈ st_conditions s' ∧ cc_condition_type e = cc_condition_type c ↔
      (cc_condition_type c ∉ map cc_condition_type (st_conditions s) ∧ e = c) ∨
      ∃ existing, existing ∈ st_conditions s ∧ cc_condition_type existing = cc_condition_type c ∧
        e = with_transition c (kept_transition c existing).
Proof.
  intros Hs Hc Hc0 Ho0. pose proof Hs as (_&_&_&_&Hn)%CloudResourceStatus_validate_iff. split.
  - split.
    + intros (s'&Hset). destruct (proj1 (set_condition_iff s c g s' Hs Hc Hc0 Ho0) Hset) as (Hg&l'&Hp&_).
      split; [done|]. apply put_condition_total; [done|by eexists].
    + intros [Hg Hnb]. apply put_condition_total in Hnb as [l' Hp]; [|done].
      exists (set_conditions s c l'). apply set_condition_iff; [done..|]. split; [done|]. by exists l'.
  - intros s' Hset. destruct (proj1 (set_condition_iff s c g s' Hs Hc Hc0 Ho0) Hset) as (Hg&l'&Hp&->).
    split_and!; [by apply set_conditions_valid|done|done| |].
    + intros e He. by eapply put_condition_others.
    + intros e. by apply put_condition_type.
Qed.

Definition demo_condition (status : CloudConditionStatus) (generation time : Z) : CloudCondition :=
  mkCondition DnsReady status "RecordsObserved" "Authoritative records match" generation time.
Definition demo_status : CloudResourceStatus := mkStatus (Some 5%Z) None [demo_condition CondTrue 5 10].

Lemma condition_update_monotone_witness :
  (∃ s', set_condition demo_status (demo_condition CondFalse 6 20) 7 = Ok s') ∧
  ¬ ∃ s', set_condition demo_status (demo_condition CondFalse 4 20) 7 = Ok s'.
Proof.
  split.
  - apply (condition_update_monotone demo_status (demo_condition CondFalse 6 20) 7);
      [reflexivity|reflexivity|cbn; lia|cbn; lia|]. split; [cbn; lia|].
    intros e ->%list_elem_of_singleton _. split; cbn; lia.
  - intros Hs. destruct (condition_update_monotone demo_status (demo_condition CondFalse 4 20) 7) as [Hiff _];
      [reflexivity|reflexivity|cbn; lia|cbn; lia|]. apply Hiff in Hs as [_ Hall].
    destruct (Hall (demo_condition CondTrue 5 10)) as [Hg _]; [left|reflexivity|]. cbn in Hg. lia.
Defined.

(** ** The event history *)

(** The events a history accepts, one after the other. *)
Fixpoint accepted_events (latest : option CloudEvent) (events : list CloudEvent) : list CloudEvent :=
  match events with
  | [] => []
  | e :: events =>
      if is_ok (CloudEvent_validate e)
         && negb (is_some_and (λ l, (ce_occurred_at_unix_ms e <? ce_occurred_at_unix_ms l)%Z) latest)
      then e :: accepted_events (Some e) events else accepted_events latest events
  end.

(** A history that is pushed to; a refused event leaves it as it is. *)
Definition push_all (h : BoundedCloudEventHistory) (events : list CloudEvent) : BoundedCloudEventHistory :=
  fold_left (λ h e, match push_event h e with Ok h' => h' | Err _ => h end) events h.

Definition lastn {A} (n : nat) (l : list A) : list A := drop (length l - n) l.

Lemma last_lastn {A} n (l : list A) : (0 < n)%nat → last (lastn n l) = last l.
Proof.
  intros Hn. destruct (decide (l = [])) as [->|Hl]; [done|]. unfold lastn.
  rewrite !last_lookup, length_drop, lookup_drop. f_equal.
  assert (length l ≠ 0%nat) by (by destruct l). lia.
Qed.

Lemma tail_drop_1 {A} (l : list A) : tail l = drop 1 l.
Proof. by destruct l as [|? []]. Qed.

Lemma lastn_snoc {A} n (l : list A) x : (0 < n)%nat →
  lastn n (l ++ [x]) = (if length (lastn n l) =? n then tail (lastn n l) else lastn n l) ++ [x].
Proof.
  intros Hn. unfold lastn. rewrite length_app, length_drop. simpl.
  destruct (Nat.eqb_spec (length l - (length l - n)) n) as [He|He].
  - rewrite drop_app_le by lia. f_equal. rewrite tail_drop_1. rewrite drop_drop. f_equal. lia.
  - rewrite drop_app_le by lia. f_equal. f_equal. lia.
Qed.

Lemma push_all_events m acc events : (0 < m)%nat →
  push_all (mkHistory m (lastn m acc)) events =
  mkHistory m (lastn m (acc ++ accepted_events (last acc) events)).
Proof.
  intros Hm. revert acc. induction events as [|e events IH]; intros acc; cbn [push_all fold_left accepted_events].
  { by rewrite app_nil_r. }
  fold (push_all (match push_event (mkHistory m (lastn m acc)) e with
                  | Ok h' => h' | Err _ => mkHistory m (lastn m acc) end) events).
  unfold push_event at 1. cbn [eh_events eh_max_events]. rewrite last_lastn by done.
  destruct (CloudEvent_validate e) as [[]|]; [|apply IH]. cbn [is_ok andb].
  destruct (is_some_and _ (last acc)); [apply IH|]. cbn [negb].
  rewrite <- lastn_snoc by done. rewrite IH. rewrite last_snoc, <- app_assoc. done.
Qed.

Lemma accepted_sorted latest events :
  Sorted (λ a b, ce_occurred_at_unix_ms a <= ce_occurred_at_unix_ms b)%Z
    (option_list latest ++ accepted_events latest events).
Proof.
  revert latest. induction events as [|e events IH]; intros latest; cbn [accepted_events].
  { destruct latest; simpl; repeat constructor. }
  destruct (is_ok _); [|apply IH]. cbn [andb].
  destruct (is_some_and _ latest) eqn:El; cbn [negb]; [apply IH|].
  destruct latest as [l|]; simpl; [|apply (IH (Some e))].
  constructor; [apply (IH (Some e))|]. constructor. simpl in El. by apply Z.ltb_ge in El.
Qed.

(** C39.  The event history keeps the latest events, in time order and within its
    capacity: whatever is pushed to a fresh history, it holds the last
    [max_events] of the events accepted so far, which are the valid ones that are
    not older than the last one accepted. *)
Theorem event_history_keeps_latest (max_events : nat) (h : BoundedCloudEventHistory) (events : list CloudEvent) :
  BoundedCloudEventHistory_new max_events = Ok h →
  let kept := eh_events (push_all h events) in
  kept = lastn max_events (accepted_events None events) ∧ length kept <= max_events ∧
  (Z.of_nat max_events <= MAX_EVENT_HISTORY)%Z ∧
  Sorted (λ a b, ce_occurred_at_unix_ms a <= ce_occurred_at_unix_ms b)%Z (accepted_events None events).
Proof.
  unfold BoundedCloudEventHistory_new. destruct (Z.eqb_spec (Z.of_nat max_events) 0) as [|Hz]; [done|].
  destruct (_ <? _)%Z eqn:Hm; [done|]. apply Z.ltb_ge in Hm. intros [= <-].
  pose proof (push_all_events max_events [] events ltac:(lia)) as Hp. 
  assert (lastn max_events [] = @nil CloudEvent) as Hnil by apply drop_nil. rewrite Hnil in Hp.
  rewrite Hp. cbn [eh_events app last].
  split_and!; [done|unfold lastn; rewrite length_drop; lia|done|apply (accepted_sorted None)].
Qed.

Definition demo_event (generation time : Z) : CloudEvent :=
  mkEvent "correlation" KindManagedZone "zone-a" generation (Some DnsReady) "RecordsObserved"
    "Authoritative records match" time.

Lemma event_history_keeps_latest_witness :
  BoundedCloudEventHistory_new 2 = Ok (mkHistory 2 []) ∧
  eh_events (push_all (mkHistory 2 []) [demo_event 1 10; demo_event 2 20; demo_event 3 30]) =
  [demo_event 2 20; demo_event 3 30].
Proof.
  split; [reflexivity|].
  destruct (event_history_keeps_latest 2 (mkHistory 2 [])
    [demo_event 1 10; demo_event 2 20; demo_event 3 30]) as [He _]; [reflexivity|].
  rewrite He. vm_compute. reflexivity.
Defined.
