(* ===== verification/Capabilities.v ===== *)
(** * Capabilities: capability discovery and the fail-closed mutation gate

    [crates/center-core/src/cloud/capabilities.rs]: observations of what a
    provider account may do, their validation, the snapshot a discovery leaves
    and the evaluation of requirements against it.  The size of the JSON encoding
    of a snapshot is a parameter. *)

From Stdlib Require Import ZArith Ascii String Lia.
From S2P Require Import Prelude Text Core Json BTree NetAddr Dns ZoneLifecycle CloudAccounts.

Definition CAPABILITY_CONTRACT_VERSION : Z := 1.
Definition MAX_REGION_LEN : Z := 128.
Definition MAX_REVISION_LEN : Z := 512.
Definition MAX_DISCOVERY_TOKEN_LEN : Z := 512.
Definition MAX_EXTERNAL_ID_LEN : Z := 1024.
Definition MAX_DIAGNOSTIC_CODE_LEN : Z := 128.
Definition MAX_DIAGNOSTIC_MESSAGE_LEN : Z := 2048.
Definition MAX_CAPABILITIES_PER_REPORT : Z := 256.
Definition MAX_ISSUES_PER_REPORT : Z := 128.
Definition MAX_SNAPSHOT_SERIALIZED_BYTES : Z := 512 * 1024.

Definition SanitizedCapabilityCode_validate (value : string) : CoreResult () :=
  validate_text value "capability diagnostic code" MAX_DIAGNOSTIC_CODE_LEN.
Definition SanitizedCapabilityMessage_validate (value : string) : CoreResult () :=
  validate_text value "capability diagnostic message" MAX_DIAGNOSTIC_MESSAGE_LEN.
Definition ProviderRegion_validate (value : string) : CoreResult () :=
  validate_text value "provider region" MAX_REGION_LEN.
Definition DiscoveryToken_validate (value : string) : CoreResult () :=
  validate_text value "capability discovery token" MAX_DISCOVERY_TOKEN_LEN.
Definition validate_optional_bounded_text (value : option string) (kind : string) (max_len : Z) :
    CoreResult () := validate_option (λ v, validate_text v kind max_len) value.

(** ** Data *)

Inductive DnsCapability :=
| PublicZones | PrivateZones | RecordSets | Dnssec | ApexAlias | ProxiedRecords | WeightedRouting
| GeolocationRouting | FailoverRouting | AtomicChanges.
Inductive ProviderCapability := CapDns (c : DnsCapability).
Inductive CapabilityAction := ActObserve | ActCreate | ActUpdate | ActDelete | ActExecute.
Definition CapabilityAction_ALL : list CapabilityAction :=
  [ActObserve; ActCreate; ActUpdate; ActDelete; ActExecute].
Record CapabilityRequirement := mkRequirement {
  rq_capability : ProviderCapability;
  rq_action : CapabilityAction;
}.
Inductive CapabilityScope :=
| CapAccount
| CapRegion (region : string)
| CapResource (resource_kind : CloudResourceKind) (resource : ProviderResourceRef).
Inductive CapabilityDimension :=
| AdapterSupport | ProviderSupport | Entitlement | AccessDim | LocationDim | QuotaDim.
Definition ACTION_INDEPENDENT : list CapabilityDimension :=
  [AdapterSupport; ProviderSupport; Entitlement; LocationDim].
Inductive TriState := Affirmative | Negative | TriUnknown | TriNotApplicable.
Inductive CapabilityReason :=
| AdapterNotImplemented | ProviderUnsupported | NotEntitled | AuthenticationFailed
| DiscoveryPermissionDenied | BusinessPermissionDenied | LocationUnavailable | QuotaExhausted
| NotDiscovered | ProbeFailed | ProviderUnavailable | InvalidProviderResponse.
Inductive CapabilityEvidence :=
| AdapterContract | ProviderMetadata | ProviderProbe | PermissionProbe | QuotaProbe.

#[export] Instance DnsCapability_eq_dec : EqDecision DnsCapability.
Proof. solve_decision. Defined.
#[export] Instance ProviderCapability_eq_dec : EqDecision ProviderCapability.
Proof. solve_decision. Defined.
#[export] Instance CapabilityAction_eq_dec : EqDecision CapabilityAction.
Proof. solve_decision. Defined.
#[export] Instance CapabilityRequirement_eq_dec : EqDecision CapabilityRequirement.
Proof. solve_decision. Defined.
#[export] Instance CapabilityScope_eq_dec : EqDecision CapabilityScope.
Proof. solve_decision. Defined.
#[export] Instance CapabilityDimension_eq_dec : EqDecision CapabilityDimension.
Proof. solve_decision. Defined.
#[export] Instance TriState_eq_dec : EqDecision TriState.
Proof. solve_decision. Defined.
#[export] Instance CapabilityReason_eq_dec : EqDecision CapabilityReason.
Proof. solve_decision. Defined.
#[export] Instance CapabilityEvidence_eq_dec : EqDecision CapabilityEvidence.
Proof. solve_decision. Defined.

(** The derived order of requirements: capability, then action. *)
Definition capability_index (c : ProviderCapability) : Z :=
  match c with CapDns d =>
    match d with
    | PublicZones => 0 | PrivateZones => 1 | RecordSets => 2 | Dnssec => 3 | ApexAlias => 4
    | ProxiedRecords => 5 | WeightedRouting => 6 | GeolocationRouting => 7 | FailoverRouting => 8
    | AtomicChanges => 9
    end
  end.
Definition action_index (a : CapabilityAction) : Z :=
  match a with ActObserve => 0 | ActCreate => 1 | ActUpdate => 2 | ActDelete => 3 | ActExecute => 4 end.
Definition requirement_rank (r : CapabilityRequirement) : Z * Z :=
  (capability_index (rq_capability r), action_index (rq_action r)).
#[export] Instance requirement_ord : Ord CapabilityRequirement :=
  λ a b, cmp (requirement_rank a) (requirement_rank b).
#[export] Instance requirement_ord_laws : OrdLaws CapabilityRequirement.
Proof.
  apply (ord_via_laws requirement_rank). intros [[c] a] [[d] b]. unfold requirement_rank. cbn.
  intros [= Hc Ha]. f_equal; [f_equal; by destruct c, d|by destruct a, b].
Qed.

Definition validate_for_account (scope : CapabilityScope) (account_id : string) : CoreResult () :=
  match scope with
  | CapAccount => Ok tt
  | CapRegion region => ProviderRegion_validate region
  | CapResource _ resource =>
      let? _ := CloudResourceId_validate (pr_provider_account_id resource) in
      let? _ := validate_text (pr_external_id resource) "provider external resource" MAX_EXTERNAL_ID_LEN in
      if negb (String.eqb (pr_provider_account_id resource) account_id)
      then Err (Conflict "capability resource scope belongs to a different provider account")
      else Ok tt
  end.

(** [is_retired_capability_snapshot_json] after the JSON parser. *)
Definition retired_family (fields : list (string * Value)) : bool :=
  match field "family" fields with
  | Some (Str s) => str_in s ["certificate"; "edge"; "health_check"; "cache"; "waf"]
  | _ => false
  end.
Fixpoint contains_retired_capability_family (v : Value) : bool :=
  match v with
  | Object values =>
      retired_family values
      || (fix any (values : list (string * Value)) : bool :=
            match values with
            | [] => false
            | (_, v) :: values => contains_retired_capability_family v || any values
            end) values
  | Array values =>
      (fix any (values : list Value) : bool :=
         match values with
         | [] => false
         | v :: values => contains_retired_capability_family v || any values
         end) values
  | _ => false
  end.

(** ** Observations *)

Record CapabilityDimensionObservation := mkDim {
  cd_dimension : CapabilityDimension;
  cd_action : option CapabilityAction;
  cd_state : TriState;
  cd_reason : option CapabilityReason;
  cd_evidence : CapabilityEvidence;
  cd_code : option string;
  cd_message : option string;
  cd_observed_at_unix_ms : Z;                (* i64 *)
  cd_valid_until_unix_ms : Z;                (* i64 *)
}.
Record CapabilityObservation := mkCapObservation {
  co_capability : ProviderCapability;
  co_dimensions : list CapabilityDimensionObservation;
}.

Definition reason_matches_dimension (dimension : CapabilityDimension) (state : TriState)
    (reason : option CapabilityReason) : bool :=
  match state with
  | Affirmative | TriNotApplicable => bool_decide (reason = None)
  | Negative =>
      match dimension, reason with
      | AdapterSupport, Some AdapterNotImplemented | ProviderSupport, Some ProviderUnsupported
      | Entitlement, Some NotEntitled | AccessDim, Some BusinessPermissionDenied
      | LocationDim, Some LocationUnavailable | QuotaDim, Some QuotaExhausted => true
      | _, _ => false
      end
  | TriUnknown =>
      match reason with
      | Some (NotDiscovered | ProbeFailed | ProviderUnavailable | InvalidProviderResponse
              | AuthenticationFailed | DiscoveryPermissionDenied) => true
      | _ => false
      end
  end.

Definition evidence_matches_dimension (dimension : CapabilityDimension) (evidence : CapabilityEvidence) :
    bool :=
  match dimension, evidence with
  | AdapterSupport, AdapterContract => true
  | ProviderSupport, (AdapterContract | ProviderMetadata | ProviderProbe) => true
  | (Entitlement | LocationDim), (ProviderMetadata | ProviderProbe) => true
  | AccessDim, PermissionProbe => true
  | QuotaDim, (QuotaProbe | ProviderMetadata) => true
  | _, _ => false
  end.

Definition CapabilityDimensionObservation_validate (o : CapabilityDimensionObservation) : CoreResult () :=
  if (cd_observed_at_unix_ms o <=? 0)%Z || (cd_valid_until_unix_ms o <=? cd_observed_at_unix_ms o)%Z
  then Err (Conflict "capability observation freshness window is invalid")
  else if (bool_decide (cd_state o = Affirmative) || bool_decide (cd_state o = TriNotApplicable))
          && bool_decide (is_Some (cd_reason o))
  then Err (Conflict "affirmative capability observation must not contain a failure reason")
  else if (bool_decide (cd_state o = Negative) || bool_decide (cd_state o = TriUnknown))
          && bool_decide (cd_reason o = None)
  then Err (Conflict "non-affirmative capability observation requires a stable reason")
  else if negb (reason_matches_dimension (cd_dimension o) (cd_state o) (cd_reason o))
  then Err (Conflict "capability reason does not match its dimension and state")
  else if negb match cd_dimension o with
               | AccessDim | QuotaDim => bool_decide (is_Some (cd_action o))
               | _ => bool_decide (cd_action o = None)
               end
          || (bool_decide (cd_state o = TriNotApplicable) && negb (bool_decide (cd_dimension o = QuotaDim)))
  then Err (Conflict "capability action or applicability is invalid for its dimension")
  else if negb (evidence_matches_dimension (cd_dimension o) (cd_evidence o))
  then Err (Conflict "capability evidence is invalid for its dimension")
  else
    let? _ := validate_option SanitizedCapabilityCode_validate (cd_code o) in
    validate_option SanitizedCapabilityMessage_validate (cd_message o).

Definition is_fresh_at (o : CapabilityDimensionObservation) (now_unix_ms : Z) : bool :=
  (cd_observed_at_unix_ms o <=? now_unix_ms)%Z && (now_unix_ms <? cd_valid_until_unix_ms o)%Z.

(** A loop that validates each element and refuses a repeated key with
    [duplicate]; [seen] is the set of keys so far. *)
Fixpoint check_distinct {A K} `{EqDecision K} (v : A → CoreResult ()) (key : A → K) (duplicate : string)
    (seen : list K) (l : list A) : CoreResult () :=
  match l with
  | [] => Ok tt
  | x :: l =>
      let? _ := v x in
      if bool_decide (key x ∈ seen) then Err (Conflict duplicate)
      else check_distinct v key duplicate (key x :: seen) l
  end.

Definition dimension_key (o : CapabilityDimensionObservation) := (cd_dimension o, cd_action o).

Definition CapabilityObservation_validate (o : CapabilityObservation) : CoreResult () :=
  if (zlen ACTION_INDEPENDENT + zlen CapabilityAction_ALL * 2 <? zlen (co_dimensions o))%Z
  then Err (Conflict "capability observation has too many dimensions")
  else check_distinct CapabilityDimensionObservation_validate dimension_key
         "capability observation contains duplicate dimensions" [] (co_dimensions o).

(** ** Issues, reports and snapshots *)

Inductive CapabilityDiscoveryState := DiscComplete | DiscPartial | DiscFailed.
Inductive CapabilityIssueSeverity := SevWarning | SevBlocking.
Inductive CapabilityIssueScope :=
| IssueAccount
| IssueRequirement (requirement : CapabilityRequirement)
| IssueDimension (requirement : CapabilityRequirement) (dimension : CapabilityDimension).
#[export] Instance CapabilityDiscoveryState_eq_dec : EqDecision CapabilityDiscoveryState.
Proof. solve_decision. Defined.
#[export] Instance CapabilityIssueSeverity_eq_dec : EqDecision CapabilityIssueSeverity.
Proof. solve_decision. Defined.
#[export] Instance CapabilityIssueScope_eq_dec : EqDecision CapabilityIssueScope.
Proof. solve_decision. Defined.

Record CapabilityDiscoveryIssue := mkIssue {
  ci_severity : CapabilityIssueSeverity;
  ci_scope : CapabilityIssueScope;
  ci_reason : CapabilityReason;
  ci_code : string;
  ci_message : string;
}.

Definition issue_reason_matches_dimension (reason : CapabilityReason) (dimension : CapabilityDimension) :
    bool :=
  match reason with
  | AdapterNotImplemented => bool_decide (dimension = AdapterSupport)
  | ProviderUnsupported => bool_decide (dimension = ProviderSupport)
  | NotEntitled => bool_decide (dimension = Entitlement)
  | BusinessPermissionDenied | DiscoveryPermissionDenied => bool_decide (dimension = AccessDim)
  | LocationUnavailable => bool_decide (dimension = LocationDim)
  | QuotaExhausted => bool_decide (dimension = QuotaDim)
  | AuthenticationFailed => false
  | NotDiscovered | ProbeFailed | ProviderUnavailable | InvalidProviderResponse => true
  end.

Definition CapabilityDiscoveryIssue_validate (i : CapabilityDiscoveryIssue) : CoreResult () :=
  let? _ := SanitizedCapabilityCode_validate (ci_code i) in
  let? _ := SanitizedCapabilityMessage_validate (ci_message i) in
  if negb match ci_reason i with
          | AuthenticationFailed =>
              bool_decide (ci_severity i = SevBlocking) && bool_decide (ci_scope i = IssueAccount)
          | BusinessPermissionDenied =>
              bool_decide (ci_severity i = SevBlocking)
              && match ci_scope i with IssueRequirement _ | IssueDimension _ _ => true | IssueAccount => false end
          | _ => true
          end
  then Err (Conflict "capability issue severity or scope is invalid for its reason")
  else
    match ci_scope i with
    | IssueDimension _ dimension =>
        if negb (issue_reason_matches_dimension (ci_reason i) dimension)
        then Err (Conflict "capability issue reason does not match its dimension") else Ok tt
    | _ => Ok tt
    end.

Record CapabilityDiscoveryFence := mkFence {
  cf_provider_account_generation : Z;        (* u64 *)
  cf_credential_revision : option string;
  cf_discovery_epoch : Z;                    (* u64 *)
  cf_discovery_token : string;
}.
#[export] Instance CapabilityDiscoveryFence_eq_dec : EqDecision CapabilityDiscoveryFence.
Proof. solve_decision. Defined.

Definition CapabilityDiscoveryFence_validate (f : CapabilityDiscoveryFence) : CoreResult () :=
  if (cf_provider_account_generation f =? 0)%Z || (I64_MAX <? cf_provider_account_generation f)%Z
     || (cf_discovery_epoch f =? 0)%Z || (I64_MAX <? cf_discovery_epoch f)%Z
  then Err (Conflict "capability discovery fence is invalid")
  else
    let? _ := validate_optional_bounded_text (cf_credential_revision f) "credential revision"
                MAX_REVISION_LEN in
    DiscoveryToken_validate (cf_discovery_token f).

Record CapabilityDiscoveryRequest := mkDiscRequest {
  dq_provider_account_id : string;
  dq_fence : CapabilityDiscoveryFence;
  dq_account : ProviderAccountSpec;
  dq_scope : CapabilityScope;
}.
Definition CapabilityDiscoveryRequest_validate (r : CapabilityDiscoveryRequest) : CoreResult () :=
  let? _ := CloudResourceId_validate (dq_provider_account_id r) in
  let? _ := CapabilityDiscoveryFence_validate (dq_fence r) in
  let? _ := ProviderAccountSpec_validate (dq_account r) in
  validate_for_account (dq_scope r) (dq_provider_account_id r).

Definition validate_observations_and_issues (observations : list CapabilityObservation)
    (issues : list CapabilityDiscoveryIssue) : CoreResult () :=
  if (MAX_CAPABILITIES_PER_REPORT <? zlen observations)%Z || (MAX_ISSUES_PER_REPORT <? zlen issues)%Z
  then Err (Conflict "capability discovery result exceeds its size limit")
  else
    let? _ := check_distinct CapabilityObservation_validate co_capability
                "capability discovery result contains duplicate capabilities" [] observations in
    validate_all CapabilityDiscoveryIssue_validate issues.

(** The [match self.state] of reports ([what] is "discovery") and snapshots. *)
Definition check_state (what : string) (state : CapabilityDiscoveryState)
    (issues : list CapabilityDiscoveryIssue) : CoreResult () :=
  if bool_decide (state = DiscComplete) && negb (zlen issues =? 0)%Z
  then Err (Conflict ("complete capability " +:+ what +:+ " cannot contain issues"))
  else if bool_decide (state = DiscFailed) && (zlen issues =? 0)%Z
  then Err (Conflict ("failed capability " +:+ what +:+ " requires an issue"))
  else Ok tt.

Record CapabilityDiscoveryReport := mkReport {
  re_state : CapabilityDiscoveryState;
  re_observations : list CapabilityObservation;
  re_issues : list CapabilityDiscoveryIssue;
}.
Definition CapabilityDiscoveryReport_validate (r : CapabilityDiscoveryReport) : CoreResult () :=
  let? _ := validate_observations_and_issues (re_observations r) (re_issues r) in
  check_state "discovery" (re_state r) (re_issues r).

Record ProviderCapabilitySnapshot := mkSnapshot {
  sn_contract_version : Z;                   (* u16 *)
  sn_provider_account_id : string;
  sn_provider : CloudProvider;
  sn_fence : CapabilityDiscoveryFence;
  sn_scope : CapabilityScope;
  sn_state : CapabilityDiscoveryState;
  sn_discovered_at_unix_ms : Z;              (* i64 *)
  sn_observations : list CapabilityObservation;
  sn_issues : list CapabilityDiscoveryIssue;
}.

(** The number of bytes of [serde_json::to_vec(snapshot)]. *)
Class SnapshotEncoding := snapshot_json_len : ProviderCapabilitySnapshot → Z.

Section snapshots.
Context `{SnapshotEncoding}.

Definition ProviderCapabilitySnapshot_validate (s : ProviderCapabilitySnapshot) : CoreResult () :=
  if negb (sn_contract_version s =? CAPABILITY_CONTRACT_VERSION)%Z
     || (sn_discovered_at_unix_ms s <=? 0)%Z
  then Err (Conflict "provider capability snapshot metadata is invalid")
  else
    let? _ := CloudResourceId_validate (sn_provider_account_id s) in
    let? _ := CapabilityDiscoveryFence_validate (sn_fence s) in
    let? _ := validate_for_account (sn_scope s) (sn_provider_account_id s) in
    let? _ := validate_observations_and_issues (sn_observations s) (sn_issues s) in
    let? _ := check_state "snapshot" (sn_state s) (sn_issues s) in
    if (MAX_SNAPSHOT_SERIALIZED_BYTES <? snapshot_json_len s)%Z
    then Err (Conflict "provider capability snapshot exceeds its serialized size limit") else Ok tt.

Definition snapshot_of (request : CapabilityDiscoveryRequest) (discovered_at_unix_ms : Z)
    (report : CapabilityDiscoveryReport) : ProviderCapabilitySnapshot :=
  mkSnapshot CAPABILITY_CONTRACT_VERSION (dq_provider_account_id request) (as_provider (dq_account request))
    (dq_fence request) (dq_scope request) (re_state report) discovered_at_unix_ms
    (re_observations report) (re_issues report).

Definition from_report (request : CapabilityDiscoveryRequest) (discovered_at_unix_ms : Z)
    (report : CapabilityDiscoveryReport) : CoreResult ProviderCapabilitySnapshot :=
  let? _ := CapabilityDiscoveryRequest_validate request in
  let? _ := CapabilityDiscoveryReport_validate report in
  let snapshot := snapshot_of request discovered_at_unix_ms report in
  let? _ := ProviderCapabilitySnapshot_validate snapshot in
  Ok snapshot.

Record CapabilitySnapshotKey := mkSnapshotKey {
  sk_provider_account_id : string;
  sk_scope : CapabilityScope;
}.
Definition CapabilitySnapshotKey_validate (k : CapabilitySnapshotKey) : CoreResult () :=
  let? _ := CloudResourceId_validate (sk_provider_account_id k) in
  validate_for_account (sk_scope k) (sk_provider_account_id k).

Definition validate_write (key : CapabilitySnapshotKey) (expected_fence : CapabilityDiscoveryFence)
    (snapshot : ProviderCapabilitySnapshot) : CoreResult () :=
  let? _ := CapabilitySnapshotKey_validate key in
  let? _ := CapabilityDiscoveryFence_validate expected_fence in
  let? _ := ProviderCapabilitySnapshot_validate snapshot in
  if negb (String.eqb (sk_provider_account_id key) (sn_provider_account_id snapshot))
     || negb (bool_decide (sk_scope key = sn_scope snapshot))
     || negb (bool_decide (expected_fence = sn_fence snapshot))
  then Err (Conflict "capability snapshot write does not match its key and authority fence")
  else Ok tt.
End snapshots.

(** ** The gate *)

Record CapabilityEvaluationContext := mkContext {
  cx_now_unix_ms : Z;                        (* i64 *)
  cx_provider_account_id : string;
  cx_provider : CloudProvider;
  cx_provider_account_generation : Z;        (* u64 *)
  cx_credential_revision : option string;
  cx_scope : CapabilityScope;
}.
Inductive CapabilityDecisionOutcome := OutAllowed | OutDenied | OutIndeterminate.
Inductive CapabilityGateReason :=
| SnapshotInvalid | ProviderAccountMismatch | ProviderMismatch | AccountGenerationMismatch
| CredentialRevisionMismatch | ScopeMismatch | DiscoveryFailed | BlockingDiscoveryIssue
| CapabilityNotReported | DimensionNotReported | ObservationStale | DimensionNegative | DimensionUnknown.
#[export] Instance CapabilityDecisionOutcome_eq_dec : EqDecision CapabilityDecisionOutcome.
Proof. solve_decision. Defined.
#[export] Instance CapabilityGateReason_eq_dec : EqDecision CapabilityGateReason.
Proof. solve_decision. Defined.

Record CapabilityGateBlocker := mkBlocker {
  bl_dimension : option CapabilityDimension;
  bl_reason : CapabilityGateReason;
  bl_diagnostic_reason : option CapabilityReason;
  bl_code : option string;
  bl_message : option string;
}.
Record CapabilityDecision := mkDecision {
  dc_requirement : CapabilityRequirement;
  dc_outcome : CapabilityDecisionOutcome;
  dc_blockers : list CapabilityGateBlocker;
}.

Definition indeterminate (requirement : CapabilityRequirement) (reason : CapabilityGateReason)
    (dimension : option CapabilityDimension) : CapabilityDecision :=
  mkDecision requirement OutIndeterminate [mkBlocker dimension reason None None None].

Definition required_dimensions (action : CapabilityAction) :
    list (CapabilityDimension * option CapabilityAction) :=
  map (λ dimension, (dimension, None)) ACTION_INDEPENDENT
  ++ [(AccessDim, Some action); (QuotaDim, Some action)].

Definition dimension_passes (dimension : CapabilityDimension) (value : CapabilityDimensionObservation) : bool :=
  bool_decide (cd_state value = Affirmative)
  || (bool_decide (dimension = QuotaDim) && bool_decide (cd_state value = TriNotApplicable)).

(** The body of the loop over the required dimensions: the blocker it pushes. *)
Definition dimension_blocker (observation : CapabilityObservation) (now : Z)
    (required : CapabilityDimension * option CapabilityAction) : list CapabilityGateBlocker :=
  match List.find (λ value, bool_decide (dimension_key value = required)) (co_dimensions observation) with
  | None => [mkBlocker (Some required.1) DimensionNotReported None None None]
  | Some value =>
      if negb (is_fresh_at value now)
      then [mkBlocker (Some required.1) ObservationStale (cd_reason value) (cd_code value) (cd_message value)]
      else if negb (dimension_passes required.1 value)
      then [mkBlocker (Some required.1)
              (if bool_decide (cd_state value = Negative) then DimensionNegative else DimensionUnknown)
              (cd_reason value) (cd_code value) (cd_message value)]
      else []
  end.

Definition affects (requirement : CapabilityRequirement) (issue : CapabilityDiscoveryIssue) : bool :=
  bool_decide (ci_severity issue = SevBlocking)
  && match ci_scope issue with
     | IssueAccount => true
     | IssueRequirement affected | IssueDimension affected _ => bool_decide (affected = requirement)
     end.

Section gate.
Context `{SnapshotEncoding}.

Definition snapshot_reason (s : ProviderCapabilitySnapshot) (cx : CapabilityEvaluationContext) :
    option CapabilityGateReason :=
  if negb (is_ok (ProviderCapabilitySnapshot_validate s)) then Some SnapshotInvalid
  else if negb (String.eqb (sn_provider_account_id s) (cx_provider_account_id cx))
  then Some ProviderAccountMismatch
  else if negb (bool_decide (sn_provider s = cx_provider cx)) then Some ProviderMismatch
  else if negb (cf_provider_account_generation (sn_fence s) =? cx_provider_account_generation cx)%Z
  then Some AccountGenerationMismatch
  else if negb (bool_decide (cf_credential_revision (sn_fence s) = cx_credential_revision cx))
  then Some CredentialRevisionMismatch
  else if negb (bool_decide (sn_scope s = cx_scope cx)) then Some ScopeMismatch
  else if bool_decide (sn_state s = DiscFailed) then Some DiscoveryFailed
  else None.

Definition evaluate_one (s : ProviderCapabilitySnapshot) (cx : CapabilityEvaluationContext)
    (requirement : CapabilityRequirement) : CapabilityDecision :=
  match snapshot_reason s cx with
  | Some reason => indeterminate requirement reason None
  | None =>
      match List.find (affects requirement) (sn_issues s) with
      | Some issue =>
          let dimension := match ci_scope issue with IssueDimension _ d => Some d | _ => None end in
          mkDecision requirement OutIndeterminate
            [mkBlocker dimension BlockingDiscoveryIssue (Some (ci_reason issue))
               (Some (ci_code issue)) (Some (ci_message issue))]
      | None =>
          match List.find (λ o, bool_decide (co_capability o = rq_capability requirement)) (sn_observations s) with
          | None => indeterminate requirement CapabilityNotReported None
          | Some observation =>
              let blockers := flat_map (dimension_blocker observation (cx_now_unix_ms cx))
                                (required_dimensions (rq_action requirement)) in
              let outcome :=
                if (zlen blockers =? 0)%Z then OutAllowed
                else if existsb (λ b, bool_decide (bl_reason b = DimensionNegative)) blockers then OutDenied
                else OutIndeterminate in
              mkDecision requirement outcome blockers
          end
      end
  end.

Definition evaluate (s : ProviderCapabilitySnapshot) (required : list CapabilityRequirement)
    (cx : CapabilityEvaluationContext) : list CapabilityDecision :=
  map (evaluate_one s cx) (bts_of_list required).

(** *** Only fresh affirmative evidence opens the gate *)

Lemma check_distinct_ok {A K} `{EqDecision K} (v : A → CoreResult ()) (key : A → K) dup seen l :
  check_distinct v key dup seen l = Ok tt →
  Forall (λ x, v x = Ok tt) l ∧ NoDup (map key l).
Proof.
  intros Hc. assert (Forall (λ x, v x = Ok tt) l ∧ NoDup (map key l) ∧ ∀ x, x ∈ l → key x ∉ seen) as (?&?&_);
    [|done]. revert seen Hc. induction l as [|x l IH]; intros seen; cbn [check_distinct].
  { intros _. split_and!; [apply Forall_nil_2|apply NoDup_nil_2|set_solver]. }
  destruct (v x) as [[]|] eqn:Ev; [|done]. case_bool_decide as Hx; [done|].
  intros (Hf&Hn&Hd)%IH. split_and!.
  - by apply Forall_cons.
  - apply NoDup_cons. split; [|done]. intros (y&He&Hy)%list_elem_of_fmap.
    apply (Hd y Hy). rewrite He. left.
  - intros y [->|Hy]%elem_of_cons; [done|]. intros Hs. apply (Hd y Hy). by right.
Qed.

(** [find] by a key that occurs at most once finds the element with that key. *)
Lemma find_unique {A K} `{EqDecision K} (key : A → K) (k : K) (l : list A) x :
  NoDup (map key l) →
  List.find (λ y, bool_decide (key y = k)) l = Some x ↔ x ∈ l ∧ key x = k.
Proof.
  intros Hn. split.
  - intros [Hin Hk]%find_some. by apply bool_decide_eq_true in Hk; split; [apply list_elem_of_In|].
  - intros [Hin Hk]. induction l as [|y l IH]; [by apply not_elem_of_nil in Hin|]. cbn [List.find].
    apply NoDup_cons in Hn as [Hy Hn]. case_bool_decide as He.
    + apply elem_of_cons in Hin as [->|Hin]; [done|]. destruct Hy. rewrite He, <- Hk.
      apply list_elem_of_fmap. by exists x.
    + apply elem_of_cons in Hin as [->|Hin]; [done|]. by apply IH.
Qed.

Record snapshot_matches (s : ProviderCapabilitySnapshot) (cx : CapabilityEvaluationContext) : Prop := {
  sm_valid : ProviderCapabilitySnapshot_validate s = Ok tt;
  sm_account : sn_provider_account_id s = cx_provider_account_id cx;
  sm_provider : sn_provider s = cx_provider cx;
  sm_generation : cf_provider_account_generation (sn_fence s) = cx_provider_account_generation cx;
  sm_revision : cf_credential_revision (sn_fence s) = cx_credential_revision cx;
  sm_scope : sn_scope s = cx_scope cx;
  sm_not_failed : sn_state s ≠ DiscFailed;
}.

Lemma snapshot_reason_none s cx : snapshot_reason s cx = None ↔ snapshot_matches s cx.
Proof.
  unfold snapshot_reason. destruct (ProviderCapabilitySnapshot_validate s) as [[]|] eqn:Ev; cbn [is_ok negb];
    [|split; [done|intros []; congruence]].
  destruct (String.eqb_spec (sn_provider_account_id s) (cx_provider_account_id cx)); cbn [negb];
    [|split; [done|by intros []]].
  case_bool_decide; cbn [negb]; [|split; [done|by intros []]].
  destruct (Z.eqb_spec (cf_provider_account_generation (sn_fence s)) (cx_provider_account_generation cx));
    cbn [negb]; [|split; [done|by intros []]].
  case_bool_decide; cbn [negb]; [|split; [done|by intros []]].
  case_bool_decide; cbn [negb]; [|split; [done|by intros []]].
  case_bool_decide; [split; [done|by intros []]|]. split; [by intros _; split|done].
Qed.

(** An observation that a required dimension is met now. *)
Definition dimension_met (now : Z) (required : CapabilityDimension * option CapabilityAction)
    (value : CapabilityDimensionObservation) : Prop :=
  dimension_key value = required ∧ (cd_observed_at_unix_ms value <= now < cd_valid_until_unix_ms value)%Z ∧
  (cd_state value = Affirmative ∨ (required.1 = QuotaDim ∧ cd_state value = TriNotApplicable)).

Lemma dimension_blocker_nil observation now required :
  NoDup (map dimension_key (co_dimensions observation)) →
  dimension_blocker observation now required = [] ↔
  ∃ value, value ∈ co_dimensions observation ∧ dimension_met now required value.
Proof.
  intros Hn. unfold dimension_blocker.
  destruct (List.find _ (co_dimensions observation)) as [value|] eqn:Ef.
  - pose proof (proj1 (find_unique _ _ _ _ Hn) Ef) as [Hin Hk]. split.
    + destruct (is_fresh_at value now) eqn:Hfr; [|done]. destruct (dimension_passes required.1 value) eqn:Hp; [|done].
      intros _. exists value. split; [done|]. split; [done|]. split.
      * apply andb_true_iff in Hfr as [Ha%Z.leb_le Hb%Z.ltb_lt]. lia.
      * apply orb_true_iff in Hp as [?%bool_decide_eq_true|[?%bool_decide_eq_true ?%bool_decide_eq_true]%andb_true_iff];
          [by left|by right].
    + intros (v&Hv&Hkv&[Ha Hb]&Hs).
      rewrite (proj2 (find_unique dimension_key required _ v Hn) (conj Hv Hkv)) in Ef. injection Ef as ->.
      unfold is_fresh_at. assert ((cd_observed_at_unix_ms value <=? now)%Z = true) as -> by (by apply Z.leb_le).
      assert ((now <? cd_valid_until_unix_ms value)%Z = true) as -> by (by apply Z.ltb_lt).
      unfold dimension_passes. by destruct Hs as [->|[-> ->]].
  - split; [done|]. intros (v&Hv&Hkv&_). by rewrite (proj2 (find_unique dimension_key required _ v Hn) (conj Hv Hkv)) in Ef.
Qed.

Lemma zlen_nil_iff {A} (l : list A) : (zlen l =? 0)%Z = true ↔ l = [].
Proof. unfold zlen. rewrite Z.eqb_eq. destruct l; simpl; [done|]. split; [lia|done]. Qed.

Lemma flat_map_nil {A B} (f : A → list B) l : flat_map f l = [] ↔ ∀ x, x ∈ l → f x = [].
Proof.
  induction l as [|x l IH]; cbn [flat_map]; [by split; [set_solver|]|]. rewrite app_nil, IH.
  split; [intros [Hx Hl] y [->|Hy]%elem_of_cons; auto|]. intros Hall. split; [|intros y Hy]; apply Hall; set_solver.
Qed.

Lemma find_none_iff {A} (f : A → bool) l : List.find f l = None ↔ ∀ x, x ∈ l → f x = false.
Proof.
  induction l as [|x l IH]; cbn [List.find]; [by split; [set_solver|]|].
  destruct (f x) eqn:Hx; [split; [done|]; intros Hall; by rewrite (Hall x (list_elem_of_here _ _)) in Hx|].
  rewrite IH. split; [intros Hl y [->|Hy]%elem_of_cons; auto|]. intros Hall y Hy. apply Hall. by right.
Qed.

Lemma snapshot_distinct s : ProviderCapabilitySnapshot_validate s = Ok tt →
  NoDup (map co_capability (sn_observations s)) ∧
  ∀ o, o ∈ sn_observations s → NoDup (map dimension_key (co_dimensions o)).
Proof.
  unfold ProviderCapabilitySnapshot_validate. destruct (_ || _); [done|].
  destruct (CloudResourceId_validate _) as [[]|]; [|done].
  destruct (CapabilityDiscoveryFence_validate _) as [[]|]; [|done].
  destruct (validate_for_account _ _) as [[]|]; [|done].
  destruct (validate_observations_and_issues _ _) as [[]|] eqn:Eo; [|done]. intros _.
  unfold validate_observations_and_issues in Eo. destruct (_ || _); [done|].
  destruct (check_distinct _ _ _ _ _) as [[]|] eqn:Ec; [|done].
  apply check_distinct_ok in Ec as [Hf Hn]. split; [done|]. intros o Ho.
  rewrite Forall_forall in Hf. specialize (Hf o Ho). unfold CapabilityObservation_validate in Hf.
  destruct (_ <? _)%Z; [done|]. by apply check_distinct_ok in Hf as [_ ?].
Qed.

Lemma evaluate_one_allowed s cx r :
  dc_outcome (evaluate_one s cx r) = OutAllowed ↔
  snapshot_matches s cx ∧ (∀ issue, issue ∈ sn_issues s → affects r issue = false) ∧
  ∃ o, o ∈ sn_observations s ∧ co_capability o = rq_capability r ∧
    ∀ required, required ∈ required_dimensions (rq_action r) →
      ∃ value, value ∈ co_dimensions o ∧ dimension_met (cx_now_unix_ms cx) required value.
Proof.
  rewrite <- snapshot_reason_none, <- find_none_iff. unfold evaluate_one.
  destruct (snapshot_reason s cx) as [reason|] eqn:Er; [by split; [|intros [? _]]|].
  destruct (List.find (affects r) (sn_issues s)) as [issue|] eqn:Ei; [by split; [|intros (_&?&_)]|].
  apply snapshot_reason_none in Er as [Hv _ _ _ _ _ _]. destruct (snapshot_distinct s Hv) as [Hn Hd].
  destruct (List.find _ (sn_observations s)) as [o|] eqn:Eo.
  - pose proof (proj1 (find_unique _ _ _ _ Hn) Eo) as [Hin Hk]. cbn [dc_outcome].
    assert (∀ b, (if (zlen b =? 0)%Z then OutAllowed
      else if existsb (λ b, bool_decide (bl_reason b = DimensionNegative)) b then OutDenied
      else OutIndeterminate) = OutAllowed ↔ b = []) as ->.
    { intros b. rewrite <- zlen_nil_iff. destruct (zlen b =? 0)%Z; [done|]. by destruct (existsb _ b). }
    rewrite flat_map_nil. split.
    + intros Hall. split_and!; [done|done|]. exists o. split_and!; [done|done|]. intros q Hq.
      apply dimension_blocker_nil; [by apply Hd|by apply Hall].
    + intros (_&_&o'&Ho'&Hk'&Hall) q Hq.
      rewrite (proj2 (find_unique co_capability (rq_capability r) _ o' Hn) (conj Ho' Hk')) in Eo.
      injection Eo as ->. apply dimension_blocker_nil; [by apply Hd|by apply Hall].
  - split; [done|]. intros (_&_&o&Ho&Hk&_).
    by rewrite (proj2 (find_unique co_capability (rq_capability r) _ o Hn) (conj Ho Hk)) in Eo.
Qed.

Lemma evaluate_one_blockers s cx r :
  dc_requirement (evaluate_one s cx r) = r ∧
  (dc_blockers (evaluate_one s cx r) = [] ↔ dc_outcome (evaluate_one s cx r) = OutAllowed).
Proof.
  unfold evaluate_one. destruct (snapshot_reason s cx); [done|].
  destruct (List.find _ (sn_issues s)); [done|]. destruct (List.find _ (sn_observations s)); [|done].
  cbn [dc_requirement dc_blockers dc_outcome]. split; [done|]. set (b := flat_map _ _).
  rewrite <- zlen_nil_iff. destruct (zlen b =? 0)%Z; [done|]. by destruct (existsb _ b).
Qed.

(** C28.  The capability gate is fail-closed.  Evaluating a list of requirements
    yields one decision per distinct requirement, in order, and a requirement is
    allowed exactly if the snapshot is valid, was made for the account, provider,
    generation, credential revision and scope of the context, did not fail, no
    blocking issue affects the requirement, and for every required dimension of
    its capability there is an observation that is fresh now and affirmative (or,
    for quota, not applicable).  A decision that is not allowed names a blocker. *)
Theorem capability_gate_fail_closed (s : ProviderCapabilitySnapshot) (required : list CapabilityRequirement)
    (cx : CapabilityEvaluationContext) :
  let decisions := evaluate s required cx in
  sorted_set (map dc_requirement decisions) ∧
  (∀ r, r ∈ map dc_requirement decisions ↔ r ∈ required) ∧
  ∀ d, d ∈ decisions →
    (dc_blockers d = [] ↔ dc_outcome d = OutAllowed) ∧
    (dc_outcome d = OutAllowed ↔
       snapshot_matches s cx ∧ (∀ issue, issue ∈ sn_issues s → affects (dc_requirement d) issue = false) ∧
       ∃ o, o ∈ sn_observations s ∧ co_capability o = rq_capability (dc_requirement d) ∧
         ∀ q, q ∈ required_dimensions (rq_action (dc_requirement d)) →
           ∃ value, value ∈ co_dimensions o ∧ dimension_met (cx_now_unix_ms cx) q value).
Proof.
  unfold evaluate. cbn zeta.
  assert (map dc_requirement (map (evaluate_one s cx) (bts_of_list required)) = bts_of_list required) as ->.
  { rewrite map_map. rewrite <- (map_id (bts_of_list required)) at 2. apply map_ext. intros r.
    apply evaluate_one_blockers. }
  split_and!; [apply bts_of_list_sorted|apply elem_of_bts_of_list|].
  intros d (r&->&_)%list_elem_of_fmap. destruct (evaluate_one_blockers s cx r) as [Hr Hb].
  split; [done|]. rewrite Hr. apply evaluate_one_allowed.
Qed.

(** What a discovery leaves in the store is bound to the request's fence. *)
Lemma from_report_write request now report s :
  from_report request now report = Ok s →
  validate_write (mkSnapshotKey (dq_provider_account_id request) (dq_scope request)) (dq_fence request) s = Ok tt.
Proof.
  unfold from_report. destruct (CapabilityDiscoveryRequest_validate request) as [[]|] eqn:Er; [|done].
  destruct (CapabilityDiscoveryReport_validate report) as [[]|]; [|done].
  destruct (ProviderCapabilitySnapshot_validate _) as [[]|] eqn:Es; [|done]. intros [= <-].
  unfold validate_write, CapabilitySnapshotKey_validate. rewrite Es.
  unfold CapabilityDiscoveryRequest_validate in Er. cbn [sk_provider_account_id sk_scope].
  destruct (CloudResourceId_validate _) as [[]|]; [|done].
  destruct (CapabilityDiscoveryFence_validate _) as [[]|]; [|done].
  destruct (ProviderAccountSpec_validate _) as [[]|]; [|done].
  destruct (validate_for_account _ _) as [[]|]; [|done].
  cbn [snapshot_of sn_provider_account_id sn_scope sn_fence]. by rewrite String.eqb_refl, !bool_decide_eq_true_2.
Qed.
End gate.
