(* ===== verification/CloudCodecs.v ===== *)
(** * CloudCodecs: countable cloud data

    The types that the stores persist as JSON are countable, so that each has a
    concrete codec. *)

From Stdlib Require Import ZArith Ascii String Lia.
From S2P Require Import Prelude Text Codec Core BTree NetAddr Dns ZoneLifecycle CloudAccounts Capabilities.

#[export] Instance CloudProvider_countable : Countable CloudProvider.
Proof.
  refine (inj_countable' (λ p, bool_decide (p = Aws)) (λ b : bool, if b then Aws else Cloudflare) _). by intros [].
Defined.
#[export] Instance ManagementPolicy_countable : Countable ManagementPolicy.
Proof.
  refine (inj_countable' (λ p, bool_decide (p = Managed))
    (λ b : bool, if b then Managed else ObserveOnlyPolicy) _). by intros [].
Defined.
#[export] Instance DeletionPolicy_countable : Countable DeletionPolicy.
Proof.
  refine (inj_countable' (λ p, bool_decide (p = Retain)) (λ b : bool, if b then Retain else DeleteExternal) _).
  by intros [].
Defined.
#[export] Instance ProviderAccountScope_countable : Countable ProviderAccountScope.
Proof.
  refine (inj_countable' (λ s, match s with ScopeCloudflare a => inl a | ScopeAws a => inr a end)
    (λ x, match x with inl a => ScopeCloudflare a | inr a => ScopeAws a end) _). by intros [].
Defined.
#[export] Instance CredentialSource_countable : Countable CredentialSource.
Proof.
  refine (inj_countable'
    (λ c, match c with
          | StaticSecret r => inl (inl r) | Ambient => inl (inr ())
          | Federated a b c => inr (inl (a, b, c)) | AssumeIdentity a b c => inr (inr (a, b, c))
          end)
    (λ x, match x with
          | inl (inl r) => StaticSecret r | inl (inr _) => Ambient
          | inr (inl (a, b, c)) => Federated a b c | inr (inr (a, b, c)) => AssumeIdentity a b c
          end) _). by intros [].
Defined.
#[export] Instance ProviderAccountDesired_countable : Countable ProviderAccountDesired.
Proof.
  refine (inj_countable'
    (λ d, (pd_display_name d, pd_owner d, pd_labels d, pd_management_policy d, pd_deletion_policy d,
       (as_provider (pd_spec d), as_scope (pd_spec d), as_credential_source (pd_spec d))))
    (λ x, let '(n, o, l, m, e, (p, s, c)) := x in mkDesired n o l m e (mkSpec p s c)) _).
  by intros [? ? ? ? ? []].
Defined.

#[export] Instance CapabilityDimensionObservation_eq_dec : EqDecision CapabilityDimensionObservation.
Proof. solve_decision. Defined.
#[export] Instance CapabilityObservation_eq_dec : EqDecision CapabilityObservation.
Proof. solve_decision. Defined.
#[export] Instance CapabilityDiscoveryIssue_eq_dec : EqDecision CapabilityDiscoveryIssue.
Proof. solve_decision. Defined.
#[export] Instance ProviderCapabilitySnapshot_eq_dec : EqDecision ProviderCapabilitySnapshot.
Proof. solve_decision. Defined.
#[export] Instance DnsCapability_countable : Countable DnsCapability.
Proof.
  refine (enum_countable [PublicZones; PrivateZones; RecordSets; Dnssec; ApexAlias; ProxiedRecords; WeightedRouting;
  GeolocationRouting; FailoverRouting; AtomicChanges] _).
  intros x. apply list_elem_of_In. destruct x; cbn; tauto.
Defined.
#[export] Instance CapabilityAction_countable : Countable CapabilityAction.
Proof.
  refine (enum_countable CapabilityAction_ALL _).
  intros x. apply list_elem_of_In. destruct x; cbn; tauto.
Defined.
#[export] Instance CloudResourceKind_countable : Countable CloudResourceKind.
Proof.
  refine (enum_countable [KindProviderAccount; KindManagedZone; KindDnsRecordSet] _).
  intros x. apply list_elem_of_In. destruct x; cbn; tauto.
Defined.
#[export] Instance CapabilityDimension_countable : Countable CapabilityDimension.
Proof.
  refine (enum_countable [AdapterSupport; ProviderSupport; Entitlement; AccessDim; LocationDim; QuotaDim] _).
  intros x. apply list_elem_of_In. destruct x; cbn; tauto.
Defined.
#[export] Instance TriState_countable : Countable TriState.
Proof.
  refine (enum_countable [Affirmative; Negative; TriUnknown; TriNotApplicable] _).
  intros x. apply list_elem_of_In. destruct x; cbn; tauto.
Defined.
#[export] Instance CapabilityReason_countable : Countable CapabilityReason.
Proof.
  refine (enum_countable [AdapterNotImplemented; ProviderUnsupported; NotEntitled; AuthenticationFailed;
  DiscoveryPermissionDenied; BusinessPermissionDenied; LocationUnavailable; QuotaExhausted; NotDiscovered;
  ProbeFailed; ProviderUnavailable; InvalidProviderResponse] _).
  intros x. apply list_elem_of_In. destruct x; cbn; tauto.
Defined.
#[export] Instance CapabilityEvidence_countable : Countable CapabilityEvidence.
Proof.
  refine (enum_countable [AdapterContract; ProviderMetadata; ProviderProbe; PermissionProbe; QuotaProbe] _).
  intros x. apply list_elem_of_In. destruct x; cbn; tauto.
Defined.
#[export] Instance CapabilityDiscoveryState_countable : Countable CapabilityDiscoveryState.
Proof.
  refine (enum_countable [DiscComplete; DiscPartial; DiscFailed] _).
  intros x. apply list_elem_of_In. destruct x; cbn; tauto.
Defined.
#[export] Instance CapabilityIssueSeverity_countable : Countable CapabilityIssueSeverity.
Proof.
  refine (enum_countable [SevWarning; SevBlocking] _).
  intros x. apply list_elem_of_In. destruct x; cbn; tauto.
Defined.
#[export] Instance ProviderCapability_countable : Countable ProviderCapability.
Proof. refine (inj_countable' (λ c, match c with CapDns d => d end) CapDns _). by intros []. Defined.
#[export] Instance CapabilityRequirement_countable : Countable CapabilityRequirement.
Proof.
  refine (inj_countable' (λ r, (rq_capability r, rq_action r))
    (λ x, let '(x0, x1) := x in mkRequirement x0 x1) _).
  by intros [].
Defined.
#[export] Instance ProviderResourceRef_countable : Countable ProviderResourceRef.
Proof.
  refine (inj_countable' (λ r, (pr_provider_account_id r, pr_external_id r))
    (λ x, let '(x0, x1) := x in mkResourceRef x0 x1) _).
  by intros [].
Defined.
#[export] Instance CapabilityScope_countable : Countable CapabilityScope.
Proof.
  refine (inj_countable'
    (λ s, match s with CapAccount => inl None | CapRegion r => inl (Some r) | CapResource k r => inr (k, r) end)
    (λ x, match x with inl None => CapAccount | inl (Some r) => CapRegion r | inr (k, r) => CapResource k r end) _).
  by intros [].
Defined.
#[export] Instance CapabilityDimensionObservation_countable : Countable CapabilityDimensionObservation.
Proof.
  refine (inj_countable' (λ r, (cd_dimension r, cd_action r, cd_state r, cd_reason r, cd_evidence r, cd_code r, cd_message r, cd_observed_at_unix_ms r, cd_valid_until_unix_ms r))
    (λ x, let '(x0, x1, x2, x3, x4, x5, x6, x7, x8) := x in mkDim x0 x1 x2 x3 x4 x5 x6 x7 x8) _).
  by intros [].
Defined.
#[export] Instance CapabilityObservation_countable : Countable CapabilityObservation.
Proof.
  refine (inj_countable' (λ r, (co_capability r, co_dimensions r))
    (λ x, let '(x0, x1) := x in mkCapObservation x0 x1) _).
  by intros [].
Defined.
#[export] Instance CapabilityIssueScope_countable : Countable CapabilityIssueScope.
Proof.
  refine (inj_countable'
    (λ s, match s with
          | IssueAccount => inl None | IssueRequirement r => inl (Some r) | IssueDimension r d => inr (r, d)
          end)
    (λ x, match x with
          | inl None => IssueAccount | inl (Some r) => IssueRequirement r | inr (r, d) => IssueDimension r d
          end) _).
  by intros [].
Defined.
#[export] Instance CapabilityDiscoveryIssue_countable : Countable CapabilityDiscoveryIssue.
Proof.
  refine (inj_countable' (λ r, (ci_severity r, ci_scope r, ci_reason r, ci_code r, ci_message r))
    (λ x, let '(x0, x1, x2, x3, x4) := x in mkIssue x0 x1 x2 x3 x4) _).
  by intros [].
Defined.
#[export] Instance CapabilityDiscoveryFence_countable : Countable CapabilityDiscoveryFence.
Proof.
  refine (inj_countable' (λ r, (cf_provider_account_generation r, cf_credential_revision r, cf_discovery_epoch r, cf_discovery_token r))
    (λ x, let '(x0, x1, x2, x3) := x in mkFence x0 x1 x2 x3) _).
  by intros [].
Defined.
#[export] Instance ProviderCapabilitySnapshot_countable : Countable ProviderCapabilitySnapshot.
Proof.
  refine (inj_countable' (λ r, (sn_contract_version r, sn_provider_account_id r, sn_provider r, sn_fence r, sn_scope r, sn_state r, sn_discovered_at_unix_ms r, sn_observations r, sn_issues r))
    (λ x, let '(x0, x1, x2, x3, x4, x5, x6, x7, x8) := x in mkSnapshot x0 x1 x2 x3 x4 x5 x6 x7 x8) _).
  by intros [].
Defined.
