(* ===== verification/KubeAccounts.v ===== *)
(** * KubeAccounts: provider accounts in the Kubernetes API

    [crates/center-adapter-kubernetes/src/provider_account_crd.rs] and
    [provider_account_store.rs]: one custom resource per account, replaced only
    at the expected generation.  The JSON codec of the desired state and the
    digest in the resource name are parameters. *)

From Stdlib Require Import ZArith Ascii String Lia.
From S2P Require Import Prelude Text Codec Core Effects Versioned KubeApi BTree NetAddr Dns ZoneLifecycle CloudAccounts CloudCodecs.

(** [serde_json] on [ProviderAccountDesired], and [hex::encode] of the first 20
    bytes of the SHA-256 of an account id. *)
Class AccountCodec := {
  desired_to_json : ProviderAccountDesired → string;
  desired_from_json : string → option ProviderAccountDesired;
  account_digest : string → string;
}.
Class AccountCodecLaws `{AccountCodec} := {
  desired_json_roundtrip (d : ProviderAccountDesired) : desired_from_json (desired_to_json d) = Some d;
}.
#[export] Instance codec_encoding `{AccountCodec} : DesiredEncoding := λ d, str_len (desired_to_json d).

(** ** The custom resource *)

Record EdgionProviderAccountSpec := mkAccountSpec {
  es_contract_version : Z;                   (* i32 *)
  es_account_id : string;
  es_desired_generation : Z;                 (* i64 *)
  es_desired_json : string;
}.
#[export] Instance EdgionProviderAccountSpec_eq_dec : EqDecision EdgionProviderAccountSpec.
Proof. solve_decision. Defined.

Inductive ResourceError := AccountConflict | AccountMissing | AccountOther.
Abbreviation EdgionProviderAccount := (kobject EdgionProviderAccountSpec ()).
Abbreviation account_call := (kube_call EdgionProviderAccountSpec () ResourceError).

Definition MAX_CONFLICT_RETRIES : nat := 8.

Section store.
Context `{AccountCodec} (debug : string → string).   (* [{:?}] of a string *)

Definition EdgionProviderAccountSpec_new (account_id : string) (desired_generation : Z)
    (desired : ProviderAccountDesired) : result EdgionProviderAccountSpec string :=
  if (I64_MAX <? desired_generation)%Z
  then Err "provider account generation exceeds Kubernetes range"
  else Ok (mkAccountSpec 1 account_id desired_generation (desired_to_json desired)).

Definition to_core (spec : EdgionProviderAccountSpec) : result ProviderAccount string :=
  if negb (es_contract_version spec =? 1)%Z then Err "unsupported provider account CRD contract version"
  else
    let? account_id := map_err (CoreError_fmt debug) (CloudResourceId_new (es_account_id spec)) in
    if (es_desired_generation spec <? 0)%Z then Err "provider account CRD has a non-positive generation"
    else
      let? desired := ok_or "provider account CRD contains invalid desired state"
                        (desired_from_json (es_desired_json spec)) in
      if negb (String.eqb (desired_to_json desired) (es_desired_json spec))
      then Err "provider account CRD desired state is not the canonical secret-free shape"
      else map_err (CoreError_fmt debug) (provider_account_from_desired account_id (es_desired_generation spec) desired).

Definition provider_account_resource_name (account_id : string) : CoreResult string :=
  let? _ := CloudResourceId_validate account_id in
  Ok ("provider-account-" +:+ account_digest account_id).

(** ** The store *)

Definition adapter_error (error : ResourceError) : CoreError :=
  match error with
  | AccountConflict => Conflict "Kubernetes resourceVersion conflict"
  | AccountMissing => Adapter "Kubernetes provider account was not found"
  | AccountOther => Adapter "Kubernetes provider account request failed"
  end.

Definition verify_id (resource : EdgionProviderAccount) (expected : string) : CoreResult () :=
  if negb (String.eqb (es_account_id (ko_spec resource)) expected)
  then Err (Adapter "provider account CRD name collision")
  else
    let? expected_name := provider_account_resource_name expected in
    if negb (String.eqb (ko_name resource) expected_name)
    then Err (Adapter "provider account CRD name does not match its account identity") else Ok tt.

Definition core (resource : EdgionProviderAccount) : CoreResult ProviderAccount :=
  let? metadata_generation :=
    ok_or (Adapter "provider account CRD omitted metadata.generation") (ko_generation resource) in
  if negb (metadata_generation =? es_desired_generation (ko_spec resource))%Z
  then Err (Adapter "provider account CRD generation does not match desired generation")
  else
    let? account := map_err (λ message, Adapter ("invalid provider account CRD: " +:+ message))
                      (to_core (ko_spec resource)) in
    let? _ := verify_id resource (pa_id account) in
    let? _ := map_err (λ _, Adapter "provider account CRD contains invalid stored state")
                (validate_stored_provider_account account) in
    Ok account.

(** [metadata.labels] is not read back and not modelled. *)
Definition new_resource (name account_id : string) (generation : Z) (desired : ProviderAccountDesired) :
    CoreResult EdgionProviderAccount :=
  let? spec := map_err Conflict (EdgionProviderAccountSpec_new account_id generation desired) in
  Ok (mkObject name None None spec None).

Definition load (account_id : string) : prog account_call (CoreResult (option EdgionProviderAccount)) :=
  try? name := provider_account_resource_name account_id in
  resource <~ KGet name ;;
  try? resource := map_err adapter_error resource in
  try? _ := validate_option (λ resource, verify_id resource account_id) resource in
  Ret (Ok resource).

Definition create (account_id : string) (desired : ProviderAccountDesired) :
    prog account_call (CoreResult ProviderAccountCreateResult) :=
  try? _ := CloudResourceId_validate account_id in
  try? _ := ProviderAccountDesired_validate desired in
  try? name := provider_account_resource_name account_id in
  try? resource := new_resource name account_id 1 desired in
  created <~ KCreate resource ;;
  match created with
  | Ok created =>
      try? _ := verify_id created account_id in
      try? account := core created in
      Ret (Ok (AccountCreated account))
  | Err AccountConflict =>
      existing <~ KGet name ;;
      try? existing := map_err adapter_error existing in
      match existing with
      | None => Ret (Err (Conflict "provider account create conflicted with a disappearing resource"))
      | Some existing =>
          try? _ := verify_id existing account_id in
          try? _ := core existing in
          Ret (Ok AccountAlreadyExists)
      end
  | Err error => Ret (Err (adapter_error error))
  end.

Definition get (account_id : string) : prog account_call (CoreResult (option ProviderAccount)) :=
  try? _ := CloudResourceId_validate account_id in
  pbind (load account_id) (λ resource,
    try? resource := resource in
    match resource with
    | None => Ret (Ok None)
    | Some resource => try? account := core resource in Ret (Ok (Some account))
    end).

Fixpoint core_all (resources : list EdgionProviderAccount) : CoreResult (list ProviderAccount) :=
  match resources with
  | [] => Ok []
  | r :: resources => let? a := core r in let? rest := core_all resources in Ok (a :: rest)
  end.

Definition id_le (a b : ProviderAccount) : Prop := cmp (pa_id a) (pa_id b) ≠ Gt.
#[export] Instance id_le_dec a b : Decision (id_le a b).
Proof. unfold id_le. destruct (cmp _ _); (left; congruence) || (right; congruence). Defined.

Definition page_of (accounts : list ProviderAccount) (page : ProviderAccountPageRequest) : ProviderAccountPage :=
  let sorted := merge_sort id_le accounts in
  let rest := match aq_after page with
              | None => sorted
              | Some after => base.filter (λ a, cmp (pa_id a) after = Gt) sorted
              end in
  let items := take (Z.to_nat (aq_limit page)) rest in
  mkAccountPage items (if (aq_limit page <? zlen rest)%Z then pa_id <$> last items else None).

Definition list_accounts (page : ProviderAccountPageRequest) :
    prog account_call (CoreResult ProviderAccountPage) :=
  try? _ := ProviderAccountPageRequest_validate page in
  resources <~ KList ;;
  try? resources := map_err adapter_error resources in
  try? accounts := core_all resources in
  let result := page_of accounts page in
  try? _ := ProviderAccountPage_validate result page in
  Ret (Ok result).

Fixpoint replace_loop (attempts : nat) (name account_id : string) (expected_generation : Z)
    (desired : ProviderAccountDesired) : prog account_call (CoreResult ProviderAccountReplaceResult) :=
  match attempts with
  | O => Ret (Err (Conflict "Kubernetes provider account update remained contended"))
  | S attempts =>
      pbind (load account_id) (λ resource,
        try? resource := resource in
        match resource with
        | None => Ret (Ok AccountNotFound)
        | Some resource =>
            try? current := core resource in
            if negb (md_generation (pa_metadata current) =? expected_generation)%Z
            then Ret (Ok (GenerationMismatch (md_generation (pa_metadata current))))
            else
              try? spec := map_err Conflict
                (EdgionProviderAccountSpec_new account_id (expected_generation + 1) desired) in
              stored <~ KReplace name (with_spec resource spec) ;;
              match stored with
              | Ok stored =>
                  try? _ := verify_id stored account_id in
                  try? account := core stored in
                  Ret (Ok (AccountStored account))
              | Err AccountConflict => replace_loop attempts name account_id expected_generation desired
              | Err AccountMissing => Ret (Ok AccountNotFound)
              | Err error => Ret (Err (adapter_error error))
              end
        end)
  end.

Definition replace_if_generation (account_id : string) (expected_generation : Z)
    (desired : ProviderAccountDesired) : prog account_call (CoreResult ProviderAccountReplaceResult) :=
  try? _ := CloudResourceId_validate account_id in
  try? _ := ProviderAccountDesired_validate desired in
  if (expected_generation =? 0)%Z || (I64_MAX <=? expected_generation)%Z
  then Ret (Err (Conflict "provider account expected generation is outside the persistence range"))
  else
    try? name := provider_account_resource_name account_id in
    replace_loop MAX_CONFLICT_RETRIES name account_id expected_generation desired.
End store.

(** ** Facts about one resource *)

Definition gen (o : EdgionProviderAccount) : Z := es_desired_generation (ko_spec o).

Section facts.
Context `{AccountCodecLaws} (debug : string → string).

Lemma from_desired_ok id g d :
  CloudResourceId_validate id = Ok tt → ProviderAccountDesired_validate d = Ok tt →
  generation_outside g = false → provider_account_from_desired id g d = Ok (account_of id g d).
Proof.
  intros Hi Hd Hg. unfold provider_account_from_desired. rewrite Hi, Hd, Hg. by rewrite stored_account_valid.
Qed.

Lemma validate_new id : CloudResourceId_validate id = Ok tt → CloudResourceId_new id = Ok id.
Proof. unfold CloudResourceId_validate, CloudResourceId_new. by destruct (text_invalid 512 id). Qed.

(** A spec written by the store reads back as the account it was written for. *)
Lemma to_core_new id g d spec :
  CloudResourceId_validate id = Ok tt → ProviderAccountDesired_validate d = Ok tt →
  (1 <= g <= I64_MAX)%Z → EdgionProviderAccountSpec_new id g d = Ok spec →
  spec = mkAccountSpec 1 id g (desired_to_json d) ∧ to_core debug spec = Ok (account_of id g d).
Proof.
  intros Hi Hd Hg. unfold EdgionProviderAccountSpec_new. destruct (_ <? _)%Z; [done|]. intros [= <-].
  split; [done|]. unfold to_core. cbn [es_contract_version es_account_id es_desired_generation es_desired_json].
  rewrite validate_new by done. cbn [map_err Z.eqb negb Pos.eqb].
  assert ((g <? 0)%Z = false) as -> by (apply Z.ltb_ge; lia).
  rewrite desired_json_roundtrip. cbn [ok_or]. rewrite String.eqb_refl. cbn [negb].
  rewrite from_desired_ok; [done|done|done|].
  unfold generation_outside, MAX_PROVIDER_ACCOUNT_GENERATION. apply orb_false_iff.
  split; [apply Z.eqb_neq|apply Z.ltb_ge]; lia.
Qed.

Lemma core_facts o a : core debug o = Ok a →
  md_generation (pa_metadata a) = gen o ∧ ko_generation o = Some (gen o) ∧
  pa_id a = es_account_id (ko_spec o) ∧ validate_stored_provider_account a = Ok tt ∧
  (1 <= gen o <= I64_MAX)%Z ∧ es_desired_json (ko_spec o) = desired_to_json (from_account a).
Proof.
  unfold core, gen. destruct (ko_generation o) as [mg|]; [|done]. cbn [ok_or].
  destruct (Z.eqb_spec mg (es_desired_generation (ko_spec o))) as [->|]; [|done]. cbn [negb].
  destruct (to_core debug (ko_spec o)) as [acc|] eqn:Et; [|done]. cbn [map_err].
  destruct (verify_id o (pa_id acc)) as [[]|]; [|done].
  destruct (validate_stored_provider_account acc) as [[]|] eqn:Ev; [|done]. intros [= <-].
  unfold to_core in Et. destruct (negb _); [done|].
  unfold CloudResourceId_new in Et. destruct (text_invalid 512 _); [done|]. cbn [map_err] in Et.
  destruct (_ <? _)%Z eqn:Hneg; [done|]. apply Z.ltb_ge in Hneg.
  destruct (desired_from_json _) as [d|]; [|done]. cbn [ok_or] in Et.
  destruct (String.eqb_spec (desired_to_json d) (es_desired_json (ko_spec o))) as [Hj|]; [|done].
  cbn [negb] in Et. destruct (provider_account_from_desired _ _ d) as [acc'|] eqn:Ef; [|done].
  injection Et as ->. unfold provider_account_from_desired in Ef.
  destruct (CloudResourceId_validate _) as [[]|]; [|done].
  destruct (ProviderAccountDesired_validate d) as [[]|]; [|done].
  destruct (generation_outside _) eqn:Hout; [done|].
  apply orb_false_iff in Hout as [Hz%Z.eqb_neq Hmax%Z.ltb_ge].
  destruct (validate_stored_provider_account (account_of _ _ d)) as [[]|]; [|done]. injection Ef as <-.
  split; [done|]. split; [done|]. split; [done|]. split; [done|].
  split; [unfold MAX_PROVIDER_ACCOUNT_GENERATION in Hmax; lia|]. rewrite <- Hj. f_equal. by destruct d.
Qed.
End facts.

(** ** Replicas interleaved *)

(** What any replica may store under a name: generation 1 where there was
    nothing, else the next generation of the same account. *)
Definition account_step (n : string) (before : option EdgionProviderAccount) (o : EdgionProviderAccount) : Prop :=
  match before with
  | None => gen o = 1%Z
  | Some cur => gen o = (gen cur + 1)%Z ∧ es_account_id (ko_spec o) = es_account_id (ko_spec cur)
  end.

Section interleaved.
Context `{AccountCodecLaws} (debug : string → string).
Context {S : Type} `{!@KubeApi EdgionProviderAccountSpec () ResourceError S, !KubeLaws S}.
Implicit Types (s : S).
Abbreviation arel := (krel account_step).

(** The only change [replace_if_generation id g d] makes: generation [g] of the
    account becomes generation [g + 1] with the desired state [d]. *)
Definition replaces (name id : string) (g : Z) (d : ProviderAccountDesired) s s' : Prop :=
  kunchanged s s' ∨
  ∃ cur o, kstored s name = Some cur ∧ gen cur = g ∧ es_account_id (ko_spec cur) = id ∧
    kcommitted name o s s' ∧ ko_spec o = mkAccountSpec 1 id (g + 1) (desired_to_json d) ∧
    ko_generation o = Some (g + 1)%Z.

Lemma replaces_rel name id g d s s' : replaces name id g d s s' → arel s s'.
Proof.
  intros [Hu|(cur&o&Hcur&Hg&Hid&Hc&Hsp&_)]; [by apply kunchanged_rel|].
  eapply kcommitted_rel; [done|]. rewrite Hcur. unfold account_step, gen in *. rewrite Hsp. cbn. by subst.
Qed.

Lemma load_safe (G : S → S → Prop) id s :
  (∀ s s', kunchanged s s' → G s s') →
  safe kapi G arel (λ res s', ∀ r, res = Ok (Some r) →
    ∃ name, provider_account_resource_name id = Ok name ∧ kstored s' name = Some r ∧ verify_id r id = Ok tt)
    (load id) s.
Proof.
  intros HG. unfold load. destruct (provider_account_resource_name id) as [name|]; [|done].
  apply (safe_vis kapi). intros s1 x s2 _ HH. apply kapi_get in HH as [Hu Hx]. split; [by apply HG|].
  destruct x as [[o|]|e]; cbn; [| |done].
  - destruct (verify_id o id) as [[]|] eqn:Ev; cbn; [|done]. intros r [= <-]. exists name. split_and!; [done| |done].
    destruct Hu as [-> _]. symmetry. by apply Hx.
  - done.
Qed.

Lemma verify_id_account r id : verify_id r id = Ok tt → es_account_id (ko_spec r) = id.
Proof. unfold verify_id. destruct (String.eqb_spec (es_account_id (ko_spec r)) id); done. Qed.

(** The result of [replace_if_generation]. *)
Definition replace_result (name id : string) (g : Z) (d : ProviderAccountDesired)
    (res : CoreResult ProviderAccountReplaceResult) s : Prop :=
  match res with
  | Ok (AccountStored a) =>
      a = account_of id (g + 1) d ∧ ∃ o, kstored s name = Some o ∧ core debug o = Ok a
  | Ok (GenerationMismatch actual) =>
      actual ≠ g ∧ ∃ o a, kstored s name = Some o ∧ core debug o = Ok a ∧
        md_generation (pa_metadata a) = actual
  | _ => True
  end.

Lemma core_of_spec o id g d a :
  CloudResourceId_validate id = Ok tt → ProviderAccountDesired_validate d = Ok tt → (1 <= g <= I64_MAX)%Z →
  ko_spec o = mkAccountSpec 1 id g (desired_to_json d) → core debug o = Ok a → a = account_of id g d.
Proof.
  intros Hi Hd Hg Hs. unfold core. rewrite Hs. destruct (ko_generation o); [|done]. cbn [ok_or].
  destruct (negb _); [done|].
  destruct (to_core_new debug id g d (ko_spec o) Hi Hd Hg) as [_ Hc].
  { unfold EdgionProviderAccountSpec_new. assert ((I64_MAX <? g)%Z = false) as -> by (apply Z.ltb_ge; lia).
    by rewrite Hs. }
  rewrite Hs in Hc. rewrite Hc. cbn [map_err]. destruct (verify_id o _) as [[]|]; [|done].
  destruct (validate_stored_provider_account _) as [[]|]; [|done]. by intros [= <-].
Qed.

Lemma replace_loop_safe attempts name id g d s :
  CloudResourceId_validate id = Ok tt → ProviderAccountDesired_validate d = Ok tt → (g < I64_MAX)%Z →
  provider_account_resource_name id = Ok name →
  safe kapi (replaces name id g d) arel (replace_result name id g d)
    (replace_loop debug attempts name id g d) s.
Proof.
  intros Hi Hd Hg Hname. revert s. induction attempts as [|attempts IH]; intros s; [done|].
  cbn [replace_loop]. apply (safe_bind kapi).
  eapply (safe_mono kapi); [|apply (load_safe (replaces name id g d)); intros ???; by left].
  intros res s1 Hres. destruct res as [[r|]|e]; [|done..].
  destruct (Hres r eq_refl) as (name'&Hname'&Hr&Hver). rewrite Hname in Hname'. injection Hname' as <-.
  destruct (core debug r) as [cur|] eqn:Ec; [|done].
  destruct (core_facts debug r cur Ec) as (Hgen&Hkg&_&_&Hrange&_).
  destruct (Z.eqb_spec (md_generation (pa_metadata cur)) g) as [Hcg|Hne]; cbn [negb];
    [|cbn; split; [done|by eauto 6]].
  unfold EdgionProviderAccountSpec_new.
  assert ((I64_MAX <? g + 1)%Z = false) as -> by (apply Z.ltb_ge; lia). cbn [map_err].
  apply (safe_vis kapi). intros s2 x s3 HR HH.
  apply kapi_replace in HH as [[Hu Hx]|(o&(cur'&Hcur'&Hrv&Hsp&_&Hko)&Hcom&Hx)].
  { split; [by left|]. destruct x as [y|[]]; [done|by apply IH|done|done]. }
  assert (cur' = r) as -> by (by eapply kcas_current).
  assert (gen r = g) as Hrg by congruence. split.
  { right. exists r, o. split_and!; [done|done|by apply verify_id_account|done|done|].
    rewrite Hko. cbn [with_spec ko_spec]. rewrite decide_False; [by rewrite Hkg, Hrg|].
    intros He. apply (f_equal es_desired_generation) in He. cbn in He. unfold gen in Hrg. lia. }
  destruct x as [y|[]]; [|by apply IH|done|done]. rewrite (Hx y eq_refl).
  destruct (verify_id o id) as [[]|]; [|done]. destruct (core debug o) as [a|] eqn:Ea; [|done]. cbn.
  split; [eapply core_of_spec; [done|done| |done|done]; lia|].
  exists o. split; [by eapply kcommitted_stored|done].
Qed.

(** Replacing a provider account is a compare-and-swap on its generation.
    Whatever other replicas do in between, [replace_if_generation id g d] changes
    the API at most by turning generation [g] of that account into generation
    [g + 1] with the desired state [d]; if it answers [Stored], the account stored
    is exactly that one; if it answers [GenerationMismatch], the account stored
    had another generation, the one reported. *)
Theorem account_replace_is_cas (id name : string) (g : Z) (d : ProviderAccountDesired) s :
  provider_account_resource_name id = Ok name →
  safe kapi (replaces name id g d) arel (replace_result name id g d)
    (replace_if_generation debug id g d) s.
Proof.
  intros Hname. unfold replace_if_generation.
  destruct (CloudResourceId_validate id) as [[]|] eqn:Ei; [|done].
  destruct (ProviderAccountDesired_validate d) as [[]|] eqn:Ed; [|done].
  destruct (Z.eqb_spec g 0); [done|]. destruct (I64_MAX <=? g)%Z eqn:El; [done|]. apply Z.leb_gt in El.
  cbn [orb]. rewrite Hname. apply replace_loop_safe; [done|done|lia|done].
Qed.

(** *** The history of an account *)

Lemma create_safe id d s : safe kapi arel arel (λ _ _, True) (create debug id d) s.
Proof.
  unfold create. destruct (CloudResourceId_validate id); [|done].
  destruct (ProviderAccountDesired_validate d); [|done].
  destruct (provider_account_resource_name id) as [name|]; [|done]. unfold new_resource.
  destruct (EdgionProviderAccountSpec_new id 1 d) as [spec|] eqn:En; cbn [map_err]; [|done].
  apply (safe_vis kapi). intros s1 x s2 _ HH. apply kapi_create in HH. cbn [ko_name] in HH. split.
  - destruct HH as [[Hu _]|(o&(Hnone&Hsp&_)&Hcom&_)]; [by apply kunchanged_rel|].
    eapply kcommitted_rel; [done|]. rewrite Hnone. cbn. unfold gen. rewrite Hsp. cbn.
    unfold EdgionProviderAccountSpec_new in En. destruct (_ <? _)%Z; [done|]. by injection En as <-.
  - destruct x as [y|[]]; [|..].
    + destruct (verify_id y id); [|done]. by destruct (core debug y).
    + apply (safe_vis kapi). intros s3 z s4 _ HG. apply kapi_get in HG as [Hu _].
      split; [by apply kunchanged_rel|]. destruct z as [[e|]|]; cbn; [|done..].
      destruct (verify_id e id); [|done]. by destruct (core debug e).
    + done.
    + done.
Qed.

Definition later_version (a b : EdgionProviderAccount) : Prop :=
  es_account_id (ko_spec b) = es_account_id (ko_spec a) ∧ (gen a <= gen b)%Z.
#[local] Instance later_version_refl : Reflexive later_version.
Proof. intros a. split; [done|lia]. Qed.
#[local] Instance later_version_trans : Transitive later_version.
Proof. intros a b c [??] [??]. split; [congruence|lia]. Qed.

Inductive account_op :=
| OpCreate (id : string) (d : ProviderAccountDesired)
| OpGet (id : string)
| OpList (page : ProviderAccountPageRequest)
| OpReplace (id : string) (g : Z) (d : ProviderAccountDesired).

Definition account_prog (op : account_op) : prog account_call () :=
  match op with
  | OpCreate id d => pbind (create debug id d) (λ _, Ret ())
  | OpGet id => pbind (get debug id) (λ _, Ret ())
  | OpList page => pbind (list_accounts debug page) (λ _, Ret ())
  | OpReplace id g d => pbind (replace_if_generation debug id g d) (λ _, Ret ())
  end.

Lemma account_op_safe op s : safe kapi arel arel (λ _ _, True) (account_prog op) s.
Proof.
  destruct op as [id d|id|page|id g d]; cbn [account_prog]; apply (safe_bind kapi).
  - apply create_safe.
  - unfold get. destruct (CloudResourceId_validate id); [|done]. apply (safe_bind kapi).
    eapply (safe_mono kapi); [|apply load_safe; apply kunchanged_rel].
    intros [[r|]|] s' _; [|done..]. by destruct (core debug r).
  - unfold list_accounts. destruct (ProviderAccountPageRequest_validate page); [|done].
    apply (safe_vis kapi). intros s1 x s2 _ HH. apply kapi_list in HH as [Hu _].
    split; [by apply kunchanged_rel|]. destruct x as [l|]; cbn; [|done].
    destruct (core_all debug l); [|done]. by destruct (ProviderAccountPage_validate _ page).
  - unfold replace_if_generation. destruct (CloudResourceId_validate id) as [[]|] eqn:Ei; [|done].
    destruct (ProviderAccountDesired_validate d) as [[]|] eqn:Ed; [|done].
    destruct (g =? 0)%Z; [done|]. destruct (I64_MAX <=? g)%Z eqn:El; [done|]. apply Z.leb_gt in El. cbn [orb].
    destruct (provider_account_resource_name id) as [name|] eqn:En; [|done].
    eapply (safe_mono kapi); [|eapply (safe_weaken_guarantee kapi); [|apply replace_loop_safe; done]]; [done|].
    intros ?? ?. by eapply replaces_rel.
Qed.

(** C38.  The history of a provider account is a sequence.  However the
    operations of any number of replicas interleave at their awaits, the versions
    of an account are numbered 1, 2, ... by their generation without gaps or
    repetitions, so no two writers ever produce the same generation and no update
    is lost, and a resource never changes the account it stands for. *)
Theorem account_history_serial (ops : list account_op) s0 ps s :
  rtc (pool_step kapi) (account_prog <$> ops, s0) (ps, s) → numbered gen s0 →
  numbered gen s ∧
  ∀ n o, kstored s0 n = Some o → ∃ o', kstored s n = Some o' ∧
    es_account_id (ko_spec o') = es_account_id (ko_spec o) ∧ (gen o <= gen o')%Z.
Proof.
  intros Hrun Hn.
  destruct (pool_steps_safe kapi arel (λ _ _, True) (account_prog <$> ops, s0) (ps, s))
    as [Hrel _]; [|done|].
  { apply Forall_fmap, Forall_true. intros op. exists s0. split; [done|by apply account_op_safe]. }
  cbn [snd] in Hrel. split.
  - eapply krel_numbered; [| |exact Hrel|done]; [done|]. by intros n cur o [].
  - intros n o Ho. apply (krel_stored account_step later_version) with s0; [|done|done].
    intros m cur x [??]. split; [congruence|lia].
Qed.
End interleaved.

(** ** Two replicas on an in-memory API server *)

Definition demo_codec : AccountCodec := {|
  desired_to_json := enc_any; desired_from_json := dec_any; account_digest := id |}.
Lemma demo_codec_laws : @AccountCodecLaws demo_codec.
Proof. split. intros d. apply dec_enc_any. Qed.

Definition demo_desired (name : string) : ProviderAccountDesired :=
  mkDesired name None [] Managed Retain
    (mkSpec Aws (Some (ScopeAws "123456789012")) (StaticSecret "aws/main")).
Abbreviation demo_kube := (mem_kube EdgionProviderAccountSpec ()).
Definition demo_handle := @mk_handle EdgionProviderAccountSpec () ResourceError _ AccountConflict AccountMissing.
Definition demo_run {A} (p : prog account_call A) (s : demo_kube) : A * demo_kube := run demo_handle p s.

Example demo_cas :
  let s1 := (demo_run (@create demo_codec id "acme" (demo_desired "one")) (mkMem ∅)).2 in
  let '(r2, s2) := demo_run (@replace_if_generation demo_codec id "acme" 1 (demo_desired "two")) s1 in
  let '(r3, s3) := demo_run (@replace_if_generation demo_codec id "acme" 1 (demo_desired "three")) s2 in
  r2 = Ok (AccountStored (account_of "acme" 2 (demo_desired "two"))) ∧ r3 = Ok (GenerationMismatch 2).
Proof. vm_compute. split; reflexivity. Qed.

#[local] Instance demo_api : @KubeApi EdgionProviderAccountSpec () ResourceError demo_kube :=
  mem_kube_api AccountConflict AccountMissing.
#[local] Instance demo_laws : KubeLaws demo_kube := mem_kube_laws AccountConflict AccountMissing.

Definition demo_created : demo_kube :=
  (demo_run (@create demo_codec id "acme" (demo_desired "one")) (mkMem ∅)).2.
Definition demo_replaced : CoreResult ProviderAccountReplaceResult * demo_kube :=
  demo_run (@replace_if_generation demo_codec id "acme" 1 (demo_desired "two")) demo_created.

Lemma account_replace_is_cas_witness :
  demo_replaced.1 = Ok (AccountStored (account_of "acme" 2 (demo_desired "two"))) ∧
  ∃ o, kstored demo_replaced.2 "provider-account-acme" = Some o ∧
    @core demo_codec id o = Ok (account_of "acme" 2 (demo_desired "two")).
Proof.
  split; [vm_compute; reflexivity|].
  assert (@replace_result demo_codec id demo_kube demo_api "provider-account-acme" "acme" 1 (demo_desired "two")
    demo_replaced.1 demo_replaced.2) as Hres.
  { eapply (exec_safe kapi); [|apply (@account_replace_is_cas demo_codec demo_codec_laws id demo_kube demo_api
      demo_laws "acme" "provider-account-acme" 1 (demo_desired "two") demo_created)|].
    - intros s. apply rtc_refl.
    - vm_compute. reflexivity.
    - apply (run_exec _ demo_handle); [by intros X e s x s' He|]. unfold demo_replaced. apply surjective_pairing. }
  assert (demo_replaced.1 = Ok (AccountStored (account_of "acme" 2 (demo_desired "two")))) as Hr
    by (vm_compute; reflexivity).
  rewrite Hr in Hres. destruct Hres as [_ Ho]. exact Ho.
Defined.

(** The first writer reads generation 1, the second replaces it, and the first
    one's write is refused. *)
Definition demo_ops : list account_op :=
  [OpCreate "acme" (demo_desired "one"); OpReplace "acme" 1 (demo_desired "two");
   OpReplace "acme" 1 (demo_desired "three")].
Definition demo_prog := @account_prog demo_codec id.
Definition demo_first : demo_kube :=
  (run demo_handle (demo_prog (OpCreate "acme" (demo_desired "one"))) (mkMem ∅)).2.
Definition demo_read : prog account_call () * demo_kube :=
  steps demo_handle 1 (demo_prog (OpReplace "acme" 1 (demo_desired "two"))) demo_first.
Definition demo_won : demo_kube :=
  (run demo_handle (demo_prog (OpReplace "acme" 1 (demo_desired "three"))) demo_read.2).2.
Definition demo_end : demo_kube := (run demo_handle demo_read.1 demo_won).2.

Lemma demo_empty_numbered : numbered gen (mkMem ∅ : demo_kube).
Proof. by split; intros. Qed.

Lemma run_unit {E : Type → Type} {S} (h : ∀ X, E X → S → X * S) (p : prog E ()) s :
  run h p s = ((), (run h p s).2).
Proof. by destruct (run h p s) as [[] ?]. Qed.

Lemma demo_interleaving :
  rtc (pool_step kapi) (demo_prog <$> demo_ops, mkMem ∅ : demo_kube) ([Ret (); Ret (); Ret ()], demo_end).
Proof.
  assert (∀ X (e : account_call X) s x s', demo_handle X e s = (x, s') → kapi X e s x s') as Hh by done.
  set (p1 := demo_prog (OpReplace "acme" 1 (demo_desired "two"))).
  set (p2 := demo_prog (OpReplace "acme" 1 (demo_desired "three"))).
  etrans; [eapply (run_pool kapi demo_handle _ 0); [done|done|apply run_unit]|].
  fold demo_first. change (<[0:=Ret ()]> (demo_prog <$> demo_ops)) with [Ret (); p1; p2].
  etrans; [eapply (steps_pool kapi demo_handle 1 [Ret (); p1; p2] 1 p1); [done|done|]|].
  { fold demo_read. apply (surjective_pairing demo_read). }
  change (<[1:=demo_read.1]> [Ret (); p1; p2]) with [Ret (); demo_read.1; p2].
  etrans; [eapply (run_pool kapi demo_handle [Ret (); demo_read.1; p2] 2 p2); [done|done|apply run_unit]|].
  fold demo_won. change (<[2:=Ret ()]> [Ret (); demo_read.1; p2]) with [Ret (); demo_read.1; Ret ()].
  eapply (run_pool kapi demo_handle [Ret (); demo_read.1; Ret ()] 1 demo_read.1); [done|done|apply run_unit].
Qed.

Lemma account_history_serial_witness :
  numbered gen demo_end ∧
  ∃ o, kstored demo_end "provider-account-acme" = Some o ∧ gen o = 2%Z ∧
    es_desired_json (ko_spec o) = enc_any (demo_desired "three").
Proof.
  split; [|eexists; split_and!; vm_compute; reflexivity].
  apply (@account_history_serial demo_codec demo_codec_laws id demo_kube demo_api demo_laws demo_ops (mkMem ∅)
    [Ret (); Ret (); Ret ()] demo_end); [exact demo_interleaving|exact demo_empty_numbered].
Defined.
