(* ===== verification/KubeCapabilities.v ===== *)
(** * KubeCapabilities: capability snapshots in the Kubernetes API

    [crates/center-adapter-kubernetes/src/cloud_capability_crd.rs] and
    [cloud_capability_store.rs]: one custom resource per account and scope holds
    the authority of the running discovery and the last committed snapshot; the
    resource version is the only coordination between replicas.  The JSON codec of
    snapshots, the digest in the resource name and the random token of a discovery
    are parameters. *)

From Stdlib Require Import ZArith Ascii String Lia.
From S2P Require Import Prelude Text Codec Core Effects Json Versioned KubeApi BTree NetAddr Dns ZoneLifecycle CloudAccounts Capabilities CloudCodecs.

(** [serde_json] on snapshots and on any value, and the digest of a key. *)
Class SnapshotCodec := {
  snapshot_to_json : ProviderCapabilitySnapshot → string;
  snapshot_from_json : string → option ProviderCapabilitySnapshot;
  value_from_json : string → option Value;
  key_digest : CapabilitySnapshotKey → string;
}.
Class SnapshotCodecLaws `{SnapshotCodec} := {
  snapshot_json_roundtrip (s : ProviderCapabilitySnapshot) :
    snapshot_from_json (snapshot_to_json s) = Some s;
}.
#[export] Instance codec_snapshot_encoding `{SnapshotCodec} : SnapshotEncoding :=
  λ s, str_len (snapshot_to_json s).

#[export] Instance CapabilitySnapshotKey_eq_dec : EqDecision CapabilitySnapshotKey.
Proof. solve_decision. Defined.

(** ** The custom resource *)

Record EdgionCapabilityScopeSpec := mkScopeSpec {
  ss_scope_type : string;
  ss_region : option string;
  ss_resource_kind : option string;
  ss_provider_account_id : option string;
  ss_external_id : option string;
}.
Record EdgionProviderCapabilitySnapshotSpec := mkSnapshotSpec {
  cs_contract_version : Z;                   (* i32 *)
  cs_provider_account_id : string;
  cs_scope : EdgionCapabilityScopeSpec;
}.
Record EdgionCapabilityAuthorityStatus := mkAuthority {
  au_provider_account_generation : Z;        (* i64 *)
  au_credential_revision : option string;
  au_discovery_epoch : Z;                    (* i64 *)
  au_discovery_token : string;
}.
Record EdgionProviderCapabilitySnapshotStatus := mkSnapshotStatus {
  cp_last_discovery_epoch : Z;               (* i64 *)
  cp_authority : option EdgionCapabilityAuthorityStatus;
  cp_snapshot_json : option string;
}.
#[export] Instance EdgionCapabilityScopeSpec_eq_dec : EqDecision EdgionCapabilityScopeSpec.
Proof. solve_decision. Defined.
#[export] Instance EdgionProviderCapabilitySnapshotSpec_eq_dec : EqDecision EdgionProviderCapabilitySnapshotSpec.
Proof. solve_decision. Defined.
#[export] Instance EdgionCapabilityAuthorityStatus_eq_dec : EqDecision EdgionCapabilityAuthorityStatus.
Proof. solve_decision. Defined.

Definition kind_scalar (k : CloudResourceKind) : string :=
  match k with
  | KindProviderAccount => "provider_account" | KindManagedZone => "managed_zone"
  | KindDnsRecordSet => "dns_record_set"
  end.
Definition parse_kind (s : string) : option CloudResourceKind :=
  if String.eqb s "provider_account" then Some KindProviderAccount
  else if String.eqb s "managed_zone" then Some KindManagedZone
  else if String.eqb s "dns_record_set" then Some KindDnsRecordSet
  else None.

Definition scope_spec (scope : CapabilityScope) : EdgionCapabilityScopeSpec :=
  match scope with
  | CapAccount => mkScopeSpec "account" None None None None
  | CapRegion region => mkScopeSpec "region" (Some region) None None None
  | CapResource kind resource =>
      mkScopeSpec "resource" None (Some (kind_scalar kind)) (Some (pr_provider_account_id resource))
        (Some (pr_external_id resource))
  end.

Section crd.
(** [{:?}] of a string, and serde's message for an unknown resource kind. *)
Context (debug scalar_error : string → string).

(** [EdgionCapabilityScopeSpec::to_core]. *)
Definition scope_to_core (s : EdgionCapabilityScopeSpec) : result CapabilityScope string :=
  let none {A} (o : option A) := match o with None => true | Some _ => false end in
  if String.eqb (ss_scope_type s) "account" && none (ss_region s) && none (ss_resource_kind s)
     && none (ss_provider_account_id s) && none (ss_external_id s)
  then Ok CapAccount
  else if String.eqb (ss_scope_type s) "region" && none (ss_resource_kind s)
          && none (ss_provider_account_id s) && none (ss_external_id s)
  then
    let? region := ok_or "capability region scope omitted region" (ss_region s) in
    let? _ := map_err (CoreError_fmt debug) (ProviderRegion_validate region) in
    Ok (CapRegion region)
  else if String.eqb (ss_scope_type s) "resource" && none (ss_region s)
  then
    let? kind := ok_or "capability resource scope omitted resource kind" (ss_resource_kind s) in
    let? kind := ok_or (scalar_error kind) (parse_kind kind) in
    let? account := ok_or "capability resource scope omitted provider account" (ss_provider_account_id s) in
    let? account := map_err (CoreError_fmt debug) (CloudResourceId_new account) in
    let? external_id := ok_or "capability resource scope omitted external id" (ss_external_id s) in
    Ok (CapResource kind (mkResourceRef account external_id))
  else Err "capability snapshot CRD scope shape is invalid".

Definition from_key (key : CapabilitySnapshotKey) : EdgionProviderCapabilitySnapshotSpec :=
  mkSnapshotSpec 1 (sk_provider_account_id key) (scope_spec (sk_scope key)).

Definition to_key (spec : EdgionProviderCapabilitySnapshotSpec) : result CapabilitySnapshotKey string :=
  if negb (cs_contract_version spec =? 1)%Z then Err "unsupported capability snapshot CRD contract version"
  else
    let? account := map_err (CoreError_fmt debug) (CloudResourceId_new (cs_provider_account_id spec)) in
    let? scope := scope_to_core (cs_scope spec) in
    let key := mkSnapshotKey account scope in
    let? _ := map_err (CoreError_fmt debug) (CapabilitySnapshotKey_validate key) in
    Ok key.

(** [EdgionCapabilityAuthorityStatus]: the conversions to [i64] are of values that
    passed [CapabilityDiscoveryFence::validate] and so never panic. *)
Definition authority_from_core (f : CapabilityDiscoveryFence) : EdgionCapabilityAuthorityStatus :=
  mkAuthority (cf_provider_account_generation f) (cf_credential_revision f) (cf_discovery_epoch f)
    (cf_discovery_token f).

Definition authority_to_core (a : EdgionCapabilityAuthorityStatus) : result CapabilityDiscoveryFence string :=
  if (au_provider_account_generation a <? 0)%Z then Err "negative capability account generation"
  else if (au_discovery_epoch a <? 0)%Z then Err "negative capability discovery epoch"
  else
    let? _ := map_err (CoreError_fmt debug) (DiscoveryToken_validate (au_discovery_token a)) in
    let fence := mkFence (au_provider_account_generation a) (au_credential_revision a)
                   (au_discovery_epoch a) (au_discovery_token a) in
    let? _ := map_err (CoreError_fmt debug) (CapabilityDiscoveryFence_validate fence) in
    Ok fence.
End crd.

(** ** The store *)

Inductive ResourceError := SnapshotConflict | SnapshotOther (message : string).
Abbreviation resource := (kobject EdgionProviderCapabilitySnapshotSpec EdgionProviderCapabilitySnapshotStatus).
Abbreviation res_call :=
  (kube_call EdgionProviderCapabilitySnapshotSpec EdgionProviderCapabilitySnapshotStatus ResourceError).

(** The calls of the store: the API and [Uuid::new_v4]. *)
Inductive cap_call : Type → Type :=
| Res {X} (e : res_call X) : cap_call X
| NewUuid : cap_call string.

Inductive CapabilityStoreWrite := Stored | FenceLost.
Definition MAX_CONFLICT_RETRIES : nat := 8.

Definition adapter_error (error : ResourceError) : CoreError :=
  match error with
  | SnapshotConflict => Conflict "Kubernetes resourceVersion conflict"
  | SnapshotOther message => Adapter message
  end.

Section store.
Context `{SnapshotCodec} (debug scalar_error : string → string).

Definition verify_key (r : resource) (expected : CapabilitySnapshotKey) : CoreResult () :=
  let? actual := map_err (λ message, Conflict ("invalid capability snapshot CRD key: " +:+ message))
                   (to_key debug scalar_error (ko_spec r)) in
  if negb (bool_decide (actual = expected))
  then Err (Conflict "capability snapshot CRD name collision") else Ok tt.

Definition authority (status : EdgionProviderCapabilitySnapshotStatus) :
    CoreResult (option CapabilityDiscoveryFence) :=
  if (cp_last_discovery_epoch status <? 0)%Z
  then Err (Conflict "capability snapshot CRD has a negative discovery epoch")
  else
    let? auth := match cp_authority status with
                 | None => Ok None
                 | Some a =>
                     let? f := map_err (λ message, Conflict ("invalid capability snapshot authority: " +:+ message))
                                 (authority_to_core debug a) in
                     Ok (Some f)
                 end in
    if is_some_and (λ fence, negb (cf_discovery_epoch fence =? cp_last_discovery_epoch status)%Z) auth
    then Err (Conflict "capability snapshot authority is not the latest epoch") else Ok auth.

Definition is_retired_capability_snapshot_json (value : string) : bool :=
  match value_from_json value with
  | None => false
  | Some v => contains_retired_capability_family v
  end.

Definition snapshot (key : CapabilitySnapshotKey) (status : EdgionProviderCapabilitySnapshotStatus) :
    CoreResult (option ProviderCapabilitySnapshot) :=
  match cp_snapshot_json status with
  | None => Ok None
  | Some value =>
      match snapshot_from_json value with
      | Some s => let? _ := validate_write key (sn_fence s) s in Ok (Some s)
      | None =>
          if is_retired_capability_snapshot_json value then Ok None
          else Err (Conflict "capability snapshot CRD contains an invalid payload")
      end
  end.

(** [metadata.labels] is not read back and not modelled. *)
Definition new_resource (name : string) (key : CapabilitySnapshotKey) : resource :=
  mkObject name None None (from_key key) None.

Definition capability_snapshot_resource_name (key : CapabilitySnapshotKey) : CoreResult string :=
  let? _ := CapabilitySnapshotKey_validate key in Ok ("cloudcap-" +:+ key_digest key).

Definition load_for_key (key : CapabilitySnapshotKey) : prog cap_call (CoreResult (option resource)) :=
  try? name := capability_snapshot_resource_name key in
  r <~ Res (KGet name) ;;
  try? r := map_err adapter_error r in
  try? _ := validate_option (λ r, verify_key r key) r in
  Ret (Ok r).

Definition get (key : CapabilitySnapshotKey) : prog cap_call (CoreResult (option ProviderCapabilitySnapshot)) :=
  try? _ := CapabilitySnapshotKey_validate key in
  pbind (load_for_key key) (λ r,
    try? r := r in
    match r with
    | None => Ret (Ok None)
    | Some r =>
        match ko_status r with
        | None => Ret (Ok None)
        | Some status => Ret (snapshot key status)
        end
    end).

(** The epoch after [status] and the status that starts a discovery. *)
Definition last_epoch (status : option EdgionProviderCapabilitySnapshotStatus) : CoreResult Z :=
  match status with
  | None => Ok 0%Z
  | Some status =>
      if (cp_last_discovery_epoch status <? 0)%Z then Err (Conflict "capability discovery epoch is negative")
      else Ok (cp_last_discovery_epoch status)
  end.
Definition begun (status : option EdgionProviderCapabilitySnapshotStatus) (fence : CapabilityDiscoveryFence) :
    EdgionProviderCapabilitySnapshotStatus :=
  mkSnapshotStatus (cf_discovery_epoch fence) (Some (authority_from_core fence))
    (status ≫= cp_snapshot_json).

(** The rest of one attempt of [begin_discovery] once the resource is there;
    [again] is the next attempt. *)
Definition begin_with (name : string) (generation : Z) (revision : option string)
    (again : prog cap_call (CoreResult CapabilityDiscoveryFence)) (r : resource) :
    prog cap_call (CoreResult CapabilityDiscoveryFence) :=
  try? last := last_epoch (ko_status r) in
  if (U64_MAX <? last + 1)%Z then Ret (Err (Conflict "capability discovery epoch exhausted"))
  else
    token <~ NewUuid ;;
    try? _ := DiscoveryToken_validate token in
    let fence := mkFence generation revision (last + 1) token in
    try? _ := CapabilityDiscoveryFence_validate fence in
    if (I64_MAX <? last + 1)%Z then Ret (Err (Conflict "capability discovery epoch exhausted"))
    else
      stored <~ Res (KReplaceStatus name (with_status r (Some (begun (ko_status r) fence)))) ;;
      match stored with
      | Ok _ => Ret (Ok fence)
      | Err SnapshotConflict => again
      | Err error => Ret (Err (adapter_error error))
      end.

Fixpoint begin_loop (attempts : nat) (name : string) (key : CapabilitySnapshotKey) (generation : Z)
    (revision : option string) : prog cap_call (CoreResult CapabilityDiscoveryFence) :=
  match attempts with
  | O => Ret (Err (Conflict "capability discovery begin remained conflicted"))
  | S attempts =>
      let again := begin_loop attempts name key generation revision in
      r <~ Res (KGet name) ;;
      try? r := map_err adapter_error r in
      match r with
      | Some r => try? _ := verify_key r key in begin_with name generation revision again r
      | None =>
          created <~ Res (KCreate (new_resource name key)) ;;
          match created with
          | Ok r => begin_with name generation revision again r
          | Err SnapshotConflict => again
          | Err error => Ret (Err (adapter_error error))
          end
      end
  end.

Definition begin_discovery (key : CapabilitySnapshotKey) (generation : Z) (revision : option string) :
    prog cap_call (CoreResult CapabilityDiscoveryFence) :=
  try? _ := CapabilitySnapshotKey_validate key in
  try? name := capability_snapshot_resource_name key in
  begin_loop MAX_CONFLICT_RETRIES name key generation revision.

(** What [put_if_current] decides from the status it read: an answer, or to write
    the payload. *)
Definition put_decision (key : CapabilitySnapshotKey) (fence : CapabilityDiscoveryFence)
    (s : ProviderCapabilitySnapshot) (status : EdgionProviderCapabilitySnapshotStatus) :
    option (CoreResult CapabilityStoreWrite) :=
  match authority status with
  | Err e => Some (Err e)
  | Ok current =>
      if negb (bool_decide (current = Some fence)) then Some (Ok FenceLost)
      else
        match snapshot key status with
        | Ok (Some existing) =>
            if bool_decide (sn_fence existing = fence)
            then Some (if bool_decide (existing = s) then Ok Stored
                       else Err (Conflict "capability discovery fence cannot commit two different snapshots"))
            else None
        | _ => None
        end
  end.
Definition committed_status (s : ProviderCapabilitySnapshot) (status : EdgionProviderCapabilitySnapshotStatus) :
    EdgionProviderCapabilitySnapshotStatus :=
  mkSnapshotStatus (cp_last_discovery_epoch status) (cp_authority status) (Some (snapshot_to_json s)).

Fixpoint put_loop (attempts : nat) (name : string) (key : CapabilitySnapshotKey)
    (fence : CapabilityDiscoveryFence) (s : ProviderCapabilitySnapshot) :
    prog cap_call (CoreResult CapabilityStoreWrite) :=
  match attempts with
  | O => Ret (Err (Conflict "capability snapshot write remained conflicted"))
  | S attempts =>
      pbind (load_for_key key) (λ r,
        try? r := r in
        match r with
        | None => Ret (Ok FenceLost)
        | Some r =>
            match ko_status r with
            | None => Ret (Ok FenceLost)
            | Some status =>
                match put_decision key fence s status with
                | Some answer => Ret answer
                | None =>
                    stored <~ Res (KReplaceStatus name (with_status r (Some (committed_status s status)))) ;;
                    match stored with
                    | Ok _ => Ret (Ok Stored)
                    | Err SnapshotConflict => put_loop attempts name key fence s
                    | Err error => Ret (Err (adapter_error error))
                    end
                end
            end
        end)
  end.

Definition put_if_current (key : CapabilitySnapshotKey) (fence : CapabilityDiscoveryFence)
    (s : ProviderCapabilitySnapshot) : prog cap_call (CoreResult CapabilityStoreWrite) :=
  try? _ := validate_write key fence s in
  try? name := capability_snapshot_resource_name key in
  put_loop MAX_CONFLICT_RETRIES name key fence s.

(** What [invalidate_key] makes of the status it read: nothing to do, an error,
    or the status to write. *)
Definition fence_matches (generation : Z) (revision : option string) (f : CapabilityDiscoveryFence) : bool :=
  (cf_provider_account_generation f =? generation)%Z && bool_decide (cf_credential_revision f = revision).
Definition active_matches (generation : Z) (revision : option string)
    (status : EdgionProviderCapabilitySnapshotStatus) : bool :=
  match authority status with
  | Ok auth => is_some_and (fence_matches generation revision) auth
  | Err _ => true
  end.
Definition snapshot_matches_revision (generation : Z) (revision : option string)
    (status : EdgionProviderCapabilitySnapshotStatus) : bool :=
  match cp_snapshot_json status with
  | None => false
  | Some value =>
      match snapshot_from_json value with
      | Some s => fence_matches generation revision (sn_fence s)
      | None => true
      end
  end.
Definition invalidated (generation : Z) (revision : option string)
    (status : EdgionProviderCapabilitySnapshotStatus) :
    CoreResult (option EdgionProviderCapabilitySnapshotStatus) :=
  let active := active_matches generation revision status in
  let stale := snapshot_matches_revision generation revision status in
  if negb active && negb stale then Ok None
  else
    let? epoch :=
      if active then
        if (cp_last_discovery_epoch status <? 0)%Z then Ok 0%Z
        else if (I64_MAX <? cp_last_discovery_epoch status + 1)%Z
        then Err (Conflict "capability discovery epoch exhausted")
        else Ok (cp_last_discovery_epoch status + 1)%Z
      else Ok (cp_last_discovery_epoch status) in
    Ok (Some (mkSnapshotStatus epoch (if active then None else cp_authority status)
                (if stale then None else cp_snapshot_json status))).

Fixpoint invalidate_loop (attempts : nat) (name : string) (key : CapabilitySnapshotKey) (generation : Z)
    (revision : option string) : prog cap_call (CoreResult ()) :=
  match attempts with
  | O => Ret (Err (Conflict "capability snapshot invalidation remained conflicted"))
  | S attempts =>
      r <~ Res (KGet name) ;;
      try? r := map_err adapter_error r in
      match r with
      | None => Ret (Ok tt)
      | Some r =>
          try? _ := verify_key r key in
          match ko_status r with
          | None => Ret (Ok tt)
          | Some status =>
              try? next := invalidated generation revision status in
              match next with
              | None => Ret (Ok tt)
              | Some status' =>
                  stored <~ Res (KReplaceStatus name (with_status r (Some status'))) ;;
                  match stored with
                  | Ok _ => Ret (Ok tt)
                  | Err SnapshotConflict => invalidate_loop attempts name key generation revision
                  | Err error => Ret (Err (adapter_error error))
                  end
              end
          end
      end
  end.

Definition invalidate_key (key : CapabilitySnapshotKey) (generation : Z) (revision : option string) :
    prog cap_call (CoreResult ()) :=
  try? name := capability_snapshot_resource_name key in
  invalidate_loop MAX_CONFLICT_RETRIES name key generation revision.

(** The loop over the listed resources; [first_error] is the error so far. *)
Fixpoint invalidate_all (resources : list resource) (account_id : string) (generation : Z)
    (revision : option string) (first_error : option CoreError) : prog cap_call (CoreResult ()) :=
  match resources with
  | [] => Ret (match first_error with None => Ok tt | Some e => Err e end)
  | r :: resources =>
      let record e := Some (default e first_error) in
      if negb (String.eqb (cs_provider_account_id (ko_spec r)) account_id)
      then invalidate_all resources account_id generation revision first_error
      else
        match to_key debug scalar_error (ko_spec r) with
        | Err message =>
            invalidate_all resources account_id generation revision
              (record (Conflict ("invalid capability snapshot CRD key: " +:+ message)))
        | Ok key =>
            if negb (String.eqb (sk_provider_account_id key) account_id)
            then invalidate_all resources account_id generation revision
                   (record (Conflict "capability snapshot account identity is inconsistent"))
            else
              pbind (invalidate_key key generation revision) (λ done,
                invalidate_all resources account_id generation revision
                  (match done with Ok _ => first_error | Err e => record e end))
        end
  end.

Definition invalidate_account_revision (account_id : string) (generation : Z) (revision : option string) :
    prog cap_call (CoreResult ()) :=
  try? _ := CloudResourceId_validate account_id in
  try? _ := CapabilityDiscoveryFence_validate (mkFence generation revision 1 "invalidation-validation") in
  resources <~ Res KList ;;
  try? resources := map_err adapter_error resources in
  invalidate_all resources account_id generation revision None.
End store.

(** ** Replicas interleaved *)

Section interleaved.
Context `{SnapshotCodecLaws} (debug scalar_error : string → string).
Context {S : Type}.
Context `{!@KubeApi EdgionProviderCapabilitySnapshotSpec EdgionProviderCapabilitySnapshotStatus ResourceError S}.
Context `{!KubeLaws S}.
Implicit Types (s : S).

(** The API answers as [kapi]; a new token may be any string. *)
Definition capi (X : Type) (e : cap_call X) : S → X → S → Prop :=
  match e in cap_call X return S → X → S → Prop with
  | Res e => kapi _ e
  | NewUuid => λ s _ s', s' = s
  end.

(** The snapshot committed under the running discovery. *)
Definition committed_now (o : resource) (snap : ProviderCapabilitySnapshot) : Prop :=
  ∃ st key, ko_status o = Some st ∧ to_key debug scalar_error (ko_spec o) = Ok key ∧
    authority debug st = Ok (Some (sn_fence snap)) ∧ snapshot key st = Ok (Some snap).

Definition authority_latest (st : EdgionProviderCapabilitySnapshotStatus) : Prop :=
  ∀ a, cp_authority st = Some a → au_discovery_epoch a = cp_last_discovery_epoch st.

(** A resource may be followed by one of the same key with a later epoch, or with
    the same epoch, the same authority and the snapshot committed under it. *)
Definition cap_le (a b : resource) : Prop :=
  ko_spec b = ko_spec a ∧
  match ko_status a, ko_status b with
  | None, None => True
  | None, Some st' => (0 < cp_last_discovery_epoch st')%Z ∧ authority_latest st'
  | Some _, None => False
  | Some st, Some st' =>
      ((cp_last_discovery_epoch st < cp_last_discovery_epoch st')%Z ∧ authority_latest st') ∨
      (cp_last_discovery_epoch st' = cp_last_discovery_epoch st ∧ cp_authority st' = cp_authority st ∧
       ∀ snap, committed_now a snap → committed_now b snap)
  end.
#[local] Instance cap_le_refl : Reflexive cap_le.
Proof. intros a. split; [done|]. destruct (ko_status a); [by right|done]. Qed.
#[local] Instance cap_le_trans : Transitive cap_le.
Proof.
  intros a b c [Hab Hs] [Hbc Hs']. split; [congruence|].
  destruct (ko_status a) as [x|], (ko_status b) as [y|], (ko_status c) as [z|]; try done.
  - destruct Hs as [[L1 Ha]|(L1&L1'&Hc)], Hs' as [[L2 Ha']|(L2&L2'&Hc')].
    + left. split; [lia|done].
    + left. split; [lia|]. intros w. rewrite L2', L2. apply Ha.
    + left. split; [lia|done].
    + right. split_and!; [congruence|congruence|auto].
  - destruct Hs as [L1 Ha], Hs' as [[L2 Ha']|(L2&L2'&_)]; split; [lia|done|lia|].
    intros w. rewrite L2', L2. apply Ha.
Qed.

Definition cap_step (n : string) (before : option resource) (o : resource) : Prop :=
  match before with None => ko_status o = None | Some cur => cap_le cur o end.
Abbreviation crel := (krel cap_step).

Lemma crel_stored s s' n o : crel s s' → kstored s n = Some o → ∃ o', kstored s' n = Some o' ∧ cap_le o o'.
Proof. intros Hr Ho. by eapply (krel_stored cap_step cap_le). Qed.

(** A status replace of what was read. *)
Lemma cap_status_step n s s1 x s2 r st' :
  crel s s1 → kstored s n = Some r →
  (∀ o, ko_spec o = ko_spec r → ko_status o = Some st' → cap_le r o) →
  capi _ (Res (KReplaceStatus n (with_status r (Some st')))) s1 x s2 →
  crel s1 s2 ∧ ∀ y, x = Ok y → ∃ o, kstored s2 n = Some o ∧ ko_spec o = ko_spec r ∧ ko_status o = Some st'.
Proof.
  intros HR Hr Hle HH. cbn in HH.
  apply kapi_replace_status in HH as [[Hu Hy]|(o&(cur&Hcur&Hrv&Hsp&Hst&_)&Hcom&Hy)].
  { split; [by apply kunchanged_rel|]. intros y ->. done. }
  assert (cur = r) as -> by (by eapply kcas_current). cbn in Hst. split.
  - eapply kcommitted_rel; [done|]. rewrite Hcur. cbn. by apply Hle.
  - intros y _. exists o. split; [by eapply kcommitted_stored|done].
Qed.

Lemma verify_key_spec r key : verify_key debug scalar_error r key = Ok tt →
  to_key debug scalar_error (ko_spec r) = Ok key.
Proof.
  unfold verify_key. destruct (to_key _ _ _) as [k|]; [|done]. cbn [map_err].
  case_bool_decide as Hk; [|done]. by subst.
Qed.

Lemma load_for_key_safe (G : S → S → Prop) key s :
  (∀ s s', kunchanged s s' → G s s') →
  safe capi G crel (λ res s', crel s s' ∧ ∀ r, res = Ok (Some r) →
    ∃ name, capability_snapshot_resource_name key = Ok name ∧ kstored s' name = Some r ∧
      to_key debug scalar_error (ko_spec r) = Ok key)
    (load_for_key debug scalar_error key) s.
Proof.
  intros HG. unfold load_for_key. destruct (capability_snapshot_resource_name key) as [name|];
    [|by split].
  apply (safe_vis capi). intros s1 x s2 HR HH. cbn in HH. apply kapi_get in HH as [Hu Hx]. split; [by apply HG|].
  assert (crel s s2) as Hrel by (etrans; [exact HR|by apply kunchanged_rel]).
  destruct x as [[o|]|e]; cbn; [|by split|by split].
  destruct (verify_key debug scalar_error o key) as [[]|] eqn:Ev; cbn; [|by split].
  split; [done|]. intros r [= <-].
  exists name. split_and!; [done| |by apply verify_key_spec]. destruct Hu as [-> _]. symmetry. by apply Hx.
Qed.

(** *** Beginning a discovery *)

(** The running discovery of [n] is [f]. *)
Definition running s (n : string) (f : CapabilityDiscoveryFence) : Prop :=
  ∃ o st, kstored s n = Some o ∧ ko_status o = Some st ∧
    cp_last_discovery_epoch st = cf_discovery_epoch f ∧ cp_authority st = Some (authority_from_core f).
(** The epoch of [n] has reached [e]. *)
Definition reached s (n : string) (e : Z) : Prop :=
  ∃ o st, kstored s n = Some o ∧ ko_status o = Some st ∧ (e <= cp_last_discovery_epoch st)%Z.

Lemma reached_rel s s' n e : crel s s' → reached s n e → reached s' n e.
Proof.
  intros Hr (o&st&Ho&Hst&He). destruct (crel_stored _ _ _ _ Hr Ho) as (o'&Ho'&_&Hle).
  rewrite Hst in Hle. destruct (ko_status o') as [st'|] eqn:Es; [|done]. exists o', st'.
  split_and!; [done|done|]. destruct Hle as [[? _]|(?&_)]; lia.
Qed.

Definition begin_post (n : string) (e : Z) (res : CoreResult CapabilityDiscoveryFence) s : Prop :=
  ∀ f, res = Ok f → running s n f ∧ (e < cf_discovery_epoch f)%Z.

Lemma begun_le r f : last_epoch (ko_status r) = Ok (cf_discovery_epoch f - 1)%Z →
  ∀ o, ko_spec o = ko_spec r → ko_status o = Some (begun (ko_status r) f) → cap_le r o.
Proof.
  intros Hl o Hsp Hst. split; [done|]. rewrite Hst.
  assert (authority_latest (begun (ko_status r) f)) as Hal by (by intros a [= <-]).
  destruct (ko_status r) as [st|]; cbn in Hl |- *.
  - destruct (_ <? 0)%Z; [done|]. injection Hl as Hl. left. split; [lia|done].
  - injection Hl as Hl. split; [lia|done].
Qed.

(** The epoch of the resource read is at least [e]. *)
Definition read_reached (e : Z) (r : resource) : Prop :=
  (e <= 0)%Z ∨ ∃ st, ko_status r = Some st ∧ (e <= cp_last_discovery_epoch st)%Z.

Lemma begin_with_safe name generation revision again r e s :
  kstored s name = Some r → read_reached e r →
  (∀ s', crel s s' → safe capi crel crel (begin_post name e) again s') →
  safe capi crel crel (begin_post name e) (begin_with name generation revision again r) s.
Proof.
  intros Hr He Hagain. unfold begin_with.
  destruct (last_epoch (ko_status r)) as [last|] eqn:El; [|done]. destruct (_ <? _)%Z; [done|].
  assert ((e <= last)%Z) as Hel.
  { unfold last_epoch in El. destruct (ko_status r) as [st|] eqn:Es.
    - destruct (_ <? 0)%Z eqn:Hneg; [done|]. injection El as <-. apply Z.ltb_ge in Hneg.
      destruct He as [?|(st'&Hst'&?)]; [lia|]. congruence || (simplify_eq; lia).
    - injection El as <-. destruct He as [?|(st'&Hst'&_)]; [lia|congruence]. }
  apply (safe_vis capi). intros s1 token s2 HR1 ->. split; [done|].
  destruct (DiscoveryToken_validate token); [|done].
  destruct (CapabilityDiscoveryFence_validate _); [|done]. destruct (I64_MAX <? last + 1)%Z; [done|].
  set (f := mkFence generation revision (last + 1) token).
  apply (safe_vis capi). intros s3 x s4 HR3 HH.
  assert (crel s s3) as HR by (by etrans).
  destruct (cap_status_step name s s3 x s4 r (begun (ko_status r) f) HR Hr) as [Hrel Hok];
    [apply begun_le; rewrite El; f_equal; cbn; lia|done|]. split; [done|].
  destruct x as [y|[]]; [|apply Hagain; by etrans|done].
  intros f' [= <-]. destruct (Hok y eq_refl) as (o&Ho&_&Hst). split; [|cbn; lia].
  exists o, (begun (ko_status r) f). done.
Qed.

Definition at_least s (n : string) (e : Z) : Prop := (e <= 0)%Z ∨ reached s n e.
Lemma epoch_at_least_rel s s' n e : crel s s' → at_least s n e → at_least s' n e.
Proof. intros Hr [?|Hs]; [by left|right; by eapply reached_rel]. Qed.
Lemma at_least_read s n e r : at_least s n e → kstored s n = Some r → read_reached e r.
Proof.
  intros [?|(o&st&Ho&Hst&He)] Hr; [by left|right]. assert (o = r) as -> by congruence. by exists st.
Qed.

Lemma begin_loop_safe attempts name key generation revision e s :
  at_least s name e →
  safe capi crel crel (begin_post name e)
    (begin_loop debug scalar_error attempts name key generation revision) s.
Proof.
  revert s. induction attempts as [|attempts IH]; intros s He; [done|]. cbn [begin_loop].
  apply (safe_vis capi). intros s1 x s2 HR HH. cbn in HH. apply kapi_get in HH as [Hu Hx].
  assert (crel s1 s2) as HR2 by by apply kunchanged_rel. split; [done|].
  assert (at_least s2 name e) as He2 by (eapply epoch_at_least_rel; [|exact He]; by etrans).
  assert (∀ s', crel s2 s' → safe capi crel crel (begin_post name e)
    (begin_loop debug scalar_error attempts name key generation revision) s') as Hagain.
  { intros s' Hs'. apply IH. by eapply epoch_at_least_rel. }
  destruct x as [[r|]|err]; cbn [map_err]; [| |done].
  - destruct (verify_key debug scalar_error r key); [|done].
    assert (kstored s2 name = Some r) as Hr by (destruct Hu as [-> _]; symmetry; by apply Hx).
    apply begin_with_safe; [done|by eapply at_least_read|done].
  - apply (safe_vis capi). intros s3 y s4 HR3 HH. cbn in HH. apply kapi_create in HH. cbn [ko_name new_resource] in HH.
    assert (crel s3 s4) as HR4.
    { destruct HH as [[Hu' _]|(o&(Hn&_&Hst&_)&Hcom&_)]; [by apply kunchanged_rel|].
      eapply kcommitted_rel; [done|]. by rewrite Hn. }
    split; [done|]. assert (crel s2 s4) as HR24 by (by etrans).
    destruct y as [r|[]]; [|by apply Hagain|done].
    destruct HH as [[_ Hy]|(o&_&Hcom&Hy)]; [done|]. rewrite (Hy r eq_refl).
    apply begin_with_safe.
    + by eapply kcommitted_stored.
    + eapply at_least_read; [by eapply epoch_at_least_rel|by eapply kcommitted_stored].
    + intros s' Hs'. apply Hagain. by etrans.
Qed.

Lemma begin_safe key generation revision name e s :
  capability_snapshot_resource_name key = Ok name → at_least s name e →
  safe capi crel crel (begin_post name e) (begin_discovery debug scalar_error key generation revision) s.
Proof.
  intros Hn He. unfold begin_discovery. destruct (CapabilitySnapshotKey_validate key); [|done].
  rewrite Hn. by apply begin_loop_safe.
Qed.

(** *** Committing a snapshot *)

Lemma authority_raw st f : authority debug st = Ok (Some f) →
  cp_authority st = Some (authority_from_core f) ∧ cp_last_discovery_epoch st = cf_discovery_epoch f.
Proof.
  unfold authority. destruct (_ <? 0)%Z; [done|]. destruct (cp_authority st) as [a|]; [|done].
  unfold authority_to_core. destruct (_ <? 0)%Z; [done|]. destruct (_ <? 0)%Z; [done|].
  destruct (DiscoveryToken_validate _); [|done]. cbn [map_err].
  destruct (CapabilityDiscoveryFence_validate _); [|done]. cbn [map_err is_some_and].
  destruct (negb _) eqn:He; [done|]. intros [= <-]. split; [by destruct a|].
  apply negb_false_iff, Z.eqb_eq in He. cbn in He |- *. done.
Qed.

(** A write of [put_if_current] commits the snapshot under the running discovery. *)
Lemma put_commits key f snap r st :
  to_key debug scalar_error (ko_spec r) = Ok key → ko_status r = Some st →
  validate_write key f snap = Ok tt → put_decision debug key f snap st = None →
  ∀ o, ko_spec o = ko_spec r → ko_status o = Some (committed_status snap st) →
    cap_le r o ∧ committed_now o snap.
Proof.
  intros Hkey Hst Hv Hdec o Hsp Hso. unfold put_decision in Hdec.
  destruct (authority debug st) as [cur|] eqn:Ea; [|done]. case_bool_decide as Hcur; [|done]. subst cur.
  cbn [negb] in Hdec.
  assert (f = sn_fence snap ∧ validate_write key (sn_fence snap) snap = Ok tt) as [-> Hv'].
  { pose proof Hv as Hv'. unfold validate_write in Hv. destruct (CapabilitySnapshotKey_validate _); [|done].
    destruct (CapabilityDiscoveryFence_validate _); [|done].
    destruct (ProviderCapabilitySnapshot_validate _); [|done].
    destruct (bool_decide (f = sn_fence snap)) eqn:Hf; [|by rewrite orb_true_r in Hv].
    apply bool_decide_eq_true in Hf as ->. done. }
  assert (committed_now o snap) as Hnow.
  { exists (committed_status snap st), key. split_and!; [done|by rewrite Hsp| |].
    - rewrite <- Ea. done.
    - unfold snapshot. cbn [committed_status cp_snapshot_json]. rewrite snapshot_json_roundtrip, Hv'. done. }
  split; [|done]. split; [done|]. rewrite Hst, Hso. right. split_and!; [done|done|].
  intros snap' (st'&key'&Hst'&Hkey'&Ha'&Hs'). assert (st' = st) as -> by congruence.
  assert (key' = key) as -> by congruence. rewrite Ea in Ha'. injection Ha' as Ha'.
  rewrite Hs' in Hdec. rewrite bool_decide_eq_true_2 in Hdec by done. done.
Qed.

Lemma put_decision_stored key f snap r st :
  to_key debug scalar_error (ko_spec r) = Ok key → ko_status r = Some st →
  put_decision debug key f snap st = Some (Ok Stored) → committed_now r snap ∧ f = sn_fence snap.
Proof.
  intros Hkey Hst. unfold put_decision. destruct (authority debug st) as [cur|] eqn:Ea; [|done].
  case_bool_decide as Hcur; [|done]. subst cur. cbn [negb].
  destruct (snapshot key st) as [[existing|]|] eqn:Es; [|done..].
  case_bool_decide as Hf; [|done]. case_bool_decide as He; [|done]. intros _. subst existing f.
  split; [|done]. by exists st, key.
Qed.

(** [Stored] means that the snapshot is the one committed under the running
    discovery. *)
Lemma put_loop_safe attempts name key f snap s :
  capability_snapshot_resource_name key = Ok name → validate_write key f snap = Ok tt →
  safe capi crel crel (λ res s', res = Ok Stored → ∃ o, kstored s' name = Some o ∧ committed_now o snap)
    (put_loop debug scalar_error attempts name key f snap) s.
Proof.
  intros Hname Hv. revert s. induction attempts as [|attempts IH]; intros s; [done|].
  cbn [put_loop]. apply (safe_bind capi).
  eapply (safe_mono capi); [|apply (load_for_key_safe crel); apply kunchanged_rel].
  intros res s1 [_ Hres]. destruct res as [[r|]|]; [|done..].
  destruct (Hres r eq_refl) as (name'&Hname'&Hr&Hkey). rewrite Hname in Hname'. injection Hname' as <-.
  destruct (ko_status r) as [st|] eqn:Est; [|done].
  destruct (put_decision debug key f snap st) as [answer|] eqn:Ed.
  { intros ->. exists r. split; [done|]. by eapply put_decision_stored. }
  pose proof (put_commits key f snap r st Hkey Est Hv Ed) as Hput.
  apply (safe_vis capi). intros s2 x s3 HR HH.
  destruct (cap_status_step name s1 s2 x s3 r (committed_status snap st) HR Hr) as [Hrel Hok];
    [intros o Hsp Hst; by destruct (Hput o Hsp Hst)|done|]. split; [done|].
  destruct x as [y|[]]; [|apply IH|done]. intros _. destruct (Hok y eq_refl) as (o&Ho&Hsp&Hst).
  exists o. split; [done|]. by destruct (Hput o Hsp Hst).
Qed.

(** *** Invalidation *)

Lemma invalidated_facts generation revision st st' :
  invalidated debug generation revision st = Ok (Some st') →
  (cp_last_discovery_epoch st <= cp_last_discovery_epoch st')%Z ∧
  cp_authority st' = if active_matches debug generation revision st then None else cp_authority st.
Proof.
  unfold invalidated. destruct (active_matches debug generation revision st); cbn.
  - destruct (_ <? 0)%Z eqn:Hneg; [intros [= <-]; apply Z.ltb_lt in Hneg; cbn; split; [lia|done]|].
    destruct (I64_MAX <? _)%Z; [done|]. intros [= <-]. cbn. split; [lia|done].
  - destruct (snapshot_matches_revision generation revision st); [|done]. intros [= <-]. by cbn.
Qed.

Lemma invalidated_le generation revision r st st' :
  ko_status r = Some st → invalidated debug generation revision st = Ok (Some st') →
  ∀ o, ko_spec o = ko_spec r → ko_status o = Some st' → cap_le r o.
Proof.
  intros Hst Hinv o Hsp Hso. split; [done|]. rewrite Hst, Hso. unfold invalidated in Hinv.
  destruct (active_matches debug generation revision st) eqn:Eact; cbn [negb andb] in Hinv.
  - left. destruct (cp_last_discovery_epoch st <? 0)%Z eqn:Hneg.
    + injection Hinv as <-. apply Z.ltb_lt in Hneg. split; [cbn; lia|by intros a].
    + destruct (I64_MAX <? _)%Z; [done|]. injection Hinv as <-. split; [cbn; lia|by intros a].
  - destruct (snapshot_matches_revision generation revision st) eqn:Est; cbn [negb] in Hinv; [|done].
    injection Hinv as <-. right. split_and!; [done|done|].
    intros snap (st0&key&Hst0&_&Ha&Hs). assert (st0 = st) as -> by congruence. exfalso.
    unfold active_matches in Eact. rewrite Ha in Eact. cbn in Eact.
    unfold snapshot in Hs. unfold snapshot_matches_revision in Est.
    destruct (cp_snapshot_json st) as [json|]; [|done].
    destruct (snapshot_from_json json) as [snap'|]; [|by destruct (is_retired_capability_snapshot_json json)].
    destruct (validate_write _ _ _); [|done]. injection Hs as ->. congruence.
Qed.

(** A discovery that [active_matches] passes over is of another revision. *)
Lemma active_false generation revision st f :
  active_matches debug generation revision st = false → cp_authority st = Some (authority_from_core f) →
  fence_matches generation revision f = true → False.
Proof.
  unfold active_matches. destruct (authority debug st) as [[f'|]|] eqn:Ea; cbn; [|..].
  - apply authority_raw in Ea as [Ha _]. intros Hf Hauth. rewrite Ha in Hauth. injection Hauth as Hg Hr _ _.
    unfold fence_matches in *. rewrite Hg, Hr in Hf. by rewrite Hf.
  - intros _ Hauth. unfold authority in Ea. rewrite Hauth in Ea. destruct (_ <? 0)%Z; [done|].
    destruct (authority_to_core _ _); [|done]. cbn in Ea. by destruct (negb _).
  - done.
Qed.

(** The writer [f] is superseded: its epoch was reached and it is not the running
    discovery. *)
Definition lost s (n : string) (f : CapabilityDiscoveryFence) : Prop :=
  ∃ o st, kstored s n = Some o ∧ ko_status o = Some st ∧
    (cf_discovery_epoch f <= cp_last_discovery_epoch st)%Z ∧ cp_authority st ≠ Some (authority_from_core f).

Lemma lost_rel s s' n f : crel s s' → lost s n f → lost s' n f.
Proof.
  intros Hr (o&st&Ho&Hst&He&Ha). destruct (crel_stored _ _ _ _ Hr Ho) as (o'&Ho'&_&Hle).
  rewrite Hst in Hle. destruct (ko_status o') as [st'|] eqn:Es; [|done].
  exists o', st'. split_and!; [done|done|..].
  - destruct Hle as [[? _]|(?&_)]; lia.
  - destruct Hle as [[Hlt Hal]|(_&->&_)]; [|done]. intros Hf. apply Hal in Hf. cbn in Hf. lia.
Qed.

Lemma running_lost s n f f' : running s n f' → (cf_discovery_epoch f < cf_discovery_epoch f')%Z → lost s n f.
Proof.
  intros (o&st&Ho&Hst&He&Ha) Hlt. exists o, st. split_and!; [done|done|lia|]. rewrite Ha.
  intros Heq. injection Heq as _ _ Heq _. lia.
Qed.

Definition invalidate_post (n : string) (generation : Z) (revision : option string) (e : Z)
    (res : CoreResult ()) s : Prop :=
  res = Ok tt → ∀ f, fence_matches generation revision f = true → (cf_discovery_epoch f <= e)%Z → lost s n f.

Lemma invalidate_loop_safe attempts name key generation revision e s :
  capability_snapshot_resource_name key = Ok name → reached s name e →
  safe capi crel crel (invalidate_post name generation revision e)
    (invalidate_loop debug scalar_error attempts name key generation revision) s.
Proof.
  intros Hname. revert s. induction attempts as [|attempts IH]; intros s He; [done|]. cbn [invalidate_loop].
  apply (safe_vis capi). intros s1 x s2 HR HH. cbn in HH. apply kapi_get in HH as [Hu Hx].
  assert (crel s1 s2) as HR2 by by apply kunchanged_rel. split; [done|].
  assert (reached s2 name e) as (o&st&Ho&Hst&Hle) by (eapply reached_rel; [|exact He]; by etrans).
  destruct x as [[r|]|err]; cbn [map_err]; [| |done];
    [|exfalso; destruct Hu as [Hu _]; specialize (Hx _ eq_refl); rewrite <- Hu in Hx; congruence].
  assert (r = o) as ->. { destruct Hu as [Hu _]. specialize (Hx _ eq_refl). rewrite <- Hu in Hx. congruence. }
  destruct (verify_key debug scalar_error o key); [|done]. rewrite Hst.
  destruct (invalidated debug generation revision st) as [[st'|]|] eqn:Ei; [| |done].
  - apply (safe_vis capi). intros s3 y s4 HR3 HH.
    destruct (cap_status_step name s2 s3 y s4 o st' HR3 Ho) as [Hrel Hok];
      [by eapply invalidated_le|done|]. split; [done|].
    destruct y as [y|[]]; [|apply IH; eapply reached_rel; [|by exists o, st]; by etrans|done].
    intros _ f Hf Hfe. destruct (Hok y eq_refl) as (o'&Ho'&_&Hst'). exists o', st'. split_and!; [done|done|..].
    + apply invalidated_facts in Ei as [? _]. lia.
    + intros Hauth. apply invalidated_facts in Ei as [_ Ha].
      destruct (active_matches debug generation revision st) eqn:Eact; [congruence|].
      rewrite Ha in Hauth. by eapply active_false.
  - intros _ f Hf Hfe. exists o, st. split_and!; [done|done|lia|]. intros Hauth.
    eapply active_false; [|done|done]. unfold invalidated in Ei.
    destruct (active_matches debug generation revision st); [|done]. cbn in Ei.
    destruct (_ <? 0)%Z; [done|]. by destruct (I64_MAX <? _)%Z.
Qed.

(** *** Superseded discoveries *)

Lemma blocked_put_loop attempts name key f snap s :
  capability_snapshot_resource_name key = Ok name → lost s name f →
  safe capi kunchanged crel (λ res _, res ≠ Ok Stored) (put_loop debug scalar_error attempts name key f snap) s.
Proof.
  intros Hname. revert s. induction attempts as [|attempts IH]; intros s Hl; [done|].
  cbn [put_loop]. apply (safe_bind capi).
  eapply (safe_mono capi); [|by apply (load_for_key_safe kunchanged)].
  intros res s1 [Hrel Hres]. destruct res as [[r|]|]; [|done..].
  destruct (Hres r eq_refl) as (name'&Hname'&Hr&_). rewrite Hname in Hname'. injection Hname' as <-.
  destruct (lost_rel _ _ _ _ Hrel Hl) as (o&st&Ho&Hst&_&Ha). assert (o = r) as -> by congruence.
  rewrite Hst. unfold put_decision. destruct (authority debug st) as [cur|] eqn:Ea; [|done].
  case_bool_decide as Hc; [|done]. subst cur. by apply authority_raw in Ea as [? _].
Qed.

Lemma blocked_put name key f snap s :
  capability_snapshot_resource_name key = Ok name → lost s name f →
  safe capi kunchanged crel (λ res _, res ≠ Ok Stored) (put_if_current debug scalar_error key f snap) s.
Proof.
  intros Hname Hl. unfold put_if_current. destruct (validate_write key f snap); [|done]. rewrite Hname.
  by apply blocked_put_loop.
Qed.

(** Two operations one after the other, by the same or by different replicas. *)
Definition then_put {A} (p : prog cap_call A) (key : CapabilitySnapshotKey) (f : CapabilityDiscoveryFence)
    (snap : ProviderCapabilitySnapshot) : prog cap_call (A * CoreResult CapabilityStoreWrite) :=
  pbind p (λ a, pbind (put_if_current debug scalar_error key f snap) (λ res, Ret (a, res))).

Lemma put_safe key f snap s :
  safe capi crel crel (λ _ _, True) (put_if_current debug scalar_error key f snap) s.
Proof.
  unfold put_if_current. destruct (validate_write key f snap) as [[]|] eqn:Ev; [|done].
  destruct (capability_snapshot_resource_name key) as [name|] eqn:En; [|done].
  eapply (safe_mono capi); [|by apply put_loop_safe]. done.
Qed.

Lemma then_put_safe {A} (p : prog cap_call A) (P : A → Prop) key name f snap s :
  capability_snapshot_resource_name key = Ok name → (∀ a, Decision (P a)) →
  safe capi crel crel (λ a s', P a → lost s' name f) p s →
  safe capi crel crel (λ r _, P r.1 → r.2 ≠ Ok Stored) (then_put p key f snap) s.
Proof.
  intros Hname HP Hp. unfold then_put. apply (safe_bind capi). eapply (safe_mono capi); [|exact Hp].
  intros a s1 Hl. apply (safe_bind capi). destruct (HP a) as [Ha|Ha].
  - apply (safe_weaken_guarantee capi kunchanged); [apply kunchanged_rel|].
    eapply (safe_mono capi); [|apply (blocked_put name); [done|by apply Hl]]. by intros res s2 Hres _.
  - eapply (safe_mono capi); [|apply put_safe]. intros res s2 _. by intros Hc.
Qed.

(** C5.  A superseded discovery cannot commit.  Let [f] be a fence whose epoch has
    been reached for its key.  Once another discovery of the key began, or the
    account generation and credential revision of [f] were invalidated, no later
    [put_if_current] with [f] is answered [Stored], whatever runs concurrently.  A
    writer that lost its fence leaves the API as it is. *)
Theorem superseded_discovery_cannot_commit (key : CapabilitySnapshotKey) (name : string)
    (f : CapabilityDiscoveryFence) (snap : ProviderCapabilitySnapshot) s :
  capability_snapshot_resource_name key = Ok name → reached s name (cf_discovery_epoch f) →
  (∀ generation revision,
     safe capi crel crel (λ r _, is_ok r.1 = true → r.2 ≠ Ok Stored)
       (then_put (begin_discovery debug scalar_error key generation revision) key f snap) s) ∧
  safe capi crel crel (λ r _, is_ok r.1 = true → r.2 ≠ Ok Stored)
    (then_put (invalidate_key debug scalar_error key (cf_provider_account_generation f)
                 (cf_credential_revision f)) key f snap) s ∧
  (∀ s', crel s s' → lost s' name f →
     safe capi kunchanged crel (λ res _, res ≠ Ok Stored) (put_if_current debug scalar_error key f snap) s').
Proof.
  intros Hname Hr. split_and!.
  - intros generation revision. apply (then_put_safe _ (λ r, is_ok r = true) _ name); [done|solve_decision|].
    eapply (safe_mono capi); [|apply (begin_safe _ _ _ name (cf_discovery_epoch f)); [done|by right]].
    intros [f'|] s' Hpost; [|done]. intros _. destruct (Hpost f' eq_refl). by eapply running_lost.
  - apply (then_put_safe _ (λ r, is_ok r = true) _ name); [done|solve_decision|].
    unfold invalidate_key. rewrite Hname.
    eapply (safe_mono capi); [|by apply (invalidate_loop_safe _ _ _ _ _ (cf_discovery_epoch f))].
    intros [[]|] s' Hpost; [|done]. intros _. apply Hpost; [done| |lia].
    unfold fence_matches. by rewrite Z.eqb_refl, bool_decide_eq_true_2.
  - intros s' _ Hl. by eapply blocked_put.
Qed.

(** *** The store only moves forward *)

Inductive capability_op :=
| OpGet (key : CapabilitySnapshotKey)
| OpBegin (key : CapabilitySnapshotKey) (generation : Z) (revision : option string)
| OpPut (key : CapabilitySnapshotKey) (f : CapabilityDiscoveryFence) (snap : ProviderCapabilitySnapshot)
| OpInvalidate (account_id : string) (generation : Z) (revision : option string).

Definition capability_prog (op : capability_op) : prog cap_call () :=
  match op with
  | OpGet key => pbind (get debug scalar_error key) (λ _, Ret ())
  | OpBegin key generation revision =>
      pbind (begin_discovery debug scalar_error key generation revision) (λ _, Ret ())
  | OpPut key f snap => pbind (put_if_current debug scalar_error key f snap) (λ _, Ret ())
  | OpInvalidate account_id generation revision =>
      pbind (invalidate_account_revision debug scalar_error account_id generation revision) (λ _, Ret ())
  end.

Lemma invalidate_key_safe key generation revision s :
  safe capi crel crel (λ _ _, True) (invalidate_key debug scalar_error key generation revision) s.
Proof.
  unfold invalidate_key. destruct (capability_snapshot_resource_name key) as [name|]; [|done].
  generalize MAX_CONFLICT_RETRIES as attempts. intros attempts. revert s.
  induction attempts as [|attempts IH]; intros s; [done|]. cbn [invalidate_loop].
  apply (safe_vis capi). intros s1 x s2 _ HH. cbn in HH. apply kapi_get in HH as [Hu Hx].
  split; [by apply kunchanged_rel|]. destruct x as [[r|]|]; cbn [map_err]; [|done..].
  destruct (verify_key debug scalar_error r key); [|done]. destruct (ko_status r) as [st|] eqn:Est; [|done].
  destruct (invalidated debug generation revision st) as [[st'|]|] eqn:Ei; [|done..].
  assert (kstored s2 name = Some r) as Hr by (destruct Hu as [-> _]; symmetry; by apply Hx).
  apply (safe_vis capi). intros s3 y s4 HR3 HH.
  destruct (cap_status_step name s2 s3 y s4 r st' HR3 Hr) as [Hrel _];
    [by eapply invalidated_le|done|]. split; [done|]. destruct y as [y|[]]; [done|apply IH|done].
Qed.

Lemma invalidate_all_safe resources account_id generation revision first_error s :
  safe capi crel crel (λ _ _, True)
    (invalidate_all debug scalar_error resources account_id generation revision first_error) s.
Proof.
  revert first_error s. induction resources as [|r resources IH]; intros first_error s; [done|].
  cbn [invalidate_all]. destruct (negb _); [apply IH|].
  destruct (to_key _ _ _) as [key|]; [|apply IH]. destruct (negb _); [apply IH|].
  apply (safe_bind capi). eapply (safe_mono capi); [|apply invalidate_key_safe]. intros a s' _. apply IH.
Qed.

Lemma capability_op_safe op s : safe capi crel crel (λ _ _, True) (capability_prog op) s.
Proof.
  destruct op as [key|key generation revision|key f snap|account_id generation revision];
    cbn [capability_prog]; apply (safe_bind capi).
  - unfold get. destruct (CapabilitySnapshotKey_validate key); [|done]. apply (safe_bind capi).
    eapply (safe_mono capi); [|apply (load_for_key_safe crel); apply kunchanged_rel].
    intros [[r|]|] s' _; [|done..]. by destruct (ko_status r).
  - unfold begin_discovery. destruct (CapabilitySnapshotKey_validate key); [|done].
    destruct (capability_snapshot_resource_name key) as [name|]; [|done].
    eapply (safe_mono capi); [|apply (begin_loop_safe _ _ _ _ _ 0); by left]. done.
  - apply put_safe.
  - unfold invalidate_account_revision. destruct (CloudResourceId_validate account_id); [|done].
    destruct (CapabilityDiscoveryFence_validate _); [|done].
    apply (safe_vis capi). intros s1 x s2 _ HH. cbn in HH. apply kapi_list in HH as [Hu _].
    split; [by apply kunchanged_rel|]. destruct x as [l|]; cbn [map_err]; [|done]. apply invalidate_all_safe.
Qed.

(** The capability store only moves forward.  However reads, discoveries,
    commits and invalidations of any number of replicas interleave at their
    awaits, a resource keeps its key, its discovery epoch never decreases, and as
    long as the epoch stays the same so do the authority and the snapshot
    committed under it: no fence ever commits two snapshots. *)
Theorem capability_store_monotone (ops : list capability_op) s0 ps s n o st :
  rtc (pool_step capi) (capability_prog <$> ops, s0) (ps, s) →
  kstored s0 n = Some o → ko_status o = Some st →
  ∃ o' st', kstored s n = Some o' ∧ ko_status o' = Some st' ∧ ko_spec o' = ko_spec o ∧
    (cp_last_discovery_epoch st <= cp_last_discovery_epoch st')%Z ∧
    (cp_last_discovery_epoch st = cp_last_discovery_epoch st' →
     cp_authority st' = cp_authority st ∧ ∀ snap, committed_now o snap → committed_now o' snap).
Proof.
  intros Hrun Ho Hst.
  destruct (pool_steps_safe capi crel (λ _ _, True) (capability_prog <$> ops, s0) (ps, s))
    as [Hrel _]; [|done|].
  { apply Forall_fmap, Forall_true. intros op. exists s0. split; [done|by apply capability_op_safe]. }
  destruct (crel_stored _ _ _ _ Hrel Ho) as (o'&Ho'&Hsp&Hle). rewrite Hst in Hle.
  destruct (ko_status o') as [st'|] eqn:Es; [|done]. exists o', st'. split_and!; [done|done|done|..].
  - destruct Hle as [[? _]|(?&_)]; lia.
  - intros He. destruct Hle as [[? _]|(_&?&?)]; [lia|done].
Qed.

(** The fence of a committed snapshot determines it. *)
Lemma committed_unique o snap snap' : committed_now o snap → committed_now o snap' → snap = snap'.
Proof.
  intros (st&key&Hst&Hkey&_&Hs) (st'&key'&Hst'&Hkey'&_&Hs'). congruence.
Qed.
End interleaved.

(** ** Two discoveries on an in-memory API server *)

Definition demo_codec : SnapshotCodec := {|
  snapshot_to_json := enc_any; snapshot_from_json := dec_any; value_from_json := λ _, None;
  key_digest k := sk_provider_account_id k |}.
Lemma demo_snapshot_codec_laws : @SnapshotCodecLaws demo_codec.
Proof. split. intros s. apply dec_enc_any. Qed.

Abbreviation demo_kube := (mem_kube EdgionProviderCapabilitySnapshotSpec EdgionProviderCapabilitySnapshotStatus).
#[local] Instance demo_api :
  @KubeApi EdgionProviderCapabilitySnapshotSpec EdgionProviderCapabilitySnapshotStatus ResourceError demo_kube :=
  mem_kube_api SnapshotConflict (SnapshotOther "not found").
#[local] Instance demo_laws : KubeLaws demo_kube := mem_kube_laws SnapshotConflict (SnapshotOther "not found").

Definition demo_handle (X : Type) (e : cap_call X) : demo_kube → X * demo_kube :=
  match e in cap_call X return demo_kube → X * demo_kube with
  | Res e => mk_handle SnapshotConflict (SnapshotOther "not found") _ e
  | NewUuid => λ s, ("6f1c1b5e-0000-4000-8000-000000000000", s)
  end.
Lemma demo_handle_capi X (e : cap_call X) (s : demo_kube) x s' : demo_handle X e s = (x, s') → capi X e s x s'.
Proof. destruct e; [done|]. by intros [= <- <-]. Qed.

Definition demo_key : CapabilitySnapshotKey := mkSnapshotKey "acme" CapAccount.
Definition demo_name : string := "cloudcap-acme".
Definition demo_begin (s : demo_kube) : CoreResult CapabilityDiscoveryFence * demo_kube :=
  run demo_handle (@begin_discovery demo_codec id id demo_key 1 (Some "r1")) s.
Definition demo_fence : CapabilityDiscoveryFence :=
  mkFence 1 (Some "r1") 1 "6f1c1b5e-0000-4000-8000-000000000000".
Definition demo_snapshot : ProviderCapabilitySnapshot :=
  mkSnapshot 1 "acme" Aws demo_fence CapAccount DiscComplete 5 [] [].
Definition demo_one : demo_kube := (demo_begin (mkMem ∅)).2.
Definition demo_put (s : demo_kube) : CoreResult CapabilityStoreWrite * demo_kube :=
  run demo_handle (@put_if_current demo_codec id id demo_key demo_fence demo_snapshot) s.

(** The first discovery commits if nothing came in between, not after another
    one began. *)
Example demo_commit :
  (demo_begin (mkMem ∅)).1 = Ok demo_fence ∧ (demo_put demo_one).1 = Ok Stored ∧
  (demo_put (demo_begin demo_one).2).1 = Ok FenceLost.
Proof. vm_compute. split_and!; reflexivity. Qed.

Lemma superseded_discovery_cannot_commit_witness :
  ∃ r s', run demo_handle (@then_put demo_codec id id _ (@begin_discovery demo_codec id id demo_key 1 (Some "r1"))
    demo_key demo_fence demo_snapshot) demo_one = (r, s') ∧ is_ok r.1 = true ∧ r.2 ≠ Ok Stored.
Proof.
  destruct (run demo_handle (@then_put demo_codec id id _ (@begin_discovery demo_codec id id demo_key 1 (Some "r1"))
    demo_key demo_fence demo_snapshot) demo_one) as [r s'] eqn:Hrun.
  exists r, s'. assert (is_ok r.1 = true) as Hok.
  { change r with (r, s').1. rewrite <- Hrun. vm_compute. reflexivity. }
  split_and!; [reflexivity|exact Hok|].
  destruct (@superseded_discovery_cannot_commit demo_codec demo_snapshot_codec_laws id id demo_kube demo_api demo_laws
    demo_key demo_name demo_fence demo_snapshot demo_one) as [Hsafe _].
  - vm_compute. reflexivity.
  - eexists _, _. split_and!; [vm_compute; reflexivity|vm_compute; reflexivity|vm_compute; discriminate].
  - refine (exec_safe capi _ _ _ _ _ _ _ _ (Hsafe 1%Z (Some "r1")) _ Hok).
    + intros s. apply rtc_refl.
    + apply (run_exec _ demo_handle); [apply demo_handle_capi|exact Hrun].
Defined.

Lemma capability_store_monotone_witness :
  ∃ o' st', kstored (demo_begin demo_one).2 demo_name = Some o' ∧ ko_status o' = Some st' ∧
    (1 <= cp_last_discovery_epoch st')%Z.
Proof.
  destruct (mk_stored demo_one demo_name) as [o|] eqn:Ho; [|vm_compute in Ho; discriminate].
  destruct (ko_status o) as [st|] eqn:Hst; [|vm_compute in Ho; injection Ho as <-; discriminate].
  destruct (@capability_store_monotone demo_codec demo_snapshot_codec_laws id id demo_kube demo_api demo_laws
    [OpBegin demo_key 1 (Some "r1")] demo_one [Ret ()] (demo_begin demo_one).2 demo_name o st)
    as (o'&st'&Ho'&Hst'&_&Hle&_); [|exact Ho|exact Hst|].
  - apply (run_pool capi demo_handle [@capability_prog demo_codec id id (OpBegin demo_key 1 (Some "r1"))] 0
      (@capability_prog demo_codec id id (OpBegin demo_key 1 (Some "r1"))) demo_one () (demo_begin demo_one).2);
      [apply demo_handle_capi|reflexivity|].
    cbn [capability_prog]. rewrite run_bind. fold (demo_begin demo_one). by destruct (demo_begin demo_one).
  - exists o', st'. split_and!; [exact Ho'|exact Hst'|].
    vm_compute in Ho. injection Ho as <-. injection Hst as <-. exact Hle.
Defined.
