(* ===== verification/Discovery.v ===== *)
(** * Discovery: refreshing the capabilities of a provider account

    [crates/center-runtime/src/cloud/capability_discovery.rs]: the service behind
    which the capabilities of an account are discovered.  Callers for the same
    authority share a flight: one of them works under the gate of the flight while
    the others wait for its result, and at most a configured number of discoveries
    run at a time.  Every request is a task of a pool ([Tasks]); its future may be
    dropped at any of its calls.  The snapshot store, the discoverers of the
    providers and the clock may answer anything. *)

From Stdlib Require Import ZArith Ascii String Lia.
From S2P Require Import Prelude Text Core Effects Tasks Json BTree NetAddr Dns ZoneLifecycle CloudAccounts Capabilities KubeCapabilities.

(** ** Policy

    A [Duration] is its number of nanoseconds. *)

Definition DEFAULT_MAX_CONCURRENT_DISCOVERIES : nat := 16.
Definition MAX_CREDENTIAL_REVISION_LEN : Z := 512.
Definition from_secs (secs : Z) : Z := secs * 10 ^ 9.
Definition as_millis (duration : Z) : Z := duration / 10 ^ 6.
Definition I64_MIN : Z := - 2 ^ 63.
Definition i64_saturating_add (a b : Z) : Z := Z.max I64_MIN (Z.min (a + b) I64_MAX).
Definition i64_saturating_sub (a b : Z) : Z := i64_saturating_add a (- b).

Record CapabilityRefreshPolicy := mkPolicy {
  maximum_complete_ttl : Z;
  maximum_partial_ttl : Z;
  failed_ttl : Z;
  unrevisioned_ttl : Z;
  maximum_refresh_ahead : Z;
}.
Definition CapabilityRefreshPolicy_default : CapabilityRefreshPolicy :=
  mkPolicy (from_secs (15 * 60)) (from_secs (2 * 60)) (from_secs 30) (from_secs 60) (from_secs 5).
Definition CapabilityRefreshPolicy_validate (p : CapabilityRefreshPolicy) : CoreResult () :=
  if (maximum_complete_ttl p =? 0)%Z || (maximum_partial_ttl p =? 0)%Z || (failed_ttl p =? 0)%Z
     || (unrevisioned_ttl p =? 0)%Z || (maximum_complete_ttl p <? maximum_partial_ttl p)%Z
     || (maximum_partial_ttl p <? failed_ttl p)%Z || (maximum_complete_ttl p <? unrevisioned_ttl p)%Z
     || (failed_ttl p <=? maximum_refresh_ahead p)%Z
  then Err (Conflict "capability refresh cache policy is invalid") else Ok tt.

(** [StableCapabilityJitter]: a hash of the key and the discovery token. *)
Definition jitter_hash (s : string) (hash : Z) : Z :=
  foldl (λ hash c, (Z.lxor hash (Z.of_N (N_of_ascii c)) * 0x100000001b3) mod 2 ^ 64)%Z hash (list_ascii_of_string s).
Definition StableCapabilityJitter (key : CapabilitySnapshotKey) (snapshot : ProviderCapabilitySnapshot) (maximum_ms : Z) : Z :=
  if (maximum_ms =? 0)%Z then 0
  else
    let hash := jitter_hash (cf_discovery_token (sn_fence snapshot))
                  (jitter_hash (sk_provider_account_id key) 0xcbf29ce484222325) in
    hash mod (u64_saturating_add maximum_ms 1).

Record CapabilityDiscoveryService := mkDiscovery {
  sv_discovery_timeout : Z;
  sv_max_concurrent : nat;
  sv_policy : CapabilityRefreshPolicy;
}.
Definition new_with_components (discovery_timeout : Z) (max_concurrent_discoveries : nat)
    (cache_policy : CapabilityRefreshPolicy) : CoreResult CapabilityDiscoveryService :=
  let? _ := CapabilityRefreshPolicy_validate cache_policy in
  if (discovery_timeout =? 0)%Z || Nat.eqb max_concurrent_discoveries 0
  then Err (Conflict "capability discovery timeout and concurrency limit must be positive")
  else Ok (mkDiscovery discovery_timeout max_concurrent_discoveries cache_policy).
Definition new_with_clock (discovery_timeout : Z) : CoreResult CapabilityDiscoveryService :=
  new_with_components discovery_timeout DEFAULT_MAX_CONCURRENT_DISCOVERIES CapabilityRefreshPolicy_default.

(** ** Inputs and results *)

Record CapabilityRefreshInput := mkInput {
  in_provider_account_id : string;
  in_provider_account_generation : Z;        (* u64 *)
  in_credential_revision : option string;
  in_account : ProviderAccountSpec;
  in_scope : CapabilityScope;
}.
Definition snapshot_key (input : CapabilityRefreshInput) : CapabilitySnapshotKey :=
  mkSnapshotKey (in_provider_account_id input) (in_scope input).
Definition validate_credential_revision (revision : option string) : CoreResult () :=
  if is_some_and (text_invalid MAX_CREDENTIAL_REVISION_LEN) revision
  then Err (Conflict "capability refresh credential revision is invalid") else Ok tt.
Definition input_validate (input : CapabilityRefreshInput) : CoreResult () :=
  let? _ := CapabilitySnapshotKey_validate (snapshot_key input) in
  let? _ := CredentialSource_validate (as_credential_source (in_account input)) in
  if (in_provider_account_generation input =? 0)%Z || (I64_MAX <? in_provider_account_generation input)%Z
  then Err (Conflict "capability refresh account generation is invalid")
  else validate_credential_revision (in_credential_revision input).

Inductive CapabilityRefreshOutcome :=
| Cached (snapshot : ProviderCapabilitySnapshot)
| Refreshed (snapshot : ProviderCapabilitySnapshot)
| WonByOther (snapshot : ProviderCapabilitySnapshot).

Record FlightKey := mkFlightKey {
  fk_snapshot_key : CapabilitySnapshotKey;
  fk_provider : CloudProvider;
  fk_provider_account_generation : Z;
  fk_credential_revision : option string;
}.
#[export] Instance FlightKey_eq_dec : EqDecision FlightKey.
Proof. solve_decision. Defined.
Definition flight_key (input : CapabilityRefreshInput) : FlightKey :=
  mkFlightKey (snapshot_key input) (as_provider (in_account input)) (in_provider_account_generation input)
    (in_credential_revision input).

(** ** Calls

    The locks, cells and permits of the service, the store, the provider and the
    clock.  A flight is its address. *)
Inductive disc_call : Type → Type :=
| JoinFlight (key : FlightKey) : disc_call nat
| LockGate (flight : nat) : disc_call ()
| ReadResult (flight : nat) : disc_call (option (CoreResult CapabilityRefreshOutcome))
| WriteResult (flight : nat) (r : CoreResult CapabilityRefreshOutcome) : disc_call ()
| ForgetFlight (key : FlightKey) (flight : nat) : disc_call ()
| AcquirePermit : disc_call bool
| ReleasePermit : disc_call ()
| LeaveFlight : disc_call ()
| StoreGet (key : CapabilitySnapshotKey) : disc_call (CoreResult (option ProviderCapabilitySnapshot))
| StoreBegin (key : CapabilitySnapshotKey) (generation : Z) (revision : option string) :
    disc_call (CoreResult CapabilityDiscoveryFence)
| StorePut (key : CapabilitySnapshotKey) (fence : CapabilityDiscoveryFence) (snapshot : ProviderCapabilitySnapshot) :
    disc_call (CoreResult CapabilityStoreWrite)
| StoreInvalidate (account_id : string) (generation : Z) (revision : option string) : disc_call (CoreResult ())
| Resolve (provider : CloudProvider) : disc_call bool
| Discover (request : CapabilityDiscoveryRequest) : disc_call (option (CoreResult CapabilityDiscoveryReport))
| WinnerReads : disc_call nat
| Sleep : disc_call ()
| NowMs : disc_call Z.

Section service.
Context `{SnapshotEncoding}.
Context (jitter : CapabilitySnapshotKey → ProviderCapabilitySnapshot → Z → Z) (self : CapabilityDiscoveryService).

(** ** The cache *)

Definition authority_matches (input : CapabilityRefreshInput) (snapshot : ProviderCapabilitySnapshot) : bool :=
  is_ok (ProviderCapabilitySnapshot_validate snapshot)
  && String.eqb (sn_provider_account_id snapshot) (in_provider_account_id input)
  && bool_decide (sn_provider snapshot = as_provider (in_account input))
  && bool_decide (sn_scope snapshot = in_scope input)
  && (cf_provider_account_generation (sn_fence snapshot) =? in_provider_account_generation input)%Z
  && bool_decide (cf_credential_revision (sn_fence snapshot) = in_credential_revision input).

Definition duration_ms_i64 (duration : Z) : Z := Z.min (as_millis duration) I64_MAX.
Definition state_ttl (input : CapabilityRefreshInput) (snapshot : ProviderCapabilitySnapshot) : Z :=
  let state_ttl := match sn_state snapshot with
                   | DiscComplete => maximum_complete_ttl (sv_policy self)
                   | DiscPartial => maximum_partial_ttl (sv_policy self)
                   | DiscFailed => failed_ttl (sv_policy self)
                   end in
  match in_credential_revision input with
  | None => Z.min state_ttl (unrevisioned_ttl (sv_policy self))
  | Some _ => state_ttl
  end.
Definition min_or (default : Z) (l : list Z) : Z :=
  match l with [] => default | x :: l => foldl Z.min x l end.
Definition reuse_deadline (input : CapabilityRefreshInput) (snapshot : ProviderCapabilitySnapshot) : Z :=
  let ttl := state_ttl input snapshot in
  let runtime_deadline := i64_saturating_add (sn_discovered_at_unix_ms snapshot) (duration_ms_i64 ttl) in
  let observation_deadline :=
    min_or runtime_deadline
      (map cd_valid_until_unix_ms (flat_map co_dimensions (sn_observations snapshot))) in
  let deadline := Z.min runtime_deadline observation_deadline in
  let maximum_jitter := Z.min (maximum_refresh_ahead (sv_policy self)) (Z.max (ttl - 10 ^ 6) 0) in
  let refresh_ahead := jitter (snapshot_key input) snapshot (Z.min (as_millis maximum_jitter) U64_MAX) in
  i64_saturating_sub deadline (Z.min refresh_ahead I64_MAX).
Definition is_reusable (input : CapabilityRefreshInput) (snapshot : ProviderCapabilitySnapshot) : prog disc_call bool :=
  if negb (authority_matches input snapshot) then Ret false
  else
    let deadline := reuse_deadline input snapshot in
    now <~ NowMs ;;
    Ret ((sn_discovered_at_unix_ms snapshot <=? now)%Z && (now <? deadline)%Z).

(** ** A refresh *)

Definition validate_fence (input : CapabilityRefreshInput) (fence : CapabilityDiscoveryFence) : CoreResult () :=
  let? _ := CapabilityDiscoveryFence_validate fence in
  if negb (cf_provider_account_generation fence =? in_provider_account_generation input)%Z
     || negb (bool_decide (cf_credential_revision fence = in_credential_revision input))
  then Err (Conflict "capability store returned a mismatched discovery fence") else Ok tt.
Definition validate_winner (input : CapabilityRefreshInput) (lost_fence : option CapabilityDiscoveryFence)
    (winner : ProviderCapabilitySnapshot) : CoreResult () :=
  let? _ := ProviderCapabilitySnapshot_validate winner in
  if negb (String.eqb (sn_provider_account_id winner) (in_provider_account_id input))
     || negb (bool_decide (sn_provider winner = as_provider (in_account input)))
     || negb (bool_decide (sn_scope winner = in_scope input))
     || negb (cf_provider_account_generation (sn_fence winner) =? in_provider_account_generation input)%Z
     || negb (bool_decide (cf_credential_revision (sn_fence winner) = in_credential_revision input))
     || is_some_and (λ lost, cf_discovery_epoch (sn_fence winner) <=? cf_discovery_epoch lost)%Z lost_fence
  then Err (Conflict "capability refresh fence winner is not authoritative for the request") else Ok tt.
Definition fixed_failure_report (reason : CapabilityReason) (code message : string) : CoreResult CapabilityDiscoveryReport :=
  let? _ := SanitizedCapabilityCode_validate code in
  let? _ := SanitizedCapabilityMessage_validate message in
  Ok (mkReport DiscFailed [] [mkIssue SevBlocking IssueAccount reason code message]).

(** The report of the discoverer, or the failure that is stored in its place. *)
Definition discovered (request : CapabilityDiscoveryRequest) : prog disc_call (CoreResult CapabilityDiscoveryReport) :=
  known <~ Resolve (as_provider (dq_account request)) ;;
  if (known : bool) then
    answer <~ Discover request ;;
    Ret (match answer with
         | Some (Ok report) =>
             if is_ok (CapabilityDiscoveryReport_validate report) then Ok report
             else fixed_failure_report InvalidProviderResponse "invalid_provider_response"
                    "provider capability discovery returned an invalid response"
         | Some (Err _) =>
             fixed_failure_report ProbeFailed "discovery_failed" "provider capability discovery failed"
         | None =>
             fixed_failure_report ProviderUnavailable "discovery_timeout" "provider capability discovery timed out"
         end)
  else
    Ret (fixed_failure_report AdapterNotImplemented "discoverer_unavailable"
           "provider capability discoverer is not configured").

(** The reads for the winner, of which [rounds] fit before the deadline. *)
Fixpoint winner_loop (rounds : nat) (input : CapabilityRefreshInput) (fence : CapabilityDiscoveryFence) :
    prog disc_call (CoreResult ProviderCapabilitySnapshot) :=
  match rounds with
  | 0 => Ret (Err (Conflict "capability refresh lost its fence without an authoritative winner"))
  | S rounds =>
      answer <~ StoreGet (snapshot_key input) ;;
      try? found := answer in
      match found with
      | Some winner =>
          if is_ok (validate_winner input (Some fence) winner) then Ret (Ok winner)
          else _ <~ Sleep ;; winner_loop rounds input fence
      | None => _ <~ Sleep ;; winner_loop rounds input fence
      end
  end.

Definition store_report (input : CapabilityRefreshInput) (fence : CapabilityDiscoveryFence)
    (request : CapabilityDiscoveryRequest) (report : CapabilityDiscoveryReport) :
    prog disc_call (CoreResult CapabilityRefreshOutcome) :=
  now <~ NowMs ;;
  try? snapshot := from_report request (Z.max now 1) report in
  answer <~ StorePut (snapshot_key input) fence snapshot ;;
  try? written := answer in
  match written with
  | Stored => Ret (Ok (Refreshed snapshot))
  | FenceLost =>
      rounds <~ WinnerReads ;;
      await? winner := winner_loop rounds input fence in
      Ret (Ok (WonByOther winner))
  end.
Definition refresh_permitted (input : CapabilityRefreshInput) : prog disc_call (CoreResult CapabilityRefreshOutcome) :=
  answer <~ StoreBegin (snapshot_key input) (in_provider_account_generation input) (in_credential_revision input) ;;
  try? fence := answer in
  try? _ := validate_fence input fence in
  let request := mkDiscRequest (in_provider_account_id input) fence (in_account input) (in_scope input) in
  try? _ := CapabilityDiscoveryRequest_validate request in
  await? report := discovered request in
  store_report input fence request report.
Definition perform_refresh (input : CapabilityRefreshInput) : prog disc_call (CoreResult CapabilityRefreshOutcome) :=
  open <~ AcquirePermit ;;
  if negb (open : bool) then Ret (Err (Adapter "capability discovery service is closed"))
  else pbind (refresh_permitted input) (λ r, _ <~ ReleasePermit ;; Ret r).

(** ** Requests *)

Definition refresh (input : CapabilityRefreshInput) : prog disc_call (CoreResult CapabilityRefreshOutcome) :=
  try? _ := input_validate input in
  let key := flight_key input in
  flight <~ JoinFlight key ;;
  _ <~ LockGate flight ;;
  stored <~ ReadResult flight ;;
  match stored with
  | Some r => _ <~ LeaveFlight ;; Ret r
  | None =>
      pbind (perform_refresh input) (λ r,
        _ <~ WriteResult flight r ;;
        _ <~ ForgetFlight key flight ;;
        _ <~ LeaveFlight ;;
        Ret r)
  end.
Definition get_or_refresh (input : CapabilityRefreshInput) : prog disc_call (CoreResult CapabilityRefreshOutcome) :=
  try? _ := input_validate input in
  answer <~ StoreGet (snapshot_key input) ;;
  try? found := answer in
  match found with
  | Some snapshot =>
      pbind (is_reusable input snapshot) (λ reusable : bool,
        if reusable then Ret (Ok (Cached snapshot)) else refresh input)
  | None => refresh input
  end.
Definition invalidate_stale_revision (account_id : string) (stale_provider_account_generation : Z)
    (stale_credential_revision : option string) : prog disc_call (CoreResult ()) :=
  try? _ := CloudResourceId_validate account_id in
  if (stale_provider_account_generation =? 0)%Z || (I64_MAX <? stale_provider_account_generation)%Z
  then Ret (Err (Conflict "stale provider account generation is invalid"))
  else
    try? _ := validate_credential_revision stale_credential_revision in
    r <~ StoreInvalidate account_id stale_provider_account_generation stale_credential_revision ;;
    Ret r.

(** ** The shared state

    An [Arc] of a flight is held by a task; the map of flights holds weak
    references only.  What the store, the provider and the clock answered, and to
    which task, is kept as history, the latest answer first. *)

Record flight := mkFlight {
  fl_key : FlightKey;
  fl_result : option (CoreResult CapabilityRefreshOutcome);
}.
Record shared := mkShared {
  ds_flights : list (FlightKey * nat);       (* Mutex<Vec<(FlightKey, Weak<Flight>)>> *)
  ds_heap : gmap nat flight;
  ds_arcs : gmap nat nat;                    (* the flight of which a task holds an Arc *)
  ds_gates : gmap nat nat;                   (* the task that holds the gate of a flight *)
  ds_permits : gset nat;                     (* the tasks that hold a permit *)
  ds_next : nat;
  ds_log : list (nat * event disc_call);
}.
Definition initial_shared : shared := mkShared [] ∅ ∅ ∅ ∅ 0 [].

(** [Weak::strong_count] is positive. *)
Definition alive (s : shared) (f : nat) : bool := existsb (λ e, Nat.eqb e.2 f) (map_to_list (ds_arcs s)).
Definition with_flights (flights : list (FlightKey * nat)) (s : shared) : shared :=
  mkShared flights (ds_heap s) (ds_arcs s) (ds_gates s) (ds_permits s) (ds_next s) (ds_log s).
Definition with_arcs (arcs : gmap nat nat) (s : shared) : shared :=
  mkShared (ds_flights s) (ds_heap s) arcs (ds_gates s) (ds_permits s) (ds_next s) (ds_log s).
Definition with_gates (gates : gmap nat nat) (s : shared) : shared :=
  mkShared (ds_flights s) (ds_heap s) (ds_arcs s) gates (ds_permits s) (ds_next s) (ds_log s).
Definition with_permits (permits : gset nat) (s : shared) : shared :=
  mkShared (ds_flights s) (ds_heap s) (ds_arcs s) (ds_gates s) permits (ds_next s) (ds_log s).
Definition with_result (f : nat) (r : CoreResult CapabilityRefreshOutcome) (s : shared) : shared :=
  mkShared (ds_flights s) (alter (λ fl, mkFlight (fl_key fl) (Some r)) f (ds_heap s)) (ds_arcs s) (ds_gates s)
    (ds_permits s) (ds_next s) (ds_log s).
Definition logged (i : nat) {X} (e : disc_call X) (x : X) (s : shared) : shared :=
  mkShared (ds_flights s) (ds_heap s) (ds_arcs s) (ds_gates s) (ds_permits s) (ds_next s) ((i, Ev e x) :: ds_log s).
(** All answers, and those to task [i]. *)
Definition history (s : shared) : list (event disc_call) := answers (ds_log s).
Definition own (i : nat) (s : shared) : list (event disc_call) := own_answers i (ds_log s).

(** The critical sections of [refresh]. *)
Definition join_flight (i : nat) (key : FlightKey) (s : shared) : nat * shared :=
  let flights := List.filter (λ e, alive s e.2) (ds_flights s) in
  match List.find (λ e, bool_decide (e.1 = key)) flights with
  | Some (_, f) => (f, with_arcs (<[i := f]> (ds_arcs s)) (with_flights flights s))
  | None =>
      let f := ds_next s in
      (f, mkShared (flights ++ [(key, f)]) (<[f := mkFlight key None]> (ds_heap s)) (<[i := f]> (ds_arcs s))
            (ds_gates s) (ds_permits s) (S f) (ds_log s))
  end.
Definition forget_flight (key : FlightKey) (f : nat) (s : shared) : shared :=
  with_flights (List.filter (λ e, negb (bool_decide (e.1 = key)) || (alive s e.2 && negb (Nat.eqb e.2 f))) (ds_flights s)) s.
(** What a task holds is dropped: the guard of the gate, the [Arc] and the permit. *)
Definition leave (i : nat) (s : shared) : shared :=
  with_arcs (delete i (ds_arcs s)) (with_gates (filter (λ g, g.2 ≠ i) (ds_gates s)) s).
Definition drop_task (i : nat) (s : shared) : shared := with_permits (ds_permits s ∖ {[i]}) (leave i s).

Definition disc_port (i : nat) (X : Type) (e : disc_call X) (s : shared) : X → shared → Prop :=
  match e in disc_call X return X → shared → Prop with
  | JoinFlight key => λ f s', (f, s') = join_flight i key s
  | LockGate f => λ _ s', ds_gates s !! f = None ∧ s' = with_gates (<[f := i]> (ds_gates s)) s
  | ReadResult f => λ x s', x = (ds_heap s !! f ≫= fl_result) ∧ s' = s
  | WriteResult f r => λ _ s', s' = with_result f r s
  | ForgetFlight key f => λ _ s', s' = forget_flight key f s
  | AcquirePermit => λ x s', x = true ∧ size (ds_permits s) < sv_max_concurrent self ∧ s' = with_permits ({[i]} ∪ ds_permits s) s
  | ReleasePermit => λ _ s', s' = with_permits (ds_permits s ∖ {[i]}) s
  | LeaveFlight => λ _ s', s' = leave i s
  | e => λ x s', s' = logged i e x s
  end.

(** ** What is promised *)

Record for_key (key : FlightKey) (s : ProviderCapabilitySnapshot) : Prop := {
  for_valid : ProviderCapabilitySnapshot_validate s = Ok tt;
  for_account : mkSnapshotKey (sn_provider_account_id s) (sn_scope s) = fk_snapshot_key key;
  for_provider : sn_provider s = fk_provider key;
  for_generation : cf_provider_account_generation (sn_fence s) = fk_provider_account_generation key;
  for_revision : cf_credential_revision (sn_fence s) = fk_credential_revision key;
}.

(** The evidence of a snapshot is the valid report that the discoverer gave under
    its fence; without one it says that the discovery failed. *)
Definition evidenced (log : list (event disc_call)) (s : ProviderCapabilitySnapshot) : Prop :=
  (∃ request report now, Ev (Discover request) (Some (Ok report)) ∈ log ∧
     CapabilityDiscoveryReport_validate report = Ok tt ∧ s = snapshot_of request now report) ∨
  (sn_state s = DiscFailed ∧ sn_observations s = []).
Definition produced (log : list (event disc_call)) (key : FlightKey) (r : CoreResult CapabilityRefreshOutcome) : Prop :=
  match r with
  | Ok (Cached _) => False
  | Ok (Refreshed s) =>
      for_key key s ∧ evidenced log s ∧
      Ev (StoreBegin (fk_snapshot_key key) (fk_provider_account_generation key) (fk_credential_revision key)) (Ok (sn_fence s)) ∈ log ∧
      Ev (StorePut (fk_snapshot_key key) (sn_fence s) s) (Ok Stored) ∈ log
  | Ok (WonByOther s) =>
      for_key key s ∧ ∃ fence lost, Ev (StorePut (fk_snapshot_key key) fence lost) (Ok FenceLost) ∈ log ∧
      (cf_discovery_epoch fence < cf_discovery_epoch (sn_fence s))%Z ∧
      Ev (StoreGet (fk_snapshot_key key)) (Ok (Some s)) ∈ log
  | Err _ => True
  end.
(** A cached snapshot is all that its request read, and it was fresh at the reading of
    the clock that the request made after that and before it answered. *)
Definition served (log mine : list (event disc_call)) (input : CapabilityRefreshInput)
    (r : CoreResult CapabilityRefreshOutcome) : Prop :=
  match r with
  | Ok (Cached s) =>
      for_key (flight_key input) s ∧
      ∃ now, mine = [Ev NowMs now; Ev (StoreGet (snapshot_key input)) (Ok (Some s))] ∧
        (sn_discovered_at_unix_ms s <= now < sn_discovered_at_unix_ms s + duration_ms_i64 (state_ttl input s))%Z ∧
        ∀ o d, o ∈ sn_observations s → d ∈ co_dimensions o → (now < cd_valid_until_unix_ms d)%Z
  | r => produced log (flight_key input) r
  end.

(** ** The invariant *)

Record disc_ok (s : shared) : Prop := {
  ok_fresh : ∀ f, is_Some (ds_heap s !! f) → f < ds_next s;
  ok_listed : ∀ k f, (k, f) ∈ ds_flights s → ∃ fl, ds_heap s !! f = Some fl ∧ fl_key fl = k;
  ok_arcs : ∀ i f, ds_arcs s !! i = Some f → is_Some (ds_heap s !! f);
  ok_gates : ∀ f i, ds_gates s !! f = Some i → ds_arcs s !! i = Some f;
  (* an unfinished flight that somebody holds is the one that callers join *)
  ok_open : ∀ i f fl, ds_arcs s !! i = Some f → ds_heap s !! f = Some fl → fl_result fl = None → (fl_key fl, f) ∈ ds_flights s;
  ok_unique : ∀ k f g, (k, f) ∈ ds_flights s → (k, g) ∈ ds_flights s → alive s f = true → alive s g = true → f = g;
  ok_permits : size (ds_permits s) <= sv_max_concurrent self;
  ok_results : ∀ f fl r, ds_heap s !! f = Some fl → fl_result fl = Some r → produced (history s) (fl_key fl) r;
}.

(** What neither other tasks nor a question of the task itself touch, and what other
    tasks do not touch. *)
Record kept (i : nat) (s s' : shared) : Prop := {
  ot_arcs : ds_arcs s' !! i = ds_arcs s !! i;
  ot_permits : i ∈ ds_permits s' ↔ i ∈ ds_permits s;
  ot_gates : ∀ f, ds_gates s' !! f = Some i ↔ ds_gates s !! f = Some i;
  ot_heap : ∀ f fl, ds_heap s !! f = Some fl → ∃ fl', ds_heap s' !! f = Some fl' ∧ fl_key fl' = fl_key fl ∧
    (∀ r, fl_result fl = Some r → is_Some (fl_result fl')) ∧ (ds_gates s !! f = Some i → fl_result fl' = fl_result fl);
  ot_log : ∀ ev, ev ∈ history s → ev ∈ history s';
}.
Record others (i : nat) (s s' : shared) : Prop := {
  ot_kept :> kept i s s';
  ot_own : own i s' = own i s;
}.
#[export] Instance kept_refl i : Reflexive (kept i).
Proof. intros s. split; try done. intros f fl Hf. exists fl. split_and!; try done. Qed.
#[export] Instance kept_trans i : Transitive (kept i).
Proof.
  intros s1 s2 s3 A B. split.
  - etrans; [apply (ot_arcs _ _ _ B)|apply A].
  - etrans; [apply (ot_permits _ _ _ B)|apply A].
  - intros f. etrans; [apply (ot_gates _ _ _ B)|apply A].
  - intros f fl Hf. destruct (ot_heap _ _ _ A f fl Hf) as (fl1&H1&K1&M1&G1).
    destruct (ot_heap _ _ _ B f fl1 H1) as (fl2&H2&K2&M2&G2). exists fl2. split_and!; [done|congruence|..].
    + intros r Hr. destruct (M1 r Hr) as [r1 Hr1]. by eapply M2.
    + intros Hg. rewrite <-(G1 Hg). apply G2. by apply (ot_gates _ _ _ A).
  - intros ev He. apply (ot_log _ _ _ B), (ot_log _ _ _ A), He.
Qed.

#[export] Instance others_refl i : Reflexive (others i).
Proof. by intros s. Qed.
#[export] Instance others_trans i : Transitive (others i).
Proof. intros s1 s2 s3 [A Ha] [B Hb]. split; [by etrans|congruence]. Qed.

Lemma alive_iff s f : alive s f = true ↔ ∃ i, ds_arcs s !! i = Some f.
Proof.
  unfold alive. rewrite existsb_exists. split.
  - intros ([i g]&Hin&Hg%Nat.eqb_eq). cbn [snd] in Hg. subst. exists i. by apply elem_of_map_to_list, list_elem_of_In.
  - intros [i Hi]. exists (i, f). split; [|apply Nat.eqb_refl]. by apply list_elem_of_In, elem_of_map_to_list.
Qed.

Lemma produced_mono log log' key r : (∀ ev, ev ∈ log → ev ∈ log') → produced log key r → produced log' key r.
Proof.
  intros Hl. destruct r as [[s|s|s]|]; simpl; [done| | |done].
  - intros (Hk&He&Hb&Hp). split_and!; [done| |by apply Hl..]. destruct He as [(rq&re&now&He&?&?)|?]; [left|by right].
    exists rq, re, now. split_and!; [by apply Hl|done..].
  - intros (Hk&fence&lost&Hp&Hlt&Hg). split; [done|]. exists fence, lost. split_and!; [by apply Hl|done|by apply Hl].
Qed.

(** ** Each call keeps the invariant *)

(** A change of what the tasks hold leaves the history alone. *)
Lemma kept_others i s s' : ds_log s' = ds_log s → kept i s s' → others i s s'.
Proof. intros Hl Hk. split; [done|]. unfold own. by rewrite Hl. Qed.
Lemma kept_logged i j {X} (e : disc_call X) x s : kept i s (logged j e x s).
Proof. split; try done; [intros f fl Hf; by exists fl|]. intros ev. by right. Qed.
Lemma own_logged i {X} (e : disc_call X) x s : own i (logged i e x s) = Ev e x :: own i s.
Proof. apply own_answers_here. Qed.
Lemma others_logged i j {X} (e : disc_call X) x s : i ≠ j → others i s (logged j e x s).
Proof. intros Hij. split; [apply kept_logged|]. by apply own_answers_other. Qed.
Lemma ok_logged i {X} (e : disc_call X) x s : disc_ok s → disc_ok (logged i e x s).
Proof.
  intros Ok. split; try apply Ok. intros f fl r Hf Hr. eapply produced_mono; [|by eapply ok_results]. by right.
Qed.

Lemma find_live key s :
  match List.find (λ e, bool_decide (e.1 = key)) (List.filter (λ e, alive s e.2) (ds_flights s)) with
  | Some (k, f) => k = key ∧ (key, f) ∈ ds_flights s ∧ alive s f = true
  | None => ∀ f, (key, f) ∈ ds_flights s → alive s f = false
  end.
Proof.
  destruct (List.find _ _) as [[k f]|] eqn:Ef.
  - apply find_some in Ef as [Hin Hk%bool_decide_eq_true]. cbn [fst] in Hk. subst k.
    apply filter_In in Hin as [Hin Ha]. split; [done|]. split; [by apply list_elem_of_In|done].
  - intros f Hf. destruct (alive s f) eqn:Ha; [|done]. exfalso.
    pose proof (find_none _ _ Ef (key, f)) as Hn. cbn [fst] in Hn. rewrite bool_decide_eq_false in Hn. apply Hn; [|done].
    apply filter_In. split; [by apply list_elem_of_In|done].
Qed.
Lemma elem_of_live s (k : FlightKey) f : (k, f) ∈ List.filter (λ e, alive s e.2) (ds_flights s) ↔ (k, f) ∈ ds_flights s ∧ alive s f = true.
Proof. rewrite !list_elem_of_In, filter_In. done. Qed.

(** Nothing but what the task holds changes. *)
Lemma others_arcs i j f s : j ≠ i → others j s (with_arcs (<[i := f]> (ds_arcs s)) s).
Proof.
  intros Hj. apply kept_others; [done|]. split; try done; cbn; [by rewrite lookup_insert_ne|]. intros g fl Hf. by exists fl.
Qed.

Lemma join_ok i key s f s' :
  disc_ok s → ds_arcs s !! i = None → (f, s') = join_flight i key s →
  disc_ok s' ∧ (∀ j, j ≠ i → others j s s') ∧ ds_arcs s' !! i = Some f ∧
  (∃ fl, ds_heap s' !! f = Some fl ∧ fl_key fl = key) ∧ ds_permits s' = ds_permits s ∧ ds_gates s' = ds_gates s.
Proof.
  intros Ok Hi. unfold join_flight. pose proof (find_live key s) as Hf.
  destruct (List.find _ _) as [[k g]|]; intros [= -> ->].
  - destruct Hf as (->&Hin&Ha). pose proof (ok_listed _ Ok _ _ Hin) as (fl&Hfl&Hk).
    assert (∀ h, alive (with_arcs (<[i := g]> (ds_arcs s)) (with_flights (List.filter (λ e, alive s e.2) (ds_flights s)) s)) h = alive s h) as Hal.
    { intros h. apply eq_true_iff_eq. rewrite !alive_iff. cbn. split.
      - intros [j [[-> <-]|[_ Hj]]%lookup_insert_Some]; [by apply alive_iff|by exists j].
      - intros [j Hj]. exists j. rewrite lookup_insert_ne; [done|]. intros ->. congruence. }
    split; [|split; [|cbn; split; [apply lookup_insert_eq|split; [by exists fl|done]]]].
    + split; cbn [ds_flights ds_heap ds_arcs ds_gates ds_permits ds_next ds_log with_arcs with_flights].
      * apply Ok.
      * intros k h [Hh _]%elem_of_live. by apply Ok.
      * intros j h [[_ <-]|[_ Hj]]%lookup_insert_Some; [by eexists|by eapply ok_arcs].
      * intros h j Hh. pose proof (ok_gates _ Ok _ _ Hh). rewrite lookup_insert_ne; [done|]. intros ->. congruence.
      * intros j h fl' [[_ <-]|[_ Hj]]%lookup_insert_Some Hfl' Hr; apply elem_of_live.
        -- simplify_eq. apply alive_iff in Ha as Ha'. destruct Ha' as [j' Hj']. split; [by eapply ok_open|done].
        -- split; [by eapply ok_open|]. apply alive_iff. by exists j.
      * intros k h h' [Hh ?]%elem_of_live [Hh' ?]%elem_of_live _ _. by eapply ok_unique.
      * apply Ok.
      * apply Ok.
    + intros j Hj. etrans; [|by apply (others_arcs i j g (with_flights _ s))]. apply kept_others; [done|]. split; try done.
      intros h fl' Hh. by exists fl'.
  - split; [|split; [|cbn; split; [apply lookup_insert_eq|split; [|done]]]].
    + assert (∀ h, is_Some (ds_heap s !! h) → h ≠ ds_next s) as Hne.
      { intros h Hh ->. pose proof (ok_fresh _ Ok _ Hh). lia. }
      assert (∀ h (t : shared), h ≠ ds_next s → ds_arcs t = <[i := ds_next s]> (ds_arcs s) → alive t h = true → alive s h = true) as Hold.
      { intros h t Hh Ht. rewrite !alive_iff, Ht. intros [j [[_ <-]|[_ Hj]]%lookup_insert_Some]; [done|by exists j]. }
      split; cbn [ds_flights ds_heap ds_arcs ds_gates ds_permits ds_next ds_log].
      * intros h [<-|Hh]%lookup_insert_is_Some'; [lia|]. pose proof (ok_fresh _ Ok _ Hh). lia.
      * intros k h [[Hh _]%elem_of_live|[= -> ->]%list_elem_of_singleton]%elem_of_app.
        -- destruct (ok_listed _ Ok _ _ Hh) as (fl&Hfl&Hk). exists fl. split; [|done].
           rewrite lookup_insert_ne; [done|]. apply not_eq_sym, Hne. by eexists.
        -- eexists. by rewrite lookup_insert_eq.
      * intros j h [[_ <-]|[_ Hj]]%lookup_insert_Some; apply lookup_insert_is_Some'; [by left|right]. by eapply ok_arcs.
      * intros h j Hh. pose proof (ok_gates _ Ok _ _ Hh). rewrite lookup_insert_ne; [done|]. intros ->. congruence.
      * intros j h fl' [[_ <-]|[_ Hj]]%lookup_insert_Some.
        -- rewrite lookup_insert_eq. intros [= <-] _. apply elem_of_app. right. by apply list_elem_of_singleton.
        -- rewrite lookup_insert_ne by (apply not_eq_sym, Hne; by eapply ok_arcs). intros Hfl Hr.
           apply elem_of_app. left. apply elem_of_live. split; [by eapply ok_open|]. apply alive_iff. by exists j.
      * assert (∀ k h, (k, h) ∈ List.filter (λ e, alive s e.2) (ds_flights s) → h ≠ ds_next s ∧ k ≠ key) as Hl.
        { intros k h [Hh Ha]%elem_of_live. destruct (ok_listed _ Ok _ _ Hh) as (fl&Hfl&_). split.
          - apply Hne. by eexists.
          - intros ->. by rewrite (Hf _ Hh) in Ha. }
        intros k h h' [Hh|He%list_elem_of_singleton]%elem_of_app [Hh'|He'%list_elem_of_singleton]%elem_of_app Ha Ha'; simplify_eq.
        -- apply elem_of_live in Hh as [Hh Hl1], Hh' as [Hh' Hl2]. by eapply ok_unique.
        -- by destruct (Hl _ _ Hh).
        -- by destruct (Hl _ _ Hh').
        -- done.
      * apply Ok.
      * intros h fl r. intros [[_ <-]|[_ Hfl]]%lookup_insert_Some; [done|]. apply (ok_results _ Ok _ _ _ Hfl).
    + intros j Hj. apply kept_others; [done|]. split; try done; cbn.
      * by rewrite lookup_insert_ne.
      * intros h fl Hfl. exists fl. split; [|done]. rewrite lookup_insert_ne; [done|].
        intros <-. pose proof (ok_fresh _ Ok _ (mk_is_Some _ _ Hfl)). lia.
    + eexists. by rewrite lookup_insert_eq.
Qed.

Lemma forget_ok key f s fl :
  disc_ok s → ds_heap s !! f = Some fl → is_Some (fl_result fl) → disc_ok (forget_flight key f s).
Proof.
  intros Ok Hf [r Hr]. assert (∀ k h, (k, h) ∈ ds_flights (forget_flight key f s) → (k, h) ∈ ds_flights s) as Hsub.
  { intros k h [Hh _]%list_elem_of_In%filter_In. by apply list_elem_of_In. }
  split; try apply Ok.
  - intros k h Hh. by apply Ok, Hsub.
  - intros i h fl' Ha Hh Hn. cbn in Ha, Hh. assert (h ≠ f) as Hne by (intros ->; congruence).
    apply list_elem_of_In, filter_In. split.
    + apply list_elem_of_In. by eapply ok_open.
    + cbn [fst snd]. rewrite (proj2 (alive_iff s h)) by by exists i.
      rewrite (proj2 (Nat.eqb_neq h f)) by done. apply orb_true_r.
  - intros k g h Hg Hh. apply (ok_unique _ Ok k); by apply Hsub.
Qed.

Lemma leave_arcs i s j f : ds_arcs (leave i s) !! j = Some f → i ≠ j ∧ ds_arcs s !! j = Some f.
Proof. apply lookup_delete_Some. Qed.
Lemma leave_gates i s f j : ds_gates (leave i s) !! f = Some j → ds_gates s !! f = Some j ∧ j ≠ i.
Proof. intros [Hf Hj]%map_lookup_filter_Some. done. Qed.
Lemma alive_drop i s g : alive (leave i s) g = true → alive s g = true.
Proof.
  rewrite !alive_iff. intros [j [_ Hj]%leave_arcs]. by exists j.
Qed.
Lemma leave_ok i s : disc_ok s → disc_ok (leave i s).
Proof.
  intros Ok. split; try apply Ok.
  - intros j f [_ Hj]%leave_arcs. by eapply (ok_arcs s).
  - intros f j [Hj Hne]%leave_gates. cbn. rewrite lookup_delete_ne by done. by apply Ok.
  - intros j f fl [_ Hj]%leave_arcs. by eapply (ok_open s).
  - intros k f g Hf Hg Ha%alive_drop Hb%alive_drop. by eapply (ok_unique s).
Qed.
Lemma others_leave i j s : j ≠ i → others j s (leave i s).
Proof.
  intros Hj. apply kept_others; [done|]. split; try done; cbn.
  - by rewrite lookup_delete_ne.
  - intros f. rewrite map_lookup_filter_Some. cbn [snd]. split; [by intros [? _]|done].
  - intros f fl Hf. by exists fl.
Qed.
Lemma permits_ok i s X : X ⊆ {[i]} ∪ ds_permits s → size X <= sv_max_concurrent self → disc_ok s → disc_ok (with_permits X s).
Proof. intros HX Hs Ok. by split; try apply Ok. Qed.
Lemma others_permits i j s X : j ≠ i → (∀ k, k ≠ i → k ∈ X ↔ k ∈ ds_permits s) → others j s (with_permits X s).
Proof. intros Hj HX. apply kept_others; [done|]. split; try done; [by apply HX|]. intros f fl Hf. by exists fl. Qed.
Lemma drop_permits_ok i s : disc_ok s → disc_ok (with_permits (ds_permits s ∖ {[i]}) s).
Proof.
  intros Ok. apply (permits_ok i); [set_solver| |done]. etrans; [|apply Ok].
  apply subseteq_size. set_solver.
Qed.
Lemma others_drop_permits i j s : j ≠ i → others j s (with_permits (ds_permits s ∖ {[i]}) s).
Proof. intros Hj. apply (others_permits i); [done|]. intros k Hk. set_solver. Qed.

Definition finished (s : shared) (i : nat) : Prop :=
  ds_arcs s !! i = None ∧ i ∉ ds_permits s ∧ ∀ f, ds_gates s !! f ≠ Some i.
Lemma drop_task_ok i s :
  disc_ok s → disc_ok (drop_task i s) ∧ finished (drop_task i s) i ∧ ∀ j, j ≠ i → others j s (drop_task i s).
Proof.
  intros Ok. split; [|split].
  - by apply (drop_permits_ok i (leave i s)), leave_ok.
  - split; [apply lookup_delete_eq|]. split; [cbn; set_solver|].
    by intros f [_ Hne]%leave_gates.
  - intros j Hj. etrans; [by apply (others_leave i)|]. by apply (others_drop_permits i j (leave i s)).
Qed.

Lemma write_result_ok f r s fl :
  disc_ok s → ds_heap s !! f = Some fl → fl_result fl = None → produced (history s) (fl_key fl) r →
  disc_ok (with_result f r s).
Proof.
  intros Ok Hf Hn Hp. assert (∀ h fl', ds_heap (with_result f r s) !! h = Some fl' →
    (h = f ∧ fl' = mkFlight (fl_key fl) (Some r)) ∨ (h ≠ f ∧ ds_heap s !! h = Some fl')) as Hh.
  { intros h fl'. cbn. rewrite lookup_alter. case_decide as E; [subst|by right].
    rewrite Hf. intros [= <-]. by left. }
  split; try apply Ok.
  - intros h [fl' [[-> _]|[_ Hl]]%Hh]; apply Ok; by eexists.
  - intros k h Hk. destruct (ok_listed _ Ok _ _ Hk) as (fl'&Hl&Hk'). cbn. rewrite lookup_alter.
    case_decide; [subst; rewrite Hl; by eexists|by exists fl'].
  - intros i h Hi. cbn. rewrite lookup_alter. destruct (ok_arcs _ Ok _ _ Hi) as [fl' Hl].
    case_decide; [subst; rewrite Hl; by eexists|by exists fl'].
  - intros i h fl' Hi [[-> ->]|[_ Hl]]%Hh; [done|]. by eapply (ok_open s).
  - intros h fl' r' [[-> ->]|[_ Hl]]%Hh; [by intros [= <-]|]. by eapply (ok_results s).
Qed.
Lemma others_write i j f r s : ds_gates s !! f = Some i → j ≠ i → others j s (with_result f r s).
Proof.
  intros Hg Hj. apply kept_others; [done|]. split; try done. intros h fl Hh. cbn. rewrite lookup_alter. case_decide.
  - subst. rewrite Hh. eexists. split_and!; [done|done|by eexists|]. intros Hg'. congruence.
  - by exists fl.
Qed.
Lemma lock_ok i f s :
  disc_ok s → ds_arcs s !! i = Some f → ds_gates s !! f = None → disc_ok (with_gates (<[f := i]> (ds_gates s)) s).
Proof.
  intros Ok Hi Hf. split; try apply Ok. intros g j. cbn. intros [[<- <-]|[_ Hg]]%lookup_insert_Some; [done|]. by apply Ok.
Qed.
Lemma others_lock i j f s : ds_gates s !! f = None → j ≠ i → others j s (with_gates (<[f := i]> (ds_gates s)) s).
Proof.
  intros Hf Hj. apply kept_others; [done|]. split; try done; cbn.
  - intros g. rewrite lookup_insert_Some. split; [by intros [[? ?]|[? ?]]|]. intros Hg. right. split; [|done].
    intros ->. congruence.
  - intros g fl Hg. by exists fl.
Qed.

(** ** Guards *)

(** At work: under the gate of an unfinished flight of the key, with a permit. *)
Definition at_work (i : nat) (key : FlightKey) (s : shared) : Prop :=
  i ∈ ds_permits s ∧ ∃ f fl, ds_gates s !! f = Some i ∧ ds_heap s !! f = Some fl ∧ fl_key fl = key ∧ fl_result fl = None.
(** The calls to the store and the provider, after the answers [mine].  The one that
    is not work is the lookup in the cache, with which a request may start. *)
Definition works (mine : list (event disc_call)) {X} (e : disc_call X) : bool :=
  match e with
  | StoreBegin _ _ _ | StorePut _ _ _ | Resolve _ | Discover _ => true
  | StoreGet _ => match mine with [] => false | _ => true end
  | _ => false
  end.

Context (keys : nat → FlightKey).
Definition guard (i : nat) (X : Type) (e : disc_call X) (s : shared) : Prop :=
  match e with
  | JoinFlight _ => ds_arcs s !! i = None
  | LockGate f => ds_arcs s !! i = Some f
  | WriteResult f r => ds_gates s !! f = Some i ∧ ∃ fl, ds_heap s !! f = Some fl ∧ fl_result fl = None ∧ produced (history s) (fl_key fl) r
  | ForgetFlight _ f => ∃ fl, ds_heap s !! f = Some fl ∧ is_Some (fl_result fl)
  | _ => works (own i s) e = true → at_work i (keys i) s
  end.

Lemma disc_call_ok i X (e : disc_call X) s x s' :
  disc_ok s → guard i X e s → disc_port i X e s x s' → disc_ok s' ∧ ∀ j, j ≠ i → others j s s'.
Proof.
  intros Ok Hg Hx.
  destruct e; cbn [disc_port guard] in *;
    try (subst s'; split; [by apply ok_logged|]; intros; by apply others_logged).
  - by destruct (join_ok i key s x s' Ok Hg Hx) as (?&?&_).
  - destruct Hx as [Hf ->]. split; [by apply lock_ok|]. intros. by apply others_lock.
  - destruct Hx as [_ ->]. by split.
  - subst s'. destruct Hg as (Hf&fl&Hfl&Hn&Hp). split; [by eapply write_result_ok|]. intros. by eapply others_write.
  - subst s'. destruct Hg as (fl&Hfl&Hr). split; [by eapply forget_ok|]. intros j Hj.
    apply kept_others; [done|]. split; try done. intros h fl' Hh. by exists fl'.
  - destruct Hx as (_&Hs&->). split.
    + apply (permits_ok i); [done| |done]. rewrite size_union_alt, size_singleton.
      assert (size (ds_permits s ∖ {[i]}) <= size (ds_permits s)) by (apply subseteq_size; set_solver). lia.
    + intros j Hj. apply (others_permits i); [done|]. set_solver.
  - subst s'. split; [by apply drop_permits_ok|]. intros. by apply others_drop_permits.
  - subst s'. split; [by apply leave_ok|]. intros. by apply others_leave.
Qed.

(** ** What a refresh answers

    Its calls answer anything. *)

Definition asks {X} (e : disc_call X) : bool :=
  match e with
  | StoreGet _ | StoreBegin _ _ _ | StorePut _ _ _ | StoreInvalidate _ _ _ | Resolve _ | Discover _ | WinnerReads
  | Sleep | NowMs => true
  | _ => false
  end.

Lemma winner_exec rounds input fence t r t' :
  exec traced (winner_loop rounds input fence) t r t' →
  ∀ w, r = Ok w → validate_winner input (Some fence) w = Ok tt ∧ Ev (StoreGet (snapshot_key input)) (Ok (Some w)) ∈ t'.
Proof.
  revert t. induction rounds as [|rounds IH]; intros t; cbn [winner_loop]; [by intros [-> _]|].
  intros [[[w|]|e] He]%traced_step; cbn in He.
  - destruct (validate_winner input (Some fence) w) as [[]|] eqn:Ew; cbn in He.
    + destruct He as [-> ->]. intros ? [= <-]. split; [done|]. apply elem_of_app. right. by apply list_elem_of_singleton.
    + apply traced_step in He as [[] He]. by eapply IH.
  - apply traced_step in He as [[] He]. by eapply IH.
  - by destruct He as [-> _].
Qed.

Lemma fixed_failure_Ok reason code message report :
  fixed_failure_report reason code message = Ok report → re_state report = DiscFailed ∧ re_observations report = [].
Proof.
  unfold fixed_failure_report. destruct (SanitizedCapabilityCode_validate code); [|done].
  destruct (SanitizedCapabilityMessage_validate message); [|done]. by intros [= <-].
Qed.
Lemma discovered_exec request t r t' :
  exec traced (discovered request) t r t' → ∀ report, r = Ok report →
  (Ev (Discover request) (Some (Ok report)) ∈ t' ∧ CapabilityDiscoveryReport_validate report = Ok tt) ∨
  (re_state report = DiscFailed ∧ re_observations report = []).
Proof.
  unfold discovered. intros [[] He]%traced_step.
  - apply traced_step in He as [a [-> ->]]. intros report Hr. destruct a as [[rep|e]|]; [|right; by eapply fixed_failure_Ok..].
    destruct (CapabilityDiscoveryReport_validate rep) as [[]|] eqn:Ev; cbn [is_ok] in Hr; [|right; by eapply fixed_failure_Ok].
    injection Hr as <-. left. split; [|done]. apply elem_of_app. right. by apply list_elem_of_singleton.
  - destruct He as [-> ->]. intros report Hr. right. by eapply fixed_failure_Ok.
Qed.

Lemma from_report_Ok request now report s :
  from_report request now report = Ok s →
  s = snapshot_of request now report ∧ ProviderCapabilitySnapshot_validate s = Ok tt.
Proof.
  unfold from_report. destruct (CapabilityDiscoveryRequest_validate request); [|done].
  destruct (CapabilityDiscoveryReport_validate report); [|done].
  destruct (ProviderCapabilitySnapshot_validate _) as [[]|] eqn:E; [|done]. by intros [= <-].
Qed.

Lemma validate_fence_Ok input fence :
  validate_fence input fence = Ok tt →
  cf_provider_account_generation fence = in_provider_account_generation input ∧
  cf_credential_revision fence = in_credential_revision input.
Proof.
  unfold validate_fence. destruct (CapabilityDiscoveryFence_validate fence); [|done].
  destruct (Z.eqb_spec (cf_provider_account_generation fence) (in_provider_account_generation input)); [|done].
  case_bool_decide; [|done]. by intros _.
Qed.
Lemma validate_winner_Ok input fence w :
  validate_winner input (Some fence) w = Ok tt →
  for_key (flight_key input) w ∧ (cf_discovery_epoch fence < cf_discovery_epoch (sn_fence w))%Z.
Proof.
  unfold validate_winner. destruct (ProviderCapabilitySnapshot_validate w) as [[]|] eqn:Ev; [|done].
  destruct (String.eqb_spec (sn_provider_account_id w) (in_provider_account_id input)); [|done].
  destruct (bool_decide_reflect (sn_provider w = as_provider (in_account input))); [|done].
  destruct (bool_decide_reflect (sn_scope w = in_scope input)); [|done].
  destruct (Z.eqb_spec (cf_provider_account_generation (sn_fence w)) (in_provider_account_generation input)); [|done].
  destruct (bool_decide_reflect (cf_credential_revision (sn_fence w) = in_credential_revision input)); [|done].
  cbn [negb orb is_some_and]. destruct (Z.leb_spec (cf_discovery_epoch (sn_fence w)) (cf_discovery_epoch fence)); [done|].
  intros _. split; [|done]. split; cbn; try done. unfold snapshot_key. by f_equal.
Qed.

Lemma elem_of_answered {E : Type → Type} {X} (t u : list (event E)) (e : E X) x : Ev e x ∈ t → Ev e x ∈ t ++ u.
Proof. intros. apply elem_of_app. by left. Qed.
Lemma elem_of_last {E : Type → Type} {X} (t u : list (event E)) (e : E X) x : Ev e x ∈ (t ++ [Ev e x]) ++ u.
Proof. apply elem_of_app. left. apply elem_of_app. right. by apply list_elem_of_singleton. Qed.
Lemma exec_extends {E : Type → Type} {A} (p : prog E A) t r t' : exec traced p t r t' → ∃ u, t' = t ++ u.
Proof. intros (u&->&_)%exec_traced_app. by exists u. Qed.

Lemma store_report_exec input fence request report t r t' :
  validate_fence input fence = Ok tt →
  request = mkDiscRequest (in_provider_account_id input) fence (in_account input) (in_scope input) →
  ((Ev (Discover request) (Some (Ok report)) ∈ t ∧ CapabilityDiscoveryReport_validate report = Ok tt) ∨
   (re_state report = DiscFailed ∧ re_observations report = [])) →
  Ev (StoreBegin (snapshot_key input) (in_provider_account_generation input) (in_credential_revision input)) (Ok fence) ∈ t →
  exec traced (store_report input fence request report) t r t' → produced t' (flight_key input) r.
Proof.
  intros [Hg Hc]%validate_fence_Ok -> Hrep Hb. unfold store_report. intros [now He]%traced_step.
  destruct (from_report _ (Z.max now 1) report) as [s|] eqn:Es; [|by destruct He as [-> _]].
  apply from_report_Ok in Es as [Hs Hv]. apply traced_step in He as [[w|e] He]; [|by destruct He as [-> _]].
  destruct (exec_extends _ _ _ _ He) as [u Hu]. destruct w.
  - destruct He as [-> ->]. subst s. cbn [produced sn_fence snapshot_of flight_key fk_snapshot_key]. split_and!.
    + by split.
    + destruct Hrep as [[Hd Hr]|Hf]; [left|by right]. do 3 eexists. split_and!; [|done|done].
      by do 2 apply elem_of_answered.
    + by do 2 apply elem_of_answered.
    + apply elem_of_app. right. by apply list_elem_of_singleton.
  - apply traced_step in He as [rounds He]. apply exec_bind in He as (wr&t1&Hw&He).
    destruct wr as [w|e]; [|by destruct He as [-> _]]. destruct He as [-> ->].
    destruct (winner_exec _ _ _ _ _ _ Hw w eq_refl) as [Hval Hin]. apply validate_winner_Ok in Hval as [Hk Hlt].
    cbn [produced]. split; [done|]. exists fence, s. split; [|split; [done|exact Hin]].
    rewrite Hu. apply elem_of_last.
Qed.

Lemma refresh_permitted_exec input r t : exec traced (refresh_permitted input) [] r t → produced t (flight_key input) r.
Proof.
  unfold refresh_permitted. intros [[fence|e] He]%traced_step; [|by destruct He as [-> _]].
  destruct (validate_fence input fence) as [[]|] eqn:Ef; [|by destruct He as [-> _]].
  destruct (CapabilityDiscoveryRequest_validate _); [|by destruct He as [-> _]].
  apply exec_bind in He as (d&t1&Hd&He). destruct d as [report|e]; [|by destruct He as [-> _]].
  destruct (exec_extends _ _ _ _ Hd) as [u Hu].
  eapply store_report_exec; [exact Ef|reflexivity| | |exact He].
  - by eapply discovered_exec.
  - rewrite Hu. apply (elem_of_last []).
Qed.

(** ** Tasks *)

Abbreviation tsafe := (task_safe disc_port disc_ok others guard).

Lemma tsafe_call {A X} i (Q : A → shared → Prop) (e : disc_call X) k s :
  (∀ s1, disc_ok s1 → others i s s1 → guard i X e s1 ∧
     ∀ x s2, disc_port i X e s1 x s2 → disc_ok s2 → tsafe i Q (k x) s2) →
  tsafe i Q (Vis e k) s.
Proof.
  intros Hk s1 Hok Ho. destruct (Hk s1 Hok Ho) as [Hg Hx]. split; [done|]. intros x s2 Hp.
  destruct (disc_call_ok i X e s1 x s2 Hok Hg Hp) as [Hok2 Ho2]. split_and!; [done..|]. by apply Hx.
Qed.

Lemma at_work_later i key s s' : kept i s s' → at_work i key s → at_work i key s'.
Proof.
  intros O (Hp&f&fl&Hg&Hf&Hk&Hn). split; [by apply (ot_permits _ _ _ O)|].
  destruct (ot_heap _ _ _ O f fl Hf) as (fl'&Hf'&Hk'&_&Hr). exists f, fl'. split_and!; [|done|congruence|].
  - by apply (ot_gates _ _ _ O).
  - by rewrite Hr.
Qed.

(** A part that only asks, at work: its answers are in the history. *)
Definition quiet (X : Type) (e : disc_call X) : Prop := asks e = true.
Lemma tsafe_asks {A} i (p : prog disc_call A) s0 :
  at_work i (keys i) s0 → calls_only quiet p →
  tsafe i (λ r s', kept i s0 s' ∧ ∃ t, exec traced p [] r t ∧ ∀ ev, ev ∈ t → ev ∈ history s') p s0.
Proof.
  intros Hw Hp. eapply task_safe_mono;
    [|apply (task_asks disc_port disc_ok others guard i (own i) quiet (kept i)); [apply _|apply _|by intros s s' []| |exact Hp]].
  - intros r s' (Hk&t&Ht&Hl). split; [done|]. exists t. split; [done|]. intros ev Hev. apply (own_answers_answers i).
    change (ev ∈ own i s'). rewrite Hl. apply elem_of_app. left. by apply list_elem_of_In, in_rev, list_elem_of_In in Hev.
  - intros X e s Ha Hok Ho. assert (at_work i (keys i) s) as Hw' by by eapply at_work_later.
    destruct e; try discriminate Ha; cbn [guard disc_port] in *;
      (split; [done|]); intros x s' ->;
      (split; [by apply ok_logged|]); (split; [intros; by apply others_logged|]);
      (split; [apply kept_logged|apply own_logged]).
Qed.

(** What task [i] holds: the [Arc] of [f], a permit, the gate. *)
Record holds (i f : nat) (permit gate : bool) (Res : option (CoreResult CapabilityRefreshOutcome) → Prop) (s : shared) : Prop := {
  hl_arc : ds_arcs s !! i = Some f;
  hl_permit : i ∈ ds_permits s ↔ permit = true;
  hl_gate : if gate then ds_gates s !! f = Some i else ∀ g, ds_gates s !! g ≠ Some i;
  hl_flight : ∃ fl, ds_heap s !! f = Some fl ∧ fl_key fl = keys i ∧ (gate = true → Res (fl_result fl));
}.
Lemma holds_later i f permit gate Res s s' : kept i s s' → holds i f permit gate Res s → holds i f permit gate Res s'.
Proof.
  intros O [Ha Hp Hg (fl&Hf&Hk&Hr)]. split.
  - etrans; [apply O|done].
  - etrans; [apply O|done].
  - destruct gate; [by apply (ot_gates _ _ _ O)|]. intros g Hg'. by apply (Hg g), (ot_gates _ _ _ O).
  - destruct (ot_heap _ _ _ O f fl Hf) as (fl'&Hf'&Hk'&_&Hr'). exists fl'. split_and!; [done|congruence|].
    intros ->. rewrite Hr' by done. by apply Hr.
Qed.
Lemma finished_later i s s' : kept i s s' → finished s i → finished s' i.
Proof.
  intros O (Ha&Hp&Hg). split_and!.
  - etrans; [apply O|done].
  - by intros ?%(ot_permits _ _ _ O).
  - intros f Hf. by apply (Hg f), (ot_gates _ _ _ O).
Qed.
Lemma leave_finished i f gate Res s : holds i f false gate Res s → finished (leave i s) i.
Proof.
  intros Hh. split_and!; [apply lookup_delete_eq| |].
  - by intros ?%(hl_permit _ _ _ _ _ _ Hh).
  - by intros g [_ ?]%leave_gates.
Qed.
Lemma holds_at_work i f s : holds i f true true (λ r, r = None) s → at_work i (keys i) s.
Proof.
  intros [Ha Hp Hg (fl&Hf&Hk&Hr)]. split; [by apply Hp|]. exists f, fl. split_and!; [done..|]. by apply Hr.
Qed.

Lemma produced_served log mine input r : produced log (flight_key input) r → served log mine input r.
Proof. by destruct r as [[]|]. Qed.

(** The end of a refresh: the result is stored, the flight forgotten and left. *)
Lemma tsafe_finish i f input r s :
  keys i = flight_key input → holds i f false true (λ x, x = None) s → produced (history s) (keys i) r →
  tsafe i (λ r s', finished s' i ∧ served (history s') (own i s') input r)
    (_ <~ WriteResult f r ;; _ <~ ForgetFlight (flight_key input) f ;; _ <~ LeaveFlight ;; Ret r) s.
Proof.
  intros Hkey Hh Hp. apply tsafe_call. intros s1 Hok Ho1. apply (holds_later _ _ _ _ _ _ _ Ho1) in Hh.
  assert (produced (history s1) (keys i) r) as Hp1 by (eapply produced_mono; [apply Ho1|done]).
  destruct Hh as [Ha Hpm Hg (fl&Hf&Hk&Hr)]. specialize (Hr eq_refl). split.
  { cbn. split; [done|]. exists fl. split_and!; [done..|]. by rewrite Hk. }
  intros [] s2 Hs2 Hok2. cbn in Hs2. subst s2.
  assert (holds i f false true is_Some (with_result f r s1)) as Hh2.
  { split; [done..|]. eexists. cbn. rewrite lookup_alter, Hf, decide_True by done. split_and!; [done|done|by eexists]. }
  apply tsafe_call. intros s3 Hok3 Ho3. apply (holds_later _ _ _ _ _ _ _ Ho3) in Hh2.
  pose proof Hh2 as [_ _ _ (fl3&Hf3&_&Hr3)]. specialize (Hr3 eq_refl). split; [by exists fl3|].
  intros [] s4 Hs4 Hok4. cbn in Hs4. subst s4.
  assert (holds i f false true is_Some (forget_flight (flight_key input) f s3)) as Hh4 by by destruct Hh2.
  apply tsafe_call. intros s5 Hok5 Ho5. apply (holds_later _ _ _ _ _ _ _ Ho5) in Hh4. split; [done|].
  intros [] s6 Hs6 _. cbn in Hs6. subst s6. split; [by eapply leave_finished|].
  apply produced_served. rewrite <-Hkey. eapply produced_mono; [|exact Hp1].
  intros ev He. cbn. apply (ot_log _ _ _ Ho5). cbn. apply (ot_log _ _ _ Ho3). exact He.
Qed.

Lemma quiet_refresh input : calls_only quiet (refresh_permitted input).
Proof.
  assert (∀ X (e : disc_call X), asks e = true → quiet X e) as Hq by done.
  assert (∀ rounds fence, calls_only quiet (winner_loop rounds input fence)) as Hwin.
  { induction rounds as [|rounds IH]; intros fence; [done|]. split; [by apply Hq|]. intros [[w|]|e]; [|split; [by apply Hq|done]|done].
    destruct (is_ok _); [done|]. split; [by apply Hq|]. intros []. apply IH. }
  unfold refresh_permitted. split; [by apply Hq|]. intros [fence|e]; [|done]. destruct (validate_fence _ _); [|done].
  destruct (CapabilityDiscoveryRequest_validate _); [|done]. apply calls_only_bind.
  - unfold discovered. split; [by apply Hq|]. intros [|]; [|done]. split; [by apply Hq|done].
  - intros [report|e]; [|done]. unfold store_report. split; [by apply Hq|]. intros now.
    destruct (from_report _ _ _); [|done]. split; [by apply Hq|]. intros [[]|e]; [done| |done].
    split; [by apply Hq|]. intros rounds. apply calls_only_bind; [done|]. by intros [].
Qed.

Lemma tsafe_perform i f input s :
  keys i = flight_key input → holds i f false true (λ x, x = None) s →
  tsafe i (λ r s', holds i f false true (λ x, x = None) s' ∧ produced (history s') (keys i) r) (perform_refresh input) s.
Proof.
  intros Hkey Hh. unfold perform_refresh. apply tsafe_call. intros s1 Hok Ho. apply (holds_later _ _ _ _ _ _ _ Ho) in Hh.
  split; [done|]. intros b s2 (->&_&->) _. cbn [negb].
  assert (holds i f true true (λ x, x = None) (with_permits ({[i]} ∪ ds_permits s1) s1)) as Hh2.
  { destruct Hh as [Ha Hp Hg Hf]. split; [done| |done|done]. cbn. set_solver. }
  apply task_safe_bind. eapply task_safe_mono; [|apply tsafe_asks; [by apply (holds_at_work i f)|apply quiet_refresh]].
  intros r s3 (Ho3&t&Ht%refresh_permitted_exec&Hin). apply (holds_later _ _ _ _ _ _ _ Ho3) in Hh2.
  apply tsafe_call. intros s4 Hok4 Ho4. apply (holds_later _ _ _ _ _ _ _ Ho4) in Hh2. split; [done|].
  intros [] s5 Hs5 _. cbn in Hs5. subst s5. split.
  - destruct Hh2 as [Ha Hp Hg Hf]. split; [done| |done|done]. cbn. set_solver.
  - rewrite Hkey. eapply produced_mono; [|exact Ht]. intros ev Hev. cbn. by apply (ot_log _ _ _ Ho4), Hin.
Qed.

Lemma tsafe_refresh i input s :
  keys i = flight_key input → finished s i →
  tsafe i (λ r s', finished s' i ∧ served (history s') (own i s') input r) (refresh input) s.
Proof.
  intros Hkey Hfin. unfold refresh. destruct (input_validate input); [|by split].
  apply tsafe_call. intros s1 Hok Ho. apply (finished_later _ _ _ Ho) in Hfin as (Ha&Hp&Hg). split; [done|].
  intros f s2 Hj Hok2. destruct (join_ok i _ _ _ _ Hok Ha Hj) as (_&_&Ha2&(fl&Hf&Hk)&Hp2&Hg2).
  assert (holds i f false false (λ _, True) s2) as Hh2.
  { split; [done|rewrite Hp2; by split|by rewrite Hg2|]. exists fl. split_and!; [done|congruence|done]. }
  apply tsafe_call. intros s3 Hok3 Ho3. apply (holds_later _ _ _ _ _ _ _ Ho3) in Hh2. split; [apply Hh2|].
  intros [] s4 [_ ->] Hok4. assert (holds i f false true (λ _, True) (with_gates (<[f := i]> (ds_gates s3)) s3)) as Hh4.
  { destruct Hh2 as [? ? _ (fl3&?&?&_)]. split; [done|done| |by exists fl3]. apply lookup_insert_eq. }
  apply tsafe_call. intros s5 Hok5 Ho5. apply (holds_later _ _ _ _ _ _ _ Ho5) in Hh4. split; [done|].
  intros stored s6 [Hst ->] _. pose proof Hh4 as [Ha5 Hp5 Hg5 (fl5&Hf5&Hk5&_)]. rewrite Hf5 in Hst. cbn in Hst.
  destruct stored as [r|].
  - apply tsafe_call. intros s7 Hok7 Ho7. apply (holds_later _ _ _ _ _ _ _ Ho7) in Hh4. split; [done|].
    intros [] s8 Hs8 _. cbn in Hs8. subst s8. split; [by eapply leave_finished|].
    apply produced_served. rewrite <-Hkey, <-Hk5. eapply produced_mono; [|by eapply (ok_results s5)]. apply Ho7.
  - apply task_safe_bind. eapply task_safe_mono; [|apply (tsafe_perform i f); [done|]].
    + intros r s7 [Hh7 Hpr]. by apply tsafe_finish.
    + split; [done..|]. by exists fl5.
Qed.

(** ** The cache *)

Lemma authority_matches_for input s : authority_matches input s = true → for_key (flight_key input) s.
Proof.
  unfold authority_matches. rewrite !andb_true_iff, !bool_decide_eq_true, String.eqb_eq, Z.eqb_eq.
  intros (((((Hv&Ha)&Hp)&Hs)&Hg)&Hr). split; cbn; try done; [|unfold snapshot_key; by f_equal].
  destruct (ProviderCapabilitySnapshot_validate s) as [[]|]; done.
Qed.
Lemma foldl_min_le l x : (foldl Z.min x l <= x ∧ ∀ y, y ∈ l → foldl Z.min x l <= y)%Z.
Proof.
  revert x. induction l as [|z l IH]; intros x; cbn [foldl]; [split; [lia|by intros y ?%elem_of_nil]|].
  destruct (IH (Z.min x z)) as [H1 H2]. split; [lia|]. intros y [->|Hy]%elem_of_cons; [lia|by apply H2].
Qed.
Lemma min_or_le default l y : y ∈ l → (min_or default l <= y)%Z.
Proof.
  destruct l as [|x l]; [by intros ?%elem_of_nil|]. destruct (foldl_min_le l x) as [H1 H2].
  intros [->|Hy]%elem_of_cons; [done|by apply H2].
Qed.

(** Durations and the result of the jitter are unsigned. *)
Definition jitter_unsigned : Prop :=
  (0 <= maximum_refresh_ahead (sv_policy self))%Z ∧ ∀ key sn m, (0 <= m → 0 <= jitter key sn m)%Z.

(** Before the deadline nothing has run out, whatever the jitter. *)
Lemma before_deadline input s now :
  jitter_unsigned → (0 < now)%Z → (now < reuse_deadline input s)%Z →
  (now < sn_discovered_at_unix_ms s + duration_ms_i64 (state_ttl input s))%Z ∧
  ∀ o d, o ∈ sn_observations s → d ∈ co_dimensions o → (now < cd_valid_until_unix_ms d)%Z.
Proof.
  intros Hj Hnow. unfold reuse_deadline. cbv zeta.
  set (m := Z.min (as_millis _) U64_MAX). assert (0 <= jitter (snapshot_key input) s m)%Z as Hm.
  { destruct Hj as [Ha Hj]. apply Hj. subst m. unfold as_millis, U64_MAX. apply Z.min_glb; [|done].
    apply Z.div_pos; [|done]. lia. }
  set (run := i64_saturating_add _ _). set (obs := min_or _ _). intros Hd.
  assert (now < Z.min run obs)%Z as Hmin.
  { unfold i64_saturating_sub, i64_saturating_add, I64_MIN, I64_MAX in Hd. lia. }
  split.
  - subst run. unfold i64_saturating_add, I64_MIN in Hmin. lia.
  - intros o d Ho Hdim. assert (obs <= cd_valid_until_unix_ms d)%Z; [|lia]. apply min_or_le.
    apply list_elem_of_fmap. exists d. split; [done|]. apply list_elem_of_In, in_flat_map. exists o.
    split; by apply list_elem_of_In.
Qed.

(** A question of task [i] that is not work: its answer is the latest of its own. *)
Lemma tsafe_ask {A X} i (Q : A → shared → Prop) (e : disc_call X) k s mine :
  own i s = mine → asks e = true → works mine e = false → finished s i →
  (∀ x s', finished s' i → own i s' = Ev e x :: mine → tsafe i Q (k x) s') →
  tsafe i Q (Vis e k) s.
Proof.
  intros Hown Ha Hw Hfin Hk. apply tsafe_call. intros s1 Hok [Ho Hown1]. rewrite Hown in Hown1.
  apply (finished_later _ _ _ Ho) in Hfin.
  destruct e; try discriminate Ha; cbn [guard disc_port] in *; rewrite Hown1, Hw;
    (split; [done|]); intros x s2 -> _; (apply Hk; [|by rewrite own_logged, Hown1]);
    (eapply finished_later; [apply kept_logged|done]).
Qed.

(** Before its deadline a snapshot is fresh. *)
Lemma reusable_fresh input s now :
  jitter_unsigned → for_key (flight_key input) s →
  (sn_discovered_at_unix_ms s <=? now)%Z && (now <? reuse_deadline input s)%Z = true →
  (sn_discovered_at_unix_ms s <= now < sn_discovered_at_unix_ms s + duration_ms_i64 (state_ttl input s))%Z ∧
  ∀ o d, o ∈ sn_observations s → d ∈ co_dimensions o → (now < cd_valid_until_unix_ms d)%Z.
Proof.
  intros Hj Hfor [H1%Z.leb_le H2%Z.ltb_lt]%andb_true_iff.
  assert (0 < sn_discovered_at_unix_ms s)%Z as Hpos.
  { pose proof (for_valid _ _ Hfor) as Hval. unfold ProviderCapabilitySnapshot_validate in Hval.
    destruct (Z.leb_spec (sn_discovered_at_unix_ms s) 0); [|done]. by rewrite orb_true_r in Hval. }
  destruct (before_deadline input s now Hj ltac:(lia) H2) as [H3 H4]. split; [lia|done].
Qed.

Lemma tsafe_get i input s :
  jitter_unsigned → keys i = flight_key input → finished s i → own i s = [] →
  tsafe i (λ r s', finished s' i ∧ served (history s') (own i s') input r) (get_or_refresh input) s.
Proof.
  intros Hj Hkey Hfin Hown. unfold get_or_refresh. destruct (input_validate input) as [[]|]; [|by split].
  eapply tsafe_ask; [exact Hown|done|done|done|]. intros [[snap|]|e] s1 Hfin1 Hown1; [|by apply tsafe_refresh|by split].
  unfold is_reusable. destruct (authority_matches input snap) eqn:Ea; cbn [negb pbind]; [|by apply tsafe_refresh].
  apply authority_matches_for in Ea. eapply tsafe_ask; [exact Hown1|done|done|done|]. intros now s2 Hfin2 Hown2.
  destruct (_ && _) eqn:Hr; cbn [pbind]; [|by apply tsafe_refresh].
  split; [done|]. split; [done|]. exists now. split; [done|]. by apply reusable_fresh.
Qed.

Lemma one_at_work i j key s : disc_ok s → at_work i key s → at_work j key s → i = j.
Proof.
  intros Ok (_&f&fl&Hg&Hf&Hk&Hn) (_&g&fl'&Hg'&Hf'&Hk'&Hn').
  pose proof (ok_gates _ Ok _ _ Hg) as Ha. pose proof (ok_gates _ Ok _ _ Hg') as Ha'.
  assert (f = g) as <-; [|congruence].
  apply (ok_unique _ Ok key); [..|apply alive_iff; by exists i|apply alive_iff; by exists j]; subst key.
  - by eapply (ok_open s).
  - rewrite <-Hk'. by eapply (ok_open s).
Qed.
End service.
#[export] Existing Instance kept_refl.
#[export] Existing Instance kept_trans.
#[export] Existing Instance others_refl.
#[export] Existing Instance others_trans.

(** ** The service *)

Section requests.
Context `{SnapshotEncoding}.
Context (jitter : CapabilitySnapshotKey → ProviderCapabilitySnapshot → Z → Z) (self : CapabilityDiscoveryService).

(** A request: through the cache or not. *)
Definition request_prog (request : bool * CapabilityRefreshInput) : prog disc_call (CoreResult CapabilityRefreshOutcome) :=
  if request.1 then get_or_refresh jitter self request.2 else refresh request.2.
Definition request_key (requests : list (bool * CapabilityRefreshInput)) (i : nat) : FlightKey :=
  match requests !! i with
  | Some request => flight_key request.2
  | None => mkFlightKey (mkSnapshotKey "" CapAccount) Cloudflare 0 None
  end.
Definition working {A} (ps : list (option (prog disc_call A))) (s : shared) (i : nat) : Prop :=
  ∃ X (e : disc_call X) k, ps !! i = Some (Some (Vis e k)) ∧ works (own i s) e = true.
Definition active {A} (ps : list (option (prog disc_call A))) (i : nat) : Prop :=
  ∃ p, ps !! i = Some (Some p) ∧ Tasks.running p.

(** What is promised to request [i]. *)
Definition answered_well (requests : list (bool * CapabilityRefreshInput)) (i : nat) (r : CoreResult CapabilityRefreshOutcome)
    (s : shared) : Prop :=
  finished s i ∧ ∀ request, requests !! i = Some request → served self (history s) (own i s) request.2 r.

Lemma shared_start_ok : disc_ok self initial_shared.
Proof.
  split; cbn; try done; try (intros *; rewrite lookup_empty; done).
  - by intros k f ?%elem_of_nil.
  - rewrite size_empty. lia.
Qed.
Lemma initial_finished i : finished initial_shared i.
Proof. split_and!; [done|set_solver|done]. Qed.

Lemma served_later log log' mine input r :
  (∀ ev, ev ∈ log → ev ∈ log') → served self log mine input r → served self log' mine input r.
Proof. intros Hl. destruct r as [[s|s|s]|e]; [done|by apply (produced_mono log log')..]. Qed.
Lemma disc_laws requests : tasks_laws drop_task (disc_ok self) others (answered_well requests) (λ i s, finished s i).
Proof.
  split.
  - intros i r s s' [Hf Hs] [O Hown]. split; [by eapply finished_later|]. intros request Hr. rewrite Hown.
    eapply served_later; [apply O|by apply Hs].
  - intros i s s' Hf [O _]. by eapply finished_later.
  - intros i s Ok. by apply drop_task_ok.
Qed.

Lemma disc_reachable requests ps s :
  jitter_unsigned jitter self →
  rtc (task_step (disc_port self) drop_task) (map Some (map request_prog requests), initial_shared) (ps, s) →
  tasks_ok (disc_port self) (disc_ok self) others (guard (request_key requests)) (answered_well requests)
    (λ i s, finished s i) (ps, s).
Proof.
  intros Hj Hr. refine (task_steps_ok _ _ _ _ _ _ _ _ _ (disc_laws requests) _ Hr).
  apply tasks_start; [apply _|apply shared_start_ok|apply initial_finished|].
  intros i p. rewrite list_lookup_fmap. destruct (requests !! i) as [[b input]|] eqn:Hi; [|done]. intros [= <-].
  assert (request_key requests i = flight_key input) as Hk by (unfold request_key; by rewrite Hi).
  eapply (task_safe_mono _ _ _ _ _ (λ r s', finished s' i ∧ served self (history s') (own i s') input r)).
  - intros r s' [Hf Hs]. split; [done|]. intros request [= <-]%(eq_trans (eq_sym Hi)). done.
  - unfold request_prog. cbn [fst snd]. destruct b.
    + by apply tsafe_get; [..|apply initial_finished|].
    + apply tsafe_refresh; [done|apply initial_finished].
Qed.

(** C26.  Discovery is single-flight and bounded, and its answers are authoritative.
    For any number of requests that interleave at every call, some of them dropped at
    any await, and whatever the store, the discoverers and the clock answer: apart
    from the lookup in the cache with which a request may start, at most one request
    at a time talks to the store and the provider about an authority (account, scope,
    provider, generation and credential revision), although flights are forgotten and
    made anew, and at most the configured number talk to them at all; a snapshot that
    is returned is valid and of exactly the authority that was asked for; one from the
    cache is what its own request read there, and fresh at the clock that the request
    read after that; a refreshed one was
    stored under its own fence, and its evidence is what the discoverer reported under
    that fence, or none; a request waits for the gate of a running one only, and one
    that has ended or was dropped holds nothing. *)
Theorem discovery_single_flight (requests : list (bool * CapabilityRefreshInput))
    (ps : list (option (prog disc_call (CoreResult CapabilityRefreshOutcome)))) (s : shared) :
  jitter_unsigned jitter self →
  rtc (task_step (disc_port self) drop_task) (map Some (map request_prog requests), initial_shared) (ps, s) →
  (∀ i j, request_key requests i = request_key requests j → working ps s i → working ps s j → i = j) ∧
  (∃ workers : gset nat, size workers <= sv_max_concurrent self ∧ ∀ i, working ps s i → i ∈ workers) ∧
  (∀ i request r, requests !! i = Some request → ps !! i = Some (Some (Ret r)) → served self (history s) (own i s) request.2 r) ∧
  (∀ f i, ds_gates s !! f = Some i → active ps i) ∧
  (∀ i, ¬ active ps i → finished s i).
Proof.
  intros Hj Hr%disc_reachable; [|done]. pose proof (proj1 Hr) as Ok. cbn [snd] in Ok.
  assert (∀ i, working ps s i → at_work i (request_key requests i) s) as Hw.
  { intros i (X&e&k&Hi&He). pose proof (tasks_calling _ _ _ _ _ _ _ _ _ _ _ _ Hr Hi) as Hg.
    destruct e; try discriminate He; by apply Hg. }
  assert (∀ i, ¬ active ps i → finished s i) as Hfin.
  { intros i Hn. destruct (ps !! i) as [[[r|X e k]|]|] eqn:Hi.
    - apply (tasks_returned _ _ _ _ _ _ _ _ _ _ _ (disc_laws requests) Hr Hi).
    - destruct Hn. by exists (Vis e k).
    - eapply (tasks_idle _ _ _ _ _ _ _ _ _ Hr). by right.
    - eapply (tasks_idle _ _ _ _ _ _ _ _ _ Hr). by left. }
  split_and!; [| | | |done].
  - intros i j Hk Hi%Hw Hj'%Hw. eapply one_at_work; [done|done|]. by rewrite Hk.
  - exists (ds_permits s). split; [apply Ok|]. by intros i [? _]%Hw.
  - intros i request r Hq Hi. by apply (tasks_returned _ _ _ _ _ _ _ _ _ _ _ (disc_laws requests) Hr Hi).
  - intros f i Hf. destruct (ps !! i) as [[[r|X e k]|]|] eqn:Hi.
    2:{ by exists (Vis e k). }
    all: destruct (Hfin i) as (_&_&Hg); [intros (p&Hp&Hrun); rewrite Hi in Hp; by simplify_eq|by destruct (Hg f)].
Qed.
End requests.

(** ** Two requests share a discovery

    The first is at work while the second waits; a third gives up. *)

#[local] Instance demo_encoding : SnapshotEncoding := λ _, 0%Z.
Definition demo_service : CapabilityDiscoveryService := mkDiscovery (from_secs 10) 1 CapabilityRefreshPolicy_default.
Definition demo_input : CapabilityRefreshInput :=
  mkInput "acme" 3 (Some "r1") (mkSpec Cloudflare None Ambient) CapAccount.
Definition demo_answer (X : Type) (e : disc_call X) : option X :=
  match e in disc_call X return option X with
  | StoreGet _ => Some (Ok None)
  | StoreBegin _ generation revision => Some (Ok (mkFence generation revision 7 "token"))
  | StorePut _ _ _ => Some (Ok Stored)
  | StoreInvalidate _ _ _ => Some (Ok tt)
  | Resolve _ => Some true
  | Discover _ => Some (Some (Ok (mkReport DiscComplete [] [])))
  | WinnerReads => Some 1
  | Sleep => Some tt
  | NowMs => Some 1000%Z
  | _ => None
  end.
Definition demo_handler (i : nat) (X : Type) (e : disc_call X) (s : shared) : option (X * shared) :=
  match e in disc_call X return option (X * shared) with
  | JoinFlight key => Some (join_flight i key s)
  | LockGate f => match ds_gates s !! f with None => Some (tt, with_gates (<[f := i]> (ds_gates s)) s) | Some _ => None end
  | ReadResult f => Some (match ds_heap s !! f with Some fl => fl_result fl | None => None end, s)
  | WriteResult f r => Some (tt, with_result f r s)
  | ForgetFlight key f => Some (tt, forget_flight key f s)
  | AcquirePermit =>
      if Nat.ltb (size (ds_permits s)) (sv_max_concurrent demo_service)
      then Some (true, with_permits ({[i]} ∪ ds_permits s) s) else None
  | ReleasePermit => Some (tt, with_permits (ds_permits s ∖ {[i]}) s)
  | LeaveFlight => Some (tt, leave i s)
  | e => match demo_answer _ e with Some x => Some (x, logged i e x s) | None => None end
  end.
Lemma demo_handler_port i X (e : disc_call X) s x s' : demo_handler i X e s = Some (x, s') → disc_port demo_service i X e s x s'.
Proof.
  destruct e; cbn [demo_handler disc_port demo_answer];
    try (by intros [= <- <-]); try (by intros [= <-]).
  - case_match eqn:Hf; [done|]. intros [= <- <-]. by split.
  - destruct (Nat.ltb_spec (size (ds_permits s)) (sv_max_concurrent demo_service)); [|done]. intros [= <- <-]. by split_and!.
Qed.

Definition demo_requests : list (bool * CapabilityRefreshInput) := [(true, demo_input); (false, demo_input); (false, demo_input)].
Definition demo_pool (choices : list (nat * bool)) :=
  schedule drop_task demo_handler choices
    (map Some (map (request_prog StableCapabilityJitter demo_service) demo_requests), initial_shared).
(** Request 0 is before its [put]; 1 waits at the gate, 2 is dropped there. *)
Definition demo_middle := demo_pool ([(0, true); (0, true); (1, true); (2, true); (2, false)] ++ replicate 7 (0, true) ++ [(1, true)]).
Definition demo_end := demo_pool ([(0, true); (0, true); (1, true); (2, true); (2, false)] ++ replicate 7 (0, true) ++ [(1, true)]
                                  ++ replicate 6 (0, true) ++ replicate 4 (1, true)).
Definition demo_refreshed : ProviderCapabilitySnapshot :=
  mkSnapshot CAPABILITY_CONTRACT_VERSION "acme" Cloudflare (mkFence 3 (Some "r1") 7 "token") CapAccount DiscComplete 1000 [] [].

Lemma demo_jitter : jitter_unsigned StableCapabilityJitter demo_service.
Proof.
  split; [done|]. intros key sn m Hm. unfold StableCapabilityJitter. destruct (Z.eqb_spec m 0); [done|]. cbv zeta.
  apply Z.mod_pos_bound. unfold u64_saturating_add, U64_MAX. lia.
Qed.
Lemma demo_pool_steps choices :
  rtc (task_step (disc_port demo_service) drop_task)
    (map Some (map (request_prog StableCapabilityJitter demo_service) demo_requests), initial_shared)
    ((demo_pool choices).1, (demo_pool choices).2).
Proof. rewrite <-surjective_pairing. apply schedule_steps. apply demo_handler_port. Qed.

Definition is_working {A} (ps : list (option (prog disc_call A))) (s : shared) (i : nat) : bool :=
  match (ps !! i : option (option (prog disc_call A))) with Some (Some (@Vis _ _ X e _)) => works (own i s) (X := X) e | _ => false end.
Lemma is_working_working {A} (ps : list (option (prog disc_call A))) s i : is_working ps s i = true → working ps s i.
Proof. unfold is_working. destruct (ps !! i) as [[[r|X e k]|]|] eqn:Hi; [done| |done..]. intros He. by exists X, e, k. Qed.

Lemma discovery_single_flight_witness :
  (working demo_middle.1 demo_middle.2 0 ∧ ¬ working demo_middle.1 demo_middle.2 1 ∧ finished demo_middle.2 2) ∧
  demo_end.1 = [Some (Ret (Ok (Refreshed demo_refreshed))); Some (Ret (Ok (Refreshed demo_refreshed))); None] ∧
  Ev (StorePut (snapshot_key demo_input) (sn_fence demo_refreshed) demo_refreshed) (Ok Stored) ∈ history demo_end.2.
Proof.
  destruct (discovery_single_flight StableCapabilityJitter demo_service demo_requests demo_middle.1 demo_middle.2
              demo_jitter (demo_pool_steps _)) as (Hone&_&_&_&Hfin).
  destruct (discovery_single_flight StableCapabilityJitter demo_service demo_requests demo_end.1 demo_end.2
              demo_jitter (demo_pool_steps _)) as (_&_&Hres&_).
  assert (working demo_middle.1 demo_middle.2 0) as Hw by (apply is_working_working; vm_compute; reflexivity).
  assert (demo_end.1 = [Some (Ret (Ok (Refreshed demo_refreshed))); Some (Ret (Ok (Refreshed demo_refreshed))); None]) as He
    by (vm_compute; reflexivity).
  split; [split; [done|split]|split; [done|]].
  - intros Hw1. discriminate (Hone 0 1 eq_refl Hw Hw1).
  - apply Hfin. intros (p&Hp&_).
    assert (match demo_middle.1 !! 2 with Some (Some _) => false | _ => true end = true) as Hn by (vm_compute; reflexivity).
    by rewrite Hp in Hn.
  - apply (Hres 1 (false, demo_input) (Ok (Refreshed demo_refreshed)) eq_refl). by rewrite He.
Defined.
