(* ===== verification/Inspection.v ===== *)
(** * Inspection: what the credential of a provider account is

    [crates/center-runtime/src/cloud/credential_inspection.rs]: the service that asks
    a provider who it takes the credential of an account for.  Results are shared by
    the callers for one generation of an account and kept for a short interval;
    every request runs under a deadline and may be abandoned at any of its calls
    ([Tasks]).  The account store, the inspectors and both clocks may answer
    anything, but instants do not go back. *)

From Stdlib Require Import ZArith Ascii String Lia.
From S2P Require Import Prelude Text Core Effects Tasks BTree NetAddr Dns ZoneLifecycle CloudAccounts Capabilities Discovery.

(** ** Policy: durations and instants in nanoseconds *)

Definition DEFAULT_MAX_CONCURRENT_INSPECTIONS : nat := 8.
Definition DEFAULT_MIN_REFRESH_INTERVAL : Z := from_secs 5.
Definition DEFAULT_MIN_VALIDITY : Z := from_secs 30.
Definition MAX_MIN_REFRESH_INTERVAL : Z := from_secs (60 * 60).
Definition MAX_MIN_VALIDITY : Z := from_secs (24 * 60 * 60).
Definition MAX_IDENTITY_BYTES : Z := 512.
Definition MAX_SCOPE_BYTES : Z := 256.
Definition MAX_REVISION_BYTES : Z := 512.
Definition MAX_ISSUES : Z := 32.
Definition MAX_ISSUE_CODE_BYTES : Z := 128.
Definition MAX_ISSUE_MESSAGE_BYTES : Z := 512.

Record CredentialInspectionPolicy := mkInspectionPolicy {
  ip_timeout : Z;
  ip_max_concurrent_inspections : nat;
  ip_min_refresh_interval : Z;
  ip_min_validity : Z;
}.
Definition CredentialInspectionPolicy_new (timeout : Z) (max_concurrent_inspections : nat) : CredentialInspectionPolicy :=
  mkInspectionPolicy timeout max_concurrent_inspections DEFAULT_MIN_REFRESH_INTERVAL DEFAULT_MIN_VALIDITY.
(** The service is its policy. *)
Definition with_policy (policy : CredentialInspectionPolicy) : CoreResult CredentialInspectionPolicy :=
  if (ip_timeout policy =? 0)%Z || Nat.eqb (ip_max_concurrent_inspections policy) 0
     || (ip_min_refresh_interval policy =? 0)%Z || (MAX_MIN_REFRESH_INTERVAL <? ip_min_refresh_interval policy)%Z
     || (ip_min_validity policy =? 0)%Z || (MAX_MIN_VALIDITY <? ip_min_validity policy)%Z
  then Err (Conflict "credential inspection policy is outside supported bounds") else Ok policy.
Definition with_concurrency (timeout : Z) (max_concurrent_inspections : nat) : CoreResult CredentialInspectionPolicy :=
  with_policy (CredentialInspectionPolicy_new timeout max_concurrent_inspections).

(** ** Authorities *)

Record CredentialInspectionAuthority := mkInspectionAuthority {
  ia_provider_account_id : string;
  ia_provider_account_generation : Z;
  ia_state : CredentialState;
  ia_identity : option ProviderIdentity;
  ia_credential_revision : option string;
  ia_expires_at_unix_ms : option Z;
  ia_issues : list CredentialIssue;
}.
Record InspectionKey := mkInspectionKey {
  ik_provider_account_id : string;
  ik_provider_account_generation : Z;
}.
#[export] Instance InspectionKey_eq_dec : EqDecision InspectionKey.
Proof. solve_decision. Defined.
Definition inspection_key (account : ProviderAccount) : InspectionKey :=
  mkInspectionKey (md_id (pa_metadata account)) (md_generation (pa_metadata account)).
Definition authority_of (account : ProviderAccount) (inspection : CredentialInspection) : CredentialInspectionAuthority :=
  mkInspectionAuthority (md_id (pa_metadata account)) (md_generation (pa_metadata account)) (ins_state inspection)
    (ins_identity inspection) (ins_credential_revision inspection) (ins_expires_at_unix_ms inspection) (ins_issues inspection).

Definition configured_scope (account : ProviderAccount) : CoreResult string :=
  match as_scope (pa_spec account) with
  | Some (ScopeCloudflare account_id) | Some (ScopeAws account_id) => Ok account_id
  | None => Err (Conflict "credential inspection requires provider account scope")
  end.
Definition issue_kind_tag (kind : CredentialIssueKind) : Z :=
  match kind with
  | ReferenceNotFound => 0 | IssueAuthenticationFailed => 1 | IssuePermissionDenied => 2 | IssueExpired => 3
  | InvalidConfiguration => 4 | IssueProviderUnavailable => 5
  end.
Definition issue_code_char (c : ascii) : bool := is_ascii_lowercase c || is_ascii_digit c || Ascii.eqb c "_"%char.
Definition validate_issue (issue : CredentialIssue) : CoreResult () :=
  if is_empty (iss_code issue) || (MAX_ISSUE_CODE_BYTES <? str_len (iss_code issue))%Z
     || negb (str_all issue_code_char (iss_code issue))
  then Err (Conflict "credential inspection issue code is invalid")
  else validate_text (iss_message issue) "credential inspection issue message" MAX_ISSUE_MESSAGE_BYTES.
Definition min_validity_ms (min_validity : Z) : Z := Z.min (as_millis min_validity) I64_MAX.

Definition validate_state (inspection : CredentialInspection) : CoreResult () :=
  match ins_state inspection with
  | CredValid =>
      if bool_decide (ins_identity inspection = None) || negb (zlen (ins_issues inspection) =? 0)%Z
      then Err (Conflict "valid credential inspection has inconsistent evidence") else Ok tt
  | CredInvalid | CredUnknown =>
      if (zlen (ins_issues inspection) =? 0)%Z
      then Err (Conflict "non-valid credential inspection requires an issue") else Ok tt
  end.
Definition validate_expiry (inspection : CredentialInspection) (completed_at_unix_ms min_validity : Z) : CoreResult () :=
  match ins_state inspection, ins_expires_at_unix_ms inspection with
  | CredValid, Some expires_at =>
      if (expires_at <=? i64_saturating_add completed_at_unix_ms (min_validity_ms min_validity))%Z
      then Err (Conflict "valid credential inspection expires too soon") else Ok tt
  | _, _ => Ok tt
  end.
Definition validate_identity (account : ProviderAccount) (identity : ProviderIdentity) : CoreResult () :=
  if negb (bool_decide (id_provider identity = as_provider (pa_spec account)))
  then Err (Conflict "credential inspection provider does not match the account")
  else
    let? _ := validate_text (id_principal identity) "provider principal" MAX_IDENTITY_BYTES in
    let? expected_scope := configured_scope account in
    let? observed_scope := ok_or (Conflict "credential inspection omitted provider scope") (id_scope identity) in
    let? _ := validate_text observed_scope "provider identity scope" MAX_SCOPE_BYTES in
    if negb (String.eqb observed_scope expected_scope)
    then Err (Conflict "credential inspection scope does not match the account") else Ok tt.
Definition validate_inspection (account : ProviderAccount) (inspection : CredentialInspection)
    (completed_at_unix_ms min_validity : Z) : CoreResult () :=
  if (MAX_ISSUES <? zlen (ins_issues inspection))%Z
     || is_some_and (λ expires, expires <=? 0)%Z (ins_expires_at_unix_ms inspection)
  then Err (Conflict "credential inspection shape is invalid")
  else
    let? _ := match ins_credential_revision inspection with
              | Some revision => validate_text revision "credential revision" MAX_REVISION_BYTES
              | None => Ok tt
              end in
    let? _ := validate_state inspection in
    let? _ := validate_expiry inspection completed_at_unix_ms min_validity in
    let? _ := match ins_identity inspection with
              | Some identity => validate_identity account identity
              | None => Ok tt
              end in
    check_distinct validate_issue (λ issue, (issue_kind_tag (iss_kind issue), iss_code issue))
      "credential inspection contains duplicate issues" [] (ins_issues inspection).

(** ** Calls *)

Inductive FlightState :=
| InFlight
| Completed (completed_at : Z) (result : CoreResult CredentialInspectionAuthority).

Inductive insp_call : Type → Type :=
| GetAccount (id : string) : insp_call (CoreResult (option ProviderAccount))
| JoinInspection (key : InspectionKey) : insp_call nat
| LockInspection (flight : nat) : insp_call ()
| CheckInspection (flight : nat) : insp_call (option (CoreResult CredentialInspectionAuthority))
| CompleteInspection (flight : nat) (completed_at : Z) (r : CoreResult CredentialInspectionAuthority) : insp_call ()
| LeaveInspection : insp_call ()
| AcquireInspectionPermit : insp_call bool
| ReleaseInspectionPermit : insp_call ()
| ResolveInspector (account : ProviderAccount) : insp_call bool
| Inspect (account : ProviderAccount) : insp_call (CoreResult CredentialInspection)
| InstantNow : insp_call Z
| UnixNow : insp_call (CoreResult Z).

Section inspection.
Context (policy : CredentialInspectionPolicy).

Definition inspect_permitted (account : ProviderAccount) : prog insp_call (CoreResult CredentialInspectionAuthority) :=
  known <~ ResolveInspector account ;;
  if negb (known : bool) then Ret (Err (Unsupported "provider credential inspector"))
  else
    answer <~ Inspect account ;;
    match answer with
    | Err _ => Ret (Err (Adapter "provider credential inspection failed"))
    | Ok inspection =>
        now <~ UnixNow ;;
        try? completed_at_unix_ms := now in
        match validate_inspection account inspection completed_at_unix_ms (ip_min_validity policy) with
        | Err _ => Ret (Err (Adapter "provider credential inspection was invalid"))
        | Ok _ => Ret (Ok (authority_of account inspection))
        end
    end.
Definition perform_inspection (account : ProviderAccount) : prog insp_call (CoreResult CredentialInspectionAuthority) :=
  open <~ AcquireInspectionPermit ;;
  if negb (open : bool) then Ret (Err (Adapter "credential inspection concurrency gate closed"))
  else pbind (inspect_permitted account) (λ r, _ <~ ReleaseInspectionPermit ;; Ret r).

Definition inspect_within_deadline (provider_account_id : string) :
    prog insp_call (CoreResult CredentialInspectionAuthority) :=
  answer <~ GetAccount provider_account_id ;;
  try? found := answer in
  match found with
  | None => Ret (Err (NotFound "provider account"))
  | Some account =>
      flight <~ JoinInspection (inspection_key account) ;;
      _ <~ LockInspection flight ;;
      stored <~ CheckInspection flight ;;
      match stored with
      | Some r => _ <~ LeaveInspection ;; Ret r
      | None =>
          pbind (perform_inspection account) (λ r,
            completed_at <~ InstantNow ;;
            _ <~ CompleteInspection flight completed_at r ;;
            _ <~ LeaveInspection ;;
            Ret r)
      end
  end.
Definition inspect (provider_account_id : string) : prog insp_call (CoreResult CredentialInspectionAuthority) :=
  try? _ := CloudResourceId_validate provider_account_id in
  inspect_within_deadline provider_account_id.
(** What the caller of [inspect] sees: the deadline passed when the future was
    abandoned. *)
Definition inspect_answer (t : option (prog insp_call (CoreResult CredentialInspectionAuthority))) :
    option (CoreResult CredentialInspectionAuthority) :=
  match t with
  | Some (Ret r) => Some r
  | Some (Vis _ _) => None
  | None => Some (Err (Adapter "credential inspection timed out"))
  end.

(** ** The shared state

    [is_joined], [is_checked] and [is_log] are history: the instant at which a request
    joined its flight, the readings of the two clocks with which it checked the flight
    under the gate, and what every request was answered, the latest answer first. *)

Definition cached_result_is_reusable (completed_at : Z) (result : CoreResult CredentialInspectionAuthority)
    (now : Z) (now_unix_ms : option Z) : bool :=
  if (ip_min_refresh_interval policy <=? Z.max (now - completed_at) 0)%Z then false
  else
    match result with
    | Err _ => true
    | Ok authority =>
        if negb (bool_decide (ia_state authority = CredValid)) then true
        else
          match ia_expires_at_unix_ms authority with
          | None => true
          | Some expires_at =>
              match now_unix_ms with
              | None => false
              | Some now_unix_ms =>
                  (i64_saturating_add now_unix_ms (min_validity_ms (ip_min_validity policy)) <? expires_at)%Z
              end
          end
    end.

Record insp_flight := mkInspFlight { if_key : InspectionKey; if_state : FlightState }.
Record insp_state := mkInspState {
  is_flights : list (InspectionKey * nat);   (* Mutex<Vec<(InspectionKey, Arc<Flight>)>> *)
  is_heap : gmap nat insp_flight;
  is_gates : gmap nat nat;                   (* the task that holds the gate of a flight *)
  is_permits : gset nat;
  is_next : nat;
  is_clock : Z;                              (* the last instant that was read *)
  is_joined : gmap nat Z;
  is_checked : gmap nat (Z * option Z);
  is_log : list (nat * event insp_call);
}.
Definition initial_insp : insp_state := mkInspState [] ∅ ∅ ∅ 0 0 ∅ ∅ [].

Definition keeps (now : Z) (now_unix_ms : option Z) (state : FlightState) : bool :=
  match state with
  | InFlight => true
  | Completed completed_at result => cached_result_is_reusable completed_at result now now_unix_ms
  end.
(** [retain]: a flight whose state is locked at the moment is kept. *)
Definition retained (now : Z) (now_unix_ms : option Z) (locked : list nat) (s : insp_state) (e : InspectionKey * nat) : bool :=
  existsb (Nat.eqb e.2) locked
  || match is_heap s !! e.2 with Some fl => keeps now now_unix_ms (if_state fl) | None => false end.
(** The critical section of the flights. *)
Definition join_inspection (i : nat) (key : InspectionKey) (now : Z) (now_unix_ms : option Z) (locked : list nat)
    (s : insp_state) : nat * insp_state :=
  let flights := List.filter (retained now now_unix_ms locked s) (is_flights s) in
  match List.find (λ e, bool_decide (e.1 = key)) flights with
  | Some (_, f) =>
      (f, mkInspState flights (is_heap s) (is_gates s) (is_permits s) (is_next s) now (<[i := now]> (is_joined s)) (is_checked s) (is_log s))
  | None =>
      let f := is_next s in
      (f, mkInspState (flights ++ [(key, f)]) (<[f := mkInspFlight key InFlight]> (is_heap s)) (is_gates s) (is_permits s)
            (S f) now (<[i := now]> (is_joined s)) (is_checked s) (is_log s))
  end.
Definition with_clock (now : Z) (s : insp_state) : insp_state :=
  mkInspState (is_flights s) (is_heap s) (is_gates s) (is_permits s) (is_next s) now (is_joined s) (is_checked s) (is_log s).
Definition with_state (f : nat) (state : FlightState) (s : insp_state) : insp_state :=
  mkInspState (is_flights s) (alter (λ fl, mkInspFlight (if_key fl) state) f (is_heap s)) (is_gates s) (is_permits s)
    (is_next s) (is_clock s) (is_joined s) (is_checked s) (is_log s).
Definition with_insp_gates (gates : gmap nat nat) (s : insp_state) : insp_state :=
  mkInspState (is_flights s) (is_heap s) gates (is_permits s) (is_next s) (is_clock s) (is_joined s) (is_checked s) (is_log s).
Definition with_insp_permits (permits : gset nat) (s : insp_state) : insp_state :=
  mkInspState (is_flights s) (is_heap s) (is_gates s) permits (is_next s) (is_clock s) (is_joined s) (is_checked s) (is_log s).
Definition with_checked (i : nat) (now : Z) (now_unix_ms : option Z) (s : insp_state) : insp_state :=
  mkInspState (is_flights s) (is_heap s) (is_gates s) (is_permits s) (is_next s) now (is_joined s)
    (<[i := (now, now_unix_ms)]> (is_checked s)) (is_log s).
Definition insp_logged (i : nat) {X} (e : insp_call X) (x : X) (s : insp_state) : insp_state :=
  mkInspState (is_flights s) (is_heap s) (is_gates s) (is_permits s) (is_next s) (is_clock s) (is_joined s) (is_checked s)
    ((i, Ev e x) :: is_log s).

(** The critical section of the state of a flight. *)
Definition check_inspection (f : nat) (now : Z) (now_unix_ms : option Z) (s : insp_state) :
    option (CoreResult CredentialInspectionAuthority) * insp_state :=
  match is_heap s !! f with
  | Some (mkInspFlight _ (Completed completed_at result)) =>
      if cached_result_is_reusable completed_at result now now_unix_ms then (Some result, s)
      else (None, with_state f InFlight s)
  | _ => (None, with_state f InFlight s)
  end.
Definition insp_leave (i : nat) (s : insp_state) : insp_state :=
  with_insp_gates (filter (λ g, g.2 ≠ i) (is_gates s)) s.
Definition insp_drop (i : nat) (s : insp_state) : insp_state :=
  with_insp_permits (is_permits s ∖ {[i]}) (insp_leave i s).

Definition insp_port (i : nat) (X : Type) (e : insp_call X) (s : insp_state) : X → insp_state → Prop :=
  match e in insp_call X return X → insp_state → Prop with
  | JoinInspection key => λ f s', ∃ now unix locked, (is_clock s <= now)%Z ∧ (f, s') = join_inspection i key now unix locked s
  | LockInspection f => λ _ s', is_gates s !! f = None ∧ s' = with_insp_gates (<[f := i]> (is_gates s)) s
  | CheckInspection f => λ x s', ∃ now unix, (is_clock s <= now)%Z ∧ (x, s') = check_inspection f now unix (with_checked i now unix s)
  | CompleteInspection f completed_at r => λ x s',
      s' = insp_logged i (CompleteInspection f completed_at r) x (with_state f (Completed completed_at r) s)
  | LeaveInspection => λ _ s', s' = insp_leave i s
  | AcquireInspectionPermit => λ x s', x = true ∧ size (is_permits s) < ip_max_concurrent_inspections policy ∧
      s' = with_insp_permits ({[i]} ∪ is_permits s) s
  | ReleaseInspectionPermit => λ _ s', s' = with_insp_permits (is_permits s ∖ {[i]}) s
  | InstantNow => λ now s', (is_clock s <= now)%Z ∧ s' = with_clock now s
  | e => λ x s', s' = insp_logged i e x s
  end.

(** ** What is promised *)

(** An authority is what an inspector said of the account to some request, and the
    account bears it out at the time that the request read then. *)
Definition vouched (log : list (nat * event insp_call)) (key : InspectionKey) (r : CoreResult CredentialInspectionAuthority) :
    Prop :=
  match r with
  | Ok a => ∃ j account inspection now later earlier,
      own_answers j log = later ++ [Ev UnixNow (Ok now); Ev (Inspect account) (Ok inspection)] ++ earlier ∧
      inspection_key account = key ∧
      validate_inspection account inspection now (ip_min_validity policy) = Ok tt ∧ a = authority_of account inspection
  | Err _ => True
  end.
(** At these readings of the clocks a result is younger than the refresh interval, and
    what it says to be valid is not about to expire. *)
Definition still_good (completed_at : Z) (r : CoreResult CredentialInspectionAuthority) (now : Z) (now_unix_ms : option Z) :
    Prop :=
  (Z.max (now - completed_at) 0 < ip_min_refresh_interval policy)%Z ∧
  ∀ a expires_at, r = Ok a → ia_state a = CredValid → ia_expires_at_unix_ms a = Some expires_at →
    ∃ unix, now_unix_ms = Some unix ∧
      (i64_saturating_add unix (min_validity_ms (ip_min_validity policy)) < expires_at)%Z.
(** The result of request [i]: one that it completed itself after it joined, or one that
    was still good when it checked the flight after it joined. *)
Definition current (i : nat) (s : insp_state) (joined : Z) (r : CoreResult CredentialInspectionAuthority) : Prop :=
  ∃ f completed_at,
    ((joined <= completed_at)%Z ∧ Ev (CompleteInspection f completed_at r) tt ∈ own_answers i (is_log s)) ∨
    (Ev (CompleteInspection f completed_at r) tt ∈ answers (is_log s) ∧
     ∃ now unix, is_checked s !! i = Some (now, unix) ∧ (joined <= now)%Z ∧ still_good completed_at r now unix).

Record insp_ok (s : insp_state) : Prop := {
  io_fresh : ∀ f, is_Some (is_heap s !! f) → f < is_next s;
  io_listed : ∀ k f, (k, f) ∈ is_flights s → ∃ fl, is_heap s !! f = Some fl ∧ if_key fl = k;
  io_permits : size (is_permits s) <= ip_max_concurrent_inspections policy;
  io_results : ∀ f fl completed_at r, is_heap s !! f = Some fl → if_state fl = Completed completed_at r →
    vouched (is_log s) (if_key fl) r ∧ Ev (CompleteInspection f completed_at r) tt ∈ answers (is_log s);
}.

(** What neither other tasks nor a question of the task itself touch, and what other
    tasks do not touch. *)
Record insp_kept (i : nat) (s s' : insp_state) : Prop := {
  io_permit : i ∈ is_permits s' ↔ i ∈ is_permits s;
  io_gates : ∀ f, is_gates s' !! f = Some i ↔ is_gates s !! f = Some i;
  io_heap : ∀ f fl, is_heap s !! f = Some fl → ∃ fl', is_heap s' !! f = Some fl' ∧ if_key fl' = if_key fl ∧
    (is_gates s !! f = Some i → if_state fl' = if_state fl);
  io_joined : is_joined s' !! i = is_joined s !! i;
  io_clock : (is_clock s <= is_clock s')%Z;
  io_checked : is_checked s' !! i = is_checked s !! i;
  io_log : is_log s `suffix_of` is_log s';
}.
Record insp_others (i : nat) (s s' : insp_state) : Prop := {
  io_kept :> insp_kept i s s';
  io_own : own_answers i (is_log s') = own_answers i (is_log s);
}.
#[export] Instance insp_kept_refl i : Reflexive (insp_kept i).
Proof. intros s. split; try done. intros f fl Hf. by exists fl. Qed.
#[export] Instance insp_kept_trans i : Transitive (insp_kept i).
Proof.
  intros s1 s2 s3 A B. split.
  - etrans; [apply (io_permit _ _ _ B)|apply A].
  - intros f. etrans; [apply (io_gates _ _ _ B)|apply A].
  - intros f fl Hf. destruct (io_heap _ _ _ A f fl Hf) as (fl1&H1&K1&G1).
    destruct (io_heap _ _ _ B f fl1 H1) as (fl2&H2&K2&G2). exists fl2. split_and!; [done|congruence|].
    intros Hg. rewrite <-(G1 Hg). apply G2. by apply (io_gates _ _ _ A).
  - etrans; [apply (io_joined _ _ _ B)|apply A].
  - etrans; [apply A|apply B].
  - etrans; [apply (io_checked _ _ _ B)|apply A].
  - etrans; [apply (io_log _ _ _ A)|apply B].
Qed.
#[export] Instance insp_others_refl i : Reflexive (insp_others i).
Proof. by intros s. Qed.
#[export] Instance insp_others_trans i : Transitive (insp_others i).
Proof. intros s1 s2 s3 [A Ha] [B Hb]. split; [by etrans|congruence]. Qed.
(** A change of what the tasks hold leaves the history alone. *)
Lemma insp_kept_others i s s' : is_log s' = is_log s → insp_kept i s s' → insp_others i s s'.
Proof. intros Hl Hk. split; [done|]. by rewrite Hl. Qed.

Lemma vouched_later log log' key r : log `suffix_of` log' → vouched log key r → vouched log' key r.
Proof.
  intros [new ->]. destruct r as [a|e]; [|done]. intros (j&account&inspection&now&later&earlier&Hown&Hr).
  exists j, account, inspection, now, (own_answers j new ++ later), earlier. split; [|done].
  by rewrite own_answers_app, Hown, (assoc_L (++)).
Qed.

(** ** Each call keeps the invariant *)

Lemma suffix_logged i {X} (e : insp_call X) x s : is_log s `suffix_of` is_log (insp_logged i e x s).
Proof. by exists [(i, Ev e x)]. Qed.
Lemma insp_kept_logged i j {X} (e : insp_call X) x s : insp_kept i s (insp_logged j e x s).
Proof. split; try done; [intros f fl Hf; by exists fl|]. apply suffix_logged. Qed.
Lemma insp_others_logged i j {X} (e : insp_call X) x s : i ≠ j → insp_others i s (insp_logged j e x s).
Proof. intros Hij. split; [apply insp_kept_logged|]. by apply own_answers_other. Qed.
Lemma insp_ok_logged i {X} (e : insp_call X) x s : insp_ok s → insp_ok (insp_logged i e x s).
Proof.
  intros Ok. split; try apply Ok. intros f fl ca r Hf Hr. destruct (io_results _ Ok _ _ _ _ Hf Hr) as [Hv Hc].
  split; [|by right]. eapply vouched_later; [apply suffix_logged|done].
Qed.
Lemma insp_others_clock i now s : (is_clock s <= now)%Z → insp_others i s (with_clock now s).
Proof. intros Hn. apply insp_kept_others; [done|]. split; try done. intros f fl Hf. by exists fl. Qed.
Lemma insp_others_checked i j now unix s : (is_clock s <= now)%Z → j ≠ i → insp_others j s (with_checked i now unix s).
Proof.
  intros Hn Hj. apply insp_kept_others; [done|]. split; try done; cbn; [intros f fl Hf; by exists fl|].
  by rewrite lookup_insert_ne.
Qed.

Lemma insp_leave_gates i s f j : is_gates (insp_leave i s) !! f = Some j ↔ is_gates s !! f = Some j ∧ j ≠ i.
Proof. apply map_lookup_filter_Some. Qed.
Lemma insp_leave_ok i s : insp_ok s → insp_ok (insp_leave i s).
Proof. intros Ok. split; apply Ok. Qed.
Lemma insp_others_leave i j s : j ≠ i → insp_others j s (insp_leave i s).
Proof.
  intros Hj. apply insp_kept_others; [done|]. split; try done.
  - intros f. rewrite insp_leave_gates. split; [by intros [? _]|done].
  - intros f fl Hf. by exists fl.
Qed.
Lemma insp_others_permits i j s X : j ≠ i → (∀ k, k ≠ i → k ∈ X ↔ k ∈ is_permits s) → insp_others j s (with_insp_permits X s).
Proof. intros Hj HX. apply insp_kept_others; [done|]. split; try done; [by apply HX|]. intros f fl Hf. by exists fl. Qed.
Lemma insp_release_ok i s : insp_ok s → insp_ok (with_insp_permits (is_permits s ∖ {[i]}) s).
Proof.
  intros Ok. split; try apply Ok. etrans; [|apply Ok]. apply subseteq_size. cbn. set_solver.
Qed.
Lemma insp_others_release i j s : j ≠ i → insp_others j s (with_insp_permits (is_permits s ∖ {[i]}) s).
Proof. intros Hj. apply (insp_others_permits i); [done|]. intros k Hk. set_solver. Qed.

Definition insp_finished (s : insp_state) (i : nat) : Prop := i ∉ is_permits s ∧ ∀ f, is_gates s !! f ≠ Some i.
Lemma insp_drop_ok i s :
  insp_ok s → insp_ok (insp_drop i s) ∧ insp_finished (insp_drop i s) i ∧ ∀ j, j ≠ i → insp_others j s (insp_drop i s).
Proof.
  intros Ok. split; [|split].
  - by apply (insp_release_ok i (insp_leave i s)), insp_leave_ok.
  - split; [cbn; set_solver|]. by intros f [_ ?]%insp_leave_gates.
  - intros j Hj. etrans; [by apply (insp_others_leave i)|]. by apply (insp_others_release i j (insp_leave i s)).
Qed.

(** The state of a flight is written under its gate. *)
Lemma heap_with_state f state s fl :
  is_heap s !! f = Some fl → ∀ h fl', is_heap (with_state f state s) !! h = Some fl' →
  (h = f ∧ fl' = mkInspFlight (if_key fl) state) ∨ (h ≠ f ∧ is_heap s !! h = Some fl').
Proof.
  intros Hf h fl'. cbn. rewrite lookup_alter. case_decide as E; [subst|by right]. rewrite Hf. intros [= <-]. by left.
Qed.
Lemma with_state_ok f state s fl :
  insp_ok s → is_heap s !! f = Some fl →
  (∀ completed_at r, state = Completed completed_at r →
     vouched (is_log s) (if_key fl) r ∧ Ev (CompleteInspection f completed_at r) tt ∈ answers (is_log s)) →
  insp_ok (with_state f state s).
Proof.
  intros Ok Hf Hs. split; try apply Ok.
  - intros h [fl' [[-> _]|[_ Hl]]%(heap_with_state _ _ _ _ Hf)]; apply (io_fresh _ Ok); by eexists.
  - intros k h Hk. destruct (io_listed _ Ok _ _ Hk) as (fl'&Hl&Hk'). cbn. rewrite lookup_alter.
    case_decide; [subst; rewrite Hl; by eexists|by exists fl'].
  - intros h fl' ca r [[-> ->]|[_ Hl]]%(heap_with_state _ _ _ _ Hf); [apply Hs|by apply (io_results s)].
Qed.
Lemma insp_others_state i j f state s : is_gates s !! f = Some i → j ≠ i → insp_others j s (with_state f state s).
Proof.
  intros Hg Hj. apply insp_kept_others; [done|]. split; try done. intros h fl Hh. cbn. rewrite lookup_alter. case_decide.
  - subst. rewrite Hh. eexists. split_and!; [done|done|]. intros Hg'. congruence.
  - by exists fl.
Qed.

Lemma elem_of_retained now unix locked s (k : InspectionKey) f :
  (k, f) ∈ List.filter (retained now unix locked s) (is_flights s) → (k, f) ∈ is_flights s.
Proof. rewrite !list_elem_of_In, filter_In. by intros [? _]. Qed.
Lemma join_inspection_ok i key now unix locked s f s' :
  insp_ok s → (is_clock s <= now)%Z → (f, s') = join_inspection i key now unix locked s →
  insp_ok s' ∧ (∀ j, j ≠ i → insp_others j s s') ∧
  (∃ fl, is_heap s' !! f = Some fl ∧ if_key fl = key) ∧ is_permits s' = is_permits s ∧ is_gates s' = is_gates s ∧
  is_joined s' !! i = Some now ∧ is_clock s' = now ∧ is_log s' = is_log s.
Proof.
  intros Ok Hn. unfold join_inspection.
  destruct (List.find _ _) as [[k g]|] eqn:Ef; intros [= -> ->].
  - apply find_some in Ef as [Hin%list_elem_of_In%elem_of_retained Hk%bool_decide_eq_true]. cbn [fst] in Hk. subst k.
    destruct (io_listed _ Ok _ _ Hin) as (fl&Hf&Hk). split_and!; try done.
    + split; try apply Ok. intros k h Hh%elem_of_retained. by apply Ok.
    + intros j Hj. apply insp_kept_others; [done|].
      split; try done; cbn; [intros h fl' Hh; by exists fl'|by rewrite lookup_insert_ne].
    + by exists fl.
    + cbn. apply lookup_insert_eq.
  - assert (∀ h, is_Some (is_heap s !! h) → is_next s ≠ h) as Hne.
    { intros h Hh <-. pose proof (io_fresh _ Ok _ Hh). lia. }
    split_and!; try done; cbn.
    + split; cbn; try apply Ok.
      * intros h [<-|Hh]%lookup_insert_is_Some'; [lia|]. pose proof (io_fresh _ Ok _ Hh). lia.
      * intros k h [Hh%elem_of_retained|He%list_elem_of_singleton]%elem_of_app; simplify_eq.
        -- destruct (io_listed _ Ok _ _ Hh) as (fl&Hf&Hk). exists fl. split; [|done].
           rewrite lookup_insert_ne; [done|]. apply Hne. by eexists.
        -- eexists. by rewrite lookup_insert_eq.
      * intros h fl ca r [[_ <-]|[_ Hf]]%lookup_insert_Some; [done|by apply (io_results s)].
    + intros j Hj. apply insp_kept_others; [done|]. split; try done; cbn; [|by rewrite lookup_insert_ne].
      intros h fl Hf. exists fl. split; [|done]. rewrite lookup_insert_ne; [done|]. apply Hne. by eexists.
    + eexists. by rewrite lookup_insert_eq.
    + apply lookup_insert_eq.
Qed.

Definition insp_work {X} (e : insp_call X) : bool :=
  match e with ResolveInspector _ | Inspect _ => true | _ => false end.
(** Under the gate of an inspection in flight, with a permit. *)
Definition insp_at_work (i : nat) (s : insp_state) : Prop :=
  i ∈ is_permits s ∧ ∃ f fl, is_gates s !! f = Some i ∧ is_heap s !! f = Some fl ∧ if_state fl = InFlight.
Definition insp_guard (i : nat) (X : Type) (e : insp_call X) (s : insp_state) : Prop :=
  match e with
  | CheckInspection f => is_gates s !! f = Some i ∧ is_Some (is_heap s !! f)
  | CompleteInspection f _ r => is_gates s !! f = Some i ∧ ∃ fl, is_heap s !! f = Some fl ∧ vouched (is_log s) (if_key fl) r
  | _ => insp_work e = true → insp_at_work i s
  end.

Lemma check_inspection_ok i f now unix s x s' :
  insp_ok s → is_gates s !! f = Some i → is_Some (is_heap s !! f) → (x, s') = check_inspection f now unix s →
  insp_ok s' ∧ ∀ j, j ≠ i → insp_others j s s'.
Proof.
  intros Ok Hg [[k state] Hf]. unfold check_inspection. rewrite Hf.
  assert (insp_ok (with_state f InFlight s) ∧ ∀ j, j ≠ i → insp_others j s (with_state f InFlight s)) as Hw.
  { split; [by eapply with_state_ok|]. intros. by eapply insp_others_state. }
  destruct state as [|ca r]; [by intros [= -> ->]|]. destruct (cached_result_is_reusable _ _ _ _); intros [= -> ->]; [|done].
  by split.
Qed.

Lemma insp_call_ok i X (e : insp_call X) s x s' :
  insp_ok s → insp_guard i X e s → insp_port i X e s x s' → insp_ok s' ∧ ∀ j, j ≠ i → insp_others j s s'.
Proof.
  intros Ok Hg Hx.
  destruct e; cbn [insp_port insp_guard] in *;
    try (subst s'; split; [by apply insp_ok_logged|]; intros; by apply insp_others_logged).
  - destruct Hx as (now&unix&locked&Hn&Hj). by destruct (join_inspection_ok _ _ _ _ _ _ _ _ Ok Hn Hj) as (?&?&_).
  - destruct Hx as [Hf ->]. split; [by split; apply Ok|]. intros j Hj. apply insp_kept_others; [done|]. split; try done.
    + intros g. cbn. rewrite lookup_insert_Some. split; [by intros [[? ?]|[? ?]]|]. intros Hg'. right.
      split; [|done]. intros ->. congruence.
    + intros g fl Hfl. by exists fl.
  - destruct Hx as (now&unix&Hn&Hc), Hg as [Hg Hf].
    apply (check_inspection_ok i) in Hc as [Ok' Ho]; [|by split; apply Ok|done|done]. split; [done|].
    intros j Hj. etrans; [by apply insp_others_checked|by apply Ho].
  - subst s'. destruct Hg as (Hg&fl&Hf&Hv). split.
    + pose proof (insp_ok_logged i (CompleteInspection flight completed_at r) x s Ok) as Ok1.
      apply (with_state_ok flight (Completed completed_at r) _ fl Ok1 Hf). intros ca r' [= <- <-].
      destruct x. split; [|by left]. eapply vouched_later; [apply suffix_logged|done].
    + intros j Hj. etrans; [by eapply insp_others_state|by apply insp_others_logged].
  - subst s'. split; [by apply insp_leave_ok|]. intros. by apply insp_others_leave.
  - destruct Hx as (_&Hs&->). split.
    + split; try apply Ok. cbn. rewrite size_union_alt, size_singleton.
      assert (size (is_permits s ∖ {[i]}) <= size (is_permits s)) by (apply subseteq_size; set_solver). lia.
    + intros j Hj. apply (insp_others_permits i); [done|]. set_solver.
  - subst s'. split; [by apply insp_release_ok|]. intros. by apply insp_others_release.
  - destruct Hx as [Hn ->]. split; [by split; apply Ok|]. intros. by apply insp_others_clock.
Qed.

(** ** What an inspection answers *)

Definition insp_asks {X} (e : insp_call X) : bool :=
  match e with GetAccount _ | ResolveInspector _ | Inspect _ | UnixNow => true | _ => false end.

Lemma inspect_permitted_exec i account r t earlier log :
  exec traced (inspect_permitted account) [] r t → own_answers i log = rev t ++ earlier →
  vouched log (inspection_key account) r.
Proof.
  unfold inspect_permitted. intros [[] He]%traced_step; [|by destruct He as [-> _]]. cbn [negb] in He.
  apply traced_step in He as [[inspection|e] He]; [|by destruct He as [-> _]].
  apply traced_step in He as [[now|e] He]; [|by destruct He as [-> _]].
  destruct (validate_inspection account inspection now (ip_min_validity policy)) as [[]|] eqn:Hv; [|by destruct He as [-> _]].
  destruct He as [-> ->]. intros Hown. exists i, account, inspection, now, [], (Ev (ResolveInspector account) true :: earlier).
  by split_and!.
Qed.

(** ** Tasks *)

Abbreviation isafe := (task_safe insp_port insp_ok insp_others insp_guard).

Lemma isafe_call {A X} i (Q : A → insp_state → Prop) (e : insp_call X) k s :
  (∀ s1, insp_ok s1 → insp_others i s s1 → insp_guard i X e s1 ∧
     ∀ x s2, insp_port i X e s1 x s2 → insp_ok s2 → isafe i Q (k x) s2) →
  isafe i Q (Vis e k) s.
Proof.
  intros Hk s1 Hok Ho. destruct (Hk s1 Hok Ho) as [Hg Hx]. split; [done|]. intros x s2 Hp.
  destruct (insp_call_ok i X e s1 x s2 Hok Hg Hp) as [Hok2 Ho2]. split_and!; [done..|]. by apply Hx.
Qed.

Lemma insp_at_work_later i s s' : insp_kept i s s' → insp_at_work i s → insp_at_work i s'.
Proof.
  intros O (Hp&f&fl&Hg&Hf&Hn). split; [by apply (io_permit _ _ _ O)|].
  destruct (io_heap _ _ _ O f fl Hf) as (fl'&Hf'&_&Hr). exists f, fl'. split_and!; [|done|].
  - by apply (io_gates _ _ _ O).
  - by rewrite Hr.
Qed.
(** A part that only asks, at work: its answers are the latest of the task. *)
Definition insp_quiet (X : Type) (e : insp_call X) : Prop := insp_asks e = true.
Lemma isafe_asks {A} i (p : prog insp_call A) s0 :
  insp_at_work i s0 → calls_only insp_quiet p →
  isafe i (λ r s', insp_kept i s0 s' ∧ ∃ t, exec traced p [] r t ∧
             own_answers i (is_log s') = rev t ++ own_answers i (is_log s0)) p s0.
Proof.
  intros Hw Hp.
  apply (task_asks insp_port insp_ok insp_others insp_guard i (λ s, own_answers i (is_log s)) insp_quiet (insp_kept i));
    [apply _|apply _|by intros s s' []| |exact Hp].
  intros X e s Ha Hok Ho. assert (insp_at_work i s) as Hw' by by eapply insp_at_work_later.
  destruct e; try discriminate Ha; cbn [insp_guard insp_port] in *;
    (split; [done|]); intros x s' ->;
    (split; [by apply insp_ok_logged|]); (split; [intros; by apply insp_others_logged|]);
    (split; [apply insp_kept_logged|apply own_answers_here]).
Qed.

(** What request [i] holds after it joined flight [f] of [key] at instant [j]. *)
Record insp_holds (i f : nat) (key : InspectionKey) (j : Z) (permit gate : bool) (St : FlightState → Prop) (s : insp_state) :
    Prop := {
  ih_permit : i ∈ is_permits s ↔ permit = true;
  ih_gate : if gate then is_gates s !! f = Some i else ∀ g, is_gates s !! g ≠ Some i;
  ih_flight : ∃ fl, is_heap s !! f = Some fl ∧ if_key fl = key ∧ (gate = true → St (if_state fl));
  ih_joined : is_joined s !! i = Some j;
  ih_clock : (j <= is_clock s)%Z;
}.
Lemma insp_holds_later i f key j permit gate St s s' :
  insp_kept i s s' → insp_holds i f key j permit gate St s → insp_holds i f key j permit gate St s'.
Proof.
  intros O [Hp Hg (fl&Hf&Hk&Hs) Hj Hc]. split.
  - etrans; [apply O|done].
  - destruct gate; [by apply (io_gates _ _ _ O)|]. intros g Hg'. by apply (Hg g), (io_gates _ _ _ O).
  - destruct (io_heap _ _ _ O f fl Hf) as (fl'&Hf'&Hk'&Hs'). exists fl'. split_and!; [done|congruence|].
    intros ->. rewrite Hs' by done. by apply Hs.
  - etrans; [apply O|done].
  - etrans; [done|apply O].
Qed.
Lemma insp_finished_later i s s' : insp_kept i s s' → insp_finished s i → insp_finished s' i.
Proof.
  intros O (Hp&Hg). split; [by intros ?%(io_permit _ _ _ O)|]. intros f Hf. by apply (Hg f), (io_gates _ _ _ O).
Qed.
Lemma insp_leave_finished i f key j gate St s : insp_holds i f key j false gate St s → insp_finished (insp_leave i s) i.
Proof.
  intros Hh. split; [by intros ?%(ih_permit _ _ _ _ _ _ _ _ Hh)|]. by intros g [_ ?]%insp_leave_gates.
Qed.

(** What is promised to the request for [id]. *)
Definition inspected (i : nat) (id : string) (r : CoreResult CredentialInspectionAuthority) (s : insp_state) : Prop :=
  insp_finished s i ∧
  match r with
  | Ok _ => ∃ account joined, Ev (GetAccount id) (Ok (Some account)) ∈ own_answers i (is_log s) ∧
      vouched (is_log s) (inspection_key account) r ∧ is_joined s !! i = Some joined ∧ current i s joined r
  | Err _ => True
  end.

Lemma current_later i s s' j r : insp_kept i s s' → current i s j r → current i s' j r.
Proof.
  intros O (f&ca&[[Hj Hc]|(Hc&now&unix&Hn&Hg)]); exists f, ca; [left|right].
  - split; [done|]. by eapply own_answers_suffix; [apply O|].
  - split; [by eapply answers_suffix; [apply O|]|]. exists now, unix. split; [|done]. etrans; [apply (io_checked _ _ _ O)|done].
Qed.
Lemma inspected_later i id r s s' : insp_kept i s s' → inspected i id r s → inspected i id r s'.
Proof.
  intros O [Hf Hr]. split; [by eapply insp_finished_later|]. destruct r as [a|e]; [|done].
  destruct Hr as (account&j&Hg&Hv&Hj&Hc). exists account, j. split_and!.
  - by eapply own_answers_suffix; [apply O|].
  - by eapply vouched_later; [apply O|].
  - etrans; [apply (io_joined _ _ _ O)|done].
  - by eapply current_later.
Qed.

(** What a request has when it knows its result [r]. *)
Record concluded (i : nat) (id : string) (account : ProviderAccount) (j : Z) (r : CoreResult CredentialInspectionAuthority)
    (s : insp_state) : Prop := {
  cl_account : Ev (GetAccount id) (Ok (Some account)) ∈ own_answers i (is_log s);
  cl_vouched : vouched (is_log s) (inspection_key account) r;
  cl_current : current i s j r;
}.
(** The end of a request with a result [r] of its flight. *)
Lemma isafe_leave i f account id j gate St r s :
  insp_holds i f (inspection_key account) j false gate St s → concluded i id account j r s →
  isafe i (inspected i id) (_ <~ LeaveInspection ;; Ret r) s.
Proof.
  intros Hh [Hg Hv Hc]. apply isafe_call. intros s1 Hok Ho. apply (insp_holds_later _ _ _ _ _ _ _ _ _ Ho) in Hh.
  split; [done|]. intros [] s2 Hs2 _. cbn in Hs2. subst s2. split; [by eapply insp_leave_finished|].
  destruct r as [a|e]; [|done]. exists account, j. split_and!.
  - eapply own_answers_suffix; [apply Ho|done].
  - eapply vouched_later; [apply Ho|done].
  - apply Hh.
  - change (current i s1 j (Ok a)). eapply current_later; [apply Ho|done].
Qed.

Lemma isafe_perform i f key j account s :
  key = inspection_key account → insp_holds i f key j false true (λ st, st = InFlight) s →
  isafe i (λ r s', insp_holds i f key j false true (λ st, st = InFlight) s' ∧ vouched (is_log s') key r ∧
             is_log s `suffix_of` is_log s') (perform_inspection account) s.
Proof.
  intros -> Hh. unfold perform_inspection. apply isafe_call. intros s1 Hok Ho.
  apply (insp_holds_later _ _ _ _ _ _ _ _ _ Ho) in Hh. split; [done|]. intros b s2 (->&_&->) _. cbn [negb].
  set (s2 := with_insp_permits ({[i]} ∪ is_permits s1) s1).
  assert (insp_holds i f (inspection_key account) j true true (λ st, st = InFlight) s2) as Hh2.
  { destruct Hh as [? ? ? ? ?]. split; try done. cbn. set_solver. }
  assert (insp_at_work i s2) as Hw.
  { destruct Hh2 as [Hp Hg (fl&Hf&_&Hs) _ _]. split; [by apply Hp|]. exists f, fl. split_and!; [done..|by apply Hs]. }
  apply task_safe_bind. eapply task_safe_mono; [|apply isafe_asks; [exact Hw|]].
  - intros r s3 (Ho3&t&Ht&Hown). apply (inspect_permitted_exec i _ _ _ (own_answers i (is_log s2)) (is_log s3)) in Ht; [|done].
    apply (insp_holds_later _ _ _ _ _ _ _ _ _ Ho3) in Hh2.
    apply isafe_call. intros s4 Hok4 Ho4. apply (insp_holds_later _ _ _ _ _ _ _ _ _ Ho4) in Hh2. split; [done|].
    intros [] s5 Hs5 _. cbn in Hs5. subst s5. split; [|split].
    + destruct Hh2 as [? ? ? ? ?]. split; try done. cbn. set_solver.
    + eapply vouched_later; [apply Ho4|exact Ht].
    + etrans; [apply (io_log _ _ _ Ho)|]. etrans; [apply (io_log _ _ _ Ho3)|apply (io_log _ _ _ Ho4)].
  - unfold inspect_permitted. split; [done|]. intros []; [|done]. cbn [negb]. split; [done|].
    intros [inspection|e]; [|done]. split; [done|]. intros [now|e]; [|done]. by destruct (validate_inspection _ _ _ _).
Qed.

(** The end of a request that inspected. *)
Lemma isafe_complete i f account id j r s :
  insp_holds i f (inspection_key account) j false true (λ st, st = InFlight) s →
  Ev (GetAccount id) (Ok (Some account)) ∈ own_answers i (is_log s) → vouched (is_log s) (inspection_key account) r →
  isafe i (inspected i id)
    (completed_at <~ InstantNow ;; _ <~ CompleteInspection f completed_at r ;; _ <~ LeaveInspection ;; Ret r) s.
Proof.
  intros Hh Hacc Hv. apply isafe_call. intros s1 Hok Ho. apply (insp_holds_later _ _ _ _ _ _ _ _ _ Ho) in Hh. split; [done|].
  intros ca s2 [Hn ->] _. assert (j <= ca)%Z as Hca by (etrans; [apply Hh|done]).
  assert (insp_holds i f (inspection_key account) j false true (λ st, st = InFlight) (with_clock ca s1)) as Hh2
    by (destruct Hh; by split).
  apply isafe_call. intros s3 Hok3 Ho3. apply (insp_holds_later _ _ _ _ _ _ _ _ _ Ho3) in Hh2.
  assert (is_log s `suffix_of` is_log s3) as Hl by (etrans; [apply (io_log _ _ _ Ho)|apply (io_log _ _ _ Ho3)]).
  apply (vouched_later _ _ _ _ Hl) in Hv. apply (own_answers_suffix _ _ _ _ Hl) in Hacc.
  pose proof Hh2 as [Hp Hg (fl&Hf&Hk&_) Hj Hc]. split; [split; [done|]; exists fl; split; [done|by rewrite Hk]|].
  intros [] s4 Hs4 _. cbn in Hs4. subst s4. apply (isafe_leave i f account id j true (λ _, True)).
  - split; try done. eexists. cbn. rewrite lookup_alter, decide_True, Hf by done. by split_and!.
  - split.
    + eapply own_answers_suffix; [apply suffix_logged|exact Hacc].
    + eapply vouched_later; [apply suffix_logged|exact Hv].
    + exists f, ca. left. split; [done|]. cbn [insp_logged is_log]. rewrite own_answers_here. by left.
Qed.

(** What the code tests for a result that is not of its own. *)
Lemma reusable_still_good completed_at r now unix :
  cached_result_is_reusable completed_at r now unix = true → still_good completed_at r now unix.
Proof.
  unfold cached_result_is_reusable. destruct (Z.leb_spec (ip_min_refresh_interval policy) (Z.max (now - completed_at) 0)); [done|].
  intros Hr. split; [done|]. intros a expires -> Hv Hx. rewrite bool_decide_true, Hx in Hr by done. cbn [negb] in Hr.
  destruct unix as [unix|]; [|done]. exists unix. split; [done|]. by apply Z.ltb_lt.
Qed.

(** The request checks its flight under the gate. *)
Lemma isafe_check i f account id j s :
  insp_holds i f (inspection_key account) j false true (λ _, True) s →
  Ev (GetAccount id) (Ok (Some account)) ∈ own_answers i (is_log s) →
  isafe i (inspected i id)
    (stored <~ CheckInspection f ;;
     match stored with
     | Some r => _ <~ LeaveInspection ;; Ret r
     | None =>
         pbind (perform_inspection account) (λ r,
           completed_at <~ InstantNow ;; _ <~ CompleteInspection f completed_at r ;; _ <~ LeaveInspection ;; Ret r)
     end) s.
Proof.
  intros Hh Hacc. apply isafe_call. intros s1 Hok Ho. apply (insp_holds_later _ _ _ _ _ _ _ _ _ Ho) in Hh.
  apply (own_answers_suffix _ _ _ _ (io_log _ _ _ Ho)) in Hacc.
  pose proof Hh as [Hp Hg ([k state]&Hf&Hk&_) Hj Hc]. cbn [if_key] in Hk. subst k.
  split; [by split; [|eexists]|]. intros stored s2 (now&unix&Hn&Hch) Hok2.
  unfold check_inspection in Hch. cbn [is_heap with_checked] in Hch. rewrite Hf in Hch.
  assert (isafe i (inspected i id) (pbind (perform_inspection account) (λ r,
      completed_at <~ InstantNow ;; _ <~ CompleteInspection f completed_at r ;; _ <~ LeaveInspection ;; Ret r))
      (with_state f InFlight (with_checked i now unix s1))) as Hperf.
  { apply task_safe_bind. eapply task_safe_mono; [|apply (isafe_perform i f (inspection_key account) j); [done|]].
    - intros r s3 (Hh3&Hv3&Hl3). apply (isafe_complete i f account id j); [done| |done].
      by eapply own_answers_suffix; [exact Hl3|].
    - split; try done; [|cbn; lia]. eexists. cbn. rewrite lookup_alter, decide_True, Hf by done. by split_and!. }
  destruct state as [|ca r]; cbn [if_state] in Hch; [by injection Hch as -> ->|].
  destruct (cached_result_is_reusable ca r now unix) eqn:Hre; injection Hch as -> ->; [|done].
  destruct (io_results s1 Hok f _ ca r Hf eq_refl) as [Hv Hcl]. cbn [if_key] in Hv.
  apply (isafe_leave i f account id j true (λ _, True)).
  - split; try done; [by eexists|]. cbn. lia.
  - split; [done|done|]. exists f, ca. right. split; [done|]. exists now, unix. split; [apply lookup_insert_eq|].
    split; [lia|by apply reusable_still_good].
Qed.

Lemma isafe_inspect i id s : insp_finished s i → isafe i (inspected i id) (inspect id) s.
Proof.
  intros Hfin. unfold inspect. destruct (CloudResourceId_validate id); [|by split].
  unfold inspect_within_deadline. apply isafe_call. intros s1 Hok Ho. apply (insp_finished_later _ _ _ Ho) in Hfin.
  split; [done|]. intros answer s2 Hs2 _. cbn in Hs2. subst s2. destruct answer as [[account|]|e]; [|by split..].
  apply isafe_call. intros s3 Hok3 Ho3.
  assert (insp_finished s3 i) as [Hp Hg] by by eapply insp_finished_later; [apply Ho3|].
  assert (Ev (GetAccount id) (Ok (Some account)) ∈ own_answers i (is_log s3)) as Hacc
    by (rewrite (io_own _ _ _ Ho3); cbn [insp_logged is_log]; rewrite own_answers_here; by left).
  split; [done|]. intros f s4 (now&unix&locked&Hn&Hj) Hok4.
  destruct (join_inspection_ok i _ _ _ _ _ _ _ Hok3 Hn Hj) as (_&_&(fl&Hf&Hk)&Hp4&Hg4&Hj4&Hc4&Hl4).
  assert (insp_holds i f (inspection_key account) now false false (λ _, True) s4) as Hh4.
  { split; [rewrite Hp4; by split|by rewrite Hg4|by exists fl|done|lia]. }
  rewrite <-Hl4 in Hacc.
  apply isafe_call. intros s5 Hok5 Ho5. apply (insp_holds_later _ _ _ _ _ _ _ _ _ Ho5) in Hh4. split; [done|].
  intros [] s6 [_ ->] Hok6. apply (own_answers_suffix _ _ _ _ (io_log _ _ _ Ho5)) in Hacc. apply (isafe_check i f account id now); [|done].
  destruct Hh4 as [? _ (fl5&?&?&_) ? ?]. split; try done; [apply lookup_insert_eq|by exists fl5].
Qed.

(** ** What validation assures *)

Record borne_out (account : ProviderAccount) (a : CredentialInspectionAuthority) (now : Z) : Prop := {
  bo_id : ia_provider_account_id a = md_id (pa_metadata account);
  bo_generation : ia_provider_account_generation a = md_generation (pa_metadata account);
  bo_identity : ∀ identity, ia_identity a = Some identity →
    id_provider identity = as_provider (pa_spec account) ∧
    ∃ scope, id_scope identity = Some scope ∧ configured_scope account = Ok scope;
  bo_valid : ia_state a = CredValid → is_Some (ia_identity a) ∧ ia_issues a = [] ∧
    ∀ expires, ia_expires_at_unix_ms a = Some expires →
      (i64_saturating_add now (min_validity_ms (ip_min_validity policy)) < expires)%Z;
  bo_invalid : ia_state a ≠ CredValid → ia_issues a ≠ [];
}.
Lemma validate_identity_Ok account identity :
  validate_identity account identity = Ok tt →
  id_provider identity = as_provider (pa_spec account) ∧
  ∃ scope, id_scope identity = Some scope ∧ configured_scope account = Ok scope.
Proof.
  unfold validate_identity. destruct (bool_decide_reflect (id_provider identity = as_provider (pa_spec account))); [|done].
  destruct (validate_text (id_principal identity) _ _); [|done]. destruct (configured_scope account) as [scope|]; [|done].
  destruct (id_scope identity) as [observed|]; [|done]. cbn [ok_or].
  destruct (validate_text observed _ _); [|done]. destruct (String.eqb_spec observed scope) as [->|]; [|done].
  intros _. split; [done|]. by exists scope.
Qed.
Lemma validate_state_Ok inspection :
  validate_state inspection = Ok tt →
  (ins_state inspection = CredValid → is_Some (ins_identity inspection) ∧ ins_issues inspection = []) ∧
  (ins_state inspection ≠ CredValid → ins_issues inspection ≠ []).
Proof.
  unfold validate_state. intros Hs. split.
  - intros Hv. rewrite Hv in Hs. case_bool_decide as Hi; [done|]. cbn [orb] in Hs.
    destruct (zlen (ins_issues inspection) =? 0)%Z eqn:Hz; [|done]. split; [by apply not_eq_None_Some|by apply zlen_nil_iff].
  - intros Hv Hn. rewrite Hn in Hs. by destruct (ins_state inspection).
Qed.
Lemma validate_inspection_Ok account inspection now :
  validate_inspection account inspection now (ip_min_validity policy) = Ok tt →
  borne_out account (authority_of account inspection) now.
Proof.
  unfold validate_inspection. destruct (_ || _); [done|].
  destruct (match ins_credential_revision inspection with Some _ => _ | None => _ end); [|done].
  destruct (validate_state inspection) as [[]|] eqn:Hs; [|done]. apply validate_state_Ok in Hs as [Hs1 Hs2].
  destruct (validate_expiry inspection now _) as [[]|] eqn:He; [|done].
  destruct (match ins_identity inspection with Some _ => _ | None => _ end) as [[]|] eqn:Hid; [|done]. intros _.
  split; cbn; try done.
  - intros identity Hi. rewrite Hi in Hid. by apply validate_identity_Ok.
  - intros Hv. destruct (Hs1 Hv) as [Hi Hn]. split_and!; [done..|]. intros expires Hx.
    unfold validate_expiry in He. rewrite Hv, Hx in He.
    destruct (Z.leb_spec expires (i64_saturating_add now (min_validity_ms (ip_min_validity policy)))); [done|lia].
Qed.
End inspection.
#[export] Existing Instance insp_kept_refl.
#[export] Existing Instance insp_kept_trans.
#[export] Existing Instance insp_others_refl.
#[export] Existing Instance insp_others_trans.

(** ** The service *)

Section service.
Context (policy : CredentialInspectionPolicy).

Definition inspecting {A} (ps : list (option (prog insp_call A))) (i : nat) : Prop :=
  ∃ X (e : insp_call X) k, ps !! i = Some (Some (Vis e k)) ∧ insp_work e = true.
Definition inspection_active {A} (ps : list (option (prog insp_call A))) (i : nat) : Prop :=
  ∃ p, ps !! i = Some (Some p) ∧ Tasks.running p.

Lemma initial_insp_ok : insp_ok policy initial_insp.
Proof.
  split; cbn; try done.
  - intros f [x Hx]. by rewrite lookup_empty in Hx.
  - by intros k f ?%elem_of_nil.
  - rewrite size_empty. lia.
Qed.
Lemma initial_insp_finished i : insp_finished initial_insp i.
Proof. split; [set_solver|done]. Qed.

Definition inspected_id (ids : list string) (i : nat) (r : CoreResult CredentialInspectionAuthority) (s : insp_state) : Prop :=
  insp_finished s i ∧ ∀ id, ids !! i = Some id → inspected policy i id r s.
Lemma insp_laws ids : tasks_laws insp_drop (insp_ok policy) insp_others (inspected_id ids) (λ i s, insp_finished s i).
Proof.
  split.
  - intros i r s s' [Hf Hs] [O _]. split; [by eapply insp_finished_later|]. intros id Hid.
    eapply inspected_later; [done|by apply Hs].
  - intros i s s' Hf [O _]. by eapply insp_finished_later.
  - intros i s Ok. by apply insp_drop_ok.
Qed.

Lemma insp_reachable ids ps s :
  rtc (task_step (insp_port policy) insp_drop) (map Some (map (inspect policy) ids), initial_insp) (ps, s) →
  tasks_ok (insp_port policy) (insp_ok policy) insp_others (insp_guard policy) (inspected_id ids)
    (λ i s, insp_finished s i) (ps, s).
Proof.
  intros Hr. refine (task_steps_ok _ _ _ _ _ _ _ _ _ (insp_laws ids) _ Hr).
  apply tasks_start; [apply _|apply initial_insp_ok|apply initial_insp_finished|].
  intros i p. rewrite list_lookup_fmap. destruct (ids !! i) as [id|] eqn:Hi; [|done]. intros [= <-].
  eapply task_safe_mono; [|apply isafe_inspect, initial_insp_finished].
  intros r s' [Hf Hs]. split; [done|]. intros id' [= <-]%(eq_trans (eq_sym Hi)). by split.
Qed.

(** C27.  An inspection is evidence about the account it is returned for, and it is
    recent.  For any number of requests that interleave at every call, some of them
    abandoned at any await (also by their deadline), and whatever the store, the
    inspectors and the clocks answer: an authority belongs to the account that the
    request itself read, in the generation it read; an inspector reported it for that
    generation, with the provider and the scope configured there, with an identity and
    no issues and, at the time read right after the report, not about to expire if it
    is valid, with an issue if it is not; the request completed it itself after it
    joined, or, at the two clocks as the request read them for its check of the flight
    after it joined, it was younger than the refresh interval and still not about to
    expire if valid; at most the configured number of requests are at the provider at
    a time; and a request that has ended or was abandoned holds neither a gate nor a
    permit. *)
Theorem inspection_current (ids : list string)
    (ps : list (option (prog insp_call (CoreResult CredentialInspectionAuthority)))) (s : insp_state) :
  rtc (task_step (insp_port policy) insp_drop) (map Some (map (inspect policy) ids), initial_insp) (ps, s) →
  (∀ i id a, ids !! i = Some id → ps !! i = Some (Some (Ret (Ok a))) →
     ∃ read j account inspection now later earlier joined,
       Ev (GetAccount id) (Ok (Some read)) ∈ own_answers i (is_log s) ∧ inspection_key account = inspection_key read ∧
       own_answers j (is_log s) = later ++ [Ev UnixNow (Ok now); Ev (Inspect account) (Ok inspection)] ++ earlier ∧
       a = authority_of account inspection ∧ borne_out policy account a now ∧
       is_joined s !! i = Some joined ∧ current policy i s joined (Ok a)) ∧
  (∃ workers : gset nat, size workers <= ip_max_concurrent_inspections policy ∧ ∀ i, inspecting ps i → i ∈ workers) ∧
  (∀ f i, is_gates s !! f = Some i → inspection_active ps i) ∧
  (∀ i, ¬ inspection_active ps i → insp_finished s i).
Proof.
  intros Hr%insp_reachable. pose proof (proj1 Hr) as Ok. cbn [snd] in Ok.
  assert (∀ i, ¬ inspection_active ps i → insp_finished s i) as Hfin.
  { intros i Hn. destruct (ps !! i) as [[[r|X e k]|]|] eqn:Hi.
    - apply (tasks_returned _ _ _ _ _ _ _ _ _ _ _ (insp_laws ids) Hr Hi).
    - destruct Hn. by exists (Vis e k).
    - eapply (tasks_idle _ _ _ _ _ _ _ _ _ Hr). by right.
    - eapply (tasks_idle _ _ _ _ _ _ _ _ _ Hr). by left. }
  split_and!; [| | |done].
  - intros i id a Hid Hi. destruct (tasks_returned _ _ _ _ _ _ _ _ _ _ _ (insp_laws ids) Hr Hi) as [_ Ha].
    destruct (Ha id Hid) as [_ (read&joined&Hg&(j&account&inspection&now&later&earlier&Hown&Hk&Hv&->)&Hj&Hc)].
    exists read, j, account, inspection, now, later, earlier, joined. split_and!; try done. by apply validate_inspection_Ok.
  - exists (is_permits s). split; [apply Ok|]. intros i (X&e&k&Hi&He).
    pose proof (tasks_calling _ _ _ _ _ _ _ _ _ _ _ _ Hr Hi) as Hg.
    destruct e; try discriminate He; by destruct (Hg eq_refl).
  - intros f i Hf. destruct (ps !! i) as [[[r|X e k]|]|] eqn:Hi.
    2:{ by exists (Vis e k). }
    all: destruct (Hfin i) as (_&Hg); [intros (p&Hp&Hrun); rewrite Hi in Hp; by simplify_eq|by destruct (Hg f)].
Qed.

(** The entry of an inspection that is in flight, also of one that was abandoned,
    survives every later pruning. *)
Theorem abandoned_inspection_kept (i : nat) (key k : InspectionKey) (f : nat) (now : Z) (unix : option Z) (locked : list nat)
    (s : insp_state) :
  (k, f) ∈ is_flights s → is_heap s !! f = Some (mkInspFlight k InFlight) →
  (k, f) ∈ is_flights (join_inspection policy i key now unix locked s).2.
Proof.
  intros Hin Hf. assert ((k, f) ∈ List.filter (retained policy now unix locked s) (is_flights s)) as Hr.
  { apply list_elem_of_In, filter_In. split; [by apply list_elem_of_In|]. unfold retained. cbn [snd]. rewrite Hf.
    apply orb_true_r. }
  unfold join_inspection. destruct (List.find _ _) as [[? ?]|]; [done|]. cbn. apply elem_of_app. by left.
Qed.
End service.

(** ** Examples *)

Definition demo_policy : CredentialInspectionPolicy := CredentialInspectionPolicy_new (from_secs 10) 2.
Definition demo_account : ProviderAccount :=
  mkAccount (mkMetadata "acme" "Acme" None [] 3 Managed Retain)
    (mkSpec Aws (Some (ScopeAws "123456789012")) Ambient) empty_status.
(** Valid until one millisecond after the safety margin. *)
Definition demo_inspection : CredentialInspection :=
  mkInspection CredValid (Some (mkIdentity Aws "arn:aws:iam::123456789012:role/dns" (Some "123456789012"))) (Some "r1")
    (Some 30001%Z) [].
Definition demo_insp_answer (X : Type) (e : insp_call X) : option X :=
  match e in insp_call X return option X with
  | GetAccount _ => Some (Ok (Some demo_account))
  | ResolveInspector _ => Some true
  | Inspect _ => Some (Ok demo_inspection)
  | UnixNow => Some (Ok 0%Z)
  | _ => None
  end.
(** [later]: the milliseconds on the clock once an inspection is complete. *)
Definition completes (ev : event insp_call) : bool := match ev with Ev (CompleteInspection _ _ _) _ => true | _ => false end.
Definition demo_unix (later : Z) (s : insp_state) : option Z := Some (if existsb completes (answers (is_log s)) then later else 0%Z).
Definition demo_insp_handler (later : Z) (i : nat) (X : Type) (e : insp_call X) (s : insp_state) : option (X * insp_state) :=
  match e in insp_call X return option (X * insp_state) with
  | JoinInspection key => Some (join_inspection demo_policy i key (is_clock s) (demo_unix later s) [] s)
  | LockInspection f =>
      match is_gates s !! f with None => Some (tt, with_insp_gates (<[f := i]> (is_gates s)) s) | Some _ => None end
  | CheckInspection f => Some (check_inspection demo_policy f (is_clock s) (demo_unix later s)
                                      (with_checked i (is_clock s) (demo_unix later s) s))
  | CompleteInspection f ca r =>
      Some (tt, insp_logged i (CompleteInspection f ca r) tt (with_state f (Completed ca r) s))
  | LeaveInspection => Some (tt, insp_leave i s)
  | AcquireInspectionPermit =>
      if Nat.ltb (size (is_permits s)) (ip_max_concurrent_inspections demo_policy)
      then Some (true, with_insp_permits ({[i]} ∪ is_permits s) s) else None
  | ReleaseInspectionPermit => Some (tt, with_insp_permits (is_permits s ∖ {[i]}) s)
  | InstantNow => Some (is_clock s, with_clock (is_clock s) s)
  | e => match demo_insp_answer _ e with Some x => Some (x, insp_logged i e x s) | None => None end
  end.
Lemma demo_insp_handler_port later i X (e : insp_call X) s x s' :
  demo_insp_handler later i X e s = Some (x, s') → insp_port demo_policy i X e s x s'.
Proof.
  destruct e; cbn [demo_insp_handler insp_port demo_insp_answer];
    try (by intros [= <- <-]); try (by intros [= <-]).
  - intros [= Hx]. exists (is_clock s), (demo_unix later s), []. by split.
  - case_match eqn:Hf; [done|]. intros [= <- <-]. by split.
  - intros [= Hx]. exists (is_clock s), (demo_unix later s). by split.
  - destruct (Nat.ltb_spec (size (is_permits s)) (ip_max_concurrent_inspections demo_policy)); [|done].
    intros [= <- <-]. by split_and!.
Qed.

Definition demo_ids : list string := ["acme"; "acme"; "acme"].
Definition demo_inspections (later : Z) (choices : list nat) :=
  schedule insp_drop (demo_insp_handler later) (map (λ i, (i, true)) choices)
    (map Some (map (inspect demo_policy) demo_ids), initial_insp).
Lemma demo_inspections_steps later choices :
  rtc (task_step (insp_port demo_policy) insp_drop) (map Some (map (inspect demo_policy) demo_ids), initial_insp)
    ((demo_inspections later choices).1, (demo_inspections later choices).2).
Proof. rewrite <-surjective_pairing. apply schedule_steps, demo_insp_handler_port. Qed.

(** Request 0 inspects while 1 waits; 1 is given the result of 0. *)
Definition demo_shared := demo_inspections 0 ([0; 0; 0; 1; 1] ++ replicate 9 0 ++ [1; 1; 1]).
Lemma inspection_current_witness :
  demo_shared.1 !! 1 = Some (Some (Ret (Ok (authority_of demo_account demo_inspection)))) ∧
  is_checked demo_shared.2 !! 1 = Some (0%Z, Some 0%Z) ∧
  ∃ account now, borne_out demo_policy account (authority_of demo_account demo_inspection) now ∧
    current demo_policy 1 demo_shared.2 0 (Ok (authority_of demo_account demo_inspection)).
Proof.
  assert (demo_shared.1 !! 1 = Some (Some (Ret (Ok (authority_of demo_account demo_inspection))))) as Hr
    by (vm_compute; reflexivity).
  assert (is_joined demo_shared.2 !! 1 = Some 0%Z) as Hj by (vm_compute; reflexivity).
  split; [exact Hr|]. split; [vm_compute; reflexivity|].
  destruct (inspection_current demo_policy demo_ids demo_shared.1 demo_shared.2 (demo_inspections_steps _ _)) as (Hres&_).
  destruct (Hres 1 "acme" _ eq_refl Hr) as (read&j&account&inspection&now&later&earlier&joined&_&_&_&_&Hb&Hj'&Hc).
  exists account, now. rewrite Hj in Hj'. injection Hj' as <-. by split.
Defined.

(** Requests for one generation of an account are not always coalesced: the result of
    request 0 is no longer reusable when 1, which waited for it, and 2, which comes
    then, look at it; 2 makes a flight of its own, 1 works on the old one. *)
Definition is_inspecting {A} (ps : list (option (prog insp_call A))) (i : nat) : bool :=
  match (ps !! i : option (option (prog insp_call A))) with Some (Some (@Vis _ _ X e _)) => insp_work (X := X) e | _ => false end.
Lemma is_inspecting_inspecting {A} (ps : list (option (prog insp_call A))) i : is_inspecting ps i = true → inspecting ps i.
Proof. unfold is_inspecting. destruct (ps !! i) as [[[r|X e k]|]|] eqn:Hi; [done| |done..]. intros He. by exists X, e, k. Qed.
Theorem inspections_can_overlap :
  ∃ ps s, rtc (task_step (insp_port demo_policy) insp_drop) (map Some (map (inspect demo_policy) demo_ids), initial_insp) (ps, s) ∧
    inspecting ps 1 ∧ inspecting ps 2.
Proof.
  exists (demo_inspections 1 ([0; 0; 0; 1; 1] ++ replicate 9 0 ++ [2; 2; 2; 2; 2] ++ [1; 1; 1])).1, (demo_inspections 1 ([0; 0; 0; 1; 1] ++ replicate 9 0 ++ [2; 2; 2; 2; 2] ++ [1; 1; 1])).2.
  split; [apply demo_inspections_steps|].
  split; apply is_inspecting_inspecting; vm_compute; reflexivity.
Qed.
