(* ===== verification/ProviderErrors.v ===== *)
(** * ProviderErrors: normalized provider failures

    [crates/center-core/src/cloud/provider_errors.rs] and [direct_call.rs]: the
    only error shape an adapter may return, its validation, and the operation
    outcome a caller derives from it. *)

From Stdlib Require Import ZArith Ascii String Lia.
From S2P Require Import Prelude Text Core BTree NetAddr Dns.

Definition MAX_ERROR_CODE_LEN : Z := 128.
Definition MAX_ERROR_MESSAGE_LEN : Z := 4096.
Definition MAX_PROVIDER_REQUEST_ID_LEN : Z := 512.

Inductive ProviderErrorCategory :=
| CatAuthentication | CatAuthorization | CatQuota | CatConflict | CatValidation | CatNotFound
| CatTransient | CatThrottled | CatUnknownOutcome.
#[export] Instance ProviderErrorCategory_eq_dec : EqDecision ProviderErrorCategory.
Proof. solve_decision. Defined.

Record NormalizedProviderError := mkProviderError {
  pe_category : ProviderErrorCategory;
  pe_code : string;
  pe_message : string;
  pe_retry_after_ms : option Z;            (* u64 *)
  pe_provider_request_id : option string;
}.
#[export] Instance NormalizedProviderError_eq_dec : EqDecision NormalizedProviderError.
Proof. solve_decision. Defined.

Abbreviation DnsProviderResult A := (result A NormalizedProviderError).

Definition NormalizedProviderError_validate (e : NormalizedProviderError) : CoreResult () :=
  let? _ := validate_text (pe_code e) "provider error code" MAX_ERROR_CODE_LEN in
  let? _ := validate_text (pe_message e) "provider error message" MAX_ERROR_MESSAGE_LEN in
  let? _ := validate_option (λ id, validate_text id "provider request ID" MAX_PROVIDER_REQUEST_ID_LEN)
              (pe_provider_request_id e) in
  if is_some_and (λ delay, I64_MAX <? delay)%Z (pe_retry_after_ms e)
  then Err (Conflict "provider retry delay exceeds the persisted time range")
  else match pe_category e with
       | CatThrottled =>
           if bool_decide (pe_retry_after_ms e = None)
           then Err (Conflict "throttled provider errors require a retry delay") else Ok tt
       | CatAuthentication | CatAuthorization | CatConflict | CatValidation | CatNotFound
       | CatUnknownOutcome =>
           if bool_decide (pe_retry_after_ms e = None) then Ok tt
           else Err (Conflict "terminal provider error category cannot carry a retry delay")
       | CatQuota | CatTransient => Ok tt
       end.

Definition NormalizedProviderError_new (category : ProviderErrorCategory) (code message : string)
    (retry_after_ms : option Z) (request_id : option string) : CoreResult NormalizedProviderError :=
  let value := mkProviderError category code message retry_after_ms request_id in
  let? _ := NormalizedProviderError_validate value in Ok value.

Inductive OperationErrorKind :=
| KindTransient | KindThrottled | KindConflictRequiresReplan | KindPermanent | KindUnknownOutcome.
#[export] Instance OperationErrorKind_eq_dec : EqDecision OperationErrorKind.
Proof. solve_decision. Defined.

Definition operation_kind (e : NormalizedProviderError) : OperationErrorKind :=
  match pe_category e with
  | CatAuthentication | CatAuthorization | CatValidation | CatNotFound => KindPermanent
  | CatQuota => match pe_retry_after_ms e with Some _ => KindThrottled | None => KindPermanent end
  | CatConflict => KindConflictRequiresReplan
  | CatTransient => KindTransient
  | CatThrottled => KindThrottled
  | CatUnknownOutcome => KindUnknownOutcome
  end.

Record OperationError := mkOperationError {
  oe_kind : OperationErrorKind;
  oe_code : string;
  oe_message : string;
  oe_retry_after_ms : option Z;
}.

Definition into_operation_error (e : NormalizedProviderError) : CoreResult OperationError :=
  let? _ := NormalizedProviderError_validate e in
  Ok (mkOperationError (operation_kind e) (pe_code e) (pe_message e) (pe_retry_after_ms e)).

Definition OperationError_validate (e : OperationError) : CoreResult () :=
  let? _ := validate_text (oe_code e) "cloud operation error code" MAX_ERROR_CODE_LEN in
  let? _ := validate_text (oe_message e) "cloud operation error message" MAX_ERROR_MESSAGE_LEN in
  if is_some_and (λ delay, I64_MAX <? delay)%Z (oe_retry_after_ms e)
  then Err (Conflict "cloud operation retry delay exceeds the persisted time range") else Ok tt.

Definition IdempotencyKey_new (value : string) : CoreResult string :=
  if text_invalid 512 value then Err (InvalidIdentifier "idempotency key" value) else Ok value.

Lemma validate_text_Ok v k m : validate_text v k m = Ok tt ↔ text_invalid m v = false.
Proof. unfold validate_text. by destruct (text_invalid m v). Qed.

(** The operation error of a valid provider error is valid, and throttling
    always says how long to wait. *)
Lemma operation_error_valid e o :
  into_operation_error e = Ok o →
  OperationError_validate o = Ok tt ∧
  (oe_kind o = KindThrottled → is_Some (oe_retry_after_ms o)) ∧
  (oe_kind o = KindUnknownOutcome ↔ pe_category e = CatUnknownOutcome).
Proof.
  unfold into_operation_error. destruct (NormalizedProviderError_validate e) as [[]|] eqn:Ev; [|done].
  intros [= <-]. unfold NormalizedProviderError_validate in Ev.
  destruct (validate_text (pe_code e) _ _) as [[]|] eqn:Ec; [|done].
  destruct (validate_text (pe_message e) _ _) as [[]|] eqn:Em; [|done].
  destruct (validate_option _ _); [|done]. rewrite validate_text_Ok in Ec, Em.
  unfold OperationError_validate. cbn [oe_code oe_message oe_retry_after_ms oe_kind].
  rewrite !(proj2 (validate_text_Ok _ _ _)) by done.
  destruct (is_some_and _ _); [done|]. split; [done|]. unfold operation_kind.
  destruct (pe_category e), (pe_retry_after_ms e); naive_solver.
Qed.
