(* ===== verification/RecordValues.v ===== *)
(** * RecordValues: what the provider codecs share

    Collecting and transposing results, the values and record sets that the
    types of [dns.rs] admit, and the effect of a batch of changes on the record
    sets of a zone.  The codecs and planners of both providers are specified with
    these. *)

From Stdlib Require Import ZArith Ascii String Lia.
From S2P Require Import Prelude Text Core BTree NetAddr Dns DnsChange.

(** ** Results *)

(** [.as_ref().map(f).transpose()]. *)
Definition transpose {A B E} (f : A → result B E) (o : option A) : result (option B) E :=
  match o with None => Ok None | Some a => let? b := f a in Ok (Some b) end.
(** [.map(f).collect::<Result<Vec<_>, _>>()]. *)
Fixpoint collect {A B E} (f : A → result B E) (l : list A) : result (list B) E :=
  match l with
  | [] => Ok []
  | a :: l => let? b := f a in let? bs := collect f l in Ok (b :: bs)
  end.

Lemma collect_map {A B E} (f : B → result A E) (g : A → B) l :
  Forall (λ a, f (g a) = Ok a) l → collect f (map g l) = Ok l.
Proof. induction 1 as [|a l Ha Hl IH]; [done|]. simpl. by rewrite Ha, IH. Qed.

Lemma collect_Ok {A B E} (f : A → result B E) l bs :
  collect f l = Ok bs ↔ Forall2 (λ a b, f a = Ok b) l bs.
Proof.
  revert bs. induction l as [|a l IH]; intros bs; cbn [collect].
  - split; [intros [= <-]; constructor|]. by inversion 1.
  - split.
    + destruct (f a) as [b|] eqn:Ea; [|done]. destruct (collect f l) as [bs'|] eqn:El; [|done].
      intros [= <-]. constructor; [done|]. by apply IH.
    + inversion 1 as [|? b ? bs' Ha Hl]; subst. apply IH in Hl. by rewrite Ha, Hl.
Qed.

Lemma opaque_new_validate kind max v : opaque_id_validate kind max v = Ok tt → opaque_id_new kind max v = Ok v.
Proof. unfold opaque_id_validate, opaque_id_new. by destruct (validate_text v kind max). Qed.

(** ** Values *)

Definition bytes_ok (value : list Z) : Prop := Forall (λ v, 0 <= v <= U8_MAX)%Z value.
(** A text value as its constructor admits it. *)
Definition txt_ok (segments : list (list Z)) : Prop :=
  Forall (λ s, bytes_ok s ∧ zlen s <= 255)%Z segments ∧ DnsTxtValue_new segments = Ok segments.
Section values.
Context `{Idna}.
Definition name_ok (n : string) : Prop := AbsoluteDnsName_new n = Ok n.
Definition within (max n : Z) : Prop := (0 <= n <= max)%Z.

(** What the types of the source guarantee of a value. *)
Definition value_ok (v : DnsRecordSetValue) : Prop :=
  match v with
  | VA address => ipv4_wf address
  | VAaaa address => ipv6_wf address
  | VCname target | VNs target => name_ok target
  | VTxt segments => txt_ok segments
  | VMx preference exchange => within U16_MAX preference ∧ name_ok exchange
  | VSrv priority weight port target =>
      within U16_MAX priority ∧ within U16_MAX weight ∧ within U16_MAX port ∧ name_ok target
  | VCaa flags tag value =>
      within U8_MAX flags ∧ CaaTag_new tag = Ok tag ∧ bytes_ok value ∧ (zlen value <= 255)%Z
  | VSoa primary mailbox serial refresh retry expire minimum =>
      name_ok primary ∧ name_ok mailbox ∧
      Forall (within U32_MAX) [serial; refresh; retry; expire; minimum]
  end.
End values.

(** What a valid record set looks like. *)
Definition ordinary (r : ProviderDnsRecordSet) : Prop :=
  rs_ttl r ≠ Inherited ∧ rs_values r ≠ [] ∧ ∀ v, v ∈ rs_values r → record_type v = rs_type r.
Definition aliased (r : ProviderDnsRecordSet) : Prop := rs_ttl r = Inherited ∧ rs_values r = [].

Lemma existsb_false_forall {A} (p : A → bool) l x : existsb p l = false → x ∈ l → p x = false.
Proof.
  intros He Hx. destruct (p x) eqn:Hp; [|done].
  assert (existsb p l = true) as H by (apply existsb_exists; exists x; by rewrite <- list_elem_of_In).
  congruence.
Qed.

Lemma validate_shape_facts r :
  validate_shape r = Ok tt → if route53_alias r then aliased r else ordinary r.
Proof.
  unfold validate_shape, aliased, ordinary. destruct (route53_alias r).
  - destruct (rs_values r); simpl; [|done]. case_bool_decide; [|done]. done.
  - destruct (rs_values r) as [|v vs] eqn:Ev; simpl; [done|]. case_bool_decide as Ht; [done|].
    destruct (negb _ || existsb _ vs) eqn:Ex; [done|]. intros _. split_and!; [done|done|].
    intros w Hw. pose proof (existsb_false_forall
      (λ v, negb (bool_decide (record_type v = rs_type r))) (v :: vs) w Ex Hw) as H.
    by rewrite negb_false_iff, bool_decide_eq_true in H.
Qed.

(** ** The effect of changes *)

(** What a change asks of the record sets of a zone. *)
Definition apply_change (f : DnsRecordSetKey → option ProviderDnsRecordSet) (c : DnsRecordChange)
    (k : DnsRecordSetKey) : option ProviderDnsRecordSet :=
  if decide (k = change_key c) then desired_record_set c else f k.
Definition apply_changes (f : DnsRecordSetKey → option ProviderDnsRecordSet) (cs : list DnsRecordChange) :
    DnsRecordSetKey → option ProviderDnsRecordSet := foldl apply_change f cs.

Lemma apply_changes_out f cs k : k ∉ map change_key cs → apply_changes f cs k = f k.
Proof.
  unfold apply_changes. revert f. induction cs as [|c cs IH]; intros f Hk; [done|]. simpl in Hk |- *.
  rewrite IH by set_solver. unfold apply_change. rewrite decide_False; [done|set_solver].
Qed.
Lemma apply_changes_in f cs c :
  NoDup (map change_key cs) → c ∈ cs → apply_changes f cs (change_key c) = desired_record_set c.
Proof.
  unfold apply_changes. revert f. induction cs as [|d cs IH]; intros f Hn Hc; [by apply not_elem_of_nil in Hc|].
  simpl in Hn |- *. apply NoDup_cons in Hn as [Hd Hn]. apply elem_of_cons in Hc as [->|Hc]; [|by apply IH].
  change (apply_changes (apply_change f d) cs (change_key d) = desired_record_set d).
  rewrite apply_changes_out by done. unfold apply_change. by rewrite decide_True.
Qed.

(** The record set a change leaves has the identity of the change. *)
Lemma desired_change_key c r : desired_record_set c = Some r → rs_key r = change_key c.
Proof. by destruct c; intros [= <-]. Qed.
