(* ===== verification/Tokens.v ===== *)
(** * Tokens: what the authenticated tokens of both providers share

    Cursors and receipts of the adapters are JSON bodies sealed with HMAC-SHA-256
    and base64.  The cryptography and the derived JSON codecs are parameters, with
    the laws the code relies on. *)

From Stdlib Require Import ZArith Ascii String Lia.
From S2P Require Import Prelude Text Core Dns.

(** A 32-byte key; a key of zero bytes only is refused. *)
Definition weak_key (key : string) : bool := str_all (λ c, (byte_val c =? 0)%N) key.

Class Crypto := {
  hmac_sha256 : string → string → string;
  sha256_b64 : string → string;              (* base64 of SHA-256 *)
  b64_encode : string → string;
  b64_decode : string → option string;
}.
Class CryptoLaws `{Crypto} := {
  hmac_len (k m : string) : String.length (hmac_sha256 k m) = 32;
  b64_roundtrip (s : string) : b64_decode (b64_encode s) = Some s;
  b64_nonempty (s : string) : s ≠ EmptyString → b64_encode s ≠ EmptyString;
}.

(** The derived [serde_json] codec of a token type. *)
Class TokenCodec (T : Type) := {
  to_json : T → string;
  from_json : string → option T;
}.
Class TokenCodecLaws (T : Type) `{TokenCodec T} := {
  json_roundtrip (v : T) : from_json (to_json v) = Some v;
  json_nonempty (v : T) : to_json v ≠ EmptyString;
}.

(** ** Pages *)

Definition slice {T} (items : list T) (lo hi : Z) : list T :=
  take (Z.to_nat (hi - lo)) (drop (Z.to_nat lo) items).

Lemma opaque_id_Ok kind max v :
  text_invalid max v = false → opaque_id_new kind max v = Ok v ∧ opaque_id_validate kind max v = Ok tt.
Proof.
  intros Ht. unfold opaque_id_validate, opaque_id_new, validate_text. by rewrite Ht.
Qed.
