(* ===== verification/CredentialFiles.v ===== *)
(** * CredentialFiles: mounted credentials

    [crates/center-adapter-credential-files/src/lib.rs]: an operator binds a
    credential reference of one account and purpose to a file beneath a directory
    that is opened once.  The file system is a port ([fs_call]).  The theorems show
    what a resolved credential is evidence of, and that its revision stands for the
    whole scope and the material. *)

From Stdlib Require Import ZArith Ascii String Lia.
From S2P Require Import Prelude Text Core Effects Dns CloudAccounts Tokens.

Definition MAX_IDENTITY_BYTES : Z := 512.
Definition MAX_PATH_BYTES : Z := 4096.
Definition MAX_BINDINGS : Z := 1024.
Definition MAX_CREDENTIAL_BYTES : Z := 16 * 1024.
Definition REVISION_KEY_BYTES : Z := 32.
Definition REVISION_DOMAIN : string := "edgion-center/mounted-credential-revision/v1".

Inductive CredentialPurpose :=
| CloudflareApiTokenPurpose | CloudflareDnsCursorHmac | CloudflareDnsMutationTokenHmac
| Route53DnsCursorHmac | Route53DnsMutationReceiptHmac | Route53ZoneLifecycleHmac.
#[export] Instance CredentialPurpose_eq_dec : EqDecision CredentialPurpose.
Proof. solve_decision. Defined.

(** ** Configuration *)

Record MountedCredentialBinding := mkBinding {
  mb_credential_ref : string;
  mb_provider_account_id : string;
  mb_provider : CloudProvider;
  mb_purpose : CredentialPurpose;
  mb_file : string;
}.
Record MountedCredentialConfig := mkMountedConfig {
  mc_enabled : bool;
  mc_root_directory : option string;
  mc_revision_key_file : option string;
  mc_bindings : list MountedCredentialBinding;
}.

Inductive CredentialConfigError :=
| MissingRootDirectory | InvalidRootDirectory | MissingRevisionKey | InvalidRevisionKey | NoBindings
| TooManyBindings | InvalidBinding | CredentialFileConflictsRevisionKey | DuplicateBinding.
Inductive CredentialResolutionError :=
| ReferenceNotFound | ScopeMismatch | Unreadable | NotRegular | TooLarge | EmptyFile | UnsafePermissions
| RevisionKeyConflict.

(** A [PathBuf] is compared by its components; a valid locator is the list of its
    names.  [Path::components] drops repeated and trailing separators and every
    [.] but a leading one. *)
Abbreviation PathBuf := (list string).
Definition is_absolute (value : string) : bool := starts_with_char slash value.
Definition components (value : string) : list string :=
  match str_split slash value with
  | [] => []
  | first :: rest =>
      (if is_empty first then [] else [first])
      ++ filter (λ name, negb (is_empty name) && negb (String.eqb name ".")) rest
  end.
(** [Component::Normal]. *)
Definition normal (component : string) : bool := negb (String.eqb component ".") && negb (String.eqb component "..").

Definition path_invalid (value : string) : bool :=
  is_empty value || (MAX_PATH_BYTES <? str_len value)%Z || has_control value.
Definition validate_absolute_root (value : string) : result PathBuf CredentialConfigError :=
  if path_invalid value || negb (is_absolute value) then Err InvalidRootDirectory else Ok (components value).
Definition validate_locator (value : string) : result PathBuf () :=
  if path_invalid value || is_absolute value || negb (forallb normal (components value)) then Err tt
  else Ok (components value).

(** ** Files *)

Record FileIdentity := mkFileIdentity { fi_device : Z; fi_inode : Z }.
#[export] Instance FileIdentity_eq_dec : EqDecision FileIdentity.
Proof. solve_decision. Defined.
Record Metadata := mkFileMetadata {
  fm_is_file : bool;
  fm_mode : Z;                               (* u32 *)
  fm_dev : Z;
  fm_ino : Z;
  fm_len : Z;                                (* u64 *)
}.

(** The capability opened at construction, and open files, are handles. *)
Inductive fs_call : Type → Type :=
| OpenRoot (path : PathBuf) : fs_call (option nat)
| RootMetadata (root : nat) : fs_call (option Metadata)
| OpenFile (root : nat) (path : PathBuf) : fs_call (option nat)
| FileMetadata (file : nat) : fs_call (option Metadata)
| ReadUpTo (file : nat) (limit : Z) : fs_call (option string).

Record ReadFile := mkReadFile {
  rf_material : string;
  rf_identity : FileIdentity;                (* [Some] on Unix *)
}.
Definition writable_by_others (mode : Z) : bool := negb (Z.land mode 18 =? 0)%Z.   (* 0o022 *)

Definition read_regular_file (root : nat) (path : PathBuf) (max_bytes : Z) :
    prog fs_call (result ReadFile CredentialResolutionError) :=
  file <~ OpenFile root path ;;
  try? file := ok_or Unreadable file in
  metadata <~ FileMetadata file ;;
  try? metadata := ok_or Unreadable metadata in
  if negb (fm_is_file metadata) then Ret (Err NotRegular)
  else if writable_by_others (fm_mode metadata) then Ret (Err UnsafePermissions)
  else if (max_bytes <? fm_len metadata)%Z then Ret (Err TooLarge)
  else
    material <~ ReadUpTo file (max_bytes + 1) ;;
    try? material := ok_or Unreadable material in
    if (max_bytes <? str_len material)%Z then Ret (Err TooLarge)
    else
      final <~ FileMetadata file ;;
      try? final := ok_or Unreadable final in
      if negb (fm_dev final =? fm_dev metadata)%Z || negb (fm_ino final =? fm_ino metadata)%Z
      then Ret (Err Unreadable)
      else if negb (fm_len final =? fm_len metadata)%Z || negb (fm_len final =? str_len material)%Z
      then Ret (Err Unreadable)
      else Ret (Ok (mkReadFile material (mkFileIdentity (fm_dev metadata) (fm_ino metadata)))).

(** ** The resolver *)

Record ValidatedBinding := mkValidated {
  vb_credential_ref : string;
  vb_provider_account_id : string;
  vb_provider : CloudProvider;
  vb_purpose : CredentialPurpose;
  vb_file : PathBuf;
}.
Record MountedCredentialResolver := mkResolver {
  mr_root : nat;
  mr_revision_key : string;
  mr_revision_key_identity : FileIdentity;
  mr_bindings : list ValidatedBinding;
}.
Record ResolveCredentialRequest := mkResolve {
  rq_provider_account_id : string;
  rq_provider : CloudProvider;
  rq_purpose : CredentialPurpose;
  rq_credential_ref : string;
}.
Record ResolvedCredential := mkResolved {
  rv_material : string;
  rv_revision : string;
  rv_file_identity : FileIdentity;
}.

Definition provider_tag (provider : CloudProvider) : string :=
  match provider with Cloudflare => "cloudflare" | Aws => "aws" end.
Definition purpose_tag (purpose : CredentialPurpose) : string :=
  match purpose with
  | CloudflareApiTokenPurpose => "cloudflare_api_token"
  | CloudflareDnsCursorHmac => "cloudflare_dns_cursor_hmac"
  | CloudflareDnsMutationTokenHmac => "cloudflare_dns_mutation_token_hmac"
  | Route53DnsCursorHmac => "route53_dns_cursor_hmac"
  | Route53DnsMutationReceiptHmac => "route53_dns_mutation_receipt_hmac"
  | Route53ZoneLifecycleHmac => "route53_zone_lifecycle_hmac"
  end.
Definition valid_provider_purpose (provider : CloudProvider) (purpose : CredentialPurpose) : bool :=
  match provider, purpose with
  | Cloudflare, (CloudflareApiTokenPurpose | CloudflareDnsCursorHmac | CloudflareDnsMutationTokenHmac) => true
  | Aws, (Route53DnsCursorHmac | Route53DnsMutationReceiptHmac | Route53ZoneLifecycleHmac) => true
  | _, _ => false
  end.

(** The bytes the revision code is computed over. *)
Definition revision_message (request : ResolveCredentialRequest) (material : string) : string :=
  frames [REVISION_DOMAIN; rq_provider_account_id request; provider_tag (rq_provider request);
          purpose_tag (rq_purpose request); rq_credential_ref request; material].

Section resolver.
Context `{Crypto} (hex_encode : string → string).

Definition revision (key : string) (request : ResolveCredentialRequest) (material : string) : string :=
  "hmac-sha256-v1:" +:+ hex_encode (hmac_sha256 key (revision_message request material)).

Definition binding_identity (b : ValidatedBinding) : string * string * CloudProvider * CredentialPurpose :=
  (vb_credential_ref b, vb_provider_account_id b, vb_provider b, vb_purpose b).

(** The loop over [config.bindings]. *)
Fixpoint validate_bindings (revision_key_file : PathBuf) (bindings : list MountedCredentialBinding)
    (validated : list ValidatedBinding) : result (list ValidatedBinding) CredentialConfigError :=
  match bindings with
  | [] => Ok validated
  | binding :: bindings =>
      if (MAX_IDENTITY_BYTES <? str_len (mb_credential_ref binding))%Z
         || (MAX_IDENTITY_BYTES <? str_len (mb_provider_account_id binding))%Z
         || negb (valid_provider_purpose (mb_provider binding) (mb_purpose binding))
      then Err InvalidBinding
      else
        let? credential_ref := map_err (λ _, InvalidBinding) (CredentialRef_new (mb_credential_ref binding)) in
        let? provider_account_id := map_err (λ _, InvalidBinding) (CloudResourceId_new (mb_provider_account_id binding)) in
        let? file := map_err (λ _, InvalidBinding) (validate_locator (mb_file binding)) in
        if bool_decide (file = revision_key_file) then Err CredentialFileConflictsRevisionKey
        else
          let b := mkValidated credential_ref provider_account_id (mb_provider binding) (mb_purpose binding) file in
          if bool_decide (binding_identity b ∈ map binding_identity validated) then Err DuplicateBinding
          else validate_bindings revision_key_file bindings (validated ++ [b])
  end.

Definition from_config (config : MountedCredentialConfig) :
    prog fs_call (result (option MountedCredentialResolver) CredentialConfigError) :=
  if negb (mc_enabled config) then Ret (Ok None)
  else
    try? root := ok_or MissingRootDirectory (mc_root_directory config) in
    try? root := validate_absolute_root root in
    try? key_file := ok_or MissingRevisionKey (mc_revision_key_file config) in
    try? key_file := map_err (λ _, InvalidRevisionKey) (validate_locator key_file) in
    if (zlen (mc_bindings config) =? 0)%Z then Ret (Err NoBindings)
    else if (MAX_BINDINGS <? zlen (mc_bindings config))%Z then Ret (Err TooManyBindings)
    else
      try? bindings := validate_bindings key_file (mc_bindings config) [] in
      root <~ OpenRoot root ;;
      try? root := ok_or InvalidRootDirectory root in
      metadata <~ RootMetadata root ;;
      try? metadata := ok_or InvalidRootDirectory metadata in
      if writable_by_others (fm_mode metadata) then Ret (Err InvalidRootDirectory)
      else
        pbind (read_regular_file root key_file REVISION_KEY_BYTES) (λ key,
          try? key := map_err (λ _, InvalidRevisionKey) key in
          if negb (str_len (rf_material key) =? REVISION_KEY_BYTES)%Z || weak_key (rf_material key)
          then Ret (Err InvalidRevisionKey)
          else Ret (Ok (Some (mkResolver root (rf_material key) (rf_identity key) bindings)))).

Definition in_scope (request : ResolveCredentialRequest) (b : ValidatedBinding) : bool :=
  String.eqb (vb_provider_account_id b) (rq_provider_account_id request)
  && bool_decide (vb_provider b = rq_provider request) && bool_decide (vb_purpose b = rq_purpose request).

Definition resolve (self : MountedCredentialResolver) (request : ResolveCredentialRequest) :
    prog fs_call (result ResolvedCredential CredentialResolutionError) :=
  let matching_ref := filter (λ b, vb_credential_ref b = rq_credential_ref request) (mr_bindings self) in
  if (zlen matching_ref =? 0)%Z then Ret (Err ReferenceNotFound)
  else
    try? binding := ok_or ScopeMismatch (find (in_scope request) matching_ref) in
    pbind (read_regular_file (mr_root self) (vb_file binding) MAX_CREDENTIAL_BYTES) (λ credential_file,
      try? credential_file := credential_file in
      let material := rf_material credential_file in
      if bool_decide (rf_identity credential_file = mr_revision_key_identity self) then Ret (Err RevisionKeyConflict)
      else if is_empty material then Ret (Err EmptyFile)
      else if String.eqb material (mr_revision_key self) then Ret (Err RevisionKeyConflict)
      else Ret (Ok (mkResolved material (revision (mr_revision_key self) request material)
                      (rf_identity credential_file)))).
End resolver.

(** [CredentialAuthorityError] has one value. *)
Inductive CredentialAuthorityError := AuthorityConflict.
Definition same_authority (a b : ResolvedCredential) : bool :=
  bool_decide (rv_file_identity a = rv_file_identity b) || String.eqb (rv_material a) (rv_material b).
Fixpoint ensure_distinct_authorities (authorities : list ResolvedCredential) :
    result () CredentialAuthorityError :=
  match authorities with
  | [] => Ok tt
  | authority :: rest =>
      if existsb (same_authority authority) rest then Err AuthorityConflict else ensure_distinct_authorities rest
  end.

(** ** What a configuration admits *)

(** A name beneath the root: at least one component, none of which leaves it. *)
Definition beneath (path : PathBuf) : Prop :=
  path ≠ [] ∧ Forall (λ name, name ≠ "" ∧ name ≠ "." ∧ name ≠ "..") path.

Record bindings_ok (key_file : PathBuf) (bindings : list ValidatedBinding) : Prop := {
  bo_distinct : NoDup (map binding_identity bindings);
  bo_purpose : Forall (λ b, valid_provider_purpose (vb_provider b) (vb_purpose b) = true) bindings;
  bo_file : Forall (λ b, beneath (vb_file b) ∧ vb_file b ≠ key_file) bindings;
  bo_refs : Forall (λ b, CredentialRef_validate (vb_credential_ref b) = Ok tt ∧
                         CloudResourceId_validate (vb_provider_account_id b) = Ok tt) bindings;
}.

Lemma str_split_nonempty c s : str_split c s ≠ [].
Proof. destruct s as [|d s]; simpl; [done|]. destruct (Ascii.eqb c d); [done|]. by destruct (str_split c s). Qed.

Lemma components_named value : Forall (λ name, name ≠ "") (components value).
Proof.
  unfold components. destruct (str_split slash value) as [|first rest]; [constructor|].
  apply Forall_app. split.
  - destruct first; simpl; repeat constructor. done.
  - apply Forall_forall. intros x Hx. apply list_elem_of_filter in Hx as [Hx _].
    destruct x; [done|]. done.
Qed.
Lemma components_some value : value ≠ "" → is_absolute value = false → components value ≠ [].
Proof.
  intros Hne Ha. destruct value as [|c value]; [done|]. unfold components. cbn [str_split].
  assert (Ascii.eqb slash c = false) as -> by done.
  destruct (str_split slash value) as [|x xs]; done.
Qed.
Lemma validate_locator_Ok value path : validate_locator value = Ok path → beneath path.
Proof.
  unfold validate_locator, path_invalid. destruct (_ || _) eqn:E; [done|]. intros [= <-].
  apply orb_false_iff in E as [E Hn%negb_false_iff]. apply orb_false_iff in E as [E Ha].
  repeat (apply orb_false_iff in E as [E ?]). split.
  - apply components_some; [by destruct value|done].
  - rewrite forallb_forall in Hn. apply Forall_forall. intros x Hx.
    pose proof (proj1 (Forall_forall _ _) (components_named value) x Hx) as Hxe. cbv beta in Hxe.
    apply list_elem_of_In, Hn in Hx. unfold normal in Hx.
    apply andb_true_iff in Hx as [H1%negb_true_iff H2%negb_true_iff].
    apply String.eqb_neq in H1. by apply String.eqb_neq in H2.
Qed.

Lemma validate_bindings_ok key_file bindings validated validated' :
  bindings_ok key_file validated → validate_bindings key_file bindings validated = Ok validated' →
  bindings_ok key_file validated' ∧ length validated' = length validated + length bindings.
Proof.
  revert validated. induction bindings as [|b bs IH]; intros validated Hv; cbn [validate_bindings].
  { intros [= <-]. split; [done|]. simpl. lia. }
  destruct (_ || _) eqn:E; [done|]. apply orb_false_iff in E as [_ Hp%negb_false_iff].
  destruct (CredentialRef_new _) as [ref|] eqn:Hr; [|done]. destruct (CloudResourceId_new _) as [account|] eqn:Ha; [|done].
  destruct (validate_locator _) as [file|] eqn:Hf; [|done]. cbn [map_err].
  case_bool_decide as Hk; [done|]. case_bool_decide as Hd; [done|]. intros Hrest.
  apply IH in Hrest as [Hok Hl]; [|].
  - split; [done|]. rewrite Hl, length_app. simpl. lia.
  - destruct Hv as [Hvd Hvp Hvf Hvr].
    split; [|apply Forall_app; split; [done|]; apply Forall_singleton; cbn..].
    + rewrite map_app. apply NoDup_app. split_and!; [done| |apply NoDup_singleton].
      intros x Hx ->%list_elem_of_singleton. done.
    + done.
    + split; [by eapply validate_locator_Ok|done].
    + unfold CredentialRef_validate, CloudResourceId_validate.
      pose proof Hr as Hr'. unfold CredentialRef_new in Hr'. destruct (_ || _) in Hr'; [done|]. injection Hr' as <-.
      pose proof Ha as Ha'. unfold CloudResourceId_new in Ha'. destruct (text_invalid _ _) in Ha'; [done|].
      injection Ha' as <-. by rewrite Hr, Ha.
Qed.

(** ** What a resolved credential is evidence of *)

Abbreviation fs_event := (event fs_call).

(** The metadata before and after the read describe one regular file that others
    cannot write, of exactly the size that was read. *)
Record stable_file (max : Z) (before after : Metadata) (material : string) : Prop := {
  sf_regular : fm_is_file before = true;
  sf_mode : writable_by_others (fm_mode before) = false;
  sf_identity : fm_dev after = fm_dev before ∧ fm_ino after = fm_ino before;
  sf_size : fm_len before = str_len material ∧ fm_len after = str_len material;
  sf_bound : (str_len material <= max)%Z;
}.
Definition file_read (root : nat) (path : PathBuf) (max : Z) (file : nat) (before after : Metadata)
    (material : string) : list fs_event :=
  [Ev (OpenFile root path) (Some file); Ev (FileMetadata file) (Some before);
   Ev (ReadUpTo file (max + 1)) (Some material); Ev (FileMetadata file) (Some after)].

Lemma file_read_exec root path max t f t' :
  exec traced (read_regular_file root path max) t (Ok f) t' →
  ∃ file before after, t' = t ++ file_read root path max file before after (rf_material f) ∧
    stable_file max before after (rf_material f) ∧
    rf_identity f = mkFileIdentity (fm_dev before) (fm_ino before).
Proof.
  intros [[file|] He]%traced_step; [|by destruct He]. cbn [ok_or] in He.
  apply traced_step in He as [[before|] He]; [|by destruct He]. cbn [ok_or] in He.
  destruct (fm_is_file before) eqn:Hf; [|by destruct He]. cbn [negb] in He.
  destruct (writable_by_others _) eqn:Hw; [by destruct He|].
  destruct (Z.ltb_spec max (fm_len before)) as [|Hl]; [by destruct He|].
  apply traced_step in He as [[material|] He]; [|by destruct He]. cbn [ok_or] in He.
  destruct (Z.ltb_spec max (str_len material)) as [|Hm]; [by destruct He|].
  apply traced_step in He as [[after|] He]; [|by destruct He]. cbn [ok_or] in He.
  destruct (_ || _) eqn:Ei; [by destruct He|]. apply orb_false_iff in Ei as [Hd%negb_false_iff%Z.eqb_eq Hi%negb_false_iff%Z.eqb_eq].
  destruct (_ || _) eqn:El in He; [by destruct He|]. apply orb_false_iff in El as [H1%negb_false_iff%Z.eqb_eq H2%negb_false_iff%Z.eqb_eq].
  destruct He as [[= ->] ->]. exists file, before, after. cbn [rf_material rf_identity]. rewrite <-!app_assoc.
  split_and!; [done| |done]. split; auto. lia.
Qed.

(** The files opened for a request are those that the operator bound to exactly
    its scope. *)
Definition bound_to (self : MountedCredentialResolver) (request : ResolveCredentialRequest) (b : ValidatedBinding) :
    Prop :=
  b ∈ mr_bindings self ∧ vb_credential_ref b = rq_credential_ref request ∧
  vb_provider_account_id b = rq_provider_account_id request ∧ vb_provider b = rq_provider request ∧
  vb_purpose b = rq_purpose request.

Lemma find_bound self request b :
  find (in_scope request) (filter (λ b, vb_credential_ref b = rq_credential_ref request) (mr_bindings self)) = Some b →
  bound_to self request b.
Proof.
  intros [Hin Hs]%find_some. apply list_elem_of_In, list_elem_of_filter in Hin as [Hr Hin].
  unfold in_scope in Hs. apply andb_true_iff in Hs as [Hs Hp%bool_decide_eq_true].
  apply andb_true_iff in Hs as [Ha%String.eqb_eq Hpr%bool_decide_eq_true]. by split_and!.
Qed.

(** A resolver made by [from_config]. *)
Definition configured_resolver (self : MountedCredentialResolver) : Prop :=
  ∃ config t t', exec traced (from_config config) t (Ok (Some self)) t'.

Lemma configured_bindings self :
  configured_resolver self →
  ∃ key_file, beneath key_file ∧ bindings_ok key_file (mr_bindings self) ∧
    (1 <= zlen (mr_bindings self) <= MAX_BINDINGS)%Z ∧
    str_len (mr_revision_key self) = REVISION_KEY_BYTES ∧ weak_key (mr_revision_key self) = false.
Proof.
  intros (config&t&t'&He). unfold from_config in He. destruct (negb _); [by destruct He|].
  destruct (mc_root_directory config); [|by destruct He]. cbn [ok_or] in He.
  destruct (validate_absolute_root _); [|by destruct He].
  destruct (mc_revision_key_file config); [|by destruct He]. cbn [ok_or] in He.
  destruct (validate_locator _) as [key_file|] eqn:Hk; [|by destruct He]. cbn [map_err] in He.
  destruct (Z.eqb_spec (zlen (mc_bindings config)) 0) as [|H0]; [by destruct He|].
  destruct (Z.ltb_spec MAX_BINDINGS (zlen (mc_bindings config))) as [|H1]; [by destruct He|].
  destruct (validate_bindings _ _ _) as [bindings|] eqn:Hb; [|by destruct He].
  apply traced_step in He as [[root|] He]; [|by destruct He]. cbn [ok_or] in He.
  apply traced_step in He as [[metadata|] He]; [|by destruct He]. cbn [ok_or] in He.
  destruct (writable_by_others _); [by destruct He|]. apply exec_bind in He as (key&s1&_&He).
  destruct key as [key|]; [|by destruct He]. cbn [map_err] in He.
  destruct (_ || _) eqn:Ek in He; [by destruct He|]. destruct He as [[= ->] _]. cbn [mr_bindings mr_revision_key].
  apply orb_false_iff in Ek as [Hl%negb_false_iff%Z.eqb_eq Hw].
  apply validate_bindings_ok in Hb as [Hok Hn]; [|split; constructor].
  exists key_file. split_and!; [by eapply validate_locator_Ok|done| | |done|done].
  - unfold zlen in *. simpl in Hn. lia.
  - unfold zlen in *. simpl in Hn. lia.
Qed.

Lemma bound_unique self request b c :
  configured_resolver self → bound_to self request b → bound_to self request c → b = c.
Proof.
  intros (kf&_&[Hd _ _ _]&_)%configured_bindings (Hb&B1&B2&B3&B4) (Hc&C1&C2&C3&C4).
  apply list_elem_of_lookup_1 in Hb as [i Hi]. apply list_elem_of_lookup_1 in Hc as [j Hj].
  assert (i = j) as <-; [|by simplify_eq].
  eapply (NoDup_lookup _ i j (binding_identity b) Hd); rewrite list_lookup_fmap; [by rewrite Hi|].
  rewrite Hj. cbn. unfold binding_identity. congruence.
Qed.

Definition request_frameable (request : ResolveCredentialRequest) : Prop :=
  frameable (rq_provider_account_id request) ∧ frameable (rq_credential_ref request).

(** The revision stands for the whole scope and the material: its message
    determines them. *)
Lemma revision_message_inj request request' material material' :
  request_frameable request → request_frameable request' → frameable material → frameable material' →
  revision_message request material = revision_message request' material' →
  request = request' ∧ material = material'.
Proof.
  intros [Ha Hr] [Ha' Hr'] Hm Hm' He. unfold revision_message in He. apply frames_inj in He; [|done|..].
  - injection He as H1 H2 H3 H4 H5. destruct request as [a p u c], request' as [a' p' u' c']. cbn in *. subst.
    split; [|done]. f_equal; [by destruct p, p'|by destruct u, u'].
  - repeat (constructor; [done || (unfold frameable; destruct (rq_provider request), (rq_purpose request); by vm_compute)|]).
    constructor.
  - repeat (constructor; [done || (unfold frameable; destruct (rq_provider request'), (rq_purpose request'); by vm_compute)|]).
    constructor.
Qed.

(** C23.  A credential is resolved only from the file bound to the exact scope of
    the request.  For a resolver made from a configuration, whatever the file
    system answers: nothing is opened unless a binding has the reference, account,
    provider and purpose of the request, and there is at most one.  A credential
    comes from one read of that binding's file, beneath the root and not the key
    file: a regular file that others cannot write, unchanged in identity and size
    while it was read, of at most 16 KiB; it is not empty, neither the revision
    key nor its file, and its revision is the keyed code of scope and material. *)
Theorem credential_resolution_authentic `{Crypto} (hex_encode : string → string)
    (self : MountedCredentialResolver) (request : ResolveCredentialRequest)
    (r : result ResolvedCredential CredentialResolutionError) (trace : list fs_event) :
  configured_resolver self → exec traced (resolve hex_encode self request) [] r trace →
  (∀ b c, bound_to self request b → bound_to self request c → b = c) ∧
  match r with
  | Ok credential => ∃ b file before after, bound_to self request b ∧ beneath (vb_file b) ∧
      trace = file_read (mr_root self) (vb_file b) MAX_CREDENTIAL_BYTES file before after (rv_material credential) ∧
      stable_file MAX_CREDENTIAL_BYTES before after (rv_material credential) ∧
      rv_material credential ≠ "" ∧ rv_material credential ≠ mr_revision_key self ∧
      mkFileIdentity (fm_dev before) (fm_ino before) ≠ mr_revision_key_identity self ∧
      rv_revision credential = revision hex_encode (mr_revision_key self) request (rv_material credential)
  | Err _ => (∀ b, ¬ bound_to self request b) → trace = []
  end.
Proof.
  intros Hc. split; [intros b c; by eapply bound_unique|]. revert H0. unfold resolve.
  destruct (_ =? 0)%Z; [by intros [-> ->]|].
  destruct (find _ _) as [b|] eqn:Hb; [|by intros [-> ->]]. apply find_bound in Hb. cbn [ok_or].
  intros (f&s1&He&Hk)%exec_bind. assert (∀ X : Prop, (∀ b, ¬ bound_to self request b) → X) as Hno.
  { intros X Hn. by destruct (Hn b). }
  destruct f as [f|]; [|destruct Hk as [-> _]; apply Hno].
  apply file_read_exec in He as (file&before&after&->&Hs&Hid). rewrite Hid in Hk.
  case_bool_decide as Hki; [destruct Hk as [-> _]; apply Hno|].
  destruct (is_empty _) eqn:Hem; [destruct Hk as [-> _]; apply Hno|].
  destruct (String.eqb_spec (rf_material f) (mr_revision_key self)) as [|Hkey]; [destruct Hk as [-> _]; apply Hno|].
  destruct Hk as [-> ->]. cbn [rv_material rv_revision]. exists b, file, before, after. split_and!; try done.
  - apply configured_bindings in Hc as (kf&_&[_ _ Hf _]&_). destruct Hb as [Hin _].
    by apply (proj1 (Forall_forall _ _) Hf) in Hin as [? _].
  - by destruct (rf_material f).
Qed.

(** A file system with the key and one token. *)
Definition demo_key : string := "0123456789abcdef0123456789ABCDEF".
Definition demo_binding : MountedCredentialBinding :=
  mkBinding "dns-token" "account-1" Cloudflare CloudflareApiTokenPurpose "tokens/dns".
Definition demo_config : MountedCredentialConfig :=
  mkMountedConfig true (Some "/etc/edgion/credentials") (Some "revision.key") [demo_binding].
Definition demo_metadata (file : nat) : Metadata :=
  mkFileMetadata true 256 1 (Z.of_nat file) (if Nat.eqb file 1 then 32 else 6).
Definition demo_fs (X : Type) (e : fs_call X) (t : list fs_event) : X * list fs_event :=
  let x := match e in fs_call X return X with
           | OpenRoot _ => Some 0
           | RootMetadata _ => Some (mkFileMetadata false 448 1 0 4096)
           | OpenFile _ path =>
               if bool_decide (path = ["revision.key"]) then Some 1
               else if bool_decide (path = ["tokens"; "dns"]) then Some 2 else None
           | FileMetadata file => Some (demo_metadata file)
           | ReadUpTo file _ => Some (if Nat.eqb file 1 then demo_key else "secret")
           end in (x, t ++ [Ev e x]).
Lemma demo_fs_traced X (e : fs_call X) t x t' : demo_fs X e t = (x, t') → traced X e t x t'.
Proof. by intros [= <- <-]. Qed.
Definition demo_resolver : MountedCredentialResolver :=
  mkResolver 0 demo_key (mkFileIdentity 1 1)
    [mkValidated "dns-token" "account-1" Cloudflare CloudflareApiTokenPurpose ["tokens"; "dns"]].
Lemma demo_configured : configured_resolver demo_resolver.
Proof.
  exists demo_config, [], (run demo_fs (from_config demo_config) []).2.
  apply (run_exec _ demo_fs); [exact demo_fs_traced|]. vm_compute. reflexivity.
Qed.
Definition demo_request : ResolveCredentialRequest :=
  mkResolve "account-1" Cloudflare CloudflareApiTokenPurpose "dns-token".
Definition demo_mac : Crypto := {|
  hmac_sha256 := λ key message, key +:+ message;
  sha256_b64 := λ s, s; b64_encode := λ s, s; b64_decode := Some |}.
Definition demo_resolution := run demo_fs (@resolve demo_mac (λ s, s) demo_resolver demo_request) [].

Lemma credential_resolution_authentic_witness :
  ∃ credential, demo_resolution.1 = Ok credential ∧ rv_material credential = "secret" ∧
  ∃ file before after, demo_resolution.2 = file_read 0 ["tokens"; "dns"] MAX_CREDENTIAL_BYTES file before after "secret".
Proof.
  assert (∃ c, demo_resolution.1 = Ok c ∧ rv_material c = "secret") as (c&Hok&Hm)
    by (eexists; split; vm_compute; reflexivity).
  exists c. split; [exact Hok|]. split; [exact Hm|].
  destruct (@credential_resolution_authentic demo_mac (λ s, s) demo_resolver demo_request demo_resolution.1
    demo_resolution.2 demo_configured) as [_ Hr].
  - apply (run_exec _ demo_fs); [exact demo_fs_traced|]. apply surjective_pairing.
  - rewrite Hok in Hr. destruct Hr as (b&file&before&after&[Hb _]&_&Ht&_). exists file, before, after.
    rewrite Hm in Ht. apply list_elem_of_singleton in Hb. subst b. exact Ht.
Defined.
