(* ===== verification/Admission.v ===== *)
(** * Admission: the concurrency limits of the DNS services

    The DNS services of [crates/center-integration-cloudflare/src] and
    [crates/center-integration-route53/src] admit an operation in the same way: a
    semaphore per account, kept in a map of weak references that is pruned when a
    new account comes, and then a semaphore of the service.  An operation may leave
    at any await (it returns, its deadline passes, its caller goes away), and drops
    what it holds. *)

From Stdlib Require Import Lia.
From S2P Require Import Prelude.

Definition MAX_TRACKED_ACCOUNTS : nat := N.to_nat 1024.

(** [tokio::sync::Semaphore], with the documented behaviour that is used. *)
Class Semaphores (Sem : Type) := {
  sem_new : nat → Sem;
  sem_try_acquire : Sem → option Sem;
  sem_release : Sem → Sem;
}.
Class SemaphoreLaws (Sem : Type) `{Semaphores Sem} := {
  permits : Sem → nat;
  permits_new n : permits (sem_new n) = n;
  permits_acquire s s' : sem_try_acquire s = Some s' → permits s = S (permits s');
  permits_ready s : 0 < permits s → is_Some (sem_try_acquire s);
  permits_release s : permits (sem_release s) = S (permits s);
}.

Section admission.
Context `{Semaphores Sem} (per_account_concurrency global_concurrency : nat).

(** An allocation behind [Arc]s and [Weak]s; weak references alone do not keep it. *)
Record shared := mkShared {
  sh_strong : nat;
  sh_sem : Sem;
}.
Record limits := mkLimits {
  lm_accounts : gmap string nat;             (* Mutex<HashMap<_, Weak<Semaphore>>> *)
  lm_heap : gmap nat shared;
  lm_global : Sem;
  lm_next : nat;                             (* the next allocation *)
}.
Definition initial_limits : limits := mkLimits ∅ ∅ (sem_new global_concurrency) 0.

Definition alive (l : limits) (id : nat) : bool :=
  match lm_heap l !! id with Some s => Nat.ltb 0 (sh_strong s) | None => false end.
Definition with_heap (l : limits) (heap : gmap nat shared) : limits :=
  mkLimits (lm_accounts l) heap (lm_global l) (lm_next l).
Definition with_strong (f : nat → nat) (id : nat) (l : limits) : limits :=
  with_heap l (alter (λ s, mkShared (f (sh_strong s)) (sh_sem s)) id (lm_heap l)).
Definition with_sem (f : Sem → Sem) (id : nat) (l : limits) : limits :=
  with_heap l (alter (λ s, mkShared (sh_strong s) (f (sh_sem s))) id (lm_heap l)).
Definition with_global (l : limits) (global : Sem) : limits :=
  mkLimits (lm_accounts l) (lm_heap l) global (lm_next l).

(** [Weak::upgrade]. *)
Definition upgrade (l : limits) (id : nat) : option limits :=
  if alive l id then Some (with_strong S id l) else None.

(** One critical section.  Its lock is never poisoned: nothing in it panics. *)
Definition account_semaphore (account_id : string) (l : limits) : option nat * limits :=
  match lm_accounts l !! account_id ≫= λ id, (id,.) <$> upgrade l id with
  | Some (id, l) => (Some id, l)
  | None =>
      let accounts := filter (λ entry, alive l entry.2 = true) (lm_accounts l) in
      if Nat.leb MAX_TRACKED_ACCOUNTS (size accounts)
      then (None, mkLimits accounts (lm_heap l) (lm_global l) (lm_next l))
      else
        let id := lm_next l in
        (Some id, mkLimits (<[account_id := id]> accounts)
                    (<[id := mkShared 1 (sem_new per_account_concurrency)]> (lm_heap l)) (lm_global l) (S id))
  end.

(** ** Operations

    Where an operation stands.  The reference to the account's semaphore moves
    into the pending acquisition and then into the permit. *)
Inductive operation :=
| Idle
| AwaitsAccount (account_id : string) (id : nat)
| AwaitsGlobal (account_id : string) (id : nat)      (* holds the account's permit *)
| Serving (account_id : string) (id : nat).         (* holds both *)

Inductive action := Enter (account_id : string) | GrantAccount | GrantGlobal | Leave.

Definition acquire_account (id : nat) (l : limits) : option limits :=
  s ← lm_heap l !! id; _ ← sem_try_acquire (sh_sem s);
  Some (with_sem (λ s, default s (sem_try_acquire s)) id l).
Definition acquire_global (l : limits) : option limits := with_global l <$> sem_try_acquire (lm_global l).
Definition drop_account_permit (id : nat) (l : limits) : limits := with_sem sem_release id l.
Definition drop_global_permit (l : limits) : limits := with_global l (sem_release (lm_global l)).
Definition drop_arc (id : nat) (l : limits) : limits := with_strong pred id l.

Definition act (a : action) (o : operation) (l : limits) : option (operation * limits) :=
  match a, o with
  | Enter account_id, Idle =>
      let '(id, l) := account_semaphore account_id l in
      Some (match id with Some id => AwaitsAccount account_id id | None => Idle end, l)
  | GrantAccount, AwaitsAccount account_id id => (AwaitsGlobal account_id id,.) <$> acquire_account id l
  | GrantGlobal, AwaitsGlobal account_id id => (Serving account_id id,.) <$> acquire_global l
  | Leave, AwaitsAccount _ id => Some (Idle, drop_arc id l)
  | Leave, AwaitsGlobal _ id => Some (Idle, drop_arc id (drop_account_permit id l))
  | Leave, Serving _ id => Some (Idle, drop_arc id (drop_account_permit id (drop_global_permit l)))
  | _, _ => None
  end.

Definition admission_step (c c' : list operation * limits) : Prop :=
  ∃ i o a o', c.1 !! i = Some o ∧ act a o c.2 = Some (o', c'.2) ∧ c'.1 = <[i := o']> c.1.

(** ** Counting operations *)

Fixpoint count (P : operation → bool) (operations : list operation) : nat :=
  match operations with [] => 0 | o :: operations => Nat.b2n (P o) + count P operations end.
Definition uses (id : nat) (o : operation) : bool :=
  match o with Idle => false | AwaitsAccount _ i | AwaitsGlobal _ i | Serving _ i => Nat.eqb i id end.
Definition holds_sem (id : nat) (o : operation) : bool :=
  match o with AwaitsGlobal _ i | Serving _ i => Nat.eqb i id | _ => false end.
Definition holds_account (account_id : string) (o : operation) : bool :=
  match o with AwaitsGlobal a _ | Serving a _ => String.eqb a account_id | _ => false end.
Definition admitted (o : operation) : bool := match o with Serving _ _ => true | _ => false end.
Definition idle (o : operation) : bool := match o with Idle => true | _ => false end.

Lemma count_update P os i o o' :
  os !! i = Some o → count P (<[i := o']> os) + Nat.b2n (P o) = count P os + Nat.b2n (P o').
Proof.
  revert i. induction os as [|x os IH]; intros [|i]; simpl; [done..| |].
  - intros [= ->]. lia.
  - intros Hi. pose proof (IH i Hi). lia.
Qed.
Lemma count_pos P os i o : os !! i = Some o → P o = true → 0 < count P os.
Proof.
  revert i. induction os as [|x os IH]; intros [|i]; simpl; [done..| |].
  - by intros [= ->] ->; simpl; lia.
  - intros Hi Hp. pose proof (IH i Hi Hp). lia.
Qed.
Lemma count_le (P Q : operation → bool) os :
  (∀ i o, os !! i = Some o → P o = true → Q o = true) → count P os <= count Q os.
Proof.
  induction os as [|x os IH]; intros Hpq; simpl; [done|].
  assert (count P os <= count Q os) by (apply IH; intros i; apply (Hpq (S i))).
  pose proof (Hpq 0 x eq_refl) as Hx. destruct (P x), (Q x); simpl; (lia || by discriminate (Hx eq_refl)).
Qed.
Lemma count_none P os : (∀ i o, os !! i = Some o → P o = false) → count P os = 0.
Proof.
  induction os as [|x os IH]; intros Hp; simpl; [done|]. rewrite (Hp 0 x eq_refl).
  apply IH. intros i. apply (Hp (S i)).
Qed.

(** ** The invariant *)

Context `{!SemaphoreLaws Sem}.

Definition slot (o : operation) : option (string * nat) :=
  match o with Idle => None | AwaitsAccount a id | AwaitsGlobal a id | Serving a id => Some (a, id) end.

Record admission_ok (os : list operation) (l : limits) : Prop := {
  (* a live semaphore is the one that the map has for the account *)
  ok_entry : ∀ i o a id, os !! i = Some o → slot o = Some (a, id) → lm_accounts l !! a = Some id;
  ok_distinct : ∀ a b id, lm_accounts l !! a = Some id → lm_accounts l !! b = Some id → a = b;
  ok_heap : ∀ a id, lm_accounts l !! a = Some id → is_Some (lm_heap l !! id);
  ok_fresh : ∀ id, is_Some (lm_heap l !! id) → id < lm_next l;
  ok_strong : ∀ id s, lm_heap l !! id = Some s → sh_strong s = count (uses id) os;
  ok_permits : ∀ id s, lm_heap l !! id = Some s →
    permits (sh_sem s) + count (holds_sem id) os = per_account_concurrency;
  ok_global : permits (lm_global l) + count admitted os = global_concurrency;
  ok_tracked : size (lm_accounts l) <= MAX_TRACKED_ACCOUNTS;
}.

Lemma slot_uses o a id : slot o = Some (a, id) → uses id o = true.
Proof. destruct o; simpl; intros; simplify_eq; by rewrite Nat.eqb_refl. Qed.

(** An operation's semaphore is on the heap. *)
Lemma slot_heap os l i o a id :
  admission_ok os l → os !! i = Some o → slot o = Some (a, id) →
  ∃ s, lm_heap l !! id = Some s ∧ 0 < sh_strong s.
Proof.
  intros Ok Hi Ho. destruct (ok_heap _ _ Ok a id) as [s Hs]; [by eapply ok_entry|]. exists s. split; [done|].
  rewrite (ok_strong _ _ Ok _ _ Hs). eapply count_pos; [done|by eapply slot_uses].
Qed.

(** A change of one allocation and of one operation that keeps its slot or gives
    it up. *)
Lemma ok_alter os l i o o' id f global :
  admission_ok os l → os !! i = Some o → (∃ a, slot o = Some (a, id)) → slot o' = slot o ∨ slot o' = None →
  (∀ s, lm_heap l !! id = Some s → sh_strong (f s) + Nat.b2n (uses id o) = sh_strong s + Nat.b2n (uses id o') ∧
     permits (sh_sem (f s)) + Nat.b2n (holds_sem id o') = permits (sh_sem s) + Nat.b2n (holds_sem id o)) →
  permits global + Nat.b2n (admitted o') = permits (lm_global l) + Nat.b2n (admitted o) →
  admission_ok (<[i := o']> os) (mkLimits (lm_accounts l) (alter f id (lm_heap l)) global (lm_next l)).
Proof.
  intros Ok Hi [a Ha] Hs Hf Hg.
  assert (∀ j, j ≠ id → uses j o = false ∧ uses j o' = false ∧ holds_sem j o = false ∧ holds_sem j o' = false) as Hoth.
  { intros j Hj. assert (∀ x, slot x = Some (a, id) ∨ slot x = None → uses j x = false ∧ holds_sem j x = false) as Hx.
    { intros [| | |]; simpl; intros [?|?]; simplify_eq; try done; by rewrite (proj2 (Nat.eqb_neq id j)). }
    destruct (Hx o) as [-> ->]; [by left|]. destruct (Hx o') as [-> ->]; [|done].
    destruct Hs as [->| ->]; auto. }
  pose proof (λ P, count_update P os i o o' Hi) as Hc. split; cbn [lm_accounts lm_heap lm_global lm_next].
  - intros j x b jd Hj Hx. destruct (decide (i = j)) as [<-|]; [|].
    + rewrite list_lookup_insert_eq in Hj by by eapply lookup_lt_Some. simplify_eq.
      destruct Hs as [Hs|Hs]; [|congruence]. eapply (ok_entry _ _ Ok i o); [done|congruence].
    + rewrite list_lookup_insert_ne in Hj by done. by eapply ok_entry.
  - apply Ok.
  - intros b jd Hb. rewrite lookup_alter. case_decide; subst; [apply fmap_is_Some|]; by eapply ok_heap.
  - intros jd. rewrite lookup_alter. case_decide; subst; [rewrite fmap_is_Some|]; by eapply ok_fresh.
  - intros jd s. rewrite lookup_alter. case_decide as Hj.
    + subst jd. intros (s0&Hs0&->)%fmap_Some. destruct (Hf s0 Hs0) as [H1 _].
      pose proof (ok_strong _ _ Ok _ _ Hs0). pose proof (Hc (uses id)). lia.
    + intros Hs0. destruct (Hoth jd) as (E1&E2&_&_); [done|]. pose proof (ok_strong _ _ Ok _ _ Hs0).
      pose proof (Hc (uses jd)). rewrite E1, E2 in *. lia.
  - intros jd s. rewrite lookup_alter. case_decide as Hj.
    + subst jd. intros (s0&Hs0&->)%fmap_Some. destruct (Hf s0 Hs0) as [_ H1].
      pose proof (ok_permits _ _ Ok _ _ Hs0). pose proof (Hc (holds_sem id)). lia.
    + intros Hs0. destruct (Hoth jd) as (_&_&E1&E2); [done|]. pose proof (ok_permits _ _ Ok _ _ Hs0).
      pose proof (Hc (holds_sem jd)). rewrite E1, E2 in *. lia.
  - pose proof (ok_global _ _ Ok). pose proof (Hc admitted). lia.
  - by apply ok_tracked in Ok.
Qed.

(** Pruning keeps the entries that are in use. *)
Lemma ok_retain os l :
  admission_ok os l →
  admission_ok os (mkLimits (filter (λ entry, alive l entry.2 = true) (lm_accounts l)) (lm_heap l) (lm_global l) (lm_next l)).
Proof.
  intros Ok. split; cbn [lm_accounts lm_heap lm_global lm_next]; try apply Ok.
  - intros i o a id Hi Ho. apply map_lookup_filter_Some. split; [by eapply ok_entry|].
    destruct (slot_heap _ _ _ _ _ _ Ok Hi Ho) as (s&Hs&Hp). unfold alive. cbn [snd]. rewrite Hs. by apply Nat.ltb_lt.
  - intros a b id [Ha _]%map_lookup_filter_Some [Hb _]%map_lookup_filter_Some. by eapply ok_distinct.
  - intros a id [Ha _]%map_lookup_filter_Some. by eapply ok_heap.
  - etrans; [apply map_size_filter|apply Ok].
Qed.

Lemma uses_fresh os l i o id : admission_ok os l → lm_next l <= id → os !! i = Some o → uses id o = false.
Proof.
  intros Ok Hid Hi. destruct (slot o) as [[a jd]|] eqn:Ho; [|by destruct o].
  destruct (slot_heap _ _ _ _ _ _ Ok Hi Ho) as (s&Hs&_).
  pose proof (ok_fresh _ _ Ok jd (mk_is_Some _ _ Hs)).
  destruct o; simpl in *; simplify_eq; apply Nat.eqb_neq; lia.
Qed.
Lemma holds_uses id o : holds_sem id o = true → uses id o = true.
Proof. by destruct o. Qed.

(** An operation that enters with a new allocation. *)
Lemma ok_insert os l i account_id :
  admission_ok os l → os !! i = Some Idle →
  (∀ id, lm_accounts l !! account_id = Some id → alive l id = false) →
  size (lm_accounts l) < MAX_TRACKED_ACCOUNTS →
  admission_ok (<[i := AwaitsAccount account_id (lm_next l)]> os)
    (mkLimits (<[account_id := lm_next l]> (lm_accounts l))
       (<[lm_next l := mkShared 1 (sem_new per_account_concurrency)]> (lm_heap l)) (lm_global l) (S (lm_next l))).
Proof.
  intros Ok Hi Hdead Hs. pose proof (λ P, count_update P os i Idle (AwaitsAccount account_id (lm_next l)) Hi) as Hc.
  assert (count (uses (lm_next l)) os = 0 ∧ count (holds_sem (lm_next l)) os = 0) as [Hu Hh].
  { split; apply count_none; intros j o Hj; pose proof (uses_fresh _ _ _ _ _ Ok (Nat.le_refl _) Hj) as Hf; [done|].
    destruct (holds_sem _ o) eqn:E; [|done]. apply holds_uses in E. congruence. }
  split; cbn [lm_accounts lm_heap lm_global lm_next].
  - intros j o a id Hj Ho. destruct (decide (i = j)) as [<-|].
    + rewrite list_lookup_insert_eq in Hj by by eapply lookup_lt_Some. simplify_eq. cbn [slot] in Ho. simplify_eq.
      apply lookup_insert_eq.
    + rewrite list_lookup_insert_ne in Hj by done. rewrite lookup_insert_ne; [by eapply ok_entry|].
      intros ->. pose proof (ok_entry _ _ Ok _ _ _ _ Hj Ho) as Ha. pose proof (Hdead _ Ha) as Hd.
      destruct (slot_heap _ _ _ _ _ _ Ok Hj Ho) as (s&Hs'&Hp). unfold alive in Hd. rewrite Hs' in Hd.
      apply Nat.ltb_ge in Hd. lia.
  - assert (∀ a, lm_accounts l !! a ≠ Some (lm_next l)) as Hnew.
    { intros a Ha. pose proof (ok_fresh _ _ Ok _ (ok_heap _ _ Ok _ _ Ha)). lia. }
    intros a b id. rewrite !lookup_insert. do 2 case_decide; intros Ha Hb; subst; simplify_eq; try done.
    + by destruct (Hnew b).
    + by destruct (Hnew a).
    + by eapply ok_distinct.
  - intros a id. rewrite lookup_insert. case_decide; intros Ha.
    + simplify_eq. rewrite lookup_insert_eq. by eexists.
    + apply lookup_insert_is_Some'. right. by eapply ok_heap.
  - intros id [<-|Hid]%lookup_insert_is_Some'; [lia|]. pose proof (ok_fresh _ _ Ok id Hid). lia.
  - intros id s. rewrite lookup_insert. case_decide as E; intros Hid; simplify_eq.
    + cbn [sh_strong]. pose proof (Hc (uses (lm_next l))) as Hcu. cbn [uses] in Hcu. rewrite Nat.eqb_refl in Hcu.
      simpl in Hcu. lia.
    + pose proof (Hc (uses id)) as Hcu. cbn [uses] in Hcu. rewrite (proj2 (Nat.eqb_neq _ _) E) in Hcu.
      simpl in Hcu. rewrite (ok_strong _ _ Ok _ _ Hid). lia.
  - intros id s. rewrite lookup_insert. case_decide as E; intros Hid; simplify_eq.
    + cbn [sh_sem]. rewrite permits_new. pose proof (Hc (holds_sem (lm_next l))) as Hcu. simpl in Hcu. lia.
    + pose proof (Hc (holds_sem id)) as Hcu. simpl in Hcu. pose proof (ok_permits _ _ Ok _ _ Hid). lia.
  - pose proof (ok_global _ _ Ok). pose proof (Hc admitted) as Hcu. simpl in Hcu. lia.
  - rewrite map_size_insert. destruct (lm_accounts l !! account_id); unfold Datatypes.id; lia.
Qed.

(** An operation that enters with the semaphore of others. *)
Lemma ok_upgrade os l i account_id id :
  admission_ok os l → os !! i = Some Idle → lm_accounts l !! account_id = Some id →
  admission_ok (<[i := AwaitsAccount account_id id]> os) (with_strong S id l).
Proof.
  intros Ok Hi Ha. pose proof (λ P, count_update P os i Idle (AwaitsAccount account_id id) Hi) as Hc.
  unfold with_strong, with_heap. split; cbn [lm_accounts lm_heap lm_global lm_next].
  - intros j o a jd Hj Ho. destruct (decide (i = j)) as [<-|].
    + rewrite list_lookup_insert_eq in Hj by by eapply lookup_lt_Some. simplify_eq. cbn [slot] in Ho. by simplify_eq.
    + rewrite list_lookup_insert_ne in Hj by done. by eapply ok_entry.
  - apply Ok.
  - intros b jd Hb. rewrite lookup_alter. case_decide; subst; [apply fmap_is_Some|]; by eapply ok_heap.
  - intros jd. rewrite lookup_alter. case_decide; subst; [rewrite fmap_is_Some|]; by eapply ok_fresh.
  - intros jd s. pose proof (Hc (uses jd)) as Hcu. cbn [uses] in Hcu. rewrite lookup_alter. case_decide as Hj.
    + subst jd. intros (s0&Hs0&->)%fmap_Some. rewrite Nat.eqb_refl in Hcu. simpl in *.
      pose proof (ok_strong _ _ Ok _ _ Hs0). lia.
    + intros Hs0. rewrite (proj2 (Nat.eqb_neq _ _) Hj) in Hcu. simpl in *. pose proof (ok_strong _ _ Ok _ _ Hs0). lia.
  - intros jd s. pose proof (Hc (holds_sem jd)) as Hcu. simpl in Hcu. rewrite lookup_alter. case_decide as Hj.
    + subst jd. intros (s0&Hs0&->)%fmap_Some. simpl. pose proof (ok_permits _ _ Ok _ _ Hs0). lia.
    + intros Hs0. pose proof (ok_permits _ _ Ok _ _ Hs0). lia.
  - pose proof (ok_global _ _ Ok). pose proof (Hc admitted) as Hcu. simpl in Hcu. lia.
  - apply Ok.
Qed.

Lemma upgrade_Some l id l' : upgrade l id = Some l' → l' = with_strong S id l.
Proof. unfold upgrade. destruct (alive l id); congruence. Qed.

Lemma enter_ok os l i account_id :
  admission_ok os l → os !! i = Some Idle →
  let '(id, l') := account_semaphore account_id l in
  admission_ok (<[i := match id with Some id => AwaitsAccount account_id id | None => Idle end]> os) l'.
Proof.
  intros Ok Hi. unfold account_semaphore. destruct (lm_accounts l !! account_id) as [id|] eqn:Ha; cbn [mbind option_bind].
  - destruct (upgrade l id) as [l'|] eqn:Hu; cbn [fmap option_fmap option_map].
    + apply upgrade_Some in Hu as ->. by apply ok_upgrade.
    + assert (alive l id = false) as Hd by (unfold upgrade in Hu; by destruct (alive l id)).
      apply ok_retain in Ok. destruct (Nat.leb_spec MAX_TRACKED_ACCOUNTS (size (filter (λ entry, alive l entry.2 = true) (lm_accounts l)))).
      * by rewrite list_insert_id.
      * apply (ok_insert _ _ i account_id Ok Hi); [|done]. intros jd [Hj Hl]%map_lookup_filter_Some.
        cbn [snd] in Hl. congruence.
  - apply ok_retain in Ok. destruct (Nat.leb_spec MAX_TRACKED_ACCOUNTS (size (filter (λ entry, alive l entry.2 = true) (lm_accounts l)))).
    + by rewrite list_insert_id.
    + apply (ok_insert _ _ i account_id Ok Hi); [|done]. intros jd [Hj _]%map_lookup_filter_Some. congruence.
Qed.

Lemma act_ok a os l i o o' l' :
  admission_ok os l → os !! i = Some o → act a o l = Some (o', l') → admission_ok (<[i := o']> os) l'.
Proof.
  intros Ok Hi. destruct a, o as [|b id|b id|b id]; cbn [act]; try done.
  - pose proof (enter_ok os l i account_id Ok Hi) as He. destruct (account_semaphore _ l) as [id l1].
    intros [= <- <-]. exact He.
  - intros (l1&Hl&[= -> ->])%fmap_Some. unfold acquire_account in Hl.
    destruct (lm_heap l !! id) as [s|] eqn:Hs; [|done]. simpl in Hl.
    destruct (sem_try_acquire (sh_sem s)) as [s'|] eqn:Ht; [|done]. injection Hl as <-.
    apply (ok_alter os l i (AwaitsAccount b id)); simpl; [done|done|by eexists|by left| |done].
    intros s0 Hs0. simplify_eq. rewrite Ht, Nat.eqb_refl. simpl. pose proof (permits_acquire _ _ Ht). lia.
  - intros (l1&Hl&[= -> ->])%fmap_Some. unfold acquire_global in Hl. apply fmap_Some in Hl as (g&Hg&->).
    unfold with_global. rewrite <-(alter_id (λ s, s) (lm_heap l) id) by done.
    apply (ok_alter os l i (AwaitsGlobal b id)); simpl; [done|done|by eexists|by left|done|].
    pose proof (permits_acquire _ _ Hg). lia.
  - intros [= <- <-].
    apply (ok_alter os l i (AwaitsAccount b id) Idle id _ (lm_global l)); simpl; [done|done|by eexists|by right| |done].
    intros s Hs. rewrite Nat.eqb_refl. simpl. split; [|lia].
    pose proof (slot_heap _ _ _ _ b id Ok Hi eq_refl) as (s'&Hs'&Hp). simplify_eq. lia.
  - intros [= <- <-]. unfold drop_arc, drop_account_permit, with_strong, with_sem, with_heap; cbn [lm_accounts lm_heap lm_global lm_next].
    rewrite alter_alter_eq. apply (ok_alter os l i (AwaitsGlobal b id)); simpl; [done|done|by eexists|by right| |done].
    intros s Hs. rewrite Nat.eqb_refl, permits_release. simpl.
    pose proof (slot_heap _ _ _ _ b id Ok Hi eq_refl) as (s'&Hs'&Hp). simplify_eq. lia.
  - intros [= <- <-]. unfold drop_arc, drop_account_permit, drop_global_permit, with_strong, with_sem, with_heap, with_global;
      cbn [lm_accounts lm_heap lm_global lm_next].
    rewrite alter_alter_eq. apply (ok_alter os l i (Serving b id)); simpl; [done|done|by eexists|by right| |].
    + intros s Hs. rewrite Nat.eqb_refl, permits_release. simpl.
      pose proof (slot_heap _ _ _ _ b id Ok Hi eq_refl) as (s'&Hs'&Hp). simplify_eq. lia.
    + rewrite permits_release. lia.
Qed.

Lemma initial_ok n : admission_ok (replicate n Idle) initial_limits.
Proof.
  assert (∀ P, P Idle = false → count P (replicate n Idle) = 0) as Hc.
  { intros P Hp. apply count_none. intros i o [-> _]%lookup_replicate_1. done. }
  split; simpl; try done.
  - intros i o a id [-> _]%lookup_replicate_1. done.
  - intros id [s Hs]. done.
  - rewrite permits_new, Hc by done. lia.
  - unfold MAX_TRACKED_ACCOUNTS. rewrite map_size_empty. lia.
Qed.

Lemma admission_reachable n os l :
  rtc admission_step (replicate n Idle, initial_limits) (os, l) → admission_ok os l.
Proof.
  intros Hr. assert (∀ c c', rtc admission_step c c' → admission_ok c.1 c.2 → admission_ok c'.1 c'.2) as Hs.
  { induction 1 as [|c1 c2 c3 (i&o&a&o'&Hi&Ha&Hc) _ IH]; [done|]. intros Ok. apply IH. rewrite Hc. by eapply act_ok. }
  exact (Hs _ _ Hr (initial_ok n)).
Qed.

(** The operations that hold a permit of an account hold it from one semaphore. *)
Lemma account_holders os l account_id :
  admission_ok os l → count (holds_account account_id) os <= per_account_concurrency.
Proof.
  intros Ok. destruct (lm_accounts l !! account_id) as [id|] eqn:Ha.
  - destruct (ok_heap _ _ Ok _ _ Ha) as [s Hs]. pose proof (ok_permits _ _ Ok _ _ Hs).
    assert (count (holds_account account_id) os <= count (holds_sem id) os); [|lia].
    apply count_le. intros i o Hi Ho.
    destruct o as [| |b jd|b jd]; [done|done|..]; simpl in Ho; apply String.eqb_eq in Ho as ->;
      pose proof (ok_entry _ _ Ok _ _ _ _ Hi eq_refl); simplify_eq; simpl; by rewrite Nat.eqb_refl.
  - rewrite count_none; [lia|]. intros i o Hi.
    destruct o as [| |b jd|b jd]; [done|done|..]; simpl; apply String.eqb_neq; intros ->;
      pose proof (ok_entry _ _ Ok _ _ _ _ Hi eq_refl); simplify_eq.
Qed.

Lemma account_waits os l i account_id id :
  admission_ok os l → os !! i = Some (AwaitsAccount account_id id) →
  act GrantAccount (AwaitsAccount account_id id) l = None →
  count (holds_account account_id) os = per_account_concurrency.
Proof.
  intros Ok Hi Hn. destruct (slot_heap _ _ _ _ _ _ Ok Hi eq_refl) as (s&Hs&_).
  pose proof (ok_permits _ _ Ok _ _ Hs) as Hp. pose proof (ok_entry _ _ Ok _ _ _ _ Hi eq_refl) as Ha.
  assert (permits (sh_sem s) = 0) as Hz.
  { destruct (permits (sh_sem s)) eqn:E; [done|]. destruct (permits_ready (sh_sem s)) as [s' Hs']; [lia|].
    cbn [act] in Hn. unfold acquire_account in Hn. rewrite Hs in Hn. cbn [mbind option_bind] in Hn.
    by rewrite Hs' in Hn. }
  pose proof (account_holders _ _ account_id Ok).
  assert (count (holds_sem id) os <= count (holds_account account_id) os); [|lia].
  apply count_le. intros j o Hj Ho.
  destruct o as [| |b jd|b jd]; [done|done|..]; simpl in Ho; apply Nat.eqb_eq in Ho as ->;
    pose proof (ok_entry _ _ Ok _ _ _ _ Hj eq_refl) as Hb; simpl; apply String.eqb_eq;
    by eapply ok_distinct.
Qed.

Lemma idle_released os l :
  admission_ok os l → (∀ i o, os !! i = Some o → o = Idle) →
  permits (lm_global l) = global_concurrency ∧ ∀ account_id, is_Some (account_semaphore account_id l).1.
Proof.
  intros Ok Hi. assert (∀ P, P Idle = false → count P os = 0) as Hc.
  { intros P Hp. apply count_none. by intros i o ->%Hi. }
  pose proof (ok_global _ _ Ok) as Hg. rewrite Hc in Hg by done. split; [lia|]. intros account_id.
  assert (∀ id, alive l id = false) as Hd.
  { intros id. unfold alive. destruct (lm_heap l !! id) as [s|] eqn:Hs; [|done].
    by rewrite (ok_strong _ _ Ok _ _ Hs), Hc. }
  unfold account_semaphore, upgrade.
  assert ((lm_accounts l !! account_id ≫= λ id, (id,.) <$> (if alive l id then Some (with_strong S id l) else None)) = None) as ->.
  { destruct (lm_accounts l !! account_id); cbn [mbind option_bind]; [|done]. by rewrite Hd. }
  assert (filter (λ entry, alive l entry.2 = true) (lm_accounts l) = ∅) as ->.
  { apply map_empty. intros a. apply map_lookup_filter_None. right. intros id _. cbn [snd]. by rewrite Hd. }
  rewrite map_size_empty. destruct (Nat.leb_spec MAX_TRACKED_ACCOUNTS 0) as [Hm|]; [|by eexists].
  unfold MAX_TRACKED_ACCOUNTS in Hm. lia.
Qed.

(** C22.  Admission control keeps its limits and never loses a permit.  For any
    number of operations, entering, waiting and leaving in any order: at most the
    configured number of operations of an account and of the service are admitted
    at a time, although semaphores are dropped and made anew; at most 1024 accounts
    are tracked; an operation waits only while the limit it waits for is reached;
    and when all have left, every permit is back and no account is turned away. *)
Theorem admission_bounded (n : nat) (os : list operation) (l : limits) :
  rtc admission_step (replicate n Idle, initial_limits) (os, l) →
  (∀ account_id, count (holds_account account_id) os <= per_account_concurrency) ∧
  count admitted os <= global_concurrency ∧
  size (lm_accounts l) <= MAX_TRACKED_ACCOUNTS ∧
  (∀ i account_id id, os !! i = Some (AwaitsAccount account_id id) →
     act GrantAccount (AwaitsAccount account_id id) l = None →
     count (holds_account account_id) os = per_account_concurrency) ∧
  (∀ account_id id, act GrantGlobal (AwaitsGlobal account_id id) l = None → count admitted os = global_concurrency) ∧
  ((∀ i o, os !! i = Some o → o = Idle) →
     permits (lm_global l) = global_concurrency ∧ ∀ account_id, is_Some (account_semaphore account_id l).1).
Proof.
  intros Ok%admission_reachable. pose proof (ok_global _ _ Ok). split_and!.
  - intros a. by eapply account_holders.
  - lia.
  - apply Ok.
  - intros i a id Hi Hn. by eapply account_waits.
  - intros a id Hn. destruct (permits (lm_global l)) eqn:E; [lia|].
    destruct (permits_ready (lm_global l)) as [g Hg]; [lia|]. cbn [act] in Hn. unfold acquire_global in Hn.
    by rewrite Hg in Hn.
  - by apply idle_released.
Qed.
End admission.

(** The count of permits is an instance.  Two operations of an account and one of
    another, of which one leaves. *)
#[export] Instance count_semaphores : Semaphores nat := {|
  sem_new n := n; sem_try_acquire s := match s with 0 => None | S s => Some s end; sem_release := S |}.
#[export] Instance count_laws : SemaphoreLaws nat.
Proof.
  refine {| permits s := s |}; [done|..|done].
  - by intros [|s] s' [= ->].
  - intros [|s]; [lia|]. by eexists.
Defined.

Definition demo_act (c : list operation * limits) (e : nat * action) : list operation * limits :=
  match c.1 !! e.1 with
  | Some o => match act 1 e.2 o c.2 with Some (o', l) => (<[e.1 := o']> c.1, l) | None => c end
  | None => c
  end.
Definition demo_admission : list operation * limits :=
  foldl demo_act (replicate 3 Idle, initial_limits 2)
    [(0, Enter "a"); (1, Enter "a"); (2, Enter "b"); (0, GrantAccount); (1, GrantAccount); (2, GrantAccount);
     (0, GrantGlobal); (2, GrantGlobal); (0, Leave); (1, GrantAccount); (0, Enter "b")].
Lemma demo_act_steps events c : rtc (admission_step 1) c (foldl demo_act c events).
Proof.
  revert c. induction events as [|[i a] events IH]; intros c; cbn [foldl]; [done|].
  unfold demo_act at 2. cbn [fst snd]. destruct (c.1 !! i) as [o|] eqn:Ho; [|apply IH].
  destruct (act 1 a o c.2) as [[o' l]|] eqn:Ha; [|apply IH]. eapply rtc_l; [|apply IH].
  by exists i, o, a, o'.
Qed.

Lemma admission_bounded_witness :
  demo_admission.1 = [AwaitsAccount "b" 1; AwaitsGlobal "a" 0; Serving "b" 1] ∧
  count (holds_account "b") demo_admission.1 = 1.
Proof.
  assert (demo_admission.1 = [AwaitsAccount "b" 1; AwaitsGlobal "a" 0; Serving "b" 1]) as He
    by (vm_compute; reflexivity).
  split; [exact He|].
  destruct (admission_bounded 1 2 3 demo_admission.1 demo_admission.2) as (_&_&_&Hw&_).
  - rewrite <- surjective_pairing. apply demo_act_steps.
  - apply (Hw 0 "b" 1); [by rewrite He|]. vm_compute. reflexivity.
Defined.
