(* ===== verification/Identity.v ===== *)
(** * Identity: the claims of an authenticated request

    The claims type and the checks of [crates/center-app/src/common/unified_auth/mod.rs]
    that turn the claims of a validated token into an identity. *)

From Stdlib Require Import ZArith Ascii String Lia.
From S2P Require Import Prelude Text Json.

Inductive AuthProvider := Oidc | LocalAuth.
#[export] Instance AuthProvider_eq_dec : EqDecision AuthProvider.
Proof. solve_decision. Defined.

Record UnifiedAuthClaims := mkClaims {
  ua_provider : AuthProvider;
  ua_sub : option string;
  ua_iss : option string;
  ua_groups : list string;
  ua_claims : Value;
}.

Section checks.
(** [{:?}] of a string. *)
Variable debug : string → string.

Definition identity_ok (max_bytes : Z) (value : string) : bool :=
  negb (is_empty value || (max_bytes <? str_len value)%Z || has_control value).
Definition validated_identity_claim (name : string) (value : option string) (max_bytes : Z) : result string string :=
  let? value := ok_or ("OIDC token is missing " +:+ debug name +:+ " claim") value in
  if identity_ok max_bytes value then Ok value
  else Err ("OIDC token contains invalid " +:+ debug name +:+ " claim").

Fixpoint collect_groups (claim_name : string) (values : list Value) (groups : list string) : result (list string) string :=
  match values with
  | [] => Ok groups
  | value :: values =>
      let? group := ok_or ("OIDC group claim " +:+ debug claim_name +:+ " must contain only strings") (as_str value) in
      if identity_ok 256 group then
        collect_groups claim_name values (if bool_decide (group ∈ groups) then groups else groups ++ [group])
      else Err ("OIDC group claim " +:+ debug claim_name +:+ " contains an invalid group")
  end.
Definition extract_validated_groups (claims : Value) (claim_name : string) : result (list string) string :=
  match Json.get claim_name claims with
  | None => Ok []
  | Some (Array values) =>
      if (256 <? zlen values)%Z then Err ("OIDC group claim " +:+ debug claim_name +:+ " exceeds 256 entries")
      else collect_groups claim_name values []
  | Some _ => Err ("OIDC group claim " +:+ debug claim_name +:+ " must be an array of strings")
  end.

Lemma collect_groups_Ok claim_name values groups r :
  NoDup groups → Forall (λ g, identity_ok 256 g = true) groups →
  collect_groups claim_name values groups = Ok r →
  NoDup r ∧ Forall (λ g, identity_ok 256 g = true) r ∧
  (∀ g, g ∈ r ↔ g ∈ groups ∨ Str g ∈ values) ∧ length r <= length groups + length values.
Proof.
  revert groups. induction values as [|v values IH]; intros groups Hnd Hok; cbn [collect_groups].
  { intros [= <-]. split_and!; [done..|set_solver|lia]. }
  destruct (as_str v) as [g|] eqn:Ev; cbn [ok_or]; [|done]. destruct v; try done. injection Ev as ->.
  destruct (identity_ok 256 g) eqn:Eg; [|done]. intros Hc.
  apply IH in Hc as (Hn&Hf&Hin&Hl); case_bool_decide as Hg; try done.
  - split_and!; [done..| |cbn; lia]. intros x. rewrite Hin, elem_of_cons. naive_solver.
  - split_and!; [done..| |rewrite length_app in Hl; cbn in *; lia].
    intros x. rewrite Hin, elem_of_app, list_elem_of_singleton, elem_of_cons. naive_solver.
  - apply NoDup_app. split_and!; [done| |apply NoDup_singleton]. set_solver.
  - apply Forall_app. split; [done|]. by constructor.
Qed.

(** The groups of an identity: no duplicates, each a bounded name that the token
    contains, and all of the token's. *)
Lemma validated_groups claims claim_name r :
  extract_validated_groups claims claim_name = Ok r →
  NoDup r ∧ Forall (λ g, identity_ok 256 g = true) r ∧ length r <= 256 ∧
  (∀ g, g ∈ r ↔ ∃ values, Json.get claim_name claims = Some (Array values) ∧ Str g ∈ values).
Proof.
  unfold extract_validated_groups. destruct (Json.get claim_name claims) as [[]|]; try done.
  - destruct (256 <? zlen items)%Z eqn:El; [done|]. apply Z.ltb_ge in El. unfold zlen in El.
    intros (Hn&Hf&Hin&Hl)%collect_groups_Ok; [|constructor..]. cbn in Hl. split_and!; [done..|lia|].
    intros g. rewrite Hin. set_solver.
  - intros [= <-]. split_and!; [constructor..|cbn; lia|]. set_solver.
Qed.
End checks.
