(* ===== verification/Permissions.v ===== *)
(** * Permissions: what a request of the admin API must be allowed to do

    [crates/center-core/src/authz.rs] and [capabilities.rs], the permission catalog
    [crates/center-app/src/common/authz/catalog.rs], the action of a request
    ([action_for_request] of [authz/middleware.rs]) and the route table of
    [crates/center-app/src/api/mod.rs].  The theorem relates the two tables: the
    catalog decides on the text of a path, the router on its segments. *)

From Stdlib Require Import ZArith Ascii String Lia.
From S2P Require Import Prelude Text Core.

(** ** Principals, actions and decisions *)

Inductive AuthzMode := AllowAllMode | Rbac.
Definition AuthzMode_default : AuthzMode := AllowAllMode.

Record Principal := mkPrincipal {
  pr_subject : string;
  pr_provider : string;
  pr_issuer : option string;
  pr_groups : list string;
}.

Inductive ActionOperation := OpList | OpGet | OpCreate | OpUpdate | OpDelete | OpExecute.
#[export] Instance ActionOperation_eq_dec : EqDecision ActionOperation.
Proof. solve_decision. Defined.

Record Action := mkAction {
  ac_permission : string;
  ac_controller_id : option string;
  ac_operation : option ActionOperation;
  ac_request_path : option string;
  ac_request_verb : option string;
}.

Record Decision := mkDecision { de_allowed : bool; de_reason : option string }.
Definition allow : Decision := mkDecision true None.
Definition deny (reason : string) : Decision := mkDecision false (Some reason).

(** The policy of [authz.mode = allow_all]. *)
Definition AllowAll_authorize (principal : Principal) (action : Action) : CoreResult Decision := Ok allow.
Definition AllowAll_granted_permissions (principal : Principal) (candidates : list string) :
    CoreResult (option (list string)) := Ok (Some candidates).

(** ** Platform capabilities *)

Inductive CenterMode := Standalone | Kubernetes.
Record CenterCapabilities := mkCapabilities {
  global_resources_inventory : bool;
  user_admin : bool;
  role_admin : bool;
  audit_query : bool;
  controller_history : bool;
  native_rbac : bool;
  leader_election : bool;
  password_login : bool;
  cloudflare_dns_read : bool;
  cloudflare_dns_write : bool;
  route53_dns_read : bool;
  route53_dns_write : bool;
  route53_zone_lifecycle : bool;
  provider_account_admin : bool;
  provider_capability_read : bool;
  provider_credential_inspection : bool;
}.
Definition for_mode (mode : CenterMode) : CenterCapabilities :=
  match mode with
  | Standalone => mkCapabilities false true true true true false false true
                    false false false false false false false false
  | Kubernetes => mkCapabilities false false false false true true true false
                    false false false false false false false false
  end.
Definition resolved (user_admin role_admin audit_query controller_history native_rbac leader_election
    password_login cloudflare_dns_read provider_account_admin provider_capability_read
    provider_credential_inspection : bool) : CenterCapabilities :=
  mkCapabilities false user_admin role_admin audit_query controller_history native_rbac leader_election
    password_login cloudflare_dns_read false false false false provider_account_admin
    provider_capability_read provider_credential_inspection.

(** ** Methods *)

Inductive Method := GET | HEAD | POST | PUT | PATCH | DELETE | OtherMethod (name : string).
#[export] Instance Method_eq_dec : EqDecision Method.
Proof. solve_decision. Defined.
Definition method_str (method : Method) : string :=
  match method with
  | GET => "GET" | HEAD => "HEAD" | POST => "POST" | PUT => "PUT" | PATCH => "PATCH" | DELETE => "DELETE"
  | OtherMethod name => name
  end.
Definition is_read (method : Method) : bool := match method with GET | HEAD => true | _ => false end.

(** ** The permission catalog *)

Definition CONTROLLERS_READ : string := "controllers:read".
Definition CONTROLLERS_WRITE : string := "controllers:write".
Definition REGION_ROUTES_READ : string := "region-routes:read".
Definition REGION_ROUTES_WRITE : string := "region-routes:write".
Definition GLOBAL_RESOURCES_READ : string := "global-resources:read".
Definition AUDIT_READ : string := "audit:read".
Definition SERVER_READ : string := "server:read".
Definition PROXY_READ : string := "proxy:read".
Definition PROXY_WRITE : string := "proxy:write".
Definition USERS_MANAGE : string := "users:manage".
Definition ROLES_MANAGE : string := "roles:manage".
Definition CLOUDFLARE_DNS_READ : string := "cloudflare-dns:read".
Definition CLOUDFLARE_DNS_WRITE : string := "cloudflare-dns:write".
Definition CLOUDFLARE_DNS_REMOTE_WRITE : string := "cloudflare-dns:remote-write".
Definition ROUTE53_DNS_READ : string := "route53-dns:read".
Definition ROUTE53_DNS_WRITE : string := "route53-dns:write".
Definition ROUTE53_ZONES_WRITE : string := "route53-zones:write".
Definition PROVIDER_ACCOUNTS_READ : string := "provider-accounts:read".
Definition PROVIDER_ACCOUNTS_WRITE : string := "provider-accounts:write".
Definition PROVIDER_CREDENTIALS_USE : string := "provider-credentials:use".
Definition PROVIDER_CAPABILITIES_READ : string := "provider-capabilities:read".
Definition PROVIDER_CREDENTIALS_INSPECT : string := "provider-credentials:inspect".

Definition all_keys : list string :=
  [CONTROLLERS_READ; CONTROLLERS_WRITE; REGION_ROUTES_READ; REGION_ROUTES_WRITE; GLOBAL_RESOURCES_READ;
   AUDIT_READ; SERVER_READ; PROXY_READ; PROXY_WRITE; USERS_MANAGE; ROLES_MANAGE; CLOUDFLARE_DNS_READ;
   CLOUDFLARE_DNS_WRITE; CLOUDFLARE_DNS_REMOTE_WRITE; ROUTE53_DNS_READ; ROUTE53_DNS_WRITE;
   ROUTE53_ZONES_WRITE; PROVIDER_ACCOUNTS_READ; PROVIDER_ACCOUNTS_WRITE; PROVIDER_CREDENTIALS_USE;
   PROVIDER_CAPABILITIES_READ; PROVIDER_CREDENTIALS_INSPECT].
Definition is_known_key (key : string) : bool := bool_decide (key ∈ all_keys).

Record PermissionGroup := mkGroup { pg_group : string; pg_keys : list string }.
Definition catalog_groups : list PermissionGroup :=
  [mkGroup "Controllers" [CONTROLLERS_READ; CONTROLLERS_WRITE];
   mkGroup "Region Routes" [REGION_ROUTES_READ; REGION_ROUTES_WRITE];
   mkGroup "Global Resources" [GLOBAL_RESOURCES_READ];
   mkGroup "Audit" [AUDIT_READ];
   mkGroup "Server" [SERVER_READ];
   mkGroup "Proxy" [PROXY_READ; PROXY_WRITE];
   mkGroup "Access Control" [USERS_MANAGE; ROLES_MANAGE];
   mkGroup "Cloudflare DNS" [CLOUDFLARE_DNS_READ; CLOUDFLARE_DNS_WRITE; CLOUDFLARE_DNS_REMOTE_WRITE];
   mkGroup "Route 53 DNS" [ROUTE53_DNS_READ; ROUTE53_DNS_WRITE; ROUTE53_ZONES_WRITE];
   mkGroup "Provider Accounts" [PROVIDER_ACCOUNTS_READ; PROVIDER_ACCOUNTS_WRITE];
   mkGroup "Provider Credentials" [PROVIDER_CREDENTIALS_USE; PROVIDER_CREDENTIALS_INSPECT];
   mkGroup "Provider Capabilities" [PROVIDER_CAPABILITIES_READ]].

Definition is_business_path (path : string) : bool :=
  starts_with "/api/v1/" path && negb (starts_with "/api/v1/auth/" path).
Definition under_segment (path base : string) : bool :=
  String.eqb path base || starts_with (base +:+ "/") path.

(** [is_some_and] on what [strip_prefix] leaves. *)
Definition with_suffix (prefix path : string) (p : string → bool) : bool :=
  match strip_prefix prefix path with Some suffix => p suffix | None => false end.
Definition strip_suffix (suffix s : string) : option string :=
  match strip_prefix (str_rev suffix) (str_rev s) with Some rest => Some (str_rev rest) | None => None end.

Definition remote_control_segments (segments : list string) : bool :=
  Nat.eqb (length segments) 6 && forallb (λ segment, negb (is_empty segment)) segments
  && bool_decide (segments !! 1 = Some "zones") && bool_decide (segments !! 3 = Some "record-sets")
  && bool_decide (segments !! 5 = Some "remote-control").
Definition is_cloudflare_remote_control_path (path : string) : bool :=
  match strip_prefix "/api/v1/center/cloudflare/dns/accounts/" path with
  | Some suffix => remote_control_segments (str_split slash suffix)
  | None => false
  end.

Inductive Route53DnsRoute := ZoneCollection | Read | RecordDetail | ChangeBatch | ZoneLifecycle.
Definition route53_segments (segments : list string) : option Route53DnsRoute :=
  if existsb is_empty segments then None
  else
    match segments with
    | [_; a] => if String.eqb a "hosted-zones" then Some ZoneCollection else None
    | [_; a; _] => if String.eqb a "hosted-zones" then Some Read else None
    | [_; a; _; b] =>
        if String.eqb a "hosted-zones" then
          if String.eqb b "record-sets" then Some Read
          else if String.eqb b "change-batches" then Some ChangeBatch
          else if String.eqb b "lifecycle" then Some ZoneLifecycle
          else None
        else None
    | [_; a; _; b; _] =>
        if String.eqb a "hosted-zones" then
          if String.eqb b "changes" then Some Read
          else if String.eqb b "record-sets" then Some RecordDetail
          else None
        else None
    | _ => None
    end.
Definition route53_dns_route (path : string) : option Route53DnsRoute :=
  strip_prefix "/api/v1/center/aws/route53/accounts/" path ≫= λ suffix, route53_segments (str_split slash suffix).
Definition route53_permission (route : Route53DnsRoute) (method : Method) : option string :=
  match route, method with
  | ZoneCollection, GET | Read, GET => Some ROUTE53_DNS_READ
  | ZoneCollection, POST => Some ROUTE53_ZONES_WRITE
  | RecordDetail, GET => Some ROUTE53_DNS_READ
  | RecordDetail, PUT | RecordDetail, DELETE => Some ROUTE53_DNS_WRITE
  | ChangeBatch, POST => Some ROUTE53_DNS_WRITE
  | ZoneLifecycle, GET | ZoneLifecycle, POST | ZoneLifecycle, DELETE => Some ROUTE53_ZONES_WRITE
  | _, _ => None
  end.

(** One account segment and nothing after it. *)
Definition single_account (suffix : string) : bool :=
  match str_split slash suffix with [account_id] => negb (is_empty account_id) | _ => false end.
Definition refreshed_account (suffix : string) : bool :=
  match strip_suffix "/refresh" suffix with
  | Some account_id => negb (is_empty account_id) && negb (str_mem slash account_id)
  | None => false
  end.

Definition route_permission (method : Method) (path : string) : option string :=
  let read := is_read method in
  let then_some (b : bool) (key : string) := if b then Some key else None in
  if String.eqb path "/api/v1/center/global-resources/catalog"
     || under_segment path "/api/v1/center/global-resources/resources"
  then then_some read GLOBAL_RESOURCES_READ
  else if starts_with "/api/v1/proxy/" path then Some (if read then PROXY_READ else PROXY_WRITE)
  else if is_cloudflare_remote_control_path path
  then then_some (bool_decide (method = PUT)) CLOUDFLARE_DNS_REMOTE_WRITE
  else if under_segment path "/api/v1/center/cloudflare/dns" then
    match method with
    | GET | HEAD => Some CLOUDFLARE_DNS_READ
    | POST | PUT | PATCH | DELETE => Some CLOUDFLARE_DNS_WRITE
    | _ => None
    end
  else match route53_dns_route path with
  | Some route => route53_permission route method
  | None =>
  if with_suffix "/api/v1/center/cloud/provider-capabilities/accounts/" path single_account
  then then_some read PROVIDER_CAPABILITIES_READ
  else if with_suffix "/api/v1/center/cloud/provider-credential-inspections/accounts/" path refreshed_account
  then then_some (bool_decide (method = POST)) PROVIDER_CREDENTIALS_INSPECT
  else if under_segment path "/api/v1/center/cloud/provider-accounts" then
    match method with
    | GET | HEAD => Some PROVIDER_ACCOUNTS_READ
    | POST | PUT => Some PROVIDER_ACCOUNTS_WRITE
    | _ => None
    end
  else if String.eqb path "/api/v1/center/admin/audit-logs" then Some AUDIT_READ
  else if String.eqb path "/api/v1/center/admin/controllers"
          || starts_with "/api/v1/center/admin/controllers/" path
  then Some (if read then CONTROLLERS_READ else CONTROLLERS_WRITE)
  else if under_segment path "/api/v1/center/admin/users" then Some USERS_MANAGE
  else if under_segment path "/api/v1/center/admin/roles"
          || String.eqb path "/api/v1/center/admin/permission-catalog" then Some ROLES_MANAGE
  else if under_segment path "/api/v1/center/region-route-overrides"
  then Some (if read then REGION_ROUTES_READ else REGION_ROUTES_WRITE)
  else if String.eqb path "/api/v1/server-info" then Some SERVER_READ
  else if String.eqb path "/api/v1/controllers" || String.eqb path "/api/v1/clusters" then Some CONTROLLERS_READ
  else if starts_with "/api/v1/controllers/" path then Some CONTROLLERS_WRITE
  else None
  end.

(** ** The action of a request *)

(** [percent_decode_str(..).decode_utf8()] of the percent-encoding crate. *)
Class PercentCodec := percent_decode : string → string.

Fixpoint replace_char (from to : ascii) (s : string) : string :=
  match s with
  | EmptyString => EmptyString
  | String c s => String (if Ascii.eqb c from then to else c) (replace_char from to s)
  end.
Definition tilde : ascii := "~"%char.

Definition operation_of (method : Method) (path : string) : ActionOperation :=
  if is_read method then
    if String.eqb path "/api/v1/controllers" || String.eqb path "/api/v1/clusters"
       || String.eqb path "/api/v1/center/admin/controllers"
       || String.eqb path "/api/v1/center/cloud/provider-accounts"
    then OpList else OpGet
  else if bool_decide (method = DELETE) then OpDelete
  else if bool_decide (method = PATCH) || bool_decide (method = PUT) then OpUpdate
  else if ends_with "/reload" path || ends_with "/refresh" path || ends_with "/sync" path
          || ends_with "/failover" path || starts_with "/api/v1/proxy/" path
  then OpExecute
  else OpCreate.

Definition encoded_controller_id (path : string) : option string :=
  let suffix :=
    match strip_prefix "/api/v1/center/admin/controllers/" path with
    | Some suffix => Some suffix
    | None => strip_prefix "/api/v1/controllers/" path
    end in
  suffix ≫= λ suffix, head (str_split slash suffix) ≫= λ id, if is_empty id then None else Some id.

Definition request_verb (method : Method) : string :=
  if bool_decide (method = HEAD) then "get" else to_ascii_lowercase (method_str method).

Section actions.
Context `{PercentCodec}.

Definition decode_utf8 (encoded : string) : option string :=
  let decoded := percent_decode encoded in if utf8_valid decoded then Some decoded else None.

Definition action_for_request (permission : string) (method : Method) (path : string) : result Action () :=
  let? controller_id :=
    match encoded_controller_id path with
    | None => Ok None
    | Some id =>
        let? decoded := ok_or () (decode_utf8 id) in
        map_err (λ _, ()) (let? id := ControllerId_new (replace_char tilde slash decoded) in Ok (Some id))
    end in
  Ok (mkAction permission controller_id (Some (operation_of method path)) (Some path) (Some (request_verb method))).
End actions.

(** ** The router *)

Inductive handler :=
| server_info | list_controllers | list_clusters | reload_controller
| list_region_route_overrides | region_route_failover | region_route_override_sync
| proxy_handler
| list_admin_controllers | delete_admin_controller
| global_resources_catalog | global_resources_list | global_resources_detail
| list_users_handler | create_user_handler | update_user_handler | delete_user_handler
| list_roles_handler | create_role_handler | delete_role_handler | set_role_permissions_handler
| permission_catalog_handler
| audit_list_handler
| cloudflare_list_zones | cloudflare_get_zone | cloudflare_list_record_sets | cloudflare_get_record_set
| cloudflare_create_zone | cloudflare_delete_zone | cloudflare_put_record_set | cloudflare_delete_record_set
| cloudflare_put_remote_record_set
| route53_list_zones | route53_get_zone | route53_list_record_sets | route53_get_record_set
| route53_put_record_set | route53_delete_record_set | route53_apply_change_batch | route53_get_change
| route53_create_zone | route53_observe_zone_lifecycle | route53_delete_zone
| provider_accounts_list | provider_accounts_create | provider_accounts_get | provider_accounts_replace
| provider_capabilities_get | provider_credential_inspections_refresh
| login_handler | logout_handler | me_handler | status_handler.
#[export] Instance handler_eq_dec : EqDecision handler.
Proof. solve_decision. Defined.

(** Axum's method filters: [get] also answers HEAD. *)
Inductive MethodFilter := get | post | put | patch | delete | any.
Definition accepts (f : MethodFilter) (method : Method) : bool :=
  match f with
  | get => is_read method
  | post => bool_decide (method = POST)
  | put => bool_decide (method = PUT)
  | patch => bool_decide (method = PATCH)
  | delete => bool_decide (method = DELETE)
  | any => true
  end.

(** A route: its pattern as the source writes it, and its handlers. *)
Abbreviation route := (string * list (MethodFilter * handler))%type.

Inductive segment := Literal (s : string) | Capture | CatchAll.
Definition segment_of (s : string) : segment :=
  if starts_with "{*" s then CatchAll else if starts_with "{" s then Capture else Literal s.
Fixpoint match_segments (pattern : list segment) (segments : list string) : bool :=
  match pattern, segments with
  | [], [] => true
  | [CatchAll], _ => negb (is_empty (join_with slash segments))
  | Literal l :: pattern, s :: segments => String.eqb l s && match_segments pattern segments
  | Capture :: pattern, s :: segments => negb (is_empty s) && match_segments pattern segments
  | _, _ => false
  end.
Definition matches (pattern path : string) : bool :=
  match_segments (map segment_of (str_split slash pattern)) (str_split slash path).

(** Which optional parts of the state are [Some]. *)
Record Composition := mkComposition {
  has_cloudflare_dns_admin : bool;
  has_cloudflare_dns_write_admin : bool;
  has_route53_dns_admin : bool;
  has_route53_dns_write_admin : bool;
  has_route53_zone_lifecycle_admin : bool;
  has_provider_account_store : bool;
  has_capability_snapshot_store : bool;
  has_credential_inspection_service : bool;
}.
Definition effective (state : Composition) (c : CenterCapabilities) : CenterCapabilities :=
  {| global_resources_inventory := global_resources_inventory c;
     user_admin := user_admin c;
     role_admin := role_admin c;
     audit_query := audit_query c;
     controller_history := controller_history c;
     native_rbac := native_rbac c;
     leader_election := leader_election c;
     password_login := password_login c;
     cloudflare_dns_read := cloudflare_dns_read c && has_cloudflare_dns_admin state;
     cloudflare_dns_write := cloudflare_dns_write c && has_cloudflare_dns_write_admin state;
     route53_dns_read := route53_dns_read c && has_route53_dns_admin state;
     route53_dns_write := route53_dns_write c && has_route53_dns_write_admin state;
     route53_zone_lifecycle := route53_zone_lifecycle c && has_route53_zone_lifecycle_admin state;
     provider_account_admin := provider_account_admin c && has_provider_account_store state;
     provider_capability_read := provider_capability_read c
       && (has_provider_account_store state && has_capability_snapshot_store state);
     provider_credential_inspection := provider_credential_inspection c
       && has_credential_inspection_service state |}.

Definition center_routes : list route :=
  [("/api/v1/server-info", [(get, server_info)]);
   ("/api/v1/controllers", [(get, list_controllers)]);
   ("/api/v1/clusters", [(get, list_clusters)]);
   ("/api/v1/controllers/{id}/reload", [(post, reload_controller)]);
   ("/api/v1/center/region-route-overrides", [(get, list_region_route_overrides)]);
   ("/api/v1/center/region-route-overrides/failover", [(post, region_route_failover)]);
   ("/api/v1/center/region-route-overrides/sync", [(post, region_route_override_sync)]);
   ("/api/v1/proxy/{controller_id}/{*rest}", [(any, proxy_handler)])].
Definition controller_history_routes : list route :=
  [("/api/v1/center/admin/controllers", [(get, list_admin_controllers)]);
   ("/api/v1/center/admin/controllers/{id}", [(delete, delete_admin_controller)])].
Definition global_resources_routes : list route :=
  [("/api/v1/center/global-resources/catalog", [(get, global_resources_catalog)]);
   ("/api/v1/center/global-resources/resources/{kind}", [(get, global_resources_list)]);
   ("/api/v1/center/global-resources/resources/{kind}/{namespace}/{name}", [(get, global_resources_detail)])].
Definition user_routes : list route :=
  [("/api/v1/center/admin/users", [(get, list_users_handler); (post, create_user_handler)]);
   ("/api/v1/center/admin/users/{id}", [(patch, update_user_handler); (delete, delete_user_handler)])].
Definition role_routes : list route :=
  [("/api/v1/center/admin/roles", [(get, list_roles_handler); (post, create_role_handler)]);
   ("/api/v1/center/admin/roles/{id}", [(delete, delete_role_handler)]);
   ("/api/v1/center/admin/roles/{id}/permissions", [(put, set_role_permissions_handler)]);
   ("/api/v1/center/admin/permission-catalog", [(get, permission_catalog_handler)])].
Definition audit_routes : list route :=
  [("/api/v1/center/admin/audit-logs", [(get, audit_list_handler)])].
Definition cloudflare_dns_read_routes : list route :=
  [("/api/v1/center/cloudflare/dns/accounts/{account_id}/zones", [(get, cloudflare_list_zones)]);
   ("/api/v1/center/cloudflare/dns/accounts/{account_id}/zones/{zone_id}", [(get, cloudflare_get_zone)]);
   ("/api/v1/center/cloudflare/dns/accounts/{account_id}/zones/{zone_id}/record-sets",
     [(get, cloudflare_list_record_sets)]);
   ("/api/v1/center/cloudflare/dns/accounts/{account_id}/zones/{zone_id}/record-sets/{record_type}",
     [(get, cloudflare_get_record_set)])].
Definition cloudflare_dns_write_routes : list route :=
  [("/api/v1/center/cloudflare/dns/accounts/{account_id}/zones", [(post, cloudflare_create_zone)]);
   ("/api/v1/center/cloudflare/dns/accounts/{account_id}/zones/{zone_id}", [(delete, cloudflare_delete_zone)]);
   ("/api/v1/center/cloudflare/dns/accounts/{account_id}/zones/{zone_id}/record-sets/{record_type}",
     [(put, cloudflare_put_record_set); (delete, cloudflare_delete_record_set)]);
   ("/api/v1/center/cloudflare/dns/accounts/{account_id}/zones/{zone_id}/record-sets/{record_type}/remote-control",
     [(put, cloudflare_put_remote_record_set)])].
Definition route53_dns_read_routes : list route :=
  [("/api/v1/center/aws/route53/accounts/{account_id}/hosted-zones", [(get, route53_list_zones)]);
   ("/api/v1/center/aws/route53/accounts/{account_id}/hosted-zones/{zone_id}", [(get, route53_get_zone)]);
   ("/api/v1/center/aws/route53/accounts/{account_id}/hosted-zones/{zone_id}/record-sets",
     [(get, route53_list_record_sets)]);
   ("/api/v1/center/aws/route53/accounts/{account_id}/hosted-zones/{zone_id}/record-sets/{record_type}",
     [(get, route53_get_record_set)])].
Definition route53_write_routes : list route :=
  [("/api/v1/center/aws/route53/accounts/{account_id}/hosted-zones/{zone_id}/record-sets/{record_type}",
     [(put, route53_put_record_set); (delete, route53_delete_record_set)]);
   ("/api/v1/center/aws/route53/accounts/{account_id}/hosted-zones/{zone_id}/change-batches",
     [(post, route53_apply_change_batch)]);
   ("/api/v1/center/aws/route53/accounts/{account_id}/hosted-zones/{zone_id}/changes/{receipt}",
     [(get, route53_get_change)])].
Definition route53_lifecycle_routes : list route :=
  [("/api/v1/center/aws/route53/accounts/{account_id}/hosted-zones", [(post, route53_create_zone)]);
   ("/api/v1/center/aws/route53/accounts/{account_id}/hosted-zones/{zone_id}/lifecycle",
     [(get, route53_observe_zone_lifecycle); (delete, route53_delete_zone)])].
Definition provider_account_routes : list route :=
  [("/api/v1/center/cloud/provider-accounts", [(get, provider_accounts_list); (post, provider_accounts_create)]);
   ("/api/v1/center/cloud/provider-accounts/{account_id}",
     [(get, provider_accounts_get); (put, provider_accounts_replace)])].
Definition provider_capability_routes : list route :=
  [("/api/v1/center/cloud/provider-capabilities/accounts/{account_id}", [(get, provider_capabilities_get)])].
Definition credential_inspection_routes : list route :=
  [("/api/v1/center/cloud/provider-credential-inspections/accounts/{account_id}/refresh",
     [(post, provider_credential_inspections_refresh)])].

Definition mounted (b : bool) (routes : list route) : list route := if b then routes else [].
Definition router (state : Composition) (configured : CenterCapabilities) : list route :=
  let capabilities := effective state configured in
  center_routes
  ++ mounted (controller_history capabilities) controller_history_routes
  ++ mounted (global_resources_inventory capabilities) global_resources_routes
  ++ mounted (user_admin capabilities) user_routes
  ++ mounted (role_admin capabilities) role_routes
  ++ mounted (audit_query capabilities) audit_routes
  ++ mounted (cloudflare_dns_read capabilities && has_cloudflare_dns_admin state) cloudflare_dns_read_routes
  ++ mounted (cloudflare_dns_write capabilities && has_cloudflare_dns_write_admin state) cloudflare_dns_write_routes
  ++ mounted (route53_dns_read capabilities && has_route53_dns_admin state) route53_dns_read_routes
  ++ mounted (route53_dns_write capabilities && has_route53_dns_write_admin state) route53_write_routes
  ++ mounted (route53_zone_lifecycle capabilities && has_route53_zone_lifecycle_admin state) route53_lifecycle_routes
  ++ mounted (provider_account_admin capabilities && has_provider_account_store state) provider_account_routes
  ++ mounted (provider_capability_read capabilities
              && (has_provider_account_store state && has_capability_snapshot_store state)) provider_capability_routes
  ++ mounted (provider_credential_inspection capabilities && has_credential_inspection_service state)
       credential_inspection_routes.

(** The handler of a request: axum merges the method filters of equal patterns. *)
Definition handlers_at (path : string) (routes : list route) : list (MethodFilter * handler) :=
  routes ≫= λ r, if matches r.1 path then r.2 else [].
Definition dispatch (routes : list route) (method : Method) (path : string) : option handler :=
  head (omap (λ fh, if accepts fh.1 method then Some fh.2 else None) (handlers_at path routes)).

(** ** What each handler requires *)

(** Does the handler change anything, at Center, a controller or a provider? *)
Definition changes (h : handler) (method : Method) : bool :=
  match h with
  | reload_controller | region_route_failover | region_route_override_sync | delete_admin_controller
  | create_user_handler | update_user_handler | delete_user_handler
  | create_role_handler | delete_role_handler | set_role_permissions_handler
  | cloudflare_create_zone | cloudflare_delete_zone | cloudflare_put_record_set | cloudflare_delete_record_set
  | cloudflare_put_remote_record_set
  | route53_put_record_set | route53_delete_record_set | route53_apply_change_batch
  | route53_create_zone | route53_delete_zone
  | provider_accounts_create | provider_accounts_replace | provider_credential_inspections_refresh => true
  | proxy_handler => negb (is_read method)
  | _ => false
  end.

Definition required (h : handler) (method : Method) : string :=
  match h with
  | server_info => SERVER_READ
  | list_controllers | list_clusters | list_admin_controllers => CONTROLLERS_READ
  | reload_controller | delete_admin_controller => CONTROLLERS_WRITE
  | list_region_route_overrides => REGION_ROUTES_READ
  | region_route_failover | region_route_override_sync => REGION_ROUTES_WRITE
  | proxy_handler => if is_read method then PROXY_READ else PROXY_WRITE
  | global_resources_catalog | global_resources_list | global_resources_detail => GLOBAL_RESOURCES_READ
  | list_users_handler | create_user_handler | update_user_handler | delete_user_handler => USERS_MANAGE
  | list_roles_handler | create_role_handler | delete_role_handler | set_role_permissions_handler
  | permission_catalog_handler => ROLES_MANAGE
  | audit_list_handler => AUDIT_READ
  | cloudflare_list_zones | cloudflare_get_zone | cloudflare_list_record_sets | cloudflare_get_record_set =>
      CLOUDFLARE_DNS_READ
  | cloudflare_create_zone | cloudflare_delete_zone | cloudflare_put_record_set | cloudflare_delete_record_set =>
      CLOUDFLARE_DNS_WRITE
  | cloudflare_put_remote_record_set => CLOUDFLARE_DNS_REMOTE_WRITE
  | route53_list_zones | route53_get_zone | route53_list_record_sets | route53_get_record_set | route53_get_change =>
      ROUTE53_DNS_READ
  | route53_put_record_set | route53_delete_record_set | route53_apply_change_batch => ROUTE53_DNS_WRITE
  | route53_create_zone | route53_observe_zone_lifecycle | route53_delete_zone => ROUTE53_ZONES_WRITE
  | provider_accounts_list | provider_accounts_get => PROVIDER_ACCOUNTS_READ
  | provider_accounts_create | provider_accounts_replace => PROVIDER_ACCOUNTS_WRITE
  | provider_capabilities_get => PROVIDER_CAPABILITIES_READ
  | provider_credential_inspections_refresh => PROVIDER_CREDENTIALS_INSPECT
  | login_handler | logout_handler | me_handler | status_handler => EmptyString
  end.
(** The keys of roles that may only look. *)
Definition read_keys : list string :=
  [CONTROLLERS_READ; REGION_ROUTES_READ; GLOBAL_RESOURCES_READ; AUDIT_READ; SERVER_READ; PROXY_READ;
   CLOUDFLARE_DNS_READ; ROUTE53_DNS_READ; PROVIDER_ACCOUNTS_READ; PROVIDER_CAPABILITIES_READ].
(** Reads of Route 53, which the catalog knows under GET only. *)
Definition route53_read (h : handler) : bool :=
  match h with
  | route53_list_zones | route53_get_zone | route53_list_record_sets | route53_get_record_set | route53_get_change
  | route53_observe_zone_lifecycle => true
  | _ => false
  end.

(** ** The catalog on segments *)

Fixpoint below (base segments : list string) : option (list string) :=
  match base, segments with
  | [], _ => Some segments
  | b :: base, s :: segments => if String.eqb b s then below base segments else None
  | _ :: _, [] => None
  end.
Definition inside (base : string) (segments : list string) : option (list string) :=
  match below (str_split slash base) segments with Some (s :: rest) => Some (s :: rest) | _ => None end.
Definition at_or_inside (base : string) (segments : list string) : bool :=
  bool_decide (is_Some (below (str_split slash base) segments)).
Definition at_path (path : string) (segments : list string) : bool := bool_decide (segments = str_split slash path).


Definition segment_permission (method : Method) (segments : list string) : option string :=
  let read := is_read method in
  let then_some (b : bool) (key : string) := if b then Some key else None in
  if at_path "/api/v1/center/global-resources/catalog" segments
     || at_or_inside "/api/v1/center/global-resources/resources" segments
  then then_some read GLOBAL_RESOURCES_READ
  else if bool_decide (is_Some (inside "/api/v1/proxy" segments)) then Some (if read then PROXY_READ else PROXY_WRITE)
  else if match inside "/api/v1/center/cloudflare/dns/accounts" segments with
          | Some rest => remote_control_segments rest
          | None => false
          end
  then then_some (bool_decide (method = PUT)) CLOUDFLARE_DNS_REMOTE_WRITE
  else if at_or_inside "/api/v1/center/cloudflare/dns" segments then
    match method with
    | GET | HEAD => Some CLOUDFLARE_DNS_READ
    | POST | PUT | PATCH | DELETE => Some CLOUDFLARE_DNS_WRITE
    | _ => None
    end
  else match inside "/api/v1/center/aws/route53/accounts" segments ≫= route53_segments with
  | Some route => route53_permission route method
  | None =>
  if match inside "/api/v1/center/cloud/provider-capabilities/accounts" segments with
     | Some [id] => negb (is_empty id)
     | _ => false
     end
  then then_some read PROVIDER_CAPABILITIES_READ
  else if match inside "/api/v1/center/cloud/provider-credential-inspections/accounts" segments with
          | Some [id; last] => negb (is_empty id) && String.eqb last "refresh"
          | _ => false
          end
  then then_some (bool_decide (method = POST)) PROVIDER_CREDENTIALS_INSPECT
  else if at_or_inside "/api/v1/center/cloud/provider-accounts" segments then
    match method with
    | GET | HEAD => Some PROVIDER_ACCOUNTS_READ
    | POST | PUT => Some PROVIDER_ACCOUNTS_WRITE
    | _ => None
    end
  else if at_path "/api/v1/center/admin/audit-logs" segments then Some AUDIT_READ
  else if at_or_inside "/api/v1/center/admin/controllers" segments
  then Some (if read then CONTROLLERS_READ else CONTROLLERS_WRITE)
  else if at_or_inside "/api/v1/center/admin/users" segments then Some USERS_MANAGE
  else if at_or_inside "/api/v1/center/admin/roles" segments
          || at_path "/api/v1/center/admin/permission-catalog" segments then Some ROLES_MANAGE
  else if at_or_inside "/api/v1/center/region-route-overrides" segments
  then Some (if read then REGION_ROUTES_READ else REGION_ROUTES_WRITE)
  else if at_path "/api/v1/server-info" segments then Some SERVER_READ
  else if at_path "/api/v1/controllers" segments || at_path "/api/v1/clusters" segments then Some CONTROLLERS_READ
  else if bool_decide (is_Some (inside "/api/v1/controllers" segments)) then Some CONTROLLERS_WRITE
  else None
  end.

(** ** Prefixes and segments *)

Lemma below_Some base segments rest : below base segments = Some rest ↔ segments = base ++ rest.
Proof.
  revert segments. induction base as [|b base IH]; intros segments; cbn [below app]; [naive_solver|].
  destruct segments as [|s segments]; [done|]. destruct (String.eqb_spec b s) as [->|Hb].
  - rewrite IH. naive_solver.
  - naive_solver.
Qed.
Lemma inside_Some base segments rest :
  inside base segments = Some rest ↔ segments = str_split slash base ++ rest ∧ rest ≠ [].
Proof.
  unfold inside. destruct (below (str_split slash base) segments) as [r|] eqn:E.
  - apply below_Some in E as ->. destruct r; naive_solver.
  - split; [done|]. intros [Hs%below_Some _]. congruence.
Qed.

Lemma join_with_app base rest :
  base ≠ [] → rest ≠ [] → join_with slash (base ++ rest) = join_with slash base +:+ String slash (join_with slash rest).
Proof.
  intros Hb Hr. induction base as [|b base IH]; [done|]. destruct base as [|c base]; cbn [app].
  - by destruct rest.
  - change (join_with slash (b :: c :: base ++ rest)) with (b +:+ String slash (join_with slash ((c :: base) ++ rest))).
    rewrite IH by done.
    change (join_with slash (b :: c :: base)) with (b +:+ String slash (join_with slash (c :: base))).
    by rewrite str_app_assoc.
Qed.

Lemma strip_prefix_segments base path :
  strip_prefix (base +:+ "/") path = join_with slash <$> inside base (str_split slash path).
Proof.
  apply option_eq. intros t. rewrite strip_prefix_spec, fmap_Some. split.
  - intros ->. exists (str_split slash t). rewrite join_with_split, inside_Some. split; [|done].
    split; [|apply str_split_nonnil]. rewrite str_app_assoc. apply str_split_app.
  - intros (rest&[Hs Hr]%inside_Some&->). rewrite <-(join_with_split slash path), Hs, join_with_app, join_with_split
      by (try done; apply str_split_nonnil).
    by rewrite str_app_assoc.
Qed.

Lemma str_rev_append a b : str_rev (a +:+ b) = str_rev b +:+ str_rev a.
Proof.
  induction a as [|c a IH]; [by rewrite str_app_nil_r|]. by rewrite str_app_cons, !str_rev_cons, IH, str_app_assoc.
Qed.

Lemma under_segment_segments base path : under_segment path base = at_or_inside base (str_split slash path).
Proof.
  unfold under_segment, at_or_inside, starts_with. rewrite strip_prefix_segments.
  apply eq_bool_prop_intro. rewrite orb_True, !bool_decide_spec, fmap_is_Some.
  split.
  - intros [->%Is_true_true%String.eqb_eq|[rest [Hs _]%inside_Some]].
    + exists []. apply below_Some. by rewrite app_nil_r.
    + exists rest. by apply below_Some.
  - intros [[|s rest] Hs%below_Some].
    + left. apply Is_true_true, String.eqb_eq. rewrite app_nil_r in Hs.
      by rewrite <-(join_with_split slash path), Hs, join_with_split.
    + right. exists (s :: rest). by apply inside_Some.
Qed.
Lemma at_path_segments path lit : String.eqb path lit = at_path lit (str_split slash path).
Proof.
  unfold at_path. apply eq_bool_prop_intro. rewrite bool_decide_spec, Is_true_true, String.eqb_eq.
  split; [by intros ->|]. intros Hs. by rewrite <-(join_with_split slash path), Hs, join_with_split.
Qed.

Lemma single_account_segments rest :
  Forall (λ s, str_mem slash s = false) rest → rest ≠ [] →
  single_account (join_with slash rest) = match rest with [id] => negb (is_empty id) | _ => false end.
Proof. intros Hf Hr. unfold single_account. by rewrite str_split_join. Qed.

Lemma strip_suffix_spec suffix s t : strip_suffix suffix s = Some t ↔ s = t +:+ suffix.
Proof.
  unfold strip_suffix. destruct (strip_prefix _ _) as [rest|] eqn:E.
  - apply strip_prefix_spec in E. split.
    + intros [= <-]. by rewrite <-(str_rev_involutive s), E, str_rev_append, str_rev_involutive.
    + intros ->. rewrite str_rev_append in E. apply (inj _) in E as <-. by rewrite str_rev_involutive.
  - split; [done|]. intros ->. rewrite str_rev_append in E.
    assert (strip_prefix (str_rev suffix) (str_rev suffix +:+ str_rev t) = Some (str_rev t)) as Hs
      by by apply strip_prefix_spec. congruence.
Qed.

Lemma refreshed_account_segments rest :
  Forall (λ s, str_mem slash s = false) rest → rest ≠ [] →
  refreshed_account (join_with slash rest) =
  match rest with [id; last] => negb (is_empty id) && String.eqb last "refresh" | _ => false end.
Proof.
  intros Hf Hr. unfold refreshed_account. destruct (strip_suffix "/refresh" _) as [id|] eqn:E.
  - apply strip_suffix_spec in E. assert (rest = str_split slash id ++ ["refresh"]) as ->.
    { rewrite <-(str_split_join slash rest), E by done. exact (str_split_app slash id "refresh"). }
    destruct (str_mem slash id) eqn:Hid.
    + rewrite andb_false_r. destruct (str_split slash id) as [|a [|b xs]] eqn:Es.
      * by apply str_split_nonnil in Es.
      * assert (id = a) as -> by by rewrite <-(join_with_split slash id), Es.
        rewrite (str_split_no_sep slash a a) in Hid; [done|]. rewrite Es. by left.
      * by destruct xs.
    + rewrite (str_split_clean _ _ Hid). done.
  - destruct rest as [|id [|last [|]]]; try done. destruct (String.eqb_spec last "refresh") as [->|]; [|by rewrite andb_false_r].
    assert (strip_suffix "/refresh" (join_with slash [id; "refresh"]) = Some id) as Hs by by apply strip_suffix_spec.
    congruence.
Qed.

Lemma inside_clean base path rest :
  inside base (str_split slash path) = Some rest → Forall (λ s, str_mem slash s = false) rest ∧ rest ≠ [].
Proof.
  intros [Hs Hr]%inside_Some. split; [|done]. apply Forall_forall. intros s Hin.
  apply (str_split_no_sep slash path). rewrite Hs. apply elem_of_app. by right.
Qed.

(** A test on what follows a prefix, as a test on the segments below it. *)
Lemma inside_test {A} (base path : string) (f : string → A) (g : list string → A) (d : A) :
  (∀ rest, Forall (λ s, str_mem slash s = false) rest → rest ≠ [] → f (join_with slash rest) = g rest) →
  match strip_prefix (base +:+ "/") path with Some suffix => f suffix | None => d end =
  match inside base (str_split slash path) with Some rest => g rest | None => d end.
Proof.
  intros Hfg. rewrite strip_prefix_segments. destruct (inside base _) as [rest|] eqn:E; [|done].
  apply inside_clean in E as [Hf Hr]. by apply Hfg.
Qed.

(** The catalog compares texts; that is the same as comparing whole segments. *)
Lemma route_permission_segments method path :
  route_permission method path = segment_permission method (str_split slash path).
Proof.
  unfold route_permission, segment_permission.
  change (String.eqb path "/api/v1/center/admin/controllers" || starts_with "/api/v1/center/admin/controllers/" path)
    with (under_segment path "/api/v1/center/admin/controllers").
  rewrite !at_path_segments, !under_segment_segments.
  assert (∀ base, starts_with (base +:+ "/") path = bool_decide (is_Some (inside base (str_split slash path)))) as Hin.
  { intros base. unfold starts_with. rewrite strip_prefix_segments. apply bool_decide_ext, fmap_is_Some. }
  assert (is_cloudflare_remote_control_path path =
    match inside "/api/v1/center/cloudflare/dns/accounts" (str_split slash path) with
    | Some rest => remote_control_segments rest | None => false end) as ->.
  { apply (inside_test "/api/v1/center/cloudflare/dns/accounts"). intros rest Hf Hr. by rewrite str_split_join. }
  assert (route53_dns_route path =
    inside "/api/v1/center/aws/route53/accounts" (str_split slash path) ≫= route53_segments) as ->.
  { apply (inside_test "/api/v1/center/aws/route53/accounts"). intros rest Hf Hr. by rewrite str_split_join. }
  rewrite (Hin "/api/v1/proxy" : starts_with "/api/v1/proxy/" path = _),
    (Hin "/api/v1/controllers" : starts_with "/api/v1/controllers/" path = _).
  assert (with_suffix "/api/v1/center/cloud/provider-capabilities/accounts/" path single_account =
    match inside "/api/v1/center/cloud/provider-capabilities/accounts" (str_split slash path) with
    | Some [id] => negb (is_empty id) | _ => false end) as ->.
  { etrans; [exact (inside_test "/api/v1/center/cloud/provider-capabilities/accounts" path _ _ false
      single_account_segments)|]. by destruct (inside _ _) as [[|? [|]]|]. }
  assert (with_suffix "/api/v1/center/cloud/provider-credential-inspections/accounts/" path refreshed_account =
    match inside "/api/v1/center/cloud/provider-credential-inspections/accounts" (str_split slash path) with
    | Some [id; last] => negb (is_empty id) && String.eqb last "refresh" | _ => false end) as ->.
  { etrans; [exact (inside_test "/api/v1/center/cloud/provider-credential-inspections/accounts" path _ _ false
      refreshed_account_segments)|]. by destruct (inside _ _) as [[|? [|? [|]]]|]. }
  reflexivity.
Qed.

(** ** Routes and their permissions *)

Lemma match_literal l ps ss :
  match_segments (Literal l :: ps) ss = true → ∃ ss', ss = l :: ss' ∧ match_segments ps ss' = true.
Proof. destruct ss as [|s ss]; [done|]. cbn. intros [->%String.eqb_eq Hm]%andb_true_iff. by exists ss. Qed.
Lemma match_capture ps ss :
  match_segments (Capture :: ps) ss = true →
  ∃ c s ss', ss = String c s :: ss' ∧ match_segments ps ss' = true.
Proof. destruct ss as [|[|c s] ss]; try done. cbn. intros Hm. by exists c, s, ss. Qed.
Lemma match_catch_all ss : match_segments [CatchAll] ss = true → ∃ s ss', ss = s :: ss'.
Proof. destruct ss as [|s ss]; [done|]. by exists s, ss. Qed.
Lemma match_end ss : match_segments [] ss = true → ss = [].
Proof. by destruct ss. Qed.

Ltac invert_match :=
  repeat match goal with
  | H : match_segments (Literal _ :: _) _ = true |- _ => apply match_literal in H as (?&->&H)
  | H : match_segments (Capture :: _) _ = true |- _ => apply match_capture in H as (?&?&?&->&H)
  | H : match_segments [CatchAll] _ = true |- _ => apply match_catch_all in H as (?&?&->)
  | H : match_segments [] _ = true |- _ => apply match_end in H as ->
  end.

Definition all_routes : list route :=
  center_routes ++ controller_history_routes ++ global_resources_routes ++ user_routes ++ role_routes
  ++ audit_routes ++ cloudflare_dns_read_routes ++ cloudflare_dns_write_routes ++ route53_dns_read_routes
  ++ route53_write_routes ++ route53_lifecycle_routes ++ provider_account_routes ++ provider_capability_routes
  ++ credential_inspection_routes.

Definition permitted (method : Method) (segments : list string) (h : handler) : Prop :=
  segment_permission method segments = Some (required h method) ∨
  (method = HEAD ∧ route53_read h = true ∧ segment_permission HEAD segments = None).

Definition route_ok (r : route) : Prop :=
  ∀ segments, match_segments (map segment_of (str_split slash r.1)) segments = true →
    is_business_path (join_with slash segments) = true ∧
    Forall (λ fh : MethodFilter * handler, ∀ method, accepts fh.1 method = true → permitted method segments fh.2) r.2.

Ltac solve_route :=
  intros segments Hm;
  match type of Hm with match_segments ?p _ = true => let q := eval vm_compute in p in change p with q in Hm end;
  invert_match; split; [vm_compute; reflexivity|];
  repeat apply Forall_cons_2; try apply Forall_nil_2; intros [] Ha; try discriminate Ha;
  first [left; vm_compute; reflexivity | right; vm_compute; split_and!; reflexivity].

Lemma all_routes_ok : Forall route_ok all_routes.
Proof.
  repeat apply Forall_app_2; repeat apply Forall_cons_2; try apply Forall_nil_2; solve_route.
Qed.

(** Two patterns that some path matches. *)
Fixpoint overlap (p q : list segment) : bool :=
  match p, q with
  | [], [] => true
  | CatchAll :: _, _ | _, CatchAll :: _ => true
  | Literal a :: p, Literal b :: q => String.eqb a b && overlap p q
  | Literal _ :: p, Capture :: q | Capture :: p, Literal _ :: q | Capture :: p, Capture :: q => overlap p q
  | _, _ => false
  end.
Lemma overlap_sound p q ss : match_segments p ss = true → match_segments q ss = true → overlap p q = true.
Proof.
  revert q ss. induction p as [|[a| |] p IH]; intros q ss Hp Hq.
  - apply match_end in Hp as ->. destruct q as [|[]]; try done.
  - apply match_literal in Hp as (ss'&->&Hp). destruct q as [|[b| |] q]; [done|..|done].
    + apply match_literal in Hq as (?&[= <- <-]&Hq). cbn. rewrite String.eqb_refl. by eapply IH.
    + apply match_capture in Hq as (?&?&?&[= ? <-]&Hq). by eapply IH.
  - apply match_capture in Hp as (c&s&ss'&->&Hp). destruct q as [|[b| |] q]; [done|..|done].
    + apply match_literal in Hq as (?&[= ? <-]&Hq). by eapply IH.
    + apply match_capture in Hq as (?&?&?&[= ? ? <-]&Hq). by eapply IH.
  - done.
Qed.

Definition entry := (list segment * MethodFilter * handler)%type.
Definition entries (routes : list route) : list entry :=
  routes ≫= λ r, map (λ fh, (map segment_of (str_split slash r.1), fh.1, fh.2)) r.2.
Definition both_accept (f g : MethodFilter) : bool :=
  match f, g with
  | any, _ | _, any => true
  | get, get | post, post | put, put | patch, patch | delete, delete => true
  | _, _ => false
  end.
Lemma both_accept_sound f g method : accepts f method = true → accepts g method = true → both_accept f g = true.
Proof. destruct f, g, method; (reflexivity || discriminate). Qed.

Definition served (e : entry) (method : Method) (path : string) : bool :=
  match_segments e.1.1 (str_split slash path) && accepts e.1.2 method.
Definition serves (routes : list route) (method : Method) (path : string) (h : handler) : Prop :=
  ∃ e, e ∈ entries routes ∧ served e method path = true ∧ e.2 = h.

Lemma distinct_entries :
  Forall (λ e : entry, Forall (λ e' : entry, bool_decide (e.2 = e'.2) ||
    negb (overlap e.1.1 e'.1.1 && both_accept e.1.2 e'.1.2) = true) (entries all_routes)) (entries all_routes).
Proof. apply (bool_decide_unpack _). vm_compute. exact I. Qed.

(** At most one handler serves a request, so the order of the table is irrelevant. *)
Lemma serves_unique method path h h' :
  serves all_routes method path h → serves all_routes method path h' → h = h'.
Proof.
  intros (e&He&[Hm Ha]%andb_true_iff&<-) (e'&He'&[Hm' Ha']%andb_true_iff&<-).
  pose proof distinct_entries as Hd. rewrite Forall_forall in Hd. specialize (Hd e He). cbv beta in Hd.
  rewrite Forall_forall in Hd. specialize (Hd e' He'). cbv beta in Hd.
  rewrite (overlap_sound _ _ _ Hm Hm'), (both_accept_sound _ _ _ Ha Ha'), orb_false_r in Hd.
  by apply bool_decide_eq_true in Hd.
Qed.

Lemma dispatch_serves routes method path h : dispatch routes method path = Some h → serves routes method path h.
Proof.
  unfold dispatch. intros Hh%head_Some_elem_of. apply list_elem_of_omap in Hh as ([f h']&Hin&Ha). cbn in Ha.
  destruct (accepts f method) eqn:Ef; [|done]. injection Ha as ->.
  unfold handlers_at in Hin. apply list_elem_of_bind in Hin as (r&Hin&Hr).
  destruct (matches r.1 path) eqn:Em; [|by apply not_elem_of_nil in Hin].
  exists (map segment_of (str_split slash r.1), f, h). split; [|split; [by apply andb_true_iff|done]].
  apply list_elem_of_bind. exists r. split; [|done]. apply list_elem_of_In, in_map_iff.
  exists (f, h). split; [done|]. by apply list_elem_of_In.
Qed.

Lemma router_routes state configured r : r ∈ router state configured → r ∈ all_routes.
Proof.
  assert (∀ b rs, r ∈ mounted b rs → r ∈ rs) as Hm by (by intros [] rs; [|intros ?%not_elem_of_nil]).
  unfold router, all_routes. rewrite !elem_of_app. naive_solver.
Qed.
Lemma serves_mono (P Q : list route) method path h :
  (∀ r, r ∈ P → r ∈ Q) → serves P method path h → serves Q method path h.
Proof.
  intros Hs (e&(r&Hin&Hr)%list_elem_of_bind&He). exists e. split; [|done].
  apply list_elem_of_bind. exists r. split; [done|]. by apply Hs.
Qed.

Definition auth_handler (h : handler) : bool :=
  match h with login_handler | logout_handler | me_handler | status_handler => true | _ => false end.
Lemma serves_business method path h : serves all_routes method path h → auth_handler h = false.
Proof.
  intros (e&He&_&<-). assert (Forall (λ e : entry, auth_handler e.2 = false) (entries all_routes)) as Hf
    by (apply (bool_decide_unpack _); vm_compute; exact I).
  rewrite Forall_forall in Hf. exact (Hf e He).
Qed.
Lemma keys_separate h method :
  auth_handler h = false →
  required h method ∈ all_keys ∧ (changes h method = true → required h method ∉ read_keys).
Proof.
  intros Hp. destruct h; try discriminate Hp;
    (split; [apply (bool_decide_unpack _); destruct method; vm_compute; exact I|]);
    (intros Hc; try discriminate Hc; apply (bool_decide_unpack _); destruct method; try discriminate Hc; vm_compute; exact I).
Qed.

Lemma serves_permitted method path h :
  serves all_routes method path h →
  is_business_path path = true ∧ permitted method (str_split slash path) h.
Proof.
  intros (e&(r&Hin&Hr)%list_elem_of_bind&[Hm Ha]%andb_true_iff&<-).
  pose proof all_routes_ok as Hok. rewrite Forall_forall in Hok. specialize (Hok r Hr).
  apply list_elem_of_In, in_map_iff in Hin as ([f h]&<-&Hin). cbn in *.
  destruct (Hok _ Hm) as [Hb Hp]. rewrite join_with_split in Hb. split; [done|].
  rewrite Forall_forall in Hp. apply list_elem_of_In in Hin. by apply (Hp _ Hin).
Qed.

(** The matrix of the catalog shows every key once. *)
Lemma catalog_groups_cover_all_keys key :
  NoDup (catalog_groups ≫= pg_keys) ∧ (key ∈ catalog_groups ≫= pg_keys ↔ is_known_key key = true).
Proof.
  split; [apply (bool_decide_unpack _); vm_compute; exact I|].
  unfold is_known_key. rewrite bool_decide_eq_true. vm_compute. set_solver.
Qed.

(** The captures of a path, and the controller that a handler acts on. *)
Fixpoint captured (pattern : list segment) (segments : list string) : list string :=
  match pattern, segments with
  | [CatchAll], _ => [join_with slash segments]
  | Capture :: pattern, s :: segments => s :: captured pattern segments
  | _ :: pattern, _ :: segments => captured pattern segments
  | _, _ => []
  end.
Definition path_id `{PercentCodec} (pattern path : string) : option string :=
  id_raw ← head (captured (map segment_of (str_split slash pattern)) (str_split slash path)) ≫= decode_utf8;
  Some (replace_char tilde slash id_raw).
Definition target_pattern (h : handler) : option string :=
  match h with
  | reload_controller => Some "/api/v1/controllers/{id}/reload"
  | delete_admin_controller => Some "/api/v1/center/admin/controllers/{id}"
  | _ => None
  end.

Lemma serves_pattern method path h :
  serves all_routes method path h → ∃ r f, r ∈ all_routes ∧ (f, h) ∈ r.2 ∧
    match_segments (map segment_of (str_split slash r.1)) (str_split slash path) = true ∧ accepts f method = true.
Proof.
  intros (e&(r&Hin&Hr)%list_elem_of_bind&[Hm Ha]%andb_true_iff&<-).
  apply list_elem_of_In, in_map_iff in Hin as ([f h]&<-&Hin). exists r, f. split_and!; [done|by apply list_elem_of_In|done|done].
Qed.

(** What matching a route says about the rest of the request. *)
Definition route_facts (r : route) : Prop :=
  ∀ segments, match_segments (map segment_of (str_split slash r.1)) segments = true →
    Forall (λ fh : MethodFilter * handler,
      (∀ pattern, target_pattern fh.2 = Some pattern → pattern = r.1 ∧
         ∃ base id rest, segments = str_split slash base ++ id :: rest ∧ is_empty id = false ∧
           (base = "/api/v1/center/admin/controllers" ∨ base = "/api/v1/controllers") ∧
           head (captured (map segment_of (str_split slash r.1)) segments) = Some id) ∧
      (fh.2 = provider_accounts_create ∨ fh.2 = provider_accounts_replace →
         (fh.1 = post ∨ fh.1 = put) ∧
         (at_path "/api/v1/center/cloud/provider-accounts" segments = true ∨
          is_Some (inside "/api/v1/center/cloud/provider-accounts" segments))) ∧
      (segments = str_split slash "/api/v1/server-info" → fh.2 = server_info)) r.2.

Ltac solve_facts :=
  intros segments Hm;
  match type of Hm with match_segments ?p _ = true => let q := eval vm_compute in p in change p with q in Hm end;
  invert_match; repeat apply Forall_cons_2; try apply Forall_nil_2;
  (split; [intros pattern Ht; first [discriminate Ht | injection Ht as <-; split; [reflexivity|]]
          |split; [intros [Hh|Hh]; first [discriminate Hh|idtac]|try (intros Hc; discriminate Hc); try reflexivity]]).
Lemma all_routes_facts : Forall route_facts all_routes.
Proof.
  repeat apply Forall_app_2; repeat apply Forall_cons_2; try apply Forall_nil_2; solve_facts.
  - eexists "/api/v1/controllers", _, ["reload"]. split; [reflexivity|]. split; [reflexivity|]. split; [by right|reflexivity].
  - eexists "/api/v1/center/admin/controllers", _, []. split; [reflexivity|]. split; [reflexivity|].
    split; [by left|reflexivity].
  - split; [by left|]. left. by vm_compute.
  - split; [by right|]. right. eexists. vm_compute. reflexivity.
Qed.

Lemma encoded_id_segments path :
  encoded_controller_id path =
  match inside "/api/v1/center/admin/controllers" (str_split slash path) with
  | Some rest => Some rest
  | None => inside "/api/v1/controllers" (str_split slash path)
  end ≫= λ rest, head rest ≫= λ id, if is_empty id then None else Some id.
Proof.
  unfold encoded_controller_id.
  rewrite (strip_prefix_segments "/api/v1/center/admin/controllers" path
             : strip_prefix "/api/v1/center/admin/controllers/" path = _),
    (strip_prefix_segments "/api/v1/controllers" path : strip_prefix "/api/v1/controllers/" path = _).
  destruct (inside "/api/v1/center/admin/controllers" _) as [rest|] eqn:E.
  - apply inside_clean in E as [Hf Hr]. cbn. by rewrite str_split_join.
  - cbn [fmap option_fmap option_map]. destruct (inside "/api/v1/controllers" _) as [rest|] eqn:E'; [|done].
    apply inside_clean in E' as [Hf Hr]. cbn. by rewrite str_split_join.
Qed.

(** The controller whose policy is asked is the one the handler acts on. *)
Lemma target_authorized `{PercentCodec} method path h key action pattern :
  serves all_routes method path h → target_pattern h = Some pattern →
  action_for_request key method path = Ok action →
  ac_controller_id action ≠ None ∧ ac_controller_id action = path_id pattern path.
Proof.
  intros (r&f&Hr&Hin&Hm&_)%serves_pattern Hp Ha. pose proof all_routes_facts as Hf.
  rewrite Forall_forall in Hf. pose proof (Hf r Hr _ Hm) as Hh. rewrite Forall_forall in Hh.
  destruct (Hh _ Hin) as (Ht&_&_). destruct (Ht _ Hp) as (->&base&id&rest&Hs&Hid&Hb&Hc).
  assert (encoded_controller_id path = Some id) as He.
  { rewrite encoded_id_segments, Hs. destruct Hb as [->| ->]; cbn; by rewrite Hid. }
  unfold action_for_request in Ha. rewrite He in Ha. unfold path_id. rewrite Hc. cbn [mbind option_bind].
  destruct (decode_utf8 id) as [decoded|]; cbn [ok_or] in Ha; [|done].
  destruct (ControllerId_new (replace_char tilde slash decoded)) as [cid|] eqn:Ec; cbn [map_err] in Ha; [|done].
  injection Ha as <-. cbn. split; [done|]. apply identifier_new_Ok in Ec. naive_solver.
Qed.

Lemma credential_referenced method path h :
  serves all_routes method path h → h = provider_accounts_create ∨ h = provider_accounts_replace →
  (method = POST ∨ method = PUT) ∧ (String.eqb path "/api/v1/center/cloud/provider-accounts"
    || starts_with "/api/v1/center/cloud/provider-accounts/" path) = true.
Proof.
  intros (r&f&Hr&Hin&Hm&Ha)%serves_pattern Hh. pose proof all_routes_facts as Hf.
  rewrite Forall_forall in Hf. pose proof (Hf r Hr _ Hm) as Hg. rewrite Forall_forall in Hg.
  destruct (Hg _ Hin) as (_&Hcr&_). destruct (Hcr Hh) as [Hfm Hp]. cbn in Hfm. split.
  - destruct Hfm as [->| ->]; cbn in Ha; apply bool_decide_eq_true in Ha; auto.
  - rewrite at_path_segments. apply orb_true_iff. destruct Hp as [Hp|Hp]; [by left|right].
    unfold starts_with. rewrite (strip_prefix_segments "/api/v1/center/cloud/provider-accounts" path
      : strip_prefix "/api/v1/center/cloud/provider-accounts/" path = _). apply bool_decide_eq_true, fmap_is_Some, Hp.
Qed.

Lemma server_info_path method h : serves all_routes method "/api/v1/server-info" h → h = server_info.
Proof.
  intros (r&f&Hr&Hin&Hm&_)%serves_pattern. pose proof all_routes_facts as Hf.
  rewrite Forall_forall in Hf. pose proof (Hf r Hr _ Hm) as Hg. rewrite Forall_forall in Hg.
  by apply (Hg _ Hin).
Qed.

(** C18.  The permission catalog and the router agree.  Whatever is composed, a request
    that the router serves is on a business path, has one handler (the order of the
    table and the merging of routers do not matter), and the catalog asks for exactly
    the key of that handler, whatever the captured segments are; only HEAD of a
    Route 53 read has no key.  Every key is one of the catalog, and a handler that
    changes something never hides behind a key for reading. *)
Theorem router_permissions (state : Composition) (configured : CenterCapabilities) (method : Method)
    (path : string) (h : handler) :
  dispatch (router state configured) method path = Some h →
  is_business_path path = true ∧
  (∀ h', serves all_routes method path h' → h' = h) ∧
  (route_permission method path = Some (required h method) ∨
   (method = HEAD ∧ route53_read h = true ∧ route_permission method path = None)) ∧
  required h method ∈ all_keys ∧
  (changes h method = true → required h method ∉ read_keys).
Proof.
  intros Hd%dispatch_serves%(serves_mono _ all_routes); [|apply router_routes].
  destruct (serves_permitted _ _ _ Hd) as [Hb Hp]. split; [done|]. split; [|split].
  - intros h' Hh. by eapply serves_unique.
  - rewrite route_permission_segments. destruct Hp as [Hp|(->&Hp)]; [by left|by right].
  - eapply keys_separate, serves_business, Hd.
Qed.

Definition demo_everything : CenterCapabilities :=
  mkCapabilities true true true true true true true true true true true true true true true true.
Definition demo_composition : Composition := mkComposition true true true true true true true true.
Definition demo_remote_path : string :=
  "/api/v1/center/cloudflare/dns/accounts/acc/zones/zone/record-sets/A/remote-control".
Lemma router_permissions_witness :
  dispatch (router demo_composition demo_everything) PUT demo_remote_path = Some cloudflare_put_remote_record_set ∧
  route_permission PUT demo_remote_path = Some CLOUDFLARE_DNS_REMOTE_WRITE.
Proof.
  assert (dispatch (router demo_composition demo_everything) PUT demo_remote_path =
    Some cloudflare_put_remote_record_set) as Hd by (vm_compute; reflexivity).
  split; [exact Hd|].
  destruct (router_permissions _ _ _ _ _ Hd) as (_&_&[Hr|(Hh&_)]&_); [exact Hr|discriminate Hh].
Defined.
