(* ===== verification/Oidc.v ===== *)
(** * Oidc: bearer tokens of an identity provider

    [crates/center-app/src/common/auth/{config,public_paths,oidc,jwt_middleware}.rs]
    and [common/local_auth/config.rs]: the configuration of authentication and the
    validation of a token against keys that are discovered and cached.  Discovery,
    clocks, cache and lock are calls of a port; JOSE headers, JSON and signatures are
    the class [Jose].  Any number of validations share one cache. *)

From Stdlib Require Import ZArith Ascii String Lia.
From S2P Require Import Prelude Text Effects Json.

(** ** Public paths *)

Definition PUBLIC_PROBE_PATHS : list string := ["/health"; "/ready"; "/metrics"].
Definition PUBLIC_AUTH_ENDPOINTS : list string :=
  ["/api/v1/auth/login"; "/api/v1/auth/logout"; "/api/v1/auth/status"].
Definition PUBLIC_DISCOVERY_ENDPOINTS : list string := ["/api/v1/server-info"].
Definition AUTH_ENDPOINT_PREFIX : string := "/api/v1/auth/".
Definition is_public_probe (path : string) : bool := bool_decide (path ∈ PUBLIC_PROBE_PATHS).
Definition is_public_auth_endpoint (path : string) : bool := bool_decide (path ∈ PUBLIC_AUTH_ENDPOINTS).
Definition is_public_discovery_endpoint (path : string) : bool := bool_decide (path ∈ PUBLIC_DISCOVERY_ENDPOINTS).
Definition is_static_public (path : string) : bool :=
  is_public_probe path || is_public_auth_endpoint path || is_public_discovery_endpoint path.
Definition is_skip_allowlisted (path : string) : bool := is_public_probe path || starts_with AUTH_ENDPOINT_PREFIX path.

(** ** Configuration *)

Record AdminAuthConfig := mkAuthConfig {
  auc_enabled : bool;
  auc_discovery : string;
  auc_logout_path : option string;
  auc_audiences : list string;
  auc_issuers : list string;
  auc_allowed_algorithms : list string;
  auc_groups_claim : string;
  auc_clock_skew_seconds : Z;
  auc_jwks_cache_ttl : Z;
  auc_jwks_min_refresh_interval : Z;
  auc_skip_paths : list string;
  auc_ssl_verify : bool;
  auc_ca_file : option string;
  auc_discovery_max_response_bytes : Z;
  auc_jwks_max_response_bytes : Z;
}.
Definition AdminAuthConfig_default : AdminAuthConfig :=
  mkAuthConfig true "" None [] [] [] "groups" 120 300 10 PUBLIC_PROBE_PATHS true None 65536 1048576.

Definition SKIP_PATHS_ALLOWLIST_ERR : string :=
  "skip_paths entries must be exactly /health, /ready, /metrics, or start with /api/v1/auth/".

(** The first check that fails. *)
Fixpoint first_error (checks : list (bool * string)) : option string :=
  match checks with
  | [] => None
  | (failed, message) :: checks => if failed then Some message else first_error checks
  end.

Definition AdminAuthConfig_validate (c : AdminAuthConfig) : option string :=
  if negb (auc_enabled c) then None
  else first_error
    [(is_empty (auc_discovery c), "auth.discovery is required when auth is enabled");
     (is_some_and (λ path, negb (starts_with "/" path) || starts_with "//" path
                           || str_mem ch_backslash path || has_control path) (auc_logout_path c),
      "auth.logout_path must be a same-origin absolute path without backslashes or control characters");
     (negb (starts_with "https://" (auc_discovery c)) && negb (starts_with "http://" (auc_discovery c)),
      "auth.discovery must start with http:// or https://");
     ((auc_jwks_cache_ttl c =? 0)%Z, "auth.jwks_cache_ttl must be greater than 0");
     ((auc_jwks_min_refresh_interval c =? 0)%Z, "auth.jwks_min_refresh_interval must be greater than 0");
     ((auc_discovery_max_response_bytes c =? 0)%Z, "auth.discovery_max_response_bytes must be greater than 0");
     ((auc_jwks_max_response_bytes c =? 0)%Z, "auth.jwks_max_response_bytes must be greater than 0");
     (is_empty (auc_groups_claim c) || (128 <? str_len (auc_groups_claim c))%Z || has_control (auc_groups_claim c),
      "auth.groups_claim must be a non-empty claim name of at most 128 bytes");
     (is_some_and (λ path, is_empty (str_trim path)) (auc_ca_file c), "auth.ca_file must not be empty when configured");
     (existsb (λ p, negb (is_skip_allowlisted p)) (auc_skip_paths c), SKIP_PATHS_ALLOWLIST_ERR)].

Record LocalAuthConfig := mkLocalConfig {
  lac_enabled : bool;
  lac_username : string;
  lac_password : string;
  lac_jwt_secret : string;
  lac_jwt_expiry_hours : Z;
  lac_skip_paths : list string;
  lac_cookie_secure : bool;
}.
Definition LocalAuthConfig_default : LocalAuthConfig := mkLocalConfig true "admin" "" "" 24 PUBLIC_PROBE_PATHS true.
(** The environment as a function; an unset or non-Unicode variable is [None]. *)
Definition apply_env_overrides (env : string → option string) (c : LocalAuthConfig) : LocalAuthConfig :=
  let over (name current : string) :=
    match env name with Some v => if is_empty v then current else v | None => current end in
  mkLocalConfig (lac_enabled c) (over "EDGION_ADMIN_USERNAME" (lac_username c))
    (over "EDGION_ADMIN_PASSWORD" (lac_password c)) (over "EDGION_ADMIN_JWT_SECRET" (lac_jwt_secret c))
    (lac_jwt_expiry_hours c) (lac_skip_paths c) (lac_cookie_secure c).
Definition env_overrides_present (env : string → option string) : bool :=
  existsb (λ k, match env k with Some v => negb (is_empty v) | None => false end)
    ["EDGION_ADMIN_USERNAME"; "EDGION_ADMIN_PASSWORD"; "EDGION_ADMIN_JWT_SECRET"].
Definition LocalAuthConfig_validate (c : LocalAuthConfig) : option string :=
  if negb (lac_enabled c) then None
  else first_error
    [(is_empty (lac_username c), "local_auth.username must not be empty");
     (is_empty (lac_password c), "local_auth.password must not be empty");
     (is_empty (lac_jwt_secret c), "local_auth.jwt_secret must not be empty");
     ((lac_jwt_expiry_hours c =? 0)%Z, "local_auth.jwt_expiry_hours must be greater than 0");
     (existsb (λ p, negb (is_skip_allowlisted p)) (lac_skip_paths c), SKIP_PATHS_ALLOWLIST_ERR)].

(** ** Keys and tokens *)

Record JoseHeader := mkJoseHeader { jh_alg : string; jh_kid : option string }.

(** What the OIDC, base64 and JSON libraries provide. *)
Class Jose := {
  Jwk : Type;
  key_id : Jwk → option string;
  verify_signature : Jwk → string → string → string → result () string;
  known_alg : string → bool;
  b64url_decode : string → result string string;
  parse_header : string → result JoseHeader string;
  parse_claims : string → result Value string;
  parse_issuer_url : string → result string string;
}.

Definition DEFAULT_ALLOWED_ALGS : list string := ["RS256"; "RS384"; "RS512"; "ES256"; "ES384"].

Fixpoint trim_start_char (c : ascii) (s : string) : string :=
  match s with
  | String d t => if Ascii.eqb c d then trim_start_char c t else s
  | EmptyString => EmptyString
  end.
Definition trim_end_char (c : ascii) (s : string) : string := str_rev (trim_start_char c (str_rev s)).
Definition WELL_KNOWN : string := "/.well-known/openid-configuration".
Definition derive_issuer (discovery : string) : string :=
  let trimmed := trim_end_char slash discovery in
  match strip_prefix (str_rev WELL_KNOWN) (str_rev trimmed) with
  | Some stripped => str_rev stripped
  | None => trimmed
  end.

(** [Value::as_i64] on the number as it is printed. *)
Definition as_i64 (v : Value) : option Z :=
  match v with
  | Number repr =>
      match repr with
      | String c digits =>
          if Ascii.eqb c ch_dash then
            match parse_u64 digits with
            | Some n => if (0 <? n)%Z && (n <=? I64_MAX + 1)%Z && is_some_and is_ascii_digit (str_head digits)
                        then Some (- n)%Z else None
            | None => None
            end
          else
            match parse_u64 repr with
            | Some n => if (n <=? I64_MAX)%Z && is_ascii_digit c then Some n else None
            | None => None
            end
      | EmptyString => None
      end
  | _ => None
  end.
(** Release builds wrap. *)
Definition i64_wrap (z : Z) : Z := ((z + 2 ^ 63) mod 2 ^ 64 - 2 ^ 63)%Z.

Definition extract_audiences (claims : Value) : list string :=
  match get "aud" claims with
  | Some (Str s) => [s]
  | Some (Array items) => omap as_str items
  | _ => []
  end.

Inductive VerifyError := KidNotFound | Message (message : string).
Definition VerifyError_message (e : VerifyError) : string :=
  match e with KidNotFound => "Unknown signing key" | Message m => m end.

Record OidcClaims := mkOidcClaims { oc_sub : option string; oc_iss : option string; oc_claims : Value }.

Section provider.
Context `{Jose}.

(** Durations are seconds; instants are readings of a monotonic clock. *)
Record CachedKeys := mkCached { ck_jwks : list Jwk; ck_issuer : string; ck_fetched_at : Z }.
Record OidcProvider := mkProvider {
  op_issuer_url : string;
  op_ttl : Z;
  op_min_refresh_interval : Z;
  op_audiences : list string;
  op_issuers : list string;
  op_allowed_algorithms : list string;
  op_clock_skew_seconds : Z;
}.

(** [client] is the construction of the HTTP client with its trust anchors. *)
Definition OidcProvider_from_config (client : AdminAuthConfig → result () string) (c : AdminAuthConfig) :
    result OidcProvider string :=
  let? _ := client c in
  let? issuer_url := map_err (λ e, "Invalid OIDC issuer URL: " +:+ e) (parse_issuer_url (derive_issuer (auc_discovery c))) in
  Ok (mkProvider issuer_url (auc_jwks_cache_ttl c) (auc_jwks_min_refresh_interval c) (auc_audiences c)
        (auc_issuers c) (auc_allowed_algorithms c) (auc_clock_skew_seconds c)).

Inductive oidc_call : Type → Type :=
| ReadCache : oidc_call (option CachedKeys)
| WriteCache (keys : CachedKeys) : oidc_call ()
| InstantNow : oidc_call Z
| LockFetch : oidc_call ()
| UnlockFetch : oidc_call ()
| Discover (issuer_url : string) : oidc_call (result (list Jwk * string) string)
| UnixNow : oidc_call (option Z).

(** ** Fetching keys *)

Definition elapsed (now since : Z) : Z := Z.max (now - since) 0.

(** The guard of the fetch lock is dropped on every way out. *)
Definition unlocking {A} (a : A) : prog oidc_call A := _ <~ UnlockFetch ;; Ret a.
Definition discover_and_store (self : OidcProvider) : prog oidc_call (result () string) :=
  metadata <~ Discover (op_issuer_url self) ;;
  match metadata with
  | Err e => unlocking (Err ("OIDC discovery/JWKS fetch failed: " +:+ e))
  | Ok (jwks, issuer) =>
      if bool_decide (jwks = []) then unlocking (Err "OIDC JWKS contains no keys")
      else
        now <~ InstantNow ;;
        _ <~ WriteCache (mkCached jwks issuer now) ;;
        unlocking (Ok tt)
  end.
Definition fetch_and_cache (self : OidcProvider) : prog oidc_call (result () string) :=
  _ <~ LockFetch ;;
  cached <~ ReadCache ;;
  match cached with
  | Some c =>
      now <~ InstantNow ;;
      if (elapsed now (ck_fetched_at c) <? op_min_refresh_interval self)%Z then unlocking (Ok tt)
      else discover_and_store self
  | None => discover_and_store self
  end.

Definition cached_keys : prog oidc_call (result (list Jwk * string) string) :=
  cached <~ ReadCache ;;
  Ret (match cached with
       | Some c => Ok (ck_jwks c, ck_issuer c)
       | None => Err "OIDC JWKS unavailable"
       end).
Definition refreshed (self : OidcProvider) : prog oidc_call (result (list Jwk * string) string) :=
  pbind (fetch_and_cache self) (λ r,
    match r with
    | Err e =>
        cached <~ ReadCache ;;
        match cached with None => Ret (Err e) | Some _ => cached_keys end
    | Ok _ => cached_keys
    end).
Definition keys (self : OidcProvider) (force : bool) : prog oidc_call (result (list Jwk * string) string) :=
  if force then refreshed self
  else
    cached <~ ReadCache ;;
    match cached with
    | None => refreshed self
    | Some c =>
        now <~ InstantNow ;;
        if (op_ttl self <=? elapsed now (ck_fetched_at c))%Z then refreshed self else cached_keys
    end.

(** ** Validation *)

Definition kid_matches (kid : option string) (key : Jwk) : bool :=
  match key_id key, kid with
  | Some k, Some j => String.eqb k j
  | _, None => true
  | _, _ => false
  end.
Fixpoint try_keys (candidates : list Jwk) (last : option string) (alg message signature : string) :
    result () VerifyError :=
  match candidates with
  | [] => Err (Message (default "signature verification failed" last))
  | key :: candidates =>
      match verify_signature key alg message signature with
      | Ok _ => Ok tt
      | Err e => try_keys candidates (Some ("signature verification failed: " +:+ e)) alg message signature
      end
  end.
Definition verify_with_jwks (jwks : list Jwk) (alg : string) (kid : option string) (message signature : string) :
    result () VerifyError :=
  match List.filter (kid_matches kid) jwks with
  | [] => Err KidNotFound
  | candidates => try_keys candidates None alg message signature
  end.

Definition validate_claims (self : OidcProvider) (now : option Z) (claims : Value) (discovery_issuer : string) :
    result () string :=
  let? now := ok_or "system clock before unix epoch" now in
  let leeway := i64_wrap (op_clock_skew_seconds self) in
  let now := i64_wrap now in
  let? _ :=
    match get "exp" claims ≫= as_i64 with
    | Some exp => if (i64_wrap (exp + leeway) <? now)%Z then Err "token expired" else Ok tt
    | None => Err "token missing exp"
    end in
  let? _ :=
    match get "nbf" claims ≫= as_i64 with
    | Some nbf => if (now <? i64_wrap (nbf - leeway))%Z then Err "token not yet valid (nbf)" else Ok tt
    | None => Ok tt
    end in
  let? _ :=
    if bool_decide (op_audiences self = []) then Ok tt
    else if existsb (λ a, existsb (String.eqb a) (op_audiences self)) (extract_audiences claims) then Ok tt
    else Err "token audience not allowed" in
  let token_iss := get "iss" claims ≫= as_str in
  if negb (bool_decide (op_issuers self = [])) then
    if is_some_and (λ iss, existsb (String.eqb iss) (op_issuers self)) token_iss then Ok tt
    else Err "token issuer not allowed"
  else if negb (is_empty discovery_issuer) then
    if is_some_and (String.eqb discovery_issuer) token_iss then Ok tt
    else Err "token issuer does not match provider"
  else Ok tt.

Definition allowed_algorithms (self : OidcProvider) : list string :=
  if bool_decide (op_allowed_algorithms self = []) then DEFAULT_ALLOWED_ALGS else op_allowed_algorithms self.
Definition check_alg (self : OidcProvider) (alg : string) : result () string :=
  if eq_ignore_ascii_case alg "none" then Err "alg=none is not allowed"
  else if negb (existsb (eq_ignore_ascii_case alg) (allowed_algorithms self))
  then Err ("algorithm " +:+ alg +:+ " not allowed")
  else if negb (known_alg alg) then Err ("unsupported alg: " +:+ alg)
  else Ok tt.

Definition token_header (self : OidcProvider) (encoded : string) : result JoseHeader string :=
  let? header_bytes := map_err (λ e, "Invalid token header: " +:+ e) (b64url_decode encoded) in
  let? header := map_err (λ e, "Invalid token header: " +:+ e) (parse_header header_bytes) in
  let? _ := check_alg self (jh_alg header) in
  Ok header.

(** After the signature: the claims. *)
Definition accept_claims (self : OidcProvider) (payload discovery_issuer : string) :
    prog oidc_call (result OidcClaims string) :=
  try? payload_bytes := map_err (λ e, "Invalid token payload: " +:+ e) (b64url_decode payload) in
  try? claims := map_err (λ e, "Invalid token payload: " +:+ e) (parse_claims payload_bytes) in
  now <~ UnixNow ;;
  try? _ := validate_claims self now claims discovery_issuer in
  Ret (Ok (mkOidcClaims (get "sub" claims ≫= as_str) (get "iss" claims ≫= as_str) claims)).

Definition validate (self : OidcProvider) (token : string) : prog oidc_call (result OidcClaims string) :=
  match str_split ch_dot token with
  | [encoded_header; payload; encoded_signature] =>
      try? header := token_header self encoded_header in
      await? found := keys self false in
      try? signature := map_err (λ e, "Invalid signature encoding: " +:+ e) (b64url_decode encoded_signature) in
      let signing_input := encoded_header +:+ "." +:+ payload in
      match verify_with_jwks found.1 (jh_alg header) (jh_kid header) signing_input signature with
      | Ok _ => accept_claims self payload found.2
      | Err KidNotFound =>
          await? found := keys self true in
          match verify_with_jwks found.1 (jh_alg header) (jh_kid header) signing_input signature with
          | Ok _ => accept_claims self payload found.2
          | Err e => Ret (Err (VerifyError_message e))
          end
      | Err e => Ret (Err (VerifyError_message e))
      end
  | _ => Ret (Err "malformed JWT: expected 3 segments")
  end.

(** ** Shared state

    The discoveries that succeeded and the readings of the clock are kept as history.
    Seconds since the epoch fit an [i64]. *)

Record oidc_state := mkOidcState {
  os_cache : option CachedKeys;
  os_locked : bool;
  os_discovered : list (string * list Jwk * string);
  os_clock : list Z;
}.
Definition oidc_port (X : Type) (e : oidc_call X) (s : oidc_state) : X → oidc_state → Prop :=
  match e in oidc_call X return X → oidc_state → Prop with
  | ReadCache => λ x s', x = os_cache s ∧ s' = s
  | WriteCache c => λ _ s', s' = mkOidcState (Some c) (os_locked s) (os_discovered s) (os_clock s)
  | InstantNow => λ _ s', s' = s
  | LockFetch => λ _ s', os_locked s = false ∧ s' = mkOidcState (os_cache s) true (os_discovered s) (os_clock s)
  | UnlockFetch => λ _ s', s' = mkOidcState (os_cache s) false (os_discovered s) (os_clock s)
  | Discover url => λ x s',
      match x with
      | Ok (jwks, issuer) =>
          s' = mkOidcState (os_cache s) (os_locked s) ((url, jwks, issuer) :: os_discovered s) (os_clock s)
      | Err _ => s' = s
      end
  | UnixNow => λ x s',
      match x with
      | Some now => (0 <= now <= I64_MAX)%Z ∧
          s' = mkOidcState (os_cache s) (os_locked s) (os_discovered s) (now :: os_clock s)
      | None => s' = s
      end
  end.

Section self.
Variable self : OidcProvider.

(** A key set that the provider published. *)
Definition published (s : oidc_state) (jwks : list Jwk) (issuer : string) : Prop :=
  (op_issuer_url self, jwks, issuer) ∈ os_discovered s ∧ jwks ≠ [].
Definition cache_ok (s : oidc_state) : Prop :=
  ∀ c, os_cache s = Some c → published s (ck_jwks c) (ck_issuer c).
Definition later (s s' : oidc_state) : Prop :=
  (cache_ok s → cache_ok s') ∧ os_discovered s ⊆ os_discovered s' ∧ os_clock s ⊆ os_clock s' ∧
  (is_Some (os_cache s) → is_Some (os_cache s')).
#[local] Instance later_refl : Reflexive later.
Proof. intros s. by split_and!. Qed.
#[local] Instance later_trans : Transitive later.
Proof. intros a b c (H1&H2&H3&H4) (K1&K2&K3&K4). split_and!; [auto|by etrans..|auto]. Qed.

Lemma published_later s s' jwks issuer : later s s' → published s jwks issuer → published s' jwks issuer.
Proof. intros (_&Hd&_) [Hp Hn]. split; [by apply Hd|done]. Qed.

(** Every call of the port but a write of the cache is a step of [later]. *)
Lemma later_port X (e : oidc_call X) s x s' :
  oidc_port X e s x s' →
  match e with WriteCache c => published s (ck_jwks c) (ck_issuer c) | _ => True end → later s s'.
Proof.
  destruct e; cbn [oidc_port].
  - by intros [_ ->] _.
  - intros -> Hp. split_and!; cbn; [|done..|by eexists]. intros _ c [= <-]. exact Hp.
  - by intros -> _.
  - intros [_ ->] _. by split_and!.
  - intros -> _. by split_and!.
  - destruct x as [[jwks issuer]|]; intros -> _; [|done]. split_and!; cbn; [|set_solver|done..].
    intros Hc c Hs. destruct (Hc c Hs) as [Hd Hn]. split; [set_solver|done].
  - destruct x; [intros [_ ->] _|by intros -> _]. split_and!; cbn; [done..|set_solver|done].
Qed.

(** The rule for a call: what the environment did first, and the state after it. *)
Lemma safe_call {A X} (Q : A → oidc_state → Prop) (e : oidc_call X) (k : X → prog oidc_call A) s :
  cache_ok s → match e with WriteCache c => published s (ck_jwks c) (ck_issuer c) | _ => True end →
  (∀ s1 x s2, later s s1 → cache_ok s1 → oidc_port X e s1 x s2 → later s1 s2 → cache_ok s2 →
     safe oidc_port later later Q (k x) s2) →
  safe oidc_port later later Q (Vis e k) s.
Proof.
  intros Hs He Hk s1 x s2 H1 Hp. assert (cache_ok s1) as Hs1 by by apply H1.
  assert (later s1 s2) as H2.
  { apply (later_port _ _ _ _ _ Hp). destruct e; try done. by eapply published_later. }
  split; [done|]. apply (Hk s1 x s2); try done. by apply H2.
Qed.

(** ** Keys come from a discovery, and are available once there was one *)

Definition found_keys (s0 : oidc_state) (r : result (list Jwk * string) string) (s : oidc_state) : Prop :=
  cache_ok s ∧ later s0 s ∧
  match r with Ok (jwks, issuer) => published s jwks issuer | Err _ => ¬ is_Some (os_cache s0) end.

Lemma cached_keys_safe s0 s :
  cache_ok s → later s0 s → is_Some (os_cache s) →
  safe oidc_port later later (found_keys s0) cached_keys s.
Proof.
  intros Hs H0 Hc. unfold cached_keys. apply safe_call; [done..|].
  intros s1 x s2 H1 Hs1 [-> ->] _ _. cbn [safe]. split; [done|]. split; [by etrans|].
  destruct (os_cache s1) as [c|] eqn:E; [by apply Hs1|].
  destruct H1 as (_&_&_&Hk). destruct (Hk Hc) as [c Hc']. congruence.
Qed.

Definition fetched (s0 : oidc_state) (r : result () string) (s : oidc_state) : Prop :=
  cache_ok s ∧ later s0 s ∧ match r with Ok _ => is_Some (os_cache s) | Err _ => True end.

Lemma unlocking_safe s0 (r : result () string) s :
  cache_ok s → later s0 s → match r with Ok _ => is_Some (os_cache s) | Err _ => True end →
  safe oidc_port later later (fetched s0) (unlocking r) s.
Proof.
  intros Hs H0 Hr. apply safe_call; [done..|]. intros s1 x s2 H1 Hs1 Hp H2 Hs2. cbn [safe].
  split; [done|]. split; [by do 2 (etrans; [eassumption|])|]. destruct r; [|done].
  destruct H2 as (_&_&_&H2). destruct H1 as (_&_&_&H1). auto.
Qed.

Lemma discover_safe s0 s :
  cache_ok s → later s0 s → safe oidc_port later later (fetched s0) (discover_and_store self) s.
Proof.
  intros Hs H0. unfold discover_and_store. apply safe_call; [done..|].
  intros s1 x s2 H1 Hs1 Hp H2 Hs2. cbn [oidc_port] in Hp.
  assert (later s0 s2) as H02 by by do 2 (etrans; [eassumption|]).
  destruct x as [[jwks issuer]|]; [|by apply unlocking_safe].
  case_bool_decide as Hj; [by apply unlocking_safe|].
  assert (published s2 jwks issuer) as Hpub by by (rewrite Hp; split; [left|]).
  apply safe_call; [done..|]. intros s3 now s4 H3 Hs3 -> _ _.
  apply safe_call; [done|by eapply published_later|]. intros s5 x s6 H5 Hs5 Hw H6 Hs6.
  apply unlocking_safe; [done|by do 3 (etrans; [eassumption|])|]. cbn in Hw. rewrite Hw. by eexists.
Qed.

Lemma fetch_safe s0 s :
  cache_ok s → later s0 s → safe oidc_port later later (fetched s0) (fetch_and_cache self) s.
Proof.
  intros Hs H0. unfold fetch_and_cache. apply safe_call; [done..|].
  intros s1 x1 s2 H1 Hs1 _ H2 Hs2. apply safe_call; [done..|].
  intros s3 x s4 H3 Hs3 [-> ->] _ _. assert (later s0 s3) as H03 by by do 3 (etrans; [eassumption|]).
  destruct (os_cache s3) as [c|] eqn:E; [|by apply discover_safe].
  apply safe_call; [done..|]. intros s5 now s6 H5 Hs5 -> _ _.
  assert (later s0 s5) as H05 by by etrans. destruct (_ <? _)%Z; [|by apply discover_safe].
  apply unlocking_safe; [done..|]. apply H5. by rewrite E.
Qed.

Lemma refreshed_safe s0 s :
  cache_ok s → later s0 s → safe oidc_port later later (found_keys s0) (refreshed self) s.
Proof.
  intros Hs H0. unfold refreshed. apply safe_bind.
  eapply safe_mono; [|by apply fetch_safe]. intros r s1 (Hs1&H1&Hr).
  destruct r as [[]|e]; [by apply cached_keys_safe|].
  apply safe_call; [done..|]. intros s2 x s3 H2 Hs2 [-> ->] _ _. assert (later s0 s2) as H02 by by etrans.
  destruct (os_cache s2) as [c|] eqn:E; [by apply cached_keys_safe|]. cbn [safe]. split; [done|]. split; [done|].
  intros Hc. destruct H02 as (_&_&_&Hk). destruct (Hk Hc). congruence.
Qed.

Lemma keys_safe force s :
  cache_ok s → safe oidc_port later later (found_keys s) (keys self force) s.
Proof.
  intros Hs. unfold keys. destruct force; [by apply refreshed_safe|].
  apply safe_call; [done..|]. intros s1 x s2 H1 Hs1 [-> ->] _ _.
  destruct (os_cache s1) as [c|] eqn:E; [|by apply refreshed_safe].
  apply safe_call; [done..|]. intros s3 now s4 H3 Hs3 -> _ _. assert (later s s3) as H03 by by etrans.
  destruct (_ <=? _)%Z; [by apply refreshed_safe|]. apply cached_keys_safe; [done..|]. apply H3. by rewrite E.
Qed.

(** ** What a validated token is evidence of *)

Definition signed_by (jwks : list Jwk) (header : JoseHeader) (message signature : string) : Prop :=
  ∃ key, key ∈ jwks ∧ kid_matches (jh_kid header) key = true ∧
    verify_signature key (jh_alg header) message signature = Ok tt.

Lemma try_keys_Ok candidates last alg message signature :
  try_keys candidates last alg message signature = Ok tt →
  ∃ key, key ∈ candidates ∧ verify_signature key alg message signature = Ok tt.
Proof.
  revert last. induction candidates as [|key candidates IH]; intros last; cbn [try_keys]; [done|].
  destruct (verify_signature key alg message signature) as [[]|e] eqn:E.
  - intros _. exists key. split; [left|done].
  - intros (k&Hin&Hk)%IH. exists k. split; [by right|done].
Qed.
Lemma verify_jwks_Ok jwks header message signature :
  verify_with_jwks jwks (jh_alg header) (jh_kid header) message signature = Ok tt →
  signed_by jwks header message signature.
Proof.
  unfold verify_with_jwks. assert (∀ key, key ∈ List.filter (kid_matches (jh_kid header)) jwks →
    key ∈ jwks ∧ kid_matches (jh_kid header) key = true) as Hf.
  { intros key Hk%list_elem_of_In%filter_In. by rewrite list_elem_of_In. }
  destruct (List.filter _ jwks) as [|key candidates]; [done|]. intros (k&Hin&Hk)%try_keys_Ok.
  exists k. by destruct (Hf k Hin).
Qed.

Definition allowed_alg (alg : string) : Prop :=
  eq_ignore_ascii_case alg "none" = false ∧ known_alg alg = true ∧
  ∃ a, a ∈ allowed_algorithms self ∧ eq_ignore_ascii_case alg a = true.
Lemma check_alg_Ok alg : check_alg self alg = Ok tt → allowed_alg alg.
Proof.
  unfold check_alg. destruct (eq_ignore_ascii_case alg "none") eqn:En; [done|].
  destruct (existsb _ _) eqn:Ea; [|done]. destruct (known_alg alg) eqn:Ek; [|done]. intros _. cbn in Ea.
  apply existsb_exists in Ea as (a&Hin&Ha). split; [done|]. split; [done|]. exists a. by rewrite list_elem_of_In.
Qed.

(** The claims at a time: expiry, start, audience and issuer. *)
Record in_force (now : Z) (claims : Value) (discovery_issuer : string) : Prop := {
  if_exp : ∃ exp, get "exp" claims ≫= as_i64 = Some exp ∧ (now <= exp + op_clock_skew_seconds self)%Z;
  if_nbf : ∀ nbf, get "nbf" claims ≫= as_i64 = Some nbf → (nbf - op_clock_skew_seconds self <= now)%Z;
  if_aud : op_audiences self ≠ [] → ∃ a, a ∈ extract_audiences claims ∧ a ∈ op_audiences self;
  if_iss : op_issuers self ≠ [] → ∃ iss, get "iss" claims ≫= as_str = Some iss ∧ iss ∈ op_issuers self;
  if_discovered : op_issuers self = [] → discovery_issuer ≠ "" → get "iss" claims ≫= as_str = Some discovery_issuer;
}.

Lemma i64_wrap_small z : (- 2 ^ 63 <= z <= I64_MAX)%Z → i64_wrap z = z.
Proof. unfold i64_wrap, I64_MAX. intros Hz. rewrite Z.mod_small by lia. lia. Qed.
Lemma i64_wrap_le z : (- 2 ^ 63 <= z)%Z → (i64_wrap z <= z)%Z.
Proof. unfold i64_wrap. intros Hz. pose proof (Z.mod_le (z + 2 ^ 63) (2 ^ 64)). lia. Qed.
Lemma i64_wrap_ge z : (z <= I64_MAX)%Z → (z <= i64_wrap z)%Z.
Proof.
  unfold i64_wrap, I64_MAX. intros Hz. assert (z + 2 ^ 63 <= (z + 2 ^ 63) mod 2 ^ 64)%Z; [|lia].
  destruct (Z.lt_ge_cases (z + 2 ^ 63) 0) as [Hn|Hn]; [pose proof (Z.mod_pos_bound (z + 2 ^ 63) (2 ^ 64)); lia|].
  rewrite Z.mod_small; lia.
Qed.

Lemma parse_digits_nonneg s v n : (0 <= v)%Z → parse_digits s v = Some n → (0 <= n)%Z.
Proof.
  revert v. induction s as [|c s IH]; intros v Hv; cbn [parse_digits]; [by intros [= <-]|].
  destruct (char_digit c) as [d|] eqn:E; [|done]. unfold char_digit in E.
  destruct (_ && _)%bool eqn:Ed; [|done]. injection E as <-. cbn [mbind option_bind].
  destruct (_ <=? U64_MAX)%Z; [|done]. apply IH. lia.
Qed.
Lemma parse_u64_nonneg s n : parse_u64 s = Some n → (0 <= n)%Z.
Proof.
  unfold parse_u64. destruct s as [|c s]; [done|].
  destruct (Ascii.eqb c plus); [destruct s; [done|]|]; by apply parse_digits_nonneg.
Qed.
Lemma as_i64_range v n : as_i64 v = Some n → (- 2 ^ 63 <= n <= I64_MAX)%Z.
Proof.
  unfold as_i64, I64_MAX. destruct v; try done. destruct repr as [|c digits]; [done|].
  destruct (Ascii.eqb c ch_dash).
  - destruct (parse_u64 digits) as [m|]; [|done]. destruct (_ && _)%bool eqn:E; [|done]. intros [= <-].
    apply andb_true_iff in E as [E _]. lia.
  - destruct (parse_u64 (String c digits)) as [m|] eqn:Em; [|done]. apply parse_u64_nonneg in Em.
    destruct (_ && _)%bool eqn:E; [|done]. intros [= <-]. apply andb_true_iff in E as [E _]. lia.
Qed.

Lemma validate_claims_Ok now claims issuer :
  (0 <= op_clock_skew_seconds self <= I64_MAX)%Z → (0 <= now <= I64_MAX)%Z →
  validate_claims self (Some now) claims issuer = Ok tt → in_force now claims issuer.
Proof.
  intros Hskew Hnow. unfold validate_claims. cbn [ok_or].
  rewrite (i64_wrap_small (op_clock_skew_seconds self)), (i64_wrap_small now) by (unfold I64_MAX in *; lia).
  destruct (get "exp" claims ≫= as_i64) as [exp|] eqn:Ee; [|done].
  destruct (Z.ltb_spec (i64_wrap (exp + op_clock_skew_seconds self)) now) as [?|Eexp]; [done|].
  destruct (match get "nbf" claims ≫= as_i64 with Some _ => _ | None => _ end) as [[]|] eqn:En; [|done].
  destruct (if bool_decide (op_audiences self = []) then _ else _) as [[]|] eqn:Ea; [|done].
  intros Hi. split.
  - exists exp. split; [done|]. pose proof (i64_wrap_le (exp + op_clock_skew_seconds self)).
    destruct (get "exp" claims) as [v|]; [|done]. apply as_i64_range in Ee. lia.
  - intros nbf Hn. rewrite Hn in En. destruct (Z.ltb_spec now (i64_wrap (nbf - op_clock_skew_seconds self))) as [?|En']; [done|].
    pose proof (i64_wrap_ge (nbf - op_clock_skew_seconds self)).
    destruct (get "nbf" claims) as [v|]; [|done]. apply as_i64_range in Hn. lia.
  - intros Hne. rewrite bool_decide_eq_false_2 in Ea by done. destruct (existsb (λ a, existsb (String.eqb a) (op_audiences self)) (extract_audiences claims)) eqn:E; [|done].
    apply existsb_exists in E as (a&Hin&Ha). apply existsb_exists in Ha as (b&Hb&->%String.eqb_eq).
    exists b. by rewrite !list_elem_of_In.
  - intros Hne. rewrite bool_decide_eq_false_2 in Hi by done. cbn [negb] in Hi.
    destruct (get "iss" claims ≫= as_str) as [iss|]; [|done]. cbn [is_some_and] in Hi.
    destruct (existsb (String.eqb iss) (op_issuers self)) eqn:E; [|done]. apply existsb_exists in E as (b&Hb&->%String.eqb_eq).
    exists b. split; [done|]. by apply list_elem_of_In.
  - intros He Hd. rewrite bool_decide_eq_true_2 in Hi by done. cbn [negb] in Hi.
    destruct (is_empty issuer) eqn:Ei; [by destruct issuer|]. cbn [negb] in Hi.
    destruct (get "iss" claims ≫= as_str) as [iss|]; [|done]. cbn [is_some_and] in Hi.
    destruct (String.eqb_spec issuer iss) as [->|]; [done|done].
Qed.

Definition authentic (token : string) (c : OidcClaims) (s : oidc_state) : Prop :=
  ∃ encoded_header payload encoded_signature header signature payload_bytes jwks issuer now,
    token = encoded_header +:+ "." +:+ payload +:+ "." +:+ encoded_signature ∧
    token_header self encoded_header = Ok header ∧ allowed_alg (jh_alg header) ∧
    b64url_decode encoded_signature = Ok signature ∧
    published s jwks issuer ∧ signed_by jwks header (encoded_header +:+ "." +:+ payload) signature ∧
    b64url_decode payload = Ok payload_bytes ∧ parse_claims payload_bytes = Ok (oc_claims c) ∧
    now ∈ os_clock s ∧ in_force now (oc_claims c) issuer ∧
    oc_sub c = get "sub" (oc_claims c) ≫= as_str ∧ oc_iss c = get "iss" (oc_claims c) ≫= as_str.

Lemma authentic_later token c s s' : later s s' → authentic token c s → authentic token c s'.
Proof.
  intros Hl (h&p&g&header&signature&bytes&jwks&issuer&now&?&?&?&?&Hp&?&?&?&Hn&?).
  exists h, p, g, header, signature, bytes, jwks, issuer, now. split_and!; try tauto.
  - by eapply published_later.
  - by apply Hl.
Qed.

(** ** Validation *)

Definition validated (token : string) (r : result OidcClaims string) (s : oidc_state) : Prop :=
  match r with Ok c => authentic token c s | Err _ => True end.

Lemma accept_claims_safe token encoded_header payload encoded_signature header signature jwks issuer s :
  (0 <= op_clock_skew_seconds self <= I64_MAX)%Z →
  token = encoded_header +:+ "." +:+ payload +:+ "." +:+ encoded_signature →
  token_header self encoded_header = Ok header → b64url_decode encoded_signature = Ok signature →
  cache_ok s → published s jwks issuer → signed_by jwks header (encoded_header +:+ "." +:+ payload) signature →
  safe oidc_port later later (validated token) (accept_claims self payload issuer) s.
Proof.
  intros Hskew Ht Hh Hs Hok Hp Hsig. unfold accept_claims.
  destruct (b64url_decode payload) as [bytes|] eqn:Eb; cbn [map_err]; [|done].
  destruct (parse_claims bytes) as [claims|] eqn:Ec; cbn [map_err]; [|done].
  apply safe_call; [done..|]. intros s1 now s2 H1 Hs1 Hn H2 Hs2. cbn [oidc_port] in Hn.
  destruct now as [now|]; [|done].
  destruct Hn as [Hnow Hn].
  destruct (validate_claims self (Some now) claims issuer) as [[]|] eqn:Ev; [|done]. cbn [safe validated].
  exists encoded_header, payload, encoded_signature, header, signature, bytes, jwks, issuer, now.
  split_and!; try done.
  - apply check_alg_Ok. unfold token_header in Hh. destruct (map_err _ (b64url_decode _)) as [b|]; [|done].
    destruct (map_err _ (parse_header b)) as [h|]; [|done]. destruct (check_alg self (jh_alg h)) as [[]|] eqn:E; [|done].
    by injection Hh as <-.
  - eapply published_later; [|exact Hp]. by etrans.
  - rewrite Hn. left.
  - by apply validate_claims_Ok.
Qed.

Lemma validate_safe token s :
  (0 <= op_clock_skew_seconds self <= I64_MAX)%Z → cache_ok s →
  safe oidc_port later later (validated token) (validate self token) s.
Proof.
  intros Hskew Hs. unfold validate. destruct (str_split ch_dot token) as [|h [|p [|g [|]]]] eqn:Et; try done.
  assert (token = h +:+ "." +:+ p +:+ "." +:+ g) as Htok by by rewrite <-(join_with_split ch_dot token), Et.
  destruct (token_header self h) as [header|] eqn:Eh; [|done].
  apply safe_bind. eapply safe_mono; [|by apply keys_safe]. intros [[jwks issuer]|e] s1 (Hs1&_&Hp); [|done].
  destruct (b64url_decode g) as [signature|] eqn:Eg; cbn [map_err]; [|done]. cbn [fst snd].
  destruct (verify_with_jwks jwks (jh_alg header) (jh_kid header) _ signature) as [[]|[|m]] eqn:Ev; [| |done].
  { apply verify_jwks_Ok in Ev. by eapply accept_claims_safe. }
  apply safe_bind. eapply safe_mono; [|by apply keys_safe]. intros [[jwks' issuer']|e] s2 (Hs2&_&Hp'); [|done].
  cbn [fst snd]. destruct (verify_with_jwks jwks' _ _ _ signature) as [[]|] eqn:Ev'; [|done].
  apply verify_jwks_Ok in Ev'. by eapply accept_claims_safe.
Qed.

Definition no_keys : oidc_state := mkOidcState None false [] [].
Definition validation (token : string) : prog oidc_call (string * result OidcClaims string) :=
  pbind (validate self token) (λ r, Ret (token, r)).

(** C19.  Only tokens of the identity provider are accepted.  However many validations
    share the cache and however they interleave, claims that one of them returns were
    signed, with an algorithm of the policy and never [none], by a key of a key set
    the provider itself published (also while keys rotate and while an old set is
    served), and they are in force at a reading of the clock: not expired and not
    early by more than the configured skew, even if a claim sits at the end of the
    64-bit range, and for the configured audience and issuer. *)
Theorem oidc_tokens_authentic (tokens : list string) ps s token c :
  (0 <= op_clock_skew_seconds self <= I64_MAX)%Z →
  rtc (pool_step oidc_port) (map validation tokens, no_keys) (ps, s) →
  Ret (token, Ok c) ∈ ps → authentic token c s.
Proof.
  intros Hskew Hr Hin.
  assert (pool_safe oidc_port later (λ r s, validated r.1 r.2 s) (map validation tokens, no_keys)) as Hp.
  { apply Forall_map, Forall_true. intros t. exists no_keys. split; [done|]. unfold compose, validation.
    apply safe_bind. eapply safe_mono; [|apply validate_safe; [done|by intros ?]]. by intros r s1. }
  apply (pool_steps_safe oidc_port later _ _ _ Hp) in Hr as [_ Hps].
  unfold pool_safe in Hps. rewrite Forall_forall in Hps. destruct (Hps _ Hin) as (s0&Hl&Ha).
  by eapply authentic_later.
Qed.

(** Once a key set was cached, an outage of the provider rejects nobody: the keys
    that are used are the refreshed or the cached ones. *)
Theorem oidc_stale_keys_served (force : bool) s r s' :
  cache_ok s → is_Some (os_cache s) → exec oidc_port (keys self force) s r s' →
  ∃ jwks issuer, r = Ok (jwks, issuer) ∧ published s' jwks issuer.
Proof.
  intros Hs Hc He.
  destruct (exec_safe oidc_port later later (found_keys s) _ _ _ _ (λ s, reflexivity s) (keys_safe force s Hs) He)
    as (_&_&Hr). destruct r as [[jwks issuer]|]; [by exists jwks, issuer|done].
Qed.
End self.
End provider.

(** ** A rotation of keys

    A provider that publishes key [k1] first and [k2] from its second discovery on;
    a signature is the name of the key. *)
Definition demo_jose : Jose := {|
  Jwk := string;
  key_id k := Some k;
  verify_signature k alg message signature := if String.eqb signature k then Ok tt else Err "bad";
  known_alg alg := String.eqb alg "RS256";
  b64url_decode s := Ok s;
  parse_header s := Ok (mkJoseHeader "RS256" (Some s));
  parse_claims s := Ok (Object [("sub", Str s); ("iss", Str "https://idp"); ("exp", Number "100")]);
  parse_issuer_url s := Ok s |}.
Definition demo_provider : OidcProvider := mkProvider "https://idp" 300 0 [] [] [] 120.
Definition demo_oidc (X : Type) (e : @oidc_call demo_jose X) : @oidc_state demo_jose → X * @oidc_state demo_jose :=
  match e in oidc_call X return @oidc_state demo_jose → X * @oidc_state demo_jose with
  | ReadCache => λ s, (os_cache s, s)
  | WriteCache c => λ s, (tt, mkOidcState (Some c) (os_locked s) (os_discovered s) (os_clock s))
  | InstantNow => λ s, (7%Z, s)
  | LockFetch => λ s, (tt, mkOidcState (os_cache s) true (os_discovered s) (os_clock s))
  | UnlockFetch => λ s, (tt, mkOidcState (os_cache s) false (os_discovered s) (os_clock s))
  | Discover url => λ s,
      let jwks : list (@Jwk demo_jose) := match os_discovered s with [] => ["k1"] | _ => ["k2"] end in
      (Ok (jwks, "https://idp"), mkOidcState (os_cache s) (os_locked s) ((url, jwks, "https://idp") :: os_discovered s) (os_clock s))
  | UnixNow => λ s, (Some 50%Z, mkOidcState (os_cache s) (os_locked s) (os_discovered s) (50%Z :: os_clock s))
  end.
Definition demo_token : string := "k2.alice.k2".
Definition demo_validation := @validation demo_jose demo_provider demo_token.
Definition demo_run := run demo_oidc demo_validation (@no_keys demo_jose).
Lemma demo_run_ok : run_ok (@oidc_port demo_jose) demo_oidc demo_validation (@no_keys demo_jose).
Proof. vm_compute. repeat (split || discriminate). Qed.

Lemma oidc_tokens_authentic_witness :
  ∃ c, demo_run.1 = (demo_token, Ok c) ∧ oc_sub c = Some "alice" ∧
    @authentic demo_jose demo_provider demo_token c demo_run.2.
Proof.
  assert (∃ c, demo_run.1 = (demo_token, Ok c) ∧ oc_sub c = Some "alice") as (c&Hc&Hs)
    by (eexists; split; vm_compute; reflexivity).
  exists c. split; [exact Hc|]. split; [exact Hs|].
  apply (@oidc_tokens_authentic demo_jose demo_provider [demo_token] [Ret demo_run.1] demo_run.2 demo_token c).
  - vm_compute. split; discriminate.
  - exact (run_ok_pool (@oidc_port demo_jose) demo_oidc [demo_validation] 0 demo_validation (@no_keys demo_jose)
      demo_run_ok eq_refl).
  - rewrite Hc. left.
Defined.
