(* ===== verification/AdminAuth.v ===== *)
(** * AdminAuth: authentication and authorization of the admin API

    [crates/center-app/src/common/unified_auth/mod.rs], [authz/{mod,middleware}.rs],
    [local_auth/{handlers,middleware,status}.rs], [auth/session.rs] and
    [common/api/{mod,compose}.rs]: the layers around the router.  A request passes
    [unified_auth_middleware], then [authz_middleware], then the router; the
    validators, the authorizer, the clock and the business handlers are calls of a
    port.  The theorems say with what evidence a handler is reached. *)

From Stdlib Require Import ZArith Ascii String Lia.
From stdpp Require Import sorting.
From S2P Require Import Prelude Text Core Effects Json Identity Oidc Permissions.

(** ** Requests and responses *)

(** The set of keys as it is built; [materialize] removes duplicates. *)
Abbreviation PermissionSet := (list string).
Definition from_keys (keys : list string) : PermissionSet := keys.
Definition materialize (keys : PermissionSet) : list string := merge_sort str_le (remove_dups keys).

(** Header values are bytes; [rq_login] is the body of a login as JSON extraction
    leaves it, or the status that it answers. *)
Record Request := mkRequest {
  rq_method : Method;
  rq_path : string;
  rq_authorization : option string;
  rq_cookie : option string;
  rq_login : result (string * string) Z;
  rq_auth_bypass : bool;
  rq_claims : option UnifiedAuthClaims;
  rq_permissions : option PermissionSet;
}.
Definition with_claims (claims : UnifiedAuthClaims) (r : Request) : Request :=
  mkRequest (rq_method r) (rq_path r) (rq_authorization r) (rq_cookie r) (rq_login r) (rq_auth_bypass r)
    (Some claims) (rq_permissions r).
Definition with_permissions (perms : PermissionSet) (r : Request) : Request :=
  mkRequest (rq_method r) (rq_path r) (rq_authorization r) (rq_cookie r) (rq_login r) (rq_auth_bypass r)
    (rq_claims r) (Some perms).

Inductive AuthStatus := Ready | Initializing | Disabled.
Record AuthStatusResponse := mkStatus {
  as_auth_required : bool; as_active_providers : list string; as_status : AuthStatus }.
Record MeResponse := mkMe {
  me_username : string; me_permissions : list string; me_auth_provider : AuthProvider;
  me_logout_path : option string; me_local_logout_available : bool }.

Inductive Body :=
| ForbiddenBody (required_permission : string) | AuthorizationUnavailableBody | InvalidPrincipalBody
| AuthErrorBody (message : string) | ApiErrorBody (message : string) | EmptyOkBody
| LoginBody (token : string) (expires_in : Z) | MeBody (me : MeResponse) | StatusBody (status : AuthStatusResponse)
| RejectionBody | BusinessBody (bytes : string).
Record Response := mkResponse { rs_status : Z; rs_headers : list (string * string); rs_body : Body }.
Definition insert_header (name value : string) (r : Response) : Response :=
  mkResponse (rs_status r) ((name, value) :: filter (λ h, h.1 ≠ name) (rs_headers r)) (rs_body r).

Definition forbidden_response (required : string) : Response := mkResponse 403 [] (ForbiddenBody required).
Definition authorization_unavailable_response : Response := mkResponse 503 [] AuthorizationUnavailableBody.
Definition invalid_principal_response : Response := mkResponse 401 [] InvalidPrincipalBody.
Definition INITIALIZING : string := "authentication subsystem initializing, retry later".
Definition initializing_response : Response :=
  insert_header "retry-after" "10" (mkResponse 503 [] (ApiErrorBody INITIALIZING)).
Definition BEARER_REALM : string := "Bearer realm=" +:+ String ch_quote ("edgion-admin" +:+ String ch_quote "").
Definition build_admin_auth_error_response (status : Z) (message : string) : Response :=
  let resp := mkResponse status [] (AuthErrorBody message) in
  if (status =? 401)%Z then insert_header "www-authenticate" BEARER_REALM resp else resp.

(** ** The state of authentication *)

Record LocalAuthState := mkLocalState {
  la_password_hash : string;
  la_dummy_hash : string;
  la_username : string;
  la_jwt_secret : string;
  la_jwt_expiry_hours : Z;
  la_cookie_secure : bool;
}.
Record LocalAuthClaims := mkLocalClaims { lc_sub : string; lc_iat : Z; lc_exp : Z }.

(** bcrypt's hash with a fresh salt. *)
Definition LocalAuthState_from_config (hash : string → string) (c : LocalAuthConfig) : LocalAuthState :=
  mkLocalState (hash (lac_password c)) (hash "__dummy__") (lac_username c) (lac_jwt_secret c)
    (lac_jwt_expiry_hours c) (lac_cookie_secure c).

Section auth.
Context {J : Jose} {D : PercentCodec} (debug : string → string).

Record AuthMiddlewareState := mkAuthState {
  am_provider : OidcProvider; am_groups_claim : string; am_logout_path : option string }.
Definition AuthMiddlewareState_from_config (client : AdminAuthConfig → result () string) (c : AdminAuthConfig) :
    result AuthMiddlewareState string :=
  let? provider := OidcProvider_from_config client c in
  Ok (mkAuthState provider (auc_groups_claim c) (auc_logout_path c)).

(** [local] is a cell that is read and replaced atomically: a call of the port. *)
Record UnifiedAuthState := mkUnified {
  ua_oidc : option AuthMiddlewareState; ua_skip_paths : list string; ua_require_auth : bool }.

Definition invalid_config (section component message : string) : string :=
  "invalid [" +:+ section +:+ "] config (component=" +:+ component +:+ "): " +:+ message.
(** The state and the first content of the cell. *)
Definition from_configs (client : AdminAuthConfig → result () string) (hash : string → string)
    (auth_config : option AdminAuthConfig) (local_auth_config : option LocalAuthConfig)
    (require_auth : bool) (component : string) : result (UnifiedAuthState * option LocalAuthState) string :=
  let base := PUBLIC_PROBE_PATHS ++ PUBLIC_DISCOVERY_ENDPOINTS in
  let? oidc :=
    match auth_config with
    | Some c =>
        if auc_enabled c then
          match AdminAuthConfig_validate c with
          | Some err => Err (invalid_config "auth" component err)
          | None =>
              let? state := map_err (invalid_config "auth" component) (AuthMiddlewareState_from_config client c) in
              Ok (Some state, auc_skip_paths c)
          end
        else Ok (None, [])
    | None => Ok (None, [])
    end in
  let? local :=
    match local_auth_config with
    | Some c =>
        if lac_enabled c then
          match LocalAuthConfig_validate c with
          | Some err => Err (invalid_config "local_auth" component err)
          | None => Ok (Some (LocalAuthState_from_config hash c), lac_skip_paths c)
          end
        else Ok (None, [])
    | None => Ok (None, [])
    end in
  Ok (mkUnified oidc.1 (base ++ oidc.2 ++ local.2) require_auth, local.1).

(** ** The port

    [Invoke] runs a business handler on a request that the layers let through. *)
Inductive auth_call : Type → Type :=
| LoadLocal : auth_call (option LocalAuthState)
| ValidateOidc (token : string) : auth_call (result OidcClaims string)
| DecodeJwt (secret token : string) : auth_call (result LocalAuthClaims string)
| EncodeJwt (secret : string) (claims : LocalAuthClaims) : auth_call (result string string)
| UnixSecs : auth_call Z
| BcryptVerify (password hash : string) : auth_call (option bool)
| Authorize (principal : Principal) (action : Action) : auth_call (CoreResult Decision)
| Granted (principal : Principal) (candidates : list string) : auth_call (CoreResult (option (list string)))
| Invoke (h : handler) (request : Request) : auth_call Response.

Abbreviation auth_prog := (prog auth_call).
Abbreviation Next := (Request → auth_prog Response).

Definition build_status (self : UnifiedAuthState) : auth_prog AuthStatusResponse :=
  if negb (ua_require_auth self) then Ret (mkStatus false [] Disabled)
  else
    local <~ LoadLocal ;;
    let providers := match ua_oidc self with Some _ => ["oidc"] | None => [] end
                     ++ match local with Some _ => ["local"] | None => [] end in
    Ret (mkStatus true providers (if bool_decide (providers = []) then Initializing else Ready)).

(** ** Authentication *)

Definition tab : ascii := ascii_of_N 9.
(** [HeaderValue::to_str]. *)
Definition header_str (value : string) : option string :=
  if str_all (λ c, in_range 32 126 c || Ascii.eqb c tab) value then Some value else None.
Definition extract_bearer_token (request : Request) : option string :=
  auth_header ← rq_authorization request;
  auth_str ← header_str auth_header;
  if (7 <? str_len auth_str)%Z then
    parts ← str_split_at 7 auth_str;
    if eq_ignore_ascii_case parts.1 "bearer " then Some parts.2 else None
  else None.
Fixpoint first_cookie (parts : list string) : option string :=
  match parts with
  | [] => None
  | part :: parts =>
      match strip_prefix "edgion_token=" (str_trim part) with
      | Some value => if is_empty value then first_cookie parts else Some value
      | None => first_cookie parts
      end
  end.
Definition semicolon : ascii := ";".
Definition extract_cookie_token (request : Request) : option string :=
  cookie_header ← rq_cookie request;
  cookie_str ← header_str cookie_header;
  first_cookie (str_split semicolon cookie_str).
Definition presented_token (request : Request) : option string :=
  match extract_bearer_token request with Some t => Some t | None => extract_cookie_token request end.

Definition oidc_identity (groups_claim : string) (c : OidcClaims) : result UnifiedAuthClaims string :=
  let? subject := validated_identity_claim debug "sub" (oc_sub c) 255 in
  let? issuer := validated_identity_claim debug "iss" (oc_iss c) 2048 in
  let? groups := extract_validated_groups debug (oc_claims c) groups_claim in
  Ok (mkClaims Identity.Oidc (Some subject) (Some issuer) groups (oc_claims c)).
Definition try_oidc_validation (state : AuthMiddlewareState) (token : string) :
    auth_prog (result UnifiedAuthClaims string) :=
  claims <~ ValidateOidc token ;;
  Ret (let? claims := claims in oidc_identity (am_groups_claim state) claims).

Definition local_identity (c : LocalAuthClaims) : UnifiedAuthClaims :=
  mkClaims LocalAuth (Some (lc_sub c)) None []
    (Object [("sub", Str (lc_sub c)); ("iat", Number (u64_to_string (lc_iat c)));
             ("exp", Number (u64_to_string (lc_exp c)))]).
Definition try_local_validation (state : LocalAuthState) (token : string) :
    auth_prog (result UnifiedAuthClaims string) :=
  decoded <~ DecodeJwt (la_jwt_secret state) token ;;
  Ret (match decoded with
       | Ok c => Ok (local_identity c)
       | Err e => Err ("Local JWT validation failed: " +:+ e)
       end).

Definition unified_auth_middleware (state : UnifiedAuthState) (request : Request) (next : Next) : auth_prog Response :=
  if bool_decide (rq_path request ∈ ua_skip_paths state) then next request
  else if is_public_auth_endpoint (rq_path request) then next request
  else if rq_auth_bypass request then next request
  else
    local_snapshot <~ LoadLocal ;;
    if negb (bool_decide (is_Some (ua_oidc state))) && negb (bool_decide (is_Some local_snapshot))
    then Ret initializing_response
    else
      match presented_token request with
      | None => Ret (build_admin_auth_error_response 401 "Missing credentials")
      | Some token =>
          let failed := build_admin_auth_error_response 401 "Authentication failed" in
          let local :=
            match local_snapshot with
            | None => Ret failed
            | Some local_state =>
                pbind (try_local_validation local_state token) (λ r,
                  match r with Ok claims => next (with_claims claims request) | Err _ => Ret failed end)
            end in
          match ua_oidc state with
          | None => local
          | Some oidc_state =>
              pbind (try_oidc_validation oidc_state token) (λ r,
                match r with Ok claims => next (with_claims claims request) | Err _ => local end)
          end
      end.

(** ** Authorization *)

Definition provider_name (provider : AuthProvider) : string :=
  match provider with Identity.Oidc => "oidc" | LocalAuth => "local" end.
Definition principal_of (claims : UnifiedAuthClaims) : option Principal :=
  subject ← ua_sub claims;
  Some (mkPrincipal subject (provider_name (ua_provider claims)) (ua_iss claims) (ua_groups claims)).

Definition credential_action : Action :=
  mkAction PROVIDER_CREDENTIALS_USE None (Some OpGet) (Some ("/permissions/" +:+ PROVIDER_CREDENTIALS_USE)) (Some "get").
Definition UNMAPPED : string := "<unmapped-business-route>".
Definition unmapped_action (method : Method) (path : string) : Action :=
  mkAction UNMAPPED None (Some OpExecute) (Some path) (Some (to_ascii_lowercase (method_str method))).
(** A write of a provider account, which refers to a credential. *)
Definition references_credential (method : Method) (path : string) : bool :=
  (bool_decide (method = POST) || bool_decide (method = PUT))
  && (String.eqb path "/api/v1/center/cloud/provider-accounts"
      || starts_with "/api/v1/center/cloud/provider-accounts/" path).

(** The permissions of the request, or the answer that ends it. *)
Definition authorize_key (principal : Principal) (key : string) (method : Method) (path : string) :
    auth_prog (result PermissionSet Response) :=
  match action_for_request key method path with
  | Err _ => Ret (Err (forbidden_response "<invalid-controller-id>"))
  | Ok action =>
      decision <~ Authorize principal action ;;
      match decision with
      | Err _ => Ret (Err authorization_unavailable_response)
      | Ok decision =>
          if negb (de_allowed decision) then Ret (Err (forbidden_response key))
          else if references_credential method path then
            decision <~ Authorize principal credential_action ;;
            match decision with
            | Ok decision =>
                if de_allowed decision then Ret (Ok (from_keys [key; PROVIDER_CREDENTIALS_USE]))
                else Ret (Err (forbidden_response PROVIDER_CREDENTIALS_USE))
            | Err _ => Ret (Err authorization_unavailable_response)
            end
          else Ret (Ok (from_keys [key]))
      end
  end.
Definition granted_to (principal : Principal) (path : string) : auth_prog (result PermissionSet Response) :=
  if String.eqb path "/api/v1/auth/me" then
    granted <~ Granted principal all_keys ;;
    match granted with
    | Ok (Some allowed) => Ret (Ok (from_keys allowed))
    | Ok None => Ret (Ok (from_keys []))
    | Err _ => Ret (Err authorization_unavailable_response)
    end
  else Ret (Ok (from_keys [])).
Definition authorize_unmapped (principal : Principal) (method : Method) (path : string) :
    auth_prog (result PermissionSet Response) :=
  if is_business_path path then
    decision <~ Authorize principal (unmapped_action method path) ;;
    match decision with
    | Ok decision =>
        if de_allowed decision then granted_to principal path else Ret (Err (forbidden_response UNMAPPED))
    | Err _ => Ret (Err authorization_unavailable_response)
    end
  else granted_to principal path.

Definition authz_middleware (request : Request) (next : Next) : auth_prog Response :=
  match rq_claims request with
  | None => next request
  | Some claims =>
      match principal_of claims with
      | None => Ret invalid_principal_response
      | Some principal =>
          let method := rq_method request in
          let path := rq_path request in
          pbind (match route_permission method path with
                 | Some key => authorize_key principal key method path
                 | None => authorize_unmapped principal method path
                 end) (λ r,
            match r with
            | Ok perms => next (with_permissions perms request)
            | Err response => Ret response
            end)
      end
  end.

(** ** Login, logout, identity and status *)

Definition set_cookie (value : string) (r : Response) : Response := insert_header "set-cookie" value r.
Definition secure_attr (secure : bool) : string := if secure then "; Secure" else "".

(** A bcrypt error counts as a failed verification. *)
Definition verify_single_admin (self : LocalAuthState) (username password : string) : auth_prog bool :=
  let username_matches := String.eqb username (la_username self) in
  verified <~ BcryptVerify password (if username_matches then la_password_hash self else la_dummy_hash self) ;;
  Ret (username_matches && default false verified).

(** [usize] is 64 bits wide; release builds wrap. *)
Definition issue_login_response (local_state : LocalAuthState) (username : string) : auth_prog Response :=
  now <~ UnixSecs ;;
  let expiry_secs := ((la_jwt_expiry_hours local_state * 3600) mod 2 ^ 64)%Z in
  let claims := mkLocalClaims username now (u64_wrapping_add now expiry_secs) in
  token <~ EncodeJwt (la_jwt_secret local_state) claims ;;
  Ret (match token with
       | Ok token =>
           set_cookie ("edgion_token=" +:+ token +:+ "; HttpOnly; SameSite=Strict; Path=/"
                       +:+ secure_attr (la_cookie_secure local_state) +:+ "; Max-Age=" +:+ u64_to_string expiry_secs)
             (mkResponse 200 [] (LoginBody token expiry_secs))
       | Err _ => mkResponse 500 [] (ApiErrorBody "Failed to generate token")
       end).
(** A verification task does not panic, so its join does not fail. *)
Definition login (request : Request) : auth_prog Response :=
  match rq_login request with
  | Err status => Ret (mkResponse status [] RejectionBody)
  | Ok (username, password) =>
      local <~ LoadLocal ;;
      match local with
      | None => Ret initializing_response
      | Some local_state =>
          pbind (verify_single_admin local_state username password) (λ ok,
            if (ok : bool) then issue_login_response local_state (la_username local_state)
            else Ret (mkResponse 401 [] (ApiErrorBody "Invalid username or password")))
      end
  end.
Definition logout : auth_prog Response :=
  local <~ LoadLocal ;;
  let cookie_secure := match local with Some s => la_cookie_secure s | None => true end in
  Ret (set_cookie ("edgion_token=; HttpOnly; SameSite=Strict; Path=/" +:+ secure_attr cookie_secure +:+ "; Max-Age=0")
         (mkResponse 200 [] EmptyOkBody)).

(** Without claims the extractor answers 500. *)
Definition me (state : UnifiedAuthState) (request : Request) : auth_prog Response :=
  match rq_claims request with
  | None => Ret (mkResponse 500 [] RejectionBody)
  | Some claims =>
      local <~ LoadLocal ;;
      let logout_path :=
        match ua_provider claims with
        | Identity.Oidc => ua_oidc state ≫= am_logout_path
        | LocalAuth => None
        end in
      Ret (mkResponse 200 [] (MeBody (mkMe (default "" (ua_sub claims))
             (match rq_permissions request with Some perms => materialize perms | None => [] end)
             (ua_provider claims) logout_path (bool_decide (is_Some local)))))
  end.
Definition status (state : UnifiedAuthState) : auth_prog Response :=
  pbind (build_status state) (λ s, Ret (mkResponse 200 [] (StatusBody s))).

(** ** Composition *)

Definition auth_routes (local_auth_intent : bool) : list route :=
  (if local_auth_intent
   then [("/api/v1/auth/login", [(post, login_handler)]); ("/api/v1/auth/logout", [(post, logout_handler)])] else [])
  ++ [("/api/v1/auth/me", [(get, me_handler)]); ("/api/v1/auth/status", [(get, status_handler)])].

Definition run_handler (state : UnifiedAuthState) (h : handler) (request : Request) : auth_prog Response :=
  match h with
  | login_handler => login request
  | logout_handler => logout
  | me_handler => me state request
  | status_handler => status state
  | _ => response <~ Invoke h request ;; Ret response
  end.
(** 405 when another method of the path has a handler. *)
Definition serve_route (state : UnifiedAuthState) (routes : list route) : Next := λ request,
  match dispatch routes (rq_method request) (rq_path request) with
  | Some h => run_handler state h request
  | None => Ret (mkResponse (if bool_decide (handlers_at (rq_path request) routes = []) then 404 else 405) [] RejectionBody)
  end.

Definition cache_control_no_store_middleware (request : Request) (next : Next) : auth_prog Response :=
  pbind (next request) (λ response, Ret (insert_header "cache-control" "no-store" response)).

Definition compose_admin_routes (business : list route) (state : UnifiedAuthState) (local_auth_intent : bool) : Next :=
  λ request, cache_control_no_store_middleware request (λ request,
    unified_auth_middleware state request (λ request,
      authz_middleware request (serve_route state (business ++ auth_routes local_auth_intent)))).

(** ** Runs of the layers *)

Abbreviation auth_event := (event auth_call).
Abbreviation auth_exec := (exec (@traced auth_call)).
Definition invokes (ev : auth_event) : bool := match ev with Ev (Invoke _ _) _ => true | _ => false end.
Definition quiet (t : list auth_event) : Prop := Forall (λ ev, invokes ev = false) t.
Definition silent (X : Type) (e : auth_call X) : Prop := match e with Invoke _ _ => False | _ => True end.

Lemma silent_quiet {A} (p : auth_prog A) t r t' :
  calls_only silent p → auth_exec p t r t' → ∃ u, t' = t ++ u ∧ quiet u.
Proof.
  intros Hp He. apply (exec_calls_only silent p t r t' Hp) in He as (u&->&Hf). exists u. split; [done|].
  eapply Forall_impl; [exact Hf|]. intros [X [] x]; done.
Qed.

Lemma login_silent request : calls_only silent (login request).
Proof.
  unfold login. destruct (rq_login request) as [[username password]|]; [|done]. split; [done|]. intros [l|]; [|done].
  cbn. split; [done|]. intros x. destruct (String.eqb _ _ && _); [|done]. by repeat split.
Qed.
Lemma me_silent state request : calls_only silent (me state request).
Proof. unfold me. destruct (rq_claims request); [|done]. by split. Qed.
Lemma status_silent state : calls_only silent (status state).
Proof. unfold status, build_status. destruct (negb _); [done|]. by split. Qed.

(** A handler of the router is invoked as the last call; those of this file are not. *)
Lemma run_handler_exec state h request t r t' :
  auth_exec (run_handler state h request) t r t' →
  (auth_handler h = true ∧ ∃ u, t' = t ++ u ∧ quiet u) ∨
  (auth_handler h = false ∧ t' = t ++ [Ev (Invoke h request) r]).
Proof.
  intros He. destruct h; try (right; split; [done|]; apply traced_step in He as (x&[-> ->]); done); left; (split; [done|]).
  - by eapply silent_quiet; [apply login_silent|].
  - by eapply silent_quiet; [|exact He].
  - by eapply silent_quiet; [apply me_silent|].
  - by eapply silent_quiet; [apply status_silent|].
Qed.

(** What the authorizer was asked and answered. *)
Definition granted (principal : Principal) (action : Action) (u : list auth_event) : Prop :=
  ∃ d, Ev (Authorize principal action) (Ok d) ∈ u ∧ de_allowed d = true.
Definition cleared (principal : Principal) (method : Method) (path : string) (u : list auth_event) : Prop :=
  match route_permission method path with
  | Some key =>
      ∃ action, action_for_request key method path = Ok action ∧ granted principal action u ∧
        (references_credential method path = true → granted principal credential_action u)
  | None => is_business_path path = true → granted principal (unmapped_action method path) u
  end.
Definition denial (status : Z) : Prop := status = 401%Z ∨ status = 403%Z ∨ status = 503%Z.

Lemma granted_to_exec principal path t r t' :
  auth_exec (granted_to principal path) t r t' →
  ∃ u, t' = t ++ u ∧ quiet u ∧ match r with Err e => denial (rs_status e) | Ok _ => True end.
Proof.
  unfold granted_to. destruct (String.eqb _ _).
  - intros (x&He)%traced_step. eexists. destruct x as [[|]|]; destruct He as [-> ->]; (split; [done|]);
      (split; [by repeat constructor|]); [done..|]. by right; right.
  - intros [-> ->]. exists []. rewrite app_nil_r. by split_and!; [|constructor|].
Qed.
Lemma permit_exec principal method path t r t' :
  auth_exec (match route_permission method path with
             | Some key => authorize_key principal key method path
             | None => authorize_unmapped principal method path
             end) t r t' →
  ∃ u, t' = t ++ u ∧ quiet u ∧
    match r with Err e => denial (rs_status e) | Ok _ => cleared principal method path u end.
Proof.
  unfold cleared. destruct (route_permission method path) as [key|].
  - unfold authorize_key. destruct (action_for_request key method path) as [action|].
    2:{ intros [-> ->]. exists []. rewrite app_nil_r. split_and!; [done|constructor|by right; left]. }
    intros (d&He)%traced_step. destruct d as [d|].
    2:{ destruct He as [-> ->]. eexists. split; [done|]. split; [by repeat constructor|by right; right]. }
    destruct (de_allowed d) eqn:Ed; cbn [negb] in He.
    2:{ destruct He as [-> ->]. eexists. split; [done|]. split; [by repeat constructor|by right; left]. }
    destruct (references_credential method path).
    + apply traced_step in He as (d'&He). rewrite <-app_assoc in He. eexists.
      destruct d' as [d'|]; [destruct (de_allowed d') eqn:Ed'|]; destruct He as [-> ->]; (split; [done|]);
        (split; [by repeat constructor|]).
      * exists action. split; [done|]. split; [exists d; split; [left|done]|]. intros _. exists d'. split; [right; left|done].
      * by right; left.
      * by right; right.
    + destruct He as [-> ->]. eexists. split; [done|]. split; [by repeat constructor|]. exists action.
      split; [done|]. split; [exists d; split; [left|done]|done].
  - unfold authorize_unmapped. destruct (is_business_path path).
    + intros (d&He)%traced_step. destruct d as [d|].
      2:{ destruct He as [-> ->]. eexists. split; [done|]. split; [by repeat constructor|by right; right]. }
      destruct (de_allowed d) eqn:Ed.
      * apply granted_to_exec in He as (u&->&Hu&Hr). rewrite <-app_assoc. eexists. split; [done|].
        split; [by constructor|]. destruct r; [|done]. intros _. exists d. split; [left|done].
      * destruct He as [-> ->]. eexists. split; [done|]. split; [by repeat constructor|by right; left].
    + intros (u&->&Hu&Hr)%granted_to_exec. exists u. split_and!; [done..|]. by destruct r.
Qed.

Lemma authz_exec request next t r t' :
  auth_exec (authz_middleware request next) t r t' →
  (rq_claims request = None ∧ auth_exec (next request) t r t') ∨
  (∃ u, t' = t ++ u ∧ quiet u ∧ denial (rs_status r)) ∨
  (∃ claims principal perms u, rq_claims request = Some claims ∧ principal_of claims = Some principal ∧
     quiet u ∧ cleared principal (rq_method request) (rq_path request) u ∧
     auth_exec (next (with_permissions perms request)) (t ++ u) r t').
Proof.
  unfold authz_middleware. destruct (rq_claims request) as [claims|]; [|by left]. intros He. right.
  destruct (principal_of claims) as [principal|] eqn:Hp.
  2:{ destruct He as [-> ->]. left. exists []. rewrite app_nil_r. split_and!; [done|constructor|by left]. }
  apply exec_bind in He as (a&s&Ha&He). apply permit_exec in Ha as (u&->&Hu&Hr). destruct a as [perms|e].
  - right. by exists claims, principal, perms, u.
  - left. destruct He as [-> ->]. by exists u.
Qed.

(** Which validator vouched for the claims. *)
Definition established (state : UnifiedAuthState) (token : string) (claims : UnifiedAuthClaims)
    (u : list auth_event) : Prop :=
  (∃ s c, ua_oidc state = Some s ∧ Ev (ValidateOidc token) (Ok c) ∈ u ∧
     oidc_identity (am_groups_claim s) c = Ok claims) ∨
  (∃ s c, Ev LoadLocal (Some s) ∈ u ∧ Ev (DecodeJwt (la_jwt_secret s) token) (Ok c) ∈ u ∧ claims = local_identity c).
Definition open_path (state : UnifiedAuthState) (path : string) : Prop :=
  path ∈ ua_skip_paths state ∨ is_public_auth_endpoint path = true.

Lemma unified_exec state request next t r t' :
  rq_auth_bypass request = false →
  auth_exec (unified_auth_middleware state request next) t r t' →
  (open_path state (rq_path request) ∧ auth_exec (next request) t r t') ∨
  (∃ u, t' = t ++ u ∧ quiet u ∧ denial (rs_status r)) ∨
  (∃ token claims u, presented_token request = Some token ∧ established state token claims u ∧ quiet u ∧
     auth_exec (next (with_claims claims request)) (t ++ u) r t').
Proof.
  intros Hb. unfold unified_auth_middleware. case_bool_decide as Hs; [by left; split; [left|]|].
  destruct (is_public_auth_endpoint _) eqn:Hp; [by left; split; [right|]|]. rewrite Hb. intros He. right.
  apply traced_step in He as (local&He). destruct (negb _ && negb _).
  { destruct He as [-> ->]. left. eexists. split; [done|]. split; [by repeat constructor|by right; right]. }
  destruct (presented_token request) as [token|] eqn:Ht.
  2:{ destruct He as [-> ->]. left. eexists. split; [done|]. split; [by repeat constructor|by left]. }
  rewrite <-Ht. set (failed := build_admin_auth_error_response 401 "Authentication failed") in He.
  assert (∀ u, quiet u → Ev LoadLocal local ∈ u →
    auth_exec (match local with
               | Some local_state => pbind (try_local_validation local_state token) (λ r,
                   match r with Ok claims => next (with_claims claims request) | Err _ => Ret failed end)
               | None => Ret failed end) (t ++ u) r t' →
    (∃ u, t' = t ++ u ∧ quiet u ∧ denial (rs_status r)) ∨
    (∃ token claims u, presented_token request = Some token ∧ established state token claims u ∧ quiet u ∧
       auth_exec (next (with_claims claims request)) (t ++ u) r t')) as Hlocal.
  { intros u Hu Hin Hx. destruct local as [s|]; [|destruct Hx as [-> ->]; left; exists u; split_and!; [done..|by left]].
    unfold try_local_validation in Hx. cbn [pbind] in Hx. apply traced_step in Hx as (d&Hx). rewrite <-app_assoc in Hx.
    assert (quiet (u ++ [Ev (DecodeJwt (la_jwt_secret s) token) d])) as Hu'
      by (apply Forall_app; split; [done|by repeat constructor]).
    destruct d as [c|e].
    - right. exists token, (local_identity c). eexists. split; [done|]. split; [|split; [exact Hu'|exact Hx]].
      right. exists s, c. split_and!; [set_solver..|done].
    - destruct Hx as [-> ->]. left. eexists. split; [done|]. split; [done|by left]. }
  assert (quiet [Ev LoadLocal local]) as Hq by by repeat constructor.
  destruct (ua_oidc state) as [s|] eqn:Eo; [|apply (Hlocal _ Hq); [by left|done]].
  unfold try_oidc_validation in He. cbn [pbind] in He. apply traced_step in He as (c&He). rewrite <-app_assoc in He.
  assert (quiet ([Ev LoadLocal local] ++ [Ev (ValidateOidc token) c])) as Hu' by by repeat constructor.
  destruct (let? claims := c in oidc_identity (am_groups_claim s) claims) as [claims|e] eqn:Ec.
  - right. exists token, claims. eexists. split; [done|]. split; [|split; [exact Hu'|exact He]]. left.
    destruct c as [c|]; [|done]. exists s, c. split_and!; [done|set_solver|done].
  - apply (Hlocal _ Hu'); [set_solver|done].
Qed.

(** ** Skipped paths *)

Lemma first_error_None checks : first_error checks = None → Forall (λ c, c.1 = false) checks.
Proof. induction checks as [|[[] m] checks IH]; cbn [first_error]; intros Hc; [constructor|done|constructor; auto]. Qed.
Lemma skip_check l : existsb (λ p, negb (is_skip_allowlisted p)) l = false → Forall (λ p, is_skip_allowlisted p = true) l.
Proof.
  intros Hl. apply Forall_forall. intros p Hp. destruct (is_skip_allowlisted p) eqn:E; [done|].
  assert (existsb (λ p, negb (is_skip_allowlisted p)) l = true) as Ht; [|congruence].
  apply existsb_exists. exists p. rewrite E. split; [by apply list_elem_of_In|done].
Qed.
Lemma auth_config_skips c :
  auc_enabled c = true → AdminAuthConfig_validate c = None → Forall (λ p, is_skip_allowlisted p = true) (auc_skip_paths c).
Proof.
  unfold AdminAuthConfig_validate. intros -> Hv%first_error_None. repeat apply Forall_cons in Hv as [? Hv].
  by apply skip_check.
Qed.
Lemma local_config_skips c :
  lac_enabled c = true → LocalAuthConfig_validate c = None → Forall (λ p, is_skip_allowlisted p = true) (lac_skip_paths c).
Proof.
  unfold LocalAuthConfig_validate. intros -> Hv%first_error_None. repeat apply Forall_cons in Hv as [? Hv].
  by apply skip_check.
Qed.

(** Operators can open the probes and the authentication endpoints, nothing else. *)
Lemma from_configs_skips client hash auth_config local_config require_auth component state local path :
  from_configs client hash auth_config local_config require_auth component = Ok (state, local) →
  open_path state path → is_skip_allowlisted path = true ∨ path = "/api/v1/server-info".
Proof.
  unfold from_configs. intros Hf Ho.
  destruct (match auth_config with Some _ => _ | None => _ end) as [[oidc oskips]|] eqn:Eo; [|done].
  destruct (match local_config with Some _ => _ | None => _ end) as [[loc lskips]|] eqn:El in Hf; [|done].
  injection Hf as <- <-. destruct Ho as [Ho|Ho].
  2:{ left. unfold is_skip_allowlisted. apply orb_true_iff. right. unfold is_public_auth_endpoint in Ho.
      apply bool_decide_eq_true in Ho. repeat (apply elem_of_cons in Ho as [->|Ho]; [by vm_compute|]). by apply not_elem_of_nil in Ho. }
  cbn in Ho. assert (Forall (λ p, is_skip_allowlisted p = true) oskips) as Hos.
  { destruct auth_config as [c|]; [|by injection Eo as <- <-; constructor].
    destruct (auc_enabled c) eqn:Ee; [|by injection Eo as <- <-; constructor].
    destruct (AdminAuthConfig_validate c) eqn:Ev; [done|].
    destruct (map_err _ _) as [s|]; [|done]. injection Eo as <- <-. by apply auth_config_skips. }
  assert (Forall (λ p, is_skip_allowlisted p = true) lskips) as Hls.
  { destruct local_config as [c|]; [|by injection El as <- <-; constructor].
    destruct (lac_enabled c) eqn:Ee; [|by injection El as <- <-; constructor].
    destruct (LocalAuthConfig_validate c) eqn:Ev; [done|]. injection El as <- <-. by apply local_config_skips. }
  rewrite Forall_forall in Hos, Hls. repeat rewrite elem_of_cons in Ho.
  destruct Ho as [->|[->|[->|[->|Ho]]]]; [by left; vm_compute..|by right|].
  left. apply elem_of_app in Ho as [Ho|Ho]; auto.
Qed.

(** ** The router behind the layers *)

Section composed.
Variable business : list route.
Hypothesis business_routes : ∀ r, r ∈ business → r ∈ all_routes.

Lemma dispatch_app routes routes' method path :
  dispatch (routes ++ routes') method path =
  match dispatch routes method path with Some h => Some h | None => dispatch routes' method path end.
Proof.
  unfold dispatch, handlers_at. rewrite bind_app, omap_app. by destruct (omap _ _).
Qed.
Lemma serves_dispatch method path h :
  serves business method path h → dispatch business method path = Some h.
Proof.
  intros Hs. destruct (dispatch business method path) as [h'|] eqn:Ed.
  - f_equal. apply (serves_unique method path); (eapply serves_mono; [exact business_routes|]); [|done].
    by apply dispatch_serves.
  - destruct Hs as (e&(r&Hin&Hr)%list_elem_of_bind&[Hm Ha]%andb_true_iff&<-). exfalso.
    apply list_elem_of_In, in_map_iff in Hin as ([f h]&<-&Hin). apply list_elem_of_In in Hin. cbn in *.
    unfold dispatch in Ed. apply head_None in Ed.
    assert (h ∈ omap (λ fh : MethodFilter * handler, if accepts fh.1 method then Some fh.2 else None) (handlers_at path business)) as Hh;
      [|rewrite Ed in Hh; by apply not_elem_of_nil in Hh].
    apply list_elem_of_omap. exists (f, h). cbn. rewrite Ha. split; [|done]. unfold handlers_at.
    apply list_elem_of_bind. exists r. unfold matches. by rewrite Hm.
Qed.
Lemma auth_dispatch intent method path h : dispatch (auth_routes intent) method path = Some h → auth_handler h = true.
Proof.
  intros (e&He&_&<-)%dispatch_serves.
  assert (Forall (λ e : entry, auth_handler e.2 = true) (entries (auth_routes intent))) as Hf
    by (destruct intent; apply (bool_decide_unpack _); vm_compute; exact I).
  rewrite Forall_forall in Hf. exact (Hf e He).
Qed.

Lemma serve_exec state intent request t r t' :
  auth_exec (serve_route state (business ++ auth_routes intent) request) t r t' →
  (∃ u, t' = t ++ u ∧ quiet u ∧ ∀ h, ¬ serves business (rq_method request) (rq_path request) h) ∨
  (∃ h, serves business (rq_method request) (rq_path request) h ∧ t' = t ++ [Ev (Invoke h request) r]).
Proof.
  unfold serve_route. rewrite dispatch_app.
  destruct (dispatch business _ _) as [h|] eqn:Ed.
  - apply dispatch_serves in Ed. assert (auth_handler h = false) as Hh
      by by eapply serves_business, serves_mono.
    intros [[Ha _]|[_ ->]]%run_handler_exec; [congruence|]. right. by exists h.
  - assert (∀ h, ¬ serves business (rq_method request) (rq_path request) h) as Hn
      by (intros h Hs%serves_dispatch; congruence).
    intros He. left. destruct (dispatch (auth_routes intent) _ _) as [h|] eqn:Ea.
    + apply auth_dispatch in Ea. apply run_handler_exec in He as [[_ (u&->&Hu)]|[Hh _]]; [by exists u|congruence].
    + destruct He as [-> ->]. exists []. rewrite app_nil_r. by split_and!; [|constructor|].
Qed.
End composed.

(** ** What it takes to reach a handler *)

Definition entitled (state : UnifiedAuthState) (request : Request) (claims : option UnifiedAuthClaims) (h : handler)
    (pre : list auth_event) : Prop :=
  let method := rq_method request in
  let path := rq_path request in
  ∃ token c principal,
    presented_token request = Some token ∧ established state token c pre ∧ claims = Some c ∧
    principal_of c = Some principal ∧
    ((∃ action, action_for_request (required h method) method path = Ok action ∧ granted principal action pre ∧
        (h = provider_accounts_create ∨ h = provider_accounts_replace → granted principal credential_action pre) ∧
        (∀ pattern, target_pattern h = Some pattern →
           ac_controller_id action ≠ None ∧ ac_controller_id action = path_id pattern path)) ∨
     (method = HEAD ∧ route53_read h = true ∧ granted principal (unmapped_action method path) pre)).

Lemma granted_app principal action u v : granted principal action u → granted principal action (v ++ u).
Proof. intros (d&Hin&Hd). exists d. split; [apply elem_of_app; by right|done]. Qed.
Lemma established_app state token c u v : established state token c u → established state token c (u ++ v).
Proof.
  intros [(s&cl&?&?&?)|(s&cl&?&?&?)]; [left|right]; exists s, cl; split_and!; try done; apply elem_of_app; by left.
Qed.

Lemma cleared_entitled state request token c principal h u v :
  serves all_routes (rq_method request) (rq_path request) h →
  presented_token request = Some token → established state token c u → principal_of c = Some principal →
  cleared principal (rq_method request) (rq_path request) v →
  entitled state request (Some c) h (u ++ v).
Proof.
  intros Hs Ht He Hp Hc. destruct (serves_permitted _ _ _ Hs) as [Hb Hr].
  exists token, c, principal. split_and!; [done|by apply established_app|done..|].
  unfold cleared in Hc. rewrite route_permission_segments in Hc. destruct Hr as [Hr|(Hm&H53&Hr)].
  - rewrite Hr in Hc. destruct Hc as (action&Ha&Hg&Hcr). left. exists action.
    split_and!; [done|by apply granted_app|..].
    + intros Hh. apply granted_app, Hcr. destruct (credential_referenced _ _ _ Hs Hh) as [Hm Hpath].
      unfold references_credential. rewrite Hpath, andb_true_r. apply orb_true_iff.
      destruct Hm as [->| ->]; [by left|by right].
    + intros pattern Hpat. by eapply target_authorized.
  - rewrite Hm in Hc. rewrite Hr in Hc. right. split_and!; [done..|]. rewrite Hm. by apply granted_app, Hc.
Qed.

(** The possible ends of a request. *)
Lemma admin_exec (client : AdminAuthConfig → result () string) (hash : string → string)
    (auth_config : option AdminAuthConfig) (local_config : option LocalAuthConfig) (require_auth : bool)
    (component : string) (state : UnifiedAuthState) (local : option LocalAuthState) (comp : Composition)
    (configured : CenterCapabilities) (intent : bool) (request : Request) (response : Response) (t : list auth_event) :
  from_configs client hash auth_config local_config require_auth component = Ok (state, local) →
  rq_claims request = None → rq_auth_bypass request = false →
  auth_exec (compose_admin_routes (router comp configured) state intent request) [] response t →
  (quiet t ∧ ∀ h, serves (router comp configured) (rq_method request) (rq_path request) h → denial (rs_status response)) ∨
  ∃ h claims perms reply pre,
    let r := mkRequest (rq_method request) (rq_path request) (rq_authorization request) (rq_cookie request)
               (rq_login request) false claims perms in
    t = pre ++ [Ev (Invoke h r) reply] ∧ quiet pre ∧ response = insert_header "cache-control" "no-store" reply ∧
    serves (router comp configured) (rq_method request) (rq_path request) h ∧
    (h = server_info ∧ claims = None ∨ entitled state request claims h pre).
Proof.
  intros Hf Hc Hb (r&s&He&[-> ->])%exec_bind. pose proof (router_routes comp configured) as Hbr.
  apply (unified_exec _ _ _ _ _ _ Hb) in He as [[Ho He]|[(u&->&Hu&Hd)|(token&c&u&Ht&Hest&Hu&He)]].
  - apply authz_exec in He as [[_ He]|[(u&->&Hu&Hd)|(c&p&perms&u&Hc'&_)]]; [| |congruence].
    + apply (serve_exec _ Hbr) in He as [(u&->&Hu&Hn)|(h&Hs&->)].
      * left. split; [done|]. intros h Hs. by destruct (Hn h).
      * right. exists h, None, (rq_permissions request), r, []. split_and!; [|constructor|done..|].
        { destruct request; cbn in *. by subst. }
        left. split; [|done]. pose proof (serves_mono _ _ _ _ _ Hbr Hs) as Hs'.
        destruct (from_configs_skips _ _ _ _ _ _ _ _ _ Hf Ho) as [Ha|Hp].
        -- exfalso. apply serves_permitted in Hs' as [Hbus _]. unfold is_business_path in Hbus.
           apply andb_true_iff in Hbus as [H1 H2]. unfold is_skip_allowlisted, AUTH_ENDPOINT_PREFIX in Ha.
           apply orb_true_iff in Ha as [Ha|Ha]; [|rewrite Ha in H2; done].
           unfold is_public_probe in Ha. apply bool_decide_eq_true in Ha.
           repeat (apply elem_of_cons in Ha as [Ha|Ha]; [rewrite Ha in H1; vm_compute in H1; discriminate H1|]).
           by apply not_elem_of_nil in Ha.
        -- apply (server_info_path (rq_method request)). by rewrite <-Hp.
    + left. split; [done|]. intros h _. exact Hd.
  - left. split; [done|]. intros h _. exact Hd.
  - apply authz_exec in He as [[Hn _]|[(v&->&Hv&Hd)|(c'&p&perms&v&Hc'&Hp&Hv&Hcl&He)]]; [done| |].
    + left. split; [by apply Forall_app|]. intros h _. exact Hd.
    + injection Hc' as <-. apply (serve_exec _ Hbr) in He as [(w&->&Hw&Hn)|(h&Hs&->)].
      * left. split; [by repeat (apply Forall_app; split)|]. intros h Hs. by destruct (Hn h).
      * right. exists h, (Some c), (Some perms), r, (u ++ v). split_and!; [|by apply Forall_app|done..|].
        { destruct request; cbn in *. by subst. }
        right. apply (cleared_entitled state request token c p h u v); try done. by eapply serves_mono.
Qed.

(** C17.  Nobody reaches a handler of the admin API without permission.  For every
    configuration that loads, every composition and every request that enters, and
    whatever validators, authorizer and handlers answer: at most one handler runs, as
    the last thing that happens, and it is the one the route table names; except for
    the discovery endpoint it runs under claims that a validator accepted for the
    token of this very request, after the authorizer allowed their principal the key
    of this handler on this method and path (on the controller the handler acts on,
    and with the use of credentials for a write of a provider account).  One kind of
    request has no key, HEAD of a Route 53 read: it reaches its handler only after
    the authorizer allowed that principal the action of an unmapped business route
    on this method and path.  When no handler runs, a request for one was denied
    with 401, 403 or 503. *)
Theorem admin_request_authorized (client : AdminAuthConfig → result () string) (hash : string → string)
    (auth_config : option AdminAuthConfig) (local_config : option LocalAuthConfig) (require_auth : bool)
    (component : string) (state : UnifiedAuthState) (local : option LocalAuthState) (comp : Composition)
    (configured : CenterCapabilities) (intent : bool) (request : Request) (response : Response) (t : list auth_event) :
  from_configs client hash auth_config local_config require_auth component = Ok (state, local) →
  rq_claims request = None → rq_auth_bypass request = false →
  auth_exec (compose_admin_routes (router comp configured) state intent request) [] response t →
  (quiet t ∧ ∀ h, serves (router comp configured) (rq_method request) (rq_path request) h → denial (rs_status response)) ∨
  ∃ h claims perms reply pre,
    let r := mkRequest (rq_method request) (rq_path request) (rq_authorization request) (rq_cookie request)
               (rq_login request) false claims perms in
    t = pre ++ [Ev (Invoke h r) reply] ∧ quiet pre ∧ response = insert_header "cache-control" "no-store" reply ∧
    serves (router comp configured) (rq_method request) (rq_path request) h ∧
    (h = server_info ∧ claims = None ∨ entitled state request claims h pre).
Proof. apply admin_exec. Qed.

(** ** Login *)

Definition bcrypts (ev : auth_event) : bool := match ev with Ev (BcryptVerify _ _) _ => true | _ => false end.

Definition loaded (ev : auth_event) : option LocalAuthState :=
  match ev with Ev e x => match e in auth_call X return X → _ with LoadLocal => λ x, x | _ => λ _, None end x end.

(** A token is issued for the configured administrator only, after the presented
    password was verified against the configured one; with a provider every attempt
    verifies exactly one hash, whether the name exists or not. *)
Theorem login_checks_password (request : Request) (r : Response) (t : list auth_event) :
  auth_exec (login request) [] r t →
  (∀ token expires, rs_body r = LoginBody token expires →
     ∃ username password s now, rq_login request = Ok (username, password) ∧
       Ev LoadLocal (Some s) ∈ t ∧ username = la_username s ∧
       Ev (BcryptVerify password (la_password_hash s)) (Some true) ∈ t ∧
       Ev (EncodeJwt (la_jwt_secret s) (mkLocalClaims username now (u64_wrapping_add now expires))) (Ok token) ∈ t) ∧
  (∀ username password s, rq_login request = Ok (username, password) → Ev LoadLocal (Some s) ∈ t →
     length (List.filter bcrypts t) = 1).
Proof.
  unfold login. destruct (rq_login request) as [[username password]|code]; [|by intros [-> ->]; split].
  intros (local&He)%traced_step. destruct local as [s|].
  2:{ destruct He as [-> ->]. split; [done|]. intros ? ? s _ Hin%list_elem_of_singleton%(f_equal loaded). discriminate Hin. }
  unfold verify_single_admin in He. cbn [pbind] in He. apply traced_step in He as (verified&He). cbn [app] in He.
  destruct (String.eqb_spec username (la_username s)) as [->|Hne]; cbn [andb] in He.
  2:{ destruct He as [-> ->]. by split. }
  destruct verified as [[]|]; cbn [default from_option] in He; [|by destruct He as [-> ->]; split..].
  apply traced_step in He as (now&He). apply traced_step in He as (token&He). cbn [app] in He. split.
  - intros tok expires Hb. destruct token as [tk|]; destruct He as [-> ->]; [|done]. cbn in Hb. injection Hb as -> <-.
    exists (la_username s), password, s, now. split_and!; first [done | repeat (first [left; reflexivity | right])].
  - intros _ _ _ _ _. by destruct token; destruct He as [-> ->].
Qed.
End auth.

(** ** A request of a local user

    The administrator writes a record set with the token of a cookie, under the policy
    that allows everything. *)
Definition demo_percent : PercentCodec := λ s, s.
Definition demo_local_config : LocalAuthConfig := mkLocalConfig true "admin" "pw" "secret" 24 PUBLIC_PROBE_PATHS true.
Definition demo_state : UnifiedAuthState := mkUnified None (PUBLIC_PROBE_PATHS ++ ["/api/v1/server-info"] ++ PUBLIC_PROBE_PATHS) true.
Definition demo_local : LocalAuthState := mkLocalState "#pw" "#__dummy__" "admin" "secret" 24 true.
Definition demo_request : Request :=
  mkRequest PUT demo_remote_path None (Some "theme=dark; edgion_token=t1") (Err 400%Z) false None None.
Definition demo_answers (X : Type) (e : auth_call X) (t : list (event auth_call)) : X * list (event auth_call) :=
  match e in auth_call X return auth_call X → X * list (event auth_call) with
  | LoadLocal => λ e, (Some demo_local, t ++ [Ev e (Some demo_local)])
  | ValidateOidc _ => λ e, (Err "none", t ++ [Ev e (Err "none")])
  | DecodeJwt _ _ => λ e, let x := Ok (mkLocalClaims "admin" 1 100) in (x, t ++ [Ev e x])
  | EncodeJwt _ _ => λ e, (Ok "t1", t ++ [Ev e (Ok "t1")])
  | UnixSecs => λ e, (1%Z, t ++ [Ev e 1%Z])
  | BcryptVerify _ _ => λ e, (Some true, t ++ [Ev e (Some true)])
  | Authorize p a => λ e, let x := AllowAll_authorize p a in (x, t ++ [Ev e x])
  | Granted p c => λ e, let x := AllowAll_granted_permissions p c in (x, t ++ [Ev e x])
  | Invoke _ _ => λ e, let x := mkResponse 200 [] (BusinessBody "{}") in (x, t ++ [Ev e x])
  end e.
Definition demo_api := run demo_answers
  (@compose_admin_routes demo_percent (λ s, s) (router demo_composition demo_everything) demo_state true
     demo_request) [].
Lemma demo_api_exec :
  exec (@traced auth_call) (@compose_admin_routes demo_percent (λ s, s)
    (router demo_composition demo_everything) demo_state true demo_request) [] demo_api.1 demo_api.2.
Proof. apply (run_exec _ demo_answers); [by intros X [] s x s' [= <- <-]|]. apply surjective_pairing. Qed.

Lemma admin_request_authorized_witness :
  rs_status demo_api.1 = 200%Z ∧
  ∃ claims pre, @entitled demo_percent (λ s, s) demo_state demo_request claims cloudflare_put_remote_record_set pre.
Proof.
  assert (rs_status demo_api.1 = 200%Z) as Hs by (vm_compute; reflexivity). split; [exact Hs|].
  assert (serves (router demo_composition demo_everything) PUT demo_remote_path cloudflare_put_remote_record_set) as Hr
    by (apply dispatch_serves; vm_compute; reflexivity).
  destruct (@admin_request_authorized demo_jose demo_percent (λ s, s) (λ _, Ok tt) (λ s, "#" +:+ s) None
    (Some demo_local_config) true "center" demo_state (Some demo_local) demo_composition demo_everything true demo_request
    demo_api.1 demo_api.2 eq_refl eq_refl eq_refl demo_api_exec)
    as [[_ Hd]|(h&claims&perms&reply&pre&_&_&_&Hh&[[-> _]|He])].
  - destruct (Hd _ Hr) as [Hc|[Hc|Hc]]; rewrite Hs in Hc; discriminate Hc.
  - exfalso. pose proof (serves_mono _ _ _ _ _ (router_routes _ _) Hh) as H1.
    pose proof (serves_mono _ _ _ _ _ (router_routes _ _) Hr) as H2.
    pose proof (serves_unique _ _ _ _ H1 H2) as Hc. discriminate Hc.
  - exists claims, pre.
    pose proof (serves_unique _ _ _ _ (serves_mono _ _ _ _ _ (router_routes _ _) Hh)
      (serves_mono _ _ _ _ _ (router_routes _ _) Hr)) as Heq. rewrite Heq in He. exact He.
Defined.
