(* ===== verification/Sar.v ===== *)
(** * Sar: authorization by Kubernetes

    [crates/center-adapter-kubernetes/src/sar.rs]: the authorizer that turns an action
    of a principal into one SubjectAccessReview, and its composition with the layers
    of the admin API.  The API server is a port that may answer anything; that the
    parser of its answers is right is not the adapter's business. *)

From Stdlib Require Import ZArith Ascii String Lia.
From S2P Require Import Prelude Text Core Effects Directory Identity Oidc Permissions AdminAuth.

Definition CENTER_AUTHZ_PATH_PREFIX : string := "/edgion-center-authz".

Record ResourceAttributes := mkResourceAttributes {
  ra_group : option string;
  ra_version : option string;
  ra_resource : option string;
  ra_namespace : option string;
  ra_name : option string;
  ra_verb : option string;
}.
Record NonResourceAttributes := mkNonResource { nr_path : option string; nr_verb : option string }.
Record SubjectAccessReview := mkReview {
  sr_user : option string;
  sr_groups : option (list string);
  sr_resource_attributes : option ResourceAttributes;
  sr_non_resource_attributes : option NonResourceAttributes;
}.
Record SubjectAccessReviewStatus := mkReviewStatus {
  ss_allowed : bool;
  ss_reason : option string;
  ss_evaluation_error : option string;
}.

Inductive review_call : Type → Type :=
| CreateReview (review : SubjectAccessReview) : review_call (result (option SubjectAccessReviewStatus) string).

Section sar.
(** SHA-256 in hexadecimal, and [{:?}] of a string. *)
Variable sha256_hex : string → string.
Variable debug : string → string.
Variable namespace : string.

Definition length_prefix (issuer : string) : string := "oidc:" +:+ u64_to_string (str_len issuer) +:+ ":" +:+ issuer.
(** The name of the user and the prefix of the groups. *)
Definition review_identity (principal : Principal) : CoreResult (string * string) :=
  if String.eqb (pr_provider principal) "oidc" then
    match pr_issuer principal with
    | Some issuer =>
        if is_empty issuer then Err (Adapter "OIDC authorization requires a validated issuer")
        else Ok (length_prefix issuer +:+ ":user:" +:+ pr_subject principal, length_prefix issuer +:+ ":group:")
    | None => Err (Adapter "OIDC authorization requires a validated issuer")
    end
  else if String.eqb (pr_provider principal) "local" then
    match pr_issuer principal with
    | None => Ok ("local:user:" +:+ pr_subject principal, "local:group:")
    | Some _ => Err (Adapter ("unsupported Kubernetes principal provider " +:+ debug (pr_provider principal)))
    end
  else Err (Adapter ("unsupported Kubernetes principal provider " +:+ debug (pr_provider principal))).

Definition operation_verb (operation : ActionOperation) : string :=
  match operation with
  | OpList => "list" | OpGet => "get" | OpCreate => "create" | OpUpdate | OpExecute => "update" | OpDelete => "delete"
  end.
Definition review_attributes (action : Action) :
    CoreResult (option ResourceAttributes * option NonResourceAttributes) :=
  if starts_with "controllers:" (ac_permission action) then
    let? operation := ok_or (Adapter "controller authorization requires an operation") (ac_operation action) in
    Ok (Some (mkResourceAttributes (Some "center.edgion.io") (Some "v1alpha1") (Some "edgioncontrollers")
                (Some namespace) (controller_resource_name sha256_hex <$> ac_controller_id action)
                (Some (operation_verb operation))), None)
  else
    let? request_path := ok_or (Adapter "non-resource authorization requires a request path") (ac_request_path action) in
    if negb (starts_with "/" request_path)
    then Err (Adapter "non-resource authorization requires an absolute request path")
    else
      let? verb := ok_or (Adapter "non-resource authorization requires a request verb") (ac_request_verb action) in
      Ok (None, Some (mkNonResource (Some (CENTER_AUTHZ_PATH_PREFIX +:+ request_path)) (Some verb))).

Definition review (principal : Principal) (action : Action) : CoreResult SubjectAccessReview :=
  let? identity := review_identity principal in
  let? attributes := review_attributes action in
  Ok (mkReview (Some identity.1) (Some (map (λ group, identity.2 +:+ group) (pr_groups principal)))
        attributes.1 attributes.2).

Definition review_decision (status : option SubjectAccessReviewStatus) : CoreResult Decision :=
  let? status := ok_or (Adapter "SubjectAccessReview response omitted status") status in
  match ss_evaluation_error status with
  | Some error =>
      if is_empty error
      then Ok (if ss_allowed status then allow else deny (default "Kubernetes authorization denied" (ss_reason status)))
      else Err (Adapter ("SubjectAccessReview evaluation error: " +:+ error))
  | None => Ok (if ss_allowed status then allow else deny (default "Kubernetes authorization denied" (ss_reason status)))
  end.
Definition authorize (principal : Principal) (action : Action) : prog review_call (CoreResult Decision) :=
  try? review := review principal action in
  response <~ CreateReview review ;;
  Ret (let? status := map_err Adapter response in review_decision status).

Definition discovery_action (permission : string) : Action :=
  mkAction "<permission-discovery>" None (Some OpGet) (Some ("/permissions/" +:+ permission)) (Some "get").
Fixpoint granted_loop (principal : Principal) (candidates granted : list string) :
    prog review_call (CoreResult (option (list string))) :=
  match candidates with
  | [] => Ret (Ok (Some granted))
  | permission :: candidates =>
      await? decision := authorize principal (discovery_action permission) in
      granted_loop principal candidates (if de_allowed decision then granted ++ [permission] else granted)
  end.
Definition granted_permissions (principal : Principal) (candidates : list string) :
    prog review_call (CoreResult (option (list string))) := granted_loop principal candidates [].

(** ** Reviews are faithful *)

Lemma str_app_cancel (a b c : string) : a +:+ b = a +:+ c → b = c.
Proof. induction a as [|x a IH]; [exact id|]. rewrite !str_app_cons. intros [= ?]. by apply IH. Qed.

(** A length in front of a text makes it a prefix code. *)
Lemma length_prefix_inj issuer issuer' rest rest' :
  (str_len issuer <= U64_MAX)%Z → (str_len issuer' <= U64_MAX)%Z →
  length_prefix issuer +:+ rest = length_prefix issuer' +:+ rest' → issuer = issuer' ∧ rest = rest'.
Proof.
  unfold length_prefix. intros Hl Hl'. rewrite !str_app_assoc. intros He%str_app_cancel.
  assert (∀ n x, str_split ch_colon (u64_to_string n +:+ ":" +:+ x) = u64_to_string n :: str_split ch_colon x) as Hs.
  { intros n x. apply str_split_app_sep. by eapply str_mem_all; [apply u64_to_string_digits|]. }
  pose proof (f_equal (str_split ch_colon) He) as Hh. rewrite !Hs in Hh. injection Hh as Hn _.
  rewrite Hn in He. apply str_app_cancel in He. injection He as He.
  apply (f_equal parse_u64) in Hn. rewrite !parse_u64_to_string in Hn by (unfold str_len in *; lia).
  change (issuer +:+ rest = issuer' +:+ rest') in He. apply str_app_inj in He; [done|]. injection Hn as Hn. unfold str_len in Hn. lia.
Qed.

Lemma map_prefix_inj prefix l l' :
  map (λ group, prefix +:+ group) l = map (λ group, prefix +:+ group) l' → l = l'.
Proof.
  revert l'. induction l as [|g l IH]; intros [|g' l']; try done. cbn. intros [= Hg Hl].
  apply str_app_cancel in Hg as ->. f_equal. by apply IH.
Qed.

(** Principals that authentication can produce: strings fit the address space. *)
Definition addressable (principal : Principal) : Prop :=
  ∀ issuer, pr_issuer principal = Some issuer → (str_len issuer <= U64_MAX)%Z.

Lemma review_identity_inj p p' user prefix prefix' :
  addressable p → addressable p' →
  review_identity p = Ok (user, prefix) → review_identity p' = Ok (user, prefix') →
  prefix = prefix' ∧ pr_subject p = pr_subject p' ∧ pr_provider p = pr_provider p' ∧ pr_issuer p = pr_issuer p'.
Proof.
  intros Ha Ha'. unfold review_identity.
  assert (∀ q u f, (if String.eqb (pr_provider q) "oidc" then
      match pr_issuer q with
      | Some issuer => if is_empty issuer then Err (Adapter "OIDC authorization requires a validated issuer")
          else Ok (length_prefix issuer +:+ ":user:" +:+ pr_subject q, length_prefix issuer +:+ ":group:")
      | None => Err (Adapter "OIDC authorization requires a validated issuer") end
    else if String.eqb (pr_provider q) "local" then
      match pr_issuer q with
      | None => Ok ("local:user:" +:+ pr_subject q, "local:group:")
      | Some _ => Err (Adapter ("unsupported Kubernetes principal provider " +:+ debug (pr_provider q))) end
    else Err (Adapter ("unsupported Kubernetes principal provider " +:+ debug (pr_provider q)))) = Ok (u, f) →
    (∃ issuer, pr_provider q = "oidc" ∧ pr_issuer q = Some issuer ∧
       u = length_prefix issuer +:+ ":user:" +:+ pr_subject q ∧ f = length_prefix issuer +:+ ":group:") ∨
    (pr_provider q = "local" ∧ pr_issuer q = None ∧ u = "local:user:" +:+ pr_subject q ∧ f = "local:group:")) as Hc.
  { intros q u f. destruct (String.eqb_spec (pr_provider q) "oidc") as [Hp|_].
    - destruct (pr_issuer q) as [issuer|]; [|done]. destruct (is_empty issuer); [done|]. intros [= <- <-].
      left. by exists issuer.
    - destruct (String.eqb_spec (pr_provider q) "local") as [Hp|_]; [|done].
      destruct (pr_issuer q); [done|]. intros [= <- <-]. by right. }
  intros [(i&Hp&Hi&Hu&Hf)|(Hp&Hi&Hu&Hf)]%Hc [(i'&Hp'&Hi'&Hu'&Hf')|(Hp'&Hi'&Hu'&Hf')]%Hc; subst.
  - apply length_prefix_inj in Hu' as [-> Hs%(str_app_cancel ":user:")]; [|by apply Ha|by apply Ha'].
    split; [done|]. by rewrite Hp, Hp', Hi, Hi'.
  - discriminate Hu'.
  - discriminate Hu'.
  - apply (str_app_cancel "local:user:") in Hu'. split; [done|]. by rewrite Hp, Hp', Hi, Hi'.
Qed.

(** What Kubernetes cannot tell apart: an execution is an update. *)
Definition same_operation (o o' : ActionOperation) : Prop :=
  o = o' ∨ (o ∈ [OpUpdate; OpExecute] ∧ o' ∈ [OpUpdate; OpExecute]).
Lemma operation_verb_inj o o' : operation_verb o = operation_verb o' → same_operation o o'.
Proof. destruct o, o'; try done; intros _; ((by left) || (right; split; repeat constructor)). Qed.

(** The digits of the digest that a resource name carries. *)
Definition name_digest (controller_id : string) : string := String.substring 0 12 (sha256_hex controller_id).

(** Two actions are the same request: the same verb on the same path, or the same
    operation on the same controller, or on two controllers whose digests collide in
    the digits that their names carry. *)
Definition same_request (a a' : Action) : Prop :=
  if starts_with "controllers:" (ac_permission a) then
    (∃ o o', ac_operation a = Some o ∧ ac_operation a' = Some o' ∧ same_operation o o') ∧
    (ac_controller_id a = ac_controller_id a' ∨
     ∃ c c', ac_controller_id a = Some c ∧ ac_controller_id a' = Some c' ∧ name_digest c = name_digest c')
  else ac_request_path a = ac_request_path a' ∧ ac_request_verb a = ac_request_verb a'.

Lemma chars_inj s s' : chars s = chars s' → s = s'.
Proof.
  unfold chars. intros He%(f_equal String.string_of_list_ascii).
  by rewrite !String.string_of_list_ascii_of_string in He.
Qed.

(** A resource name ends in twelve digits of the digest. *)
Lemma resource_name_digest c c' :
  (∀ s, String.length (sha256_hex s) = 64) →
  controller_resource_name sha256_hex c = controller_resource_name sha256_hex c' → name_digest c = name_digest c'.
Proof.
  intros Hlen He%(f_equal chars). unfold controller_resource_name in He. cbv zeta in He.
  rewrite !chars_app, !(app_assoc _ (chars "-")) in He. apply chars_inj.
  apply app_inj_2 in He as [_ He]; [exact He|]. rewrite !chars_substring, !length_take.
  assert (∀ s, length (chars s) = String.length s) as Hch.
  { intros s. induction s as [|x s IH]; [done|]. cbn. by f_equal. }
  by rewrite !Hch, !Hlen.
Qed.

Lemma review_attributes_inj a a' x :
  (∀ s, String.length (sha256_hex s) = 64) →
  review_attributes a = Ok x → review_attributes a' = Ok x →
  starts_with "controllers:" (ac_permission a) = starts_with "controllers:" (ac_permission a') ∧ same_request a a'.
Proof.
  intros Hlen.
  unfold review_attributes, same_request. destruct (starts_with "controllers:" (ac_permission a)), (starts_with _ (ac_permission a')).
  - destruct (ac_operation a) as [o|]; [|done]. destruct (ac_operation a') as [o'|]; [|done].
    intros [= <-] [= Hn Hv]. split; [done|]. split; [exists o, o'; split_and!; try done; by apply operation_verb_inj|].
    destruct (ac_controller_id a) as [c|], (ac_controller_id a') as [c'|]; try done; [right|by left].
    injection Hn as Hn. exists c, c'. split_and!; [done|done|]. symmetry. by apply resource_name_digest.
  - destruct (ac_operation a) as [o|]; [|done]. intros [= <-]. destruct (ac_request_path a') as [path|]; [|done].
    cbn [ok_or]. destruct (negb _); [done|]. by destruct (ac_request_verb a').
  - destruct (ac_operation a') as [o|]; [|intros _; done]. intros Hx [= <-]. destruct (ac_request_path a) as [path|]; [|done].
    cbn [ok_or] in Hx. destruct (negb _); [done|]. by destruct (ac_request_verb a).
  - destruct (ac_request_path a) as [path|]; [|done]. destruct (ac_request_path a') as [path'|]; [|intros _; done].
    cbn [ok_or]. destruct (negb (starts_with "/" path)); [done|]. destruct (negb (starts_with "/" path')); [intros _; done|].
    destruct (ac_request_verb a) as [v|]; [|done]. destruct (ac_request_verb a') as [v'|]; [|intros _; done].
    intros [= <-] [= Hp Hv]. change (path' = path) in Hp. split; [done|]. split; congruence.
Qed.

Abbreviation review_event := (event review_call).
Definition clean (st : SubjectAccessReviewStatus) : Prop :=
  ss_allowed st = true ∧ ∀ error, ss_evaluation_error st = Some error → error = "".
Lemma review_decision_allowed status d :
  review_decision status = Ok d → de_allowed d = true → ∃ st, status = Some st ∧ clean st.
Proof.
  destruct status as [st|]; [|done]. cbn [review_decision ok_or]. intros Hd Ha. exists st. split; [done|].
  unfold clean. destruct (ss_evaluation_error st) as [error|].
  - destruct error as [|c error]; cbn [is_empty] in Hd; [|done]. injection Hd as <-. split; [by destruct (ss_allowed st)|].
    by intros ? [= <-].
  - injection Hd as <-. split; [by destruct (ss_allowed st)|done].
Qed.

Definition allowed_by (principal : Principal) (action : Action) (u : list review_event) : Prop :=
  ∃ rv st, review principal action = Ok rv ∧ u = [Ev (CreateReview rv) (Ok (Some st))] ∧ clean st.
Lemma review_exec principal action r u :
  exec traced (authorize principal action) [] r u →
  (length u <= 1) ∧ ∀ d, r = Ok d → de_allowed d = true → allowed_by principal action u.
Proof.
  unfold authorize. destruct (review principal action) as [rv|] eqn:Er.
  - intros (x&[-> ->])%traced_step. split; [cbn; lia|]. intros d Hr Ha.
    destruct x as [status|]; [|done]. cbn [map_err] in Hr.
    apply review_decision_allowed in Hr as (st&->&Hc); [|done]. by exists rv, st.
  - intros [-> ->]. split; [cbn; lia|done].
Qed.

(** Kubernetes reserves names that begin with [system:]. *)
Lemma review_identity_reserved p user prefix :
  review_identity p = Ok (user, prefix) →
  starts_with "system:" user = false ∧ ∀ group, starts_with "system:" (prefix +:+ group) = false.
Proof.
  unfold review_identity. destruct (String.eqb _ "oidc").
  - destruct (pr_issuer p) as [issuer|]; [|done]. destruct (is_empty issuer); [done|]. by intros [= <- <-].
  - destruct (String.eqb _ "local"); [|done]. destruct (pr_issuer p); [done|]. by intros [= <- <-].
Qed.

(** C20.  A decision of Kubernetes is about this principal and this action.  Whatever
    the API server answers, an action is allowed only if exactly one review was
    created for it and answered as allowed without an evaluation error (anything else
    fails closed); the review names no reserved user or group; and it could not have
    been created for anybody or anything else: another principal (provider, issuer
    of less than 2^64 bytes, subject or groups), another verb or path, another operation (an execution counts
    as an update), or another controller gives a different review, whatever
    delimiters names contain, unless the SHA-256 digests of the two controllers agree
    in the twelve hexadecimal digits that a resource name carries. *)
Theorem sar_review_faithful (principal : Principal) (action : Action) (d : Decision) (u : list review_event) :
  (∀ s, String.length (sha256_hex s) = 64) → addressable principal →
  exec traced (authorize principal action) [] (Ok d) u → de_allowed d = true →
  ∃ rv st, u = [Ev (CreateReview rv) (Ok (Some st))] ∧ clean st ∧ review principal action = Ok rv ∧
    (∀ name, sr_user rv = Some name ∨ (∃ groups, sr_groups rv = Some groups ∧ name ∈ groups) →
       starts_with "system:" name = false) ∧
    (∀ principal' action', addressable principal' → review principal' action' = Ok rv →
       principal' = principal ∧
       starts_with "controllers:" (ac_permission action') = starts_with "controllers:" (ac_permission action) ∧
       same_request action' action).
Proof.
  intros Hlen Hp He Hd. apply review_exec in He as [_ Ha]. destruct (Ha d eq_refl Hd) as (rv&st&Hr&->&Hc).
  exists rv, st. split; [done|]. split; [done|]. split; [done|]. split.
  - unfold review in Hr. destruct (review_identity principal) as [[user prefix]|] eqn:Ei; [|done].
    destruct (review_attributes action) as [x|]; [|done]. injection Hr as <-.
    destruct (review_identity_reserved _ _ _ Ei) as [Hu Hg]. intros name [[= <-]|(groups&[= <-]&Hin)]; [done|].
    apply list_elem_of_In, in_map_iff in Hin as (g&<-&_). apply Hg.
  - intros p' a' Hp' Hr'. unfold review in Hr, Hr'.
    destruct (review_identity principal) as [[user prefix]|] eqn:Ei; [|done].
    destruct (review_attributes action) as [x|] eqn:Ea; [|done]. injection Hr as <-.
    destruct (review_identity p') as [[user' prefix']|] eqn:Ei'; [|done].
    destruct (review_attributes a') as [x'|] eqn:Ea'; [|done]. injection Hr' as Hu Hg Hx1 Hx2.
    cbn [fst snd] in *. subst user'. destruct (review_identity_inj _ _ _ _ _ Hp' Hp Ei' Ei) as (->&Hs&Hpr&Hi).
    apply map_prefix_inj in Hg. split.
    + destruct principal, p'. cbn in *. congruence.
    + apply (review_attributes_inj a' action x'); [done|done|]. rewrite Ea. f_equal. destruct x, x'. cbn in *. congruence.
Qed.

(** ** The admin API on Kubernetes

    The layers over this authorizer; every other call stays a call. *)

Inductive kube_call : Type → Type :=
| Other {X} (e : auth_call X) : kube_call X
| Reviews {X} (e : review_call X) : kube_call X.
Abbreviation kube_event := (event kube_call).
Abbreviation auth_event := (event auth_call).

Definition reviews {A} (p : prog review_call A) : prog kube_call A := interp (λ X e, x <~ Reviews e ;; Ret x) p.
Definition on_kubernetes (X : Type) (e : auth_call X) : prog kube_call X :=
  match e in auth_call X return auth_call X → prog kube_call X with
  | Authorize principal action => λ _, reviews (authorize principal action)
  | Granted principal candidates => λ _, reviews (granted_permissions principal candidates)
  | _ => λ e, x <~ Other e ;; Ret x
  end e.

Definition uninvoked (ev : kube_event) : bool := match ev with Ev (Other (Invoke _ _)) _ => false | _ => true end.
Definition lifted (ev : auth_event) : kube_event := match ev with Ev e x => Ev (Other e) x end.
Definition review_of (ev : review_event) : kube_event := match ev with Ev e x => Ev (Reviews e) x end.

Lemma reviews_exec {A} (p : prog review_call A) t r t' :
  exec traced (reviews p) t r t' → ∃ u, exec traced p [] r u ∧ t' = t ++ map review_of u.
Proof.
  unfold reviews. revert t. induction p as [a|X e k IH]; intros t; cbn [interp pbind].
  { intros [-> ->]. exists []. simpl. by rewrite app_nil_r. }
  intros (x&He)%traced_step. apply IH in He as (u&Hu&->). exists (Ev e x :: u). split.
  - exists x, [Ev e x]. split; [done|]. apply exec_traced_app. by exists u.
  - by rewrite <-app_assoc.
Qed.

(** A call and what implements it. *)
Definition direct {X} (e : auth_call X) : bool :=
  match e with Authorize _ _ | Granted _ _ => false | _ => true end.
Lemma on_kubernetes_direct X (e : auth_call X) x v :
  direct e = true → exec traced (on_kubernetes X e) [] x v → v = [Ev (Other e) x].
Proof. by destruct e; try done; intros _ (y&[-> ->])%traced_step. Qed.
Lemma implemented_in X (e : auth_call X) x t w :
  implemented on_kubernetes t w → Ev e x ∈ t → ∃ v, v ⊆ w ∧ exec traced (on_kubernetes X e) [] x v.
Proof.
  revert w. induction t as [|[Y e' y] t IH]; intros w; cbn [implemented]; [by intros _ ?%not_elem_of_nil|].
  intros (u1&u2&->&He&Ht) [Heq|Hin]%elem_of_cons.
  - exists u1. split; [intros ev Hev; apply elem_of_app; by left|].
    set (P := λ ev : auth_event, match ev with Ev e x => exec traced (on_kubernetes _ e) [] x u1 end).
    assert (P (Ev e x)) as HP by by rewrite Heq. exact HP.
  - destruct (IH u2 Ht Hin) as (v&Hv&Hx). exists v. split; [|done].
    intros ev Hev. apply elem_of_app. right. by apply Hv.
Qed.
Lemma implemented_direct X (e : auth_call X) x t w :
  implemented on_kubernetes t w → Ev e x ∈ t → direct e = true → Ev (Other e) x ∈ w.
Proof.
  intros Ht Hin Hd. destruct (implemented_in _ _ _ _ _ Ht Hin) as (v&Hv&He).
  apply (on_kubernetes_direct _ _ _ _ Hd) in He as ->. apply Hv. by left.
Qed.
Lemma implemented_quiet t w : implemented on_kubernetes t w → quiet t → Forall (λ ev, uninvoked ev = true) w.
Proof.
  revert w. induction t as [|[X e x] t IH]; intros w; cbn [implemented]; [intros ->; constructor|].
  intros (u1&u2&->&He&Ht) [Hq Hqs]%Forall_cons. apply Forall_app. split; [|by apply IH].
  destruct (direct e) eqn:Ed.
  - apply (on_kubernetes_direct _ _ _ _ Ed) in He as ->. constructor; [|constructor]. by destruct e.
  - destruct e; try discriminate Ed; apply reviews_exec in He as (u&_&->); apply Forall_map, Forall_true; by intros [Y [] y].
Qed.

(** A review that Kubernetes allowed. *)
Definition kube_granted (principal : Principal) (action : Action) (w : list kube_event) : Prop :=
  ∃ rv st, review principal action = Ok rv ∧ Ev (Reviews (CreateReview rv)) (Ok (Some st)) ∈ w ∧ clean st.
Lemma granted_reviewed principal action t w :
  implemented on_kubernetes t w → granted principal action t → kube_granted principal action w.
Proof.
  intros Ht (d&Hin&Hd). destruct (implemented_in _ _ _ _ _ Ht Hin) as (v&Hv&He).
  apply reviews_exec in He as (u&Hu&->). apply review_exec in Hu as [_ Ha].
  destruct (Ha d eq_refl Hd) as (rv&st&Hr&->&Hc). exists rv, st. split; [done|]. split; [|done]. apply Hv. by left.
Qed.

Section api.
Context {J : Jose} {D : PercentCodec}.

Definition kube_established (state : UnifiedAuthState) (token : string) (claims : UnifiedAuthClaims)
    (w : list kube_event) : Prop :=
  (∃ s c, ua_oidc state = Some s ∧ Ev (Other (ValidateOidc token)) (Ok c) ∈ w ∧
     oidc_identity debug (am_groups_claim s) c = Ok claims) ∨
  (∃ s c, Ev (Other LoadLocal) (Some s) ∈ w ∧ Ev (Other (DecodeJwt (la_jwt_secret s) token)) (Ok c) ∈ w ∧
     claims = local_identity c).
Lemma established_lifted state token claims t w :
  implemented on_kubernetes t w → established debug state token claims t → kube_established state token claims w.
Proof.
  intros Ht [(s&c&Ho&Hv&Hi)|(s&c&Hl&Hd&Hi)]; [left|right]; exists s, c.
  - split; [done|]. split; [|done]. by eapply implemented_direct.
  - split; [by eapply implemented_direct|]. split; [by eapply implemented_direct|done].
Qed.

Definition kube_entitled (state : UnifiedAuthState) (request : Request) (claims : option UnifiedAuthClaims) (h : handler)
    (w : list kube_event) : Prop :=
  let method := rq_method request in
  let path := rq_path request in
  ∃ token c principal action,
    presented_token request = Some token ∧ kube_established state token c w ∧ claims = Some c ∧
    principal_of c = Some principal ∧ kube_granted principal action w ∧
    (action_for_request (required h method) method path = Ok action ∧
       (h = provider_accounts_create ∨ h = provider_accounts_replace → kube_granted principal credential_action w) ∧
       (∀ pattern, target_pattern h = Some pattern →
          ac_controller_id action ≠ None ∧ ac_controller_id action = path_id pattern path) ∨
     method = HEAD ∧ route53_read h = true ∧ action = unmapped_action method path).

(** C16.  On Kubernetes, the cluster's policy stands in front of every handler.  For
    every configuration, composition and request, and whatever the API server and the
    validators answer: at most one handler runs, the one the route table names, as the
    last thing that happens; except for the discovery endpoint, before it a validator
    accepted the token of this request and a SubjectAccessReview for the user and
    groups of its claims, and for the method and path of this request or the
    controller the handler acts on, was created and answered as allowed without an
    evaluation error (a second one for the use of credentials when a provider account
    is written).  A request for a handler that does not run was denied. *)
Theorem kubernetes_request_authorized (client : AdminAuthConfig → result () string) (hash : string → string)
    (auth_config : option AdminAuthConfig) (local_config : option LocalAuthConfig) (require_auth : bool)
    (component : string) (state : UnifiedAuthState) (local : option LocalAuthState) (comp : Composition)
    (configured : CenterCapabilities) (intent : bool) (request : Request) (response : Response) (w : list kube_event) :
  from_configs client hash auth_config local_config require_auth component = Ok (state, local) →
  rq_claims request = None → rq_auth_bypass request = false →
  exec traced (interp on_kubernetes (compose_admin_routes debug (router comp configured) state intent request)) [] response w →
  (Forall (λ ev, uninvoked ev = true) w ∧
   ∀ h, serves (router comp configured) (rq_method request) (rq_path request) h → denial (rs_status response)) ∨
  ∃ h claims perms reply before,
    let r := mkRequest (rq_method request) (rq_path request) (rq_authorization request) (rq_cookie request)
               (rq_login request) false claims perms in
    w = before ++ [Ev (Other (Invoke h r)) reply] ∧ Forall (λ ev, uninvoked ev = true) before ∧
    response = insert_header "cache-control" "no-store" reply ∧
    serves (router comp configured) (rq_method request) (rq_path request) h ∧
    (h = server_info ∧ claims = None ∨ kube_entitled state request claims h before).
Proof.
  intros Hf Hc Hb (t&He&Ht)%interp_exec.
  destruct (admin_exec debug _ _ _ _ _ _ _ _ _ _ _ _ _ _ Hf Hc Hb He)
    as [[Hq Hd]|(h&claims&perms&reply&pre&->&Hq&Hr&Hs&Hen)].
  - left. split; [by eapply implemented_quiet|done].
  - right. apply implemented_app in Ht as (w1&w2&->&Hpre&(v&v'&->&Hv&->)).
    apply on_kubernetes_direct in Hv as ->; [|done]. exists h, claims, perms, reply, w1.
    split; [done|]. split; [by eapply implemented_quiet|]. split; [done|]. split; [done|].
    destruct Hen as [Hen|(token&c&principal&Htok&Hest&Hcl&Hp&Hg)]; [by left|right].
    destruct Hg as [(action&Ha&Hg&Hcr&Ht)|(Hm&H53&Hg)].
    + exists token, c, principal, action. split_and!; [done|by eapply established_lifted|done..|by eapply granted_reviewed|].
      left. split; [done|]. split; [|done]. intros Hh. eapply granted_reviewed; [done|]. by apply Hcr.
    + exists token, c, principal, (unmapped_action (rq_method request) (rq_path request)).
      split_and!; [done|by eapply established_lifted|done..|by eapply granted_reviewed|]. by right.
Qed.
End api.
End sar.

(** ** A write of the local administrator on Kubernetes *)

Definition demo_review (X : Type) (e : review_call X) : X :=
  match e with CreateReview _ => Ok (Some (mkReviewStatus true None (Some ""))) end.
Definition demo_kube (X : Type) (e : kube_call X) (t : list (event kube_call)) : X * list (event kube_call) :=
  let x := match e in kube_call X return X with
           | Other e => (demo_answers _ e []).1
           | Reviews e => demo_review _ e
           end in (x, t ++ [Ev e x]).
Definition demo_kube_api := run demo_kube
  (interp (on_kubernetes demo_hex (λ s, s) "edgion") (@compose_admin_routes demo_percent (λ s, s)
     (router demo_composition demo_everything) demo_state true demo_request)) [].
Lemma demo_kube_exec :
  exec traced (interp (on_kubernetes demo_hex (λ s, s) "edgion") (@compose_admin_routes demo_percent (λ s, s)
    (router demo_composition demo_everything) demo_state true demo_request)) [] demo_kube_api.1 demo_kube_api.2.
Proof.
  apply (run_exec _ demo_kube); [|apply surjective_pairing]. intros X e s x s' Hs. unfold demo_kube in Hs. by injection Hs as <- <-.
Qed.

Lemma kubernetes_request_authorized_witness :
  rs_status demo_kube_api.1 = 200%Z ∧
  ∃ h claims before, @kube_entitled demo_hex (λ s, s) "edgion" demo_percent demo_state demo_request claims h before.
Proof.
  assert (rs_status demo_kube_api.1 = 200%Z) as Hs by (vm_compute; reflexivity). split; [exact Hs|].
  assert (serves (router demo_composition demo_everything) PUT demo_remote_path cloudflare_put_remote_record_set) as Hr
    by (apply dispatch_serves; vm_compute; reflexivity).
  destruct (@kubernetes_request_authorized demo_hex (λ s, s) "edgion" demo_jose demo_percent (λ _, Ok tt)
    (λ s, "#" +:+ s) None (Some demo_local_config) true "center" demo_state (Some demo_local) demo_composition
    demo_everything true demo_request demo_kube_api.1 demo_kube_api.2 eq_refl eq_refl eq_refl demo_kube_exec)
    as [[_ Hd]|(h&claims&perms&reply&before&_&_&_&Hh&[[-> _]|He])].
  - destruct (Hd _ Hr) as [Hc|[Hc|Hc]]; rewrite Hs in Hc; discriminate Hc.
  - exfalso. pose proof (serves_unique _ _ _ _ (serves_mono _ _ _ _ _ (router_routes _ _) Hh)
      (serves_mono _ _ _ _ _ (router_routes _ _) Hr)) as Hc. discriminate Hc.
  - exists h, claims, before. exact He.
Defined.

Definition demo_principal : Principal := mkPrincipal "alice:user:bob" "oidc" (Some "https://idp:8443") ["ops"].
Definition demo_action : Action :=
  mkAction CONTROLLERS_WRITE (Some "prod/gw") (Some OpExecute) (Some "/api/v1/controllers/prod~gw/reload") (Some "post").
(** A digest that tells this controller from every other. *)
Fixpoint demo_digits (n : nat) (digit : string) : string :=
  match n with O => "" | S n => digit +:+ demo_digits n digit end.
Definition demo_sha256 (s : string) : string := demo_digits 64 (if String.eqb s "prod/gw" then "a" else "b").
(** The same action on a controller whose name differs in its delimiter only. *)
Definition demo_other : Action :=
  mkAction CONTROLLERS_WRITE (Some "prod-gw") (Some OpExecute) (Some "/api/v1/controllers/prod~gw/reload") (Some "post").
Definition demo_decision :=
  run (λ X (e : review_call X) t, (demo_review X e, t ++ [Ev e (demo_review X e)]))
    (authorize demo_sha256 (λ s, s) "edgion" demo_principal demo_action) [].
Lemma sar_review_faithful_witness :
  ∃ rv, review demo_sha256 (λ s, s) "edgion" demo_principal demo_action = Ok rv ∧
    sr_user rv = Some "oidc:16:https://idp:8443:user:alice:user:bob" ∧
    review demo_sha256 (λ s, s) "edgion" demo_principal demo_other ≠ Ok rv.
Proof.
  assert (demo_decision.1 = Ok allow) as Hd by (vm_compute; reflexivity).
  assert (addressable demo_principal) as Hp by (intros issuer Hi; injection Hi as <-; vm_compute; discriminate).
  destruct (sar_review_faithful demo_sha256 (λ s, s) "edgion" demo_principal demo_action allow demo_decision.2)
    as (rv&st&_&_&Hr&_&Hinj).
  - intros s. unfold demo_sha256. destruct (String.eqb s "prod/gw"); reflexivity.
  - exact Hp.
  - rewrite <-Hd. apply (run_exec _ (λ X (e : review_call X) t, (demo_review X e, t ++ [Ev e (demo_review X e)])));
      [|apply surjective_pairing]. intros X e s x s' Hs. by injection Hs as <- <-.
  - reflexivity.
  - exists rv. split; [exact Hr|]. split.
    + vm_compute in Hr. injection Hr as <-. reflexivity.
    + intros Ho. destruct (Hinj _ _ Hp Ho) as (_&_&_&[Hc|(c&c'&Hc&Hc'&Hn)]).
      * discriminate Hc.
      * injection Hc as <-. injection Hc' as <-. vm_compute in Hn. discriminate Hn.
Defined.
