(* ===== verification/Route53Model.v ===== *)
(** * Route53Model: the Route 53 record codec

    [crates/center-adapter-route53/src/model.rs], the data types of [api.rs]
    and [normalize_zone_id] of [lib.rs].  A provider record set is mapped to the
    canonical model and back; the renderer refuses to emit anything that would
    not map back to the same record set.  SHA-256, base64 and the JSON encoder
    are the parameter [record_digest].  The theorems show that the character
    string, the values of every type and whole record sets survive the round
    trip, so the refusal is never spurious. *)

From Stdlib Require Import ZArith Ascii String Lia.
From S2P Require Import Prelude Text Core BTree NetAddr Dns ProviderErrors RecordValues.

(** ** Errors *)

(** The static codes satisfy [NormalizedProviderError::new], so its [expect]
    never fails. *)
Definition provider_error (category : ProviderErrorCategory) (code : string) :
    NormalizedProviderError :=
  mkProviderError category code "Route 53 DNS adapter rejected the request" None None.
Definition validation (code : string) : NormalizedProviderError := provider_error CatValidation code.
Definition not_found (code : string) : NormalizedProviderError := provider_error CatNotFound code.
Definition conflict (code : string) : NormalizedProviderError := provider_error CatConflict code.
Definition unknown_outcome (code : string) : NormalizedProviderError :=
  provider_error CatUnknownOutcome code.

(** [.map_err(|_| validation(code))]. *)
Definition or_invalid {A E} (code : string) (r : result A E) : DnsProviderResult A :=
  map_err (λ _, validation code) r.
(** ** Provider data ([api.rs]) *)

Record Route53AliasTargetData := mkAliasData {
  ad_hosted_zone_id : string;
  ad_dns_name : string;
  ad_evaluate_target_health : bool;
}.
#[export] Instance Route53AliasTargetData_eq_dec : EqDecision Route53AliasTargetData.
Proof. solve_decision. Defined.
Record Route53GeoLocationData := mkGeoData {
  gd_continent_code : option string;
  gd_country_code : option string;
  gd_subdivision_code : option string;
}.
#[export] Instance Route53GeoLocationData_eq_dec : EqDecision Route53GeoLocationData.
Proof. solve_decision. Defined.
Record Route53RecordSet := mkRaw {
  raw_name : string;
  raw_record_type : string;
  raw_ttl : option Z;                      (* u32 *)
  raw_resource_records : list string;
  raw_alias_target : option Route53AliasTargetData;
  raw_set_identifier : option string;
  raw_weight : option Z;                   (* u8 *)
  raw_failover : option string;
  raw_region : option string;
  raw_geolocation : option Route53GeoLocationData;
  raw_multivalue_answer : option bool;
  raw_health_check_id : option string;
  raw_traffic_policy_instance_id : option string;
  raw_has_cidr_routing_config : bool;
  raw_has_geoproximity_location : bool;
}.
#[export] Instance Route53RecordSet_eq_dec : EqDecision Route53RecordSet.
Proof. solve_decision. Defined.

(** ** Catalogues *)

Definition ROUTE53_LATENCY_REGIONS : list string :=
  ["us-east-1"; "us-east-2"; "us-west-1"; "us-west-2"; "ca-central-1"; "eu-west-1"; "eu-west-2";
   "eu-west-3"; "eu-central-1"; "eu-central-2"; "ap-southeast-1"; "ap-southeast-2";
   "ap-southeast-3"; "ap-northeast-1"; "ap-northeast-2"; "ap-northeast-3"; "eu-north-1";
   "sa-east-1"; "cn-north-1"; "cn-northwest-1"; "ap-east-1"; "me-south-1"; "me-central-1";
   "ap-south-1"; "ap-south-2"; "af-south-1"; "eu-south-1"; "eu-south-2"; "ap-southeast-4";
   "il-central-1"; "ca-west-1"; "ap-southeast-5"; "mx-central-1"; "ap-southeast-7";
   "us-gov-east-1"; "us-gov-west-1"; "ap-east-2"; "ap-southeast-6"].
Definition ISO_3166_ALPHA2 : string :=
  "ADAEAFAGAIALAMAOAQARASATAUAWAXAZ" +:+ "BABBBDBEBFBGBHBIBJBLBMBNBOBQBRBSBTBVBWBYBZ"
  +:+ "CACCCDCFCGCHCICKCLCMCNCOCRCUCVCWCXCYCZ" +:+ "DEDJDKDMDODZ" +:+ "ECEEEGEHERESET"
  +:+ "FIFJFKFMFOFR" +:+ "GAGBGDGEGFGGGHGIGLGMGNGPGQGRGSGTGUGWGY" +:+ "HKHMHNHRHTHU"
  +:+ "IDIEILIMINIOIQIRISIT" +:+ "JEJMJOJP" +:+ "KEKGKHKIKMKNKPKRKWKYKZ"
  +:+ "LALBLCLILKLRLSLTLULVLY" +:+ "MAMCMDMEMFMGMHMKMLMMMNMOMPMQMRMSMTMUMVMWMXMYMZ"
  +:+ "NANCNENFNGNINLNONPNRNUNZ" +:+ "OM" +:+ "PAPEPFPGPHPKPLPMPNPRPSPTPWPY" +:+ "QA"
  +:+ "RERORSRURW" +:+ "SASBSCSDSESGSHSISJSKSLSMSNSOSRSSSTSVSXSYSZ"
  +:+ "TCTDTFTGTHTJTKTLTMTNTOTRTTTVTWTZ" +:+ "UAUGUMUSUYUZ" +:+ "VAVCVEVGVIVNVU" +:+ "WFWS"
  +:+ "YEYT" +:+ "ZAZMZW".
Definition ROUTE53_US_SUBDIVISIONS : string :=
  "AKALAZARCACOCTDEFLGAHIIDILINIAKSKYLAMEMDMAMIMNMSMOMT"
  +:+ "NENVNHNJNMNYNCNDOHOKORPARISCSDTNTXUTVTVAWAWVWIWY" +:+ "ASDCFMGUMHMPRPVIAAAEAP".

(** [as_chunks::<2>().0.iter().any(..)]. *)
Fixpoint chunk_any (p : string → bool) (catalog : string) : bool :=
  match catalog with
  | String a (String b rest) => p (String a (String b EmptyString)) || chunk_any p rest
  | _ => false
  end.
Definition catalog_contains (catalog code : string) : bool :=
  (str_len code =? 2)%Z && chunk_any (String.eqb code) catalog.

(** ** Escapes *)

Definition octal_digit (c : ascii) : option Z :=
  let n := Z.of_N (byte_val c) in if (48 <=? n)%Z && (n <=? 55)%Z then Some (n - 48)%Z else None.

(** [parse_octal_escape] on the three digits at the cursor. *)
Definition parse_octal (a b c : ascii) : option Z :=
  x ← octal_digit a; y ← octal_digit b; z ← octal_digit c;
  let value := (x * 64 + y * 8 + z)%Z in
  if (value <=? U8_MAX)%Z then Some value else None.

Definition byte_of (v : Z) : ascii := ascii_of_N (Z.to_N v).
Definition z_of_byte (c : ascii) : Z := Z.of_N (byte_val c).

(** The loop of [decode_domain_presentation]. *)
Fixpoint decode_domain (s : string) : option string :=
  match s with
  | EmptyString => Some EmptyString
  | String c s1 =>
      if Ascii.eqb c ch_backslash then
        match s1 with
        | String x (String y (String z rest)) =>
            v ← parse_octal x y z; d ← decode_domain rest; Some (String (byte_of v) d)
        | _ => None
        end
      else d ← decode_domain s1; Some (String c d)
  end.
Definition decode_domain_presentation (value : string) : DnsProviderResult string :=
  let? decoded := ok_or (validation "invalid_route53_domain_escape") (decode_domain value) in
  if utf8_valid decoded then Ok decoded else Err (validation "unsupported_route53_domain_encoding").

Definition bad_string : NormalizedProviderError := validation "invalid_route53_character_string".

(** The two nested loops of [parse_character_strings] in one pass: [open] is the
    segment being read, [None] between segments. *)
Fixpoint scan_strings (s : string) (open : option (list Z)) (segments : list (list Z)) :
    DnsProviderResult (list (list Z)) :=
  match s with
  | EmptyString => match open with None => Ok segments | Some _ => Err bad_string end
  | String c s1 =>
      match open with
      | None =>
          if is_ascii_whitespace c then scan_strings s1 None segments
          else if Ascii.eqb c ch_quote then scan_strings s1 (Some []) segments
          else Err bad_string
      | Some segment =>
          if Ascii.eqb c ch_quote then
            let? segment := or_invalid "invalid_route53_character_string"
                              (DnsCharacterString_new segment) in
            scan_strings s1 None (segments ++ [segment])
          else if Ascii.eqb c ch_backslash then
            match s1 with
            | EmptyString => Err bad_string
            | String d s2 =>
                if is_ascii_digit d then
                  match s2 with
                  | String e (String f s3) =>
                      match parse_octal d e f with
                      | Some v => scan_strings s3 (Some (segment ++ [v])) segments
                      | None => Err bad_string
                      end
                  | _ => Err bad_string
                  end
                else scan_strings s2 (Some (segment ++ [z_of_byte d])) segments
            end
          else scan_strings s1 (Some (segment ++ [z_of_byte c])) segments
      end
  end.
Definition parse_character_strings (value : string) : DnsProviderResult (list (list Z)) :=
  let? segments := scan_strings value None [] in
  if (zlen segments =? 0)%Z then Err bad_string
  else or_invalid "invalid_route53_character_string" (DnsTxtValue_new segments).

(** [format!("\\{value:03o}")] of a byte, and the rendering of one. *)
Definition octal_escape (v : Z) : string :=
  String ch_backslash (String (byte_of (48 + v / 64)) (String (byte_of (48 + v / 8 mod 8))
    (String (byte_of (48 + v mod 8)) EmptyString))).
Definition render_byte (v : Z) : string :=
  if (v =? 34)%Z || (v =? 92)%Z then String ch_backslash (String (byte_of v) EmptyString)
  else if (32 <=? v)%Z && (v <=? 126)%Z then String (byte_of v) EmptyString
  else octal_escape v.
Fixpoint render_bytes (value : list Z) : string :=
  match value with [] => EmptyString | v :: value => render_byte v +:+ render_bytes value end.
Definition render_character_string (value : list Z) : string :=
  String ch_quote (render_bytes value +:+ String ch_quote EmptyString).

(** ** Values *)

Definition render_value (v : DnsRecordSetValue) : string :=
  match v with
  | VA address => ipv4_fmt address
  | VAaaa address => ipv6_fmt address
  | VCname target | VNs target => fqdn target
  | VTxt segments => join_with ch_space (map render_character_string segments)
  | VMx preference exchange => join_with ch_space [u64_to_string preference; fqdn exchange]
  | VSrv priority weight port target =>
      join_with ch_space [u64_to_string priority; u64_to_string weight; u64_to_string port; fqdn target]
  | VCaa flags tag value =>
      join_with ch_space [u64_to_string flags; tag; render_character_string value]
  | VSoa primary mailbox serial refresh retry expire minimum =>
      join_with ch_space [fqdn primary; fqdn mailbox; u64_to_string serial; u64_to_string refresh;
        u64_to_string retry; u64_to_string expire; u64_to_string minimum]
  end.

Definition fields (value : string) (count : nat) (code : string) : DnsProviderResult (list string) :=
  let fs := split_ascii_whitespace value in
  if length fs =? count then Ok fs else Err (validation code).

Definition parse_num (max : Z) (value code : string) : DnsProviderResult Z :=
  ok_or (validation code) (parse_uint max value).

Definition take_presentation_field (value : string) : option (string * string) :=
  '(field, rest) ← split_at_ws (trim_start value);
  if is_empty field then None else Some (field, trim_start rest).

Definition parse_caa (value : string) : DnsProviderResult DnsRecordSetValue :=
  let code := "invalid_route53_caa_value" in
  let? field1 := ok_or (validation code) (take_presentation_field value) in
  let? field2 := ok_or (validation code) (take_presentation_field field1.2) in
  let? flags := parse_num U8_MAX field1.1 code in
  let? tag := or_invalid code (CaaTag_new field2.1) in
  let? strings := parse_character_strings field2.2 in
  match strings with
  | [value] => Ok (VCaa flags tag value)
  | _ => Err (validation code)
  end.

Section codec.
Context `{Idna}.

Definition absolute_name (value code : string) : DnsProviderResult string :=
  let? decoded := decode_domain_presentation value in or_invalid code (AbsoluteDnsName_new decoded).

Definition parse_value (type : ProviderDnsRecordType) (value : string) :
    DnsProviderResult DnsRecordSetValue :=
  match type with
  | TA =>
      let? address := ok_or (validation "invalid_route53_a_value") (ipv4_from_str value) in
      Ok (VA address)
  | TAaaa =>
      let? address := ok_or (validation "invalid_route53_aaaa_value") (ipv6_from_str value) in
      Ok (VAaaa address)
  | TCname => let? target := absolute_name value "invalid_route53_cname_value" in Ok (VCname target)
  | TTxt => let? value := parse_character_strings value in Ok (VTxt value)
  | TMx =>
      let code := "invalid_route53_mx_value" in
      let? fs := fields value 2 code in
      match fs with
      | [f0; f1] =>
          let? preference := parse_num U16_MAX f0 code in
          let? exchange := absolute_name f1 code in Ok (VMx preference exchange)
      | _ => Err (validation code)
      end
  | TSrv =>
      let code := "invalid_route53_srv_value" in
      let? fs := fields value 4 code in
      match fs with
      | [f0; f1; f2; f3] =>
          let? priority := parse_num U16_MAX f0 code in
          let? weight := parse_num U16_MAX f1 code in
          let? port := parse_num U16_MAX f2 code in
          let? target := absolute_name f3 code in Ok (VSrv priority weight port target)
      | _ => Err (validation code)
      end
  | TCaa => parse_caa value
  | TNs => let? target := absolute_name value "invalid_route53_ns_value" in Ok (VNs target)
  | TSoa =>
      let code := "invalid_route53_soa_value" in
      let? fs := fields value 7 code in
      match fs with
      | [f0; f1; f2; f3; f4; f5; f6] =>
          let? primary := absolute_name f0 code in
          let? mailbox := absolute_name f1 code in
          let? serial := parse_num U32_MAX f2 code in
          let? refresh := parse_num U32_MAX f3 code in
          let? retry := parse_num U32_MAX f4 code in
          let? expire := parse_num U32_MAX f5 code in
          let? minimum := parse_num U32_MAX f6 code in
          Ok (VSoa primary mailbox serial refresh retry expire minimum)
      | _ => Err (validation code)
      end
  end.
End codec.

(** ** Record types, routing and identifiers *)

Definition render_record_type (t : ProviderDnsRecordType) : string :=
  match t with
  | TA => "A" | TAaaa => "AAAA" | TCname => "CNAME" | TTxt => "TXT" | TMx => "MX" | TSrv => "SRV"
  | TCaa => "CAA" | TNs => "NS" | TSoa => "SOA"
  end.
Definition map_record_type (value : string) : DnsProviderResult ProviderDnsRecordType :=
  if String.eqb value "A" then Ok TA else if String.eqb value "AAAA" then Ok TAaaa
  else if String.eqb value "CNAME" then Ok TCname else if String.eqb value "TXT" then Ok TTxt
  else if String.eqb value "MX" then Ok TMx else if String.eqb value "SRV" then Ok TSrv
  else if String.eqb value "CAA" then Ok TCaa else if String.eqb value "NS" then Ok TNs
  else if String.eqb value "SOA" then Ok TSoa
  else Err (validation "unsupported_route53_record_type").

Definition render_geolocation (location : Route53GeoLocation) : Route53GeoLocationData :=
  match location with
  | GeoDefault => mkGeoData None (Some "*") None
  | GeoContinent code => mkGeoData (Some code) None None
  | GeoCountry code => mkGeoData None (Some code) None
  | GeoUsSubdivision code => mkGeoData None (Some "US") (Some code)
  end.
Definition map_geolocation (value : Route53GeoLocationData) : DnsProviderResult Route53GeoLocation :=
  let invalid := Err (validation "invalid_route53_geolocation") in
  match gd_continent_code value, gd_country_code value, gd_subdivision_code value with
  | Some code, None, None => if str_in code CONTINENTS then Ok (GeoContinent code) else invalid
  | None, Some country, None =>
      if String.eqb country "*" then Ok GeoDefault
      else if catalog_contains ISO_3166_ALPHA2 country then Ok (GeoCountry country) else invalid
  | None, Some country, Some code =>
      if String.eqb country "US" && catalog_contains ROUTE53_US_SUBDIVISIONS code
      then Ok (GeoUsSubdivision code) else invalid
  | _, _, _ => invalid
  end.

Definition failover_role (failover : string) : DnsProviderResult Route53FailoverRole :=
  if String.eqb failover "PRIMARY" then Ok Primary
  else if String.eqb failover "SECONDARY" then Ok Secondary
  else Err (validation "unsupported_route53_failover_role").

Definition map_routing (record : Route53RecordSet) :
    DnsProviderResult (DnsRoutingIdentity * option Route53RoutingPolicy) :=
  let p1 := match raw_weight record with Some weight => [Weighted weight] | None => [] end in
  let? p2 := match raw_failover record with
             | Some failover => let? role := failover_role failover in Ok [Failover role]
             | None => Ok []
             end in
  let? p3 := match raw_region record with
             | Some region =>
                 if str_in region ROUTE53_LATENCY_REGIONS then Ok [Latency region]
                 else Err (validation "unsupported_route53_latency_region")
             | None => Ok []
             end in
  let? p4 := match raw_geolocation record with
             | Some location => let? l := map_geolocation location in Ok [Geolocation l]
             | None => Ok []
             end in
  let p5 := if bool_decide (raw_multivalue_answer record = Some true) then [Multivalue] else [] in
  let policies := p1 ++ p2 ++ p3 ++ p4 ++ p5 in
  if (1 <? zlen policies)%Z then Err (validation "multiple_route53_routing_policies")
  else match raw_set_identifier record, last policies with
       | None, None => Ok (RSimple, None)
       | Some identifier, Some policy => Ok (RRoute53 identifier, Some policy)
       | _, _ => Err (validation "invalid_route53_routing_identity")
       end.

Definition normalize_zone_id (value : string) : DnsProviderResult string :=
  let normalized := default value (strip_prefix "/hostedzone/" value) in
  if is_empty normalized || (32 <? str_len normalized)%Z
     || negb (starts_with_char "Z" normalized)
     || negb (str_all (λ c, is_ascii_uppercase c || is_ascii_digit c) normalized)
     || starts_with "/hostedzone//" value || str_mem slash normalized
  then Err (validation "invalid_route53_zone_id") else Ok normalized.

(** ** Record sets *)

(** [URL_SAFE_NO_PAD.encode(Sha256::digest(serde_json::to_vec(record_set)))]. *)
Class RecordDigest := record_digest : ProviderDnsRecordSet → string.

Section record_sets.
Context `{Idna, RecordDigest}.

Definition canonical_revision (record_set : ProviderDnsRecordSet) : DnsProviderResult string :=
  or_invalid "invalid_route53_record_revision"
    (DnsRecordRevision_new ("sha256:" +:+ record_digest record_set)).

Definition map_alias_target (target : Route53AliasTargetData) : DnsProviderResult Route53AliasTarget :=
  let? zone_id := normalize_zone_id (ad_hosted_zone_id target) in
  let? target_zone_id := or_invalid "invalid_route53_alias_zone_id" (DnsZoneId_new zone_id) in
  let? name := absolute_name (ad_dns_name target) "invalid_route53_alias_target" in
  Ok {| alias_zone_id := target_zone_id; alias_target_name := name;
        alias_evaluate_target_health := ad_evaluate_target_health target |}.

Definition map_ttl_values (record : Route53RecordSet) (type : ProviderDnsRecordType) :
    DnsProviderResult (DnsTtl * list DnsRecordSetValue) :=
  match raw_alias_target record with
  | Some _ =>
      if bool_decide (is_Some (raw_ttl record)) || negb (zlen (raw_resource_records record) =? 0)%Z
      then Err (validation "invalid_route53_alias_shape") else Ok (Inherited, [])
  | None =>
      let? ttl := ok_or (validation "missing_route53_record_ttl") (raw_ttl record) in
      if (zlen (raw_resource_records record) =? 0)%Z
      then Err (validation "missing_route53_record_values")
      else
        let? values := collect (parse_value type) (raw_resource_records record) in
        Ok (Seconds ttl, bts_of_list values)
  end.

Definition map_record_set (zone : DnsZoneRef) (record : Route53RecordSet) :
    DnsProviderResult (ProviderDnsRecordSet * string) :=
  if bool_decide (is_Some (raw_traffic_policy_instance_id record))
  then Err (validation "route53_traffic_policy_record_unsupported")
  else if raw_has_cidr_routing_config record
  then Err (validation "route53_cidr_routing_unsupported")
  else if raw_has_geoproximity_location record
  then Err (validation "route53_geoproximity_routing_unsupported")
  else
    let? type := map_record_type (raw_record_type record) in
    let? decoded := decode_domain_presentation (raw_name record) in
    let? owner := or_invalid "invalid_route53_record_name" (DnsOwnerName_new decoded) in
    let? routing := map_routing record in
    let? alias_target := transpose map_alias_target (raw_alias_target record) in
    let? health_check_id :=
      transpose (λ id, or_invalid "invalid_route53_health_check_id" (Route53HealthCheckId_new id))
        (raw_health_check_id record) in
    let extension :=
      match alias_target, routing.2, health_check_id with
      | None, None, None => None
      | _, _, _ => Some (ExtRoute53 alias_target routing.2 health_check_id)
      end in
    let? ttl_values := map_ttl_values record type in
    let mapped := mkRecordSet (mkKey owner type routing.1) ttl_values.1 ttl_values.2 extension in
    let? _ := or_invalid "invalid_route53_record_set" (ProviderDnsRecordSet_validate mapped zone) in
    let? revision := canonical_revision mapped in
    Ok (mapped, revision).

Definition render_policy (policy : option Route53RoutingPolicy) :
    option Z * option string * option string * option Route53GeoLocationData * option bool :=
  match policy with
  | Some (Weighted weight) => (Some weight, None, None, None, None)
  | Some (Failover role) =>
      (None, Some (match role with Primary => "PRIMARY" | Secondary => "SECONDARY" end), None, None, None)
  | Some (Latency region) => (None, None, Some region, None, None)
  | Some (Geolocation location) => (None, None, None, Some (render_geolocation location), None)
  | Some Multivalue => (None, None, None, None, Some true)
  | None => (None, None, None, None, None)
  end.

Definition render_alias (target : Route53AliasTarget) : Route53AliasTargetData :=
  mkAliasData (alias_zone_id target) (fqdn (alias_target_name target))
    (alias_evaluate_target_health target).

(** The record before the round-trip check. *)
Definition render_raw (record_set : ProviderDnsRecordSet) : DnsProviderResult Route53RecordSet :=
  let? parts :=
    match rs_extension record_set with
    | Some (ExtRoute53 alias policy health) =>
        Ok (render_alias <$> alias, policy, health,
            match key_routing (rs_key record_set) with
            | RRoute53 set_identifier => Some set_identifier
            | RSimple => None
            end)
    | None => Ok (None, None, None, None)
    | Some (ExtCloudflare _ _ _ _) => Err (validation "invalid_route53_record_extension")
    end in
  let '(alias, policy, health, set_identifier) := parts in
  let? ttl_records :=
    match alias with
    | Some _ =>
        if negb (bool_decide (rs_ttl record_set = Inherited))
           || negb (zlen (rs_values record_set) =? 0)%Z
        then Err (validation "invalid_route53_alias_shape") else Ok (None, [])
    | None =>
        match rs_ttl record_set with
        | Seconds value => Ok (Some value, map render_value (rs_values record_set))
        | Automatic | Inherited => Err (validation "invalid_route53_record_ttl")
        end
    end in
  let '(weight, failover, region, geolocation, multivalue) := render_policy policy in
  Ok (mkRaw (fqdn (rs_owner record_set)) (render_record_type (rs_type record_set))
        ttl_records.1 ttl_records.2 alias set_identifier weight failover region geolocation
        multivalue health None false false).

Definition render_record_set (zone : DnsZoneRef) (record_set : ProviderDnsRecordSet) :
    DnsProviderResult Route53RecordSet :=
  let? _ := or_invalid "invalid_route53_record_set" (ProviderDnsRecordSet_validate record_set zone) in
  let? rendered := render_raw record_set in
  let? round_trip := map_record_set zone rendered in
  if bool_decide (round_trip.1 = record_set) then Ok rendered
  else Err (validation "route53_record_render_not_lossless").
End record_sets.

(** ** Character strings survive the round trip *)

(** Each byte is rendered in one of three ways the scanner reads back. *)
Definition escape_ok (v : Z) : bool :=
  match render_byte v with
  | String c EmptyString =>
      negb (Ascii.eqb c ch_quote) && negb (Ascii.eqb c ch_backslash) && (z_of_byte c =? v)%Z
  | String b (String d EmptyString) =>
      Ascii.eqb b ch_backslash && negb (is_ascii_digit d) && (z_of_byte d =? v)%Z
  | String b (String x (String y (String z EmptyString))) =>
      Ascii.eqb b ch_backslash && is_ascii_digit x && bool_decide (parse_octal x y z = Some v)
  | _ => false
  end.
Lemma escapes_ok : forallb escape_ok (zrange 256 0) = true.
Proof. by vm_compute. Qed.

Lemma backslash_quote : Ascii.eqb ch_backslash ch_quote = false.
Proof. done. Qed.

Lemma scan_render_byte v rest segment segments :
  (0 <= v <= U8_MAX)%Z →
  scan_strings (render_byte v +:+ rest) (Some segment) segments =
  scan_strings rest (Some (segment ++ [v])) segments.
Proof.
  intros Hv. pose proof (zrange_all _ _ _ v escapes_ok ltac:(unfold U8_MAX in Hv; lia)) as Hok.
  unfold escape_ok in Hok.
  destruct (render_byte v) as [|c [|d [|e [|f [|]]]]]; try done; rewrite !str_app_cons;
    rewrite ?andb_true_iff, ?negb_true_iff in Hok.
  - destruct Hok as [[Hq Hb] Hz%Z.eqb_eq]. cbn [scan_strings]. by rewrite Hq, Hb, Hz.
  - destruct Hok as [[Hb%Ascii.eqb_eq Hd] Hz%Z.eqb_eq]. subst c. cbn [scan_strings].
    by rewrite backslash_quote, Ascii.eqb_refl, Hd, Hz.
  - destruct Hok as [[Hb%Ascii.eqb_eq Hd] Hp%bool_decide_eq_true]. subst c. cbn [scan_strings].
    by rewrite backslash_quote, Ascii.eqb_refl, Hd, Hp.
Qed.

Lemma scan_render_bytes value rest segment segments :
  bytes_ok value →
  scan_strings (render_bytes value +:+ rest) (Some segment) segments =
  scan_strings rest (Some (segment ++ value)) segments.
Proof.
  intros Hv. revert segment. induction Hv as [|v value Hv Hvs IH]; intros segment; cbn [render_bytes].
  { by rewrite app_nil_r. }
  rewrite str_app_assoc, scan_render_byte, IH by done. by rewrite <- app_assoc.
Qed.

Lemma scan_render_string value rest segments :
  bytes_ok value → (zlen value <= 255)%Z →
  scan_strings (render_character_string value +:+ rest) None segments =
  scan_strings rest None (segments ++ [value]).
Proof.
  intros Hv Hl. unfold render_character_string. rewrite str_app_cons, str_app_assoc.
  change (scan_strings (String ch_quote (render_bytes value +:+ String ch_quote "" +:+ rest)) None segments)
    with (scan_strings (render_bytes value +:+ String ch_quote "" +:+ rest) (Some []) segments).
  rewrite scan_render_bytes by done. rewrite str_app_cons. cbn [scan_strings app].
  rewrite Ascii.eqb_refl. unfold DnsCharacterString_new.
  by rewrite (proj2 (Z.ltb_ge 255 (zlen value))).
Qed.


Lemma scan_render_strings segments acc :
  Forall (λ s, bytes_ok s ∧ zlen s <= 255)%Z segments →
  scan_strings (join_with ch_space (map render_character_string segments)) None acc =
  Ok (acc ++ segments).
Proof.
  intros Hs. revert acc. induction Hs as [|s segments [Hb Hl] Hs IH]; intros acc.
  { by rewrite app_nil_r. }
  destruct segments as [|s' segments].
  - cbn [map join_with]. rewrite <- (str_app_nil_r (render_character_string s)).
    by rewrite scan_render_string.
  - change (join_with ch_space (map render_character_string (s :: s' :: segments)))
      with (render_character_string s +:+
        String ch_space (join_with ch_space (map render_character_string (s' :: segments)))).
    rewrite scan_render_string by done.
    change (scan_strings (String ch_space ?x) None ?y) with (scan_strings x None y).
    rewrite IH. by rewrite <- app_assoc.
Qed.

Lemma character_strings_roundtrip segments :
  txt_ok segments →
  parse_character_strings (join_with ch_space (map render_character_string segments)) = Ok segments.
Proof.
  intros [Hs Hn]. unfold parse_character_strings. rewrite scan_render_strings by done. simpl.
  destruct segments as [|s segments]; [done|]. by rewrite Hn.
Qed.

Lemma character_string_roundtrip value :
  bytes_ok value → (zlen value <= 255)%Z →
  parse_character_strings (render_character_string value) = Ok [value].
Proof.
  intros Hv Hl. apply (character_strings_roundtrip [value]). split; [by repeat constructor|].
  unfold DnsTxtValue_new, total_bytes, zlen in *. simpl.
  rewrite (proj2 (Z.ltb_ge _ _)); [done|]. unfold MAX_TXT_TOTAL_BYTES. lia.
Qed.

(** ** Names survive the round trip *)

(** *** Fields separated by spaces *)

Definition plain (c : ascii) : bool := in_range 0 127 c && negb (ws1 c).
Definition plain_head (s : string) : Prop := ∃ c t, s = String c t ∧ plain c = true.

Lemma plain_not_lead c : plain c = true →
  ws1 c = false ∧ (byte_val c =? 194)%N = false ∧ (byte_val c =? 225)%N = false ∧
  (byte_val c =? 226)%N = false ∧ (byte_val c =? 227)%N = false.
Proof.
  unfold plain, in_range. rewrite !andb_true_iff, negb_true_iff, !N.leb_le, !N.eqb_neq.
  intros [[? ?] ?]. split_and!; [done|lia..].
Qed.

Lemma plain_ws c s : plain c = true → ws_here (String c s) = false.
Proof.
  intros (H1&H2&H3&H4&H5)%plain_not_lead. unfold ws_here. rewrite H1.
  destruct s as [|d s]; [done|]. unfold ws2. rewrite H2. destruct s as [|e s]; [done|].
  unfold ws3. by rewrite H3, H4, H5.
Qed.

Lemma trim_plain s : plain_head s → trim_start s = s.
Proof.
  intros (c&t&->&Hc). destruct (plain_not_lead c Hc) as (H1&H2&H3&H4&H5).
  unfold trim_start. cbn [trim_ws]. rewrite H1. destruct t as [|d t]; [done|].
  unfold ws2. rewrite H2. destruct t as [|e t]; [done|]. unfold ws3. by rewrite H3, H4, H5.
Qed.

Lemma split_at_ws_word w r :
  str_all plain w = true → split_at_ws (w +:+ String ch_space r) = Some (w, String ch_space r).
Proof.
  induction w as [|c w IH]; intros Hw; [done|]. cbn [str_all] in Hw.
  apply andb_true_iff in Hw as [Hc Hw]. rewrite str_app_cons. cbn [split_at_ws].
  by rewrite plain_ws, IH.
Qed.

Lemma take_field w r :
  w ≠ "" → str_all plain w = true → plain_head r →
  take_presentation_field (w +:+ String ch_space r) = Some (w, r).
Proof.
  intros Hne Hw Hr. unfold take_presentation_field. rewrite trim_plain.
  - rewrite split_at_ws_word by done. simpl. destruct w as [|c w]; [done|]. simpl.
    change (trim_start (String ch_space r)) with (trim_start r). by rewrite trim_plain.
  - destruct w as [|c w]; [done|]. cbn [str_all] in Hw. apply andb_true_iff in Hw as [Hc _].
    by exists c, (w +:+ String ch_space r).
Qed.

Lemma digits_plain s : str_all is_ascii_digit s = true → str_all plain s = true.
Proof. apply str_all_mono, byte_implies. by vm_compute. Qed.

Lemma parse_num_string max n code :
  (0 <= n <= max)%Z → (max <= U64_MAX)%Z → parse_num max (u64_to_string n) code = Ok n.
Proof. intros Hn Hm. unfold parse_num. by rewrite parse_uint_to_string. Qed.

Lemma caa_tag_chars tag : CaaTag_new tag = Ok tag → str_all ldh tag = true ∧ tag ≠ "".
Proof.
  unfold CaaTag_new. set (low := to_ascii_lowercase tag).
  destruct (is_empty low || _ || _ || _ || negb (str_all ldh low)) eqn:E; [done|].
  intros Ht. assert (low = tag) as Hl by congruence. rewrite Hl in E.
  rewrite !orb_false_iff in E. destruct E as ((((E&_)&_)&_)&Ha).
  split; [by apply negb_false_iff|]. by destruct tag.
Qed.

Lemma caa_roundtrip flags tag value :
  (0 <= flags <= U8_MAX)%Z → CaaTag_new tag = Ok tag → bytes_ok value → (zlen value <= 255)%Z →
  parse_caa (render_value (VCaa flags tag value)) = Ok (VCaa flags tag value).
Proof.
  intros Hf Ht Hv Hl. destruct (caa_tag_chars tag Ht) as [Hc Hne].
  assert (str_all plain tag = true) as Hp by (eapply str_all_mono; [|done]; apply byte_implies; by vm_compute).
  unfold parse_caa. cbn [render_value join_with].
  rewrite take_field; [|apply u64_to_string_nonempty|by apply digits_plain, u64_to_string_digits|].
  2: { destruct tag as [|c tag]; [done|]. cbn [str_all] in Hp. apply andb_true_iff in Hp as [Hp _].
       by eexists c, _. }
  simpl. rewrite take_field; [|done|done|by eexists ch_quote, _]. simpl.
  rewrite parse_num_string by (done || unfold U8_MAX, U64_MAX; lia). simpl.
  rewrite Ht. simpl. by rewrite character_string_roundtrip.
Qed.

Section roundtrip.
Context `{IdnaLaws}.

(** The characters a normalized name is made of. *)
Definition name_char (c : ascii) : bool :=
  ldh_underscore c || Ascii.eqb c ch_dot || Ascii.eqb c "*".

Lemma join_all p sep xs :
  p sep = true → Forall (λ x, str_all p x = true) xs → str_all p (join_with sep xs) = true.
Proof.
  intros Hsep. induction 1 as [|x xs Hx Hxs IH]; [done|]. destruct xs as [|y xs]; [done|].
  change (join_with sep (x :: y :: xs)) with (x +:+ String sep (join_with sep (y :: xs))).
  rewrite str_all_app, Hx. cbn [str_all]. by rewrite Hsep, IH.
Qed.

Lemma name_chars us wc n : normalize_name n us wc = Ok n → str_all name_char n = true.
Proof.
  intros Hn. destruct (normalize_name_fixed _ _ _ _ Hn) as (_&_&Hl).
  rewrite <- (join_with_split ch_dot n). apply join_all; [done|]. apply Forall_forall.
  intros x [i Hi]%list_elem_of_lookup. destruct (Hl i x Hi) as [(->&_)|[Hx _]]; [done|].
  apply label_invalid_all in Hx. eapply str_all_mono; [|exact Hx].
  destruct us; apply byte_implies; by vm_compute.
Qed.

Lemma name_char_plain c : name_char c = true →
  Ascii.eqb c ch_backslash = false ∧ in_range 0 127 c = true ∧ is_ascii_whitespace c = false.
Proof.
  intros Hc. pose proof (byte_implies name_char
    (λ c, negb (Ascii.eqb c ch_backslash) && in_range 0 127 c && negb (is_ascii_whitespace c))
    ltac:(by vm_compute) c Hc) as Hx. simpl in Hx.
  rewrite !andb_true_iff, !negb_true_iff in Hx. tauto.
Qed.

Lemma decode_plain s : str_all name_char s = true → decode_domain s = Some s ∧ utf8_valid s = true.
Proof.
  induction s as [|c s IH]; [done|]. cbn [str_all]. intros [Hc Hs]%andb_true_iff.
  destruct (IH Hs) as [Hd Hu]. destruct (name_char_plain c Hc) as (Hb&Hr&_).
  cbn [decode_domain utf8_valid]. by rewrite Hb, Hd, Hr.
Qed.

Lemma fqdn_chars us wc n : normalize_name n us wc = Ok n → str_all name_char (fqdn n) = true.
Proof. intros Hn. unfold fqdn. by rewrite str_all_app, (name_chars us wc). Qed.

Lemma decode_fqdn us wc n :
  normalize_name n us wc = Ok n → decode_domain_presentation (fqdn n) = Ok (fqdn n).
Proof.
  intros Hn. destruct (decode_plain _ (fqdn_chars _ _ _ Hn)) as [Hd Hu].
  unfold decode_domain_presentation. rewrite Hd. simpl. by rewrite Hu.
Qed.

Lemma absolute_name_fqdn n code :
  AbsoluteDnsName_new n = Ok n → absolute_name (fqdn n) code = Ok n.
Proof.
  intros Hn. unfold absolute_name. rewrite (decode_fqdn false false) by done. unfold AbsoluteDnsName_new in *.
  by destruct (normalize_name_fixed _ _ _ _ Hn) as [[_ ->] _].
Qed.

Lemma fqdn_no_ws us wc n : normalize_name n us wc = Ok n → no_ws (fqdn n) = true ∧ fqdn n ≠ "".
Proof.
  intros Hn. split; [|unfold fqdn; by destruct n]. eapply str_all_mono; [|by apply (fqdn_chars us wc)].
  intros c Hc. destruct (name_char_plain c Hc) as (_&_&Hw). by rewrite Hw.
Qed.

(** *** Values *)

Lemma fields_join ws count code :
  Forall (λ w, no_ws w = true ∧ w ≠ "") ws → length ws = count →
  fields (join_with ch_space ws) count code = Ok ws.
Proof. intros Hw <-. unfold fields. rewrite split_ascii_words by done. by rewrite Nat.eqb_refl. Qed.

Lemma num_word n : no_ws (u64_to_string n) = true ∧ u64_to_string n ≠ "".
Proof. auto with center. Qed.
Lemma name_word n : name_ok n → no_ws (fqdn n) = true ∧ fqdn n ≠ "".
Proof. apply (fqdn_no_ws false false). Qed.

Ltac words :=
  repeat (apply Forall_cons_2; [first [apply num_word | by apply name_word]|]); apply Forall_nil_2.

Lemma parse_render_value v : value_ok v → parse_value (record_type v) (render_value v) = Ok v.
Proof.
  assert (U8_MAX ≤ U64_MAX ∧ U16_MAX ≤ U64_MAX ∧ U32_MAX ≤ U64_MAX)%Z as (H8&H16&H32) by done.
  destruct v as [a|a|t|segs|p e|p w o t|f t b|t|p m s rf rt ex mi]; intros Hv;
    cbn [record_type parse_value].
  - cbn [render_value]. by rewrite ipv4_roundtrip.
  - cbn [render_value]. by rewrite ipv6_roundtrip.
  - cbn [render_value]. by rewrite absolute_name_fqdn.
  - cbn [render_value]. by rewrite character_strings_roundtrip.
  - destruct Hv as [Hp He]. cbn [render_value]. rewrite fields_join; [|words|done].
    by rewrite parse_num_string, absolute_name_fqdn.
  - destruct Hv as (Hp&Hw&Ho&Ht). cbn [render_value].
    rewrite fields_join; [|words|done].
    by rewrite !parse_num_string, absolute_name_fqdn.
  - destruct Hv as (Hf&Ht&Hb&Hl). by apply caa_roundtrip.
  - cbn [render_value]. by rewrite absolute_name_fqdn.
  - destruct Hv as (Hp&Hm&Hn). rewrite !Forall_cons in Hn. destruct Hn as (?&?&?&?&?&_).
    cbn [render_value]. rewrite fields_join; [|words|done].
    by rewrite !absolute_name_fqdn, !parse_num_string.
Qed.


End roundtrip.

(** ** Record sets survive the round trip *)

Definition routing_consistent (r : ProviderDnsRecordSet) (alias : option Route53AliasTarget)
    (policy : option Route53RoutingPolicy) (health : option string) : Prop :=
  match key_routing (rs_key r), policy with
  | RSimple, None => is_Some alias ∨ is_Some health
  | RRoute53 _, Some _ => True
  | _, _ => False
  end.

Lemma validate_aws_facts zone r :
  zr_provider zone = Aws → ProviderDnsRecordSet_validate r zone = Ok tt →
  (if route53_alias r then aliased r else ordinary r) ∧
  match rs_extension r with
  | None => key_routing (rs_key r) = RSimple ∧ rs_ttl r ≠ Automatic
  | Some (ExtRoute53 alias policy health) =>
      routing_consistent r alias policy health ∧
      validate_option Route53HealthCheckId_validate health = Ok tt ∧
      validate_option (λ t, DnsZoneId_validate (alias_zone_id t)) alias = Ok tt
  | Some (ExtCloudflare _ _ _ _) => False
  end.
Proof.
  intros Hp Hv. unfold ProviderDnsRecordSet_validate in Hv.
  destruct (DnsZoneRef_validate zone); [|done]. destruct (DnsRecordSetKey_validate (rs_key r)); [|done].
  destruct (negb (is_within _ _)); [done|]. destruct (match rs_ttl r with Seconds _ => _ | _ => _ end); [done|].
  destruct (bool_decide (zr_provider zone = Aws) && _); [done|].
  destruct (validate_shape r) as [[]|] eqn:Es; [|done]. split; [by apply validate_shape_facts|].
  destruct (rs_extension r) as [[proxy fl co tags|alias policy health]|].
  - unfold validate_cloudflare_extension in Hv. rewrite Hp in Hv. done.
  - unfold validate_route53_extension in Hv. rewrite bool_decide_eq_true_2 in Hv by done. cbn [negb] in Hv.
    destruct (validate_option (λ t, DnsZoneId_validate _) alias) as [[]|]; [|done].
    destruct (validate_option Route53HealthCheckId_validate health) as [[]|]; [|done].
    destruct (validate_option Route53RoutingPolicy_validate policy) as [[]|]; [|done].
    split; [|done]. unfold routing_consistent.
    destruct (key_routing (rs_key r)), policy; try done. simpl in Hv.
    destruct alias; [by left; eexists|]. destruct health; [by right; eexists|]. done.
  - unfold validate_no_extension in Hv. rewrite Hp, bool_decide_eq_false_2 in Hv by done. cbn [andb] in Hv.
    case_bool_decide as Ha; [done|]. destruct (bool_decide (rs_type r = TCname) && _); [done|].
    by destruct (key_routing (rs_key r)).
Qed.

Lemma map_render_type t : map_record_type (render_record_type t) = Ok t.
Proof. by destruct t. Qed.

(** The locations and regions Route 53 has. *)
Definition geo_ok (location : Route53GeoLocation) : Prop :=
  match location with
  | GeoDefault => True
  | GeoContinent code => str_in code CONTINENTS = true
  | GeoCountry code => catalog_contains ISO_3166_ALPHA2 code = true
  | GeoUsSubdivision code => catalog_contains ROUTE53_US_SUBDIVISIONS code = true
  end.
Definition policy_ok (policy : Route53RoutingPolicy) : Prop :=
  match policy with
  | Latency region => str_in region ROUTE53_LATENCY_REGIONS = true
  | Geolocation location => geo_ok location
  | _ => True
  end.

Lemma map_render_geolocation location :
  geo_ok location → map_geolocation (render_geolocation location) = Ok location.
Proof.
  destruct location as [|code|code|code]; simpl; unfold map_geolocation; simpl.
  - done.
  - by intros ->.
  - intros Hc. rewrite Hc. destruct (String.eqb_spec code "*") as [->|]; [done|done].
  - by intros ->.
Qed.

Lemma map_render_routing raw policy identity :
  (raw_weight raw, raw_failover raw, raw_region raw, raw_geolocation raw, raw_multivalue_answer raw) =
    render_policy policy →
  (∀ p, policy = Some p → policy_ok p) →
  raw_set_identifier raw = match identity with RRoute53 s => Some s | RSimple => None end →
  (identity = RSimple ↔ policy = None) →
  map_routing raw = Ok (identity, policy).
Proof.
  intros Hr Hp Hi Hc. unfold map_routing. rewrite Hi.
  destruct identity as [|s], policy as [p|]; [naive_solver| | |naive_solver].
  - simpl in Hr. by injection Hr as -> -> -> -> ->.
  - specialize (Hp p eq_refl).
    destruct p as [w|role|region|location|]; simpl in Hr, Hp; injection Hr as -> -> -> -> ->.
    + done.
    + by destruct role.
    + by rewrite Hp.
    + by rewrite map_render_geolocation.
    + done.
Qed.

Section record_roundtrip.
Context `{IdnaLaws, RecordDigest}.

(** What the types guarantee, and that Route 53 can represent the record set. *)
Record representable (r : ProviderDnsRecordSet) : Prop := {
  rep_owner : DnsOwnerName_new (rs_owner r) = Ok (rs_owner r);
  rep_sorted : sorted_set (rs_values r);
  rep_values : Forall value_ok (rs_values r);
  rep_ttl : rs_ttl r ≠ Automatic;
  rep_policy p : routing_policy_of r = Some p → policy_ok p;
  rep_alias a : alias_of r = Some a →
    normalize_zone_id (alias_zone_id a) = Ok (alias_zone_id a) ∧ name_ok (alias_target_name a);
  rep_digest : text_invalid MAX_OPAQUE_ID_LEN ("sha256:" +:+ record_digest r) = false;
}.


Lemma map_render_alias a :
  normalize_zone_id (alias_zone_id a) = Ok (alias_zone_id a) → name_ok (alias_target_name a) →
  DnsZoneId_validate (alias_zone_id a) = Ok tt →
  map_alias_target (render_alias a) = Ok a.
Proof.
  intros Hz Hn Hv. unfold map_alias_target, render_alias. simpl. rewrite Hz.
  unfold DnsZoneId_new. rewrite (opaque_new_validate _ _ _ Hv). simpl.
  rewrite absolute_name_fqdn by done. by destruct a.
Qed.

Lemma map_owner_fqdn owner :
  DnsOwnerName_new owner = Ok owner →
  decode_domain_presentation (fqdn owner) = Ok (fqdn owner) ∧ DnsOwnerName_new (fqdn owner) = Ok owner.
Proof.
  intros Ho. split; [by apply (decode_fqdn true true)|].
  unfold DnsOwnerName_new in *. by destruct (normalize_name_fixed _ _ _ _ Ho) as [[_ Hf] _].
Qed.

Lemma canonical_revision_Ok r :
  text_invalid MAX_OPAQUE_ID_LEN ("sha256:" +:+ record_digest r) = false →
  canonical_revision r = Ok ("sha256:" +:+ record_digest r).
Proof.
  intros Ht. unfold canonical_revision, DnsRecordRevision_new, opaque_id_new, validate_text.
  by rewrite Ht.
Qed.

(** The fields of a rendered record set. *)
Record rendered_from (r : ProviderDnsRecordSet) (raw : Route53RecordSet) : Prop := {
  rf_name : raw_name raw = fqdn (rs_owner r);
  rf_type : raw_record_type raw = render_record_type (rs_type r);
  rf_alias : raw_alias_target raw = render_alias <$> alias_of r;
  rf_policy : (raw_weight raw, raw_failover raw, raw_region raw, raw_geolocation raw,
    raw_multivalue_answer raw) = render_policy (routing_policy_of r);
  rf_identifier : raw_set_identifier raw =
    match key_routing (rs_key r) with RRoute53 s => Some s | RSimple => None end;
  rf_health : raw_health_check_id raw = health_of r;
  rf_unsupported : raw_traffic_policy_instance_id raw = None ∧
    raw_has_cidr_routing_config raw = false ∧ raw_has_geoproximity_location raw = false;
  rf_values : map_ttl_values raw (rs_type r) = Ok (rs_ttl r, rs_values r);
}.

Lemma ordinary_values r :
  ordinary r → representable r →
  ∃ ttl, rs_ttl r = Seconds ttl ∧ (zlen (map render_value (rs_values r)) =? 0)%Z = false ∧
    collect (parse_value (rs_type r)) (map render_value (rs_values r)) = Ok (rs_values r).
Proof.
  intros (Ht&Hne&Hty) Hr. pose proof (rep_ttl _ Hr) as Ha.
  destruct (rs_ttl r) as [| |ttl]; [done|done|]. exists ttl. split_and!; [done| |].
  - by destruct (rs_values r).
  - apply collect_map. apply Forall_forall. intros v Hv. rewrite <- (Hty v Hv).
    apply parse_render_value. pose proof (rep_values _ Hr) as Hok. by eapply Forall_forall in Hok.
Qed.

Lemma render_raw_spec zone r :
  zr_provider zone = Aws → ProviderDnsRecordSet_validate r zone = Ok tt → representable r →
  ∃ raw, render_raw r = Ok raw ∧ rendered_from r raw.
Proof.
  intros Hp Hv Hr. destruct (validate_aws_facts zone r Hp Hv) as [Hs He]. unfold render_raw.
  unfold route53_alias in Hs.
  destruct (rs_extension r) as [[? ? ? ?|[a|] policy health]|] eqn:Ex; [done| | |].
  - destruct Hs as [Ht Hvs]. simpl. rewrite bool_decide_eq_true_2, Hvs by done. simpl.
    destruct (render_policy policy) as [[[[w f] g] l] m] eqn:Er. eexists. split; [done|].
    split; cbn; unfold alias_of, routing_policy_of, health_of; rewrite ?Ex; try done.
    unfold map_ttl_values. simpl. by rewrite Ht, Hvs.
  - destruct (ordinary_values r Hs Hr) as (ttl&Ht&Hne&Hc). simpl. rewrite Ht.
    destruct (render_policy policy) as [[[[w f] g] l] m] eqn:Er. eexists. split; [done|].
    split; cbn; unfold alias_of, routing_policy_of, health_of; rewrite ?Ex; try done.
    unfold map_ttl_values. simpl. by rewrite Hne, Hc, Ht, bts_of_sorted by apply (rep_sorted _ Hr).
  - destruct (ordinary_values r Hs Hr) as (ttl&Ht&Hne&Hc). simpl. rewrite Ht. destruct He as [Hk _].
    eexists. split; [done|].
    split; cbn; unfold alias_of, routing_policy_of, health_of; rewrite ?Ex, ?Hk; try done.
    unfold map_ttl_values. simpl. by rewrite Hne, Hc, Ht, bts_of_sorted by apply (rep_sorted _ Hr).
Qed.

(** The extension is rebuilt from its parts. *)
Lemma extension_rebuilt zone r :
  zr_provider zone = Aws → ProviderDnsRecordSet_validate r zone = Ok tt →
  match alias_of r, routing_policy_of r, health_of r with
  | None, None, None => None
  | _, _, _ => Some (ExtRoute53 (alias_of r) (routing_policy_of r) (health_of r))
  end = rs_extension r ∧
  (key_routing (rs_key r) = RSimple ↔ routing_policy_of r = None) ∧
  validate_option Route53HealthCheckId_validate (health_of r) = Ok tt ∧
  validate_option (λ t, DnsZoneId_validate (alias_zone_id t)) (alias_of r) = Ok tt.
Proof.
  intros Hp Hv. destruct (validate_aws_facts zone r Hp Hv) as [_ He].
  unfold alias_of, routing_policy_of, health_of.
  destruct (rs_extension r) as [[? ? ? ?|alias policy health]|]; [done| |naive_solver].
  destruct He as (Hr&Hh&Ha). unfold routing_consistent in Hr.
  destruct (key_routing (rs_key r)), alias, policy, health; try done;
    (split; [done|]; split; [naive_solver|done]) || (destruct Hr as [[? ?]|[? ?]]; done).
Qed.

Lemma map_rendered zone r raw :
  zr_provider zone = Aws → ProviderDnsRecordSet_validate r zone = Ok tt → representable r →
  rendered_from r raw → map_record_set zone raw = Ok (r, "sha256:" +:+ record_digest r).
Proof.
  intros Hp Hv Hr Hf. destruct (extension_rebuilt zone r Hp Hv) as (Hext&Hid&Hhealth&Hzone).
  destruct (rf_unsupported _ _ Hf) as (Htp&Hcidr&Hgeo).
  destruct (map_owner_fqdn _ (rep_owner _ Hr)) as [Hdec Howner].
  unfold map_record_set. rewrite Htp, Hcidr, Hgeo, bool_decide_eq_false_2 by (by intros [? ?]).
  rewrite (rf_type _ _ Hf), map_render_type, (rf_name _ _ Hf), Hdec, Howner. simpl.
  rewrite (map_render_routing raw _ _ (rf_policy _ _ Hf) (rep_policy _ Hr) (rf_identifier _ _ Hf) Hid).
  assert (transpose map_alias_target (raw_alias_target raw) = Ok (alias_of r)) as ->.
  { rewrite (rf_alias _ _ Hf). destruct (alias_of r) as [a|] eqn:Ea; [|done]. simpl.
    destruct (rep_alias _ Hr a Ea) as [Hz Hn]. by rewrite map_render_alias. }
  assert (transpose (λ id, or_invalid "invalid_route53_health_check_id" (Route53HealthCheckId_new id))
    (raw_health_check_id raw) = Ok (health_of r)) as ->.
  { rewrite (rf_health _ _ Hf). destruct (health_of r) as [h|]; [|done]. simpl in Hhealth |- *.
    unfold Route53HealthCheckId_new. by rewrite (opaque_new_validate _ _ _ Hhealth). }
  rewrite (rf_values _ _ Hf). cbn [fst snd]. rewrite Hext.
  assert (mkRecordSet (mkKey (rs_owner r) (rs_type r) (key_routing (rs_key r))) (rs_ttl r)
    (rs_values r) (rs_extension r) = r) as -> by (by destruct r as [[] ? ? ?]).
  rewrite Hv. simpl. by rewrite (canonical_revision_Ok r (rep_digest _ Hr)).
Qed.

(** C9.  The Route 53 codec is lossless: rendering a valid, representable record
    set of an AWS zone succeeds, and mapping the rendered provider record gives
    the same record set back, whatever its type, routing policy, alias or health
    check.  The round-trip check in the renderer therefore never rejects a
    record set that Route 53 can hold. *)
Theorem route53_codec_roundtrip (zone : DnsZoneRef) (r : ProviderDnsRecordSet) :
  zr_provider zone = Aws → ProviderDnsRecordSet_validate r zone = Ok tt → representable r →
  ∃ raw revision, render_record_set zone r = Ok raw ∧ map_record_set zone raw = Ok (r, revision).
Proof.
  intros Hp Hv Hr. destruct (render_raw_spec zone r Hp Hv Hr) as (raw&Hraw&Hf).
  pose proof (map_rendered zone r raw Hp Hv Hr Hf) as Hm. eexists raw, _. split; [|done].
  unfold render_record_set. rewrite Hv, Hraw, Hm. simpl. by rewrite bool_decide_eq_true_2.
Qed.
End record_roundtrip.

(** ** A weighted TXT record with quotes, a backslash and binary octets *)

Definition demo_digest : RecordDigest := λ _, "ZGlnZXN0".
Definition demo_zone : DnsZoneRef := {|
  zr_provider_account_id := "account-a"; zr_provider := Aws; zr_zone_id := "Z1D633PJN98FT9";
  zr_apex := "example.com"; zr_visibility := Public |}.
Definition demo_txt : ProviderDnsRecordSet :=
  mkRecordSet (mkKey "_txt.example.com" TTxt (RRoute53 "blue")) (Seconds 60)
    [VTxt [[34; 92; 0; 255; 97]; []]]%Z (Some (ExtRoute53 None (Some (Weighted 10)) (Some "hc-1"))).

Lemma route53_codec_roundtrip_witness :
  ∃ raw revision, @render_record_set demo_idna demo_digest demo_zone demo_txt = Ok raw ∧
    @map_record_set demo_idna demo_digest demo_zone raw = Ok (demo_txt, revision).
Proof.
  apply (@route53_codec_roundtrip demo_idna demo_idna_laws demo_digest demo_zone demo_txt);
    [reflexivity|reflexivity|].
  split.
  - reflexivity.
  - repeat constructor.
  - repeat constructor; vm_compute; try done.
  - done.
  - by intros p [= <-].
  - done.
  - reflexivity.
Defined.
