(* ===== verification/Route53Plan.v ===== *)
(** * Route53Plan: planning an atomic Route 53 change batch

    [plan_change_batch] of [crates/center-adapter-route53/src/lib.rs] and its
    helpers: a validated batch of changes is checked against the complete
    current inventory and turned into one transactional request.  The theorem
    is a refinement: the provider, which applies a request action by action,
    accepts the planned request, and the inventory it ends in is the one the
    changes describe, with its owners and routing groups consistent. *)

From Stdlib Require Import ZArith Ascii String Lia.
From S2P Require Import Prelude Text Core BTree NetAddr Dns DnsChange ProviderErrors RecordValues Route53Model.

Definition MAX_PROVIDER_CHANGE_ACTIONS : Z := 1000.
Definition MAX_PROVIDER_RECORD_ELEMENTS : Z := 1000.
Definition MAX_PROVIDER_RECORD_VALUE_BYTES : Z := 32000.

Inductive Route53ChangeAction := ActCreate | ActDelete.
Record Route53RecordChange := mkAction {
  act_action : Route53ChangeAction;
  act_record_set : Route53RecordSet;
}.

(** ** Checks *)

Definition same_route53_observation (current requested : ObservedDnsRecordSet) : bool :=
  bool_decide (ob_zone current = ob_zone requested)
  && bool_decide (ob_record_set current = ob_record_set requested)
  && String.eqb (ob_revision current) (ob_revision requested).

Definition route53_alias_and_health (record : ProviderDnsRecordSet) : bool * option string :=
  (bool_decide (is_Some (alias_of record)), health_of record).

(** [resultant_routing_family] and [Route53RoutingFamily] of the core have the
    same constructors and the same definition. *)
Definition resultant_routing_family (record : ProviderDnsRecordSet) : Route53RoutingFamily :=
  match routing_policy_of record with
  | None => FSimple
  | Some (Weighted _) => FWeighted
  | Some (Failover _) => FFailover
  | Some (Latency _) => FLatency
  | Some (Geolocation _) => FGeolocation
  | Some Multivalue => FMultivalue
  end.

Definition resultant_selector (record : ProviderDnsRecordSet) : option string :=
  match routing_policy_of record with
  | Some (Failover role) => Some ("failover:" +:+ role_debug role)
  | Some (Latency region) => Some ("latency:" +:+ region)
  | Some (Geolocation location) =>
      Some match location with
           | GeoDefault => "geo:default"
           | GeoContinent code => "geo:continent:" +:+ code
           | GeoCountry code => "geo:country:" +:+ code
           | GeoUsSubdivision code => "geo:us:" +:+ code
           end
  | Some (Weighted _) | Some Multivalue | None => None
  end.

Definition validate_replace_shape (previous desired : ProviderDnsRecordSet) : DnsProviderResult () :=
  if negb (bool_decide (resultant_routing_family previous = resultant_routing_family desired))
     || negb (bool_decide ((route53_alias_and_health previous).1 = (route53_alias_and_health desired).1))
     || negb (bool_decide ((route53_alias_and_health previous).2 = (route53_alias_and_health desired).2))
  then Err (conflict "route53_replace_shape_conflict") else Ok tt.

(** The members of one routing group of the resulting inventory. *)
Fixpoint check_members (family : Route53RoutingFamily) (ms : list ProviderDnsRecordSet)
    (ttl : option Z) (selectors : list string) : DnsProviderResult () :=
  match ms with
  | [] => Ok tt
  | member :: ms =>
      if negb (bool_decide (resultant_routing_family member = family))
      then Err (conflict "route53_resultant_routing_family_conflict")
      else if match explicit_ttl member with
              | Some value => is_some_and (λ existing, negb (existing =? value)%Z) ttl
              | None => false
              end
      then Err (conflict "route53_resultant_ttl_conflict")
      else
        let ttl := match explicit_ttl member with Some value => Some value | None => ttl end in
        match resultant_selector member with
        | Some selector =>
            if bool_decide (selector ∈ selectors)
            then Err (conflict "route53_resultant_selector_conflict")
            else check_members family ms ttl (bts_insert selector selectors)
        | None => check_members family ms ttl selectors
        end
  end.

Definition check_group (records : list ProviderDnsRecordSet) (g : GroupKey) : DnsProviderResult () :=
  let ms := members g records in
  match ms with
  | [] => Ok tt
  | first :: _ =>
      let family := resultant_routing_family first in
      let? _ := check_members family ms None [] in
      if bool_decide (family = FWeighted) && (100 <? zlen ms)%Z
      then Err (conflict "route53_resultant_weighted_limit") else Ok tt
  end.

Definition owner_conflict (records : list ProviderDnsRecordSet) (owner : string) : bool :=
  let at_owner := base.filter (λ r, rs_owner r = owner) records in
  existsb (λ r, bool_decide (rs_type r = TCname)) at_owner
  && existsb (λ r, negb (bool_decide (rs_type r = TCname))) at_owner.

Fixpoint check_groups_of (records : list ProviderDnsRecordSet) (groups : list GroupKey) :
    DnsProviderResult () :=
  match groups with
  | [] => Ok tt
  | g :: groups => let? _ := check_group records g in check_groups_of records groups
  end.

Definition validate_resultant_inventory
    (resultant : list (DnsRecordSetKey * ProviderDnsRecordSet))
    (affected_owners : list string) (affected_groups : list GroupKey) : DnsProviderResult () :=
  let records := resultant.*2 in
  if existsb (owner_conflict records) affected_owners
  then Err (conflict "route53_resultant_cname_conflict")
  else check_groups_of records affected_groups.

Fixpoint count_elements (request : list Route53RecordChange) (elements : Z) : DnsProviderResult Z :=
  match request with
  | [] => Ok elements
  | change :: request =>
      let record := act_record_set change in
      if existsb (λ value, MAX_PROVIDER_RECORD_VALUE_BYTES <? str_len value)%Z
           (raw_resource_records record)
      then Err (validation "route53_record_value_size_limit")
      else
        let cost := match raw_alias_target record with
                    | Some _ => 1%Z
                    | None => zlen (raw_resource_records record)
                    end in
        let? elements := ok_or (validation "route53_change_element_limit")
                           (u64_checked_add elements cost) in
        count_elements request elements
  end.
Definition validate_change_request (request : list Route53RecordChange) : DnsProviderResult () :=
  let? elements := count_elements request 0 in
  if (elements =? 0)%Z || (MAX_PROVIDER_RECORD_ELEMENTS <? elements)%Z
  then Err (validation "route53_change_element_limit") else Ok tt.

(** ** The plan *)

Record plan_state := mkPlan {
  pl_resultant : list (DnsRecordSetKey * ProviderDnsRecordSet);    (* BTreeMap *)
  pl_owners : list string;                                         (* BTreeSet *)
  pl_groups : list GroupKey;                                       (* BTreeSet *)
  pl_request : list Route53RecordChange;
}.

Abbreviation Inventory := (list (DnsRecordSetKey * (ObservedDnsRecordSet * Route53RecordSet))).

Section plan.
Context `{Idna, RecordDigest}.

(** The [match change] of the loop: the actions and the resulting inventory. *)
Definition plan_change (zone : DnsZoneRef) (current : Inventory) (c : DnsRecordChange)
    (resultant : list (DnsRecordSetKey * ProviderDnsRecordSet)) :
    DnsProviderResult (list Route53RecordChange * list (DnsRecordSetKey * ProviderDnsRecordSet)) :=
  match c with
  | CreateChange record_set _ =>
      match btm_get (rs_key record_set) current with
      | Some _ => Err (conflict "route53_create_guard_conflict")
      | None =>
          let? rendered := render_record_set zone record_set in
          Ok ([mkAction ActCreate rendered], btm_insert (rs_key record_set) record_set resultant)
      end
  | ReplaceChange previous desired _ =>
      match btm_get (rs_key desired) current with
      | None => Err (conflict "route53_replace_guard_conflict")
      | Some (observed, raw) =>
          if negb (same_route53_observation observed previous)
          then Err (conflict "route53_replace_guard_conflict")
          else
            let? _ := validate_replace_shape (ob_record_set previous) desired in
            if bool_decide (ob_record_set previous = desired)
            then Err (validation "route53_noop_replace")
            else
              let? rendered := render_record_set zone desired in
              Ok ([mkAction ActDelete raw; mkAction ActCreate rendered],
                  btm_insert (rs_key desired) desired resultant)
      end
  | DeleteChange previous _ =>
      match btm_get (rs_key (ob_record_set previous)) current with
      | None => Err (conflict "route53_delete_guard_conflict")
      | Some (observed, raw) =>
          if negb (same_route53_observation observed previous)
          then Err (conflict "route53_delete_guard_conflict")
          else Ok ([mkAction ActDelete raw],
                   btm_remove (rs_key (ob_record_set previous)) resultant)
      end
  end.

Fixpoint plan_changes (zone : DnsZoneRef) (current : Inventory) (changes : list DnsRecordChange)
    (s : plan_state) : DnsProviderResult plan_state :=
  match changes with
  | [] => Ok s
  | c :: changes =>
      let key := change_key c in
      let? step := plan_change zone current c (pl_resultant s) in
      plan_changes zone current changes
        (mkPlan step.2 (bts_insert (key_owner key) (pl_owners s))
           (bts_insert (key_owner key, key_record_type key) (pl_groups s))
           (pl_request s ++ step.1))
  end.

Definition plan_change_batch (zone : DnsZoneRef) (changes : list DnsRecordChange)
    (current : list (ObservedDnsRecordSet * Route53RecordSet)) :
    DnsProviderResult (list Route53RecordChange) :=
  let current := btm_of_list (map (λ e, (rs_key (ob_record_set e.1), e)) current) in
  let resultant := btm_of_list (map (λ e, (e.1, ob_record_set e.2.1)) current) in
  let? s := plan_changes zone current changes (mkPlan resultant [] [] []) in
  let? _ := validate_resultant_inventory (pl_resultant s) (pl_owners s) (pl_groups s) in
  if (zlen (pl_request s) =? 0)%Z || (MAX_PROVIDER_CHANGE_ACTIONS <? zlen (pl_request s))%Z
  then Err (validation "route53_change_action_limit")
  else
    let? _ := validate_change_request (pl_request s) in
    Ok (pl_request s).
End plan.

(** ** Groups of the resulting inventory *)

Record resultant_group_ok (ms : list ProviderDnsRecordSet) : Prop := {
  rg_family a b : a ∈ ms → b ∈ ms → group_family a = group_family b;
  rg_ttl a b s t : a ∈ ms → b ∈ ms → explicit_ttl a = Some s → explicit_ttl b = Some t → s = t;
  rg_selectors : NoDup (omap resultant_selector ms);
  rg_weighted a : a ∈ ms → group_family a = FWeighted → (zlen ms <= 100)%Z;
}.

Lemma resultant_family r : resultant_routing_family r = group_family r.
Proof. unfold resultant_routing_family, group_family. by destruct (routing_policy_of r) as [[]|]. Qed.

Lemma check_members_Ok family ms ttl selectors :
  check_members family ms ttl selectors = Ok tt →
  (∀ m, m ∈ ms → group_family m = family) ∧
  (∀ a b s t, a ∈ ms → b ∈ ms → explicit_ttl a = Some s → explicit_ttl b = Some t → s = t) ∧
  (∀ a s e, a ∈ ms → explicit_ttl a = Some s → ttl = Some e → s = e) ∧
  NoDup (omap resultant_selector ms) ∧ (∀ x, x ∈ omap resultant_selector ms → x ∉ selectors).
Proof.
  revert ttl selectors. induction ms as [|m ms IH]; intros ttl selectors Hc.
  { split_and!; try set_solver. constructor. }
  cbn [check_members] in Hc. rewrite resultant_family in Hc.
  case_bool_decide as Hf; [|done]. cbn [negb] in Hc.
  set (ttl' := match explicit_ttl m with Some value => Some value | None => ttl end) in Hc.
  match type of Hc with (if ?b then _ else _) = _ => destruct b eqn:Ettl; [done|] end.
  assert (∀ e t, explicit_ttl m = Some t → ttl = Some e → t = e) as Ht.
  { intros e t Hm ->. rewrite Hm in Ettl. simpl in Ettl. lia. }
  assert (∃ sel', check_members family ms ttl' sel' = Ok tt ∧ (∀ x, x ∈ selectors → x ∈ sel') ∧
    (∀ x, resultant_selector m = Some x → x ∈ sel' ∧ x ∉ selectors)) as (sel'&Hrec&Hsub&Hsel).
  { destruct (resultant_selector m) as [x|].
    - case_bool_decide as Hin; [done|]. exists (bts_insert x selectors). split; [done|].
      setoid_rewrite elem_of_bts_insert. naive_solver.
    - exists selectors. naive_solver. }
  destruct (IH _ _ Hrec) as (IHf&IHt&IHe&IHn&IHs). split_and!.
  - intros a [->|Ha]%elem_of_cons; [done|by apply IHf].
  - assert (∀ b t s, b ∈ ms → explicit_ttl m = Some s → explicit_ttl b = Some t → t = s) as Hm.
    { intros b t s Hb Hs Hbt. apply (IHe b t s Hb Hbt). unfold ttl'. by rewrite Hs. }
    intros a b s t [->|Ha]%elem_of_cons [->|Hb]%elem_of_cons Hs Htb;
      [congruence|symmetry; by apply (Hm b)|by apply (Hm a)|by apply (IHt a b)].
  - intros a s e [->|Ha]%elem_of_cons Hs He; [by apply Ht|].
    destruct (explicit_ttl m) as [t|] eqn:Em; [|by apply (IHe a s e)].
    rewrite <- (Ht e t eq_refl He). by apply (IHe a s t).
  - cbn. destruct (resultant_selector m) as [x|]; [|done]. constructor; [|done].
    intros Hin. by apply (IHs x Hin), Hsel.
  - cbn. intros x Hx Hin. destruct (resultant_selector m) as [y|].
    + apply elem_of_cons in Hx as [->|Hx]; [by apply (Hsel y)|]. by apply (IHs x Hx), Hsub.
    + by apply (IHs x Hx), Hsub.
Qed.

Lemma check_group_Ok records g : check_group records g = Ok tt → resultant_group_ok (members g records).
Proof.
  unfold check_group. destruct (members g records) as [|m ms] eqn:Em.
  { intros _. split; try set_solver. constructor. }
  destruct (check_members _ (m :: ms) None []) as [[]|] eqn:Ec; [|done].
  destruct (check_members_Ok _ _ _ _ Ec) as (Hf&Ht&_&Hn&_). rewrite resultant_family in Hf |- *.
  destruct (bool_decide (group_family m = FWeighted) && _) eqn:Ew; [done|]. intros _. split.
  - intros a b Ha Hb. by rewrite (Hf a Ha), (Hf b Hb).
  - done.
  - done.
  - intros a Ha Hwa. rewrite <- (Hf a Ha), Hwa, bool_decide_eq_true_2 in Ew by done. simpl in Ew. lia.
Qed.

Lemma owner_conflict_false records owner :
  owner_conflict records owner = false →
  ∀ a b, a ∈ records → b ∈ records → rs_owner a = owner → rs_owner b = owner →
    rs_type a = TCname → rs_type b = TCname.
Proof.
  unfold owner_conflict. intros Hc a b Ha Hb Hoa Hob Hta.
  destruct (decide (rs_type b = TCname)) as [|Hne]; [done|]. exfalso.
  apply not_true_iff_false in Hc. apply Hc. apply andb_true_iff.
  rewrite !existsb_exists. split.
  - exists a. rewrite <- list_elem_of_In, list_elem_of_filter. by rewrite bool_decide_eq_true_2.
  - exists b. rewrite <- list_elem_of_In, list_elem_of_filter. by rewrite bool_decide_eq_false_2.
Qed.

Lemma check_groups_of_Ok records groups g :
  check_groups_of records groups = Ok tt → g ∈ groups → check_group records g = Ok tt.
Proof.
  induction groups as [|h groups IH]; [set_solver|]. cbn [check_groups_of].
  destruct (check_group records h) as [[]|] eqn:Eh; [|done].
  intros Hg [->|Hin]%elem_of_cons; [done|by apply IH].
Qed.

(** ** The provider

    Route 53 applies a request action by action in one transaction: a deletion
    must name an existing record exactly, a creation an identity that is free.
    Its store maps each record identity to the provider's record. *)

Abbreviation Store := (list (DnsRecordSetKey * Route53RecordSet)).

Section provider.
Context `{Idna, RecordDigest}.

Definition decode_raw (zone : DnsZoneRef) (raw : Route53RecordSet) : option ProviderDnsRecordSet :=
  match map_record_set zone raw with Ok (r, _) => Some r | Err _ => None end.

Definition provider_action (zone : DnsZoneRef) (store : Store) (a : Route53RecordChange) : option Store :=
  r ← decode_raw zone (act_record_set a);
  match act_action a, btm_get (rs_key r) store with
  | ActDelete, Some raw =>
      if decide (raw = act_record_set a) then Some (btm_remove (rs_key r) store) else None
  | ActCreate, None => Some (btm_insert (rs_key r) (act_record_set a) store)
  | _, _ => None
  end.
Fixpoint provider_apply (zone : DnsZoneRef) (store : Store) (request : list Route53RecordChange) :
    option Store :=
  match request with
  | [] => Some store
  | a :: request => store ← provider_action zone store a; provider_apply zone store request
  end.

(** The record sets a store holds. *)
Definition decode_store (zone : DnsZoneRef) (store : Store) (k : DnsRecordSetKey) : option ProviderDnsRecordSet :=
  btm_get k store ≫= decode_raw zone.

Record store_ok (zone : DnsZoneRef) (store : Store) : Prop := {
  so_sorted : sorted_map store;
  so_keys k raw : btm_get k store = Some raw → ∃ r, decode_raw zone raw = Some r ∧ rs_key r = k;
}.

(** [current] lists the store. *)
Record listing (zone : DnsZoneRef) (current : list (ObservedDnsRecordSet * Route53RecordSet))
    (store : Store) : Prop := {
  li_store : store_ok zone store;
  li_keys : NoDup (map (λ e, rs_key (ob_record_set e.1)) current);
  li_mapped o raw : (o, raw) ∈ current → map_record_set zone raw = Ok (ob_record_set o, ob_revision o);
  li_entries k raw : btm_get k store = Some raw ↔
    ∃ o, (o, raw) ∈ current ∧ rs_key (ob_record_set o) = k;
}.

Lemma render_sound zone r raw :
  render_record_set zone r = Ok raw → decode_raw zone raw = Some r.
Proof.
  unfold render_record_set, decode_raw. destruct (or_invalid _ _); [|done].
  destruct (render_raw r) as [raw'|]; [|done].
  destruct (map_record_set zone raw') as [[rt rev]|] eqn:Em; [|done]. simpl.
  case_bool_decide as Heq; [|done]. intros [= <-]. by rewrite Em, Heq.
Qed.

Lemma provider_apply_app zone store l k :
  provider_apply zone store (l ++ k) = provider_apply zone store l ≫= λ s, provider_apply zone s k.
Proof.
  revert store. induction l as [|a l IH]; intros store; [done|]. simpl.
  destruct (provider_action zone store a); simpl; [apply IH|done].
Qed.

Lemma provider_delete zone store k raw :
  store_ok zone store → btm_get k store = Some raw →
  provider_action zone store (mkAction ActDelete raw) = Some (btm_remove k store) ∧
  store_ok zone (btm_remove k store) ∧
  ∀ k', btm_get k' (btm_remove k store) = if decide (k' = k) then None else btm_get k' store.
Proof.
  intros [Hs Hk] Hg. destruct (Hk k raw Hg) as (r&Hr&<-).
  assert (∀ k', btm_get k' (btm_remove (rs_key r) store) =
    if decide (k' = rs_key r) then None else btm_get k' store) as Hget.
  { intros k'. destruct (decide (k' = rs_key r)) as [->|Hne]; [by apply btm_get_remove_eq|].
    by apply btm_get_remove_ne. }
  split_and!; [|split|done].
  - unfold provider_action. cbn [act_record_set act_action]. rewrite Hr. simpl.
    by rewrite Hg, decide_True.
  - by apply btm_remove_sorted.
  - intros k' raw'. rewrite Hget. destruct (decide (k' = rs_key r)); [done|]. apply Hk.
Qed.

Lemma provider_create zone store raw r :
  store_ok zone store → decode_raw zone raw = Some r → btm_get (rs_key r) store = None →
  provider_action zone store (mkAction ActCreate raw) = Some (btm_insert (rs_key r) raw store) ∧
  store_ok zone (btm_insert (rs_key r) raw store).
Proof.
  intros [Hs Hk] Hr Hg. split; [|split].
  - unfold provider_action. cbn [act_record_set act_action]. rewrite Hr. simpl. by rewrite Hg.
  - by apply btm_insert_sorted.
  - intros k raw' Hg'. destruct (decide (k = rs_key r)) as [->|Hne].
    + rewrite btm_get_insert_eq in Hg'. simplify_eq. by exists r.
    + rewrite btm_get_insert_ne in Hg' by done. by apply Hk.
Qed.

Lemma same_observation current requested :
  same_route53_observation current requested = true →
  ob_zone current = ob_zone requested ∧ ob_record_set current = ob_record_set requested ∧
  ob_revision current = ob_revision requested.
Proof.
  unfold same_route53_observation. rewrite !andb_true_iff, !bool_decide_eq_true, String.eqb_eq. tauto.
Qed.

(** The guard of a change holds of the listing it is planned against. *)
Definition guard_holds (current : list (ObservedDnsRecordSet * Route53RecordSet)) (c : DnsRecordChange) :
    Prop :=
  match c with
  | CreateChange r _ => ∀ o raw, (o, raw) ∈ current → rs_key (ob_record_set o) ≠ rs_key r
  | ReplaceChange previous _ _ | DeleteChange previous _ =>
      ∃ o raw, (o, raw) ∈ current ∧ ob_record_set o = ob_record_set previous ∧
        ob_revision o = ob_revision previous
  end.

Definition index (current : list (ObservedDnsRecordSet * Route53RecordSet)) : Inventory :=
  btm_of_list (map (λ e, (rs_key (ob_record_set e.1), e)) current).

Lemma index_get zone current store k o raw :
  listing zone current store →
  btm_get k (index current) = Some (o, raw) ↔ (o, raw) ∈ current ∧ rs_key (ob_record_set o) = k.
Proof.
  intros Hl. unfold index. rewrite btm_of_list_get.
  - rewrite list_elem_of_fmap. split; [|intros [Hin <-]; by exists (o, raw)].
    intros ([o' raw']&Heq&Hin). by simplify_eq/=.
  - pose proof (li_keys _ _ _ Hl) as Hn. by rewrite <- list_fmap_compose.
Qed.

Lemma index_none zone current store k :
  listing zone current store → btm_get k (index current) = None ↔ btm_get k store = None.
Proof.
  intros Hl. split; intros Hn.
  - destruct (btm_get k store) as [raw|] eqn:Es; [|done].
    apply (li_entries _ _ _ Hl) in Es as (o&Hin&Hk).
    assert (btm_get k (index current) = Some (o, raw)) as Hs by (by apply (index_get zone _ store)).
    congruence.
  - destruct (btm_get k (index current)) as [[o raw]|] eqn:Es; [|done].
    apply (index_get zone _ store) in Es as [Hin Hk]; [|done].
    assert (btm_get k store = Some raw) as Hs by (apply (li_entries _ _ _ Hl); eauto). congruence.
Qed.

(** ** One change *)

(** The provider's store after the actions of one change, and the inventory the
    plan tracks. *)
Record step_ok (zone : DnsZoneRef) (current : list (ObservedDnsRecordSet * Route53RecordSet))
    (store : Store) (c : DnsRecordChange) (acts : list Route53RecordChange)
    (resultant : list (DnsRecordSetKey * ProviderDnsRecordSet)) (store' : Store) : Prop := {
  st_applied : provider_apply zone store acts = Some store';
  st_store : store_ok zone store';
  st_sorted : sorted_map resultant;
  st_resultant k : btm_get k resultant = decode_store zone store' k;
  st_decode k : decode_store zone store' k = apply_change (decode_store zone store) c k;
  st_other k : k ≠ change_key c → btm_get k store' = btm_get k store;
  st_guard : guard_holds current c;
}.

Lemma decode_insert zone store k raw r k' :
  decode_raw zone raw = Some r →
  decode_store zone (btm_insert k raw store) k' = if decide (k' = k) then Some r else decode_store zone store k'.
Proof.
  intros Hr. unfold decode_store. destruct (decide (k' = k)) as [->|Hne].
  - by rewrite btm_get_insert_eq.
  - by rewrite btm_get_insert_ne.
Qed.

Lemma get_insert_decide {V} (k k' : DnsRecordSetKey) (v : V) m :
  btm_get k' (btm_insert k v m) = if decide (k' = k) then Some v else btm_get k' m.
Proof.
  destruct (decide (k' = k)) as [->|Hne]; [apply btm_get_insert_eq|by apply btm_get_insert_ne].
Qed.

(** Inserting a rendered record where the identity is free. *)
Lemma insert_step zone store r raw resultant :
  store_ok zone store → sorted_map resultant → render_record_set zone r = Ok raw →
  btm_get (rs_key r) store = None →
  (∀ k, k ≠ rs_key r → btm_get k resultant = decode_store zone store k) →
  let store' := btm_insert (rs_key r) raw store in
  provider_action zone store (mkAction ActCreate raw) = Some store' ∧ store_ok zone store' ∧
  sorted_map (btm_insert (rs_key r) r resultant) ∧
  ∀ k, btm_get k (btm_insert (rs_key r) r resultant) = decode_store zone store' k.
Proof.
  intros Hok Hs Hr Hg Hres store'. apply render_sound in Hr.
  destruct (provider_create zone store raw r Hok Hr Hg) as [Ha Hok']. split_and!; [done|done| |].
  - by apply btm_insert_sorted.
  - intros k. unfold store'. rewrite (decode_insert _ _ _ _ r), get_insert_decide by done.
    destruct (decide (k = rs_key r)); [done|]. by apply Hres.
Qed.

Section step.
Context (zone : DnsZoneRef) (current : list (ObservedDnsRecordSet * Route53RecordSet)) (store0 : Store).
Hypothesis Hl : listing zone current store0.

Lemma create_step store r g resultant acts resultant' :
  store_ok zone store → btm_get (rs_key r) store = btm_get (rs_key r) store0 →
  (∀ k, btm_get k resultant = decode_store zone store k) → sorted_map resultant →
  plan_change zone (index current) (CreateChange r g) resultant = Ok (acts, resultant') →
  ∃ store', step_ok zone current store (CreateChange r g) acts resultant' store'.
Proof.
  intros Hok Hsame Hres Hs. cbn [plan_change].
  destruct (btm_get (rs_key r) (index current)) as [e|] eqn:Ei; [done|].
  destruct (render_record_set zone r) as [raw|] eqn:Er; [|done]. intros [= <- <-].
  pose proof Ei as Hfree. apply (index_none zone _ store0) in Hfree; [|done]. rewrite <- Hsame in Hfree.
  destruct (insert_step zone store r raw resultant Hok Hs Er Hfree) as (Ha&Hok'&Hs'&Hres');
    [intros; apply Hres|].
  eexists. split; [simpl; by rewrite Ha|done|done|done| | |].
  - intros k. unfold apply_change. simpl. apply decode_insert. by apply render_sound.
  - intros k Hne. by rewrite get_insert_decide, decide_False.
  - intros o raw' Hin Hk.
    assert (btm_get (rs_key r) (index current) = Some (o, raw')) as Hsome
      by (by apply (index_get zone _ store0)). congruence.
Qed.

Lemma delete_step store p g resultant acts resultant' :
  store_ok zone store →
  btm_get (rs_key (ob_record_set p)) store = btm_get (rs_key (ob_record_set p)) store0 →
  (∀ k, btm_get k resultant = decode_store zone store k) → sorted_map resultant →
  plan_change zone (index current) (DeleteChange p g) resultant = Ok (acts, resultant') →
  ∃ store', step_ok zone current store (DeleteChange p g) acts resultant' store'.
Proof.
  intros Hok Hsame Hres Hs. cbn [plan_change].
  destruct (btm_get _ (index current)) as [[o raw]|] eqn:Ei; [|done].
  destruct (same_route53_observation o p) eqn:Eo; [|done]. intros [= <- <-].
  apply same_observation in Eo as (_&Hrs&Hrev). apply (index_get zone _ store0) in Ei as [Hin Hk]; [|done].
  assert (btm_get (rs_key (ob_record_set p)) store = Some raw) as Hg.
  { rewrite Hsame. apply (li_entries _ _ _ Hl). eauto. }
  destruct (provider_delete zone store _ raw Hok Hg) as (Ha&Hok'&Hget).
  assert (∀ k, decode_store zone (btm_remove (rs_key (ob_record_set p)) store) k =
    if decide (k = rs_key (ob_record_set p)) then None else decode_store zone store k) as Hdec.
  { intros k. unfold decode_store. rewrite Hget. by destruct (decide _). }
  eexists. split; [cbn [provider_apply]; by rewrite Ha|done|by apply btm_remove_sorted| |exact Hdec| |].
  - intros k. rewrite Hdec. destruct (decide (k = rs_key (ob_record_set p))) as [->|Hne].
    + by apply btm_get_remove_eq.
    + by rewrite btm_get_remove_ne.
  - intros k Hne. by rewrite Hget, decide_False.
  - by exists o, raw.
Qed.

Lemma replace_step store p d g resultant acts resultant' :
  store_ok zone store → rs_key (ob_record_set p) = rs_key d →
  btm_get (rs_key d) store = btm_get (rs_key d) store0 →
  (∀ k, btm_get k resultant = decode_store zone store k) → sorted_map resultant →
  plan_change zone (index current) (ReplaceChange p d g) resultant = Ok (acts, resultant') →
  ∃ store', step_ok zone current store (ReplaceChange p d g) acts resultant' store'.
Proof.
  intros Hok Hkey Hsame Hres Hs. cbn [plan_change].
  destruct (btm_get _ (index current)) as [[o raw]|] eqn:Ei; [|done].
  destruct (same_route53_observation o p) eqn:Eo; [|done]. cbn [negb].
  destruct (validate_replace_shape _ _); [|done]. case_bool_decide; [done|].
  destruct (render_record_set zone d) as [rendered|] eqn:Er; [|done]. intros [= <- <-].
  apply same_observation in Eo as (_&Hrs&Hrev). apply (index_get zone _ store0) in Ei as [Hin Hk]; [|done].
  assert (btm_get (rs_key d) store = Some raw) as Hg.
  { rewrite Hsame. apply (li_entries _ _ _ Hl). eauto. }
  destruct (provider_delete zone store _ raw Hok Hg) as (Ha&Hok'&Hget).
  destruct (insert_step zone (btm_remove (rs_key d) store) d rendered resultant Hok' Hs Er)
    as (Hb&Hok''&Hs'&Hres').
  { by rewrite Hget, decide_True. }
  { intros k Hne. unfold decode_store. rewrite Hget, decide_False by done. apply Hres. }
  eexists. split; [cbn [provider_apply]; rewrite Ha; simpl; by rewrite Hb|done|done|done| | |].
  - intros k. rewrite (decode_insert _ _ _ _ d) by (by apply render_sound). unfold apply_change. simpl.
    destruct (decide (k = rs_key d)); [done|]. unfold decode_store. by rewrite Hget, decide_False.
  - intros k Hne. simpl in Hne. by rewrite get_insert_decide, decide_False, Hget, decide_False.
  - by exists o, raw.
Qed.

Lemma plan_change_step store c resultant acts resultant' :
  DnsRecordChange_validate c zone = Ok tt → store_ok zone store →
  btm_get (change_key c) store = btm_get (change_key c) store0 →
  (∀ k, btm_get k resultant = decode_store zone store k) → sorted_map resultant →
  plan_change zone (index current) c resultant = Ok (acts, resultant') →
  ∃ store', step_ok zone current store c acts resultant' store'.
Proof.
  intros Hv Hok Hsame Hres Hs Hp. apply change_validate_guarded in Hv as [Hg _].
  destruct c as [r g|p d g|p g].
  - by eapply (create_step store).
  - destruct Hg as (_&Hk&_). by eapply (replace_step store).
  - by eapply (delete_step store).
Qed.

(** *** The batch *)

Lemma plan_changes_refine cs store s s' :
  Forall (λ c, DnsRecordChange_validate c zone = Ok tt) cs → NoDup (map change_key cs) →
  store_ok zone store → (∀ c, c ∈ cs → btm_get (change_key c) store = btm_get (change_key c) store0) →
  (∀ k, btm_get k (pl_resultant s) = decode_store zone store k) → sorted_map (pl_resultant s) →
  plan_changes zone (index current) cs s = Ok s' →
  ∃ acts store', pl_request s' = pl_request s ++ acts ∧ provider_apply zone store acts = Some store' ∧
    (sorted_map (pl_resultant s') ∧ store_ok zone store') ∧
    (∀ k, btm_get k (pl_resultant s') = decode_store zone store' k) ∧
    (∀ k, decode_store zone store' k = apply_changes (decode_store zone store) cs k) ∧
    Forall (guard_holds current) cs ∧
    (∀ o, o ∈ pl_owners s ∨ (∃ c, c ∈ cs ∧ o = key_owner (change_key c)) → o ∈ pl_owners s') ∧
    (∀ g, g ∈ pl_groups s ∨
       (∃ c, c ∈ cs ∧ g = (key_owner (change_key c), key_record_type (change_key c))) → g ∈ pl_groups s').
Proof.
  revert store s. induction cs as [|c cs IH]; intros store s Hv Hn Hok Hsame Hres Hs Hp.
  { cbn [plan_changes] in Hp. injection Hp as <-. exists [], store. rewrite app_nil_r.
    split_and!; try done; intros ? [?|(c&Hc&_)]; (done || by apply not_elem_of_nil in Hc). }
  cbn [plan_changes] in Hp. inversion Hv as [|? ? Hvc Hvs]; subst. simpl in Hn.
  inversion Hn as [|? ? Hnc Hns]; subst.
  destruct (plan_change zone (index current) c (pl_resultant s)) as [[acts R]|] eqn:Ec; [|done].
  destruct (plan_change_step store c _ acts R Hvc Hok (Hsame c ltac:(left)) Hres Hs Ec) as (store1&Hst).
  apply (IH store1) in Hp as (acts'&store'&Hreq&Hap&Hs'&Hres'&Hdec&Hgu&Ho&Hg);
    [|done|done|apply (st_store _ _ _ _ _ _ _ Hst)| |apply (st_resultant _ _ _ _ _ _ _ Hst)|
     apply (st_sorted _ _ _ _ _ _ _ Hst)].
  2: { intros d Hd. rewrite (st_other _ _ _ _ _ _ _ Hst); [apply Hsame; by right|].
       intros Heq. apply Hnc. rewrite <- Heq. apply list_elem_of_fmap. eauto. }
  cbn [pl_request pl_owners pl_groups fst snd] in *. exists (acts ++ acts'), store'.
  rewrite app_assoc. split_and!; [done| |apply Hs'|apply Hs'|done| | | |].
  - by rewrite provider_apply_app, (st_applied _ _ _ _ _ _ _ Hst).
  - intros k. rewrite Hdec. unfold apply_changes. simpl.
    assert (∀ f g, (∀ k, f k = g k) → ∀ k, foldl apply_change f cs k = foldl apply_change g cs k) as Hext.
    { clear. induction cs as [|c cs IH]; intros f g Hfg k; [apply Hfg|]. simpl. apply IH. intros k'.
      unfold apply_change. by rewrite Hfg. }
    apply Hext. apply (st_decode _ _ _ _ _ _ _ Hst).
  - constructor; [apply (st_guard _ _ _ _ _ _ _ Hst)|done].
  - intros o Hin. apply Ho. setoid_rewrite elem_of_bts_insert. setoid_rewrite elem_of_cons in Hin.
    naive_solver.
  - intros g Hin. apply Hg. setoid_rewrite elem_of_bts_insert. setoid_rewrite elem_of_cons in Hin.
    naive_solver.
Qed.

Lemma initial_resultant k :
  btm_get k (btm_of_list (map (λ e, (e.1, ob_record_set e.2.1)) (index current))) = decode_store zone store0 k.
Proof.
  assert (NoDup ((map (λ e, (e.1, ob_record_set e.2.1)) (index current)).*1)) as Hnd.
  { rewrite <- list_fmap_compose. apply sorted_set_NoDup. apply btm_of_list_sorted. }
  assert (∀ r, btm_get k (btm_of_list (map (λ e, (e.1, ob_record_set e.2.1)) (index current))) = Some r ↔
    decode_store zone store0 k = Some r) as Hiff.
  { intros r. rewrite btm_of_list_get by done. rewrite list_elem_of_fmap. unfold decode_store.
    rewrite bind_Some. setoid_rewrite (li_entries _ _ _ Hl). split.
    - intros ([k' [o raw]]&Heq&Hin). simplify_eq/=.
      apply btm_get_elem in Hin; [|apply btm_of_list_sorted].
      apply (index_get zone _ store0) in Hin as [Hin Hk]; [|done]. exists raw. split; [eauto|].
      unfold decode_raw. by rewrite (li_mapped _ _ _ Hl _ _ Hin).
    - intros (raw&(o&Hin&Hk)&Hd). unfold decode_raw in Hd. rewrite (li_mapped _ _ _ Hl _ _ Hin) in Hd.
      simplify_eq. exists (rs_key (ob_record_set o), (o, raw)). split; [done|].
      apply btm_get_elem; [apply btm_of_list_sorted|]. by apply (index_get zone _ store0). }
  destruct (btm_get k _) as [r|] eqn:E1; [symmetry; by apply Hiff|].
  destruct (decode_store zone store0 k) as [r|] eqn:E2; [|done].
  pose proof (proj2 (Hiff r) eq_refl). congruence.
Qed.
End step.
End provider.

(** The record sets of an inventory with an owner, or in a group, of a batch. *)
Definition inventory_consistent (f : DnsRecordSetKey → option ProviderDnsRecordSet)
    (changes : list DnsRecordChange) : Prop :=
  (∀ c a b ka kb, c ∈ changes → f ka = Some a → f kb = Some b →
     rs_owner a = key_owner (change_key c) → rs_owner b = key_owner (change_key c) →
     rs_type a = TCname → rs_type b = TCname) ∧
  (∀ c, c ∈ changes → ∃ ms, resultant_group_ok ms ∧ NoDup ms ∧
     ∀ r, r ∈ ms ↔ (∃ k, f k = Some r) ∧
       group_key r = (key_owner (change_key c), key_record_type (change_key c))).

Section theorem.
Context `{Idna, RecordDigest}.

Lemma decode_key zone store k r : store_ok zone store → decode_store zone store k = Some r → rs_key r = k.
Proof.
  intros Hok. unfold decode_store. rewrite bind_Some. intros (raw&Hg&Hd).
  destruct (so_keys _ _ Hok k raw Hg) as (r'&Hr'&Hk). congruence.
Qed.

(** The values of a map whose keys are the values' own. *)
Lemma values_NoDup (m : list (DnsRecordSetKey * ProviderDnsRecordSet)) :
  sorted_map m → (∀ k r, btm_get k m = Some r → rs_key r = k) → NoDup (m.*2).
Proof.
  intros Hs Hk. assert (m.*1 = rs_key <$> m.*2) as Heq.
  { rewrite <- list_fmap_compose. apply list_fmap_ext. intros i [k r] Hi. simpl. symmetry. apply Hk.
    apply btm_get_elem; [done|]. by apply list_elem_of_lookup_2 in Hi. }
  apply (NoDup_fmap_1 rs_key). rewrite <- Heq. by apply sorted_set_NoDup.
Qed.

Lemma resultant_consistent zone store resultant owners groups changes :
  sorted_map resultant → store_ok zone store →
  (∀ k, btm_get k resultant = decode_store zone store k) →
  (∀ c, c ∈ changes → key_owner (change_key c) ∈ owners) →
  (∀ c, c ∈ changes → (key_owner (change_key c), key_record_type (change_key c)) ∈ groups) →
  validate_resultant_inventory resultant owners groups = Ok tt →
  inventory_consistent (decode_store zone store) changes.
Proof.
  intros Hs Hok Hres Ho Hg Hv. unfold validate_resultant_inventory in Hv.
  destruct (existsb _ owners) eqn:Eo; [done|].
  assert (∀ k r, decode_store zone store k = Some r → r ∈ resultant.*2) as Hin.
  { intros k r. rewrite <- Hres, <- btm_get_elem by done. intros Hkr. apply list_elem_of_fmap.
    by exists (k, r). }
  split.
  - intros c a b ka kb Hc Ha%Hin Hb%Hin Hoa Hob.
    pose proof (existsb_false_forall _ _ _ Eo (Ho c Hc)) as Hcf.
    by apply (owner_conflict_false _ _ Hcf a b).
  - intros c Hc. eexists. split; [apply check_group_Ok; by eapply check_groups_of_Ok; [|apply Hg]|].
    split.
    + apply NoDup_filter. apply values_NoDup; [done|]. intros k r. rewrite Hres. by apply decode_key.
    + intros r. unfold members. rewrite list_elem_of_filter. split; [|naive_solver].
      intros [Hgr ([k r']&->&Hkr)%list_elem_of_fmap]. split; [|done]. exists k. simpl.
      rewrite <- Hres. by apply btm_get_elem.
Qed.

(** Every inventory that was mapped without duplicate identities lists a store. *)
Definition store_of (current : list (ObservedDnsRecordSet * Route53RecordSet)) : Store :=
  btm_of_list (map (λ e, (rs_key (ob_record_set e.1), e.2)) current).

Lemma listing_store_of zone current :
  NoDup (map (λ e, rs_key (ob_record_set e.1)) current) →
  Forall (λ e, map_record_set zone e.2 = Ok (ob_record_set e.1, ob_revision e.1)) current →
  listing zone current (store_of current).
Proof.
  intros Hn Hm. rewrite Forall_forall in Hm.
  assert (∀ k raw, btm_get k (store_of current) = Some raw ↔
    ∃ o, (o, raw) ∈ current ∧ rs_key (ob_record_set o) = k) as Hget.
  { intros k raw. unfold store_of. rewrite btm_of_list_get by (by rewrite <- list_fmap_compose).
    rewrite list_elem_of_fmap. split.
    - intros ([o raw']&Heq&Hin). simplify_eq/=. eauto.
    - intros (o&Hin&<-). by exists (o, raw). }
  split; [split|done| |done].
  - apply btm_of_list_sorted.
  - intros k raw (o&Hin&Hk)%Hget. exists (ob_record_set o). split; [|done].
    unfold decode_raw. apply Hm in Hin. simpl in Hin. by rewrite Hin.
  - intros o raw Hin. apply (Hm _ Hin).
Qed.

(** The plan against the store it was made from. *)
Lemma plan_refines (zone : DnsZoneRef) (changes : list DnsRecordChange)
    (current : list (ObservedDnsRecordSet * Route53RecordSet)) (store : Store)
    (request : list Route53RecordChange) :
  validate_dns_changes zone changes = Ok tt → listing zone current store →
  plan_change_batch zone changes current = Ok request →
  Forall (guard_holds current) changes ∧ (1 <= zlen request <= MAX_PROVIDER_CHANGE_ACTIONS)%Z ∧
  ∃ store', provider_apply zone store request = Some store' ∧
    (∀ k, decode_store zone store' k = apply_changes (decode_store zone store) changes k) ∧
    inventory_consistent (decode_store zone store') changes.
Proof.
  intros Hb%validate_dns_changes_iff Hl Hp. unfold plan_change_batch in Hp. fold (index current) in Hp.
  destruct (plan_changes _ _ _ _) as [s|] eqn:Es; [|done].
  destruct (validate_resultant_inventory _ _ _) as [[]|] eqn:Ev; [|done].
  destruct ((zlen (pl_request s) =? 0)%Z || _) eqn:En; [done|].
  destruct (validate_change_request _); [|done]. injection Hp as <-.
  apply (plan_changes_refine zone current store Hl changes store) in Es
    as (acts&store'&Hreq&Hap&[Hs Hok]&Hres&Hdec&Hgu&Ho&Hg).
  - simpl in Hreq. rewrite Hreq in *. apply orb_false_iff in En as [En1 En2].
    split_and!; [done|unfold zlen in *; lia|lia|]. exists store'. split_and!; [done|done|].
    eapply resultant_consistent; [done|done|done| | |done]; intros c Hc; [apply Ho|apply Hg]; eauto.
  - apply (bo_changes _ _ Hb).
  - apply (bo_keys _ _ Hb).
  - apply (li_store _ _ _ Hl).
  - done.
  - simpl. by apply initial_resultant.
  - apply btm_of_list_sorted.
Qed.
(** C2.  Planning refines the abstract change: for a valid batch and the complete
    listing of a provider store, if a request is planned then every guard holds of
    that listing, the provider accepts the request action by action, and the
    record sets it then holds are those the changes ask for and nothing else
    changes; in that inventory no affected owner has a CNAME beside another type
    and every affected routing group is consistent.  The request has between one
    and a thousand actions. *)
Theorem route53_plan_refines (zone : DnsZoneRef) (changes : list DnsRecordChange)
    (current : list (ObservedDnsRecordSet * Route53RecordSet)) (store : Store)
    (request : list Route53RecordChange) :
  validate_dns_changes zone changes = Ok tt → listing zone current store →
  plan_change_batch zone changes current = Ok request →
  Forall (guard_holds current) changes ∧ (1 <= zlen request <= MAX_PROVIDER_CHANGE_ACTIONS)%Z ∧
  ∃ store', provider_apply zone store request = Some store' ∧
    (∀ k, decode_store zone store' k = apply_changes (decode_store zone store) changes k) ∧
    inventory_consistent (decode_store zone store') changes.
Proof. apply plan_refines. Qed.
End theorem.

(** ** A weighted record is replaced *)

Definition demo_txt_20 : ProviderDnsRecordSet :=
  mkRecordSet (rs_key demo_txt) (Seconds 60) [VTxt [[98]]]%Z
    (Some (ExtRoute53 None (Some (Weighted 20)) (Some "hc-1"))).
Definition demo_raw : Route53RecordSet :=
  match @render_record_set demo_idna demo_digest demo_zone demo_txt with
  | Ok raw => raw
  | Err _ => mkRaw "" "" None [] None None None None None None None None None false false
  end.
Definition demo_observed : ObservedDnsRecordSet := mkObserved demo_zone demo_txt [] "sha256:ZGlnZXN0".
Definition demo_changes : list DnsRecordChange :=
  [ReplaceChange demo_observed demo_txt_20 (MatchObserved "sha256:ZGlnZXN0")].
Definition demo_request : list Route53RecordChange :=
  match @plan_change_batch demo_idna demo_digest demo_zone demo_changes [(demo_observed, demo_raw)] with
  | Ok request => request
  | Err _ => []
  end.

Lemma route53_plan_refines_witness :
  zlen demo_request = 2%Z ∧
  ∃ store', @provider_apply demo_idna demo_digest demo_zone
      (store_of [(demo_observed, demo_raw)]) demo_request = Some store' ∧
    @decode_store demo_idna demo_digest demo_zone store' (rs_key demo_txt) = Some demo_txt_20.
Proof.
  split; [vm_compute; reflexivity|].
  destruct (@route53_plan_refines demo_idna demo_digest demo_zone demo_changes
    [(demo_observed, demo_raw)] (store_of [(demo_observed, demo_raw)]) demo_request)
    as (_&_&store'&Ha&Hd&_).
  - vm_compute. reflexivity.
  - apply listing_store_of; [apply NoDup_singleton|]. apply Forall_singleton. vm_compute. reflexivity.
  - vm_compute. reflexivity.
  - exists store'. split; [exact Ha|]. rewrite Hd. vm_compute. reflexivity.
Defined.
