(* ===== verification/Route53Adapter.v ===== *)
(** * Route53Adapter: the DNS provider port on Route 53

    [crates/center-adapter-route53/src/lib.rs]: authenticated tokens, local
    pagination of a complete inventory, zone and record inventories collected
    page by page, and the guarded submission and observation of a change.  The
    Route 53 API is the port [r53_call]; HMAC, SHA-256, base64 and the JSON
    codecs are parameters with the laws the code relies on. *)

From Stdlib Require Import ZArith Ascii String Lia.
From S2P Require Import Prelude Text Codec Core Effects BTree NetAddr Dns DnsChange ProviderErrors RecordValues Tokens Route53Model Route53Plan.

Definition HOSTED_ZONE_PAGE_SIZE : Z := 100.
Definition RECORD_PAGE_SIZE : Z := 300.
Definition MAX_PROVIDER_PAGES : nat := Z.to_nat 10000.
Definition MAX_INVENTORY_ZONES : Z := 10000.
Definition MAX_INVENTORY_RECORDS : Z := 100000.

(** ** Tokens *)

Definition Route53CursorKey_new (key : string) : DnsProviderResult string :=
  if weak_key key then Err (validation "weak_route53_cursor_key") else Ok key.
Definition Route53MutationReceiptKey_new (key : string) : DnsProviderResult string :=
  if weak_key key then Err (validation "weak_route53_mutation_receipt_key") else Ok key.
Definition Route53LifecycleTokenKey_new (key : string) : DnsProviderResult string :=
  if weak_key key then Err (validation "weak_route53_lifecycle_token_key") else Ok key.

Inductive TokenDomain := InventoryCursor | MutationReceipt | LifecycleDomain.
Definition separator (domain : TokenDomain) : string :=
  match domain with
  | InventoryCursor => "edgion-center/route53/inventory-cursor/v1"
  | MutationReceipt => "edgion-center/route53/mutation-receipt/v1"
  | LifecycleDomain => "edgion-center/route53/lifecycle-token/v1"
  end +:+ String (ascii_of_N 0) EmptyString.

Section tokens.
Context `{Crypto} {T : Type} `{TokenCodec T}.

Definition sign_token (value : T) (key : string) (domain : TokenDomain) : string :=
  let encoded := to_json value in
  b64_encode (encoded +:+ hmac_sha256 key (separator domain +:+ encoded)).

Definition verify_token (value key : string) (domain : TokenDomain) : DnsProviderResult T :=
  let invalid := validation "invalid_route53_token" in
  let? authenticated := ok_or invalid (b64_decode value) in
  if (str_len authenticated <=? 32)%Z then Err invalid
  else
    let? parts := ok_or invalid (str_split_at (String.length authenticated - 32) authenticated) in
    if String.eqb parts.2 (hmac_sha256 key (separator domain +:+ parts.1))
    then ok_or invalid (from_json parts.1) else Err invalid.

(** A signed token verifies to the value it was made from; and a token verifies
    only if it carries the code of its body under the key and the domain. *)
Lemma verify_sign `{!CryptoLaws, !TokenCodecLaws T} value key domain :
  verify_token (sign_token value key domain) key domain = Ok value.
Proof.
  pose proof (json_nonempty value) as Hne. unfold verify_token, sign_token. rewrite b64_roundtrip. simpl.
  set (e := to_json value) in *. set (h := hmac_sha256 key _).
  assert (String.length h = 32) as Hh by apply hmac_len.
  assert ((str_len (e +:+ h) <=? 32)%Z = false) as ->.
  { apply Z.leb_gt. unfold str_len. rewrite str_len_app, Hh. destruct e; [done|]. simpl. lia. }
  rewrite (str_split_at_app _ e h) by (rewrite str_len_app, Hh; lia). simpl.
  fold h. rewrite String.eqb_refl. unfold e. by rewrite json_roundtrip.
Qed.

Lemma verify_token_authentic value key domain v :
  verify_token value key domain = Ok v →
  ∃ encoded, b64_decode value = Some (encoded +:+ hmac_sha256 key (separator domain +:+ encoded)) ∧
    from_json encoded = Some v.
Proof.
  unfold verify_token. destruct (b64_decode value) as [a|]; [|done]. simpl.
  destruct (str_len a <=? 32)%Z; [done|].
  destruct (str_split_at _ a) as [[e h]|] eqn:Es; [|done]. simpl.
  destruct (String.eqb_spec h (hmac_sha256 key (separator domain +:+ e))) as [->|]; [|done].
  destruct (from_json e) as [w|] eqn:Ej; [|done]. intros [= ->].
  apply str_split_at_Some in Es as [-> _]. by exists e.
Qed.
End tokens.

(** ** Local pagination *)

Inductive CursorMethod := MZones | MRecords (zone_id : string).
#[export] Instance CursorMethod_eq_dec : EqDecision CursorMethod.
Proof. solve_decision. Defined.
Record CursorScope := mkScope {
  sc_center_account_id : string;
  sc_aws_account_id : string;
  sc_method : CursorMethod;
}.
#[export] Instance CursorScope_eq_dec : EqDecision CursorScope.
Proof. solve_decision. Defined.
Record CursorToken := mkCursorToken {
  ct_version : Z;                            (* u8 *)
  ct_scope : CursorScope;
  ct_offset : Z;                             (* usize *)
  ct_inventory_digest : string;
}.

Section paginate.
Context `{Crypto, TokenCodec CursorToken} {T : Type} (digest : list T → string).

Definition page_offset (items : list T) (token : option string) (scope : CursorScope) (key : string) :
    DnsProviderResult Z :=
  match token with
  | None => Ok 0%Z
  | Some token =>
      let? decoded := or_invalid "invalid_route53_page_token"
                        (verify_token (T := CursorToken) token key InventoryCursor) in
      if negb (ct_version decoded =? 1)%Z || negb (bool_decide (ct_scope decoded = scope))
         || (zlen items <=? ct_offset decoded)%Z
      then Err (validation "invalid_route53_page_token")
      else if negb (String.eqb (ct_inventory_digest decoded) (digest items))
      then Err (validation "route53_inventory_changed")
      else Ok (ct_offset decoded)
  end.

Definition next_token (items : list T) (end_ : Z) (scope : CursorScope) (key : string) :
    DnsProviderResult (option string) :=
  if (end_ <? zlen items)%Z then
    let? token := or_invalid "route53_page_token_encoding_failed"
      (DnsPageToken_new (sign_token (mkCursorToken 1 scope end_ (digest items)) key InventoryCursor)) in
    Ok (Some token)
  else Ok None.

Definition paginate (items : list T) (page : DnsPageRequest) (scope : CursorScope) (key : string) :
    DnsProviderResult (DnsPage T) :=
  let? offset := page_offset items (pr_token page) scope key in
  let end_ := Z.min (u64_saturating_add offset (pr_limit page)) (zlen items) in
  let? next := next_token items end_ scope key in
  let result := mkPage (slice items offset end_) next in
  let? _ := or_invalid "invalid_route53_page" (DnsPage_validate result (pr_limit page) (λ _, Ok tt)) in
  Ok result.

(** A client that follows the tokens, with at most [n] requests. *)
Fixpoint walk (n : nat) (items : list T) (limit : Z) (token : option string) (scope : CursorScope)
    (key : string) : option (list T) :=
  match n with
  | O => None
  | S n =>
      match paginate items {| pr_limit := limit; pr_token := token |} scope key with
      | Err _ => None
      | Ok page =>
          match pg_next page with
          | None => Some (pg_items page)
          | Some next => rest ← walk n items limit (Some next) scope key; Some (pg_items page ++ rest)
          end
      end
  end.
End paginate.

Section pagination_laws.
Context `{CryptoLaws, TokenCodecLaws CursorToken} {T : Type} (digest : list T → string).
Context (items : list T) (limit : Z) (scope : CursorScope) (key : string).
Hypothesis Hlimit : (1 <= limit <= MAX_PAGE_SIZE)%Z.
Hypothesis Hlen : (zlen items <= U64_MAX)%Z.

(** The page token at an offset, and that it fits the bound on tokens. *)
Definition token_at (offset : Z) : string :=
  sign_token (mkCursorToken 1 scope offset (digest items)) key InventoryCursor.
Definition tokens_fit : Prop :=
  ∀ offset, (0 <= offset < zlen items)%Z → text_invalid MAX_PAGE_TOKEN_LEN (token_at offset) = false.
Hypothesis Hfit : tokens_fit.

Definition page_end (offset : Z) : Z := Z.min (offset + limit) (zlen items).
Definition next_at (offset : Z) : option string :=
  if (page_end offset <? zlen items)%Z then Some (token_at (page_end offset)) else None.

Lemma slice_length offset :
  (0 <= offset <= zlen items)%Z →
  zlen (slice items offset (page_end offset)) = (page_end offset - offset)%Z.
Proof.
  intros Ho. unfold slice, page_end, zlen in *. rewrite length_take, length_drop. lia.
Qed.

Lemma paginate_at token offset :
  (0 <= offset <= zlen items)%Z → page_offset digest items token scope key = Ok offset →
  paginate digest items {| pr_limit := limit; pr_token := token |} scope key =
  Ok (mkPage (slice items offset (page_end offset)) (next_at offset)).
Proof.
  intros Ho Hp. unfold paginate. cbn [pr_token pr_limit]. rewrite Hp.
  assert (Z.min (u64_saturating_add offset limit) (zlen items) = page_end offset) as ->.
  { unfold u64_saturating_add, page_end. lia. }
  assert (next_token digest items (page_end offset) scope key = Ok (next_at offset)) as ->.
  { unfold next_token, next_at. destruct (Z.ltb_spec (page_end offset) (zlen items)) as [Hlt|]; [|done].
    fold (token_at (page_end offset)). unfold DnsPageToken_new.
    assert (0 <= page_end offset)%Z by (unfold page_end; lia).
    by rewrite (proj1 (opaque_id_Ok _ _ _ (Hfit (page_end offset) ltac:(lia)))). }
  unfold DnsPage_validate. cbn [pg_items pg_next]. rewrite slice_length by done.
  rewrite (proj2 (Z.eqb_neq limit 0)), (proj2 (Z.ltb_ge MAX_PAGE_SIZE limit)) by lia.
  rewrite (proj2 (Z.ltb_ge limit _)) by (unfold page_end; lia). cbn [orb].
  assert (validate_option DnsPageToken_validate (next_at offset) = Ok tt) as ->.
  { unfold next_at. destruct (Z.ltb_spec (page_end offset) (zlen items)) as [Hlt|]; [|done].
    assert (0 <= page_end offset)%Z by (unfold page_end; lia). cbn [validate_option].
    by apply opaque_id_Ok, Hfit. }
  assert (∀ l : list T, validate_all (λ _, Ok tt) l = Ok tt) as Hall by (by induction l).
  by rewrite Hall.
Qed.

Lemma page_offset_token offset :
  (0 <= offset < zlen items)%Z → page_offset digest items (Some (token_at offset)) scope key = Ok offset.
Proof.
  intros Ho. unfold page_offset, token_at. rewrite verify_sign. cbn [or_invalid map_err].
  cbn [ct_version ct_scope ct_offset ct_inventory_digest].
  rewrite bool_decide_eq_true_2 by done. rewrite (proj2 (Z.leb_gt (zlen items) offset)) by lia. cbn.
  by rewrite String.eqb_refl.
Qed.

Lemma walk_from n token offset :
  (0 <= offset <= zlen items)%Z → page_offset digest items token scope key = Ok offset →
  (zlen items - offset < Z.of_nat n)%Z →
  walk digest n items limit token scope key = Some (drop (Z.to_nat offset) items).
Proof.
  revert token offset. induction n as [|n IH]; intros token offset Ho Hp Hn; [lia|].
  cbn [walk]. rewrite (paginate_at token offset) by done. cbn [pg_next pg_items]. unfold next_at.
  destruct (Z.ltb_spec (page_end offset) (zlen items)) as [Hlt|Hge].
  - assert (page_end offset = offset + limit)%Z as He by (unfold page_end in *; lia).
    rewrite (IH _ (page_end offset)); [|lia|apply page_offset_token; lia|lia]. simpl. f_equal.
    unfold slice. rewrite He. replace (Z.to_nat (offset + limit - offset)) with (Z.to_nat limit) by lia.
    replace (Z.to_nat (offset + limit)) with (Z.to_nat offset + Z.to_nat limit) by lia.
    rewrite <- drop_drop. apply take_drop.
  - f_equal. unfold slice. apply take_ge. rewrite length_drop. unfold page_end, zlen in *. lia.
Qed.

(** Tokens are bound to the scope and the inventory they were issued for. *)
Lemma token_rejected offset other scope' :
  (scope' ≠ scope ∨ digest other ≠ digest items) →
  ∃ code, paginate digest other {| pr_limit := limit; pr_token := Some (token_at offset) |} scope' key =
    Err (validation code).
Proof.
  intros Hne. unfold paginate, page_offset, token_at. cbn [pr_token]. rewrite verify_sign.
  cbn [or_invalid map_err]. cbn [ct_version ct_scope ct_offset ct_inventory_digest].
  destruct (decide (scope = scope')) as [<-|Hs].
  - rewrite bool_decide_eq_true_2 by done. cbn [Z.eqb negb orb Pos.eqb].
    destruct (zlen other <=? offset)%Z; [by eexists|].
    destruct (String.eqb_spec (digest items) (digest other)) as [He|]; [|by eexists].
    destruct Hne; congruence.
  - rewrite bool_decide_eq_false_2 by done. by eexists.
Qed.
End pagination_laws.

(** Pagination is complete and terminates: a client that follows the page
    tokens on an unchanged inventory gets the whole inventory, in order and
    without repetition, in at most one request more than there are items,
    whatever page size between 1 and 1000 it asks for; and a token is rejected
    under any other account, zone or method, and when the inventory has
    changed. *)
Theorem route53_pagination_complete `{CryptoLaws, TokenCodecLaws CursorToken} {T : Type}
    (digest : list T → string) (items : list T) (limit : Z) (scope : CursorScope) (key : string) :
  (1 <= limit <= MAX_PAGE_SIZE)%Z → (zlen items <= U64_MAX)%Z →
  tokens_fit digest items scope key →
  walk digest (S (length items)) items limit None scope key = Some items ∧
  ∀ offset other scope', scope' ≠ scope ∨ digest other ≠ digest items →
    ∃ code, paginate digest other
      {| pr_limit := limit; pr_token := Some (token_at digest items scope key offset) |} scope' key =
      Err (validation code).
Proof.
  intros Hlimit Hlen Hfit. split.
  - rewrite (walk_from digest items limit scope key Hlimit Hlen Hfit _ None 0);
      [done|unfold zlen; lia|done|unfold zlen; lia].
  - intros offset other scope'. by apply token_rejected.
Qed.

(** ** The API port ([api.rs]) *)

Record Route53HostedZone := mkHostedZone {
  hz_id : string;
  hz_name : string;
  hz_private_zone : bool;
  hz_caller_reference : string;
  hz_resource_record_set_count : Z;          (* u64 *)
  hz_name_servers : list string;
  hz_has_linked_service : bool;
  hz_has_unsupported_features : bool;
}.
Record Route53HostedZonePage := mkZonePage {
  zp_items : list Route53HostedZone;
  zp_is_truncated : bool;
  zp_next_marker : option string;
}.
Record Route53RecordCursor := mkRecordCursor {
  cu_name : string;
  cu_record_type : string;
  cu_set_identifier : option string;
}.
#[export] Instance Route53RecordCursor_eq_dec : EqDecision Route53RecordCursor.
Proof. solve_decision. Defined.
Record Route53RecordPage := mkRecordPage {
  rp_items : list Route53RecordSet;
  rp_is_truncated : bool;
  rp_next : option Route53RecordCursor;
}.
Record Route53ChangeBatch := mkChangeBatch {
  cb_changes : list Route53RecordChange;
  cb_comment : string;
}.
Record Route53ChangeInfo := mkChangeInfo {
  ci_id : string;
  ci_status : string;
  ci_submitted_at_unix_seconds : Z;          (* i64 *)
  ci_comment : option string;
}.

Record Route53CreateHostedZoneRequest := mkCreateZone {
  cz_name : string;
  cz_caller_reference : string;
}.
Record Route53CreateHostedZoneResult := mkCreateZoneResult {
  czr_hosted_zone : Route53HostedZone;
  czr_change : Route53ChangeInfo;
}.
Record Route53KeySigningKey := mkKsk {
  ksk_status : string;
  ksk_ds_record : option string;
}.
Record Route53DnssecInfo := mkDnssecInfo {
  dn_serve_signature : string;
  dn_key_signing_keys : list Route53KeySigningKey;
}.

Inductive r53_call : Type → Type :=
| CreateHostedZone (request : Route53CreateHostedZoneRequest) :
    r53_call (DnsProviderResult Route53CreateHostedZoneResult)
| GetHostedZone (zone_id : string) : r53_call (DnsProviderResult (option Route53HostedZone))
| ListHostedZones (marker : option string) (max_items : Z) :
    r53_call (DnsProviderResult Route53HostedZonePage)
| ListRecordSets (zone_id : string) (cursor : option Route53RecordCursor) (max_items : Z) :
    r53_call (DnsProviderResult Route53RecordPage)
| ChangeRecordSets (zone_id : string) (batch : Route53ChangeBatch) :
    r53_call (DnsProviderResult Route53ChangeInfo)
| GetChange (change_id : string) : r53_call (DnsProviderResult (option Route53ChangeInfo))
| DeleteHostedZone (zone_id : string) : r53_call (DnsProviderResult Route53ChangeInfo)
| GetDnssec (zone_id : string) : r53_call (DnsProviderResult Route53DnssecInfo)
| EnableHostedZoneDnssec (zone_id : string) : r53_call (DnsProviderResult Route53ChangeInfo)
| DisableHostedZoneDnssec (zone_id : string) : r53_call (DnsProviderResult Route53ChangeInfo).

(** ** The adapter *)

Record Route53MutationReceiptVerifier := mkVerifier {
  vf_center_account_id : string;
  vf_aws_account_id : string;
  vf_key : string;
}.
Record Route53DnsAdapter := mkAdapter {
  ad_center_account_id : string;
  ad_aws_account_id : string;
  ad_cursor_key : string;
  ad_mutation_receipt_verifier : option Route53MutationReceiptVerifier;
  ad_lifecycle_token_key : option string;
}.

Record ChangeToken := mkChangeToken {
  tk_version : Z;                            (* u8 *)
  tk_center_scope : string;
  tk_external_scope : string;
  tk_zone_scope : string;
  tk_provider_change_id : string;
  tk_request_digest : string;
  tk_submitted_at_unix_seconds : Z;          (* i64 *)
  tk_guard : DnsGuardStrength;
}.

Definition normalize_change_id (value : string) : DnsProviderResult string :=
  let normalized := default value (strip_prefix "/change/" value) in
  if (str_len normalized <? 2)%Z || (64 <? str_len normalized)%Z
     || negb (starts_with_char "C" normalized)
     || negb (str_all (λ c, is_ascii_uppercase c || is_ascii_digit c) normalized)
     || str_mem slash normalized
  then Err (validation "invalid_route53_change_id") else Ok normalized.

Definition change_comment (request_digest : string) : string := "edgion:" +:+ request_digest.

Definition change_receipt (id status : string) (guard_strength : DnsGuardStrength) :
    DnsProviderResult DnsChangeReceipt :=
  let? state :=
    if String.eqb status "PENDING" then Ok (ChangePending, PropPending)
    else if String.eqb status "INSYNC" then Ok (ProviderCommitted, ProviderReportedApplied)
    else Err (validation "unsupported_route53_change_status") in
  let receipt := mkReceipt id state.1 AllOrNothing state.2 guard_strength in
  let? _ := or_invalid "invalid_route53_change_receipt" (DnsChangeReceipt_validate receipt) in
  Ok receipt.

Definition is_route53_record_type (value : string) : bool :=
  str_in value ["SOA"; "A"; "TXT"; "NS"; "CNAME"; "MX"; "NAPTR"; "PTR"; "SRV"; "SPF"; "AAAA"; "CAA";
    "DS"; "TLSA"; "SSHFP"; "SVCB"; "HTTPS"].

Definition validate_zone_page (page : Route53HostedZonePage) : DnsProviderResult () :=
  if (HOSTED_ZONE_PAGE_SIZE <? zlen (zp_items page))%Z
     || negb (eqb (zp_is_truncated page) (bool_decide (is_Some (zp_next_marker page))))
     || (zp_is_truncated page && (zlen (zp_items page) =? 0)%Z)
     || is_some_and (λ marker, is_empty marker || (64 <? str_len marker)%Z || has_control marker)
          (zp_next_marker page)
  then Err (validation "invalid_route53_zone_page") else Ok tt.

Definition validate_record_page (page : Route53RecordPage) : DnsProviderResult () :=
  if (RECORD_PAGE_SIZE <? zlen (rp_items page))%Z
     || negb (eqb (rp_is_truncated page) (bool_decide (is_Some (rp_next page))))
     || (rp_is_truncated page && (zlen (rp_items page) =? 0)%Z)
     || is_some_and (λ next,
          is_empty (cu_name next) || (1024 <? str_len (cu_name next))%Z
          || negb (is_ok (decode_domain_presentation (cu_name next)))
          || is_empty (cu_record_type next) || negb (is_route53_record_type (cu_record_type next))
          || has_control (cu_name next) || has_control (cu_record_type next)
          || is_some_and (λ identifier,
               is_empty identifier || (128 <? str_len identifier)%Z || has_control identifier)
               (cu_set_identifier next)) (rp_next page)
  then Err (validation "invalid_route53_record_page") else Ok tt.

Section adapter.
Context `{Idna, RecordDigest, Crypto, TokenCodec CursorToken, TokenCodec ChangeToken}.
Context (self : Route53DnsAdapter).

Definition scope_hash (value : string) : string := sha256_b64 value.

Definition mutation_receipt_verifier : DnsProviderResult Route53MutationReceiptVerifier :=
  ok_or (validation "route53_mutation_authority_unavailable") (ad_mutation_receipt_verifier self).

Definition map_zone (zone : Route53HostedZone) : DnsProviderResult ObservedDnsZone :=
  if hz_private_zone zone then Err (validation "route53_private_zone_unsupported")
  else if hz_has_linked_service zone then Err (validation "route53_linked_service_zone_unsupported")
  else if hz_has_unsupported_features zone then Err (validation "route53_zone_features_unsupported")
  else
    let? id := normalize_zone_id (hz_id zone) in
    let? zone_id := or_invalid "invalid_route53_zone_id" (DnsZoneId_new id) in
    let? apex := absolute_name (hz_name zone) "invalid_route53_zone_name" in
    Ok {| oz_zone := {| zr_provider_account_id := ad_center_account_id self; zr_provider := Aws;
                        zr_zone_id := zone_id; zr_apex := apex; zr_visibility := Public |};
          oz_revision := None |}.

Definition validate_zone_ref (zone : DnsZoneRef) : DnsProviderResult () :=
  let? _ := or_invalid "invalid_zone" (DnsZoneRef_validate zone) in
  let mismatch := Err (validation "route53_zone_scope_mismatch") in
  if negb (bool_decide (zr_provider zone = Aws))
     || negb (String.eqb (zr_provider_account_id zone) (ad_center_account_id self))
     || negb (bool_decide (zr_visibility zone = Public))
  then mismatch
  else
    let? normalized := normalize_zone_id (zr_zone_id zone) in
    if String.eqb normalized (zr_zone_id zone) then Ok tt else mismatch.

Definition scope (method : CursorMethod) : CursorScope :=
  mkScope (ad_center_account_id self) (ad_aws_account_id self) method.

(** *** Inventories *)

(** The loop over the zones of a page. *)
Fixpoint absorb_zones (items : list Route53HostedZone) (seen_ids : list string)
    (zones : list ObservedDnsZone) : DnsProviderResult (list string * list ObservedDnsZone) :=
  match items with
  | [] => Ok (seen_ids, zones)
  | zone :: items =>
      if hz_private_zone zone then absorb_zones items seen_ids zones
      else
        let? mapped := map_zone zone in
        let id := zr_zone_id (oz_zone mapped) in
        if bool_decide (id ∈ seen_ids) then Err (validation "duplicate_route53_zone_id")
        else
          let zones := zones ++ [mapped] in
          if (MAX_INVENTORY_ZONES <? zlen zones)%Z
          then Err (validation "route53_zone_inventory_limit")
          else absorb_zones items (bts_insert id seen_ids) zones
  end.

Fixpoint zones_loop (n : nat) (marker : option string) (seen_markers seen_ids : list string)
    (zones : list ObservedDnsZone) : prog r53_call (DnsProviderResult (list ObservedDnsZone)) :=
  match n with
  | O => Ret (Err (validation "route53_zone_pagination_limit"))
  | S n =>
      page <~ ListHostedZones marker HOSTED_ZONE_PAGE_SIZE ;;
      try? page := page in
      try? absorbed := (let? _ := validate_zone_page page in
                        absorb_zones (zp_items page) seen_ids zones) in
      match zp_next_marker page with
      | None => Ret (Ok (sort_by (λ z, zr_zone_id (oz_zone z)) absorbed.2))
      | Some next =>
          if bool_decide (marker = Some next) || bool_decide (next ∈ seen_markers)
          then Ret (Err (validation "route53_zone_pagination_loop"))
          else zones_loop n (Some next) (bts_insert next seen_markers) absorbed.1 absorbed.2
      end
  end.
Definition all_zones : prog r53_call (DnsProviderResult (list ObservedDnsZone)) :=
  zones_loop MAX_PROVIDER_PAGES None [] [] [].

(** The loop over the record sets of a page. *)
Fixpoint absorb_records (zone : DnsZoneRef) (items : list Route53RecordSet)
    (seen_keys : list DnsRecordSetKey) (records : list (ObservedDnsRecordSet * Route53RecordSet)) :
    DnsProviderResult (list DnsRecordSetKey * list (ObservedDnsRecordSet * Route53RecordSet)) :=
  match items with
  | [] => Ok (seen_keys, records)
  | record :: items =>
      let? mapped := map_record_set zone record in
      let key := rs_key mapped.1 in
      if bool_decide (key ∈ seen_keys) then Err (validation "duplicate_route53_record_identity")
      else
        let records := records ++ [(mkObserved zone mapped.1 [] mapped.2, record)] in
        if (MAX_INVENTORY_RECORDS <? zlen records)%Z
        then Err (validation "route53_record_inventory_limit")
        else absorb_records zone items (bts_insert key seen_keys) records
  end.

Fixpoint records_loop (n : nat) (zone : DnsZoneRef) (cursor : option Route53RecordCursor)
    (seen_cursors : list Route53RecordCursor) (seen_keys : list DnsRecordSetKey)
    (records : list (ObservedDnsRecordSet * Route53RecordSet)) :
    prog r53_call (DnsProviderResult (list (ObservedDnsRecordSet * Route53RecordSet))) :=
  match n with
  | O => Ret (Err (validation "route53_record_pagination_limit"))
  | S n =>
      page <~ ListRecordSets (zr_zone_id zone) cursor RECORD_PAGE_SIZE ;;
      try? page := page in
      try? absorbed := (let? _ := validate_record_page page in
                        absorb_records zone (rp_items page) seen_keys records) in
      match rp_next page with
      | None => Ret (Ok (sort_by (λ e, rs_key (ob_record_set e.1)) absorbed.2))
      | Some next =>
          if bool_decide (cursor = Some next) || bool_decide (next ∈ seen_cursors)
          then Ret (Err (validation "route53_record_pagination_loop"))
          else records_loop n zone (Some next) (next :: seen_cursors) absorbed.1 absorbed.2
      end
  end.

Definition all_records_with_raw (zone : DnsZoneRef) :
    prog r53_call (DnsProviderResult (list (ObservedDnsRecordSet * Route53RecordSet))) :=
  try? _ := validate_zone_ref zone in
  provider_zone <~ GetHostedZone (zr_zone_id zone) ;;
  try? provider_zone := provider_zone in
  try? provider_zone := ok_or (not_found "route53_zone_not_found") provider_zone in
  try? mapped := map_zone provider_zone in
  if negb (bool_decide (oz_zone mapped = zone))
  then Ret (Err (validation "route53_zone_identity_mismatch"))
  else records_loop MAX_PROVIDER_PAGES zone None [] [] [].

Definition all_records (zone : DnsZoneRef) :
    prog r53_call (DnsProviderResult (list ObservedDnsRecordSet)) :=
  pbind (all_records_with_raw zone) (λ records,
    try? records := records in Ret (Ok (records.*1))).

(** *** Receipts *)

Definition decode_scope (verifier : Route53MutationReceiptVerifier) (account_id zone_id change_id : string) :
    DnsProviderResult ChangeToken :=
  let absent := not_found "route53_change_not_found" in
  let? _ := map_err (λ _, absent) (CloudResourceId_validate account_id) in
  let? _ := map_err (λ _, absent) (DnsZoneId_validate zone_id) in
  let? _ := map_err (λ _, absent) (DnsChangeId_validate change_id) in
  let? token := map_err (λ _, absent)
                  (verify_token (T := ChangeToken) change_id (vf_key verifier) MutationReceipt) in
  if negb (tk_version token =? 1)%Z
     || negb (String.eqb account_id (vf_center_account_id verifier))
     || negb (bool_decide (normalize_zone_id zone_id = Ok zone_id))
     || negb (String.eqb (tk_center_scope token) (scope_hash account_id))
     || negb (String.eqb (tk_external_scope token) (scope_hash (vf_aws_account_id verifier)))
     || negb (String.eqb (tk_zone_scope token) (scope_hash zone_id))
     || negb (bool_decide (tk_guard token = Atomic))
     || negb (bool_decide (normalize_change_id (tk_provider_change_id token) =
                           Ok (tk_provider_change_id token)))
  then Err absent else Ok token.

Definition validate_scope (verifier : Route53MutationReceiptVerifier) (account_id zone_id change_id : string) :
    DnsProviderResult () :=
  let? _ := decode_scope verifier account_id zone_id change_id in Ok tt.

Definition build_change_receipt (zone : DnsZoneRef) (provider_change_id request_digest : string)
    (submitted_at : Z) (status : string) : DnsProviderResult DnsChangeReceipt :=
  let token := mkChangeToken 1 (scope_hash (ad_center_account_id self))
                 (scope_hash (ad_aws_account_id self)) (scope_hash (zr_zone_id zone))
                 provider_change_id request_digest submitted_at Atomic in
  let? verifier := mutation_receipt_verifier in
  let? id := map_err (λ _, unknown_outcome "route53_receipt_encoding_failed")
               (DnsChangeId_new (sign_token token (vf_key verifier) MutationReceipt)) in
  map_err (λ _, unknown_outcome "invalid_route53_change_status") (change_receipt id status Atomic).

Definition decode_change_receipt (zone : DnsZoneRef) (change_id : string) : DnsProviderResult ChangeToken :=
  let? _ := validate_zone_ref zone in
  let? verifier := mutation_receipt_verifier in
  decode_scope verifier (zr_provider_account_id zone) (zr_zone_id zone) change_id.

Definition validate_change_receipt_scope (account_id zone_id change_id : string) : DnsProviderResult () :=
  let? verifier := mutation_receipt_verifier in validate_scope verifier account_id zone_id change_id.

(** *** The port *)

Context (zones_digest : list ObservedDnsZone → string)
        (records_digest : list ObservedDnsRecordSet → string)
        (request_digest_of : list Route53RecordChange → string).

Definition get_zone (zone : DnsZoneRef) : prog r53_call (DnsProviderResult (option ObservedDnsZone)) :=
  try? _ := validate_zone_ref zone in
  provider_zone <~ GetHostedZone (zr_zone_id zone) ;;
  try? provider_zone := provider_zone in
  match provider_zone with
  | None => Ret (Ok None)
  | Some provider_zone =>
      try? observed := map_zone provider_zone in
      if negb (bool_decide (oz_zone observed = zone))
      then Ret (Err (validation "route53_zone_identity_mismatch")) else Ret (Ok (Some observed))
  end.

Definition observe_zone_by_id (account_id zone_id : string) :
    prog r53_call (DnsProviderResult (option ObservedDnsZone)) :=
  try? _ := or_invalid "invalid_account" (CloudResourceId_validate account_id) in
  try? _ := or_invalid "invalid_route53_zone_id" (DnsZoneId_validate zone_id) in
  if negb (String.eqb account_id (ad_center_account_id self))
  then Ret (Err (validation "route53_zone_scope_mismatch"))
  else
    try? normalized := normalize_zone_id zone_id in
    if negb (String.eqb normalized zone_id)
    then Ret (Err (validation "route53_zone_scope_mismatch"))
    else
      raw_zone <~ GetHostedZone zone_id ;;
      try? raw_zone := raw_zone in
      match raw_zone with
      | None => Ret (Ok None)
      | Some raw_zone =>
          try? observed := map_zone raw_zone in
          if negb (String.eqb (zr_provider_account_id (oz_zone observed)) account_id)
             || negb (String.eqb (zr_zone_id (oz_zone observed)) zone_id)
          then Ret (Err (validation "route53_zone_identity_mismatch")) else Ret (Ok (Some observed))
      end.

Definition list_zones (account : string) (page : DnsPageRequest) :
    prog r53_call (DnsProviderResult (DnsPage ObservedDnsZone)) :=
  try? _ := or_invalid "invalid_account" (CloudResourceId_validate account) in
  try? _ := or_invalid "invalid_page" (DnsPageRequest_validate page) in
  if negb (String.eqb account (ad_center_account_id self))
  then Ret (Err (validation "route53_account_scope_mismatch"))
  else pbind all_zones (λ zones, try? zones := zones in
    Ret (paginate zones_digest zones page (scope MZones) (ad_cursor_key self))).

Definition get_record_set (zone : DnsZoneRef) (key : DnsRecordSetKey) :
    prog r53_call (DnsProviderResult (option ObservedDnsRecordSet)) :=
  try? _ := or_invalid "invalid_record_key" (DnsRecordSetKey_validate key) in
  pbind (all_records zone) (λ records, try? records := records in
    Ret (Ok (head (base.filter (λ r, rs_key (ob_record_set r) = key) records)))).

Definition list_record_sets (zone : DnsZoneRef) (page : DnsPageRequest) :
    prog r53_call (DnsProviderResult (DnsPage ObservedDnsRecordSet)) :=
  try? _ := validate_zone_ref zone in
  try? _ := or_invalid "invalid_page" (DnsPageRequest_validate page) in
  pbind (all_records zone) (λ records, try? records := records in
    Ret (paginate records_digest records page (scope (MRecords (zr_zone_id zone))) (ad_cursor_key self))).

(** What [apply_record_changes] does with the answer to its request. *)
Definition accept_change (zone : DnsZoneRef) (minimum_guard : DnsGuardStrength)
    (request : Route53ChangeBatch) (request_digest : string) (result : Route53ChangeInfo) :
    DnsProviderResult DnsChangeReceipt :=
  let? provider_change_id :=
    map_err (λ _, unknown_outcome "invalid_route53_change_response") (normalize_change_id (ci_id result)) in
  if (ci_submitted_at_unix_seconds result <? 0)%Z
     || negb (bool_decide (ci_comment result = Some (cb_comment request)))
  then Err (unknown_outcome "invalid_route53_change_response")
  else
    let? receipt := build_change_receipt zone provider_change_id request_digest
                      (ci_submitted_at_unix_seconds result) (ci_status result) in
    let? _ := map_err (λ _, unknown_outcome "invalid_route53_change_receipt")
                (validate_against_request receipt minimum_guard) in
    Ok receipt.

Definition change_batch (changes : list Route53RecordChange) : Route53ChangeBatch :=
  mkChangeBatch changes (change_comment (request_digest_of changes)).

Definition apply_record_changes (zone : DnsZoneRef) (changes : list DnsRecordChange)
    (minimum_guard : DnsGuardStrength) : prog r53_call (DnsProviderResult DnsChangeReceipt) :=
  try? _ := mutation_receipt_verifier in
  try? _ := validate_zone_ref zone in
  try? _ := or_invalid "invalid_dns_changes" (validate_dns_changes zone changes) in
  pbind (all_records_with_raw zone) (λ current,
    try? current := current in
    try? changes := plan_change_batch zone changes current in
    let request := change_batch changes in
    result <~ ChangeRecordSets (zr_zone_id zone) request ;;
    try? result := result in
    Ret (accept_change zone minimum_guard request (request_digest_of changes) result)).

Definition observe_change (zone : DnsZoneRef) (change_id : string) :
    prog r53_call (DnsProviderResult DnsChangeReceipt) :=
  try? _ := mutation_receipt_verifier in
  try? _ := validate_zone_ref zone in
  try? token := decode_change_receipt zone change_id in
  result <~ GetChange (tk_provider_change_id token) ;;
  try? result := result in
  try? result := ok_or (not_found "route53_change_not_found") result in
  try? returned_id := or_invalid "invalid_route53_change_response" (normalize_change_id (ci_id result)) in
  if negb (String.eqb returned_id (tk_provider_change_id token))
  then Ret (Err (validation "route53_change_identity_mismatch"))
  else if negb (ci_submitted_at_unix_seconds result =? tk_submitted_at_unix_seconds token)%Z
          || negb (bool_decide (ci_comment result = Some (change_comment (tk_request_digest token))))
  then Ret (Err (validation "route53_change_metadata_mismatch"))
  else Ret (change_receipt change_id (ci_status result) (tk_guard token)).
End adapter.

(** ** What a run does

    The API may answer anything; a run is known by the trace of its calls and their
    answers. *)

Abbreviation r53_event := (event r53_call).

Inductive mutation :=
| SentChanges (zone_id : string) (batch : Route53ChangeBatch) (answer : DnsProviderResult Route53ChangeInfo)
| SentCreate (request : Route53CreateHostedZoneRequest)
    (answer : DnsProviderResult Route53CreateHostedZoneResult)
| SentDelete (zone_id : string) (answer : DnsProviderResult Route53ChangeInfo)
| SentEnableDnssec (zone_id : string) (answer : DnsProviderResult Route53ChangeInfo)
| SentDisableDnssec (zone_id : string) (answer : DnsProviderResult Route53ChangeInfo).
Definition log_of {X} (e : r53_call X) : X → list mutation :=
  match e with
  | ChangeRecordSets zone_id batch => λ x, [SentChanges zone_id batch x]
  | CreateHostedZone request => λ x, [SentCreate request x]
  | DeleteHostedZone zone_id => λ x, [SentDelete zone_id x]
  | EnableHostedZoneDnssec zone_id => λ x, [SentEnableDnssec zone_id x]
  | DisableHostedZoneDnssec zone_id => λ x, [SentDisableDnssec zone_id x]
  | GetHostedZone _ | ListHostedZones _ _ | ListRecordSets _ _ _ | GetChange _ | GetDnssec _ => λ _, []
  end.
Definition mutations (t : list r53_event) : list mutation :=
  concat (map (λ ev, match ev with Ev e x => log_of e x end) t).
Lemma mutations_app a b : mutations (a ++ b) = mutations a ++ mutations b.
Proof. unfold mutations. by rewrite map_app, concat_app. Qed.

(** The calls that list the record sets of a zone from [cursor] on, and the pages of a
    complete listing: each is valid and leads to the next one, the last ends the list. *)
Fixpoint record_page_calls (zone_id : string) (cursor : option Route53RecordCursor) (pages : list Route53RecordPage) :
    list r53_event :=
  match pages with
  | [] => []
  | page :: pages =>
      Ev (ListRecordSets zone_id cursor RECORD_PAGE_SIZE) (Ok page) :: record_page_calls zone_id (rp_next page) pages
  end.
Fixpoint complete_record_pages (pages : list Route53RecordPage) : Prop :=
  match pages with
  | [] => False
  | page :: rest =>
      validate_record_page page = Ok tt ∧
      match rp_next page with None => rest = [] | Some _ => complete_record_pages rest end
  end.
Definition listed_records (pages : list Route53RecordPage) : list Route53RecordSet := concat (map rp_items pages).
(** The calls by which the records of a zone were read. *)
Definition record_reads (zone_id : string) (provider_zone : Route53HostedZone) (pages : list Route53RecordPage) :
    list r53_event :=
  Ev (GetHostedZone zone_id) (Ok (Some provider_zone)) :: record_page_calls zone_id None pages.
Lemma record_page_calls_quiet zone_id cursor pages : mutations (record_page_calls zone_id cursor pages) = [].
Proof. revert cursor. induction pages as [|page pages IH]; intros cursor; [done|]. apply IH. Qed.

(** An inventory without duplicate identities whose entries map as observed. *)
Definition inventory_ok `{Idna, RecordDigest} (zone : DnsZoneRef)
    (current : list (ObservedDnsRecordSet * Route53RecordSet)) : Prop :=
  NoDup (map (λ e, rs_key (ob_record_set e.1)) current) ∧
  Forall (λ e, map_record_set zone e.2 = Ok (ob_record_set e.1, ob_revision e.1) ∧ ob_zone e.1 = zone)
    current.

Section runs.
Context `{Idna, RecordDigest, Crypto, TokenCodec CursorToken, TokenCodec ChangeToken}.
Context (self : Route53DnsAdapter).

Lemma absorb_records_ok zone items keys records keys' records' :
  inventory_ok zone records →
  (∀ k, k ∈ keys ↔ k ∈ map (λ e, rs_key (ob_record_set e.1)) records) →
  absorb_records zone items keys records = Ok (keys', records') →
  inventory_ok zone records' ∧ (∀ k, k ∈ keys' ↔ k ∈ map (λ e, rs_key (ob_record_set e.1)) records') ∧
  records'.*2 = records.*2 ++ items.
Proof.
  revert keys records. induction items as [|raw items IH]; intros keys records Hok Hk; cbn [absorb_records].
  { intros [= <- <-]. by rewrite app_nil_r. }
  destruct (map_record_set zone raw) as [[r rev]|] eqn:Em; [|done]. cbn [fst snd].
  case_bool_decide as Hin; [done|]. destruct (_ <? _)%Z; [done|]. intros Ha. apply IH in Ha as (Hi&Hks&Hr).
  - split_and!; [done|done|]. rewrite Hr, fmap_app, <- (assoc_L (++)). done.
  - destruct Hok as [Hn Hf]. split.
    + rewrite map_app. apply NoDup_app. split_and!; [done| |apply NoDup_singleton].
      intros k Hkin Hkr. simpl in Hkr. apply list_elem_of_singleton in Hkr as ->. by rewrite Hk in Hin.
    + apply Forall_app. split; [done|]. by apply Forall_singleton.
  - intros k. rewrite elem_of_bts_insert, elem_of_map_snoc, Hk. done.
Qed.


Lemma inventory_ok_perm zone l k : l ≡ₚ k → inventory_ok zone l → inventory_ok zone k.
Proof.
  intros Hp [Hn Hf]. split; [|by rewrite <- Hp]. change (NoDup ((λ e, rs_key (ob_record_set e.1)) <$> k)).
  by rewrite <- Hp.
Qed.

(** A complete reading of the records of a zone: what it lists, and what was made of
    it. *)
Definition inventory_read (zone : DnsZoneRef) (pages : list Route53RecordPage)
    (current : list (ObservedDnsRecordSet * Route53RecordSet)) : Prop :=
  complete_record_pages pages ∧ current.*2 ≡ₚ listed_records pages ∧ inventory_ok zone current.

Lemma records_loop_exec n zone cursor seen keys records t r t' :
  inventory_ok zone records →
  (∀ k, k ∈ keys ↔ k ∈ map (λ e, rs_key (ob_record_set e.1)) records) →
  exec traced (records_loop n zone cursor seen keys records) t r t' →
  ∃ u, t' = t ++ u ∧ mutations u = [] ∧ ∀ current, r = Ok current →
    inventory_ok zone current ∧ ∃ pages, u = record_page_calls (zr_zone_id zone) cursor pages ∧
    complete_record_pages pages ∧ current.*2 ≡ₚ records.*2 ++ listed_records pages.
Proof.
  revert cursor seen keys records t. induction n as [|n IH]; intros cursor seen keys records t Hok Hk;
    cbn [records_loop].
  { intros [-> ->]. exists []. by rewrite app_nil_r. }
  intros [page He]%traced_step. set (ev := Ev _ page) in *.
  assert (∀ e, exec traced (Ret (Err e)) (t ++ [ev]) r t' → ∃ u, t' = t ++ u ∧ mutations u = [] ∧ ∀ current, r = Ok current →
    inventory_ok zone current ∧ ∃ pages, u = record_page_calls (zr_zone_id zone) cursor pages ∧
    complete_record_pages pages ∧ current.*2 ≡ₚ records.*2 ++ listed_records pages) as Hstop.
  { intros e [-> ->]. by exists [ev]. }
  destruct page as [page|e]; [|by eapply Hstop].
  destruct (validate_record_page page) as [[]|] eqn:Ev; [|by eapply Hstop].
  destruct (absorb_records zone (rp_items page) keys records) as [[keys' records']|] eqn:Ea; [|by eapply Hstop].
  cbn [fst snd] in He. destruct (absorb_records_ok _ _ _ _ _ _ Hok Hk Ea) as (Hok'&Hk'&Hraw).
  destruct (rp_next page) as [next|] eqn:En.
  - destruct (_ || _); [by eapply Hstop|]. apply IH in He as (u&->&Hm&Hc); [|done|done]. exists (ev :: u).
    rewrite <- app_assoc. split_and!; [done|by change (ev :: u) with ([ev] ++ u); rewrite mutations_app, Hm|].
    intros current (Hi&pages&->&Hcp&Hp)%Hc. split; [done|]. exists (page :: pages).
    split_and!; [by cbn; rewrite En|cbn; by rewrite En|]. rewrite Hp, Hraw. unfold listed_records. cbn.
    by rewrite (assoc_L (++)).
  - destruct He as [-> ->]. exists [ev]. split_and!; [done|done|]. intros current [= <-]. split.
    + eapply inventory_ok_perm; [symmetry; apply sort_by_perm|done].
    + exists [page]. split_and!; [done|cbn; by rewrite En|]. rewrite sort_by_perm, Hraw. unfold listed_records. cbn.
      by rewrite app_nil_r.
Qed.

Lemma all_records_exec zone t r t' :
  exec traced (all_records_with_raw self zone) t r t' →
  ∃ u, t' = t ++ u ∧ mutations u = [] ∧ ∀ current, r = Ok current → ∃ provider_zone pages named,
    u = record_reads (zr_zone_id zone) provider_zone pages ∧ inventory_read zone pages current ∧
    map_zone self provider_zone = Ok named ∧ oz_zone named = zone.
Proof.
  unfold all_records_with_raw. destruct (validate_zone_ref self zone).
  2: { intros [-> ->]. exists []. by rewrite app_nil_r. }
  intros [pz He]%traced_step. set (ev := Ev _ pz) in *.
  destruct pz as [[pz|]|e]; cbn [ok_or] in He; [|destruct He as [-> ->]; by exists [ev]..].
  destruct (map_zone self pz) as [named|] eqn:Em; [|destruct He as [-> ->]; by exists [ev]].
  case_bool_decide as Hz; cbn [negb] in He; [|destruct He as [-> ->]; by exists [ev]].
  apply records_loop_exec in He as (u&->&Hm&Hc); [| |set_solver].
  - exists (ev :: u). rewrite <- app_assoc.
    split_and!; [done|by change (ev :: u) with ([ev] ++ u); rewrite mutations_app, Hm|].
    intros current (Hi&pages&->&Hcp&Hp)%Hc. by exists pz, pages, named.
  - split; [apply NoDup_nil_2|apply Forall_nil_2].
Qed.

Definition is_unknown {A} (r : DnsProviderResult A) : Prop :=
  ∃ code, r = Err (unknown_outcome code).

Lemma change_receipt_facts id status guard receipt :
  change_receipt id status guard = Ok receipt →
  rc_id receipt = id ∧ rc_guard_strength receipt = guard ∧ rc_submission_atomicity receipt = AllOrNothing ∧
  ((status = "PENDING" ∧ rc_state receipt = ChangePending) ∨
   (status = "INSYNC" ∧ rc_state receipt = ProviderCommitted)).
Proof.
  unfold change_receipt. destruct (String.eqb_spec status "PENDING") as [->|].
  - destruct (or_invalid _ _); [|done]. intros [= <-]. split_and!; [done..|by left].
  - destruct (String.eqb_spec status "INSYNC") as [->|]; [|done].
    destruct (or_invalid _ _); [|done]. intros [= <-]. split_and!; [done..|by right].
Qed.

(** After the request was accepted, the caller learns a receipt or that the
    outcome is unknown, never a definite failure. *)
Lemma accept_change_outcome zone guard request digest info v :
  ad_mutation_receipt_verifier self = Some v →
  (∃ receipt, accept_change self zone guard request digest info = Ok receipt ∧
     rc_guard_strength receipt = Atomic ∧
     (ci_status info = "INSYNC" ↔ rc_state receipt = ProviderCommitted)) ∨
  is_unknown (accept_change self zone guard request digest info).
Proof.
  intros Hv. unfold accept_change. destruct (normalize_change_id (ci_id info)) as [id|];
    [|right; by eexists]. simpl. destruct (_ || _); [right; by eexists|].
  unfold build_change_receipt, mutation_receipt_verifier. rewrite Hv. cbn [ok_or].
  destruct (DnsChangeId_new _) as [cid|]; [|right; by eexists]. cbn [map_err].
  destruct (change_receipt cid (ci_status info) Atomic) as [receipt|] eqn:Er; [|right; by eexists].
  cbn [map_err]. destruct (validate_against_request receipt guard); [|right; by eexists]. left.
  apply change_receipt_facts in Er as (_&Hg&_&Hs). exists receipt. split_and!; [done|done|].
  destruct Hs as [[-> ->]|[-> ->]]; done.
Qed.

Context (request_digest_of : list Route53RecordChange → string).

Lemma apply_exec zone changes guard t r t' :
  exec traced (apply_record_changes self request_digest_of zone changes guard) t r t' →
  ((∃ u, t' = t ++ u ∧ mutations u = []) ∧ ∃ e, r = Err e) ∨
  ∃ provider_zone pages named current request answer,
    t' = t ++ record_reads (zr_zone_id zone) provider_zone pages ++
           [Ev (ChangeRecordSets (zr_zone_id zone) (change_batch request_digest_of request)) answer] ∧
    (map_zone self provider_zone = Ok named ∧ oz_zone named = zone) ∧
    validate_dns_changes zone changes = Ok tt ∧ inventory_read zone pages current ∧
    plan_change_batch zone changes current = Ok request ∧
    match answer with
    | Err e => r = Err e
    | Ok info =>
        (∃ receipt, r = Ok receipt ∧ rc_guard_strength receipt = Atomic ∧
           (ci_status info = "INSYNC" ↔ rc_state receipt = ProviderCommitted)) ∨ is_unknown r
    end.
Proof.
  assert (∀ u (e : NormalizedProviderError), mutations u = [] → exec traced (Ret (Err e)) (t ++ u) r t' →
    (∃ u, t' = t ++ u ∧ mutations u = []) ∧ ∃ e, r = Err e) as Hstop.
  { intros u e Hu [-> ->]. split; [by exists u|by eexists]. }
  assert (∀ e : NormalizedProviderError, exec traced (Ret (Err e)) t r t' →
    (∃ u, t' = t ++ u ∧ mutations u = []) ∧ ∃ e, r = Err e) as Hstop'.
  { intros e. rewrite <- (app_nil_r t) at 1. by apply Hstop. }
  unfold apply_record_changes, mutation_receipt_verifier.
  destruct (ad_mutation_receipt_verifier self) as [v|] eqn:Ev; cbn [ok_or]; [|left; by eapply Hstop'].
  destruct (validate_zone_ref self zone); [|left; by eapply Hstop'].
  destruct (validate_dns_changes zone changes) as [[]|] eqn:Eb; cbn [or_invalid map_err]; [|left; by eapply Hstop'].
  rewrite exec_bind. intros (rc&s1&Hrc&He). destruct (all_records_exec zone t rc s1 Hrc) as (u&->&Hu&Hread).
  destruct rc as [current|]; [|left; by eapply Hstop].
  destruct (plan_change_batch zone changes current) as [request|] eqn:Ep; [|left; by eapply Hstop].
  destruct (Hread current eq_refl) as (pz&pages&named&->&Hinv&Hnamed).
  apply traced_step in He as [answer He]. rewrite <- app_assoc in He. right.
  exists pz, pages, named, current, request, answer.
  split; [by destruct answer, He|]. do 4 (split; [done|]). destruct answer as [info|e]; destruct He as [-> _]; [|done].
  by apply (accept_change_outcome _ _ _ _ _ v).
Qed.
End runs.

(** C32.  Submitting record changes is guarded and honest about its outcome.  Whatever
    the API answers, a run sends at most one mutation, a change request, as its last
    call; when none was sent the result is an error.  When one is sent, the batch of
    changes is valid, and the calls of the run before it are the reading of the zone,
    which names the zone asked for, and of the pages of a complete listing of its
    records; the request was planned from the record sets of those pages, which have no
    duplicate identities and are mapped as observed, the guards of the changes hold of
    them, and applied to them the request has the effect of the changes.  The
    provider's error is returned as it is, and once the provider accepted the request
    the result is a receipt with atomic guard strength, committed exactly if the
    provider says so, or an unknown outcome, never a definite failure. *)
Theorem route53_apply_guarded `{Idna, RecordDigest, Crypto, TokenCodec CursorToken, TokenCodec ChangeToken}
    (self : Route53DnsAdapter) (digest : list Route53RecordChange → string) (zone : DnsZoneRef)
    (changes : list DnsRecordChange) (guard : DnsGuardStrength)
    (r : DnsProviderResult DnsChangeReceipt) (trace : list r53_event) :
  exec traced (apply_record_changes self digest zone changes guard) [] r trace →
  (mutations trace = [] ∧ ∃ e, r = Err e) ∨
  ∃ provider_zone pages named current request answer,
    trace = record_reads (zr_zone_id zone) provider_zone pages ++
              [Ev (ChangeRecordSets (zr_zone_id zone) (change_batch digest request)) answer] ∧
    map_zone self provider_zone = Ok named ∧ oz_zone named = zone ∧
    complete_record_pages pages ∧ current.*2 ≡ₚ listed_records pages ∧
    validate_dns_changes zone changes = Ok tt ∧
    listing zone current (store_of current) ∧ Forall (guard_holds current) changes ∧
    (∃ store', provider_apply zone (store_of current) request = Some store' ∧
       ∀ k, decode_store zone store' k = apply_changes (decode_store zone (store_of current)) changes k) ∧
    match answer with
    | Err e => r = Err e
    | Ok info =>
        (∃ receipt, r = Ok receipt ∧ rc_guard_strength receipt = Atomic ∧
           (ci_status info = "INSYNC" ↔ rc_state receipt = ProviderCommitted)) ∨ is_unknown r
    end.
Proof.
  intros [[(u&->&Hu) Hr]|(pz&pages&named&current&request&answer&Ht&[Hnamed Hz]&Hv&(Hcp&Hraw&[Hn Hf])&Hp&Hans)]%apply_exec;
    [by left|right].
  assert (listing zone current (store_of current)) as Hl.
  { apply listing_store_of; [done|]. eapply Forall_impl; [exact Hf|]. by intros e [? _]. }
  destruct (plan_refines zone changes current _ request Hv Hl Hp) as (Hg&_&store'&Ha&Hd&_).
  exists pz, pages, named, current, request, answer.
  split; [done|]. split_and!; [done|done|done|done|done|done|done|by exists store'|done].
Qed.

(** ** Receipts come back to the change they were issued for *)

Section receipts.
Context `{Idna, CryptoLaws, TokenCodecLaws ChangeToken}.

Lemma strip_prefix_other p s c :
  str_head p = Some c → str_mem c s = false → strip_prefix p s = None.
Proof.
  destruct p as [|d p]; [done|]. intros [= ->]. destruct s as [|x s]; [done|].
  cbn [str_mem strip_prefix]. intros [Hx _]%orb_false_iff. by rewrite Hx.
Qed.

Lemma normalize_change_id_fixed value id :
  normalize_change_id value = Ok id → normalize_change_id id = Ok id.
Proof.
  unfold normalize_change_id. set (n := default value (strip_prefix "/change/" value)).
  destruct (_ || str_mem slash n) eqn:E; [done|]. intros [= <-].
  pose proof E as E'. apply orb_false_iff in E' as [_ Hs].
  rewrite (strip_prefix_other "/change/" n slash) by done. simpl. by rewrite E.
Qed.

Lemma validate_zone_ref_facts self zone :
  validate_zone_ref self zone = Ok tt →
  CloudResourceId_validate (zr_provider_account_id zone) = Ok tt ∧
  DnsZoneId_validate (zr_zone_id zone) = Ok tt ∧
  zr_provider_account_id zone = ad_center_account_id self ∧
  normalize_zone_id (zr_zone_id zone) = Ok (zr_zone_id zone).
Proof.
  unfold validate_zone_ref, DnsZoneRef_validate.
  destruct (CloudResourceId_validate _) as [[]|]; [|done].
  destruct (DnsZoneId_validate _) as [[]|]; [|done]. cbn [or_invalid map_err].
  destruct (bool_decide (zr_provider zone = Aws)); [|done].
  destruct (String.eqb_spec (zr_provider_account_id zone) (ad_center_account_id self)); [|done].
  destruct (bool_decide (zr_visibility zone = Public)); [|done]. cbn [negb orb].
  destruct (normalize_zone_id (zr_zone_id zone)) as [n|]; [|done].
  destruct (String.eqb_spec n (zr_zone_id zone)) as [->|]; done.
Qed.

(** The verifier an adapter is built with has the adapter's accounts. *)
Definition verifier_matches (self : Route53DnsAdapter) (v : Route53MutationReceiptVerifier) : Prop :=
  ad_mutation_receipt_verifier self = Some v ∧
  vf_center_account_id v = ad_center_account_id self ∧ vf_aws_account_id v = ad_aws_account_id self.

Lemma accept_change_token self v zone guard request digest info receipt :
  verifier_matches self v → accept_change self zone guard request digest info = Ok receipt →
  ∃ id, normalize_change_id (ci_id info) = Ok id ∧ DnsChangeId_validate (rc_id receipt) = Ok tt ∧
    rc_id receipt = sign_token (mkChangeToken 1 (scope_hash (ad_center_account_id self))
      (scope_hash (ad_aws_account_id self)) (scope_hash (zr_zone_id zone)) id digest
      (ci_submitted_at_unix_seconds info) Atomic) (vf_key v) MutationReceipt.
Proof.
  intros (Hv&_&_). unfold accept_change. destruct (normalize_change_id (ci_id info)) as [id|]; [|done].
  cbn [map_err]. destruct (_ || _); [done|]. unfold build_change_receipt, mutation_receipt_verifier.
  rewrite Hv. cbn [ok_or]. set (sig := sign_token _ _ _).
  destruct (DnsChangeId_new sig) as [cid|] eqn:Ec; [|done]. cbn [map_err].
  destruct (change_receipt cid (ci_status info) Atomic) as [rc|] eqn:Er; [|done]. cbn [map_err].
  destruct (validate_against_request rc guard); [|done]. intros [= <-].
  apply change_receipt_facts in Er as (Hid&_). exists id. split; [done|].
  unfold DnsChangeId_new, opaque_id_new in Ec. unfold DnsChangeId_validate, opaque_id_validate, opaque_id_new.
  destruct (validate_text sig _ _) as [[]|] eqn:Et; [|done]. injection Ec as <-. rewrite Hid.
  split; [|done]. fold sig. by rewrite Et.
Qed.

(** A receipt leads back to the change it was issued for and to no other:
    the change id of a receipt that [apply_record_changes] returned decodes, for
    the same zone, to the provider's change id, the request digest and the
    submission time it was built from; for a zone with a different scope hash it
    is reported as not found. *)
Theorem route53_receipt_roundtrip (self : Route53DnsAdapter) (v : Route53MutationReceiptVerifier)
    (zone : DnsZoneRef) (guard : DnsGuardStrength) (request : Route53ChangeBatch) (digest : string)
    (info : Route53ChangeInfo) (receipt : DnsChangeReceipt) :
  verifier_matches self v → validate_zone_ref self zone = Ok tt →
  accept_change self zone guard request digest info = Ok receipt →
  (∃ token, decode_change_receipt self zone (rc_id receipt) = Ok token ∧
     normalize_change_id (ci_id info) = Ok (tk_provider_change_id token) ∧
     tk_request_digest token = digest ∧
     tk_submitted_at_unix_seconds token = ci_submitted_at_unix_seconds info) ∧
  ∀ zone', scope_hash (zr_zone_id zone') ≠ scope_hash (zr_zone_id zone) →
    ∃ e, decode_change_receipt self zone' (rc_id receipt) = Err e.
Proof.
  intros Hm Hz Hacc. destruct (accept_change_token _ _ _ _ _ _ _ _ Hm Hacc) as (id&Hid&Hval&Hsig).
  destruct (validate_zone_ref_facts _ _ Hz) as (Ha&Hzi&Heq&Hn). destruct Hm as (Hv&Hc&Hw).
  pose proof (normalize_change_id_fixed _ _ Hid) as Hfix. unfold decode_change_receipt. split.
  - rewrite Hz. unfold mutation_receipt_verifier. rewrite Hv. cbn [ok_or]. unfold decode_scope.
    rewrite Ha, Hzi, Hval, Hsig. cbn [map_err]. rewrite verify_sign. cbn [map_err].
    cbn [tk_version tk_center_scope tk_external_scope tk_zone_scope tk_guard tk_provider_change_id].
    rewrite Heq, Hc, Hw, !String.eqb_refl, !bool_decide_eq_true_2 by done. cbn [Z.eqb Pos.eqb negb orb].
    by eexists.
  - intros zone' Hne. destruct (validate_zone_ref self zone') as [[]|]; [|by eexists].
    unfold mutation_receipt_verifier. rewrite Hv. cbn [ok_or]. unfold decode_scope.
    destruct (CloudResourceId_validate (zr_provider_account_id zone')); [|by eexists]. cbn [map_err].
    destruct (DnsZoneId_validate (zr_zone_id zone')); [|by eexists]. cbn [map_err]. rewrite Hval, Hsig. cbn [map_err].
    rewrite verify_sign. cbn [map_err].
    cbn [tk_version tk_center_scope tk_external_scope tk_zone_scope tk_guard tk_provider_change_id].
    destruct (String.eqb_spec (scope_hash (zr_zone_id zone)) (scope_hash (zr_zone_id zone')));
      [congruence|]. cbn [negb]. rewrite orb_true_r. cbn [orb]. by eexists.
Qed.
End receipts.

(** ** An instance of the parameters

    A toy message code and a token codec that writes the fields one after the
    other. *)

Definition demo_crypto : Crypto := {|
  hmac_sha256 := λ _ _, "0123456789abcdef0123456789abcdef";
  sha256_b64 := λ s, s; b64_encode := λ s, s; b64_decode := Some |}.
Lemma demo_crypto_laws : @CryptoLaws demo_crypto.
Proof. by split. Qed.

Definition demo_cursor_codec : TokenCodec CursorToken := {|
  to_json t := enc_fields [z_str (ct_version t); sc_center_account_id (ct_scope t);
    sc_aws_account_id (ct_scope t);
    match sc_method (ct_scope t) with MZones => "z" | MRecords id => String "r" id end;
    z_str (ct_offset t); ct_inventory_digest t];
  from_json s := match dec_fields s "" with
    | [v; c; a; String m id; o; d] =>
        v ← str_z v; o ← str_z o;
        Some (mkCursorToken v (mkScope c a (if Ascii.eqb m "z" then MZones else MRecords id)) o d)
    | _ => None
    end |}.
Lemma demo_cursor_codec_laws : @TokenCodecLaws CursorToken demo_cursor_codec.
Proof.
  split; intros [v [c a [|id]] o d]; unfold to_json, from_json, demo_cursor_codec.
  - rewrite dec_enc_fields. cbn. by rewrite !str_z_str.
  - rewrite dec_enc_fields. cbn. by rewrite !str_z_str.
  - apply esc_nonempty.
  - apply esc_nonempty.
Qed.

Definition demo_change_codec : TokenCodec ChangeToken := {|
  to_json t := enc_fields [z_str (tk_version t); tk_center_scope t; tk_external_scope t;
    tk_zone_scope t; tk_provider_change_id t; tk_request_digest t;
    z_str (tk_submitted_at_unix_seconds t);
    match tk_guard t with Atomic => "a" | BestEffort => "b" end];
  from_json s := match dec_fields s "" with
    | [v; c; e; z; p; r; t; g] =>
        v ← str_z v; t ← str_z t;
        Some (mkChangeToken v c e z p r t (if String.eqb g "a" then Atomic else BestEffort))
    | _ => None
    end |}.
Lemma demo_change_codec_laws : @TokenCodecLaws ChangeToken demo_change_codec.
Proof.
  split; intros [v c e z p r t g]; unfold to_json, from_json, demo_change_codec.
  - rewrite dec_enc_fields. cbn. rewrite !str_z_str. by destruct g.
  - apply esc_nonempty.
Qed.

(** Five items in pages of two. *)
Definition demo_items : list Z := [10; 20; 30; 40; 50]%Z.
Definition demo_items_digest (l : list Z) : string := z_str (foldr Z.add 0%Z l).
Definition demo_scope : CursorScope := mkScope "account-a" "123456789012" (MRecords "Z1").

Lemma route53_pagination_complete_witness :
  @walk demo_crypto demo_cursor_codec Z demo_items_digest 6 demo_items 2 None demo_scope "k" =
  Some [10; 20; 30; 40; 50]%Z.
Proof.
  apply (@route53_pagination_complete demo_crypto demo_crypto_laws demo_cursor_codec
    demo_cursor_codec_laws Z demo_items_digest demo_items 2 demo_scope "k").
  - by vm_compute.
  - by vm_compute.
  - intros offset Ho.
    assert (forallb (λ o, negb (text_invalid MAX_PAGE_TOKEN_LEN
      (@token_at demo_crypto demo_cursor_codec Z demo_items_digest demo_items demo_scope "k" o)))
      (zrange 5 0) = true) as Hall by (vm_compute; reflexivity).
    apply negb_true_iff. exact (zrange_all _ _ _ offset Hall Ho).
Defined.

(** A run that replaces the weighted record. *)
Definition demo_adapter : Route53DnsAdapter := {|
  ad_center_account_id := "account-a"; ad_aws_account_id := "123456789012"; ad_cursor_key := "c";
  ad_mutation_receipt_verifier := Some (mkVerifier "account-a" "123456789012" "m");
  ad_lifecycle_token_key := None |}.
Definition demo_info (batch : Route53ChangeBatch) : Route53ChangeInfo :=
  mkChangeInfo "/change/C2682N5HXP0BZ4" "INSYNC" 1700000000 (Some (cb_comment batch)).
Definition demo_answer (X : Type) (e : r53_call X) : X :=
  match e with
  | GetHostedZone _ => Ok (Some (mkHostedZone "/hostedzone/Z1D633PJN98FT9" "example.com." false
      "ref" 3 [] false false))
  | ListHostedZones _ _ => Ok (mkZonePage [] false None)
  | ListRecordSets _ _ _ => Ok (mkRecordPage [demo_raw] false None)
  | ChangeRecordSets _ batch => Ok (demo_info batch)
  | GetChange _ => Ok None
  | CreateHostedZone _ => Err (validation "unexpected")
  | GetDnssec _ => Err (validation "unexpected")
  | DeleteHostedZone _ | EnableHostedZoneDnssec _ | DisableHostedZoneDnssec _ => Err (validation "unexpected")
  end.
Definition demo_api (X : Type) (e : r53_call X) (s : list r53_event) : X * list r53_event :=
  (demo_answer X e, s ++ [Ev e (demo_answer X e)]).
Definition demo_request_digest (l : list Route53RecordChange) : string := z_str (zlen l).

Definition demo_run : DnsProviderResult DnsChangeReceipt * list r53_event :=
  run demo_api (@apply_record_changes demo_idna demo_digest demo_crypto demo_change_codec
    demo_adapter demo_request_digest demo_zone demo_changes Atomic) [].

Lemma route53_apply_guarded_witness :
  (∃ receipt, demo_run.1 = Ok receipt ∧ rc_state receipt = ProviderCommitted) ∧
  ∃ provider_zone pages current request answer,
    demo_run.2 = record_reads (zr_zone_id demo_zone) provider_zone pages ++
      [Ev (ChangeRecordSets (zr_zone_id demo_zone) (change_batch demo_request_digest request)) answer] ∧
    complete_record_pages pages ∧ current.*2 ≡ₚ listed_records pages ∧ Forall (guard_holds current) demo_changes.
Proof.
  split; [eexists; vm_compute; split; reflexivity|].
  destruct (@route53_apply_guarded demo_idna demo_digest demo_crypto demo_cursor_codec
    demo_change_codec demo_adapter demo_request_digest demo_zone demo_changes Atomic
    demo_run.1 demo_run.2)
    as [[Hl _]|(pz&pages&named&current&request&answer&Ht&_&_&Hc&Hp&_&_&Hg&_)].
  - apply (run_exec _ demo_api).
    + intros X e s x s' [= <- <-]. reflexivity.
    + fold demo_run. apply surjective_pairing.
  - vm_compute in Hl. discriminate Hl.
  - exists pz, pages, current, request, answer. split; [exact Ht|]. split; [exact Hc|]. split; [exact Hp|exact Hg].
Defined.

Definition demo_batch : Route53ChangeBatch := mkChangeBatch [] "edgion:d".
Definition demo_receipt : DnsChangeReceipt :=
  match @accept_change demo_crypto demo_change_codec demo_adapter demo_zone Atomic demo_batch "d"
          (demo_info demo_batch) with
  | Ok receipt => receipt
  | Err _ => mkReceipt "" ChangeFailed PerChange PropUnknown BestEffort
  end.

Lemma route53_receipt_roundtrip_witness :
  ∃ token, @decode_change_receipt demo_crypto demo_change_codec demo_adapter demo_zone
      (rc_id demo_receipt) = Ok token ∧ tk_provider_change_id token = "C2682N5HXP0BZ4".
Proof.
  destruct (@route53_receipt_roundtrip demo_crypto demo_crypto_laws demo_change_codec
    demo_change_codec_laws demo_adapter (mkVerifier "account-a" "123456789012" "m") demo_zone Atomic
    demo_batch "d" (demo_info demo_batch) demo_receipt) as [(token&Hd&Hid&_) _].
  - split; [reflexivity|split; reflexivity].
  - vm_compute. reflexivity.
  - vm_compute. reflexivity.
  - exists token. split; [exact Hd|]. vm_compute in Hid. injection Hid as Hid. symmetry. exact Hid.
Defined.
