(* ===== verification/Route53Lifecycle.v ===== *)
(** * Route53Lifecycle: building adapters, and the hosted-zone lifecycle

    [crates/center-adapter-route53/src/lib.rs]: the constructors of the adapter
    and of the receipt verifier, the observation of a hosted zone, and the
    guarded creation, deletion and signing of zones with the receipts that lead
    back to them.  The digest of a zone's revision is a parameter. *)

From Stdlib Require Import ZArith Ascii String Lia.
From S2P Require Import Prelude Text Codec Core Effects BTree NetAddr Dns DnsChange ZoneLifecycle ProviderErrors RecordValues Tokens CloudAccounts Route53Model Route53Plan Route53Adapter.

(** ** Construction *)

Definition aws_account (account : ProviderAccountSpec) : DnsProviderResult string :=
  let? _ := or_invalid "invalid_provider_account" (ProviderAccountSpec_validate account) in
  if negb (bool_decide (as_provider account = Aws)) then Err (validation "route53_provider_required")
  else
    let? scope := ok_or (validation "route53_account_scope_required") (as_scope account) in
    match scope with
    | ScopeAws account_id => Ok account_id
    | ScopeCloudflare _ => Err (validation "route53_account_scope_mismatch")
    end.

Definition Route53MutationReceiptVerifier_new (center_account_id : string) (account : ProviderAccountSpec)
    (key : string) : DnsProviderResult Route53MutationReceiptVerifier :=
  let? _ := or_invalid "invalid_center_account_id" (CloudResourceId_validate center_account_id) in
  let? account_id := aws_account account in
  Ok (mkVerifier center_account_id account_id key).

Definition matches (v : Route53MutationReceiptVerifier) (center_account_id : string)
    (account : ProviderAccountSpec) : bool :=
  bool_decide (as_provider account = Aws) && String.eqb (vf_center_account_id v) center_account_id
  && match as_scope account with
     | Some (ScopeAws account_id) => String.eqb account_id (vf_aws_account_id v)
     | _ => false
     end.

Section construction.
(** [Route53Api::verified_account_id]. *)
Context (verified_account_id : string).

Definition new_inner (center_account_id : string) (account : ProviderAccountSpec) (cursor_key : string)
    (verifier : option Route53MutationReceiptVerifier) (lifecycle_token_key : option string) :
    DnsProviderResult Route53DnsAdapter :=
  let? _ := or_invalid "invalid_center_account_id" (CloudResourceId_validate center_account_id) in
  let? account_id := aws_account account in
  if negb (String.eqb verified_account_id account_id)
  then Err (validation "route53_verified_account_mismatch")
  else Ok (mkAdapter center_account_id account_id cursor_key verifier lifecycle_token_key).

Definition new (center_account_id : string) (account : ProviderAccountSpec) (cursor_key : string) :
    DnsProviderResult Route53DnsAdapter :=
  new_inner center_account_id account cursor_key None None.

Definition new_with_record_write_verifier (center_account_id : string) (account : ProviderAccountSpec)
    (cursor_key : string) (verifier : Route53MutationReceiptVerifier) : DnsProviderResult Route53DnsAdapter :=
  if String.eqb cursor_key (vf_key verifier) then Err (validation "route53_signing_key_reuse")
  else if negb (matches verifier center_account_id account)
  then Err (validation "route53_mutation_receipt_scope_mismatch")
  else new_inner center_account_id account cursor_key (Some verifier) None.

Definition new_with_record_write_key (center_account_id : string) (account : ProviderAccountSpec)
    (cursor_key mutation_receipt_key : string) : DnsProviderResult Route53DnsAdapter :=
  if String.eqb cursor_key mutation_receipt_key then Err (validation "route53_signing_key_reuse")
  else
    let? verifier := Route53MutationReceiptVerifier_new center_account_id account mutation_receipt_key in
    new_with_record_write_verifier center_account_id account cursor_key verifier.

Definition new_with_lifecycle_key (center_account_id : string) (account : ProviderAccountSpec)
    (cursor_key lifecycle_token_key : string) : DnsProviderResult Route53DnsAdapter :=
  if String.eqb cursor_key lifecycle_token_key then Err (validation "route53_signing_key_reuse")
  else new_inner center_account_id account cursor_key None (Some lifecycle_token_key).

Definition new_with_write_keys (center_account_id : string) (account : ProviderAccountSpec)
    (cursor_key mutation_receipt_key lifecycle_token_key : string) : DnsProviderResult Route53DnsAdapter :=
  if String.eqb cursor_key mutation_receipt_key || String.eqb cursor_key lifecycle_token_key
     || String.eqb mutation_receipt_key lifecycle_token_key
  then Err (validation "route53_signing_key_reuse")
  else
    let? verifier := Route53MutationReceiptVerifier_new center_account_id account mutation_receipt_key in
    new_inner center_account_id account cursor_key (Some verifier) (Some lifecycle_token_key).

(** An adapter as any of the constructors returns it. *)
Inductive constructed : Route53DnsAdapter → Prop :=
| by_new c a k self : new c a k = Ok self → constructed self
| by_verifier c a k v self : new_with_record_write_verifier c a k v = Ok self → constructed self
| by_record_key c a k m self : new_with_record_write_key c a k m = Ok self → constructed self
| by_lifecycle_key c a k l self : new_with_lifecycle_key c a k l = Ok self → constructed self
| by_write_keys c a k m l self : new_with_write_keys c a k m l = Ok self → constructed self.

Record adapter_scoped (self : Route53DnsAdapter) : Prop := {
  sc_center : CloudResourceId_validate (ad_center_account_id self) = Ok tt;
  sc_verified : ad_aws_account_id self = verified_account_id;
  sc_twelve : str_len (ad_aws_account_id self) = 12%Z ∧ str_all is_ascii_digit (ad_aws_account_id self) = true;
  sc_verifier v : ad_mutation_receipt_verifier self = Some v →
    verifier_matches self v ∧ vf_key v ≠ ad_cursor_key self;
  sc_lifecycle k : ad_lifecycle_token_key self = Some k → k ≠ ad_cursor_key self ∧
    ∀ v, ad_mutation_receipt_verifier self = Some v → vf_key v ≠ k;
}.

Lemma aws_account_ok account id : aws_account account = Ok id →
  as_provider account = Aws ∧ as_scope account = Some (ScopeAws id) ∧
  str_len id = 12%Z ∧ str_all is_ascii_digit id = true.
Proof.
  unfold aws_account, ProviderAccountSpec_validate. destruct (CredentialSource_validate _); [|done].
  destruct (validate_option _ (as_scope account)) as [[]|] eqn:Ev; [|done]. cbn [or_invalid map_err].
  case_bool_decide as Hp; [|done]. cbn [negb]. destruct (as_scope account) as [[|i]|]; [done| |done].
  cbn [ok_or]. intros [= ->]. split_and!; [done|done|..]; cbn in Ev; rewrite Hp in Ev; revert Ev.
  all: rewrite bool_decide_eq_true_2 by done; cbn [negb orb].
  all: destruct ((str_len id =? 12)%Z && str_all is_ascii_digit id) eqn:Eb; [|done].
  all: apply andb_true_iff in Eb as [?%Z.eqb_eq ?]; done.
Qed.

Lemma new_inner_scoped c a k v l self : new_inner c a k v l = Ok self →
  (∀ w, v = Some w → matches w c a = true ∧ vf_key w ≠ k) →
  (∀ t, l = Some t → t ≠ k ∧ ∀ w, v = Some w → vf_key w ≠ t) →
  adapter_scoped self.
Proof.
  unfold new_inner. destruct (CloudResourceId_validate c) as [[]|] eqn:Ec; [|done]. cbn [or_invalid map_err].
  destruct (aws_account a) as [id|] eqn:Ea; [|done]. apply aws_account_ok in Ea as (Hp&Hs&Hl&Hd).
  destruct (String.eqb_spec verified_account_id id) as [<-|]; [|done]. intros [= <-] Hv Hlc. split; cbn.
  - done.
  - done.
  - done.
  - intros w Hw. destruct (Hv w Hw) as [Hm Hk]. split; [|done]. unfold matches in Hm. rewrite Hs in Hm.
    apply andb_true_iff in Hm as [[_ Hc]%andb_true_iff Hi].
    apply String.eqb_eq in Hc, Hi. split_and!; [done|done|]. by cbn.
  - intros t Ht. by apply Hlc.
Qed.

Lemma verifier_new_matches c a key v : Route53MutationReceiptVerifier_new c a key = Ok v →
  matches v c a = true ∧ vf_key v = key.
Proof.
  unfold Route53MutationReceiptVerifier_new. destruct (or_invalid _ _); [|done].
  destruct (aws_account a) as [id|] eqn:Ea; [|done]. intros [= <-].
  apply aws_account_ok in Ea as (Hp&Hs&_). split; [|done]. unfold matches. rewrite Hp, Hs. cbn.
  by rewrite !String.eqb_refl.
Qed.

(** C40.  An adapter never speaks for another account and never reuses a key:
    whichever constructor built it, its center account is a valid identifier, its
    AWS account is the twelve-digit one the API client was verified for, its
    receipt verifier is bound to the same two accounts, and the keys it signs
    cursors, receipts and lifecycle tokens with are pairwise different. *)
Theorem route53_adapter_scoped (self : Route53DnsAdapter) : constructed self → adapter_scoped self.
Proof.
  assert (∀ c a k v self, new_with_record_write_verifier c a k v = Ok self → adapter_scoped self) as Hver.
  { intros c a k v self'. unfold new_with_record_write_verifier.
    destruct (String.eqb_spec k (vf_key v)); [done|]. destruct (matches v c a) eqn:Hm; [|done]. cbn [negb].
    intros Hn. eapply new_inner_scoped; [exact Hn|by intros w [= <-]|done]. }
  destruct 1 as [c a k self Hn|c a k v self Hn|c a k m self Hn|c a k l self Hn|c a k m l self Hn].
  - by eapply new_inner_scoped.
  - by eapply Hver.
  - unfold new_with_record_write_key in Hn. destruct (String.eqb k m); [done|].
    destruct (Route53MutationReceiptVerifier_new c a m) as [v|]; [|done]. by eapply Hver.
  - unfold new_with_lifecycle_key in Hn. destruct (String.eqb_spec k l); [done|].
    eapply new_inner_scoped; [exact Hn|done|]. intros t [= <-]. split; [congruence|done].
  - unfold new_with_write_keys in Hn. destruct (String.eqb_spec k m); [done|].
    destruct (String.eqb_spec k l); [done|]. destruct (String.eqb_spec m l); [done|]. cbn [orb] in Hn.
    destruct (Route53MutationReceiptVerifier_new c a m) as [v|] eqn:Ev; [|done].
    apply verifier_new_matches in Ev as [Hm Hk].
    eapply new_inner_scoped; [exact Hn|..].
    + intros w [= <-]. split; [done|congruence].
    + intros t [= <-]. split; [congruence|]. intros w [= <-]. congruence.
Qed.
End construction.

(** ** Observing a hosted zone *)

(** [sort_by_key], which is stable, and [dedup]. *)
Fixpoint insert_by {A} (key : A → Z) (x : A) (l : list A) : list A :=
  match l with
  | [] => [x]
  | y :: k => if (key x <=? key y)%Z then x :: l else y :: insert_by key x k
  end.
Definition sort_by_key {A} (key : A → Z) (l : list A) : list A := foldr (insert_by key) [] l.
Fixpoint dedup {A} `{EqDecision A} (l : list A) : list A :=
  match l with
  | x :: (y :: _) as k => if decide (x = y) then dedup k else x :: dedup k
  | _ => l
  end.

Definition parse_ds_record (value : string) : DnsProviderResult DnssecDsRecord :=
  let invalid := validation "invalid_route53_dnssec_ds_record" in
  match split_ascii_whitespace value with
  | [key_tag; algorithm; digest_type; digest] =>
      let? key_tag := ok_or invalid (parse_uint U16_MAX key_tag) in
      let? algorithm := ok_or invalid (parse_uint U8_MAX algorithm) in
      let? digest_type := ok_or invalid (parse_uint U8_MAX digest_type) in
      let record := mkDs key_tag algorithm digest_type (to_ascii_uppercase digest) in
      let? _ := map_err (λ _, invalid) (DnssecDsRecord_validate record) in
      Ok record
  | _ => Err invalid
  end.

(** The loop over the keys: whether a key failed, the DS records and those of the
    active keys. *)
Fixpoint collect_keys (keys : list Route53KeySigningKey) (failed : bool)
    (records active : list DnssecDsRecord) :
    DnsProviderResult (bool * list DnssecDsRecord * list DnssecDsRecord) :=
  match keys with
  | [] => Ok (failed, records, active)
  | k :: keys =>
      let? failed :=
        if str_in (ksk_status k) ["ACTIVE"; "INACTIVE"; "DELETING"] then Ok failed
        else if str_in (ksk_status k) ["ACTION_NEEDED"; "INTERNAL_FAILURE"] then Ok true
        else Err (validation "unsupported_route53_dnssec_ksk_status") in
      match ksk_ds_record k with
      | None => collect_keys keys failed records active
      | Some ds =>
          let? record := parse_ds_record ds in
          collect_keys keys failed (records ++ [record])
            (if String.eqb (ksk_status k) "ACTIVE" then active ++ [record] else active)
      end
  end.

Definition signing_state (serve_signature : string) (records active : list DnssecDsRecord) :
    DnsProviderResult (DnssecProviderState * DnssecExternalAction) :=
  let none l := (zlen (A := DnssecDsRecord) l =? 0)%Z in
  if String.eqb serve_signature "NOT_SIGNING" then
    Ok (if none records then (DsDisabled, NoAction) else (DsAwaitingDsRemoval, RemoveDs (key_tags records)))
  else if String.eqb serve_signature "SIGNING" then
    Ok (if none active then (DsEnabling, WaitForProviderActivation) else (DsAwaitingDs, PublishDs active))
  else if String.eqb serve_signature "DELETING" then
    Ok (if none records then (DsDisabling, WaitForProviderActivation)
        else (DsAwaitingDsRemoval, RemoveDs (key_tags records)))
  else Err (validation "unsupported_route53_dnssec_signing_status").

Definition map_dnssec_observation (value : Route53DnssecInfo) : DnsProviderResult DnssecObservation :=
  let? collected := collect_keys (dn_key_signing_keys value) false [] [] in
  let '(failed, records, active) := collected in
  let records := dedup (sort_by_key ds_key_tag records) in
  let active := dedup (sort_by_key ds_key_tag active) in
  if (failed : bool) then Ok (mkDnssec DsFailed records NoAction (Some "ksk_action_required"))
  else
    let? state := signing_state (dn_serve_signature value) records active in
    Ok (mkDnssec state.1 records state.2 (Some (to_ascii_lowercase (dn_serve_signature value)))).

(** base64 of the SHA-256 of the JSON of a zone with its DNSSEC state. *)
Class LifecycleDigest := lifecycle_digest : Route53HostedZone → option Route53DnssecInfo → string.

Definition ksk_key (k : Route53KeySigningKey) := (ksk_status k, ksk_ds_record k).

Definition lifecycle_revision `{LifecycleDigest} (zone : Route53HostedZone) (dnssec : option Route53DnssecInfo) :
    DnsProviderResult string :=
  let zone := mkHostedZone (hz_id zone) (hz_name zone) (hz_private_zone zone) (hz_caller_reference zone)
                (hz_resource_record_set_count zone) (sort_by id (hz_name_servers zone))
                (hz_has_linked_service zone) (hz_has_unsupported_features zone) in
  let dnssec := (λ d, mkDnssecInfo (dn_serve_signature d) (sort_by ksk_key (dn_key_signing_keys d))) <$> dnssec in
  or_invalid "invalid_route53_lifecycle_revision" (ZoneLifecycleRevision_new (lifecycle_digest zone dnssec)).

(** ** Lifecycle receipts *)

Inductive LifecycleOperation := OpCreate | OpDelete | OpEnableDnssec.
#[export] Instance LifecycleOperation_eq_dec : EqDecision LifecycleOperation.
Proof. solve_decision. Defined.
Record LifecycleMutationToken := mkLifecycleToken {
  lt_version : Z;                            (* u8 *)
  lt_center_scope : string;
  lt_account_scope : string;
  lt_zone_scope : option string;
  lt_provider_change_id : option string;
  lt_submitted_at_unix_seconds : Z;          (* i64 *)
  lt_operation : LifecycleOperation;
}.

Definition lifecycle_change_receipt (mutation_id status : string) :
    DnsProviderResult ZoneLifecycleMutationReceipt :=
  if String.eqb status "PENDING" then Ok (mkMutationReceipt mutation_id MutPending)
  else if String.eqb status "INSYNC" then Ok (mkMutationReceipt mutation_id MutSucceeded)
  else Err (validation "unsupported_route53_change_status").

Section lifecycle.
Context `{Idna, RecordDigest, Crypto, LifecycleDigest, TokenCodec LifecycleMutationToken}.
Context (self : Route53DnsAdapter).

Definition lifecycle_token_key : DnsProviderResult string :=
  ok_or (validation "route53_mutation_authority_unavailable") (ad_lifecycle_token_key self).

(** [sha256] of the three parts, each but the last followed by a zero byte. *)
Definition stable_caller_reference (center_scope account_scope key : string) : string :=
  let zero := String (ascii_of_N 0) EmptyString in
  "edgion-" +:+ sha256_b64 (center_scope +:+ zero +:+ account_scope +:+ zero +:+ key).

Definition validate_lifecycle_zone_ref (zone : DnsZoneRef) : DnsProviderResult () :=
  let? _ := or_invalid "invalid_zone" (DnsZoneRef_validate zone) in
  let mismatch := Err (validation "route53_zone_scope_mismatch") in
  if negb (bool_decide (zr_provider zone = Aws))
     || negb (String.eqb (zr_provider_account_id zone) (ad_center_account_id self))
  then mismatch
  else
    let? normalized := normalize_zone_id (zr_zone_id zone) in
    if String.eqb normalized (zr_zone_id zone) then Ok tt else mismatch.

Fixpoint nameservers_of (values : list string) : DnsProviderResult (list string) :=
  match values with
  | [] => Ok []
  | v :: values =>
      let? name := absolute_name v "invalid_route53_nameserver" in
      let? names := nameservers_of values in
      Ok (name :: names)
  end.

(** The checks of [observe_lifecycle_inner] on the zone itself; the result is the
    set of its name servers. *)
Definition check_hosted_zone (zone : DnsZoneRef) (raw_zone : Route53HostedZone) :
    DnsProviderResult (list string) :=
  let? normalized_id := normalize_zone_id (hz_id raw_zone) in
  let? apex := absolute_name (hz_name raw_zone) "invalid_route53_zone_name" in
  let visibility := if hz_private_zone raw_zone then Private else Public in
  if negb (String.eqb normalized_id (zr_zone_id zone)) || negb (String.eqb apex (zr_apex zone))
     || negb (bool_decide (visibility = zr_visibility zone))
  then Err (validation "route53_zone_identity_mismatch")
  else if hz_has_linked_service raw_zone || hz_has_unsupported_features raw_zone
  then Err (validation "route53_zone_lifecycle_unsupported")
  else
    let? names := nameservers_of (hz_name_servers raw_zone) in
    let nameservers := bts_of_list names in
    let empty := (zlen nameservers =? 0)%Z in
    if negb (hz_private_zone raw_zone) && empty then Err (validation "missing_route53_delegation_set")
    else if hz_private_zone raw_zone && negb empty
    then Err (validation "invalid_route53_private_delegation_set")
    else Ok nameservers.

Definition build_observation (zone : DnsZoneRef) (raw_zone : Route53HostedZone) (nameservers : list string)
    (dnssec_raw : option Route53DnssecInfo) : DnsProviderResult ZoneLifecycleObservation :=
  let? dnssec :=
    match dnssec_raw with
    | None => Ok (mkDnssec DsUnsupported [] NoAction (Some "private_zone"))
    | Some value => map_dnssec_observation value
    end in
  if (hz_resource_record_set_count raw_zone <? 2)%Z
  then Err (validation "invalid_route53_record_set_count")
  else
    let non_default_record_count := (hz_resource_record_set_count raw_zone - 2)%Z in
    let? revision := lifecycle_revision raw_zone dnssec_raw in
    let delegation :=
      if hz_private_zone raw_zone then mkDelegation NotApplicable [] [] None None
      else mkDelegation NotChecked nameservers [] None None in
    let observation := mkLifecycle zone revision nameservers delegation VerNotChecked
                         (evaluate_zone_readiness VerNotChecked) dnssec non_default_record_count in
    let? _ := or_invalid "invalid_route53_lifecycle_observation"
                (ZoneLifecycleObservation_validate observation) in
    Ok observation.

Definition observe_lifecycle_inner (zone : DnsZoneRef) :
    prog r53_call (DnsProviderResult (option ZoneLifecycleObservation)) :=
  try? _ := validate_lifecycle_zone_ref zone in
  raw_zone <~ GetHostedZone (zr_zone_id zone) ;;
  try? raw_zone := raw_zone in
  match raw_zone with
  | None => Ret (Ok None)
  | Some raw_zone =>
      try? nameservers := check_hosted_zone zone raw_zone in
      if hz_private_zone raw_zone then
        try? observation := build_observation zone raw_zone nameservers None in
        Ret (Ok (Some observation))
      else
        info <~ GetDnssec (zr_zone_id zone) ;;
        try? info := info in
        try? observation := build_observation zone raw_zone nameservers (Some info) in
        Ret (Ok (Some observation))
  end.

Definition sign_lifecycle (token : LifecycleMutationToken) : DnsProviderResult string :=
  let? key := lifecycle_token_key in
  map_err (λ _, unknown_outcome "route53_lifecycle_receipt_encoding_failed")
    (ZoneLifecycleMutationId_new (sign_token token key LifecycleDomain)).

Definition lifecycle_receipt (zone_id : option string) (operation : LifecycleOperation)
    (change : Route53ChangeInfo) : DnsProviderResult ZoneLifecycleMutationReceipt :=
  let? provider_change_id :=
    map_err (λ _, unknown_outcome "invalid_route53_lifecycle_change") (normalize_change_id (ci_id change)) in
  if (ci_submitted_at_unix_seconds change <? 0)%Z
  then Err (unknown_outcome "invalid_route53_lifecycle_change")
  else
    let? mutation_id := sign_lifecycle
      (mkLifecycleToken 1 (scope_hash (ad_center_account_id self)) (scope_hash (ad_aws_account_id self))
         (scope_hash <$> zone_id) (Some provider_change_id) (ci_submitted_at_unix_seconds change) operation) in
    lifecycle_change_receipt mutation_id (ci_status change).

Definition recovered_create_receipt (zone_id : string) : DnsProviderResult ZoneLifecycleMutationReceipt :=
  let? mutation_id := sign_lifecycle
    (mkLifecycleToken 1 (scope_hash (ad_center_account_id self)) (scope_hash (ad_aws_account_id self))
       (Some (scope_hash zone_id)) None 0 OpCreate) in
  Ok (mkMutationReceipt mutation_id MutSucceeded).

(** ** The lifecycle port *)

Fixpoint find_loop (n : nat) (caller_reference : string) (marker : option string) (seen : list string) :
    prog r53_call (DnsProviderResult (option Route53HostedZone)) :=
  match n with
  | O => Ret (Err (validation "route53_zone_pagination_limit"))
  | S n =>
      page <~ ListHostedZones marker HOSTED_ZONE_PAGE_SIZE ;;
      try? page := page in
      try? _ := validate_zone_page page in
      match List.find (λ zone, String.eqb (hz_caller_reference zone) caller_reference) (zp_items page) with
      | Some zone => Ret (Ok (Some zone))
      | None =>
          match zp_next_marker page with
          | None => Ret (Ok None)
          | Some next =>
              if bool_decide (next ∈ seen) then Ret (Err (validation "route53_zone_pagination_loop"))
              else find_loop n caller_reference (Some next) (bts_insert next seen)
          end
      end
  end.
Definition find_zone_by_caller_reference (caller_reference : string) :
    prog r53_call (DnsProviderResult (option Route53HostedZone)) :=
  find_loop MAX_PROVIDER_PAGES caller_reference None [].

Definition validate_created_zone (zone : Route53HostedZone) (request : ZoneCreationRequest)
    (caller_reference : string) : DnsProviderResult () :=
  let? apex := absolute_name (hz_name zone) "invalid_route53_zone_name" in
  let? _ := normalize_zone_id (hz_id zone) in
  if hz_private_zone zone || hz_has_linked_service zone || hz_has_unsupported_features zone
     || negb (String.eqb (hz_caller_reference zone) caller_reference)
     || negb (String.eqb apex (cr_apex request)) || (zlen (hz_name_servers zone) =? 0)%Z
  then Err (validation "route53_create_zone_result_mismatch") else Ok tt.

Definition request_reference (request : ZoneCreationRequest) : string :=
  stable_caller_reference (ad_center_account_id self) (ad_aws_account_id self) (cr_idempotency_key request).

(** What [create_zone] does with the provider's answer to a creation. *)
Definition accept_created (request : ZoneCreationRequest) (created : Route53CreateHostedZoneResult) :
    DnsProviderResult ZoneLifecycleMutationReceipt :=
  let mismatch := unknown_outcome "route53_create_zone_result_mismatch" in
  let? _ := map_err (λ _, mismatch)
              (validate_created_zone (czr_hosted_zone created) request (request_reference request)) in
  let? zone_id := map_err (λ _, mismatch) (normalize_zone_id (hz_id (czr_hosted_zone created))) in
  lifecycle_receipt (Some zone_id) OpCreate (czr_change created).

Definition create_zone (request : ZoneCreationRequest) :
    prog r53_call (DnsProviderResult ZoneLifecycleMutationReceipt) :=
  try? _ := lifecycle_token_key in
  if negb (bool_decide (cr_provider request = Aws))
     || negb (String.eqb (cr_provider_account_id request) (ad_center_account_id self))
  then Ret (Err (validation "route53_zone_creation_scope_mismatch"))
  else if negb (bool_decide (cr_visibility request = Public))
  then Ret (Err (validation "route53_private_zone_creation_requires_vpc"))
  else
    let caller_reference := request_reference request in
    pbind (find_zone_by_caller_reference caller_reference) (λ found,
      try? found := found in
      match found with
      | Some found =>
          try? zone_id := normalize_zone_id (hz_id found) in
          found <~ GetHostedZone zone_id ;;
          try? found := found in
          try? found := ok_or (unknown_outcome "route53_recovered_zone_disappeared") found in
          try? _ := validate_created_zone found request caller_reference in
          Ret (recovered_create_receipt zone_id)
      | None =>
          created <~ CreateHostedZone (mkCreateZone (cr_apex request) caller_reference) ;;
          try? created := created in
          Ret (accept_created request created)
      end).

(** The last part of both deletions: the request and its receipt. *)
Definition dispatch_delete (zone_id : string) :
    prog r53_call (DnsProviderResult ZoneLifecycleMutationReceipt) :=
  change <~ DeleteHostedZone zone_id ;;
  try? change := change in
  Ret (lifecycle_receipt (Some zone_id) OpDelete change).

Definition delete_zone_with_exact_guard (zone : DnsZoneRef) (expected_revision : string) :
    prog r53_call (DnsProviderResult ZoneLifecycleMutationReceipt) :=
  try? _ := lifecycle_token_key in
  if negb (bool_decide (zr_visibility zone = Public))
  then Ret (Err (validation "route53_private_zone_deletion_unsupported"))
  else
    pbind (observe_lifecycle_inner zone) (λ observed,
      try? observed := observed in
      try? observed := ok_or (not_found "route53_zone_not_found") observed in
      if negb (String.eqb (lo_revision observed) expected_revision)
      then Ret (Err (conflict "route53_zone_lifecycle_revision_conflict"))
      else if negb (lo_non_default_record_count observed =? 0)%Z
              || negb (bool_decide (do_state (lo_dnssec observed) = DsDisabled))
      then Ret (Err (conflict "route53_zone_deletion_precondition_failed"))
      else dispatch_delete (zr_zone_id zone)).

Definition delete_zone (request : ZoneDeletionRequest) :
    prog r53_call (DnsProviderResult ZoneLifecycleMutationReceipt) :=
  let approval := dr_approval request in
  try? _ := lifecycle_token_key in
  if negb (String.eqb (ap_approved_revision approval) (dr_revision request))
     || negb (bool_decide (ap_approved_zone approval = dr_zone request))
     || is_empty (str_trim (ap_approved_by approval)) || is_empty (str_trim (ap_approved_at approval))
     || negb (zlen (ap_acknowledgements approval) =? 0)%Z
  then Ret (Err (validation "invalid_route53_zone_deletion_approval"))
  else
    pbind (observe_lifecycle_inner (dr_zone request)) (λ observed,
      try? observed := observed in
      try? observed := ok_or (not_found "route53_zone_not_found") observed in
      if negb (String.eqb (lo_revision observed) (dr_revision request))
      then Ret (Err (conflict "route53_zone_lifecycle_revision_conflict"))
      else if negb (lo_non_default_record_count observed =? 0)%Z
              || negb (bool_decide (do_state (lo_dnssec observed) = DsDisabled)
                       || bool_decide (do_state (lo_dnssec observed) = DsUnsupported))
      then Ret (Err (conflict "route53_zone_deletion_precondition_failed"))
      else dispatch_delete (zr_zone_id (dr_zone request))).

Definition signable (info : Route53DnssecInfo) : bool :=
  existsb (λ k, String.eqb (ksk_status k) "ACTIVE" && bool_decide (is_Some (ksk_ds_record k)))
    (dn_key_signing_keys info).

Definition set_dnssec (zone : DnsZoneRef) (desired : DnssecDesiredState) (expected_revision : string) :
    prog r53_call (DnsProviderResult ZoneLifecycleMutationReceipt) :=
  try? _ := lifecycle_token_key in
  pbind (observe_lifecycle_inner zone) (λ observed,
    try? observed := observed in
    try? observed := ok_or (not_found "route53_zone_not_found") observed in
    if negb (String.eqb (lo_revision observed) expected_revision)
    then Ret (Err (conflict "route53_zone_lifecycle_revision_conflict"))
    else if negb (bool_decide (zr_visibility zone = Public))
    then Ret (Err (conflict "route53_private_dnssec_unsupported"))
    else
      let state := do_state (lo_dnssec observed) in
      match desired with
      | DesiredEnabled =>
          if bool_decide (state ∈ [DsEnabling; DsAwaitingDs; DsActive])
          then Ret (Err (conflict "route53_dnssec_already_enabled"))
          else
            raw <~ GetDnssec (zr_zone_id zone) ;;
            try? raw := raw in
            if negb (signable raw) then Ret (Err (conflict "route53_dnssec_active_ksk_required"))
            else
              change <~ EnableHostedZoneDnssec (zr_zone_id zone) ;;
              try? change := change in
              Ret (lifecycle_receipt (Some (zr_zone_id zone)) OpEnableDnssec change)
      | DesiredDisabled =>
          if bool_decide (state = DsDisabled) then Ret (Err (conflict "route53_dnssec_already_disabled"))
          else Ret (Err (conflict "route53_dnssec_parent_ds_removal_verification_required"))
      end).

(** The checks of [observe_mutation] on the token of a receipt. *)
Definition decode_mutation (mutation_id : string) : DnsProviderResult LifecycleMutationToken :=
  let absent := not_found "route53_lifecycle_mutation_not_found" in
  let? key := map_err (λ e, e) lifecycle_token_key in
  let? token := map_err (λ _, absent)
                  (verify_token (T := LifecycleMutationToken) mutation_id key LifecycleDomain) in
  if negb (lt_version token =? 1)%Z
     || negb (String.eqb (lt_center_scope token) (scope_hash (ad_center_account_id self)))
     || negb (String.eqb (lt_account_scope token) (scope_hash (ad_aws_account_id self)))
     || match lt_zone_scope token with None => true | Some scope => is_empty scope end
  then Err absent else Ok token.

Definition observe_mutation (mutation_id : string) :
    prog r53_call (DnsProviderResult ZoneLifecycleMutationReceipt) :=
  let absent := not_found "route53_lifecycle_mutation_not_found" in
  try? token := decode_mutation mutation_id in
  match lt_provider_change_id token with
  | None =>
      if negb (bool_decide (lt_operation token = OpCreate)) then Ret (Err absent)
      else Ret (Ok (mkMutationReceipt mutation_id MutSucceeded))
  | Some provider_change_id =>
      if negb (bool_decide (normalize_change_id provider_change_id = Ok provider_change_id))
      then Ret (Err absent)
      else
        change <~ GetChange provider_change_id ;;
        try? change := change in
        try? change := ok_or absent change in
        if negb (bool_decide (normalize_change_id (ci_id change) = Ok provider_change_id))
           || negb (ci_submitted_at_unix_seconds change =? lt_submitted_at_unix_seconds token)%Z
        then Ret (Err (validation "route53_lifecycle_change_metadata_mismatch"))
        else Ret (lifecycle_change_receipt mutation_id (ci_status change))
  end.
End lifecycle.

(** ** What a run of the port does

    The API may answer anything; the state is the trace of the calls made with
    their answers. *)

(** The calls that [observe_lifecycle_inner] observed a zone with. *)
Definition evidence (id : string) (raw : Route53HostedZone) (info : option Route53DnssecInfo) : list r53_event :=
  Ev (GetHostedZone id) (Ok (Some raw))
  :: match info with None => [] | Some i => [Ev (GetDnssec id) (Ok i)] end.

(** A zone that is not signed and has no key for which a DS record exists. *)
Definition unsigned (info : Route53DnssecInfo) : Prop :=
  dn_serve_signature info = "NOT_SIGNING" ∧
  Forall (λ k, ksk_ds_record k = None ∧ ksk_status k ∈ ["ACTIVE"; "INACTIVE"; "DELETING"])
    (dn_key_signing_keys info).

(** A zone that is not signed, or no longer, or a key of which needs action. *)
Definition unsettled (info : Route53DnssecInfo) : Prop :=
  dn_serve_signature info ∈ ["NOT_SIGNING"; "DELETING"] ∨
  Exists (λ k, ksk_status k ∈ ["ACTION_NEEDED"; "INTERNAL_FAILURE"]) (dn_key_signing_keys info).

(** What the caller learns about a mutation the provider accepted. *)
Definition learned (status : string) (r : DnsProviderResult ZoneLifecycleMutationReceipt) : Prop :=
  (∃ id, r = Ok (mkMutationReceipt id MutPending) ∧ status = "PENDING") ∨
  (∃ id, r = Ok (mkMutationReceipt id MutSucceeded) ∧ status = "INSYNC") ∨
  is_unknown r ∨
  (r = Err (validation "unsupported_route53_change_status") ∧ status ∉ ["PENDING"; "INSYNC"]).
Definition answered (answer : DnsProviderResult Route53ChangeInfo)
    (r : DnsProviderResult ZoneLifecycleMutationReceipt) : Prop :=
  match answer with Err e => r = Err e | Ok change => learned (ci_status change) r end.


Lemma insert_by_nil {A} (key : A → Z) x l : insert_by key x l ≠ [].
Proof. destruct l; cbn; [done|]. by destruct (_ <=? _)%Z. Qed.
Lemma dedup_nil {A} `{EqDecision A} (l : list A) : dedup l = [] → l = [].
Proof.
  induction l as [|x l IH]; [done|]. cbn. destruct l as [|y l]; [done|].
  destruct (decide (x = y)); [|done]. intros Hd. by apply IH in Hd.
Qed.
Lemma dedup_sort_nil {A} `{EqDecision A} (key : A → Z) (l : list A) : dedup (sort_by_key key l) = [] → l = [].
Proof.
  intros Hd%dedup_nil. destruct l as [|x l]; [done|]. cbn in Hd. by apply insert_by_nil in Hd.
Qed.

Lemma collect_keys_quiet keys failed records active active' :
  collect_keys keys failed records active = Ok (false, [], active') →
  failed = false ∧ records = [] ∧
  Forall (λ k, ksk_ds_record k = None ∧ ksk_status k ∈ ["ACTIVE"; "INACTIVE"; "DELETING"]) keys.
Proof.
  revert failed records active. induction keys as [|k keys IH]; intros failed records active; cbn [collect_keys].
  { by intros [= -> -> _]. }
  destruct (str_in (ksk_status k) ["ACTIVE"; "INACTIVE"; "DELETING"]) eqn:E1.
  - destruct (ksk_ds_record k) as [ds|] eqn:Eds.
    + destruct (parse_ds_record ds) as [r|]; [|done]. intros (_&Hr&_)%IH. by destruct records.
    + intros (->&->&Hf)%IH. split_and!; [done|done|]. apply Forall_cons. split; [|done].
      split; [done|]. by apply bool_decide_eq_true in E1.
  - destruct (str_in (ksk_status k) ["ACTION_NEEDED"; "INTERNAL_FAILURE"]); [|done].
    destruct (ksk_ds_record k) as [ds|]; [destruct (parse_ds_record ds) as [r|]; [|done]|];
      by intros (?&_)%IH.
Qed.

Lemma map_dnssec_disabled info o :
  map_dnssec_observation info = Ok o → do_state o = DsDisabled → unsigned info.
Proof.
  unfold map_dnssec_observation, unsigned.
  destruct (collect_keys (dn_key_signing_keys info) false [] []) as [[[failed records] active]|] eqn:Ec; [|done].
  destruct failed; [by intros [= <-]|]. set (rs := dedup _). set (ac := dedup _).
  unfold signing_state. destruct (String.eqb_spec (dn_serve_signature info) "NOT_SIGNING") as [->|].
  - intros [= <-]. cbn. destruct rs as [|r rs'] eqn:Er; [|done]. intros _.
    apply dedup_sort_nil in Er as ->. apply collect_keys_quiet in Ec as (_&_&?). done.
  - destruct (String.eqb _ "SIGNING"); [intros [= <-]; by destruct ac|].
    destruct (String.eqb _ "DELETING"); [intros [= <-]; by destruct rs|done].
Qed.

Lemma collect_keys_failed keys failed records active records' active' :
  collect_keys keys failed records active = Ok (true, records', active') →
  failed = true ∨ Exists (λ k, ksk_status k ∈ ["ACTION_NEEDED"; "INTERNAL_FAILURE"]) keys.
Proof.
  revert failed records active. induction keys as [|k keys IH]; intros failed records active; cbn [collect_keys].
  { intros [= -> _ _]. by left. }
  destruct (str_in (ksk_status k) ["ACTIVE"; "INACTIVE"; "DELETING"]) eqn:E1.
  - destruct (ksk_ds_record k) as [ds|]; [destruct (parse_ds_record ds) as [r|]; [|done]|];
      (intros [?|?]%IH; [by left|right; by apply Exists_cons_tl]).
  - destruct (str_in (ksk_status k) ["ACTION_NEEDED"; "INTERNAL_FAILURE"]) eqn:E2; [|done]. intros _. right.
    apply Exists_cons_hd. by apply bool_decide_eq_true in E2.
Qed.
Lemma map_dnssec_unsettled info o :
  map_dnssec_observation info = Ok o → do_state o ∉ [DsEnabling; DsAwaitingDs; DsActive] → unsettled info.
Proof.
  unfold map_dnssec_observation.
  destruct (collect_keys (dn_key_signing_keys info) false [] []) as [[[failed records] active]|] eqn:Ec; [|done].
  destruct failed.
  { intros _ _. right. by apply collect_keys_failed in Ec as [?|?]. }
  set (rs := dedup _). set (ac := dedup _). unfold signing_state.
  destruct (String.eqb_spec (dn_serve_signature info) "NOT_SIGNING") as [Hn|].
  { intros _ _. left. rewrite Hn. by left. }
  destruct (String.eqb_spec (dn_serve_signature info) "SIGNING").
  { intros [= <-]. cbn. destruct ac; cbn; intros Hs; destruct Hs; set_solver. }
  destruct (String.eqb_spec (dn_serve_signature info) "DELETING") as [Hn|]; [|done].
  intros _ _. left. rewrite Hn. right. by left.
Qed.

Lemma build_observation_facts `{LifecycleDigest} zone raw ns info o :
  build_observation zone raw ns info = Ok o →
  lo_non_default_record_count o = (hz_resource_record_set_count raw - 2)%Z ∧
  lifecycle_revision raw info = Ok (lo_revision o) ∧
  match info with
  | None => do_state (lo_dnssec o) = DsUnsupported
  | Some i => map_dnssec_observation i = Ok (lo_dnssec o)
  end.
Proof.
  unfold build_observation. intros Hb.
  destruct (match info with None => _ | Some v => _ end) as [d|] eqn:Ed; [|done].
  destruct (_ <? 2)%Z; [done|]. destruct (lifecycle_revision raw info) as [rev|]; [|done].
  destruct (or_invalid _ _); [|done]. injection Hb as <-. cbn. split_and!; [done|done|].
  destruct info; [done|]. by injection Ed as <-.
Qed.

Section traces.
Context `{Idna, RecordDigest, Crypto, LifecycleDigest, TokenCodec LifecycleMutationToken}.
Context (self : Route53DnsAdapter).

(** An observation is made from answers of the same run, and it changes nothing. *)
Lemma observe_exec zone s r s' :
  exec traced (observe_lifecycle_inner self zone) s r s' →
  ∃ t, s' = s ++ t ∧ mutations t = [] ∧
    ∀ o, r = Ok (Some o) → ∃ raw ns info,
      t = evidence (zr_zone_id zone) raw info ∧ check_hosted_zone zone raw = Ok ns ∧
      hz_private_zone raw = bool_decide (info = None) ∧ build_observation zone raw ns info = Ok o.
Proof.
  assert (∀ t (r : DnsProviderResult (option ZoneLifecycleObservation)) (s' : list r53_event),
    r = Ok None ∨ (∃ e, r = Err e) → s' = s ++ t → mutations t = [] → ∃ t, s' = s ++ t ∧ mutations t = [] ∧
    ∀ o, r = Ok (Some o) → ∃ raw ns info,
      t = evidence (zr_zone_id zone) raw info ∧ check_hosted_zone zone raw = Ok ns ∧
      hz_private_zone raw = bool_decide (info = None) ∧ build_observation zone raw ns info = Ok o) as Hquiet.
  { intros t r' s2 Hr Hs Hm. exists t. split_and!; [done|done|]. by destruct Hr as [->|[? ->]]. }
  unfold observe_lifecycle_inner. destruct (validate_lifecycle_zone_ref self zone) as [[]|e].
  2: { intros [-> ->]. apply (Hquiet []); [right; by eexists|by rewrite app_nil_r|done]. }
  intros [raw He]%traced_step.
  destruct raw as [[raw|]|e]; [|destruct He as [-> ->]; apply (Hquiet [Ev (GetHostedZone (zr_zone_id zone)) (Ok None)]); eauto
    |destruct He as [-> ->]; apply (Hquiet [Ev (GetHostedZone (zr_zone_id zone)) (Err e)]); eauto].
  destruct (check_hosted_zone zone raw) as [ns|e] eqn:Ec.
  2: { destruct He as [-> ->]. eapply Hquiet; eauto. }
  destruct (hz_private_zone raw) eqn:Ep.
  - destruct (build_observation zone raw ns None) as [o|e] eqn:Eb; destruct He as [-> ->].
    + exists (evidence (zr_zone_id zone) raw None). split_and!; [done|done|]. intros ? [= <-].
      exists raw, ns, None. done.
    + eapply Hquiet; eauto.
  - apply traced_step in He as [info He]. rewrite <- app_assoc in He. cbn [app] in He. destruct info as [info|e].
    2: { destruct He as [-> ->]. eapply Hquiet; eauto. }
    destruct (build_observation zone raw ns (Some info)) as [o|e] eqn:Eb; destruct He as [-> ->].
    + exists (evidence (zr_zone_id zone) raw (Some info)). split_and!; [done|done|]. intros ? [= <-].
      exists raw, ns, (Some info). done.
    + eapply Hquiet; eauto.
Qed.

Lemma receipt_learned zone_id op change key :
  ad_lifecycle_token_key self = Some key →
  learned (ci_status change) (lifecycle_receipt self zone_id op change).
Proof.
  intros Hk. unfold lifecycle_receipt, learned. destruct (normalize_change_id _) as [id|];
    [|right; right; left; by eexists]. cbn [map_err].
  destruct (_ <? 0)%Z; [right; right; left; by eexists|].
  unfold sign_lifecycle, lifecycle_token_key. rewrite Hk. cbn [ok_or].
  destruct (ZoneLifecycleMutationId_new _) as [mid|]; [|right; right; left; by eexists]. cbn [map_err].
  unfold lifecycle_change_receipt. destruct (String.eqb_spec (ci_status change) "PENDING") as [->|];
    [left; by eexists|].
  destruct (String.eqb_spec (ci_status change) "INSYNC") as [->|]; [right; left; by eexists|].
  right; right; right. split; [done|]. intros Hin.
  apply elem_of_cons in Hin as [?|[?|?%not_elem_of_nil]%elem_of_cons]; done.
Qed.

(** The common start of the guarded operations: either it changes nothing and
    fails, or the zone was observed and the rest of the operation runs. *)
Lemma observed_exec zone f s (r : DnsProviderResult ZoneLifecycleMutationReceipt) s' :
  exec traced (pbind (observe_lifecycle_inner self zone) (λ observed,
    try? observed := observed in
    try? observed := ok_or (not_found "route53_zone_not_found") observed in f observed)) s r s' →
  ((∃ t, s' = s ++ t ∧ mutations t = []) ∧ ∃ e, r = Err e) ∨
  ∃ raw ns info o,
    check_hosted_zone zone raw = Ok ns ∧ hz_private_zone raw = bool_decide (info = None) ∧
    build_observation zone raw ns info = Ok o ∧
    exec traced (f o) (s ++ evidence (zr_zone_id zone) raw info) r s'.
Proof.
  rewrite exec_bind. intros (a&s1&Ho&He). apply observe_exec in Ho as (t&->&Hm&Ho).
  destruct a as [[o|]|e]; cbn [ok_or] in He.
  2,3: left; destruct He as [-> ->]; split; [by exists t|by eexists].
  right. destruct (Ho o eq_refl) as (raw&ns&info&->&?&?&?). by exists raw, ns, info, o.
Qed.

Lemma evidence_quiet id raw info : mutations (evidence id raw info) = [].
Proof. by destruct info. Qed.

(** What a deletion observed before it sent its request. *)
Definition deletion_allowed (zone : DnsZoneRef) (revision : string) (raw : Route53HostedZone)
    (info : option Route53DnssecInfo) : Prop :=
  (∃ ns, check_hosted_zone zone raw = Ok ns) ∧ hz_resource_record_set_count raw = 2%Z ∧
  lifecycle_revision raw info = Ok revision ∧
  match info with None => hz_private_zone raw = true | Some i => hz_private_zone raw = false ∧ unsigned i end.

Lemma dispatch_delete_exec zone_id t r t' key :
  ad_lifecycle_token_key self = Some key →
  exec traced (dispatch_delete self zone_id) t r t' →
  ∃ answer, t' = t ++ [Ev (DeleteHostedZone zone_id) answer] ∧ answered answer r.
Proof.
  intros Hk [answer He]%traced_step. exists answer.
  destruct answer as [change|e]; cbn [exec] in He; destruct He as [-> ->]; split; [done| |done|done].
  by eapply receipt_learned.
Qed.

Lemma deletion_allowed_intro zone revision raw ns info o :
  check_hosted_zone zone raw = Ok ns → hz_private_zone raw = bool_decide (info = None) →
  build_observation zone raw ns info = Ok o → lo_revision o = revision →
  lo_non_default_record_count o = 0%Z →
  do_state (lo_dnssec o) = DsDisabled ∨ do_state (lo_dnssec o) = DsUnsupported →
  deletion_allowed zone revision raw info ∧ (do_state (lo_dnssec o) = DsDisabled ↔ info ≠ None).
Proof.
  intros Hc Hp Hb <- Hn Hd. apply build_observation_facts in Hb as (Hcnt&Hrev&Hi).
  assert (match info with None => True | Some i => do_state (lo_dnssec o) = DsDisabled end) as Hdis.
  { destruct info as [i|]; [|done]. destruct Hd as [|Hu]; [done|].
    unfold map_dnssec_observation in Hi. destruct (collect_keys _ _ _ _) as [[[f rs] ac]|]; [|done].
    destruct f; [injection Hi as Hi; rewrite <- Hi in Hu; done|]. unfold signing_state in Hi.
    destruct (String.eqb _ "NOT_SIGNING"); [|destruct (String.eqb _ "SIGNING");
      [|destruct (String.eqb _ "DELETING"); [|done]]];
      match type of Hi with context [if ?b then _ else _] => destruct b end; injection Hi as Hi;
      rewrite <- Hi in Hu; done. }
  split.
  - split_and!; [by exists ns|lia|done|]. destruct info as [i|]; [|by rewrite Hp].
    rewrite Hp. split; [done|]. by eapply map_dnssec_disabled.
  - destruct info as [i|]; [split; done|]. rewrite Hi. split; done.
Qed.

(** A deletion request with the approval of exactly its zone and revision. *)
Record approved (request : ZoneDeletionRequest) : Prop := {
  ap_revision : ap_approved_revision (dr_approval request) = dr_revision request;
  ap_zone : ap_approved_zone (dr_approval request) = dr_zone request;
  ap_by : is_empty (str_trim (ap_approved_by (dr_approval request))) = false;
  ap_at : is_empty (str_trim (ap_approved_at (dr_approval request))) = false;
  ap_nothing_acknowledged : ap_acknowledgements (dr_approval request) = [];
}.

(** The two entry points for a deletion of a zone at a revision. *)
Inductive deletion (zone : DnsZoneRef) (revision : string) :
    prog r53_call (DnsProviderResult ZoneLifecycleMutationReceipt) → Prop → Prop :=
| by_exact_guard : deletion zone revision (delete_zone_with_exact_guard self zone revision) (zr_visibility zone = Public)
| by_request request : dr_zone request = zone → dr_revision request = revision →
    deletion zone revision (delete_zone self request) (approved request).

Lemma deletion_exec zone revision p admitted t r t' :
  deletion zone revision p admitted → exec traced p t r t' →
  ((∃ u, t' = t ++ u ∧ mutations u = []) ∧ ∃ e, r = Err e) ∨
  ∃ raw info answer,
    t' = t ++ evidence (zr_zone_id zone) raw info ++ [Ev (DeleteHostedZone (zr_zone_id zone)) answer] ∧
    admitted ∧ deletion_allowed zone revision raw info ∧ answered answer r.
Proof.
  assert (∀ e : NormalizedProviderError, exec traced (Ret (Err e)) t r t' →
    (∃ u, t' = t ++ u ∧ mutations u = []) ∧ ∃ e, r = Err e) as Hstop.
  { intros e [-> ->]. split; [exists []; by rewrite app_nil_r|by eexists]. }
  assert (∀ u (e : NormalizedProviderError), mutations u = [] → exec traced (Ret (Err e)) (t ++ u) r t' →
    (∃ u, t' = t ++ u ∧ mutations u = []) ∧ ∃ e, r = Err e) as Hstop'.
  { intros u e Hu [-> ->]. split; [by exists u|by eexists]. }
  intros Hd He. destruct Hd as [|request <- <-].
  all: unfold delete_zone, delete_zone_with_exact_guard, lifecycle_token_key in He.
  all: destruct (ad_lifecycle_token_key self) as [key|] eqn:Ek; cbn [ok_or] in He; [|left; by eapply Hstop].
  all: match type of He with context [if ?b then _ else _] => destruct b eqn:Ead end; [left; by eapply Hstop|].
  all: apply observed_exec in He as [?|(raw&ns&info&o&Hc&Hp&Hb&He)]; [by left|].
  all: match type of He with context [String.eqb ?a ?b] => destruct (String.eqb_spec a b) as [Hrev|] end; cbn [negb] in He;
    [|left; eapply Hstop'; [apply evidence_quiet|exact He]].
  all: match type of He with context [if ?b then _ else _] => destruct b eqn:Eg end;
    [left; eapply Hstop'; [apply evidence_quiet|exact He]|].
  all: apply orb_false_iff in Eg as [Hn%negb_false_iff%Z.eqb_eq Hs%negb_false_iff].
  all: right; apply (dispatch_delete_exec _ _ _ _ key Ek) in He as (answer&->&Hans).
  all: exists raw, info, answer; rewrite <- app_assoc; split_and!; [done| | |done].
  2,4: apply (deletion_allowed_intro _ _ _ _ _ _ Hc Hp Hb Hrev Hn).
  - by apply negb_false_iff, bool_decide_eq_true in Ead.
  - left. by apply bool_decide_eq_true in Hs.
  - apply orb_true_iff in Hs as [?%bool_decide_eq_true|?%bool_decide_eq_true]; auto.
  - do 4 (apply orb_false_iff in Ead as [Ead ?]). split; [|by eapply bool_decide_eq_true, negb_false_iff|done|done|].
    + by apply String.eqb_eq, negb_false_iff.
    + by destruct (ap_acknowledgements _).
Qed.

(** *** Signing *)

(** A zone that is public, at the expected revision and not settled as signed, with an
    active key for which a DS record exists at the second reading. *)
Definition signing_allowed (zone : DnsZoneRef) (revision : string) (raw : Route53HostedZone)
    (info again : Route53DnssecInfo) : Prop :=
  (∃ ns, check_hosted_zone zone raw = Ok ns) ∧ zr_visibility zone = Public ∧
  lifecycle_revision raw (Some info) = Ok revision ∧
  unsettled info ∧ signable again = true.

Lemma check_hosted_zone_visibility zone raw ns :
  check_hosted_zone zone raw = Ok ns → zr_visibility zone = Public ↔ hz_private_zone raw = false.
Proof.
  unfold check_hosted_zone. destruct (normalize_zone_id _) as [id|]; [|done].
  destruct (absolute_name _ _) as [apex|]; [|done]. destruct (hz_private_zone raw), (zr_visibility zone); cbn;
    rewrite ?orb_true_r; done.
Qed.

Lemma set_dnssec_exec zone desired revision t r t' :
  exec traced (set_dnssec self zone desired revision) t r t' →
  ((∃ u, t' = t ++ u ∧ mutations u = []) ∧ ∃ e, r = Err e) ∨
  ∃ raw info again answer,
    desired = DesiredEnabled ∧
    t' = t ++ evidence (zr_zone_id zone) raw (Some info) ++
           [Ev (GetDnssec (zr_zone_id zone)) (Ok again); Ev (EnableHostedZoneDnssec (zr_zone_id zone)) answer] ∧
    signing_allowed zone revision raw info again ∧ answered answer r.
Proof.
  assert (∀ u (e : NormalizedProviderError), mutations u = [] → exec traced (Ret (Err e)) (t ++ u) r t' →
    (∃ u, t' = t ++ u ∧ mutations u = []) ∧ ∃ e, r = Err e) as Hstop.
  { intros u e Hu [-> ->]. split; [by exists u|by eexists]. }
  unfold set_dnssec, lifecycle_token_key. destruct (ad_lifecycle_token_key self) as [key|] eqn:Ek; cbn [ok_or].
  2: { intros [-> ->]. left. split; [exists []; by rewrite app_nil_r|by eexists]. }
  intros [?|(raw&ns&info&o&Hc&Hp&Hb&He)]%observed_exec; [by left|].
  pose proof (evidence_quiet (zr_zone_id zone) raw info) as Hq.
  destruct (String.eqb_spec (lo_revision o) revision) as [Hrev|]; cbn [negb] in He; [|left; by eapply Hstop].
  destruct (bool_decide (zr_visibility zone = Public)) eqn:Ev; cbn [negb] in He; [|left; by eapply Hstop].
  apply bool_decide_eq_true in Ev. destruct desired.
  { left. destruct (bool_decide (_ = DsDisabled)); by eapply Hstop. }
  destruct (bool_decide (do_state (lo_dnssec o) ∈ _)) eqn:Es; [left; by eapply Hstop|].
  apply bool_decide_eq_false in Es. apply traced_step in He as [again He].
  rewrite <- app_assoc in He. destruct again as [again|e].
  2: { left. eapply Hstop; [|exact He]. by rewrite mutations_app, Hq. }
  destruct (signable again) eqn:Esg; cbn [negb] in He.
  2: { left. eapply Hstop; [|exact He]. by rewrite mutations_app, Hq. }
  apply traced_step in He as [answer He]. rewrite <- app_assoc in He. right.
  apply (check_hosted_zone_visibility _ _ _ Hc) in Ev as Hpub. rewrite Hpub in Hp. symmetry in Hp.
  apply bool_decide_eq_false in Hp. destruct info as [info|]; [|done].
  apply build_observation_facts in Hb as (_&Hlr&Hi). rewrite Hrev in Hlr.
  exists raw, info, again, answer.
  assert (signing_allowed zone revision raw info again) by (split_and!; [by exists ns|done|done|by eapply map_dnssec_unsettled|done]).
  rewrite <- app_assoc in He.
  destruct answer as [change|e]; destruct He as [-> ->]; split_and!; try done.
  by eapply receipt_learned.
Qed.

(** *** Creation *)

(** The calls that list the pages of an account from [marker] on, and what the
    pages are: each is valid, leads to the next one and the last one ends the list. *)
Fixpoint listing_calls (marker : option string) (pages : list Route53HostedZonePage) : list r53_event :=
  match pages with
  | [] => []
  | page :: pages =>
      Ev (ListHostedZones marker HOSTED_ZONE_PAGE_SIZE) (Ok page) :: listing_calls (zp_next_marker page) pages
  end.
Fixpoint complete_listing (pages : list Route53HostedZonePage) : Prop :=
  match pages with
  | [] => False
  | page :: rest =>
      validate_zone_page page = Ok tt ∧
      match zp_next_marker page with None => rest = [] | Some _ => complete_listing rest end
  end.
Definition unused (caller_reference : string) (pages : list Route53HostedZonePage) : Prop :=
  Forall (λ page, Forall (λ zone, hz_caller_reference zone ≠ caller_reference) (zp_items page)) pages.

Lemma find_loop_exec n reference marker seen t r t' :
  exec traced (find_loop n reference marker seen) t r t' →
  ∃ u, t' = t ++ u ∧ mutations u = [] ∧
    (∀ zone, r = Ok (Some zone) → hz_caller_reference zone = reference) ∧
    (r = Ok None → ∃ pages, u = listing_calls marker pages ∧ complete_listing pages ∧ unused reference pages).
Proof.
  revert marker seen t. induction n as [|n IH]; intros marker seen t; cbn [find_loop].
  { intros [-> ->]. exists []. by rewrite app_nil_r. }
  intros [page He]%traced_step. set (ev := Ev _ page) in He.
  assert (∀ r' : DnsProviderResult (option Route53HostedZone), r' ≠ Ok None →
    (∀ zone, r' = Ok (Some zone) → hz_caller_reference zone = reference) → exec traced (Ret r') (t ++ [ev]) r t' →
    ∃ u, t' = t ++ u ∧ mutations u = [] ∧
    (∀ zone, r = Ok (Some zone) → hz_caller_reference zone = reference) ∧
    (r = Ok None → ∃ pages, u = listing_calls marker pages ∧ complete_listing pages ∧ unused reference pages))
    as Hret.
  { intros r' Hn Hz [-> ->]. exists [ev]. split_and!; [done|done|done|done]. }
  destruct page as [page|e]; [|by eapply Hret in He].
  destruct (validate_zone_page page) as [[]|e] eqn:Ev; [|by eapply Hret in He].
  destruct (List.find _ _) as [zone|] eqn:Ef.
  { eapply Hret in He; [done|done|]. intros ? [= <-]. by apply List.find_some in Ef as [_ ?%String.eqb_eq]. }
  assert (Forall (λ zone, hz_caller_reference zone ≠ reference) (zp_items page)) as Hpage.
  { apply Forall_forall. intros zone Hz%list_elem_of_In Heq. pose proof (List.find_none _ _ Ef zone Hz) as Hf.
    cbn in Hf. by apply String.eqb_neq in Hf. }
  destruct (zp_next_marker page) as [next|] eqn:Enx.
  - case_bool_decide; [by eapply Hret in He|]. apply IH in He as (u&->&Hm&Hs&Hn). exists (ev :: u).
    rewrite <- app_assoc. split_and!; [done| |done|].
    + by change (ev :: u) with ([ev] ++ u); rewrite mutations_app, Hm.
    + intros (pages&->&Hc&Hu)%Hn. exists (page :: pages). split_and!; [by cbn; rewrite Enx|cbn; by rewrite Enx|].
      by apply Forall_cons.
  - destruct He as [-> ->]. exists [ev]. split_and!; [done|done|done|]. intros _. exists [page].
    split_and!; [done|cbn; by rewrite Enx|]. by apply Forall_singleton.
Qed.

Lemma created_learned request created key :
  ad_lifecycle_token_key self = Some key →
  learned (ci_status (czr_change created)) (accept_created self request created).
Proof.
  intros Hk. unfold accept_created.
  destruct (validate_created_zone _ _ _); [|right; right; left; by eexists]. cbn [map_err].
  destruct (normalize_zone_id _); [|right; right; left; by eexists]. cbn [map_err].
  by eapply receipt_learned.
Qed.

Lemma create_exec request t r t' :
  exec traced (create_zone self request) t r t' →
  (∃ u, t' = t ++ u ∧ mutations u = [] ∧
     ((∃ e, r = Err e) ∨
      ∃ zone found id, hz_caller_reference zone = request_reference self request ∧
        normalize_zone_id (hz_id zone) = Ok id ∧
        u = removelast u ++ [Ev (GetHostedZone id) (Ok (Some found))] ∧
        validate_created_zone found request (request_reference self request) = Ok tt ∧
        r = recovered_create_receipt self id)) ∨
  ∃ pages answer,
    t' = t ++ listing_calls None pages ++
      [Ev (CreateHostedZone (mkCreateZone (cr_apex request) (request_reference self request))) answer] ∧
    complete_listing pages ∧ unused (request_reference self request) pages ∧
    match answer with Err e => r = Err e | Ok created => learned (ci_status (czr_change created)) r end.
Proof.
  assert (∀ u (e : NormalizedProviderError), mutations u = [] → exec traced (Ret (Err e)) (t ++ u) r t' →
    ∃ u, t' = t ++ u ∧ mutations u = [] ∧ ((∃ e, r = Err e) ∨
      ∃ zone found id, hz_caller_reference zone = request_reference self request ∧
        normalize_zone_id (hz_id zone) = Ok id ∧
        u = removelast u ++ [Ev (GetHostedZone id) (Ok (Some found))] ∧
        validate_created_zone found request (request_reference self request) = Ok tt ∧
        r = recovered_create_receipt self id)) as Hstop.
  { intros u e Hu [-> ->]. exists u. split_and!; [done|done|]. left. by eexists. }
  unfold create_zone, lifecycle_token_key. destruct (ad_lifecycle_token_key self) as [key|] eqn:Ek; cbn [ok_or].
  2: { intros He. left. eapply (Hstop []); [done|]. rewrite app_nil_r. exact He. }
  destruct (_ || _); [intros He; left; eapply (Hstop []); [done|]; rewrite app_nil_r; exact He|].
  destruct (negb _); [intros He; left; eapply (Hstop []); [done|]; rewrite app_nil_r; exact He|].
  cbv zeta. rewrite exec_bind. intros (found&s1&Hf&He). apply find_loop_exec in Hf as (u&->&Hm&Hsome&Hnone).
  destruct found as [[zone|]|e]; [| |left; by eapply Hstop].
  - left. destruct (normalize_zone_id (hz_id zone)) as [id|e] eqn:En; [|by eapply Hstop].
    apply traced_step in He as [found He]. rewrite <- app_assoc in He.
    assert (mutations (u ++ [Ev (GetHostedZone id) found]) = []) as Hm' by by rewrite mutations_app, Hm.
    destruct found as [[found|]|e]; cbn [ok_or] in He; [|by eapply Hstop..].
    destruct (validate_created_zone found _ _) as [[]|e] eqn:Evc; [|by eapply Hstop].
    destruct He as [-> ->]. eexists. split_and!; [done|done|]. right. exists zone, found, id.
    split_and!; [by apply Hsome|done|by rewrite removelast_last|done|done].
  - right. destruct (Hnone eq_refl) as (pages&->&Hc&Hu). apply traced_step in He as [answer He].
    rewrite <- app_assoc in He. exists pages, answer.
    destruct answer as [created|e]; destruct He as [-> ->]; split_and!; try done.
    by eapply created_learned.
Qed.
End traces.

(** C31.  A zone is deleted, and signing is enabled, only on evidence from the
    same run.  Whatever the API answers: a run of either deletion, or of
    [set_dnssec], that sends no mutation ends in an error.  [delete_zone] sends its
    request only with an approval of exactly that zone and revision, without
    acknowledgements, and [delete_zone_with_exact_guard] for a public zone only; both
    only after the zone was read in the run at that revision, with only its two default
    record sets and, unless it is private, not signed and without a key that has a DS
    record.  Only enabling is ever sent for signing: for a public zone read at the
    expected revision that is not signed, or no longer, or has a key which needs
    action, and at a second reading has an active key with a DS record.  At most one
    mutation is sent, as the last call; the provider's error is returned, an accepted
    mutation is reported with the provider's state, as an unknown outcome, or, for an
    unsupported status, as a validation error. *)
Theorem route53_lifecycle_guarded `{Idna, RecordDigest, Crypto, LifecycleDigest, TokenCodec LifecycleMutationToken}
    (self : Route53DnsAdapter) (zone : DnsZoneRef) (revision : string)
    (r : DnsProviderResult ZoneLifecycleMutationReceipt) (trace : list r53_event) :
  (∀ p admitted, deletion self zone revision p admitted → exec traced p [] r trace →
     (mutations trace = [] ∧ ∃ e, r = Err e) ∨
     ∃ raw info answer,
       trace = evidence (zr_zone_id zone) raw info ++ [Ev (DeleteHostedZone (zr_zone_id zone)) answer] ∧
       admitted ∧ deletion_allowed zone revision raw info ∧ answered answer r) ∧
  (∀ desired, exec traced (set_dnssec self zone desired revision) [] r trace →
     (mutations trace = [] ∧ ∃ e, r = Err e) ∨
     ∃ raw info again answer,
       desired = DesiredEnabled ∧
       trace = evidence (zr_zone_id zone) raw (Some info) ++
         [Ev (GetDnssec (zr_zone_id zone)) (Ok again); Ev (EnableHostedZoneDnssec (zr_zone_id zone)) answer] ∧
       signing_allowed zone revision raw info again ∧ answered answer r).
Proof.
  split.
  - intros p admitted Hd He. destruct (deletion_exec _ _ _ _ _ _ _ _ Hd He) as [[(u&->&Hu) Hr]|?]; [by left|by right].
  - intros desired He. apply set_dnssec_exec in He as [[(u&->&Hu) Hr]|?]; [by left|by right].
Qed.

(** C33.  Creating a zone is idempotent.  Whatever the API answers, a creation
    request is sent at most once, as the last call of the run, and only after a
    complete listing of the account in the same run, from the first page to the
    last, in which no zone carries the caller reference derived from the
    idempotency key; when a zone carries it the run sends no mutation and reports
    that zone as created after having read it again, or fails. *)
Theorem route53_creation_idempotent `{Idna, RecordDigest, Crypto, LifecycleDigest, TokenCodec LifecycleMutationToken}
    (self : Route53DnsAdapter) (request : ZoneCreationRequest)
    (r : DnsProviderResult ZoneLifecycleMutationReceipt) (trace : list r53_event) :
  exec traced (create_zone self request) [] r trace →
  (mutations trace = [] ∧
     ((∃ e, r = Err e) ∨
      ∃ zone found id before, hz_caller_reference zone = request_reference self request ∧
        normalize_zone_id (hz_id zone) = Ok id ∧
        trace = before ++ [Ev (GetHostedZone id) (Ok (Some found))] ∧
        validate_created_zone found request (request_reference self request) = Ok tt ∧
        r = recovered_create_receipt self id)) ∨
  ∃ pages answer,
    trace = listing_calls None pages ++
      [Ev (CreateHostedZone (mkCreateZone (cr_apex request) (request_reference self request))) answer] ∧
    complete_listing pages ∧ unused (request_reference self request) pages ∧
    match answer with Err e => r = Err e | Ok created => learned (ci_status (czr_change created)) r end.
Proof.
  intros [(u&->&Hm&[Hr|(zone&found&id&?&?&Hu&?&?)])|?]%create_exec; [left|left|by right].
  - split; [done|by left].
  - split; [done|]. right. exists zone, found, id, (removelast u). done.
Qed.

(** ** Receipts of lifecycle mutations *)

Section lifecycle_receipts.
Context `{Idna, RecordDigest, CryptoLaws, LifecycleDigest, TokenCodecLaws LifecycleMutationToken}.
Context (self : Route53DnsAdapter).

Lemma sign_lifecycle_decodes token id :
  lt_version token = 1%Z → lt_center_scope token = scope_hash (ad_center_account_id self) →
  lt_account_scope token = scope_hash (ad_aws_account_id self) →
  (∃ scope, lt_zone_scope token = Some scope ∧ scope ≠ "") →
  sign_lifecycle self token = Ok id → decode_mutation self id = Ok token.
Proof.
  intros Hv Hc Ha (scope&Hz&Hne). unfold sign_lifecycle, decode_mutation.
  destruct (lifecycle_token_key self) as [key|]; [|done]. cbn [map_err].
  unfold ZoneLifecycleMutationId_new, lifecycle_id_new. destruct (text_invalid _ _); [done|].
  intros [= <-]. rewrite verify_sign. cbn [map_err].
  rewrite Hv, Hc, Ha, Hz, !String.eqb_refl. cbn [Z.eqb Pos.eqb negb orb]. by destruct scope.
Qed.

Lemma lifecycle_change_receipt_id id status receipt :
  lifecycle_change_receipt id status = Ok receipt → mr_mutation_id receipt = id.
Proof.
  unfold lifecycle_change_receipt. destruct (String.eqb _ _); [by intros [= <-]|].
  destruct (String.eqb _ _); [by intros [= <-]|done].
Qed.

(** A lifecycle receipt leads back to the change it was issued for.
    Observing the receipt of an accepted mutation asks the provider for exactly
    the change the provider named, reports its state if it is the same change
    submitted at the same time, and fails otherwise; the receipt of a recovered
    creation is reported as succeeded without asking. *)
Theorem route53_lifecycle_receipt_roundtrip (zone_id : string) (op : LifecycleOperation)
    (change : Route53ChangeInfo) (receipt recovered : ZoneLifecycleMutationReceipt) :
  scope_hash zone_id ≠ "" →
  lifecycle_receipt self (Some zone_id) op change = Ok receipt →
  recovered_create_receipt self zone_id = Ok recovered →
  (∃ id, normalize_change_id (ci_id change) = Ok id ∧
     ∀ r trace, exec traced (observe_mutation self (mr_mutation_id receipt)) [] r trace →
       ∃ answer, trace = [Ev (GetChange id) answer] ∧
       match answer with
       | Ok (Some now) =>
           if bool_decide (normalize_change_id (ci_id now) = Ok id)
              && (ci_submitted_at_unix_seconds now =? ci_submitted_at_unix_seconds change)%Z
           then r = lifecycle_change_receipt (mr_mutation_id receipt) (ci_status now)
           else ∃ e, r = Err e
       | Ok None => ∃ e, r = Err e
       | Err e => r = Err e
       end) ∧
  observe_mutation self (mr_mutation_id recovered) = Ret (Ok recovered).
Proof.
  intros Hne Hr Hrec. split.
  - unfold lifecycle_receipt in Hr. destruct (normalize_change_id (ci_id change)) as [id|] eqn:En; [|done].
    cbn [map_err] in Hr. destruct (_ <? 0)%Z; [done|].
    destruct (sign_lifecycle self _) as [mid|] eqn:Es; [|done].
    apply lifecycle_change_receipt_id in Hr as ->. apply sign_lifecycle_decodes in Es; [|done..|by eexists].
    exists id. split; [done|]. intros r trace. unfold observe_mutation. rewrite Es. cbn [lt_provider_change_id].
    rewrite (normalize_change_id_fixed _ _ En), bool_decide_eq_true_2 by done. cbn [negb].
    intros [answer He]%traced_step. exists answer. cbn [lt_submitted_at_unix_seconds] in He.
    destruct answer as [[now|]|e]; cbn [ok_or] in He; [|destruct He as [-> ->]; by eauto..].
    rewrite <- negb_andb in He. destruct (bool_decide _ && _); destruct He as [-> ->]; by eauto.
  - unfold recovered_create_receipt in Hrec. destruct (sign_lifecycle self _) as [mid|] eqn:Es; [|done].
    apply sign_lifecycle_decodes in Es; [|done..|by eexists]. injection Hrec as <-. cbn [mr_mutation_id].
    unfold observe_mutation. by rewrite Es.
Qed.
End lifecycle_receipts.

(** ** Concrete runs *)

Definition demo_account : ProviderAccountSpec :=
  mkSpec Aws (Some (ScopeAws "123456789012")) Ambient.
Definition keyed_adapter : Route53DnsAdapter := {|
  ad_center_account_id := "account-a"; ad_aws_account_id := "123456789012"; ad_cursor_key := "c";
  ad_mutation_receipt_verifier := Some (mkVerifier "account-a" "123456789012" "m");
  ad_lifecycle_token_key := Some "l" |}.

Lemma route53_adapter_scoped_witness :
  new_with_write_keys "123456789012" "account-a" demo_account "c" "m" "l" = Ok keyed_adapter ∧
  adapter_scoped "123456789012" keyed_adapter.
Proof.
  assert (new_with_write_keys "123456789012" "account-a" demo_account "c" "m" "l" = Ok keyed_adapter) as Hn
    by (vm_compute; reflexivity).
  split; [exact Hn|]. apply (route53_adapter_scoped "123456789012" keyed_adapter).
  exact (by_write_keys _ _ _ _ _ _ _ Hn).
Defined.

Definition demo_lifecycle_digest : LifecycleDigest := λ zone _, "rev-" +:+ hz_caller_reference zone.
Definition op_letter (op : LifecycleOperation) : string :=
  match op with OpCreate => "c" | OpDelete => "d" | OpEnableDnssec => "e" end.
Definition opt_str (o : option string) : string := match o with None => "" | Some s => String "+" s end.
Definition str_opt (s : string) : option string := match s with EmptyString => None | String _ s => Some s end.
Definition demo_lifecycle_codec : TokenCodec LifecycleMutationToken := {|
  to_json t := enc_fields [z_str (lt_version t); lt_center_scope t; lt_account_scope t;
    opt_str (lt_zone_scope t); opt_str (lt_provider_change_id t);
    z_str (lt_submitted_at_unix_seconds t); op_letter (lt_operation t)];
  from_json s := match dec_fields s "" with
    | [v; c; a; z; p; t; o] =>
        v ← str_z v; t ← str_z t;
        Some (mkLifecycleToken v c a (str_opt z) (str_opt p) t
          (if String.eqb o "c" then OpCreate else if String.eqb o "d" then OpDelete else OpEnableDnssec))
    | _ => None
    end |}.
Lemma demo_lifecycle_codec_laws : @TokenCodecLaws LifecycleMutationToken demo_lifecycle_codec.
Proof.
  split; intros [v c a z p t o]; unfold to_json, from_json, demo_lifecycle_codec.
  - rewrite dec_enc_fields. cbn. rewrite !str_z_str. by destruct o, z, p.
  - apply esc_nonempty.
Qed.

Definition demo_empty_zone : Route53HostedZone :=
  mkHostedZone "/hostedzone/Z1D633PJN98FT9" "example.com." false "ref" 2 ["ns-1.example.net."] false false.
Definition demo_change : Route53ChangeInfo := mkChangeInfo "/change/C2682N5HXP0BZ4" "PENDING" 1700000000 None.
Definition lifecycle_answer (X : Type) (e : r53_call X) : X :=
  match e with
  | GetHostedZone _ => Ok (Some demo_empty_zone)
  | ListHostedZones _ _ => Ok (mkZonePage [demo_empty_zone] false None)
  | ListRecordSets _ _ _ => Err (validation "unexpected")
  | ChangeRecordSets _ _ => Err (validation "unexpected")
  | GetChange _ => Ok None
  | CreateHostedZone request => Ok (mkCreateZoneResult
      (mkHostedZone "/hostedzone/Z2" "new.example." false (cz_caller_reference request) 2
        ["ns-1.example.net."] false false) demo_change)
  | GetDnssec _ => Ok (mkDnssecInfo "NOT_SIGNING" [])
  | DeleteHostedZone _ | EnableHostedZoneDnssec _ | DisableHostedZoneDnssec _ => Ok demo_change
  end.
Definition lifecycle_api (X : Type) (e : r53_call X) (s : list r53_event) : X * list r53_event :=
  (lifecycle_answer X e, s ++ [Ev e (lifecycle_answer X e)]).
Lemma lifecycle_api_traced X (e : r53_call X) s x s' : lifecycle_api X e s = (x, s') → traced X e s x s'.
Proof. by intros [= <- <-]. Qed.

Definition delete_request : ZoneDeletionRequest :=
  mkDeletionRequest demo_zone "rev-ref" (mkApproval "rev-ref" demo_zone "operator" "today" []).
Definition delete_run := run lifecycle_api (@delete_zone demo_idna demo_crypto
  demo_lifecycle_digest demo_lifecycle_codec keyed_adapter delete_request) [].
Definition create_request : ZoneCreationRequest := mkCreation "account-a" Aws "new.example" Public "key-1".
Definition create_run := run lifecycle_api (@create_zone demo_idna demo_crypto demo_lifecycle_codec
  keyed_adapter create_request) [].

Lemma route53_lifecycle_guarded_witness :
  (∃ id, delete_run.1 = Ok (mkMutationReceipt id MutPending)) ∧
  ∃ raw info answer,
    delete_run.2 = evidence "Z1D633PJN98FT9" raw info ++ [Ev (DeleteHostedZone "Z1D633PJN98FT9") answer] ∧
    approved delete_request ∧ @deletion_allowed demo_idna demo_lifecycle_digest demo_zone "rev-ref" raw info.
Proof.
  split; [eexists; vm_compute; reflexivity|].
  destruct (@route53_lifecycle_guarded demo_idna demo_digest demo_crypto demo_lifecycle_digest
    demo_lifecycle_codec keyed_adapter demo_zone "rev-ref" delete_run.1 delete_run.2) as [Hd _].
  destruct (Hd _ _ (by_request keyed_adapter demo_zone "rev-ref" delete_request eq_refl eq_refl))
    as [[_ [e He]]|(raw&info&answer&Ht&Hr&Ha&_)].
  - apply (run_exec _ lifecycle_api); [exact lifecycle_api_traced|]. apply surjective_pairing.
  - vm_compute in He. discriminate He.
  - exists raw, info, answer. split; [exact Ht|]. split; [exact Hr|exact Ha].
Defined.

Lemma route53_creation_idempotent_witness :
  (∃ id, create_run.1 = Ok (mkMutationReceipt id MutPending)) ∧
  ∃ pages, complete_listing pages ∧
    unused (@request_reference demo_crypto keyed_adapter create_request) pages.
Proof.
  split; [eexists; vm_compute; reflexivity|].
  destruct (@route53_creation_idempotent demo_idna demo_digest demo_crypto demo_lifecycle_digest
    demo_lifecycle_codec keyed_adapter create_request create_run.1 create_run.2)
    as [[Hm _]|(pages&answer&_&Hc&Hu&_)].
  - apply (run_exec _ lifecycle_api); [exact lifecycle_api_traced|]. apply surjective_pairing.
  - vm_compute in Hm. discriminate Hm.
  - exists pages. split; [exact Hc|exact Hu].
Defined.

Definition demo_lifecycle_receipt : ZoneLifecycleMutationReceipt :=
  match @lifecycle_receipt demo_crypto demo_lifecycle_codec keyed_adapter (Some "Z1") OpDelete demo_change with
  | Ok receipt => receipt
  | Err _ => mkMutationReceipt "" MutFailed
  end.
Definition demo_recovered : ZoneLifecycleMutationReceipt :=
  match @recovered_create_receipt demo_crypto demo_lifecycle_codec keyed_adapter "Z1" with
  | Ok receipt => receipt
  | Err _ => mkMutationReceipt "" MutFailed
  end.

Lemma route53_lifecycle_receipt_roundtrip_witness :
  @observe_mutation demo_crypto demo_lifecycle_codec keyed_adapter (mr_mutation_id demo_recovered) =
  Ret (Ok demo_recovered).
Proof.
  apply (@route53_lifecycle_receipt_roundtrip demo_crypto demo_crypto_laws demo_lifecycle_codec
    demo_lifecycle_codec_laws keyed_adapter "Z1" OpDelete demo_change demo_lifecycle_receipt demo_recovered);
    [discriminate|vm_compute; reflexivity|vm_compute; reflexivity].
Defined.
