(* ===== verification/CloudflareModel.v ===== *)
(** * CloudflareModel: the Cloudflare record codec

    The data types of [crates/center-adapter-cloudflare/src/lib.rs], the mapping
    of the provider's JSON records in [http.rs], the rendering of record sets,
    and the mapping of zones.  The lemmas show that every value that can be
    rendered is read back from what the provider echoes of it. *)

From Stdlib Require Import ZArith Ascii String Lia.
From S2P Require Import Prelude Text Core Json BTree NetAddr Dns DnsChange ProviderErrors RecordValues.

(** ** Errors *)

Definition provider_error (category : ProviderErrorCategory) (code : string) : NormalizedProviderError :=
  mkProviderError category code "Cloudflare DNS adapter rejected the request" None None.
Definition validation (code : string) : NormalizedProviderError := provider_error CatValidation code.
Definition conflict (code : string) : NormalizedProviderError := provider_error CatConflict code.
Definition not_found (code : string) : NormalizedProviderError := provider_error CatNotFound code.
Definition unknown_outcome (code : string) : NormalizedProviderError := provider_error CatUnknownOutcome code.
(** [.map_err(|_| validation(code))]. *)
Definition or_invalid {A E} (code : string) (r : result A E) : DnsProviderResult A :=
  map_err (λ _, validation code) r.

(** [malformed] of [http.rs]: the same category, another message. *)
Definition malformed (code : string) : NormalizedProviderError :=
  mkProviderError CatValidation code "Cloudflare API request failed" None None.

Definition valid_cloudflare_identifier (value : string) : bool :=
  (str_len value =? 32)%Z && str_all (λ c, is_ascii_digit c || in_range 97 102 c) value.

(** ** Zones *)

Inductive CloudflareZoneKind := KindFull | KindPartial | KindSecondary | KindInternal.
#[export] Instance CloudflareZoneKind_eq_dec : EqDecision CloudflareZoneKind.
Proof. solve_decision. Defined.
Inductive CloudflareZoneStatus := ZoneInitializing | ZonePending | ZoneActive | ZoneMoved.
Record CloudflareZone := mkCfZone {
  cz_id : string;
  cz_account_id : string;
  cz_name : string;
  cz_kind : CloudflareZoneKind;
  cz_status : CloudflareZoneStatus;
  cz_name_servers : list string;             (* BTreeSet *)
  cz_modified_on : option string;
}.
Record ObservedCloudflareZone := mkObservedCfZone {
  oc_zone : DnsZoneRef;
  oc_kind : CloudflareZoneKind;
  oc_status : CloudflareZoneStatus;
  oc_name_servers : list string;             (* BTreeSet *)
  oc_revision : option string;
}.

Section zones.
Context `{Idna}.

Definition map_zone_for_account (center_account_id cloudflare_account_id : string) (zone : CloudflareZone) :
    DnsProviderResult ObservedDnsZone :=
  if negb (String.eqb (cz_account_id zone) cloudflare_account_id)
  then Err (validation "cloudflare_zone_account_mismatch")
  else
    let visibility := match cz_kind zone with
                      | KindFull | KindPartial | KindSecondary => Public
                      | KindInternal => Private
                      end in
    let? zone_id := or_invalid "invalid_zone_id" (DnsZoneId_new (cz_id zone)) in
    let? apex := or_invalid "invalid_zone_name" (AbsoluteDnsName_new (cz_name zone)) in
    let? revision := or_invalid "invalid_zone_revision" (transpose DnsRecordRevision_new (cz_modified_on zone)) in
    Ok {| oz_zone := {| zr_provider_account_id := center_account_id; zr_provider := Cloudflare;
                        zr_zone_id := zone_id; zr_apex := apex; zr_visibility := visibility |};
          oz_revision := revision |}.

Definition map_zone_inventory_for_account (center_account_id cloudflare_account_id : string)
    (zone : CloudflareZone) : DnsProviderResult ObservedCloudflareZone :=
  if negb (valid_cloudflare_identifier (cz_id zone)) then Err (validation "invalid_cloudflare_zone_id")
  else if negb (valid_cloudflare_identifier (cz_account_id zone))
  then Err (validation "invalid_cloudflare_zone_account_id")
  else
    let? observed := map_zone_for_account center_account_id cloudflare_account_id zone in
    Ok (mkObservedCfZone (oz_zone observed) (cz_kind zone) (cz_status zone) (cz_name_servers zone)
          (oz_revision observed)).
End zones.

(** ** Records *)

Record CloudflareRecord := mkCfRecord {
  cr_id : string;
  cr_name : string;
  cr_ttl : Z;                                (* u32 *)
  cr_value : DnsRecordSetValue;
  cr_proxied : option bool;
  cr_proxiable : bool;
  cr_flatten_cname : option bool;
  cr_ipv4_only : bool;
  cr_ipv6_only : bool;
  cr_private_routing : bool;
  cr_comment : option string;
  cr_tags : list string;                     (* BTreeSet *)
  cr_modified_on : option string;
}.
#[export] Instance CloudflareRecord_eq_dec : EqDecision CloudflareRecord.
Proof. solve_decision. Defined.

(** *** What the API answers ([RawRecord] of [http.rs]) *)

Record RawSettings := mkRawSettings {
  rs_ipv4_only : bool;
  rs_ipv6_only : bool;
  rs_flatten_cname : option bool;
}.
Record RawRecord := mkRawRecord {
  rr_id : string;
  rr_name : string;
  rr_kind : string;
  rr_ttl : Z;                                (* u32 *)
  rr_content : option string;
  rr_data : option Value;
  rr_priority : option Z;                    (* u16 *)
  rr_proxied : option bool;
  rr_proxiable : bool;
  rr_settings : option RawSettings;
  rr_private_routing : bool;
  rr_comment : option string;
  rr_tags : list string;
  rr_modified_on : option string;
}.

Definition as_u64 (v : Value) : option Z := match v with Number s => parse_u64 s | _ => None end.
Definition data_u16 (data : option Value) (field : string) : option Z :=
  d ← data; v ← Json.get field d; n ← as_u64 v; if (n <=? U16_MAX)%Z then Some n else None.
Definition required_data_u16 (data : option Value) (field code : string) : DnsProviderResult Z :=
  ok_or (malformed code) (data_u16 data field).
Definition required_data_u8 (data : option Value) (field code : string) : DnsProviderResult Z :=
  ok_or (malformed code)
    (d ← data; v ← Json.get field d; n ← as_u64 v; if (n <=? U8_MAX)%Z then Some n else None).
Definition required_data_str (data : option Value) (field code : string) : DnsProviderResult string :=
  ok_or (malformed code) (d ← data; v ← Json.get field d; as_str v).
Definition required_content (value : option string) : DnsProviderResult string :=
  ok_or (malformed "missing_cloudflare_record_content") value.

(** *** Text *)

Definition is_ascii_control (c : ascii) : bool := (byte_val c <? 32)%N || (byte_val c =? 127)%N.
Definition digit_z (c : ascii) : Z := byte_z c - 48.

(** The loop of [txt_value]: the segment being read, if any, and whether a white
    space or the end must follow. *)
Inductive txt_state := Between | AfterQuote | Inside (segment : list Z).
Fixpoint scan_txt (s : string) (st : txt_state) (segments : list (list Z)) :
    DnsProviderResult (list (list Z)) :=
  let invalid := Err (malformed "invalid_cloudflare_txt_content") in
  match s with
  | EmptyString => match st with Inside _ => invalid | _ => Ok segments end
  | String c s =>
      match st with
      | Between =>
          if is_ascii_whitespace c then scan_txt s Between segments
          else if Ascii.eqb c ch_quote then scan_txt s (Inside []) segments else invalid
      | AfterQuote => if is_ascii_whitespace c then scan_txt s Between segments else invalid
      | Inside segment =>
          let push v rest :=
            if (255 <? zlen (segment ++ [v]))%Z then Err (malformed "invalid_cloudflare_txt_segment_length")
            else rest (Inside (segment ++ [v])) in
          if Ascii.eqb c ch_quote then
            let? segment := map_err (λ _, malformed "invalid_cloudflare_txt_segment")
                              (DnsCharacterString_new segment) in
            scan_txt s AfterQuote (segments ++ [segment])
          else if Ascii.eqb c ch_backslash then
            match s with
            | EmptyString => invalid
            | String x s1 =>
                let plain := push (byte_z x) (λ st, scan_txt s1 st segments) in
                match s1 with
                | String y (String z s3) =>
                    if is_ascii_digit x && is_ascii_digit y && is_ascii_digit z then
                      let numeric := (digit_z x * 100 + digit_z y * 10 + digit_z z)%Z in
                      if (U8_MAX <? numeric)%Z then Err (malformed "invalid_cloudflare_txt_numeric_escape")
                      else push numeric (λ st, scan_txt s3 st segments)
                    else plain
                | _ => plain
                end
            end
          else if is_ascii_control c then invalid
          else push (byte_z c) (λ st, scan_txt s st segments)
      end
  end.
Definition txt_value (value : string) : DnsProviderResult (list (list Z)) :=
  let? segments := scan_txt value Between [] in
  map_err (λ _, malformed "invalid_cloudflare_txt_content") (DnsTxtValue_new segments).

(** *** [map_record] *)

Section map_record.
Context `{Idna}.

Definition absolute_name (value code : string) : DnsProviderResult string :=
  map_err (λ _, malformed code) (AbsoluteDnsName_new value).

Definition map_value (kind : string) (content : option string) (data : option Value) (priority : option Z) :
    DnsProviderResult DnsRecordSetValue :=
  if String.eqb kind "A" then
    let? content := required_content content in
    let? address := ok_or (malformed "invalid_cloudflare_a_content") (ipv4_from_str content) in
    Ok (VA address)
  else if String.eqb kind "AAAA" then
    let? content := required_content content in
    let? address := ok_or (malformed "invalid_cloudflare_aaaa_content") (ipv6_from_str content) in
    Ok (VAaaa address)
  else if String.eqb kind "CNAME" then
    let? content := required_content content in
    let? target := absolute_name content "invalid_cloudflare_cname_content" in
    Ok (VCname target)
  else if String.eqb kind "NS" then
    let? content := required_content content in
    let? target := absolute_name content "invalid_cloudflare_ns_content" in
    Ok (VNs target)
  else if String.eqb kind "TXT" then
    let? content := required_content content in
    let? value := txt_value content in
    Ok (VTxt value)
  else if String.eqb kind "MX" then
    let? preference := ok_or (malformed "missing_cloudflare_mx_priority")
                         (match priority with Some p => Some p | None => data_u16 data "priority" end) in
    let? content := required_content content in
    let? exchange := absolute_name content "invalid_cloudflare_mx_content" in
    Ok (VMx preference exchange)
  else if String.eqb kind "SRV" then
    let? p := required_data_u16 data "priority" "missing_cloudflare_srv_priority" in
    let? w := required_data_u16 data "weight" "missing_cloudflare_srv_weight" in
    let? o := required_data_u16 data "port" "missing_cloudflare_srv_port" in
    let? t := required_data_str data "target" "missing_cloudflare_srv_target" in
    let? target := absolute_name t "invalid_cloudflare_srv_target" in
    Ok (VSrv p w o target)
  else if String.eqb kind "CAA" then
    let? flags := required_data_u8 data "flags" "missing_cloudflare_caa_flags" in
    let? tag := required_data_str data "tag" "missing_cloudflare_caa_tag" in
    let? tag := map_err (λ _, malformed "invalid_cloudflare_caa_tag") (CaaTag_new tag) in
    let? value := required_data_str data "value" "missing_cloudflare_caa_value" in
    let? value := map_err (λ _, malformed "invalid_cloudflare_caa_value")
                    (DnsCharacterString_new (str_bytes value)) in
    Ok (VCaa flags tag value)
  else Err (malformed "unsupported_cloudflare_record_type").

(** The loop that fills the set of tags. *)
Fixpoint insert_tags (tags seen : list string) : DnsProviderResult (list string) :=
  match tags with
  | [] => Ok seen
  | tag :: tags =>
      if bool_decide (tag ∈ seen) then Err (malformed "duplicate_cloudflare_record_tag")
      else insert_tags tags (bts_insert tag seen)
  end.

Definition map_record (record : RawRecord) : DnsProviderResult CloudflareRecord :=
  let? value := map_value (rr_kind record) (rr_content record) (rr_data record) (rr_priority record) in
  let settings := default (mkRawSettings false false None) (rr_settings record) in
  let? tags := insert_tags (rr_tags record) [] in
  Ok (mkCfRecord (rr_id record) (rr_name record) (rr_ttl record) value (rr_proxied record)
        (rr_proxiable record) (rs_flatten_cname settings) (rs_ipv4_only settings) (rs_ipv6_only settings)
        (rr_private_routing record) (rr_comment record) tags (rr_modified_on record)).
End map_record.

(** ** Rendering *)

Record CloudflareBatchRecord := mkBatchRecord {
  br_kind : string;
  br_name : string;
  br_ttl : Z;                                (* u32 *)
  br_content : option string;
  br_data : option Value;
  br_priority : option Z;                    (* u16 *)
  br_proxied : option bool;
  br_settings : option (option bool);        (* flatten_cname *)
  br_comment : option string;
  br_tags : list string;                     (* BTreeSet *)
}.
Record RenderedValue := mkRendered {
  rv_kind : string;
  rv_content : option string;
  rv_data : option Value;
  rv_priority : option Z;
}.
Definition rendered_content (kind content : string) : RenderedValue :=
  mkRendered kind (Some content) None None.

(** [format!("\\{value:03}")] of a byte, and the rendering of one. *)
Definition byte_char (v : Z) : ascii := ascii_of_N (Z.to_N v).
Definition decimal_escape (v : Z) : string :=
  String ch_backslash (String (byte_char (48 + v / 100)) (String (byte_char (48 + v / 10 mod 10))
    (String (byte_char (48 + v mod 10)) EmptyString))).
Definition render_byte (v : Z) : string :=
  if (v =? 34)%Z || (v =? 92)%Z then String ch_backslash (String (byte_char v) EmptyString)
  else if (32 <=? v)%Z && (v <=? 126)%Z then String (byte_char v) EmptyString
  else decimal_escape v.
Fixpoint render_bytes (value : list Z) : string :=
  match value with [] => EmptyString | v :: value => render_byte v +:+ render_bytes value end.
Definition render_segment (segment : list Z) : string :=
  String ch_quote (render_bytes segment +:+ String ch_quote EmptyString).
Definition render_txt (segments : list (list Z)) : string := join_with ch_space (map render_segment segments).

Definition number (n : Z) : Value := Number (u64_to_string n).
Fixpoint bytes_str (bytes : list Z) : string :=
  match bytes with [] => EmptyString | v :: bytes => String (byte_char v) (bytes_str bytes) end.

Definition render_value (v : DnsRecordSetValue) : DnsProviderResult RenderedValue :=
  match v with
  | VA address => Ok (rendered_content "A" (ipv4_fmt address))
  | VAaaa address => Ok (rendered_content "AAAA" (ipv6_fmt address))
  | VCname target => Ok (rendered_content "CNAME" target)
  | VTxt value => Ok (rendered_content "TXT" (render_txt value))
  | VMx preference exchange =>
      Ok (mkRendered "MX" (Some exchange)
            (Some (Object [("priority", number preference); ("target", Str exchange)])) (Some preference))
  | VSrv priority weight port target =>
      Ok (mkRendered "SRV" None
            (Some (Object [("priority", number priority); ("weight", number weight); ("port", number port);
                           ("target", Str target)])) None)
  | VCaa flags tag value =>
      if utf8_valid (bytes_str value) then
        Ok (mkRendered "CAA" None
              (Some (Object [("flags", number flags); ("tag", Str tag); ("value", Str (bytes_str value))])) None)
      else Err (validation "cloudflare_caa_value_not_utf8")
  | VNs target => Ok (rendered_content "NS" target)
  | VSoa _ _ _ _ _ _ _ => Err (validation "cloudflare_soa_mutation_unsupported")
  end.

Definition flatten_setting (flattening : CloudflareCnameFlattening) : option bool :=
  match flattening with ProviderDefault => None | Flatten => Some true | DoNotFlatten => Some false end.

(** The first two [match]es of [render_record_set]. *)
Definition render_options (extension : option DnsRecordExtension) :
    DnsProviderResult (option bool * option (option bool) * option string * list string) :=
  match extension with
  | Some (ExtCloudflare proxy flattening comment tags) =>
      Ok ((λ value, bool_decide (value = Proxied)) <$> proxy,
          (λ flatten, Some flatten) <$> flatten_setting flattening, comment, tags)
  | None => Ok (None, None, None, [])
  | Some (ExtRoute53 _ _ _) => Err (validation "invalid_cloudflare_record_extension")
  end.
Definition render_ttl (ttl : DnsTtl) : DnsProviderResult Z :=
  match ttl with
  | Automatic => Ok 1%Z
  | Seconds value => Ok value
  | Inherited => Err (validation "invalid_cloudflare_record_ttl")
  end.

Definition render_record_set (record_set : ProviderDnsRecordSet) :
    DnsProviderResult (list CloudflareBatchRecord) :=
  let? options := render_options (rs_extension record_set) in
  let '(proxied, settings, comment, tags) := options in
  let? ttl := render_ttl (rs_ttl record_set) in
  collect (λ value,
    let? rendered := render_value value in
    Ok (mkBatchRecord (rv_kind rendered) (rs_owner record_set) ttl (rv_content rendered) (rv_data rendered)
          (rv_priority rendered) proxied settings comment tags)) (rs_values record_set).

(** ** Values survive the round trip *)

(** Each byte is rendered in one of three ways the scanner reads back. *)
Definition byte_read_back (v : Z) : bool :=
  match render_byte v with
  | String c EmptyString =>
      negb (Ascii.eqb c ch_quote) && negb (Ascii.eqb c ch_backslash) && negb (is_ascii_control c)
      && (byte_z c =? v)%Z
  | String b (String d EmptyString) =>
      Ascii.eqb b ch_backslash && negb (is_ascii_digit d) && (byte_z d =? v)%Z
  | String b (String x (String y (String z EmptyString))) =>
      Ascii.eqb b ch_backslash && (is_ascii_digit x && is_ascii_digit y && is_ascii_digit z)
      && (digit_z x * 100 + digit_z y * 10 + digit_z z =? v)%Z
  | _ => false
  end.
Lemma bytes_read_back : forallb byte_read_back (zrange 256 0) = true.
Proof. by vm_compute. Qed.

Lemma escaped_plain x rest segment segments :
  is_ascii_digit x = false → (zlen (segment ++ [byte_z x]) <= 255)%Z →
  scan_txt (String ch_backslash (String x rest)) (Inside segment) segments =
  scan_txt rest (Inside (segment ++ [byte_z x])) segments.
Proof.
  intros Hx Hl%Z.ltb_ge. cbn [scan_txt]. rewrite Hx, Hl. cbn [andb].
  change (Ascii.eqb ch_backslash ch_quote) with false. rewrite Ascii.eqb_refl. cbn beta iota.
  by destruct rest as [|y [|z s]].
Qed.

Lemma escaped_numeric x y z rest segment segments :
  is_ascii_digit x && is_ascii_digit y && is_ascii_digit z = true →
  let v := (digit_z x * 100 + digit_z y * 10 + digit_z z)%Z in
  (v <= U8_MAX)%Z → (zlen (segment ++ [v]) <= 255)%Z →
  scan_txt (String ch_backslash (String x (String y (String z rest)))) (Inside segment) segments =
  scan_txt rest (Inside (segment ++ [v])) segments.
Proof.
  intros Hd v Hv%Z.ltb_ge Hl%Z.ltb_ge. cbn [scan_txt]. rewrite Hd. fold v. rewrite Hv, Hl.
  change (Ascii.eqb ch_backslash ch_quote) with false. by rewrite Ascii.eqb_refl.
Qed.

Lemma scan_txt_byte v rest segment segments :
  (0 <= v <= U8_MAX)%Z → (zlen (segment ++ [v]) <= 255)%Z →
  scan_txt (render_byte v +:+ rest) (Inside segment) segments =
  scan_txt rest (Inside (segment ++ [v])) segments.
Proof.
  intros Hv Hl. pose proof (zrange_all _ _ _ v bytes_read_back ltac:(unfold U8_MAX in Hv; lia)) as Hok.
  unfold byte_read_back in Hok.
  destruct (render_byte v) as [|c [|d [|e [|f [|]]]]]; try done; rewrite !str_app_cons;
    rewrite ?andb_true_iff, ?negb_true_iff in Hok.
  - destruct Hok as [[[Hq Hb] Hc] <-%Z.eqb_eq]. cbn [scan_txt].
    by rewrite Hq, Hb, Hc, (proj2 (Z.ltb_ge _ _) Hl).
  - destruct Hok as [[->%Ascii.eqb_eq Hd] <-%Z.eqb_eq]. by apply escaped_plain.
  - destruct Hok as [[->%Ascii.eqb_eq Hd] Hz%Z.eqb_eq]. rewrite <- Hz in Hv, Hl |- *.
    rewrite <- !andb_true_iff in Hd. apply escaped_numeric; [done|lia|done].
Qed.

Lemma scan_txt_bytes value rest segment segments :
  bytes_ok value → (zlen (segment ++ value) <= 255)%Z →
  scan_txt (render_bytes value +:+ rest) (Inside segment) segments =
  scan_txt rest (Inside (segment ++ value)) segments.
Proof.
  intros Hv. revert segment. induction Hv as [|v value Hv Hvs IH]; intros segment Hl; cbn [render_bytes].
  { by rewrite app_nil_r. }
  assert (segment ++ v :: value = (segment ++ [v]) ++ value) as Heq by (by rewrite <- app_assoc).
  rewrite Heq in Hl |- *. rewrite str_app_assoc, scan_txt_byte, IH; [done|done|done|].
  unfold zlen in *. rewrite length_app in Hl. lia.
Qed.

Lemma scan_txt_segment value rest segments :
  bytes_ok value → (zlen value <= 255)%Z →
  scan_txt (render_segment value +:+ rest) Between segments = scan_txt rest AfterQuote (segments ++ [value]).
Proof.
  intros Hv Hl. unfold render_segment. rewrite str_app_cons, str_app_assoc.
  change (scan_txt (String ch_quote ?s) Between segments) with (scan_txt s (Inside []) segments).
  rewrite scan_txt_bytes by done. rewrite str_app_cons. cbn [scan_txt app].
  rewrite Ascii.eqb_refl. unfold DnsCharacterString_new. by rewrite (proj2 (Z.ltb_ge 255 (zlen value))).
Qed.

Lemma scan_txt_render segments acc :
  Forall (λ s, bytes_ok s ∧ zlen s <= 255)%Z segments →
  scan_txt (render_txt segments) Between acc = Ok (acc ++ segments).
Proof.
  unfold render_txt. intros Hs. revert acc. induction Hs as [|s segments [Hb Hl] Hs IH]; intros acc.
  { by rewrite app_nil_r. }
  destruct segments as [|s' segments].
  - cbn [map join_with]. rewrite <- (str_app_nil_r (render_segment s)). by rewrite scan_txt_segment.
  - change (join_with ch_space (map render_segment (s :: s' :: segments)))
      with (render_segment s +:+ String ch_space (join_with ch_space (map render_segment (s' :: segments)))).
    rewrite scan_txt_segment by done.
    change (scan_txt (String ch_space ?x) AfterQuote ?y) with (scan_txt x Between y).
    rewrite IH. by rewrite <- app_assoc.
Qed.

Lemma txt_value_render segments : txt_ok segments → txt_value (render_txt segments) = Ok segments.
Proof.
  intros [Hs Hn]. unfold txt_value. rewrite scan_txt_render by done. cbn [app]. by rewrite Hn.
Qed.

Lemma byte_char_back v : (0 <= v <= U8_MAX)%Z → byte_z (byte_char v) = v.
Proof.
  intros Hv. unfold byte_z, byte_char, byte_val. rewrite N_ascii_embedding; unfold U8_MAX in Hv; lia.
Qed.
Lemma str_bytes_back bytes : bytes_ok bytes → str_bytes (bytes_str bytes) = bytes.
Proof.
  induction 1 as [|v bytes Hv Hb IH]; [done|]. cbn [bytes_str str_bytes]. by rewrite byte_char_back, IH.
Qed.

(** What the provider returns of what was posted. *)
Definition kept {A} (posted returned : option A) : Prop := ∀ a, posted = Some a → returned = Some a.

Section value_roundtrip.
Context `{IdnaLaws}.

Lemma absolute_name_back n code : name_ok n → absolute_name n code = Ok n.
Proof. unfold absolute_name, name_ok. by intros ->. Qed.

Lemma number_back max n : within max n → (max <= U64_MAX)%Z → as_u64 (number n) = Some n.
Proof. intros Hn Hm. apply parse_u64_to_string. unfold within in Hn. lia. Qed.

(** A value whose rendering Cloudflare admits. *)
Definition cloudflare_value (v : DnsRecordSetValue) : Prop :=
  value_ok v ∧
  match v with
  | VSoa _ _ _ _ _ _ _ => False
  | VCaa _ _ value => utf8_valid (bytes_str value) = true
  | _ => True
  end.

Lemma render_map_value v content data priority :
  cloudflare_value v →
  ∃ rendered, render_value v = Ok rendered ∧
    (kept (rv_content rendered) content → kept (rv_data rendered) data →
     kept (rv_priority rendered) priority → map_value (rv_kind rendered) content data priority = Ok v).
Proof.
  assert (U8_MAX ≤ U64_MAX ∧ U16_MAX ≤ U64_MAX)%Z as (H8&H16) by done.
  unfold kept. intros [Hv Hc].
  destruct v as [a|a|t|segs|p e|p w o t|f t b|t|]; cbn [render_value]; [..|done].
  7: rewrite Hc.
  all: eexists; split; [reflexivity|]; cbn [rv_content rv_data rv_priority rv_kind];
    intros Hcontent Hdata Hpriority; unfold map_value; cbn [String.eqb Ascii.eqb Bool.eqb];
    try (specialize (Hcontent _ eq_refl)); try (specialize (Hdata _ eq_refl));
    try (specialize (Hpriority _ eq_refl)); subst.
  - unfold required_content. simpl. by rewrite ipv4_roundtrip.
  - unfold required_content. simpl. by rewrite ipv6_roundtrip.
  - unfold required_content. simpl. by rewrite absolute_name_back.
  - unfold required_content. simpl. by rewrite txt_value_render.
  - destruct Hv as [_ He]. unfold required_content. simpl. by rewrite absolute_name_back.
  - destruct Hv as (Hp&Hw&Ho&Ht). unfold required_data_u16, required_data_str, data_u16, Json.get.
    cbn [mbind option_bind field as_object String.eqb Ascii.eqb Bool.eqb].
    rewrite !(number_back U16_MAX) by done. cbn [mbind option_bind].
    unfold within in Hp, Hw, Ho. rewrite !(proj2 (Z.leb_le _ _)) by lia. simpl.
    by rewrite absolute_name_back.
  - destruct Hv as (Hf&Ht&Hb&Hl). unfold required_data_u8, required_data_str, Json.get.
    cbn [mbind option_bind field as_object String.eqb Ascii.eqb Bool.eqb].
    rewrite !(number_back U8_MAX) by done. cbn [mbind option_bind].
    unfold within in Hf. rewrite !(proj2 (Z.leb_le _ _)) by lia. simpl. rewrite Ht. simpl.
    rewrite str_bytes_back by done. unfold DnsCharacterString_new.
    by rewrite (proj2 (Z.ltb_ge 255 (zlen b))).
  - unfold required_content. simpl. by rewrite absolute_name_back.
Qed.
End value_roundtrip.
