(* ===== verification/CloudflareInventory.v ===== *)
(** * CloudflareInventory: from provider records to record sets

    [aggregate_records] of [crates/center-adapter-cloudflare/src/lib.rs] groups
    the records of a zone into record sets.  SHA-256 and the JSON encoder are the
    parameter [records_digest].  The aggregation is characterised group by group;
    the theorem shows that what is rendered for a record set and echoed by the
    provider aggregates to the same record set. *)

From Stdlib Require Import ZArith Ascii String Lia.
From S2P Require Import Prelude Text Core Json BTree NetAddr Dns DnsChange ProviderErrors RecordValues CloudflareModel.

(** ** Record sets *)

(** SHA-256 of the JSON of the members of a record set, in hexadecimal. *)
Class RecordsDigest := records_digest : list CloudflareRecord → string.
Class RecordsDigestLaws `{RecordsDigest} :=
  digest_short (l : list CloudflareRecord) :
    DnsRecordRevision_new ("sha256:" +:+ records_digest l) = Ok ("sha256:" +:+ records_digest l).

Record MemberSignature := mkSignature {
  ms_ttl : Z;
  ms_proxied : option bool;
  ms_proxiable : option bool;
  ms_flatten_cname : option bool;
  ms_comment : option string;
  ms_tags : list string;
}.
#[export] Instance MemberSignature_eq_dec : EqDecision MemberSignature.
Proof. solve_decision. Defined.

(** It never fails. *)
Definition member_signature (record : CloudflareRecord) (type : ProviderDnsRecordType) : MemberSignature :=
  let proxy_fields := type_in type proxiable in
  mkSignature (cr_ttl record) (if proxy_fields then cr_proxied record else None)
    (if proxy_fields then Some (cr_proxiable record) else None)
    (if bool_decide (type = TCname) then cr_flatten_cname record else None)
    (cr_comment record) (cr_tags record).

Definition observed_proxy (record : CloudflareRecord) (type : ProviderDnsRecordType) :
    DnsProviderResult (option CloudflareProxyOptions) :=
  match type_in type proxiable, cr_proxied record with
  | true, Some true => Ok (Some Proxied)
  | true, Some false => Ok (Some DnsOnly)
  | true, None => Err (validation "missing_cloudflare_proxy_state")
  | false, None | false, Some false => Ok None
  | false, Some true => Err (validation "invalid_cloudflare_proxy_state")
  end.

Definition cloudflare_extension (record : CloudflareRecord) (type : ProviderDnsRecordType) :
    DnsProviderResult (option DnsRecordExtension) :=
  if negb (bool_decide (type = TCname)) && bool_decide (is_Some (cr_flatten_cname record))
  then Err (validation "invalid_cloudflare_cname_flattening")
  else
    let? proxy := observed_proxy record type in
    if bool_decide (proxy = Some Proxied) && negb (cr_proxiable record)
    then Err (validation "cloudflare_record_not_proxiable")
    else
      let cname_flattening :=
        match bool_decide (type = TCname), cr_flatten_cname record with
        | true, Some true => Flatten
        | true, Some false => DoNotFlatten
        | _, _ => ProviderDefault
        end in
      if negb (type_in type proxiable) && negb (cr_ttl record =? 1)%Z
         && bool_decide (cr_comment record = None) && (zlen (cr_tags record) =? 0)%Z
         && bool_decide (cname_flattening = ProviderDefault)
      then Ok None
      else Ok (Some (ExtCloudflare proxy cname_flattening (cr_comment record) (cr_tags record))).

Section aggregate.
Context `{Idna, RecordsDigest}.

Definition record_key (record : CloudflareRecord) : DnsProviderResult DnsRecordSetKey :=
  let? owner := or_invalid "invalid_record_name" (DnsOwnerName_new (cr_name record)) in
  Ok (mkKey owner (record_type (cr_value record)) RSimple).

(** The first loop of [aggregate_records]: the groups by record identity. *)
Fixpoint group_records (zone : DnsZoneRef) (records : list CloudflareRecord) (object_ids : list string)
    (groups : list (DnsRecordSetKey * list CloudflareRecord)) :
    DnsProviderResult (list (DnsRecordSetKey * list CloudflareRecord)) :=
  match records with
  | [] => Ok groups
  | record :: records =>
      if negb (valid_cloudflare_identifier (cr_id record))
      then Err (validation "invalid_cloudflare_record_object_id")
      else if bool_decide (cr_id record ∈ object_ids) then Err (validation "duplicate_cloudflare_record_id")
      else if cr_ipv4_only record || cr_ipv6_only record || cr_private_routing record
      then Err (validation "unsupported_cloudflare_record_settings")
      else
        let? key := record_key record in
        if negb (is_within (key_owner key) (zr_apex zone))
        then Err (validation "cloudflare_record_outside_zone")
        else group_records zone records (bts_insert (cr_id record) object_ids)
               (btm_insert key (default [] (btm_get key groups) ++ [record]) groups)
  end.

(** The closure of the second: the record set of a group.  A group is never
    empty, so the [expect] of the source does not fail. *)
Definition observe_group (zone : DnsZoneRef) (group : DnsRecordSetKey * list CloudflareRecord) :
    DnsProviderResult ObservedDnsRecordSet :=
  let key := group.1 in
  let type := key_record_type key in
  match sort_by cr_id group.2 with
  | [] => Err (validation "unreachable")
  | first :: rest =>
      let members := first :: rest in
      if existsb (λ m, negb (bool_decide (member_signature m type = member_signature first type))) rest
      then Err (validation "heterogeneous_cloudflare_rrset")
      else
        let values := bts_of_list (map cr_value members) in
        if negb (zlen values =? zlen members)%Z then Err (validation "duplicate_cloudflare_record_value")
        else
          let? extension := cloudflare_extension first type in
          let record_set := mkRecordSet key (if (cr_ttl first =? 1)%Z then Automatic else Seconds (cr_ttl first))
                              values extension in
          let? _ := or_invalid "invalid_cloudflare_rrset" (ProviderDnsRecordSet_validate record_set zone) in
          let? ids := collect (λ m, or_invalid "invalid_record_object_id" (DnsRecordObjectId_new (cr_id m)))
                        members in
          let? revision := or_invalid "invalid_record_revision"
                             (DnsRecordRevision_new ("sha256:" +:+ records_digest members)) in
          Ok (mkObserved zone record_set (bts_of_list ids) revision)
  end.

Definition aggregate_records (zone : DnsZoneRef) (records : list CloudflareRecord) :
    DnsProviderResult (list ObservedDnsRecordSet) :=
  let? groups := group_records zone records [] [] in
  collect (observe_group zone) groups.
End aggregate.


(** ** The groups *)

Lemma identifier_id kind s :
  valid_cloudflare_identifier s = true → opaque_id_new kind MAX_OPAQUE_ID_LEN s = Ok s.
Proof.
  unfold valid_cloudflare_identifier. intros [Hl%Z.eqb_eq Hs]%andb_true_iff. apply graphic_id.
  - eapply str_all_mono; [|exact Hs]. apply byte_implies. by vm_compute.
  - by intros ->.
  - by rewrite Hl.
Qed.

Section inventory.
Context `{Idna, RecordsDigest}.

(** What the first loop asks of a record, and of the records together. *)
Record object_ok (zone : DnsZoneRef) (record : CloudflareRecord) : Prop := {
  oo_id : valid_cloudflare_identifier (cr_id record) = true;
  oo_settings : cr_ipv4_only record || cr_ipv6_only record || cr_private_routing record = false;
  oo_key : ∃ k, record_key record = Ok k ∧ is_within (key_owner k) (zr_apex zone) = true;
}.
Record records_ok (zone : DnsZoneRef) (records : list CloudflareRecord) : Prop := {
  ro_objects : Forall (object_ok zone) records;
  ro_ids : NoDup (map cr_id records);
}.

(** The records of an identity, in the order of the provider. *)
Definition group_at (records : list CloudflareRecord) (k : DnsRecordSetKey) : list CloudflareRecord :=
  base.filter (λ r, record_key r = Ok k) records.
Definition add_to_groups (groups : list (DnsRecordSetKey * list CloudflareRecord))
    (record : CloudflareRecord) : list (DnsRecordSetKey * list CloudflareRecord) :=
  match record_key record with
  | Ok k => btm_insert k (default [] (btm_get k groups) ++ [record]) groups
  | Err _ => groups
  end.
Definition grouped (records : list CloudflareRecord) : list (DnsRecordSetKey * list CloudflareRecord) :=
  foldl add_to_groups [] records.

Lemma group_records_iff zone records ids groups groups' :
  group_records zone records ids groups = Ok groups' ↔
  Forall (object_ok zone) records ∧ NoDup (map cr_id records) ∧
  (∀ r, r ∈ records → cr_id r ∉ ids) ∧ groups' = foldl add_to_groups groups records.
Proof.
  revert ids groups. induction records as [|r records IH]; intros ids groups; cbn [group_records map foldl].
  { split; [intros [= <-]|naive_solver]. split_and!; [constructor|constructor|set_solver|done]. }
  rewrite Forall_cons, NoDup_cons. split.
  - destruct (valid_cloudflare_identifier (cr_id r)) eqn:Hv; [|done]. cbn [negb].
    case_bool_decide as Hin; [done|]. destruct (_ || _ || _) eqn:Hs; [done|].
    destruct (record_key r) as [k|] eqn:Hk; [|done]. destruct (is_within _ _) eqn:Hw; [|done].
    cbn [negb]. intros (Ho&Hn&Hd&->)%IH. setoid_rewrite elem_of_bts_insert in Hd.
    split_and!; [split; [done|done|by exists k]|done| |done| |].
    + intros (r'&Hr'&Hin')%list_elem_of_fmap. apply (Hd r'); [done|]. by left.
    + intros r' [->|Hr']%elem_of_cons; [done|]. intros Hi. apply (Hd r'); [done|]. by right.
    + unfold add_to_groups. by rewrite Hk.
  - intros ([[Hv Hs (k&Hk&Hw)] Ho]&[Hr Hn]&Hd&->). rewrite Hv, Hs, Hk, Hw. cbn [negb].
    rewrite bool_decide_eq_false_2 by (apply Hd; by left). apply IH. split_and!; [done|done| |].
    + intros r' Hr'. rewrite elem_of_bts_insert. intros [Heq|Hin]; [|apply (Hd r'); [by right|done]].
      apply Hr. rewrite <- Heq. apply list_elem_of_fmap. by exists r'.
    + unfold add_to_groups. by rewrite Hk.
Qed.

Lemma grouped_snoc records r : grouped (records ++ [r]) = add_to_groups (grouped records) r.
Proof. unfold grouped. by rewrite foldl_app. Qed.

Lemma grouped_sorted records : sorted_map (grouped records).
Proof.
  induction records as [|r records IH] using rev_ind; [constructor|]. rewrite grouped_snoc.
  unfold add_to_groups. destruct (record_key r); [by apply btm_insert_sorted|done].
Qed.

Lemma group_at_snoc records r k :
  group_at (records ++ [r]) k = group_at records k ++ if decide (record_key r = Ok k) then [r] else [].
Proof. unfold group_at. by rewrite filter_app. Qed.

Lemma grouped_get records k :
  btm_get k (grouped records) = match group_at records k with [] => None | g => Some g end.
Proof.
  induction records as [|r records IH] using rev_ind; [done|].
  rewrite grouped_snoc, group_at_snoc. unfold add_to_groups.
  destruct (record_key r) as [k'|e] eqn:Hk.
  2: { by rewrite decide_False, app_nil_r. }
  destruct (decide (k = k')) as [->|Hne].
  - rewrite btm_get_insert_eq, decide_True, IH by done.
    by destruct (group_at records k') as [|x l].
  - by rewrite btm_get_insert_ne, IH, decide_False, app_nil_r by congruence.
Qed.

Lemma grouped_elem records k g : (k, g) ∈ grouped records ↔ g = group_at records k ∧ g ≠ [].
Proof.
  rewrite btm_get_elem, grouped_get by apply grouped_sorted. destruct (group_at records k); naive_solver.
Qed.

(** ** Aggregation, group by group *)

Lemma collect_ids members ids :
  collect (λ m, or_invalid "invalid_record_object_id" (DnsRecordObjectId_new (cr_id m))) members = Ok ids →
  ids = map cr_id members.
Proof.
  rewrite collect_Ok. induction 1 as [|m id members ids Hm Hf IH]; [done|]. simpl. rewrite <- IH. f_equal.
  unfold or_invalid, DnsRecordObjectId_new, opaque_id_new in Hm. destruct (validate_text _ _ _); by inversion Hm.
Qed.

Lemma observe_group_facts zone k g o :
  observe_group zone (k, g) = Ok o →
  ob_zone o = zone ∧ rs_key (ob_record_set o) = k ∧
  (∀ id, id ∈ ob_provider_object_ids o ↔ id ∈ map cr_id g).
Proof.
  unfold observe_group. cbn [fst snd]. pose proof (sort_by_perm cr_id g) as Hp.
  destruct (sort_by cr_id g) as [|first rest]; [done|].
  destruct (existsb _ rest); [done|]. destruct (negb _); [done|].
  destruct (cloudflare_extension first _) as [ext|]; [|done]. cbn [mbind].
  destruct (or_invalid _ (ProviderDnsRecordSet_validate _ _)); [|done].
  destruct (collect _ (first :: rest)) as [ids|] eqn:Ec; [|done].
  destruct (or_invalid _ (DnsRecordRevision_new _)); [|done]. intros [= <-]. split_and!; [done|done|].
  intros id. cbn [ob_provider_object_ids]. rewrite elem_of_bts_of_list. apply collect_ids in Ec as ->.
  by rewrite <- Hp.
Qed.

Lemma aggregate_iff zone records obs :
  aggregate_records zone records = Ok obs ↔
  records_ok zone records ∧ Forall2 (λ g o, observe_group zone g = Ok o) (grouped records) obs.
Proof.
  unfold aggregate_records. destruct (group_records zone records [] []) as [groups|] eqn:Eg; simpl.
  - apply group_records_iff in Eg as (Ho&Hn&_&->). fold (grouped records). rewrite collect_Ok.
    split; [by split|by intros [_ ?]].
  - split; [done|]. intros [[Ho Hn] _].
    assert (group_records zone records [] [] = Ok (grouped records)); [|congruence].
    apply group_records_iff. split_and!; [done|done|set_solver|done].
Qed.

Lemma aggregate_elem zone records obs k o :
  aggregate_records zone records = Ok obs →
  o ∈ obs ∧ rs_key (ob_record_set o) = k ↔
  group_at records k ≠ [] ∧ observe_group zone (k, group_at records k) = Ok o.
Proof.
  intros [_ Hf]%aggregate_iff. split.
  - intros [Ho Hk]. apply list_elem_of_lookup in Ho as [i Hi].
    destruct (Forall2_lookup_r _ _ _ _ _ Hf Hi) as ([k' g]&Hg&Hobs).
    destruct (observe_group_facts _ _ _ _ Hobs) as (_&Hk'&_). rewrite Hk' in Hk. subst k'.
    apply list_elem_of_lookup_2, grouped_elem in Hg as [-> Hne]. done.
  - intros [Hne Hobs]. destruct (observe_group_facts _ _ _ _ Hobs) as (_&Hk&_). split; [|done].
    assert ((k, group_at records k) ∈ grouped records) as Hg by (by apply grouped_elem).
    apply list_elem_of_lookup in Hg as [i Hi].
    destruct (Forall2_lookup_l _ _ _ _ _ Hf Hi) as (o'&Ho'&Hobs'). assert (o' = o) as -> by congruence.
    by apply list_elem_of_lookup_2 in Ho'.
Qed.

Lemma aggregate_keys zone records obs :
  aggregate_records zone records = Ok obs → map (λ o, rs_key (ob_record_set o)) obs = (grouped records).*1.
Proof.
  intros [_ Hf]%aggregate_iff. induction Hf as [|[k g] o gs obs Ho Hf IH]; [done|]. simpl. rewrite IH.
  f_equal. by apply observe_group_facts in Ho as (_&?&_).
Qed.

Lemma aggregate_keys_NoDup zone records obs :
  aggregate_records zone records = Ok obs → NoDup (map (λ o, rs_key (ob_record_set o)) obs).
Proof. intros ->%aggregate_keys. apply sorted_set_NoDup, grouped_sorted. Qed.

Lemma aggregate_intro zone records :
  records_ok zone records →
  (∀ k, group_at records k ≠ [] → ∃ o, observe_group zone (k, group_at records k) = Ok o) →
  ∃ obs, aggregate_records zone records = Ok obs.
Proof.
  intros Hr Hg. assert (Forall (λ g, ∃ o, observe_group zone g = Ok o) (grouped records)) as Hf.
  { apply Forall_forall. intros [k g] [-> Hne]%grouped_elem. by apply Hg. }
  assert (∃ obs, Forall2 (λ g o, observe_group zone g = Ok o) (grouped records) obs) as [obs Hobs].
  { clear -Hf. induction Hf as [|g gs [o Ho] Hf [obs IH]]; [by exists []|]. exists (o :: obs).
    by constructor. }
  exists obs. by apply aggregate_iff.
Qed.
End inventory.

(** ** Record sets survive the round trip *)

Section codec.
Context `{IdnaLaws, RecordsDigestLaws}.

(** What the types guarantee of a record set, that Cloudflare can represent it,
    and that its extension is the one an observation would report: a record set
    with explicit seconds and nothing else to say has none, and a TTL of one
    second would mean an automatic one. *)
Record cloudflare_form (r : ProviderDnsRecordSet) : Prop := {
  cf_owner : DnsOwnerName_new (rs_owner r) = Ok (rs_owner r);
  cf_sorted : sorted_set (rs_values r);
  cf_values : Forall cloudflare_value (rs_values r);
  cf_ttl : rs_ttl r ≠ Seconds 1;
  cf_tags proxy flattening comment tags :
    rs_extension r = Some (ExtCloudflare proxy flattening comment tags) → sorted_set tags;
  cf_canonical proxy :
    rs_extension r = Some (ExtCloudflare proxy ProviderDefault None []) →
    type_in (rs_type r) proxiable = false → rs_ttl r = Automatic;
}.

Lemma validate_cloudflare_facts zone r :
  zr_provider zone = Cloudflare → ProviderDnsRecordSet_validate r zone = Ok tt →
  ordinary r ∧ key_routing (rs_key r) = RSimple ∧ is_within (rs_owner r) (zr_apex zone) = true ∧
  match rs_extension r with
  | None => type_in (rs_type r) proxiable = false ∧ rs_ttl r ≠ Automatic
  | Some (ExtCloudflare proxy flattening _ _) =>
      type_in (rs_type r) proxiable = bool_decide (is_Some proxy) ∧
      (rs_type r ≠ TCname → flattening = ProviderDefault)
  | Some (ExtRoute53 _ _ _) => False
  end.
Proof.
  intros Hp Hv. unfold ProviderDnsRecordSet_validate in Hv.
  destruct (DnsZoneRef_validate zone); [|done]. destruct (DnsRecordSetKey_validate (rs_key r)); [|done].
  destruct (is_within _ _); [|done]. destruct (match rs_ttl r with Seconds _ => _ | _ => _ end); [done|].
  rewrite Hp, bool_decide_eq_false_2 in Hv by done. cbn [andb negb] in Hv.
  destruct (validate_shape r) as [[]|] eqn:Es; [|done]. apply validate_shape_facts in Es.
  unfold route53_alias in Es. simpl in Hv. destruct (rs_extension r) as [[proxy fl co tags|alias policy health]|].
  - unfold validate_cloudflare_extension in Hv. rewrite Hp, bool_decide_eq_true_2 in Hv by done.
    cbn [negb orb] in Hv. case_bool_decide as Hk; [|done]. cbn [negb orb] in Hv.
    case_bool_decide as Hi; [done|]. destruct (eqb (type_in _ _) _) eqn:Et; [|done].
    apply eqb_prop in Et. destruct (bool_decide (rs_type r = TSoa)); [done|]. cbn [negb orb] in Hv.
    destruct (_ && _) in Hv; [done|]. destruct (match rs_ttl r with Seconds _ => _ | _ => _ end); [done|].
    destruct (negb (bool_decide (rs_type r = TCname)) && _) eqn:Ef; [done|].
    split_and!; [done|done|done|done|]. intros Hne. rewrite bool_decide_eq_false_2 in Ef by done.
    simpl in Ef. by apply negb_false_iff, bool_decide_eq_true in Ef.
  - unfold validate_route53_extension in Hv. rewrite Hp, bool_decide_eq_false_2 in Hv; done.
  - unfold validate_no_extension in Hv. rewrite Hp, bool_decide_eq_true_2 in Hv by done.
    destruct (type_in (rs_type r) proxiable); [done|]. simpl in Hv. case_bool_decide as Ha; [done|].
    destruct (bool_decide (rs_type r = TCname) && _); [done|].
    by destruct (key_routing (rs_key r)).
Qed.

(** *** Posting *)

(** The records posted for a record set, one for each value. *)
Record posted_for (r : ProviderDnsRecordSet) (v : DnsRecordSetValue) (p : CloudflareBatchRecord) : Prop := {
  pf_name : br_name p = rs_owner r;
  pf_ttl : render_ttl (rs_ttl r) = Ok (br_ttl p);
  pf_options : render_options (rs_extension r) = Ok (br_proxied p, br_settings p, br_comment p, br_tags p);
  pf_value content data priority :
    kept (br_content p) content → kept (br_data p) data → kept (br_priority p) priority →
    map_value (br_kind p) content data priority = Ok v;
}.

Lemma render_record_set_spec zone r :
  zr_provider zone = Cloudflare → ProviderDnsRecordSet_validate r zone = Ok tt → cloudflare_form r →
  ∃ posts, render_record_set r = Ok posts ∧ Forall2 (posted_for r) (rs_values r) posts.
Proof.
  intros Hp Hv Hf. destruct (validate_cloudflare_facts zone r Hp Hv) as ((Ht&_&_)&_&_&He).
  assert (∃ options, render_options (rs_extension r) = Ok options) as [[[[proxied settings] comment] tags] Ho].
  { unfold render_options. destruct (rs_extension r) as [[]|]; [eauto|done|eauto]. }
  assert (∃ ttl, render_ttl (rs_ttl r) = Ok ttl) as [ttl Httl].
  { unfold render_ttl. destruct (rs_ttl r); [eauto|done|eauto]. }
  unfold render_record_set. rewrite Ho, Httl. cbn [mbind]. setoid_rewrite collect_Ok.
  pose proof (cf_values _ Hf) as Hvs. induction Hvs as [|v vs Hvv Hvs [posts [IH1 IH2]]].
  { exists []. split; constructor. }
  destruct (render_map_value v None None None Hvv) as (rendered&Hr&_).
  eexists (_ :: posts). split; constructor; [by rewrite Hr|done| |done].
  split; [done|done|done|]. cbn [br_content br_data br_priority br_kind].
  intros content data priority. destruct (render_map_value v content data priority Hvv) as (rendered'&Hr'&Hm).
  assert (rendered' = rendered) as -> by congruence. done.
Qed.

(** *** The provider's answer *)

(** A record the provider may hold for a post: what was posted is kept, a record
    that cannot be proxied may say that it is not, the tags come in any order and
    the settings the adapter does not manage are off.  [eligible] is whether the
    provider would proxy the name. *)
Record echoes (eligible : bool) (p : CloudflareBatchRecord) (raw : RawRecord) : Prop := {
  ec_id : valid_cloudflare_identifier (rr_id raw) = true;
  ec_kind : rr_kind raw = br_kind p;
  ec_name : rr_name raw = br_name p;
  ec_ttl : rr_ttl raw = br_ttl p;
  ec_content : kept (br_content p) (rr_content raw);
  ec_data : kept (br_data p) (rr_data raw);
  ec_priority : kept (br_priority p) (rr_priority raw);
  ec_proxied : rr_proxied raw = br_proxied p ∨ br_proxied p = None ∧ rr_proxied raw = Some false;
  ec_proxiable : rr_proxiable raw = eligible;
  ec_eligible : br_proxied p = Some true → eligible = true;
  ec_settings : ∃ s, default (mkRawSettings false false None) (rr_settings raw) =
    mkRawSettings false false s ∧ s = mjoin (br_settings p);
  ec_private : rr_private_routing raw = false;
  ec_comment : rr_comment raw = br_comment p;
  ec_tags : NoDup (rr_tags raw) ∧ ∀ t, t ∈ rr_tags raw ↔ t ∈ br_tags p;
}.

(** The record the adapter then holds. *)
Record stored (eligible : bool) (r : ProviderDnsRecordSet) (v : DnsRecordSetValue)
    (record : CloudflareRecord) : Prop := {
  sd_id : valid_cloudflare_identifier (cr_id record) = true;
  sd_name : cr_name record = rs_owner r;
  sd_value : cr_value record = v;
  sd_ttl : render_ttl (rs_ttl r) = Ok (cr_ttl record);
  sd_options : ∃ proxied settings,
    render_options (rs_extension r) = Ok (proxied, settings, cr_comment record, cr_tags record) ∧
    cr_flatten_cname record = mjoin settings ∧
    (cr_proxied record = proxied ∨ proxied = None ∧ cr_proxied record = Some false) ∧
    (proxied = Some true → eligible = true);
  sd_proxiable : cr_proxiable record = eligible;
  sd_plain : cr_ipv4_only record || cr_ipv6_only record || cr_private_routing record = false;
}.

Lemma insert_tags_spec tags seen :
  NoDup tags → (∀ t, t ∈ tags → t ∉ seen) →
  insert_tags tags seen = Ok (foldl (λ s x, bts_insert x s) seen tags).
Proof.
  intros Hn. revert seen. induction Hn as [|t tags Ht Hn IH]; intros seen Hd; [done|].
  cbn [insert_tags foldl]. rewrite bool_decide_eq_false_2 by (apply Hd; by left). apply IH.
  intros t' Ht'. rewrite elem_of_bts_insert. intros [->|Hin]; [done|]. apply (Hd t'); [by right|done].
Qed.

Lemma insert_tags_sorted tags sorted :
  NoDup tags → sorted_set sorted → (∀ t, t ∈ tags ↔ t ∈ sorted) → insert_tags tags [] = Ok sorted.
Proof.
  intros Hn Hs Ht. rewrite insert_tags_spec; [|done|set_solver]. f_equal. fold (bts_of_list tags).
  apply sorted_set_ext; [apply bts_of_list_sorted|done|]. intros t. by rewrite elem_of_bts_of_list.
Qed.

Lemma options_sorted r proxied settings comment tags :
  cloudflare_form r → render_options (rs_extension r) = Ok (proxied, settings, comment, tags) → sorted_set tags.
Proof.
  intros Hf. unfold render_options. destruct (rs_extension r) as [[p f c t|? ? ?]|] eqn:Ee; [|done|].
  - intros [= <- <- <- <-]. by eapply cf_tags.
  - intros [= <- <- <- <-]. constructor.
Qed.

Lemma map_echo eligible r v p raw :
  cloudflare_form r → posted_for r v p → echoes eligible p raw →
  ∃ record, map_record raw = Ok record ∧ stored eligible r v record ∧ cr_id record = rr_id raw.
Proof.
  intros Hf Hp He. destruct (ec_tags _ _ _ He) as [Hn Ht]. destruct (ec_settings _ _ _ He) as (s&Hs&->).
  pose proof (options_sorted _ _ _ _ _ Hf (pf_options _ _ _ Hp)) as Hsorted.
  unfold map_record. rewrite (ec_kind _ _ _ He).
  rewrite (pf_value _ _ _ Hp _ _ _ (ec_content _ _ _ He) (ec_data _ _ _ He) (ec_priority _ _ _ He)).
  rewrite (insert_tags_sorted _ _ Hn Hsorted Ht), Hs. cbn [mbind].
  eexists. split; [reflexivity|]. split; [|done]. split; cbn.
  - apply He.
  - by rewrite (ec_name _ _ _ He), (pf_name _ _ _ Hp).
  - done.
  - by rewrite (ec_ttl _ _ _ He), (pf_ttl _ _ _ Hp).
  - exists (br_proxied p), (br_settings p). rewrite (ec_comment _ _ _ He).
    split_and!; [apply Hp|done|apply He|apply He].
  - apply He.
  - by rewrite (ec_private _ _ _ He).
Qed.

(** *** Observing what is stored *)

Section observed.
Context (zone : DnsZoneRef) (r : ProviderDnsRecordSet) (eligible : bool).
Context (Hp : zr_provider zone = Cloudflare) (Hv : ProviderDnsRecordSet_validate r zone = Ok tt)
  (Hf : cloudflare_form r).

Lemma stored_key v record :
  v ∈ rs_values r → stored eligible r v record → record_key record = Ok (rs_key r).
Proof.
  intros Hin Hs. destruct (validate_cloudflare_facts zone r Hp Hv) as ((_&_&Hty)&Hk&_).
  unfold record_key. rewrite (sd_name _ _ _ _ Hs), (cf_owner _ Hf), (sd_value _ _ _ _ Hs), (Hty v Hin).
  simpl. rewrite <- Hk. by destruct r as [[] ? ? ?].
Qed.

Lemma stored_object v record : v ∈ rs_values r → stored eligible r v record → object_ok zone record.
Proof.
  intros Hin Hs. destruct (validate_cloudflare_facts zone r Hp Hv) as (_&_&Hw&_).
  split; [apply Hs|apply Hs|]. exists (rs_key r). split; [by eapply stored_key|done].
Qed.

(** The proxy state of a record whose type can be proxied is the posted one. *)
Lemma stored_proxied v record proxied settings comment tags :
  stored eligible r v record → render_options (rs_extension r) = Ok (proxied, settings, comment, tags) →
  if type_in (rs_type r) proxiable then is_Some proxied ∧ cr_proxied record = proxied
  else proxied = None ∧ cr_proxied record ≠ Some true.
Proof.
  intros Hs Ho. destruct (sd_options _ _ _ _ Hs) as (proxied'&settings'&Ho'&_&Hpr&_).
  rewrite Ho in Ho'. injection Ho' as <- _ _ _.
  destruct (validate_cloudflare_facts zone r Hp Hv) as (_&_&_&He). unfold render_options in Ho.
  destruct (rs_extension r) as [[proxy fl c t|? ? ?]|]; [|done|].
  - destruct He as [He _]. rewrite He. injection Ho as <- _ _ _. destruct proxy; simpl in *; naive_solver.
  - destruct He as [He _]. rewrite He. injection Ho as <- _ _ _. naive_solver.
Qed.

Lemma stored_signature v w a b :
  stored eligible r v a → stored eligible r w b →
  member_signature a (rs_type r) = member_signature b (rs_type r).
Proof.
  intros Ha Hb.
  destruct (sd_options _ _ _ _ Ha) as (proxied&settings&Ho&Hfl&_).
  destruct (sd_options _ _ _ _ Hb) as (proxied'&settings'&Ho'&Hfl'&_).
  pose proof (stored_proxied _ _ _ _ _ _ Ha Ho) as Hpa. pose proof (stored_proxied _ _ _ _ _ _ Hb Ho) as Hpb.
  rewrite Ho in Ho'. injection Ho' as <- <- Hc Ht.
  assert (cr_ttl a = cr_ttl b) as Httl.
  { pose proof (sd_ttl _ _ _ _ Ha) as Hn1. rewrite (sd_ttl _ _ _ _ Hb) in Hn1. by injection Hn1. }
  unfold member_signature. rewrite Httl, Hc, Ht, Hfl, Hfl', (sd_proxiable _ _ _ _ Ha), (sd_proxiable _ _ _ _ Hb).
  destruct (type_in (rs_type r) proxiable); [|done]. destruct Hpa as [_ ->], Hpb as [_ ->]. done.
Qed.

Lemma stored_ttl v record :
  stored eligible r v record → (if (cr_ttl record =? 1)%Z then Automatic else Seconds (cr_ttl record)) = rs_ttl r.
Proof.
  intros Hs. pose proof (sd_ttl _ _ _ _ Hs) as Ht. pose proof (cf_ttl _ Hf) as Hn1. unfold render_ttl in Ht.
  destruct (rs_ttl r) as [| |s]; [by injection Ht as <-|done|]. injection Ht as <-.
  destruct (Z.eqb_spec s 1); [by subst|done].
Qed.

Lemma stored_extension v record :
  stored eligible r v record → cloudflare_extension record (rs_type r) = Ok (rs_extension r).
Proof.
  intros Hs. pose proof (stored_ttl _ _ Hs) as Httl.
  destruct (sd_options _ _ _ _ Hs) as (proxied&settings&Ho&Hfl&_&Hel).
  pose proof (stored_proxied _ _ _ _ _ _ Hs Ho) as Hpr.
  destruct (validate_cloudflare_facts zone r Hp Hv) as (_&_&_&He).
  pose proof (cf_canonical _ Hf) as Hcan. pose proof (sd_proxiable _ _ _ _ Hs) as Hel'.
  unfold cloudflare_extension, observed_proxy. rewrite Hfl.
  destruct (rs_extension r) as [[proxy fl c t|? ? ?]|] eqn:Ee; [|done|].
  - destruct He as [He Hfd]. injection Ho as <- <- Hc Ht. rewrite <- Hc, <- Ht.
    rewrite He in Hpr, Hcan |- *. destruct proxy as [proxy|]; simpl in Hpr.
    + change (bool_decide (is_Some (Some proxy))) with true in Hcan |- *. destruct Hpr as [_ ->].
      destruct (decide (rs_type r = TCname)) as [Hcn|Hcn].
      * rewrite bool_decide_eq_true_2 by done. simpl.
        destruct proxy; simpl in Hel |- *; [by destruct fl|]. rewrite Hel', Hel by done. by destruct fl.
      * rewrite (Hfd Hcn), bool_decide_eq_false_2 by done. simpl.
        destruct proxy; simpl in Hel |- *; [done|]. by rewrite Hel', Hel.
    + change (bool_decide (is_Some None)) with false in Hcan |- *. destruct Hpr as [_ Hpr].
      assert (rs_type r ≠ TCname) as Hcn by (intros Hcn; by rewrite Hcn in He).
      rewrite (Hfd Hcn) in Hcan |- *. rewrite bool_decide_eq_false_2 by done. simpl.
      assert ((match cr_proxied record with Some true => Err (validation "invalid_cloudflare_proxy_state")
        | _ => Ok None end : DnsProviderResult (option CloudflareProxyOptions)) = Ok None) as Hnone
        by (by destruct (cr_proxied record) as [[]|]).
      destruct (cr_proxied record) as [[]|]; [done| |]; simpl;
        (destruct (negb (cr_ttl record =? 1)%Z && _ && _ && _) eqn:Eb; [|done]; exfalso;
         rewrite !andb_true_iff, negb_true_iff, bool_decide_eq_true in Eb;
         destruct Eb as (((E1&->)&E3)&_); destruct t; [|done];
         rewrite (Hcan None eq_refl eq_refl), E1 in Httl; done).
  - destruct He as [He Hat]. injection Ho as <- <- Hc Ht. rewrite <- Hc, <- Ht. rewrite He in Hpr |- *.
    destruct Hpr as [_ Hpr]. rewrite andb_false_r by done. simpl.
    assert ((cr_ttl record =? 1)%Z = false) as E1 by (destruct (cr_ttl record =? 1)%Z; [by rewrite <- Httl in Hat|done]).
    assert (rs_type r ≠ TCname) as Hcn by (intros Hcn; by rewrite Hcn in He).
    rewrite E1, (bool_decide_eq_false_2 (rs_type r = TCname)) by done.
    by destruct (cr_proxied record) as [[]|].
Qed.

Lemma observe_stored g g' :
  Forall2 (stored eligible r) (rs_values r) g' → g ≡ₚ g' →
  ∃ o, observe_group zone (rs_key r, g) = Ok o ∧ ob_record_set o = r.
Proof.
  intros Hst Hperm. destruct (validate_cloudflare_facts zone r Hp Hv) as ((_&Hne&_)&Hk&_).
  assert (sort_by cr_id g ≡ₚ g') as Hsort by (etransitivity; [apply sort_by_perm|done]).
  unfold observe_group. cbn [fst snd]. change (key_record_type (rs_key r)) with (rs_type r).
  assert (∀ x, x ∈ sort_by cr_id g → ∃ v, stored eligible r v x) as Hall.
  { intros x. rewrite Hsort. intros [i Hi]%list_elem_of_lookup.
    destruct (Forall2_lookup_r _ _ _ _ _ Hst Hi) as (v&_&Hs). by exists v. }
  assert (map cr_value g' = rs_values r) as Hvals.
  { clear -Hst. induction Hst as [|v x vs g Hs Hst IH]; [done|]. simpl. by rewrite IH, (sd_value _ _ _ _ Hs). }
  assert (bts_of_list (map cr_value (sort_by cr_id g)) = rs_values r) as Hset.
  { apply sorted_set_ext; [apply bts_of_list_sorted|apply (cf_sorted _ Hf)|]. intros v.
    rewrite elem_of_bts_of_list, <- Hvals. by rewrite Hsort. }
  assert (zlen (rs_values r) = zlen (sort_by cr_id g)) as Hlen.
  { unfold zlen. rewrite Hsort. f_equal. by apply Forall2_length in Hst. }
  destruct (sort_by cr_id g) as [|first rest] eqn:Es.
  { rewrite <- Hset in Hne. done. }
  destruct (Hall first ltac:(left)) as [v Hfirst].
  destruct (existsb _ rest) eqn:Ex.
  { apply existsb_exists in Ex as (x&Hx&Hd). exfalso. apply list_elem_of_In in Hx.
    destruct (Hall x ltac:(by right)) as [w Hw]. apply negb_true_iff, bool_decide_eq_false in Hd.
    apply Hd. by eapply stored_signature. }
  rewrite Hset, Hlen, Z.eqb_refl, (stored_extension _ _ Hfirst), (stored_ttl _ _ Hfirst). cbn [negb mbind].
  assert (mkRecordSet (rs_key r) (rs_ttl r) (rs_values r) (rs_extension r) = r) as -> by (by destruct r).
  rewrite Hv. cbn [or_invalid map_err].
  assert (collect (λ m, or_invalid "invalid_record_object_id" (DnsRecordObjectId_new (cr_id m))) (first :: rest)
    = Ok (map cr_id (first :: rest))) as ->.
  { rewrite collect_Ok, Forall2_fmap_r. apply Forall_Forall2_diag, Forall_forall. intros x Hx.
    destruct (Hall x Hx) as [w Hw]. unfold DnsRecordObjectId_new.
    by rewrite (identifier_id _ _ (sd_id _ _ _ _ Hw)). }
  rewrite digest_short. cbn. by eexists.
Qed.
End observed.

Lemma echoed_stored eligible r posts raws :
  cloudflare_form r → Forall2 (posted_for r) (rs_values r) posts → Forall2 (echoes eligible) posts raws →
  ∃ records, collect map_record raws = Ok records ∧ Forall2 (stored eligible r) (rs_values r) records ∧
    map cr_id records = map rr_id raws.
Proof.
  intros Hf Hposts. revert raws. induction Hposts as [|v p vs posts Hvp Hposts IH]; intros raws Hraws.
  { inversion Hraws; subst. by exists []. }
  inversion Hraws as [|? raw ? raws' He Hes]; subst.
  destruct (IH raws' Hes) as (records&Hc&Hs&Hi).
  destruct (map_echo eligible r v p raw Hf Hvp He) as (record&Hm&Hst&Hid).
  exists (record :: records). cbn [collect map]. rewrite Hm, Hc, Hi, Hid. by split_and!; [|constructor|].
Qed.

Lemma group_at_all records k :
  (∀ x, x ∈ records → record_key x = Ok k) → group_at records k = records.
Proof.
  unfold group_at. induction records as [|x records IH]; intros Hk; [done|].
  rewrite filter_cons_True by (apply Hk; by left). rewrite IH; [done|]. intros y Hy. apply Hk. by right.
Qed.

Lemma grouped_one records k :
  records ≠ [] → (∀ x, x ∈ records → record_key x = Ok k) → grouped records = [(k, records)].
Proof.
  induction records as [|x records IH] using rev_ind; [done|]. intros _ Hk.
  rewrite grouped_snoc. unfold add_to_groups. rewrite (Hk x) by set_solver.
  destruct (decide (records = [])) as [->|Hne]; [done|]. rewrite IH; [|done|set_solver].
  assert (cmp k k = Eq) as Hkk by (by apply cmp_eq). cbn [btm_get btm_insert]. by rewrite Hkk.
Qed.

Lemma stored_key_all zone r eligible records :
  zr_provider zone = Cloudflare → ProviderDnsRecordSet_validate r zone = Ok tt → cloudflare_form r →
  Forall2 (stored eligible r) (rs_values r) records →
  ∀ x, x ∈ records → record_key x = Ok (rs_key r) ∧ object_ok zone x.
Proof.
  intros Hp Hv Hf Hs x [i Hi]%list_elem_of_lookup.
  destruct (Forall2_lookup_r _ _ _ _ _ Hs Hi) as (v&Hvi&Hst). apply list_elem_of_lookup_2 in Hvi.
  split; [by eapply stored_key|by eapply stored_object].
Qed.

(** C10.  The Cloudflare codec is lossless: a valid record set of a Cloudflare zone
    that the provider can represent is rendered into one post per value, and
    whatever records the provider answers for these posts (distinct identifiers,
    what was posted kept, its own defaults for the rest) are read as exactly one
    observation, of the same record set: its owner and type, its TTL, its values
    in any order, its proxy state, CNAME flattening, comment and tags. *)
Theorem cloudflare_codec_roundtrip (zone : DnsZoneRef) (r : ProviderDnsRecordSet) :
  zr_provider zone = Cloudflare → ProviderDnsRecordSet_validate r zone = Ok tt → cloudflare_form r →
  ∃ posts, render_record_set r = Ok posts ∧ length posts = length (rs_values r) ∧
    ∀ eligible raws, Forall2 (echoes eligible) posts raws → NoDup (map rr_id raws) →
    ∃ records o, collect map_record raws = Ok records ∧ aggregate_records zone records = Ok [o] ∧
      ob_record_set o = r.
Proof.
  intros Hp Hv Hf. destruct (render_record_set_spec zone r Hp Hv Hf) as (posts&Hr&Hposts).
  exists posts. split; [done|]. split; [symmetry; by apply Forall2_length in Hposts|].
  intros eligible raws Hraws Hids.
  destruct (echoed_stored eligible r posts raws Hf Hposts Hraws) as (records&Hc&Hs&Hid).
  pose proof (stored_key_all zone r eligible records Hp Hv Hf Hs) as Hall.
  destruct (observe_stored zone r eligible Hp Hv Hf records records Hs ltac:(done)) as (o&Ho&Hor).
  exists records, o. split_and!; [done| |done]. apply aggregate_iff. rewrite (grouped_one records (rs_key r)).
  - split; [split|by repeat constructor]; [|by rewrite Hid].
    apply Forall_forall. intros x Hx. by apply Hall.
  - destruct (validate_cloudflare_facts zone r Hp Hv) as ((_&Hne&_)&_). intros ->. by inversion Hs.
  - intros x Hx. by apply Hall.
Qed.
End codec.

(** ** A commented text record with quotes, a backslash and binary octets *)

Definition demo_records_digest : RecordsDigest := λ _, "00".
Lemma demo_records_digest_laws : @RecordsDigestLaws demo_records_digest.
Proof. by intros l. Qed.
Definition demo_cf_zone : DnsZoneRef := {|
  zr_provider_account_id := "account-a"; zr_provider := Cloudflare;
  zr_zone_id := "0123456789abcdef0123456789abcdef"; zr_apex := "example.com"; zr_visibility := Public |}.
Definition demo_cf_txt : ProviderDnsRecordSet :=
  mkRecordSet (mkKey "_txt.example.com" TTxt RSimple) (Seconds 60)
    [VTxt [[34; 92; 0; 255; 97]; []]; VTxt [[98]]]%Z
    (Some (ExtCloudflare None ProviderDefault (Some "managed") ["team:dns"])).
Definition demo_raw_record (id content : string) : RawRecord :=
  mkRawRecord id "_txt.example.com" "TXT" 60 (Some content) None None (Some false) false None false
    (Some "managed") ["team:dns"] None.
Definition demo_raw_records : list RawRecord :=
  [demo_raw_record "ffffffffffffffffffffffffffffffff" (render_txt [[34; 92; 0; 255; 97]; []]%Z);
   demo_raw_record "00000000000000000000000000000000" (render_txt [[98]]%Z)].

Lemma demo_cf_txt_form : @cloudflare_form demo_idna demo_cf_txt.
Proof.
  split.
  - reflexivity.
  - repeat constructor.
  - repeat constructor; vm_compute; done.
  - done.
  - intros ? ? ? ? [= <- <- <- <-]. repeat constructor.
  - by intros ? [=].
Qed.

Lemma cloudflare_codec_roundtrip_witness :
  ∃ records o, collect (@map_record demo_idna) demo_raw_records = Ok records ∧
    @aggregate_records demo_idna demo_records_digest demo_cf_zone records = Ok [o] ∧
    ob_record_set o = demo_cf_txt.
Proof.
  destruct (@cloudflare_codec_roundtrip demo_idna demo_idna_laws demo_records_digest
    demo_records_digest_laws demo_cf_zone demo_cf_txt) as (posts&Hr&_&Hraws);
    [reflexivity|reflexivity|exact demo_cf_txt_form|].
  apply (Hraws false demo_raw_records).
  - vm_compute in Hr. injection Hr as <-.
    repeat (apply Forall2_cons_2; [split; cbn; try done; try (by right); try (by intros ? [= <-])|]);
      [by exists None|split; [apply NoDup_singleton|done]|by exists None|
       split; [apply NoDup_singleton|done]|apply Forall2_nil_2].
  - cbn. apply NoDup_cons. split; [|apply NoDup_singleton]. by intros ?%list_elem_of_singleton.
Defined.
