(* ===== verification/CloudflarePlan.v ===== *)
(** * CloudflarePlan: planning a Cloudflare batch

    [plan_batch] and [validate_batch_result] of
    [crates/center-adapter-cloudflare/src/lib.rs]: a validated batch of changes
    is checked against the complete current inventory and turned into the objects
    to delete and the records to post; the provider's answer is read back and
    compared with what the changes ask for.  The theorem is a refinement: a
    provider that deletes those objects and holds what it answers for the posts
    ends in the inventory the changes describe, nothing else is touched, and the
    answer is accepted. *)

From Stdlib Require Import ZArith Ascii String Lia.
From S2P Require Import Prelude Text Core Json BTree NetAddr Dns DnsChange ProviderErrors RecordValues CloudflareModel CloudflareInventory.

Definition MAX_BATCH_OPERATIONS : Z := 10000.

(** Patches and puts are always empty. *)
Record CloudflareBatchRequest := mkBatchRequest {
  bq_deletes : list string;
  bq_posts : list CloudflareBatchRecord;
}.
Record CloudflareBatchResult := mkBatchResult {
  bx_deletes : list CloudflareRecord;
  bx_posts : list CloudflareRecord;
}.

(** ** The plan *)

Fixpoint insert_delete_ids (new ids : list string) : DnsProviderResult (list string) :=
  match new with
  | [] => Ok ids
  | id :: new =>
      if negb (valid_cloudflare_identifier id) || bool_decide (id ∈ ids)
      then Err (validation "invalid_cloudflare_record_object_id")
      else insert_delete_ids new (bts_insert id ids)
  end.
Definition collect_delete_ids (record : ObservedDnsRecordSet) (ids : list string) :
    DnsProviderResult (list string) :=
  if (zlen (ob_provider_object_ids record) =? 0)%Z
  then Err (validation "missing_cloudflare_record_object_ids")
  else insert_delete_ids (ob_provider_object_ids record) ids.

Abbreviation Index := (list (DnsRecordSetKey * ObservedDnsRecordSet)).

(** The body of the loop: the identifiers to delete and the records posted. *)
Definition plan_change (current : Index) (c : DnsRecordChange) (ids : list string) :
    DnsProviderResult (list string * list CloudflareBatchRecord) :=
  match c with
  | CreateChange record_set _ =>
      match btm_get (rs_key record_set) current with
      | Some _ => Err (conflict "cloudflare_create_guard_conflict")
      | None => let? posts := render_record_set record_set in Ok (ids, posts)
      end
  | ReplaceChange previous desired _ =>
      let? observed := ok_or (conflict "cloudflare_replace_guard_conflict")
                         (btm_get (rs_key desired) current) in
      if negb (bool_decide (observed = previous)) then Err (conflict "cloudflare_replace_guard_conflict")
      else
        let? ids := collect_delete_ids observed ids in
        let? posts := render_record_set desired in
        Ok (ids, posts)
  | DeleteChange previous _ =>
      let? observed := ok_or (conflict "cloudflare_delete_guard_conflict")
                         (btm_get (rs_key (ob_record_set previous)) current) in
      if negb (bool_decide (observed = previous)) then Err (conflict "cloudflare_delete_guard_conflict")
      else
        let? ids := collect_delete_ids observed ids in
        Ok (ids, [])
  end.
Fixpoint plan_changes (current : Index) (changes : list DnsRecordChange) (ids : list string)
    (posts : list CloudflareBatchRecord) : DnsProviderResult (list string * list CloudflareBatchRecord) :=
  match changes with
  | [] => Ok (ids, posts)
  | c :: changes =>
      let? step := plan_change current c ids in
      plan_changes current changes step.1 (posts ++ step.2)
  end.

Definition index (current : list ObservedDnsRecordSet) : Index :=
  btm_of_list (map (λ o, (rs_key (ob_record_set o), o)) current).

Definition plan_batch (changes : list DnsRecordChange) (current : list ObservedDnsRecordSet) :
    DnsProviderResult CloudflareBatchRequest :=
  let? planned := plan_changes (index current) changes [] [] in
  let '(ids, posts) := planned in
  if (MAX_BATCH_OPERATIONS <? zlen ids + zlen posts)%Z
  then Err (validation "cloudflare_batch_operation_limit")
  else if (zlen ids =? 0)%Z && (zlen posts =? 0)%Z then Err (validation "empty_cloudflare_batch")
  else Ok (mkBatchRequest ids posts).

(** ** The answer *)

Section result.
Context `{Idna, RecordsDigest}.

Definition validate_batch_result (zone : DnsZoneRef) (changes : list DnsRecordChange)
    (request : CloudflareBatchRequest) (result : CloudflareBatchResult) : DnsProviderResult () :=
  let expected_deleted := bts_of_list (bq_deletes request) in
  let actual_deleted := bts_of_list (map cr_id (bx_deletes result)) in
  if negb (zlen (bx_deletes result) =? zlen expected_deleted)%Z
     || negb (bool_decide (actual_deleted = expected_deleted))
  then Err (unknown_outcome "cloudflare_batch_delete_result_mismatch")
  else if negb (zlen (bx_posts result) =? zlen (bq_posts request))%Z
          || existsb (λ r, negb (valid_cloudflare_identifier (cr_id r))) (bx_posts result)
  then Err (unknown_outcome "cloudflare_batch_post_result_mismatch")
  else
    let? observed := map_err (λ _, unknown_outcome "cloudflare_batch_post_result_invalid")
                       (aggregate_records zone (bx_posts result)) in
    let actual := btm_of_list (map (λ o, (rs_key (ob_record_set o), ob_record_set o)) observed) in
    let expected := btm_of_list (map (λ r, (rs_key r, r)) (desired_sets changes)) in
    if negb (bool_decide (actual = expected))
    then Err (unknown_outcome "cloudflare_batch_post_result_mismatch") else Ok tt.
End result.

(** ** What a plan contains *)

Definition previous_observation (c : DnsRecordChange) : option ObservedDnsRecordSet :=
  match c with
  | CreateChange _ _ => None
  | ReplaceChange previous _ _ | DeleteChange previous _ => Some previous
  end.

(** What a change assumes of the inventory. *)
Definition guard_holds (current : Index) (c : DnsRecordChange) : Prop :=
  btm_get (change_key c) current = previous_observation c.
(** The records posted for a change. *)
Definition posts_of (c : DnsRecordChange) (posts : list CloudflareBatchRecord) : Prop :=
  match desired_record_set c with
  | Some r => render_record_set r = Ok posts
  | None => posts = []
  end.
(** An identifier of an object a change replaces or deletes. *)
Definition deletes (c : DnsRecordChange) (id : string) : Prop :=
  ∃ o, previous_observation c = Some o ∧ id ∈ ob_provider_object_ids o.

Lemma insert_delete_ids_Ok new ids ids' :
  insert_delete_ids new ids = Ok ids' → sorted_set ids →
  sorted_set ids' ∧ ∀ id, id ∈ ids' ↔ id ∈ ids ∨ id ∈ new.
Proof.
  revert ids. induction new as [|x new IH]; intros ids; cbn [insert_delete_ids].
  { intros [= <-] ?. set_solver. }
  destruct (_ || _); [done|]. intros Hi Hs. apply IH in Hi as [Hs' Hi]; [|by apply bts_insert_sorted].
  split; [done|]. intros id. rewrite Hi, elem_of_bts_insert. set_solver.
Qed.

Lemma plan_change_Ok current c ids ids' posts :
  plan_change current c ids = Ok (ids', posts) → sorted_set ids →
  guard_holds current c ∧ posts_of c posts ∧ sorted_set ids' ∧ ∀ id, id ∈ ids' ↔ id ∈ ids ∨ deletes c id.
Proof.
  unfold plan_change, guard_holds, posts_of, deletes, collect_delete_ids. intros Hp Hs.
  destruct c as [r g|p d g|p g]; cbn [change_key desired_record_set previous_observation].
  - destruct (btm_get _ _); [done|]. destruct (render_record_set r); [|done]. injection Hp as <- <-.
    split_and!; [done|done|done|naive_solver].
  - destruct (btm_get _ _) as [o|]; [|done]. simpl in Hp. case_bool_decide; [subst o|done]. simpl in Hp.
    destruct (_ =? 0)%Z; [done|]. destruct (insert_delete_ids _ _) as [ids1|] eqn:Ei; [|done].
    destruct (render_record_set d); [|done]. injection Hp as <- <-.
    apply insert_delete_ids_Ok in Ei as [Hs' Hi]; [|done]. split_and!; [done|done|done|naive_solver].
  - destruct (btm_get _ _) as [o|]; [|done]. simpl in Hp. case_bool_decide; [subst o|done]. simpl in Hp.
    destruct (_ =? 0)%Z; [done|]. destruct (insert_delete_ids _ _) as [ids1|] eqn:Ei; [|done].
    injection Hp as <- <-. apply insert_delete_ids_Ok in Ei as [Hs' Hi]; [|done].
    split_and!; [done|done|done|naive_solver].
Qed.

Lemma plan_changes_Ok current changes ids posts ids' posts' :
  plan_changes current changes ids posts = Ok (ids', posts') → sorted_set ids →
  Forall (guard_holds current) changes ∧
  (∃ segments, Forall2 posts_of changes segments ∧ posts' = posts ++ concat segments) ∧
  sorted_set ids' ∧ ∀ id, id ∈ ids' ↔ id ∈ ids ∨ ∃ c, c ∈ changes ∧ deletes c id.
Proof.
  revert ids posts. induction changes as [|c changes IH]; intros ids posts; cbn [plan_changes].
  { intros [= <- <-] Hs. split_and!; [done| |done|set_solver]. exists []. by rewrite app_nil_r. }
  destruct (plan_change current c ids) as [[ids1 posts1]|] eqn:Ec; [|done]. cbn [mbind fst snd].
  intros Hp Hs. apply plan_change_Ok in Ec as (Hg&Hpo&Hs1&Hi1); [|done].
  apply IH in Hp as (Hgs&(segs&Hsegs&->)&Hs'&Hi'); [|done].
  split_and!; [by constructor| |done|].
  - exists (posts1 :: segs). split; [by constructor|]. simpl. by rewrite app_assoc.
  - intros id. rewrite Hi', Hi1. setoid_rewrite elem_of_cons. naive_solver.
Qed.

(** ** The provider *)

Section refinement.
Context `{IdnaLaws, RecordsDigestLaws}.

(** The provider deletes the objects and holds what it answers for the posts. *)
Definition provider_apply (records : list CloudflareRecord) (request : CloudflareBatchRequest)
    (posted : list CloudflareRecord) : list CloudflareRecord :=
  base.filter (λ r, cr_id r ∉ bq_deletes request) records ++ posted.

(** An answer for the posts of one change, and the records the adapter reads. *)
Definition answers (c : DnsRecordChange) (raws : list RawRecord) : Prop :=
  match desired_record_set c with
  | Some r => ∃ posts eligible, render_record_set r = Ok posts ∧ Forall2 (echoes eligible) posts raws
  | None => raws = []
  end.
Definition posted_by (c : DnsRecordChange) (records : list CloudflareRecord) : Prop :=
  match desired_record_set c with
  | Some r => ∃ eligible, Forall2 (stored eligible r) (rs_values r) records
  | None => records = []
  end.

(** The record sets of an inventory. *)
Definition inventory (current : list ObservedDnsRecordSet) (k : DnsRecordSetKey) :
    option ProviderDnsRecordSet := ob_record_set <$> btm_get k (index current).

Context (zone : DnsZoneRef) (changes : list DnsRecordChange).
Context (Hzone : zr_provider zone = Cloudflare) (Hkeys : NoDup (map change_key changes))
  (Hvalid : Forall (λ c, DnsRecordChange_validate c zone = Ok tt) changes)
  (Hforms : Forall cloudflare_form (desired_sets changes)).

Lemma desired_valid c r :
  c ∈ changes → desired_record_set c = Some r →
  ProviderDnsRecordSet_validate r zone = Ok tt ∧ cloudflare_form r ∧ rs_key r = change_key c.
Proof.
  intros Hc Hr. pose proof (proj1 (Forall_forall _ _) Hvalid) as Hval. pose proof (proj1 (Forall_forall _ _) Hforms) as Hfm. split_and!.
  - specialize (Hval c Hc). destruct c as [r' g|p d g|p g]; [| |done]; injection Hr as ->; simpl in Hval.
    + by destruct (ProviderDnsRecordSet_validate r zone) as [[]|].
    + destruct (ObservedDnsRecordSet_validate p); [|done].
      by destruct (ProviderDnsRecordSet_validate r zone) as [[]|].
  - apply Hfm. apply list_elem_of_omap. eauto.
  - by apply desired_change_key.
Qed.

(** *** Listings *)

Lemma cf_index_get records current k o :
  aggregate_records zone records = Ok current →
  btm_get k (index current) = Some o ↔
  group_at records k ≠ [] ∧ observe_group zone (k, group_at records k) = Ok o.
Proof.
  intros Ha. rewrite <- (aggregate_elem zone records current k o Ha).
  pose proof (aggregate_keys_NoDup _ _ _ Ha) as Hn. unfold index.
  rewrite btm_of_list_get by (by rewrite <- list_fmap_compose). rewrite list_elem_of_fmap. naive_solver.
Qed.

Lemma group_observed records current k :
  aggregate_records zone records = Ok current → group_at records k ≠ [] →
  ∃ o, observe_group zone (k, group_at records k) = Ok o.
Proof.
  intros Ha Hne. assert ((k, group_at records k) ∈ grouped records) as Hin by (by apply grouped_elem).
  apply aggregate_iff in Ha as [_ Hf]. apply list_elem_of_lookup in Hin as [i Hi].
  destruct (Forall2_lookup_l _ _ _ _ _ Hf Hi) as (o&_&Ho). by exists o.
Qed.

Lemma index_None records current k :
  aggregate_records zone records = Ok current →
  btm_get k (index current) = None ↔ group_at records k = [].
Proof.
  intros Ha. split; intros Hn.
  - destruct (decide (group_at records k = [])) as [|Hne]; [done|]. exfalso.
    destruct (group_observed records current k Ha Hne) as [o Ho].
    assert (btm_get k (index current) = Some o); [|congruence]. by apply (cf_index_get records).
  - destruct (btm_get k (index current)) as [o|] eqn:E; [|done].
    by apply (cf_index_get records) in E as [? _].
Qed.

Lemma same_group_same_index records records' current current' k :
  aggregate_records zone records = Ok current → aggregate_records zone records' = Ok current' →
  group_at records' k = group_at records k → btm_get k (index current') = btm_get k (index current).
Proof.
  intros Ha Ha' Hg. destruct (btm_get k (index current)) as [o|] eqn:E.
  - apply (cf_index_get records) in E; [|done]. apply (cf_index_get records'); [done|]. by rewrite Hg.
  - destruct (btm_get k (index current')) as [o|] eqn:E'; [|done].
    apply (cf_index_get records') in E' as [Hne _]; [|done]. apply (index_None records) in E; [congruence|done].
Qed.

(** *** Groups of what is posted *)

Lemma group_at_app records records' k :
  group_at (records ++ records') k = group_at records k ++ group_at records' k.
Proof. apply filter_app. Qed.

Lemma group_at_none records k :
  (∀ x, x ∈ records → record_key x ≠ Ok k) → group_at records k = [].
Proof. intros Hk. apply list_filter_none. intros x Hx. by apply Hk. Qed.

Lemma posted_members c seg x :
  c ∈ changes → posted_by c seg → x ∈ seg → record_key x = Ok (change_key c) ∧ object_ok zone x.
Proof.
  intros Hc Hp Hx. unfold posted_by in Hp. destruct (desired_record_set c) as [r|] eqn:Er.
  - destruct Hp as [eligible Hs]. destruct (desired_valid c r Hc Er) as (Hv&Hf&<-).
    by eapply stored_key_all.
  - subst seg. by apply not_elem_of_nil in Hx.
Qed.

Lemma posted_elem cs segs x :
  (∀ c, c ∈ cs → c ∈ changes) → Forall2 posted_by cs segs → x ∈ concat segs →
  ∃ c, c ∈ cs ∧ record_key x = Ok (change_key c) ∧ object_ok zone x.
Proof.
  intros Hsub. induction 1 as [|c seg cs segs Hp Hf IH]; simpl; [by intros ?%not_elem_of_nil|].
  intros [Hx|Hx]%elem_of_app.
  - exists c. split; [by left|]. eapply posted_members; [|done|done]. apply Hsub. by left.
  - destruct IH as (c'&Hc'&?); [set_solver|done|]. exists c'. split; [by right|done].
Qed.

Lemma group_posted cs segs c seg i :
  (∀ c, c ∈ cs → c ∈ changes) → NoDup (map change_key cs) → Forall2 posted_by cs segs →
  cs !! i = Some c → segs !! i = Some seg → group_at (concat segs) (change_key c) = seg.
Proof.
  intros Hsub Hn Hf. revert i Hn. induction Hf as [|d s cs segs Hd Hf IH]; intros i Hn Hc Hs; [done|].
  simpl in Hn |- *. apply NoDup_cons in Hn as [Hd' Hn]. rewrite group_at_app. destruct i as [|i]; simplify_eq/=.
  - rewrite (group_at_all seg), (group_at_none (concat segs)); [by rewrite app_nil_r| |].
    + intros x Hx Hk. destruct (posted_elem cs segs x) as (c'&Hc'&Hk'&_); [set_solver|done|done|].
      apply Hd'. apply list_elem_of_fmap. exists c'. split; [congruence|done].
    + intros x Hx. eapply posted_members; [|done|done]. apply Hsub. by left.
  - rewrite (group_at_none s), IH with (i := i); [done|set_solver|done|done|done|].
    intros x Hx Hk. destruct (posted_members d s x) as [Hk' _]; [apply Hsub; by left|done|done|].
    apply Hd'. apply list_elem_of_lookup_2 in Hc. apply list_elem_of_fmap. exists c. split; [congruence|done].
Qed.

Lemma group_posted_out segs k :
  Forall2 posted_by changes segs → k ∉ map change_key changes → group_at (concat segs) k = [].
Proof.
  intros Hf Hk. apply group_at_none. intros x Hx Hkx.
  destruct (posted_elem changes segs x) as (c&Hc&Hk'&_); [done|done|done|]. apply Hk.
  apply list_elem_of_fmap. exists c. split; [congruence|done].
Qed.

Lemma posted_observed c seg :
  c ∈ changes → posted_by c seg →
  match desired_record_set c with
  | Some r => seg ≠ [] ∧ ∃ o, observe_group zone (change_key c, seg) = Ok o ∧ ob_record_set o = r
  | None => seg = []
  end.
Proof.
  intros Hc. unfold posted_by. destruct (desired_record_set c) as [r|] eqn:Er; [|done].
  intros [eligible Hs]. destruct (desired_valid c r Hc Er) as (Hv&Hf&<-). split.
  - destruct (validate_cloudflare_facts zone r Hzone Hv) as ((_&Hne&_)&_). intros ->. by inversion Hs.
  - by apply (observe_stored zone r eligible Hzone Hv Hf seg seg).
Qed.

(** The record sets of records whose groups are what was posted for the changes
    and, for other identities, what [rest] says. *)
Lemma inventory_posted records current segs rest :
  Forall2 posted_by changes segs → aggregate_records zone records = Ok current →
  (∀ i c seg, changes !! i = Some c → segs !! i = Some seg → group_at records (change_key c) = seg) →
  (∀ k, k ∉ map change_key changes → inventory current k = rest k) →
  ∀ k, inventory current k = apply_changes rest changes k.
Proof.
  intros Hsegs Ha Hin Hout k. destruct (decide (k ∈ map change_key changes)) as [Hk|Hk].
  2: { rewrite apply_changes_out by done. by apply Hout. }
  apply list_elem_of_fmap in Hk as (c&->&Hc). rewrite apply_changes_in by done.
  pose proof Hc as [i Hi]%list_elem_of_lookup.
  destruct (Forall2_lookup_l _ _ _ _ _ Hsegs Hi) as (seg&Hseg&Hp).
  pose proof (posted_observed c seg Hc Hp) as Ho. pose proof (Hin i c seg Hi Hseg) as Hg. unfold inventory.
  destruct (desired_record_set c) as [r|].
  - destruct Ho as (Hne&o&Ho&<-). assert (btm_get (change_key c) (index current) = Some o) as ->; [|done].
    apply (cf_index_get records); [done|]. by rewrite Hg.
  - assert (btm_get (change_key c) (index current) = None) as ->; [|done].
    apply (index_None records); [done|]. by rewrite Hg.
Qed.

(** What the adapter reads of an answer. *)
Lemma answers_posted cs raws :
  (∀ c, c ∈ cs → c ∈ changes) → Forall2 answers cs raws →
  ∃ segs, collect map_record (concat raws) = Ok (concat segs) ∧ Forall2 posted_by cs segs ∧
    map cr_id (concat segs) = map rr_id (concat raws).
Proof.
  intros Hsub. induction 1 as [|c raw cs raws Ha Hf IH]; [by exists []|].
  destruct IH as (segs&Hc&Hp&Hi); [set_solver|]. simpl. unfold answers in Ha.
  assert (∃ seg, collect map_record raw = Ok seg ∧ posted_by c seg ∧ map cr_id seg = map rr_id raw)
    as (seg&Hcs&Hps&His).
  { unfold posted_by. destruct (desired_record_set c) as [r|] eqn:Er; [|subst raw; by exists []].
    destruct Ha as (posts&eligible&Hr&He).
    destruct (desired_valid c r) as (Hv&Hfm&_); [apply Hsub; by left|done|].
    destruct (render_record_set_spec zone r Hzone Hv Hfm) as (posts'&Hr'&Hposts).
    assert (posts' = posts) as -> by congruence.
    destruct (echoed_stored eligible r posts raw Hfm Hposts He) as (seg&?&?&?). exists seg.
    split_and!; [done|by exists eligible|done]. }
  exists (seg :: segs). simpl. split_and!; [|by constructor|by rewrite !map_app, Hi, His].
  rewrite collect_Ok in Hcs, Hc |- *. by apply Forall2_app.
Qed.

(** *** The inventory after the batch *)

Section after.
Context (records : list CloudflareRecord) (current : list ObservedDnsRecordSet)
  (request : CloudflareBatchRequest) (segs : list (list CloudflareRecord)).
Context (Ha : aggregate_records zone records = Ok current)
  (Hguards : Forall (guard_holds (index current)) changes)
  (Hdel : ∀ id, id ∈ bq_deletes request ↔ ∃ c, c ∈ changes ∧ deletes c id)
  (Hsegs : Forall2 posted_by changes segs)
  (Hids : NoDup (map cr_id (concat segs)))
  (Hfresh : ∀ x, x ∈ concat segs → cr_id x ∉ map cr_id records).

Let after := provider_apply records request (concat segs).

Lemma record_same_id x y : x ∈ records → y ∈ records → cr_id x = cr_id y → x = y.
Proof.
  apply aggregate_iff in Ha as [[_ Hn] _]. intros [i Hi]%list_elem_of_lookup [j Hj]%list_elem_of_lookup Heq.
  assert (i = j) as ->; [|congruence]. eapply (NoDup_lookup (map cr_id records)); [done| |];
    rewrite list_lookup_fmap; [by rewrite Hi|by rewrite Hj, Heq].
Qed.

(** The objects of a changed identity are the deleted ones. *)
Lemma deleted_iff x k :
  x ∈ records → record_key x = Ok k →
  cr_id x ∈ bq_deletes request ↔ k ∈ map change_key changes.
Proof.
  intros Hx Hk. rewrite Hdel. rewrite Forall_forall in Hguards. split.
  - intros (c&Hc&o&Hpo&Hid). pose proof (Hguards c Hc) as Hg. unfold guard_holds in Hg. rewrite Hpo in Hg.
    apply (cf_index_get records) in Hg as [_ Hg]; [|done].
    destruct (observe_group_facts _ _ _ _ Hg) as (_&_&Hi). apply Hi, list_elem_of_fmap in Hid as (y&Hxy&Hy).
    apply list_elem_of_filter in Hy as [Hky Hy]. rewrite (record_same_id x y) in Hk by done.
    rewrite Hky in Hk. injection Hk as <-. apply list_elem_of_fmap. by exists c.
  - intros (c&->&Hc)%list_elem_of_fmap. exists c. split; [done|]. pose proof (Hguards c Hc) as Hg.
    assert (x ∈ group_at records (change_key c)) as Hxg by (by apply list_elem_of_filter).
    unfold guard_holds in Hg. destruct (previous_observation c) as [o|] eqn:Eo.
    + exists o. split; [done|]. apply (cf_index_get records) in Hg as [_ Hg]; [|done].
      apply (observe_group_facts _ _ _ _ Hg). apply list_elem_of_fmap. by exists x.
    + apply (index_None records) in Hg; [|done]. rewrite Hg in Hxg. by apply not_elem_of_nil in Hxg.
Qed.

Lemma retained_group k :
  group_at (base.filter (λ r, cr_id r ∉ bq_deletes request) records) k =
  if decide (k ∈ map change_key changes) then [] else group_at records k.
Proof.
  unfold group_at at 1. rewrite list_filter_filter. destruct (decide _) as [Hk|Hk].
  - apply list_filter_none. intros x Hx [Hkx Hn]. apply Hn. by apply (deleted_iff x k).
  - apply list_filter_ext_in. intros x Hx. split; [by intros [? _]|]. intros Hkx. split; [done|].
    by rewrite (deleted_iff x k).
Qed.

Lemma after_out k : k ∉ map change_key changes → group_at after k = group_at records k.
Proof.
  intros Hk. unfold after, provider_apply. rewrite group_at_app, retained_group, decide_False by done.
  by rewrite (group_posted_out segs), app_nil_r.
Qed.

Lemma after_in i c seg :
  changes !! i = Some c → segs !! i = Some seg → group_at after (change_key c) = seg.
Proof.
  intros Hc Hs. unfold after, provider_apply.
  rewrite group_at_app, retained_group, decide_True
    by (apply list_elem_of_fmap; exists c; split; [done|by apply list_elem_of_lookup_2 in Hc]).
  by rewrite (group_posted changes segs c seg i).
Qed.

Lemma after_ok : records_ok zone after.
Proof.
  apply aggregate_iff in Ha as Ha'. destruct Ha' as [[Ho Hn] _]. rewrite Forall_forall in Ho. split.
  - apply Forall_forall. intros x [[_ Hx]%list_elem_of_filter|Hx]%elem_of_app; [by apply Ho|].
    by destruct (posted_elem changes segs x) as (?&_&_&?).
  - unfold after, provider_apply. rewrite map_app. apply NoDup_app. split_and!; [|intros id|done].
    + apply NoDup_fmap_2_strong; [|apply NoDup_filter; by apply NoDup_fmap_1 in Hn].
      intros x y [_ Hx]%list_elem_of_filter [_ Hy]%list_elem_of_filter. by apply record_same_id.
    + intros (x&->&[_ Hx]%list_elem_of_filter)%list_elem_of_fmap (y&Hxy&Hy)%list_elem_of_fmap.
      apply (Hfresh y Hy). rewrite <- Hxy. apply list_elem_of_fmap. by exists x.
Qed.

Lemma after_inventory :
  ∃ current', aggregate_records zone after = Ok current' ∧
    (∀ k, inventory current' k = apply_changes (inventory current) changes k) ∧
    ∀ k, k ∉ map change_key changes → btm_get k (index current') = btm_get k (index current).
Proof.
  destruct (aggregate_intro zone after after_ok) as [current' Ha'].
  { intros k Hne. destruct (decide (k ∈ map change_key changes)) as [Hk|Hk].
    - apply list_elem_of_fmap in Hk as (c&->&Hc). pose proof Hc as [i Hi]%list_elem_of_lookup.
      destruct (Forall2_lookup_l _ _ _ _ _ Hsegs Hi) as (seg&Hseg&Hp).
      pose proof (posted_observed c seg Hc Hp) as Ho. rewrite (after_in i c seg Hi Hseg) in Hne |- *.
      destruct (desired_record_set c); [|done]. destruct Ho as (_&o&Ho&_). by exists o.
    - rewrite after_out in Hne |- * by done. by apply (group_observed records current). }
  assert (∀ k, k ∉ map change_key changes → btm_get k (index current') = btm_get k (index current)) as Hout.
  { intros k Hk. apply (same_group_same_index records after); [done|done|by apply after_out]. }
  exists current'. split_and!; [done| |done].
  apply (inventory_posted after current' segs); [done|done|apply after_in|].
  intros k Hk. unfold inventory. by rewrite Hout.
Qed.

(** The answer for the posts reads as the desired record sets, so it is accepted. *)
Lemma posted_aggregate :
  ∃ observed, aggregate_records zone (concat segs) = Ok observed ∧
    ∀ k, inventory observed k = apply_changes (λ _, None) changes k.
Proof.
  assert (records_ok zone (concat segs)) as Hok.
  { split; [|done]. apply Forall_forall. intros x Hx.
    by destruct (posted_elem changes segs x) as (?&_&_&?). }
  assert (∀ i c seg, changes !! i = Some c → segs !! i = Some seg →
    group_at (concat segs) (change_key c) = seg) as Hin.
  { intros i c seg Hc Hs. by apply (group_posted changes segs c seg i). }
  destruct (aggregate_intro zone (concat segs) Hok) as [observed Hobs].
  { intros k Hne. destruct (decide (k ∈ map change_key changes)) as [Hk|Hk];
      [|by rewrite group_posted_out in Hne].
    apply list_elem_of_fmap in Hk as (c&->&Hc). pose proof Hc as [i Hi]%list_elem_of_lookup.
    destruct (Forall2_lookup_l _ _ _ _ _ Hsegs Hi) as (seg&Hseg&Hp).
    pose proof (posted_observed c seg Hc Hp) as Ho. rewrite (Hin i c seg Hi Hseg) in Hne |- *.
    destruct (desired_record_set c); [|done]. destruct Ho as (_&o&Ho&_). by exists o. }
  exists observed. split; [done|]. apply (inventory_posted (concat segs) observed segs); [done..|].
  intros k Hk. unfold inventory. assert (btm_get k (index observed) = None) as ->; [|done].
  apply (index_None (concat segs)); [done|]. by apply group_posted_out.
Qed.
End after.

Lemma desired_get k :
  btm_get k (btm_of_list (map (λ r, (rs_key r, r)) (desired_sets changes))) =
  apply_changes (λ _, None) changes k.
Proof.
  assert (∀ r, (k, r) ∈ map (λ r, (rs_key r, r)) (desired_sets changes) ↔
    ∃ c, c ∈ changes ∧ desired_record_set c = Some r ∧ k = change_key c) as Hel.
  { intros r. rewrite list_elem_of_fmap. unfold desired_sets. split.
    - intros (r'&Heq&(c&Hc&Hr)%list_elem_of_omap). simplify_eq. exists c. split_and!; [done|done|].
      by apply desired_change_key.
    - intros (c&Hc&Hr&->). exists r. rewrite (desired_change_key c r Hr). split; [done|].
      apply list_elem_of_omap. by exists c. }
  assert (NoDup ((map (λ r, (rs_key r, r)) (desired_sets changes)).*1)) as Hn.
  { rewrite <- list_fmap_compose. unfold desired_sets. clear -Hkeys.
    induction changes as [|c cs IH]; [constructor|]. simpl in Hkeys. apply NoDup_cons in Hkeys as [Hc Hn].
    cbn [omap list_omap]. destruct (desired_record_set c) as [r|] eqn:Er; [|by apply IH].
    simpl. apply NoDup_cons. split; [|by apply IH]. rewrite (desired_change_key c r Er).
    intros (r'&Hr'&(c'&Hc'&Hd)%list_elem_of_omap)%list_elem_of_fmap. apply Hc, list_elem_of_fmap.
    exists c'. split; [|done]. rewrite Hr'. simpl. by rewrite (desired_change_key c' r' Hd). }
  destruct (btm_get k _) as [r|] eqn:E.
  - apply btm_of_list_get in E; [|done]. apply Hel in E as (c&Hc&Hr&->). by rewrite apply_changes_in.
  - destruct (decide (k ∈ map change_key changes)) as [Hk|Hk]; [|by rewrite apply_changes_out].
    apply list_elem_of_fmap in Hk as (c&->&Hc). rewrite apply_changes_in by done.
    destruct (desired_record_set c) as [r|] eqn:Er; [|done].
    rewrite (proj2 (btm_of_list_get _ _ r Hn)) in E; [done|]. apply Hel. by exists c.
Qed.

Lemma inventory_map observed :
  NoDup (map (λ o, rs_key (ob_record_set o)) observed) → ∀ k,
  btm_get k (btm_of_list (map (λ o, (rs_key (ob_record_set o), ob_record_set o)) observed)) = inventory observed k.
Proof.
  intros Hn k. unfold inventory, index. set (l1 := map _ observed). set (l2 := map _ observed).
  assert (NoDup (l1.*1)) as Hn1 by (unfold l1; by rewrite <- list_fmap_compose).
  assert (NoDup (l2.*1)) as Hn2 by (unfold l2; by rewrite <- list_fmap_compose).
  destruct (btm_get k (btm_of_list l2)) as [o|] eqn:E2; simpl.
  - apply btm_of_list_get in E2; [|done]. apply btm_of_list_get; [done|]. unfold l1, l2 in *.
    apply list_elem_of_fmap in E2 as (o'&[= -> ->]&Ho). apply list_elem_of_fmap. by exists o'.
  - destruct (btm_get k (btm_of_list l1)) as [r|] eqn:E1; [|done].
    apply btm_of_list_get in E1; [|done]. unfold l1 in E1.
    apply list_elem_of_fmap in E1 as (o'&[= -> ->]&Ho).
    rewrite (proj2 (btm_of_list_get _ _ o' Hn2)) in E2; [done|]. unfold l2. apply list_elem_of_fmap. by exists o'.
Qed.
End refinement.

(** ** The plan refines the change *)

Section theorem.
Context `{IdnaLaws, RecordsDigestLaws}.

Lemma plan_batch_Ok changes current request :
  plan_batch changes current = Ok request →
  Forall (guard_holds (index current)) changes ∧
  (1 <= zlen (bq_deletes request) + zlen (bq_posts request) <= MAX_BATCH_OPERATIONS)%Z ∧
  sorted_set (bq_deletes request) ∧
  (∀ id, id ∈ bq_deletes request ↔ ∃ c, c ∈ changes ∧ deletes c id) ∧
  ∃ segments, Forall2 posts_of changes segments ∧ bq_posts request = concat segments.
Proof.
  unfold plan_batch. destruct (plan_changes _ _ _ _) as [[ids posts]|] eqn:Ep; [|done].
  apply plan_changes_Ok in Ep as (Hg&Hs&Hsorted&Hi); [|constructor]. simpl.
  destruct (_ <? _)%Z eqn:E1; [done|]. destruct (_ && _) eqn:E2; [done|]. intros [= <-]. cbn.
  split_and!; [done| |lia|done| |done].
  - unfold zlen in *. lia.
  - intros id. rewrite Hi. split; [by intros [?%not_elem_of_nil|?]|by right].
Qed.

Lemma answer_length cs segments raws :
  Forall2 posts_of cs segments → Forall2 answers cs raws →
  length (concat raws) = length (concat segments).
Proof.
  intros Hp. revert raws. induction Hp as [|c seg cs segs Hc Hp IH]; intros raws Ha; inversion Ha as [|? raw ? raws' Hr Hrs];
    subst; [done|]. simpl. rewrite !length_app, (IH raws' Hrs). f_equal. unfold posts_of in Hc. unfold answers in Hr.
  destruct (desired_record_set c); [|by subst]. destruct Hr as (posts&eligible&Hr&He).
  assert (posts = seg) as -> by congruence. by apply Forall2_length in He.
Qed.

Lemma answer_accepted zone changes request records observed deleted :
  NoDup (map change_key changes) →
  sorted_set (bq_deletes request) → map cr_id deleted ≡ₚ bq_deletes request →
  length records = length (bq_posts request) → Forall (object_ok zone) records →
  aggregate_records zone records = Ok observed →
  (∀ k, inventory observed k = apply_changes (λ _, None) changes k) →
  validate_batch_result zone changes request (mkBatchResult deleted records) = Ok tt.
Proof.
  intros Hk Hs Hd Hl Ho Ha Hi. unfold validate_batch_result. cbn [bx_deletes bx_posts].
  rewrite bts_of_sorted by done.
  assert (zlen deleted = zlen (bq_deletes request)) as -> by (unfold zlen; rewrite <- Hd; by rewrite length_map).
  rewrite Z.eqb_refl, bool_decide_eq_true_2.
  2: { apply sorted_set_ext; [apply bts_of_list_sorted|done|]. intros id. by rewrite elem_of_bts_of_list, Hd. }
  assert (zlen records = zlen (bq_posts request)) as -> by (unfold zlen; by rewrite Hl).
  rewrite Z.eqb_refl. cbn [negb orb].
  assert (existsb (λ r, negb (valid_cloudflare_identifier (cr_id r))) records = false) as ->.
  { apply not_true_iff_false. intros (x&Hx&Hn)%existsb_exists. rewrite Forall_forall in Ho.
    destruct (Ho x) as [Hv _ _]; [by apply list_elem_of_In|]. by rewrite Hv in Hn. }
  rewrite Ha. cbn [map_err mbind]. rewrite bool_decide_eq_true_2; [done|].
  apply btm_ext; [apply btm_of_list_sorted|apply btm_of_list_sorted|]. intros k.
  rewrite inventory_map by (by eapply aggregate_keys_NoDup). by rewrite Hi, desired_get.
Qed.

Lemma cf_plan_refines (zone : DnsZoneRef) (changes : list DnsRecordChange) (records : list CloudflareRecord)
    (current : list ObservedDnsRecordSet) (request : CloudflareBatchRequest) :
  zr_provider zone = Cloudflare → validate_dns_changes zone changes = Ok tt →
  Forall cloudflare_form (desired_sets changes) →
  aggregate_records zone records = Ok current → plan_batch changes current = Ok request →
  Forall (guard_holds (index current)) changes ∧
  (1 <= zlen (bq_deletes request) + zlen (bq_posts request) <= MAX_BATCH_OPERATIONS)%Z ∧
  ∀ raws deleted, Forall2 answers changes raws → NoDup (map rr_id (concat raws)) →
    (∀ raw, raw ∈ concat raws → rr_id raw ∉ map cr_id records) →
    map cr_id deleted ≡ₚ bq_deletes request →
    ∃ posted current', collect map_record (concat raws) = Ok posted ∧
      validate_batch_result zone changes request (mkBatchResult deleted posted) = Ok tt ∧
      aggregate_records zone (provider_apply records request posted) = Ok current' ∧
      (∀ k, inventory current' k = apply_changes (inventory current) changes k) ∧
      (∀ k, k ∉ map change_key changes → btm_get k (index current') = btm_get k (index current)).
Proof.
  intros Hp Hb%validate_dns_changes_iff Hf Ha (Hg&Hn&Hsorted&Hd&segments&Hseg&Hposts)%plan_batch_Ok.
  split; [done|]. split; [done|]. intros raws deleted Hraws Hids Hfresh Hdel.
  pose proof (bo_keys _ _ Hb) as Hkeys. pose proof (bo_changes _ _ Hb) as Hvalid.
  destruct (answers_posted zone changes Hp Hkeys Hvalid Hf changes raws) as (segs&Hc&Hps&Hi); [done|done|].
  rewrite <- Hi in Hids.
  assert (∀ x, x ∈ concat segs → cr_id x ∉ map cr_id records) as Hfresh'.
  { intros x Hx. assert (cr_id x ∈ map rr_id (concat raws)) as (raw&->&Hr)%list_elem_of_fmap
      by (rewrite <- Hi; apply list_elem_of_fmap; by exists x). by apply Hfresh. }
  destruct (posted_aggregate zone changes Hp Hkeys Hvalid Hf segs Hps Hids) as (observed&Hobs&Hinv).
  destruct (after_inventory zone changes Hp Hkeys Hvalid Hf records current request segs Ha Hg Hd Hps Hids Hfresh')
    as (current'&Ha'&Hinv'&Hout).
  exists (concat segs), current'. split_and!; [done| |done|done|done].
  apply (answer_accepted zone changes request (concat segs) observed deleted); try done.
  - rewrite Hposts. apply collect_Ok in Hc. apply Forall2_length in Hc. rewrite <- Hc.
    by apply (answer_length changes).
  - by apply aggregate_iff in Hobs as [[? _] _].
Qed.

(** *** Which desired record sets an answer can match *)

(** What the types of the source guarantee of a desired record set. *)
Record typed_set (r : ProviderDnsRecordSet) : Prop := {
  ty_owner : DnsOwnerName_new (rs_owner r) = Ok (rs_owner r);
  ty_sorted : sorted_set (rs_values r);
  ty_values : Forall value_ok (rs_values r);
  ty_tags proxy flattening comment tags :
    rs_extension r = Some (ExtCloudflare proxy flattening comment tags) → sorted_set tags }.

(** The form in which an observation reports a record set: a TTL of one second
    is the automatic one, and explicit seconds with nothing else to say come
    without an extension, on a type that cannot be proxied. *)
Definition canonical (r : ProviderDnsRecordSet) : Prop :=
  rs_ttl r ≠ Seconds 1
  ∧ ∀ proxy, rs_extension r = Some (ExtCloudflare proxy ProviderDefault None []) →
      type_in (rs_type r) proxiable = false → rs_ttl r = Automatic.

Lemma render_values_representable r posts :
  render_record_set r = Ok posts → Forall value_ok (rs_values r) → Forall cloudflare_value (rs_values r).
Proof.
  unfold render_record_set. destruct (render_options _) as [[[[? ?] ?] ?]|]; [|done].
  destruct (render_ttl _); [|done]. cbn [mbind]. intros Hc%collect_Ok Hv.
  revert posts Hc. induction Hv as [|v vs Hv Hvs IH]; intros posts Hc; [constructor|].
  inversion Hc as [|? p ? ps Hp Hps]; subst. constructor; [|by eapply IH]. split; [done|].
  destruct v; try done; cbn [render_value] in Hp. by destruct (utf8_valid _).
Qed.

Lemma typed_canonical r posts :
  typed_set r → canonical r → render_record_set r = Ok posts → cloudflare_form r.
Proof.
  intros Ht [Httl Hc] Hr. split; try apply Ht; [|done|done].
  by eapply render_values_representable, Ht.
Qed.

Lemma planned_forms changes segments :
  Forall2 posts_of changes segments → Forall typed_set (desired_sets changes) →
  Forall canonical (desired_sets changes) → Forall cloudflare_form (desired_sets changes).
Proof.
  rewrite !Forall_forall. intros Hp Ht Hc r Hr. specialize (Ht r Hr). specialize (Hc r Hr).
  apply list_elem_of_omap in Hr as (c&Hin&Hd). apply list_elem_of_lookup in Hin as [i Hi].
  destruct (Forall2_lookup_l _ _ _ _ _ Hp Hi) as (seg&_&Hs). unfold posts_of in Hs. rewrite Hd in Hs.
  by eapply typed_canonical.
Qed.

(** An observation is in that form. *)
Lemma extension_canonical record type :
  ∀ proxy, cloudflare_extension record type = Ok (Some (ExtCloudflare proxy ProviderDefault None [])) →
  type_in type proxiable = false → cr_ttl record = 1%Z.
Proof.
  intros proxy He Hty. unfold cloudflare_extension in He. case_match; [done|].
  destruct (observed_proxy record type) as [px|]; [|done]. cbn [mbind] in He.
  destruct (_ && negb (cr_proxiable record)); [done|]. rewrite Hty in He.
  destruct (_ && _) eqn:Ec in He; [done|]. injection He as _ Hfl Hco Hta.
  destruct (Z.eqb_spec (cr_ttl record) 1); [done|].
  by rewrite Hfl, Hco, Hta, !bool_decide_eq_true_2 in Ec.
Qed.

Lemma observe_canonical zone group o :
  observe_group zone group = Ok o → canonical (ob_record_set o).
Proof.
  unfold observe_group. destruct (sort_by cr_id group.2) as [|first rest]; [done|].
  destruct (existsb _ _); [done|]. destruct (negb _); [done|].
  destruct (cloudflare_extension first _) as [ext|] eqn:He; [|done]. cbn [mbind].
  destruct (or_invalid _ (ProviderDnsRecordSet_validate _ _)); [|done]. cbn [mbind].
  destruct (collect _ _); [|done]. cbn [mbind].
  destruct (or_invalid _ (DnsRecordRevision_new _)); [|done]. intros [= <-]. split; simpl.
  - destruct (Z.eqb_spec (cr_ttl first) 1); [done|congruence].
  - intros proxy ->. intros Hty. by rewrite (extension_canonical _ _ _ He Hty).
Qed.

Lemma accepted_canonical zone changes request result :
  NoDup (map change_key changes) →
  validate_batch_result zone changes request result = Ok tt → Forall canonical (desired_sets changes).
Proof.
  intros Hk Hv. unfold validate_batch_result in Hv. destruct (_ || _) in Hv; [done|].
  destruct (_ || _) in Hv; [done|].
  destruct (aggregate_records zone (bx_posts result)) as [observed|] eqn:Ha; [|done].
  cbn [map_err mbind] in Hv. case_bool_decide as Heq; [|done].
  apply Forall_forall. intros r Hr. pose proof Hr as (c&Hc&Hd)%list_elem_of_omap.
  assert (btm_get (change_key c) (btm_of_list (map (λ r, (rs_key r, r)) (desired_sets changes))) = Some r) as Hg.
  { rewrite desired_get by done. by rewrite apply_changes_in. }
  rewrite <- Heq in Hg. apply btm_get_elem in Hg; [|apply btm_of_list_sorted].
  apply btm_of_list_elem, list_elem_of_fmap in Hg as (o&Ho&Hin). injection Ho as _ ->.
  apply aggregate_iff in Ha as [_ Hobs]. apply list_elem_of_lookup in Hin as [i Hi].
  destruct (Forall2_lookup_r _ _ _ _ _ Hobs Hi) as (g&_&Hg). by eapply observe_canonical.
Qed.

(** C4.  Planning refines the abstract change: for a valid batch (of values with
    the invariants of their types) and the complete listing of a Cloudflare zone,
    if a request is planned then every guard holds of that listing and the
    request has between one and ten thousand operations.  If every desired record
    set is canonical, in the form in which an observation reports it, and the
    provider deletes the named objects and answers each post with a fresh record
    that keeps what was posted, then the answer is accepted, the records it then
    holds can be listed, and the record sets are those the changes ask for; the
    observation of every identity the batch does not name, with its objects and
    revision, is unchanged.  If a desired record set is not canonical (a TTL of
    one second, or an extension that says nothing on a type that needs none), no
    answer whatever is accepted. *)
Theorem cloudflare_plan_refines (zone : DnsZoneRef) (changes : list DnsRecordChange)
    (records : list CloudflareRecord) (current : list ObservedDnsRecordSet) (request : CloudflareBatchRequest) :
  zr_provider zone = Cloudflare → validate_dns_changes zone changes = Ok tt →
  Forall typed_set (desired_sets changes) →
  aggregate_records zone records = Ok current → plan_batch changes current = Ok request →
  Forall (guard_holds (index current)) changes ∧
  (1 <= zlen (bq_deletes request) + zlen (bq_posts request) <= MAX_BATCH_OPERATIONS)%Z ∧
  (Forall canonical (desired_sets changes) →
   ∀ raws deleted, Forall2 answers changes raws → NoDup (map rr_id (concat raws)) →
    (∀ raw, raw ∈ concat raws → rr_id raw ∉ map cr_id records) →
    map cr_id deleted ≡ₚ bq_deletes request →
    ∃ posted current', collect map_record (concat raws) = Ok posted ∧
      validate_batch_result zone changes request (mkBatchResult deleted posted) = Ok tt ∧
      aggregate_records zone (provider_apply records request posted) = Ok current' ∧
      (∀ k, inventory current' k = apply_changes (inventory current) changes k) ∧
      (∀ k, k ∉ map change_key changes → btm_get k (index current') = btm_get k (index current))) ∧
  (¬ Forall canonical (desired_sets changes) →
   ∀ result, validate_batch_result zone changes request result ≠ Ok tt).
Proof.
  intros Hp Hv Ht Ha Hpl. pose proof Hpl as (Hg&Hn&_&_&segments&Hseg&_)%plan_batch_Ok.
  split; [done|]. split; [done|]. split.
  - intros Hc. by apply (cf_plan_refines zone changes records current request Hp Hv
      (planned_forms _ _ Hseg Ht Hc) Ha Hpl).
  - intros Hc result Hr. apply Hc. eapply accepted_canonical; [|done].
    by apply validate_dns_changes_iff, bo_keys in Hv.
Qed.
End theorem.

(** ** A text record set is replaced *)

Definition demo_stored_records : list CloudflareRecord :=
  match collect (@map_record demo_idna) demo_raw_records with Ok l => l | Err _ => [] end.
Definition demo_current : list ObservedDnsRecordSet :=
  match @aggregate_records demo_idna demo_records_digest demo_cf_zone demo_stored_records with
  | Ok l => l | Err _ => [] end.
Definition demo_cf_desired : ProviderDnsRecordSet :=
  mkRecordSet (rs_key demo_cf_txt) (Seconds 300) [VTxt [[99]]]%Z None.
Definition demo_cf_changes : list DnsRecordChange :=
  map (λ o, ReplaceChange o demo_cf_desired (MatchObserved (ob_revision o))) demo_current.
Definition demo_cf_request : CloudflareBatchRequest :=
  match plan_batch demo_cf_changes demo_current with Ok q => q | Err _ => mkBatchRequest [] [] end.
Definition demo_answer : RawRecord :=
  mkRawRecord "11111111111111111111111111111111" "_txt.example.com" "TXT" 300
    (Some (render_txt [[99]]%Z)) None None (Some false) false None false None [] None.

Lemma demo_cf_desired_typed : @typed_set demo_idna demo_cf_desired.
Proof.
  split.
  - reflexivity.
  - repeat constructor.
  - repeat constructor; vm_compute; done.
  - by intros ? ? ? ? [=].
Qed.
Lemma demo_cf_desired_canonical : canonical demo_cf_desired.
Proof. split; [done|]. by intros ? [=]. Qed.

(** The same change with a TTL of one second: planned, and never accepted. *)
Definition demo_one_second : ProviderDnsRecordSet :=
  mkRecordSet (rs_key demo_cf_txt) (Seconds 1) [VTxt [[99]]]%Z None.
Definition demo_one_changes : list DnsRecordChange :=
  map (λ o, ReplaceChange o demo_one_second (MatchObserved (ob_revision o))) demo_current.

Definition demo_one_request : CloudflareBatchRequest :=
  match plan_batch demo_one_changes demo_current with Ok q => q | Err _ => mkBatchRequest [] [] end.
Lemma demo_one_second_typed : @typed_set demo_idna demo_one_second.
Proof.
  split.
  - reflexivity.
  - repeat constructor.
  - repeat constructor; vm_compute; done.
  - by intros ? ? ? ? [=].
Qed.

Lemma demo_answers : Forall2 answers demo_cf_changes [[demo_answer]].
Proof.
  change (Forall2 answers
    [ReplaceChange (hd (mkObserved demo_cf_zone demo_cf_txt [] "") demo_current)
    demo_cf_desired (MatchObserved (ob_revision (hd (mkObserved demo_cf_zone demo_cf_txt [] "") demo_current)))]
    [[demo_answer]]).
  constructor; [|constructor]. eexists _, false. split; [reflexivity|].
  apply Forall2_cons_2; [|apply Forall2_nil_2].
  split; cbn; try done; try (by right); try (by intros ? [= <-]); [by exists None|split; [constructor|done]].
Qed.

Lemma cloudflare_plan_refines_witness :
  (zlen (bq_deletes demo_cf_request) = 2%Z ∧
   ∃ posted current', collect (@map_record demo_idna) [demo_answer] = Ok posted ∧
     @aggregate_records demo_idna demo_records_digest demo_cf_zone
       (provider_apply demo_stored_records demo_cf_request posted) = Ok current' ∧
     inventory current' (rs_key demo_cf_txt) = Some demo_cf_desired) ∧
  (is_ok (plan_batch demo_one_changes demo_current) = true ∧
   ∀ result, @validate_batch_result demo_idna demo_records_digest demo_cf_zone demo_one_changes
     demo_one_request result ≠ Ok tt).
Proof.
  split.
  - split; [vm_compute; reflexivity|].
    destruct (@cloudflare_plan_refines demo_idna demo_idna_laws demo_records_digest demo_records_digest_laws
      demo_cf_zone demo_cf_changes demo_stored_records demo_current demo_cf_request) as (_&_&Hthen&_).
    + reflexivity.
    + vm_compute. reflexivity.
    + change (Forall (@typed_set demo_idna) [demo_cf_desired]). apply Forall_singleton. exact demo_cf_desired_typed.
    + vm_compute. reflexivity.
    + vm_compute. reflexivity.
    + destruct (Hthen (proj2 (Forall_singleton canonical demo_cf_desired) demo_cf_desired_canonical)
        [[demo_answer]] (rev demo_stored_records)) as (posted&current'&Hc&_&Ha&Hi&_).
      * exact demo_answers.
      * apply NoDup_singleton.
      * intros raw ->%list_elem_of_singleton. vm_compute. intros Hin.
        repeat (apply elem_of_cons in Hin as [Hin|Hin]; [done|]). by apply not_elem_of_nil in Hin.
      * vm_compute. reflexivity.
      * exists posted, current'. split; [exact Hc|]. split; [exact Ha|]. rewrite Hi. vm_compute. reflexivity.
  - split; [vm_compute; reflexivity|].
    apply (@cloudflare_plan_refines demo_idna demo_idna_laws demo_records_digest demo_records_digest_laws
      demo_cf_zone demo_one_changes demo_stored_records demo_current demo_one_request).
    + reflexivity.
    + vm_compute. reflexivity.
    + change (Forall (@typed_set demo_idna) [demo_one_second]). apply Forall_singleton.
      exact demo_one_second_typed.
    + vm_compute. reflexivity.
    + vm_compute. reflexivity.
    + change (¬ Forall canonical [demo_one_second]). by intros [[Hc _] _]%Forall_cons.
Defined.
