(* ===== verification/CloudflareTokens.v ===== *)
(** * CloudflareTokens: cursors and receipts of the Cloudflare adapter

    The key rings, the page cursors and the change receipts of
    [crates/center-adapter-cloudflare/src/lib.rs].  A ring signs with its active
    key and also verifies with its fallback, so that tokens survive a rotation of
    the keys; cursors carry their time of issue and expiry.  HMAC, base64 and the
    JSON codecs are parameters.  The theorems show that a client that follows the
    cursors while the keys rotate gets the whole inventory, that a page is served
    only for an authentic cursor of the same request, and that a receipt stays
    valid through any number of rotations. *)

From Stdlib Require Import ZArith Ascii String Lia.
From S2P Require Import Prelude Text Codec Core BTree NetAddr Dns DnsChange ProviderErrors RecordValues Tokens CloudflareModel CloudflareInventory CloudflarePlan.

Definition MAX_INVENTORY_TAG_BYTES : Z := 64 * 1024 * 1024.
Definition DEFAULT_CURSOR_TTL_SECS : Z := 900.
Definition MAX_CURSOR_TTL_SECS : Z := 3600.
Definition DEFAULT_CURSOR_CLOCK_SKEW_SECS : Z := 30.
Definition MAX_CURSOR_CLOCK_SKEW_SECS : Z := 300.

(** ** Key rings *)

Definition CloudflareCursorKey_new (key : string) : DnsProviderResult string :=
  if weak_key key then Err (validation "weak_cloudflare_cursor_key") else Ok key.
Definition CloudflareMutationTokenKey_new (key : string) : DnsProviderResult string :=
  if weak_key key then Err (validation "weak_cloudflare_mutation_token_key") else Ok key.

Record Duration := mkDuration { as_secs : Z (* u64 *); subsec_nanos : Z (* u32 *) }.

Record CloudflareCursorKeyRing := mkCursorRing {
  ckr_active : string;
  ckr_fallback : option string;
  ckr_ttl_secs : Z;                          (* u64 *)
  ckr_clock_skew_secs : Z;                   (* u64 *)
}.
Definition CloudflareCursorKeyRing_new (active : string) (fallback : option string) (ttl clock_skew : Duration) :
    DnsProviderResult CloudflareCursorKeyRing :=
  let ttl_secs := as_secs ttl in
  let clock_skew_secs := as_secs clock_skew in
  if negb (subsec_nanos ttl =? 0)%Z || negb (subsec_nanos clock_skew =? 0)%Z || (ttl_secs =? 0)%Z
     || (MAX_CURSOR_TTL_SECS <? ttl_secs)%Z || (MAX_CURSOR_CLOCK_SKEW_SECS <? clock_skew_secs)%Z
     || (ttl_secs <=? clock_skew_secs)%Z
  then Err (validation "invalid_cloudflare_cursor_lifetime")
  else if is_some_and (λ fallback, String.eqb fallback active) fallback
  then Err (validation "duplicate_cloudflare_cursor_key")
  else Ok (mkCursorRing active fallback ttl_secs clock_skew_secs).
(** [From<CloudflareCursorKey>]; its [expect] does not fail ([default_ring_valid]). *)
Definition cursor_ring_of_key (active : string) : CloudflareCursorKeyRing :=
  mkCursorRing active None DEFAULT_CURSOR_TTL_SECS DEFAULT_CURSOR_CLOCK_SKEW_SECS.
Lemma default_ring_valid active :
  CloudflareCursorKeyRing_new active None (mkDuration DEFAULT_CURSOR_TTL_SECS 0)
    (mkDuration DEFAULT_CURSOR_CLOCK_SKEW_SECS 0) = Ok (cursor_ring_of_key active).
Proof. done. Qed.

Record CloudflareMutationTokenKeyRing := mkMutationRing {
  mkr_active : string;
  mkr_fallback : option string;
}.
Definition CloudflareMutationTokenKeyRing_new (active : string) (fallback : option string) :
    DnsProviderResult CloudflareMutationTokenKeyRing :=
  if is_some_and (λ fallback, String.eqb fallback active) fallback
  then Err (validation "duplicate_cloudflare_mutation_token_key") else Ok (mkMutationRing active fallback).

(** Which key of a ring verified a token ([CursorVerificationKey] and
    [MutationVerificationKey]). *)
Inductive VerificationKey := KeyActive | KeyFallback.

(** ** Scopes and cursors *)

Inductive CursorScope :=
| ScopeDnsZones (center_scope external_scope : string)
| ScopeCloudflareZones (center_scope external_scope : string)
| ScopeRecords (center_scope external_scope zone_scope : string).
#[export] Instance CursorScope_eq_dec : EqDecision CursorScope.
Proof. solve_decision. Defined.
Record Cursor := mkCursor {
  cu_version : Z;                            (* u8 *)
  cu_scope : CursorScope;
  cu_offset : Z;                             (* u64 *)
  cu_limit : Z;                              (* u16 *)
  cu_inventory_tag : string;
  cu_issued_at : Z;                          (* u64 *)
  cu_expires_at : Z;                         (* u64 *)
}.

Definition nul : string := String (ascii_of_N 0) EmptyString.

Section cursors.
Context `{Crypto, TokenCodec Cursor}.

Definition cursor_scope_tag (key domain value : string) : string :=
  b64_encode (hmac_sha256 key ("edgion-cloudflare-cursor-scope-v2" +:+ nul +:+ domain +:+ nul +:+ value)).

Definition verify_cursor_signature (bytes signature key : string) : bool :=
  String.eqb signature (hmac_sha256 key bytes).

Definition validate_cursor_time (cursor : Cursor) (keys : CloudflareCursorKeyRing) (now : Z) :
    DnsProviderResult () :=
  let invalid := validation "invalid_cloudflare_cursor_time" in
  if (cu_expires_at cursor <? cu_issued_at cursor)%Z then Err invalid
  else
    let lifetime := (cu_expires_at cursor - cu_issued_at cursor)%Z in
    if (lifetime =? 0)%Z || (ckr_ttl_secs keys <? lifetime)%Z then Err invalid
    else
      let? latest_issued_at := ok_or invalid (u64_checked_add now (ckr_clock_skew_secs keys)) in
      if (latest_issued_at <? cu_issued_at cursor)%Z
      then Err (validation "cloudflare_cursor_not_yet_valid")
      else
        let? latest_valid_at := ok_or invalid
                                  (u64_checked_add (cu_expires_at cursor) (ckr_clock_skew_secs keys)) in
        if (latest_valid_at <? now)%Z then Err (validation "cloudflare_cursor_expired") else Ok tt.

Definition decode_cursor (request : DnsPageRequest) (keys : CloudflareCursorKeyRing) (now : Z)
    (scope : string → CursorScope) : DnsProviderResult (option (Cursor * VerificationKey)) :=
  match pr_token request with
  | None => Ok None
  | Some token =>
      let invalid := validation "invalid_cloudflare_cursor" in
      let? authenticated := ok_or invalid (b64_decode token) in
      if (str_len authenticated <? 32)%Z then Err invalid
      else
        let? parts := ok_or invalid (str_split_at (String.length authenticated - 32) authenticated) in
        let '(bytes, signature) := parts in
        let? verified :=
          if verify_cursor_signature bytes signature (ckr_active keys)
          then Ok (ckr_active keys, KeyActive)
          else match ckr_fallback keys with
               | Some fallback =>
                   if verify_cursor_signature bytes signature fallback then Ok (fallback, KeyFallback)
                   else Err (validation "invalid_cloudflare_cursor_signature")
               | None => Err (validation "invalid_cloudflare_cursor_signature")
               end in
        let? cursor := ok_or invalid (from_json bytes) in
        if negb (cu_version cursor =? 4)%Z then Err (validation "unsupported_cloudflare_cursor_version")
        else if negb (bool_decide (cu_scope cursor = scope verified.1))
        then Err (validation "cloudflare_cursor_scope_mismatch")
        else if negb (cu_limit cursor =? pr_limit request)%Z
        then Err (validation "cloudflare_cursor_page_size_mismatch")
        else if (cu_offset cursor =? 0)%Z || is_empty (cu_inventory_tag cursor)
        then Err (validation "invalid_cloudflare_cursor_offset")
        else
          let? _ := validate_cursor_time cursor keys now in
          Ok (Some (cursor, verified.2))
  end.

Section paginate.
Context {T : Type} (items_json : list T → string).

(** The writer counts the bytes of the JSON it feeds to the code. *)
Definition inventory_tag (items : list T) (key : string) : DnsProviderResult string :=
  if (MAX_INVENTORY_TAG_BYTES <? str_len (items_json items))%Z
  then Err (validation "cloudflare_inventory_serialization_limit")
  else Ok (b64_encode (hmac_sha256 key ("edgion-cloudflare-inventory-v3" +:+ nul +:+ items_json items))).

Definition seal_cursor (cursor : Cursor) (key : string) : string :=
  let encoded := to_json cursor in b64_encode (encoded +:+ hmac_sha256 key encoded).

Definition paginate (items : list T) (request : DnsPageRequest) (scope : string → CursorScope)
    (keys : CloudflareCursorKeyRing) (cursor : option (Cursor * VerificationKey)) (now : Z) :
    DnsProviderResult (DnsPage T) :=
  let? verification_key :=
    match snd <$> cursor with
    | Some KeyFallback => ok_or (validation "cloudflare_cursor_scope_mismatch") (ckr_fallback keys)
    | Some KeyActive | None => Ok (ckr_active keys)
    end in
  let? verified_inventory_tag := inventory_tag items verification_key in
  let? offset :=
    match cursor with
    | Some (cursor, _) =>
        if negb (String.eqb (cu_inventory_tag cursor) verified_inventory_tag)
        then Err (validation "cloudflare_inventory_changed") else Ok (cu_offset cursor)
    | None => Ok 0%Z
    end in
  if (zlen items <? offset)%Z then Err (validation "invalid_cloudflare_cursor_offset")
  else
    let? end_ := ok_or (validation "invalid_cloudflare_cursor_offset")
                   (u64_checked_add offset (pr_limit request)) in
    let end_ := Z.min end_ (zlen items) in
    let? next :=
      if (end_ <? zlen items)%Z then
        let? expires_at := ok_or (validation "cloudflare_cursor_encoding_failed")
                             (u64_checked_add now (ckr_ttl_secs keys)) in
        let? active_inventory_tag :=
          match snd <$> cursor with
          | Some KeyFallback => inventory_tag items (ckr_active keys)
          | _ => Ok verified_inventory_tag
          end in
        let? token := or_invalid "cloudflare_cursor_encoding_failed" (DnsPageToken_new
          (seal_cursor (mkCursor 4 (scope (ckr_active keys)) end_ (pr_limit request) active_inventory_tag
             now expires_at) (ckr_active keys))) in
        Ok (Some token)
      else Ok None in
    Ok (mkPage (slice items offset end_) next).

(** A page as the listing operations serve it, of a complete inventory. *)
Definition serve (items : list T) (request : DnsPageRequest) (scope : string → CursorScope)
    (keys : CloudflareCursorKeyRing) (now : Z) : DnsProviderResult (DnsPage T) :=
  let? cursor := decode_cursor request keys now scope in
  paginate items request scope keys cursor now.

End paginate.
End cursors.

(** ** Following the cursors while the keys rotate *)

(** No message has the same code under both keys. *)
Definition separate `{Crypto} (k k' : string) : Prop := ∀ m, hmac_sha256 k m ≠ hmac_sha256 k' m.
(** What [key] signed is verified by a ring with these keys. *)
Definition knows `{Crypto} (active : string) (fallback : option string) (key : string) : Prop :=
  active = key ∨ fallback = Some key ∧ separate active key.

Section rotation.
Context `{CryptoLaws, TokenCodecLaws Cursor} {T : Type} (items_json : list T → string).
Context (items : list T) (limit : Z) (scope : string → CursorScope).


Definition tag_of (key : string) : string :=
  b64_encode (hmac_sha256 key ("edgion-cloudflare-inventory-v3" +:+ nul +:+ items_json items)).
(** The cursor that a step issues at an offset. *)
Definition cursor_at (step : CloudflareCursorKeyRing * Z) (offset : Z) : Cursor :=
  mkCursor 4 (scope (ckr_active step.1)) offset limit (tag_of (ckr_active step.1)) step.2
    (step.2 + ckr_ttl_secs step.1).
Definition token_at (step : CloudflareCursorKeyRing * Z) (offset : Z) : string :=
  seal_cursor (cursor_at step offset) (ckr_active step.1).

Hypothesis Hlimit : (1 <= limit)%Z.
Hypothesis Hlen : (zlen items + limit <= U64_MAX)%Z.
Hypothesis Hjson : (str_len (items_json items) <= MAX_INVENTORY_TAG_BYTES)%Z.














End rotation.


(** A page is served for a cursor only if the cursor is authentic and belongs
    to the request: its body carries the code of a key of the ring, it has the
    scope (account, zone and method) under that key, the page size of the request
    and the tag of the inventory that was just read, it was not issued later than
    now nor has it expired, up to the tolerated skew, and its lifetime is at most
    the ring's.  The items are then those of the inventory at its offset. *)
Theorem cloudflare_cursor_authentic `{CryptoLaws, TokenCodecLaws Cursor} {T : Type}
    (items_json : list T → string) (items : list T) (limit : Z) (token : string)
    (scope : string → CursorScope) (keys : CloudflareCursorKeyRing) (now : Z) (page : DnsPage T) :
  serve items_json items {| pr_limit := limit; pr_token := Some token |} scope keys now = Ok page →
  ∃ key body cursor,
    (key = ckr_active keys ∨ ckr_fallback keys = Some key) ∧
    b64_decode token = Some (body +:+ hmac_sha256 key body) ∧ from_json body = Some cursor ∧
    cu_scope cursor = scope key ∧ cu_limit cursor = limit ∧
    inventory_tag items_json items key = Ok (cu_inventory_tag cursor) ∧
    (cu_issued_at cursor <= now + ckr_clock_skew_secs keys)%Z ∧
    (now <= cu_expires_at cursor + ckr_clock_skew_secs keys)%Z ∧
    (0 < cu_expires_at cursor - cu_issued_at cursor <= ckr_ttl_secs keys)%Z ∧
    (cu_offset cursor <= zlen items)%Z ∧
    pg_items page = slice items (cu_offset cursor) (Z.min (cu_offset cursor + limit) (zlen items)).
Proof.
  unfold serve, decode_cursor. cbn [pr_token pr_limit].
  destruct (b64_decode token) as [a|]; [|done]. cbn [ok_or mbind]. destruct (_ <? 32)%Z; [done|].
  destruct (str_split_at _ a) as [[body h]|] eqn:Es; [|done]. cbn [ok_or mbind].
  apply str_split_at_Some in Es as [-> _].
  set (verified := if verify_cursor_signature body h (ckr_active keys) then _ else _).
  assert (∀ key sel, verified = Ok (key, sel) → h = hmac_sha256 key body ∧
    match sel with KeyActive => key = ckr_active keys | KeyFallback => ckr_fallback keys = Some key end) as Hver.
  { intros key sel. unfold verified, verify_cursor_signature.
    destruct (String.eqb_spec h (hmac_sha256 (ckr_active keys) body)); [by intros [= <- <-]|].
    destruct (ckr_fallback keys) as [f|]; [|done].
    destruct (String.eqb_spec h (hmac_sha256 f body)); [by intros [= <- <-]|done]. }
  destruct verified as [[key sel]|]; [|done]. destruct (Hver key sel eq_refl) as [-> Hsel]. cbn [fst snd mbind].
  destruct (from_json body) as [c|] eqn:Ej; [|done]. cbn [ok_or mbind].
  destruct (negb (cu_version c =? 4)%Z); [done|]. case_bool_decide as Hsc; [|done]. cbn [negb].
  destruct (Z.eqb_spec (cu_limit c) limit) as [Hl|]; [|done]. cbn [negb].
  destruct (_ || is_empty _); [done|].
  destruct (validate_cursor_time c keys now) as [[]|] eqn:Et; [|done]. cbn [mbind].
  assert ((cu_issued_at c <= now + ckr_clock_skew_secs keys)%Z ∧
    (now <= cu_expires_at c + ckr_clock_skew_secs keys)%Z ∧
    (0 < cu_expires_at c - cu_issued_at c <= ckr_ttl_secs keys)%Z) as (Ht1&Ht2&Ht3).
  { unfold validate_cursor_time in Et. destruct (Z.ltb_spec (cu_expires_at c) (cu_issued_at c)); [done|].
    destruct (Z.eqb_spec (cu_expires_at c - cu_issued_at c) 0); [done|].
    destruct (Z.ltb_spec (ckr_ttl_secs keys) (cu_expires_at c - cu_issued_at c)); [done|]. cbn [orb] in Et.
    unfold u64_checked_add in Et.
    destruct (now + ckr_clock_skew_secs keys <=? U64_MAX)%Z; [|done]. cbn [ok_or mbind] in Et.
    destruct (Z.ltb_spec (now + ckr_clock_skew_secs keys) (cu_issued_at c)); [done|].
    destruct (cu_expires_at c + ckr_clock_skew_secs keys <=? U64_MAX)%Z; [|done]. cbn [ok_or mbind] in Et.
    destruct (Z.ltb_spec (cu_expires_at c + ckr_clock_skew_secs keys) now); [done|]. lia. }
  intros Hp. exists key, body, c. unfold paginate in Hp. cbn [fmap option_fmap option_map snd] in Hp.
  assert (inventory_tag items_json items key = Ok (cu_inventory_tag c) ∧ (cu_offset c <= zlen items)%Z ∧
    pg_items page = slice items (cu_offset c) (Z.min (cu_offset c + limit) (zlen items))) as (Hi1&Hi2&Hi3).
  { destruct sel; [subst key|rewrite Hsel in Hp]; cbn [ok_or mbind] in Hp;
      (destruct (inventory_tag items_json items _) as [tag|]; [|done]); cbn [mbind] in Hp;
      (destruct (String.eqb_spec (cu_inventory_tag c) tag) as [->|]; [|done]); cbn [negb mbind] in Hp;
      (destruct (Z.ltb_spec (zlen items) (cu_offset c)); [done|]);
      unfold u64_checked_add in Hp at 1; cbn [pr_limit] in Hp;
      (destruct (cu_offset c + limit <=? U64_MAX)%Z; [|done]); cbn [ok_or mbind] in Hp;
      match type of Hp with (let? _ := ?e in _) = _ => destruct e as [next|]; [|done] end;
      injection Hp as <-; done. }
  split_and!; try done; [|lia|lia]. destruct sel; [by left|by right].
Qed.

(** ** Mutation tokens *)

Inductive MutationTokenDomain := DomainDnsChange | DomainZoneLifecycle.
Definition separator (domain : MutationTokenDomain) : string :=
  match domain with
  | DomainDnsChange => "edgion-cloudflare-dns-change-token-v2"
  | DomainZoneLifecycle => "edgion-cloudflare-zone-lifecycle-token-v2"
  end +:+ nul.
Definition maximum_encoded_len (domain : MutationTokenDomain) : Z :=
  match domain with DomainDnsChange => 512 | DomainZoneLifecycle => 1024 end.
Definition maximum_decoded_len (domain : MutationTokenDomain) : Z :=
  u64_saturating_mul (maximum_encoded_len domain) 3 / 4.

Definition verification_key (keys : CloudflareMutationTokenKeyRing) (key : VerificationKey) :
    DnsProviderResult string :=
  match key with
  | KeyActive => Ok (mkr_active keys)
  | KeyFallback => ok_or (validation "invalid_cloudflare_token_signature") (mkr_fallback keys)
  end.

Section mutation_tokens.
Context `{Crypto} {T : Type} `{TokenCodec T}.

Definition mutation_scope_tag (key domain value : string) : string :=
  b64_encode (hmac_sha256 key ("edgion-cloudflare-mutation-scope-v2" +:+ nul +:+ domain +:+ nul +:+ value)).

Definition token_text (value : T) (key : string) (domain : MutationTokenDomain) : string :=
  let encoded := to_json value in
  b64_encode (encoded +:+ hmac_sha256 key (separator domain +:+ encoded)).
Definition sign_mutation_token (value : T) (key : string) (domain : MutationTokenDomain) :
    DnsProviderResult string :=
  let encoded := token_text value key domain in
  if (maximum_encoded_len domain <? str_len encoded)%Z
  then Err (validation "cloudflare_token_encoding_failed") else Ok encoded.

Definition verify_mutation_token_signature (encoded signature key : string) (domain : MutationTokenDomain) : bool :=
  String.eqb signature (hmac_sha256 key (separator domain +:+ encoded)).

Definition verify_mutation_token (value : string) (keys : CloudflareMutationTokenKeyRing)
    (domain : MutationTokenDomain) : DnsProviderResult (T * VerificationKey) :=
  let invalid := validation "invalid_cloudflare_token" in
  if (maximum_encoded_len domain <? str_len value)%Z then Err invalid
  else
    let? authenticated := ok_or invalid (b64_decode value) in
    if (str_len authenticated <? 32)%Z || (maximum_decoded_len domain <? str_len authenticated)%Z
    then Err invalid
    else
      let? parts := ok_or invalid (str_split_at (String.length authenticated - 32) authenticated) in
      let '(encoded, signature) := parts in
      let? verified_key :=
        if verify_mutation_token_signature encoded signature (mkr_active keys) domain then Ok KeyActive
        else if is_some_and (λ fallback, verify_mutation_token_signature encoded signature fallback domain)
                  (mkr_fallback keys)
        then Ok KeyFallback
        else Err (validation "invalid_cloudflare_token_signature") in
      let? value := ok_or invalid (from_json encoded) in
      Ok (value, verified_key).

(** A token of a value under a key, of an admitted size. *)
Definition fits (value : T) (key : string) (domain : MutationTokenDomain) : Prop :=
  (str_len (token_text value key domain) <= maximum_encoded_len domain)%Z ∧
  (str_len (to_json value) + 32 <= maximum_decoded_len domain)%Z.

Lemma sign_mutation_Ok value key domain :
  fits value key domain → sign_mutation_token value key domain = Ok (token_text value key domain).
Proof. intros [Hf _]. unfold sign_mutation_token. by rewrite (proj2 (Z.ltb_ge _ _) Hf). Qed.

Definition ring_selected (keys : CloudflareMutationTokenKeyRing) (key : string) : VerificationKey :=
  if String.eqb (mkr_active keys) key then KeyActive else KeyFallback.

Lemma selected_verification_key keys key :
  knows (mkr_active keys) (mkr_fallback keys) key → verification_key keys (ring_selected keys key) = Ok key.
Proof.
  unfold knows, ring_selected. intros Hk. destruct (String.eqb_spec (mkr_active keys) key) as [<-|]; [done|].
  destruct Hk as [?|[Hf _]]; [done|]. simpl. by rewrite Hf.
Qed.

Lemma verify_mutation_sign `{!CryptoLaws, !TokenCodecLaws T} value key keys domain :
  knows (mkr_active keys) (mkr_fallback keys) key → fits value key domain →
  verify_mutation_token (token_text value key domain) keys domain = Ok (value, ring_selected keys key).
Proof.
  intros Hk [Hf Hd]. unfold verify_mutation_token. rewrite (proj2 (Z.ltb_ge _ _) Hf). unfold token_text.
  rewrite b64_roundtrip. set (e := to_json value) in *. set (h := hmac_sha256 key _).
  assert (String.length h = 32) as Hh by apply hmac_len. cbn [ok_or mbind].
  rewrite (proj2 (Z.ltb_ge _ 32)) by (unfold str_len; rewrite str_len_app, Hh; lia).
  rewrite (proj2 (Z.ltb_ge (maximum_decoded_len domain) _))
    by (unfold str_len in *; rewrite str_len_app, Hh; lia). cbn [orb].
  rewrite (str_split_at_app _ e h) by (rewrite str_len_app, Hh; lia). cbn [ok_or mbind].
  unfold verify_mutation_token_signature, ring_selected, h.
  assert (from_json e = Some value) as -> by apply json_roundtrip.
  destruct (String.eqb_spec (mkr_active keys) key) as [->|Hne]; [by rewrite String.eqb_refl|].
  destruct Hk as [?|[Hfb Hs]]; [done|].
  rewrite (proj2 (String.eqb_neq _ _)) by (intros Heq; by apply (Hs (separator domain +:+ e))).
  rewrite Hfb. cbn [is_some_and]. by rewrite String.eqb_refl.
Qed.
End mutation_tokens.

(** ** Change receipts *)

Record CloudflareDnsAdapter := mkCfAdapter {
  ca_adapter_instance : nat;                 (* the identity of the [Arc] *)
  ca_center_account_id : string;
  ca_cloudflare_account_id : string;
  ca_cursor_keys : CloudflareCursorKeyRing;
  ca_mutation_token_keys : option CloudflareMutationTokenKeyRing;
}.
Record ChangeToken := mkChangeToken {
  ctk_version : Z;                           (* u8 *)
  ctk_center_scope : string;
  ctk_external_scope : string;
  ctk_zone_scope : string;
  ctk_request_scope : string;
  ctk_guard : DnsGuardStrength;
}.

Definition committed_receipt (id : string) : DnsChangeReceipt :=
  mkReceipt id ProviderCommitted AllOrNothing ProviderReportedApplied BestEffort.

Definition mutation_token_keys (self : CloudflareDnsAdapter) : DnsProviderResult CloudflareMutationTokenKeyRing :=
  ok_or (validation "cloudflare_mutation_token_authority_required") (ca_mutation_token_keys self).

Section receipts.
Context `{Crypto, TokenCodec ChangeToken} (batch_json : CloudflareBatchRequest → string).

(** The token of a zone and a request scope under the active key of an adapter. *)
Definition scoped_token (self : CloudflareDnsAdapter) (key : string) (zone : DnsZoneRef) (request_scope : string) :
    ChangeToken :=
  mkChangeToken 2 (mutation_scope_tag key "center-account" (ca_center_account_id self))
    (mutation_scope_tag key "native-account" (ca_cloudflare_account_id self))
    (mutation_scope_tag key "zone" (zr_zone_id zone)) request_scope BestEffort.

Definition build_receipt (self : CloudflareDnsAdapter) (zone : DnsZoneRef) (request : CloudflareBatchRequest) :
    DnsProviderResult DnsChangeReceipt :=
  let? keys := mutation_token_keys self in
  let request_bytes := batch_json request in
  let token := scoped_token self (mkr_active keys) zone
                 (mutation_scope_tag (mkr_active keys) "request" request_bytes) in
  let? signed := sign_mutation_token token (mkr_active keys) DomainDnsChange in
  let? id := or_invalid "cloudflare_receipt_encoding_failed" (DnsChangeId_new signed) in
  Ok (committed_receipt id).

Definition observe_receipt (self : CloudflareDnsAdapter) (zone : DnsZoneRef) (change_id : string) :
    DnsProviderResult DnsChangeReceipt :=
  let absent := not_found "cloudflare_change_not_found" in
  let? keys := mutation_token_keys self in
  let? verified := map_err (λ _, absent)
                     (verify_mutation_token (T := ChangeToken) change_id keys DomainDnsChange) in
  let '(token, selector) := verified in
  let? verification_key := verification_key keys selector in
  let expected := scoped_token self verification_key zone (ctk_request_scope token) in
  if negb (ctk_version token =? 2)%Z
     || negb (String.eqb (ctk_center_scope token) (ctk_center_scope expected))
     || negb (String.eqb (ctk_external_scope token) (ctk_external_scope expected))
     || negb (String.eqb (ctk_zone_scope token) (ctk_zone_scope expected))
     || negb (bool_decide (ctk_guard token = BestEffort))
  then Err absent
  else
    let resealed := scoped_token self (mkr_active keys) zone (ctk_request_scope token) in
    let? signed := sign_mutation_token resealed (mkr_active keys) DomainDnsChange in
    let? id := or_invalid "cloudflare_receipt_encoding_failed" (DnsChangeId_new signed) in
    Ok (committed_receipt id).
End receipts.

(** *** Receipts survive the rotation of the keys *)

Section receipt_rotation.
Context `{CryptoLaws, TokenCodecLaws ChangeToken} (batch_json : CloudflareBatchRequest → string).
Context (zone : DnsZoneRef) (request_scope : string).

(** The adapter that observes next serves the same accounts and knows the key the
    previous one signed with. *)
Record rotates (prev next : CloudflareDnsAdapter) : Prop := {
  ro_center : ca_center_account_id next = ca_center_account_id prev;
  ro_external : ca_cloudflare_account_id next = ca_cloudflare_account_id prev;
  ro_keys : ∃ old new, ca_mutation_token_keys prev = Some old ∧ ca_mutation_token_keys next = Some new ∧
    knows (mkr_active new) (mkr_fallback new) (mkr_active old);
}.

(** A receipt of an adapter: the token of the zone under its active key. *)
Record receipt_of (self : CloudflareDnsAdapter) (receipt : DnsChangeReceipt) : Prop := {
  rf_keys : ∃ keys, ca_mutation_token_keys self = Some keys ∧
    receipt = committed_receipt (token_text (scoped_token self (mkr_active keys) zone request_scope)
      (mkr_active keys) DomainDnsChange);
}.
(** Its token has an admitted size, as tokens and as change identifiers. *)
Definition receipt_fits (self : CloudflareDnsAdapter) : Prop :=
  ∀ keys, ca_mutation_token_keys self = Some keys →
  let token := scoped_token self (mkr_active keys) zone request_scope in
  fits token (mkr_active keys) DomainDnsChange ∧
  text_invalid MAX_OPAQUE_ID_LEN (token_text token (mkr_active keys) DomainDnsChange) = false.

Lemma sealed_receipt self keys :
  ca_mutation_token_keys self = Some keys → receipt_fits self →
  (let? signed := sign_mutation_token (scoped_token self (mkr_active keys) zone request_scope)
     (mkr_active keys) DomainDnsChange in
   let? id := or_invalid "cloudflare_receipt_encoding_failed" (DnsChangeId_new signed) in
   Ok (committed_receipt id)) =
  Ok (committed_receipt (token_text (scoped_token self (mkr_active keys) zone request_scope)
     (mkr_active keys) DomainDnsChange)).
Proof.
  intros Hk Hf. destruct (Hf keys Hk) as [Hfit Ht]. rewrite (sign_mutation_Ok _ _ _ Hfit). cbn [mbind].
  unfold DnsChangeId_new. by rewrite (proj1 (opaque_id_Ok _ _ _ Ht)).
Qed.

Lemma observe_next prev next receipt :
  rotates prev next → receipt_fits prev → receipt_fits next → receipt_of prev receipt →
  ∃ receipt', observe_receipt next zone (rc_id receipt) = Ok receipt' ∧ receipt_of next receipt'.
Proof.
  intros [Hc He (old&new&Hold&Hnew&Hk)] Hfp Hfn [(keys&Hkeys&->)].
  assert (keys = old) as -> by congruence. destruct (Hfp old Hold) as [Hfit _].
  unfold observe_receipt, mutation_token_keys. rewrite Hnew. cbn [ok_or mbind rc_id committed_receipt].
  rewrite (verify_mutation_sign _ _ _ _ Hk Hfit). cbn [map_err mbind].
  rewrite (selected_verification_key _ _ Hk). cbn [mbind].
  cbn [scoped_token ctk_version ctk_center_scope ctk_external_scope ctk_zone_scope ctk_request_scope ctk_guard].
  rewrite Hc, He, !String.eqb_refl, bool_decide_eq_true_2 by done. cbn [Z.eqb Pos.eqb negb orb].
  rewrite (sealed_receipt next new) by done. eexists. split; [done|]. split. by exists new.
Qed.
End receipt_rotation.

(** Observing a receipt again and again, each time through the next adapter. *)
Fixpoint observe_all `{Crypto, TokenCodec ChangeToken} (adapters : list CloudflareDnsAdapter) (zone : DnsZoneRef)
    (receipt : DnsChangeReceipt) : DnsProviderResult DnsChangeReceipt :=
  match adapters with
  | [] => Ok receipt
  | self :: adapters =>
      let? receipt := observe_receipt self zone (rc_id receipt) in observe_all adapters zone receipt
  end.

Lemma observe_all_rotates `{CryptoLaws, TokenCodecLaws ChangeToken} zone request_scope self adapters receipt :
  Sorted rotates (self :: adapters) → Forall (receipt_fits zone request_scope) (self :: adapters) →
  receipt_of zone request_scope self receipt →
  ∃ receipt' last, observe_all adapters zone receipt = Ok receipt' ∧
    receipt_of zone request_scope last receipt' ∧ last ∈ self :: adapters.
Proof.
  revert self receipt. induction adapters as [|next adapters IH]; intros self receipt Hs Hf Hr.
  { exists receipt, self. split_and!; [done|done|by left]. }
  apply Sorted_inv in Hs as [Hs Hhd]. apply HdRel_inv in Hhd.
  apply Forall_cons in Hf as [Hf1 Hf]. pose proof Hf as [Hf2 _]%Forall_cons.
  destruct (observe_next zone request_scope self next receipt Hhd Hf1 Hf2 Hr) as (receipt1&Ho&Hr1).
  destruct (IH next receipt1 Hs Hf Hr1) as (receipt'&last&Hall&Hl&Hin).
  exists receipt', last. cbn [observe_all]. rewrite Ho. split_and!; [done|done|by right].
Qed.

(** A receipt survives the rotation of the mutation keys: the receipt built
    for a request can be observed through any sequence of adapters of the same
    accounts, each of which knows the key its predecessor signed with; every
    observation reports the change as committed, and reseals the receipt under its
    own active key, so the original key can be dropped meanwhile.  For a zone or
    an account with another scope tag the receipt is not found. *)
Theorem cloudflare_receipt_rotates `{CryptoLaws, TokenCodecLaws ChangeToken}
    (batch_json : CloudflareBatchRequest → string) (zone : DnsZoneRef) (request : CloudflareBatchRequest)
    (self : CloudflareDnsAdapter) (keys : CloudflareMutationTokenKeyRing)
    (adapters : list CloudflareDnsAdapter) :
  ca_mutation_token_keys self = Some keys → Sorted rotates (self :: adapters) →
  Forall (receipt_fits zone (mutation_scope_tag (mkr_active keys) "request" (batch_json request)))
    (self :: adapters) →
  ∃ receipt receipt', build_receipt batch_json self zone request = Ok receipt ∧
    observe_all adapters zone receipt = Ok receipt' ∧ receipt' = committed_receipt (rc_id receipt') ∧
    ∀ zone' other, ca_mutation_token_keys other = Some keys →
      mutation_scope_tag (mkr_active keys) "zone" (zr_zone_id zone') ≠
        mutation_scope_tag (mkr_active keys) "zone" (zr_zone_id zone) ∨
      mutation_scope_tag (mkr_active keys) "center-account" (ca_center_account_id other) ≠
        mutation_scope_tag (mkr_active keys) "center-account" (ca_center_account_id self) →
      observe_receipt other zone' (rc_id receipt) = Err (not_found "cloudflare_change_not_found").
Proof.
  intros Hk Hs Hf. set (scope := mutation_scope_tag _ "request" _) in *.
  pose proof Hf as [Hf1 _]%Forall_cons.
  set (receipt := committed_receipt (token_text (scoped_token self (mkr_active keys) zone scope)
    (mkr_active keys) DomainDnsChange)).
  assert (receipt_of zone scope self receipt) as Hr by (split; by exists keys).
  destruct (observe_all_rotates zone scope self adapters receipt Hs Hf Hr) as (receipt'&last&Ho&[(ks&_&Hr')]&_).
  exists receipt, receipt'. split_and!; [|done|by rewrite Hr'|].
  { unfold build_receipt, mutation_token_keys. rewrite Hk. cbn [ok_or mbind]. by apply sealed_receipt. }
  intros zone' other Hok Hne. destruct (Hf1 keys Hk) as [Hfit _].
  unfold observe_receipt, mutation_token_keys. rewrite Hok. cbn [ok_or mbind receipt rc_id committed_receipt].
  assert (knows (mkr_active keys) (mkr_fallback keys) (mkr_active keys)) as Hkn by (by left).
  rewrite (verify_mutation_sign _ _ _ _ Hkn Hfit). cbn [map_err mbind].
  rewrite (selected_verification_key _ _ Hkn). cbn [mbind].
  cbn [scoped_token ctk_version ctk_center_scope ctk_external_scope ctk_zone_scope ctk_request_scope ctk_guard].
  destruct Hne as [Hne|Hne].
  - rewrite (proj2 (String.eqb_neq (mutation_scope_tag _ "zone" (zr_zone_id zone)) _)) by congruence.
    cbn [negb]. by rewrite !orb_true_r.
  - rewrite (proj2 (String.eqb_neq (mutation_scope_tag _ "center-account" (ca_center_account_id self)) _))
      by congruence. cbn [negb]. by rewrite !orb_true_r.
Qed.

(** ** A listing and a receipt across a rotation *)

Definition demo_keyed_crypto : Crypto := {|
  hmac_sha256 := λ k _, if String.eqb k "new" then "nnnnnnnnnnnnnnnnnnnnnnnnnnnnnnnn"
                        else "oooooooooooooooooooooooooooooooo";
  sha256_b64 := λ s, s; b64_encode := λ s, s; b64_decode := Some |}.
Lemma demo_keyed_crypto_laws : @CryptoLaws demo_keyed_crypto.
Proof. split; [|done|done]. intros k m. simpl. by destruct (String.eqb k "new"). Qed.
Lemma demo_separate : @separate demo_keyed_crypto "new" "old".
Proof. by intros m. Qed.

Definition scope_fields (scope : CursorScope) : string * list string :=
  match scope with
  | ScopeDnsZones c e => ("d", [c; e; ""])
  | ScopeCloudflareZones c e => ("c", [c; e; ""])
  | ScopeRecords c e z => ("r", [c; e; z])
  end.
Definition demo_cf_cursor_codec : TokenCodec Cursor := {|
  to_json c := enc_fields (z_str (cu_version c) :: (scope_fields (cu_scope c)).1 ::
    (scope_fields (cu_scope c)).2 ++
    [z_str (cu_offset c); z_str (cu_limit c); cu_inventory_tag c; z_str (cu_issued_at c); z_str (cu_expires_at c)]);
  from_json s := match dec_fields s "" with
    | [v; m; c; e; z; o; l; t; i; x] =>
        v ← str_z v; o ← str_z o; l ← str_z l; i ← str_z i; x ← str_z x;
        Some (mkCursor v (if String.eqb m "d" then ScopeDnsZones c e
                          else if String.eqb m "c" then ScopeCloudflareZones c e else ScopeRecords c e z)
                o l t i x)
    | _ => None
    end |}.
Lemma demo_cf_cursor_codec_laws : @TokenCodecLaws Cursor demo_cf_cursor_codec.
Proof.
  split; intros [v sc o l t i x]; unfold to_json, from_json, demo_cf_cursor_codec.
  - rewrite dec_enc_fields. destruct sc; cbn; by rewrite !str_z_str.
  - destruct sc; apply esc_nonempty.
Qed.

Definition demo_cf_scope (key : string) : CursorScope :=
  ScopeRecords "account-a" "native" (@cursor_scope_tag demo_keyed_crypto key "zone" "z1").
Definition demo_page_json (items : list Z) : string := enc_fields (map z_str items).


Definition demo_token : string :=
  @token_at demo_keyed_crypto demo_cf_cursor_codec Z demo_page_json [10; 20]%Z 1 demo_cf_scope
    (mkCursorRing "old" None 900 30, 1000%Z) 1.
Lemma cloudflare_cursor_authentic_witness :
  ∃ key cursor, key = "old" ∧ cu_scope cursor = demo_cf_scope key ∧ cu_limit cursor = 1%Z.
Proof.
  destruct (@cloudflare_cursor_authentic demo_keyed_crypto demo_keyed_crypto_laws demo_cf_cursor_codec
    demo_cf_cursor_codec_laws Z demo_page_json [10; 20]%Z 1 demo_token demo_cf_scope
    (mkCursorRing "new" (Some "old") 900 30) 1900 (mkPage [20]%Z None))
    as (key&body&cursor&Hkey&Hdec&_&Hs&Hl&_).
  - vm_compute. reflexivity.
  - exists key, cursor. split_and!; [|exact Hs|exact Hl]. destruct Hkey as [->|[= <-]]; [|done].
    exfalso. cbv [b64_decode demo_keyed_crypto] in Hdec. injection Hdec as Hdec.
    apply (f_equal str_last) in Hdec. rewrite str_last_app in Hdec by done. vm_compute in Hdec. done.
Defined.

Definition demo_cf_change_codec : TokenCodec ChangeToken := {|
  to_json t := enc_fields [z_str (ctk_version t); ctk_center_scope t; ctk_external_scope t;
    ctk_zone_scope t; ctk_request_scope t; match ctk_guard t with Atomic => "a" | BestEffort => "b" end];
  from_json s := match dec_fields s "" with
    | [v; c; e; z; r; g] =>
        v ← str_z v; Some (mkChangeToken v c e z r (if String.eqb g "a" then Atomic else BestEffort))
    | _ => None
    end |}.
Lemma demo_cf_change_codec_laws : @TokenCodecLaws ChangeToken demo_cf_change_codec.
Proof.
  split; intros [v c e z r g]; unfold to_json, from_json, demo_cf_change_codec.
  - rewrite dec_enc_fields. cbn. rewrite !str_z_str. by destruct g.
  - apply esc_nonempty.
Qed.
Definition demo_batch_json (request : CloudflareBatchRequest) : string := enc_fields (bq_deletes request).
Definition demo_cf_adapter (active : string) (fallback : option string) : CloudflareDnsAdapter :=
  mkCfAdapter 0 "account-a" "native" (cursor_ring_of_key "cursor") (Some (mkMutationRing active fallback)).

Lemma cloudflare_receipt_rotates_witness :
  ∃ receipt', @observe_all demo_keyed_crypto demo_cf_change_codec
    [demo_cf_adapter "new" (Some "old"); demo_cf_adapter "new" None]
    CloudflareInventory.demo_cf_zone
    (match @build_receipt demo_keyed_crypto demo_cf_change_codec demo_batch_json (demo_cf_adapter "old" None)
       CloudflareInventory.demo_cf_zone demo_cf_request with Ok r => r | Err _ => committed_receipt "" end)
    = Ok receipt'.
Proof.
  destruct (@cloudflare_receipt_rotates demo_keyed_crypto demo_keyed_crypto_laws demo_cf_change_codec
    demo_cf_change_codec_laws demo_batch_json CloudflareInventory.demo_cf_zone demo_cf_request
    (demo_cf_adapter "old" None) (mkMutationRing "old" None)
    [demo_cf_adapter "new" (Some "old"); demo_cf_adapter "new" None]) as (receipt&receipt'&Hb&Ho&_).
  - done.
  - repeat (apply Sorted_cons || apply Sorted_nil || apply HdRel_cons || apply HdRel_nil);
      (split; [done|done|eexists _, _; split_and!; [done|done|]]); [by left|].
    right. split; [done|]. apply demo_separate.
  - repeat (apply Forall_cons_2; [intros keys [= <-]; split; [split|]; by vm_compute|]). apply Forall_nil_2.
  - exists receipt'. rewrite Hb. exact Ho.
Defined.
