(* ===== verification/CloudflareAdapter.v ===== *)
(** * CloudflareAdapter: the account-bound Cloudflare adapter

    [crates/center-adapter-cloudflare/src/lib.rs]: the calls of [CloudflareApi],
    the bounded reading of paginated listings, the construction of the adapter,
    and its [DnsProvider] and [CloudflareZoneInventory] ports.  The theorems show
    that record changes are submitted at most once, on the evidence of a complete
    listing of the same run, with an honest outcome, and that against a provider
    that does what it is asked the changes are applied exactly. *)

From Stdlib Require Import ZArith Ascii String Lia.
From S2P Require Import Prelude Text Core Effects BTree Dns DnsChange ZoneLifecycle ProviderErrors RecordValues Tokens CloudAccounts CloudflareModel CloudflareInventory CloudflarePlan CloudflareTokens.

Definition MAX_ZONE_PROVIDER_PAGES : Z := 200.
Definition MAX_RECORD_PROVIDER_PAGES : Z := 20.
Definition PROVIDER_PAGE_SIZE : Z := 5000.
Definition ZONE_PAGE_SIZE : Z := 50.
Definition MAX_INVENTORY_ZONES : Z := 10000.
Definition MAX_INVENTORY_RECORDS : Z := 100000.

(** ** The API *)

Record CloudflareCreateZoneRequest := mkCfCreateZone {
  cc_account_id : string;
  cc_name : string;
  cc_kind : CloudflareZoneKind;
}.
Inductive CloudflareDnssecStatus :=
| StatusActive | StatusPending | StatusDisabled | StatusPendingDisabled | StatusError.
Record CloudflareDnssecDs := mkCfDs {
  cd_key_tag : Z;                            (* u16 *)
  cd_algorithm : Z;                          (* u8 *)
  cd_digest_type : Z;                        (* u8 *)
  cd_digest : string;
}.
Record CloudflareDnssec := mkCfDnssec {
  cs_status : CloudflareDnssecStatus;
  cs_ds : option CloudflareDnssecDs;
  cs_modified_on : option string;
}.
Record CloudflarePage (T : Type) := mkCfPage {
  cp_items : list T;
  cp_page : Z;                               (* u32 *)
  cp_total_pages : Z;                        (* u32 *)
}.
Arguments mkCfPage {T}.
Arguments cp_items {T}.
Arguments cp_page {T}.
Arguments cp_total_pages {T}.

(** [CloudflareApi], and the clock of the cursor keys; a deletion is acknowledged
    with the identifier of a zone. *)
Inductive cf_call : Type → Type :=
| Now : cf_call (DnsProviderResult Z)
| CreateZone (request : CloudflareCreateZoneRequest) : cf_call (DnsProviderResult CloudflareZone)
| GetZone (zone_id : string) : cf_call (DnsProviderResult (option CloudflareZone))
| DeleteZone (zone_id : string) : cf_call (DnsProviderResult string)
| GetDnssec (zone_id : string) : cf_call (DnsProviderResult (option CloudflareDnssec))
| PatchDnssec (zone_id : string) (desired : DnssecDesiredState) : cf_call (DnsProviderResult CloudflareDnssec)
| ListZones (account_id : string) (page per_page : Z) : cf_call (DnsProviderResult (CloudflarePage CloudflareZone))
| ListRecords (zone_id : string) (page per_page : Z) :
    cf_call (DnsProviderResult (CloudflarePage CloudflareRecord))
| BatchRecords (zone_id : string) (request : CloudflareBatchRequest) :
    cf_call (DnsProviderResult CloudflareBatchResult).
Abbreviation cf_event := (event cf_call).

(** ** Pages of the provider *)

Definition validate_provider_page {T} (requested per_page : Z) (page : CloudflarePage T) : DnsProviderResult () :=
  if negb (cp_page page =? requested)%Z
     || (cp_total_pages page =? 0)%Z && (negb (requested =? 1)%Z || negb (zlen (cp_items page) =? 0)%Z)
     || negb (cp_total_pages page =? 0)%Z && (cp_total_pages page <? cp_page page)%Z
     || (per_page <? zlen (cp_items page))%Z
  then Err (validation "invalid_cloudflare_provider_page") else Ok tt.

Definition validate_stable_total_pages (expected : option Z) (observed : Z) : DnsProviderResult (option Z) :=
  match expected with
  | None => Ok (Some observed)
  | Some value =>
      if (value =? observed)%Z then Ok expected else Err (validation "cloudflare_total_pages_changed")
  end.

Section pages.
Context {T U : Type} (list_page : Z → cf_call (DnsProviderResult (CloudflarePage T))).
Context (per_page max_pages max_items : Z) (page_limit item_limit : string).
(** How an item is taken over, and what the loop ends with after the last page
    that may be asked for. *)
Context (absorb : T → DnsProviderResult U) (exhausted : list U → DnsProviderResult (list U)).

(** [for page in 1..=max_pages] of [all_zones], [all_zone_inventory],
    [all_cloudflare_records] and the writer. *)
Fixpoint pages_loop (n : nat) (page : Z) (expected : option Z) (items : list U) :
    prog cf_call (DnsProviderResult (list U)) :=
  match n with
  | O => Ret (exhausted items)
  | S n =>
      result <~ list_page page ;;
      try? result := result in
      try? _ := validate_provider_page page per_page result in
      if (max_pages <? cp_total_pages result)%Z then Ret (Err (validation page_limit))
      else
        try? expected := validate_stable_total_pages expected (cp_total_pages result) in
        try? absorbed := collect absorb (cp_items result) in
        let items := items ++ absorbed in
        if (max_items <? zlen items)%Z then Ret (Err (validation item_limit))
        else if (cp_total_pages result <=? page)%Z then Ret (Ok items)
        else pages_loop n (page + 1) expected items
  end.
Definition all_pages : prog cf_call (DnsProviderResult (list U)) :=
  pages_loop (Z.to_nat max_pages) 1 None [].
End pages.

Definition record_pages (zone_id : string)
    (exhausted : list CloudflareRecord → DnsProviderResult (list CloudflareRecord)) :
    prog cf_call (DnsProviderResult (list CloudflareRecord)) :=
  all_pages (λ page, ListRecords zone_id page PROVIDER_PAGE_SIZE) PROVIDER_PAGE_SIZE MAX_RECORD_PROVIDER_PAGES
    MAX_INVENTORY_RECORDS "cloudflare_record_pagination_limit" "cloudflare_record_inventory_limit"
    Ok exhausted.
Definition record_limit {A} (items : list CloudflareRecord) : DnsProviderResult A :=
  Err (validation "cloudflare_record_pagination_limit").

(** Whether two neighbours are equal. *)
Fixpoint adjacent_equal (l : list string) : bool :=
  match l with
  | x :: (y :: _) as k => String.eqb x y || adjacent_equal k
  | _ => false
  end.
Definition finish_zones {U} (zone_id : U → string) (zones : list U) : DnsProviderResult (list U) :=
  let zones := sort_by zone_id zones in
  if adjacent_equal (map zone_id zones) then Err (validation "duplicate_cloudflare_zone_id") else Ok zones.

Section zone_pages.
Context {U : Type} (cloudflare_account_id : string) (absorb : CloudflareZone → DnsProviderResult U).
Definition zone_pages (zone_id : U → string) : prog cf_call (DnsProviderResult (list U)) :=
  pbind (all_pages (λ page, ListZones cloudflare_account_id page ZONE_PAGE_SIZE) ZONE_PAGE_SIZE
           MAX_ZONE_PROVIDER_PAGES MAX_INVENTORY_ZONES "cloudflare_zone_pagination_limit"
           "cloudflare_zone_inventory_limit" absorb
           (λ _, Err (validation "cloudflare_zone_pagination_limit"))) (λ zones,
    try? zones := zones in Ret (finish_zones zone_id zones)).
End zone_pages.

(** ** Construction *)

Definition key_materials (active : string) (fallback : option string) : list string :=
  active :: match fallback with Some key => [key] | None => [] end.
Definition materials_shared (cursor_keys : CloudflareCursorKeyRing) (mutation_keys : CloudflareMutationTokenKeyRing) :
    bool :=
  existsb (λ cursor, existsb (String.eqb cursor) (key_materials (mkr_active mutation_keys) (mkr_fallback mutation_keys)))
    (key_materials (ckr_active cursor_keys) (ckr_fallback cursor_keys)).

(** [instance] is the identity of the new [Arc]. *)
Definition build (instance : nat) (center_account_id : string) (account : ProviderAccountSpec)
    (cursor_keys : CloudflareCursorKeyRing) (mutation_token_keys : option CloudflareMutationTokenKeyRing) :
    DnsProviderResult CloudflareDnsAdapter :=
  let? _ := or_invalid "invalid_provider_account" (ProviderAccountSpec_validate account) in
  let? scope := ok_or (validation "cloudflare_account_scope_required") (as_scope account) in
  match scope with
  | ScopeAws _ => Err (validation "cloudflare_account_scope_mismatch")
  | ScopeCloudflare account_id =>
      if negb (bool_decide (as_provider account = Cloudflare))
      then Err (validation "cloudflare_provider_required")
      else if is_some_and (materials_shared cursor_keys) mutation_token_keys
      then Err (validation "cloudflare_token_key_material_reused")
      else Ok (mkCfAdapter instance center_account_id account_id cursor_keys mutation_token_keys)
  end.

Definition new (instance : nat) (center_account_id : string) (account : ProviderAccountSpec)
    (cursor_keys : CloudflareCursorKeyRing) : DnsProviderResult CloudflareDnsAdapter :=
  build instance center_account_id account cursor_keys None.
Definition new_with_cursor_key_ring (instance : nat) (center_account_id : string)
    (account : ProviderAccountSpec) (cursor_keys : CloudflareCursorKeyRing) :
    DnsProviderResult CloudflareDnsAdapter :=
  new instance center_account_id account cursor_keys.
Definition new_with_cursor_and_mutation_key_rings (instance : nat) (center_account_id : string)
    (account : ProviderAccountSpec) (cursor_keys : CloudflareCursorKeyRing)
    (mutation_token_keys : CloudflareMutationTokenKeyRing) : DnsProviderResult CloudflareDnsAdapter :=
  build instance center_account_id account cursor_keys (Some mutation_token_keys).

(** ** The adapter *)

Record ValidatedCloudflareRecordCursor := mkValidated {
  vc_adapter_instance : nat;
  vc_center_account_id : string;
  vc_cloudflare_account_id : string;
  vc_zone_id : string;
  vc_request : DnsPageRequest;
  vc_cursor : option (Cursor * VerificationKey);
  vc_now : Z;                                (* u64 *)
}.
#[export] Instance DnsPageRequest_eq_dec : EqDecision DnsPageRequest.
Proof. solve_decision. Defined.

Section adapter.
Context `{Idna, RecordsDigest, Crypto, TokenCodec Cursor, TokenCodec ChangeToken}.
(** The JSON of the items of a page and of a batch request. *)
Context (zones_json : list ObservedDnsZone → string) (inventory_json : list ObservedCloudflareZone → string)
  (records_json : list ObservedDnsRecordSet → string) (batch_json : CloudflareBatchRequest → string).
Context (self : CloudflareDnsAdapter).

Definition map_zone (zone : CloudflareZone) : DnsProviderResult ObservedDnsZone :=
  map_zone_for_account (ca_center_account_id self) (ca_cloudflare_account_id self) zone.
Definition map_zone_inventory (zone : CloudflareZone) : DnsProviderResult ObservedCloudflareZone :=
  map_zone_inventory_for_account (ca_center_account_id self) (ca_cloudflare_account_id self) zone.

Definition validate_zone_ref (zone : DnsZoneRef) : DnsProviderResult () :=
  let? _ := or_invalid "invalid_zone" (DnsZoneRef_validate zone) in
  if negb (bool_decide (zr_provider zone = Cloudflare))
     || negb (String.eqb (zr_provider_account_id zone) (ca_center_account_id self))
  then Err (validation "cloudflare_zone_scope_mismatch") else Ok tt.

(** *** Inventories *)

Definition all_zones : prog cf_call (DnsProviderResult (list ObservedDnsZone)) :=
  zone_pages (ca_cloudflare_account_id self) map_zone (λ z, zr_zone_id (oz_zone z)).
Definition all_zone_inventory : prog cf_call (DnsProviderResult (list ObservedCloudflareZone)) :=
  zone_pages (ca_cloudflare_account_id self) map_zone_inventory (λ z, zr_zone_id (oc_zone z)).

Definition all_cloudflare_records (zone : DnsZoneRef) : prog cf_call (DnsProviderResult (list CloudflareRecord)) :=
  try? _ := validate_zone_ref zone in
  if negb (valid_cloudflare_identifier (zr_zone_id zone))
  then Ret (Err (validation "invalid_cloudflare_zone_id"))
  else
    provider_zone <~ GetZone (zr_zone_id zone) ;;
    try? provider_zone := provider_zone in
    try? provider_zone := ok_or (not_found "cloudflare_zone_not_found") provider_zone in
    try? observed := map_zone provider_zone in
    if negb (bool_decide (oz_zone observed = zone))
    then Ret (Err (validation "cloudflare_zone_identity_mismatch"))
    else record_pages (zr_zone_id zone) record_limit.
Definition all_records (zone : DnsZoneRef) : prog cf_call (DnsProviderResult (list ObservedDnsRecordSet)) :=
  pbind (all_cloudflare_records zone) (λ records,
    try? records := records in Ret (aggregate_records zone records)).

(** *** Cursors *)

Definition dns_zones_scope (key : string) : CursorScope :=
  ScopeDnsZones (cursor_scope_tag key "center-account" (ca_center_account_id self))
    (cursor_scope_tag key "native-account" (ca_cloudflare_account_id self)).
Definition cloudflare_zones_scope (key : string) : CursorScope :=
  ScopeCloudflareZones (cursor_scope_tag key "center-account" (ca_center_account_id self))
    (cursor_scope_tag key "native-account" (ca_cloudflare_account_id self)).
Definition record_cursor_scope (zone_id key : string) : CursorScope :=
  ScopeRecords (cursor_scope_tag key "center-account" (ca_center_account_id self))
    (cursor_scope_tag key "native-account" (ca_cloudflare_account_id self))
    (cursor_scope_tag key "zone" zone_id).

Definition validate_record_inventory_cursor (zone_id : string) (page : DnsPageRequest) :
    prog cf_call (DnsProviderResult ValidatedCloudflareRecordCursor) :=
  try? _ := or_invalid "invalid_page" (DnsPageRequest_validate page) in
  if negb (valid_cloudflare_identifier zone_id) then Ret (Err (validation "invalid_cloudflare_zone_id"))
  else
    now <~ Now ;;
    try? now := now in
    try? cursor := decode_cursor page (ca_cursor_keys self) now (record_cursor_scope zone_id) in
    Ret (Ok (mkValidated (ca_adapter_instance self) (ca_center_account_id self) (ca_cloudflare_account_id self)
               zone_id page cursor now)).

Definition list_record_sets_with_validated_cursor (zone : DnsZoneRef) (page : DnsPageRequest)
    (validated : ValidatedCloudflareRecordCursor) : prog cf_call (DnsProviderResult (DnsPage ObservedDnsRecordSet)) :=
  try? _ := or_invalid "invalid_page" (DnsPageRequest_validate page) in
  try? _ := validate_zone_ref zone in
  if negb (Nat.eqb (vc_adapter_instance validated) (ca_adapter_instance self))
     || negb (String.eqb (vc_center_account_id validated) (ca_center_account_id self))
     || negb (String.eqb (vc_cloudflare_account_id validated) (ca_cloudflare_account_id self))
     || negb (String.eqb (vc_zone_id validated) (zr_zone_id zone))
     || negb (bool_decide (vc_request validated = page))
  then Ret (Err (validation "cloudflare_cursor_scope_mismatch"))
  else pbind (all_records zone) (λ records, try? records := records in
    Ret (paginate records_json records page (record_cursor_scope (zr_zone_id zone)) (ca_cursor_keys self)
           (vc_cursor validated) (vc_now validated))).

(** *** [DnsProvider] *)

Definition get_zone (zone : DnsZoneRef) : prog cf_call (DnsProviderResult (option ObservedDnsZone)) :=
  try? _ := validate_zone_ref zone in
  observed <~ GetZone (zr_zone_id zone) ;;
  try? observed := observed in
  match observed with
  | None => Ret (Ok None)
  | Some observed =>
      try? observed := map_zone observed in
      if negb (bool_decide (oz_zone observed = zone))
      then Ret (Err (validation "cloudflare_zone_identity_mismatch")) else Ret (Ok (Some observed))
  end.

Definition list_zones (provider_account_id : string) (page : DnsPageRequest) :
    prog cf_call (DnsProviderResult (DnsPage ObservedDnsZone)) :=
  try? _ := or_invalid "invalid_page" (DnsPageRequest_validate page) in
  if negb (String.eqb provider_account_id (ca_center_account_id self))
  then Ret (Err (validation "cloudflare_account_scope_mismatch"))
  else
    now <~ Now ;;
    try? now := now in
    try? cursor := decode_cursor page (ca_cursor_keys self) now dns_zones_scope in
    pbind all_zones (λ zones, try? zones := zones in
      Ret (paginate zones_json zones page dns_zones_scope (ca_cursor_keys self) cursor now)).

Definition get_record_set (zone : DnsZoneRef) (key : DnsRecordSetKey) :
    prog cf_call (DnsProviderResult (option ObservedDnsRecordSet)) :=
  try? _ := or_invalid "invalid_record_key" (DnsRecordSetKey_validate key) in
  pbind (all_records zone) (λ records, try? records := records in
    Ret (Ok (head (base.filter (λ r, rs_key (ob_record_set r) = key) records)))).

Definition list_record_sets (zone : DnsZoneRef) (page : DnsPageRequest) :
    prog cf_call (DnsProviderResult (DnsPage ObservedDnsRecordSet)) :=
  try? _ := or_invalid "invalid_page" (DnsPageRequest_validate page) in
  try? _ := validate_zone_ref zone in
  pbind (validate_record_inventory_cursor (zr_zone_id zone) page) (λ validated,
    try? validated := validated in list_record_sets_with_validated_cursor zone page validated).

Definition apply_record_changes (zone : DnsZoneRef) (changes : list DnsRecordChange)
    (minimum_guard : DnsGuardStrength) : prog cf_call (DnsProviderResult DnsChangeReceipt) :=
  try? _ := mutation_token_keys self in
  try? _ := validate_zone_ref zone in
  try? _ := or_invalid "invalid_dns_changes" (validate_dns_changes zone changes) in
  if guard_lt BestEffort minimum_guard then Ret (Err (conflict "cloudflare_atomic_guard_unsupported"))
  else
    pbind (all_records zone) (λ current,
      try? current := current in
      try? request := plan_batch changes current in
      try? receipt := build_receipt batch_json self zone request in
      result <~ BatchRecords (zr_zone_id zone) request ;;
      try? result := result in
      try? _ := validate_batch_result zone changes request result in
      Ret (Ok receipt)).

(** It makes no call: a receipt says all there is to observe. *)
Definition observe_change (zone : DnsZoneRef) (change_id : string) : DnsProviderResult DnsChangeReceipt :=
  let? _ := mutation_token_keys self in
  let? _ := validate_zone_ref zone in
  observe_receipt self zone change_id.

(** *** [CloudflareZoneInventory] *)

Definition list_zone_inventory (provider_account_id : string) (page : DnsPageRequest) :
    prog cf_call (DnsProviderResult (DnsPage ObservedCloudflareZone)) :=
  try? _ := or_invalid "invalid_page" (DnsPageRequest_validate page) in
  if negb (String.eqb provider_account_id (ca_center_account_id self))
  then Ret (Err (validation "cloudflare_account_scope_mismatch"))
  else
    now <~ Now ;;
    try? now := now in
    try? cursor := decode_cursor page (ca_cursor_keys self) now cloudflare_zones_scope in
    pbind all_zone_inventory (λ zones, try? zones := zones in
      Ret (paginate inventory_json zones page cloudflare_zones_scope (ca_cursor_keys self) cursor now)).

Definition get_zone_by_id (provider_account_id zone_id : string) :
    prog cf_call (DnsProviderResult (option ObservedCloudflareZone)) :=
  try? _ := or_invalid "invalid_provider_account_id" (CloudResourceId_validate provider_account_id) in
  try? _ := or_invalid "invalid_cloudflare_zone_id" (DnsZoneId_validate zone_id) in
  if negb (String.eqb provider_account_id (ca_center_account_id self))
  then Ret (Err (validation "cloudflare_account_scope_mismatch"))
  else if negb (valid_cloudflare_identifier zone_id)
  then Ret (Err (validation "invalid_cloudflare_zone_id"))
  else
    zone <~ GetZone zone_id ;;
    try? zone := zone in
    match zone with
    | None => Ret (Ok None)
    | Some zone =>
        try? observed := map_zone_inventory zone in
        if negb (String.eqb (zr_zone_id (oc_zone observed)) zone_id)
        then Ret (Err (validation "cloudflare_zone_identity_mismatch")) else Ret (Ok (Some observed))
    end.
End adapter.

(** ** Reading all pages *)

Definition is_read (X : Type) (e : cf_call X) : Prop :=
  match e with
  | CreateZone _ | DeleteZone _ | PatchDnssec _ _ | BatchRecords _ _ => False
  | _ => True
  end.
Abbreviation reads := (Forall (of_kind is_read)).

(** The calls of a listing and their answers. *)
Fixpoint page_calls {T} (list_page : Z → cf_call (DnsProviderResult (CloudflarePage T))) (page : Z)
    (pages : list (CloudflarePage T)) : list cf_event :=
  match pages with
  | [] => []
  | result :: pages => Ev (list_page page) (Ok result) :: page_calls list_page (page + 1) pages
  end.
(** Every page of a listing, in order, under one count of pages. *)
Record complete_listing {T} (per_page : Z) (pages : list (CloudflarePage T)) : Prop := {
  cl_total : ∃ total, Forall (λ p, cp_total_pages p = total) pages ∧ zlen pages = Z.max 1 total;
  cl_order : map cp_page pages = seqZ 1 (zlen pages);
  cl_size : Forall (λ p, zlen (cp_items p) <= per_page)%Z pages;
}.
Definition listed {T} (pages : list (CloudflarePage T)) : list T := concat (map cp_items pages).

Lemma provider_page_facts {T} requested per_page (page : CloudflarePage T) u :
  validate_provider_page requested per_page page = Ok u →
  cp_page page = requested ∧ (zlen (cp_items page) <= per_page)%Z ∧
  (cp_total_pages page = 0 ∧ requested = 1 ∨ requested <= cp_total_pages page)%Z.
Proof.
  unfold validate_provider_page. destruct (_ || _) eqn:E; [done|]. intros _.
  apply orb_false_iff in E as [E Hs%Z.ltb_ge]. apply orb_false_iff in E as [E Ht].
  apply orb_false_iff in E as [Hp%negb_false_iff%Z.eqb_eq H0].
  split_and!; [done|done|]. destruct (Z.eqb_spec (cp_total_pages page) 0) as [Hz|Hz]; cbn in H0, Ht.
  - left. apply orb_false_iff in H0 as [Hr%negb_false_iff%Z.eqb_eq _]. done.
  - right. apply Z.ltb_ge in Ht. lia.
Qed.

Lemma collect_app {A B E} (f : A → result B E) l k bs cs :
  collect f l = Ok bs → collect f k = Ok cs → collect f (l ++ k) = Ok (bs ++ cs).
Proof. rewrite !collect_Ok. apply Forall2_app. Qed.

Section reading.
Context {T U : Type} (list_page : Z → cf_call (DnsProviderResult (CloudflarePage T))).
Context (per_page max_pages max_items : Z) (page_limit item_limit : string).
Context (absorb : T → DnsProviderResult U) (exhausted : list U → DnsProviderResult (list U)).
Abbreviation loop := (pages_loop list_page per_page max_pages max_items page_limit item_limit absorb exhausted).

Lemma pages_loop_reads n page expected items :
  (∀ page, is_read _ (list_page page)) → calls_only is_read (loop n page expected items).
Proof.
  intros Hr. revert page expected items. induction n as [|n IH]; intros page expected items; [done|].
  split; [apply Hr|]. intros [result|]; [|done]. cbn. destruct (validate_provider_page _ _ _); [|done].
  destruct (_ <? _)%Z; [done|]. destruct (validate_stable_total_pages _ _); [|done].
  destruct (collect _ _); [|done]. destruct (_ <? _)%Z; [done|]. destruct (_ <=? _)%Z; [done|]. apply IH.
Qed.

Lemma pages_loop_exec n page expected items t items' t' :
  (∀ l, is_ok (exhausted l) = false) →
  exec traced (loop n page expected items) t (Ok items') t' →
  ∃ total pages absorbed,
    t' = t ++ page_calls list_page page pages ∧ items' = items ++ absorbed ∧
    collect absorb (listed pages) = Ok absorbed ∧ (∀ v, expected = Some v → v = total) ∧
    Forall (λ p, cp_total_pages p = total) pages ∧ (page + zlen pages - 1 = Z.max page total)%Z ∧
    map cp_page pages = seqZ page (zlen pages) ∧ Forall (λ p, zlen (cp_items p) <= per_page)%Z pages.
Proof.
  intros Hex. revert page expected items t. induction n as [|n IH]; intros page expected items t; cbn [pages_loop].
  { intros [Hi _]. specialize (Hex items). by rewrite <- Hi in Hex. }
  intros [result He]%traced_step. destruct result as [result|]; [|by destruct He].
  destruct (validate_provider_page page per_page result) as [[]|] eqn:Ev; [|by destruct He].
  apply provider_page_facts in Ev as (Hp&Hs&_). destruct (_ <? _)%Z; [by destruct He|].
  destruct (validate_stable_total_pages expected _) as [expected'|] eqn:Est; [|by destruct He].
  assert (expected' = Some (cp_total_pages result) ∧ ∀ v, expected = Some v → v = cp_total_pages result) as [-> Hexp].
  { unfold validate_stable_total_pages in Est. destruct expected as [v|]; [|by injection Est as <-].
    destruct (Z.eqb_spec v (cp_total_pages result)) as [->|]; [|done]. injection Est as <-. naive_solver. }
  destruct (collect absorb (cp_items result)) as [absorbed|] eqn:Ea; [|by destruct He].
  destruct (_ <? _)%Z; [by destruct He|].
  destruct (Z.leb_spec (cp_total_pages result) page) as [Hle|Hlt].
  - destruct He as [[= ->] ->]. exists (cp_total_pages result), [result], absorbed. cbn.
    split_and!; [done|done|unfold listed; cbn; by rewrite app_nil_r|done|by constructor|unfold zlen; simpl; lia| |by constructor].
    by rewrite Hp.
  - apply IH in He as (total&pages&rest&->&->&Hc&Hv&Ht&Hn&Ho&Hsz). specialize (Hv _ eq_refl). subst total.
    exists (cp_total_pages result), (result :: pages), (absorbed ++ rest).
    cbn [page_calls listed map concat]. rewrite <- !app_assoc.
    split_and!; [done|done|by apply collect_app|done|by constructor| | |by constructor].
    + unfold zlen in *. cbn [length]. lia.
    + rewrite Hp, Ho. unfold zlen. cbn [length]. rewrite (seqZ_cons page) by lia.
      f_equal. f_equal; lia.
Qed.
End reading.

Lemma all_pages_exec {T U} (list_page : Z → cf_call (DnsProviderResult (CloudflarePage T))) per_page max_pages
    max_items page_limit item_limit (absorb : T → DnsProviderResult U) exhausted t items t' :
  (∀ l, is_ok (exhausted l) = false) →
  exec traced (all_pages list_page per_page max_pages max_items page_limit item_limit absorb exhausted) t
    (Ok items) t' →
  ∃ pages, t' = t ++ page_calls list_page 1 pages ∧ complete_listing per_page pages ∧
    collect absorb (listed pages) = Ok items.
Proof.
  intros Hex (total&pages&absorbed&->&->&Hc&_&Ht&Hn&Ho&Hs)%pages_loop_exec; [|done].
  exists pages. split_and!; [done| |done]. split; [|done|done]. exists total. split; [done|lia].
Qed.

Lemma collect_id {A E} (l bs : list A) : collect (E := E) Ok l = Ok bs → bs = l.
Proof. rewrite collect_Ok. induction 1; by simplify_eq. Qed.
Lemma collect_self {A E} (l : list A) : collect (E := E) Ok l = Ok l.
Proof. apply collect_Ok. induction l; by constructor. Qed.

Lemma exec_reads {A} (p : prog cf_call A) t r t' :
  calls_only is_read p → exec traced p t r t' → ∃ u, t' = t ++ u ∧ reads u.
Proof. apply exec_calls_only. Qed.

(** *** The records of a zone *)

(** The calls by which the records of a zone were read. *)
Definition zone_reads (zone_id : string) (provider_zone : CloudflareZone)
    (pages : list (CloudflarePage CloudflareRecord)) : list cf_event :=
  Ev (GetZone zone_id) (Ok (Some provider_zone)) ::
  page_calls (λ page, ListRecords zone_id page PROVIDER_PAGE_SIZE) 1 pages.

Section runs.
Context `{Idna, RecordsDigest, Crypto, TokenCodec ChangeToken} (batch_json : CloudflareBatchRequest → string).
Context (self : CloudflareDnsAdapter).

Lemma all_cloudflare_records_reads zone : calls_only is_read (all_cloudflare_records self zone).
Proof.
  unfold all_cloudflare_records. destruct (validate_zone_ref self zone); [|done].
  destruct (negb _); [done|]. split; [done|]. intros [[z|]|]; [|done|done]. cbn [ok_or].
  destruct (map_zone self z); [|done]. destruct (negb _); [done|]. by apply pages_loop_reads.
Qed.

Lemma all_records_reads zone : calls_only is_read (all_records self zone).
Proof.
  apply calls_only_bind; [apply all_cloudflare_records_reads|]. by intros [records|].
Qed.

Lemma all_cloudflare_records_exec zone t records t' :
  exec traced (all_cloudflare_records self zone) t (Ok records) t' →
  ∃ provider_zone pages observed,
    t' = t ++ zone_reads (zr_zone_id zone) provider_zone pages ∧
    complete_listing PROVIDER_PAGE_SIZE pages ∧ records = listed pages ∧
    map_zone self provider_zone = Ok observed ∧ oz_zone observed = zone.
Proof.
  unfold all_cloudflare_records. destruct (validate_zone_ref self zone); [|by intros [? _]].
  destruct (negb _); [by intros [? _]|]. intros [pz He]%traced_step.
  destruct pz as [[pz|]|]; cbn [ok_or] in He; [|by destruct He..].
  destruct (map_zone self pz) as [observed|] eqn:Em; [|by destruct He].
  case_bool_decide as Hz; [|by destruct He]. cbn [negb] in He.
  apply all_pages_exec in He as (pages&->&Hc&Hi); [|done]. apply collect_id in Hi.
  exists pz, pages, observed. rewrite <- app_assoc. split_and!; [done|done|done|done|done].
Qed.

Lemma cf_all_records_exec zone t current t' :
  exec traced (all_records self zone) t (Ok current) t' →
  ∃ provider_zone pages observed,
    t' = t ++ zone_reads (zr_zone_id zone) provider_zone pages ∧
    complete_listing PROVIDER_PAGE_SIZE pages ∧ aggregate_records zone (listed pages) = Ok current ∧
    map_zone self provider_zone = Ok observed ∧ oz_zone observed = zone.
Proof.
  unfold all_records. intros (records&s1&Hr&He)%exec_bind. destruct records as [records|]; [|by destruct He].
  apply all_cloudflare_records_exec in Hr as (pz&pages&observed&->&Hc&->&Hm&Hz).
  destruct He as [Ha ->]. exists pz, pages, observed. done.
Qed.

(** ** Submitting changes *)

Definition is_unknown {A} (r : DnsProviderResult A) : Prop := ∃ code, r = Err (unknown_outcome code).

Lemma batch_result_outcome zone changes request result :
  validate_batch_result zone changes request result = Ok tt ∨
  is_unknown (validate_batch_result zone changes request result).
Proof.
  unfold validate_batch_result. destruct (_ || _); [right; by eexists|]. destruct (_ || _); [right; by eexists|].
  destruct (aggregate_records zone (bx_posts result)) as [observed|]; [|right; by eexists]. cbn [map_err mbind].
  destruct (negb _); [right; by eexists|by left].
Qed.

Lemma read_nothing {A} (e : NormalizedProviderError) t r t' :
  exec traced (Ret (E := cf_call) (Err (A := A) e)) t r t' → (∃ u, t' = t ++ u ∧ reads u) ∧ ∃ e, r = Err e.
Proof. intros [-> ->]. split; [exists []; by rewrite app_nil_r|by eexists]. Qed.

Lemma read_stop {A} u (e : NormalizedProviderError) t r t' :
  reads u → exec traced (Ret (E := cf_call) (Err (A := A) e)) (t ++ u) r t' →
  (∃ u, t' = t ++ u ∧ reads u) ∧ ∃ e, r = Err e.
Proof. intros Hu [-> ->]. split; [by exists u|by eexists]. Qed.

Lemma cf_apply_exec zone changes guard t r t' :
  exec traced (apply_record_changes batch_json self zone changes guard) t r t' →
  ((∃ u, t' = t ++ u ∧ reads u) ∧ ∃ e, r = Err e) ∨
  ∃ provider_zone pages observed current request receipt answer,
    t' = t ++ zone_reads (zr_zone_id zone) provider_zone pages ++ [Ev (BatchRecords (zr_zone_id zone) request) answer] ∧
    complete_listing PROVIDER_PAGE_SIZE pages ∧ aggregate_records zone (listed pages) = Ok current ∧
    map_zone self provider_zone = Ok observed ∧ oz_zone observed = zone ∧
    guard = BestEffort ∧ validate_dns_changes zone changes = Ok tt ∧
    plan_batch changes current = Ok request ∧ build_receipt batch_json self zone request = Ok receipt ∧
    match answer with
    | Err e => r = Err e
    | Ok result => validate_batch_result zone changes request result = Ok tt ∧ r = Ok receipt ∨ is_unknown r
    end.
Proof.
  unfold apply_record_changes. destruct (mutation_token_keys self); [|intros ?%read_nothing; by left].
  destruct (validate_zone_ref self zone); [|intros ?%read_nothing; by left].
  destruct (validate_dns_changes zone changes) as [[]|] eqn:Ev; cbn [or_invalid map_err];
    [|intros ?%read_nothing; by left].
  destruct (guard_lt BestEffort guard) eqn:Eg; [intros ?%read_nothing; by left|].
  intros (current&s1&Hc&He)%exec_bind. pose proof (exec_reads _ _ _ _ (all_records_reads zone) Hc) as (u&Hu&Hr).
  destruct current as [current|]; [|left; subst s1; by eapply read_stop].
  destruct (plan_batch changes current) as [request|] eqn:Ep; [|left; subst s1; by eapply read_stop].
  destruct (build_receipt _ _ _ _) as [receipt|] eqn:Er; [|left; subst s1; by eapply read_stop].
  apply cf_all_records_exec in Hc as (pz&pages&observed&->&Hcl&Ha&Hm&Hz). right.
  apply traced_step in He as [answer He]. rewrite <- app_assoc in He.
  exists pz, pages, observed, current, request, receipt, answer.
  assert (guard = BestEffort) as -> by (by destruct guard).
  destruct answer as [result|e]; [|destruct He as [-> ->]; split_and!; done].
  destruct (batch_result_outcome zone changes request result) as [Hv|[code Hv]]; rewrite Hv in He;
    destruct He as [-> ->]; split_and!; try done; [by left|right; by eexists].
Qed.
End runs.

(** Submitting record changes is guarded and honest about its outcome.
    Whatever the API answers, a run sends at most one mutation, a batch of the
    zone's records; when none is sent the result is an error.  A batch is sent
    only for a valid set of changes that asks for no more than best effort, and
    only after the zone and then every page of its records were read in the same
    run, under one page count: it is the plan of the changes against that listing,
    whose observations their guards name, and the receipt was built before.  The
    provider's error is then returned as it is, and once the provider accepted the
    batch the result is the receipt, when its answer is what the changes describe,
    or an unknown outcome, never a definite failure. *)
Theorem cloudflare_apply_guarded `{Idna, RecordsDigest, Crypto, TokenCodec ChangeToken}
    (batch_json : CloudflareBatchRequest → string) (self : CloudflareDnsAdapter) (zone : DnsZoneRef)
    (changes : list DnsRecordChange) (guard : DnsGuardStrength) (r : DnsProviderResult DnsChangeReceipt)
    (trace : list cf_event) :
  exec traced (apply_record_changes batch_json self zone changes guard) [] r trace →
  (reads trace ∧ ∃ e, r = Err e) ∨
  ∃ provider_zone pages observed current request receipt answer,
    trace = zone_reads (zr_zone_id zone) provider_zone pages ++ [Ev (BatchRecords (zr_zone_id zone) request) answer] ∧
    complete_listing PROVIDER_PAGE_SIZE pages ∧ aggregate_records zone (listed pages) = Ok current ∧
    map_zone self provider_zone = Ok observed ∧ oz_zone observed = zone ∧
    guard = BestEffort ∧ validate_dns_changes zone changes = Ok tt ∧
    Forall (guard_holds (index current)) changes ∧ plan_batch changes current = Ok request ∧
    build_receipt batch_json self zone request = Ok receipt ∧
    match answer with
    | Err e => r = Err e
    | Ok result => validate_batch_result zone changes request result = Ok tt ∧ r = Ok receipt ∨ is_unknown r
    end.
Proof.
  intros [[(u&->&Hu) Hr]|(pz&pages&observed&current&request&receipt&answer&->&Hrest)]%cf_apply_exec; [by left|right].
  destruct Hrest as (Hc&Ha&Hm&Hz&Hg&Hv&Hp&Hb&Hans).
  exists pz, pages, observed, current, request, receipt, answer.
  pose proof (plan_batch_Ok _ _ _ Hp) as (Hguards&_). split_and!; done.
Qed.

(** ** Against an honest provider *)

Record cf_provider := mkCfProvider {
  pv_zone : CloudflareZone;
  pv_records : list CloudflareRecord;
}.
Definition total_pages (n per_page : Z) : Z := ((n + per_page - 1) / per_page)%Z.
Definition page_of (records : list CloudflareRecord) (page per_page : Z) : CloudflarePage CloudflareRecord :=
  mkCfPage (slice records ((page - 1) * per_page) (page * per_page)) page (total_pages (zlen records) per_page).

Section honest.
Context `{Idna}.
(** Which records the provider can proxy. *)
Context (eligible : string → string → bool).

(** It answers reads from what it holds; a batch deletes the named objects and
    stores each post under a fresh identifier, keeping what was posted. *)
Definition honest (X : Type) (e : cf_call X) : cf_provider → X → cf_provider → Prop :=
  match e with
  | GetZone zone_id => λ s x s',
      s' = s ∧ x = Ok (if String.eqb zone_id (cz_id (pv_zone s)) then Some (pv_zone s) else None)
  | ListRecords _ page per_page => λ s x s', s' = s ∧ x = Ok (page_of (pv_records s) page per_page)
  | BatchRecords _ request => λ s x s', ∃ raws posted deleted,
      Forall2 (λ p raw, echoes (eligible (br_name p) (br_kind p)) p raw) (bq_posts request) raws ∧
      NoDup (map rr_id raws) ∧ (∀ raw, raw ∈ raws → rr_id raw ∉ map cr_id (pv_records s)) ∧
      collect map_record raws = Ok posted ∧ map cr_id deleted ≡ₚ bq_deletes request ∧
      x = Ok (mkBatchResult deleted posted) ∧
      s' = mkCfProvider (pv_zone s) (provider_apply (pv_records s) request posted)
  | _ => λ _ _ _, True
  end.
End honest.

Lemma total_pages_bounds n per_page :
  (0 <= n)%Z → (0 < per_page)%Z →
  (n <= total_pages n per_page * per_page ∧ (total_pages n per_page - 1) * per_page < n)%Z.
Proof.
  intros Hn Hp. unfold total_pages. pose proof (Z.div_mod (n + per_page - 1) per_page ltac:(lia)) as Hd.
  pose proof (Z.mod_pos_bound (n + per_page - 1) per_page Hp). nia.
Qed.

Lemma slice_take {T} (items : list T) a b :
  (0 <= a <= b)%Z → take (Z.to_nat a) items ++ slice items a b = take (Z.to_nat b) items.
Proof.
  intros Hab. unfold slice. replace (Z.to_nat b) with (Z.to_nat a + Z.to_nat (b - a)) by lia.
  by rewrite take_take_drop.
Qed.
Lemma slice_size {T} (items : list T) a b : (a <= b)%Z → (zlen (slice items a b) <= b - a)%Z.
Proof. intros Hab. unfold zlen, slice. rewrite length_take. lia. Qed.

Section honest_runs.
Context `{IdnaLaws, RecordsDigestLaws, Crypto, TokenCodec ChangeToken}.
Context (batch_json : CloudflareBatchRequest → string) (self : CloudflareDnsAdapter)
  (eligible : string → string → bool).

Lemma honest_pages zone_id n page expected s r s' :
  let total := total_pages (zlen (pv_records s)) PROVIDER_PAGE_SIZE in
  (zlen (pv_records s) <= MAX_INVENTORY_RECORDS)%Z →
  (1 <= page <= Z.max 1 total)%Z → (Z.of_nat n + page = MAX_RECORD_PROVIDER_PAGES + 1)%Z →
  expected = None ∨ expected = Some total →
  exec (honest eligible) (pages_loop (λ page, ListRecords zone_id page PROVIDER_PAGE_SIZE) PROVIDER_PAGE_SIZE
    MAX_RECORD_PROVIDER_PAGES MAX_INVENTORY_RECORDS "cloudflare_record_pagination_limit"
    "cloudflare_record_inventory_limit" Ok record_limit n page expected
    (take (Z.to_nat ((page - 1) * PROVIDER_PAGE_SIZE)) (pv_records s))) s r s' →
  r = Ok (pv_records s) ∧ s' = s.
Proof.
  intros total Hlen. set (records := pv_records s) in *.
  pose proof (total_pages_bounds (zlen records) PROVIDER_PAGE_SIZE ltac:(unfold zlen; lia) ltac:(done)) as Hb.
  fold total in Hb. assert (total <= MAX_RECORD_PROVIDER_PAGES)%Z as Htotal
    by (unfold MAX_RECORD_PROVIDER_PAGES, MAX_INVENTORY_RECORDS, PROVIDER_PAGE_SIZE in *; lia).
  assert (0 <= total)%Z as Hpos by (unfold zlen, PROVIDER_PAGE_SIZE in *; lia).
  revert page expected. induction n as [|n IH]; intros page expected Hpage Hn He.
  { unfold MAX_RECORD_PROVIDER_PAGES in *. lia. }
  cbn [pages_loop exec]. intros (x&s1&[-> ->]&Hx). fold records in Hx.
  assert (validate_provider_page page PROVIDER_PAGE_SIZE (page_of records page PROVIDER_PAGE_SIZE) = Ok tt) as Hv.
  { unfold validate_provider_page, page_of. cbn [cp_items cp_page cp_total_pages]. fold total.
    pose proof (slice_size records ((page - 1) * PROVIDER_PAGE_SIZE) (page * PROVIDER_PAGE_SIZE)
      ltac:(unfold PROVIDER_PAGE_SIZE; lia)) as Hs.
    rewrite Z.eqb_refl, (proj2 (Z.ltb_ge PROVIDER_PAGE_SIZE _)) by (unfold PROVIDER_PAGE_SIZE in *; lia).
    destruct (Z.eqb_spec total 0) as [Htz|Htn]; cbn [negb orb andb].
    - assert (zlen records = 0)%Z as Hz by (unfold zlen in *; lia).
      assert (page = 1)%Z as -> by lia. assert (records = []) as -> by (destruct records; done). done.
    - by rewrite (proj2 (Z.ltb_ge _ _)) by lia. }
  rewrite Hv in Hx. cbn [page_of cp_total_pages cp_items] in Hx. fold total in Hx.
  rewrite (proj2 (Z.ltb_ge MAX_RECORD_PROVIDER_PAGES _)) in Hx by lia.
  assert (validate_stable_total_pages expected total = Ok (Some total)) as Hst.
  { destruct He as [->| ->]; cbn [validate_stable_total_pages]; [done|]. by rewrite Z.eqb_refl. }
  rewrite Hst, collect_self, slice_take in Hx by (unfold PROVIDER_PAGE_SIZE; lia).
  rewrite (proj2 (Z.ltb_ge MAX_INVENTORY_RECORDS _)) in Hx by (unfold zlen in *; rewrite length_take; lia).
  destruct (Z.leb_spec total page) as [Hle|Hlt].
  - destruct Hx as [-> ->]. split; [|done]. f_equal. apply take_ge. unfold zlen, PROVIDER_PAGE_SIZE in *. lia.
  - apply (IH (page + 1)%Z (Some total)); [lia|lia|by right|].
    by replace (page + 1 - 1)%Z with page by lia.
Qed.

Lemma honest_records zone s observed r s' :
  validate_zone_ref self zone = Ok tt → valid_cloudflare_identifier (zr_zone_id zone) = true →
  cz_id (pv_zone s) = zr_zone_id zone → map_zone self (pv_zone s) = Ok observed → oz_zone observed = zone →
  (zlen (pv_records s) <= MAX_INVENTORY_RECORDS)%Z →
  exec (honest eligible) (all_records self zone) s r s' → r = aggregate_records zone (pv_records s) ∧ s' = s.
Proof.
  intros Hv Hi Hid Hm Hz Hlen. unfold all_records, all_cloudflare_records. rewrite exec_bind.
  intros (records&s1&Hr&He). rewrite Hv, Hi in Hr. cbn [negb exec] in Hr.
  destruct Hr as (x&s2&[-> ->]&Hr). rewrite <- Hid, String.eqb_refl in Hr. cbn [ok_or] in Hr. rewrite Hm in Hr.
  rewrite bool_decide_eq_true_2 in Hr by done. cbn [negb] in Hr.
  apply (honest_pages (cz_id (pv_zone s)) _ 1 None) in Hr as [-> ->]; [|done| |done|by left].
  - by destruct He as [-> ->].
  - lia.
Qed.

(** *** The answer, change by change *)

Lemma Forall2_impl_in {A B} (P Q : A → B → Prop) l k :
  Forall2 P l k → (∀ x y, x ∈ l → P x y → Q x y) → Forall2 Q l k.
Proof.
  induction 1 as [|x y l k Hxy Hf IH]; intros Himp; constructor; [apply Himp; [by left|done]|].
  apply IH. intros a b Ha. apply Himp. by right.
Qed.

Lemma render_kind v w a b :
  record_type v = record_type w → render_value v = Ok a → render_value w = Ok b → rv_kind a = rv_kind b.
Proof.
  destruct v, w; try done; intros _; cbn [render_value]; try (by intros [= <-] [= <-]).
  destruct (utf8_valid _); [|done]. destruct (utf8_valid _); [|done]. by intros [= <-] [= <-].
Qed.

(** The posts of a record set agree on name and type, so on eligibility. *)
Lemma posts_uniform r posts p q :
  ordinary r → render_record_set r = Ok posts → p ∈ posts → q ∈ posts →
  br_name p = br_name q ∧ br_kind p = br_kind q.
Proof.
  intros (_&_&Hty) Hr Hp Hq. unfold render_record_set in Hr.
  destruct (render_options _) as [[[[proxied settings] comment] tags]|]; [|done].
  destruct (render_ttl _) as [ttl|]; [|done]. cbn [mbind] in Hr. apply collect_Ok in Hr.
  assert (∀ x, x ∈ posts → br_name x = rs_owner r ∧ ∃ v rendered,
    record_type v = rs_type r ∧ render_value v = Ok rendered ∧ br_kind x = rv_kind rendered) as Hx.
  { intros x [i Hi]%list_elem_of_lookup. destruct (Forall2_lookup_r _ _ _ _ _ Hr Hi) as (v&Hv&Hx).
    destruct (render_value v) as [rendered|] eqn:Er; [|done]. injection Hx as <-. split; [done|].
    exists v, rendered. split_and!; [|done|done]. apply Hty. by apply list_elem_of_lookup_2 in Hv. }
  destruct (Hx p Hp) as (->&v&a&Hv&Ha&->), (Hx q Hq) as (->&w&b&Hw&Hb&->). split; [done|].
  eapply render_kind; [|done|done]. congruence.
Qed.

Lemma echoed_answers zone changes segments raws :
  zr_provider zone = Cloudflare → Forall (λ c, DnsRecordChange_validate c zone = Ok tt) changes →
  NoDup (map change_key changes) → Forall cloudflare_form (desired_sets changes) →
  Forall2 posts_of changes segments →
  Forall2 (λ p raw, echoes (eligible (br_name p) (br_kind p)) p raw) (concat segments) raws →
  ∃ raws', raws = concat raws' ∧ Forall2 answers changes raws'.
Proof.
  intros Hp Hval Hkeys Hforms. revert raws.
  assert (∀ cs, (∀ c, c ∈ cs → c ∈ changes) → ∀ segs raws, Forall2 posts_of cs segs →
    Forall2 (λ p raw, echoes (eligible (br_name p) (br_kind p)) p raw) (concat segs) raws →
    ∃ raws', raws = concat raws' ∧ Forall2 answers cs raws') as Hgen.
  2: { intros raws Hs. apply (Hgen changes); done. }
  intros cs Hsub segs raws Hs. revert raws. induction Hs as [|c seg cs segs Hc Hs IH]; intros raws He.
  { inversion He; subst. by exists []. }
  simpl in He. apply Forall2_app_inv_l in He as (a&b&Ha&Hb&->).
  destruct (IH ltac:(intros c' Hc'; apply Hsub; by right) b Hb) as (raws'&->&Hans).
  exists (a :: raws'). split; [done|]. constructor; [|done]. unfold answers. unfold posts_of in Hc.
  destruct (desired_record_set c) as [r|] eqn:Er; [|subst seg; by inversion Ha].
  exists seg. destruct seg as [|p seg].
  { exists false. inversion Ha; subst. by split; [|constructor]. }
  exists (eligible (br_name p) (br_kind p)). split; [done|]. eapply Forall2_impl_in; [exact Ha|].
  intros q raw Hq Hqr. destruct (desired_valid zone changes Hval Hforms c r) as (Hv&_);
    [apply Hsub; by left|done|].
  destruct (validate_cloudflare_facts zone r Hp Hv) as (Hord&_).
  destruct (posts_uniform r (p :: seg) p q Hord Hc) as [-> ->]; [by left|done|done].
Qed.
End honest_runs.

Lemma zone_ref_provider (self : CloudflareDnsAdapter) zone :
  validate_zone_ref self zone = Ok tt → zr_provider zone = Cloudflare.
Proof.
  unfold validate_zone_ref. destruct (or_invalid _ _); [|done]. simpl.
  destruct (bool_decide (zr_provider zone = Cloudflare)) eqn:Eb; [|done]. by apply bool_decide_eq_true in Eb.
Qed.

Lemma validate_batch_unknown `{Idna, RecordsDigest} {A} zone changes request result e :
  validate_batch_result zone changes request result = Err e → is_unknown (A := A) (Err e).
Proof.
  unfold validate_batch_result.
  destruct (_ || _); [intros [= <-]; by eexists|]. destruct (_ || _); [intros [= <-]; by eexists|].
  destruct (aggregate_records zone (bx_posts result)); cbn [map_err mbind]; [|intros [= <-]; by eexists].
  case_bool_decide; [done|]. intros [= <-]. by eexists.
Qed.

(** C7.  Against a provider that does what it is asked, the changes are applied
    exactly.  The provider answers reads from what it holds and stores each post
    under a fresh identifier.  When the adapter may write to the zone and its
    records can be listed, submitting a valid set of changes (of values with the
    invariants of their types) reads the whole listing; if it cannot be planned
    (a guard does not hold) or no receipt can be issued, that error is returned
    and nothing is written.  Otherwise, when every desired record set is
    canonical, in the form in which an observation reports it, the receipt is
    returned, and the records the provider then holds list as exactly the record
    sets the changes describe; every observation of an identity that is not named
    is unchanged.  When one is not canonical, the outcome is reported as
    unknown. *)
Theorem cloudflare_apply_exact `{IdnaLaws, RecordsDigestLaws, Crypto, TokenCodec ChangeToken}
    (batch_json : CloudflareBatchRequest → string) (self : CloudflareDnsAdapter)
    (eligible : string → string → bool) (zone : DnsZoneRef) (changes : list DnsRecordChange)
    (keys : CloudflareMutationTokenKeyRing) (s s' : cf_provider) (observed : ObservedDnsZone)
    (current : list ObservedDnsRecordSet) (r : DnsProviderResult DnsChangeReceipt) :
  ca_mutation_token_keys self = Some keys → validate_zone_ref self zone = Ok tt →
  valid_cloudflare_identifier (zr_zone_id zone) = true → cz_id (pv_zone s) = zr_zone_id zone →
  map_zone self (pv_zone s) = Ok observed → oz_zone observed = zone →
  (zlen (pv_records s) <= MAX_INVENTORY_RECORDS)%Z → aggregate_records zone (pv_records s) = Ok current →
  validate_dns_changes zone changes = Ok tt → Forall typed_set (desired_sets changes) →
  exec (honest eligible) (apply_record_changes batch_json self zone changes BestEffort) s r s' →
  match plan_batch changes current with
  | Err e => r = Err e ∧ s' = s
  | Ok request =>
      match build_receipt batch_json self zone request with
      | Err e => r = Err e ∧ s' = s
      | Ok receipt =>
          (Forall canonical (desired_sets changes) →
           r = Ok receipt ∧
           ∃ current', aggregate_records zone (pv_records s') = Ok current' ∧
             (∀ k, inventory current' k = apply_changes (inventory current) changes k) ∧
             ∀ k, k ∉ map change_key changes → btm_get k (index current') = btm_get k (index current)) ∧
          (¬ Forall canonical (desired_sets changes) → is_unknown r)
      end
  end.
Proof.
  intros Hk Hv Hi Hid Hm Hz Hlen Ha Hch Htyped. unfold apply_record_changes, mutation_token_keys. rewrite Hk.
  cbn [ok_or]. rewrite Hv, Hch. cbn [or_invalid map_err guard_lt]. rewrite exec_bind. intros (res&s1&Hr&He).
  destruct (honest_records self eligible zone s observed res s1 Hv Hi Hid Hm Hz Hlen Hr) as [-> ->]. rewrite Ha in He.
  destruct (plan_batch changes current) as [request|e] eqn:Ep; [|by destruct He].
  destruct (build_receipt batch_json self zone request) as [receipt|e]; [|by destruct He].
  cbn [exec honest] in He. destruct He as (x&s2&(raws&posted&deleted&Hech&Hn&Hfresh&Hc&Hd&->&->)&He).
  pose proof (zone_ref_provider _ _ Hv) as Hp.
  pose proof (proj1 (validate_dns_changes_iff _ _) Hch) as Hb.
  split; [intros Hcan|intros Hcan].
  - pose proof (plan_batch_Ok _ _ _ Ep) as (_&_&_&_&segments&Hseg&Hposts). rewrite Hposts in Hech.
    pose proof (planned_forms _ _ Hseg Htyped Hcan) as Hforms.
    destruct (echoed_answers eligible zone changes segments raws Hp (bo_changes _ _ Hb) (bo_keys _ _ Hb) Hforms Hseg Hech)
      as (raws'&->&Hans).
    destruct (cf_plan_refines zone changes (pv_records s) current request Hp Hch Hforms Ha Ep) as (_&_&Hthen).
    destruct (Hthen raws' deleted Hans Hn Hfresh Hd) as (posted'&current'&Hc'&Hval&Hafter&Hinv&Hout).
    assert (posted' = posted) as -> by congruence. rewrite Hval in He. destruct He as [-> ->].
    split; [done|]. by exists current'.
  - destruct (validate_batch_result zone changes request (mkBatchResult deleted posted)) as [[]|e] eqn:Hval.
    { destruct Hcan. eapply accepted_canonical; [apply (bo_keys _ _ Hb)|exact Hval]. }
    destruct He as [-> _]. by eapply validate_batch_unknown.
Qed.

(** ** A replacement of a text record set *)

Definition demo_write_adapter : CloudflareDnsAdapter :=
  mkCfAdapter 0 "account-a" "fedcba9876543210fedcba9876543210" (cursor_ring_of_key "cursor")
    (Some (mkMutationRing "old" None)).
Definition demo_provider_zone : CloudflareZone :=
  mkCfZone "0123456789abcdef0123456789abcdef" "fedcba9876543210fedcba9876543210" "example.com" KindFull ZoneActive
    ["ns.example.net"] None.
Definition demo_posted : list CloudflareRecord :=
  match collect (@CloudflareModel.map_record demo_idna) [demo_answer] with Ok l => l | Err _ => [] end.
Definition demo_honest_answer (X : Type) (e : cf_call X) (s : cf_provider) : X * cf_provider :=
  match e in cf_call X return X * cf_provider with
  | Now => (Ok 0%Z, s)
  | CreateZone _ => (Err (validation "unexpected"), s)
  | GetZone zone_id =>
      (Ok (if String.eqb zone_id (cz_id (pv_zone s)) then Some (pv_zone s) else None), s)
  | DeleteZone _ => (Err (validation "unexpected"), s)
  | GetDnssec _ => (Ok None, s)
  | PatchDnssec _ _ => (Err (validation "unexpected"), s)
  | ListZones _ _ _ => (Err (validation "unexpected"), s)
  | ListRecords _ page per_page => (Ok (page_of (pv_records s) page per_page), s)
  | BatchRecords _ request =>
      (Ok (mkBatchResult (rev demo_stored_records) demo_posted),
       mkCfProvider (pv_zone s) (provider_apply (pv_records s) request demo_posted))
  end.
Definition demo_apply := @apply_record_changes demo_idna demo_records_digest demo_keyed_crypto demo_cf_change_codec
  demo_batch_json demo_write_adapter demo_cf_zone demo_cf_changes BestEffort.
Definition demo_state : cf_provider := mkCfProvider demo_provider_zone demo_stored_records.
Definition demo_run := run demo_honest_answer demo_apply demo_state.

Definition demo_trace_answer (X : Type) (e : cf_call X) (t : list cf_event) : X * list cf_event :=
  ((demo_honest_answer X e demo_state).1, t ++ [Ev e (demo_honest_answer X e demo_state).1]).
Lemma demo_trace_traced X (e : cf_call X) t x t' : demo_trace_answer X e t = (x, t') → traced X e t x t'.
Proof. by intros [= <- <-]. Qed.

Lemma cloudflare_apply_guarded_witness :
  ∃ request answer pages provider_zone receipt,
    (run demo_trace_answer demo_apply []).1 = Ok receipt ∧
    (run demo_trace_answer demo_apply []).2 =
      zone_reads (zr_zone_id demo_cf_zone) provider_zone pages ++ [Ev (BatchRecords (zr_zone_id demo_cf_zone) request) answer].
Proof.
  destruct (@cloudflare_apply_guarded demo_idna demo_records_digest demo_keyed_crypto demo_cf_change_codec
    demo_batch_json demo_write_adapter demo_cf_zone demo_cf_changes BestEffort
    (run demo_trace_answer demo_apply []).1 (run demo_trace_answer demo_apply []).2)
    as [[_ [e He]]|(pz&pages&observed&current&request&receipt&answer&Ht&_&_&_&_&_&_&_&_&_&_)].
  - apply (run_exec _ demo_trace_answer); [exact demo_trace_traced|]. apply surjective_pairing.
  - vm_compute in He. discriminate He.
  - exists request, answer, pages, pz. eexists. split; [vm_compute; reflexivity|exact Ht].
Defined.

Definition demo_eligible (name kind : string) : bool := false.
Lemma demo_run_calls :
  run_calls demo_honest_answer demo_apply demo_state =
  [Met (GetZone (zr_zone_id demo_cf_zone)) demo_state;
   Met (ListRecords (zr_zone_id demo_cf_zone) 1 PROVIDER_PAGE_SIZE) demo_state;
   Met (BatchRecords (zr_zone_id demo_cf_zone) demo_cf_request) demo_state].
Proof. vm_compute. reflexivity. Qed.
Lemma demo_run_honest : run_ok (@honest demo_idna demo_eligible) demo_honest_answer demo_apply demo_state.
Proof.
  apply run_ok_calls. rewrite demo_run_calls.
  constructor; [by split|]. constructor; [by split|]. constructor; [|constructor].
  exists [demo_answer], demo_posted, (rev demo_stored_records).
  assert (bq_posts demo_cf_request = [mkBatchRecord "TXT" "_txt.example.com" 300 (Some (render_txt [[99]]%Z))
    None None None None None []]) as -> by (vm_compute; reflexivity).
  split_and!.
  - apply Forall2_cons_2; [|apply Forall2_nil_2].
    split; cbn; try done; try (by right); try (by intros ? [= <-]); [by exists None|split; [constructor|done]].
  - apply NoDup_singleton.
  - intros raw ->%list_elem_of_singleton. vm_compute. intros Hin.
    repeat (apply elem_of_cons in Hin as [Hin|Hin]; [done|]). by apply not_elem_of_nil in Hin.
  - vm_compute. reflexivity.
  - vm_compute. reflexivity.
  - reflexivity.
  - reflexivity.
Qed.

Lemma cloudflare_apply_exact_witness :
  ∃ current', @aggregate_records demo_idna demo_records_digest demo_cf_zone (pv_records demo_run.2) = Ok current' ∧
    inventory current' (rs_key demo_cf_txt) = Some demo_cf_desired.
Proof.
  assert (match @plan_batch demo_cf_changes demo_current with
    | Err e => demo_run.1 = Err e ∧ demo_run.2 = demo_state
    | Ok request =>
        match @build_receipt demo_keyed_crypto demo_cf_change_codec demo_batch_json demo_write_adapter
                demo_cf_zone request with
        | Err e => demo_run.1 = Err e ∧ demo_run.2 = demo_state
        | Ok receipt =>
            (Forall canonical (desired_sets demo_cf_changes) → demo_run.1 = Ok receipt ∧ ∃ current',
             @aggregate_records demo_idna demo_records_digest demo_cf_zone (pv_records demo_run.2) = Ok current' ∧
             (∀ k, inventory current' k = apply_changes (inventory demo_current) demo_cf_changes k) ∧
             ∀ k, k ∉ map change_key demo_cf_changes → btm_get k (index current') = btm_get k (index demo_current)) ∧
            (¬ Forall canonical (desired_sets demo_cf_changes) → is_unknown demo_run.1)
        end
    end) as Hmain.
  { apply (@cloudflare_apply_exact demo_idna demo_idna_laws demo_records_digest demo_records_digest_laws
      demo_keyed_crypto demo_cf_change_codec demo_batch_json demo_write_adapter demo_eligible demo_cf_zone
      demo_cf_changes (mkMutationRing "old" None) demo_state demo_run.2
      {| oz_zone := demo_cf_zone; oz_revision := None |} demo_current demo_run.1).
    1-9: vm_compute; (reflexivity || discriminate).
    - change (Forall (@typed_set demo_idna) [demo_cf_desired]). apply Forall_singleton.
      exact demo_cf_desired_typed.
    - apply (run_ok_exec _ demo_honest_answer); [exact demo_run_honest|]. apply surjective_pairing. }
  assert (is_ok (plan_batch demo_cf_changes demo_current) = true) as Hp by (vm_compute; reflexivity).
  destruct (plan_batch demo_cf_changes demo_current) as [request|] eqn:Ep; [|discriminate Hp].
  assert (is_ok (let? request := plan_batch demo_cf_changes demo_current in
    @build_receipt demo_keyed_crypto demo_cf_change_codec demo_batch_json demo_write_adapter demo_cf_zone request) = true)
    as Hb by (vm_compute; reflexivity).
  rewrite Ep in Hb. cbn [mbind] in Hb. destruct (build_receipt _ _ _ request) as [receipt|]; [|discriminate Hb].
  destruct (proj1 Hmain (proj2 (Forall_singleton canonical demo_cf_desired) demo_cf_desired_canonical))
    as (_&current'&Ha&Hi&_). exists current'. split; [exact Ha|]. rewrite Hi. vm_compute. reflexivity.
Defined.
