(* ===== verification/CloudflareHttp.v ===== *)
(** * CloudflareHttp: the Cloudflare API over HTTP

    [crates/center-adapter-cloudflare/src/http.rs]: the token, the requests of the
    client, the decoding of its responses and the classification of its failures,
    and the operations of [CloudflareApi] on them.  The mapping of records is in
    [CloudflareModel].  URLs, header values and the JSON codecs are parameters.
    The theorems show that every error the client constructs is valid and does not
    show the token, that a write is sent at most once and fails definitely only if
    the API turned it down, and what that gives the adapter on top. *)

From Stdlib Require Import ZArith Ascii String Lia.
From S2P Require Import Prelude Text Codec Core Json Effects BTree NetAddr Dns DnsChange ZoneLifecycle ProviderErrors RecordValues Tokens CloudAccounts CloudflareModel CloudflareInventory CloudflarePlan CloudflareTokens CloudflareAdapter.

Definition MAX_RESPONSE_BYTES : Z := 16 * 1024 * 1024.
Definition MAX_MUTATION_REQUEST_BYTES : Z := 8 * 1024 * 1024.
Definition DEFAULT_THROTTLE_DELAY_MS : Z := 1000.
Definition MAX_RETRY_DELAY_MS : Z := 60 * 60 * 1000.

(** ** Errors *)

(** Its [expect] does not fail ([cloudflare_http_errors_valid]). *)
Definition error (category : ProviderErrorCategory) (code : string) (retry_after_ms : option Z)
    (request_id : option string) : NormalizedProviderError :=
  mkProviderError category code "Cloudflare API request failed" retry_after_ms request_id.
Definition transient (code : string) (request_id : option string) : NormalizedProviderError :=
  error CatTransient code None request_id.
Definition unknown (code : string) (request_id : option string) : NormalizedProviderError :=
  error CatUnknownOutcome code None request_id.
Definition invalid (code : string) : NormalizedProviderError := error CatValidation code None None.

(** ** The token and the endpoint *)

Definition CloudflareApiToken_new (value : string) : DnsProviderResult string :=
  if is_empty value || (4096 <? str_len value)%Z || negb (String.eqb (str_trim value) value) || has_control value
  then Err (invalid "invalid_cloudflare_api_token") else Ok value.

Record Url := mkUrl {
  url_path : string;
  url_cannot_be_a_base : bool;
  url_query : option string;
  url_fragment : option string;
  url_username : string;
  url_password : option string;
  url_scheme : string;
  url_host_str : option string;
}.
Definition is_loopback (url : Url) : bool :=
  is_some_and (λ host, bool_decide (host ∈ ["localhost"; "127.0.0.1"; "::1"])) (url_host_str url).

Section endpoint.
(** [Url::parse], [Url::set_path] and whether the client can be built. *)
Context (url_parse : string → option Url) (set_path : string → Url → Url) (client_builds : bool).

Definition with_base_url (base_url : string) : DnsProviderResult Url :=
  let refused := invalid "invalid_cloudflare_api_base_url" in
  let? url := ok_or refused (url_parse base_url) in
  let url := if ends_with "/" (url_path url) then url else set_path (url_path url +:+ "/") url in
  if url_cannot_be_a_base url || bool_decide (is_Some (url_query url)) || bool_decide (is_Some (url_fragment url))
     || negb (is_empty (url_username url)) || bool_decide (is_Some (url_password url))
     || negb (bool_decide (url_scheme url ∈ ["https"; "http"]))
     || String.eqb (url_scheme url) "http" && negb (is_loopback url)
  then Err refused
  else if client_builds then Ok url else Err (invalid "cloudflare_http_client_build_failed").
End endpoint.

(** ** Exchanges *)

Inductive Method := GET | POST | PATCH | DELETE.
#[export] Instance Method_eq_dec : EqDecision Method.
Proof. solve_decision. Defined.
Record HttpRequest := mkRequest {
  hq_method : Method;
  hq_path : string;                          (* joined to the base URL *)
  hq_query : list (string * string);
  hq_body : option string;
}.
Record TransportError := mkTransportError {
  te_is_timeout : bool;
  te_is_connect : bool;
  te_is_builder : bool;
}.
(** A response; a header is given as its text, if it has any. *)
Record HttpResponse := mkResponse {
  hs_status : Z;                             (* u16 *)
  hs_header : string → option string;
  hs_content_length : option Z;              (* u64 *)
  hs_chunks : list (result string TransportError);
}.
Inductive http_call : Type → Type :=
| Send (request : HttpRequest) : http_call (result HttpResponse TransportError)
| Clock : http_call (DnsProviderResult Z).
Abbreviation http_event := (event http_call).

Record ResultInfo := mkResultInfo {
  ri_page : Z;                               (* u32 *)
  ri_per_page : Z;                           (* u32 *)
  ri_count : Z;                              (* usize *)
  ri_total_pages : Z;                        (* u32 *)
}.
Record Envelope (T : Type) := mkEnvelope {
  en_success : bool;
  en_result : option T;
  en_errors : list Z;                        (* their codes, u64 *)
  en_result_info : option ResultInfo;
  en_request_id : option string;
}.
Arguments mkEnvelope {T}.
Arguments en_success {T}.
Arguments en_result {T}.
Arguments en_errors {T}.
Arguments en_result_info {T}.
Arguments en_request_id {T}.

(** What the API answers with. *)
Record TokenVerification := mkTokenVerification { tv_id : string; tv_status : string }.
Inductive CloudflareTokenStatus := TokenActive | TokenDisabled | TokenExpired | TokenUnknown.
Record CloudflareTokenVerification := mkVerification { vt_token_id : string; vt_status : CloudflareTokenStatus }.
Record RawZone := mkRawZone {
  rz_id : string;
  rz_account : string;
  rz_name : string;
  rz_kind : string;
  rz_status : string;
  rz_name_servers : list string;
  rz_modified_on : option string;
}.
Record RawDnssec := mkRawDnssec {
  rd_status : string;
  rd_key_tag : option Z;                     (* u16 *)
  rd_algorithm : option Z;                   (* u8 *)
  rd_digest_type : option Z;                 (* u8 *)
  rd_digest : option string;
  rd_modified_on : option string;
}.
Record RawBatchResult := mkRawBatch {
  rb_deletes : list RawRecord;
  rb_patches : list RawRecord;
  rb_puts : list RawRecord;
  rb_posts : list RawRecord;
}.

(** The JSON codec: reading an envelope of each kind of result from a body, from a
    value, and the first reading of a body, which gives a value. *)
Class JsonCodec := {
  from_slice : string → option Value;
  from_slice_envelope : string → option (Envelope Value);
  to_vec : Value → string;
  batch_to_vec : CloudflareBatchRequest → string;
}.
Class FromValue (T : Type) := from_value : Value → option (Envelope T).

Inductive RequestKind := Read | Mutation.
#[export] Instance RequestKind_eq_dec : EqDecision RequestKind.
Proof. solve_decision. Defined.

(** ** Classification of failures *)

Definition is_success (status : Z) : bool := (200 <=? status)%Z && (status <=? 299)%Z.
Definition is_server_error (status : Z) : bool := (500 <=? status)%Z && (status <=? 599)%Z.

Definition status_category (status : Z) : ProviderErrorCategory :=
  if (status =? 401)%Z then CatAuthentication
  else if (status =? 403)%Z then CatAuthorization
  else if (status =? 404)%Z then CatNotFound
  else if (status =? 408)%Z then CatTransient
  else if (status =? 409)%Z then CatConflict
  else if (status =? 429)%Z then CatThrottled
  else if is_server_error status then CatTransient
  else CatValidation.

Definition http_status_error (status : Z) (retry_after_ms : option Z) (request_id : option string)
    (provider_code : option Z) (request_kind : RequestKind) : NormalizedProviderError :=
  let code := match provider_code with
              | Some value => "cloudflare_api_" +:+ u64_to_string value
              | None => "cloudflare_http_" +:+ u64_to_string status
              end in
  let category := if bool_decide (request_kind = Mutation) && ((status =? 408)%Z || is_server_error status)
                  then CatUnknownOutcome else status_category status in
  let retry := match category with
               | CatThrottled => Some (default DEFAULT_THROTTLE_DELAY_MS retry_after_ms)
               | CatTransient | CatQuota => retry_after_ms
               | _ => None
               end in
  error category code retry request_id.

Definition u64_checked_mul (a b : Z) : option Z := if (a * b <=? U64_MAX)%Z then Some (a * b)%Z else None.
Definition retry_after_ms (headers : string → option string) : option Z :=
  value ← headers "retry-after"; seconds ← parse_u64 value; delay ← u64_checked_mul seconds 1000;
  Some (Z.min delay MAX_RETRY_DELAY_MS).

(** [str::contains]. *)
Fixpoint str_contains (needle s : string) : bool :=
  starts_with needle s || match s with EmptyString => false | String _ s => str_contains needle s end.

Definition sanitized_header (headers : string → option string) (name credential : string) : option string :=
  value ← headers name;
  if negb (is_empty value) && (str_len value <=? 512)%Z && String.eqb (str_trim value) value
     && negb (has_control value) && negb (str_contains credential value)
  then Some value else None.

Definition envelope_error (errors : list Z) (request_id : option string) : NormalizedProviderError :=
  let provider_code := head errors in
  let code := match provider_code with
              | Some value => "cloudflare_api_" +:+ u64_to_string value
              | None => "cloudflare_api_failure"
              end in
  let category := match provider_code with
                  | Some value =>
                      if bool_decide (value ∈ [9103; 9109; 10000]%Z) then CatAuthentication else CatValidation
                  | None => CatValidation
                  end in
  error category code None request_id.

Definition map_transport_error (e : TransportError) : NormalizedProviderError :=
  let code := if te_is_timeout e then "cloudflare_http_timeout"
              else if te_is_connect e then "cloudflare_http_connect_failed"
              else if te_is_builder e then "cloudflare_http_request_invalid"
              else "cloudflare_http_transport_failed" in
  error (if te_is_builder e then CatValidation else CatTransient) code None None.
Definition map_write_transport_error (e : TransportError) : NormalizedProviderError :=
  if te_is_builder e then invalid "cloudflare_http_request_invalid"
  else unknown "cloudflare_batch_transport_unknown" None.
Definition map_response_transport_error (e : TransportError) (request_kind : RequestKind) : NormalizedProviderError :=
  match request_kind with
  | Read => map_transport_error e
  | Mutation => unknown "cloudflare_batch_response_unknown" None
  end.
Definition response_decode_error (request_kind : RequestKind) (code : string) (request_id : option string) :
    NormalizedProviderError :=
  match request_kind with Read => transient code request_id | Mutation => unknown code request_id end.

(** ** Decoding *)

(** The loop over the chunks of the body. *)
Inductive body_read := BodyRead (bytes : string) | BodyTooLarge | BodyBroken (e : TransportError).
Fixpoint read_body (chunks : list (result string TransportError)) (bytes : string) : body_read :=
  match chunks with
  | [] => BodyRead bytes
  | Err e :: _ => BodyBroken e
  | Ok chunk :: chunks =>
      if (MAX_RESPONSE_BYTES <? str_len bytes + str_len chunk)%Z then BodyTooLarge
      else read_body chunks (bytes +:+ chunk)
  end.

Section decoding.
Context `{JsonCodec} {T : Type} `{FromValue T}.

Definition decode_response (response : HttpResponse) (credential : string) (request_kind : RequestKind) :
    DnsProviderResult (Envelope T) :=
  let status := hs_status response in
  let request_id := sanitized_header (hs_header response) "cf-ray" credential in
  let retry := retry_after_ms (hs_header response) in
  let too_large : DnsProviderResult (Envelope T) :=
    if is_success status
    then Err (response_decode_error request_kind "cloudflare_response_too_large" request_id)
    else Err (http_status_error status retry request_id None request_kind) in
  if is_some_and (λ length, MAX_RESPONSE_BYTES <? length)%Z (hs_content_length response) then too_large
  else match read_body (hs_chunks response) EmptyString with
  | BodyTooLarge => too_large
  | BodyBroken e => Err (map_response_transport_error e request_kind)
  | BodyRead bytes =>
      if negb (is_success status) then
        let provider_code := body ← from_slice_envelope bytes; head (en_errors body) in
        Err (http_status_error status retry request_id provider_code request_kind)
      else
        let? value := ok_or (response_decode_error request_kind "invalid_cloudflare_json" request_id)
                        (from_slice bytes) in
        let? envelope := ok_or (response_decode_error request_kind "invalid_cloudflare_response" request_id)
                           (from_value value) in
        Ok (mkEnvelope (en_success envelope) (en_result envelope) (en_errors envelope)
              (en_result_info envelope) request_id)
  end.
End decoding.

Section results.
Context {T : Type}.
Definition require (missing : NormalizedProviderError) (envelope : Envelope T) : DnsProviderResult T :=
  if negb (en_success envelope) then Err (envelope_error (en_errors envelope) (en_request_id envelope))
  else ok_or missing (en_result envelope).
Definition require_result (envelope : Envelope T) : DnsProviderResult T :=
  require (malformed "missing_cloudflare_result") envelope.
Definition require_mutation_result (envelope : Envelope T) : DnsProviderResult T :=
  require (unknown "missing_cloudflare_batch_result" (en_request_id envelope)) envelope.
Definition require_lifecycle_mutation_result (envelope : Envelope T) : DnsProviderResult T :=
  require (unknown "missing_cloudflare_lifecycle_result" (en_request_id envelope)) envelope.
Definition validate_result_info (envelope : Envelope (list T)) (requested_page requested_per_page : Z) :
    DnsProviderResult ResultInfo :=
  let? info := ok_or (malformed "missing_cloudflare_result_info") (en_result_info envelope) in
  if negb (ri_page info =? requested_page)%Z || negb (ri_per_page info =? requested_per_page)%Z
     || negb (bool_decide (zlen <$> en_result envelope = Some (ri_count info)))
  then Err (malformed "invalid_cloudflare_result_info") else Ok info.
End results.

Definition validate_identifier (value code : string) : DnsProviderResult () :=
  if valid_cloudflare_identifier value then Ok tt else Err (invalid code).
Definition validate_safe_principal (value : string) : DnsProviderResult () :=
  if is_empty value || (256 <? str_len value)%Z || negb (String.eqb (str_trim value) value) || has_control value
  then Err (malformed "invalid_cloudflare_token_id") else Ok tt.
Definition validate_page (page per_page maximum : Z) : DnsProviderResult () :=
  if (page =? 0)%Z || (per_page =? 0)%Z || (maximum <? per_page)%Z
  then Err (invalid "invalid_cloudflare_page_request") else Ok tt.

Definition zone_kind_name (kind : CloudflareZoneKind) : string :=
  match kind with
  | KindFull => "full" | KindPartial => "partial" | KindSecondary => "secondary" | KindInternal => "internal"
  end.

Definition map_zone `{Idna} (zone : RawZone) : DnsProviderResult CloudflareZone :=
  let? kind :=
    (if String.eqb (rz_kind zone) "full" then Ok KindFull
     else if String.eqb (rz_kind zone) "partial" then Ok KindPartial
     else if String.eqb (rz_kind zone) "secondary" then Ok KindSecondary
     else if String.eqb (rz_kind zone) "internal" then Ok KindInternal
     else Err (malformed "unsupported_cloudflare_zone_type")) in
  let? status :=
    (if String.eqb (rz_status zone) "initializing" then Ok ZoneInitializing
     else if String.eqb (rz_status zone) "pending" then Ok ZonePending
     else if String.eqb (rz_status zone) "active" then Ok ZoneActive
     else if String.eqb (rz_status zone) "moved" then Ok ZoneMoved
     else Err (malformed "unsupported_cloudflare_zone_status")) in
  let? name_servers := collect (λ value, absolute_name value "invalid_cloudflare_zone_nameserver")
                         (rz_name_servers zone) in
  Ok (mkCfZone (rz_id zone) (rz_account zone) (rz_name zone) kind status (bts_of_list name_servers)
        (rz_modified_on zone)).

Definition map_dnssec (value : RawDnssec) : DnsProviderResult CloudflareDnssec :=
  let? status :=
    (if String.eqb (rd_status value) "active" then Ok StatusActive
     else if String.eqb (rd_status value) "pending" then Ok StatusPending
     else if String.eqb (rd_status value) "disabled" then Ok StatusDisabled
     else if String.eqb (rd_status value) "pending-disabled" then Ok StatusPendingDisabled
     else if String.eqb (rd_status value) "error" then Ok StatusError
     else Err (malformed "unsupported_cloudflare_dnssec_status")) in
  let? ds :=
    match rd_key_tag value, rd_algorithm value, rd_digest_type value, rd_digest value with
    | Some key_tag, Some algorithm, Some digest_type, Some digest =>
        Ok (Some (mkCfDs key_tag algorithm digest_type digest))
    | None, None, None, None => Ok None
    | _, _, _, _ => Err (malformed "incomplete_cloudflare_dnssec_ds")
    end in
  Ok (mkCfDnssec status ds (rd_modified_on value)).

(** ** The client *)

Section client.
Context `{Idna, JsonCodec, FromValue RawZone, FromValue (list RawZone), FromValue (list RawRecord),
  FromValue RawDnssec, FromValue RawBatchResult, FromValue string, FromValue TokenVerification}.
(** [Url::join] of the base, [HeaderValue::from_bytes], and the token. *)
Context (join_ok header_ok : string → bool) (token : string).

Definition authorization_header : DnsProviderResult () :=
  if header_ok ("Bearer " +:+ token) then Ok tt else Err (invalid "invalid_cloudflare_authorization_header").

Definition get {T} `{FromValue T} (path : string) (query : list (string * string)) :
    prog http_call (DnsProviderResult (Envelope T)) :=
  if negb (join_ok path) then Ret (Err (invalid "invalid_cloudflare_request_path"))
  else
    try? _ := authorization_header in
    response <~ Send (mkRequest GET path query None) ;;
    try? response := map_err map_transport_error response in
    Ret (decode_response response token Read).

Definition post_batch {T} `{FromValue T} (path : string) (body : CloudflareBatchRequest) :
    prog http_call (DnsProviderResult (Envelope T)) :=
  let encoded := batch_to_vec body in
  if (MAX_MUTATION_REQUEST_BYTES <? str_len encoded)%Z
  then Ret (Err (invalid "cloudflare_batch_request_too_large"))
  else if negb (join_ok path) then Ret (Err (invalid "invalid_cloudflare_request_path"))
  else
    try? _ := authorization_header in
    response <~ Send (mkRequest POST path [] (Some encoded)) ;;
    try? response := map_err map_write_transport_error response in
    Ret (decode_response response token Mutation).

Definition mutate {T} `{FromValue T} (method : Method) (path : string) (body : option Value) :
    prog http_call (DnsProviderResult (Envelope T)) :=
  let encoded := to_vec <$> body in
  if is_some_and (λ value, MAX_MUTATION_REQUEST_BYTES <? str_len value)%Z encoded
  then Ret (Err (malformed "cloudflare_mutation_request_too_large"))
  else if negb (join_ok path) then Ret (Err (malformed "invalid_cloudflare_request_path"))
  else
    try? _ := authorization_header in
    response <~ Send (mkRequest method path [] encoded) ;;
    try? response := map_err map_write_transport_error response in
    Ret (decode_response response token Mutation).

(** *** [CloudflareApi] *)

Definition unknown_result {A} (code : string) (r : DnsProviderResult A) : DnsProviderResult A :=
  map_err (λ _, unknown code None) r.

Definition create_zone (request : CloudflareCreateZoneRequest) : prog http_call (DnsProviderResult CloudflareZone) :=
  try? _ := validate_identifier (cc_account_id request) "invalid_cloudflare_account_id" in
  try? _ := map_err (λ _, malformed "invalid_cloudflare_zone_name") (AbsoluteDnsName_new (cc_name request)) in
  let body := Object [("account", Object [("id", Str (cc_account_id request))]); ("name", Str (cc_name request));
                      ("type", Str (zone_kind_name (cc_kind request)))] in
  pbind (mutate (T := RawZone) POST "zones" (Some body)) (λ envelope,
    try? envelope := envelope in
    try? zone := require_lifecycle_mutation_result envelope in
    Ret (unknown_result "cloudflare_create_zone_result_invalid" (map_zone zone))).

(** A read of one resource: an error of category [NotFound] says that it is not there. *)
Definition get_optional {T A} `{FromValue T} (path : string) (map : T → DnsProviderResult A) :
    prog http_call (DnsProviderResult (option A)) :=
  pbind (get (T := T) path []) (λ envelope,
    match envelope with
    | Ok envelope =>
        try? raw := require_result envelope in
        try? value := map raw in
        Ret (Ok (Some value))
    | Err e => if bool_decide (pe_category e = CatNotFound) then Ret (Ok None) else Ret (Err e)
    end).

Definition get_zone (zone_id : string) : prog http_call (DnsProviderResult (option CloudflareZone)) :=
  try? _ := validate_identifier zone_id "invalid_cloudflare_zone_id" in
  get_optional ("zones/" +:+ zone_id) map_zone.

Definition delete_zone (zone_id : string) : prog http_call (DnsProviderResult string) :=
  try? _ := validate_identifier zone_id "invalid_cloudflare_zone_id" in
  pbind (mutate (T := string) DELETE ("zones/" +:+ zone_id) None) (λ envelope,
    try? envelope := envelope in
    try? id := require_lifecycle_mutation_result envelope in
    Ret (if is_empty id then Err (unknown "cloudflare_delete_zone_result_invalid" None) else Ok id)).

Definition get_dnssec (zone_id : string) : prog http_call (DnsProviderResult (option CloudflareDnssec)) :=
  try? _ := validate_identifier zone_id "invalid_cloudflare_zone_id" in
  get_optional ("zones/" +:+ zone_id +:+ "/dnssec") map_dnssec.

Definition patch_dnssec (zone_id : string) (desired : DnssecDesiredState) :
    prog http_call (DnsProviderResult CloudflareDnssec) :=
  try? _ := validate_identifier zone_id "invalid_cloudflare_zone_id" in
  let status := match desired with DesiredEnabled => "active" | DesiredDisabled => "disabled" end in
  pbind (mutate (T := RawDnssec) PATCH ("zones/" +:+ zone_id +:+ "/dnssec") (Some (Object [("status", Str status)])))
    (λ envelope,
      try? envelope := envelope in
      try? raw := require_lifecycle_mutation_result envelope in
      Ret (unknown_result "cloudflare_dnssec_patch_result_invalid" (map_dnssec raw))).

(** A page of a listing. *)
Definition get_page {T A} `{FromValue (list T)} (path : string) (query : list (string * string))
    (page per_page : Z) (map : T → DnsProviderResult A) : prog http_call (DnsProviderResult (CloudflarePage A)) :=
  pbind (get (T := list T) path query) (λ envelope,
    try? envelope := envelope in
    try? info := validate_result_info envelope page per_page in
    try? raws := require_result envelope in
    try? items := collect map raws in
    Ret (Ok (mkCfPage items (ri_page info) (ri_total_pages info)))).

Definition list_zones (account_id : string) (page per_page : Z) :
    prog http_call (DnsProviderResult (CloudflarePage CloudflareZone)) :=
  try? _ := validate_identifier account_id "invalid_cloudflare_account_id" in
  try? _ := validate_page page per_page 50 in
  get_page "zones" [("account.id", account_id); ("type", "full,partial,secondary,internal");
                    ("page", u64_to_string page); ("per_page", u64_to_string per_page)] page per_page map_zone.

Definition list_records (zone_id : string) (page per_page : Z) :
    prog http_call (DnsProviderResult (CloudflarePage CloudflareRecord)) :=
  try? _ := validate_identifier zone_id "invalid_cloudflare_zone_id" in
  try? _ := validate_page page per_page 5000000 in
  get_page ("zones/" +:+ zone_id +:+ "/dns_records") [("page", u64_to_string page); ("per_page", u64_to_string per_page)]
    page per_page map_record.

(** What [batch_records] makes of the result. *)
Definition accept_batch (result : RawBatchResult) : DnsProviderResult CloudflareBatchResult :=
  if negb (zlen (rb_patches result) =? 0)%Z || negb (zlen (rb_puts result) =? 0)%Z
  then Err (unknown "cloudflare_batch_unexpected_result_section" None)
  else
    let? deletes := unknown_result "cloudflare_batch_delete_result_invalid" (collect map_record (rb_deletes result)) in
    let? posts := unknown_result "cloudflare_batch_post_result_invalid" (collect map_record (rb_posts result)) in
    Ok (mkBatchResult deletes posts).

Definition batch_records (zone_id : string) (request : CloudflareBatchRequest) :
    prog http_call (DnsProviderResult CloudflareBatchResult) :=
  try? _ := validate_identifier zone_id "invalid_cloudflare_zone_id" in
  pbind (post_batch (T := RawBatchResult) ("zones/" +:+ zone_id +:+ "/dns_records/batch") request) (λ envelope,
    try? envelope := envelope in
    try? result := require_mutation_result envelope in
    Ret (accept_batch result)).

(** *** Credential inspection *)

Definition verify_user_token : prog http_call (DnsProviderResult CloudflareTokenVerification) :=
  pbind (get (T := TokenVerification) "user/tokens/verify" []) (λ envelope,
    try? envelope := envelope in
    try? result := require_result envelope in
    try? _ := validate_safe_principal (tv_id result) in
    let status := if String.eqb (tv_status result) "active" then TokenActive
                  else if String.eqb (tv_status result) "disabled" then TokenDisabled
                  else if String.eqb (tv_status result) "expired" then TokenExpired
                  else TokenUnknown in
    Ret (Ok (mkVerification (tv_id result) status))).

Definition probe_account_zone_scope (account_id : string) : prog http_call (DnsProviderResult bool) :=
  pbind (list_zones account_id 1 1) (λ page,
    try? page := page in
    if existsb (λ zone, negb (String.eqb (cz_account_id zone) account_id)) (cp_items page)
    then Ret (Err (malformed "cloudflare_zone_account_scope_mismatch"))
    else Ret (Ok (negb (zlen (cp_items page) =? 0)%Z))).

(** The calls of the adapter as the client carries them out. *)
Definition via_http (X : Type) (e : cf_call X) : prog http_call X :=
  match e in cf_call X return prog http_call X with
  | Now => Vis Clock Ret
  | CreateZone request => create_zone request
  | GetZone zone_id => get_zone zone_id
  | DeleteZone zone_id => delete_zone zone_id
  | GetDnssec zone_id => get_dnssec zone_id
  | PatchDnssec zone_id desired => patch_dnssec zone_id desired
  | ListZones account_id page per_page => list_zones account_id page per_page
  | ListRecords zone_id page per_page => list_records zone_id page per_page
  | BatchRecords zone_id request => batch_records zone_id request
  end.
End client.

(** ** Writes *)

Definition is_get (X : Type) (e : http_call X) : Prop :=
  match e with Send request => hq_method request = GET | Clock => True end.
Abbreviation only_gets := (Forall (of_kind is_get)).

(** The error a call of the adapter failed with. *)
Definition err_of {A} (r : DnsProviderResult A) : option NormalizedProviderError :=
  match r with Ok _ => None | Err e => Some e end.
Definition failure {X} (e : cf_call X) : X → option NormalizedProviderError :=
  match e in cf_call X return X → option NormalizedProviderError with
  | Now => err_of | CreateZone _ => err_of | GetZone _ => err_of | DeleteZone _ => err_of
  | GetDnssec _ => err_of | PatchDnssec _ _ => err_of | ListZones _ _ _ => err_of
  | ListRecords _ _ _ => err_of | BatchRecords _ _ => err_of
  end.

(** The API turned a request down: the request could not be built, its status is
    neither a success nor one that leaves the outcome open, or its body says so. *)
Definition rejected_status (answer : result HttpResponse TransportError) : Prop :=
  match answer with
  | Err e => te_is_builder e = true
  | Ok response => is_success (hs_status response) = false ∧ hs_status response ≠ 408%Z ∧
      is_server_error (hs_status response) = false
  end.
Definition decoded `{JsonCodec} {T} `{FromValue T} (answer : result HttpResponse TransportError)
    (envelope : Envelope T) : Prop :=
  ∃ response body value, answer = Ok response ∧ is_success (hs_status response) = true ∧
    read_body (hs_chunks response) "" = BodyRead body ∧ from_slice body = Some value ∧
    from_value value = Some envelope.
Definition declined `{JsonCodec} T `{FromValue T} (answer : result HttpResponse TransportError) : Prop :=
  ∃ envelope : Envelope T, decoded answer envelope ∧ en_success envelope = false.

Section writes.
Context `{Idna, JsonCodec} {T : Type} `{FromValue T} (header_ok : string → bool) (token : string).

Lemma decode_write_facts response r :
  decode_response (T := T) response token Mutation = r →
  match r with
  | Ok envelope => ∃ read, decoded (Ok response) read ∧ en_success envelope = en_success read
  | Err e => pe_category e ≠ CatUnknownOutcome → rejected_status (Ok response)
  end.
Proof.
  intros <-. unfold decode_response. set (id := sanitized_header _ _ _). set (retry := retry_after_ms _).
  assert (∀ code, pe_category (http_status_error (hs_status response) retry id code Mutation) ≠ CatUnknownOutcome →
    is_success (hs_status response) = false → rejected_status (Ok response)) as Hstatus.
  { intros code Hc Hs. unfold http_status_error in Hc. cbn [pe_category error] in Hc.
    rewrite bool_decide_eq_true_2 in Hc by done. cbn [andb] in Hc. split; [done|].
    destruct (Z.eqb_spec (hs_status response) 408); [by destruct Hc|].
    by destruct (is_server_error _). }
  set (too_large := if is_success _ then _ else _).
  assert (match too_large with
    | Ok envelope => ∃ read, decoded (Ok response) read ∧ en_success envelope = en_success read
    | Err e => pe_category e ≠ CatUnknownOutcome → rejected_status (Ok response) end) as Hlarge.
  { unfold too_large. destruct (is_success (hs_status response)) eqn:Es; [by intros Hn; destruct Hn|]. intros Hc. by eapply Hstatus. }
  destruct (is_some_and _ _); [exact Hlarge|].
  destruct (read_body (hs_chunks response) "") as [body| |e] eqn:Eb; [|exact Hlarge|by intros Hn; destruct Hn].
  destruct (is_success (hs_status response)) eqn:Es; cbn [negb]; [|intros Hc; by eapply Hstatus].
  destruct (from_slice body) as [value|] eqn:Ev; cbn [ok_or mbind]; [|by intros Hn; destruct Hn].
  destruct (from_value value) as [envelope|] eqn:Ee; cbn [ok_or mbind]; [|by intros Hn; destruct Hn].
  exists envelope. split; [|done]. by exists response, body, value.
Qed.

(** What is known of a write that was sent. *)
Definition sent_outcome (r : DnsProviderResult (Envelope T)) (answer : result HttpResponse TransportError) : Prop :=
  match r with
  | Ok envelope => ∃ read, decoded answer read ∧ en_success envelope = en_success read
  | Err e => pe_category e ≠ CatUnknownOutcome → rejected_status answer
  end.
(** A write that may be sent: nothing, and an error, or one request. *)
Definition one_write (request : HttpRequest) (r : DnsProviderResult (Envelope T)) (u : list http_event) : Prop :=
  (u = [] ∧ ∃ e, r = Err e ∧ pe_category e = CatValidation) ∨
  ∃ answer, u = [Ev (Send request) answer] ∧ sent_outcome r answer.

Lemma send_write request r u :
  exec traced (response <~ Send request ;;
    try? response := map_err map_write_transport_error response in
    Ret (decode_response response token Mutation)) [] r u →
  one_write request r u.
Proof.
  intros [answer He]%traced_step. right. exists answer.
  destruct answer as [response|e]; destruct He as [-> ->]; split; try done.
  - pose proof (decode_write_facts response _ eq_refl) as Hf. unfold sent_outcome.
    by destruct (decode_response response token Mutation).
  - unfold sent_outcome, map_write_transport_error.
    destruct (te_is_builder e) eqn:Eb; [by intros _|intros Hn; by destruct Hn].
Qed.

Lemma mutate_exec join_ok method path body r u :
  exec traced (mutate join_ok header_ok token method path body) [] r u →
  one_write (mkRequest method path [] (to_vec <$> body)) r u.
Proof.
  unfold mutate. destruct (is_some_and _ _); [intros [-> ->]; left; by eauto|].
  destruct (negb _); [intros [-> ->]; left; by eauto|]. unfold authorization_header.
  destruct (header_ok _); [|intros [-> ->]; left; by eauto]. apply send_write.
Qed.

Lemma post_batch_exec join_ok path body r u :
  exec traced (post_batch join_ok header_ok token path body) [] r u →
  one_write (mkRequest POST path [] (Some (batch_to_vec body))) r u.
Proof.
  unfold post_batch. destruct (_ <? _)%Z; [intros [-> ->]; left; by eauto|].
  destruct (negb _); [intros [-> ->]; left; by eauto|]. unfold authorization_header.
  destruct (header_ok _); [|intros [-> ->]; left; by eauto]. apply send_write.
Qed.

(** The same of an operation: what it makes of the envelope turns a success into
    the result or into an unknown outcome. *)
Definition written {A} (request : HttpRequest) (r : DnsProviderResult A) (u : list http_event) : Prop :=
  (u = [] ∧ ∃ e, r = Err e ∧ pe_category e = CatValidation) ∨
  ∃ answer, u = [Ev (Send request) answer] ∧
    match r with
    | Ok _ => ∃ envelope : Envelope T, decoded answer envelope ∧ en_success envelope = true
    | Err e => pe_category e ≠ CatUnknownOutcome → rejected_status answer ∨ declined T answer
    end.

Lemma written_intro {A} request (p : prog http_call (DnsProviderResult (Envelope T)))
    (missing : Envelope T → NormalizedProviderError) (f : T → DnsProviderResult A) r u :
  (∀ r u, exec traced p [] r u → one_write request r u) →
  (∀ envelope, pe_category (missing envelope) = CatUnknownOutcome) →
  (∀ raw e, f raw = Err e → pe_category e = CatUnknownOutcome) →
  exec traced (pbind p (λ envelope,
    try? envelope := envelope in
    try? raw := require (missing envelope) envelope in
    Ret (f raw))) [] r u →
  written request r u.
Proof.
  intros Hp Hm Hf (envelope&s1&Hs&He)%exec_bind.
  destruct (Hp _ _ Hs) as [[-> (e&->&Hc)]|(answer&->&Ho)].
  { destruct He as [-> ->]. left. split; [done|by exists e]. }
  right. exists answer.
  destruct envelope as [envelope|e]; [|destruct He as [-> ->]; split; [done|intros ?; left; by apply Ho]].
  destruct Ho as (read&Hd&Hsucc). unfold require in He. destruct (en_success envelope) eqn:Es; cbn [negb] in He.
  - destruct (en_result envelope) as [raw|]; cbn [ok_or] in He; destruct He as [-> ->]; split; try done.
    + destruct (f raw) as [a|e] eqn:Ef; [by exists read|]. intros Hc. destruct Hc. by eapply Hf.
    + intros Hc. destruct Hc. apply Hm.
  - destruct He as [-> ->]. split; [done|]. intros _. right. by exists read.
Qed.
End writes.

(** *** The writes of the adapter *)

Section operations.
Context `{Idna, JsonCodec, FromValue RawZone, FromValue (list RawZone), FromValue (list RawRecord),
  FromValue RawDnssec, FromValue RawBatchResult, FromValue string, FromValue TokenVerification}.
Context (join_ok header_ok : string → bool) (token : string).

(** The request of a write, and when it is turned down. *)
Definition write_request {X} (e : cf_call X) : HttpRequest :=
  match e with
  | CreateZone request => mkRequest POST "zones" [] (Some (to_vec
      (Object [("account", Object [("id", Str (cc_account_id request))]); ("name", Str (cc_name request));
               ("type", Str (zone_kind_name (cc_kind request)))])))
  | DeleteZone zone_id => mkRequest DELETE ("zones/" +:+ zone_id) [] None
  | PatchDnssec zone_id desired => mkRequest PATCH ("zones/" +:+ zone_id +:+ "/dnssec") [] (Some (to_vec
      (Object [("status", Str match desired with DesiredEnabled => "active" | DesiredDisabled => "disabled" end)])))
  | BatchRecords zone_id request =>
      mkRequest POST ("zones/" +:+ zone_id +:+ "/dns_records/batch") [] (Some (batch_to_vec request))
  | _ => mkRequest GET "" [] None
  end.
Definition turned_down {X} (e : cf_call X) (answer : result HttpResponse TransportError) : Prop :=
  rejected_status answer ∨
  match e with
  | CreateZone _ => declined RawZone answer
  | DeleteZone _ => declined string answer
  | PatchDnssec _ _ => declined RawDnssec answer
  | BatchRecords _ _ => declined RawBatchResult answer
  | _ => False
  end.
Definition succeeded (answer : result HttpResponse TransportError) : Prop :=
  ∃ response, answer = Ok response ∧ is_success (hs_status response) = true.

Lemma written_call {T} `{FromValue T} {A} request (r : DnsProviderResult A) u (P : result HttpResponse TransportError → Prop) :
  (∀ answer, rejected_status answer ∨ declined T answer → P answer) →
  written (T := T) request r u →
  (u = [] ∧ ∃ err, err_of r = Some err ∧ pe_category err = CatValidation) ∨
  ∃ answer, u = [Ev (Send request) answer] ∧
    match err_of r with
    | None => succeeded answer
    | Some err => pe_category err ≠ CatUnknownOutcome → P answer
    end.
Proof.
  intros HP [[-> (e&->&Hc)]|(answer&->&Ho)]; [left; split; [done|by exists e]|right].
  exists answer. split; [done|]. destruct r as [a|e]; cbn [err_of].
  - destruct Ho as (env&(response&bytes&value&->&Hs&_)&_). by exists response.
  - intros Hc. by apply HP, Ho.
Qed.

Lemma write_exec {X} (e : cf_call X) x u :
  ¬ is_read X e → exec traced (via_http join_ok header_ok token X e) [] x u →
  (u = [] ∧ ∃ err, failure e x = Some err ∧ pe_category err = CatValidation) ∨
  ∃ answer, u = [Ev (Send (write_request e)) answer] ∧
    match failure e x with
    | None => succeeded answer
    | Some err => pe_category err ≠ CatUnknownOutcome → turned_down e answer
    end.
Proof.
  destruct e as [|request|zone_id|zone_id|zone_id|zone_id desired| | |zone_id request]; cbn [is_read];
    try (intros Hn; by destruct Hn); intros _; cbn [via_http failure write_request].
  - unfold create_zone. unfold validate_identifier.
    destruct (valid_cloudflare_identifier _); [|intros [-> ->]; left; by eauto].
    destruct (AbsoluteDnsName_new _); [|intros [-> ->]; left; by eauto]. cbn [map_err].
    intros He. apply (written_call (T := RawZone)); [by intros answer ?|].
    eapply (written_intro _ _
      (λ envelope, unknown "missing_cloudflare_lifecycle_result" (en_request_id envelope))); [|done| |exact He].
    + intros r u' Hw%mutate_exec. exact Hw.
    + intros raw e. unfold unknown_result. destruct (map_zone raw); [done|]. by intros [= <-].
  - unfold delete_zone, validate_identifier.
    destruct (valid_cloudflare_identifier _); [|intros [-> ->]; left; by eauto].
    intros He. apply (written_call (T := string)); [by intros answer ?|].
    eapply (written_intro _ _
      (λ envelope, unknown "missing_cloudflare_lifecycle_result" (en_request_id envelope))); [|done| |exact He].
    + intros r u' Hw%mutate_exec. exact Hw.
    + intros raw e. cbv beta. destruct (is_empty raw); [|done]. by intros [= <-].
  - unfold patch_dnssec, validate_identifier.
    destruct (valid_cloudflare_identifier _); [|intros [-> ->]; left; by eauto].
    intros He. apply (written_call (T := RawDnssec)); [by intros answer ?|].
    eapply (written_intro _ _
      (λ envelope, unknown "missing_cloudflare_lifecycle_result" (en_request_id envelope))); [|done| |exact He].
    + intros r u' Hw%mutate_exec. exact Hw.
    + intros raw e. unfold unknown_result. destruct (map_dnssec raw); [done|]. by intros [= <-].
  - unfold batch_records, validate_identifier.
    destruct (valid_cloudflare_identifier _); [|intros [-> ->]; left; by eauto].
    intros He. apply (written_call (T := RawBatchResult)); [by intros answer ?|].
    eapply (written_intro _ _
      (λ envelope, unknown "missing_cloudflare_batch_result" (en_request_id envelope))); [|done| |exact He].
    + intros r u' Hw%post_batch_exec. exact Hw.
    + intros raw e. unfold accept_batch, unknown_result. destruct (_ || _); [by intros [= <-]|].
      destruct (collect map_record (rb_deletes raw)); [|by intros [= <-]]. cbn [map_err mbind].
      destruct (collect map_record (rb_posts raw)); [done|by intros [= <-]].
Qed.

(** *** The reads *)

Lemma get_gets {T} `{FromValue T} path query : calls_only is_get (get (T := T) join_ok header_ok token path query).
Proof.
  unfold get. destruct (negb _); [done|]. destruct (authorization_header _ _); [|done].
  split; [done|]. by intros [response|].
Qed.

Lemma get_optional_gets {T A} `{FromValue T} path (map : T → DnsProviderResult A) :
  calls_only is_get (get_optional join_ok header_ok token path map).
Proof.
  apply calls_only_bind; [apply get_gets|]. intros [envelope|e].
  - destruct (require_result envelope); [|done]. by destruct (map _).
  - by destruct (bool_decide _).
Qed.

Lemma get_page_gets {T A} `{FromValue (list T)} path query page per_page (map : T → DnsProviderResult A) :
  calls_only is_get (get_page join_ok header_ok token path query page per_page map).
Proof.
  apply calls_only_bind; [apply get_gets|]. intros [envelope|]; [|done].
  destruct (validate_result_info _ _ _); [|done]. destruct (require_result _); [|done].
  by destruct (collect _ _).
Qed.

Lemma read_gets {X} (e : cf_call X) : is_read X e → calls_only is_get (via_http join_ok header_ok token X e).
Proof.
  destruct e; cbn [is_read]; try done; intros _; cbn [via_http].
  - unfold get_zone. destruct (validate_identifier _ _); [|done]. apply get_optional_gets.
  - unfold get_dnssec. destruct (validate_identifier _ _); [|done]. apply get_optional_gets.
  - unfold list_zones. destruct (validate_identifier _ _); [|done]. destruct (validate_page _ _ _); [|done].
    apply get_page_gets.
  - unfold list_records. destruct (validate_identifier _ _); [|done]. destruct (validate_page _ _ _); [|done].
    apply get_page_gets.
Qed.

Lemma read_exec {X} (e : cf_call X) x u :
  is_read X e → exec traced (via_http join_ok header_ok token X e) [] x u → only_gets u.
Proof. intros He Hx. by destruct (exec_calls_only _ _ _ _ _ (read_gets e He) Hx) as (v&->&Hv). Qed.

(** Reads of the adapter are reads of the API. *)
Lemma reads_implemented t u :
  reads t → implemented (via_http join_ok header_ok token) t u → only_gets u.
Proof.
  intros Ht. revert u. induction Ht as [|[X e x] t He Ht IH]; intros u; cbn [implemented].
  - intros ->. constructor.
  - intros (u1&u2&->&Hx&Hi). apply Forall_app. split; [by eapply read_exec|by apply IH].
Qed.

(** *** What a listing was decoded from *)

(** The request for a zone, and for one page of its records. *)
Definition zone_get (zone_id : string) : HttpRequest := mkRequest GET ("zones/" +:+ zone_id) [] None.
Definition page_get (zone_id : string) (page : Z) : HttpRequest :=
  mkRequest GET ("zones/" +:+ zone_id +:+ "/dns_records")
    [("page", u64_to_string page); ("per_page", u64_to_string PROVIDER_PAGE_SIZE)] None.

(** The answers they are decoded from. *)
Definition zone_answer (answer : result HttpResponse TransportError) (zone : CloudflareZone) : Prop :=
  ∃ response envelope raw, answer = Ok response ∧
    decode_response (T := RawZone) response token Read = Ok envelope ∧
    require_result envelope = Ok raw ∧ map_zone raw = Ok zone.
Definition page_answer (answer : result HttpResponse TransportError)
    (page : CloudflarePage CloudflareRecord) : Prop :=
  ∃ response envelope info raws, answer = Ok response ∧
    decode_response (T := list RawRecord) response token Read = Ok envelope ∧
    validate_result_info envelope (cp_page page) PROVIDER_PAGE_SIZE = Ok info ∧
    require_result envelope = Ok raws ∧ collect map_record raws = Ok (cp_items page) ∧
    cp_total_pages page = ri_total_pages info.

(** One request for each page, from a page on. *)
Fixpoint page_gets (zone_id : string) (page : Z) (answers : list (result HttpResponse TransportError)) :
    list http_event :=
  match answers with
  | [] => []
  | answer :: answers => Ev (Send (page_get zone_id page)) answer :: page_gets zone_id (page + 1) answers
  end.

Lemma get_exec {T} `{FromValue T} path query envelope u :
  exec traced (get (T := T) join_ok header_ok token path query) [] (Ok envelope) u →
  ∃ response, u = [Ev (Send (mkRequest GET path query None)) (Ok response)] ∧
    decode_response response token Read = Ok envelope.
Proof.
  unfold get. destruct (negb _); [by intros [? _]|]. destruct (authorization_header _ _); [|by intros [? _]].
  intros [[response|e] He]%traced_step; [|by destruct He]. destruct He as [Hr ->].
  exists response. by split.
Qed.

Lemma get_zone_exec zone_id zone u :
  exec traced (get_zone join_ok header_ok token zone_id) [] (Ok (Some zone)) u →
  ∃ answer, u = [Ev (Send (zone_get zone_id)) answer] ∧ zone_answer answer zone.
Proof.
  unfold get_zone. destruct (validate_identifier _ _); [|by intros [? _]]. unfold get_optional.
  intros ([envelope|e]&u1&Hg&He)%exec_bind; [|by destruct (bool_decide _); destruct He].
  apply get_exec in Hg as (response&->&Hd).
  destruct (require_result envelope) as [raw|] eqn:Hr; [|by destruct He].
  destruct (map_zone raw) as [z|] eqn:Hm; [|by destruct He]. destruct He as [[= <-] ->].
  eexists. split; [done|]. by exists response, envelope, raw.
Qed.

Lemma list_records_exec zone_id page result u :
  exec traced (list_records join_ok header_ok token zone_id page PROVIDER_PAGE_SIZE) [] (Ok result) u →
  cp_page result = page ∧ ∃ answer, u = [Ev (Send (page_get zone_id page)) answer] ∧ page_answer answer result.
Proof.
  unfold list_records. destruct (validate_identifier _ _); [|by intros [? _]].
  destruct (validate_page _ _ _); [|by intros [? _]]. unfold get_page.
  intros ([envelope|e]&u1&Hg&He)%exec_bind; [|by destruct He]. apply get_exec in Hg as (response&->&Hd).
  destruct (validate_result_info envelope page PROVIDER_PAGE_SIZE) as [info|] eqn:Hv; [|by destruct He].
  destruct (require_result envelope) as [raws|] eqn:Hr; [|by destruct He].
  destruct (collect map_record raws) as [items|] eqn:Hc; [|by destruct He]. destruct He as [[= ->] ->].
  assert (ri_page info = page) as Hp.
  { unfold validate_result_info in Hv. destruct (ok_or _ _) as [info'|]; [|done]. cbn [mbind] in Hv.
    destruct (Z.eqb_spec (ri_page info') page); [|done]. cbn [negb orb] in Hv. by case_match; simplify_eq. }
  split; [done|]. eexists. split; [done|]. exists response, envelope, info, raws. cbn. rewrite Hp.
  by split_and!.
Qed.

Lemma page_calls_implemented zone_id page pages u :
  implemented (via_http join_ok header_ok token)
    (page_calls (λ page, ListRecords zone_id page PROVIDER_PAGE_SIZE) page pages) u →
  ∃ answers, u = page_gets zone_id page answers ∧ Forall2 page_answer answers pages.
Proof.
  revert page u. induction pages as [|result pages IH]; intros page u; cbn [page_calls implemented].
  - intros ->. by exists [].
  - intros (u1&u2&->&Hx&(answers&->&Ha)%IH). apply list_records_exec in Hx as (_&answer&->&Hp).
    exists (answer :: answers). by split; [|constructor].
Qed.

Lemma zone_reads_implemented zone_id zone pages u :
  implemented (via_http join_ok header_ok token) (zone_reads zone_id zone pages) u →
  ∃ za answers, u = Ev (Send (zone_get zone_id)) za :: page_gets zone_id 1 answers ∧
    zone_answer za zone ∧ Forall2 page_answer answers pages.
Proof.
  unfold zone_reads. cbn [implemented]. intros (u1&u2&->&Hx&Hp). apply get_zone_exec in Hx as (za&->&Hz).
  apply page_calls_implemented in Hp as (answers&->&Ha). by exists za, answers.
Qed.
End operations.

(** ** Errors *)

Section errors.
Context (token : string).

(** An error that the constructor accepts, whose request identifier does not show
    the token, and that asks for a delay of at most an hour. *)
Record error_ok (e : NormalizedProviderError) : Prop := {
  eo_valid : NormalizedProviderError_validate e = Ok tt;
  eo_secret id : pe_provider_request_id e = Some id → str_contains token id = false;
  eo_delay d : pe_retry_after_ms e = Some d → (d <= MAX_RETRY_DELAY_MS)%Z;
}.
Definition errors_ok {A} (r : DnsProviderResult A) : Prop := ∀ e, r = Err e → error_ok e.

Definition code_ok (code : string) : bool := negb (text_invalid MAX_ERROR_CODE_LEN code).
Definition id_ok (id : option string) : Prop :=
  ∀ i, id = Some i → text_invalid MAX_PROVIDER_REQUEST_ID_LEN i = false ∧ str_contains token i = false.
(** Which categories may carry a delay. *)
Definition retry_ok (category : ProviderErrorCategory) (retry : option Z) : Prop :=
  (∀ d, retry = Some d → (d <= MAX_RETRY_DELAY_MS)%Z) ∧
  match category with
  | CatThrottled => is_Some retry
  | CatTransient | CatQuota => True
  | _ => retry = None
  end.

Lemma error_intro category code retry id :
  code_ok code = true → id_ok id → retry_ok category retry → error_ok (error category code retry id).
Proof.
  intros Hc%negb_true_iff Hid [Hr Hcat]. split; [|by intros i Hi; apply Hid|done].
  unfold NormalizedProviderError_validate.
  cbn [error pe_code pe_message pe_provider_request_id pe_retry_after_ms pe_category].
  unfold validate_text at 1. rewrite Hc. cbn [mbind].
  assert (validate_text "Cloudflare API request failed" "provider error message" MAX_ERROR_MESSAGE_LEN = Ok tt) as ->
    by (by vm_compute). cbn [mbind].
  assert (validate_option (λ i, validate_text i "provider request ID" MAX_PROVIDER_REQUEST_ID_LEN) id = Ok tt) as ->.
  { destruct id as [i|]; [|done]. cbn [validate_option]. unfold validate_text. by rewrite (proj1 (Hid i eq_refl)). }
  cbn [mbind]. assert (is_some_and (λ delay, I64_MAX <? delay)%Z retry = false) as ->.
  { destruct retry as [d|]; [|done]. specialize (Hr d eq_refl). cbn [is_some_and].
    apply Z.ltb_ge. unfold MAX_RETRY_DELAY_MS, I64_MAX in *. lia. }
  destruct category; try (by rewrite Hcat, bool_decide_eq_true_2); try done.
  rewrite bool_decide_eq_false_2; [done|]. destruct Hcat as [d ->]. done.
Qed.

Lemma id_none : id_ok None.
Proof. by intros i. Qed.
Lemma static_ok category code :
  code_ok code = true → category ≠ CatThrottled → error_ok (error category code None None).
Proof.
  intros Hc Hn. apply error_intro; [done|apply id_none|]. split; [done|]. by destruct category.
Qed.

Lemma str_all_digits_graphic s : str_all is_ascii_digit s = true → str_all graphic s = true.
Proof. apply str_all_mono, byte_implies. by vm_compute. Qed.

Lemma dec_digits_length fuel n acc : String.length (dec_digits fuel n acc) ≤ fuel + String.length acc.
Proof.
  revert n acc. induction fuel as [|fuel IH]; intros n acc; cbn [dec_digits]; [done|].
  destruct (n / 10 =? 0)%Z; [simpl; lia|]. specialize (IH (n / 10)%Z (String (digit_char (n mod 10)) acc)). simpl in *. lia.
Qed.

(** A number makes a valid code with each of the prefixes. *)
Lemma number_code prefix n :
  str_all graphic prefix = true → prefix ≠ "" → (str_len prefix <= 64)%Z →
  code_ok (prefix +:+ u64_to_string n) = true.
Proof.
  intros Hg Hne Hl. apply negb_true_iff, graphic_text.
  - rewrite str_all_app, Hg. apply str_all_digits_graphic, u64_to_string_digits.
  - by destruct prefix.
  - unfold str_len in *. rewrite str_len_app. unfold MAX_ERROR_CODE_LEN.
    pose proof (dec_digits_length 20 n "") as Hd. fold (u64_to_string n) in Hd. simpl in Hd. lia.
Qed.

Lemma sanitized_ok headers name : id_ok (sanitized_header headers name token).
Proof.
  intros i. unfold sanitized_header. destruct (headers name) as [v|]; [|done]. simpl.
  destruct (_ && _) eqn:E; [|done]. intros [= <-].
  repeat (apply andb_true_iff in E as [E ?]). apply negb_true_iff in E.
  unfold text_invalid, MAX_PROVIDER_REQUEST_ID_LEN.
  match goal with H1 : (_ <=? 512)%Z = true, H2 : String.eqb _ _ = true |- _ =>
    rewrite H2; apply Z.leb_le in H1; rewrite (proj2 (Z.ltb_ge _ _) H1) end.
  match goal with H1 : negb (has_control v) = true, H2 : negb (str_contains _ _) = true |- _ =>
    apply negb_true_iff in H1, H2; rewrite H1, H2 end. by rewrite E.
Qed.

Lemma retry_after_bound headers d : retry_after_ms headers = Some d → (d <= MAX_RETRY_DELAY_MS)%Z.
Proof.
  unfold retry_after_ms. destruct (headers _) as [v|]; [|done]. simpl. destruct (parse_u64 v) as [s|]; [|done].
  simpl. destruct (u64_checked_mul s 1000); [|done]. simpl. intros [= <-]. lia.
Qed.

Lemma http_status_ok status headers id code kind :
  id_ok id → error_ok (http_status_error status (retry_after_ms headers) id code kind).
Proof.
  intros Hid. unfold http_status_error. apply error_intro; [destruct code; by apply number_code|done|].
  match goal with |- retry_ok ?c _ => set (category := c) end. pose proof (retry_after_bound headers) as Hb.
  split; [|by destruct category].
  intros d Hd. destruct category; try done; try (by apply Hb).
  destruct (retry_after_ms headers) as [r|]; injection Hd as <-; [by apply Hb|]. done.
Qed.

Lemma envelope_error_ok errors id : id_ok id → error_ok (envelope_error errors id).
Proof.
  intros Hid. unfold envelope_error. destruct (head errors) as [n|]; apply error_intro; try done.
  - by apply number_code.
  - split; [done|]. by destruct (bool_decide _).
Qed.

Lemma transport_ok e : error_ok (map_transport_error e).
Proof.
  unfold map_transport_error. destruct (te_is_builder e), (te_is_timeout e), (te_is_connect e);
    (apply static_ok; [by vm_compute|done]).
Qed.
Lemma write_transport_ok e : error_ok (map_write_transport_error e).
Proof.
  unfold map_write_transport_error. destruct (te_is_builder e); (apply static_ok; [by vm_compute|done]).
Qed.

(** *** Results *)

Lemma errors_Ok {A} (a : A) : errors_ok (Ok a).
Proof. by intros e. Qed.
Lemma errors_Err {A} e : error_ok e → errors_ok (A := A) (Err e).
Proof. by intros He e' [= <-]. Qed.
Lemma errors_bind {A B} (r : DnsProviderResult A) (f : A → DnsProviderResult B) :
  errors_ok r → (∀ a, r = Ok a → errors_ok (f a)) → errors_ok (let? a := r in f a).
Proof. intros Hr Hf. destruct r as [a|e]; [by apply Hf|]. simpl. apply errors_Err. by apply Hr. Qed.
Lemma errors_or {A} e (o : option A) : error_ok e → errors_ok (ok_or e o).
Proof. intros He. destruct o; [apply errors_Ok|by apply errors_Err]. Qed.
Lemma errors_map {A E} e (r : result A E) : error_ok e → errors_ok (map_err (λ _, e) r).
Proof. intros He. destruct r; [apply errors_Ok|by apply errors_Err]. Qed.
Lemma errors_if {A} (b : bool) (r r' : DnsProviderResult A) :
  errors_ok r → errors_ok r' → errors_ok (if b then r else r').
Proof. by destruct b. Qed.
Lemma errors_collect {A B} (f : A → DnsProviderResult B) l :
  (∀ a, errors_ok (f a)) → errors_ok (collect f l).
Proof.
  intros Hf. induction l as [|a l IH]; [apply errors_Ok|]. cbn [collect].
  apply errors_bind; [done|]. intros b _. apply errors_bind; [done|]. intros bs _. apply errors_Ok.
Qed.
Lemma malformed_ok code : code_ok code = true → error_ok (malformed code).
Proof. intros Hc. by apply (static_ok CatValidation). Qed.
Lemma invalid_ok code : code_ok code = true → error_ok (invalid code).
Proof. intros Hc. by apply (static_ok CatValidation). Qed.
Lemma unknown_ok code id : code_ok code = true → id_ok id → error_ok (unknown code id).
Proof. intros Hc Hid. by apply error_intro. Qed.
End errors.

(** Errors of what does not call itself, by its structure. *)
Ltac errors_step :=
  match goal with
  | |- errors_ok _ (Ok _) => apply errors_Ok
  | |- errors_ok _ (Err _) => apply errors_Err
  | |- errors_ok _ (ok_or _ _) => apply errors_or
  | |- errors_ok _ (map_err _ _) => apply errors_map
  | |- errors_ok _ (collect _ _) => apply errors_collect; intros ?
  | |- errors_ok _ (if _ then _ else _) => apply errors_if
  | |- errors_ok _ (match ?x with _ => _ end) => first [apply (errors_bind _ x); [|intros ? _] | destruct x]
  | |- error_ok _ (malformed _) => apply malformed_ok; by vm_compute
  | |- error_ok _ (invalid _) => apply invalid_ok; by vm_compute
  | |- error_ok _ (unknown _ None) => apply unknown_ok; [by vm_compute|apply id_none]
  end.
Ltac solve_errors := cbv zeta; repeat (errors_step; cbv beta iota).

Section operation_errors.
Context `{Idna, JsonCodec, FromValue RawZone, FromValue (list RawZone), FromValue (list RawRecord),
  FromValue RawDnssec, FromValue RawBatchResult, FromValue string, FromValue TokenVerification}.
Context (join_ok header_ok : string → bool) (token : string).

Lemma scan_txt_errors s : ∀ st segments, errors_ok token (scan_txt s st segments).
Proof.
  enough (∀ n s, String.length s ≤ n → ∀ st segments, errors_ok token (scan_txt s st segments)) as Hn
    by by apply (Hn (String.length s)).
  clear s. induction n as [|n IH]; intros s Hs st segments.
  { destruct s; [|simpl in Hs; lia]. cbn [scan_txt]. solve_errors. }
  destruct s as [|c s]; cbn [scan_txt]; [solve_errors|]. simpl in Hs.
  assert (∀ s', String.length s' ≤ String.length s → ∀ st segments, errors_ok token (scan_txt s' st segments)) as IH'.
  { intros s' Hs'. apply IH. lia. }
  destruct st as [| |segment]; [solve_errors; apply IH'; lia..|]. cbv zeta.
  destruct (Ascii.eqb c ch_quote); [solve_errors; apply IH'; lia|].
  destruct (Ascii.eqb c ch_backslash); [|solve_errors; apply IH'; lia].
  destruct s as [|x s1]; [solve_errors|]. destruct s1 as [|y [|z s3]]; [solve_errors; apply IH'; simpl; lia..|].
  solve_errors; apply IH'; simpl; lia.
Qed.

Lemma map_value_errors kind content data priority : errors_ok token (map_value kind content data priority).
Proof.
  unfold map_value, required_content, absolute_name, required_data_u16, required_data_u8, required_data_str, txt_value.
  solve_errors. apply scan_txt_errors.
Qed.

Lemma map_record_errors raw : errors_ok token (map_record raw).
Proof.
  unfold map_record. cbv zeta. apply errors_bind; [apply map_value_errors|]. intros v _.
  apply errors_bind; [|intros; apply errors_Ok].
  generalize (@nil string) as seen. induction (rr_tags raw) as [|t tags IH]; intros seen; cbn [insert_tags];
    [apply errors_Ok|]. apply errors_if; [|apply IH]. solve_errors.
Qed.

Lemma map_zone_errors raw : errors_ok token (map_zone raw).
Proof. unfold map_zone, absolute_name. solve_errors. Qed.
Lemma map_dnssec_errors raw : errors_ok token (map_dnssec raw).
Proof. unfold map_dnssec. solve_errors. Qed.
(** *** Programs *)

(** An envelope carries a sanitized request identifier. *)
Definition envelope_ok {T} (r : DnsProviderResult (Envelope T)) : Prop :=
  errors_ok token r ∧ ∀ envelope, r = Ok envelope → id_ok token (en_request_id envelope).

Lemma decode_error_ok kind code id : code_ok code = true → id_ok token id → error_ok token (response_decode_error kind code id).
Proof. intros Hc Hid. destruct kind; [by apply error_intro|by apply unknown_ok]. Qed.

Lemma decode_response_ok {T} `{FromValue T} response kind : envelope_ok (decode_response (T := T) response token kind).
Proof.
  unfold decode_response. pose proof (sanitized_ok token (hs_header response) "cf-ray") as Hid.
  set (id := sanitized_header _ _ _) in *. cbv zeta.
  match goal with |- envelope_ok (if _ then ?l else _) => set (too_large := l) end.
  assert (envelope_ok too_large) as Hlarge.
  { unfold too_large. destruct (is_success _); (split; [|done]); apply errors_Err;
      [by apply decode_error_ok|by apply http_status_ok]. }
  destruct (is_some_and _ _); [done|]. destruct (read_body _ _) as [body| |e]; [|done|].
  - destruct (is_success _); cbn [negb]; [|split; [by apply errors_Err, http_status_ok|done]].
    destruct (from_slice body) as [value|]; cbn [ok_or]; [|split; [by apply errors_Err, decode_error_ok|done]].
    destruct (from_value value) as [envelope|]; cbn [ok_or]; [|split; [by apply errors_Err, decode_error_ok|done]].
    split; [apply errors_Ok|]. by intros ? [= <-].
  - split; [|done]. apply errors_Err. unfold map_response_transport_error.
    destruct kind; [apply transport_ok|apply unknown_ok; [by vm_compute|apply id_none]].
Qed.

Lemma refuse_ok {T} e : error_ok token e → envelope_ok (T := T) (Err e).
Proof. intros He. split; [by apply errors_Err|done]. Qed.

Ltac refusal := apply refuse_ok; first [apply invalid_ok | apply malformed_ok]; by vm_compute.

Lemma get_ok {T} `{FromValue T} path query : results envelope_ok (get (T := T) join_ok header_ok token path query).
Proof.
  unfold get, authorization_header. destruct (negb _); [refusal|]. destruct (header_ok _); [|refusal].
  intros [response|e]; [apply decode_response_ok|]. apply refuse_ok, transport_ok.
Qed.
Lemma mutate_ok {T} `{FromValue T} method path body :
  results envelope_ok (mutate (T := T) join_ok header_ok token method path body).
Proof.
  unfold mutate, authorization_header. destruct (is_some_and _ _); [refusal|].
  destruct (negb _); [refusal|]. destruct (header_ok _); [|refusal].
  intros [response|e]; [apply decode_response_ok|]. apply refuse_ok, write_transport_ok.
Qed.
Lemma post_batch_ok {T} `{FromValue T} path body :
  results envelope_ok (post_batch (T := T) join_ok header_ok token path body).
Proof.
  unfold post_batch, authorization_header. destruct (_ <? _)%Z; [refusal|].
  destruct (negb _); [refusal|]. destruct (header_ok _); [|refusal].
  intros [response|e]; [apply decode_response_ok|]. apply refuse_ok, write_transport_ok.
Qed.

Lemma require_ok {T} (missing : Envelope T → NormalizedProviderError) envelope :
  error_ok token (missing envelope) → id_ok token (en_request_id envelope) →
  errors_ok token (require (missing envelope) envelope).
Proof.
  intros Hm Hid. unfold require. destruct (negb _); [by apply errors_Err, envelope_error_ok|]. by apply errors_or.
Qed.
Lemma require_result_ok {T} (envelope : Envelope T) :
  id_ok token (en_request_id envelope) → errors_ok token (require_result envelope).
Proof. intros Hid. apply (require_ok (λ _, _)); [|done]. apply malformed_ok. by vm_compute. Qed.

(** An operation on an envelope. *)
Lemma operation_ok {T A} (p : prog http_call (DnsProviderResult (Envelope T)))
    (f : DnsProviderResult (Envelope T) → prog http_call (DnsProviderResult A)) :
  results envelope_ok p → (∀ r, envelope_ok r → results (errors_ok token) (f r)) →
  results (errors_ok token) (pbind p f).
Proof. intros Hp Hf. by eapply results_bind. Qed.

Lemma write_ok {T A} (p : prog http_call (DnsProviderResult (Envelope T))) missing (f : T → DnsProviderResult A) :
  results envelope_ok p → (∀ envelope, id_ok token (en_request_id envelope) → error_ok token (missing envelope)) →
  (∀ raw, errors_ok token (f raw)) →
  results (errors_ok token) (pbind p (λ envelope,
    try? envelope := envelope in
    try? raw := require (missing envelope) envelope in
    Ret (f raw))).
Proof.
  intros Hp Hm Hf. apply operation_ok; [done|]. intros [envelope|e] [He Hid]; [|by apply errors_Err, He].
  specialize (Hid _ eq_refl). pose proof (require_ok missing envelope (Hm _ Hid) Hid) as Hr.
  destruct (require _ _) as [raw|e]; [apply Hf|]. by apply errors_Err, Hr.
Qed.

Lemma get_optional_ok {T A} `{FromValue T} path (map : T → DnsProviderResult A) :
  (∀ raw, errors_ok token (map raw)) → results (errors_ok token) (get_optional join_ok header_ok token path map).
Proof.
  intros Hm. apply operation_ok; [apply get_ok|]. intros [envelope|e] [He Hid].
  - pose proof (require_result_ok envelope (Hid _ eq_refl)) as Hr.
    destruct (require_result envelope) as [raw|e]; [|by apply errors_Err, Hr].
    specialize (Hm raw). destruct (map raw) as [a|e]; [apply errors_Ok|by apply errors_Err, Hm].
  - destruct (bool_decide _); [apply errors_Ok|by apply errors_Err, He].
Qed.

Lemma get_page_ok {T A} `{FromValue (list T)} path query page per_page (map : T → DnsProviderResult A) :
  (∀ raw, errors_ok token (map raw)) →
  results (errors_ok token) (get_page join_ok header_ok token path query page per_page map).
Proof.
  intros Hm. apply operation_ok; [apply get_ok|]. intros [envelope|e] [He Hid]; [|by apply errors_Err, He].
  assert (errors_ok token (validate_result_info envelope page per_page)) as Hi
    by (unfold validate_result_info; solve_errors).
  destruct (validate_result_info _ _ _) as [info|e]; [|by apply errors_Err, Hi].
  pose proof (require_result_ok envelope (Hid _ eq_refl)) as Hr.
  destruct (require_result envelope) as [raws|e]; [|by apply errors_Err, Hr].
  pose proof (errors_collect token map raws Hm) as Hc.
  destruct (collect map raws) as [items|e]; [apply errors_Ok|by apply errors_Err, Hc].
Qed.

Ltac identifier :=
  unfold validate_identifier; destruct (valid_cloudflare_identifier _);
  [|apply errors_Err, invalid_ok; by vm_compute].
Ltac page_checked :=
  unfold validate_page; destruct (_ || _); [apply errors_Err, invalid_ok; by vm_compute|].

Definition call_errors_ok {X} (e : cf_call X) (x : X) : Prop := ∀ err, failure e x = Some err → error_ok token err.

Lemma errors_failure {A} (r : DnsProviderResult A) err : errors_ok token r → err_of r = Some err → error_ok token err.
Proof. destruct r as [a|e]; [done|]. intros He [= <-]. by apply He. Qed.

Lemma via_http_errors {X} (e : cf_call X) :
  match e with Now => True | _ => results (call_errors_ok e) (via_http join_ok header_ok token X e) end.
Proof.
  assert (∀ A (p : prog http_call (DnsProviderResult A)), results (errors_ok token) p →
    results (λ r, ∀ err, err_of r = Some err → error_ok token err) p) as Hlift.
  { intros A p Hp. eapply results_mono; [|exact Hp]. intros r Hr err. by apply errors_failure. }
  destruct e as [|request|zone_id|zone_id|zone_id|zone_id desired|account_id page per_page|zone_id page per_page
    |zone_id request]; [done|..]; apply Hlift; cbn [via_http].
  - unfold create_zone. identifier. destruct (AbsoluteDnsName_new _); cbn [map_err];
      [|apply errors_Err, malformed_ok; by vm_compute].
    apply (write_ok _ (λ envelope, unknown "missing_cloudflare_lifecycle_result" (en_request_id envelope)));
      [apply mutate_ok| |intros raw; unfold unknown_result; solve_errors].
    intros envelope Hid. by apply unknown_ok.
  - unfold get_zone. identifier. apply get_optional_ok, map_zone_errors.
  - unfold delete_zone. identifier.
    apply (write_ok _ (λ envelope, unknown "missing_cloudflare_lifecycle_result" (en_request_id envelope)));
      [apply mutate_ok| |intros raw; solve_errors].
    intros envelope Hid. by apply unknown_ok.
  - unfold get_dnssec. identifier. apply get_optional_ok, map_dnssec_errors.
  - unfold patch_dnssec. identifier.
    apply (write_ok _ (λ envelope, unknown "missing_cloudflare_lifecycle_result" (en_request_id envelope)));
      [apply mutate_ok| |intros raw; unfold unknown_result; solve_errors].
    intros envelope Hid. by apply unknown_ok.
  - unfold list_zones. identifier. page_checked. apply get_page_ok, map_zone_errors.
  - unfold list_records. identifier. page_checked. apply get_page_ok, map_record_errors.
  - unfold batch_records. identifier.
    apply (write_ok _ (λ envelope, unknown "missing_cloudflare_batch_result" (en_request_id envelope)));
      [apply post_batch_ok| |intros raw; unfold accept_batch, unknown_result; solve_errors].
    intros envelope Hid. by apply unknown_ok.
Qed.
End operation_errors.

(** C36.  Every error of the client is valid and keeps the token secret.  Whatever
    a request is answered with (any status, headers, chunks, JSON), if an operation
    of the API fails then its error satisfies the constraints of
    [NormalizedProviderError], so that the [expect] of its construction does not
    panic: a valid code, a delay of at most an hour, always present when throttled
    and absent from terminal categories, and a request identifier of admitted form
    in which the token does not occur. *)
Theorem cloudflare_http_errors_valid `{Idna, JsonCodec, FromValue RawZone, FromValue (list RawZone),
    FromValue (list RawRecord), FromValue RawDnssec, FromValue RawBatchResult, FromValue string,
    FromValue TokenVerification} (join_ok header_ok : string → bool) (token : string) {X} (e : cf_call X)
    (x : X) (err : NormalizedProviderError) (trace : list http_event) :
  exec traced (via_http join_ok header_ok token X e) [] x trace → failure e x = Some err →
  match e with Now => True | _ => error_ok token err end.
Proof.
  intros Hx Hf. pose proof (via_http_errors join_ok header_ok token e) as He.
  destruct e; [done|..]; eapply exec_results in He; try exact Hx; by apply He.
Qed.

(** C29.  The client sends a write at most once and is honest about it.  A read of
    the adapter only ever sends GET requests.  A write either sends nothing and
    fails as invalid, or sends exactly the one request of its operation, without a
    retry: it succeeds only if the answer has a success status, and fails with a
    category other than an unknown outcome only if the API turned the request
    down, by not letting it be built, by a status that is neither a success nor a
    timeout nor a server error, or by a body that says so.  Everything else, from a
    broken connection to an unreadable success, is an unknown outcome. *)
Theorem cloudflare_http_write_once `{Idna, JsonCodec, FromValue RawZone, FromValue (list RawZone),
    FromValue (list RawRecord), FromValue RawDnssec, FromValue RawBatchResult, FromValue string,
    FromValue TokenVerification} (join_ok header_ok : string → bool) (token : string) {X} (e : cf_call X)
    (x : X) (trace : list http_event) :
  exec traced (via_http join_ok header_ok token X e) [] x trace →
  (is_read X e ∧ only_gets trace) ∨
  ¬ is_read X e ∧
  ((trace = [] ∧ ∃ err, failure e x = Some err ∧ pe_category err = CatValidation) ∨
   ∃ answer, trace = [Ev (Send (write_request e)) answer] ∧
     match failure e x with
     | None => succeeded answer
     | Some err => pe_category err ≠ CatUnknownOutcome → turned_down e answer
     end).
Proof.
  intros Hx. assert (is_read X e ∨ ¬ is_read X e) as [Hr|Hw] by (destruct e; cbn; auto).
  - left. split; [done|]. by eapply read_exec.
  - right. split; [done|]. by apply (write_exec join_ok header_ok token e).
Qed.

(** *** The adapter on top *)

Lemma page_calls_reads {T} (list_page : Z → cf_call (DnsProviderResult (CloudflarePage T))) page pages :
  (∀ page, is_read _ (list_page page)) → reads (page_calls list_page page pages).
Proof.
  intros Hr. revert page. induction pages as [|p pages IH]; intros page; constructor; [apply Hr|apply IH].
Qed.
Lemma zone_reads_reads zone_id provider_zone pages : reads (zone_reads zone_id provider_zone pages).
Proof. constructor; [done|]. by apply page_calls_reads. Qed.

(** C13.  The adapter over the client keeps the promise to the caller end to end.
    Whatever the network answers, submitting record changes sends GET requests
    only, and then at most one write.  When it sends the write, everything sent
    before it was one GET of the zone, whose answer decodes to the zone of the
    changes, and one GET for each page of its records, whose answers decode to
    pages that form a complete listing; and the write is the batch planned for the
    changes against that listing.  Without the write the result is an error.  With
    it, a receipt is returned only on an answer with a success status, and any
    other result is an unknown outcome, unless the API turned the batch down: a
    definite error is never reported for changes that may be in effect. *)
Theorem cloudflare_stack_apply_honest `{Idna, RecordsDigest, Crypto, TokenCodec ChangeToken, JsonCodec,
    FromValue RawZone, FromValue (list RawZone), FromValue (list RawRecord), FromValue RawDnssec,
    FromValue RawBatchResult, FromValue string, FromValue TokenVerification}
    (join_ok header_ok : string → bool) (token : string) (self : CloudflareDnsAdapter) (zone : DnsZoneRef)
    (changes : list DnsRecordChange) (guard : DnsGuardStrength) (r : DnsProviderResult DnsChangeReceipt)
    (trace : list http_event) :
  exec traced (interp (via_http join_ok header_ok token)
    (apply_record_changes batch_to_vec self zone changes guard)) [] r trace →
  (only_gets trace ∧ ∃ e, r = Err e) ∨
  ∃ za answers provider_zone observed pages current request answer,
    trace = Ev (Send (zone_get (zr_zone_id zone))) za :: page_gets (zr_zone_id zone) 1 answers
              ++ [Ev (Send (write_request (BatchRecords (zr_zone_id zone) request))) answer] ∧
    zone_answer token za provider_zone ∧ CloudflareAdapter.map_zone self provider_zone = Ok observed ∧
    oz_zone observed = zone ∧
    Forall2 (page_answer token) answers pages ∧ complete_listing PROVIDER_PAGE_SIZE pages ∧
    aggregate_records zone (listed pages) = Ok current ∧ plan_batch changes current = Ok request ∧
    match r with
    | Ok receipt => build_receipt batch_to_vec self zone request = Ok receipt ∧ succeeded answer
    | Err e => pe_category e = CatUnknownOutcome ∨ turned_down (BatchRecords (zr_zone_id zone) request) answer
    end.
Proof.
  intros (t&Ht&Hi)%interp_exec.
  apply cf_apply_exec in Ht as [[(u&->&Hu) Hr]|(pz&pages&observed&current&request&receipt&answer&->&Hrest)].
  { left. split; [|done]. by eapply reads_implemented. }
  destruct Hrest as (Hcl&Ha&Hmap&Hzone&_&_&Hp&Hb&Hans). cbn [app] in Hi.
  apply implemented_app in Hi as (before&u2&->&Hbefore&Hwrite).
  pose proof (reads_implemented join_ok header_ok token _ _ (zone_reads_reads _ _ _) Hbefore) as Hgets.
  apply zone_reads_implemented in Hbefore as (za&answers&->&Hza&Hpages).
  destruct Hwrite as (u3&u4&->&Hx&Hn). cbn [implemented] in Hn. subst u4. rewrite app_nil_r.
  destruct (write_exec join_ok header_ok token (BatchRecords (zr_zone_id zone) request) answer u3 (λ f, f) Hx)
    as [[-> (err&Hf&Hc)]|(sent&->&Hout)].
  - left. rewrite app_nil_r. split; [done|]. destruct answer as [result|e]; [done|]. by exists e.
  - right. exists za, answers, pz, observed, pages, current, request, sent. split_and!; try done.
    destruct answer as [result|e]; cbn [failure err_of] in Hout.
    + destruct Hans as [[_ ->]|[code ->]]; [done|by left].
    + subst r. destruct (decide (pe_category e = CatUnknownOutcome)); [by left|right]. by apply Hout.
Qed.

(** ** A listing and a write over a scripted network *)

Definition demo_response (status : Z) (body : string) : HttpResponse :=
  mkResponse status (λ name, if String.eqb name "cf-ray" then Some "ray secret" else Some "5") None [Ok body].
Definition demo_json : JsonCodec := {|
  from_slice s := Some (Str s); from_slice_envelope _ := None;
  to_vec _ := "{}"; batch_to_vec := demo_batch_json |}.
Definition demo_zone_value : FromValue RawZone := λ v, Some (mkEnvelope true
  (Some (mkRawZone "0123456789abcdef0123456789abcdef" "fedcba9876543210fedcba9876543210" "example.com" "full" "active"
     ["ns.example.net"] None)) [] None None).
Definition demo_records_value : FromValue (list RawRecord) := λ v, Some (mkEnvelope true (Some demo_raw_records) []
  (Some (mkResultInfo 1 5000 2 1)) None).
Definition demo_batch_value : FromValue RawBatchResult := λ v, Some (mkEnvelope true
  (Some (mkRawBatch (rev demo_raw_records) [] [] [demo_answer])) [] None None).
Definition demo_zones_value : FromValue (list RawZone) := λ v, None.
Definition demo_dnssec_value : FromValue RawDnssec := λ v, None.
Definition demo_ack_value : FromValue string := λ v, None.
Definition demo_token_value : FromValue TokenVerification := λ v, None.

(** The zone, its records, and a batch that times out at the gateway. *)
Definition demo_http (status : Z) (X : Type) (e : http_call X) (t : list http_event) : X * list http_event :=
  match e in http_call X return X * list http_event with
  | Send request =>
      let x := Ok (demo_response (if bool_decide (hq_method request = GET) then 200 else status) "body") in
      (x, t ++ [Ev (Send request) x])
  | Clock => (Ok 0%Z, t ++ [Ev Clock (Ok 0%Z)])
  end.
Lemma demo_http_traced status X (e : http_call X) t x t' : demo_http status X e t = (x, t') → traced X e t x t'.
Proof. destruct e; by intros [= <- <-]. Qed.
Definition demo_client (X : Type) (e : cf_call X) : prog http_call X :=
  @via_http demo_idna demo_json demo_zone_value demo_zones_value demo_records_value demo_dnssec_value
    demo_batch_value demo_ack_value (λ _, true) (λ _, true) "secret" X e.
Definition demo_batch_call : cf_call (DnsProviderResult CloudflareBatchResult) :=
  BatchRecords "0123456789abcdef0123456789abcdef" demo_cf_request.
Definition demo_throttled := run (demo_http 429) (demo_client _ demo_batch_call) [].

Lemma cloudflare_http_errors_valid_witness :
  ∃ err, failure demo_batch_call demo_throttled.1 = Some err ∧ pe_category err = CatThrottled ∧
    pe_retry_after_ms err = Some 5000%Z ∧ pe_provider_request_id err = None ∧ error_ok "secret" err.
Proof.
  eexists. split; [vm_compute; reflexivity|]. split; [reflexivity|]. split; [reflexivity|]. split; [reflexivity|].
  apply (@cloudflare_http_errors_valid demo_idna demo_json demo_zone_value demo_zones_value demo_records_value
    demo_dnssec_value demo_batch_value demo_ack_value demo_token_value (λ _, true) (λ _, true) "secret" _
    demo_batch_call demo_throttled.1 _ demo_throttled.2).
  - apply (run_exec _ (demo_http 429)); [exact (demo_http_traced 429)|]. apply surjective_pairing.
  - vm_compute. reflexivity.
Defined.

Definition demo_gateway := run (demo_http 504) (demo_client _ demo_batch_call) [].
Lemma cloudflare_http_write_once_witness :
  (∃ err, demo_gateway.1 = Err err ∧ pe_category err = CatUnknownOutcome) ∧
  ∃ answer, demo_gateway.2 = [Ev (Send (@write_request demo_json _ demo_batch_call)) answer].
Proof.
  assert (∃ err, demo_gateway.1 = Err err ∧ pe_category err = CatUnknownOutcome) as Herr
    by (eexists; split; vm_compute; reflexivity).
  split; [exact Herr|].
  destruct (@cloudflare_http_write_once demo_idna demo_json demo_zone_value demo_zones_value demo_records_value
    demo_dnssec_value demo_batch_value demo_ack_value demo_token_value (λ _, true) (λ _, true) "secret" _
    demo_batch_call demo_gateway.1 demo_gateway.2) as [[Hr _]|[_ [[Ht _]|(answer&Ht&_)]]].
  - apply (run_exec _ (demo_http 504)); [exact (demo_http_traced 504)|]. apply surjective_pairing.
  - destruct Hr.
  - vm_compute in Ht. discriminate Ht.
  - exists answer. exact Ht.
Defined.

Definition demo_stack := run (demo_http 200) (interp demo_client
  (@apply_record_changes demo_idna demo_records_digest demo_keyed_crypto demo_cf_change_codec demo_batch_json
     demo_write_adapter demo_cf_zone demo_cf_changes BestEffort)) [].
Lemma cloudflare_stack_apply_honest_witness :
  (∃ receipt, demo_stack.1 = Ok receipt) ∧
  ∃ za answers pages request answer, demo_stack.2 =
      Ev (Send (zone_get (zr_zone_id demo_cf_zone))) za :: page_gets (zr_zone_id demo_cf_zone) 1 answers
        ++ [Ev (Send (@write_request demo_json _ (BatchRecords (zr_zone_id demo_cf_zone) request))) answer] ∧
    Forall2 (@page_answer demo_idna demo_json demo_records_value "secret") answers pages ∧
    complete_listing PROVIDER_PAGE_SIZE pages.
Proof.
  assert (∃ receipt, demo_stack.1 = Ok receipt) as [receipt Hok] by (eexists; vm_compute; reflexivity).
  split; [by exists receipt|].
  destruct (@cloudflare_stack_apply_honest demo_idna demo_records_digest demo_keyed_crypto demo_cf_change_codec
    demo_json demo_zone_value demo_zones_value demo_records_value demo_dnssec_value demo_batch_value
    demo_ack_value demo_token_value (λ _, true) (λ _, true) "secret" demo_write_adapter demo_cf_zone demo_cf_changes
    BestEffort demo_stack.1 demo_stack.2)
    as [[_ [e He]]|(za&answers&pz&observed&pages&current&request&answer&Ht&_&_&_&Hp&Hc&_)].
  - apply (run_exec _ (demo_http 200)); [exact (demo_http_traced 200)|]. apply surjective_pairing.
  - rewrite Hok in He. discriminate He.
  - exists za, answers, pages, request, answer. split; [exact Ht|]. split; [exact Hp|exact Hc].
Defined.
