(* ===== verification/CloudflareLifecycle.v ===== *)
(** * CloudflareLifecycle: the lifecycle of Cloudflare zones

    The [ZoneLifecycleProvider] port of the adapter in
    [crates/center-adapter-cloudflare/src/lib.rs]: the observation of a zone with
    its records and DNSSEC state, the guarded creation, signing and deletion of
    zones, and the tokens by which a mutation is observed later.  The digest of a
    zone's revision and the JSON codec of the tokens are parameters. *)

From Stdlib Require Import ZArith Ascii String Lia.
From S2P Require Import Prelude Text Codec Core Effects BTree NetAddr Dns DnsChange ZoneLifecycle ProviderErrors RecordValues Tokens CloudAccounts CloudflareModel CloudflareInventory CloudflarePlan CloudflareTokens CloudflareAdapter.

(** ** DNSSEC *)

Definition map_ds (record : CloudflareDnssecDs) : DnsProviderResult DnssecDsRecord :=
  let record := mkDs (cd_key_tag record) (cd_algorithm record) (cd_digest_type record)
                  (to_ascii_uppercase (cd_digest record)) in
  let? _ := or_invalid "invalid_cloudflare_dnssec_ds" (DnssecDsRecord_validate record) in
  Ok record.

Definition map_dnssec_observation (value : option CloudflareDnssec) : DnsProviderResult DnssecObservation :=
  match value with
  | None => Ok (mkDnssec DsUnsupported [] NoAction (Some "dnssec_resource_absent"))
  | Some value =>
      let? record := transpose map_ds (cs_ds value) in
      let ds_records := match record with Some r => [r] | None => [] end in
      let key_tags := key_tags ds_records in
      let publish := if (zlen ds_records =? 0)%Z then WaitForProviderActivation else PublishDs ds_records in
      let '(state, external_action, detail) :=
        match cs_status value with
        | StatusActive => (DsActive, publish, "active")
        | StatusPending => (DsEnabling, publish, "pending")
        | StatusDisabled =>
            if (zlen key_tags =? 0)%Z then (DsDisabled, NoAction, "disabled")
            else (DsAwaitingDsRemoval, RemoveDs key_tags, "disabled-awaiting-ds-removal")
        | StatusPendingDisabled =>
            (DsAwaitingDsRemoval,
             if (zlen key_tags =? 0)%Z then WaitForProviderActivation else RemoveDs key_tags, "pending-disabled")
        | StatusError => (DsFailed, NoAction, "error")
        end in
      Ok (mkDnssec state ds_records external_action (Some detail))
  end.

Definition dnssec_mutation_state (value : option CloudflareDnssec) (desired : DnssecDesiredState) :
    ZoneLifecycleMutationState :=
  match cs_status <$> value, desired with
  | Some StatusActive, DesiredEnabled | Some StatusDisabled, DesiredDisabled => MutSucceeded
  | Some StatusError, _ => MutFailed
  | Some StatusPending, DesiredEnabled | Some StatusPendingDisabled, DesiredDisabled => MutPending
  | _, _ => MutUnknownOutcome
  end.

(** ** Revisions and tokens *)

(** Hexadecimal SHA-256 of the JSON of a zone, its DNSSEC state and its records. *)
Class LifecycleDigest :=
  lifecycle_digest : CloudflareZone → option CloudflareDnssec → list CloudflareRecord → string.

Definition lifecycle_revision `{LifecycleDigest} (zone : CloudflareZone) (dnssec : option CloudflareDnssec)
    (records : list CloudflareRecord) : DnsProviderResult string :=
  or_invalid "invalid_cloudflare_lifecycle_revision"
    (ZoneLifecycleRevision_new ("sha256:" +:+ lifecycle_digest zone dnssec (sort_by cr_id records))).

Inductive LifecycleMutation :=
| MutCreate (zone_id apex request_scope : string)
| MutDelete (zone_id : string)
| MutDnssec (zone_id : string) (desired : DnssecDesiredState).
Record LifecycleMutationToken := mkLifecycleToken {
  lt_version : Z;                            (* u8 *)
  lt_center_scope : string;
  lt_external_scope : string;
  lt_resource_scope : string;
  lt_mutation : LifecycleMutation;
}.

(** The locator that [lifecycle_resource_scope] hashes. *)
Definition lifecycle_locator (mutation : LifecycleMutation) : DnsProviderResult string :=
  let checked (zone_id encoded : string) :=
    if negb (valid_cloudflare_identifier zone_id) then Err (validation "invalid_cloudflare_lifecycle_locator")
    else Ok encoded in
  match mutation with
  | MutCreate zone_id apex _ => checked zone_id ("create" +:+ nul +:+ zone_id +:+ nul +:+ apex)
  | MutDelete zone_id => checked zone_id ("delete" +:+ nul +:+ zone_id)
  | MutDnssec zone_id desired =>
      checked zone_id ("dnssec" +:+ nul +:+ zone_id +:+ nul +:+
        match desired with DesiredDisabled => "disabled" | DesiredEnabled => "enabled" end)
  end.

(** The sizes of tokens.  Base64 of inputs of one size has one size and the URL-safe
    alphabet; JSON writes such texts and hexadecimal identifiers as they are. *)
Definition url_safe (c : ascii) : bool := is_ascii_alphanumeric c || Ascii.eqb c ch_dash || Ascii.eqb c ch_underscore.
Class TokenSizes `{Crypto, TokenCodec LifecycleMutationToken} := {
  hmac_size (k m : string) : String.length (hmac_sha256 k m) = 32;
  b64_size (s t : string) : String.length s = String.length t → String.length (b64_encode s) = String.length (b64_encode t);
  b64_alphabet (s : string) : str_all url_safe (b64_encode s) = true;
  json_size version center external (r r' z z' apex scope : string) :
    String.length r = String.length r' → str_all url_safe r = true → str_all url_safe r' = true →
    valid_cloudflare_identifier z = true → valid_cloudflare_identifier z' = true →
    String.length (to_json (mkLifecycleToken version center external r (MutCreate z apex scope))) =
    String.length (to_json (mkLifecycleToken version center external r' (MutCreate z' apex scope)));
}.

Section lifecycle.
Context `{Idna, Crypto, LifecycleDigest, TokenCodec LifecycleMutationToken}.
Context (self : CloudflareDnsAdapter).

Definition lifecycle_resource_scope (key : string) (mutation : LifecycleMutation) : DnsProviderResult string :=
  let? encoded := lifecycle_locator mutation in
  Ok (mutation_scope_tag key "lifecycle-resource" encoded).

(** The token of a mutation under a key. *)
Definition lifecycle_token (key : string) (mutation : LifecycleMutation) : DnsProviderResult LifecycleMutationToken :=
  let? resource_scope := lifecycle_resource_scope key mutation in
  Ok (mkLifecycleToken 2 (mutation_scope_tag key "center-account" (ca_center_account_id self))
        (mutation_scope_tag key "native-account" (ca_cloudflare_account_id self)) resource_scope mutation).

Definition lifecycle_receipt (mutation : LifecycleMutation) (state : ZoneLifecycleMutationState) :
    DnsProviderResult ZoneLifecycleMutationReceipt :=
  let? keys := mutation_token_keys self in
  let? token := lifecycle_token (mkr_active keys) mutation in
  let? signed := sign_mutation_token token (mkr_active keys) DomainZoneLifecycle in
  let? mutation_id := or_invalid "cloudflare_lifecycle_receipt_encoding_failed" (ZoneLifecycleMutationId_new signed) in
  Ok (mkMutationReceipt mutation_id state).

Definition preflight_lifecycle_receipt (mutation : LifecycleMutation) : DnsProviderResult () :=
  let? keys := mutation_token_keys self in
  let? token := lifecycle_token (mkr_active keys) mutation in
  let? signed := sign_mutation_token token (mkr_active keys) DomainZoneLifecycle in
  let? _ := or_invalid "cloudflare_lifecycle_receipt_encoding_failed" (ZoneLifecycleMutationId_new signed) in
  Ok tt.

(** ** Observation *)

Definition is_soa (value : DnsRecordSetValue) : bool := bool_decide (record_type value = TSoa).
Definition is_ns (value : DnsRecordSetValue) : bool := bool_decide (record_type value = TNs).
Definition non_default (zone : DnsZoneRef) (record : CloudflareRecord) : bool :=
  negb (is_soa (cr_value record) || String.eqb (cr_name record) (zr_apex zone) && is_ns (cr_value record)).

(** What [lifecycle_observation] makes of what it read. *)
Definition build_observation (zone : DnsZoneRef) (provider_zone : CloudflareZone) (records : list CloudflareRecord)
    (dnssec : option CloudflareDnssec) : DnsProviderResult ZoneLifecycleObservation :=
  let non_default_record_count := zlen (List.filter (non_default zone) records) in
  let? dnssec_observation := map_dnssec_observation dnssec in
  let? revision := lifecycle_revision provider_zone dnssec records in
  let delegation_state := if bool_decide (zr_visibility zone = Private) then NotApplicable else NotChecked in
  let delegation := mkDelegation delegation_state (cz_name_servers provider_zone) [] None None in
  let observation := mkLifecycle zone revision (cz_name_servers provider_zone) delegation VerNotChecked
                       (evaluate_zone_readiness VerNotChecked) dnssec_observation non_default_record_count in
  let? _ := or_invalid "invalid_cloudflare_lifecycle_observation" (ZoneLifecycleObservation_validate observation) in
  Ok observation.

Definition lifecycle_observation (zone : DnsZoneRef) :
    prog cf_call (DnsProviderResult (option ZoneLifecycleObservation)) :=
  try? _ := validate_zone_ref self zone in
  provider_zone <~ GetZone (zr_zone_id zone) ;;
  try? provider_zone := provider_zone in
  match provider_zone with
  | None => Ret (Ok None)
  | Some provider_zone =>
      try? observed_zone := map_zone self provider_zone in
      if negb (bool_decide (oz_zone observed_zone = zone))
      then Ret (Err (validation "cloudflare_zone_identity_mismatch"))
      else
        pbind (all_cloudflare_records self zone) (λ records,
          try? records := records in
          dnssec <~ GetDnssec (zr_zone_id zone) ;;
          try? dnssec := dnssec in
          try? observation := build_observation zone provider_zone records dnssec in
          Ret (Ok (Some observation)))
  end.

(** ** [ZoneLifecycleProvider] *)

Definition observe_zone (zone : DnsZoneRef) : prog cf_call (DnsProviderResult (option ZoneLifecycleObservation)) :=
  lifecycle_observation zone.

(** ["0".repeat(32)]. *)
Definition placeholder_id : string := "00000000000000000000000000000000".

(** What [create_zone] does with the provider's answer. *)
Definition accept_created (request : ZoneCreationRequest) (request_scope : string) (created : CloudflareZone) :
    DnsProviderResult ZoneLifecycleMutationReceipt :=
  if negb (String.eqb (cz_account_id created) (ca_cloudflare_account_id self))
     || negb (String.eqb (cz_name created) (cr_apex request))
     || negb (bool_decide (cz_kind created = KindFull)) || (zlen (cz_name_servers created) =? 0)%Z
  then Err (unknown_outcome "cloudflare_create_zone_result_mismatch")
  else if negb (valid_cloudflare_identifier (cz_id created))
  then Err (unknown_outcome "cloudflare_create_zone_id_invalid")
  else lifecycle_receipt (MutCreate (cz_id created) (cr_apex request) request_scope) MutPending.

Definition create_zone (request : ZoneCreationRequest) :
    prog cf_call (DnsProviderResult ZoneLifecycleMutationReceipt) :=
  try? keys := mutation_token_keys self in
  let request_scope := mutation_scope_tag (mkr_active keys) "create-idempotency" (cr_idempotency_key request) in
  if negb (bool_decide (cr_provider request = Cloudflare))
     || negb (String.eqb (cr_provider_account_id request) (ca_center_account_id self))
  then Ret (Err (validation "cloudflare_zone_creation_scope_mismatch"))
  else if negb (bool_decide (cr_visibility request = Public))
  then Ret (Err (validation "cloudflare_private_zone_creation_unsupported"))
  else
    try? _ := preflight_lifecycle_receipt (MutCreate placeholder_id (cr_apex request) request_scope) in
    created <~ CreateZone (mkCfCreateZone (ca_cloudflare_account_id self) (cr_apex request) KindFull) ;;
    try? created := created in
    Ret (accept_created request request_scope created).

Definition set_dnssec (zone : DnsZoneRef) (desired : DnssecDesiredState) (expected_revision : string) :
    prog cf_call (DnsProviderResult ZoneLifecycleMutationReceipt) :=
  try? _ := mutation_token_keys self in
  let mutation := MutDnssec (zr_zone_id zone) desired in
  try? _ := preflight_lifecycle_receipt mutation in
  pbind (lifecycle_observation zone) (λ observed,
    try? observed := observed in
    try? observed := ok_or (not_found "cloudflare_zone_not_found") observed in
    if negb (String.eqb (lo_revision observed) expected_revision)
    then Ret (Err (conflict "cloudflare_zone_lifecycle_revision_conflict"))
    else if bool_decide (desired = DesiredDisabled) then
      if negb (bool_decide (do_state (lo_dnssec observed) = DsDisabled))
      then Ret (Err (conflict "cloudflare_parent_ds_removal_verification_required"))
      else Ret (lifecycle_receipt mutation MutSucceeded)
    else
      result <~ PatchDnssec (zr_zone_id zone) desired ;;
      try? result := result in
      try? _ := map_dnssec_observation (Some result) in
      Ret (lifecycle_receipt mutation MutPending)).

Definition delete_zone (request : ZoneDeletionRequest) :
    prog cf_call (DnsProviderResult ZoneLifecycleMutationReceipt) :=
  let approval := dr_approval request in
  try? _ := mutation_token_keys self in
  if negb (String.eqb (ap_approved_revision approval) (dr_revision request))
     || negb (bool_decide (ap_approved_zone approval = dr_zone request))
     || is_empty (str_trim (ap_approved_by approval)) || is_empty (str_trim (ap_approved_at approval))
  then Ret (Err (validation "invalid_cloudflare_zone_deletion_approval"))
  else
    let mutation := MutDelete (zr_zone_id (dr_zone request)) in
    try? _ := preflight_lifecycle_receipt mutation in
    pbind (lifecycle_observation (dr_zone request)) (λ observed,
      try? observed := observed in
      try? observed := ok_or (not_found "cloudflare_zone_not_found") observed in
      if negb (String.eqb (lo_revision observed) (dr_revision request))
      then Ret (Err (conflict "cloudflare_zone_lifecycle_revision_conflict"))
      else
        ack <~ DeleteZone (zr_zone_id (dr_zone request)) ;;
        try? ack := ack in
        if negb (String.eqb ack (zr_zone_id (dr_zone request)))
        then Ret (Err (unknown_outcome "cloudflare_delete_zone_result_mismatch"))
        else Ret (lifecycle_receipt mutation MutPending)).

(** The checks of [observe_mutation] on a token, and the mutation it names. *)
Definition decode_mutation (keys : CloudflareMutationTokenKeyRing) (mutation_id : string) :
    DnsProviderResult LifecycleMutation :=
  let absent := not_found "cloudflare_lifecycle_mutation_not_found" in
  let? verified := map_err (λ _, absent)
                     (verify_mutation_token (T := LifecycleMutationToken) mutation_id keys DomainZoneLifecycle) in
  let '(token, selector) := verified in
  let? key := verification_key keys selector in
  if negb (lt_version token =? 2)%Z
     || negb (String.eqb (lt_center_scope token)
                (mutation_scope_tag key "center-account" (ca_center_account_id self)))
     || negb (String.eqb (lt_external_scope token)
                (mutation_scope_tag key "native-account" (ca_cloudflare_account_id self)))
  then Err absent
  else
    let? resource_scope := lifecycle_resource_scope key (lt_mutation token) in
    if negb (String.eqb (lt_resource_scope token) resource_scope) then Err absent else Ok (lt_mutation token).

(** The state of a mutation, read from the provider. *)
Definition mutation_state (mutation : LifecycleMutation) :
    prog cf_call (DnsProviderResult ZoneLifecycleMutationState) :=
  match mutation with
  | MutCreate zone_id apex _ =>
      try? id := map_err (λ _, not_found "cloudflare_lifecycle_mutation_not_found") (DnsZoneId_new zone_id) in
      let expected_zone := {| zr_provider_account_id := ca_center_account_id self; zr_provider := Cloudflare;
                              zr_zone_id := id; zr_apex := apex; zr_visibility := Public |} in
      value <~ GetZone zone_id ;;
      try? value := value in
      match value with
      | Some value =>
          try? observed := map_zone self value in
          Ret (Ok (if bool_decide (oz_zone observed = expected_zone) then MutSucceeded else MutUnknownOutcome))
      | None => Ret (Ok MutPending)
      end
  | MutDelete zone_id =>
      value <~ GetZone zone_id ;;
      try? value := value in
      Ret (Ok (match value with None => MutSucceeded | Some _ => MutPending end))
  | MutDnssec zone_id desired =>
      value <~ GetDnssec zone_id ;;
      try? value := value in
      Ret (Ok (dnssec_mutation_state value desired))
  end.

Definition observe_mutation (mutation_id : string) :
    prog cf_call (DnsProviderResult ZoneLifecycleMutationReceipt) :=
  try? keys := mutation_token_keys self in
  try? mutation := decode_mutation keys mutation_id in
  pbind (mutation_state mutation) (λ state,
    try? state := state in
    Ret (lifecycle_receipt mutation state)).
End lifecycle.

(** ** What a run does *)

(** The calls by which a zone was observed. *)
Definition observation_reads (zone_id : string) (provider_zone again : CloudflareZone)
    (pages : list (CloudflarePage CloudflareRecord)) (dnssec : option CloudflareDnssec) : list cf_event :=
  Ev (GetZone zone_id) (Ok (Some provider_zone)) :: zone_reads zone_id again pages
    ++ [Ev (GetDnssec zone_id) (Ok dnssec)].

Section traces.
Context `{Idna, RecordsDigest, Crypto, LifecycleDigest, TokenCodec LifecycleMutationToken}.
Context (self : CloudflareDnsAdapter).

(** An observation, and the answers of the run that it was made from. *)
Record observed_by (zone : DnsZoneRef) (u : list cf_event) (o : ZoneLifecycleObservation) : Prop := {
  ob_evidence : ∃ provider_zone again pages dnssec,
    u = observation_reads (zr_zone_id zone) provider_zone again pages dnssec ∧
    complete_listing PROVIDER_PAGE_SIZE pages ∧
    (∃ named, map_zone self provider_zone = Ok named ∧ oz_zone named = zone) ∧
    build_observation zone provider_zone (listed pages) dnssec = Ok o;
}.

Lemma lifecycle_observation_reads zone : calls_only is_read (lifecycle_observation self zone).
Proof.
  unfold lifecycle_observation. destruct (validate_zone_ref self zone); [|done]. split; [done|].
  intros [[pz|]|]; [|done|done]. destruct (map_zone self pz); [|done]. destruct (negb _); [done|].
  apply calls_only_bind; [apply all_cloudflare_records_reads|]. intros [records|]; [|done]. split; [done|].
  intros [d|]; [|done]. by destruct (build_observation _ _ _ _).
Qed.

Lemma lifecycle_observation_exec zone t o t' :
  exec traced (lifecycle_observation self zone) t (Ok (Some o)) t' →
  ∃ u, t' = t ++ u ∧ observed_by zone u o.
Proof.
  unfold lifecycle_observation. destruct (validate_zone_ref self zone); [|by intros [? _]].
  intros [pz He]%traced_step. destruct pz as [[pz|]|]; [|by destruct He..].
  destruct (map_zone self pz) as [named|] eqn:Em; [|by destruct He].
  case_bool_decide as Hz; [|by destruct He]. cbn [negb] in He.
  apply exec_bind in He as (records&s1&Hr&He). destruct records as [records|]; [|by destruct He].
  apply all_cloudflare_records_exec in Hr as (again&pages&named'&->&Hc&->&_&_).
  apply traced_step in He as [dnssec He]. destruct dnssec as [dnssec|]; [|by destruct He].
  destruct (build_observation zone pz (listed pages) dnssec) as [o'|] eqn:Eb; [|by destruct He].
  destruct He as [[= ->] ->]. rewrite <- !app_assoc. cbn [app]. eexists. split; [done|].
  split. exists pz, again, pages, dnssec. split_and!; [done|done|by exists named|done].
Qed.

(** An observation, then a check of it: nothing is written before the check. *)
Lemma cf_observed_exec {A} zone (k : ZoneLifecycleObservation → prog cf_call (DnsProviderResult A)) t r t' :
  exec traced (pbind (lifecycle_observation self zone) (λ observed,
    try? observed := observed in
    try? observed := ok_or (not_found "cloudflare_zone_not_found") observed in k observed)) t r t' →
  ((∃ u, t' = t ++ u ∧ reads u) ∧ ∃ e, r = Err e) ∨
  ∃ u o, observed_by zone u o ∧ reads u ∧ exec traced (k o) (t ++ u) r t'.
Proof.
  intros (observed&s1&Ho&He)%exec_bind.
  destruct (exec_reads _ _ _ _ (lifecycle_observation_reads zone) Ho) as (u&->&Hu).
  destruct observed as [[o|]|e]; cbn [ok_or] in He; [|left; by eapply read_stop in He..].
  apply lifecycle_observation_exec in Ho as (u'&Heq&Hob). apply app_inv_head in Heq as <-. right.
  by exists u, o.
Qed.

(** *** The mutations *)

Lemma preflight_receipt mutation state u :
  preflight_lifecycle_receipt self mutation = Ok u →
  ∃ receipt, lifecycle_receipt self mutation state = Ok receipt ∧ mr_state receipt = state.
Proof.
  unfold preflight_lifecycle_receipt, lifecycle_receipt. destruct (mutation_token_keys self); [|done].
  cbn [mbind]. destruct (lifecycle_token _ _ _); [|done]. cbn [mbind].
  destruct (sign_mutation_token _ _ _); [|done]. cbn [mbind]. destruct (or_invalid _ _); [|done].
  intros _. by eexists.
Qed.

(** A receipt that can be made for the placeholder can be made for the zone created. *)
Lemma created_receipt `{!TokenSizes} id apex scope state u :
  preflight_lifecycle_receipt self (MutCreate placeholder_id apex scope) = Ok u → valid_cloudflare_identifier id = true →
  ∃ receipt, lifecycle_receipt self (MutCreate id apex scope) state = Ok receipt ∧ mr_state receipt = state.
Proof.
  intros Hp Hid. unfold preflight_lifecycle_receipt, lifecycle_receipt in *.
  destruct (mutation_token_keys self) as [keys|]; [|done]. cbn [mbind] in *.
  unfold lifecycle_token, lifecycle_resource_scope, lifecycle_locator in *. rewrite Hid.
  change (valid_cloudflare_identifier placeholder_id) with true in Hp. cbn [negb mbind] in *.
  unfold sign_mutation_token in *.
  match type of Hp with context [token_text ?a ?k ?d] => set (old := token_text a k d) in * end.
  match goal with |- context [token_text ?a ?k ?d] => set (new := token_text a k d) end.
  assert (String.length new = String.length old) as Hlen.
  { unfold new, old, token_text. apply b64_size. rewrite !str_len_app, !hmac_size. f_equal.
    apply json_size; [apply b64_size; by rewrite !hmac_size|apply b64_alphabet..|done|done]. }
  unfold str_len in *. rewrite Hlen. destruct (_ <? _)%Z; [done|]. cbn [mbind] in *.
  unfold ZoneLifecycleMutationId_new, lifecycle_id_new in *.
  destruct (text_invalid 1024 old) eqn:Hold; [done|]. rewrite graphic_text; [by eexists|..].
  - eapply str_all_mono; [|apply b64_alphabet]. apply byte_implies. by vm_compute.
  - intros Hn. rewrite Hn in Hlen. destruct old; [done|discriminate Hlen].
  - unfold text_invalid in Hold. do 2 (apply orb_false_iff in Hold as [Hold _]).
    apply orb_false_iff in Hold as [_ Hmax%Z.ltb_ge]. unfold str_len in *. by rewrite Hlen.
Qed.

(** What deleting a zone was decided on. *)
Record deletion_evidence (request : ZoneDeletionRequest) (u : list cf_event) : Prop := {
  de_observed : ∃ o, observed_by (dr_zone request) u o ∧ lo_revision o = dr_revision request;
  de_revision : ap_approved_revision (dr_approval request) = dr_revision request;
  de_zone : ap_approved_zone (dr_approval request) = dr_zone request;
}.

Lemma delete_exec request t r t' :
  exec traced (delete_zone self request) t r t' →
  ((∃ u, t' = t ++ u ∧ reads u) ∧ ∃ e, r = Err e) ∨
  ∃ u answer receipt, let id := zr_zone_id (dr_zone request) in
    t' = t ++ u ++ [Ev (DeleteZone id) answer] ∧ reads u ∧ deletion_evidence request u ∧
    lifecycle_receipt self (MutDelete id) MutPending = Ok receipt ∧
    match answer with
    | Err e => r = Err e
    | Ok ack => if String.eqb ack id then r = Ok receipt else is_unknown r
    end.
Proof.
  unfold delete_zone. destruct (mutation_token_keys self); [|intros ?%read_nothing; by left].
  destruct (_ || _) eqn:Ea; [intros ?%read_nothing; by left|].
  apply orb_false_iff in Ea as [Ea _]. apply orb_false_iff in Ea as [Ea _].
  apply orb_false_iff in Ea as [Hr%negb_false_iff%String.eqb_eq Hz%negb_false_iff%bool_decide_eq_true].
  destruct (preflight_lifecycle_receipt _ _) as [[]|] eqn:Ep; [|intros ?%read_nothing; by left].
  destruct (preflight_receipt _ MutPending _ Ep) as (receipt&Hreceipt&_).
  intros [?|(u&o&Hob&Hu&He)]%cf_observed_exec; [by left|].
  destruct (String.eqb_spec (lo_revision o) (dr_revision request)) as [Hrev|]; cbn [negb] in He;
    [|left; by eapply read_stop].
  right. apply traced_step in He as [answer He]. rewrite <- app_assoc in He.
  exists u, answer, receipt. cbn zeta. assert (deletion_evidence request u) by (split; [by exists o|done|done]).
  destruct answer as [ack|e]; [|destruct He as [-> ->]; split_and!; done].
  destruct (String.eqb ack _); cbn [negb] in He; destruct He as [-> ->]; split_and!; try done. by eexists.
Qed.

Lemma cf_set_dnssec_exec zone desired revision t r t' :
  exec traced (set_dnssec self zone desired revision) t r t' →
  (∃ u, t' = t ++ u ∧ reads u ∧ ((∃ e, r = Err e) ∨
     ∃ o, desired = DesiredDisabled ∧ observed_by zone u o ∧ lo_revision o = revision ∧
       do_state (lo_dnssec o) = DsDisabled ∧ ∃ receipt,
       lifecycle_receipt self (MutDnssec (zr_zone_id zone) desired) MutSucceeded = Ok receipt ∧ r = Ok receipt)) ∨
  ∃ u o answer receipt, let id := zr_zone_id zone in
    desired = DesiredEnabled ∧ t' = t ++ u ++ [Ev (PatchDnssec id DesiredEnabled) answer] ∧ reads u ∧
    observed_by zone u o ∧ lo_revision o = revision ∧
    lifecycle_receipt self (MutDnssec id desired) MutPending = Ok receipt ∧
    match answer with
    | Err e => r = Err e
    | Ok result =>
        match map_dnssec_observation (Some result) with
        | Ok _ => r = Ok receipt
        | Err e => r = Err e
        end
    end.
Proof.
  unfold set_dnssec. assert (∀ P : list cf_event → Prop, ((∃ u, t' = t ++ u ∧ reads u) ∧ ∃ e, r = Err e) →
    (∃ u, t' = t ++ u ∧ reads u ∧ ((∃ e, r = Err e) ∨ P u))) as Hstop.
  { intros P [(u&?&?) ?]. exists u. split_and!; [done|done|by left]. }
  destruct (mutation_token_keys self); [|intros ?%read_nothing; left; by apply (Hstop _)].
  destruct (preflight_lifecycle_receipt _ _) as [[]|] eqn:Ep; [|intros ?%read_nothing; left; by apply (Hstop _)].
  intros [?|(u&o&Hob&Hu&He)]%cf_observed_exec; [left; by apply (Hstop _)|].
  destruct (String.eqb_spec (lo_revision o) revision) as [Hrev|]; cbn [negb] in He;
    [|left; apply (Hstop _); by eapply read_stop].
  destruct desired.
  - rewrite bool_decide_eq_true_2 in He by done. left.
    case_bool_decide as Hd; cbn [negb] in He; [|apply (Hstop _); by eapply read_stop].
    destruct He as [-> ->]. exists u. split_and!; [done|done|]. right. exists o. split_and!; [done..|].
    destruct (preflight_receipt _ MutSucceeded _ Ep) as (receipt&Hreceipt&_). exists receipt. by rewrite Hreceipt.
  - rewrite bool_decide_eq_false_2 in He by done. right. apply traced_step in He as [answer He].
    rewrite <- app_assoc in He. destruct (preflight_receipt _ MutPending _ Ep) as (receipt&Hreceipt&_).
    exists u, o, answer, receipt. cbn zeta. rewrite Hreceipt in *.
    destruct answer as [result|e]; [|destruct He as [-> ->]; split_and!; done].
    destruct (map_dnssec_observation (Some result)); destruct He as [-> ->]; split_and!; done.
Qed.

(** The zone that was asked for. *)
Record created_as_asked (request : ZoneCreationRequest) (created : CloudflareZone) : Prop := {
  ca_account : cz_account_id created = ca_cloudflare_account_id self;
  ca_apex : cz_name created = cr_apex request;
  ca_kind : cz_kind created = KindFull;
  ca_servers : cz_name_servers created ≠ [];
  ca_id : valid_cloudflare_identifier (cz_id created) = true;
}.
Lemma accept_created_exact `{!TokenSizes} request scope created u :
  preflight_lifecycle_receipt self (MutCreate placeholder_id (cr_apex request) scope) = Ok u →
  (created_as_asked request created ∧ ∃ receipt, mr_state receipt = MutPending ∧
     lifecycle_receipt self (MutCreate (cz_id created) (cr_apex request) scope) MutPending = Ok receipt ∧
     accept_created self request scope created = Ok receipt) ∨
  (¬ created_as_asked request created ∧ is_unknown (accept_created self request scope created)).
Proof.
  intros Hp. unfold accept_created. destruct (_ || _) eqn:Em.
  { right. split; [|by eexists]. intros [Ha Hn Hk Hs _].
    rewrite Ha, Hn, !String.eqb_refl, bool_decide_true in Em by done. cbn [negb orb] in Em.
    by destruct (cz_name_servers created). }
  do 3 (apply orb_false_iff in Em as [Em ?]). destruct (valid_cloudflare_identifier (cz_id created)) eqn:Eid; cbn [negb].
  - left. destruct (created_receipt (cz_id created) _ _ MutPending _ Hp Eid) as (receipt&Hr&Hs). split.
    + split; [by apply String.eqb_eq, negb_false_iff|by apply String.eqb_eq, negb_false_iff| | |done].
      * case_bool_decide; done.
      * by destruct (cz_name_servers created).
    + by exists receipt.
  - right. split; [|by eexists]. intros []. congruence.
Qed.

Lemma cf_create_exec `{!TokenSizes} request t r t' :
  exec traced (create_zone self request) t r t' →
  (t' = t ∧ ∃ e, r = Err e) ∨
  ∃ keys answer, ca_mutation_token_keys self = Some keys ∧
    let request_scope := mutation_scope_tag (mkr_active keys) "create-idempotency" (cr_idempotency_key request) in
    t' = t ++ [Ev (CreateZone (mkCfCreateZone (ca_cloudflare_account_id self) (cr_apex request) KindFull)) answer] ∧
    cr_provider_account_id request = ca_center_account_id self ∧ cr_visibility request = Public ∧
    match answer with
    | Err e => r = Err e
    | Ok created =>
        (created_as_asked request created ∧ ∃ receipt, mr_state receipt = MutPending ∧
           lifecycle_receipt self (MutCreate (cz_id created) (cr_apex request) request_scope) MutPending = Ok receipt ∧
           r = Ok receipt) ∨
        (¬ created_as_asked request created ∧ is_unknown r)
    end.
Proof.
  unfold create_zone, mutation_token_keys. destruct (ca_mutation_token_keys self) as [keys|]; cbn [ok_or];
    [|intros [-> ->]; left; by eauto].
  destruct (_ || _) eqn:Es; [intros [-> ->]; left; by eauto|].
  apply orb_false_iff in Es as [_ Ha%negb_false_iff%String.eqb_eq].
  case_bool_decide as Hv; cbn [negb]; [|intros [-> ->]; left; by eauto]. cbv zeta.
  destruct (preflight_lifecycle_receipt _ _) as [[]|] eqn:Ep; [|intros [-> ->]; left; by eauto].
  intros [answer He]%traced_step. right. exists keys, answer. split; [done|].
  destruct answer as [created|e]; destruct He as [-> ->]; split_and!; try done. by eapply accept_created_exact.
Qed.
End traces.

(** C30.  The life of a zone changes only on evidence from the same run and on a
    token that exists before.  Whatever the API answers, a run of [delete_zone],
    [set_dnssec] or [create_zone] sends at most one mutation, as its last call, and
    ends in an error if it sends none; but asking to disable signing succeeds without
    one if signing was observed to be off at the expected revision.  A deletion is sent for the zone that was approved, at
    the approved revision, and if the request was authorized from a plan then that
    plan's zone was deletable and is still at the observed revision; an acknowledgement
    of another zone is an unknown outcome.  Signing is only enabled, at the
    expected revision; an answer to it that is not well formed is an error.  A creation is sent for the adapter's account; if the provider
    answers with the zone asked for, a receipt for it is returned, and an unknown
    outcome if it answers with another.  The provider's own errors are
    returned as they are. *)
Theorem cloudflare_lifecycle_guarded `{Idna, RecordsDigest, Crypto, LifecycleDigest,
    TokenCodec LifecycleMutationToken, !TokenSizes} (self : CloudflareDnsAdapter)
    (r : DnsProviderResult ZoneLifecycleMutationReceipt) (trace : list cf_event) :
  (∀ request, exec traced (delete_zone self request) [] r trace →
     (reads trace ∧ ∃ e, r = Err e) ∨
     ∃ u answer receipt, let id := zr_zone_id (dr_zone request) in
       trace = u ++ [Ev (DeleteZone id) answer] ∧ reads u ∧ deletion_evidence self request u ∧
       (∀ plan approval, authorize_zone_deletion plan approval = Ok request →
          dp_zone plan = dr_zone request ∧ dp_observed_revision plan = dr_revision request ∧
          deletable (dp_origin plan) (dp_management_policy plan) (dp_deletion_policy plan)
            (dp_non_default_record_count plan) (dp_delegation_state plan) (dp_dnssec_state plan)) ∧
       lifecycle_receipt self (MutDelete id) MutPending = Ok receipt ∧
       match answer with
       | Err e => r = Err e
       | Ok ack => if String.eqb ack id then r = Ok receipt else is_unknown r
       end) ∧
  (∀ zone desired revision, exec traced (set_dnssec self zone desired revision) [] r trace →
     (reads trace ∧ ((∃ e, r = Err e) ∨
        ∃ o, desired = DesiredDisabled ∧ observed_by self zone trace o ∧ lo_revision o = revision ∧
          do_state (lo_dnssec o) = DsDisabled ∧ ∃ receipt,
          lifecycle_receipt self (MutDnssec (zr_zone_id zone) desired) MutSucceeded = Ok receipt ∧ r = Ok receipt)) ∨
     ∃ u o answer receipt, let id := zr_zone_id zone in
       desired = DesiredEnabled ∧ trace = u ++ [Ev (PatchDnssec id DesiredEnabled) answer] ∧ reads u ∧
       observed_by self zone u o ∧ lo_revision o = revision ∧
       lifecycle_receipt self (MutDnssec id desired) MutPending = Ok receipt ∧
       match answer with
       | Err e => r = Err e
       | Ok result =>
           match map_dnssec_observation (Some result) with Ok _ => r = Ok receipt | Err e => r = Err e end
       end) ∧
  (∀ request, exec traced (create_zone self request) [] r trace →
     (trace = [] ∧ ∃ e, r = Err e) ∨
     ∃ keys answer, ca_mutation_token_keys self = Some keys ∧
       let request_scope := mutation_scope_tag (mkr_active keys) "create-idempotency" (cr_idempotency_key request) in
       trace = [Ev (CreateZone (mkCfCreateZone (ca_cloudflare_account_id self) (cr_apex request) KindFull)) answer] ∧
       cr_provider_account_id request = ca_center_account_id self ∧ cr_visibility request = Public ∧
       match answer with
       | Err e => r = Err e
       | Ok created =>
           (created_as_asked self request created ∧ ∃ receipt, mr_state receipt = MutPending ∧
              lifecycle_receipt self (MutCreate (cz_id created) (cr_apex request) request_scope) MutPending = Ok receipt ∧
              r = Ok receipt) ∨
           (¬ created_as_asked self request created ∧ is_unknown r)
       end).
Proof.
  split_and!.
  - intros request [[(u&->&Hu) Hr]|(u&answer&receipt&->&Hu&Hd&Hl&Hans)]%delete_exec; [by left|right].
    exists u, answer, receipt. cbn zeta. split_and!; try done.
    intros plan approval (->&_&_&_&_&_&Hdel)%deletion_authorized. done.
  - intros zone desired revision [(u&->&Hu&Hr)|(u&o&answer&receipt&?&->&?)]%cf_set_dnssec_exec; [by left|right].
    by exists u, o, answer, receipt.
  - intros request He. apply cf_create_exec in He as [[-> Hr]|Hr]; [by left|by right|done].
Qed.

(** A lifecycle token leads back to its mutation.  A receipt issued by one
    adapter and presented to another of the same accounts, whose key ring knows
    the key it was signed with, is decoded to exactly the mutation it was issued
    for: observing it reads that resource's state and reseals the receipt under
    the active key, whatever the state it was issued with.  To an adapter whose
    accounts have other scope tags it does not exist. *)
Theorem cloudflare_mutation_roundtrip `{Idna, CryptoLaws, LifecycleDigest,
    TokenCodecLaws LifecycleMutationToken} (prev next other : CloudflareDnsAdapter)
    (keys new : CloudflareMutationTokenKeyRing) (mutation : LifecycleMutation)
    (token : LifecycleMutationToken) (state : ZoneLifecycleMutationState) (receipt : ZoneLifecycleMutationReceipt) :
  ca_mutation_token_keys prev = Some keys → ca_mutation_token_keys next = Some new → rotates prev next →
  lifecycle_token prev (mkr_active keys) mutation = Ok token → fits token (mkr_active keys) DomainZoneLifecycle →
  lifecycle_receipt prev mutation state = Ok receipt →
  observe_mutation next (mr_mutation_id receipt) =
    pbind (mutation_state next mutation) (λ state, try? state := state in Ret (lifecycle_receipt next mutation state)) ∧
  (ca_mutation_token_keys other = Some keys →
   mutation_scope_tag (mkr_active keys) "center-account" (ca_center_account_id other) ≠
     mutation_scope_tag (mkr_active keys) "center-account" (ca_center_account_id prev) ∨
   mutation_scope_tag (mkr_active keys) "native-account" (ca_cloudflare_account_id other) ≠
     mutation_scope_tag (mkr_active keys) "native-account" (ca_cloudflare_account_id prev) →
   observe_mutation other (mr_mutation_id receipt) =
     Ret (Err (not_found "cloudflare_lifecycle_mutation_not_found"))).
Proof.
  intros Hk Hn [Hc He (old&new'&Hold&Hnew&Hknows)] Ht Hfit Hr.
  assert (old = keys) as -> by congruence. assert (new' = new) as -> by congruence.
  unfold lifecycle_receipt, mutation_token_keys in Hr. rewrite Hk in Hr. cbn [ok_or mbind] in Hr.
  rewrite Ht in Hr. cbn [mbind] in Hr. rewrite (sign_mutation_Ok _ _ _ Hfit) in Hr. cbn [mbind] in Hr.
  assert (mr_mutation_id receipt = token_text token (mkr_active keys) DomainZoneLifecycle) as ->.
  { revert Hr. unfold ZoneLifecycleMutationId_new, lifecycle_id_new. destruct (text_invalid _ _); [done|].
    by intros [= <-]. }
  pose proof Ht as Htoken. unfold lifecycle_token in Htoken.
  destruct (lifecycle_resource_scope (mkr_active keys) mutation) as [scope|] eqn:Es; [|done].
  cbn [mbind] in Htoken. injection Htoken as Htoken. split.
  - unfold observe_mutation, mutation_token_keys. rewrite Hn. cbn [ok_or]. unfold decode_mutation.
    rewrite (verify_mutation_sign _ _ _ _ Hknows Hfit). cbn [map_err mbind].
    rewrite (selected_verification_key _ _ Hknows). cbn [mbind]. subst token.
    cbn [lt_version lt_center_scope lt_external_scope lt_resource_scope lt_mutation].
    rewrite Hc, He, !String.eqb_refl. cbn [Z.eqb Pos.eqb negb orb]. rewrite Es. cbn [mbind].
    by rewrite String.eqb_refl.
  - intros Hok Hne. unfold observe_mutation, mutation_token_keys. rewrite Hok. cbn [ok_or].
    unfold decode_mutation. assert (knows (mkr_active keys) (mkr_fallback keys) (mkr_active keys)) as Hkn by by left.
    rewrite (verify_mutation_sign _ _ _ _ Hkn Hfit). cbn [map_err mbind].
    rewrite (selected_verification_key _ _ Hkn). cbn [mbind]. subst token.
    cbn [lt_version lt_center_scope lt_external_scope lt_resource_scope lt_mutation].
    destruct Hne as [Hne|Hne].
    + rewrite (proj2 (String.eqb_neq (mutation_scope_tag _ "center-account" (ca_center_account_id prev)) _))
        by congruence. cbn [negb]. by rewrite !orb_true_r.
    + rewrite (proj2 (String.eqb_neq (mutation_scope_tag _ "native-account" (ca_cloudflare_account_id prev)) _))
        by congruence. cbn [negb]. by rewrite !orb_true_r.
Qed.

(** ** A deletion, and its token across a rotation *)

Definition demo_cf_digest : LifecycleDigest := λ zone _ records, cz_id zone +:+ "-" +:+ z_str (zlen records).
Definition mutation_fields (m : LifecycleMutation) : list string :=
  match m with
  | MutCreate z a s => ["c"; z; a; s]
  | MutDelete z => ["d"; z; ""; ""]
  | MutDnssec z d => ["s"; z; match d with DesiredDisabled => "d" | DesiredEnabled => "e" end; ""]
  end.
Definition demo_cf_lifecycle_codec : TokenCodec LifecycleMutationToken := {|
  to_json t := enc_fields (z_str (lt_version t) :: lt_center_scope t :: lt_external_scope t ::
    lt_resource_scope t :: mutation_fields (lt_mutation t));
  from_json s := match dec_fields s "" with
    | [v; c; e; r; k; z; a; q] =>
        v ← str_z v;
        Some (mkLifecycleToken v c e r
          (if String.eqb k "c" then MutCreate z a q
           else if String.eqb k "d" then MutDelete z
           else MutDnssec z (if String.eqb a "d" then DesiredDisabled else DesiredEnabled)))
    | _ => None
    end |}.
Lemma demo_cf_lifecycle_codec_laws : @TokenCodecLaws LifecycleMutationToken demo_cf_lifecycle_codec.
Proof.
  split; intros [v c e r m]; unfold to_json, from_json, demo_cf_lifecycle_codec.
  - rewrite dec_enc_fields. destruct m as [z a q|z|z []]; cbn; by rewrite !str_z_str.
  - apply esc_nonempty.
Qed.

(** Bytes in base 16, in letters. *)
Definition nibble (n : N) : ascii := ascii_of_N (97 + n).
Fixpoint demo_encode (s : string) : string :=
  match s with
  | EmptyString => EmptyString
  | String c s => String (nibble (N_of_ascii c / 16)) (String (nibble (N_of_ascii c mod 16)) (demo_encode s))
  end.
Fixpoint demo_decode (s : string) : option string :=
  match s with
  | EmptyString => Some EmptyString
  | String a (String b s) =>
      s ← demo_decode s; Some (String (ascii_of_N ((N_of_ascii a - 97) * 16 + (N_of_ascii b - 97))) s)
  | _ => None
  end.
Definition demo_text_crypto : Crypto := {|
  hmac_sha256 := λ _ _, "oooooooooooooooooooooooooooooooo";
  sha256_b64 := demo_encode; b64_encode := demo_encode; b64_decode := demo_decode |}.
Lemma demo_encode_size s : String.length (demo_encode s) = 2 * String.length s.
Proof. induction s as [|c s IH]; [done|]. cbn. rewrite IH. lia. Qed.
Lemma demo_encode_alphabet s : str_all url_safe (demo_encode s) = true.
Proof.
  induction s as [|c s IH]; [done|]. cbn. rewrite IH, andb_true_r. by destruct c as [[] [] [] [] [] [] [] []].
Qed.
(** A field is as long as its text where nothing is escaped. *)
Lemma esc_size s rest rest' :
  String.length (esc s rest) + String.length rest' = String.length (esc s rest') + String.length rest.
Proof.
  induction s as [|c s IH]; cbn [esc]; [cbn; lia|]. destruct (_ || _); cbn [String.length]; lia.
Qed.
Lemma esc_plain s rest :
  str_all (λ c, url_safe c) s = true → String.length (esc s rest) = S (String.length s + String.length rest).
Proof.
  induction s as [|c s IH]; [done|]. cbn [str_all esc]. intros [Hc Hs]%andb_true_iff.
  assert (Ascii.eqb c ch_comma || Ascii.eqb c ch_backslash = false) as ->.
  { revert c Hc. clear. intros c. by destruct c as [[] [] [] [] [] [] [] []]. }
  cbn [String.length]. rewrite IH by done. lia.
Qed.
Lemma identifier_url_safe z : valid_cloudflare_identifier z = true → str_all url_safe z = true ∧ String.length z = 32.
Proof.
  unfold valid_cloudflare_identifier, str_len. intros [Hl%Z.eqb_eq Hz]%andb_true_iff. split; [|lia].
  eapply str_all_mono; [|exact Hz]. apply byte_implies. by vm_compute.
Qed.
Lemma enc_fields_size pre post post' :
  String.length (enc_fields post) = String.length (enc_fields post') →
  String.length (enc_fields (pre ++ post)) = String.length (enc_fields (pre ++ post')).
Proof.
  intros Hp. induction pre as [|s pre IH]; [done|]. cbn [app enc_fields].
  pose proof (esc_size s (enc_fields (pre ++ post)) (enc_fields (pre ++ post'))). lia.
Qed.
Lemma demo_token_sizes : @TokenSizes demo_text_crypto demo_cf_lifecycle_codec.
Proof.
  split; [done| |apply demo_encode_alphabet|].
  - intros s t Hst. cbn. by rewrite !demo_encode_size, Hst.
  - intros v c e r r' z z' a q Hr Hs Hs' [Hz Hl]%identifier_url_safe [Hz' Hl']%identifier_url_safe.
    cbn [to_json demo_cf_lifecycle_codec lt_version lt_center_scope lt_external_scope lt_resource_scope lt_mutation mutation_fields].
    apply (enc_fields_size [z_str v; c; e] (r :: _) (r' :: _)). cbn [enc_fields].
    rewrite (esc_plain r), (esc_plain r') by done.
    change (S (String.length r + String.length (esc "c" (esc z (esc a (esc q "")))))
          = S (String.length r' + String.length (esc "c" (esc z' (esc a (esc q "")))))).
    rewrite !(esc_plain "c"), (esc_plain z), (esc_plain z') by done. lia.
Qed.

Definition demo_revision : string := "sha256:" +:+ demo_cf_digest demo_provider_zone None demo_stored_records.
Definition demo_deletion : ZoneDeletionRequest :=
  mkDeletionRequest demo_cf_zone demo_revision (mkApproval demo_revision demo_cf_zone "operator" "today" []).
Definition demo_creation : ZoneCreationRequest :=
  mkCreation "account-a" Cloudflare "example.com" Public "request-1".
Definition demo_lifecycle_answer (X : Type) (e : cf_call X) (t : list cf_event) : X * list cf_event :=
  let x := match e in cf_call X return X with
           | DeleteZone zone_id => Ok zone_id
           | CreateZone _ => Ok demo_provider_zone
           | e => (demo_honest_answer _ e demo_state).1
           end in (x, t ++ [Ev e x]).
Lemma demo_lifecycle_traced X (e : cf_call X) t x t' : demo_lifecycle_answer X e t = (x, t') → traced X e t x t'.
Proof. by intros [= <- <-]. Qed.
Definition demo_delete := run demo_lifecycle_answer (@delete_zone demo_idna demo_text_crypto demo_cf_digest
  demo_cf_lifecycle_codec demo_write_adapter demo_deletion) [].
Definition demo_create := run demo_lifecycle_answer (@create_zone demo_text_crypto
  demo_cf_lifecycle_codec demo_write_adapter demo_creation) [].

Lemma cloudflare_lifecycle_guarded_witness :
  ((∃ receipt, demo_delete.1 = Ok receipt) ∧
   ∃ u answer, demo_delete.2 = u ++ [Ev (DeleteZone (zr_zone_id demo_cf_zone)) answer] ∧ reads u ∧
     @deletion_evidence demo_idna demo_cf_digest demo_write_adapter demo_deletion u) ∧
  ∃ receipt, mr_state receipt = MutPending ∧ demo_create.1 = Ok receipt.
Proof.
  assert (∃ receipt, demo_delete.1 = Ok receipt) as [receipt Hok] by (eexists; vm_compute; reflexivity).
  assert (∃ receipt, demo_create.1 = Ok receipt) as [created Hcreated] by (eexists; vm_compute; reflexivity).
  split; [split; [by exists receipt|]|].
  - destruct (@cloudflare_lifecycle_guarded demo_idna demo_records_digest demo_text_crypto demo_cf_digest
      demo_cf_lifecycle_codec demo_token_sizes demo_write_adapter demo_delete.1 demo_delete.2) as [Hd _].
    destruct (Hd demo_deletion) as [[_ [e He]]|(u&answer&receipt'&Ht&Hu&Hev&_)].
    + apply (run_exec _ demo_lifecycle_answer); [exact demo_lifecycle_traced|]. apply surjective_pairing.
    + rewrite Hok in He. discriminate He.
    + exists u, answer. split; [exact Ht|]. split; [exact Hu|exact Hev].
  - destruct (@cloudflare_lifecycle_guarded demo_idna demo_records_digest demo_text_crypto demo_cf_digest
      demo_cf_lifecycle_codec demo_token_sizes demo_write_adapter demo_create.1 demo_create.2) as (_&_&Hc).
    destruct (Hc demo_creation) as [[_ [e He]]|(keys&answer&_&Ht&_&_&Ha)].
    + apply (run_exec _ demo_lifecycle_answer); [exact demo_lifecycle_traced|]. apply surjective_pairing.
    + rewrite Hcreated in He. discriminate He.
    + destruct answer as [zone|e]; [|rewrite Hcreated in Ha; discriminate Ha].
      destruct Ha as [(_&receipt'&Hs&_&Hr)|[_ [code Hr]]]; [exists receipt'; split; [exact Hs|exact Hr]|].
      rewrite Hcreated in Hr. discriminate Hr.
Defined.

Definition demo_issued : ZoneLifecycleMutationReceipt :=
  match @lifecycle_receipt demo_keyed_crypto demo_cf_lifecycle_codec (demo_cf_adapter "old" None)
    (MutDelete (zr_zone_id demo_cf_zone)) MutPending with
  | Ok receipt => receipt
  | Err _ => mkMutationReceipt "" MutFailed
  end.
Definition demo_lifecycle_token : LifecycleMutationToken :=
  match @lifecycle_token demo_keyed_crypto (demo_cf_adapter "old" None) "old" (MutDelete (zr_zone_id demo_cf_zone)) with
  | Ok token => token
  | Err _ => mkLifecycleToken 0 "" "" "" (MutDelete "")
  end.

Lemma cloudflare_mutation_roundtrip_witness :
  @observe_mutation demo_idna demo_keyed_crypto demo_cf_lifecycle_codec (demo_cf_adapter "new" (Some "old"))
    (mr_mutation_id demo_issued) =
  pbind (@mutation_state demo_idna (demo_cf_adapter "new" (Some "old")) (MutDelete (zr_zone_id demo_cf_zone)))
    (λ state, try? state := state in
       Ret (@lifecycle_receipt demo_keyed_crypto demo_cf_lifecycle_codec (demo_cf_adapter "new" (Some "old"))
         (MutDelete (zr_zone_id demo_cf_zone)) state)).
Proof.
  apply (@cloudflare_mutation_roundtrip demo_idna demo_keyed_crypto demo_keyed_crypto_laws demo_cf_digest
    demo_cf_lifecycle_codec demo_cf_lifecycle_codec_laws (demo_cf_adapter "old" None)
    (demo_cf_adapter "new" (Some "old")) (demo_cf_adapter "old" None) (mkMutationRing "old" None)
    (mkMutationRing "new" (Some "old")) (MutDelete (zr_zone_id demo_cf_zone)) demo_lifecycle_token MutPending demo_issued).
  - reflexivity.
  - reflexivity.
  - split; [done|done|eexists _, _; split_and!; [done|done|]]. right. split; [done|]. apply demo_separate.
  - vm_compute. reflexivity.
  - split; vm_compute; discriminate.
  - vm_compute. reflexivity.
Defined.
