(* ===== verification/CloudflareWriter.v ===== *)
(** * CloudflareWriter: the synchronous Cloudflare writer

    [CloudflareDnsSyncWriter] of [crates/center-adapter-cloudflare/src/lib.rs]:
    a surface without cursors or tokens, whose calls return the provider's
    validated resource directly.  The theorems show that a zone is deleted only by
    consuming the proof of one preflight of the same writer, which found the zone
    empty and unsigned at the expected revision, and that a record change is
    reported as done only after it was observed. *)

From Stdlib Require Import ZArith Ascii String Lia.
From S2P Require Import Prelude Text Core Effects BTree NetAddr Dns DnsChange ZoneLifecycle ProviderErrors RecordValues Tokens CloudAccounts CloudflareModel CloudflareInventory CloudflarePlan CloudflareTokens CloudflareAdapter CloudflareLifecycle.

Record CloudflareDnsSyncWriter := mkWriter {
  cw_center_account_id : string;
  cw_cloudflare_account_id : string;
  cw_instance : nat;                         (* the identity of the [Arc] *)
}.
Inductive CloudflareDnsSyncRecordOutcome := OutcomePresent (record : ObservedDnsRecordSet) | OutcomeDeleted.
Record CloudflareDnsSyncZoneDeleteGuard := mkGuard {
  gd_zone_id : string;
  gd_writer_instance : nat;
}.

Definition CloudflareDnsSyncWriter_new (instance : nat) (center_account_id : string) (account : ProviderAccountSpec) :
    DnsProviderResult CloudflareDnsSyncWriter :=
  let? _ := or_invalid "invalid_provider_account_id" (CloudResourceId_validate center_account_id) in
  let? _ := or_invalid "invalid_provider_account" (ProviderAccountSpec_validate account) in
  if negb (bool_decide (as_provider account = Cloudflare)) then Err (validation "cloudflare_provider_required")
  else
    let? scope := ok_or (validation "cloudflare_account_scope_required") (as_scope account) in
    match scope with
    | ScopeAws _ => Err (validation "cloudflare_account_scope_mismatch")
    | ScopeCloudflare account_id =>
        if negb (valid_cloudflare_identifier account_id) then Err (validation "invalid_cloudflare_account_id")
        else Ok (mkWriter center_account_id account_id instance)
    end.

Section writer.
Context `{Idna, RecordsDigest}.
Context (self : CloudflareDnsSyncWriter).

(** ** Zones *)

(** What [create_zone] does with the provider's answer. *)
Definition accept_zone (apex : string) (created : CloudflareZone) : DnsProviderResult ObservedCloudflareZone :=
  let mismatch := unknown_outcome "cloudflare_create_zone_result_mismatch" in
  if negb (String.eqb (cz_account_id created) (cw_cloudflare_account_id self))
     || negb (String.eqb (cz_name created) apex) || negb (bool_decide (cz_kind created = KindFull))
     || (zlen (cz_name_servers created) =? 0)%Z || negb (valid_cloudflare_identifier (cz_id created))
  then Err mismatch
  else
    let? observed := map_err (λ _, mismatch)
      (map_zone_inventory_for_account (cw_center_account_id self) (cw_cloudflare_account_id self) created) in
    if negb (String.eqb (zr_apex (oc_zone observed)) apex)
       || negb (bool_decide (zr_visibility (oc_zone observed) = Public))
    then Err mismatch else Ok observed.

Definition create_zone (apex : string) : prog cf_call (DnsProviderResult ObservedCloudflareZone) :=
  created <~ CreateZone (mkCfCreateZone (cw_cloudflare_account_id self) apex KindFull) ;;
  try? created := created in
  Ret (accept_zone apex created).

Definition observe_zone (zone_id : string) : prog cf_call (DnsProviderResult (option ObservedCloudflareZone)) :=
  try? _ := or_invalid "invalid_cloudflare_zone_id" (DnsZoneId_validate zone_id) in
  if negb (valid_cloudflare_identifier zone_id) then Ret (Err (validation "invalid_cloudflare_zone_id"))
  else
    zone <~ GetZone zone_id ;;
    try? zone := zone in
    Ret (transpose (map_zone_inventory_for_account (cw_center_account_id self) (cw_cloudflare_account_id self)) zone).

(** The checks of [preflight_zone_delete] on the zone itself. *)
Definition check_zone (expected_apex expected_revision : string) (provider_zone : CloudflareZone) :
    DnsProviderResult () :=
  let? observed := map_zone_inventory_for_account (cw_center_account_id self) (cw_cloudflare_account_id self)
                     provider_zone in
  if negb (String.eqb (zr_apex (oc_zone observed)) expected_apex)
  then Err (conflict "cloudflare_zone_name_confirmation_mismatch")
  else if negb (bool_decide (zr_visibility (oc_zone observed) = Public))
  then Err (validation "cloudflare_zone_scope_mismatch")
  else if negb (bool_decide (oc_revision observed = Some expected_revision))
  then Err (conflict "cloudflare_zone_revision_conflict") else Ok tt.

Definition default_record (expected_apex : string) (record : CloudflareRecord) : bool :=
  String.eqb (cr_name record) expected_apex && (is_soa (cr_value record) || is_ns (cr_value record)).

Definition preflight_zone_delete (zone_id expected_apex expected_revision : string) :
    prog cf_call (DnsProviderResult CloudflareDnsSyncZoneDeleteGuard) :=
  try? _ := or_invalid "invalid_cloudflare_zone_id" (DnsZoneId_validate zone_id) in
  try? _ := or_invalid "invalid_cloudflare_zone_revision" (DnsRecordRevision_validate expected_revision) in
  if negb (valid_cloudflare_identifier zone_id) then Ret (Err (validation "invalid_cloudflare_zone_id"))
  else
    provider_zone <~ GetZone zone_id ;;
    try? provider_zone := provider_zone in
    try? provider_zone := ok_or (not_found "cloudflare_zone_not_found") provider_zone in
    try? _ := check_zone expected_apex expected_revision provider_zone in
    pbind (record_pages zone_id Ok) (λ records,
      try? records := records in
      if existsb (λ record, negb (default_record expected_apex record)) records
      then Ret (Err (conflict "cloudflare_zone_not_empty"))
      else
        dnssec <~ GetDnssec zone_id ;;
        try? dnssec := dnssec in
        try? dnssec := map_dnssec_observation dnssec in
        if negb (bool_decide (do_state dnssec ∈ [DsDisabled; DsUnsupported]))
        then Ret (Err (conflict "cloudflare_zone_dnssec_not_disabled"))
        else Ret (Ok (mkGuard zone_id (cw_instance self)))).

Definition delete_zone (guard : CloudflareDnsSyncZoneDeleteGuard) : prog cf_call (DnsProviderResult ()) :=
  if negb (Nat.eqb (cw_instance self) (gd_writer_instance guard))
  then Ret (Err (validation "cloudflare_zone_delete_guard_scope_mismatch"))
  else
    ack <~ DeleteZone (gd_zone_id guard) ;;
    try? ack := ack in
    if negb (String.eqb ack (gd_zone_id guard))
    then Ret (Err (unknown_outcome "cloudflare_delete_zone_result_mismatch")) else Ret (Ok tt).

(** ** Records *)

Definition validate_zone_ref (zone : DnsZoneRef) : DnsProviderResult () :=
  let? _ := or_invalid "invalid_zone" (DnsZoneRef_validate zone) in
  if negb (bool_decide (zr_provider zone = Cloudflare))
     || negb (String.eqb (zr_provider_account_id zone) (cw_center_account_id self))
     || negb (bool_decide (zr_visibility zone = Public))
     || negb (valid_cloudflare_identifier (zr_zone_id zone))
  then Err (validation "cloudflare_zone_scope_mismatch") else Ok tt.

Definition all_records (zone : DnsZoneRef) : prog cf_call (DnsProviderResult (list ObservedDnsRecordSet)) :=
  try? _ := validate_zone_ref zone in
  provider_zone <~ GetZone (zr_zone_id zone) ;;
  try? provider_zone := provider_zone in
  try? provider_zone := ok_or (not_found "cloudflare_zone_not_found") provider_zone in
  try? observed_zone := map_zone_for_account (cw_center_account_id self) (cw_cloudflare_account_id self)
                          provider_zone in
  if negb (bool_decide (oz_zone observed_zone = zone))
  then Ret (Err (validation "cloudflare_zone_identity_mismatch"))
  else pbind (record_pages (zr_zone_id zone) record_limit) (λ records,
    try? records := records in Ret (aggregate_records zone records)).

Definition observe_record_set (zone : DnsZoneRef) (key : DnsRecordSetKey) :
    prog cf_call (DnsProviderResult (option ObservedDnsRecordSet)) :=
  try? _ := or_invalid "invalid_record_key" (DnsRecordSetKey_validate key) in
  pbind (all_records zone) (λ records, try? records := records in
    Ret (Ok (head (base.filter (λ r, rs_key (ob_record_set r) = key) records)))).

(** The last [match] of [apply_record_change]. *)
Definition confirm (expected : option ProviderDnsRecordSet) (observed : option ObservedDnsRecordSet) :
    DnsProviderResult CloudflareDnsSyncRecordOutcome :=
  let mismatch := unknown_outcome "cloudflare_record_post_observation_mismatch" in
  match expected, observed with
  | Some expected, Some observed =>
      if bool_decide (ob_record_set observed = expected) then Ok (OutcomePresent observed) else Err mismatch
  | None, None => Ok OutcomeDeleted
  | _, _ => Err mismatch
  end.

Definition apply_record_change (zone : DnsZoneRef) (change : DnsRecordChange) :
    prog cf_call (DnsProviderResult CloudflareDnsSyncRecordOutcome) :=
  try? _ := validate_zone_ref zone in
  try? _ := or_invalid "invalid_dns_changes" (validate_dns_changes zone [change]) in
  pbind (all_records zone) (λ current,
    try? current := current in
    try? request := plan_batch [change] current in
    result <~ BatchRecords (zr_zone_id zone) request ;;
    try? result := result in
    try? _ := validate_batch_result zone [change] request result in
    pbind (observe_record_set zone (change_key change)) (λ observed,
      try? observed := map_err (λ _, unknown_outcome "cloudflare_record_post_observation_failed") observed in
      Ret (confirm (desired_record_set change) observed))).
End writer.

(** ** What a run does *)

Section exhaustion.
Context {T U : Type} (list_page : Z → cf_call (DnsProviderResult (CloudflarePage T))).
Context (per_page max_pages max_items : Z) (page_limit item_limit : string) (absorb : T → DnsProviderResult U).

(** The last page that may be asked for ends the loop, because a listing of more
    pages is refused: what the loop falls through to does not matter. *)
Lemma pages_loop_exhausted {S} (H : ∀ X, cf_call X → S → X → S → Prop) exhausted exhausted' n page expected items
    s r s' :
  0 < n → (Z.of_nat n + page = max_pages + 1)%Z →
  exec H (pages_loop list_page per_page max_pages max_items page_limit item_limit absorb exhausted n page expected items)
    s r s' →
  exec H (pages_loop list_page per_page max_pages max_items page_limit item_limit absorb exhausted' n page expected items)
    s r s'.
Proof.
  revert page expected items s. induction n as [|n IH]; intros page expected items s Hn Hp; [lia|].
  cbn [pages_loop exec]. intros (x&s1&Hx&He). exists x, s1. split; [done|].
  destruct x as [result|]; [|done]. destruct (validate_provider_page _ _ _); [|done].
  destruct (Z.ltb_spec max_pages (cp_total_pages result)); [done|].
  destruct (validate_stable_total_pages _ _); [|done]. destruct (collect _ _); [|done].
  destruct (_ <? _)%Z; [done|]. destruct (Z.leb_spec (cp_total_pages result) page); [done|].
  apply (IH (page + 1)%Z); [lia|lia|done].
Qed.
End exhaustion.

Lemma record_pages_reads zone_id exhausted : calls_only is_read (record_pages zone_id exhausted).
Proof. by apply pages_loop_reads. Qed.

Lemma record_pages_exec zone_id exhausted t records t' :
  exec traced (record_pages zone_id exhausted) t (Ok records) t' →
  ∃ pages, t' = t ++ page_calls (λ page, ListRecords zone_id page PROVIDER_PAGE_SIZE) 1 pages ∧
    complete_listing PROVIDER_PAGE_SIZE pages ∧ records = listed pages.
Proof.
  intros He. apply (pages_loop_exhausted _ _ _ _ _ _ _ _ _ record_limit) in He; [|by apply Nat.ltb_lt|done].
  apply all_pages_exec in He as (pages&->&Hc&Hi); [|done]. apply collect_id in Hi. by exists pages.
Qed.

Section runs.
Context `{Idna, RecordsDigest}.
Context (self : CloudflareDnsSyncWriter).

(** What a preflight has seen of a zone. *)
Record preflighted (zone_id expected_apex expected_revision : string) (u : list cf_event) : Prop := {
  pr_evidence : ∃ provider_zone pages dnssec observation,
    u = zone_reads zone_id provider_zone pages ++ [Ev (GetDnssec zone_id) (Ok dnssec)] ∧
    check_zone self expected_apex expected_revision provider_zone = Ok tt ∧
    complete_listing PROVIDER_PAGE_SIZE pages ∧
    Forall (λ record, default_record expected_apex record = true) (listed pages) ∧
    map_dnssec_observation dnssec = Ok observation ∧ do_state observation ∈ [DsDisabled; DsUnsupported];
}.

Lemma preflight_reads zone_id apex revision : calls_only is_read (preflight_zone_delete self zone_id apex revision).
Proof.
  unfold preflight_zone_delete. destruct (or_invalid _ _); [|done]. destruct (or_invalid _ _); [|done].
  destruct (negb _); [done|]. split; [done|]. intros [[z|]|]; [|done|done]. cbn [ok_or].
  destruct (check_zone _ _ _ _); [|done]. apply calls_only_bind; [apply record_pages_reads|].
  intros [records|]; [|done]. destruct (existsb _ _); [done|]. split; [done|]. intros [d|]; [|done].
  destruct (map_dnssec_observation d); [|done]. by destruct (negb _).
Qed.

Lemma preflight_exec zone_id apex revision t guard t' :
  exec traced (preflight_zone_delete self zone_id apex revision) t (Ok guard) t' →
  guard = mkGuard zone_id (cw_instance self) ∧ ∃ u, t' = t ++ u ∧ preflighted zone_id apex revision u.
Proof.
  unfold preflight_zone_delete. destruct (or_invalid _ _); [|by intros [? _]].
  destruct (or_invalid _ _); [|by intros [? _]]. destruct (negb _); [by intros [? _]|].
  intros [pz He]%traced_step. destruct pz as [[pz|]|]; cbn [ok_or] in He; [|by destruct He..].
  destruct (check_zone self apex revision pz) as [[]|] eqn:Ec; [|by destruct He].
  apply exec_bind in He as (records&s1&Hr&He). destruct records as [records|]; [|by destruct He].
  apply record_pages_exec in Hr as (pages&->&Hc&->). destruct (existsb _ _) eqn:Ed; [by destruct He|].
  apply traced_step in He as [dnssec He]. destruct dnssec as [dnssec|]; [|by destruct He].
  destruct (map_dnssec_observation dnssec) as [observation|] eqn:Em; [|by destruct He].
  case_bool_decide as Hs; cbn [negb] in He; [|by destruct He]. destruct He as [[= ->] ->].
  split; [done|]. rewrite <- !app_assoc. eexists. split; [done|]. split.
  exists pz, pages, dnssec, observation. split_and!; try done. apply Forall_forall. intros x Hx.
  apply list_elem_of_In in Hx. destruct (default_record apex x) eqn:Ex; [done|]. exfalso.
  apply not_true_iff_false in Ed. apply Ed, existsb_exists. exists x. by rewrite Ex.
Qed.

Lemma writer_all_records_reads zone : calls_only is_read (all_records self zone).
Proof.
  unfold all_records. destruct (validate_zone_ref self zone); [|done]. split; [done|].
  intros [[z|]|]; [|done|done]. cbn [ok_or]. destruct (map_zone_for_account _ _ z); [|done].
  destruct (negb _); [done|]. apply calls_only_bind; [apply record_pages_reads|]. by intros [records|].
Qed.

Lemma writer_all_records_exec zone t current t' :
  exec traced (all_records self zone) t (Ok current) t' →
  ∃ provider_zone pages, t' = t ++ zone_reads (zr_zone_id zone) provider_zone pages ∧
    complete_listing PROVIDER_PAGE_SIZE pages ∧ aggregate_records zone (listed pages) = Ok current.
Proof.
  unfold all_records. destruct (validate_zone_ref self zone); [|by intros [? _]].
  intros [pz He]%traced_step. destruct pz as [[pz|]|]; cbn [ok_or] in He; [|by destruct He..].
  destruct (map_zone_for_account _ _ pz); [|by destruct He]. destruct (negb _); [by destruct He|].
  apply exec_bind in He as (records&s1&Hr&He). destruct records as [records|]; [|by destruct He].
  apply record_pages_exec in Hr as (pages&->&Hc&->). destruct He as [Ha ->].
  exists pz, pages. rewrite <- app_assoc. done.
Qed.

Lemma observe_record_set_exec zone key t o t' :
  exec traced (observe_record_set self zone key) t (Ok o) t' →
  ∃ provider_zone pages current, t' = t ++ zone_reads (zr_zone_id zone) provider_zone pages ∧
    complete_listing PROVIDER_PAGE_SIZE pages ∧ aggregate_records zone (listed pages) = Ok current ∧
    o = head (base.filter (λ r, rs_key (ob_record_set r) = key) current).
Proof.
  unfold observe_record_set. destruct (or_invalid _ _); [|by intros [? _]].
  intros (current&s1&Hc&He)%exec_bind. destruct current as [current|]; [|by destruct He].
  apply writer_all_records_exec in Hc as (pz&pages&->&Hc&Ha). destruct He as [[= ->] ->].
  by exists pz, pages, current.
Qed.
Lemma observe_record_set_reads zone key : calls_only is_read (observe_record_set self zone key).
Proof.
  unfold observe_record_set. destruct (or_invalid _ _); [|done].
  apply calls_only_bind; [apply writer_all_records_reads|]. by intros [current|].
Qed.

(** What an observation confirms of a change. *)
Definition confirmed (change : DnsRecordChange) (current : list ObservedDnsRecordSet)
    (r : DnsProviderResult CloudflareDnsSyncRecordOutcome) : Prop :=
  match desired_record_set change with
  | Some desired => ∃ o, o ∈ current ∧ ob_record_set o = desired ∧ r = Ok (OutcomePresent o)
  | None => r = Ok OutcomeDeleted ∧ ∀ o, o ∈ current → rs_key (ob_record_set o) ≠ change_key change
  end.

Lemma confirm_outcome change current :
  let o := head (base.filter (λ r, rs_key (ob_record_set r) = change_key change) current) in
  confirmed change current (confirm (desired_record_set change) o) ∨
  is_unknown (confirm (desired_record_set change) o).
Proof.
  unfold confirmed, confirm. cbn zeta. destruct (desired_record_set change) as [d|].
  - destruct (base.filter _ current) as [|o l] eqn:Ef; cbn [head]; [right; by eexists|].
    case_bool_decide as Ho; [|right; by eexists]. left. exists o. split_and!; [|done|done].
    assert (o ∈ base.filter (λ r, rs_key (ob_record_set r) = change_key change) current) as Hin
      by (rewrite Ef; by left). by apply list_elem_of_filter in Hin as [_ ?].
  - destruct (base.filter _ current) as [|o l] eqn:Ef; cbn [head]; [|right; by eexists]. left. split; [done|].
    intros o Ho Hk. assert (o ∈ base.filter (λ r, rs_key (ob_record_set r) = change_key change) current) as Hin
      by by apply list_elem_of_filter. rewrite Ef in Hin. by apply not_elem_of_nil in Hin.
Qed.

Lemma apply_change_exec zone change t r t' :
  exec traced (apply_record_change self zone change) t r t' →
  ((∃ u, t' = t ++ u ∧ reads u) ∧ ∃ e, r = Err e) ∨
  ∃ provider_zone pages current request answer later,
    t' = t ++ zone_reads (zr_zone_id zone) provider_zone pages ++
           Ev (BatchRecords (zr_zone_id zone) request) answer :: later ∧
    reads later ∧ complete_listing PROVIDER_PAGE_SIZE pages ∧ aggregate_records zone (listed pages) = Ok current ∧
    validate_dns_changes zone [change] = Ok tt ∧ plan_batch [change] current = Ok request ∧
    match answer with
    | Err e => r = Err e ∧ later = []
    | Ok result => is_unknown r ∨
        ∃ after_zone after_pages after, later = zone_reads (zr_zone_id zone) after_zone after_pages ∧
          complete_listing PROVIDER_PAGE_SIZE after_pages ∧ aggregate_records zone (listed after_pages) = Ok after ∧
          validate_batch_result zone [change] request result = Ok tt ∧ confirmed change after r
    end.
Proof.
  unfold apply_record_change. destruct (validate_zone_ref self zone); [|intros ?%read_nothing; by left].
  destruct (validate_dns_changes zone [change]) as [[]|] eqn:Ev; cbn [or_invalid map_err];
    [|intros ?%read_nothing; by left].
  intros (current&s1&Hc&He)%exec_bind.
  destruct (exec_reads _ _ _ _ (writer_all_records_reads zone) Hc) as (u&Hu&Hr).
  destruct current as [current|]; [|left; subst s1; by eapply read_stop].
  destruct (plan_batch [change] current) as [request|] eqn:Ep; [|left; subst s1; by eapply read_stop].
  apply writer_all_records_exec in Hc as (pz&pages&->&Hcl&Ha). right.
  apply traced_step in He as [answer He]. exists pz, pages, current, request, answer.
  destruct answer as [result|e].
  2: { destruct He as [-> ->]. exists []. rewrite <- app_assoc. split_and!; done. }
  destruct (batch_result_outcome zone [change] request result) as [Hv|[code Hv]]; rewrite Hv in He.
  2: { destruct He as [-> ->]. exists []. rewrite <- app_assoc. split_and!; try done. left. by eexists. }
  apply exec_bind in He as (observed&s2&Ho&He).
  destruct (exec_reads _ _ _ _ (observe_record_set_reads zone _) Ho) as (later&->&Hlater). exists later.
  rewrite <- !app_assoc in He. destruct observed as [o|e]; destruct He as [-> ->]; split_and!; try done; [|left; by eexists].
  apply observe_record_set_exec in Ho as (pz'&pages'&after&Heq&Hcl'&Ha'&->). apply app_inv_head in Heq as ->.
  destruct (confirm_outcome change after) as [Hcf|?]; [right|by left]. by exists pz', pages', after.
Qed.
End runs.

(** Preflight by one writer, deletion by another (or the same). *)
Definition delete_checked `{Idna} (self other : CloudflareDnsSyncWriter)
    (zone_id expected_apex expected_revision : string) : prog cf_call (DnsProviderResult ()) :=
  pbind (preflight_zone_delete self zone_id expected_apex expected_revision) (λ guard,
    try? guard := guard in delete_zone other guard).

(** C37.  A zone is deleted only on the proof of a preflight.  Whatever the API
    answers, a run that preflights a zone with one writer and consumes the proof
    with another sends at most one mutation, the deletion of that zone, and only
    if both are the same writer and the preflight of the run saw the zone of the
    account with the confirmed apex and the expected revision, then every page of
    its records, with nothing but the SOA and NS records of the apex, and DNSSEC
    disabled or unsupported.  The provider's error is returned as it is, an
    acknowledgement of the zone is success, and any other acknowledgement an
    unknown outcome. *)
Theorem cloudflare_writer_delete_guarded `{Idna, RecordsDigest} (self other : CloudflareDnsSyncWriter)
    (zone_id expected_apex expected_revision : string) (r : DnsProviderResult ()) (trace : list cf_event) :
  exec traced (delete_checked self other zone_id expected_apex expected_revision) [] r trace →
  (reads trace ∧ ∃ e, r = Err e) ∨
  ∃ u answer, trace = u ++ [Ev (DeleteZone zone_id) answer] ∧ reads u ∧
    cw_instance other = cw_instance self ∧ preflighted self zone_id expected_apex expected_revision u ∧
    match answer with
    | Err e => r = Err e
    | Ok ack => if String.eqb ack zone_id then r = Ok tt else is_unknown r
    end.
Proof.
  unfold delete_checked. intros (guard&s1&Hp&He)%exec_bind.
  destruct (exec_reads _ _ _ _ (preflight_reads self zone_id expected_apex expected_revision) Hp) as (u&->&Hu).
  destruct guard as [guard|]; [|destruct He as [-> ->]; left; by eauto].
  apply preflight_exec in Hp as (->&u'&Heq&Hpr). apply app_inv_head in Heq as <-.
  unfold delete_zone in He. cbn [gd_writer_instance gd_zone_id] in He.
  destruct (Nat.eqb_spec (cw_instance other) (cw_instance self)) as [Hi|]; cbn [negb] in He;
    [|destruct He as [-> ->]; left; by eauto].
  right. apply traced_step in He as [answer He]. exists u, answer.
  destruct answer as [ack|e]; [|destruct He as [-> ->]; split_and!; done].
  destruct (String.eqb ack zone_id); cbn [negb] in He; destruct He as [-> ->]; split_and!; try done. by eexists.
Qed.

(** A record change is reported as done only after it was seen.  Whatever
    the API answers, a run sends at most one mutation, the batch planned for the
    change against a complete listing of the same run; none is sent when the
    result is not one of the below.  The provider's error is returned as it is.
    Once the provider accepted the batch the result is either an unknown outcome,
    or the provider's answer described the change and a second complete listing,
    made afterwards, holds exactly the desired record set, which is returned, or
    no record set of the identity when it was to be deleted. *)
Theorem cloudflare_writer_apply_confirmed `{Idna, RecordsDigest} (self : CloudflareDnsSyncWriter)
    (zone : DnsZoneRef) (change : DnsRecordChange) (r : DnsProviderResult CloudflareDnsSyncRecordOutcome)
    (trace : list cf_event) :
  exec traced (apply_record_change self zone change) [] r trace →
  (reads trace ∧ ∃ e, r = Err e) ∨
  ∃ provider_zone pages current request answer later,
    trace = zone_reads (zr_zone_id zone) provider_zone pages ++
              Ev (BatchRecords (zr_zone_id zone) request) answer :: later ∧
    reads later ∧ complete_listing PROVIDER_PAGE_SIZE pages ∧ aggregate_records zone (listed pages) = Ok current ∧
    guard_holds (index current) change ∧ plan_batch [change] current = Ok request ∧
    match answer with
    | Err e => r = Err e ∧ later = []
    | Ok result => is_unknown r ∨
        ∃ after_zone after_pages after, later = zone_reads (zr_zone_id zone) after_zone after_pages ∧
          complete_listing PROVIDER_PAGE_SIZE after_pages ∧ aggregate_records zone (listed after_pages) = Ok after ∧
          validate_batch_result zone [change] request result = Ok tt ∧ confirmed change after r
    end.
Proof.
  intros [[(u&->&Hu) Hr]|(pz&pages&current&request&answer&later&->&Hl&Hc&Ha&_&Hp&Hans)]%apply_change_exec;
    [by left|right].
  exists pz, pages, current, request, answer, later.
  pose proof (plan_batch_Ok _ _ _ Hp) as (Hg&_). apply Forall_cons in Hg as [Hg _]. split_and!; done.
Qed.

(** ** An empty zone is deleted, and a text record set replaced *)

Definition demo_writer : CloudflareDnsSyncWriter := mkWriter "account-a" "fedcba9876543210fedcba9876543210" 1.
Definition demo_revised_zone : CloudflareZone :=
  mkCfZone "0123456789abcdef0123456789abcdef" "fedcba9876543210fedcba9876543210" "example.com" KindFull ZoneActive
    ["ns.example.net"] (Some "rev-1").
Definition demo_empty_answer (X : Type) (e : cf_call X) (t : list cf_event) : X * list cf_event :=
  let x := match e in cf_call X return X with
           | DeleteZone zone_id => Ok zone_id
           | e => (demo_honest_answer _ e (mkCfProvider demo_revised_zone [])).1
           end in (x, t ++ [Ev e x]).
Lemma demo_empty_traced X (e : cf_call X) t x t' : demo_empty_answer X e t = (x, t') → traced X e t x t'.
Proof. by intros [= <- <-]. Qed.
Definition demo_checked := run demo_empty_answer
  (@delete_checked demo_idna demo_writer demo_writer (zr_zone_id demo_cf_zone) "example.com" "rev-1") [].

Lemma cloudflare_writer_delete_guarded_witness :
  demo_checked.1 = Ok tt ∧
  ∃ u answer, demo_checked.2 = u ++ [Ev (DeleteZone (zr_zone_id demo_cf_zone)) answer] ∧
    @preflighted demo_idna demo_writer (zr_zone_id demo_cf_zone) "example.com" "rev-1" u.
Proof.
  assert (demo_checked.1 = Ok tt) as Hok by (vm_compute; reflexivity). split; [exact Hok|].
  destruct (@cloudflare_writer_delete_guarded demo_idna demo_records_digest demo_writer demo_writer
    (zr_zone_id demo_cf_zone) "example.com" "rev-1" demo_checked.1 demo_checked.2)
    as [[_ [e He]]|(u&answer&Ht&_&_&Hp&_)].
  - apply (run_exec _ demo_empty_answer); [exact demo_empty_traced|]. apply surjective_pairing.
  - rewrite Hok in He. discriminate He.
  - exists u, answer. split; [exact Ht|exact Hp].
Defined.

(** The provider before and after, by the number of calls made. *)
Definition demo_change : DnsRecordChange := hd (CreateChange demo_cf_desired MustNotExist) demo_cf_changes.
Definition demo_twice_answer (X : Type) (e : cf_call X) (t : list cf_event) : X * list cf_event :=
  let x := (demo_honest_answer _ e (if Nat.ltb (length t) 3 then demo_state
              else mkCfProvider demo_provider_zone demo_posted)).1 in (x, t ++ [Ev e x]).
Lemma demo_twice_traced X (e : cf_call X) t x t' : demo_twice_answer X e t = (x, t') → traced X e t x t'.
Proof. by intros [= <- <-]. Qed.
Definition demo_confirmed := run demo_twice_answer
  (@apply_record_change demo_idna demo_records_digest demo_writer demo_cf_zone demo_change) [].

Lemma cloudflare_writer_apply_confirmed_witness :
  (∃ o, demo_confirmed.1 = Ok (OutcomePresent o)) ∧
  ∃ request answer before later, demo_confirmed.2 =
    before ++ Ev (BatchRecords (zr_zone_id demo_cf_zone) request) answer :: later.
Proof.
  assert (∃ o, demo_confirmed.1 = Ok (OutcomePresent o)) as [o Hok] by (eexists; vm_compute; reflexivity).
  split; [by exists o|].
  destruct (@cloudflare_writer_apply_confirmed demo_idna demo_records_digest demo_writer demo_cf_zone demo_change
    demo_confirmed.1 demo_confirmed.2) as [[_ [e He]]|(pz&pages&current&request&answer&later&Ht&_)].
  - apply (run_exec _ demo_twice_answer); [exact demo_twice_traced|]. apply surjective_pairing.
  - rewrite Hok in He. discriminate He.
  - exists request, answer. eexists _, later. exact Ht.
Defined.
