(* ===== verification/CloudflareDnsApi.v ===== *)
(** * CloudflareDnsApi: the Cloudflare DNS admin API

    [crates/center-app/src/api/cloudflare_dns.rs]: the sanitized zone and record
    projections with their validation, the desired state of a record set as a
    client sends it, the provenance tags, and the HTTP handlers over the service
    ports [CloudflareDnsAdminService] and [CloudflareDnsWriteAdminService]. *)

From Stdlib Require Import ZArith Ascii String Lia.
From S2P Require Import Prelude Text Core Identity Effects BTree NetAddr Dns DnsChange RecordValues Tokens.

Definition DEFAULT_PAGE_LIMIT : Z := 50.
Definition MAX_PAGE_LIMIT : Z := 100.
Definition MAX_NAMESERVERS : Z := 20.
Definition CLOUDFLARE_ZONE_ID_LEN : Z := 32.
Definition CLOUDFLARE_RECORD_ID_LEN : Z := 32.
Definition RESERVED_TAG_PREFIX : string := "edgion-center-".
Definition REMOTE_CONTROL_TAG_NAME : string := "edgion-center-remote".
Definition REMOTE_CALLER_ALIAS_LEN : Z := 43.
Definition REMOTE_CALLER_ALIAS_DOMAIN : string := "edgion-center/cloudflare-dns/remote-caller-alias/v1".

(** [byte.is_ascii_digit() || (b'a'..=b'f').contains(&byte)]. *)
Definition zone_id_byte (c : ascii) : bool := is_ascii_digit c || in_range 97 102 c.

(** ** Zones *)

Inductive CloudflareZoneKind := ApiFull | ApiPartial | ApiSecondary | ApiInternal.
#[export] Instance ApiZoneKind_eq_dec : EqDecision CloudflareZoneKind.
Proof. solve_decision. Defined.
Inductive CloudflareZoneStatus := ApiInitializing | ApiPending | ApiActive | ApiMoved.

Record CloudflareZoneDto := mkZoneDto {
  zd_provider_account_id : string;
  zd_zone_id : string;
  zd_name : string;
  zd_kind : CloudflareZoneKind;
  zd_status : CloudflareZoneStatus;
  zd_visibility : ZoneVisibility;
  zd_nameservers : list string;
  zd_revision : option string;
}.

Definition validate_cloudflare_zone_id (zone_id : string) : CoreResult () :=
  let? _ := DnsZoneId_validate zone_id in
  if negb (str_len zone_id =? CLOUDFLARE_ZONE_ID_LEN)%Z || negb (str_all zone_id_byte zone_id)
  then Err (InvalidIdentifier "Cloudflare zone ID" zone_id) else Ok tt.

Definition CloudflareZoneDto_validate (self : CloudflareZoneDto) : CoreResult () :=
  let? _ := CloudResourceId_validate (zd_provider_account_id self) in
  let? _ := validate_cloudflare_zone_id (zd_zone_id self) in
  let? _ := validate_option DnsRecordRevision_validate (zd_revision self) in
  let visibility_matches_kind :=
    match zd_kind self, zd_visibility self with
    | ApiInternal, Private => true
    | (ApiFull | ApiPartial | ApiSecondary), Public => true
    | _, _ => false
    end in
  if negb visibility_matches_kind
  then Err (Conflict "Cloudflare zone kind and visibility are inconsistent")
  else if (MAX_NAMESERVERS <? zlen (zd_nameservers self))%Z
  then Err (Conflict "Cloudflare zone nameserver projection exceeds its bound")
  else if negb (zlen (bts_of_list (zd_nameservers self)) =? zlen (zd_nameservers self))%Z
  then Err (Conflict "Cloudflare zone nameserver projection contains duplicates")
  else Ok tt.

(** [CloudflareZonePageRequest] and [CloudflareRecordPageRequest]. *)
Record CloudflarePageRequest := mkPageRequest {
  pq_limit : Z;                              (* u16 *)
  pq_cursor : option string;
}.
Record CloudflareZonePageDto := mkZonePageDto {
  zp_items : list CloudflareZoneDto;
  zp_next_cursor : option string;
}.

Fixpoint check_zone_items (account_id : string) (zone_ids : list string) (items : list CloudflareZoneDto) :
    CoreResult () :=
  match items with
  | [] => Ok tt
  | zone :: items =>
      let? _ := CloudflareZoneDto_validate zone in
      if negb (String.eqb (zd_provider_account_id zone) account_id) || bool_decide (zd_zone_id zone ∈ zone_ids)
      then Err (Conflict "Cloudflare zone page scope is inconsistent")
      else check_zone_items account_id (bts_insert (zd_zone_id zone) zone_ids) items
  end.
Definition CloudflareZonePageDto_validate (self : CloudflareZonePageDto) (account_id : string)
    (requested_limit : Z) : CoreResult () :=
  if (requested_limit <? zlen (zp_items self))%Z
  then Err (Conflict "Cloudflare zone page exceeds the requested limit")
  else
    let? _ := validate_option DnsPageToken_validate (zp_next_cursor self) in
    check_zone_items account_id [] (zp_items self).

(** ** Record data *)

Inductive CloudflareRecordType := RtA | RtAaaa | RtCname | RtTxt | RtMx | RtSrv | RtCaa | RtNs | RtSoa.
#[export] Instance CloudflareRecordType_eq_dec : EqDecision CloudflareRecordType.
Proof. solve_decision. Defined.

Definition CloudflareRecordType_parse (value : string) : option CloudflareRecordType :=
  let value := to_ascii_uppercase value in
  if String.eqb value "A" then Some RtA
  else if String.eqb value "AAAA" then Some RtAaaa
  else if String.eqb value "CNAME" then Some RtCname
  else if String.eqb value "TXT" then Some RtTxt
  else if String.eqb value "MX" then Some RtMx
  else if String.eqb value "SRV" then Some RtSrv
  else if String.eqb value "CAA" then Some RtCaa
  else if String.eqb value "NS" then Some RtNs
  else if String.eqb value "SOA" then Some RtSoa
  else None.

Definition CloudflareRecordType_core (t : CloudflareRecordType) : ProviderDnsRecordType :=
  match t with
  | RtA => TA | RtAaaa => TAaaa | RtCname => TCname | RtTxt => TTxt | RtMx => TMx | RtSrv => TSrv
  | RtCaa => TCaa | RtNs => TNs | RtSoa => TSoa
  end.

Inductive CloudflareRecordTtlDto := DtoAutomatic | DtoSeconds (seconds : Z).
#[export] Instance CloudflareRecordTtlDto_eq_dec : EqDecision CloudflareRecordTtlDto.
Proof. solve_decision. Defined.
Definition CloudflareRecordTtlDto_core (t : CloudflareRecordTtlDto) : DnsTtl :=
  match t with DtoAutomatic => Automatic | DtoSeconds seconds => Seconds seconds end.

(** Octets in base64url; the only field is [base64]. *)
Record CloudflareOctetsDto := mkOctets { base64 : string }.

Inductive CloudflareRecordValueDto :=
| DtoA (address : Ipv4Addr)
| DtoAaaa (address : Ipv6Addr)
| DtoCname (target : string)
| DtoTxt (segments : list CloudflareOctetsDto)
| DtoMx (preference : Z) (exchange : string)
| DtoSrv (priority weight port : Z) (target : string)
| DtoCaa (flags : Z) (tag : string) (value : CloudflareOctetsDto)
| DtoNs (target : string)
| DtoSoa (primary_name_server responsible_mailbox : string) (serial refresh retry expire minimum : Z).

Section values.
Context `{Crypto}.

Definition CloudflareOctetsDto_decode (self : CloudflareOctetsDto) : CoreResult (list Z) :=
  let? decoded := ok_or (Conflict "Cloudflare DNS octets are not valid base64url") (b64_decode (base64 self)) in
  if negb (String.eqb (b64_encode decoded) (base64 self))
  then Err (Conflict "Cloudflare DNS octets are not canonical base64url") else Ok (str_bytes decoded).

Definition decode_segment (value : CloudflareOctetsDto) : CoreResult (list Z) :=
  let? bytes := CloudflareOctetsDto_decode value in DnsCharacterString_new bytes.

Definition CloudflareRecordValueDto_core (self : CloudflareRecordValueDto) : CoreResult DnsRecordSetValue :=
  match self with
  | DtoA address => Ok (VA address)
  | DtoAaaa address => Ok (VAaaa address)
  | DtoCname target => Ok (VCname target)
  | DtoTxt segments =>
      let? segments := collect decode_segment segments in
      let? value := DnsTxtValue_new segments in Ok (VTxt value)
  | DtoMx preference exchange => Ok (VMx preference exchange)
  | DtoSrv priority weight port target => Ok (VSrv priority weight port target)
  | DtoCaa flags tag value => let? value := decode_segment value in Ok (VCaa flags tag value)
  | DtoNs target => Ok (VNs target)
  | DtoSoa primary mailbox serial refresh retry expire minimum =>
      Ok (VSoa primary mailbox serial refresh retry expire minimum)
  end.

(** [.map(CloudflareRecordValueDto::core).collect::<CoreResult<BTreeSet<_>>>()]. *)
Definition core_values (values : list CloudflareRecordValueDto) : CoreResult (list DnsRecordSetValue) :=
  let? values := collect CloudflareRecordValueDto_core values in Ok (bts_of_list values).
End values.

Record CloudflareRecordSetKey := mkApiKey {
  ak_owner : string;
  ak_record_type : CloudflareRecordType;
}.
Definition CloudflareRecordSetKey_core (self : CloudflareRecordSetKey) : DnsRecordSetKey :=
  mkKey (ak_owner self) (CloudflareRecordType_core (ak_record_type self)) RSimple.

(** ** Provenance tags *)

Inductive CloudflareRecordControlDto := Manual | Remote (caller_alias : string) | InvalidRemoteMarker.
#[export] Instance CloudflareRecordControlDto_eq_dec : EqDecision CloudflareRecordControlDto.
Proof. solve_decision. Defined.

Definition is_reserved_cloudflare_record_tag (tag : string) : bool :=
  starts_with RESERVED_TAG_PREFIX
    (to_ascii_lowercase match split_once ch_colon tag with Some (name, _) => name | None => tag end).

Definition valid_remote_caller_alias (value : string) : bool :=
  (str_len value =? REMOTE_CALLER_ALIAS_LEN)%Z && str_all ldh_underscore value.

(** The state of the loop of [split_cloudflare_record_tags]. *)
Record split_state := mkSplit {
  sp_tags : list string;
  sp_remote_alias : option string;
  sp_invalid_marker : bool;
}.
Definition split_tag (s : split_state) (tag : string) : split_state :=
  match split_once ch_colon tag with
  | None =>
      if is_reserved_cloudflare_record_tag tag then mkSplit (sp_tags s) (sp_remote_alias s) true
      else mkSplit (sp_tags s ++ [tag]) (sp_remote_alias s) (sp_invalid_marker s)
  | Some (name, value) =>
      if negb (starts_with RESERVED_TAG_PREFIX (to_ascii_lowercase name))
      then mkSplit (sp_tags s ++ [tag]) (sp_remote_alias s) (sp_invalid_marker s)
      else if negb (String.eqb name REMOTE_CONTROL_TAG_NAME) || negb (valid_remote_caller_alias value)
      then mkSplit (sp_tags s) (sp_remote_alias s) true
      else mkSplit (sp_tags s) (Some value) (sp_invalid_marker s || bool_decide (is_Some (sp_remote_alias s)))
  end.
(** [raw] is a [BTreeSet]; the result is never an error. *)
Definition split_cloudflare_record_tags (raw : list string) : list string * CloudflareRecordControlDto :=
  let s := foldl split_tag (mkSplit [] None false) raw in
  (sp_tags s,
   if sp_invalid_marker s then InvalidRemoteMarker
   else match sp_remote_alias s with Some caller_alias => Remote caller_alias | None => Manual end).

(** ** Record sets *)

Record CloudflareRecordSetDto := mkRecordDto {
  rd_provider_account_id : string;
  rd_zone_id : string;
  rd_zone_apex : string;
  rd_zone_visibility : ZoneVisibility;
  rd_owner : string;
  rd_record_type : CloudflareRecordType;
  rd_ttl : CloudflareRecordTtlDto;
  rd_values : list CloudflareRecordValueDto;
  rd_proxy : option CloudflareProxyOptions;
  rd_cname_flattening : CloudflareCnameFlattening;
  rd_comment : option string;
  rd_tags : list string;
  rd_control : CloudflareRecordControlDto;
  rd_provider_object_ids : list string;
  rd_revision : string;
}.

Definition proxy_capable (t : CloudflareRecordType) : bool := type_in (CloudflareRecordType_core t) proxiable.
Definition ttl_out_of_range (t : CloudflareRecordTtlDto) : bool :=
  match t with
  | DtoSeconds seconds => negb ((30 <=? seconds)%Z && (seconds <=? 86400)%Z)
  | DtoAutomatic => false
  end.

(** The record set that a projection or a request describes: an extension only
    where the record can be proxied or there is metadata to say. *)
Definition described_extension (record_type : CloudflareRecordType) (proxy : option CloudflareProxyOptions)
    (cname_flattening : CloudflareCnameFlattening) (comment : option string) (tags : list string) :
    option DnsRecordExtension :=
  let has_metadata := bool_decide (is_Some comment) || negb (zlen tags =? 0)%Z in
  if proxy_capable record_type || has_metadata || negb (bool_decide (cname_flattening = ProviderDefault))
  then Some (ExtCloudflare proxy cname_flattening comment tags) else None.

Definition invalid_record_object_id (object_id : string) : bool :=
  negb (str_len object_id =? CLOUDFLARE_RECORD_ID_LEN)%Z || negb (str_all zone_id_byte object_id).

(** [for object_id in &object_ids]. *)
Fixpoint check_object_ids (object_ids : list string) : CoreResult () :=
  match object_ids with
  | [] => Ok tt
  | object_id :: object_ids =>
      let? _ := DnsRecordObjectId_validate object_id in
      if invalid_record_object_id object_id
      then Err (Conflict "Cloudflare RRset contains an invalid provider object ID")
      else check_object_ids object_ids
  end.

Section record_sets.
Context `{Crypto}.

Definition CloudflareRecordSetDto_validate (self : CloudflareRecordSetDto) : CoreResult () :=
  let? _ := CloudResourceId_validate (rd_provider_account_id self) in
  let? _ := validate_cloudflare_zone_id (rd_zone_id self) in
  let? _ := DnsRecordRevision_validate (rd_revision self) in
  let? values := core_values (rd_values self) in
  if negb (zlen values =? zlen (rd_values self))%Z
  then Err (Conflict "Cloudflare RRset contains duplicate values")
  else if ttl_out_of_range (rd_ttl self)
  then Err (Conflict "Cloudflare RRset TTL is outside the provider range")
  else
    let tags := bts_of_list (rd_tags self) in
    if negb (zlen tags =? zlen (rd_tags self))%Z then Err (Conflict "Cloudflare RRset contains duplicate tags")
    else if existsb is_reserved_cloudflare_record_tag tags
            || match rd_control self with
               | Remote caller_alias => negb (valid_remote_caller_alias caller_alias)
               | _ => false
               end
    then Err (Conflict "Cloudflare RRset control projection is invalid")
    else
      let object_ids := bts_of_list (rd_provider_object_ids self) in
      if negb (zlen object_ids =? zlen (rd_provider_object_ids self))%Z || (zlen object_ids =? 0)%Z
      then Err (Conflict "Cloudflare RRset object IDs are invalid")
      else
        let? _ := check_object_ids object_ids in
        let zone := {| zr_provider_account_id := rd_provider_account_id self; zr_provider := Cloudflare;
                       zr_zone_id := rd_zone_id self; zr_apex := rd_zone_apex self;
                       zr_visibility := rd_zone_visibility self |} in
        let extension := described_extension (rd_record_type self) (rd_proxy self) (rd_cname_flattening self)
                           (rd_comment self) tags in
        if bool_decide (extension = None) && bool_decide (is_Some (rd_proxy self))
        then Err (Conflict "Cloudflare proxy state is invalid for this RRset")
        else
          ProviderDnsRecordSet_validate
            (mkRecordSet (mkKey (rd_owner self) (CloudflareRecordType_core (rd_record_type self)) RSimple)
               (CloudflareRecordTtlDto_core (rd_ttl self)) values extension) zone.

Definition matches_scope (self : CloudflareRecordSetDto) (account_id zone_id : string)
    (key : option CloudflareRecordSetKey) : bool :=
  String.eqb (rd_provider_account_id self) account_id && String.eqb (rd_zone_id self) zone_id
  && match key with
     | None => true
     | Some key => String.eqb (rd_owner self) (ak_owner key) && bool_decide (rd_record_type self = ak_record_type key)
     end.

Record CloudflareRecordPageDto := mkRecordPageDto {
  rp_items : list CloudflareRecordSetDto;
  rp_next_cursor : option string;
}.
Record CloudflareRecordPageResult := mkRecordPageResult {
  rr_zone : CloudflareZoneDto;
  rr_page : CloudflareRecordPageDto;
}.

Fixpoint check_record_items (account_id zone_id : string) (zone : CloudflareZoneDto)
    (keys : list (string * CloudflareRecordType)) (items : list CloudflareRecordSetDto) : CoreResult () :=
  match items with
  | [] => Ok tt
  | record :: items =>
      let? _ := CloudflareRecordSetDto_validate record in
      if negb (matches_scope record account_id zone_id None)
         || negb (String.eqb (rd_zone_apex record) (zd_name zone))
         || negb (bool_decide (rd_zone_visibility record = zd_visibility zone))
         || bool_decide ((rd_owner record, rd_record_type record) ∈ keys)
      then Err (Conflict "Cloudflare RRset page scope is inconsistent")
      else check_record_items account_id zone_id zone ((rd_owner record, rd_record_type record) :: keys) items
  end.
Definition CloudflareRecordPageDto_validate (self : CloudflareRecordPageDto) (account_id zone_id : string)
    (zone : CloudflareZoneDto) (requested_limit : Z) : CoreResult () :=
  if negb ((1 <=? requested_limit)%Z && (requested_limit <=? MAX_PAGE_LIMIT)%Z)
     || (requested_limit <? zlen (rp_items self))%Z
  then Err (Conflict "Cloudflare RRset page exceeds the requested limit")
  else
    let? _ := validate_option DnsPageToken_validate (rp_next_cursor self) in
    check_record_items account_id zone_id zone [] (rp_items self).
Definition CloudflareRecordPageResult_validate (self : CloudflareRecordPageResult) (account_id zone_id : string)
    (requested_limit : Z) : CoreResult () :=
  let? _ := CloudflareZoneDto_validate (rr_zone self) in
  if negb (String.eqb (zd_provider_account_id (rr_zone self)) account_id)
     || negb (String.eqb (zd_zone_id (rr_zone self)) zone_id)
  then Err (Conflict "Cloudflare authoritative zone scope is inconsistent")
  else CloudflareRecordPageDto_validate (rr_page self) account_id zone_id (rr_zone self) requested_limit.

(** ** Requests *)

Record CloudflareZoneCreateRequest := mkZoneCreate { zc_name : string }.
Record CloudflareZoneDeleteRequest := mkZoneDelete {
  zx_expected_revision : string;
  zx_confirm_name : string;
}.
Inductive CloudflareRecordMutationGuardDto := DtoMustNotExist | DtoMatchRevision (revision : string).
Definition expected_revision (self : CloudflareRecordMutationGuardDto) : option string :=
  match self with DtoMustNotExist => None | DtoMatchRevision revision => Some revision end.
Record CloudflareRecordSetPutRequest := mkPut {
  pu_guard : CloudflareRecordMutationGuardDto;
  pu_ttl : CloudflareRecordTtlDto;
  pu_values : list CloudflareRecordValueDto;
  pu_proxy : option CloudflareProxyOptions;
  pu_cname_flattening : CloudflareCnameFlattening;
  pu_comment : option string;
  pu_tags : list string;
}.
Record CloudflareRecordSetDeleteRequest := mkRecordDelete { rx_expected_revision : string }.

(** [for tag in &tags]. *)
Fixpoint check_user_tags (tags tag_names : list string) : CoreResult () :=
  let invalid := Conflict "Cloudflare DNS record tags are invalid" in
  match tags with
  | [] => Ok tt
  | tag :: tags =>
      if is_empty tag || (133 <? char_count tag)%Z || has_control tag then Err invalid
      else match split_once ch_colon tag with
           | None => Err invalid
           | Some (name, value) =>
               if is_empty name || (32 <? char_count name)%Z || (100 <? char_count value)%Z
                  || negb (str_all ldh_underscore name) || bool_decide (to_ascii_lowercase name ∈ tag_names)
                  || is_reserved_cloudflare_record_tag tag
               then Err invalid
               else check_user_tags tags (bts_insert (to_ascii_lowercase name) tag_names)
           end
  end.

Definition record_set_with_remote_alias (self : CloudflareRecordSetPutRequest) (key : CloudflareRecordSetKey)
    (remote_caller_alias : option string) : CoreResult ProviderDnsRecordSet :=
  if bool_decide (ak_record_type key = RtSoa)
  then Err (Conflict "SOA changes require the zone lifecycle contract")
  else if (zlen (pu_values self) =? 0)%Z || (100 <? zlen (pu_values self))%Z
  then Err (Conflict "Cloudflare RRset value count is invalid")
  else
    let? values := core_values (pu_values self) in
    if negb (zlen values =? zlen (pu_values self))%Z
       || existsb (λ v, negb (bool_decide (record_type v = CloudflareRecordType_core (ak_record_type key)))) values
    then Err (Conflict "Cloudflare RRset values do not match the path identity")
    else if bool_decide (ak_record_type key = RtCname) && negb (zlen values =? 1)%Z
    then Err (Conflict "Cloudflare CNAME RRsets require exactly one value")
    else if ttl_out_of_range (pu_ttl self)
    then Err (Conflict "Cloudflare RRset TTL is outside the provider range")
    else if negb (eqb (proxy_capable (ak_record_type key)) (bool_decide (is_Some (pu_proxy self))))
    then Err (Conflict "Cloudflare proxy state does not match the record type")
    else if bool_decide (pu_proxy self = Some Proxied) && negb (bool_decide (pu_ttl self = DtoAutomatic))
    then Err (Conflict "proxied Cloudflare records require automatic TTL")
    else if negb (bool_decide (ak_record_type key = RtCname))
            && negb (bool_decide (pu_cname_flattening self = ProviderDefault))
    then Err (Conflict "Cloudflare CNAME flattening applies only to CNAME records")
    else if bool_decide (pu_proxy self = Some Proxied)
            && negb (bool_decide (pu_cname_flattening self = ProviderDefault))
    then Err (Conflict "proxied Cloudflare CNAME records cannot override flattening")
    else if is_some_and (λ value, (500 <? char_count value)%Z || has_control value) (pu_comment self)
    then Err (Conflict "Cloudflare DNS record comment is invalid")
    else
      let tags := bts_of_list (pu_tags self) in
      let max_user_tags := if bool_decide (is_Some remote_caller_alias) then 19%Z else 20%Z in
      if negb (zlen tags =? zlen (pu_tags self))%Z || (max_user_tags <? zlen tags)%Z
      then Err (Conflict "Cloudflare DNS record tags are invalid")
      else
        let? _ := check_user_tags tags [] in
        let tags := match remote_caller_alias with
                    | Some caller_alias => bts_insert (REMOTE_CONTROL_TAG_NAME +:+ ":" +:+ caller_alias) tags
                    | None => tags
                    end in
        Ok (mkRecordSet (CloudflareRecordSetKey_core key) (CloudflareRecordTtlDto_core (pu_ttl self)) values
              (described_extension (ak_record_type key) (pu_proxy self) (pu_cname_flattening self)
                 (pu_comment self) tags)).

Definition record_set (self : CloudflareRecordSetPutRequest) (key : CloudflareRecordSetKey) :
    CoreResult ProviderDnsRecordSet :=
  record_set_with_remote_alias self key None.
Definition remote_record_set (self : CloudflareRecordSetPutRequest) (key : CloudflareRecordSetKey)
    (caller_alias : string) : CoreResult ProviderDnsRecordSet :=
  if negb (valid_remote_caller_alias caller_alias)
  then Err (Conflict "Cloudflare remote caller alias is invalid")
  else record_set_with_remote_alias self key (Some caller_alias).
End record_sets.

(** ** The alias of a remote caller *)

(** What is hashed. *)
Definition alias_preimage (provider issuer subject : string) : string :=
  REMOTE_CALLER_ALIAS_DOMAIN +:+ frames [provider; issuer; subject].

Definition caller_identity (claims : UnifiedAuthClaims) : CoreResult (string * string * string) :=
  let? source :=
    match ua_provider claims with
    | Oidc =>
        let? issuer := ok_or (Conflict "validated authentication issuer is unavailable") (ua_iss claims) in
        Ok ("oidc", issuer)
    | LocalAuth => Ok ("local", "edgion-center-local")
    end in
  let '(provider, issuer) := source in
  let? subject := ok_or (Conflict "validated authentication subject is unavailable") (ua_sub claims) in
  if is_empty issuer || (2048 <? str_len issuer)%Z || has_control issuer
     || is_empty subject || (255 <? str_len subject)%Z || has_control subject
  then Err (Conflict "validated authentication identity is invalid")
  else Ok (provider, issuer, subject).
Definition derive_cloudflare_remote_caller_alias `{Crypto} (claims : UnifiedAuthClaims) : CoreResult string :=
  let? identity := caller_identity claims in
  let '(provider, issuer, subject) := identity in
  Ok (sha256_b64 (alias_preimage provider issuer subject)).

(** ** The services behind the handlers *)

Inductive CloudflareDnsAdminError :=
| AdminInvalidRequest | AdminNotFound | AdminConflict | AdminUnknownOutcome | AdminUnavailable
| AdminRestartRequired | AdminInvalidProviderObservation.
#[export] Instance CloudflareDnsAdminError_eq_dec : EqDecision CloudflareDnsAdminError.
Proof. solve_decision. Defined.
Abbreviation admin_result A := (result A CloudflareDnsAdminError).

(** The traits [CloudflareDnsAdminService] and [CloudflareDnsWriteAdminService]. *)
Inductive admin_call : Type → Type :=
| SvcListZones (account_id : string) (page : CloudflarePageRequest) :
    admin_call (admin_result CloudflareZonePageDto)
| SvcGetZone (account_id zone_id : string) : admin_call (admin_result CloudflareZoneDto)
| SvcListRecordSets (account_id zone_id : string) (page : CloudflarePageRequest) :
    admin_call (admin_result CloudflareRecordPageResult)
| SvcGetRecordSet (account_id zone_id : string) (key : CloudflareRecordSetKey) :
    admin_call (admin_result CloudflareRecordSetDto)
| SvcCreateZone (account_id : string) (request : CloudflareZoneCreateRequest) :
    admin_call (admin_result CloudflareZoneDto)
| SvcDeleteZone (account_id zone_id : string) (request : CloudflareZoneDeleteRequest) :
    admin_call (admin_result ())
| SvcPutRecordSet (account_id zone_id : string) (key : CloudflareRecordSetKey)
    (request : CloudflareRecordSetPutRequest) : admin_call (admin_result CloudflareRecordSetDto)
| SvcPutRemoteRecordSet (account_id zone_id : string) (key : CloudflareRecordSetKey)
    (request : CloudflareRecordSetPutRequest) (caller_alias : string) :
    admin_call (admin_result CloudflareRecordSetDto)
| SvcDeleteRecordSet (account_id zone_id : string) (key : CloudflareRecordSetKey)
    (request : CloudflareRecordSetDeleteRequest) : admin_call (admin_result ()).

(** ** Requests and responses of the handlers *)

Inductive ApiBody :=
| ErrBody (code : string)
| ZoneBody (zone : CloudflareZoneDto)
| ZonePageBody (page : CloudflareZonePageDto)
| RecordBody (record : CloudflareRecordSetDto)
| RecordPageBody (page : CloudflareRecordPageDto)
| EmptyBody.
Record Response := mkResponse {
  rsp_status : Z;
  rsp_body : ApiBody;
}.
Definition error_response (status : Z) (code : string) : Response := mkResponse status (ErrBody code).

Inductive JsonRejection := BodyTooLarge | BodyRejected.
Definition json_rejection_response (rejection : JsonRejection) : Response :=
  match rejection with
  | BodyTooLarge => error_response 413 "request_too_large"
  | BodyRejected => error_response 400 "invalid_request"
  end.

Definition map_service_error (error : CloudflareDnsAdminError) : Response :=
  match error with
  | AdminInvalidRequest => error_response 400 "invalid_request"
  | AdminNotFound => error_response 404 "not_found"
  | AdminConflict => error_response 409 "conflict"
  | AdminUnknownOutcome => error_response 503 "unknown_outcome"
  | AdminUnavailable => error_response 503 "service_unavailable"
  | AdminRestartRequired => error_response 409 "pagination_restart_required"
  | AdminInvalidProviderObservation => error_response 503 "invalid_provider_observation"
  end.
Definition service_unavailable : Response := error_response 503 "service_unavailable".
Definition invalid_service_response : Response := error_response 503 "invalid_service_response".

Definition parse_page (limit cursor : option string) : result CloudflarePageRequest string :=
  let? limit :=
    match limit with
    | Some value =>
        match parse_uint U16_MAX value with
        | Some limit => if (1 <=? limit)%Z && (limit <=? MAX_PAGE_LIMIT)%Z then Ok limit else Err "invalid_page"
        | None => Err "invalid_page"
        end
    | None => Ok DEFAULT_PAGE_LIMIT
    end in
  let? cursor := map_err (λ _, "invalid_page") (transpose DnsPageToken_new cursor) in
  Ok (mkPageRequest limit cursor).
Definition parse_record_page (limit cursor : option string) : result CloudflarePageRequest string :=
  let? page := parse_page limit cursor in Ok (mkPageRequest (pq_limit page) (pq_cursor page)).

Definition parse_zone_id (value : string) : result string string :=
  match DnsZoneId_new value with
  | Ok value => if is_ok (validate_cloudflare_zone_id value) then Ok value else Err "invalid_zone_id"
  | Err _ => Err "invalid_zone_id"
  end.
Definition parse_record_identity `{Idna} (account_id zone_id record_type : string) (owner : option string) :
    result (string * string * CloudflareRecordSetKey) string :=
  let? account_id := map_err (λ _, "invalid_account_id") (CloudResourceId_new account_id) in
  let? zone_id := parse_zone_id zone_id in
  let? record_type := ok_or "invalid_record_type" (CloudflareRecordType_parse record_type) in
  let? owner := ok_or "invalid_record_owner"
                  (owner ← owner; match DnsOwnerName_new owner with Ok owner => Some owner | Err _ => None end) in
  Ok (account_id, zone_id, mkApiKey owner record_type).

(** [match r { Ok(x) => x, Err(_) => return response }]. *)
Notation "'let!' x ':=' r 'in' k" :=
  (match r with Ok x => k | Err response => Ret response end)
  (at level 10, x name, r at level 100, k at level 200) : center_scope.
Definition bad_request {A} (r : result A string) : result A Response := map_err (error_response 400) r.
Definition account_path (account_id : string) : result string Response :=
  bad_request (map_err (λ _, "invalid_account_id") (CloudResourceId_new account_id)).
Definition json_body {T} (body : result T JsonRejection) : result T Response := map_err json_rejection_response body.
(** [state.….as_deref()]: whether the service is configured. *)
Definition configured (service : bool) : result () Response :=
  if service then Ok tt else Err service_unavailable.

(** ** The handlers *)

Section handlers.
Context `{Idna, Crypto}.

Definition created_as_asked (account_id : string) (request : CloudflareZoneCreateRequest) (result : CloudflareZoneDto) :
    bool :=
  is_ok (CloudflareZoneDto_validate result) && String.eqb (zd_provider_account_id result) account_id
  && String.eqb (zd_name result) (zc_name request) && bool_decide (zd_kind result = ApiFull)
  && bool_decide (zd_visibility result = Public).

Definition create_zone (service : bool) (account_id : string)
    (body : result CloudflareZoneCreateRequest JsonRejection) : prog admin_call Response :=
  let! account_id := account_path account_id in
  let! request := json_body body in
  let! _ := configured service in
  result <~ SvcCreateZone account_id request ;;
  match result with
  | Ok result =>
      if negb (created_as_asked account_id request result) then Ret (map_service_error AdminUnknownOutcome)
      else Ret (mkResponse 201 (ZoneBody result))
  | Err error => Ret (map_service_error error)
  end.

(** [Ok(value) if value.expected_revision.validate().is_ok() => value]. *)
Definition valid_revision_body {T} (revision : T → string) (body : result T JsonRejection) : result T Response :=
  let? value := json_body body in
  if is_ok (DnsRecordRevision_validate (revision value)) then Ok value
  else Err (error_response 400 "invalid_request").

Definition delete_zone (service : bool) (account_id zone_id : string)
    (body : result CloudflareZoneDeleteRequest JsonRejection) : prog admin_call Response :=
  let! account_id := account_path account_id in
  let! zone_id := bad_request (parse_zone_id zone_id) in
  let! request := valid_revision_body zx_expected_revision body in
  let! _ := configured service in
  result <~ SvcDeleteZone account_id zone_id request ;;
  match result with
  | Ok _ => Ret (mkResponse 204 EmptyBody)
  | Err error => Ret (map_service_error error)
  end.

(** What both put handlers compare of the service's answer; [control] is the
    control projection that was asked for. *)
Definition put_as_asked (account_id zone_id : string) (key : CloudflareRecordSetKey)
    (request : CloudflareRecordSetPutRequest) (desired : ProviderDnsRecordSet)
    (control : CloudflareRecordControlDto) (result : CloudflareRecordSetDto) : bool :=
  is_ok (CloudflareRecordSetDto_validate result) && matches_scope result account_id zone_id (Some key)
  && bool_decide (CloudflareRecordTtlDto_core (rd_ttl result) = rs_ttl desired)
  && match core_values (rd_values result) with
     | Ok values => bool_decide (values = rs_values desired)
     | Err _ => false
     end
  && bool_decide (rd_proxy result = pu_proxy request)
  && bool_decide (rd_cname_flattening result = pu_cname_flattening request)
  && bool_decide (rd_comment result = pu_comment request)
  && bool_decide (bts_of_list (rd_tags result) = bts_of_list (pu_tags request))
  && bool_decide (rd_control result = control).

Definition guard_revision_invalid (request : CloudflareRecordSetPutRequest) : bool :=
  is_some_and (λ revision, negb (is_ok (DnsRecordRevision_validate revision))) (expected_revision (pu_guard request)).

(** From the checked request on, both put handlers are the same: [desired] is
    what the request describes and [call] the method of the service. *)
Definition put_checked (service : bool) (account_id zone_id : string) (key : CloudflareRecordSetKey)
    (request : CloudflareRecordSetPutRequest) (desired : CoreResult ProviderDnsRecordSet)
    (control : CloudflareRecordControlDto) (call : admin_call (admin_result CloudflareRecordSetDto)) :
    prog admin_call Response :=
  let! desired := bad_request (map_err (λ _, "invalid_request") desired) in
  if guard_revision_invalid request then Ret (error_response 400 "invalid_request")
  else
    let! _ := configured service in
    result <~ call ;;
    match result with
    | Ok result =>
        if negb (put_as_asked account_id zone_id key request desired control result)
        then Ret (map_service_error AdminUnknownOutcome) else Ret (mkResponse 200 (RecordBody result))
    | Err error => Ret (map_service_error error)
    end.

Definition put_record_set (service : bool) (account_id zone_id record_type : string) (owner : option string)
    (body : result CloudflareRecordSetPutRequest JsonRejection) : prog admin_call Response :=
  let! identity := bad_request (parse_record_identity account_id zone_id record_type owner) in
  let '(account_id, zone_id, key) := identity in
  let! request := json_body body in
  put_checked service account_id zone_id key request (record_set request key) Manual
    (SvcPutRecordSet account_id zone_id key request).

Definition put_remote_record_set (service : bool) (claims : option UnifiedAuthClaims)
    (account_id zone_id record_type : string) (owner : option string)
    (body : result CloudflareRecordSetPutRequest JsonRejection) : prog admin_call Response :=
  let! claims := ok_or (error_response 401 "authentication_required") claims in
  let! caller_alias := map_err (λ _, error_response 401 "invalid_identity")
                         (derive_cloudflare_remote_caller_alias claims) in
  let! identity := bad_request (parse_record_identity account_id zone_id record_type owner) in
  let '(account_id, zone_id, key) := identity in
  let! request := json_body body in
  put_checked service account_id zone_id key request (remote_record_set request key caller_alias)
    (Remote caller_alias) (SvcPutRemoteRecordSet account_id zone_id key request caller_alias).

Definition delete_record_set (service : bool) (account_id zone_id record_type : string) (owner : option string)
    (body : result CloudflareRecordSetDeleteRequest JsonRejection) : prog admin_call Response :=
  let! identity := bad_request (parse_record_identity account_id zone_id record_type owner) in
  let '(account_id, zone_id, key) := identity in
  if bool_decide (ak_record_type key = RtSoa) then Ret (error_response 400 "invalid_request")
  else
    let! request := valid_revision_body rx_expected_revision body in
    let! _ := configured service in
    result <~ SvcDeleteRecordSet account_id zone_id key request ;;
    match result with
    | Ok _ => Ret (mkResponse 204 EmptyBody)
    | Err error => Ret (map_service_error error)
    end.

Definition list_zones (service : bool) (account_id : string) (limit cursor : option string) :
    prog admin_call Response :=
  let! account_id := account_path account_id in
  let! page := bad_request (parse_page limit cursor) in
  let! _ := configured service in
  result <~ SvcListZones account_id page ;;
  match result with
  | Ok result =>
      if is_ok (CloudflareZonePageDto_validate result account_id (pq_limit page))
      then Ret (mkResponse 200 (ZonePageBody result)) else Ret invalid_service_response
  | Err error => Ret (map_service_error error)
  end.

Definition zone_in_scope (account_id zone_id : string) (zone : CloudflareZoneDto) : bool :=
  is_ok (CloudflareZoneDto_validate zone) && String.eqb (zd_provider_account_id zone) account_id
  && String.eqb (zd_zone_id zone) zone_id.

Definition get_zone (service : bool) (account_id zone_id : string) : prog admin_call Response :=
  let! account_id := account_path account_id in
  let! zone_id := bad_request (parse_zone_id zone_id) in
  let! _ := configured service in
  result <~ SvcGetZone account_id zone_id ;;
  match result with
  | Ok result =>
      if zone_in_scope account_id zone_id result then Ret (mkResponse 200 (ZoneBody result))
      else Ret invalid_service_response
  | Err error => Ret (map_service_error error)
  end.

Definition list_record_sets (service : bool) (account_id zone_id : string) (limit cursor : option string) :
    prog admin_call Response :=
  let! account_id := account_path account_id in
  let! zone_id := bad_request (parse_zone_id zone_id) in
  let! page := bad_request (parse_record_page limit cursor) in
  let! _ := configured service in
  result <~ SvcListRecordSets account_id zone_id page ;;
  match result with
  | Ok result =>
      if is_ok (CloudflareRecordPageResult_validate result account_id zone_id (pq_limit page))
      then Ret (mkResponse 200 (RecordPageBody (rr_page result))) else Ret invalid_service_response
  | Err error => Ret (map_service_error error)
  end.

(** [load_authoritative_zone] and [map_authoritative_zone_error]. *)
Definition load_authoritative_zone (account_id zone_id : string) :
    prog admin_call (result CloudflareZoneDto Response) :=
  zone <~ SvcGetZone account_id zone_id ;;
  match zone with
  | Ok zone => Ret (if zone_in_scope account_id zone_id zone then Ok zone else Err invalid_service_response)
  | Err error => Ret (Err (map_service_error error))
  end.

Definition get_record_set (service : bool) (account_id zone_id record_type : string) (owner : option string) :
    prog admin_call Response :=
  let! identity := bad_request (parse_record_identity account_id zone_id record_type owner) in
  let '(account_id, zone_id, key) := identity in
  let! _ := configured service in
  pbind (load_authoritative_zone account_id zone_id) (λ zone,
    let! zone := zone in
    result <~ SvcGetRecordSet account_id zone_id key ;;
    match result with
    | Ok result =>
        if negb (is_ok (CloudflareRecordSetDto_validate result))
           || negb (matches_scope result account_id zone_id (Some key))
           || negb (String.eqb (rd_zone_apex result) (zd_name zone))
           || negb (bool_decide (rd_zone_visibility result = zd_visibility zone))
        then Ret invalid_service_response else Ret (mkResponse 200 (RecordBody result))
    | Err error => Ret (map_service_error error)
    end).
End handlers.

(** ** What a request describes *)

Definition user_tag (tag : string) : Prop :=
  valid_cloudflare_tag tag = true ∧ is_reserved_cloudflare_record_tag tag = false.

Lemma check_user_tags_Ok tags names :
  check_user_tags tags names = Ok tt →
  Forall user_tag tags ∧ NoDup (map tag_name tags) ∧ ∀ n, n ∈ map tag_name tags → n ∉ names.
Proof.
  revert names. induction tags as [|tag tags IH]; intros names; cbn [check_user_tags map].
  { intros _. split_and!; [constructor|constructor|]. intros n Hn. by inversion Hn. }
  destruct (is_empty tag || _ || _) eqn:E1; [done|]. destruct (split_once ch_colon tag) as [[name value]|] eqn:E2; [|done].
  destruct (is_empty name || _ || _ || _ || _ || _) eqn:E3; [done|]. intros Hc.
  repeat (apply orb_false_iff in E3 as [E3 ?]). case_bool_decide as Hin; [done|].
  destruct (IH _ Hc) as (Hf&Hd&Hn).
  assert (tag_name tag = to_ascii_lowercase name) as Ht by (unfold tag_name; by rewrite E2).
  split_and!.
  - constructor; [|done]. split; [|done]. unfold valid_cloudflare_tag. rewrite E1, E2, E3.
    repeat match goal with H : (_ <? _)%Z = false |- _ => apply Z.ltb_ge, Z.leb_le in H; rewrite H end.
    match goal with H : negb _ = false |- _ => apply negb_false_iff in H; by rewrite H end.
  - constructor; [|done]. rewrite Ht. intros Hi. apply (Hn _ Hi). apply elem_of_bts_insert. by left.
  - intros n [->|Hi]%elem_of_cons; [by rewrite Ht|]. intros Hx. apply (Hn _ Hi). apply elem_of_bts_insert. by right.
Qed.

Lemma user_tags_valid tags :
  Forall user_tag tags → NoDup (map tag_name tags) → (zlen tags <= 20)%Z → valid_cloudflare_tags tags = true.
Proof.
  intros Hu Hn Hl. unfold valid_cloudflare_tags. rewrite (proj2 (Z.ltb_ge _ _) Hl). cbn [orb].
  assert (existsb (λ tag, negb (valid_cloudflare_tag tag)) tags = false) as ->.
  { induction Hu as [|t ts [Ht _] Hu IH]; [done|]. cbn [existsb map] in *. rewrite Ht. apply IH.
    - by apply NoDup_cons in Hn as [_ Hn].
    - unfold zlen in *. cbn [length] in Hl. lia. }
  apply Z.eqb_eq. rewrite (proj2 (bts_of_list_length _) Hn). unfold zlen. by rewrite length_map.
Qed.

(** ** Splitting the tags of an observation *)

Lemma split_user s tag :
  is_reserved_cloudflare_record_tag tag = false →
  split_tag s tag = mkSplit (sp_tags s ++ [tag]) (sp_remote_alias s) (sp_invalid_marker s).
Proof.
  unfold split_tag, is_reserved_cloudflare_record_tag. destruct (split_once ch_colon tag) as [[name value]|] eqn:E.
  - by intros ->.
  - by intros ->.
Qed.
Lemma split_users s tags :
  Forall user_tag tags →
  foldl split_tag s tags = mkSplit (sp_tags s ++ tags) (sp_remote_alias s) (sp_invalid_marker s).
Proof.
  intros Hu. revert s. induction Hu as [|t ts [_ Ht] Hu IH]; intros s; cbn [foldl].
  - rewrite app_nil_r. by destruct s.
  - rewrite split_user, IH by done. cbn [sp_tags sp_remote_alias sp_invalid_marker]. by rewrite <-app_assoc.
Qed.

Definition alias_tag (caller_alias : string) : string := REMOTE_CONTROL_TAG_NAME +:+ ":" +:+ caller_alias.
Lemma remote_name_reserved : starts_with RESERVED_TAG_PREFIX (to_ascii_lowercase REMOTE_CONTROL_TAG_NAME) = true.
Proof. vm_compute. reflexivity. Qed.
Lemma alias_tag_split caller_alias :
  split_once ch_colon (alias_tag caller_alias) = Some (REMOTE_CONTROL_TAG_NAME, caller_alias).
Proof. done. Qed.
Lemma alias_tag_reserved caller_alias : is_reserved_cloudflare_record_tag (alias_tag caller_alias) = true.
Proof. unfold is_reserved_cloudflare_record_tag. rewrite alias_tag_split. apply remote_name_reserved. Qed.

Lemma split_marked tags caller_alias :
  Forall user_tag tags → valid_remote_caller_alias caller_alias = true →
  split_cloudflare_record_tags (bts_insert (alias_tag caller_alias) tags) = (tags, Remote caller_alias).
Proof.
  intros Hu Ha. assert (alias_tag caller_alias ∉ tags) as Hni.
  { intros Hin. pose proof (proj1 (Forall_forall _ _) Hu _ Hin) as [_ Hx]. cbv beta in Hx.
    by rewrite alias_tag_reserved in Hx. }
  destruct (bts_insert_split _ _ Hni) as (l1&l2&->&->). apply Forall_app in Hu as [H1 H2].
  unfold split_cloudflare_record_tags. rewrite foldl_app, (split_users _ l1) by done. cbn [foldl sp_tags sp_remote_alias sp_invalid_marker app].
  assert (split_tag (mkSplit l1 None false) (alias_tag caller_alias) = mkSplit l1 (Some caller_alias) false) as ->.
  { unfold split_tag. by rewrite alias_tag_split, remote_name_reserved, String.eqb_refl, Ha. }
  by rewrite split_users.
Qed.
Lemma split_unmarked tags : Forall user_tag tags → split_cloudflare_record_tags tags = (tags, Manual).
Proof. intros Hu. unfold split_cloudflare_record_tags. by rewrite split_users. Qed.

Section requests.
Context `{Crypto}.

Definition user_tag_limit (alias : option string) : Z := if bool_decide (is_Some alias) then 19 else 20.
Definition described_tags (request : CloudflareRecordSetPutRequest) (alias : option string) : list string :=
  let tags := bts_of_list (pu_tags request) in
  match alias with
  | Some caller_alias => bts_insert (alias_tag caller_alias) tags
  | None => tags
  end.

(** The requests that describe a record set, and which. *)
Record describes (request : CloudflareRecordSetPutRequest) (key : CloudflareRecordSetKey) (alias : option string)
    (desired : ProviderDnsRecordSet) : Prop := {
  ds_key : rs_key desired = CloudflareRecordSetKey_core key;
  ds_ttl : rs_ttl desired = CloudflareRecordTtlDto_core (pu_ttl request);
  ds_values : core_values (pu_values request) = Ok (rs_values desired);
  ds_distinct : zlen (rs_values desired) = zlen (pu_values request);
  ds_extension : rs_extension desired = described_extension (ak_record_type key) (pu_proxy request)
    (pu_cname_flattening request) (pu_comment request) (described_tags request alias);
  ds_not_soa : ak_record_type key ≠ RtSoa;
  ds_count : (1 <= zlen (pu_values request) <= 100)%Z;
  ds_types v : v ∈ rs_values desired → record_type v = CloudflareRecordType_core (ak_record_type key);
  ds_cname : ak_record_type key = RtCname → zlen (rs_values desired) = 1%Z;
  ds_range : ttl_out_of_range (pu_ttl request) = false;
  ds_proxy : proxy_capable (ak_record_type key) = bool_decide (is_Some (pu_proxy request));
  ds_proxied : pu_proxy request = Some Proxied →
    pu_ttl request = DtoAutomatic ∧ pu_cname_flattening request = ProviderDefault;
  ds_flattening : ak_record_type key ≠ RtCname → pu_cname_flattening request = ProviderDefault;
  ds_comment : is_some_and (λ value, (500 <? char_count value)%Z || has_control value) (pu_comment request) = false;
  ds_tags_distinct : zlen (bts_of_list (pu_tags request)) = zlen (pu_tags request);
  ds_tags_count : (zlen (bts_of_list (pu_tags request)) <= user_tag_limit alias)%Z;
  ds_tags_user : Forall user_tag (bts_of_list (pu_tags request));
  ds_tags_names : NoDup (map tag_name (bts_of_list (pu_tags request)));
}.

Lemma record_set_describes request key alias desired :
  record_set_with_remote_alias request key alias = Ok desired → describes request key alias desired.
Proof.
  unfold record_set_with_remote_alias. case_bool_decide as Hsoa; [done|].
  destruct (_ || _) eqn:Hcount; [done|]. apply orb_false_iff in Hcount as [Hc1 Hc2].
  destruct (core_values (pu_values request)) as [values|] eqn:Hv; [|done].
  destruct (negb _ || _) eqn:Hd; [done|]. apply orb_false_iff in Hd as [Hd%negb_false_iff Ht].
  destruct (bool_decide (ak_record_type key = RtCname) && _) eqn:Hcn; [done|].
  destruct (ttl_out_of_range _) eqn:Httl; [done|].
  destruct (eqb (proxy_capable _) _) eqn:Hp; [|done]. apply eqb_prop in Hp. cbn [negb].
  destruct (bool_decide (pu_proxy request = Some Proxied) && _) eqn:Hp1; [done|].
  destruct (negb (bool_decide (ak_record_type key = RtCname)) && _) eqn:Hf; [done|].
  destruct (bool_decide (pu_proxy request = Some Proxied) && negb (bool_decide (_ = ProviderDefault))) eqn:Hp2; [done|].
  destruct (is_some_and _ _) eqn:Hco; [done|]. destruct (negb _ || _) eqn:Htg; [done|].
  apply orb_false_iff in Htg as [Htg%negb_false_iff Htc].
  destruct (check_user_tags _ _) as [[]|] eqn:Hu; [|done]. apply check_user_tags_Ok in Hu as (Hu&Hn&_).
  intros [= <-]. split; cbn [rs_key rs_ttl rs_values rs_extension]; try done.
  - by apply Z.eqb_eq.
  - apply Z.eqb_neq in Hc1. apply Z.ltb_ge in Hc2. unfold zlen in *. lia.
  - intros v Hv'. pose proof (existsb_false_forall _ _ _ Ht Hv') as Hx. cbv beta in Hx.
    by apply negb_false_iff, bool_decide_eq_true in Hx.
  - intros E. rewrite bool_decide_eq_true_2 in Hcn by done. cbn [andb] in Hcn.
    by apply negb_false_iff, Z.eqb_eq in Hcn.
  - intros E. rewrite bool_decide_eq_true_2 in Hp1 by done. rewrite bool_decide_eq_true_2 in Hp2 by done.
    cbn [andb] in Hp1, Hp2. apply negb_false_iff, bool_decide_eq_true in Hp1.
    by apply negb_false_iff, bool_decide_eq_true in Hp2.
  - intros E. rewrite bool_decide_eq_false_2 in Hf by done. cbn [andb negb] in Hf.
    by apply negb_false_iff, bool_decide_eq_true in Hf.
  - by apply Z.eqb_eq.
  - apply Z.ltb_ge in Htc. exact Htc.
Qed.
End requests.

(** ** Distinct callers have distinct aliases, up to the digest *)

Lemma caller_identity_bounds claims provider issuer subject :
  caller_identity claims = Ok (provider, issuer, subject) →
  (provider = "oidc" ∨ provider = "local") ∧ frameable provider ∧ frameable issuer ∧ frameable subject.
Proof.
  unfold caller_identity, frameable. destruct (match ua_provider claims with Oidc => _ | LocalAuth => _ end) as [[p i]|] eqn:Es; [|done].
  destruct (ok_or _ (ua_sub claims)) as [s|]; [|done]. destruct (_ || _) eqn:E; [done|]. intros [= <- <- <-].
  repeat (apply orb_false_iff in E as [E ?]).
  repeat match goal with H : (_ <? _)%Z = false |- _ => apply Z.ltb_ge in H end.
  assert (p = "oidc" ∨ p = "local") as Hp.
  { destruct (ua_provider claims); [|injection Es as <- _; auto].
    destruct (ok_or _ _) in Es; [|done]. injection Es as <- _. auto. }
  split; [done|]. unfold U64_MAX. destruct Hp as [-> | ->]; (split; [by vm_compute|lia]).
Qed.
Lemma alias_preimage_inj c d p i s p' i' s' :
  caller_identity c = Ok (p, i, s) → caller_identity d = Ok (p', i', s') →
  alias_preimage p i s = alias_preimage p' i' s' → (p, i, s) = (p', i', s').
Proof.
  intros (_&Hp&Hi&Hs)%caller_identity_bounds (_&Hp'&Hi'&Hs')%caller_identity_bounds.
  unfold alias_preimage. intros [_ He]%str_app_inj; [|done]. apply frames_inj in He; [|done|by repeat constructor..].
  by injection He as -> -> ->.
Qed.
