(* ===== verification/CloudflareDnsAdmin.v ===== *)
(** * CloudflareDnsAdmin: from observations to the admin API

    [crates/center-integration-cloudflare/src/dns_admin.rs]: the projection of
    observed zones and record sets to the types of the admin API.  The theorems
    relate what a client asks for, what the adapter observes of it, and what the
    handlers accept as the answer. *)

From Stdlib Require Import ZArith Ascii String Lia.
From S2P Require Import Prelude Text Core Effects BTree NetAddr Dns DnsChange ProviderErrors RecordValues Tokens CloudflareModel CloudflareInventory CloudflareTokens CloudflareDnsApi.

Definition CLOUDFLARE_ID_LEN : Z := 32.
Definition MAX_NAMESERVERS : Z := 20.
Definition valid_cloudflare_id (value : string) : bool :=
  (str_len value =? CLOUDFLARE_ID_LEN)%Z && str_all zone_id_byte value.
Definition invalid_observation : CloudflareDnsAdminError := AdminInvalidProviderObservation.
(** [.map_err(|_| invalid_observation())]. *)
Definition or_invalid_observation {A E} (r : result A E) : admin_result A := map_err (λ _, invalid_observation) r.

(** ** Zones *)

Definition map_zone_kind (kind : CloudflareModel.CloudflareZoneKind) : CloudflareDnsApi.CloudflareZoneKind :=
  match kind with
  | KindFull => ApiFull | KindPartial => ApiPartial | KindSecondary => ApiSecondary | KindInternal => ApiInternal
  end.
Definition map_zone_status (status : CloudflareModel.CloudflareZoneStatus) : CloudflareDnsApi.CloudflareZoneStatus :=
  match status with
  | ZoneInitializing => ApiInitializing | ZonePending => ApiPending | ZoneActive => ApiActive | ZoneMoved => ApiMoved
  end.
Definition zone_visibility_matches_kind (kind : CloudflareModel.CloudflareZoneKind) (visibility : ZoneVisibility) :
    bool :=
  match kind, visibility with
  | KindInternal, Private => true
  | (KindFull | KindPartial | KindSecondary), Public => true
  | _, _ => false
  end.

Definition map_zone (observed : ObservedCloudflareZone) : admin_result CloudflareZoneDto :=
  let zone := oc_zone observed in
  let? _ := or_invalid_observation (DnsZoneRef_validate zone) in
  if negb (bool_decide (zr_provider zone = Cloudflare)) || negb (valid_cloudflare_id (zr_zone_id zone))
     || (MAX_NAMESERVERS <? zlen (oc_name_servers observed))%Z
     || negb (zone_visibility_matches_kind (oc_kind observed) (zr_visibility zone))
  then Err invalid_observation
  else
    let? _ := or_invalid_observation (validate_option DnsRecordRevision_validate (oc_revision observed)) in
    Ok (mkZoneDto (zr_provider_account_id zone) (zr_zone_id zone) (zr_apex zone) (map_zone_kind (oc_kind observed))
          (map_zone_status (oc_status observed)) (zr_visibility zone) (oc_name_servers observed)
          (oc_revision observed)).

(** ** Record sets *)

Definition map_record_type (t : ProviderDnsRecordType) : CloudflareRecordType :=
  match t with
  | TA => RtA | TAaaa => RtAaaa | TCname => RtCname | TTxt => RtTxt | TMx => RtMx | TSrv => RtSrv
  | TCaa => RtCaa | TNs => RtNs | TSoa => RtSoa
  end.
Definition map_ttl (ttl : DnsTtl) : admin_result CloudflareRecordTtlDto :=
  match ttl with
  | Automatic => Ok DtoAutomatic
  | Seconds seconds => Ok (DtoSeconds seconds)
  | Inherited => Err invalid_observation
  end.
Definition octets `{Crypto} (value : list Z) : CloudflareOctetsDto := mkOctets (b64_encode (bytes_str value)).
(** The source returns a [Result] that is always [Ok]. *)
Definition map_record_value `{Crypto} (value : DnsRecordSetValue) : CloudflareRecordValueDto :=
  match value with
  | VA address => DtoA address
  | VAaaa address => DtoAaaa address
  | VCname target => DtoCname target
  | VTxt segments => DtoTxt (map octets segments)
  | VMx preference exchange => DtoMx preference exchange
  | VSrv priority weight port target => DtoSrv priority weight port target
  | VCaa flags tag value => DtoCaa flags tag (octets value)
  | VNs target => DtoNs target
  | VSoa primary mailbox serial refresh retry expire minimum =>
      DtoSoa primary mailbox serial refresh retry expire minimum
  end.

Record MappedExtension := mkMapped {
  me_proxy : option CloudflareProxyOptions;
  me_cname_flattening : CloudflareCnameFlattening;
  me_comment : option string;
  me_tags : list string;                     (* BTreeSet *)
}.
Definition map_extension (extension : option DnsRecordExtension) : admin_result MappedExtension :=
  match extension with
  | Some (ExtCloudflare proxy cname_flattening comment tags) => Ok (mkMapped proxy cname_flattening comment tags)
  | None => Ok (mkMapped None ProviderDefault None [])
  | Some (ExtRoute53 _ _ _) => Err invalid_observation
  end.
Definition is_cloudflare_extension (extension : option DnsRecordExtension) : bool :=
  match extension with Some (ExtCloudflare _ _ _ _) => true | _ => false end.

Definition map_record `{Crypto} (observed : ObservedDnsRecordSet) : admin_result CloudflareRecordSetDto :=
  let zone := ob_zone observed in
  let record_set := ob_record_set observed in
  let? _ := or_invalid_observation (ObservedDnsRecordSet_validate observed) in
  if negb (bool_decide (zr_provider zone = Cloudflare)) || negb (valid_cloudflare_id (zr_zone_id zone))
     || negb (bool_decide (key_routing (rs_key record_set) = RSimple))
     || (zlen (ob_provider_object_ids observed) =? 0)%Z
     || existsb (λ id, negb (valid_cloudflare_id id)) (ob_provider_object_ids observed)
  then Err invalid_observation
  else if type_in (rs_type record_set) proxiable && negb (is_cloudflare_extension (rs_extension record_set))
  then Err invalid_observation
  else
    let? ttl := map_ttl (rs_ttl record_set) in
    let values := map map_record_value (rs_values record_set) in
    let? extension := map_extension (rs_extension record_set) in
    let '(tags, control) := split_cloudflare_record_tags (me_tags extension) in
    Ok (mkRecordDto (zr_provider_account_id zone) (zr_zone_id zone) (zr_apex zone) (zr_visibility zone)
          (rs_owner record_set) (map_record_type (rs_type record_set)) ttl values (me_proxy extension)
          (me_cname_flattening extension) (me_comment extension) tags control
          (ob_provider_object_ids observed) (ob_revision observed)).

(** ** Values survive the projection *)

Section values.
Context `{CryptoLaws}.

(** What decoding guarantees of a value. *)
Definition octet_value (v : DnsRecordSetValue) : Prop :=
  match v with
  | VTxt segments => txt_ok segments
  | VCaa _ _ value => bytes_ok value ∧ (zlen value <= 255)%Z
  | _ => True
  end.

Lemma str_bytes_ok s : bytes_ok (str_bytes s).
Proof.
  induction s as [|c s IH]; constructor; [|done].
  unfold byte_z, U8_MAX. pose proof (N_ascii_bounded c). unfold byte_val. lia.
Qed.

Lemma decode_segment_Ok o bytes : decode_segment o = Ok bytes → bytes_ok bytes ∧ (zlen bytes <= 255)%Z.
Proof.
  unfold decode_segment, CloudflareOctetsDto_decode. destruct (ok_or _ _) as [d|]; [|done].
  destruct (negb _); [done|]. unfold DnsCharacterString_new.
  destruct (255 <? zlen (str_bytes d))%Z eqn:E; [done|]. intros [= <-].
  split; [apply str_bytes_ok|by apply Z.ltb_ge].
Qed.

Lemma core_octets dto v : CloudflareRecordValueDto_core dto = Ok v → octet_value v.
Proof.
  destruct dto as [| | |segments| | |flags tag value| |]; simpl; try (by intros [= <-]).
  - destruct (collect decode_segment segments) as [ss|] eqn:Ec; [|done].
    destruct (DnsTxtValue_new ss) as [t|] eqn:Et; [|done]. intros [= <-].
    assert (t = ss) as -> by (revert Et; unfold DnsTxtValue_new; destruct (_ || _); [done|]; by intros [= <-]).
    split; [|done]. apply collect_Ok in Ec. clear Et. induction Ec as [|o b os bs Ho Hos IH]; constructor; [|done].
    by apply decode_segment_Ok in Ho.
  - destruct (decode_segment value) as [b|] eqn:Ed; [|done]. intros [= <-]. by apply decode_segment_Ok in Ed.
Qed.

Lemma decode_octets bytes : bytes_ok bytes → (zlen bytes <= 255)%Z → decode_segment (octets bytes) = Ok bytes.
Proof.
  intros Hb Hl. unfold decode_segment, CloudflareOctetsDto_decode, octets. cbn [base64].
  rewrite b64_roundtrip. cbn [ok_or]. rewrite String.eqb_refl, str_bytes_back by done. cbn [negb].
  unfold DnsCharacterString_new. by rewrite (proj2 (Z.ltb_ge _ _) Hl).
Qed.

Lemma core_back v : octet_value v → CloudflareRecordValueDto_core (map_record_value v) = Ok v.
Proof.
  destruct v as [| | |segments| | |flags tag value| |]; simpl; try done.
  - intros [Hs Hn]. assert (collect decode_segment (map octets segments) = Ok segments) as ->; [|by rewrite Hn].
    clear Hn. induction Hs as [|s ss [Hb Hl] Hs IH]; [done|]. cbn [map collect].
    by rewrite decode_octets, IH.
  - intros [Hb Hl]. by rewrite decode_octets.
Qed.

Lemma core_values_octets dtos vs : core_values dtos = Ok vs → sorted_set vs ∧ Forall octet_value vs.
Proof.
  unfold core_values. destruct (collect _ _) as [cs|] eqn:Ec; [|done]. intros [= <-].
  split; [apply bts_of_list_sorted|]. apply Forall_forall. intros v Hv. rewrite elem_of_bts_of_list in Hv.
  apply collect_Ok in Ec. apply list_elem_of_lookup_1 in Hv as [i Hi].
  destruct (Forall2_lookup_r _ _ _ _ _ Ec Hi) as (d&_&Hd). by eapply core_octets.
Qed.
Lemma core_values_back vs : sorted_set vs → Forall octet_value vs → core_values (map map_record_value vs) = Ok vs.
Proof.
  intros Hs Hf. unfold core_values. assert (collect CloudflareRecordValueDto_core (map map_record_value vs) = Ok vs) as ->.
  { clear Hs. induction Hf as [|v vs Hv Hf IH]; [done|]. cbn [map collect]. by rewrite core_back, IH. }
  by rewrite bts_of_sorted.
Qed.
End values.

(** ** Validation under other tags *)

Section retag.
Implicit Types zone : DnsZoneRef.

Lemma validate_retag key ttl values proxy flattening comment tags tags' zone :
  ProviderDnsRecordSet_validate (mkRecordSet key ttl values (Some (ExtCloudflare proxy flattening comment tags))) zone = Ok tt →
  valid_cloudflare_tags tags' = true →
  ProviderDnsRecordSet_validate (mkRecordSet key ttl values (Some (ExtCloudflare proxy flattening comment tags'))) zone = Ok tt.
Proof.
  intros Hv Ht. unfold ProviderDnsRecordSet_validate, rs_owner, rs_type in *. cbn [rs_key rs_ttl rs_values rs_extension] in *.
  destruct (DnsZoneRef_validate zone); [|done]. destruct (DnsRecordSetKey_validate key); [|done].
  destruct (negb _); [done|]. destruct (match ttl with Seconds _ => _ | _ => _ end); [done|].
  destruct (_ && _); [done|].
  change (validate_shape (mkRecordSet key ttl values (Some (ExtCloudflare proxy flattening comment tags'))))
    with (validate_shape (mkRecordSet key ttl values (Some (ExtCloudflare proxy flattening comment tags)))).
  destruct (validate_shape _); [|done].
  unfold validate_cloudflare_extension, rs_type, rs_owner in *. cbn [rs_key rs_ttl rs_values rs_extension] in *.
  repeat match type of Hv with (if ?b then Err _ else _) = Ok tt =>
    lazymatch b with is_some_and _ _ || _ => fail | _ => destruct b; [done|] end end.
  rewrite Ht. by destruct (is_some_and _ comment).
Qed.

Lemma validate_untag key ttl values tags zone :
  ProviderDnsRecordSet_validate (mkRecordSet key ttl values (Some (ExtCloudflare None ProviderDefault None tags))) zone = Ok tt →
  ProviderDnsRecordSet_validate (mkRecordSet key ttl values None) zone = Ok tt ↔ ttl ≠ Automatic.
Proof.
  intros Hv. unfold ProviderDnsRecordSet_validate, rs_owner, rs_type in *. cbn [rs_key rs_ttl rs_values rs_extension] in *.
  destruct (DnsZoneRef_validate zone); [|done]. destruct (DnsRecordSetKey_validate key); [|done].
  destruct (negb _); [done|]. destruct (match ttl with Seconds _ => _ | _ => _ end); [done|].
  destruct (_ && _); [done|].
  change (validate_shape (mkRecordSet key ttl values None))
    with (validate_shape (mkRecordSet key ttl values (Some (ExtCloudflare None ProviderDefault None tags)))).
  destruct (validate_shape _); [|done].
  unfold validate_cloudflare_extension, validate_no_extension, rs_type, rs_owner in *.
  cbn [rs_key rs_ttl rs_values rs_extension] in *. rewrite (bool_decide_eq_false_2 (is_Some None)) in Hv by by intros [? ?].
  destruct (bool_decide (zr_provider zone = Cloudflare)); [|done]. cbn [negb orb andb] in *.
  case_bool_decide as Hr; [|done]. rewrite Hr. cbn [negb orb] in Hv.
  destruct (bool_decide (ttl = Inherited)); [done|]. cbn [orb] in Hv.
  destruct (type_in (key_record_type key) proxiable) eqn:Et; [done|].
  clear Hv. case_bool_decide as Ha; [by split|]. split; [by intros _|intros _].
  assert (bool_decide (key_record_type key = TCname) = false) as ->; [|done].
  apply bool_decide_eq_false. intros E. by rewrite E in Et.
Qed.
End retag.

(** ** A confirmed write is accepted as the answer *)

Lemma valid_id_opaque kind id :
  valid_cloudflare_id id = true → opaque_id_validate kind MAX_OPAQUE_ID_LEN id = Ok tt.
Proof. intros Hid. unfold opaque_id_validate. by rewrite identifier_id. Qed.

Definition asked_record_set `{Crypto} (request : CloudflareRecordSetPutRequest) (key : CloudflareRecordSetKey)
    (alias : option string) : CoreResult ProviderDnsRecordSet :=
  match alias with
  | None => record_set request key
  | Some caller_alias => remote_record_set request key caller_alias
  end.
Definition asked_control (alias : option string) : CloudflareRecordControlDto :=
  match alias with None => Manual | Some caller_alias => Remote caller_alias end.

(** A record that cannot be proxied, with an automatic TTL and nothing for the
    client to see in its metadata. *)
Definition hidden_automatic (key : CloudflareRecordSetKey) (request : CloudflareRecordSetPutRequest) : bool :=
  negb (proxy_capable (ak_record_type key)) && bool_decide (pu_comment request = None)
  && (zlen (pu_tags request) =? 0)%Z && bool_decide (pu_ttl request = DtoAutomatic).

(** What the adapter guarantees of its observations. *)
Record adapter_observation (observed : ObservedDnsRecordSet) : Prop := {
  ao_valid : ObservedDnsRecordSet_validate observed = Ok tt;
  ao_provider : zr_provider (ob_zone observed) = Cloudflare;
  ao_zone_id : valid_cloudflare_id (zr_zone_id (ob_zone observed)) = true;
  ao_ids : sorted_set (ob_provider_object_ids observed);
  ao_some : ob_provider_object_ids observed ≠ [];
  ao_ids_valid : Forall (λ id, valid_cloudflare_id id = true) (ob_provider_object_ids observed);
}.

Section put.
Context `{CryptoLaws}.
Context (key : CloudflareRecordSetKey) (request : CloudflareRecordSetPutRequest) (alias : option string).
Context (desired : ProviderDnsRecordSet) (observed : ObservedDnsRecordSet).
Hypothesis (Hasked : asked_record_set request key alias = Ok desired).
Hypothesis (Hseen : ob_record_set observed = desired).
Hypothesis (Hadapter : adapter_observation observed).

Lemma asked_describes : describes request key alias desired.
Proof.
  revert Hasked. unfold asked_record_set, record_set, remote_record_set. destruct alias as [a|].
  - destruct (negb _); [done|]. apply record_set_describes.
  - apply record_set_describes.
Qed.
Lemma asked_alias_valid a : alias = Some a → valid_remote_caller_alias a = true.
Proof.
  intros ->. revert Hasked. cbn [asked_record_set]. unfold remote_record_set.
  by destruct (valid_remote_caller_alias a).
Qed.
Lemma asked_split :
  split_cloudflare_record_tags (described_tags request alias) = (bts_of_list (pu_tags request), asked_control alias).
Proof.
  pose proof (ds_tags_user _ _ _ _ asked_describes) as Hu. pose proof asked_alias_valid as Ha.
  unfold described_tags. destruct alias as [a|]; [apply split_marked|apply split_unmarked]; auto.
Qed.

(** What is left of the request where the description has no extension. *)
Lemma no_extension t tags :
  described_extension t (pu_proxy request) (pu_cname_flattening request) (pu_comment request) tags = None →
  proxy_capable t = false ∧ pu_comment request = None ∧ tags = [] ∧ pu_cname_flattening request = ProviderDefault.
Proof.
  unfold described_extension. destruct (_ || _) eqn:E; [done|]. intros _.
  apply orb_false_iff in E as [E Hf]. apply orb_false_iff in E as [Hp E]. apply orb_false_iff in E as [Hc Ht].
  apply negb_false_iff, bool_decide_eq_true in Hf. apply negb_false_iff, Z.eqb_eq in Ht.
  apply bool_decide_eq_false in Hc. split_and!; try done.
  - destruct (pu_comment request); [by destruct Hc|done].
  - destruct tags; [done|]. unfold zlen in Ht. simpl in Ht. lia.
Qed.
Lemma no_proxy : proxy_capable (ak_record_type key) = false → pu_proxy request = None.
Proof.
  pose proof asked_describes as D. rewrite (ds_proxy _ _ _ _ D). intros Hp%bool_decide_eq_false.
  destruct (pu_proxy request); [by destruct Hp|done].
Qed.
Lemma described_some tags t :
  tags ≠ [] →
  described_extension t (pu_proxy request) (pu_cname_flattening request) (pu_comment request) tags =
    Some (ExtCloudflare (pu_proxy request) (pu_cname_flattening request) (pu_comment request) tags).
Proof.
  intros Ht. unfold described_extension. destruct tags as [|x tags]; [done|].
  assert ((zlen (x :: tags) =? 0)%Z = false) as -> by (apply Z.eqb_neq; unfold zlen; simpl; lia).
  by rewrite !orb_true_r.
Qed.

Lemma map_asked_extension :
  map_extension (rs_extension desired) =
  Ok (mkMapped (pu_proxy request) (pu_cname_flattening request) (pu_comment request) (described_tags request alias)).
Proof.
  pose proof asked_describes as D. rewrite (ds_extension _ _ _ _ D).
  destruct (described_extension _ _ _ _ _) as [e|] eqn:E.
  - unfold described_extension in E. destruct (_ || _) in E; [|done]. by injection E as <-.
  - apply no_extension in E as (Hp&->&->&->). by rewrite (no_proxy Hp).
Qed.

(** The projection of the observation. *)
Definition asked_dto : CloudflareRecordSetDto :=
  let zone := ob_zone observed in
  mkRecordDto (zr_provider_account_id zone) (zr_zone_id zone) (zr_apex zone) (zr_visibility zone)
    (ak_owner key) (ak_record_type key) (pu_ttl request) (map map_record_value (rs_values desired))
    (pu_proxy request) (pu_cname_flattening request) (pu_comment request) (bts_of_list (pu_tags request))
    (asked_control alias) (ob_provider_object_ids observed) (ob_revision observed).

Lemma map_asked_record : map_record observed = Ok asked_dto.
Proof.
  pose proof asked_describes as D. destruct Hadapter as [Hv Hp Hz _ Hne Hids].
  unfold map_record. rewrite Hv, Hp, Hz, Hseen. cbn [or_invalid_observation map_err].
  rewrite (ds_key _ _ _ _ D). cbn [key_routing CloudflareRecordSetKey_core].
  assert ((zlen (ob_provider_object_ids observed) =? 0)%Z = false) as ->.
  { apply Z.eqb_neq. destruct (ob_provider_object_ids observed); [done|]. unfold zlen. simpl. lia. }
  assert (existsb (λ id, negb (valid_cloudflare_id id)) (ob_provider_object_ids observed) = false) as ->.
  { clear -Hids. induction Hids as [|i ids Hi Hids IH]; [done|]. simpl. by rewrite Hi. }
  assert (type_in (rs_type desired) proxiable && negb (is_cloudflare_extension (rs_extension desired)) = false) as ->.
  { unfold rs_type. rewrite (ds_key _ _ _ _ D). cbn [key_record_type CloudflareRecordSetKey_core].
    change (type_in (CloudflareRecordType_core (ak_record_type key)) proxiable)
      with (proxy_capable (ak_record_type key)).
    rewrite (ds_extension _ _ _ _ D). unfold described_extension.
    destruct (proxy_capable (ak_record_type key)); [|done]. done. }
  cbn [bool_decide negb orb]. rewrite map_asked_extension, (ds_ttl _ _ _ _ D).
  assert (map_ttl (CloudflareRecordTtlDto_core (pu_ttl request)) = Ok (pu_ttl request)) as -> by by destruct (pu_ttl request).
  cbn [me_tags]. rewrite asked_split. unfold asked_dto, rs_owner, rs_type. rewrite (ds_key _ _ _ _ D).
  cbn [key_owner key_record_type CloudflareRecordSetKey_core]. by destruct (ak_record_type key).
Qed.

(** What the handler validates of it is the desired record set without the
    marker of the remote caller. *)
Definition visible_record_set : ProviderDnsRecordSet :=
  mkRecordSet (CloudflareRecordSetKey_core key) (CloudflareRecordTtlDto_core (pu_ttl request)) (rs_values desired)
    (described_extension (ak_record_type key) (pu_proxy request) (pu_cname_flattening request)
       (pu_comment request) (bts_of_list (pu_tags request))).

Lemma visible_valid :
  is_ok (ProviderDnsRecordSet_validate visible_record_set (ob_zone observed)) = negb (hidden_automatic key request).
Proof.
  pose proof asked_describes as D. pose proof (ao_valid _ Hadapter) as Hv.
  unfold ObservedDnsRecordSet_validate in Hv. rewrite Hseen in Hv.
  destruct (ProviderDnsRecordSet_validate desired (ob_zone observed)) as [[]|] eqn:Hd; [|done]. clear Hv.
  assert (desired = mkRecordSet (CloudflareRecordSetKey_core key) (CloudflareRecordTtlDto_core (pu_ttl request))
    (rs_values desired) (described_extension (ak_record_type key) (pu_proxy request) (pu_cname_flattening request)
       (pu_comment request) (described_tags request alias))) as Hdes.
  { rewrite <-(ds_key _ _ _ _ D), <-(ds_ttl _ _ _ _ D), <-(ds_extension _ _ _ _ D). by destruct desired. }
  rewrite Hdes in Hd. unfold visible_record_set. set (values := rs_values desired) in *. clearbody values.
  pose proof (ds_tags_distinct _ _ _ _ D) as Hdis. pose proof (ds_tags_count _ _ _ _ D) as Hcount.
  pose proof (user_tags_valid _ (ds_tags_user _ _ _ _ D) (ds_tags_names _ _ _ _ D)) as Htags.
  destruct (described_extension (ak_record_type key) (pu_proxy request) (pu_cname_flattening request)
    (pu_comment request) (bts_of_list (pu_tags request))) as [e|] eqn:E.
  - assert (e = ExtCloudflare (pu_proxy request) (pu_cname_flattening request) (pu_comment request)
      (bts_of_list (pu_tags request)) ∧ hidden_automatic key request = false) as [-> ->].
    { unfold described_extension in E. destruct (_ || _) eqn:Eb in E; [|done]. injection E as <-. split; [done|].
      unfold hidden_automatic. destruct (proxy_capable (ak_record_type key)) eqn:Ep; [done|].
      destruct (pu_comment request) eqn:Ec; [done|]. rewrite <-Hdis.
      destruct (zlen (bts_of_list (pu_tags request)) =? 0)%Z; [|done]. cbn in Eb.
      rewrite (ds_flattening _ _ _ _ D) in Eb; [done|]. intros Hc. by rewrite Hc in Ep. }
    assert (described_extension (ak_record_type key) (pu_proxy request) (pu_cname_flattening request)
      (pu_comment request) (described_tags request alias) = Some (ExtCloudflare (pu_proxy request)
      (pu_cname_flattening request) (pu_comment request) (described_tags request alias))) as Ed.
    { unfold described_tags. destruct alias as [a|]; [|done]. apply described_some.
      intros Hn. assert (alias_tag a ∈ []) as Hin; [|by inversion Hin].
      rewrite <-Hn. apply elem_of_bts_insert. by left. }
    rewrite Ed in Hd. rewrite (validate_retag _ _ _ _ _ _ _ _ _ Hd); [done|].
    apply Htags. unfold user_tag_limit in Hcount. case_bool_decide; lia.
  - apply no_extension in E as (Hp&Hco&Ht&Hf).
    assert (hidden_automatic key request = bool_decide (pu_ttl request = DtoAutomatic)) as ->.
    { unfold hidden_automatic. rewrite Hp, Hco, <-Hdis, Ht. done. }
    assert (∃ tags, ProviderDnsRecordSet_validate (mkRecordSet (CloudflareRecordSetKey_core key)
      (CloudflareRecordTtlDto_core (pu_ttl request)) values (Some (ExtCloudflare None ProviderDefault None tags)))
        (ob_zone observed) = Ok tt ∨ ProviderDnsRecordSet_validate (mkRecordSet (CloudflareRecordSetKey_core key)
      (CloudflareRecordTtlDto_core (pu_ttl request)) values None) (ob_zone observed) = Ok tt) as [tags [Hx|Hx]].
    { exists (described_tags request alias). unfold described_extension in Hd.
      rewrite Hp, Hco, Hf, no_proxy in Hd by done. cbn in Hd. destruct (_ || _) in Hd; auto. }
    + pose proof (validate_untag _ _ _ _ _ Hx) as Hu. case_bool_decide as Ha.
      * rewrite Ha in Hu |- *. destruct (ProviderDnsRecordSet_validate (mkRecordSet _ _ values None) _) as [[]|]; [|done].
        by destruct (proj1 Hu eq_refl).
      * by rewrite (proj2 Hu) by by destruct (pu_ttl request).
    + rewrite Hx. case_bool_decide as Ha; [|done]. exfalso. rewrite Ha in Hx.
      unfold ProviderDnsRecordSet_validate, validate_no_extension in Hx. cbn [rs_ttl rs_extension CloudflareRecordTtlDto_core] in Hx.
      destruct (DnsZoneRef_validate _); [|done]. destruct (DnsRecordSetKey_validate _); [|done].
      destruct (negb _); [done|]. destruct (_ && _) in Hx; [done|]. destruct (validate_shape _); [|done].
      by destruct (_ && _) in Hx.
Qed.

Lemma check_ids ids : Forall (λ id, valid_cloudflare_id id = true) ids → check_object_ids ids = Ok tt.
Proof.
  induction 1 as [|id ids Hid Hids IH]; [done|]. cbn [check_object_ids].
  assert (invalid_record_object_id id = false) as ->.
  { unfold invalid_record_object_id, CLOUDFLARE_RECORD_ID_LEN. unfold valid_cloudflare_id, CLOUDFLARE_ID_LEN in Hid.
    by apply andb_true_iff in Hid as [-> ->]. }
  assert (DnsRecordObjectId_validate id = Ok tt) as -> by by apply valid_id_opaque. done.
Qed.

Lemma asked_dto_valid : is_ok (CloudflareRecordSetDto_validate asked_dto) = negb (hidden_automatic key request).
Proof.
  pose proof asked_describes as D. destruct Hadapter as [Hv Hp Hz Hs Hne Hids].
  rewrite <-visible_valid. destruct (core_values_octets _ _ (ds_values _ _ _ _ D)) as [Hsv Hov].
  unfold ObservedDnsRecordSet_validate in Hv. rewrite Hseen in Hv.
  destruct (ProviderDnsRecordSet_validate desired (ob_zone observed)) as [[]|] eqn:Hd; [|done].
  destruct (DnsRecordRevision_validate (ob_revision observed)) as [[]|] eqn:Hr; [|done].
  assert (DnsZoneRef_validate (ob_zone observed) = Ok tt) as Hzone.
  { unfold ProviderDnsRecordSet_validate in Hd. by destruct (DnsZoneRef_validate _) as [[]|]. }
  unfold DnsZoneRef_validate in Hzone. destruct (CloudResourceId_validate _) as [[]|] eqn:Ha in Hzone; [|done].
  unfold CloudflareRecordSetDto_validate, asked_dto.
  cbn [rd_provider_account_id rd_zone_id rd_revision rd_values rd_ttl rd_tags rd_control rd_provider_object_ids
       rd_zone_apex rd_zone_visibility rd_record_type rd_proxy rd_cname_flattening rd_comment rd_owner].
  assert (validate_cloudflare_zone_id (zr_zone_id (ob_zone observed)) = Ok tt) as ->.
  { unfold validate_cloudflare_zone_id, CLOUDFLARE_ZONE_ID_LEN. rewrite Hzone. unfold valid_cloudflare_id, CLOUDFLARE_ID_LEN in Hz.
    by apply andb_true_iff in Hz as [-> ->]. }
  rewrite Ha, Hr, (core_values_back _ Hsv Hov).
  assert (zlen (map map_record_value (rs_values desired)) = zlen (rs_values desired)) as ->
    by (unfold zlen; by rewrite length_map).
  rewrite Z.eqb_refl.
  rewrite (ds_range _ _ _ _ D). cbn [negb]. rewrite (bts_of_sorted (bts_of_list (pu_tags request))) by apply bts_of_list_sorted.
  rewrite Z.eqb_refl. cbn [negb].
  assert (existsb is_reserved_cloudflare_record_tag (bts_of_list (pu_tags request)) = false) as ->.
  { pose proof (ds_tags_user _ _ _ _ D) as Hu. clear -Hu. induction Hu as [|t ts [_ Ht] Hu IH]; [done|]. simpl. by rewrite Ht. }
  assert (match asked_control alias with Remote caller_alias => negb (valid_remote_caller_alias caller_alias)
    | _ => false end = false) as ->.
  { pose proof asked_alias_valid as Hal. destruct alias as [a|]; [|done]. cbn. by rewrite (Hal a). }
  rewrite bts_of_sorted by done. rewrite Z.eqb_refl. cbn [negb orb].
  assert ((zlen (ob_provider_object_ids observed) =? 0)%Z = false) as ->.
  { apply Z.eqb_neq. destruct (ob_provider_object_ids observed); [done|]. unfold zlen. simpl. lia. }
  rewrite check_ids by done.
  assert (bool_decide (described_extension (ak_record_type key) (pu_proxy request) (pu_cname_flattening request)
    (pu_comment request) (bts_of_list (pu_tags request)) = None) && bool_decide (is_Some (pu_proxy request)) = false) as ->.
  { case_bool_decide as He; [|done]. apply no_extension in He as [He _]. rewrite (no_proxy He). done. }
  assert ({| zr_provider_account_id := zr_provider_account_id (ob_zone observed); zr_provider := Cloudflare;
             zr_zone_id := zr_zone_id (ob_zone observed); zr_apex := zr_apex (ob_zone observed);
             zr_visibility := zr_visibility (ob_zone observed) |} = ob_zone observed) as ->.
  { rewrite <-Hp. by destruct (ob_zone observed). }
  done.
Qed.

Lemma asked_plain_visible : alias = None → hidden_automatic key request = false.
Proof.
  intros Hn. apply negb_true_iff. rewrite <-visible_valid. pose proof asked_describes as D.
  assert (visible_record_set = desired) as ->.
  { unfold visible_record_set. rewrite <-(ds_key _ _ _ _ D), <-(ds_ttl _ _ _ _ D).
    assert (bts_of_list (pu_tags request) = described_tags request alias) as -> by (unfold described_tags; by rewrite Hn).
    rewrite <-(ds_extension _ _ _ _ D). by destruct desired. }
  pose proof (ao_valid _ Hadapter) as Hv. unfold ObservedDnsRecordSet_validate in Hv. rewrite Hseen in Hv.
  by destruct (ProviderDnsRecordSet_validate desired (ob_zone observed)) as [[]|].
Qed.

Lemma asked_accepted :
  put_as_asked (zr_provider_account_id (ob_zone observed)) (zr_zone_id (ob_zone observed)) key request desired
    (asked_control alias) asked_dto = negb (hidden_automatic key request).
Proof.
  pose proof asked_describes as D. destruct (core_values_octets _ _ (ds_values _ _ _ _ D)) as [Hsv Hov].
  unfold put_as_asked. rewrite asked_dto_valid. unfold matches_scope, asked_dto.
  cbn [rd_provider_account_id rd_zone_id rd_values rd_ttl rd_tags rd_control rd_record_type rd_proxy
       rd_cname_flattening rd_comment rd_owner].
  rewrite !String.eqb_refl, (core_values_back _ Hsv Hov), (ds_ttl _ _ _ _ D).
  rewrite (bts_of_sorted (bts_of_list (pu_tags request))) by apply bts_of_list_sorted.
  rewrite !bool_decide_eq_true_2 by done. by rewrite !andb_true_r.
Qed.
End put.

(** C21.  A confirmed write is accepted as the answer.  If a request describes a
    record set, with or without the marker of a remote caller, and the adapter
    observes exactly that record set, then the observation projects to an answer
    that the handler compares as what was asked for: owner, type, TTL, values in
    any order, proxy state, flattening, comment, tags and provenance.  There is one
    exception: a remote request for a record that cannot be proxied, with an
    automatic TTL and neither comment nor tags, is written and observed, and its
    answer is then refused. *)
Theorem cloudflare_put_roundtrip `{CryptoLaws} (key : CloudflareRecordSetKey)
    (request : CloudflareRecordSetPutRequest) (alias : option string) (desired : ProviderDnsRecordSet)
    (observed : ObservedDnsRecordSet) :
  asked_record_set request key alias = Ok desired → ob_record_set observed = desired →
  adapter_observation observed →
  ∃ dto, map_record observed = Ok dto ∧
    put_as_asked (zr_provider_account_id (ob_zone observed)) (zr_zone_id (ob_zone observed)) key request desired
      (asked_control alias) dto = negb (hidden_automatic key request) ∧
    (hidden_automatic key request = true → is_Some alias).
Proof.
  intros Ha Hs Ho. exists (asked_dto key request alias desired observed). split_and!.
  - by apply map_asked_record.
  - by apply asked_accepted.
  - intros Hh. destruct alias as [a|]; [by eexists|]. by rewrite (asked_plain_visible _ _ _ _ _ Ha Hs Ho eq_refl) in Hh.
Qed.

Definition demo_caller : string := "0123456789012345678901234567890123456789abc".
Definition demo_api_key : CloudflareRecordSetKey := mkApiKey "www.example.com" RtA.
Definition demo_put : CloudflareRecordSetPutRequest :=
  mkPut DtoMustNotExist DtoAutomatic [DtoA [192; 0; 2; 7]%Z; DtoA [192; 0; 2; 1]%Z] (Some Proxied) ProviderDefault
    (Some "web") ["team:dns"; "app:shop"].
Definition demo_put_desired : ProviderDnsRecordSet :=
  mkRecordSet (mkKey "www.example.com" TA RSimple) Automatic [VA [192; 0; 2; 1]%Z; VA [192; 0; 2; 7]%Z]
    (Some (ExtCloudflare (Some Proxied) ProviderDefault (Some "web")
      ["app:shop"; "edgion-center-remote:0123456789012345678901234567890123456789abc"; "team:dns"])).
Definition demo_put_observed : ObservedDnsRecordSet :=
  mkObserved demo_cf_zone demo_put_desired ["0123456789abcdef0123456789abcdef"] "rev-1".

Lemma cloudflare_put_roundtrip_witness :
  ∃ dto, @map_record demo_keyed_crypto demo_put_observed = Ok dto ∧
    @put_as_asked demo_keyed_crypto "account-a" (zr_zone_id demo_cf_zone) demo_api_key demo_put
      demo_put_desired (Remote demo_caller) dto = true.
Proof.
  destruct (@cloudflare_put_roundtrip demo_keyed_crypto demo_keyed_crypto_laws demo_api_key demo_put
    (Some demo_caller) demo_put_desired demo_put_observed) as (dto&Hm&Hp&_).
  - vm_compute. reflexivity.
  - reflexivity.
  - split; try (vm_compute; reflexivity).
    + repeat constructor.
    + done.
    + repeat constructor.
  - exists dto. split; [exact Hm|]. exact Hp.
Defined.
