(* ===== verification/CloudflareServices.v ===== *)
(** * CloudflareServices: what the Cloudflare services stand on

    The calls that the services of [crates/center-integration-cloudflare/src] make:
    the account store, the credential files, the Cloudflare API under one token,
    the concurrency limits and the mark of a dispatched mutation
    ([DispatchTrackingApi] of dns_write_service.rs); and the authority under which
    an operation acts. *)

From Stdlib Require Import ZArith Ascii String Lia.
From S2P Require Import Prelude Text Core Effects Dns ProviderErrors Tokens CloudAccounts CredentialFiles CloudflareModel CloudflareAdapter CloudflareHttp CloudflareDnsApi.

(** ** The port *)

Inductive svc_call : Type → Type :=
| GetAccount (account_id : string) : svc_call (CoreResult (option ProviderAccount))
| Files {X : Type} (e : fs_call X) : svc_call X
| BuildApi (token : string) : svc_call (DnsProviderResult ())
| Api {X : Type} (token : string) (e : cf_call X) : svc_call X
| AccountSemaphore (account_id : string) : svc_call (admin_result nat)
| AcquireAccount (id : nat) : svc_call (admin_result ())
| AcquireGlobal : svc_call (admin_result ())
| StoreDispatched : svc_call ()
| LoadDispatched : svc_call bool.
Abbreviation svc_event := (event svc_call).
Abbreviation timed_svc := (event (timed svc_call)).
Abbreviation svc_prog A := (prog svc_call (admin_result A)).

(** Reading the clock, building a client, looking up a semaphore and the atomic
    are synchronous. *)
Definition svc_awaits (X : Type) (e : svc_call X) : bool :=
  match e with
  | Api _ e => match e with CloudflareAdapter.Now => false | _ => true end
  | BuildApi _ | AccountSemaphore _ | StoreDispatched | LoadDispatched => false
  | _ => true
  end.
Definition is_mutation {X} (e : cf_call X) : bool :=
  match e with CreateZone _ | DeleteZone _ | PatchDnssec _ _ | BatchRecords _ _ => true | _ => false end.

(** The atomic belongs to one operation: it is loaded as it was last stored. *)
Definition stored (ev : svc_event) : bool := match ev with Ev e _ => match e with StoreDispatched => true | _ => false end end.
Definition svc_answers (t : list svc_event) (X : Type) (e : svc_call X) : X → Prop :=
  match e in svc_call X return X → Prop with
  | LoadDispatched => λ x, x = existsb stored t
  | _ => λ _, True
  end.
Abbreviation svc_exec := (exec (constrained svc_answers)).
Abbreviation timed_exec := (exec (constrained (timed_answers svc_answers))).

(** ** The tracked API *)

Definition tracking (token : string) (X : Type) (e : cf_call X) : prog svc_call X :=
  if is_mutation e then
    _ <~ StoreDispatched ;;
    x <~ Api token e ;;
    Ret x
  else
    x <~ Api token e ;;
    Ret x.
Definition tracked {A} (token : string) (p : prog cf_call A) : prog svc_call A := interp (tracking token) p.

(** ** The token of an account *)

Definition in_files {A} (p : prog fs_call A) : prog svc_call A := interp (λ X e, x <~ Files e ;; Ret x) p.
Definition unavailable {A E} (r : result A E) : admin_result A := map_err (λ _, AdminUnavailable) r.

Section token.
Context `{Crypto} (hex_encode : string → string) (mounted_resolver : MountedCredentialResolver).

Definition resolve_credential (account : ProviderAccount) (purpose : CredentialPurpose) (credential_ref : string) :
    svc_prog ResolvedCredential :=
  await? resolved := pbind (in_files (resolve hex_encode mounted_resolver
    (mkResolve (md_id (pa_metadata account)) Cloudflare purpose credential_ref))) (λ r, Ret (unavailable r)) in
  Ret (Ok resolved).

Definition token_of (material : string) : admin_result string :=
  if utf8_valid material then unavailable (CloudflareApiToken_new material) else Err AdminUnavailable.
End token.

(** ** Runs *)

Lemma svc_answerable (t : list svc_event) X (e : svc_call X) : ∃ x, svc_answers t X e x.
Proof.
  assert (∀ Y, cf_call Y → inhabited Y) as Hcf.
  { intros Y e'. destruct e'; constructor; exact (Err (mkProviderError CatTransient "" "" None None)). }
  assert (∀ Y, fs_call Y → inhabited Y) as Hfs by (intros Y e'; destruct e'; constructor; exact None).
  destruct e as [| Y e| | Y token e| | | | |]; cbn [svc_answers]; eauto.
  - by exists (Err (Conflict "")).
  - destruct (Hfs Y e) as [x]. by exists x.
  - by exists (Ok tt).
  - destruct (Hcf Y e) as [x]. by exists x.
  - by exists (Ok 0).
  - by exists (Ok tt).
  - by exists (Ok tt).
  - by exists tt.
Qed.

(** The calls of the adapter as they appear below the tracking. *)
Definition tracked_event (token : string) (ev : cf_event) : list svc_event :=
  match ev with
  | Ev e x => (if is_mutation e then [Ev StoreDispatched ()] else []) ++ [Ev (Api token e) x]
  end.
Lemma tracked_exec {A} token (p : prog cf_call A) t r t' :
  svc_exec (tracked token p) t r t' →
  ∃ u, exec traced p [] r u ∧ t' = t ++ (u ≫= tracked_event token).
Proof.
  unfold tracked. revert t. induction p as [a|X e k IH]; intros t; cbn [interp].
  { intros [-> ->]. exists []. simpl. by rewrite app_nil_r. }
  unfold tracking. destruct (is_mutation e) eqn:Hm; cbn [pbind].
  - intros ([]&_&He)%constrained_step. apply constrained_step in He as (x&_&He).
    apply IH in He as (u&Hu&->). exists (Ev e x :: u). split.
    + exists x, [Ev e x]. split; [done|]. apply exec_traced_app. by exists u.
    + rewrite bind_cons. cbn [tracked_event]. rewrite Hm. rewrite <-!app_assoc. done.
  - intros (x&_&He)%constrained_step. apply IH in He as (u&Hu&->). exists (Ev e x :: u). split.
    + exists x, [Ev e x]. split; [done|]. apply exec_traced_app. by exists u.
    + rewrite bind_cons. cbn [tracked_event]. rewrite Hm. rewrite <-!app_assoc. done.
Qed.

Definition file_event (ev : fs_event) : svc_event := match ev with Ev e x => Ev (Files e) x end.
Lemma in_files_exec {A} (p : prog fs_call A) t r t' :
  svc_exec (in_files p) t r t' → ∃ u, exec traced p [] r u ∧ t' = t ++ map file_event u.
Proof.
  unfold in_files. revert t. induction p as [a|X e k IH]; intros t; cbn [interp pbind].
  { intros [-> ->]. exists []. simpl. by rewrite app_nil_r. }
  intros (x&_&He)%constrained_step. apply IH in He as (u&Hu&->). exists (Ev e x :: u). split.
  - exists x, [Ev e x]. split; [done|]. apply exec_traced_app. by exists u.
  - rewrite <-app_assoc. done.
Qed.
