(* ===== verification/CloudflareWrites.v ===== *)
(** * CloudflareWrites: the synchronous Cloudflare write service

    [crates/center-integration-cloudflare/src/dns_write_service.rs]: each write runs
    under a deadline, within the concurrency limits, with an authority (account and
    token) that is checked again before the mutation is sent and after it was
    answered.  The theorems show that a mutation is sent at most once and only under
    a current authority, and that a definite answer is true whatever the provider,
    the store and the clock do. *)

From Stdlib Require Import ZArith Ascii String Lia.
From S2P Require Import Prelude Identity Text Core Effects BTree Dns DnsChange ZoneLifecycle ProviderErrors RecordValues Tokens CloudAccounts CredentialFiles CloudflareModel CloudflareInventory CloudflarePlan CloudflareTokens CloudflareAdapter CloudflareHttp CloudflareLifecycle CloudflareWriter CloudflareDnsApi CloudflareDnsAdmin CloudflareServices.

Definition DEFAULT_TIMEOUT_SECS : Z := 30.
Definition MAX_TIMEOUT_SECS : Z := 120.
Definition DEFAULT_GLOBAL_CONCURRENCY : Z := 4.
Definition MAX_GLOBAL_CONCURRENCY : Z := 32.
Definition DEFAULT_ACCOUNT_CONCURRENCY : Z := 1.
Definition MAX_ACCOUNT_CONCURRENCY : Z := 4.

Record CloudflareDnsWriteConfig := mkWriteConfig {
  wc_enabled : bool;
  wc_operation_timeout_secs : Z;             (* u64 *)
  wc_global_concurrency : Z;                 (* usize *)
  wc_per_account_concurrency : Z;            (* usize *)
}.
Definition default_config : CloudflareDnsWriteConfig :=
  mkWriteConfig false DEFAULT_TIMEOUT_SECS DEFAULT_GLOBAL_CONCURRENCY DEFAULT_ACCOUNT_CONCURRENCY.

(** The account store is the port; the semaphores start with these numbers. *)
Record CloudflareDnsWriteService := mkWriteService {
  sv_mounted_resolver : MountedCredentialResolver;
  sv_timeout_secs : Z;
  sv_global : Z;
  sv_per_account_concurrency : Z;
}.
Definition outside (lo hi v : Z) : bool := (v <? lo)%Z || (hi <? v)%Z.
Definition compose_dns_write_admin (config : CloudflareDnsWriteConfig) (account_store : option ())
    (mounted_resolver : option MountedCredentialResolver) : CoreResult (option CloudflareDnsWriteService) :=
  if negb (wc_enabled config) then Ok None
  else if outside 1 MAX_TIMEOUT_SECS (wc_operation_timeout_secs config)
          || outside 1 MAX_GLOBAL_CONCURRENCY (wc_global_concurrency config)
          || outside 1 MAX_ACCOUNT_CONCURRENCY (wc_per_account_concurrency config)
          || (wc_global_concurrency config <? wc_per_account_concurrency config)%Z
  then Err (Conflict "Cloudflare DNS write limits are invalid")
  else
    let? _ := ok_or (Conflict "Cloudflare DNS write requires a provider account store") account_store in
    let? mounted_resolver := ok_or (Conflict "Cloudflare DNS write requires mounted credentials") mounted_resolver in
    Ok (Some (mkWriteService mounted_resolver (wc_operation_timeout_secs config) (wc_global_concurrency config)
                (wc_per_account_concurrency config))).

Record RequestAuthority := mkAuthority {
  ra_account : ProviderAccount;
  ra_token_revision : string;
}.

Definition validate_account (requested_account_id : string) (account : ProviderAccount) : admin_result () :=
  if negb (String.eqb (md_id (pa_metadata account)) requested_account_id)
     || negb (bool_decide (md_management_policy (pa_metadata account) = Managed))
     || negb (bool_decide (as_provider (pa_spec account) = Cloudflare))
     || negb (match as_scope (pa_spec account) with Some (ScopeCloudflare _) => true | _ => false end)
     || negb (match as_credential_source (pa_spec account) with StaticSecret _ => true | _ => false end)
  then Err AdminInvalidRequest else Ok tt.

(** The metric it records is left out. *)
Definition map_provider_error (error : NormalizedProviderError) : CloudflareDnsAdminError :=
  match pe_category error with
  | CatValidation => AdminInvalidRequest
  | CatNotFound => AdminNotFound
  | CatConflict => AdminConflict
  | CatUnknownOutcome => AdminUnknownOutcome
  | _ => AdminUnavailable
  end.
Definition provider_result {A} (r : DnsProviderResult A) : admin_result A := map_err map_provider_error r.

Definition map_post_dispatch_zone (observed : ObservedCloudflareZone) : admin_result CloudflareZoneDto :=
  map_err (λ _, AdminUnknownOutcome) (map_zone observed).

Definition reject_soa_record_set (key : DnsRecordSetKey) : admin_result () :=
  if bool_decide (key_record_type key = TSoa) then Err AdminInvalidRequest else Ok tt.
Definition reject_apex_ns_record_set (zone : DnsZoneRef) (key : DnsRecordSetKey) : admin_result () :=
  if String.eqb (key_owner key) (zr_apex zone) && bool_decide (key_record_type key = TNs)
  then Err AdminInvalidRequest else Ok tt.

Definition put_change (request : CloudflareRecordSetPutRequest) (desired : ProviderDnsRecordSet)
    (previous : option ObservedDnsRecordSet) : admin_result DnsRecordChange :=
  match pu_guard request, previous with
  | DtoMustNotExist, None => Ok (CreateChange desired MustNotExist)
  | DtoMustNotExist, Some _ => Err AdminConflict
  | DtoMatchRevision revision, Some previous =>
      if String.eqb (ob_revision previous) revision
      then Ok (ReplaceChange previous desired (MatchObserved revision)) else Err AdminConflict
  | DtoMatchRevision _, None => Err AdminNotFound
  end.

(** ** The service *)

Section service.
Context `{Idna, RecordsDigest, Crypto} (hex_encode : string → string) (self : CloudflareDnsWriteService).
(** The identity of the writer's allocation. *)
Context (instance : nat).

Definition resolve_token (account : ProviderAccount) : svc_prog (string * string) :=
  match as_credential_source (pa_spec account) with
  | StaticSecret credential_ref =>
      await? resolved := resolve_credential hex_encode (sv_mounted_resolver self) account CloudflareApiTokenPurpose
                           credential_ref in
      try? token := token_of (rv_material resolved) in
      Ret (Ok (token, rv_revision resolved))
  | _ => Ret (Err AdminInvalidRequest)
  end.

Definition prepare (account_id : string) : svc_prog (string * CloudflareDnsSyncWriter * RequestAuthority) :=
  account <~ GetAccount account_id ;;
  try? account := unavailable account in
  try? account := ok_or AdminNotFound account in
  try? _ := validate_account account_id account in
  await? resolved := resolve_token account in
  let '(token, token_revision) := resolved in
  api <~ BuildApi token ;;
  try? _ := unavailable api in
  try? writer := unavailable (CloudflareDnsSyncWriter_new instance (md_id (pa_metadata account)) (pa_spec account)) in
  Ret (Ok (token, writer, mkAuthority account token_revision)).

Definition is_account (account : ProviderAccount) (r : CoreResult (option ProviderAccount)) : bool :=
  match r with Ok (Some current) => bool_decide (current = account) | _ => false end.
Definition authority_is_current (authority : RequestAuthority) : prog svc_call bool :=
  current <~ GetAccount (md_id (pa_metadata (ra_account authority))) ;;
  if negb (is_account (ra_account authority) current) then Ret false
  else
    pbind (resolve_token (ra_account authority)) (λ r,
      match r with
      | Err _ => Ret false
      | Ok (_, revision) =>
          if negb (String.eqb revision (ra_token_revision authority)) then Ret false
          else
            final <~ GetAccount (md_id (pa_metadata (ra_account authority))) ;;
            Ret (is_account (ra_account authority) final)
      end).
(** [if !self.authority_is_current(..).await { return Err(error) }]. *)
Definition ensure_current (authority : RequestAuthority) (error : CloudflareDnsAdminError) : svc_prog () :=
  pbind (authority_is_current authority) (λ current, Ret (if current then Ok tt else Err error)).

Definition observe_exact_zone (token : string) (writer : CloudflareDnsSyncWriter) (account_id zone_id : string) :
    svc_prog DnsZoneRef :=
  await? observed := pbind (tracked token (observe_zone writer zone_id)) (λ r, Ret (provider_result r)) in
  try? observed := ok_or AdminNotFound observed in
  let zone := oc_zone observed in
  if negb (String.eqb (zr_provider_account_id zone) account_id) || negb (String.eqb (zr_zone_id zone) zone_id)
     || negb (bool_decide (zr_provider zone = Cloudflare)) || negb (bool_decide (zr_visibility zone = Public))
  then Ret (Err AdminInvalidProviderObservation) else Ret (Ok zone).

(** How every operation begins: its permits, then its writer and a current
    authority. *)
Definition with_writer {A} (account_id : string)
    (k : string → CloudflareDnsSyncWriter → RequestAuthority → svc_prog A) : svc_prog A :=
  limit <~ AccountSemaphore account_id ;;
  try? limit := limit in
  permit <~ AcquireAccount limit ;;
  try? _ := permit in
  permit <~ AcquireGlobal ;;
  try? _ := permit in
  await? prepared := prepare account_id in
  let '(token, writer, authority) := prepared in
  await? _ := ensure_current authority AdminUnavailable in
  k token writer authority.

(** How a guarded operation ends: the mutation is sent under an authority that was
    just checked.  [dispatched] says what the answer to a sent mutation means,
    [not_dispatched] what an outcome without one means. *)
Definition guarded {A B} (token : string) (authority : RequestAuthority) (p : prog cf_call (DnsProviderResult A))
    (dispatched not_dispatched : DnsProviderResult A → admin_result B) : svc_prog B :=
  await? _ := ensure_current authority AdminUnavailable in
  pbind (tracked token p) (λ outcome,
    marker <~ LoadDispatched ;;
    if (marker : bool) then
      await? _ := ensure_current authority AdminUnknownOutcome in
      Ret (dispatched outcome)
    else
      await? _ := ensure_current authority AdminUnavailable in
      Ret (not_dispatched outcome)).

(** [classify_timeout]. *)
Definition within_deadline {A} (operation : svc_prog A) : prog (timed svc_call) (admin_result A) :=
  pbind (deadline svc_awaits operation) (λ r,
    match r with
    | Some r => Ret r
    | None =>
        dispatched <~ Sync LoadDispatched ;;
        Ret (Err (if (dispatched : bool) then AdminUnknownOutcome else AdminUnavailable))
    end).

(** What a put makes of the outcome. *)
Definition put_answer (remote_caller_alias : option string) (outcome : DnsProviderResult CloudflareDnsSyncRecordOutcome) :
    admin_result CloudflareRecordSetDto :=
  match outcome with
  | Ok (OutcomePresent observed) =>
      let? dto := map_err (λ _, AdminUnknownOutcome) (map_record observed) in
      if is_some_and (λ alias, negb (bool_decide (rd_control dto = Remote alias))) remote_caller_alias
      then Err AdminUnknownOutcome else Ok dto
  | Ok OutcomeDeleted => Err AdminUnknownOutcome
  | Err error => Err (map_provider_error error)
  end.
Definition unsent {A B} (outcome : DnsProviderResult A) : admin_result B :=
  match outcome with Err error => Err (map_provider_error error) | Ok _ => Err AdminUnknownOutcome end.

Definition put_operation (account_id zone_id : string) (key : CloudflareRecordSetKey)
    (request : CloudflareRecordSetPutRequest) (remote_caller_alias : option string) :
    svc_prog CloudflareRecordSetDto :=
  let core_key := CloudflareRecordSetKey_core key in
  with_writer account_id (λ token writer authority,
    await? zone := observe_exact_zone token writer account_id zone_id in
    try? _ := reject_apex_ns_record_set zone core_key in
    try? desired := map_err (λ _, AdminInvalidRequest) (asked_record_set request key remote_caller_alias) in
    await? previous := pbind (tracked token (observe_record_set writer zone (rs_key desired)))
                         (λ r, Ret (provider_result r)) in
    try? change := put_change request desired previous in
    guarded token authority (apply_record_change writer zone change) (put_answer remote_caller_alias) unsent).
Definition put_record_set_inner (account_id zone_id : string) (key : CloudflareRecordSetKey)
    (request : CloudflareRecordSetPutRequest) (remote_caller_alias : option string) :
    prog (timed svc_call) (admin_result CloudflareRecordSetDto) :=
  try? _ := reject_soa_record_set (CloudflareRecordSetKey_core key) in
  within_deadline (put_operation account_id zone_id key request remote_caller_alias).

Definition create_operation (account_id : string) (request : CloudflareZoneCreateRequest) : svc_prog CloudflareZoneDto :=
  with_writer account_id (λ token writer authority,
    await? observed := pbind (tracked token (CloudflareWriter.create_zone writer (zc_name request))) (λ r, Ret (provider_result r)) in
    await? _ := ensure_current authority AdminUnknownOutcome in
    Ret (map_post_dispatch_zone observed)).

Definition delete_zone_operation (account_id zone_id : string) (request : CloudflareZoneDeleteRequest) : svc_prog () :=
  with_writer account_id (λ token writer authority,
    await? guard := pbind (tracked token (preflight_zone_delete writer zone_id (zx_confirm_name request)
                             (zx_expected_revision request))) (λ r, Ret (provider_result r)) in
    guarded token authority (CloudflareWriter.delete_zone writer guard) provider_result provider_result).

Definition deletion_answer (outcome : DnsProviderResult CloudflareDnsSyncRecordOutcome) : admin_result () :=
  match outcome with
  | Ok OutcomeDeleted => Ok tt
  | Ok (OutcomePresent _) => Err AdminUnknownOutcome
  | Err error => Err (map_provider_error error)
  end.
Definition delete_record_operation (account_id zone_id : string) (key : CloudflareRecordSetKey)
    (request : CloudflareRecordSetDeleteRequest) : svc_prog () :=
  let core_key := CloudflareRecordSetKey_core key in
  with_writer account_id (λ token writer authority,
    await? zone := observe_exact_zone token writer account_id zone_id in
    try? _ := reject_apex_ns_record_set zone core_key in
    await? previous := pbind (tracked token (observe_record_set writer zone core_key)) (λ r, Ret (provider_result r)) in
    try? previous := ok_or AdminNotFound previous in
    if negb (String.eqb (ob_revision previous) (rx_expected_revision request)) then Ret (Err AdminConflict)
    else
      guarded token authority
        (apply_record_change writer zone (DeleteChange previous (MatchObserved (rx_expected_revision request))))
        deletion_answer unsent).

(** The trait [CloudflareDnsWriteAdminService]; the reads are those of the read
    service. *)
Definition svc_create_zone account_id request := within_deadline (create_operation account_id request).
Definition svc_delete_zone account_id zone_id request := within_deadline (delete_zone_operation account_id zone_id request).
Definition svc_put_record_set account_id zone_id key request := put_record_set_inner account_id zone_id key request None.
Definition svc_put_remote_record_set account_id zone_id key request caller_alias :=
  put_record_set_inner account_id zone_id key request (Some caller_alias).
Definition svc_delete_record_set (account_id zone_id : string) (key : CloudflareRecordSetKey)
    (request : CloudflareRecordSetDeleteRequest) : prog (timed svc_call) (admin_result ()) :=
  try? _ := reject_soa_record_set (CloudflareRecordSetKey_core key) in
  within_deadline (delete_record_operation account_id zone_id key request).

(** ** Runs of an operation *)

(** Neither a call of the API nor the mark. *)
Definition quiet (ev : svc_event) : Prop :=
  match ev with Ev e _ => match e with Api _ _ | StoreDispatched => False | _ => True end end.
(** No mutation is sent, and none is marked. *)
Definition harmless (ev : svc_event) : Prop :=
  match ev with Ev e _ => match e with Api _ e => is_mutation e = false | StoreDispatched => False | _ => True end end.
Lemma quiet_harmless u : Forall quiet u → Forall harmless u.
Proof. intros Hu. eapply Forall_impl; [exact Hu|]. intros [X e x]. by destruct e. Qed.
Lemma harmless_unstored u : Forall harmless u → existsb stored u = false.
Proof. induction 1 as [|[X e x] u He _ IH]; [done|]. simpl. rewrite IH. by destruct e. Qed.
Lemma files_quiet fs : Forall quiet (map file_event fs).
Proof. induction fs as [|[X e x] fs IH]; by constructor. Qed.

(** [token] and [revision] are those of the credential of the account. *)
Definition resolved_as (account : ProviderAccount) (token revision : string) (fs : list fs_event) : Prop :=
  ∃ credential_ref credential, as_credential_source (pa_spec account) = StaticSecret credential_ref ∧
    exec traced (resolve hex_encode (sv_mounted_resolver self)
      (mkResolve (md_id (pa_metadata account)) Cloudflare CloudflareApiTokenPurpose credential_ref)) []
      (Ok credential) fs ∧
    token = rv_material credential ∧ revision = rv_revision credential.

Lemma resolve_token_exec account t r t' :
  svc_exec (resolve_token account) t r t' →
  ∃ fs, t' = t ++ map file_event fs ∧
    match r with Ok (token, revision) => resolved_as account token revision fs | Err _ => True end.
Proof.
  unfold resolve_token, resolve_credential.
  destruct (as_credential_source (pa_spec account)) as [credential_ref| | |] eqn:Hs;
    try (intros [-> ->]; exists []; simpl; by rewrite app_nil_r).
  intros (c&s1&Hc&He)%exec_bind. apply exec_bind in Hc as (d&s2&Hd&Hc). apply exec_bind in Hd as (f&s3&Hf&Hd).
  apply in_files_exec in Hf as (fs&Hf&->). destruct Hd as [-> ->]. exists fs.
  destruct f as [credential|]; cbn [unavailable map_err] in Hc; destruct Hc as [-> ->]; [|by destruct He as [-> ->]].
  unfold token_of in He. destruct (utf8_valid _); [|by destruct He as [-> ->]].
  destruct (CloudflareApiToken_new _) as [token|] eqn:Ht; cbn [unavailable map_err] in He; destruct He as [-> ->]; [|done].
  split; [done|]. exists credential_ref, credential. split_and!; [done|done| |done].
  unfold CloudflareApiToken_new in Ht. destruct (_ || _) in Ht; [done|]. by injection Ht as <-.
Qed.

(** The account is the one of the authority, before and after its credential has
    the revision of the authority. *)
Definition current_authority (authority : RequestAuthority) (u : list svc_event) : Prop :=
  let read := Ev (GetAccount (md_id (pa_metadata (ra_account authority)))) (Ok (Some (ra_account authority))) in
  ∃ token fs, u = read :: map file_event fs ++ [read] ∧
    resolved_as (ra_account authority) token (ra_token_revision authority) fs.

Lemma is_account_true account r : is_account account r = true → r = Ok (Some account).
Proof. unfold is_account. destruct r as [[a|]|]; [|done|done]. by intros ->%bool_decide_eq_true. Qed.

Lemma authority_exec authority t b t' :
  svc_exec (authority_is_current authority) t b t' →
  ∃ u, t' = t ++ u ∧ Forall quiet u ∧ (b = true → current_authority authority u).
Proof.
  unfold authority_is_current. intros (current&_&He)%constrained_step.
  destruct (is_account _ current) eqn:Hc; cbn [negb] in He.
  2: { destruct He as [-> ->]. eexists. split; [done|]. split; [by repeat constructor|done]. }
  apply is_account_true in Hc as ->.
  apply exec_bind in He as (r&s1&Hr&He). apply resolve_token_exec in Hr as (fs&->&Hr).
  assert (∀ u, Forall quiet u → Forall quiet (Ev (GetAccount (md_id (pa_metadata (ra_account authority))))
    (Ok (Some (ra_account authority))) :: map file_event fs ++ u)) as Hq.
  { intros u Hu. constructor; [done|]. apply Forall_app. split; [apply files_quiet|done]. }
  destruct r as [[token revision]|e].
  2: { destruct He as [-> ->]. rewrite <-app_assoc. eexists. split; [done|]. split; [|done].
       simpl. rewrite <-(app_nil_r (map file_event fs)). by apply Hq. }
  destruct (String.eqb_spec revision (ra_token_revision authority)) as [->|]; cbn [negb] in He.
  2: { destruct He as [-> ->]. rewrite <-app_assoc. eexists. split; [done|]. split; [|done].
       simpl. rewrite <-(app_nil_r (map file_event fs)). by apply Hq. }
  apply constrained_step in He as (final&_&[-> ->]). rewrite <-!app_assoc. eexists. split; [done|].
  split; [apply Hq; by repeat constructor|]. intros ->%is_account_true. by exists token, fs.
Qed.

Lemma ensure_exec authority error t r t' :
  svc_exec (ensure_current authority error) t r t' →
  ∃ u, t' = t ++ u ∧ Forall quiet u ∧ (r = Ok tt ∧ current_authority authority u ∨ r = Err error).
Proof.
  intros (b&s1&Hb&[-> ->])%exec_bind. apply authority_exec in Hb as (u&->&Hq&Hu). exists u. split_and!; [done|done|].
  destruct b; [left|right]; auto.
Qed.

(** What was read to act for the account. *)
Record ready (account_id token : string) (writer : CloudflareDnsSyncWriter) (authority : RequestAuthority)
    (u : list svc_event) : Prop := {
  rd_account : validate_account account_id (ra_account authority) = Ok tt;
  rd_writer : CloudflareDnsSyncWriter_new instance account_id (pa_spec (ra_account authority)) = Ok writer;
  rd_trace : ∃ permits fs checked,
    u = permits ++ Ev (GetAccount account_id) (Ok (Some (ra_account authority))) :: map file_event fs ++
          Ev (BuildApi token) (Ok tt) :: checked ∧
    resolved_as (ra_account authority) token (ra_token_revision authority) fs ∧
    current_authority authority checked;
  rd_quiet : Forall quiet u;
}.

Lemma validate_account_id account_id account :
  validate_account account_id account = Ok tt → md_id (pa_metadata account) = account_id.
Proof. unfold validate_account. destruct (String.eqb_spec (md_id (pa_metadata account)) account_id); done. Qed.

Lemma prepare_exec account_id t r t' :
  svc_exec (prepare account_id) t r t' →
  ∃ u, t' = t ++ u ∧ Forall quiet u ∧
    match r with
    | Ok (token, writer, authority) =>
        validate_account account_id (ra_account authority) = Ok tt ∧
        CloudflareDnsSyncWriter_new instance account_id (pa_spec (ra_account authority)) = Ok writer ∧
        ∃ fs, u = Ev (GetAccount account_id) (Ok (Some (ra_account authority))) :: map file_event fs ++
                    [Ev (BuildApi token) (Ok tt)] ∧
          resolved_as (ra_account authority) token (ra_token_revision authority) fs
    | Err _ => True
    end.
Proof.
  unfold prepare. intros (account&_&He)%constrained_step.
  assert (∀ u e, exec (constrained svc_answers) (Ret (Err e) : svc_prog (string * CloudflareDnsSyncWriter * RequestAuthority))
    (t ++ u) r t' → Forall quiet u → ∃ u, t' = t ++ u ∧ Forall quiet u ∧
    match r with Ok _ => False | Err _ => True end) as Hstop.
  { intros u e [-> ->] Hu. by exists u. }
  destruct account as [[account|]|]; cbn [unavailable map_err ok_or] in He;
    try (destruct (Hstop _ _ He) as (u&->&Hu&Hr); [by repeat constructor|]; exists u; by destruct r).
  destruct (validate_account account_id account) as [[]|] eqn:Hv;
    [|destruct (Hstop _ _ He) as (u&->&Hu&Hr); [by repeat constructor|]; exists u; by destruct r].
  apply exec_bind in He as (resolved&s1&Hr&He). apply resolve_token_exec in Hr as (fs&->&Hr).
  rewrite <-app_assoc in He. assert (Forall quiet ([Ev (GetAccount account_id) (Ok (Some account))] ++ map file_event fs)) as Hq
    by (constructor; [done|apply files_quiet]).
  destruct resolved as [[token revision]|e];
    [|destruct (Hstop _ _ He Hq) as (u&->&Hu&Hs); exists u; by destruct r].
  apply constrained_step in He as (api&_&He). rewrite <-app_assoc in He.
  assert (∀ x, Forall quiet (([Ev (GetAccount account_id) (Ok (Some account))] ++ map file_event fs) ++
    [Ev (BuildApi token) x])) as Hq' by (intros x; apply Forall_app; split; [done|by repeat constructor]).
  destruct api as [[]|e]; cbn [unavailable map_err] in He;
    [|destruct (Hstop _ _ He (Hq' _)) as (u&->&Hu&Hs); exists u; by destruct r].
  pose proof (validate_account_id _ _ Hv) as Hid. rewrite Hid in He.
  destruct (CloudflareDnsSyncWriter_new instance account_id (pa_spec account)) as [writer|e] eqn:Hw;
    cbn [unavailable map_err] in He;
    [|destruct (Hstop _ _ He (Hq' _)) as (u&->&Hu&Hs); exists u; by destruct r].
  destruct He as [-> ->]. eexists. split; [done|]. split; [apply Hq'|]. cbn [ra_account ra_token_revision].
  split_and!; [done|done|]. exists fs. split; [|done]. simpl. done.
Qed.

Lemma with_writer_exec {A} account_id (k : string → CloudflareDnsSyncWriter → RequestAuthority → svc_prog A) r t :
  svc_exec (with_writer account_id k) [] r t →
  (Forall quiet t ∧ ∃ e, r = Err e) ∨
  ∃ token writer authority u, ready account_id token writer authority u ∧ svc_exec (k token writer authority) u r t.
Proof.
  unfold with_writer. intros (limit&_&He)%constrained_step.
  destruct limit as [limit|e]; [|destruct He as [-> ->]; left; split; [by repeat constructor|by eexists]].
  apply constrained_step in He as (p1&_&He).
  destruct p1 as [[]|e]; [|destruct He as [-> ->]; left; split; [by repeat constructor|by eexists]].
  apply constrained_step in He as (p2&_&He).
  destruct p2 as [[]|e]; [|destruct He as [-> ->]; left; split; [by repeat constructor|by eexists]].
  apply exec_bind in He as (prepared&s1&Hp&He). apply prepare_exec in Hp as (u&->&Hq&Hp).
  set (permits := (([] ++ _) ++ _) ++ _) in *.
  assert (Forall quiet permits) as Hqp by by repeat constructor.
  destruct prepared as [[[token writer] authority]|e].
  2: { destruct He as [-> ->]. left. split; [|by eexists]. by apply Forall_app. }
  destruct Hp as (Hv&Hw&fs&->&Hres). apply exec_bind in He as (c&s2&Hc&He).
  apply ensure_exec in Hc as (checked&->&Hqc&Hc). destruct Hc as [[-> Hc]| ->].
  2: { destruct He as [-> ->]. left. split; [|by eexists]. apply Forall_app. split; [by apply Forall_app|done]. }
  right. exists token, writer, authority. eexists. split; [|exact He]. split; [done|done| |].
  - exists permits, fs, checked. split_and!; [|done|done]. rewrite <-!app_assoc. simpl. by rewrite <-app_assoc.
  - apply Forall_app. split; [by apply Forall_app|done].
Qed.

(** ** The calls of the writer *)

Definition mutates (ev : cf_event) : bool := match ev with Ev e _ => is_mutation e end.

Lemma stored_tracked token u : existsb stored (u ≫= tracked_event token) = existsb mutates u.
Proof.
  induction u as [|[X e x] u IH]; [done|]. rewrite bind_cons, existsb_app, IH. cbn [tracked_event existsb mutates].
  by destruct (is_mutation e).
Qed.
Lemma reads_unmutated u : reads u → existsb mutates u = false.
Proof. induction 1 as [|[X e x] u He _ IH]; [done|]. simpl. rewrite IH. by destruct e. Qed.
Lemma reads_harmless token u : reads u → Forall harmless (u ≫= tracked_event token).
Proof.
  induction 1 as [|[X e x] u He _ IH]; [constructor|]. rewrite bind_cons. cbn [tracked_event].
  assert (is_mutation e = false) as -> by by destruct e. apply Forall_app. split; [|done].
  repeat constructor. by destruct e.
Qed.

Lemma guarded_exec {A B} token authority (p : prog cf_call (DnsProviderResult A))
    (d nd : DnsProviderResult A → admin_result B) t r t' :
  svc_exec (guarded token authority p d nd) t r t' → existsb stored t = false →
  ∃ checked, Forall quiet checked ∧
    ((t' = t ++ checked ∧ r = Err AdminUnavailable) ∨
     current_authority authority checked ∧ ∃ outcome u post,
       t' = t ++ checked ++ (u ≫= tracked_event token) ++ post ∧ Forall quiet post ∧ exec traced p [] outcome u ∧
       if existsb mutates u
       then (r = d outcome ∧ ∃ after, post = Ev LoadDispatched true :: after ∧ current_authority authority after) ∨
            r = Err AdminUnknownOutcome
       else r = nd outcome ∨ r = Err AdminUnavailable).
Proof.
  intros He Ht. unfold guarded in He. apply exec_bind in He as (c&s1&Hc&He).
  apply ensure_exec in Hc as (checked&->&Hq&Hc). exists checked. split; [done|].
  destruct Hc as [[-> Hc]| ->]; [|left; by destruct He as [-> ->]]. right. split; [done|].
  apply exec_bind in He as (outcome&s2&Ho&He). apply tracked_exec in Ho as (u&Hu&->).
  apply constrained_step in He as (marker&Hm&He). cbn [svc_answers] in Hm.
  rewrite !existsb_app, Ht, (harmless_unstored checked), stored_tracked in Hm by by apply quiet_harmless.
  simpl in Hm. exists outcome, u.
  destruct marker; apply exec_bind in He as (c&s3&Hc'&He); apply ensure_exec in Hc' as (after&->&Hqa&Hc');
    rewrite <-Hm; exists (Ev LoadDispatched (existsb mutates u) :: after); rewrite <-Hm; rewrite <-!app_assoc in He.
  - destruct Hc' as [[-> Hc']| ->]; destruct He as [-> ->]; (split; [done|]); (split; [by constructor|]);
      (split; [done|]); [left|by right]. split; [done|]. by exists after.
  - destruct Hc' as [[-> Hc']| ->]; destruct He as [-> ->]; (split; [done|]); (split; [by constructor|]);
      (split; [done|]); [by left|by right].
Qed.

(** ** The writes *)

Inductive write_call :=
| WriteCreateZone (account_id : string) (request : CloudflareZoneCreateRequest)
| WriteDeleteZone (account_id zone_id : string) (request : CloudflareZoneDeleteRequest)
| WritePut (account_id zone_id : string) (key : CloudflareRecordSetKey) (request : CloudflareRecordSetPutRequest)
    (caller_alias : option string)
| WriteDelete (account_id zone_id : string) (key : CloudflareRecordSetKey)
    (request : CloudflareRecordSetDeleteRequest).
Inductive write_answer := ZoneWritten (zone : CloudflareZoneDto) | RecordWritten (record : CloudflareRecordSetDto) | Deleted.
Definition write_account (c : write_call) : string :=
  match c with
  | WriteCreateZone a _ | WriteDeleteZone a _ _ | WritePut a _ _ _ _ | WriteDelete a _ _ _ => a
  end.
(** What a provider error is, if the answer is one. *)
Definition err_of {A} (r : DnsProviderResult A) : option NormalizedProviderError :=
  match r with Ok _ => None | Err e => Some e end.
Definition answer_as {E : Type → Type} {A} (f : A → write_answer) (p : prog E (admin_result A)) :
    prog E (admin_result write_answer) :=
  await? v := p in Ret (Ok (f v)).
Definition operation (c : write_call) : svc_prog write_answer :=
  match c with
  | WriteCreateZone account_id request => answer_as ZoneWritten (create_operation account_id request)
  | WriteDeleteZone account_id zone_id request =>
      answer_as (λ _, Deleted) (delete_zone_operation account_id zone_id request)
  | WritePut account_id zone_id key request caller_alias =>
      answer_as RecordWritten (put_operation account_id zone_id key request caller_alias)
  | WriteDelete account_id zone_id key request =>
      answer_as (λ _, Deleted) (delete_record_operation account_id zone_id key request)
  end.
(** The methods of the service. *)
Definition perform (c : write_call) : prog (timed svc_call) (admin_result write_answer) :=
  match c with
  | WriteCreateZone account_id request => answer_as ZoneWritten (svc_create_zone account_id request)
  | WriteDeleteZone account_id zone_id request => answer_as (λ _, Deleted) (svc_delete_zone account_id zone_id request)
  | WritePut account_id zone_id key request None =>
      answer_as RecordWritten (svc_put_record_set account_id zone_id key request)
  | WritePut account_id zone_id key request (Some caller_alias) =>
      answer_as RecordWritten (svc_put_remote_record_set account_id zone_id key request caller_alias)
  | WriteDelete account_id zone_id key request =>
      answer_as (λ _, Deleted) (svc_delete_record_set account_id zone_id key request)
  end.

(** The batch was planned for [change] on a complete listing of the zone, in which
    the change's guard holds. *)
Definition planned (zone : DnsZoneRef) (change : DnsRecordChange) (u : list cf_event) (batch : CloudflareBatchRequest) :
    Prop :=
  ∃ provider_zone pages current, u = zone_reads (zr_zone_id zone) provider_zone pages ∧
    complete_listing PROVIDER_PAGE_SIZE pages ∧ aggregate_records zone (listed pages) = Ok current ∧
    guard_holds (index current) change ∧ plan_batch [change] current = Ok batch.
Definition seen (zone : DnsZoneRef) (u : list cf_event) (current : list ObservedDnsRecordSet) : Prop :=
  ∃ provider_zone pages, u = zone_reads (zr_zone_id zone) provider_zone pages ∧
    complete_listing PROVIDER_PAGE_SIZE pages ∧ aggregate_records zone (listed pages) = Ok current.

(** The mutation [ev] is the one that the call asks for; [before] are the reads of
    the writer just before it. *)
Definition asked (c : write_call) (token : string) (writer : CloudflareDnsSyncWriter) (pre : list svc_event)
    (before : list cf_event) (ev : cf_event) : Prop :=
  match c with
  | WriteCreateZone _ request =>
      ∃ answer, ev = Ev (CreateZone (mkCfCreateZone (cw_cloudflare_account_id writer) (zc_name request) KindFull)) answer
  | WriteDeleteZone _ zone_id request =>
      (∃ answer, ev = Ev (DeleteZone zone_id) answer) ∧
      ∃ p u q, pre = p ++ (u ≫= tracked_event token) ++ q ∧
        preflighted writer zone_id (zx_confirm_name request) (zx_expected_revision request) u
  | WritePut _ zone_id key request alias =>
      ∃ zone desired previous change batch answer, zr_zone_id zone = zone_id ∧
        asked_record_set request key alias = Ok desired ∧ put_change request desired previous = Ok change ∧
        planned zone change before batch ∧ ev = Ev (BatchRecords zone_id batch) answer
  | WriteDelete _ zone_id key request =>
      ∃ zone previous batch answer, zr_zone_id zone = zone_id ∧ rs_key (ob_record_set previous) = CloudflareRecordSetKey_core key ∧
        ob_revision previous = rx_expected_revision request ∧
        planned zone (DeleteChange previous (MatchObserved (rx_expected_revision request))) before batch ∧
        ev = Ev (BatchRecords zone_id batch) answer
  end.

(** The provider accepted the batch. *)
Definition batch_accepted (zone_id : string) (ev : cf_event) : Prop :=
  ∃ batch result, ev = Ev (BatchRecords zone_id batch) (Ok result).

(** What a success stands for: the mutation the provider accepted, and what was
    seen of it; [later] are the reads of the writer after the mutation. *)
Definition written (c : write_call) (writer : CloudflareDnsSyncWriter) (ev : cf_event) (later : list cf_event)
    (v : write_answer) : Prop :=
  match c with
  | WriteCreateZone _ request =>
      ∃ created observed dto,
        ev = Ev (CreateZone (mkCfCreateZone (cw_cloudflare_account_id writer) (zc_name request) KindFull)) (Ok created) ∧
        accept_zone writer (zc_name request) created = Ok observed ∧ map_zone observed = Ok dto ∧ v = ZoneWritten dto
  | WriteDeleteZone _ zone_id _ => ev = Ev (DeleteZone zone_id) (Ok zone_id) ∧ v = Deleted
  | WritePut _ zone_id key request alias =>
      ∃ zone after observed dto, zr_zone_id zone = zone_id ∧ seen zone later after ∧ observed ∈ after ∧
        asked_record_set request key alias = Ok (ob_record_set observed) ∧ map_record observed = Ok dto ∧
        (∀ a, alias = Some a → rd_control dto = Remote a) ∧ v = RecordWritten dto ∧
        batch_accepted zone_id ev
  | WriteDelete _ zone_id key _ =>
      ∃ zone after, zr_zone_id zone = zone_id ∧ seen zone later after ∧
        (∀ o, o ∈ after → rs_key (ob_record_set o) ≠ CloudflareRecordSetKey_core key) ∧ v = Deleted ∧
        batch_accepted zone_id ev
  end.
Definition refusal (ev : cf_event) : option NormalizedProviderError :=
  match ev with
  | @Ev _ X e x =>
      match e in cf_call X return X → option NormalizedProviderError with
      | CreateZone _ => λ x, err_of x | DeleteZone _ => λ x, err_of x | PatchDnssec _ _ => λ x, err_of x
      | BatchRecords _ _ => λ x, err_of x | _ => λ _, None
      end x
  end.

(** What acting for the account means when a mutation is sent: the account and its
    token were read, and the authority was checked last. *)
Record acting (account_id token : string) (writer : CloudflareDnsSyncWriter) (authority : RequestAuthority)
    (pre : list svc_event) : Prop := {
  ac_ready : ∃ u m, pre = u ++ m ∧ ready account_id token writer authority u;
  ac_current : ∃ p checked, pre = p ++ checked ∧ current_authority authority checked;
  ac_harmless : Forall harmless pre;
}.

Definition ran (c : write_call) (r : admin_result write_answer) (t : list svc_event) : Prop :=
  (Forall harmless t ∧ ∃ e, r = Err e) ∨
  ∃ token writer authority pre before ev later rest,
    t = pre ++ (before ≫= tracked_event token) ++ tracked_event token ev ++ (later ≫= tracked_event token) ++ rest ∧
    acting (write_account c) token writer authority pre ∧ reads before ∧ mutates ev = true ∧ reads later ∧
    Forall harmless rest ∧ asked c token writer pre before ev ∧
    (r = Err AdminUnknownOutcome ∨ (∃ e, refusal ev = Some e ∧ r = Err (map_provider_error e)) ∨
     ∃ v q final, r = Ok v ∧ written c writer ev later v ∧ rest = q ++ final ∧ current_authority authority final).

Lemma ready_acting account_id token writer authority u :
  ready account_id token writer authority u → acting account_id token writer authority u.
Proof.
  intros [Ha Hw (p&fs&checked&->&Hr&Hc) Hq]. split; [| |by apply quiet_harmless].
  - eexists _, []. rewrite app_nil_r. split; [done|]. split; [done|done| |done]. by exists p, fs, checked.
  - exists (p ++ Ev (GetAccount account_id) (Ok (Some (ra_account authority))) :: map file_event fs ++ [Ev (BuildApi token) (Ok tt)]), checked.
    split; [|done]. rewrite <-app_assoc. simpl. by rewrite <-app_assoc.
Qed.
Lemma ready_checked account_id token writer authority u m checked :
  ready account_id token writer authority u → Forall harmless m → Forall quiet checked →
  current_authority authority checked → acting account_id token writer authority (u ++ m ++ checked).
Proof.
  intros Hu Hm Hq Hc. split.
  - by exists u, (m ++ checked).
  - exists (u ++ m), checked. by rewrite <-app_assoc.
  - apply Forall_app. split; [apply quiet_harmless, (rd_quiet _ _ _ _ _ Hu)|]. apply Forall_app.
    split; [done|by apply quiet_harmless].
Qed.

Lemma observe_zone_reads writer zone_id : calls_only is_read (observe_zone writer zone_id).
Proof.
  unfold observe_zone. destruct (or_invalid _ _); [|done]. destruct (negb _); [done|]. split; [done|].
  by intros [z|].
Qed.

(** A read of the writer whose error is mapped. *)
Lemma tracked_read_exec {A} token (p : prog cf_call (DnsProviderResult A)) t r t' :
  calls_only is_read p →
  svc_exec (pbind (tracked token p) (λ r, Ret (provider_result r))) t r t' →
  ∃ o u, exec traced p [] o u ∧ r = provider_result o ∧ t' = t ++ (u ≫= tracked_event token) ∧
    Forall harmless (u ≫= tracked_event token).
Proof.
  intros Hp (o&s1&Ho&[-> ->])%exec_bind. apply tracked_exec in Ho as (u&Hu&->). exists o, u. split_and!; [done..|].
  destruct (exec_reads _ _ _ _ Hp Hu) as (v&->&Hv). by apply reads_harmless.
Qed.

Lemma observe_exact_zone_exec token writer account_id zone_id t r t' :
  svc_exec (observe_exact_zone token writer account_id zone_id) t r t' →
  ∃ u, t' = t ++ u ∧ Forall harmless u ∧ ∀ zone, r = Ok zone → zr_zone_id zone = zone_id.
Proof.
  intros (o&s1&Ho&He)%exec_bind. apply tracked_read_exec in Ho as (o'&u&_&->&->&Hu); [|apply observe_zone_reads].
  exists (u ≫= tracked_event token). destruct o' as [[observed|]|]; cbn [provider_result map_err ok_or] in He;
    [|by destruct He as [-> ->]..].
  destruct (_ || _) eqn:E in He; destruct He as [-> ->]; split_and!; [done|done|done|done|done|].
  intros z [= <-]. apply orb_false_iff in E as [E _]. apply orb_false_iff in E as [E _].
  apply orb_false_iff in E as [_ E%negb_false_iff]. by apply String.eqb_eq in E.
Qed.

Lemma observe_previous_exec token writer zone key t r t' :
  svc_exec (pbind (tracked token (observe_record_set writer zone key)) (λ r, Ret (provider_result r))) t r t' →
  ∃ u, t' = t ++ u ∧ Forall harmless u ∧ ∀ o, r = Ok (Some o) → rs_key (ob_record_set o) = key.
Proof.
  intros Ho. apply tracked_read_exec in Ho as (o&u&Ho&->&->&Hu); [|apply observe_record_set_reads].
  exists (u ≫= tracked_event token). split_and!; [done|done|]. intros x Hx. destruct o as [o|]; [|done].
  injection Hx as ->. apply observe_record_set_exec in Ho as (pz&pages&current&_&_&_&Ho).
  destruct (base.filter _ current) as [|y l] eqn:Ef; [done|]. injection Ho as ->.
  assert (y ∈ base.filter (λ r, rs_key (ob_record_set r) = key) current) as Hin by (rewrite Ef; by left).
  by apply list_elem_of_filter in Hin as [? _].
Qed.

Lemma zone_reads_read zone_id provider_zone pages : reads (zone_reads zone_id provider_zone pages).
Proof.
  unfold zone_reads. constructor; [done|]. generalize 1%Z as n.
  induction pages as [|x pages IH]; intros n; simpl; [constructor|]. constructor; [done|apply IH].
Qed.

Lemma apply_guarded_exec {B} token writer authority zone change (d nd : DnsProviderResult CloudflareDnsSyncRecordOutcome → admin_result B)
    t r t' :
  (∀ e, ∃ e', nd (Err e) = Err e') →
  svc_exec (guarded token authority (apply_record_change writer zone change) d nd) t r t' → existsb stored t = false →
  (∃ u, t' = t ++ u ∧ Forall harmless u ∧ ∃ e, r = Err e) ∨
  ∃ checked before batch answer later rest,
    t' = t ++ checked ++ (before ≫= tracked_event token) ++
           tracked_event token (Ev (BatchRecords (zr_zone_id zone) batch) answer) ++ (later ≫= tracked_event token) ++ rest ∧
    Forall quiet checked ∧ current_authority authority checked ∧ planned zone change before batch ∧ reads before ∧
    reads later ∧ Forall harmless rest ∧
    (r = Err AdminUnknownOutcome ∨
     ∃ outcome final, r = d outcome ∧ rest = [Ev LoadDispatched true] ++ final ∧ current_authority authority final ∧
       match answer with
       | Err e => outcome = Err e
       | Ok _ => is_unknown outcome ∨ ∃ after, seen zone later after ∧ confirmed change after outcome
       end).
Proof.
  intros Hnd He Ht. destruct (guarded_exec _ _ _ _ _ _ _ _ He Ht) as (checked&Hq&[[-> ->]|(Hc&outcome&u&post&->&Hp&Hu&Hr)]).
  { left. exists checked. split_and!; [done|by apply quiet_harmless|by eexists]. }
  apply apply_change_exec in Hu as [[(v&->&Hv) [e ->]]|(pz&pages&current&batch&answer&later&->&Hl&Hcl&Ha&Hvd&Hpl&Hans)].
  - left. eexists. split; [done|]. cbn [app] in *. rewrite reads_unmutated in Hr by done. split.
    + apply Forall_app. split; [by apply quiet_harmless|]. apply Forall_app.
      split; [by apply reads_harmless|by apply quiet_harmless].
    + destruct Hr as [->| ->]; [apply Hnd|by eexists].
  - right. exists checked, (zone_reads (zr_zone_id zone) pz pages), batch, answer, later, post.
    cbn [app] in *. rewrite existsb_app in Hr. cbn [existsb mutates is_mutation] in Hr. rewrite orb_true_r in Hr. simpl in Hr.
    split_and!; [|done|done| |apply zone_reads_read|done|by apply quiet_harmless|].
    + rewrite bind_app, bind_cons. by rewrite <-!app_assoc.
    + exists pz, pages, current. split_and!; try done.
      pose proof (plan_batch_Ok _ _ _ Hpl) as (Hg&_). by apply Forall_cons in Hg as [Hg _].
    + destruct Hr as [[-> (after&->&Hcur)]| ->]; [|by left]. right. exists outcome, after. split_and!; [done..|].
      destruct answer as [result|e]; [|apply Hans]. destruct Hans as [?|(az&aps&aft&->&Hcl'&Ha'&_&Hcf)]; [by left|].
      right. exists aft. split; [|done]. by exists az, aps.
Qed.

Lemma answer_as_exec {A} f (p : svc_prog A) t r t' :
  svc_exec (answer_as f p) t r t' →
  ∃ r0, svc_exec p t r0 t' ∧ r = match r0 with Ok v => Ok (f v) | Err e => Err e end.
Proof. intros (r0&s1&Hr0&He)%exec_bind. exists r0. destruct r0; destruct He as [-> ->]; auto. Qed.

Lemma ready_unstored account_id token writer authority u :
  ready account_id token writer authority u → existsb stored u = false.
Proof. intros Hu. apply harmless_unstored, quiet_harmless, (rd_quiet _ _ _ _ _ Hu). Qed.

Lemma unsent_err {A B} (e : NormalizedProviderError) : ∃ e', @unsent A B (Err e) = Err e'.
Proof. by eexists. Qed.

Lemma record_write_ran {B} (f : B → write_answer) c token writer authority zone change d nd u m r t :
  ready (write_account c) token writer authority u → Forall harmless m →
  svc_exec (guarded token authority (apply_record_change writer zone change) d nd) (u ++ m) r t →
  (∀ e, ∃ e', nd (Err e) = Err e') → (∀ e, d (Err e) = Err (map_provider_error e)) →
  (∀ pre before batch answer, planned zone change before batch →
     asked c token writer pre before (Ev (BatchRecords (zr_zone_id zone) batch) answer)) →
  (∀ ev later after outcome, batch_accepted (zr_zone_id zone) ev →
     seen zone later after → confirmed change after outcome →
     d outcome = Err AdminUnknownOutcome ∨ ∃ v, d outcome = Ok v ∧ written c writer ev later (f v)) →
  ran c (match r with Ok v => Ok (f v) | Err e => Err e end) t.
Proof.
  intros Hu Hm He Hnd Hd Hask Hdone.
  apply apply_guarded_exec in He as [(v&->&Hv&e&->)|(checked&before&batch&answer&later&rest&->&Hq&Hc&Hpl&Hbr&Hlr&Hrest&Hr)].
  - left. split; [|by eexists]. pose proof (quiet_harmless _ (rd_quiet _ _ _ _ _ Hu)).
    by repeat (apply Forall_app; split).
  - right. exists token, writer, authority, (u ++ m ++ checked), before, (Ev (BatchRecords (zr_zone_id zone) batch) answer), later, rest.
    split_and!; [by rewrite <-!app_assoc|by apply ready_checked|done|done|done|done|by apply Hask|].
    destruct Hr as [->|(outcome&final&->&->&Hcur&Hans)]; [by left|]. destruct answer as [result|e].
    2: { right; left. exists e. rewrite Hans, Hd. by split. }
    destruct Hans as [[code ->]|(after&Hseen&Hcf)]; [left; by rewrite Hd|].
    destruct (Hdone (Ev (BatchRecords (zr_zone_id zone) batch) (Ok result)) _ _ _ ltac:(by eexists _, _) Hseen Hcf) as [->|(v&->&Hw)]; [by left|].
    right; right. by exists (f v), [Ev LoadDispatched true], final.
  - done.
  - rewrite existsb_app, (ready_unstored _ _ _ _ _ Hu), harmless_unstored by done. done.
Qed.

Lemma put_change_desired request desired previous change :
  put_change request desired previous = Ok change → desired_record_set change = Some desired.
Proof.
  unfold put_change. destruct (pu_guard request), previous as [o|]; try done.
  - by intros [= <-].
  - destruct (String.eqb _ _); [|done]. by intros [= <-].
Qed.

(** A confirmed put is a success, or its answer cannot be given. *)
Lemma put_confirmed request key alias zone desired previous change account_id writer ev later after outcome :
  asked_record_set request key alias = Ok desired → put_change request desired previous = Ok change →
  batch_accepted (zr_zone_id zone) ev → seen zone later after → confirmed change after outcome →
  put_answer alias outcome = Err AdminUnknownOutcome ∨
  ∃ v, put_answer alias outcome = Ok v ∧
    written (WritePut account_id (zr_zone_id zone) key request alias) writer ev later (RecordWritten v).
Proof.
  intros Hd Hch Hacc Hseen Hcf. unfold confirmed in Hcf. rewrite (put_change_desired _ _ _ _ Hch) in Hcf.
  destruct Hcf as (o&Ho&Heq&->). cbn [put_answer].
  destruct (map_record o) as [dto|] eqn:Hmap; cbn [map_err]; [|by left].
  destruct (is_some_and _ alias) eqn:Hal; [by left|]. right. exists dto. split; [done|].
  exists zone, after, o, dto. split_and!; try done; [by rewrite Heq|]. intros a ->. cbn in Hal.
  by apply negb_false_iff, bool_decide_eq_true in Hal.
Qed.

Lemma put_ran account_id zone_id key request alias r t :
  svc_exec (operation (WritePut account_id zone_id key request alias)) [] r t →
  ran (WritePut account_id zone_id key request alias) r t.
Proof.
  intros (r0&He&->)%answer_as_exec. unfold put_operation in He.
  apply with_writer_exec in He as [[Hq [e ->]]|(token&writer&authority&u&Hu&He)].
  { left. split; [by apply quiet_harmless|by eexists]. }
  pose proof (quiet_harmless _ (rd_quiet _ _ _ _ _ Hu)) as Hhu.
  assert (∀ m e, Forall harmless m → ran (WritePut account_id zone_id key request alias) (Err e) (u ++ m)) as Hstop.
  { intros m e Hm. left. split; [by apply Forall_app|by eexists]. }
  apply exec_bind in He as (z&s1&Hz&He). apply observe_exact_zone_exec in Hz as (m1&->&Hm1&Hzone).
  destruct z as [zone|e]; [|destruct He as [-> ->]; by apply Hstop].
  destruct (reject_apex_ns_record_set zone _) as [[]|e]; [|destruct He as [-> ->]; by apply Hstop].
  destruct (asked_record_set request key alias) as [desired|e] eqn:Hd; cbn [map_err] in He;
    [|destruct He as [-> ->]; by apply Hstop].
  apply exec_bind in He as (previous&s2&Hp&He). apply observe_previous_exec in Hp as (m2&->&Hm2&_).
  rewrite <-app_assoc in He. assert (Forall harmless (m1 ++ m2)) as Hm by by apply Forall_app.
  destruct previous as [previous|e]; [|destruct He as [-> ->]; by apply Hstop].
  destruct (put_change request desired previous) as [change|e] eqn:Hch; [|destruct He as [-> ->]; by apply Hstop].
  specialize (Hzone _ eq_refl). subst zone_id.
  eapply record_write_ran; [exact Hu|exact Hm|exact He|apply unsent_err|done| |].
  - intros pre before batch answer Hpl. by exists zone, desired, previous, change, batch, answer.
  - intros ev later after outcome. by eapply put_confirmed.
Qed.

Lemma delete_ran account_id zone_id key request r t :
  svc_exec (operation (WriteDelete account_id zone_id key request)) [] r t →
  ran (WriteDelete account_id zone_id key request) r t.
Proof.
  intros (r0&He&->)%answer_as_exec. unfold delete_record_operation in He.
  apply with_writer_exec in He as [[Hq [e ->]]|(token&writer&authority&u&Hu&He)].
  { left. split; [by apply quiet_harmless|by eexists]. }
  pose proof (quiet_harmless _ (rd_quiet _ _ _ _ _ Hu)) as Hhu.
  assert (∀ m e, Forall harmless m → ran (WriteDelete account_id zone_id key request) (Err e) (u ++ m)) as Hstop.
  { intros m e Hm. left. split; [by apply Forall_app|by eexists]. }
  apply exec_bind in He as (z&s1&Hz&He). apply observe_exact_zone_exec in Hz as (m1&->&Hm1&Hzone).
  destruct z as [zone|e]; [|destruct He as [-> ->]; by apply Hstop].
  destruct (reject_apex_ns_record_set zone _) as [[]|e]; [|destruct He as [-> ->]; by apply Hstop].
  apply exec_bind in He as (previous&s2&Hp&He). apply observe_previous_exec in Hp as (m2&->&Hm2&Hkey).
  rewrite <-app_assoc in He. assert (Forall harmless (m1 ++ m2)) as Hm by by apply Forall_app.
  destruct previous as [[previous|]|e]; cbn [ok_or] in He; [|destruct He as [-> ->]; by apply Hstop..].
  destruct (String.eqb_spec (ob_revision previous) (rx_expected_revision request)) as [Hrev|]; cbn [negb] in He;
    [|destruct He as [-> ->]; by apply Hstop].
  specialize (Hzone _ eq_refl). specialize (Hkey _ eq_refl). subst zone_id.
  eapply (record_write_ran (λ _ : (), Deleted)); [exact Hu|exact Hm|exact He|apply unsent_err|done| |].
  - intros pre before batch answer Hpl. by exists zone, previous, batch, answer.
  - intros ev later after outcome Hacc Hseen Hcf. right. destruct Hcf as [-> Hcf]. exists (). split; [done|].
    exists zone, after. split_and!; try done. intros o Ho. rewrite <-Hkey. by apply Hcf.
Qed.

Lemma accept_zone_err writer apex created e : accept_zone writer apex created = Err e → map_provider_error e = AdminUnknownOutcome.
Proof.
  unfold accept_zone. destruct (_ || _); [by intros [= <-]|].
  destruct (map_zone_inventory_for_account _ _ _); cbn [map_err]; [|by intros [= <-]].
  destruct (_ || _); [by intros [= <-]|done].
Qed.

Lemma create_ran account_id request r t :
  svc_exec (operation (WriteCreateZone account_id request)) [] r t → ran (WriteCreateZone account_id request) r t.
Proof.
  intros (r0&He&->)%answer_as_exec. unfold create_operation in He.
  apply with_writer_exec in He as [[Hq [e ->]]|(token&writer&authority&u&Hu&He)].
  { left. split; [by apply quiet_harmless|by eexists]. }
  apply exec_bind in He as (o&s1&Ho&He). apply exec_bind in Ho as (o'&s2&Ho&[-> ->]).
  apply tracked_exec in Ho as (v&Hv&->). unfold CloudflareWriter.create_zone in Hv.
  apply traced_step in Hv as [created Hv].
  assert (∀ rest r', let ev := Ev (CreateZone (mkCfCreateZone (cw_cloudflare_account_id writer) (zc_name request) KindFull)) created in
    t = u ++ tracked_event token ev ++ rest → Forall harmless rest →
    (r' = Err AdminUnknownOutcome ∨ (∃ e, refusal ev = Some e ∧ r' = Err (map_provider_error e)) ∨
     ∃ v q final, r' = Ok v ∧ written (WriteCreateZone account_id request) writer ev [] v ∧
       rest = q ++ final ∧ current_authority authority final) → ran (WriteCreateZone account_id request) r' t) as Hdone.
  { intros rest r' ev Ht Hrest Hr. right. exists token, writer, authority, u, [], ev, [], rest.
    split_and!; [exact Ht|by apply ready_acting|constructor|done|constructor|done| |exact Hr]. by exists created. }
  destruct created as [created|e].
  2: { destruct Hv as [-> ->]. destruct He as [-> ->]. apply (Hdone []); [by rewrite app_nil_r|constructor|].
       right; left. by exists e. }
  destruct Hv as [-> ->]. destruct (accept_zone writer (zc_name request) created) as [observed|e] eqn:Ha; cbn [provider_result map_err] in He.
  2: { destruct He as [-> ->]. apply (Hdone []); [by rewrite app_nil_r|constructor|]. left. f_equal. by eapply accept_zone_err. }
  apply exec_bind in He as (c&s3&Hc&He). apply ensure_exec in Hc as (after&->&Hqa&Hc).
  assert (t = u ++ tracked_event token (Ev (CreateZone (mkCfCreateZone (cw_cloudflare_account_id writer) (zc_name request) KindFull)) (Ok created)) ++ after) as Ht.
  { destruct Hc as [[-> _]| ->]; destruct He as [_ ->]; by rewrite <-app_assoc. }
  apply (Hdone after); [exact Ht|by apply quiet_harmless|].
  destruct Hc as [[-> Hc]| ->]; destruct He as [-> _]; [|by left]. unfold map_post_dispatch_zone.
  destruct (map_zone observed) as [dto|] eqn:Hm; cbn [map_err]; [|by left]. right; right.
  exists (ZoneWritten dto), [], after. split_and!; [done| |done|done]. by exists created, observed, dto.
Qed.

Lemma delete_zone_ran account_id zone_id request r t :
  svc_exec (operation (WriteDeleteZone account_id zone_id request)) [] r t →
  ran (WriteDeleteZone account_id zone_id request) r t.
Proof.
  intros (r0&He&->)%answer_as_exec. unfold delete_zone_operation in He.
  apply with_writer_exec in He as [[Hq [e ->]]|(token&writer&authority&u&Hu&He)].
  { left. split; [by apply quiet_harmless|by eexists]. }
  pose proof (quiet_harmless _ (rd_quiet _ _ _ _ _ Hu)) as Hhu.
  apply exec_bind in He as (g&s1&Hg&He). apply tracked_read_exec in Hg as (g'&m&Hg&->&->&Hm); [|apply preflight_reads].
  destruct g' as [guard|e]; cbn [provider_result map_err] in He.
  2: { destruct He as [-> ->]. left. split; [by apply Forall_app|by eexists]. }
  apply preflight_exec in Hg as (->&m'&->&Hpre). cbn [app] in *.
  destruct (guarded_exec _ _ _ _ _ _ _ _ He) as (checked&Hq&[[-> ->]|(Hc&outcome&v&post&->&Hp&Hv&Hr)]).
  { rewrite existsb_app, (ready_unstored _ _ _ _ _ Hu), harmless_unstored by done. done. }
  { left. split; [|by eexists]. pose proof (quiet_harmless _ Hq). by repeat (apply Forall_app; split). }
  unfold CloudflareWriter.delete_zone in Hv. cbn [gd_writer_instance gd_zone_id] in Hv. rewrite Nat.eqb_refl in Hv.
  cbn [negb] in Hv. apply traced_step in Hv as [ack Hv].
  assert (v = [Ev (DeleteZone zone_id) ack]) as ->.
  { destruct ack as [ack|]; [|by destruct Hv]. by destruct (negb _); destruct Hv. }
  cbn [existsb mutates is_mutation orb] in Hr. right.
  exists token, writer, authority, (u ++ (m' ≫= tracked_event token) ++ checked), [], (Ev (DeleteZone zone_id) ack), [], post.
  split_and!; [|by apply ready_checked|constructor|done|constructor|by apply quiet_harmless| |].
  - by rewrite <-!app_assoc.
  - split; [by exists ack|]. by exists u, m', checked.
  - destruct Hr as [[-> (final&->&Hcur)]| ->]; [|by left]. destruct ack as [ack|e]; [|destruct Hv as [-> _]; right; left; by exists e].
    destruct (String.eqb_spec ack zone_id) as [->|]; cbn [negb] in Hv; destruct Hv as [-> _]; [|by left].
    right; right. by exists Deleted, [Ev LoadDispatched true], final.
Qed.

Lemma operation_ran c r t : svc_exec (operation c) [] r t → ran c r t.
Proof.
  destruct c; [apply create_ran|apply delete_zone_ran|apply put_ran|apply delete_ran].
Qed.

(** ** Under the deadline *)

(** A mutation is sent; it may not be answered in time. *)
Definition sends (ev : timed_svc) : bool :=
  match ev with
  | Ev e _ => match e with Sync e | Await e => match e with Api _ e => is_mutation e | _ => false end end
  end.
Definition unsent_trace (t : list timed_svc) : Prop := Forall (λ ev, sends ev = false) t.
Definition in_time (t : list svc_event) : list timed_svc := map (timed_event svc_awaits) t.
(** The call of [ev], with its answer if that came in time. *)
Definition sent (token : string) (ev : cf_event) (answered : bool) : timed_svc :=
  match ev with Ev e x => Ev (Await (Api token e)) (if answered then Some x else None) end.
Definition pending (ev : svc_event) : timed_svc := match ev with Ev e _ => Ev (Await e) None end.
Definition awaited (ev : svc_event) : bool := match ev with Ev e _ => svc_awaits _ e end.

Lemma harmless_unsent u : Forall harmless u → unsent_trace (in_time u).
Proof.
  induction 1 as [|[X e x] u He _ IH]; [constructor|]. constructor; [|exact IH]. cbn [timed_event].
  destruct (svc_awaits X e); by destruct e.
Qed.
Lemma harmless_pending ev : harmless ev → sends (pending ev) = false.
Proof. destruct ev as [X e x]. by destruct e. Qed.
Lemma mutation_awaits token X (e : cf_call X) : is_mutation e = true → svc_awaits X (Api token e) = true.
Proof. by destruct e. Qed.
Lemma in_time_app t u : in_time (t ++ u) = in_time t ++ in_time u.
Proof. apply map_app. Qed.
Lemma in_time_mutation token ev :
  mutates ev = true → in_time (tracked_event token ev) = [Ev (Sync StoreDispatched) (); sent token ev true].
Proof.
  destruct ev as [X e x]. cbn [mutates tracked_event]. intros Hm. rewrite Hm. unfold in_time. cbn [app map timed_event sent].
  by rewrite (mutation_awaits token X e Hm).
Qed.

Lemma answer_as_timed {A} f (p : prog (timed svc_call) (admin_result A)) t r t' :
  timed_exec (answer_as f p) t r t' →
  ∃ r0, timed_exec p t r0 t' ∧ r = match r0 with Ok v => Ok (f v) | Err e => Err e end.
Proof. intros (r0&s1&Hr0&He)%exec_bind. exists r0. destruct r0; destruct He as [-> ->]; auto. Qed.

(** How a run under the deadline relates to a run of the operation. *)
Definition cut_short (p : svc_prog write_answer) (r : admin_result write_answer) (t : list timed_svc) : Prop :=
  ∃ u ev r' w, awaited ev = true ∧ svc_exec p [] r' (u ++ ev :: w) ∧
    t = in_time u ++ [pending ev; Ev (Sync LoadDispatched) (existsb stored u)] ∧
    r = Err (if existsb stored u then AdminUnknownOutcome else AdminUnavailable).

Lemma within_deadline_exec {A} f (p : svc_prog A) r t :
  timed_exec (answer_as f (within_deadline p)) [] r t →
  (∃ u, t = in_time u ∧ svc_exec (answer_as f p) [] r u) ∨ cut_short (answer_as f p) r t.
Proof.
  intros (r0&He&->)%answer_as_timed. apply exec_bind in He as (o&s1&Ho&He).
  assert (∀ r0 v, svc_exec p [] r0 v →
    svc_exec (answer_as f p) [] match r0 with Ok v => Ok (f v) | Err e => Err e end v) as Has.
  { intros r1 v Hv. apply exec_bind. exists r1, v. split; [done|]. by destruct r1. }
  apply (deadline_exec svc_awaits svc_answers p []) in Ho as [(a&u&->&->&Hu)|(->&u&X&e&Ha&->&x&a&w&Hu)];
    [| |apply svc_answerable].
  - destruct He as [-> ->]. left. exists u. split; [done|by apply Has].
  - apply constrained_step in He as (d&Hd&[-> ->]). right. cbn [timed_answers svc_answers] in Hd.
    rewrite untimed_app, untimed_timed in Hd. simpl in Hd. rewrite app_nil_r in Hd. subst d.
    eexists u, (Ev e x), _, w. split_and!; [done|by apply Has| |done]. by rewrite <-app_assoc.
Qed.

Lemma perform_exec c r t :
  timed_exec (perform c) [] r t →
  (t = [] ∧ ∃ e, r = Err e) ∨ (∃ u, t = in_time u ∧ svc_exec (operation c) [] r u) ∨ cut_short (operation c) r t.
Proof.
  destruct c as [account_id request|account_id zone_id request|account_id zone_id key request [alias|]|
                 account_id zone_id key request]; cbn [perform operation].
  1,2: intros He; right; by apply within_deadline_exec.
  all: unfold svc_put_remote_record_set, svc_put_record_set, put_record_set_inner, svc_delete_record_set;
    destruct (reject_soa_record_set _) as [[]|e];
    [intros He; right; by apply within_deadline_exec|intros [-> ->]; left; split; [done|by eexists]].
Qed.

(** What a mutation that was sent, answered or not, is known to be. *)
Definition sent_run (c : write_call) (r : admin_result write_answer) (t : list timed_svc) : Prop :=
  ∃ token writer authority pre before ev answered post,
    t = in_time (pre ++ (before ≫= tracked_event token)) ++ Ev (Sync StoreDispatched) () :: sent token ev answered :: post ∧
    acting (write_account c) token writer authority pre ∧ reads before ∧ mutates ev = true ∧
    asked c token writer pre before ev ∧ unsent_trace post ∧
    (r = Err AdminUnknownOutcome ∨
     answered = true ∧
       ((∃ e, refusal ev = Some e ∧ r = Err (map_provider_error e)) ∨
        ∃ v later q final, r = Ok v ∧ written c writer ev later v ∧ reads later ∧
          post = in_time ((later ≫= tracked_event token) ++ q ++ final) ∧ current_authority authority final)).

Lemma ran_sent c r u : ran c r u → (unsent_trace (in_time u) ∧ ∃ e, r = Err e) ∨ sent_run c r (in_time u).
Proof.
  intros [[Hh He]|(token&writer&authority&pre&before&ev&later&rest&->&Hac&Hb&Hm&Hl&Hrest&Hask&Hr)].
  - left. split; [by apply harmless_unsent|done].
  - right. exists token, writer, authority, pre, before, ev, true, (in_time ((later ≫= tracked_event token) ++ rest)).
    split_and!; try done.
    + rewrite app_assoc, !in_time_app, (in_time_mutation _ _ Hm). by rewrite <-!app_assoc.
    + apply harmless_unsent, Forall_app. split; [by apply reads_harmless|done].
    + destruct Hr as [->|[Hr|(v&q&final&->&Hw&->&Hc)]]; [by left|right; split; [done|by left]|].
      right. split; [done|]. right. by exists v, later, q, final.
Qed.

Lemma cut_sent c r t : cut_short (operation c) r t → (unsent_trace t ∧ ∃ e, r = Err e) ∨ sent_run c r t.
Proof.
  intros (u&e&r'&w&Ha&Hu&->&->). apply operation_ran in Hu.
  destruct Hu as [[Hh _]|(token&writer&authority&pre&before&ev&later&rest&Ht&Hac&Hb&Hm&Hl&Hrest&Hask&_)].
  { left. split; [|by eexists]. apply Forall_app in Hh as [Hh [He _]%Forall_cons]. apply Forall_app.
    split; [by apply harmless_unsent|]. repeat constructor. by apply harmless_pending. }
  assert (Forall harmless (pre ++ (before ≫= tracked_event token))) as HP.
  { apply Forall_app. split; [apply Hac|by apply reads_harmless]. }
  assert (Forall harmless ((later ≫= tracked_event token) ++ rest)) as HZ.
  { apply Forall_app. split; [by apply reads_harmless|done]. }
  rewrite (app_assoc pre) in Ht. destruct ev as [Y e0 x0]. cbn [mutates] in Hm. cbn [tracked_event] in Ht.
  rewrite Hm in Ht. apply app_eq_inv in Ht as [(k&->&Hk)|(k&HPk&Hk)].
  - destruct k as [|k1 [|k2 k]].
    + injection Hk as <- _. done.
    + injection Hk as <- <- _. right. exists token, writer, authority, pre, before, (Ev e0 x0), false.
      eexists. split_and!; [|done|done|done|done| |].
      * rewrite in_time_app, <-app_assoc. done.
      * by repeat constructor.
      * left. rewrite existsb_app. simpl. by rewrite orb_true_r.
    + injection Hk as <- <- Hk. right. exists token, writer, authority, pre, before, (Ev e0 x0), true.
      rewrite Hk in HZ. apply Forall_app in HZ as [HZ [He _]%Forall_cons]. eexists. split_and!; [|done|done|done|done| |].
      * rewrite in_time_app, <-app_assoc. unfold in_time at 2. cbn [map timed_event].
        rewrite (mutation_awaits token Y e0 Hm). done.
      * apply Forall_app. split; [by apply harmless_unsent|]. repeat constructor. by apply harmless_pending.
      * left. rewrite existsb_app. simpl. by rewrite orb_true_r.
  - left. split; [|by eexists]. rewrite HPk in HP. apply Forall_app in HP as [HP Hk2]. apply Forall_app.
    split; [by apply harmless_unsent|]. repeat constructor. apply harmless_pending.
    destruct k as [|k1 k]; injection Hk as -> _; [done|]. by apply Forall_cons in Hk2 as [? _].
Qed.

Lemma perform_sent c r t :
  timed_exec (perform c) [] r t → (unsent_trace t ∧ ∃ e, r = Err e) ∨ sent_run c r t.
Proof.
  intros [[-> He]|[(u&->&Hu%operation_ran)|Hc]]%perform_exec.
  - left. split; [constructor|done].
  - by apply ran_sent.
  - by apply cut_sent.
Qed.

(** ** The service behind the HTTP handlers *)

Definition serve (read : ∀ X, admin_call X → prog (timed svc_call) X) (X : Type) (e : admin_call X) :
    prog (timed svc_call) X :=
  match e in admin_call X return prog (timed svc_call) X with
  | SvcCreateZone account_id request => svc_create_zone account_id request
  | SvcDeleteZone account_id zone_id request => svc_delete_zone account_id zone_id request
  | SvcPutRecordSet account_id zone_id key request => svc_put_record_set account_id zone_id key request
  | SvcPutRemoteRecordSet account_id zone_id key request caller_alias =>
      svc_put_remote_record_set account_id zone_id key request caller_alias
  | SvcDeleteRecordSet account_id zone_id key request => svc_delete_record_set account_id zone_id key request
  | e => read _ e
  end.

(** The requests of the write routes, as the handlers get them. *)
Inductive write_request :=
| PostZone (account_id : string) (body : result CloudflareZoneCreateRequest JsonRejection)
| DeleteZoneAt (account_id zone_id : string) (body : result CloudflareZoneDeleteRequest JsonRejection)
| PutRecord (account_id zone_id record_type : string) (owner : option string)
    (body : result CloudflareRecordSetPutRequest JsonRejection)
| PutRemoteRecord (claims : option UnifiedAuthClaims) (account_id zone_id record_type : string) (owner : option string)
    (body : result CloudflareRecordSetPutRequest JsonRejection)
| DeleteRecord (account_id zone_id record_type : string) (owner : option string)
    (body : result CloudflareRecordSetDeleteRequest JsonRejection).
Definition handle (service : bool) (q : write_request) : prog admin_call Response :=
  match q with
  | PostZone account_id body => CloudflareDnsApi.create_zone service account_id body
  | DeleteZoneAt account_id zone_id body => CloudflareDnsApi.delete_zone service account_id zone_id body
  | PutRecord account_id zone_id record_type owner body => put_record_set service account_id zone_id record_type owner body
  | PutRemoteRecord claims account_id zone_id record_type owner body =>
      put_remote_record_set service claims account_id zone_id record_type owner body
  | DeleteRecord account_id zone_id record_type owner body =>
      delete_record_set service account_id zone_id record_type owner body
  end.

(** What a request asks for, and the answer to a success. *)
Definition asks (q : write_request) (c : write_call) : Prop :=
  match q with
  | PostZone account_id body =>
      ∃ account_id' request, CloudResourceId_new account_id = Ok account_id' ∧ body = Ok request ∧
        c = WriteCreateZone account_id' request
  | DeleteZoneAt account_id zone_id body =>
      ∃ account_id' zone_id' request, CloudResourceId_new account_id = Ok account_id' ∧ parse_zone_id zone_id = Ok zone_id' ∧
        body = Ok request ∧ c = WriteDeleteZone account_id' zone_id' request
  | PutRecord account_id zone_id record_type owner body =>
      ∃ account_id' zone_id' key request, body = Ok request ∧
        parse_record_identity account_id zone_id record_type owner = Ok (account_id', zone_id', key) ∧
        c = WritePut account_id' zone_id' key request None
  | PutRemoteRecord claims account_id zone_id record_type owner body =>
      ∃ account_id' zone_id' key request claims' caller_alias, body = Ok request ∧ claims = Some claims' ∧
        derive_cloudflare_remote_caller_alias claims' = Ok caller_alias ∧
        parse_record_identity account_id zone_id record_type owner = Ok (account_id', zone_id', key) ∧
        c = WritePut account_id' zone_id' key request (Some caller_alias)
  | DeleteRecord account_id zone_id record_type owner body =>
      ∃ account_id' zone_id' key request, body = Ok request ∧
        parse_record_identity account_id zone_id record_type owner = Ok (account_id', zone_id', key) ∧
        c = WriteDelete account_id' zone_id' key request
  end.
Definition success (v : write_answer) : Response :=
  match v with
  | ZoneWritten zone => mkResponse 201 (ZoneBody zone)
  | RecordWritten record => mkResponse 200 (RecordBody record)
  | Deleted => mkResponse 204 EmptyBody
  end.
Definition unknown_response : Response := map_service_error AdminUnknownOutcome.

(** The handler turned the request down, or made the call it asks for and answers
    with its result. *)
Definition handled (q : write_request) (response : Response) (t : list timed_svc) : Prop :=
  (t = [] ∧ (400 <= rsp_status response)%Z) ∨
  ∃ c r, asks q c ∧ timed_exec (perform c) [] r t ∧
    match r with
    | Err e => response = map_service_error e
    | Ok v => response = success v ∨ response = unknown_response
    end.

Lemma performed {A} (f : A → write_answer) (p : prog (timed svc_call) (admin_result A)) r t :
  timed_exec p [] r t → timed_exec (answer_as f p) [] (match r with Ok v => Ok (f v) | Err e => Err e end) t.
Proof. intros Hp. apply exec_bind. exists r, t. split; [done|]. by destruct r. Qed.

Lemma refused_early {A} read (r : result A Response) k response t :
  timed_exec (interp (serve read) (match r with Ok x => k x | Err e => Ret e end)) [] response t →
  (∀ e, r = Err e → (400 <= rsp_status e)%Z) →
  (t = [] ∧ (400 <= rsp_status response)%Z) ∨
  ∃ x, r = Ok x ∧ timed_exec (interp (serve read) (k x)) [] response t.
Proof. destruct r as [x|e]; [intros He _; right; by exists x|]. intros [-> ->] Hs. left. split; [done|by apply Hs]. Qed.
Lemma bad_request_status {A} (r : result A string) e : bad_request r = Err e → (400 <= rsp_status e)%Z.
Proof. destruct r; [done|]. by intros [= <-]. Qed.
Lemma account_path_status account_id e : account_path account_id = Err e → (400 <= rsp_status e)%Z.
Proof. apply bad_request_status. Qed.
Lemma json_body_status {T} (body : result T JsonRejection) e : json_body body = Err e → (400 <= rsp_status e)%Z.
Proof. destruct body as [|[]]; [done|by intros [= <-]..]. Qed.
Lemma configured_status service e : configured service = Err e → (400 <= rsp_status e)%Z.
Proof. destruct service; [done|]. by intros [= <-]. Qed.
Lemma revision_body_status {T} f (body : result T JsonRejection) e :
  valid_revision_body f body = Err e → (400 <= rsp_status e)%Z.
Proof.
  unfold valid_revision_body. destruct (json_body body) eqn:Hb; [|intros [= <-]; by eapply json_body_status].
  destruct (is_ok _); [done|]. by intros [= <-].
Qed.
Lemma json_body_Ok {T} (body : result T JsonRejection) v : json_body body = Ok v → body = Ok v.
Proof. destruct body; [by intros [= ->]|done]. Qed.
Lemma bad_request_Ok {A} (r : result A string) v : bad_request r = Ok v → r = Ok v.
Proof. destruct r; [by intros [= ->]|done]. Qed.
Lemma account_path_Ok account_id v : account_path account_id = Ok v → CloudResourceId_new account_id = Ok v.
Proof. intros Ha%bad_request_Ok. destruct (CloudResourceId_new account_id); [by injection Ha as ->|done]. Qed.
Lemma revision_body_Ok {T} f (body : result T JsonRejection) v : valid_revision_body f body = Ok v → body = Ok v.
Proof.
  unfold valid_revision_body. destruct (json_body body) eqn:Hb; [|done]. destruct (is_ok _); [|done].
  intros [= <-]. by apply json_body_Ok.
Qed.
End service.

(** Peel one check of a handler off its run. *)
Ltac peel He lem x Hx :=
  apply refused_early in He as [Hstop|(x&Hx&He)]; [left; exact Hstop| |intros ?; apply lem].

Section stack.
Context `{Idna, RecordsDigest, Crypto} (hex_encode : string → string) (self : CloudflareDnsWriteService).
Context (instance : nat).
Abbreviation perform := (perform hex_encode self instance).
Abbreviation serve := (serve hex_encode self instance).
Abbreviation handled := (handled hex_encode self instance).

Lemma create_handled read service account_id body response t :
  timed_exec (interp (serve read) (handle service (PostZone account_id body))) [] response t →
  handled (PostZone account_id body) response t.
Proof.
  intros He. cbn [handle] in He. unfold CloudflareDnsApi.create_zone in He.
  peel He (account_path_status account_id) a Ha. peel He (json_body_status body) request Hb.
  peel He (configured_status service) u Hu. apply exec_bind in He as (r&s1&Hr&He). right.
  apply account_path_Ok in Ha. apply json_body_Ok in Hb.
  exists (WriteCreateZone a request), (match r with Ok v => Ok (ZoneWritten v) | Err e => Err e end).
  split; [by exists a, request|]. destruct r as [v|e]; cbn [interp] in He.
  - destruct (negb _); destruct He as [-> ->]; (split; [by apply (performed ZoneWritten _ (Ok v))|]); [by right|by left].
  - destruct He as [-> ->]. split; [by apply (performed ZoneWritten _ (Err e))|done].
Qed.

Lemma delete_zone_handled read service account_id zone_id body response t :
  timed_exec (interp (serve read) (handle service (DeleteZoneAt account_id zone_id body))) [] response t →
  handled (DeleteZoneAt account_id zone_id body) response t.
Proof.
  intros He. cbn [handle] in He. unfold CloudflareDnsApi.delete_zone in He.
  peel He (account_path_status account_id) a Ha. peel He (bad_request_status (parse_zone_id zone_id)) z Hz.
  peel He (revision_body_status zx_expected_revision body) request Hb.
  peel He (configured_status service) u Hu. apply exec_bind in He as (r&s1&Hr&He). right.
  apply account_path_Ok in Ha. apply bad_request_Ok in Hz. apply revision_body_Ok in Hb.
  exists (WriteDeleteZone a z request), (match r with Ok v => Ok Deleted | Err e => Err e end).
  split; [by exists a, z, request|]. destruct r as [v|e]; cbn [interp] in He; destruct He as [-> ->].
  - split; [by apply (performed (λ _, Deleted) _ (Ok v))|by left].
  - split; [by apply (performed (λ _, Deleted) _ (Err e))|done].
Qed.

Lemma put_checked_handled q service account_id zone_id key request desired control call read response t alias :
  asks q (WritePut account_id zone_id key request alias) →
  (∀ r t, timed_exec (serve read _ call) [] r t →
     timed_exec (perform (WritePut account_id zone_id key request alias)) []
       (match r with Ok v => Ok (RecordWritten v) | Err e => Err e end) t) →
  timed_exec (interp (serve read) (put_checked service account_id zone_id key request desired control call)) [] response t →
  handled q response t.
Proof.
  intros Hq Hcall He. unfold put_checked in He.
  apply refused_early in He as [Hstop|(d&Hd&He)]; [left; exact Hstop| |intros e; apply bad_request_status].
  destruct (guard_revision_invalid request); [destruct He as [-> ->]; by left|].
  peel He (configured_status service) u Hu. apply exec_bind in He as (r&s1&Hr&He). right.
  exists (WritePut account_id zone_id key request alias), (match r with Ok v => Ok (RecordWritten v) | Err e => Err e end).
  split; [done|]. apply Hcall in Hr. destruct r as [v|e]; cbn [interp] in He.
  - destruct (negb _); destruct He as [-> ->]; (split; [done|]); [by right|by left].
  - by destruct He as [-> ->].
Qed.

Lemma put_handled read service account_id zone_id record_type owner body response t :
  timed_exec (interp (serve read) (handle service (PutRecord account_id zone_id record_type owner body))) [] response t →
  handled (PutRecord account_id zone_id record_type owner body) response t.
Proof.
  intros He. cbn [handle] in He. unfold put_record_set in He.
  peel He (bad_request_status (parse_record_identity account_id zone_id record_type owner)) i Hi.
  destruct i as [[a z] key]. peel He (json_body_status body) request Hb. apply bad_request_Ok in Hi. apply json_body_Ok in Hb.
  eapply (put_checked_handled _ service a z key request _ _ _ read _ _ None); [|intros r u Hr|exact He].
  - by exists a, z, key, request.
  - by apply (performed RecordWritten _ r).
Qed.

Lemma put_remote_handled read service claims account_id zone_id record_type owner body response t :
  timed_exec (interp (serve read) (handle service (PutRemoteRecord claims account_id zone_id record_type owner body))) [] response t →
  handled (PutRemoteRecord claims account_id zone_id record_type owner body) response t.
Proof.
  intros He. cbn [handle] in He. unfold put_remote_record_set in He.
  apply refused_early in He as [Hstop|(cl&Hcl&He)]; [left; exact Hstop| |destruct claims; [done|by intros ? [= <-]]].
  apply refused_early in He as [Hstop|(al&Hal&He)]; [left; exact Hstop| |].
  2: { destruct (derive_cloudflare_remote_caller_alias cl); [done|by intros ? [= <-]]. }
  peel He (bad_request_status (parse_record_identity account_id zone_id record_type owner)) i Hi.
  destruct i as [[a z] key]. peel He (json_body_status body) request Hb. apply bad_request_Ok in Hi. apply json_body_Ok in Hb.
  eapply (put_checked_handled _ service a z key request _ _ _ read _ _ (Some al)); [|intros r u Hr|exact He].
  - exists a, z, key, request, cl, al. destruct claims; [|done]. injection Hcl as ->.
    destruct (derive_cloudflare_remote_caller_alias cl); [|done]. by injection Hal as ->.
  - by apply (performed RecordWritten _ r).
Qed.

Lemma delete_handled read service account_id zone_id record_type owner body response t :
  timed_exec (interp (serve read) (handle service (DeleteRecord account_id zone_id record_type owner body))) [] response t →
  handled (DeleteRecord account_id zone_id record_type owner body) response t.
Proof.
  intros He. cbn [handle] in He. unfold delete_record_set in He.
  peel He (bad_request_status (parse_record_identity account_id zone_id record_type owner)) i Hi.
  destruct i as [[a z] key]. destruct (bool_decide _); [destruct He as [-> ->]; by left|].
  peel He (revision_body_status rx_expected_revision body) request Hb.
  peel He (configured_status service) u Hu. apply exec_bind in He as (r&s1&Hr&He). right.
  apply bad_request_Ok in Hi. apply revision_body_Ok in Hb.
  exists (WriteDelete a z key request), (match r with Ok v => Ok Deleted | Err e => Err e end).
  split; [by exists a, z, key, request|]. destruct r as [v|e]; cbn [interp] in He; destruct He as [-> ->].
  - split; [by apply (performed (λ _, Deleted) _ (Ok v))|by left].
  - split; [by apply (performed (λ _, Deleted) _ (Err e))|done].
Qed.

Lemma handle_handled read service q response t :
  timed_exec (interp (serve read) (handle service q)) [] response t → handled q response t.
Proof.
  destruct q; [apply create_handled|apply delete_zone_handled|apply put_handled|apply put_remote_handled|apply delete_handled].
Qed.
(** C15.  A Cloudflare mutation is sent at most once, and only under a current
    authority.  Whatever the account store, the credential files, the provider and
    the clock do, and wherever the deadline strikes: a write sends at most one
    mutation, the one it was asked for, with the token of the account's credential
    (a managed Cloudflare account); last before the writer's final reads, the same
    account and the same credential revision were read again; a batch was planned
    on a complete listing in which the guard of the change holds; a zone is deleted
    only after its preflight. *)
Theorem cloudflare_write_authorized (c : write_call) (r : admin_result write_answer) (t : list timed_svc) :
  timed_exec (perform c) [] r t →
  unsent_trace t ∨
  ∃ token writer authority pre before ev answered post,
    t = in_time (pre ++ (before ≫= tracked_event token)) ++ Ev (Sync StoreDispatched) () :: sent token ev answered :: post ∧
    unsent_trace (in_time (pre ++ (before ≫= tracked_event token))) ∧ unsent_trace post ∧
    acting hex_encode self instance (write_account c) token writer authority pre ∧ mutates ev = true ∧ asked c token writer pre before ev.
Proof.
  intros [[Ht _]|(token&writer&authority&pre&before&ev&answered&post&->&Hac&Hb&Hm&Hask&Hp&_)]%perform_sent; [by left|right].
  exists token, writer, authority, pre, before, ev, answered, post. split_and!; try done.
  apply harmless_unsent, Forall_app. split; [apply Hac|by apply reads_harmless].
Qed.

(** C14.  A definite answer of the Cloudflare write API is true.  For every request
    of the five write routes, through handler, service, writer and tracked client,
    whatever the store, the files, the provider and the clock do: a success answers
    a request that asked for it, and the provider answered the one mutation sent
    with a success (the created zone, the identifier of the deleted one, or the
    result of the batch) and what was written was seen afterwards (the record set as
    asked, or its absence, in a complete listing; the acknowledged zone), under an
    authority that was still current; any other answer than an unknown outcome means that nothing was sent,
    or that the provider turned the mutation down with the error it maps to. *)
Theorem cloudflare_api_write_honest (read : ∀ X, admin_call X → prog (timed svc_call) X) (service : bool)
    (q : write_request) (response : Response) (t : list timed_svc) :
  timed_exec (interp (serve read) (handle service q)) [] response t →
  (∃ c v token writer authority pre ev later u final, asks q c ∧ response = success v ∧
     t = pre ++ sent token ev true :: in_time ((later ≫= tracked_event token) ++ u ++ final) ∧
     unsent_trace pre ∧ mutates ev = true ∧ reads later ∧ written c writer ev later v ∧
     current_authority hex_encode self authority final) ∨
  response = unknown_response ∨
  (400 <= rsp_status response)%Z ∧
    (unsent_trace t ∨ ∃ pre token ev post e, t = pre ++ sent token ev true :: post ∧ unsent_trace pre ∧
       unsent_trace post ∧ mutates ev = true ∧ refusal ev = Some e ∧ response = map_service_error (map_provider_error e)).
Proof.
  intros [[-> Hs]|(c&r&Hq&Hr&Hresp)]%handle_handled; [right; right; split; [done|left; constructor]|].
  assert (∀ e, (400 <= rsp_status (map_service_error e))%Z) as Hst by by intros [].
  apply perform_sent in Hr as [[Ht [e ->]]|(token&writer&authority&pre&before&ev&answered&post&->&Hac&Hb&Hm&Hask&Hp&Hr)].
  { right; right. rewrite Hresp. split; [apply Hst|by left]. }
  assert (unsent_trace (in_time (pre ++ (before ≫= tracked_event token)) ++ [Ev (Sync StoreDispatched) ()])) as Hpre.
  { apply Forall_app. split; [|by repeat constructor]. apply harmless_unsent, Forall_app.
    split; [apply Hac|by apply reads_harmless]. }
  destruct Hr as [->|(->&[(e&He&->)|(v&later&u&final&->&Hw&Hl&->&Hc)])]; [by right; left|right; right|].
  - rewrite Hresp. split; [apply Hst|]. right. eexists _, token, ev, post, e.
    split; [by rewrite (cons_middle (Ev (Sync StoreDispatched) ())), app_assoc|]. done.
  - destruct Hresp as [->| ->]; [left|by right; left]. eexists c, v, token, writer, authority, _, ev, later, u, final.
    split_and!; [done|done|by rewrite (cons_middle (Ev (Sync StoreDispatched) ())), app_assoc|done..].
Qed.
End stack.

(** ** A text record is replaced *)

Definition demo_managed_account : ProviderAccount :=
  mkAccount (mkMetadata "account-a" "dns" None [] 1 Managed Retain)
    (mkSpec Cloudflare (Some (ScopeCloudflare "fedcba9876543210fedcba9876543210")) (StaticSecret "dns-token"))
    (mkStatus None None []).
Definition demo_service : CloudflareDnsWriteService :=
  mkWriteService (CredentialFiles.mkResolver 0 demo_key (mkFileIdentity 1 1)
    [CredentialFiles.mkValidated "dns-token" "account-a" Cloudflare CloudflareApiTokenPurpose ["tokens"; "dns"]]) 30 4 1.
Definition demo_svc_answer (X : Type) (e : svc_call X) (t : list timed_svc) : X :=
  match e in svc_call X return X with
  | GetAccount _ => Ok (Some demo_managed_account)
  | Files e => (demo_fs _ e []).1
  | BuildApi _ => Ok tt
  | Api _ e => (demo_honest_answer _ e (if existsb sends t then mkCfProvider demo_provider_zone demo_posted else demo_state)).1
  | AccountSemaphore _ => Ok 0
  | AcquireAccount _ | AcquireGlobal => Ok tt
  | StoreDispatched => tt
  | LoadDispatched => existsb stored (untimed t)
  end.
Definition demo_timed_answer (X : Type) (e : timed svc_call X) (t : list timed_svc) : X * list timed_svc :=
  let x := match e in timed _ X return X with
           | Sync e => demo_svc_answer _ e t | Await e => Some (demo_svc_answer _ e t)
           end in (x, t ++ [Ev e x]).
Lemma demo_timed_constrained X (e : timed svc_call X) t x t' :
  demo_timed_answer X e t = (x, t') → constrained (timed_answers svc_answers) X e t x t'.
Proof. intros [= <- <-]. split; [|done]. by destruct e as [Y e|Y e]; destruct e. Qed.

Definition demo_put_request : write_request :=
  PutRecord "account-a" (zr_zone_id demo_cf_zone) "TXT" (Some "_txt.example.com")
    (Ok (mkPut (DtoMatchRevision "sha256:00") (DtoSeconds 300) [DtoTxt [mkOctets "c"]] None ProviderDefault None [])).
Definition demo_put_call : write_call :=
  WritePut "account-a" (zr_zone_id demo_cf_zone) (mkApiKey "_txt.example.com" RtTxt)
    (mkPut (DtoMatchRevision "sha256:00") (DtoSeconds 300) [DtoTxt [mkOctets "c"]] None ProviderDefault None []) None.
Definition demo_no_reads (X : Type) (e : admin_call X) : prog (timed svc_call) X :=
  match e in admin_call X return prog (timed svc_call) X with
  | SvcListZones _ _ | SvcGetZone _ _ | SvcListRecordSets _ _ _ | SvcGetRecordSet _ _ _ | SvcCreateZone _ _
  | SvcDeleteZone _ _ _ | SvcPutRecordSet _ _ _ _ | SvcPutRemoteRecordSet _ _ _ _ _
  | SvcDeleteRecordSet _ _ _ _ => Ret (Err AdminUnavailable)
  end.
Definition demo_http := run demo_timed_answer
  (interp (@serve demo_idna demo_records_digest demo_keyed_crypto (λ s, s) demo_service 1 demo_no_reads)
     (@handle demo_idna demo_keyed_crypto true demo_put_request)) [].
Definition demo_performed := run demo_timed_answer
  (@perform demo_idna demo_records_digest demo_keyed_crypto (λ s, s) demo_service 1 demo_put_call) [].
Lemma demo_http_exec : timed_exec
  (interp (@serve demo_idna demo_records_digest demo_keyed_crypto (λ s, s) demo_service 1 demo_no_reads)
     (@handle demo_idna demo_keyed_crypto true demo_put_request)) [] demo_http.1 demo_http.2.
Proof. apply (run_exec _ demo_timed_answer); [exact demo_timed_constrained|]. apply surjective_pairing. Qed.
Lemma demo_performed_exec : timed_exec
  (@perform demo_idna demo_records_digest demo_keyed_crypto (λ s, s) demo_service 1 demo_put_call) []
  demo_performed.1 demo_performed.2.
Proof. apply (run_exec _ demo_timed_answer); [exact demo_timed_constrained|]. apply surjective_pairing. Qed.

Lemma cloudflare_write_authorized_witness :
  ∃ pre token ev post, demo_performed.2 = pre ++ Ev (Sync StoreDispatched) () :: sent token ev true :: post ∧
    mutates ev = true ∧ unsent_trace post.
Proof.
  assert (existsb sends demo_performed.2 = true) as Hs by (vm_compute; reflexivity).
  assert (∃ v, demo_performed.1 = Ok v) as [v Hv] by (eexists; vm_compute; reflexivity).
  destruct (@cloudflare_write_authorized demo_idna demo_records_digest demo_keyed_crypto (λ s, s) demo_service 1
    demo_put_call demo_performed.1 demo_performed.2 demo_performed_exec)
    as [Hu|(token&writer&authority&pre&before&ev&answered&post&Ht&_&Hp&_&Hm&_)].
  - exfalso. apply existsb_exists in Hs as (x&Hin&Hx). unfold unsent_trace in Hu. rewrite Forall_forall in Hu.
    apply list_elem_of_In, Hu in Hin. rewrite Hin in Hx. discriminate Hx.
  - destruct answered.
    + eexists _, token, ev, post. split; [exact Ht|]. split; [exact Hm|exact Hp].
    + exfalso. assert (Forall (λ e : timed_svc, match e with Ev e x =>
        match e in timed _ X return X → Prop with Sync _ => λ _, True | Await _ => λ x, x ≠ None end x end) demo_performed.2) as Ha
        by (vm_compute; repeat constructor; discriminate).
      rewrite Ht in Ha. apply Forall_app in Ha as [_ Ha]. apply Forall_cons in Ha as [_ Ha].
      apply Forall_cons in Ha as [Ha _]. destruct ev as [X e x]. apply Ha. reflexivity.
Defined.

Lemma cloudflare_api_write_honest_witness :
  rsp_status demo_http.1 = 200%Z ∧ ∃ c v pre token ev post, @asks demo_idna demo_keyed_crypto demo_put_request c ∧
    demo_http.1 = success v ∧ demo_http.2 = pre ++ sent token ev true :: post ∧ mutates ev = true.
Proof.
  assert (rsp_status demo_http.1 = 200%Z) as Hs by (vm_compute; reflexivity). split; [exact Hs|].
  destruct (@cloudflare_api_write_honest demo_idna demo_records_digest demo_keyed_crypto (λ s, s) demo_service 1
    demo_no_reads true demo_put_request demo_http.1 demo_http.2 demo_http_exec)
    as [(c&v&token&writer&authority&pre&ev&later&u&final&Hq&Hr&Ht&_&Hm&_)|[Hr|[Hr _]]].
  - eexists c, v, pre, token, ev, _. split; [exact Hq|]. split; [exact Hr|]. split; [exact Ht|exact Hm].
  - rewrite Hr in Hs. discriminate Hs.
  - rewrite Hs in Hr. exfalso. apply Hr. reflexivity.
Defined.
